(* ===== verification/_CoqProject ===== *)
-Q . S2P
Prelude.v
StateMonad.v
Div64.v
Interval.v
IntervalSets.v
Mask.v
PcmFormat.v
HwParams.v
HwRefine.v
HwChoose.v
HwInit.v
PcmRuntime.v
PcmRing.v
PcmTransfer.v
PcmTimer.v
PcmState.v
PcmOps.v
PcmSafe.v
PcmLink.v
PcmCalls.v
SeqEvent.v
SeqCells.v
SeqMemory.v
SeqCopy.v
SeqPool.v
SeqPrioq.v
SeqMidi.v
SeqMidiParse.v
SeqMidiWire.v
SeqMidiLink.v
SeqFifo.v
SeqFifoSpec.v
SeqTimer.v
SeqClock.v
SeqQueue.v
SeqLive.v
SeqWorld.v
SeqCheck.v
SeqDeliver.v
SeqQueueList.v
SeqPorts.v
SeqRoute.v
SeqConnect.v
SeqMail.v
SeqRouteSpec.v
SeqWiring.v
SeqRewire.v
SeqWired.v
SeqUnport.v
SeqSmall.v
MidiEmul.v
MidiKeys.v
MidiPlay.v
Timer.v
TimerRules.v
TimerSpec.v
TimerLive.v
TimerRun.v
TimerUser.v
ByteRing.v
RawMidi.v
RawMidiRing.v
RawMidiSpec.v
RawMidiCalls.v
RawMidiRun.v
RawMidiOpen.v
Control.v
ControlRules.v
ControlCalls.v
ControlRun.v
ListHead.v
UtilMem.v
Os2Heap.v
Os2HeapSafe.v
Os2HeapFree.v
Os2HeapSpec.v
Os2Pages.v
Os2PagesSafe.v
Os2Dma.v
Os2Kernel.v
