(* ===== verification/Prelude.v ===== *)
(** * The sound core of UNIAUD, verified

    UNIAUD is ALSA's sound code, written for Linux, as an OS/2 driver.  An application's
    stream of samples goes through the PCM layer (src/alsa/core/pcm_*.c); its MIDI events go
    through the sequencer (src/alsa/core/seq/) or, as bytes, through raw MIDI (rawmidi.c);
    its volumes and switches are controls (control.c); timers (timer.c) give the pace.  All
    are independent of any chip: they call a driver through a table of functions, and are
    called back from its interrupts.  This library translates them, with the emulation of
    Linux's memory calls below them, and proves what they promise.

    ** How code is translated

    C functions are executable functions of the same name.  An [int] or [unsigned int] is
    the integer it denotes, with its wrap-around written out ([u32], [s32] below); the target is
    32-bit x86.  Structures are records, and [r <| f := v |>] is the assignment to a field.
    Code that works on one structure is a function on it; code that follows pointers or may
    fail to return is written in the monad of StateMonad, on a state that holds the heap.
    There [None] is a null or dangling pointer, a lock taken twice, or a loop that did not end
    within its fuel, and [wp m Q s] says that [m] returns from [s] and its result satisfies
    [Q]; every theorem with a [wp], or whose conclusion is an equation with [Some], proves
    that the code returns.  Fuel is the length of something the loop consumes (the cells of a
    pool, the members of a link group, the bytes of a request, the bits of a word), save in loops
    that nothing bounds.  The check of a queue takes any fuel, and the theorems say that some is enough
    and more changes nothing.  So does the refinement of parameters, but its loop need not end in the
    code: HwInit proves that it ends for the standard constraints, and PcmCalls leaves out only the
    setting of parameters whose negotiation is not over.  Where a call sleeps, what it finds when it
    wakes up is an argument; a call that is left asleep is a result of its own (raw MIDI, timers,
    controls).
    Copies between the kernel and an application return 0 on OS/2 (lib32/memory.cpp), which is how
    [copy_to_user] and [copy_from_user] are modelled; the callers' tests of their results are kept.

    ** The PCM layer (alsa/core/pcm_lib.c, pcm_native.c, pcm_misc.c, pcm_timer.c)

    A substream is set up by narrowing a space of configurations: an interval of values for
    each numeric parameter and a mask for each enumerated one.  Then its runtime keeps two
    pointers into a ring of frames, the hardware's and the application's; interrupts advance the
    first and transfers the second.  A state machine says which calls are allowed when.
    Substreams may be linked, and then start, stop and pause together.

    - Div64: [div64_32] of include/sound/pcm.h, the division that interval arithmetic needs.
    - Interval, IntervalSets: the [snd_interval_*] functions; an interval denotes a set of
      rationals, and each function is shown to contain, or compute exactly, the set it is named for.
    - Mask: the [snd_mask_*] functions.
    - PcmFormat: sample widths and silence (pcm_misc.c).
    - HwParams: the parameter space, the rules between parameters and [snd_pcm_hw_refine].
      HwRefine: refinement terminates and loses no solution.  HwInit: the rules every
      substream starts with, and that a standard configuration survives them.
      HwChoose: [snd_pcm_hw_param_near] and the other ways to ask for a value.
    - PcmRuntime: the runtime, position updates, silence, and the part of hw_params that
      computes the geometry.  PcmRing: the pointers count frames modulo [boundary]; the theorems
      relate them to unbounded counts.  PcmTransfer: the write and read loops, with the
      interrupts that arrive while they sleep or copy.
    - PcmTimer: the resolution of the period timer.
    - PcmState: the heap of substreams, the locks, and the two-phase actions on a link
      group.  PcmOps: the calls of pcm_native.c.  PcmSafe, PcmLink, PcmCalls: from a world
      in order every call returns, without deadlock, and leaves the world in order.

    A division by 0 traps: the functions on a runtime come with the divisors they reach, which
    are checked where they are called; PcmOps records a trap in [w_trapped], and the loops of
    PcmTransfer are [None].  The driver is the record [PcmOps.driver] of optional callbacks, as in
    [snd_pcm_ops_t]; what is asked of it is [DriverOk] and, for the sizes, [PcmCalls.DriverSizes].
    Configurations of 256 megabytes and more are beyond HwInit, since [div64_32] is wrong for some
    of their products.

    ** The sequencer (alsa/core/seq/)

    An event is copied into cells of its sender's pool (seq_memory.c), scheduled in one of
    the two priority queues of a queue (seq_prioq.c, seq_queue.c), and delivered when the
    queue's clock (seq_timer.c) has reached its time stamp; a delivered event is copied into
    the FIFO of the client that receives it (seq_fifo.c), or handed to a port of the kernel, such as
    the one that turns it into MIDI bytes (seq_midi.c, seq_midi_event.c).

    - SeqEvent: events and time stamps.  SeqCells: the memory of cells, pools and buffers,
      and chains of cells.
    - SeqMemory: all of seq_memory.c.  SeqCopy: an event with data is copied whole or not at
      all, reads back the same, and gives its cells back.  SeqPool: setting a pool up.
    - SeqPrioq: the linked list of seq_prioq.c is a stable priority queue.
    - SeqFifo: seq_fifo.c with the reading loop of seq_clientmgr.c.  SeqFifoSpec: the
      bounded queue they implement, and the refinement.
    - SeqMidi: the coder and the two ends of a MIDI port.  SeqMidiParse: the input is parsed
      the same however it is cut into reads, inside its buffer.  SeqMidiWire, SeqMidiLink:
      what is sent with running status is received.
    - SeqTimer: seq_timer.c.  SeqClock: tempo, drift, interpolation and opening.
    - SeqQueue: seq_queue.c with [snd_seq_dispatch_event].  SeqLive: the cells that the queues
      hold are distinct.  SeqWorld: rules of the operations.  SeqCheck: a check of the
      queues ends.  SeqDeliver: it delivers what is due, in order.  SeqQueueList: the
      list of queues stays well formed, and who may change a queue.

    Clients own ports, and a connection between two ports is kept as an entry in a group of
    subscribers at each end (seq_ports.c, seq_clientmgr.c).

    - SeqPorts: the table of clients, ports and their groups; looking up, creating and
      changing ports, subscribers and counts of users.  SeqRoute: the delivery of an event to
      a port, to the subscribers of its source, to a client or to all, with the errors that
      return to the sender.  SeqConnect: connecting, disconnecting and deleting ports, and the
      announcements.
    - SeqMail, SeqRouteSpec: routing as a function on the table, and that delivery refines it.
    - SeqWiring: the connections as one map from pairs of addresses, and the table that
      represents it.  SeqRewire, SeqWired, SeqUnport: connecting adds one entry to that map,
      disconnecting removes it, deleting a port removes all of its entries, and a
      call that fails leaves the map as it was.  SeqSmall: three clients to run this on.

    A driver for a synthesizer that does not understand MIDI leaves it to seq_midi_emul.c.

    - MidiEmul: seq_midi_emul.c but for the freeing of a set; callbacks are calls in a log.
      MidiKeys: each event is a step of an automaton for every note.  MidiPlay: what the driver was told to
      play and not to stop is what the channels have as on, and without other pedals than
      sustain the keys that are down sound; flaws.

    The parts are joined by classes: [SeqTimer.SndTimer] is the timer under a queue,
    [SeqQueue.SeqClients] the clients that a queue delivers to, with [SeqCheck.DeliveryOk],
    [SeqDeliver.Listeners] and [SeqQueueList.ClientsKeep] for what they must not disturb (they may
    schedule events); [SeqMidi.RawMidi] is the device under a MIDI port, [SeqMemory.SeqAlloc] the kernel's allocator, [SeqPorts.PortDrivers] the
    callbacks of the kernel modules that own ports, with [QuietDrivers] and [QuietCallbacks] for
    what they must not touch, and [MidiEmul.MidiOp] says which callbacks a synthesizer has.  Every
    law has an instance, with which the theorems are applied to concrete runs.

    ** Timers (alsa/core/timer.c)

    - Timer: timers and the instances that users open on them, slaves included.  TimerRules:
      rules for the primitive operations; the drivers are [Timer.TimerDrivers] with the laws
      [QuietTimers].  TimerSpec: what an interrupt does.  TimerLive: the world stays in order, and
      an instance that was started is called by the interrupt with which its ticks have passed,
      whatever is done with other instances meanwhile; slaves are translated, but not in these
      theorems.
      TimerRun: two users of the system timer, and flaws.
    - TimerUser: the queue of ticks that an application reads is a bounded queue.

    ** Raw MIDI (alsa/core/rawmidi.c)

    - ByteRing: bytes in a circular buffer.
    - RawMidi: the substreams, with what applications call and what drivers call.  RawMidiRing:
      the invariant of the ring.  RawMidiSpec: every byte is carried, in order.  RawMidiCalls,
      RawMidiRun: whole histories of calls, those that wait in a write included, and those that go
      wrong.  Their memory of an application may be one that faults, unlike on OS/2.
    - RawMidiOpen: opening and closing keep the counts.

    What a driver does when it is triggered or in an interrupt is a list of the calls it makes,
    and is an argument of the calls that it may interrupt.

    ** Controls (alsa/core/control.c)

    - Control: the elements of a card, the files open on them, locks, events and ioctls; the
      driver's part of an element is [Control.CtlOps].  ControlRules: rules for the locks, the lists
      and the notification; when a card is in order.  ControlCalls: every call keeps that.
      ControlRun: histories; a lock protects, and a subscriber reads a digest of the changes.

    ** Kernel structures (include/linux/list.h, alsa/synth/util_mem.c)

    - ListHead: the doubly linked lists of the kernel, as rings of links in memory.
    - UtilMem: wave memory, given out in blocks of such a list.

    ** Memory on OS/2 (lib32/malloc.cpp, lib32/memory.cpp)

    The Linux calls for memory are emulated: small blocks come from a heap of 128 kilobytes,
    pages from the OS/2 kernel, with a list of base addresses kept in that heap.

    - Os2Heap: the allocator, on a memory of words; its lists are threaded through the blocks.
      Os2HeapSafe, Os2HeapFree: the blocks tile the heap, and allocating and freeing keep
      that.  Os2HeapSpec: clients see disjoint arrays of words.
    - Os2Pages: pages and kernel memory.  Os2PagesSafe: the list of base addresses.
      Os2Dma: where buffers for DMA lie, and how they are given back.
    - Os2Kernel: starting the heap, a kernel to run all this on, and flaws.

    The OS/2 kernel is the class [Os2Heap.KernelVM], and [Os2Dma.KernelVMOk] what it documents.
    Loops over a list in the heap have fuel for the number of its bytes; a block takes twelve.

    ** Concurrency

    Each function that takes a spin lock for its whole work is one step.  Where a function drops its
    lock, sleeps or calls out, what happens meanwhile is an argument of the model (interrupts in
    PcmTransfer and RawMidi, other threads in SeqMemory).  Locks that are taken twice or left held
    are crashes in PcmState and RawMidi; in Control a lock is, as on OS/2, the interrupt flag that it
    saved.  Use counts that only delay a teardown are left out.

    ** Not modelled

    Copying of arguments from and to user space, proc files, power management, the
    registration of devices, the allocation of DMA pages by pcm_memory.c and the glue of
    lib32 and drv32 over kernel services; the chip drivers (alsa/pci, alsa/isa, alsa/drivers) and
    the voices of the Emux synthesizers, which are hardware behaviour; instruments and clock
    conversion beside the path of the sequencer's events; virtual MIDI (seq_virmidi.c), which joins
    two parts that are modelled.  The classes [SeqTimer.SndTimer] and [SeqMidi.RawMidi] are what the
    sequencer asks of timers and raw MIDI; Timer and RawMidi are proved on their own and are
    not instances of them.

    ** This file

    Record update, machine integers, error codes, tactics and the lemmas that several files
    share. *)

From Stdlib Require Export ZArith Lia.
From stdpp Require Export base list gmap.

#[global] Set Default Goal Selector "!".

Open Scope Z_scope.

(** ** Record update

    [r <| f := v |>] is the C assignment [r->f = v].  A record opts in by an
    instance of [Settable], its eta expansion; the setter of a field is
    computed from it. *)

Class Settable (R : Type) := eta_record : R -> R.

Class Setter {R E : Type} (proj : R -> E) := set_field : (E -> E) -> R -> R.

Arguments set_field {R E} proj {_} _ _ /.

Ltac derive_setter :=
  match goal with
  | |- @Setter ?R ?E ?proj =>
      let inst := constr:(_ : Settable R) in
      let body := eval cbv delta [eta_record] in inst in
      let body := eval hnf in body in
      let body := eval pattern proj in body in
      match body with
      | ?F _ =>
          let t := eval cbv beta in
            (fun (upd : E -> E) (r : R) => F (fun r' => upd (proj r')) r) in
          exact t
      end
  end.

#[export] Hint Extern 1 (Setter _) => derive_setter : typeclass_instances.

Declare Scope record_scope.
Delimit Scope record_scope with record.
Open Scope record_scope.

Notation "r <| f := v |>" := (set_field f (fun _ => v) r)
  (at level 1, left associativity) : record_scope.

(** ** Machine integers

    The driver is built for 32-bit x86: [int], [long] and pointers are 32 bits
    wide.  An unsigned value is the integer in [0, 2^w); arithmetic wraps. *)

Definition UINT_MAX : Z := 4294967295.
Definition ULONG_MAX : Z := UINT_MAX.
Definition INT_MAX : Z := 2147483647.
Definition LONG_MAX : Z := INT_MAX.

Definition u8 (z : Z) : Z := z mod 256.
Definition u16 (z : Z) : Z := z mod 65536.
Definition u32 (z : Z) : Z := z mod 4294967296.
Definition u64 (z : Z) : Z := z mod 18446744073709551616.

(** Two's complement reading of the low 32 bits. *)
Definition s32 (z : Z) : Z := (z + 2147483648) mod 4294967296 - 2147483648.

Definition is_u32 (z : Z) : Prop := 0 <= z <= 4294967295.
Definition is_s32 (z : Z) : Prop := -2147483648 <= z <= 2147483647.

(** [1U << n] and friends: x86 masks the count to five bits.  For counts in
    [0, 32) this is the C shift; beyond, C leaves the result undefined and the
    value below is the one the target's SHL instruction gives. *)
Definition shl32 (a n : Z) : Z := u32 (Z.shiftl a (n mod 32)).

Definition not32 (a : Z) : Z := Z.lxor a 4294967295.

(** Truth value of a C integer and back. *)
Definition truth (z : Z) : bool := negb (z =? 0).
Definition b2z (b : bool) : Z := if b then 1 else 0.

(** ** Early return

    The body of a C loop either returns from the function or goes on to the next
    round with a new state. *)
Inductive flow (R A : Type) :=
| Return (r : R)
| Next (a : A).
Arguments Return {R A} r.
Arguments Next {R A} a.

Fixpoint loop_flow {R A B} (body : B -> A -> flow R A) (l : list B) (a : A) : flow R A :=
  match l with
  | [] => Next a
  | b :: l =>
      match body b a with
      | Return r => Return r
      | Next a => loop_flow body l a
      end
  end.

(** Rule of the loop: a body that keeps [I], or returns with [Q]. *)
Lemma loop_flow_ind {R A B} (I : A -> Prop) (Q : R -> Prop) (body : B -> A -> flow R A) l a :
  I a ->
  (forall b a, b ∈ l -> I a -> match body b a with Return r => Q r | Next a => I a end) ->
  match loop_flow body l a with Return r => Q r | Next a => I a end.
Proof.
  revert a. induction l as [| b l IH]; intros a Ha Hb; simpl; [done |].
  pose proof (Hb b a ltac:(left) Ha) as H. destruct (body b a) as [r | a']; [done |].
  apply IH; [done |]. intros b' a'' Hin. apply Hb. by right.
Qed.

(** ** Error codes (include/asm/errno.h, include/linux/errno.h) *)

Definition EPERM : Z := 1.
Definition ENOENT : Z := 2.
Definition EIO : Z := 5.
Definition ENXIO : Z := 6.
Definition EAGAIN : Z := 11.
Definition ENOMEM : Z := 12.
Definition EFAULT : Z := 14.
Definition EBUSY : Z := 16.
Definition EMLINK : Z := 31.
Definition ENODEV : Z := 19.
Definition EINVAL : Z := 22.
Definition ENOSPC : Z := 28.
Definition EPIPE : Z := 32.
Definition ENOSYS : Z := 38.
Definition EBADFD : Z := 77.
Definition EALREADY : Z := 114.
Definition ERESTARTSYS : Z := 512.

(** ** Memory of applications (lib32/memory.cpp)

    What [copy_to_user] and [copy_from_user] return, which their callers take for the number of
    bytes that could not be copied: on OS/2 they call [kmemcpy] and return 0 whatever the addresses
    are.  Callers test it as they do in the source, so that the error is seen not to arise. *)

Definition copy_to_user : Z := 0.
Definition copy_from_user : Z := 0.

(** ** Tactics *)

Create HintDb uniaud.
Create Rewrite HintDb uniaud.

(** Case analysis on the integer tests of the goal and the hypotheses. *)
Ltac btest :=
  match goal with
  | |- context [?a <? ?b] => destruct (Z.ltb_spec a b)
  | |- context [?a <=? ?b] => destruct (Z.leb_spec a b)
  | |- context [?a =? ?b] => destruct (Z.eqb_spec a b)
  | H : context [?a <? ?b] |- _ => destruct (Z.ltb_spec a b)
  | H : context [?a <=? ?b] |- _ => destruct (Z.leb_spec a b)
  | H : context [?a =? ?b] |- _ => destruct (Z.eqb_spec a b)
  end.

(** Linear arithmetic over constant-width wrap-around. *)
Ltac word_lia :=
  unfold is_u32, is_s32, UINT_MAX, ULONG_MAX, LONG_MAX, INT_MAX, u8, u16, u32, u64, s32 in *;
  Z.div_mod_to_equations; lia.

(** The same, with [mod] and [/] left opaque. *)
Ltac range_lia :=
  unfold is_u32, is_s32, UINT_MAX, ULONG_MAX, LONG_MAX, INT_MAX in *; lia.

(** Case analysis on the boolean variables a goal branches on. *)
Ltac bcase :=
  match goal with
  | |- context [if ?b then _ else _] => is_var b; destruct b
  | H : context [if ?b then _ else _] |- _ => is_var b; destruct b
  | |- context [negb ?b] => is_var b; destruct b
  | |- context [?b && _] => is_var b; destruct b
  | |- context [?b || _] => is_var b; destruct b
  | H : context [?b && _] |- _ => is_var b; destruct b
  | H : context [?b || _] |- _ => is_var b; destruct b
  | H : context [negb ?b] |- _ => is_var b; destruct b
  end.

(** Membership in a literal list. *)
Ltac in_list := rewrite list_elem_of_In; simpl; tauto.

(** ** Arithmetic lemmas *)

Lemma u32_range z : is_u32 (u32 z).
Proof. word_lia. Qed.

Lemma u32_small z : is_u32 z -> u32 z = z.
Proof. word_lia. Qed.

Lemma u32_idemp z : u32 (u32 z) = u32 z.
Proof. apply u32_small, u32_range. Qed.

Lemma u32_add_l a b : u32 (u32 a + b) = u32 (a + b).
Proof. unfold u32. apply Z.add_mod_idemp_l. lia. Qed.

Lemma u32_sub_r a b : u32 (a - u32 b) = u32 (a - b).
Proof. unfold u32. apply Zminus_mod_idemp_r. Qed.

Lemma s32_small z : is_s32 z -> s32 z = z.
Proof. word_lia. Qed.

Lemma s32_range z : is_s32 (s32 z).
Proof. word_lia. Qed.

#[export] Hint Resolve u32_range s32_range : uniaud.
#[export] Hint Rewrite u32_idemp u32_add_l u32_sub_r : uniaud.

Lemma b2z_range b : 0 <= b2z b <= 1.
Proof. destruct b; simpl; lia. Qed.

(** Adding a multiple of a wider power to a number below it is a bitwise or. *)
Lemma lor_add_shifted a b k :
  0 <= k -> 0 <= b < 2 ^ k -> Z.lor (a * 2 ^ k) b = a * 2 ^ k + b.
Proof.
  intros Hk Hb.
  rewrite <- Z.add_lor_land.
  enough (Z.land (a * 2 ^ k) b = 0) as -> by lia.
  apply Z.bits_inj'. intros n Hn. rewrite Z.land_spec, Z.bits_0.
  destruct (Z.ltb_spec n k).
  - rewrite Z.mul_pow2_bits_low by lia. reflexivity.
  - destruct (Z.eq_dec b 0) as [-> | Hnz]; [rewrite Z.bits_0; apply andb_false_r |].
    rewrite (Z.bits_above_log2 b n); [apply andb_false_r | lia |].
    apply Z.log2_lt_pow2; [lia |].
    eapply Z.lt_le_trans; [apply Hb | apply Z.pow_le_mono_r; lia].
Qed.

Lemma land_pow2_add a b k :
  0 <= k -> 0 <= b < 2 ^ k -> Z.land (a * 2 ^ k) b = 0.
Proof.
  intros Hk Hb. pose proof (Z.add_lor_land (a * 2 ^ k) b).
  rewrite lor_add_shifted in H by done. lia.
Qed.

(** No multiple of [n] lies strictly between 0 and [n]. *)
Lemma no_multiple_between n z x : n * z = x -> 0 < x < n -> False.
Proof. intros <- H. destruct (Z.le_gt_cases z 0); nia. Qed.

(** A filter that keeps nothing, and one that keeps all. *)
Lemma filter_none {A} (P : A -> Prop) `{!forall x, Decision (P x)} (l : list A) :
  Forall (fun x => ~ P x) l -> filter P l = [].
Proof. induction 1 as [| x l Hx _ IH]; [done |]. by rewrite filter_cons_False. Qed.

Lemma filter_all {A} (P : A -> Prop) `{!forall x, Decision (P x)} (l : list A) : Forall P l -> filter P l = l.
Proof. induction 1 as [| x l Hx _ IH]; [done |]. by rewrite filter_cons_True, IH. Qed.

(** Filters by properties that agree on the list. *)
Lemma filter_agree {A} (P Q : A -> Prop) `{!forall x, Decision (P x), !forall x, Decision (Q x)}
    (l : list A) :
  (forall x, x ∈ l -> P x <-> Q x) -> filter P l = filter Q l.
Proof.
  induction l as [| x l IH]; intros E; [done |]. rewrite !filter_cons, IH by (intros y Hy; apply E; by right).
  apply decide_ext, E. left.
Qed.
