(* ===== verification/StateMonad.v ===== *)
(** * StateMonad: state passing with failure

    The monad the stateful parts are written in.  [None] is a crash: a null or dangling
    pointer, a lock taken twice, or a loop that runs out of fuel.  [wp m Q s] is total
    correctness: [m] returns from [s], and its result satisfies [Q]. *)

From S2P Require Import Prelude.

Definition ST (S A : Type) : Type := S -> option (A * S).

Definition ret {S A} (x : A) : ST S A := fun s => Some (x, s).

Definition bind {S A B} (m : ST S A) (k : A -> ST S B) : ST S B := fun s =>
  match m s with Some (x, s) => k x s | None => None end.

Definition crash {S A} : ST S A := fun _ => None.
Definition get {S} : ST S S := fun s => Some (s, s).
Definition update {S} (f : S -> S) : ST S unit := fun s => Some (tt, f s).
Definition when {S} (b : bool) (m : ST S unit) : ST S unit := if b then m else ret tt.

Declare Scope state_scope.
Delimit Scope state_scope with state.
Notation "x <- m ;; k" := (bind m (fun x => k))
  (at level 100, m at next level, right associativity) : state_scope.
Notation "m ;;; k" := (bind m (fun _ => k)) (at level 100, right associativity) : state_scope.

Definition wp {S A} (m : ST S A) (Q : A -> S -> Prop) (s : S) : Prop :=
  match m s with Some (x, s') => Q x s' | None => False end.

Section Wp.
Context {S A B : Type}.
Implicit Types (m : ST S A) (k : A -> ST S B).

Lemma wp_bind m k Q s : wp m (fun x => wp (k x) Q) s -> wp (bind m k) Q s.
Proof. unfold wp, bind. by destruct (m s) as [[x s'] |]. Qed.

Lemma wp_mono m (Q Q' : A -> S -> Prop) s :
  wp m Q s -> (forall x s', Q x s' -> Q' x s') -> wp m Q' s.
Proof. unfold wp. destruct (m s) as [[x s'] |]; auto. Qed.

Lemma wp_run m Q s : wp m Q s -> exists x s', m s = Some (x, s') /\ Q x s'.
Proof. unfold wp. destruct (m s) as [[x s'] |]; [eauto | done]. Qed.

Lemma wp_and m (Q Q' : A -> S -> Prop) s :
  wp m Q s -> wp m Q' s -> wp m (fun x s' => Q x s' /\ Q' x s') s.
Proof. unfold wp. destruct (m s) as [[x s'] |]; auto. Qed.

Lemma wp_ret (x : A) (Q : A -> S -> Prop) s : Q x s -> wp (ret x) Q s.
Proof. done. Qed.

Lemma bind_some m k s x s' : m s = Some (x, s') -> bind m k s = k x s'.
Proof. unfold bind. by intros ->. Qed.

Lemma bind_inv m k s y s'' : bind m k s = Some (y, s'') -> exists x s', m s = Some (x, s') /\ k x s' = Some (y, s'').
Proof. unfold bind. destruct (m s) as [[x s'] |]; [eauto | done]. Qed.

Lemma bind_assoc {C} m k (g : B -> ST S C) s : bind (bind m k) g s = bind m (fun x => bind (k x) g) s.
Proof. unfold bind. by destruct (m s) as [[x s'] |]. Qed.

Lemma wp_assoc {C} m k (g : B -> ST S C) Q s :
  wp (bind (bind m k) g) Q s -> wp (bind m (fun x => bind (k x) g)) Q s.
Proof. unfold wp, bind. by destruct (m s) as [[x s'] |]. Qed.
End Wp.
