(* ===== verification/Div64.v ===== *)
(** * Div64: the 64/32-bit software division of the PCM layer

    [divl] and [div64_32] of alsa/include/sound/pcm.h, in the branch the OS/2
    build takes (32-bit long, no [i386] macro, hence no inline assembly). *)

From S2P Require Import Prelude.

(** ** Definitions *)

(** One pass of [while (n > 0xffffffffU)]: the state is [(n, d, q1, c)].  Thirty
    two passes are enough: [divl_loop_exits] shows the guard false at the end. *)
Fixpoint divl_loop (fuel : nat) (n d q1 c : Z) : Z * Z * Z :=
  match fuel with
  | O => (n, q1, c)
  | S fuel =>
      if 4294967295 <? n then
        let q1 := u32 (Z.shiftl q1 1) in
        let '(n, q1) := if d <? n then (u64 (n - d), Z.lor q1 1) else (n, q1) in
        divl_loop fuel n (Z.shiftr d 1) q1 (c - 1)
      else (n, q1, c)
  end.

Definition divl (high low div : Z) : Z * Z :=
  let n := Z.lor (u64 (Z.shiftl high 32)) low in
  let d := u64 (Z.shiftl div 31) in
  let '(n, q1, c) := divl_loop 32 n d 0 32 in
  let q1 := shl32 q1 c in
  if truth n then
    let low := u32 n in
    (Z.lor q1 (low / div), low mod div)
  else (q1, 0).

Definition div64_32 (n div : Z) : Z * Z :=
  let low := Z.land n 4294967295 in
  let high := Z.shiftr n 32 in
  if truth high then
    let high1 := high mod div in
    let low1 := low in
    let high := high / div in
    let '(low, rem) := divl high1 low1 div in
    (Z.lor (u64 (Z.shiftl high 32)) low, rem)
  else (low / div, low mod div).

(** ** The loop invariant *)

(** After [32 - c] passes on the dividend [N]: the quotient bits found so far are
    [q1], the rest is [n], and [n] is at most [div * 2^c]. *)
Record loop_inv (N div n d q1 c : Z) : Prop := {
  inv_c : 0 <= c <= 32;
  inv_d : 0 < c -> d = div * 2 ^ (c - 1);
  inv_q : 0 <= q1 < 2 ^ (32 - c);
  inv_n : 0 <= n <= div * 2 ^ c;
  inv_sum : N = q1 * (div * 2 ^ c) + n }.

Lemma pow2_pos k : 0 <= k -> 0 < 2 ^ k.
Proof. intros. apply Z.pow_pos_nonneg; lia. Qed.

Lemma pow2_half c : 0 < c -> 2 ^ c = 2 * 2 ^ (c - 1).
Proof. intros. rewrite <- Z.pow_succ_r by lia. f_equal. lia. Qed.

#[local] Hint Resolve pow2_pos : core.

(** Shifting in a quotient bit stays within the 32 bits of [q1]. *)
Lemma quotient_bit q1 c b :
  0 < c <= 32 -> 0 <= q1 < 2 ^ (32 - c) -> (b = 0 \/ b = 1) ->
  let q := Z.lor (u32 (Z.shiftl q1 1)) b in
  q = 2 * q1 + b /\ 0 <= q < 2 ^ (32 - (c - 1)).
Proof.
  intros Hc Hq Hb.
  assert (E : 2 ^ (32 - (c - 1)) = 2 * 2 ^ (32 - c)).
  { rewrite (pow2_half (32 - (c - 1))) by lia. do 2 f_equal. lia. }
  assert (L : 2 ^ (32 - (c - 1)) <= 2 ^ 32) by (apply Z.pow_le_mono_r; lia).
  rewrite Z.shiftl_mul_pow2 by lia.
  change (2 ^ 32) with 4294967296 in L.
  unfold u32. rewrite Z.mod_small by lia.
  rewrite lor_add_shifted; [|lia | change (2 ^ 1) with 2; lia].
  change (2 ^ 1) with 2. lia.
Qed.

(** One pass of the loop body keeps the invariant. *)
Lemma divl_step N div n d q1 c :
  0 < div <= UINT_MAX -> loop_inv N div n d q1 c -> 4294967295 < n ->
  let q := u32 (Z.shiftl q1 1) in
  let '(n', q') := if d <? n then (u64 (n - d), Z.lor q 1) else (n, q) in
  0 < c /\ loop_inv N div n' (Z.shiftr d 1) q' (c - 1).
Proof.
  intros Hdiv [Hc Hd Hq Hn Hs] Hbig. cbv zeta.
  assert (Hc0 : 0 < c).
  { destruct (Z.eq_dec c 0) as [-> |]; [|lia]. unfold UINT_MAX in *. lia. }
  specialize (Hd Hc0).
  pose proof (pow2_half c Hc0) as E. pose proof (pow2_pos (c - 1) ltac:(lia)).
  assert (Hsh : 0 < c - 1 -> Z.shiftr d 1 = div * 2 ^ (c - 1 - 1)).
  { intros. rewrite Z.shiftr_div_pow2 by lia. change (2 ^ 1) with 2.
    rewrite Hd, (pow2_half (c - 1)) by lia.
    replace (div * (2 * 2 ^ (c - 1 - 1))) with (div * 2 ^ (c - 1 - 1) * 2) by lia.
    apply Z.div_mul. lia. }
  assert (Hdpos : 0 < d) by (subst d; nia).
  destruct (Z.ltb_spec d n) as [Hlt | Hge].
  - destruct (quotient_bit q1 c 1 ltac:(lia) Hq ltac:(lia)) as [Eq Hq'].
    assert (Hu : u64 (n - d) = n - d).
    { unfold u64. apply Z.mod_small. split; [lia |].
      assert (div * 2 ^ c <= 4294967295 * 2 ^ 32).
      { apply Z.mul_le_mono_nonneg; try (unfold UINT_MAX in *; lia).
        apply Z.pow_le_mono_r; lia. }
      change (4294967295 * 2 ^ 32) with 18446744069414584320 in *. lia. }
    rewrite Hu. split; [exact Hc0 |].
    split; [lia | exact Hsh | exact Hq' | subst d; nia |].
    rewrite Eq. subst d. rewrite Hs, E. ring.
  - destruct (quotient_bit q1 c 0 ltac:(lia) Hq ltac:(lia)) as [Eq Hq'].
    rewrite Z.lor_0_r in Eq, Hq'.
    split; [exact Hc0 |].
    split; [lia | exact Hsh | exact Hq' | subst d; lia |].
    rewrite Eq, Hs, E. ring.
Qed.

(** The loop ends with its guard false and the invariant true. *)
Lemma divl_loop_exits fuel : forall N div n d q1 c,
  0 < div <= UINT_MAX -> loop_inv N div n d q1 c -> c <= Z.of_nat fuel ->
  let '(n', q', c') := divl_loop fuel n d q1 c in
  n' <= 4294967295 /\ exists d', loop_inv N div n' d' q' c'.
Proof.
  induction fuel as [| fuel IH]; intros N div n d q1 c Hdiv Hinv Hf.
  - cbn [divl_loop]. split; [| eauto].
    destruct Hinv as [Hc _ _ Hn _]. assert (c = 0) as -> by lia.
    unfold UINT_MAX in *. lia.
  - cbn [divl_loop]. destruct (Z.ltb_spec 4294967295 n) as [Hbig | Hsmall]; [| eauto].
    pose proof (divl_step N div n d q1 c Hdiv Hinv Hbig) as Hstep. cbv zeta in Hstep.
    destruct (if d <? n then _ else _) as [n' q'].
    destruct Hstep as [Hc0 Hinv']. apply IH; [done | done | lia].
Qed.

Lemma loop_inv_init high low div :
  0 < div <= UINT_MAX -> 0 <= high < div -> is_u32 low ->
  let n := Z.lor (u64 (Z.shiftl high 32)) low in
  n = high * 4294967296 + low /\
  loop_inv n div n (u64 (Z.shiftl div 31)) 0 32.
Proof.
  intros Hdiv Hh Hl. cbv zeta. unfold is_u32, UINT_MAX in *.
  rewrite !Z.shiftl_mul_pow2 by lia.
  change (2 ^ 32) with 4294967296. change (2 ^ 31) with 2147483648.
  unfold u64. rewrite !Z.mod_small by lia.
  change 4294967296 with (2 ^ 32). rewrite lor_add_shifted; [| lia |].
  2: { change (2 ^ 32) with 4294967296. lia. }
  change (2 ^ 32) with 4294967296.
  split; [lia |]. split; change (2 ^ 32) with 4294967296;
    change (2 ^ (32 - 1)) with 2147483648; change (2 ^ (32 - 32)) with 1; lia.
Qed.

(** ** The result *)

Lemma shl32_quotient q1 c :
  0 <= c <= 32 -> 0 <= q1 < 2 ^ (32 - c) -> shl32 q1 c = q1 * 2 ^ c.
Proof.
  intros Hc Hq. unfold shl32, u32.
  destruct (Z.eq_dec c 32) as [-> | Hne].
  - change (2 ^ (32 - 32)) with 1 in Hq. assert (q1 = 0) as -> by lia. reflexivity.
  - rewrite (Z.mod_small c) by lia. rewrite Z.shiftl_mul_pow2 by lia.
    apply Z.mod_small.
    assert (E : 2 ^ (32 - c) * 2 ^ c = 4294967296).
    { rewrite <- Z.pow_add_r by lia. replace (32 - c + c) with 32 by lia. reflexivity. }
    pose proof (pow2_pos c ltac:(lia)). nia.
Qed.

Lemma lor_ge_l a b : 0 <= a -> 0 <= b -> a <= Z.lor a b.
Proof.
  intros Ha Hb. pose proof (Z.add_lor_land a (Z.ldiff b a)) as E.
  replace (Z.lor a (Z.ldiff b a)) with (Z.lor a b) in E
    by (apply Z.bits_inj'; intros k _; rewrite !Z.lor_spec, Z.ldiff_spec;
        by destruct (Z.testbit a k), (Z.testbit b k)).
  replace (Z.land a (Z.ldiff b a)) with 0 in E
    by (apply Z.bits_inj'; intros k _; rewrite Z.land_spec, Z.ldiff_spec, Z.bits_0;
        by destruct (Z.testbit a k), (Z.testbit b k)).
  assert (0 <= Z.ldiff b a) by (apply Z.ldiff_nonneg; lia). lia.
Qed.

(** The or that assembles the quotient never exceeds the sum, is at least half of it, and
    is the sum unless the two parts overlap. *)
Lemma assemble_quotient N div n q1 c :
  0 < div -> 0 <= c -> 0 <= q1 -> 0 < n <= div * 2 ^ c ->
  N = q1 * (div * 2 ^ c) + n ->
  let q := Z.lor (q1 * 2 ^ c) (n / div) in
  n mod div = N mod div /\ 0 <= q <= N / div /\ N / div <= 2 * q /\
  (n < div * 2 ^ c -> q = N / div).
Proof.
  intros Hdiv Hc Hq Hn Hs. cbv zeta.
  pose proof (pow2_pos c Hc) as Hp.
  assert (EN : N = n + (q1 * 2 ^ c) * div) by (rewrite Hs; ring).
  assert (ED : N / div = q1 * 2 ^ c + n / div) by (rewrite EN, Z.div_add by lia; lia).
  assert (EM : N mod div = n mod div) by (rewrite EN, Z.mod_add by lia; lia).
  assert (Hqn : 0 <= n / div) by (apply Z.div_pos; lia).
  assert (Hpart : n < div * 2 ^ c -> Z.lor (q1 * 2 ^ c) (n / div) = N / div).
  { intros Hlt. rewrite lor_add_shifted, ED; [lia | lia |]. split; [lia |].
    apply Z.div_lt_upper_bound; lia. }
  split; [congruence |]. split.
  { split; [apply Z.lor_nonneg; nia |].
    pose proof (Z.add_lor_land (q1 * 2 ^ c) (n / div)).
    assert (0 <= Z.land (q1 * 2 ^ c) (n / div)) by (apply Z.land_nonneg; lia). lia. }
  split; [| exact Hpart].
  destruct (Z.eq_dec n (div * 2 ^ c)) as [E | Hne].
  - assert (n / div = 2 ^ c) as Eq by (rewrite E, Z.mul_comm; apply Z.div_mul; lia).
    rewrite ED, Eq. pose proof (Z.lor_nonneg (q1 * 2 ^ c) (2 ^ c)) as [_ L0].
    assert (L1 : q1 * 2 ^ c <= Z.lor (q1 * 2 ^ c) (2 ^ c)) by (apply lor_ge_l; nia).
    assert (L2 : 2 ^ c <= Z.lor (q1 * 2 ^ c) (2 ^ c)) by (rewrite Z.lor_comm; apply lor_ge_l; nia).
    lia.
  - rewrite Hpart by lia. assert (0 <= N / div) by (rewrite ED; nia). lia.
Qed.

Lemma divl_spec high low div :
  0 < div <= UINT_MAX -> 0 <= high < div -> is_u32 low ->
  let N := high * 4294967296 + low in
  let '(q, r) := divl high low div in
  r = N mod div /\ 0 <= q <= N / div /\ N / div <= 2 * q /\ (r <> 0 -> q = N / div).
Proof.
  intros Hdiv Hh Hl. cbv zeta. unfold divl.
  destruct (loop_inv_init high low div Hdiv Hh Hl) as [EN Hinv].
  pose proof (divl_loop_exits 32 _ div _ _ _ _ Hdiv Hinv ltac:(lia)) as Hexit.
  destruct (divl_loop _ _ _ _ _) as [[n q1] c].
  destruct Hexit as [Hsmall (d & [Hc _ Hq Hn Hs])].
  rewrite EN in Hs. set (N := high * 4294967296 + low) in *.
  rewrite shl32_quotient by done. unfold truth.
  pose proof (pow2_pos c ltac:(lia)).
  destruct (Z.eqb_spec n 0) as [-> | Hnz]; cbn [negb].
  - assert (E : N = q1 * 2 ^ c * div) by (rewrite Hs; ring).
    rewrite E, Z.mod_mul, Z.div_mul by lia. repeat split; nia.
  - rewrite u32_small by word_lia.
    destruct (assemble_quotient N div n q1 c) as (Hm & Hle & Hhalf & Heq); try lia.
    repeat split; try lia. intros Hr. apply Heq.
    destruct (Z.eq_dec n (div * 2 ^ c)) as [E |]; [| lia].
    exfalso. apply Hr. rewrite E, Z.mul_comm. apply Z.mod_mul. lia.
Qed.

Lemma low_high n :
  0 <= n < 18446744073709551616 ->
  Z.land n 4294967295 = n mod 4294967296 /\ Z.shiftr n 32 = n / 4294967296.
Proof.
  intros Hn. split.
  - change 4294967295 with (Z.ones 32). rewrite Z.land_ones by lia. reflexivity.
  - rewrite Z.shiftr_div_pow2 by lia. reflexivity.
Qed.

Lemma long_division n div :
  0 < div ->
  let N := (n / 4294967296) mod div * 4294967296 + n mod 4294967296 in
  n / div = n / 4294967296 / div * 4294967296 + N / div /\ n mod div = N mod div.
Proof.
  intros Hdiv. cbv zeta.
  set (H := n / 4294967296). set (L := n mod 4294967296).
  assert (E : n = H mod div * 4294967296 + L + (H / div * 4294967296) * div).
  { pose proof (Z.div_mod n 4294967296 ltac:(lia)).
    pose proof (Z.div_mod H div ltac:(lia)). subst H L. nia. }
  set (N := H mod div * 4294967296 + L) in *.
  rewrite E at 1 2. rewrite Z.div_add, Z.mod_add by lia. lia.
Qed.

Definition div64_exact (n div : Z) : Prop := div64_32 n div = (n / div, n mod div).

Lemma div64_correct n div :
  0 <= n < 18446744073709551616 -> 0 < div <= UINT_MAX ->
  let '(q, r) := div64_32 n div in
  r = n mod div /\ 0 <= q <= n / div /\ n / div <= 2 * q /\
  (n mod div <> 0 \/ n <= UINT_MAX -> div64_exact n div).
Proof.
  intros Hn Hdiv. unfold div64_exact, div64_32.
  destruct (low_high n Hn) as [-> ->].
  set (H := n / 4294967296). set (L := n mod 4294967296).
  assert (HL : is_u32 L) by (subst L; word_lia).
  assert (HH : 0 <= H <= UINT_MAX) by (subst H; word_lia).
  unfold truth. destruct (Z.eqb_spec H 0) as [H0 | Hnz]; cbn [negb].
  - assert (E : L = n) by (subst H L; word_lia). rewrite E.
    assert (0 <= n / div) by (apply Z.div_pos; lia). repeat split; lia.
  - pose proof (divl_spec (H mod div) L div Hdiv ltac:(apply Z.mod_pos_bound; lia) HL) as Hs.
    cbv zeta in Hs. destruct (divl _ _ _) as [q r]. destruct Hs as (Hr & Hq & Hhalf & Hx).
    destruct (long_division n div ltac:(lia)) as [Ed Em]. fold H L in Ed, Em.
    set (N := H mod div * 4294967296 + L) in *.
    assert (HN : 0 <= N / div < 2 ^ 32).
    { pose proof (Z.mod_pos_bound H div ltac:(lia)). change (2 ^ 32) with 4294967296.
      unfold is_u32 in HL. split; [apply Z.div_pos; subst N; lia |].
      apply Z.div_lt_upper_bound; subst N; nia. }
    assert (Hh : 0 <= H / div <= UINT_MAX).
    { split; [apply Z.div_pos; lia |]. apply Z.div_le_upper_bound; nia. }
    rewrite Z.shiftl_mul_pow2 by lia. unfold u64.
    rewrite (Z.mod_small (H / div * 2 ^ 32)) by (change (2 ^ 32) with 4294967296; word_lia).
    rewrite lor_add_shifted by lia. change (2 ^ 32) with 4294967296.
    rewrite Em, Ed. repeat split; try lia.
    intros [Hrem | Hsmall]; [| subst H; word_lia].
    f_equal; [rewrite Hx by congruence; lia | done].
Qed.

(** [div64_32] always computes the exact remainder, never overestimates the
    quotient and never falls below half of it, and computes it exactly when the division
    leaves a remainder or the dividend fits 32 bits. *)
Theorem div64_32_spec n div :
  0 <= n < 18446744073709551616 -> 0 < div <= UINT_MAX ->
  let '(q, r) := div64_32 n div in
  r = n mod div /\ 0 <= q <= n / div /\ n / div <= 2 * q /\
  (n mod div <> 0 \/ n <= UINT_MAX -> div64_exact n div).
Proof. apply div64_correct. Qed.

Lemma div64_32_spec_witness : div64_exact (44100 * 4294967295 * 16) 1000000.
Proof.
  assert (H : 0 <= 44100 * 4294967295 * 16 < 18446744073709551616) by lia.
  assert (H' : 0 < 1000000 <= UINT_MAX) by (unfold UINT_MAX; lia).
  pose proof (div64_32_spec _ _ H H') as P.
  destruct (div64_32 _ _) as [q r]. apply P. left. vm_compute. discriminate.
Defined.

(** The loop compares with [n > d] where the quotient digit needs [n >= d]: on an
    exact division whose remaining dividend meets the shifted divisor, the last
    digits are or-ed into bits already set and the quotient comes out short. *)
Theorem div64_32_exact_division_wrong :
  div64_32 17179869184 8 = (1879048192, 0) /\ 17179869184 / 8 = 2147483648.
Proof. split; vm_compute; reflexivity. Qed.

(** What the PCM layer's callers need of the division. *)
Lemma div64_32_small n div :
  0 <= n <= UINT_MAX -> 0 < div <= UINT_MAX -> div64_exact n div.
Proof.
  intros Hn Hd. pose proof (div64_correct n div ltac:(word_lia) Hd) as P.
  destruct (div64_32 n div). apply P. right. lia.
Qed.
