(* ===== verification/Interval.v ===== *)
(** * Interval: the interval arithmetic of the PCM configuration space

    [snd_interval_t] and its operations: the inline helpers of
    alsa/include/sound/pcm_params.h and the functions of
    alsa/core/pcm_lib.c.  An interval denotes a set of rationals ([itv_mem]);
    the theorems say what each operation does to that set. *)

From Stdlib Require Import QArith.
From S2P Require Import Prelude Div64.
Open Scope Z_scope.

(** ** Data *)

Record snd_interval := Itv {
  i_min : Z;
  i_max : Z;
  i_openmin : bool;
  i_openmax : bool;
  i_integer : bool;
  i_empty : bool }.

#[export] Instance settable_interval : Settable snd_interval :=
  fun i => Itv (i_min i) (i_max i) (i_openmin i) (i_openmax i) (i_integer i) (i_empty i).

#[export] Instance interval_eq_dec : EqDecision snd_interval.
Proof. solve_decision. Defined.

(** ** The inline helpers of pcm_params.h *)

Definition snd_interval_any : snd_interval := Itv 0 UINT_MAX false false false false.

Definition snd_interval_none (i : snd_interval) : snd_interval := i <| i_empty := true |>.

Definition snd_interval_checkempty (i : snd_interval) : bool :=
  (i_max i <? i_min i) || ((i_min i =? i_max i) && (i_openmin i || i_openmax i)).

Definition snd_interval_single (i : snd_interval) : bool :=
  (i_min i =? i_max i) || ((u32 (i_min i + 1) =? i_max i) && i_openmax i).

Definition snd_interval_value (i : snd_interval) : Z := i_min i.

Definition snd_interval_lowest (i : snd_interval) : Z := i_min i.

Definition snd_interval_highest (i : snd_interval) : Z :=
  if i_openmax i then u32 (i_max i - 1) else i_max i.

Definition snd_interval_test (i : snd_interval) (val : Z) : bool :=
  negb ((val <? i_min i) || ((i_min i =? val) && i_openmin i)
        || (i_max i <? val) || ((i_max i =? val) && i_openmax i)).

Definition snd_interval_setinteger (i : snd_interval) : Z * snd_interval :=
  if i_integer i then (0, i)
  else if i_openmin i && i_openmax i && (i_min i =? i_max i) then (-EINVAL, i)
  else (1, i <| i_integer := true |>).

Definition snd_interval_eq (i1 i2 : snd_interval) : bool :=
  if i_empty i1 then i_empty i2
  else if i_empty i2 then i_empty i1
  else (i_min i1 =? i_min i2) && bool_decide (i_openmin i1 = i_openmin i2)
       && (i_max i1 =? i_max i2) && bool_decide (i_openmax i1 = i_openmax i2).

(** ** Saturating helpers of pcm_lib.c *)

Definition div32 (a b : Z) : Z * Z :=
  if b =? 0 then (UINT_MAX, 0) else (a / b, a mod b).

Definition div_down (a b : Z) : Z := if b =? 0 then UINT_MAX else a / b.

Definition div_up (a b : Z) : Z :=
  if b =? 0 then UINT_MAX
  else let '(q, r) := div32 a b in if truth r then u32 (q + 1) else q.

Definition mul (a b : Z) : Z :=
  if a =? 0 then 0
  else if div_down UINT_MAX a <? b then UINT_MAX
  else u32 (a * b).

(** [a * b / c] through the 64-bit product; the result and the remainder. *)
Definition muldiv32 (a b c : Z) : Z * Z :=
  let n := u64 (a * b) in
  if c =? 0 then (UINT_MAX, 0)
  else let '(n, r) := div64_32 n c in
       if UINT_MAX <=? n then (UINT_MAX, 0) else (n, r).

(** ** Refinement *)

(** The first statement of [snd_interval_refine] and of [snd_interval_refine_min]:
    take the larger lower bound; the flag is [changed]. *)
Definition raise_min (m : Z) (open : bool) (i : snd_interval) : bool * snd_interval :=
  if i_min i <? m then (true, i <| i_min := m |> <| i_openmin := open |>)
  else if (i_min i =? m) && negb (i_openmin i) && open then (true, i <| i_openmin := true |>)
  else (false, i).

Definition lower_max (m : Z) (open : bool) (i : snd_interval) : bool * snd_interval :=
  if m <? i_max i then (true, i <| i_max := m |> <| i_openmax := open |>)
  else if (i_max i =? m) && negb (i_openmax i) && open then (true, i <| i_openmax := true |>)
  else (false, i).

(** An integer interval gets closed bounds. *)
Definition close_min (i : snd_interval) : snd_interval :=
  if i_openmin i then i <| i_min := u32 (i_min i + 1) |> <| i_openmin := false |> else i.

Definition close_max (i : snd_interval) : snd_interval :=
  if i_openmax i then i <| i_max := u32 (i_max i - 1) |> <| i_openmax := false |> else i.

(** The common tail: an empty result is marked and reported. *)
Definition refine_result (changed : bool) (i : snd_interval) : Z * snd_interval :=
  if snd_interval_checkempty i then (-EINVAL, snd_interval_none i) else (b2z changed, i).

Definition snd_interval_refine_min (i : snd_interval) (min : Z) (openmin : bool) : Z * snd_interval :=
  if i_empty i then (-EINVAL, i)
  else
    let '(changed, i) := raise_min min openmin i in
    let i := if i_integer i then close_min i else i in
    refine_result changed i.

Definition snd_interval_refine_max (i : snd_interval) (max : Z) (openmax : bool) : Z * snd_interval :=
  if i_empty i then (-EINVAL, i)
  else
    let '(changed, i) := lower_max max openmax i in
    let i := if i_integer i then close_max i else i in
    refine_result changed i.

Definition snd_interval_refine (i v : snd_interval) : Z * snd_interval :=
  if i_empty i then (-EINVAL, i)
  else
    let '(changed1, i) := raise_min (i_min v) (i_openmin v) i in
    let '(changed2, i) := lower_max (i_max v) (i_openmax v) i in
    let '(changed3, i) :=
      if negb (i_integer i) && i_integer v then (true, i <| i_integer := true |>) else (false, i) in
    let i :=
      if i_integer i then close_max (close_min i)
      else if negb (i_openmin i) && negb (i_openmax i) && (i_min i =? i_max i)
           then i <| i_integer := true |> else i in
    refine_result (changed1 || changed2 || changed3) i.

Definition snd_interval_refine_first (i : snd_interval) : Z * snd_interval :=
  if i_empty i then (-EINVAL, i)
  else if snd_interval_single i then (0, i)
  else
    let i := i <| i_max := i_min i |> <| i_openmax := i_openmin i |> in
    (1, if i_openmax i then i <| i_max := u32 (i_max i + 1) |> else i).

Definition snd_interval_refine_last (i : snd_interval) : Z * snd_interval :=
  if i_empty i then (-EINVAL, i)
  else if snd_interval_single i then (0, i)
  else
    let i := i <| i_min := i_max i |> <| i_openmin := i_openmax i |> in
    (1, if i_openmin i then i <| i_min := u32 (i_min i - 1) |> else i).

Definition snd_interval_refine_set (i : snd_interval) (val : Z) : Z * snd_interval :=
  snd_interval_refine i (Itv val val false false true false).

(** ** Interval arithmetic: the C functions store into [c]; every field but
    [empty] is written unless an operand is empty *)

Definition snd_interval_mul (a b c : snd_interval) : snd_interval :=
  if i_empty a || i_empty b then snd_interval_none c
  else Itv (mul (i_min a) (i_min b)) (mul (i_max a) (i_max b))
           (i_openmin a || i_openmin b) (i_openmax a || i_openmax b)
           (i_integer a && i_integer b) false.

(** The upper bound of a quotient: rounded up and open when inexact. *)
Definition round_up (q r : Z) (open : bool) : Z * bool :=
  if truth r then (u32 (q + 1), true) else (q, open).

Definition snd_interval_div (a b c : snd_interval) : snd_interval :=
  if i_empty a || i_empty b then snd_interval_none c
  else
    let '(min, r) := div32 (i_min a) (i_max b) in
    let openmin := truth r || i_openmin a || i_openmax b in
    let '(max, openmax) :=
      if 0 <? i_min b then
        let '(q, r) := div32 (i_max a) (i_min b) in
        round_up q r (i_openmax a || i_openmin b)
      else (UINT_MAX, false) in
    Itv min max openmin openmax false false.

Definition snd_interval_muldivk (a b : snd_interval) (k : Z) (c : snd_interval) : snd_interval :=
  if i_empty a || i_empty b then snd_interval_none c
  else
    let '(min, r) := muldiv32 (i_min a) (i_min b) k in
    let openmin := truth r || i_openmin a || i_openmin b in
    let '(q, r) := muldiv32 (i_max a) (i_max b) k in
    let '(max, openmax) := round_up q r (i_openmax a || i_openmax b) in
    Itv min max openmin openmax false false.

Definition snd_interval_mulkdiv (a : snd_interval) (k : Z) (b c : snd_interval) : snd_interval :=
  if i_empty a || i_empty b then snd_interval_none c
  else
    let '(min, r) := muldiv32 (i_min a) k (i_max b) in
    let openmin := truth r || i_openmin a || i_openmax b in
    let '(max, openmax) :=
      if 0 <? i_min b then
        let '(q, r) := muldiv32 (i_max a) k (i_min b) in
        round_up q r (i_openmax a || i_openmin b)
      else (UINT_MAX, false) in
    Itv min max openmin openmax false false.

(** ** What an interval denotes *)

Definition above (m : Z) (open : bool) (x : Q) : Prop :=
  if open then m * QDen x < Qnum x else m * QDen x <= Qnum x.

Definition below (m : Z) (open : bool) (x : Q) : Prop :=
  if open then Qnum x < m * QDen x else Qnum x <= m * QDen x.

Definition is_integer (x : Q) : Prop := exists k, Qnum x = k * QDen x.

Definition itv_mem (i : snd_interval) (x : Q) : Prop :=
  i_empty i = false /\ above (i_min i) (i_openmin i) x /\
  below (i_max i) (i_openmax i) x /\ (i_integer i = true -> is_integer x).

(** Bounds are 32-bit and no bound is both open and at the end of the range:
    otherwise closing it would wrap around. *)
Definition itv_wf (i : snd_interval) : Prop :=
  is_u32 (i_min i) /\ is_u32 (i_max i) /\
  (i_openmin i = true -> i_min i < UINT_MAX) /\ (i_openmax i = true -> 0 < i_max i).

(** Boolean versions, to evaluate on concrete intervals. *)
Definition itv_memb (i : snd_interval) (x : Q) : bool :=
  negb (i_empty i)
  && (if i_openmin i then i_min i * QDen x <? Qnum x else i_min i * QDen x <=? Qnum x)
  && (if i_openmax i then Qnum x <? i_max i * QDen x else Qnum x <=? i_max i * QDen x)
  && (negb (i_integer i) || (Qnum x mod QDen x =? 0)).

Definition itv_wfb (i : snd_interval) : bool :=
  (0 <=? i_min i) && (i_min i <=? UINT_MAX) && (0 <=? i_max i) && (i_max i <=? UINT_MAX)
  && (negb (i_openmin i) || (i_min i <? UINT_MAX)) && (negb (i_openmax i) || (0 <? i_max i)).

Lemma itv_memb_true i x : itv_memb i x = true -> itv_mem i x.
Proof.
  unfold itv_memb, itv_mem, above, below. rewrite !andb_true_iff, negb_true_iff.
  intros [[[? A] B] I]. split; [done |].
  split; [destruct (i_openmin i); lia |]. split; [destruct (i_openmax i); lia |].
  intros Hi. rewrite Hi in I. apply Z.eqb_eq in I. exists (Qnum x / QDen x).
  rewrite Z.mul_comm. by apply Z.div_exact.
Qed.

Lemma itv_wfb_true i : itv_wfb i = true -> itv_wf i.
Proof.
  unfold itv_wfb, itv_wf, is_u32, UINT_MAX. rewrite !andb_true_iff, !orb_true_iff, !negb_true_iff.
  intros [[[[[? ?] ?] ?] A] B].
  split; [lia |]. split; [lia |].
  split; intros Ho; [destruct A as [A | A] | destruct B as [B | B]]; congruence || lia.
Qed.

(** The two ends in half steps, an open end counting half a step inside; and the
    measure that refinement decreases. *)
Definition itv_lo (i : snd_interval) : Z := 2 * i_min i + b2z (i_openmin i).
Definition itv_hi (i : snd_interval) : Z := 2 * i_max i - b2z (i_openmax i).
Definition itv_size (i : snd_interval) : Z :=
  itv_hi i - itv_lo i + b2z (negb (i_integer i)).

(** [i'] is [i] with possibly narrower ends and possibly more integrality. *)
Definition itv_narrower (i' i : snd_interval) : Prop :=
  itv_lo i <= itv_lo i' /\ itv_hi i' <= itv_hi i /\ (i_integer i = true -> i_integer i' = true).

Lemma checkempty_spec i : snd_interval_checkempty i = true <-> itv_hi i < itv_lo i.
Proof.
  destruct i as [mn mx om ox int emp].
  unfold snd_interval_checkempty, itv_hi, itv_lo; simpl.
  destruct (Z.ltb_spec mx mn), (Z.eqb_spec mn mx), om, ox; simpl; split; try done; lia.
Qed.

Lemma narrower_refl i : itv_narrower i i.
Proof. split; [| split]; auto; lia. Qed.

Lemma narrower_trans i1 i2 i3 : itv_narrower i1 i2 -> itv_narrower i2 i3 -> itv_narrower i1 i3.
Proof. intros (? & ? & ?) (? & ? & ?). split; [| split]; auto; lia. Qed.

Lemma narrower_size i' i : itv_narrower i' i -> itv_size i' <= itv_size i.
Proof.
  intros (? & ? & H). unfold itv_size.
  destruct (i_integer i); [rewrite H by done; simpl; lia |].
  pose proof (b2z_range (negb (i_integer i'))). simpl in *. lia.
Qed.

#[export] Hint Resolve narrower_refl narrower_size : uniaud.

Lemma narrower_none i i' : itv_narrower i' i -> itv_narrower (snd_interval_none i') i.
Proof. done. Qed.

#[export] Hint Resolve narrower_none : uniaud.

(** ** The steps of refinement *)

Lemma above_max m o m' o' x :
  above m o x /\ above m' o' x <->
  (if m <? m' then above m' o' x
   else if (m =? m') && negb o && o' then above m true x else above m o x).
Proof.
  unfold above. destruct (Z.ltb_spec m m'), (Z.eqb_spec m m'), o, o'; simpl; subst;
    split; try (intros [? ?]); intros; try split; nia.
Qed.

Lemma below_min m o m' o' x :
  below m o x /\ below m' o' x <->
  (if m' <? m then below m' o' x
   else if (m =? m') && negb o && o' then below m true x else below m o x).
Proof.
  unfold below. destruct (Z.ltb_spec m' m), (Z.eqb_spec m m'), o, o'; simpl; subst;
    split; try (intros [? ?]); intros; try split; nia.
Qed.

(** What one step of a refinement guarantees: which set it denotes, that it narrows
    the interval, strictly when it reports a change, and keeps it well formed. *)
Record step_ok (P : Q -> Prop) (c : bool) (i i' : snd_interval) : Prop := {
  step_mem x : itv_mem i' x <-> itv_mem i x /\ P x;
  step_narrower : itv_narrower i' i;
  step_strict : c = true -> itv_size i' < itv_size i;
  step_same : c = false -> forall x, itv_mem i x -> P x;
  step_wf : itv_wf i';
  step_empty : i_empty i' = i_empty i }.

Lemma raise_min_ok m o i :
  itv_wf i -> is_u32 m -> (o = true -> m < UINT_MAX) ->
  step_ok (above m o) (raise_min m o i).1 i (raise_min m o i).2.
Proof.
  destruct i as [mn mx om ox int emp]. intros (Hmn & Hmx & Hom & Hox) Hm Ho. simpl in *.
  split.
  - intros x. pose proof (above_max mn om m o x) as A.
    unfold raise_min, itv_mem; simpl.
    destruct (mn <? m); [simpl; tauto |].
    destruct (_ && _ && _); simpl; tauto.
  - unfold raise_min, itv_narrower, itv_lo, itv_hi; simpl. pose proof (b2z_range o).
    destruct (Z.ltb_spec mn m), (Z.eqb_spec mn m), om, o; simpl; repeat split; auto; lia.
  - unfold raise_min, itv_size, itv_lo, itv_hi; simpl. pose proof (b2z_range o).
    destruct (Z.ltb_spec mn m), (Z.eqb_spec mn m), om, o; simpl; try done; lia.
  - intros Hc x (_ & Ha & _). simpl in Ha. apply (proj2 (above_max mn om m o x)).
    revert Hc. unfold raise_min; simpl. destruct (mn <? m); [done |].
    destruct (_ && _ && _); simpl; [done |]. intros _. exact Ha.
  - unfold raise_min, itv_wf; simpl.
    destruct (Z.ltb_spec mn m), (Z.eqb_spec mn m), om, o; simpl; repeat split; auto;
      subst; auto; word_lia.
  - unfold raise_min; simpl. destruct (mn <? m); [done |]. by destruct (_ && _ && _).
Qed.

Lemma lower_max_ok m o i :
  itv_wf i -> is_u32 m -> (o = true -> 0 < m) ->
  step_ok (below m o) (lower_max m o i).1 i (lower_max m o i).2.
Proof.
  destruct i as [mn mx om ox int emp]. intros (Hmn & Hmx & Hom & Hox) Hm Ho. simpl in *.
  split.
  - intros x. pose proof (below_min mx ox m o x) as A.
    unfold lower_max, itv_mem; simpl.
    destruct (m <? mx); [simpl; tauto |].
    destruct (_ && _ && _); simpl; tauto.
  - unfold lower_max, itv_narrower, itv_lo, itv_hi; simpl. pose proof (b2z_range o).
    destruct (Z.ltb_spec m mx), (Z.eqb_spec mx m), ox, o; simpl; repeat split; auto; lia.
  - unfold lower_max, itv_size, itv_lo, itv_hi; simpl. pose proof (b2z_range o).
    destruct (Z.ltb_spec m mx), (Z.eqb_spec mx m), ox, o; simpl; try done; lia.
  - intros Hc x (_ & _ & Hb & _). simpl in Hb. apply (proj2 (below_min mx ox m o x)).
    revert Hc. unfold lower_max; simpl. destruct (m <? mx); [done |].
    destruct (_ && _ && _); simpl; [done |]. intros _. exact Hb.
  - unfold lower_max, itv_wf; simpl.
    destruct (Z.ltb_spec m mx), (Z.eqb_spec mx m), ox, o; simpl; repeat split; auto;
      subst; auto; word_lia.
  - unfold lower_max; simpl. destruct (m <? mx); [done |]. by destruct (_ && _ && _).
Qed.

Lemma step_compose P P' c c' i i1 i2 :
  step_ok P c i i1 -> step_ok P' c' i1 i2 ->
  step_ok (fun x => P x /\ P' x) (c || c') i i2.
Proof.
  intros [M N S K W E] [M' N' S' K' W' E']. split.
  - intros x. rewrite M', M. tauto.
  - eapply narrower_trans; eauto.
  - pose proof (narrower_size _ _ N). pose proof (narrower_size _ _ N').
    intros [Hc | Hc]%orb_prop; [specialize (S Hc) | specialize (S' Hc)]; lia.
  - intros [Hc Hc']%orb_false_iff x Hx. split; [by apply K |].
    apply K'; [done |]. apply M. split; [done | by apply K].
  - done.
  - congruence.
Qed.

Lemma step_impl (P P' : Q -> Prop) c c' i i' :
  (forall x, itv_mem i x -> (P x <-> P' x)) -> c' = c ->
  step_ok P c i i' -> step_ok P' c' i i'.
Proof.
  intros HP -> [M N S K W E]. split; auto.
  - intros x. rewrite M. specialize (HP x). tauto.
  - intros Hc x Hx. apply HP; auto.
Qed.

Definition make_integer (b : bool) (i : snd_interval) : bool * snd_interval :=
  if negb (i_integer i) && b then (true, i <| i_integer := true |>) else (false, i).

Lemma make_integer_ok b i :
  itv_wf i -> step_ok (fun x => b = true -> is_integer x) (make_integer b i).1 i (make_integer b i).2.
Proof.
  destruct i as [mn mx om ox int emp]. intros Hwf.
  unfold make_integer; destruct int, b; simpl; split; try done; unfold itv_mem, itv_narrower,
    itv_size, itv_lo, itv_hi; simpl; intros; try tauto; try (split; [| split]; auto; lia); lia.
Qed.

Lemma close_min_ok i :
  itv_wf i -> i_integer i = true -> step_ok (fun _ => True) false i (close_min i).
Proof.
  destruct i as [mn mx om ox int emp]. intros (Hmn & Hmx & Hom & Hox) Hint. simpl in *. subst int.
  unfold close_min; destruct om; simpl.
  2: { split; [tauto | auto with uniaud | done | done | done | done]. }
  specialize (Hom eq_refl). rewrite u32_small by word_lia.
  split; simpl; try done.
  - intros x. unfold itv_mem, above; simpl.
    enough (is_integer x -> mn * QDen x < Qnum x <-> (mn + 1) * QDen x <= Qnum x)
      by intuition.
    intros [k ->]. rewrite <- Z.mul_lt_mono_pos_r, <- Z.mul_le_mono_pos_r by lia. lia.
  - unfold itv_narrower, itv_lo, itv_hi; simpl. pose proof (b2z_range ox). repeat split; auto; lia.
  - unfold itv_wf; simpl. repeat split; try done; word_lia.
Qed.

Lemma close_max_ok i :
  itv_wf i -> i_integer i = true -> step_ok (fun _ => True) false i (close_max i).
Proof.
  destruct i as [mn mx om ox int emp]. intros (Hmn & Hmx & Hom & Hox) Hint. simpl in *. subst int.
  unfold close_max; destruct ox; simpl.
  2: { split; [tauto | auto with uniaud | done | done | done | done]. }
  specialize (Hox eq_refl). rewrite u32_small by word_lia.
  split; simpl; try done.
  - intros x. unfold itv_mem, below; simpl.
    enough (is_integer x -> Qnum x < mx * QDen x <-> Qnum x <= (mx - 1) * QDen x)
      by intuition.
    intros [k ->]. rewrite <- Z.mul_lt_mono_pos_r, <- Z.mul_le_mono_pos_r by lia. lia.
  - unfold itv_narrower, itv_lo, itv_hi; simpl. pose proof (b2z_range om). repeat split; auto; lia.
  - unfold itv_wf; simpl. repeat split; try done; word_lia.
Qed.

(** A closed one-point interval is integral. *)
Lemma point_integer_ok i :
  itv_wf i -> i_openmin i = false -> i_openmax i = false -> i_min i = i_max i ->
  step_ok (fun _ => True) false i (i <| i_integer := true |>).
Proof.
  destruct i as [mn mx om ox int emp]. simpl. intros Hwf -> -> ->. split; simpl; try done.
  - intros x. unfold itv_mem, above, below, is_integer; simpl.
    intuition. exists mx. lia.
Qed.

(** Something lies in an interval whose bounds do not cross. *)
Lemma nonempty_mem i :
  snd_interval_checkempty i = false -> i_empty i = false ->
  (i_integer i = true -> i_openmin i = false \/ i_openmax i = false) ->
  exists x, itv_mem i x.
Proof.
  intros He Hemp Hint.
  assert (Hlo : itv_lo i <= itv_hi i).
  { destruct (Z.lt_ge_cases (itv_hi i) (itv_lo i)) as [H%checkempty_spec | ?]; [congruence | lia]. }
  destruct i as [mn mx om ox int emp]; unfold itv_lo, itv_hi in *; simpl in *. subst emp.
  pose proof (b2z_range ox).
  destruct om.
  - destruct ox.
    + destruct int; [destruct (Hint eq_refl); done |].
      exists (2 * mn + 1 # 2)%Q. unfold itv_mem, above, below; simpl in *.
      split; [done |]. split; [lia |]. split; [lia | done].
    + exists (mx # 1)%Q. unfold itv_mem, above, below, is_integer; simpl in *.
      split; [done |]. split; [lia |]. split; [lia |]. exists mx; lia.
  - exists (mn # 1)%Q. unfold itv_mem, above, below, is_integer; simpl in *.
    split; [done |]. split; [lia |]. split; [destruct ox; simpl in *; lia |]. exists mn; lia.
Qed.

(** The contract of the functions that narrow an interval and end in
    [refine_result]: an error exactly when nothing is left, else the intersection. *)
Record refines (P : Q -> Prop) (i : snd_interval) (res : Z * snd_interval) : Prop := {
  ref_code : res.1 = -EINVAL \/ res.1 = 0 \/ res.1 = 1;
  ref_fail : res.1 = -EINVAL -> i_empty res.2 = true /\ forall x, itv_mem i x -> ~ P x;
  ref_ok : 0 <= res.1 -> itv_wf res.2 /\ (exists x, itv_mem res.2 x) /\
           (forall x, itv_mem res.2 x <-> itv_mem i x /\ P x);
  ref_narrower : itv_narrower res.2 i;
  ref_strict : res.1 = 1 -> itv_size res.2 < itv_size i;
  ref_same : res.1 = 0 -> forall x, itv_mem i x -> P x }.

Lemma refine_result_ok P c i i' :
  i_empty i = false -> step_ok P c i i' ->
  (i_integer i' = true -> i_openmin i' = false \/ i_openmax i' = false) ->
  refines P i (refine_result c i').
Proof.
  intros Hne [M N S K W E] Hint. unfold refine_result.
  destruct (snd_interval_checkempty i') eqn:Hce.
  - split; simpl; try (intros; unfold EINVAL in *; lia); auto.
    intros _. split; [done |]. intros x Hx HP.
    assert (Hx' : itv_mem i' x) by (apply M; done).
    apply checkempty_spec in Hce. destruct Hx' as (_ & Hl & Hh & _).
    destruct i' as [mn mx om ox int emp]; unfold itv_lo, itv_hi, above, below in *; simpl in *.
    destruct om, ox; simpl in *; nia.
  - pose proof (b2z_range c). split; simpl; auto; try (unfold EINVAL; lia).
    + intros _. split; [done |]. split; [| done]. apply nonempty_mem; [done | congruence | done].
    + destruct c; simpl; [auto | lia].
    + destruct c; simpl; [lia | auto].
Qed.

(** ** Refinement is intersection *)

Lemma refine_min_refines i m o :
  i_empty i = false -> itv_wf i -> is_u32 m -> (o = true -> m < UINT_MAX) ->
  refines (above m o) i (snd_interval_refine_min i m o).
Proof.
  intros Hne Hwf Hm Ho. unfold snd_interval_refine_min. rewrite Hne.
  pose proof (raise_min_ok m o i Hwf Hm Ho) as S1.
  destruct (raise_min m o i) as [c i1]; simpl in S1.
  destruct (i_integer i1) eqn:Hint.
  - apply refine_result_ok; [done | |].
    + eapply step_impl; [| | eapply step_compose;
        [apply S1 | apply close_min_ok; [apply S1 | done]]].
      * simpl. tauto.
      * by rewrite orb_false_r.
    + intros _. left. unfold close_min. by destruct (i_openmin i1) eqn:?.
  - apply refine_result_ok; [done | done | congruence].
Qed.

Lemma refine_max_refines i m o :
  i_empty i = false -> itv_wf i -> is_u32 m -> (o = true -> 0 < m) ->
  refines (below m o) i (snd_interval_refine_max i m o).
Proof.
  intros Hne Hwf Hm Ho. unfold snd_interval_refine_max. rewrite Hne.
  pose proof (lower_max_ok m o i Hwf Hm Ho) as S1.
  destruct (lower_max m o i) as [c i1]; simpl in S1.
  destruct (i_integer i1) eqn:Hint.
  - apply refine_result_ok; [done | |].
    + eapply step_impl; [| | eapply step_compose;
        [apply S1 | apply close_max_ok; [apply S1 | done]]].
      * simpl. tauto.
      * by rewrite orb_false_r.
    + intros _. right. unfold close_max. by destruct (i_openmax i1) eqn:?.
  - apply refine_result_ok; [done | done | congruence].
Qed.

(** The last adjustment of [snd_interval_refine]. *)
Lemma normalize_ok i :
  itv_wf i ->
  let i' := if i_integer i then close_max (close_min i)
            else if negb (i_openmin i) && negb (i_openmax i) && (i_min i =? i_max i)
                 then i <| i_integer := true |> else i in
  step_ok (fun _ => True) false i i' /\
  (i_integer i' = true -> i_openmin i' = false \/ i_openmax i' = false).
Proof.
  intros Hwf. cbv zeta. destruct (i_integer i) eqn:Hint.
  - pose proof (close_min_ok i Hwf Hint) as S1.
    assert (Hint1 : i_integer (close_min i) = true)
      by (unfold close_min; by destruct (i_openmin i)).
    split.
    + eapply step_impl; [| | eapply step_compose;
        [apply S1 | apply close_max_ok; [apply S1 | done]]]; simpl; tauto.
    + intros _. right. unfold close_max. by destruct (i_openmax (close_min i)) eqn:?.
  - destruct (_ && _ && _) eqn:Hpt.
    + apply andb_prop in Hpt as [[Ho Hx]%andb_prop He%Z.eqb_eq].
      apply negb_true_iff in Ho, Hx. split; [by apply point_integer_ok |].
      intros _. left. done.
    + split; [| congruence]. split; [tauto | auto with uniaud | done | done | done | done].
Qed.

(** What [snd_interval_refine] intersects with: it never reads [v->empty]. *)
Definition bounds_of (v : snd_interval) (x : Q) : Prop :=
  above (i_min v) (i_openmin v) x /\ below (i_max v) (i_openmax v) x /\
  (i_integer v = true -> is_integer x).

Lemma refine_refines i v :
  i_empty i = false -> itv_wf i -> itv_wf v ->
  refines (bounds_of v) i (snd_interval_refine i v).
Proof.
  intros Hne Hwf (Hmn & Hmx & Hom & Hox). unfold snd_interval_refine. rewrite Hne.
  pose proof (raise_min_ok (i_min v) (i_openmin v) i Hwf Hmn Hom) as S1.
  destruct (raise_min _ _ i) as [c1 i1]; simpl in S1.
  pose proof (lower_max_ok (i_max v) (i_openmax v) i1 (step_wf _ _ _ _ S1) Hmx Hox) as S2.
  destruct (lower_max _ _ i1) as [c2 i2]; simpl in S2.
  pose proof (make_integer_ok (i_integer v) i2 (step_wf _ _ _ _ S2)) as S3.
  fold (make_integer (i_integer v) i2).
  destruct (make_integer _ i2) as [c3 i3]; simpl in S3.
  pose proof (step_compose _ _ _ _ _ _ _ (step_compose _ _ _ _ _ _ _ S1 S2) S3) as S.
  destruct (normalize_ok i3 (step_wf _ _ _ _ S)) as [S4 Hint].
  apply refine_result_ok; [done | | exact Hint].
  eapply step_impl; [| | apply (step_compose _ _ _ _ _ _ _ S S4)].
  - unfold bounds_of. tauto.
  - by rewrite orb_false_r.
Qed.

(** Refining an interval by another denotes their intersection.  The error is
    returned exactly when the intersection is empty; zero means that nothing was
    cut off and one that the interval is strictly narrower; the outcome is well
    formed and not empty. *)
Theorem snd_interval_refine_spec i v :
  i_empty i = false -> itv_wf i -> itv_wf v ->
  let '(r, i') := snd_interval_refine i v in
  (r = -EINVAL /\ i_empty i' = true /\ (forall x, ~ (itv_mem i x /\ bounds_of v x))) \/
  ((r = 0 /\ (forall x, itv_mem i x -> bounds_of v x) \/ r = 1 /\ itv_size i' < itv_size i) /\
   itv_wf i' /\ (exists x, itv_mem i' x) /\
   (forall x, itv_mem i' x <-> itv_mem i x /\ bounds_of v x)).
Proof.
  intros Hne Hwf Hv. pose proof (refine_refines i v Hne Hwf Hv) as [C F O _ S K].
  destruct (snd_interval_refine i v) as [r i']; simpl in *.
  destruct C as [-> | [-> | ->]].
  - left. destruct (F eq_refl) as [He Hx]. split; [done |]. split; [done |].
    intros x [? ?]. by apply (Hx x).
  - right. split; [left; auto |]. apply O. lia.
  - right. split; [right; auto |]. apply O. lia.
Qed.

Lemma snd_interval_refine_spec_witness :
  exists x, itv_mem (snd_interval_refine (Itv 1 10 false false true false)
                                         (Itv 3 20 true false false false)).2 x.
Proof.
  assert (W1 : itv_wf (Itv 1 10 false false true false)) by by apply itv_wfb_true.
  assert (W2 : itv_wf (Itv 3 20 true false false false)) by by apply itv_wfb_true.
  pose proof (snd_interval_refine_spec (Itv 1 10 false false true false)
                (Itv 3 20 true false false false) eq_refl W1 W2) as [[E _] | (_ & _ & X & _)].
  - discriminate E.
  - exact X.
Defined.

(** ** Soundness of the arithmetic

    Configuration parameters are positive quantities; a product or quotient of
    members lies in the computed interval as long as it is below the saturation
    value. *)

Definition positive (x : Q) : Prop := 0 < Qnum x.
Definition unsaturated (x : Q) : Prop := Qnum x < UINT_MAX * QDen x.

Lemma mul_sat a b : is_u32 a -> is_u32 b -> mul a b = Z.min (a * b) UINT_MAX.
Proof.
  intros Ha Hb. unfold mul, div_down, is_u32 in *.
  destruct (Z.eqb_spec a 0) as [-> | Hnz]; [unfold UINT_MAX; lia |].
  assert (Hq : UINT_MAX / a * a <= UINT_MAX < (UINT_MAX / a + 1) * a).
  { pose proof (Z.div_mod UINT_MAX a Hnz).
    pose proof (Z.mod_pos_bound UINT_MAX a ltac:(lia)). lia. }
  destruct (Z.ltb_spec (UINT_MAX / a) b).
  - rewrite Z.min_r; [done |]. nia.
  - rewrite Z.min_l by nia. apply u32_small. unfold is_u32, UINT_MAX in *. nia.
Qed.

(** [ratio_above n m o z]: the fraction [n / m] bounds [z] from below. *)
Definition ratio_above (n m : Z) (o : bool) (z : Q) : Prop :=
  if o then n * QDen z < m * Qnum z else n * QDen z <= m * Qnum z.

Definition ratio_below (n m : Z) (o : bool) (z : Q) : Prop :=
  if o then m * Qnum z < n * QDen z else m * Qnum z <= n * QDen z.

Lemma above_floor n m o z :
  0 < m -> ratio_above n m o z -> above (n / m) (truth (n mod m) || o) z.
Proof.
  intros Hm Hz. unfold ratio_above, above, truth in *.
  pose proof (Z.div_mod n m ltac:(lia)) as E. pose proof (Z.mod_pos_bound n m Hm).
  set (q := n / m) in *. set (r := n mod m) in *.
  assert (Hpos : 0 < QDen z) by lia.
  destruct (Z.eqb_spec r 0) as [Er | Er], o; simpl.
  - apply (Z.mul_lt_mono_pos_l m); [lia |]. rewrite Er in E. nia.
  - apply (Z.mul_le_mono_pos_l _ _ m); [lia |]. rewrite Er in E. nia.
  - apply (Z.mul_lt_mono_pos_l m); [lia |]. nia.
  - apply (Z.mul_lt_mono_pos_l m); [lia |]. nia.
Qed.

Lemma below_ceil n m o z :
  0 < m -> ratio_below n m o z ->
  if truth (n mod m) then below (n / m + 1) true z else below (n / m) o z.
Proof.
  intros Hm Hz. unfold ratio_below, below, truth in *.
  pose proof (Z.div_mod n m ltac:(lia)) as E. pose proof (Z.mod_pos_bound n m Hm).
  set (q := n / m) in *. set (r := n mod m) in *.
  destruct (Z.eqb_spec r 0) as [Er | Er]; simpl.
  - destruct o.
    + apply (Z.mul_lt_mono_pos_l m); [lia |]. rewrite Er in E. nia.
    + apply (Z.mul_le_mono_pos_l _ _ m); [lia |]. rewrite Er in E. nia.
  - assert (n < m * (q + 1)) by nia.
    apply (Z.mul_lt_mono_pos_l m); [lia |].
    apply Z.le_lt_trans with (n * QDen z); [destruct o; lia | nia].
Qed.

Lemma above_weaken q q' o z : q <= q' -> above q' o z -> above q o z.
Proof. unfold above. destruct o; nia. Qed.

Lemma above_unsaturated q o z : above q o z -> unsaturated z -> q < UINT_MAX.
Proof. unfold above, unsaturated. destruct o; nia. Qed.

Lemma unsaturated_below q o z : UINT_MAX <= q -> unsaturated z -> below q o z.
Proof. unfold below, unsaturated. destruct o; nia. Qed.

#[local] Hint Resolve unsaturated_below : core.

(** At most half of the 32-bit range. *)
Definition half_range (w : Q) : Prop := 2 * Qnum w <= UINT_MAX * QDen w.

(** The facts about [muldiv32] that the interval operations rely on. *)
Lemma muldiv32_cases a b c :
  is_u32 a -> is_u32 b -> 0 < c <= UINT_MAX ->
  let '(q, r) := muldiv32 a b c in
  is_u32 q /\ (q = UINT_MAX -> r = 0) /\
  (q <> UINT_MAX -> r = (a * b) mod c /\ q <= a * b / c <= 2 * q /\
     (r <> 0 \/ a * b <= UINT_MAX -> q = a * b / c)) /\
  (q = UINT_MAX -> UINT_MAX <= a * b / c) /\
  (div64_exact (a * b) c -> q = Z.min (a * b / c) UINT_MAX).
Proof.
  intros Ha Hb Hc. unfold muldiv32.
  assert (Hn : 0 <= a * b < 18446744073709551616) by (unfold is_u32 in *; nia).
  assert (u64 (a * b) = a * b) as -> by (unfold u64; apply Z.mod_small; lia).
  destruct (Z.eqb_spec c 0); [lia |].
  pose proof (div64_correct (a * b) c Hn Hc) as P. unfold div64_exact in *.
  destruct (div64_32 (a * b) c) as [q r] eqn:Eqr. destruct P as (Hr & Hq & Hhalf & Hx).
  destruct (Z.leb_spec UINT_MAX q).
  - repeat split; try (unfold is_u32, UINT_MAX in *; lia); try congruence.
  - repeat split; try (unfold is_u32, UINT_MAX in *; lia).
    + intros Hnz. rewrite Hr in Hnz. by injection (Hx Hnz).
    + intros E%pair_equal_spec. lia.
Qed.

Lemma muldiv32_above a b c o z :
  is_u32 a -> is_u32 b -> 0 < c <= UINT_MAX ->
  ratio_above (a * b) c o z -> unsaturated z ->
  let '(q, r) := muldiv32 a b c in is_u32 q /\ above q (truth r || o) z.
Proof.
  intros Ha Hb Hc Hz Hu. pose proof (muldiv32_cases a b c Ha Hb Hc) as P.
  pose proof (above_floor _ _ _ _ (proj1 Hc) Hz) as A.
  destruct (muldiv32 a b c) as [q r]. destruct P as (Hq & _ & Hr & Hs & _). split; [done |].
  pose proof (above_unsaturated _ _ _ A Hu).
  destruct (Z.eq_dec q UINT_MAX) as [E | E]; [lia |].
  destruct (Hr E) as (-> & [Hle _] & _). by apply above_weaken with (a * b / c).
Qed.

(** A value that is at most half of a quotient that does not fit is below what is computed
    for it. *)
Lemma below_half n c q o z :
  0 < c -> n mod c = 0 -> UINT_MAX < n -> n / c <= 2 * q -> 2 * (Qnum z * c) <= UINT_MAX * QDen z ->
  below q o z.
Proof.
  intros Hc Hm Hn Hq Hz. assert (E : n = c * (n / c)) by (apply Z.div_exact; lia).
  set (t := n / c) in *. assert (H : 2 * Qnum z * c < t * QDen z * c).
  { assert (UINT_MAX * QDen z < n * QDen z) by (apply Z.mul_lt_mono_pos_r; lia).
    rewrite E in *. lia. }
  apply Z.mul_lt_mono_pos_r in H; [| done].
  assert (t * QDen z <= 2 * q * QDen z) by (apply Z.mul_le_mono_nonneg_r; lia).
  unfold below. destruct o; lia.
Qed.

(** An upper bound needs the 64-bit division to be exact, or the value to be small. *)
Lemma muldiv32_below a b c o z :
  is_u32 a -> is_u32 b -> 0 < c <= UINT_MAX ->
  div64_exact (a * b) c \/ 2 * (Qnum z * c) <= UINT_MAX * QDen z ->
  ratio_below (a * b) c o z -> unsaturated z ->
  let '(q, r) := muldiv32 a b c in
  let '(m, o') := round_up q r o in is_u32 m /\ below m o' z.
Proof.
  intros Ha Hb Hc Hx Hz Hu. pose proof (muldiv32_cases a b c Ha Hb Hc) as P.
  pose proof (below_ceil _ _ _ _ (proj1 Hc) Hz) as B.
  destruct (muldiv32 a b c) as [q r]. destruct P as (Hq & Hs & Hr & _ & He).
  unfold round_up. destruct (Z.eq_dec q UINT_MAX) as [E | E].
  { rewrite (Hs E). simpl. split; [done | auto with zarith]. }
  destruct (Hr E) as (Er & [_ Hhalf] & Hexact).
  assert (D : q = a * b / c \/
    r = 0 /\ UINT_MAX < a * b /\ 2 * (Qnum z * c) <= UINT_MAX * QDen z).
  { destruct Hx as [Hx | Hx]; [left; specialize (He Hx); lia |].
    destruct (Z.eq_dec r 0); [| by left; apply Hexact; left].
    destruct (Z.le_gt_cases (a * b) UINT_MAX); [left; apply Hexact; by right | by right]. }
  destruct D as [-> | (Hr0 & Hbig & Hsmall)].
  - rewrite Er in *. destruct (truth _); [| done]. unfold is_u32, UINT_MAX in *.
    rewrite u32_small by (unfold is_u32; lia). split; [lia | done].
  - rewrite Hr0 in *. simpl. split; [done |].
    by apply (below_half (a * b) c); [lia | | | |].
Qed.

(** Products and quotients of bounds bound products and quotients. *)
Lemma product_above a oa x b ob y :
  0 <= a -> 0 <= b -> positive x -> positive y -> above a oa x -> above b ob y ->
  ratio_above (a * b) 1 (oa || ob) (x * y).
Proof.
  unfold positive, above, ratio_above. destruct x as [p d], y as [p' d']. simpl.
  intros Ha Hb Hx Hy A B. rewrite Pos2Z.inj_mul.
  assert (a * b * (Z.pos d * Z.pos d') = (a * Z.pos d) * (b * Z.pos d')) as -> by ring.
  destruct oa, ob; simpl; nia.
Qed.

Lemma product_below a oa x b ob y :
  positive x -> positive y -> below a oa x -> below b ob y ->
  ratio_below (a * b) 1 (oa || ob) (x * y).
Proof.
  unfold positive, below, ratio_below. destruct x as [p d], y as [p' d']. simpl.
  intros Hx Hy A B. rewrite Pos2Z.inj_mul.
  assert (a * b * (Z.pos d * Z.pos d') = (a * Z.pos d) * (b * Z.pos d')) as -> by ring.
  destruct oa, ob; simpl; nia.
Qed.

(** The same for [x * k / y], bounded by [a * k / b]. *)
Lemma quotient_above a oa x k b ob y :
  0 <= a -> 0 < k -> positive x -> positive y -> above a oa x -> below b ob y ->
  ratio_above (a * k) b (oa || ob) (x * inject_Z k / y).
Proof.
  unfold positive, above, below, ratio_above. intros Ha Hk.
  destruct x as [p d], y as [[| p' | p'] d']; simpl; try lia.
  intros Hx Hy A B. rewrite !Pos2Z.inj_mul, Z.mul_1_r.
  assert (E1 : a * k * (Z.pos d * Z.pos p') = k * ((a * Z.pos d) * Z.pos p')) by ring.
  assert (E2 : b * (p * k * Z.pos d') = k * (p * (b * Z.pos d'))) by ring.
  rewrite E1, E2. set (u := a * Z.pos d) in *. set (v := b * Z.pos d') in *.
  assert (0 <= u) by (subst u; nia).
  destruct oa, ob; simpl; (apply Z.mul_lt_mono_pos_l || apply Z.mul_le_mono_nonneg_l); try lia; nia.
Qed.

Lemma quotient_below a oa x k b ob y :
  0 <= b -> 0 < k -> positive x -> positive y -> below a oa x -> above b ob y ->
  ratio_below (a * k) b (oa || ob) (x * inject_Z k / y).
Proof.
  unfold positive, above, below, ratio_below. intros Hb Hk.
  destruct x as [p d], y as [[| p' | p'] d']; simpl; try lia.
  intros Hx Hy A B. rewrite !Pos2Z.inj_mul, Z.mul_1_r.
  assert (E1 : a * k * (Z.pos d * Z.pos p') = k * ((a * Z.pos d) * Z.pos p')) by ring.
  assert (E2 : b * (p * k * Z.pos d') = k * (p * (b * Z.pos d'))) by ring.
  rewrite E1, E2. set (u := a * Z.pos d) in *. set (v := b * Z.pos d') in *.
  assert (0 <= v) by (subst v; nia).
  destruct oa, ob; simpl; (apply Z.mul_lt_mono_pos_l || apply Z.mul_le_mono_nonneg_l); try lia; nia.
Qed.

(** [2*x*k] in range bounds [2*z*m] for [z = x*k/y] and [m] below [y]. *)
Lemma half_range_quotient x k y m o :
  0 < k -> positive x -> positive y -> 0 < m -> above m o y -> half_range (x * inject_Z k) ->
  2 * (Qnum (x * inject_Z k / y) * m) <= UINT_MAX * QDen (x * inject_Z k / y).
Proof.
  unfold half_range, positive, above. destruct x as [p d], y as [[| p' | p'] d']; simpl; try lia.
  rewrite !Pos2Z.inj_mul, !Z.mul_1_r. intros Hk Hx _ Hm Hab H.
  assert (Hab' : m * Z.pos d' <= Z.pos p') by (destruct o; lia).
  assert (E1 : 2 * (p * k * Z.pos d' * m) = 2 * (p * k) * (m * Z.pos d')) by ring.
  assert (E2 : UINT_MAX * (Z.pos d * Z.pos p') = UINT_MAX * Z.pos d * Z.pos p') by ring.
  rewrite E1, E2. apply Z.mul_le_mono_nonneg; try lia; nia.
Qed.

Lemma half_range_scale k w z :
  0 < k -> QDen z = QDen w * k -> Qnum z = Qnum w -> half_range w ->
  2 * (Qnum z * k) <= UINT_MAX * QDen z.
Proof.
  unfold half_range. intros Hk -> -> H.
  replace (2 * (Qnum w * k)) with (2 * Qnum w * k) by ring.
  rewrite Z.mul_assoc. by apply Z.mul_le_mono_pos_r.
Qed.

Lemma mem_wf i z :
  is_u32 (i_min i) -> is_u32 (i_max i) -> positive z -> unsaturated z ->
  itv_mem i z -> itv_wf i.
Proof.
  destruct i as [mn mx om ox int emp]; unfold positive, unsaturated, itv_mem, itv_wf, above, below;
    simpl. intros Hmn Hmx Hp Hu (_ & A & B & _).
  split; [done |]. split; [done |]. split; [destruct om | destruct ox]; try done; nia.
Qed.

Lemma mem_nonempty i z : itv_mem i z -> i_empty i = false.
Proof. by intros []. Qed.

Lemma above_ratio_1 n o z : ratio_above n 1 o z <-> above n o z.
Proof. unfold ratio_above, above. destruct o; rewrite Z.mul_1_l; done. Qed.

Lemma below_ratio_1 n o z : ratio_below n 1 o z <-> below n o z.
Proof. unfold ratio_below, below. destruct o; rewrite Z.mul_1_l; done. Qed.

Lemma integer_mul x y : is_integer x -> is_integer y -> is_integer (x * y).
Proof.
  unfold is_integer. destruct x, y. simpl. intros [k ->] [k' ->]. rewrite Pos2Z.inj_mul.
  exists (k * k'). ring.
Qed.

(** The product interval contains every product of members. *)
Lemma snd_interval_mul_sound a b c x y :
  itv_wf a -> itv_wf b -> positive x -> positive y -> itv_mem a x -> itv_mem b y ->
  unsaturated (x * y) ->
  itv_mem (snd_interval_mul a b c) (x * y) /\ itv_wf (snd_interval_mul a b c).
Proof.
  intros (Ha & Ha' & _) (Hb & Hb' & _) Hx Hy (Ea & Aa & Ba & Ia) (Eb & Ab & Bb & Ib) Hu.
  unfold snd_interval_mul. rewrite Ea, Eb; simpl. rewrite !mul_sat by done.
  pose proof (product_above _ _ _ _ _ _ (proj1 Ha) (proj1 Hb) Hx Hy Aa Ab) as A%above_ratio_1.
  pose proof (product_below _ _ _ _ _ _ Hx Hy Ba Bb) as B%below_ratio_1.
  match goal with |- itv_mem ?i _ /\ _ => assert (M : itv_mem i (x * y)) end.
  { unfold itv_mem; simpl. split; [done |]. split; [| split].
    - eapply above_weaken, A. lia.
    - destruct (Z.le_ge_cases (i_max a * i_max b) UINT_MAX).
      + by rewrite Z.min_l.
      + rewrite Z.min_r by done. by apply unsaturated_below.
    - intros [? ?]%andb_prop. auto using integer_mul. }
  split; [done |]. apply mem_wf with (z := (x * y)%Q); simpl; auto.
  - unfold is_u32, UINT_MAX in *. nia.
  - unfold is_u32, UINT_MAX in *. nia.
  - unfold positive in *. simpl. nia.
Qed.

(** The quotient interval of [muldivk] and [mulkdiv] contains every [x*y/k] and
    [x*k/y].  The upper bound needs the product to be in half of the 32-bit range, or the
    64-bit division to be exact (see [div64_32_exact_division_wrong] for when it is not). *)
Lemma snd_interval_mulkdiv_sound a k b c x y :
  itv_wf a -> itv_wf b -> 0 < k <= UINT_MAX -> positive x -> positive y ->
  itv_mem a x -> itv_mem b y -> unsaturated (x * inject_Z k / y) ->
  (0 < i_min b -> div64_exact (i_max a * k) (i_min b)) \/ half_range (x * inject_Z k) ->
  itv_mem (snd_interval_mulkdiv a k b c) (x * inject_Z k / y) /\
  itv_wf (snd_interval_mulkdiv a k b c).
Proof.
  intros (Ha & Ha' & _) (Hb & Hb' & _) Hk Hx Hy (Ea & Aa & Ba & Ia) (Eb & Ab & Bb & Ib) Hu Hex.
  unfold snd_interval_mulkdiv. rewrite Ea, Eb; simpl.
  assert (Hk' : is_u32 k) by word_lia.
  assert (Hbmax : 0 < i_max b).
  { unfold positive, below in *. destruct (i_openmax b); nia. }
  pose proof (muldiv32_above (i_min a) k (i_max b) _ _ Ha Hk' ltac:(word_lia)
    (quotient_above _ _ _ k _ _ _ (proj1 Ha) (proj1 Hk) Hx Hy Aa Bb) Hu) as A.
  destruct (muldiv32 (i_min a) k (i_max b)) as [mn r]. destruct A as [Hmn A].
  rewrite orb_assoc in A. set (om := truth r || i_openmin a || i_openmax b) in *.
  set (z := (x * inject_Z k / y)%Q) in *.
  assert (Hz : positive z).
  { subst z. destruct x as [p d], y as [[| p' | p'] d']; unfold positive in *; simpl in *; lia. }
  assert (B : let '(mx, ox) := if 0 <? i_min b
                then let '(q, r) := muldiv32 (i_max a) k (i_min b) in
                     round_up q r (i_openmax a || i_openmin b) else (UINT_MAX, false) in
              is_u32 mx /\ below mx ox z).
  { destruct (Z.ltb_spec 0 (i_min b)).
    - assert (Hex' : div64_exact (i_max a * k) (i_min b) \/
                     2 * (Qnum z * i_min b) <= UINT_MAX * QDen z).
      { destruct Hex as [Hex | Hex]; [left; auto | right]. apply (half_range_quotient x k y _ (i_openmin b)); try done; lia. }
      pose proof (muldiv32_below (i_max a) k (i_min b) _ _ Ha' Hk' ltac:(word_lia) Hex'
               (quotient_below _ _ _ k _ _ _ (proj1 Hb) (proj1 Hk) Hx Hy Ba Ab) Hu) as B.
      by destruct (muldiv32 (i_max a) k (i_min b)) as [q r'].
    - split; [word_lia | apply unsaturated_below; [lia | done]]. }
  destruct (if 0 <? i_min b then _ else _) as [mx ox]. destruct B as [Hmx B].
  assert (M : itv_mem (Itv mn mx om ox false false) z) by (unfold itv_mem; simpl; split_and!; done).
  split; [done |]. apply mem_wf with z; auto.
Qed.

Lemma ratio_above_scale n k o w z :
  0 < k -> QDen z = QDen w * k -> Qnum z = Qnum w -> ratio_above n 1 o w -> ratio_above n k o z.
Proof.
  unfold ratio_above. intros Hk -> ->. rewrite Z.mul_1_l.
  replace (n * (QDen w * k)) with (k * (n * QDen w)) by ring.
  destruct o; [apply Z.mul_lt_mono_pos_l | apply Z.mul_le_mono_pos_l]; done.
Qed.

Lemma ratio_below_scale n k o w z :
  0 < k -> QDen z = QDen w * k -> Qnum z = Qnum w -> ratio_below n 1 o w -> ratio_below n k o z.
Proof.
  unfold ratio_below. intros Hk -> ->. rewrite Z.mul_1_l.
  replace (n * (QDen w * k)) with (k * (n * QDen w)) by ring.
  destruct o; [apply Z.mul_lt_mono_pos_l | apply Z.mul_le_mono_pos_l]; done.
Qed.

(** The same for [muldivk], whose upper bound divides the product of the
    bounds. *)
Lemma snd_interval_muldivk_sound a b k c x y :
  itv_wf a -> itv_wf b -> 0 < k <= UINT_MAX -> positive x -> positive y ->
  itv_mem a x -> itv_mem b y -> unsaturated (x * y / inject_Z k) ->
  div64_exact (i_max a * i_max b) k \/ half_range (x * y) ->
  itv_mem (snd_interval_muldivk a b k c) (x * y / inject_Z k) /\
  itv_wf (snd_interval_muldivk a b k c).
Proof.
  intros (Ha & Ha' & _) (Hb & Hb' & _) Hk Hx Hy (Ea & Aa & Ba & Ia) (Eb & Ab & Bb & Ib) Hu Hex.
  unfold snd_interval_muldivk. rewrite Ea, Eb; simpl.
  pose proof (product_above _ _ _ _ _ _ (proj1 Ha) (proj1 Hb) Hx Hy Aa Ab) as A.
  pose proof (product_below _ _ _ _ _ _ Hx Hy Ba Bb) as B.
  set (z := (x * y / inject_Z k)%Q) in *.
  assert (Hz : positive z /\ QDen z = QDen (x * y) * k /\ Qnum z = Qnum (x * y)).
  { subst z. destruct k as [| k | k]; try lia. unfold positive in *. simpl. nia. }
  destruct Hz as (Hz & Ed & En).
  assert (A' : ratio_above (i_min a * i_min b) k (i_openmin a || i_openmin b) z).
  { apply ratio_above_scale with (x * y)%Q; [apply Hk | done..]. }
  assert (B' : ratio_below (i_max a * i_max b) k (i_openmax a || i_openmax b) z).
  { apply ratio_below_scale with (x * y)%Q; [apply Hk | done..]. }
  pose proof (muldiv32_above _ _ k _ _ Ha Hb Hk A' Hu) as HA.
  assert (Hex' : div64_exact (i_max a * i_max b) k \/ 2 * (Qnum z * k) <= UINT_MAX * QDen z).
  { destruct Hex as [? | Hex]; [by left | right]. by eapply half_range_scale; [apply Hk | ..]. }
  pose proof (muldiv32_below _ _ k _ _ Ha' Hb' Hk Hex' B' Hu) as HB.
  destruct (muldiv32 (i_min a) (i_min b) k) as [mn r]. rewrite orb_assoc in HA.
  destruct (muldiv32 (i_max a) (i_max b) k) as [q r'].
  destruct (round_up q r' _) as [mx ox]. destruct HA as [Hmn HA], HB as [Hmx HB].
  set (om := truth r || i_openmin a || i_openmin b) in *.
  assert (M : itv_mem (Itv mn mx om ox false false) z)
    by (unfold itv_mem; simpl; split_and!; done).
  split; [done |]. apply mem_wf with z; auto.
Qed.

(** Membership does not depend on the fraction that writes the rational. *)
Lemma above_proper m o x y : (x == y)%Q -> above m o x -> above m o y.
Proof. unfold above, Qeq. destruct o; intros E H; nia. Qed.

Lemma below_proper m o x y : (x == y)%Q -> below m o x -> below m o y.
Proof. unfold below, Qeq. destruct o; intros E H; nia. Qed.

Lemma is_integer_proper x y : (x == y)%Q -> is_integer x -> is_integer y.
Proof. unfold is_integer, Qeq. intros E [k Hk]. exists k. rewrite Hk in E. nia. Qed.

#[export] Instance itv_mem_proper : Proper (eq ==> Qeq ==> iff) itv_mem.
Proof.
  intros i ? <-. assert (forall x y, (x == y)%Q -> itv_mem i x -> itv_mem i y) as H.
  { intros x y E (He & A & B & I). repeat split; try done;
      eauto using above_proper, below_proper, is_integer_proper. }
  intros x y E. split; apply H; [done | by symmetry].
Qed.

Lemma snd_interval_div_sound a b c x y :
  itv_wf a -> itv_wf b -> positive x -> positive y ->
  itv_mem a x -> itv_mem b y -> unsaturated (x * inject_Z 1 / y) ->
  itv_mem (snd_interval_div a b c) (x / y) /\ itv_wf (snd_interval_div a b c).
Proof.
  intros (Ha & Ha' & _) (Hb & Hb' & _) Hx Hy (Ea & Aa & Ba & Ia) (Eb & Ab & Bb & Ib) Hu.
  unfold snd_interval_div. rewrite Ea, Eb; simpl.
  assert (Hbmax : 0 < i_max b).
  { unfold positive, below in *. destruct (i_openmax b); nia. }
  pose proof (above_floor _ _ _ _ Hbmax
    (quotient_above _ _ _ 1 _ _ _ (proj1 Ha) Z.lt_0_1 Hx Hy Aa Bb)) as A.
  set (z := (x * inject_Z 1 / y)%Q) in *.
  assert (Ez : (z == x / y)%Q) by (subst z; by rewrite Qmult_1_r).
  assert (Hz : positive z).
  { subst z. destruct x as [p d], y as [[| p' | p'] d']; unfold positive in *; simpl in *; lia. }
  rewrite Z.mul_1_r, orb_assoc in A.
  unfold div32. destruct (Z.eqb_spec (i_max b) 0); [lia |].
  assert (B : let '(mx, ox) := if 0 <? i_min b
                then let '(q, r) := if i_min b =? 0 then (UINT_MAX, 0)
                                    else (i_max a / i_min b, i_max a mod i_min b) in
                     round_up q r (i_openmax a || i_openmin b) else (UINT_MAX, false) in
              is_u32 mx /\ below mx ox z).
  { destruct (Z.ltb_spec 0 (i_min b)) as [Hp | Hp].
    - destruct (Z.eqb_spec (i_min b) 0); [lia |].
      pose proof (below_ceil _ _ _ _ Hp
        (quotient_below _ _ _ 1 _ _ _ (proj1 Hb) Z.lt_0_1 Hx Hy Ba Ab)) as B.
      rewrite Z.mul_1_r in B. unfold round_up, truth in *.
      assert (0 <= i_max a / i_min b <= i_max a)
        by (unfold is_u32 in *; split; [apply Z.div_pos | apply Z.div_le_upper_bound]; nia).
      destruct (Z.eqb_spec (i_max a mod i_min b) 0) as [Er | Er]; simpl in *.
      + split; [unfold is_u32 in *; lia | done].
      + assert (i_max a / i_min b < 4294967295).
        { destruct (Z.eq_dec (i_min b) 1) as [E1 | E1]; [rewrite E1, Z.mod_1_r in Er; done |].
          apply Z.div_lt_upper_bound; unfold is_u32 in *; nia. }
        rewrite u32_small by (unfold is_u32 in *; lia).
        split; [unfold is_u32 in *; lia | done].
    - split; [word_lia | apply unsaturated_below; [lia | done]]. }
  destruct (if 0 <? i_min b then _ else _) as [mx ox]. destruct B as [Hmx B].
  assert (Hmn : is_u32 (i_min a / i_max b)).
  { unfold is_u32 in *. split; [apply Z.div_pos | apply Z.div_le_upper_bound]; nia. }
  match goal with |- itv_mem ?i _ /\ _ => assert (M : itv_mem i z) end.
  { unfold itv_mem; simpl; split_and!; done. }
  split; [by rewrite <- Ez |]. apply mem_wf with z; auto.
Qed.

(** C38: interval arithmetic loses nothing.  For positive members [x] and [y] of the
    operands, the product, the quotient, [x*y/k] and [x*k/y] lie in the computed
    interval whenever they are below the saturation value, and the computed interval
    is well formed.  The two operations that divide 64-bit products need the product
    [x*y] or [x*k] to be in half of the 32-bit range, or the division to be exact at the
    upper bound (see [div64_32_exact_division_wrong] for when it is not). *)
Theorem snd_interval_arithmetic_sound a b c k x y :
  itv_wf a -> itv_wf b -> positive x -> positive y -> itv_mem a x -> itv_mem b y ->
  0 < k <= UINT_MAX ->
  let holds i z := itv_mem i z /\ itv_wf i in
  (unsaturated (x * y) -> holds (snd_interval_mul a b c) (x * y)%Q) /\
  (unsaturated (x * inject_Z 1 / y) -> holds (snd_interval_div a b c) (x / y)%Q) /\
  (unsaturated (x * y / inject_Z k) ->
   div64_exact (i_max a * i_max b) k \/ half_range (x * y) ->
   holds (snd_interval_muldivk a b k c) (x * y / inject_Z k)%Q) /\
  (unsaturated (x * inject_Z k / y) ->
   (0 < i_min b -> div64_exact (i_max a * k) (i_min b)) \/ half_range (x * inject_Z k) ->
   holds (snd_interval_mulkdiv a k b c) (x * inject_Z k / y)%Q).
Proof.
  intros Wa Wb Px Py Ma Mb Hk. cbv zeta. split_and!; intros.
  - by apply snd_interval_mul_sound.
  - by apply snd_interval_div_sound.
  - by apply snd_interval_muldivk_sound.
  - by apply snd_interval_mulkdiv_sound.
Qed.

(** Also where the division at the upper bound is not exact. *)
Lemma snd_interval_arithmetic_sound_witness :
  let a := Itv 64 0x80000000 false false true false in
  let b := Itv 8 32 false false true false in
  ~ div64_exact (i_max a * 8) (i_min b) /\
  itv_mem (snd_interval_mulkdiv a 8 b snd_interval_any) ((4096 # 1) * inject_Z 8 / (16 # 1)).
Proof.
  cbv zeta. split; [intros H; vm_compute in H; discriminate |].
  apply (snd_interval_arithmetic_sound (Itv 64 0x80000000 false false true false)
           (Itv 8 32 false false true false) snd_interval_any 8 (4096 # 1) (16 # 1));
    try apply itv_wfb_true; try apply itv_memb_true; try reflexivity;
    try (right; unfold half_range, UINT_MAX; simpl; lia); vm_compute; by split.
Defined.

(** ** Narrowing without a set reading

    What termination arguments need of an operation on an interval: its return
    code, that it never widens, and that it is strict when it reports a change. *)
Record narrows (i : snd_interval) (res : Z * snd_interval) : Prop := {
  nar_code : res.1 = -EINVAL \/ res.1 = 0 \/ res.1 = 1;
  nar_narrower : itv_narrower res.2 i;
  nar_strict : res.1 = 1 -> itv_size res.2 < itv_size i }.

Lemma refines_narrows P i res : refines P i res -> narrows i res.
Proof. by intros []. Qed.

(** An operation that keeps the members satisfying [P]. *)
Definition keeps (P : Q -> Prop) (i : snd_interval) (res : Z * snd_interval) : Prop :=
  forall x, itv_mem i x -> P x -> 0 <= res.1 /\ itv_mem res.2 x.

Lemma refines_keeps P i res : refines P i res -> keeps P i res.
Proof.
  intros [C F O _ _ _] x Hx HP.
  destruct C as [E | E]; [destruct (F E) as [_ Hn]; by apply Hn in HP |].
  split; [lia |]. apply O; [lia | done].
Qed.

Lemma refine_result_narrows c i i' :
  itv_narrower i' i -> (c = true -> itv_size i' < itv_size i) -> narrows i (refine_result c i').
Proof.
  intros N S. unfold refine_result.
  destruct (snd_interval_checkempty i'); split; simpl; auto; try done.
  - destruct c; auto.
  - destruct c; simpl; [auto | lia].
Qed.

Definition is_nonempty (i : snd_interval) : Prop :=
  i_empty i = false /\ snd_interval_checkempty i = false.

(** Fixing an interval to its minimum leaves a single value, the old minimum. *)
Lemma refine_first_ok i :
  itv_wf i -> is_nonempty i ->
  let '(r, i') := snd_interval_refine_first i in
  narrows i (r, i') /\ 0 <= r /\ snd_interval_single i' = true /\
  snd_interval_value i' = snd_interval_lowest i /\ itv_wf i' /\ is_nonempty i'.
Proof.
  destruct i as [mn mx om ox int emp]. intros (Hmn & Hmx & Hom & Hox) [He Hc]. simpl in He, Hmn, Hmx, Hom, Hox. subst.
  unfold snd_interval_refine_first. simpl i_empty. cbv iota.
  destruct (snd_interval_single _) eqn:Hs.
  - repeat split; simpl; auto; try done; word_lia.
  - assert (Hlo : itv_lo (Itv mn mx om ox int false) <= itv_hi (Itv mn mx om ox int false)).
    { destruct (Z.lt_ge_cases (itv_hi (Itv mn mx om ox int false)) (itv_lo (Itv mn mx om ox int false)))
        as [H%checkempty_spec | ?]; [congruence | lia]. }
    revert Hs. unfold snd_interval_single, itv_lo, itv_hi in *; simpl in *.
    destruct om; simpl; [rewrite (u32_small (mn + 1)) by word_lia |].
    + intros [Hs1%Z.eqb_neq Hs2]%orb_false_iff.
      assert (mn + 1 <> mx \/ ox = false) by
        (destruct (Z.eqb_spec (mn + 1) mx); simpl in Hs2; auto).
      split; [split; [simpl; auto | |] |].
      * unfold itv_narrower, itv_lo, itv_hi; simpl. destruct ox; simpl in *; repeat split; auto; lia.
      * unfold itv_size, itv_lo, itv_hi; simpl. destruct ox, int; simpl in *; intros; lia.
      * rewrite Z.eqb_refl, orb_true_r. unfold itv_wf, is_nonempty, snd_interval_checkempty, is_u32 in *; simpl in *.
        destruct (Z.ltb_spec (mn + 1) mn), (Z.eqb_spec mn (mn + 1)); simpl; try lia.
    + intros [Hs1%Z.eqb_neq Hs2]%orb_false_iff.
      assert (u32 (mn + 1) <> mx \/ ox = false) by
        (destruct (Z.eqb_spec (u32 (mn + 1)) mx); simpl in Hs2; auto).
      assert (Hlt : mn < mx) by (destruct ox; simpl in *; lia).
      rewrite u32_small in H by word_lia.
      split; [split; [simpl; auto | |] |].
      * unfold itv_narrower, itv_lo, itv_hi; simpl. destruct ox; simpl in *; repeat split; auto; lia.
      * unfold itv_size, itv_lo, itv_hi; simpl. destruct ox, int; simpl in *; intros; lia.
      * rewrite Z.eqb_refl. unfold itv_wf, is_nonempty, snd_interval_checkempty in *; simpl in *.
        rewrite Z.ltb_irrefl, andb_false_r. repeat split; auto; word_lia.
Qed.
