(* ===== verification/IntervalSets.v ===== *)
(** * IntervalSets: intervals restricted to lists, steps and ratios

    [snd_interval_list], [snd_interval_step], [snd_interval_ratnum] and
    [snd_interval_ratden] of alsa/core/pcm_lib.c. *)

From Stdlib Require Import QArith Sorted.
From S2P Require Import Prelude Interval.
Open Scope Z_scope.

(** ** Lists, steps and ratios of allowed values *)

(** The first loop of [snd_interval_list]: the lower bound moves to the first
    selected entry not below it.  [None] is falling off the end. *)
Definition list_selected (mask k : Z) : bool :=
  negb (truth mask && negb (truth (Z.land mask (shl32 1 k)))).

Fixpoint list_raise (k mask : Z) (l : list Z) (i : snd_interval) : option (bool * snd_interval) :=
  match l with
  | [] => None
  | x :: l =>
      if negb (list_selected mask k) then list_raise (k + 1) mask l i
      else if (i_min i =? x) && negb (i_openmin i) then Some (false, i)
      else if i_min i <? x then Some (true, i <| i_min := x |> <| i_openmin := false |>)
      else list_raise (k + 1) mask l i
  end.

(** The second loop runs down from the last index: [l] is the list reversed. *)
Fixpoint list_lower (k mask : Z) (l : list Z) (i : snd_interval) : option (bool * snd_interval) :=
  match l with
  | [] => None
  | x :: l =>
      if negb (list_selected mask k) then list_lower (k - 1) mask l i
      else if (i_max i =? x) && negb (i_openmax i) then Some (false, i)
      else if x <? i_max i then Some (true, i <| i_max := x |> <| i_openmax := false |>)
      else list_lower (k - 1) mask l i
  end.

Definition snd_interval_list (i : snd_interval) (l : list Z) (mask : Z) : Z * snd_interval :=
  match list_raise 0 mask l i with
  | None => (-EINVAL, snd_interval_none i)
  | Some (changed1, i) =>
      match list_lower (Z.of_nat (length l) - 1) mask (reverse l) i with
      | None => (-EINVAL, snd_interval_none i)
      | Some (changed2, i) => refine_result (changed1 || changed2) i
      end
  end.

(** [step] is positive: the C function divides by it. *)
Definition snd_interval_step (i : snd_interval) (min step : Z) : Z * snd_interval :=
  let n := u32 (i_min i - min) mod step in
  let '(changed1, i) :=
    if truth n || i_openmin i
    then (true, i <| i_min := u32 (i_min i + u32 (step - n)) |>) else (false, i) in
  let n := u32 (i_max i - min) mod step in
  let '(changed2, i) :=
    if truth n || i_openmax i
    then (true, i <| i_max := u32 (i_max i - n) |>) else (false, i) in
  refine_result (changed1 || changed2) i.

Record ratnum := Ratnum { rn_num : Z; rn_den_min : Z; rn_den_max : Z; rn_den_step : Z }.
Record ratden := Ratden { rd_num_min : Z; rd_num_max : Z; rd_num_step : Z; rd_den : Z }.

(** The best candidate so far: [(num, den, diff)], all zero at the start. *)
Definition best : Type := Z * Z * Z.

(** [if (best_num == 0 || diff * best_den < best_diff * den)]: [diff] is an [int]
    multiplied by an unsigned, so the products wrap and compare unsigned. *)
Definition better (num den diff : Z) (b : best) : best :=
  let '(best_num, best_den, best_diff) := b in
  if (best_num =? 0) || (u32 (diff * best_den) <? u32 (best_diff * den))
  then (num, den, u32 diff) else b.

Definition ratnum_low (q : Z) (b : best) (r : ratnum) : best :=
  let den := div_down (rn_num r) q in
  if den <? rn_den_min r then b
  else
    let den :=
      if rn_den_max r <? den then rn_den_max r
      else let m := u32 (den - rn_den_min r) mod rn_den_step r in
           if truth m then u32 (den - m) else den in
    better (rn_num r) den (s32 (rn_num r - q * den)) b.

Definition ratnum_high (q : Z) (b : best) (r : ratnum) : best :=
  let den := div_up (rn_num r) q in
  if rn_den_max r <? den then b
  else
    let den :=
      if den <? rn_den_min r then rn_den_min r
      else let m := u32 (den - rn_den_min r) mod rn_den_step r in
           if truth m then u32 (den + (rn_den_step r - m)) else den in
    better (rn_num r) den (s32 (q * den - rn_num r)) b.

(** The common end of [snd_interval_ratnum] and [snd_interval_ratden]; the third
    component is what is stored through [nump] and [denp], if anything. *)
Definition ratio_result (i : snd_interval) (low high : best)
    : Z * snd_interval * option (Z * Z) :=
  let '(low_num, low_den, _) := low in
  let '(high_num, high_den, _) := high in
  let t := Itv (div_down low_num low_den) (div_up high_num high_den)
               (truth (low_num mod low_den)) (truth (high_num mod high_den)) false false in
  let '(err, i) := snd_interval_refine i t in
  (err, i, if err <? 0 then None
           else if snd_interval_single i then Some (high_num, high_den) else None).

Definition snd_interval_ratnum (i : snd_interval) (rats : list ratnum)
    : Z * snd_interval * option (Z * Z) :=
  let q := if i_min i =? 0 then 1 else i_min i in
  let low := fold_left (ratnum_low q) rats (0, 0, 0) in
  if low.1.2 =? 0 then (-EINVAL, snd_interval_none i, None)
  else if i_max i =? 0 then (-EINVAL, snd_interval_none i, None)
  else
    let high := fold_left (ratnum_high (i_max i)) rats (0, 0, 0) in
    if high.1.2 =? 0 then (-EINVAL, snd_interval_none i, None)
    else ratio_result i low high.

Definition ratden_low (q : Z) (b : best) (r : ratden) : best :=
  let num := mul q (rd_den r) in
  if rd_num_max r <? num then b
  else
    let num :=
      if num <? rd_num_min r then rd_num_max r
      else let m := u32 (num - rd_num_min r) mod rd_num_step r in
           if truth m then u32 (num + (rd_num_step r - m)) else num in
    better num (rd_den r) (s32 (num - q * rd_den r)) b.

Definition ratden_high (q : Z) (b : best) (r : ratden) : best :=
  let num := mul q (rd_den r) in
  if num <? rd_num_min r then b
  else
    let num :=
      if rd_num_max r <? num then rd_num_max r
      else let m := u32 (num - rd_num_min r) mod rd_num_step r in
           if truth m then u32 (num - m) else num in
    better num (rd_den r) (s32 (q * rd_den r - num)) b.

Definition snd_interval_ratden (i : snd_interval) (rats : list ratden)
    : Z * snd_interval * option (Z * Z) :=
  let low := fold_left (ratden_low (i_min i)) rats (0, 0, 0) in
  if low.1.2 =? 0 then (-EINVAL, snd_interval_none i, None)
  else
    let high := fold_left (ratden_high (i_max i)) rats (0, 0, 0) in
    if high.1.2 =? 0 then (-EINVAL, snd_interval_none i, None)
    else ratio_result i low high.

(** ** Lists of allowed values *)

(** [x] is an entry the mask selects, the index of the [n]th entry being [k + s*n]. *)
Definition selected (s k mask : Z) (l : list Z) (x : Z) : Prop :=
  exists n, l !! n = Some x /\ list_selected mask (k + s * Z.of_nat n) = true.

Lemma selected_cons s k mask x l y :
  selected s k mask (x :: l) y <->
  (x = y /\ list_selected mask k = true) \/ selected s (k + s) mask l y.
Proof.
  split.
  - intros ([| n] & H & Hs); simpl in H.
    + left. rewrite Z.mul_0_r, Z.add_0_r in Hs. split; [congruence | done].
    + right. exists n. split; [done |].
      by replace (k + s + s * Z.of_nat n) with (k + s * Z.of_nat (S n)) by lia.
  - intros [[-> Hs] | (n & H & Hs)].
    + exists 0%nat. by rewrite Z.mul_0_r, Z.add_0_r.
    + exists (S n). split; [done |].
      by replace (k + s * Z.of_nat (S n)) with (k + s + s * Z.of_nat n) by lia.
Qed.

Lemma selected_reverse mask l x :
  selected 1 0 mask l x -> selected (-1) (Z.of_nat (length l) - 1) mask (reverse l) x.
Proof.
  intros (n & Hn & Hs). exists (length l - 1 - n)%nat.
  pose proof (lookup_lt_Some _ _ _ Hn). split.
  - rewrite reverse_lookup by lia. rewrite <- Hn. f_equal. lia.
  - rewrite <- Hs. f_equal. lia.
Qed.

(** Every way the first loop ends: it only raises the lower bound, strictly when it
    reports a change, and closes it on an entry of the list. *)
Lemma list_raise_narrower k mask l i c i' :
  list_raise k mask l i = Some (c, i') ->
  itv_narrower i' i /\ (c = true -> itv_size i' < itv_size i).
Proof.
  revert k. induction l as [| x l IH]; intros k; simpl; [done |].
  destruct (negb _); [apply IH |].
  destruct (_ && _) eqn:E1; [intros [= <- <-]; split; [apply narrower_refl | done] |].
  destruct (Z.ltb_spec (i_min i) x); [| apply IH].
  intros [= <- <-]. unfold itv_narrower, itv_size, itv_lo, itv_hi. simpl.
  pose proof (b2z_range (i_openmin i)). split; [| lia]. repeat split; auto; lia.
Qed.

Lemma list_lower_narrower k mask l i c i' :
  list_lower k mask l i = Some (c, i') ->
  itv_narrower i' i /\ (c = true -> itv_size i' < itv_size i).
Proof.
  revert k. induction l as [| x l IH]; intros k; simpl; [done |].
  destruct (negb _); [apply IH |].
  destruct (_ && _) eqn:E1; [intros [= <- <-]; split; [apply narrower_refl | done] |].
  destruct (Z.ltb_spec x (i_max i)); [| apply IH].
  intros [= <- <-]. unfold itv_narrower, itv_size, itv_lo, itv_hi. simpl.
  pose proof (b2z_range (i_openmax i)). split; [| lia]. repeat split; auto; lia.
Qed.

Lemma snd_interval_list_narrows i l mask : narrows i (snd_interval_list i l mask).
Proof.
  unfold snd_interval_list.
  destruct (list_raise 0 mask l i) as [[c i1] |] eqn:E1.
  2: { split; simpl; auto with uniaud. done. }
  apply list_raise_narrower in E1 as [N1 S1].
  destruct (list_lower _ mask (reverse l) i1) as [[c' i2] |] eqn:E2.
  2: { split; simpl; auto with uniaud. done. }
  apply list_lower_narrower in E2 as [N2 S2].
  apply refine_result_narrows; [by eapply narrower_trans |].
  pose proof (narrower_size _ _ N1). pose proof (narrower_size _ _ N2).
  intros [Hc | Hc]%orb_prop; [specialize (S1 Hc) | specialize (S2 Hc)]; lia.
Qed.

(** What the two loops do to a member allowed by an ascending list: the bound they
    move stops on an entry, without passing the member. *)
Lemma list_raise_keeps k mask l i x :
  StronglySorted Z.le l -> selected 1 k mask l x -> above (i_min i) (i_openmin i) (inject_Z x) ->
  exists c i', list_raise k mask l i = Some (c, i') /\
    i_openmin i' = false /\ i_min i' <= x /\ selected 1 k mask l (i_min i') /\
    i_max i' = i_max i /\ i_openmax i' = i_openmax i /\
    i_integer i' = i_integer i /\ i_empty i' = i_empty i.
Proof.
  revert k. induction l as [| y l IH]; intros k Hs Hsel Ha; [by destruct Hsel as ([] & ? & ?) |].
  apply StronglySorted_inv in Hs as [Hs Hy]. rewrite List.Forall_forall in Hy.
  setoid_rewrite selected_cons. apply selected_cons in Hsel. simpl.
  assert (Hle : y <= x).
  { destruct Hsel as [[-> _] | (n & Hn & _)]; [lia |].
    apply Hy. apply list_elem_of_In, list_elem_of_lookup. eauto. }
  assert (Hrec : selected 1 (k + 1) mask l x -> exists c i',
    list_raise (k + 1) mask l i = Some (c, i') /\
    i_openmin i' = false /\ i_min i' <= x /\
    ((y = i_min i' /\ list_selected mask k = true) \/ selected 1 (k + 1) mask l (i_min i')) /\
    i_max i' = i_max i /\ i_openmax i' = i_openmax i /\
    i_integer i' = i_integer i /\ i_empty i' = i_empty i).
  { intros Hx. destruct (IH (k + 1) Hs Hx Ha) as (c & i' & H). exists c, i'. tauto. }
  destruct (list_selected mask k) eqn:Hk; simpl.
  2: { apply Hrec. destruct Hsel as [[_ ?] | ?]; [congruence | done]. }
  unfold above in *. simpl in *.
  destruct (_ && _) eqn:E1.
  { apply andb_prop in E1 as [E1%Z.eqb_eq E2%negb_true_iff].
    exists false, i. split_and!; try done; [lia | auto]. }
  destruct (Z.ltb_spec (i_min i) y).
  { eexists true, _. split; [reflexivity |]. simpl. split_and!; try done; auto. }
  apply Hrec. destruct Hsel as [[-> _] | ?]; [exfalso | done].
  apply andb_false_iff in E1 as [E1%Z.eqb_neq | E1%negb_false_iff].
  - destruct (i_openmin i); lia.
  - rewrite E1 in Ha. lia.
Qed.

Lemma list_lower_keeps k mask l i x :
  StronglySorted Z.ge l -> selected (-1) k mask l x -> below (i_max i) (i_openmax i) (inject_Z x) ->
  exists c i', list_lower k mask l i = Some (c, i') /\
    i_openmax i' = false /\ x <= i_max i' /\ selected (-1) k mask l (i_max i') /\
    i_min i' = i_min i /\ i_openmin i' = i_openmin i /\
    i_integer i' = i_integer i /\ i_empty i' = i_empty i.
Proof.
  revert k. induction l as [| y l IH]; intros k Hs Hsel Hb; [by destruct Hsel as ([] & ? & ?) |].
  apply StronglySorted_inv in Hs as [Hs Hy]. rewrite List.Forall_forall in Hy.
  setoid_rewrite selected_cons. apply selected_cons in Hsel. simpl.
  assert (Hle : x <= y).
  { destruct Hsel as [[-> _] | (n & Hn & _)]; [lia |].
    enough (y >= x) by lia. apply Hy. apply list_elem_of_In, list_elem_of_lookup. eauto. }
  assert (Hrec : selected (-1) (k + -1) mask l x -> exists c i',
    list_lower (k - 1) mask l i = Some (c, i') /\
    i_openmax i' = false /\ x <= i_max i' /\
    ((y = i_max i' /\ list_selected mask k = true) \/ selected (-1) (k + -1) mask l (i_max i')) /\
    i_min i' = i_min i /\ i_openmin i' = i_openmin i /\
    i_integer i' = i_integer i /\ i_empty i' = i_empty i).
  { intros Hx. destruct (IH (k + -1) Hs Hx Hb) as (c & i' & H).
    replace (k - 1) with (k + -1) by lia. exists c, i'. tauto. }
  destruct (list_selected mask k) eqn:Hk; simpl.
  2: { apply Hrec. destruct Hsel as [[_ ?] | ?]; [congruence | done]. }
  unfold below in *. simpl in *.
  destruct (_ && _) eqn:E1.
  { apply andb_prop in E1 as [E1%Z.eqb_eq E2%negb_true_iff].
    exists false, i. split_and!; try done; [lia | auto]. }
  destruct (Z.ltb_spec y (i_max i)).
  { eexists true, _. split; [reflexivity |]. simpl. split_and!; try done; auto. }
  apply Hrec. destruct Hsel as [[-> _] | ?]; [exfalso | done].
  apply andb_false_iff in E1 as [E1%Z.eqb_neq | E1%negb_false_iff].
  - destruct (i_openmax i); lia.
  - rewrite E1 in Hb. lia.
Qed.

Lemma sorted_reverse l : StronglySorted Z.le l -> StronglySorted Z.ge (reverse l).
Proof.
  assert (Hsnoc : forall l x, StronglySorted Z.ge l -> Forall (fun y => y >= x) l ->
                    StronglySorted Z.ge (l ++ [x])).
  { induction 1 as [| y l' Hs IH Hy]; intros Hx; simpl.
    - repeat constructor.
    - apply Forall_cons in Hx as [? ?]. constructor; [auto |].
      apply Forall_app. split; [done |]. constructor; [lia | constructor]. }
  induction 1 as [| x l Hs IH Hx]; [constructor |].
  rewrite reverse_cons. apply Hsnoc; [done |].
  rewrite Forall_forall. intros y Hy. rewrite elem_of_reverse in Hy.
  rewrite Forall_forall in Hx. specialize (Hx y Hy). lia.
Qed.

Lemma interval_list_keeps i l mask x :
  StronglySorted Z.le l -> selected 1 0 mask l x -> itv_mem i (inject_Z x) ->
  let '(r, i') := snd_interval_list i l mask in
  0 <= r /\ itv_mem i' (inject_Z x) /\
  i_openmin i' = false /\ i_openmax i' = false /\
  selected 1 0 mask l (i_min i') /\
  selected (-1) (Z.of_nat (length l) - 1) mask (reverse l) (i_max i').
Proof.
  intros Hs Hsel (He & Ha & Hb & Hi). unfold snd_interval_list.
  destruct (list_raise_keeps 0 mask l i x Hs Hsel Ha)
    as (c1 & i1 & -> & Ho1 & Hle1 & Hsel1 & Hmx1 & Hox1 & Hint1 & Hemp1).
  assert (Hb1 : below (i_max i1) (i_openmax i1) (inject_Z x)) by congruence.
  destruct (list_lower_keeps (Z.of_nat (length l) - 1) mask (reverse l) i1 x
              (sorted_reverse l Hs) (selected_reverse mask l x Hsel) Hb1)
    as (c2 & i2 & -> & Ho2 & Hle2 & Hsel2 & Hmn2 & Hon2 & Hint2 & Hemp2).
  unfold refine_result.
  assert (Hce : snd_interval_checkempty i2 = false).
  { unfold snd_interval_checkempty. rewrite Hmn2, Hon2, Ho1, Ho2, andb_false_r, orb_false_r. lia. }
  rewrite Hce. pose proof (b2z_range (c1 || c2)).
  split; [lia |]. split; [| by rewrite Hmn2, Hon2].
  unfold itv_mem, above, below. rewrite Ho2, Hon2, Ho1, Hmn2, Hemp2, Hemp1, Hint2, Hint1.
  simpl. split_and!; try done; lia.
Qed.

(** Restricting an interval to the selected entries of an ascending list keeps
    every selected entry in it and leaves bounds that are themselves selected
    entries; in particular it does not fail when there is one. *)
Theorem snd_interval_list_sound i l mask x :
  StronglySorted Z.le l -> selected 1 0 mask l x -> itv_mem i (inject_Z x) ->
  let '(r, i') := snd_interval_list i l mask in
  0 <= r /\ itv_mem i' (inject_Z x) /\
  i_openmin i' = false /\ i_openmax i' = false /\
  selected 1 0 mask l (i_min i') /\
  selected (-1) (Z.of_nat (length l) - 1) mask (reverse l) (i_max i').
Proof. apply interval_list_keeps. Qed.

Definition pcm_rates : list Z :=
  [5512; 8000; 11025; 16000; 22050; 32000; 44100; 48000; 64000; 88200; 96000; 176400; 192000].

Lemma snd_interval_list_sound_witness :
  itv_mem (snd_interval_list (Itv 20000 50000 true true false false) pcm_rates 0xC0).2
          (inject_Z 44100).
Proof.
  assert (Hs : StronglySorted Z.le pcm_rates) by
    (unfold pcm_rates; repeat constructor; lia).
  assert (Hsel : selected 1 0 0xC0 pcm_rates 44100) by (exists 6%nat; by split).
  pose proof (snd_interval_list_sound (Itv 20000 50000 true true false false) pcm_rates 0xC0 44100
                Hs Hsel ltac:(by apply itv_memb_true)) as H.
  destruct (snd_interval_list _ _ _) as [r i']. apply H.
Defined.

(** ** Steps *)

Definition aligned (min step x : Z) : Prop := exists k, x = min + step * k.

Lemma aligned_mod min step x : 0 < step -> aligned min step x <-> (x - min) mod step = 0.
Proof.
  intros Hs. split.
  - intros [k ->]. replace (min + step * k - min) with (k * step) by ring. by apply Z.mod_mul; lia.
  - intros H. exists ((x - min) / step). pose proof (Z.div_mod (x - min) step). lia.
Qed.

(** Rounding a bound inwards to an aligned value passes no aligned member. *)
Lemma align_up min step m x :
  0 < step -> aligned min step x -> m <= x ->
  let n := (m - min) mod step in
  let m' := if truth n then m + (step - n) else m in
  aligned min step m' /\ m' <= x.
Proof.
  intros Hstep [k ->] Hle. cbv zeta. unfold truth.
  pose proof (Z.div_mod (m - min) step ltac:(lia)) as E.
  pose proof (Z.mod_pos_bound (m - min) step Hstep). set (n := (m - min) mod step) in *.
  destruct (Z.eqb_spec n 0) as [En | En]; simpl.
  - split; [exists ((m - min) / step); lia | lia].
  - split; [exists ((m - min) / step + 1); lia |].
    assert ((m - min) / step < k) by nia. nia.
Qed.

Lemma align_down min step m x :
  0 < step -> aligned min step x -> x <= m ->
  aligned min step (m - (m - min) mod step) /\ x <= m - (m - min) mod step.
Proof.
  intros Hstep [k ->] Hle. pose proof (Z.div_mod (m - min) step ltac:(lia)) as E.
  split; [exists ((m - min) / step); lia |].
  assert (k <= (m - min) / step) by (apply Z.div_le_lower_bound; lia). nia.
Qed.

(** On an interval closed at both ends, away from the end of the 32-bit range,
    stepping moves the bounds inwards to the nearest aligned values and keeps
    every aligned member. *)
Theorem snd_interval_step_closed i min step x :
  i_openmin i = false -> i_openmax i = false -> 0 < step -> 0 <= min ->
  min <= i_min i -> min <= i_max i <= UINT_MAX -> i_min i + step <= UINT_MAX ->
  itv_mem i (inject_Z x) -> aligned min step x ->
  let '(r, i') := snd_interval_step i min step in
  0 <= r /\ itv_mem i' (inject_Z x) /\
  aligned min step (i_min i') /\ aligned min step (i_max i').
Proof.
  destruct i as [mn mx om ox int emp]. simpl. intros -> -> Hstep Hmin Hmn [Hmx1 Hmx2] Hup Hmem Hx.
  destruct Hmem as (He & Ha & Hb & Hi). unfold above, below in *. simpl in *. subst emp.
  rewrite Z.mul_1_r in Ha, Hb.
  destruct (align_up min step mn x Hstep Hx Ha) as [Hal Hle].
  destruct (align_down min step mx x Hstep Hx Hb) as [Hal' Hle'].
  pose proof (Z.mod_pos_bound (mn - min) step Hstep).
  pose proof (Z.mod_pos_bound (mx - min) step Hstep).
  assert (Hm : (mx - min) mod step <= mx - min) by (apply Z.mod_le; lia).
  assert (Hres : forall c mn' mx', aligned min step mn' -> mn' <= x -> aligned min step mx' -> x <= mx' ->
    let '(r, i') := refine_result c (Itv mn' mx' false false int false) in
    0 <= r /\ itv_mem i' (inject_Z x) /\ aligned min step (i_min i') /\ aligned min step (i_max i')).
  { intros c mn' mx' ? ? ? ?. unfold refine_result, snd_interval_checkempty. simpl.
    destruct (Z.ltb_spec mx' mn'); [lia |]. rewrite andb_false_r. simpl.
    pose proof (b2z_range c). unfold itv_mem, above, below. simpl. split_and!; try done; lia. }
  unfold snd_interval_step. simpl i_min. rewrite (u32_small (mn - min)) by word_lia.
  simpl i_openmin. rewrite orb_false_r.
  set (n := (mn - min) mod step) in *. set (m := (mx - min) mod step) in *.
  rewrite (u32_small (step - n)), (u32_small (mn + (step - n))) by word_lia.
  unfold truth in *. destruct (Z.eqb_spec n 0) as [En | En]; simpl in *;
    rewrite (u32_small (mx - min)) by word_lia; fold m;
    rewrite (u32_small (mx - m)) by word_lia;
    destruct (Z.eqb_spec m 0) as [Em | Em]; simpl; apply Hres; try done;
    rewrite Em, Z.sub_0_r in *; done.
Qed.

Lemma snd_interval_step_closed_witness :
  itv_mem (snd_interval_step (Itv 5 103 false false true false) 0 16).2 (inject_Z 48).
Proof.
  assert (Hx : aligned 0 16 48) by (exists 3; reflexivity).
  pose proof (snd_interval_step_closed (Itv 5 103 false false true false) 0 16 48
    eq_refl eq_refl ltac:(lia) ltac:(lia) ltac:(simpl; lia) ltac:(unfold UINT_MAX; simpl; lia)
    ltac:(unfold UINT_MAX; simpl; lia) ltac:(by apply itv_memb_true) Hx) as H.
  destruct (snd_interval_step _ _ _) as [r i']. apply H.
Defined.

(** With an open lower bound the bound moves but stays open: an aligned member is
    lost.  With an open upper bound on an aligned value nothing moves, yet the
    call reports a change, every time. *)
Theorem snd_interval_step_open_min_loses_member :
  let i := Itv 4 20 true false true false in
  itv_mem i (inject_Z 8) /\ aligned 0 4 8 /\
  snd_interval_step i 0 4 = (1, Itv 8 20 true false true false) /\
  ~ itv_mem (Itv 8 20 true false true false) (inject_Z 8).
Proof.
  cbv zeta. split; [by apply itv_memb_true |]. split; [exists 2; reflexivity |].
  split; [reflexivity |]. intros (_ & A & _). unfold above in A. simpl in A. lia.
Qed.

(** With an open upper bound, [snd_interval_step] reports a change on an
    interval whose bounds are aligned already and which it returns unchanged, so a
    caller that repeats until nothing changes does not stop. *)
Theorem snd_interval_step_open_max_always_changed i min step :
  is_u32 min -> min <= i_min i -> i_openmin i = false -> i_openmax i = true ->
  i_min i < i_max i <= UINT_MAX -> 0 < step ->
  aligned min step (i_min i) -> aligned min step (i_max i) ->
  snd_interval_step i min step = (1, i).
Proof.
  destruct i as [mn mx om ox int emp]. simpl. intros Hmin Hmn -> -> Hlt Hstep A B.
  rewrite aligned_mod in A, B by done. unfold snd_interval_step. simpl.
  rewrite u32_small, A by word_lia. simpl. rewrite u32_small, B by word_lia. simpl.
  rewrite Z.sub_0_r, u32_small by word_lia. unfold refine_result, snd_interval_checkempty. simpl.
  destruct (Z.ltb_spec mx mn), (Z.eqb_spec mn mx); try lia. done.
Qed.

Lemma snd_interval_step_open_max_always_changed_witness :
  snd_interval_step (Itv 0 8 false true true false) 0 4 = (1, Itv 0 8 false true true false).
Proof.
  apply (snd_interval_step_open_max_always_changed (Itv 0 8 false true true false) 0 4);
    simpl; try word_lia; try done; [exists 0 | exists 2]; reflexivity.
Defined.

(** [snd_interval_ratden] raises a numerator below [num_min] to [num_max], not to
    [num_min]: with the numerators 10 to 100 over 1 every ratio below 100 is lost. *)
Theorem snd_interval_ratden_loses_ratios :
  snd_interval_ratden (Itv 1 200 false false false false) [Ratden 10 100 1 1] =
  (1, Itv 100 100 false false true false, Some (100, 1)).
Proof. vm_compute. reflexivity. Qed.
