(* ===== verification/Mask.v ===== *)
(** * Mask: the bit sets of the PCM configuration space

    [snd_mask_t], the 32-bit sets of pcm_params.h that hold the access types, the
    formats and the subformats still possible. *)

From S2P Require Import Prelude.

(** ** Definitions *)

(** [ffs] of include/asm/bitops.h: one plus the index of the lowest set bit. *)
Fixpoint ffs_from (fuel : nat) (k x : Z) : Z :=
  match fuel with
  | O => 0
  | S fuel => if Z.testbit x k then k + 1 else ffs_from fuel (k + 1) x
  end.

Definition ffs (x : Z) : Z := ffs_from 32 0 x.

(** Logarithm by halving the width: five tests and shifts. *)
Definition ld2 (v : Z) : Z :=
  let '(v, r) := if 0x10000 <=? v then (Z.shiftr v 16, 16) else (v, 0) in
  let '(v, r) := if 0x100 <=? v then (Z.shiftr v 8, r + 8) else (v, r) in
  let '(v, r) := if 0x10 <=? v then (Z.shiftr v 4, r + 4) else (v, r) in
  let '(v, r) := if 4 <=? v then (Z.shiftr v 2, r + 2) else (v, r) in
  if 2 <=? v then r + 1 else r.

Definition SND_MASK_MAX : Z := 32.

Definition snd_mask_none : Z := 0.
Definition snd_mask_any : Z := not32 0.
Definition snd_mask_empty (mask : Z) : bool := mask =? 0.
Definition snd_mask_min (mask : Z) : Z := u32 (ffs mask - 1).
Definition snd_mask_max (mask : Z) : Z := ld2 mask.
Definition snd_mask_set (mask val : Z) : Z := Z.lor mask (shl32 1 val).
Definition snd_mask_reset (mask val : Z) : Z := Z.land mask (not32 (shl32 1 val)).

(** The width is written [from - to + 1] in the source. *)
Definition snd_mask_set_range (mask from to : Z) : Z :=
  Z.lor mask (shl32 (u32 (shl32 1 (u32 (from - to + 1)) - 1)) from).

Definition snd_mask_reset_range (mask from to : Z) : Z :=
  Z.land mask (not32 (shl32 (u32 (shl32 1 (u32 (from - to + 1)) - 1)) from)).

Definition snd_mask_leave (mask val : Z) : Z := Z.land mask (shl32 1 val).
Definition snd_mask_intersect (mask v : Z) : Z := Z.land mask v.
Definition snd_mask_eq (mask v : Z) : bool := mask =? v.
Definition snd_mask_test (mask val : Z) : Z := Z.land mask (shl32 1 val).
Definition snd_mask_single (mask : Z) : bool := Z.land mask (u32 (mask - 1)) =? 0.

Definition snd_mask_refine (mask v : Z) : Z * Z :=
  let old := mask in
  let mask := snd_mask_intersect mask v in
  if snd_mask_empty mask then (-EINVAL, mask)
  else (b2z (negb (snd_mask_eq mask old)), mask).

Definition snd_mask_refine_first (mask : Z) : Z * Z :=
  if snd_mask_single mask then (0, mask) else (1, snd_mask_leave mask (snd_mask_min mask)).

Definition snd_mask_refine_last (mask : Z) : Z * Z :=
  if snd_mask_single mask then (0, mask) else (1, snd_mask_leave mask (snd_mask_max mask)).

Definition snd_mask_refine_min (mask val : Z) : Z * Z :=
  if val <=? snd_mask_min mask then (0, mask)
  else
    let mask := snd_mask_reset_range mask 0 (u32 (val - 1)) in
    if snd_mask_empty mask then (-EINVAL, mask) else (1, mask).

Definition snd_mask_refine_max (mask val : Z) : Z * Z :=
  if snd_mask_max mask <=? val then (0, mask)
  else
    let mask := snd_mask_reset_range mask (u32 (val + 1)) SND_MASK_MAX in
    if snd_mask_empty mask then (-EINVAL, mask) else (1, mask).

Definition snd_mask_refine_set (mask val : Z) : Z * Z :=
  let changed := negb (snd_mask_single mask) in
  let mask := snd_mask_leave mask val in
  if snd_mask_empty mask then (-EINVAL, mask) else (b2z changed, mask).

Definition snd_mask_value (mask : Z) : Z := snd_mask_min mask.

(** ** Lowest and highest bit *)

Lemma ffs_from_spec fuel k x :
  0 <= k ->
  (ffs_from fuel k x = 0 /\ forall j, k <= j < k + Z.of_nat fuel -> Z.testbit x j = false) \/
  (exists j, k <= j < k + Z.of_nat fuel /\ ffs_from fuel k x = j + 1 /\ Z.testbit x j = true /\
     forall i, k <= i < j -> Z.testbit x i = false).
Proof.
  revert k. induction fuel as [| fuel IH]; intros k Hk; cbn [ffs_from].
  - left. split; [done | lia].
  - destruct (Z.testbit x k) eqn:E.
    + right. exists k. split_and!; try done; lia.
    + destruct (IH (k + 1) ltac:(lia)) as [[-> H] | (j & Hj & -> & Ht & Hlow)].
      * left. split; [done |]. intros j Hj. destruct (Z.eq_dec j k) as [-> |]; [done |].
        apply H. lia.
      * right. exists j. split_and!; try done; try lia.
        intros i Hi. destruct (Z.eq_dec i k) as [-> |]; [done | apply Hlow; lia].
Qed.

Lemma testbit_high x j : is_u32 x -> 32 <= j -> Z.testbit x j = false.
Proof.
  intros Hx Hj. destruct (Z.eq_dec x 0) as [-> | Hnz]; [apply Z.bits_0 |].
  apply Z.bits_above_log2; unfold is_u32 in *; [lia |].
  apply Z.log2_lt_pow2; [lia |].
  apply Z.lt_le_trans with (2 ^ 32); [change (2 ^ 32) with 4294967296; lia |].
  apply Z.pow_le_mono_r; lia.
Qed.

(** [snd_mask_min] is the lowest member of a nonempty mask. *)
Lemma snd_mask_min_spec m :
  is_u32 m -> m <> 0 ->
  0 <= snd_mask_min m < 32 /\ Z.testbit m (snd_mask_min m) = true /\
  (forall i, 0 <= i < snd_mask_min m -> Z.testbit m i = false).
Proof.
  intros Hm Hnz. unfold snd_mask_min, ffs.
  destruct (ffs_from_spec 32 0 m ltac:(lia)) as [[_ H] | (j & Hj & -> & Ht & Hlow)].
  - exfalso. apply Hnz, Z.bits_inj'. intros j Hj. rewrite Z.bits_0.
    destruct (Z.lt_ge_cases j 32); [apply H; lia | by apply testbit_high].
  - replace (j + 1 - 1) with j by lia. rewrite u32_small by word_lia. split; [lia | auto].
Qed.

(** The shifting logarithm is the position of the highest set bit. *)
Theorem ld2_log2 v : is_u32 v -> v <> 0 -> ld2 v = Z.log2 v.
Proof.
  intros Hv Hnz. unfold ld2, is_u32 in *.
  assert (Hsh : forall v k, 0 <= k -> 2 ^ k <= v -> Z.log2 (Z.shiftr v k) = Z.log2 v - k).
  { intros w k Hk Hw. rewrite Z.log2_shiftr by (pose proof (Z.pow_pos_nonneg 2 k); lia).
    assert (k <= Z.log2 w) by (apply Z.log2_le_pow2; pose proof (Z.pow_pos_nonneg 2 k); lia). lia. }
  assert (Hstep : forall v r k b, 0 <= k -> v < 2 ^ (2 * k) -> 0 < v -> b = 2 ^ k ->
    let '(v', r') := if b <=? v then (Z.shiftr v k, r + k) else (v, r) in
    0 < v' < 2 ^ k /\ r' + Z.log2 v' = r + Z.log2 v).
  { intros w r k b Hk Hw Hpos ->. pose proof (Z.pow_pos_nonneg 2 k ltac:(lia) Hk).
    destruct (Z.leb_spec (2 ^ k) w); [| lia].
    rewrite Hsh by done. split; [| lia]. rewrite Z.shiftr_div_pow2 by lia. split.
    - apply Z.div_str_pos. lia.
    - apply Z.div_lt_upper_bound; [lia |]. rewrite <- Z.pow_add_r by lia.
      replace (k + k) with (2 * k) by lia. done. }
  assert (Hfirst : (if 0x10000 <=? v then (Z.shiftr v 16, 16) else (v, 0))
                   = if 0x10000 <=? v then (Z.shiftr v 16, 0 + 16) else (v, 0)) by done.
  rewrite Hfirst.
  assert (Hv32 : v < 2 ^ (2 * 16)) by (change (2 ^ (2 * 16)) with 4294967296; lia).
  assert (Hpos : 0 < v) by lia.
  pose proof (Hstep v 0 16 0x10000 ltac:(lia) Hv32 Hpos eq_refl) as S1. destruct (if 0x10000 <=? v then _ else _) as [v1 r1].
  pose proof (Hstep v1 r1 8 0x100 ltac:(lia) ltac:(apply S1) ltac:(lia) eq_refl) as S2.
  destruct (if 0x100 <=? v1 then _ else _) as [v2 r2].
  pose proof (Hstep v2 r2 4 0x10 ltac:(lia) ltac:(apply S2) ltac:(lia) eq_refl) as S3.
  destruct (if 0x10 <=? v2 then _ else _) as [v3 r3].
  pose proof (Hstep v3 r3 2 4 ltac:(lia) ltac:(apply S3) ltac:(lia) eq_refl) as S4.
  destruct (if 4 <=? v3 then _ else _) as [v4 r4].
  pose proof (Hstep v4 r4 1 2 ltac:(lia) ltac:(apply S4) ltac:(lia) eq_refl) as S5.
  change (2 ^ 2) with 4 in *. change (2 ^ 1) with 2 in *.
  destruct (2 <=? v4).
  - destruct S5 as [H5 E5]. assert (Z.shiftr v4 1 = 1) as E by lia.
    rewrite E in E5. change (Z.log2 1) with 0 in E5. lia.
  - destruct S5 as [H5 E5]. assert (v4 = 1) as -> by lia. change (Z.log2 1) with 0 in *. lia.
Qed.

Lemma ld2_log2_witness : ld2 0xFFF00 = 19.
Proof. rewrite (ld2_log2 0xFFF00); [reflexivity | word_lia | lia]. Defined.

(** ** Single-element masks *)

Lemma one_bit k : 0 <= k < 32 -> shl32 1 k = 2 ^ k.
Proof.
  intros Hk. unfold shl32. rewrite Z.mod_small, Z.shiftl_mul_pow2, Z.mul_1_l by lia.
  apply u32_small. pose proof (Z.pow_pos_nonneg 2 k ltac:(lia) ltac:(lia)).
  assert (2 ^ k < 2 ^ 32) by (apply Z.pow_lt_mono_r; lia).
  change (2 ^ 32) with 4294967296 in *. word_lia.
Qed.

Lemma land_one_bit m k :
  0 <= k -> Z.land m (2 ^ k) = if Z.testbit m k then 2 ^ k else 0.
Proof.
  intros Hk. apply Z.bits_inj'. intros j Hj. rewrite Z.land_spec, Z.pow2_bits_eqb by lia.
  destruct (Z.eqb_spec k j) as [-> | Hne].
  - rewrite andb_true_r. destruct (Z.testbit m j) eqn:E.
    + by rewrite Z.pow2_bits_true.
    + by rewrite Z.bits_0.
  - rewrite andb_false_r. destruct (Z.testbit m k); [by rewrite Z.pow2_bits_false | by rewrite Z.bits_0].
Qed.

Lemma snd_mask_leave_spec m k :
  0 <= k < 32 -> snd_mask_leave m k = if Z.testbit m k then 2 ^ k else 0.
Proof. intros Hk. unfold snd_mask_leave. by rewrite one_bit, land_one_bit by lia. Qed.

(** [2^k] is the set holding [k] alone. *)
Lemma single_pow2 k : 0 <= k < 32 -> snd_mask_single (2 ^ k) = true.
Proof.
  intros Hk. unfold snd_mask_single. pose proof (Z.pow_pos_nonneg 2 k ltac:(lia) ltac:(lia)).
  assert (2 ^ k < 2 ^ 32) by (apply Z.pow_lt_mono_r; lia).
  change (2 ^ 32) with 4294967296 in *.
  rewrite u32_small by word_lia. apply Z.eqb_eq.
  rewrite <- (Z.mul_1_l (2 ^ k)) at 1. apply land_pow2_add; lia.
Qed.

(** Clearing the lowest set bit is what subtracting one does above it. *)
Lemma single_inv m : is_u32 m -> m <> 0 -> snd_mask_single m = true -> m = 2 ^ snd_mask_min m.
Proof.
  intros Hm Hnz Hs. destruct (snd_mask_min_spec m Hm Hnz) as (Hk & Ht & Hlow).
  set (k := snd_mask_min m) in *.
  unfold snd_mask_single in Hs. apply Z.eqb_eq in Hs. unfold is_u32 in *.
  rewrite u32_small in Hs by word_lia.
  pose proof (Z.pow_pos_nonneg 2 k ltac:(lia) ltac:(lia)) as Hp.
  assert (Hdiv : m = (m / 2 ^ k) * 2 ^ k).
  { pose proof (Z.div_mod m (2 ^ k) ltac:(lia)). enough (m mod 2 ^ k = 0) by lia.
    apply Z.bits_inj'. intros j Hj. rewrite Z.bits_0.
    destruct (Z.lt_ge_cases j k).
    - rewrite Z.mod_pow2_bits_low by lia. apply Hlow. lia.
    - apply Z.mod_pow2_bits_high. lia. }
  set (q := m / 2 ^ k) in *.
  assert (Hodd : Z.odd q = true).
  { rewrite Hdiv in Ht. rewrite Z.mul_pow2_bits, Z.sub_diag in Ht by lia. by rewrite <- Z.bit0_odd. }
  assert (Hq : q = 2 * (q / 2) + 1).
  { pose proof (Z.div_mod q 2 ltac:(lia)). rewrite Zmod_odd, Hodd in H. lia. }
  assert (E : m - 1 = (q / 2 * 2) * 2 ^ k + (2 ^ k - 1)) by lia.
  rewrite E in Hs.
  assert (Em : m = (2 * (q / 2) + 1) * 2 ^ k) by (rewrite <- Hq; exact Hdiv).
  clearbody q. rewrite Em in Hs.
  assert (Hland : Z.land ((2 * (q / 2) + 1) * 2 ^ k) (q / 2 * 2 * 2 ^ k + (2 ^ k - 1))
                  = (q / 2) * 2 ^ (k + 1)).
  { rewrite <- lor_add_shifted by lia. rewrite Z.land_lor_distr_r.
    rewrite (land_pow2_add (2 * (q / 2) + 1) (2 ^ k - 1) k), Z.lor_0_r by lia.
    replace ((2 * (q / 2) + 1) * 2 ^ k) with (q / 2 * 2 ^ (k + 1) + 2 ^ k)
      by (rewrite Z.pow_add_r by lia; change (2 ^ 1) with 2; ring).
    replace (q / 2 * 2 * 2 ^ k) with (q / 2 * 2 ^ (k + 1))
      by (rewrite Z.pow_add_r by lia; change (2 ^ 1) with 2; ring).
    assert (2 ^ k < 2 ^ (k + 1)) by (apply Z.pow_lt_mono_r; lia).
    rewrite <- lor_add_shifted by lia.
    rewrite Z.land_lor_distr_l, Z.land_diag.
    rewrite (Z.land_comm (2 ^ k)), (land_pow2_add (q / 2) (2 ^ k) (k + 1)), Z.lor_0_r by lia. done. }
  rewrite Hland in Hs. pose proof (Z.pow_pos_nonneg 2 (k + 1) ltac:(lia) ltac:(lia)).
  assert (H0 : q / 2 = 0) by nia. rewrite Em, H0. lia.
Qed.

(** The predicate the code computes: exactly one member. *)
Lemma snd_mask_single_spec m :
  is_u32 m -> m <> 0 -> snd_mask_single m = true <-> exists k, 0 <= k < 32 /\ m = 2 ^ k.
Proof.
  intros Hm Hnz. split.
  - intros Hs. exists (snd_mask_min m). split; [by apply snd_mask_min_spec | by apply single_inv].
  - intros (k & Hk & ->). by apply single_pow2.
Qed.

(** ** Refinement *)

Lemma land_le m v : 0 <= m -> Z.land m v <= m.
Proof.
  intros Hm. pose proof (Z.sub_nocarry_ldiff m (Z.land m v)) as E.
  assert (Z.ldiff (Z.land m v) m = 0) as D.
  { apply Z.bits_inj'. intros j Hj. rewrite Z.ldiff_spec, Z.land_spec, Z.bits_0.
    by destruct (Z.testbit m j), (Z.testbit v j). }
  specialize (E D). enough (0 <= Z.ldiff m (Z.land m v)) by lia.
  apply Z.ldiff_nonneg. auto.
Qed.

Lemma land_u32 m v : is_u32 m -> is_u32 (Z.land m v).
Proof.
  unfold is_u32. intros Hm. pose proof (land_le m v ltac:(lia)).
  split; [apply Z.land_nonneg; lia | lia].
Qed.

Lemma mask_refine_correct m v :
  is_u32 m -> m <> 0 ->
  let '(r, m') := snd_mask_refine m v in
  (forall k, 0 <= k -> Z.testbit m' k = Z.testbit m k && Z.testbit v k) /\
  (r = -EINVAL <-> forall k, 0 <= k -> Z.testbit m k && Z.testbit v k = false) /\
  (r = 0 <-> m' = m) /\ (r = 1 -> m' < m) /\ (r = -EINVAL \/ r = 0 \/ r = 1).
Proof.
  intros Hm Hnz. unfold snd_mask_refine, snd_mask_intersect, snd_mask_empty, snd_mask_eq.
  assert (Hb : forall k, 0 <= k -> Z.testbit (Z.land m v) k = Z.testbit m k && Z.testbit v k)
    by (intros; apply Z.land_spec).
  pose proof (land_le m v ltac:(unfold is_u32 in Hm; lia)).
  destruct (Z.eqb_spec (Z.land m v) 0) as [E | E].
  - split; [done |]. rewrite E. unfold EINVAL. split_and!; try lia.
    split; [| done]. intros _ k Hk. rewrite <- Hb, E by done. apply Z.bits_0.
  - assert (Hex : ~ forall k, 0 <= k -> Z.testbit m k && Z.testbit v k = false).
    { intros Hall. apply E, Z.bits_inj'. intros k Hk. by rewrite Z.bits_0, Hb, Hall. }
    split; [done |]. unfold EINVAL. destruct (Z.eqb_spec (Z.land m v) m); simpl;
      split_and!; try lia; split; try done; lia.
Qed.

(** Refining a mask intersects it, reports an error exactly when nothing is
    left and a change exactly when something was removed. *)
Theorem snd_mask_refine_spec m v :
  is_u32 m -> m <> 0 ->
  let '(r, m') := snd_mask_refine m v in
  (forall k, 0 <= k -> Z.testbit m' k = Z.testbit m k && Z.testbit v k) /\
  (r = -EINVAL <-> forall k, 0 <= k -> Z.testbit m k && Z.testbit v k = false) /\
  (r = 0 <-> m' = m) /\ (r = 1 -> m' < m) /\ (r = -EINVAL \/ r = 0 \/ r = 1).
Proof. apply mask_refine_correct. Qed.

Lemma snd_mask_refine_spec_witness : (snd_mask_refine 0x3F 0x3C).2 < 0x3F.
Proof.
  pose proof (snd_mask_refine_spec 0x3F 0x3C ltac:(word_lia) ltac:(lia)) as H.
  destruct (snd_mask_refine 0x3F 0x3C) as [r m'] eqn:E. apply H. by injection E.
Defined.

Lemma snd_mask_refine_first_spec m :
  is_u32 m -> m <> 0 ->
  let '(r, m') := snd_mask_refine_first m in
  0 <= r <= 1 /\ m' = 2 ^ snd_mask_min m /\ m' <= m /\ (r = 1 -> m' < m) /\
  snd_mask_single m' = true.
Proof.
  intros Hm Hnz. destruct (snd_mask_min_spec m Hm Hnz) as (Hk & Ht & Hlow).
  unfold snd_mask_refine_first. destruct (snd_mask_single m) eqn:Hs.
  - pose proof (single_inv m Hm Hnz Hs). split_and!; try done; lia.
  - rewrite snd_mask_leave_spec, Ht by done.
    assert (Hle : 2 ^ snd_mask_min m <= m).
    { pose proof (land_le m (2 ^ snd_mask_min m) ltac:(unfold is_u32 in Hm; lia)) as L.
      rewrite land_one_bit, Ht in L by lia. done. }
    assert (2 ^ snd_mask_min m <> m).
    { intros E. rewrite <- E, single_pow2 in Hs; done. }
    pose proof (single_pow2 _ Hk). split_and!; try done; lia.
Qed.

(** The range helpers compute the width as [from - to + 1]: a call for [0..val-1]
    with [val] of 2 clears nothing, and so does not remove the values below. *)
Theorem snd_mask_refine_min_removes_nothing :
  snd_mask_refine_min 0x0F 2 = (1, 0x0F) /\ snd_mask_test 0x0F 0 <> 0.
Proof. split; vm_compute; [reflexivity | discriminate]. Qed.
