(* ===== verification/PcmFormat.v ===== *)
(** * PcmFormat: sample formats

    The format predicates and tables of alsa/core/pcm_misc.c (the OS/2,
    little-endian build), the silence pattern of each format and the routine
    that fills a buffer with it. *)

From S2P Require Import Prelude.

(** ** Format codes (enum sndrv_pcm_format, alsa/include/sound/asound.h) *)

Inductive snd_pcm_format :=
| S8 | U8 | S16_LE | S16_BE | U16_LE | U16_BE
| S24_LE | S24_BE | U24_LE | U24_BE | S32_LE | S32_BE | U32_LE | U32_BE
| FLOAT_LE | FLOAT_BE | FLOAT64_LE | FLOAT64_BE
| IEC958_SUBFRAME_LE | IEC958_SUBFRAME_BE
| MU_LAW | A_LAW | IMA_ADPCM | MPEG | GSM | SPECIAL.

#[export] Instance snd_pcm_format_eq_dec : EqDecision snd_pcm_format.
Proof. solve_decision. Defined.

Definition format_code (f : snd_pcm_format) : Z :=
  match f with
  | S8 => 0 | U8 => 1 | S16_LE => 2 | S16_BE => 3 | U16_LE => 4 | U16_BE => 5
  | S24_LE => 6 | S24_BE => 7 | U24_LE => 8 | U24_BE => 9
  | S32_LE => 10 | S32_BE => 11 | U32_LE => 12 | U32_BE => 13
  | FLOAT_LE => 14 | FLOAT_BE => 15 | FLOAT64_LE => 16 | FLOAT64_BE => 17
  | IEC958_SUBFRAME_LE => 18 | IEC958_SUBFRAME_BE => 19
  | MU_LAW => 20 | A_LAW => 21 | IMA_ADPCM => 22 | MPEG => 23 | GSM => 24 | SPECIAL => 31
  end.

Definition all_formats : list snd_pcm_format :=
  [S8; U8; S16_LE; S16_BE; U16_LE; U16_BE; S24_LE; S24_BE; U24_LE; U24_BE;
   S32_LE; S32_BE; U32_LE; U32_BE; FLOAT_LE; FLOAT_BE; FLOAT64_LE; FLOAT64_BE;
   IEC958_SUBFRAME_LE; IEC958_SUBFRAME_BE; MU_LAW; A_LAW; IMA_ADPCM; MPEG; GSM; SPECIAL].

(** The C functions switch on an [int]; a code that is no format takes [default]. *)
Definition format_of (k : Z) : option snd_pcm_format :=
  List.find (fun f => format_code f =? k) all_formats.

Definition SNDRV_PCM_FORMAT_LAST : Z := 31.

(** ** Predicates *)

Definition snd_pcm_format_signed (format : Z) : Z :=
  match format_of format with
  | Some (S8 | S16_LE | S16_BE | S24_LE | S24_BE | S32_LE | S32_BE) => 1
  | Some (U8 | U16_LE | U16_BE | U24_LE | U24_BE | U32_LE | U32_BE) => 0
  | _ => -EINVAL
  end.

Definition snd_pcm_format_unsigned (format : Z) : Z :=
  let val := snd_pcm_format_signed format in
  if val <? 0 then val else b2z (negb (truth val)).

Definition snd_pcm_format_linear (format : Z) : bool := 0 <=? snd_pcm_format_signed format.

Definition snd_pcm_format_little_endian (format : Z) : Z :=
  match format_of format with
  | Some (S16_LE | U16_LE | S24_LE | U24_LE | S32_LE | U32_LE | FLOAT_LE | FLOAT64_LE
         | IEC958_SUBFRAME_LE) => 1
  | Some (S16_BE | U16_BE | S24_BE | U24_BE | S32_BE | U32_BE | FLOAT_BE | FLOAT64_BE
         | IEC958_SUBFRAME_BE) => 0
  | _ => -EINVAL
  end.

Definition snd_pcm_format_big_endian (format : Z) : Z :=
  let val := snd_pcm_format_little_endian format in
  if val <? 0 then val else b2z (negb (truth val)).

Definition snd_pcm_format_cpu_endian (format : Z) : Z := snd_pcm_format_little_endian format.

(** ** Sizes *)

Definition snd_pcm_format_width (format : Z) : Z :=
  match format_of format with
  | Some (S8 | U8) => 8
  | Some (S16_LE | S16_BE | U16_LE | U16_BE) => 16
  | Some (S24_LE | S24_BE | U24_LE | U24_BE) => 24
  | Some (S32_LE | S32_BE | U32_LE | U32_BE | FLOAT_LE | FLOAT_BE) => 32
  | Some (FLOAT64_LE | FLOAT64_BE) => 64
  | Some (IEC958_SUBFRAME_LE | IEC958_SUBFRAME_BE) => 24
  | Some (MU_LAW | A_LAW) => 8
  | Some IMA_ADPCM => 4
  | _ => -EINVAL
  end.

Definition snd_pcm_format_physical_width (format : Z) : Z :=
  match format_of format with
  | Some (S8 | U8) => 8
  | Some (S16_LE | S16_BE | U16_LE | U16_BE) => 16
  | Some (S24_LE | S24_BE | U24_LE | U24_BE | S32_LE | S32_BE | U32_LE | U32_BE
         | FLOAT_LE | FLOAT_BE | IEC958_SUBFRAME_LE | IEC958_SUBFRAME_BE) => 32
  | Some (FLOAT64_LE | FLOAT64_BE) => 64
  | Some (MU_LAW | A_LAW) => 8
  | Some IMA_ADPCM => 4
  | _ => -EINVAL
  end.

(** [samples] is a 32-bit [size_t]; the result is a signed [ssize_t]. *)
Definition snd_pcm_format_size (format samples : Z) : Z :=
  match format_of format with
  | Some (S8 | U8) => s32 samples
  | Some (S16_LE | S16_BE | U16_LE | U16_BE) => s32 (samples * 2)
  | Some (S24_LE | S24_BE | U24_LE | U24_BE | S32_LE | S32_BE | U32_LE | U32_BE
         | FLOAT_LE | FLOAT_BE) => s32 (samples * 4)
  | Some (FLOAT64_LE | FLOAT64_BE) => s32 (samples * 8)
  | Some (IEC958_SUBFRAME_LE | IEC958_SUBFRAME_BE) => s32 (samples * 4)
  | Some (MU_LAW | A_LAW) => s32 samples
  | Some IMA_ADPCM => if truth (Z.land samples 1) then -EINVAL else s32 (samples / 2)
  | _ => -EINVAL
  end.

(** ** Silence *)

(** The floating formats return the bit pattern of 0.0, which is zero, and swapping
    its bytes leaves zero; [default] returns [-EINVAL] as an unsigned. *)
Definition snd_pcm_format_silence_64 (format : Z) : Z :=
  match format_of format with
  | Some (S8 | S16_LE | S16_BE | S24_LE | S24_BE | S32_LE | S32_BE) => 0
  | Some U8 => 0x8080808080808080
  | Some U16_LE => 0x8000800080008000
  | Some U24_LE => 0x0080000000800000
  | Some U32_LE => 0x8000000080000000
  | Some U16_BE => 0x0080008000800080
  | Some U24_BE => 0x0000800000008000
  | Some U32_BE => 0x0000008000000080
  | Some (FLOAT_LE | FLOAT64_LE | FLOAT_BE | FLOAT64_BE) => 0
  | Some (IEC958_SUBFRAME_LE | IEC958_SUBFRAME_BE) => 0
  | Some MU_LAW => 0x7f7f7f7f7f7f7f7f
  | Some A_LAW => 0x5555555555555555
  | Some (IMA_ADPCM | MPEG | GSM | SPECIAL) => 0
  | None => u64 (-EINVAL)
  end.

Definition snd_pcm_format_silence_32 (format : Z) : Z := u32 (snd_pcm_format_silence_64 format).
Definition snd_pcm_format_silence_16 (format : Z) : Z := u16 (snd_pcm_format_silence_64 format).
Definition snd_pcm_format_silence (format : Z) : Z := u8 (snd_pcm_format_silence_64 format).

(** Storing into memory: [data] is the byte array the pointer addresses. *)
Fixpoint le_bytes (n : nat) (v : Z) : list Z :=
  match n with
  | O => []
  | S n => u8 v :: le_bytes n (v / 256)
  end.

Definition store (bytes data : list Z) : list Z := bytes ++ drop (length bytes) data.

(** [memset], and [while (samples-- > 0) *ptr++ = v] for an [n]-byte type. *)
Definition memset (c count : Z) (data : list Z) : list Z :=
  store (replicate (Z.to_nat count) (u8 c)) data.

Definition fill (n : nat) (v count : Z) (data : list Z) : list Z :=
  store (concat (replicate (Z.to_nat count) (le_bytes n v))) data.

Definition snd_pcm_format_set_silence (format samples : Z) (data : list Z) : Z * list Z :=
  if samples =? 0 then (0, data)
  else
    let w := snd_pcm_format_width format in
    if w =? 4 then
      let silence := u8 (snd_pcm_format_silence_64 format) in
      if negb (samples mod 2 =? 0) then (-EINVAL, data)
      else let samples1 := samples / 2 in (0, memset silence samples1 data)
    else if w =? 8 then
      let silence := u8 (snd_pcm_format_silence_64 format) in
      (0, memset silence samples data)
    else if w =? 16 then
      let silence := u16 (snd_pcm_format_silence_64 format) in
      (0, fill 2 silence samples data)
    else if w =? 32 then
      let silence := u32 (snd_pcm_format_silence_64 format) in
      (0, fill 4 silence samples data)
    else if w =? 64 then
      let silence := u64 (snd_pcm_format_silence_64 format) in
      (0, fill 8 silence samples data)
    else (-EINVAL, data).

(** ** Building a linear format *)

Definition linear_formats : list Z :=
  map format_code
    [S8; S8; U8; U8; S16_LE; S16_BE; U16_LE; U16_BE;
     S24_LE; S24_BE; U24_LE; U24_BE; S32_LE; S32_BE; U32_LE; U32_BE].

Definition SND_PCM_FORMAT_UNKNOWN : Z := -1.

(** The table is read as [int[4][2][2]]. *)
Definition linear_index (width unsignd big_endian : Z) : Z :=
  match linear_formats !! Z.to_nat (width * 4 + b2z (truth unsignd) * 2 + b2z (truth big_endian)) with
  | Some k => k
  | None => SND_PCM_FORMAT_UNKNOWN
  end.

Definition snd_pcm_build_linear_format (width unsignd big_endian : Z) : Z :=
  if width =? 8 then linear_index 0 unsignd big_endian
  else if width =? 16 then linear_index 1 unsignd big_endian
  else if width =? 24 then linear_index 2 unsignd big_endian
  else if width =? 32 then linear_index 3 unsignd big_endian
  else SND_PCM_FORMAT_UNKNOWN.

(** ** The tables agree *)

(** For every format code, the width, physical width and size tables agree (the
    size of a run of samples is its physical width in bytes, with the odd ADPCM
    count refused), a format is linear exactly when it has a signedness, and the
    complementary predicates are complementary. *)
Theorem format_tables_agree format samples :
  0 <= samples < 268435456 ->
  let w := snd_pcm_format_width format in
  let p := snd_pcm_format_physical_width format in
  (w = -EINVAL <-> p = -EINVAL) /\ (w <> -EINVAL -> 0 < w <= p) /\
  (0 < p -> samples mod 2 = 0 \/ format <> format_code IMA_ADPCM ->
   snd_pcm_format_size format samples * 8 = samples * p) /\
  (snd_pcm_format_linear format = true <->
   snd_pcm_format_signed format + snd_pcm_format_unsigned format = 1) /\
  (snd_pcm_format_little_endian format = -EINVAL \/
   snd_pcm_format_little_endian format + snd_pcm_format_big_endian format = 1).
Proof.
  intros Hs. cbv zeta.
  unfold snd_pcm_format_width, snd_pcm_format_physical_width, snd_pcm_format_size,
    snd_pcm_format_linear, snd_pcm_format_unsigned, snd_pcm_format_big_endian,
    snd_pcm_format_signed, snd_pcm_format_little_endian, EINVAL.
  destruct (format_of format) as [f |] eqn:Ef; [| simpl; split_and!; try done; lia || auto].
  destruct f; simpl; split_and!; try lia; try (intros; word_lia); try auto.
  all: intros _ [Hm | Hm].
  - change (Z.land samples 1) with (Z.land samples (Z.ones 1)). rewrite Z.land_ones by lia.
    change (2 ^ 1) with 2. rewrite Hm. simpl. word_lia.
  - exfalso. apply Hm. unfold format_of in Ef. apply List.find_some in Ef as [_ E%Z.eqb_eq].
    by rewrite <- E.
Qed.

Lemma format_tables_agree_witness : snd_pcm_format_size (format_code S24_LE) 441 * 8 = 441 * 32.
Proof. apply (format_tables_agree (format_code S24_LE) 441); [lia | reflexivity | right; discriminate]. Defined.

(** [snd_pcm_build_linear_format] inverts the three predicates. *)
Theorem build_linear_format_inverts width unsignd big_endian :
  width ∈ [8; 16; 24; 32] ->
  let f := snd_pcm_build_linear_format width unsignd big_endian in
  snd_pcm_format_width f = width /\
  snd_pcm_format_unsigned f = b2z (truth unsignd) /\
  snd_pcm_format_linear f = true /\
  (width <> 8 -> snd_pcm_format_big_endian f = b2z (truth big_endian)).
Proof.
  intros Hw. cbv zeta. unfold snd_pcm_build_linear_format, linear_index.
  rewrite !list_elem_of_In in Hw. simpl in Hw.
  destruct Hw as [<- | [<- | [<- | [<- | []]]]]; simpl;
    destruct (truth unsignd), (truth big_endian); vm_compute; tauto.
Qed.

Lemma build_linear_format_inverts_witness :
  snd_pcm_format_unsigned (snd_pcm_build_linear_format 24 1 0) = 1.
Proof. apply (build_linear_format_inverts 24 1 0). in_list. Defined.

(** ** Filling with silence *)

Fixpoint le_value (bytes : list Z) : Z :=
  match bytes with
  | [] => 0
  | b :: bytes => b + 256 * le_value bytes
  end.

(** The value of one sample of a linear format: its bytes in the format's order,
    offset by half the range when unsigned, two's complement when signed. *)
Definition sample_value (format : Z) (bytes : list Z) : Z :=
  let v := le_value (if snd_pcm_format_big_endian format =? 1 then reverse bytes else bytes) in
  let half := 2 ^ (snd_pcm_format_width format - 1) in
  if snd_pcm_format_signed format =? 0 then v - half
  else if half <=? v then v - 2 * half else v.

Definition sample_bytes (format : Z) : Z := snd_pcm_format_physical_width format / 8.

Lemma replicate_concat (n : nat) (x : Z) : concat (replicate n [x]) = replicate n x.
Proof. induction n; simpl; congruence. Qed.

Lemma length_concat_replicate n (l : list Z) :
  length (concat (replicate n l)) = (n * length l)%nat.
Proof. induction n; simpl; [done |]. rewrite length_app, IHn. lia. Qed.

(** Filling with a linear format of 8, 16 or 32 bits succeeds and leaves
    [samples] copies of a sample of value zero, followed by the untouched rest. *)
Theorem set_silence_writes_zero format samples data :
  snd_pcm_format_linear format = true -> snd_pcm_format_width format <> 24 -> 0 < samples ->
  exists s,
    snd_pcm_format_set_silence format samples data =
      (0, concat (replicate (Z.to_nat samples) s)
          ++ drop (Z.to_nat (samples * sample_bytes format)) data) /\
    Z.of_nat (length s) = sample_bytes format /\ sample_value format s = 0.
Proof.
  intros Hlin Hw Hs.
  assert (Hfill : forall s, Z.of_nat (length s) = sample_bytes format ->
            store (concat (replicate (Z.to_nat samples) s)) data =
            concat (replicate (Z.to_nat samples) s)
            ++ drop (Z.to_nat (samples * sample_bytes format)) data).
  { intros s Hlen. unfold store. rewrite length_concat_replicate, <- Hlen. do 2 f_equal. lia. }
  unfold snd_pcm_format_linear, snd_pcm_format_width, snd_pcm_format_set_silence in *.
  destruct (Z.eqb_spec samples 0) as [| _]; [lia |].
  unfold snd_pcm_format_width, snd_pcm_format_silence_64, sample_value, snd_pcm_format_big_endian,
    snd_pcm_format_width, snd_pcm_format_signed, snd_pcm_format_little_endian, sample_bytes,
    snd_pcm_format_physical_width in *.
  destruct (format_of format) as [[] |]; simpl in *; try done; unfold memset, fill.
  1,2: rewrite <- replicate_concat.
  all: eexists; (split; [f_equal; by apply Hfill | split; vm_compute; reflexivity]).
Qed.

Lemma set_silence_writes_zero_witness :
  exists s, snd_pcm_format_set_silence (format_code U16_BE) 2 [1; 2; 3; 4; 5; 6] =
      (0, concat (replicate (Z.to_nat 2) s)
          ++ drop (Z.to_nat (2 * sample_bytes (format_code U16_BE))) [1; 2; 3; 4; 5; 6])
    /\ Z.of_nat (length s) = 2 /\ sample_value (format_code U16_BE) s = 0.
Proof.
  apply (set_silence_writes_zero (format_code U16_BE)); [reflexivity | discriminate | lia].
Defined.

(** The switch is on the width (24), not the physical width (32): the four 24-bit
    linear formats take [default] and the buffer is left as it was. *)
Theorem set_silence_rejects_24_bit f samples data :
  f ∈ [S24_LE; S24_BE; U24_LE; U24_BE] -> 0 < samples ->
  snd_pcm_format_linear (format_code f) = true /\
  snd_pcm_format_set_silence (format_code f) samples data = (-EINVAL, data).
Proof.
  intros Hf Hs. rewrite !list_elem_of_In in Hf. simpl in Hf.
  unfold snd_pcm_format_set_silence. destruct (Z.eqb_spec samples 0); [lia |].
  destruct Hf as [<- | [<- | [<- | [<- | []]]]]; by split.
Qed.

Lemma set_silence_rejects_24_bit_witness :
  snd_pcm_format_set_silence (format_code S24_LE) 1 [7; 7; 7; 7] = (-EINVAL, [7; 7; 7; 7]).
Proof. apply (set_silence_rejects_24_bit S24_LE 1); [in_list | lia]. Defined.
