(* ===== verification/HwParams.v ===== *)
(** * HwParams: the PCM configuration space and its refinement

    [struct sndrv_pcm_hw_params] (alsa/include/sound/asound.h), the constraint and
    rule tables of a substream, the rule functions of alsa/core/pcm_lib.c and
    alsa/core/pcm_native.c, and [snd_pcm_hw_refine], the loop that applies the
    rules until none changes anything. *)

From Stdlib Require Import QArith.
From S2P Require Import Prelude Div64 Interval IntervalSets Mask PcmFormat.
Open Scope Z_scope.

(** ** Parameters (enum sndrv_pcm_hw_param, OS/2 numbering) *)

Definition HW_ACCESS : Z := 0.
Definition HW_RATE_MASK : Z := 1.
Definition HW_FORMAT : Z := 2.
Definition HW_SUBFORMAT : Z := 3.
Definition HW_SAMPLE_BITS : Z := 4.
Definition HW_FRAME_BITS : Z := 5.
Definition HW_CHANNELS : Z := 6.
Definition HW_RATE : Z := 7.
Definition HW_PERIOD_TIME : Z := 8.
Definition HW_PERIOD_SIZE : Z := 9.
Definition HW_PERIOD_BYTES : Z := 10.
Definition HW_PERIODS : Z := 11.
Definition HW_BUFFER_TIME : Z := 12.
Definition HW_BUFFER_SIZE : Z := 13.
Definition HW_BUFFER_BYTES : Z := 14.
Definition HW_TICK_TIME : Z := 15.

Definition HW_FIRST_MASK : Z := HW_ACCESS.
Definition HW_LAST_MASK : Z := HW_SUBFORMAT.
Definition HW_FIRST_INTERVAL : Z := HW_SAMPLE_BITS.
Definition HW_LAST_INTERVAL : Z := HW_TICK_TIME.
Definition HW_LAST : Z := HW_LAST_INTERVAL.

Definition hw_is_mask (var : Z) : bool := (HW_FIRST_MASK <=? var) && (var <=? HW_LAST_MASK).
Definition hw_is_interval (var : Z) : bool :=
  (HW_FIRST_INTERVAL <=? var) && (var <=? HW_LAST_INTERVAL).

Definition mask_vars : list Z := [0; 1; 2; 3].
Definition interval_vars : list Z := [4; 5; 6; 7; 8; 9; 10; 11; 12; 13; 14; 15].

(** ** The configuration space *)

Record snd_pcm_hw_params := HwParams {
  hp_flags : Z;
  hp_masks : list Z;
  hp_intervals : list snd_interval;
  hp_rmask : Z;
  hp_cmask : Z;
  hp_info : Z;
  hp_msbits : Z;
  hp_rate_num : Z;
  hp_rate_den : Z;
  hp_fifo_size : Z }.

#[export] Instance settable_hw_params : Settable snd_pcm_hw_params :=
  fun p => HwParams (hp_flags p) (hp_masks p) (hp_intervals p) (hp_rmask p) (hp_cmask p)
    (hp_info p) (hp_msbits p) (hp_rate_num p) (hp_rate_den p) (hp_fifo_size p).

(** The macros [hw_param_mask] and [hw_param_interval] and stores through them. *)
Definition hw_param_mask (p : snd_pcm_hw_params) (var : Z) : Z :=
  default 0 (hp_masks p !! Z.to_nat (var - HW_FIRST_MASK)).

Definition hw_param_interval (p : snd_pcm_hw_params) (var : Z) : snd_interval :=
  default snd_interval_any (hp_intervals p !! Z.to_nat (var - HW_FIRST_INTERVAL)).

Definition put_mask (p : snd_pcm_hw_params) (var m : Z) : snd_pcm_hw_params :=
  p <| hp_masks := <[Z.to_nat (var - HW_FIRST_MASK) := m]> (hp_masks p) |>.

Definition put_interval (p : snd_pcm_hw_params) (var : Z) (i : snd_interval) : snd_pcm_hw_params :=
  p <| hp_intervals := <[Z.to_nat (var - HW_FIRST_INTERVAL) := i]> (hp_intervals p) |>.

Definition bit (var : Z) : Z := shl32 1 var.

(** [params->cmask |= 1 << var] and the same for both masks. *)
Definition mark_changed (p : snd_pcm_hw_params) (var : Z) : snd_pcm_hw_params :=
  p <| hp_cmask := Z.lor (hp_cmask p) (bit var) |>.

Definition mark_requested (p : snd_pcm_hw_params) (var : Z) : snd_pcm_hw_params :=
  (mark_changed p var) <| hp_rmask := Z.lor (hp_rmask p) (bit var) |>.

(** ** Rules and constraints *)

(** A rule function reads and writes the space; its [var] and [deps] come from the
    rule, its private data is applied already. *)
Definition hw_rule_func : Type := Z -> list Z -> snd_pcm_hw_params -> Z * snd_pcm_hw_params.

Record snd_pcm_hw_rule := HwRule {
  r_cond : Z;
  r_func : hw_rule_func;
  r_var : Z;
  r_deps : list Z }.   (* without the -1 that ends the C array *)

Record snd_pcm_hw_constraints := HwConstraints {
  c_masks : list Z;
  c_intervals : list snd_interval;
  c_rules_num : Z;
  c_rules_all : Z;
  c_rules : list snd_pcm_hw_rule }.

#[export] Instance settable_hw_constraints : Settable snd_pcm_hw_constraints :=
  fun c => HwConstraints (c_masks c) (c_intervals c) (c_rules_num c) (c_rules_all c) (c_rules c).

Definition constrs_mask (c : snd_pcm_hw_constraints) (var : Z) : Z :=
  default 0 (c_masks c !! Z.to_nat (var - HW_FIRST_MASK)).

Definition constrs_interval (c : snd_pcm_hw_constraints) (var : Z) : snd_interval :=
  default snd_interval_any (c_intervals c !! Z.to_nat (var - HW_FIRST_INTERVAL)).

Definition put_constrs_mask c var m : snd_pcm_hw_constraints :=
  c <| c_masks := <[Z.to_nat (var - HW_FIRST_MASK) := m]> (c_masks c) |>.

Definition put_constrs_interval c var i : snd_pcm_hw_constraints :=
  c <| c_intervals := <[Z.to_nat (var - HW_FIRST_INTERVAL) := i]> (c_intervals c) |>.

(** [snd_pcm_hw_rule_add]: [deps] are the variadic arguments up to the -1.  The
    array grows by allocation, which may fail; the failing path has already
    overwritten the old pointer. *)
Definition snd_pcm_hw_rule_add (alloc : Z -> bool) (cond var : Z) (func : hw_rule_func)
    (deps : list Z) (c : snd_pcm_hw_constraints) : Z * snd_pcm_hw_constraints :=
  let grown :=
    if c_rules_all c <=? c_rules_num c then
      let all := if c_rules_all c =? 0 then 32 else u32 (c_rules_all c + 10) in
      let c := c <| c_rules_all := all |> in
      if alloc all then Next c else Return (-ENOMEM, c <| c_rules := [] |>)
    else Next c in
  match grown with
  | Return r => r
  | Next c =>
      if (4 <=? Z.of_nat (length deps)) then (-EINVAL, c)
      else (0, c <| c_rules := c_rules c ++ [HwRule cond func var deps] |>
                 <| c_rules_num := u32 (c_rules_num c + 1) |>)
  end.

Definition snd_pcm_hw_constraint_mask (c : snd_pcm_hw_constraints) (var mask : Z)
    : Z * snd_pcm_hw_constraints :=
  let m := Z.land (constrs_mask c var) mask in
  let c := put_constrs_mask c var m in
  if m =? 0 then (-EINVAL, c) else (0, c).

Definition snd_pcm_hw_constraint_integer (c : snd_pcm_hw_constraints) (var : Z)
    : Z * snd_pcm_hw_constraints :=
  let '(r, i) := snd_interval_setinteger (constrs_interval c var) in
  (r, put_constrs_interval c var i).

Definition snd_pcm_hw_constraint_minmax (c : snd_pcm_hw_constraints) (var min max : Z)
    : Z * snd_pcm_hw_constraints :=
  let t := Itv min max false false false false in
  let '(r, i) := snd_interval_refine (constrs_interval c var) t in
  (r, put_constrs_interval c var i).

(** ** Rule functions *)

Definition dep (deps : list Z) (n : nat) : Z := default (-1) (deps !! n).

(** [return snd_interval_refine(hw_param_interval(params, rule->var), &t)] *)
Definition refine_var (var : Z) (t : snd_interval) (p : snd_pcm_hw_params)
    : Z * snd_pcm_hw_params :=
  let '(r, i) := snd_interval_refine (hw_param_interval p var) t in
  (r, put_interval p var i).

Section ComputedRules.
(** The local [snd_interval_t t] before it is assigned: an operation on an empty
    operand sets only its [empty] field. *)
Variable junk : snd_interval.

Definition snd_pcm_hw_rule_mul : hw_rule_func := fun var deps p =>
  refine_var var (snd_interval_mul (hw_param_interval p (dep deps 0))
                                   (hw_param_interval p (dep deps 1)) junk) p.

Definition snd_pcm_hw_rule_div : hw_rule_func := fun var deps p =>
  refine_var var (snd_interval_div (hw_param_interval p (dep deps 0))
                                   (hw_param_interval p (dep deps 1)) junk) p.

Definition snd_pcm_hw_rule_muldivk (k : Z) : hw_rule_func := fun var deps p =>
  refine_var var (snd_interval_muldivk (hw_param_interval p (dep deps 0))
                                       (hw_param_interval p (dep deps 1)) k junk) p.

Definition snd_pcm_hw_rule_mulkdiv (k : Z) : hw_rule_func := fun var deps p =>
  refine_var var (snd_interval_mulkdiv (hw_param_interval p (dep deps 0)) k
                                       (hw_param_interval p (dep deps 1)) junk) p.
End ComputedRules.

Definition format_range : list Z := seqZ 0 (SNDRV_PCM_FORMAT_LAST + 1).

Definition snd_pcm_hw_rule_format : hw_rule_func := fun var deps p =>
  let i := hw_param_interval p (dep deps 0) in
  let mask := hw_param_mask p HW_FORMAT in
  let m := fold_left (fun m k =>
      if Z.land mask (shl32 1 k) =? 0 then m
      else
        let bits := snd_pcm_format_physical_width k in
        if bits <=? 0 then m
        else if (bits <? i_min i) || (i_max i <? bits) then Z.land m (not32 (shl32 1 k))
        else m) format_range (not32 0) in
  let '(r, mask) := snd_mask_refine mask m in
  (r, put_mask p HW_FORMAT mask).

Definition sample_bits_range (mask : Z) : Z * Z :=
  fold_left (fun '(mn, mx) k =>
      if Z.land mask (shl32 1 k) =? 0 then (mn, mx)
      else
        let bits := snd_pcm_format_physical_width k in
        if bits <=? 0 then (mn, mx)
        else (if bits <? mn then bits else mn, if mx <? bits then bits else mx))
    format_range (UINT_MAX, 0).

Definition snd_pcm_hw_rule_sample_bits : hw_rule_func := fun var deps p =>
  let '(mn, mx) := sample_bits_range (hw_param_mask p HW_FORMAT) in
  refine_var var (Itv mn mx false false true false) p.

Definition rates : list Z :=
  [5512; 8000; 11025; 16000; 22050; 32000; 44100; 48000; 64000; 88200; 96000; 176400; 192000].

Definition rule_list (l : list Z) (mask : Z) : hw_rule_func := fun var deps p =>
  let '(r, i) := snd_interval_list (hw_param_interval p var) l mask in
  (r, put_interval p var i).

(** The private data of these three point to the hardware description, the list and
    the substream, none of which changes while the device is open. *)
Definition snd_pcm_hw_rule_rate (hw_rates : Z) : hw_rule_func := rule_list rates hw_rates.

Definition snd_pcm_hw_rule_list (l : list Z) (mask : Z) : hw_rule_func := rule_list l mask.

Definition snd_pcm_hw_rule_buffer_bytes_max (buffer_bytes_max : Z) : hw_rule_func :=
  fun var deps p => refine_var var (Itv 0 buffer_bytes_max false false true false) p.

Definition store_ratio (var err : Z) (ratio : option (Z * Z)) (p : snd_pcm_hw_params)
    : snd_pcm_hw_params :=
  match ratio with
  | Some (num, den) =>
      if (0 <=? err) && truth den && (var =? HW_RATE)
      then p <| hp_rate_num := num |> <| hp_rate_den := den |> else p
  | None => p
  end.

Definition snd_pcm_hw_rule_ratnums (rats : list ratnum) : hw_rule_func := fun var deps p =>
  let '(err, i, ratio) := snd_interval_ratnum (hw_param_interval p var) rats in
  (err, store_ratio var err ratio (put_interval p var i)).

Definition snd_pcm_hw_rule_ratdens (rats : list ratden) : hw_rule_func := fun var deps p =>
  let '(err, i, ratio) := snd_interval_ratden (hw_param_interval p var) rats in
  (err, store_ratio var err ratio (put_interval p var i)).

(** [l] packs the significant bits above the width. *)
Definition snd_pcm_hw_rule_msbits (l : Z) : hw_rule_func := fun var deps p =>
  let width := Z.land l 0xffff in
  let msbits := Z.shiftr l 16 in
  let i := hw_param_interval p HW_SAMPLE_BITS in
  (0, if snd_interval_single i && (snd_interval_value i =? width)
      then p <| hp_msbits := msbits |> else p).

Definition snd_pcm_hw_rule_step (step : Z) : hw_rule_func := fun var deps p =>
  let '(r, i) := snd_interval_step (hw_param_interval p var) 0 step in
  (r, put_interval p var i).

(** ** The refinement loop *)

(** The part of [snd_pcm_hardware_t] that the parameters see. *)
Record hw_description := HwDescription {
  hw_info : Z; hw_fifo_size : Z;
  hw_formats : Z; hw_rates : Z;
  hw_rate_min : Z; hw_rate_max : Z;
  hw_channels_min : Z; hw_channels_max : Z;
  hw_period_bytes_min : Z; hw_period_bytes_max : Z;
  hw_periods_min : Z; hw_periods_max : Z;
  hw_buffer_bytes_max : Z }.

Definition requested (p : snd_pcm_hw_params) (var : Z) : bool :=
  truth (Z.land (hp_rmask p) (bit var)).

Definition refine_mask_var (c : snd_pcm_hw_constraints) (k : Z) (p : snd_pcm_hw_params)
    : flow (Z * snd_pcm_hw_params) snd_pcm_hw_params :=
  let m := hw_param_mask p k in
  if snd_mask_empty m then Return (-EINVAL, p)
  else if negb (requested p k) then Next p
  else
    let '(changed, m) := snd_mask_refine m (constrs_mask c k) in
    let p := put_mask p k m in
    let p := if truth changed then mark_changed p k else p in
    if changed <? 0 then Return (changed, p) else Next p.

Definition refine_interval_var (c : snd_pcm_hw_constraints) (k : Z) (p : snd_pcm_hw_params)
    : flow (Z * snd_pcm_hw_params) snd_pcm_hw_params :=
  let i := hw_param_interval p k in
  if i_empty i then Return (-EINVAL, p)
  else if negb (requested p k) then Next p
  else
    let '(changed, i) := snd_interval_refine i (constrs_interval c k) in
    let p := put_interval p k i in
    let p := if truth changed then mark_changed p k else p in
    if changed <? 0 then Return (changed, p) else Next p.

(** The locals of the [do ... while (again)] loop. *)
Record refine_state := RefineState {
  rs_params : snd_pcm_hw_params;
  rs_rstamps : list Z;
  rs_vstamps : list Z;
  rs_stamp : Z;
  rs_again : bool }.

#[export] Instance settable_refine_state : Settable refine_state :=
  fun s => RefineState (rs_params s) (rs_rstamps s) (rs_vstamps s) (rs_stamp s) (rs_again s).

Definition stamp_of (l : list Z) (k : Z) : Z := default 0 (l !! Z.to_nat k).

(** One round of the inner [for], for rule [r] at index [k]. *)
Definition apply_rule (kr : Z * snd_pcm_hw_rule) (s : refine_state)
    : flow (Z * snd_pcm_hw_params) refine_state :=
  let '(k, r) := kr in
  if truth (r_cond r) && negb (truth (Z.land (r_cond r) (hp_flags (rs_params s)))) then Next s
  else
    let doit := existsb (fun d => stamp_of (rs_rstamps s) k <? stamp_of (rs_vstamps s) d) (r_deps r) in
    if negb doit then Next s
    else
      let '(changed, p) := r_func r (r_var r) (r_deps r) (rs_params s) in
      let s := s <| rs_params := p |>
                 <| rs_rstamps := <[Z.to_nat k := rs_stamp s]> (rs_rstamps s) |> in
      let s :=
        if truth changed && (0 <=? r_var r) then
          s <| rs_params := mark_changed p (r_var r) |>
            <| rs_vstamps := <[Z.to_nat (r_var r) := rs_stamp s]> (rs_vstamps s) |>
            <| rs_again := true |>
        else s in
      if changed <? 0 then Return (changed, rs_params s)
      else Next (s <| rs_stamp := u32 (rs_stamp s + 1) |>).

Definition indexed (l : list snd_pcm_hw_rule) : list (Z * snd_pcm_hw_rule) :=
  zip (seqZ 0 (Z.of_nat (length l))) l.

(** [None]: out of fuel. *)
Fixpoint apply_rules (fuel : nat) (rules : list (Z * snd_pcm_hw_rule)) (s : refine_state)
    : option (flow (Z * snd_pcm_hw_params) refine_state) :=
  match fuel with
  | O => None
  | S fuel =>
      match loop_flow apply_rule rules (s <| rs_again := false |>) with
      | Return r => Some (Return r)
      | Next s => if rs_again s then apply_rules fuel rules s else Some (Next s)
      end
  end.

Definition refine_start (p : snd_pcm_hw_params) : snd_pcm_hw_params :=
  let p := p <| hp_info := 0 |> <| hp_fifo_size := 0 |> in
  let p := if requested p HW_SAMPLE_BITS then p <| hp_msbits := 0 |> else p in
  if requested p HW_RATE then p <| hp_rate_num := 0 |> <| hp_rate_den := 0 |> else p.

Definition refine_finish (hw : hw_description) (p : snd_pcm_hw_params) : snd_pcm_hw_params :=
  let p :=
    if truth (hp_msbits p) then p
    else let i := hw_param_interval p HW_SAMPLE_BITS in
         if snd_interval_single i then p <| hp_msbits := snd_interval_value i |> else p in
  let p :=
    if truth (hp_rate_den p) then p
    else let i := hw_param_interval p HW_RATE in
         if snd_interval_single i
         then p <| hp_rate_num := snd_interval_value i |> <| hp_rate_den := 1 |> else p in
  let p := if truth (hp_info p) then p else p <| hp_info := hw_info hw |> in
  let p := if truth (hp_fifo_size p) then p else p <| hp_fifo_size := hw_fifo_size hw |> in
  p <| hp_rmask := 0 |>.

Definition initial_state (c : snd_pcm_hw_constraints) (p : snd_pcm_hw_params) : refine_state :=
  RefineState p (replicate (Z.to_nat (c_rules_num c)) 0)
    (map (fun k => if requested p k then 1 else 0) (seqZ 0 (HW_LAST + 1))) 2 false.

Section Refine.
Variables (hw : hw_description) (c : snd_pcm_hw_constraints).

Definition snd_pcm_hw_refine (fuel : nat) (p : snd_pcm_hw_params)
    : option (Z * snd_pcm_hw_params) :=
  if 32 <? c_rules_num c then Some (EFAULT, p)
  else
    match loop_flow (refine_mask_var c) mask_vars (refine_start p) with
    | Return r => Some r
    | Next p =>
        match loop_flow (refine_interval_var c) interval_vars p with
        | Return r => Some r
        | Next p =>
            match apply_rules fuel (indexed (c_rules c)) (initial_state c p) with
            | None => None
            | Some (Return r) => Some r
            | Some (Next s) => Some (0, refine_finish hw (rs_params s))
            end
        end
    end.
End Refine.
