(* ===== verification/HwRefine.v ===== *)
(** * HwRefine: what refinement of the PCM configuration space guarantees

    A solution assigns every parameter a value.  A rule of the substream makes
    progress on a solution when it keeps it, narrows the space, and does so strictly
    whenever it reports a change.  If all rules do, [snd_pcm_hw_refine] terminates,
    succeeds and keeps the solution.  The rule functions of the library make
    progress on the solutions of the equation each of them enforces. *)

From Stdlib Require Import QArith Sorted.
From S2P Require Import Prelude Div64 Interval IntervalSets Mask PcmFormat HwParams.
Open Scope Z_scope.

(** ** Solutions, well-formedness, order and size *)

Record solution := Solution { sol_bit : Z -> Z; sol_val : Z -> Q }.

Definition sat (p : snd_pcm_hw_params) (s : solution) : Prop :=
  (forall k, hw_is_mask k = true ->
     0 <= sol_bit s k < 32 /\ Z.testbit (hw_param_mask p k) (sol_bit s k) = true) /\
  (forall k, hw_is_interval k = true -> itv_mem (hw_param_interval p k) (sol_val s k)).

Record hp_wf (p : snd_pcm_hw_params) : Prop := {
  wf_masks_len : length (hp_masks p) = 4%nat;
  wf_masks : Forall is_u32 (hp_masks p);
  wf_intervals_len : length (hp_intervals p) = 12%nat;
  wf_intervals : Forall itv_wf (hp_intervals p) }.

Definition submask (m' m : Z) : Prop := Z.land m m' = m'.

Definition hp_narrower (p' p : snd_pcm_hw_params) : Prop :=
  Forall2 submask (hp_masks p') (hp_masks p) /\
  Forall2 itv_narrower (hp_intervals p') (hp_intervals p).

Definition sum (l : list Z) : Z := fold_right Z.add 0 l.

Definition hp_size (p : snd_pcm_hw_params) : Z :=
  sum (hp_masks p) + sum (map itv_size (hp_intervals p)).

(** ** Lists *)

Lemma sum_insert l i x y : l !! i = Some x -> sum (<[i := y]> l) = sum l - x + y.
Proof.
  revert i. induction l as [| a l IH]; intros [| i]; simpl; try done.
  - intros [= ->]. lia.
  - intros H. rewrite (IH i H). lia.
Qed.

Lemma sum_le {A} (f g : A -> Z) l l' :
  Forall2 (fun a b => f a <= g b) l l' -> sum (map f l) <= sum (map g l').
Proof. induction 1; simpl; lia. Qed.

Lemma sum_nonneg l : Forall (fun z => 0 <= z) l -> 0 <= sum l.
Proof. induction 1; simpl; lia. Qed.

Lemma Forall2_insert_l {A} (R : A -> A -> Prop) l i x y :
  (forall a, R a a) -> l !! i = Some x -> R y x -> Forall2 R (<[i := y]> l) l.
Proof.
  intros Hr. revert i. induction l as [| a l IH]; intros [| i]; simpl; try done.
  - intros [= ->] H. constructor; [done |]. clear -Hr. induction l; constructor; auto.
  - intros H H'. constructor; auto.
Qed.

(** Slot [k] of an array indexed from [f]. *)
Lemma slot_insert {A} (d x : A) l f k j :
  f <= k < f + Z.of_nat (length l) -> f <= j ->
  default d (<[Z.to_nat (k - f) := x]> l !! Z.to_nat (j - f)) =
  if k =? j then x else default d (l !! Z.to_nat (j - f)).
Proof.
  intros Hk Hj. destruct (Z.eqb_spec k j) as [-> | Hn].
  - rewrite list_lookup_insert_eq; [done | lia].
  - rewrite list_lookup_insert_ne; [done | lia].
Qed.

(** ** The order *)

#[export] Instance submask_preorder : PreOrder submask.
Proof.
  split; [intros m; apply Z.land_diag |]. unfold submask. intros m1 m2 m3 H H'.
  rewrite <- H at 2. by rewrite <- H', <- Z.land_assoc, H.
Qed.

#[export] Instance itv_narrower_preorder : PreOrder itv_narrower.
Proof. split; [exact narrower_refl | exact narrower_trans]. Qed.

#[export] Instance hp_narrower_preorder : PreOrder hp_narrower.
Proof.
  split.
  - intros p. by split.
  - intros p1 p2 p3 [M I] [M' I']. split; by etrans.
Qed.

Lemma hp_narrower_size p' p : hp_wf p -> hp_narrower p' p -> hp_size p' <= hp_size p.
Proof.
  intros [_ W _ _] [M I]. unfold hp_size.
  assert (sum (hp_masks p') <= sum (hp_masks p)).
  { revert W. induction M as [| m' m l' l Hm M IH]; simpl; [lia |].
    rewrite Forall_cons. intros [Hu W]. specialize (IH W).
    unfold submask in Hm. pose proof (land_le m m' ltac:(unfold is_u32 in Hu; lia)). lia. }
  assert (sum (map itv_size (hp_intervals p')) <= sum (map itv_size (hp_intervals p))).
  { apply sum_le. eapply Forall2_impl; [exact I | exact narrower_size]. }
  lia.
Qed.

(** ** Reading and writing one parameter *)

Lemma hw_is_interval_range k : hw_is_interval k = true <-> 4 <= k <= 15.
Proof. unfold hw_is_interval. rewrite andb_true_iff. change HW_FIRST_INTERVAL with 4.
  change HW_LAST_INTERVAL with 15. lia. Qed.

Lemma hw_is_mask_range k : hw_is_mask k = true <-> 0 <= k <= 3.
Proof. unfold hw_is_mask. rewrite andb_true_iff. change HW_FIRST_MASK with 0.
  change HW_LAST_MASK with 3. lia. Qed.

Lemma interval_lookup p k :
  hp_wf p -> hw_is_interval k = true ->
  hp_intervals p !! Z.to_nat (k - HW_FIRST_INTERVAL) = Some (hw_param_interval p k).
Proof.
  intros W Hk%hw_is_interval_range. unfold hw_param_interval. change HW_FIRST_INTERVAL with 4.
  destruct (lookup_lt_is_Some_2 (hp_intervals p) (Z.to_nat (k - 4))) as [i ->]; [| done].
  rewrite (wf_intervals_len p W). lia.
Qed.

Lemma mask_lookup p k :
  hp_wf p -> hw_is_mask k = true ->
  hp_masks p !! Z.to_nat (k - HW_FIRST_MASK) = Some (hw_param_mask p k).
Proof.
  intros W Hk%hw_is_mask_range. unfold hw_param_mask. change HW_FIRST_MASK with 0.
  destruct (lookup_lt_is_Some_2 (hp_masks p) (Z.to_nat (k - 0))) as [i ->]; [| done].
  rewrite (wf_masks_len p W). lia.
Qed.

Lemma interval_wf p k : hp_wf p -> hw_is_interval k = true -> itv_wf (hw_param_interval p k).
Proof.
  intros W Hk. eapply Forall_lookup_1; [apply (wf_intervals p W) | by apply interval_lookup].
Qed.

Lemma mask_wf p k : hp_wf p -> hw_is_mask k = true -> is_u32 (hw_param_mask p k).
Proof.
  intros W Hk. eapply Forall_lookup_1; [apply (wf_masks p W) | by apply mask_lookup].
Qed.

Lemma get_put_interval p k i j :
  hp_wf p -> hw_is_interval k = true -> hw_is_interval j = true ->
  hw_param_interval (put_interval p k i) j = if k =? j then i else hw_param_interval p j.
Proof.
  intros W Hk%hw_is_interval_range Hj%hw_is_interval_range. pose proof (wf_intervals_len p W).
  apply slot_insert; change HW_FIRST_INTERVAL with 4; lia.
Qed.

Lemma get_put_mask p k m j :
  hp_wf p -> hw_is_mask k = true -> hw_is_mask j = true ->
  hw_param_mask (put_mask p k m) j = if k =? j then m else hw_param_mask p j.
Proof.
  intros W Hk%hw_is_mask_range Hj%hw_is_mask_range. pose proof (wf_masks_len p W).
  apply slot_insert; change HW_FIRST_MASK with 0; lia.
Qed.

Lemma put_interval_wf p k i : hp_wf p -> itv_wf i -> hp_wf (put_interval p k i).
Proof.
  intros [? ? ? ?] Hi. split; simpl; auto.
  - by rewrite length_insert.
  - by apply Forall_insert.
Qed.

Lemma put_mask_wf p k m : hp_wf p -> is_u32 m -> hp_wf (put_mask p k m).
Proof.
  intros [? ? ? ?] Hm. split; simpl; auto.
  - by rewrite length_insert.
  - by apply Forall_insert.
Qed.

Lemma mem_lo_hi i x : itv_mem i x -> itv_lo i <= itv_hi i.
Proof.
  intros (_ & A & B & _). unfold above, below, itv_lo, itv_hi in *.
  destruct (i_openmin i), (i_openmax i); simpl; nia.
Qed.

Lemma hp_size_nonneg p s : hp_wf p -> sat p s -> 0 <= hp_size p.
Proof.
  intros W [_ Hi]. unfold hp_size.
  assert (0 <= sum (hp_masks p)).
  { apply sum_nonneg. eapply Forall_impl; [apply (wf_masks p W) | unfold is_u32; simpl; lia]. }
  assert (0 <= sum (map itv_size (hp_intervals p))); [| lia].
  apply sum_nonneg. rewrite Forall_map, Forall_lookup. intros n i Hn.
  pose proof (lookup_lt_Some _ _ _ Hn) as Hl. rewrite (wf_intervals_len p W) in Hl.
  assert (Hk : hw_is_interval (Z.of_nat n + 4) = true) by (apply hw_is_interval_range; lia).
  pose proof (interval_lookup p _ W Hk) as E. change HW_FIRST_INTERVAL with 4 in E.
  replace (Z.to_nat (Z.of_nat n + 4 - 4)) with n in E by lia.
  rewrite Hn in E. injection E as ->.
  pose proof (mem_lo_hi _ _ (Hi _ Hk)).
  unfold itv_size. pose proof (b2z_range (negb (i_integer (hw_param_interval p (Z.of_nat n + 4))))). lia.
Qed.

(** ** Progress *)

Record progress (s : solution) (p : snd_pcm_hw_params) (res : Z * snd_pcm_hw_params) : Prop := {
  pg_ok : 0 <= res.1;
  pg_wf : hp_wf res.2;
  pg_sat : sat res.2 s;
  pg_narrower : hp_narrower res.2 p;
  pg_strict : res.1 <> 0 -> hp_size res.2 < hp_size p }.

Lemma put_interval_progress s p k r i :
  hp_wf p -> sat p s -> hw_is_interval k = true ->
  narrows (hw_param_interval p k) (r, i) -> 0 <= r -> itv_wf i -> itv_mem i (sol_val s k) ->
  progress s p (r, put_interval p k i).
Proof.
  intros W [Hm Hi] Hk [C N S] Hr Hwi Hmem. simpl in C, N, S.
  pose proof (interval_lookup p k W Hk) as L.
  split; simpl; [done | by apply put_interval_wf | | |].
  - split; [exact Hm |]. intros j Hj. rewrite get_put_interval by done.
    destruct (Z.eqb_spec k j) as [<- |]; auto.
  - split; simpl; [reflexivity |].
    eapply Forall2_insert_l; [exact narrower_refl | exact L | exact N].
  - intros Hnz. assert (E : r = 1) by (clear -C Hr Hnz; unfold EINVAL in C; lia). subst r.
    unfold hp_size, put_interval; simpl. rewrite list_fmap_insert.
    rewrite (sum_insert _ _ (itv_size (hw_param_interval p k)) _).
    + specialize (S eq_refl). change (map itv_size (hp_intervals p)) with (itv_size <$> hp_intervals p). lia.
    + rewrite list_lookup_fmap, L. done.
Qed.

Lemma put_mask_progress s p k r m :
  hp_wf p -> sat p s -> hw_is_mask k = true ->
  submask m (hw_param_mask p k) -> 0 <= r -> (r <> 0 -> m < hw_param_mask p k) ->
  Z.testbit m (sol_bit s k) = true ->
  progress s p (r, put_mask p k m).
Proof.
  intros W [Hm Hi] Hk N Hr S Hbit.
  pose proof (mask_lookup p k W Hk) as L.
  split; simpl; [done | | | |].
  - apply put_mask_wf; [done |]. unfold submask in N. rewrite <- N.
    by apply land_u32, mask_wf.
  - split; [| exact Hi]. intros j Hj. rewrite get_put_mask by done.
    destruct (Z.eqb_spec k j) as [<- |]; [| auto]. split; [by apply Hm | done].
  - split; simpl; [| reflexivity].
    eapply Forall2_insert_l; [intros a; reflexivity | exact L | exact N].
  - intros Hnz. unfold hp_size, put_mask; simpl.
    rewrite (sum_insert _ _ _ _ L). specialize (S Hnz). lia.
Qed.

Lemma refine_progress s p k t :
  hp_wf p -> sat p s -> hw_is_interval k = true -> itv_wf t -> itv_mem t (sol_val s k) ->
  progress s p (refine_var k t p).
Proof.
  intros W S Hk Ht (_ & A & B & I). pose proof (proj2 S k Hk) as Hmem.
  pose proof (refine_refines _ t (mem_nonempty _ _ Hmem) (interval_wf p k W Hk) Ht) as R.
  assert (HP : bounds_of t (sol_val s k)) by (split_and!; done).
  pose proof (refines_keeps _ _ _ R _ Hmem HP) as [Hr Hm].
  unfold refine_var. destruct (snd_interval_refine _ t) as [r i]. simpl in *.
  apply put_interval_progress; [done | done | done | | done | | done].
  - eapply refines_narrows, R.
  - by apply (ref_ok _ _ _ R).
Qed.

(** What holds of every space the loop goes through, from [p0]. *)
Record refinable (p0 : snd_pcm_hw_params) (s : solution) (p : snd_pcm_hw_params) : Prop := {
  rf_wf : hp_wf p;
  rf_sat : sat p s;
  rf_narrower : hp_narrower p p0 }.

Definition same_space (p p' : snd_pcm_hw_params) : Prop :=
  hp_masks p = hp_masks p' /\ hp_intervals p = hp_intervals p'.

Lemma refinable_same p0 s p p' : same_space p p' -> refinable p0 s p -> refinable p0 s p'.
Proof.
  destruct p, p'. intros [Em Ei] [[L M L' I] S N]. simpl in *. subst.
  split; [split; assumption | exact S | exact N].
Qed.

Lemma size_same p p' : same_space p p' -> hp_size p' = hp_size p.
Proof. unfold hp_size. by intros [-> ->]. Qed.

Lemma progress_refinable p0 s p res : refinable p0 s p -> progress s p res -> refinable p0 s res.2.
Proof. intros [] []. split; [done | done |]. by transitivity p. Qed.

(** A rule makes progress on [s] in every space the loop can reach from [p0]. *)
Class RuleProgress (p0 : snd_pcm_hw_params) (s : solution) (r : snd_pcm_hw_rule) : Prop :=
  rule_progress p : refinable p0 s p -> progress s p (r_func r (r_var r) (r_deps r) p).

(** ** The loop *)

Section Loop.
Context (p0 : snd_pcm_hw_params) (s : solution).

(** One round, relative to the size [n] at the start of the pass. *)
Definition pass_inv (n : Z) (st : refine_state) : Prop :=
  refinable p0 s (rs_params st) /\ hp_size (rs_params st) <= n /\
  (rs_again st = true -> hp_size (rs_params st) < n).

Lemma apply_rule_inv n k r st :
  RuleProgress p0 s r -> pass_inv n st ->
  match apply_rule (k, r) st with Return _ => False | Next st' => pass_inv n st' end.
Proof.
  intros Hr (R & Hle & Hag). unfold apply_rule.
  destruct (_ && _); [done |]. destruct (negb _); [done |].
  pose proof (Hr _ R) as P. pose proof (progress_refinable _ _ _ _ R P) as R'.
  destruct (r_func _ _ _ _) as [changed p']. destruct P as [Hok _ _ N S]. simpl in *.
  pose proof (hp_narrower_size _ _ (rf_wf _ _ _ R) N) as Hsz.
  destruct (Z.ltb_spec changed 0); [lia |].
  destruct (truth changed) eqn:Hc; simpl.
  - assert (hp_size p' < hp_size (rs_params st)).
    { apply S. unfold truth in Hc. by apply negb_true_iff, Z.eqb_neq in Hc. }
    destruct (0 <=? r_var r); unfold pass_inv; simpl.
    + split; [by eapply refinable_same, R' |].
      rewrite (size_same p' (mark_changed p' (r_var r))) by done. lia.
    + split; [done |]. split; [lia |]. intros. lia.
  - unfold pass_inv; simpl. split; [done |]. split; [lia |].
    intros Ha. specialize (Hag Ha). lia.
Qed.

Lemma apply_rules_total rules : 
  Forall (fun kr => RuleProgress p0 s kr.2) rules ->
  forall st, refinable p0 s (rs_params st) ->
  exists st', refinable p0 s (rs_params st') /\
    forall fuel, (Z.to_nat (hp_size (rs_params st)) < fuel)%nat ->
      apply_rules fuel rules st = Some (Next st').
Proof.
  intros Hrules st. remember (Z.to_nat (hp_size (rs_params st))) as n eqn:En.
  revert st En. induction (lt_wf n) as [n _ IH]. intros st -> R.
  pose proof (loop_flow_ind (pass_inv (hp_size (rs_params st))) (fun _ => False) apply_rule rules
                (st <| rs_again := false |>)) as L.
  assert (H0 : pass_inv (hp_size (rs_params st)) (st <| rs_again := false |>)).
  { unfold pass_inv; simpl. split; [done |]. split; [lia | done]. }
  specialize (L H0). clear H0.
  destruct (loop_flow apply_rule rules _) as [res | st'] eqn:Hloop.
  - exfalso. apply L. intros [k r] a Hin Ha. apply apply_rule_inv; [| done].
    rewrite Forall_forall in Hrules. by apply (Hrules (k, r)).
  - destruct L as (R' & Hle & Hag).
    + intros [k r] a Hin Ha. apply apply_rule_inv; [| done].
      rewrite Forall_forall in Hrules. by apply (Hrules (k, r)).
    + pose proof (hp_size_nonneg _ _ (rf_wf _ _ _ R') (rf_sat _ _ _ R')).
      destruct (rs_again st') eqn:Ha.
      * specialize (Hag eq_refl).
        destruct (IH (Z.to_nat (hp_size (rs_params st'))) ltac:(lia) st' eq_refl R')
          as (st'' & R'' & Hf).
        exists st''. split; [done |]. intros [| fuel] Hfuel; [lia |].
        cbn [apply_rules]. rewrite Hloop, Ha. apply Hf. lia.
      * exists st'. split; [done |]. intros [| fuel] Hfuel; [lia |].
        cbn [apply_rules]. by rewrite Hloop, Ha.
Qed.
End Loop.

(** ** The constraints *)

Definition allows (c : snd_pcm_hw_constraints) (s : solution) : Prop :=
  (forall k, hw_is_mask k = true -> Z.testbit (constrs_mask c k) (sol_bit s k) = true) /\
  (forall k, hw_is_interval k = true ->
     itv_wf (constrs_interval c k) /\ itv_mem (constrs_interval c k) (sol_val s k)).

(** Refining a mask by one that has the solution's bit. *)
Lemma refine_mask_progress s p k v :
  hp_wf p -> sat p s -> hw_is_mask k = true -> Z.testbit v (sol_bit s k) = true ->
  let '(r, m) := snd_mask_refine (hw_param_mask p k) v in
  progress s p (r, put_mask p k m).
Proof.
  intros W S Hk Hv. destruct (proj1 S k Hk) as [Hb Ht].
  assert (Hnz : hw_param_mask p k <> 0) by (intros E; rewrite E, Z.bits_0 in Ht; done).
  pose proof (mask_refine_correct (hw_param_mask p k) v (mask_wf p k W Hk) Hnz) as R.
  assert (Hsub : submask (snd_mask_refine (hw_param_mask p k) v).2 (hw_param_mask p k)).
  { unfold snd_mask_refine, snd_mask_intersect, submask.
    destruct (snd_mask_empty _); simpl; by rewrite Z.land_assoc, Z.land_diag. }
  destruct (snd_mask_refine _ v) as [r m]. destruct R as (Hm & He & _ & Hlt & Hr). simpl in Hsub.
  assert (Hok : r <> -EINVAL).
  { intros E. apply He with (k := sol_bit s k) in E; [| lia]. by rewrite Ht, Hv in E. }
  apply put_mask_progress; [done | done | done | done | | |].
  - clear -Hr Hok. lia.
  - intros Hr0. apply Hlt. clear -Hr Hok Hr0. lia.
  - by rewrite Hm, Ht, Hv by lia.
Qed.

Lemma refine_mask_var_inv p0 s c p k :
  hw_is_mask k = true -> allows c s -> refinable p0 s p ->
  match refine_mask_var c k p with Return _ => False | Next p' => refinable p0 s p' end.
Proof.
  intros Hk [Hc _] R. pose proof R as [W S N]. unfold refine_mask_var, snd_mask_empty.
  destruct (proj1 S k Hk) as [Hb Ht].
  destruct (Z.eqb_spec (hw_param_mask p k) 0) as [E | _]; [by rewrite E, Z.bits_0 in Ht |].
  destruct (negb _); [done |].
  pose proof (refine_mask_progress s p k (constrs_mask c k) W S Hk (Hc k Hk)) as P.
  destruct (snd_mask_refine _ _) as [r m]. pose proof (progress_refinable _ _ _ _ R P) as R'.
  destruct P as [Hok _ _ _ _]. simpl in *.
  destruct (Z.ltb_spec r 0); [lia |]. destruct (truth r); [| done].
  eapply refinable_same; [| exact R']. done.
Qed.

Lemma refine_interval_var_inv p0 s c p k :
  hw_is_interval k = true -> allows c s -> refinable p0 s p ->
  match refine_interval_var c k p with Return _ => False | Next p' => refinable p0 s p' end.
Proof.
  intros Hk [_ Hc] R. pose proof R as [W S N]. unfold refine_interval_var.
  rewrite (mem_nonempty _ _ (proj2 S k Hk)). destruct (negb _); [done |].
  destruct (Hc k Hk) as [Hwf Hmem].
  pose proof (refine_progress s p k _ W S Hk Hwf Hmem) as P. unfold refine_var in P.
  destruct (snd_interval_refine _ _) as [r i]. pose proof (progress_refinable _ _ _ _ R P) as R'.
  destruct P as [Hok _ _ _ _]. simpl in *.
  destruct (Z.ltb_spec r 0); [lia |]. destruct (truth r); [| done].
  eapply refinable_same; [| exact R']. done.
Qed.

Lemma refine_start_same p : same_space p (refine_start p).
Proof. unfold refine_start. destruct (requested _ _), (requested _ _); done. Qed.

Lemma refine_finish_same hw p : same_space p (refine_finish hw p).
Proof.
  unfold refine_finish.
  repeat match goal with |- context [if ?b then _ else _] => destruct b; try done end.
Qed.

Lemma indexed_rules (P : snd_pcm_hw_rule -> Prop) l :
  Forall P l -> Forall (fun kr => P kr.2) (indexed l).
Proof.
  unfold indexed. generalize (seqZ 0 (Z.of_nat (length l))) as ks.
  intros ks H. revert ks. induction H; intros [| k ks]; simpl; constructor; auto.
Qed.

Lemma hw_refine_complete hw c p s :
  hp_wf p -> sat p s -> allows c s -> c_rules_num c <= 32 ->
  Forall (RuleProgress p s) (c_rules c) ->
  exists fuel0 p',
    (forall fuel, (fuel0 <= fuel)%nat -> snd_pcm_hw_refine hw c fuel p = Some (0, p')) /\
    hp_wf p' /\ sat p' s /\ hp_narrower p' p /\ hp_rmask p' = 0.
Proof.
  intros W S A Hn Hrules. unfold snd_pcm_hw_refine. destruct (Z.ltb_spec 32 (c_rules_num c)); [lia |].
  assert (R0 : refinable p s (refine_start p)).
  { eapply refinable_same; [apply refine_start_same |]. by split. }
  pose proof (loop_flow_ind (refinable p s) (fun _ => False) (refine_mask_var c) mask_vars _ R0) as L1.
  destruct (loop_flow (refine_mask_var c) _ _) as [res | p1].
  { exfalso. apply L1. intros k a Hk. apply refine_mask_var_inv; [| done].
    apply hw_is_mask_range. apply list_elem_of_In in Hk. simpl in Hk. lia. }
  specialize (L1 ltac:(intros k a Hk; apply refine_mask_var_inv; [| done];
    apply hw_is_mask_range; apply list_elem_of_In in Hk; simpl in Hk; lia)).
  pose proof (loop_flow_ind (refinable p s) (fun _ => False) (refine_interval_var c) interval_vars _ L1) as L2.
  destruct (loop_flow (refine_interval_var c) _ _) as [res | p2].
  { exfalso. apply L2. intros k a Hk. apply refine_interval_var_inv; [| done].
    apply hw_is_interval_range. apply list_elem_of_In in Hk. simpl in Hk. lia. }
  specialize (L2 ltac:(intros k a Hk; apply refine_interval_var_inv; [| done];
    apply hw_is_interval_range; apply list_elem_of_In in Hk; simpl in Hk; lia)).
  destruct (apply_rules_total p s (indexed (c_rules c)) (indexed_rules _ _ Hrules)
              (initial_state c p2) L2) as (st & R & Hfuel).
  exists (Datatypes.S (Z.to_nat (hp_size p2))), (refine_finish hw (rs_params st)).
  split; [intros fuel Hf; rewrite Hfuel by (simpl; lia); done |].
  pose proof (refinable_same _ _ _ _ (refine_finish_same hw (rs_params st)) R) as [W' S' N'].
  split_and!; done.
Qed.

(** ** The library's rules make progress on the solutions of their equations *)

#[export] Instance unsaturated_proper : Proper (Qeq ==> iff) unsaturated.
Proof.
  assert (H : forall x y, (x == y)%Q -> unsaturated x -> unsaturated y).
  { unfold unsaturated, Qeq. intros x y E ?. nia. }
  intros x y E. split; apply H; [done | by symmetry].
Qed.

(** A rule that refines by a computed interval. *)
Lemma refine_rule_progress p0 s cond f var deps :
  hw_is_interval var = true ->
  (forall p, refinable p0 s p ->
     exists t z, f var deps p = refine_var var t p /\ (z == sol_val s var)%Q /\
       itv_mem t z /\ itv_wf t) ->
  RuleProgress p0 s (HwRule cond f var deps).
Proof.
  intros Hv Ht p R. destruct (Ht p R) as (t & z & E & Hz & M & W). simpl. rewrite E.
  apply refine_progress; [apply R | apply R | done | done |]. by rewrite <- Hz.
Qed.

Section Rules.
Context (p0 : snd_pcm_hw_params) (s : solution) (junk : snd_interval).
Hypothesis Hpos : forall k, hw_is_interval k = true -> positive (sol_val s k).
Hypothesis Hunsat : forall k, hw_is_interval k = true -> unsaturated (sol_val s k).

Section Binary.
Context (cond var a b : Z).
Hypothesis (Hv : hw_is_interval var = true).
Hypothesis (Ha : hw_is_interval a = true) (Hb : hw_is_interval b = true).

Lemma operands p :
  refinable p0 s p ->
  itv_wf (hw_param_interval p a) /\ itv_wf (hw_param_interval p b) /\
  itv_mem (hw_param_interval p a) (sol_val s a) /\
  itv_mem (hw_param_interval p b) (sol_val s b).
Proof.
  intros [W S _]. split; [by apply interval_wf |]. split; [by apply interval_wf |].
  split; by apply S.
Qed.

Lemma mul_progress :
  (sol_val s a * sol_val s b == sol_val s var)%Q ->
  RuleProgress p0 s (HwRule cond (snd_pcm_hw_rule_mul junk) var [a; b]).
Proof.
  intros E. apply refine_rule_progress; [done |]. intros p R.
  destruct (operands p R) as (Wa & Wb & Ma & Mb). eexists _, _. split; [reflexivity |].
  split; [exact E |]. apply snd_interval_mul_sound; auto. rewrite E. auto.
Qed.

Lemma div_progress :
  (sol_val s a / sol_val s b == sol_val s var)%Q ->
  RuleProgress p0 s (HwRule cond (snd_pcm_hw_rule_div junk) var [a; b]).
Proof.
  intros E. apply refine_rule_progress; [done |]. intros p R.
  destruct (operands p R) as (Wa & Wb & Ma & Mb). eexists _, _. split; [reflexivity |].
  split; [exact E |]. apply snd_interval_div_sound; auto.
  assert (E' : (sol_val s a * inject_Z 1 / sol_val s b == sol_val s var)%Q)
    by (rewrite <- E; by rewrite Qmult_1_r).
  rewrite E'. auto.
Qed.

Lemma muldivk_progress k :
  0 < k <= UINT_MAX ->
  (sol_val s a * sol_val s b / inject_Z k == sol_val s var)%Q ->
  half_range (sol_val s a * sol_val s b) ->
  RuleProgress p0 s (HwRule cond (snd_pcm_hw_rule_muldivk junk k) var [a; b]).
Proof.
  intros Hk E Hex. apply refine_rule_progress; [done |]. intros p R.
  destruct (operands p R) as (Wa & Wb & Ma & Mb). eexists _, _. split; [reflexivity |].
  split; [exact E |]. apply snd_interval_muldivk_sound; auto. rewrite E. auto.
Qed.

Lemma mulkdiv_progress k :
  0 < k <= UINT_MAX ->
  (sol_val s a * inject_Z k / sol_val s b == sol_val s var)%Q ->
  half_range (sol_val s a * inject_Z k) ->
  RuleProgress p0 s (HwRule cond (snd_pcm_hw_rule_mulkdiv junk k) var [a; b]).
Proof.
  intros Hk E Hex. apply refine_rule_progress; [done |]. intros p R.
  destruct (operands p R) as (Wa & Wb & Ma & Mb). eexists _, _. split; [reflexivity |].
  split; [exact E |]. apply snd_interval_mulkdiv_sound; auto. rewrite E. auto.
Qed.
  End Binary.

Lemma buffer_bytes_max_progress cond var m deps :
  hw_is_interval var = true -> is_u32 m -> is_integer (sol_val s var) ->
  Qnum (sol_val s var) <= m * QDen (sol_val s var) ->
  RuleProgress p0 s (HwRule cond (snd_pcm_hw_rule_buffer_bytes_max m) var deps).
Proof.
  intros Hv Hm Hi Hle. apply refine_rule_progress; [done |]. intros p R.
  eexists _, _. split; [reflexivity |]. split; [reflexivity |].
  pose proof (Hpos var Hv). unfold positive in *.
  split; [unfold itv_mem, above, below; simpl; split_and!; auto; lia |].
  unfold itv_wf; simpl. split_and!; done || word_lia.
Qed.
End Rules.

Lemma list_rule_progress p0 s cond var l mask deps x :
  hw_is_interval var = true -> StronglySorted Z.le l -> Forall is_u32 l ->
  selected 1 0 mask l x -> (sol_val s var == inject_Z x)%Q ->
  RuleProgress p0 s (HwRule cond (rule_list l mask) var deps).
Proof.
  intros Hv Hs Hu Hsel E p [W S _]. simpl. unfold rule_list.
  pose proof (proj2 S var Hv) as M. rewrite E in M.
  pose proof (snd_interval_list_narrows (hw_param_interval p var) l mask) as N.
  pose proof (interval_list_keeps _ l mask x Hs Hsel M) as K.
  destruct (snd_interval_list _ _ _) as [r i]. destruct K as (Hr & M' & Ho & Hx & Hmn & Hmx).
  apply put_interval_progress; try done; [| by rewrite E].
  destruct Hmn as (n & Hn & _), Hmx as (n' & Hn' & _).
  unfold itv_wf. rewrite Ho, Hx. split_and!; try done.
  - eapply Forall_lookup_1; [exact Hu | exact Hn].
  - eapply Forall_lookup_1 with (l := reverse l); [by apply Forall_reverse | exact Hn'].
Qed.

Lemma physical_width_bound k : snd_pcm_format_physical_width k <= 64.
Proof.
  unfold snd_pcm_format_physical_width. destruct (format_of k) as [[] |]; try done; unfold EINVAL; lia.
Qed.

Lemma land_bit m k : 0 <= k < 32 -> (Z.land m (shl32 1 k) =? 0) = negb (Z.testbit m k).
Proof.
  intros Hk. rewrite one_bit, land_one_bit by lia. destruct (Z.testbit m k); [| done].
  apply Z.eqb_neq. pose proof (Z.pow_pos_nonneg 2 k). lia.
Qed.

(** The mask [m] of the format rule keeps every format whose width lies in the interval. *)
Lemma format_rule_keeps (mask lo hi k : Z) l :
  0 <= k < 32 -> Forall (fun j => 0 <= j < 32) l ->
  lo <= snd_pcm_format_physical_width k <= hi ->
  forall m, Z.testbit m k = true ->
  Z.testbit (fold_left (fun m k =>
      if Z.land mask (shl32 1 k) =? 0 then m
      else
        let bits := snd_pcm_format_physical_width k in
        if bits <=? 0 then m
        else if (bits <? lo) || (hi <? bits) then Z.land m (not32 (shl32 1 k))
        else m) l m) k = true.
Proof.
  intros Hk Hl Hw. induction Hl as [| j l Hj Hl IH]; intros m Hm; [done |].
  cbn [fold_left]. apply IH. cbv zeta.
  destruct (_ =? 0); [done |]. destruct (_ <=? 0); [done |].
  destruct (Z.ltb_spec (snd_pcm_format_physical_width j) lo),
           (Z.ltb_spec hi (snd_pcm_format_physical_width j)); simpl; try done;
    (rewrite Z.land_spec, Hm; unfold not32; rewrite Z.lxor_spec, one_bit by lia;
     assert (j <> k) by (intros ->; lia);
     rewrite Z.pow2_bits_false by done;
     change 4294967295 with (Z.ones 32); rewrite Z.ones_spec_low by lia; done).
Qed.

Lemma format_range_bound : Forall (fun j => 0 <= j < 32) format_range.
Proof. apply Forall_forall. intros j Hj%elem_of_seqZ. unfold SNDRV_PCM_FORMAT_LAST in Hj. lia. Qed.

Lemma format_rule_progress p0 s cond :
  0 < snd_pcm_format_physical_width (sol_bit s HW_FORMAT) ->
  (sol_val s HW_SAMPLE_BITS == inject_Z (snd_pcm_format_physical_width (sol_bit s HW_FORMAT)))%Q ->
  RuleProgress p0 s (HwRule cond snd_pcm_hw_rule_format HW_FORMAT [HW_SAMPLE_BITS]).
Proof.
  intros Hpos E p [W S _]. simpl. unfold snd_pcm_hw_rule_format.
  pose proof (proj2 S HW_SAMPLE_BITS eq_refl) as M. rewrite E in M.
  pose proof (proj1 S HW_FORMAT eq_refl) as [Hk Hb].
  assert (Hw : i_min (hw_param_interval p HW_SAMPLE_BITS)
               <= snd_pcm_format_physical_width (sol_bit s HW_FORMAT)
               <= i_max (hw_param_interval p HW_SAMPLE_BITS)).
  { destruct M as (_ & A & B & _). unfold above, below in *. simpl in A, B.
    change (Z.pos (1)) with 1 in *.
    destruct (i_openmin _), (i_openmax _); lia. }
  match goal with |- context [snd_mask_refine _ ?v] => assert (Hv : Z.testbit v (sol_bit s HW_FORMAT) = true) end.
  { apply format_rule_keeps; [done | apply format_range_bound | exact Hw |].
    change (not32 0) with (Z.ones 32). apply Z.ones_spec_low. lia. }
  pose proof (refine_mask_progress s p HW_FORMAT _ W S eq_refl Hv) as P.
  destruct (snd_mask_refine _ _) as [r m]. exact P.
Qed.

(** The bounds of the sample-bits rule enclose the width of every format in the mask. *)
Lemma sample_bits_range_ok mask k :
  0 <= k < 32 -> Z.testbit mask k = true -> 0 < snd_pcm_format_physical_width k ->
  let '(mn, mx) := sample_bits_range mask in
  0 <= mn <= snd_pcm_format_physical_width k /\ snd_pcm_format_physical_width k <= mx <= 64.
Proof.
  intros Hk Hb Hw. unfold sample_bits_range.
  pose proof format_range_bound as Hr.
  assert (Hin : k ∈ format_range) by (apply elem_of_seqZ; unfold SNDRV_PCM_FORMAT_LAST; lia).
  assert (H : forall mn mx, 0 <= mn <= UINT_MAX -> 0 <= mx <= 64 ->
    k ∈ format_range \/ (mn <= snd_pcm_format_physical_width k <= mx) ->
    let '(mn, mx) := fold_left (fun '(mn, mx) k =>
      if Z.land mask (shl32 1 k) =? 0 then (mn, mx)
      else
        let bits := snd_pcm_format_physical_width k in
        if bits <=? 0 then (mn, mx)
        else (if bits <? mn then bits else mn, if mx <? bits then bits else mx))
      format_range (mn, mx) in
    0 <= mn <= snd_pcm_format_physical_width k /\ snd_pcm_format_physical_width k <= mx <= 64).
  { clear Hin. induction Hr as [| j l Hj Hl IH]; intros mn mx Hmn Hmx Hin.
    - simpl. destruct Hin as [Hin | ?]; [by apply not_elem_of_nil in Hin | lia].
    - cbn [fold_left]. rewrite land_bit by done. cbv zeta.
      pose proof (physical_width_bound j). unfold UINT_MAX in *.
      rewrite elem_of_cons in Hin.
      destruct (Z.eq_dec j k) as [-> | Hjk].
      + rewrite Hb. simpl. destruct (Z.leb_spec (snd_pcm_format_physical_width k) 0); [lia |].
        apply IH; try (right); repeat btest; lia.
      + assert (Hin' : k ∈ l \/ mn <= snd_pcm_format_physical_width k <= mx)
          by (destruct Hin as [[-> | ?] | ?]; [done | by left | by right]).
        destruct (negb _); [by apply IH |].
        destruct (Z.leb_spec (snd_pcm_format_physical_width j) 0); [by apply IH |].
        apply IH; [repeat btest; lia.. |]. destruct Hin' as [? | ?]; [by left | right; repeat btest; lia]. }
  apply H; [unfold UINT_MAX; lia | lia | by left].
Qed.

Lemma sample_bits_rule_progress p0 s cond deps :
  0 < snd_pcm_format_physical_width (sol_bit s HW_FORMAT) ->
  (sol_val s HW_SAMPLE_BITS == inject_Z (snd_pcm_format_physical_width (sol_bit s HW_FORMAT)))%Q ->
  RuleProgress p0 s (HwRule cond snd_pcm_hw_rule_sample_bits HW_SAMPLE_BITS deps).
Proof.
  intros Hpos E. apply refine_rule_progress; [done |]. intros p [W S _].
  destruct (proj1 S HW_FORMAT eq_refl) as [Hk Hb].
  pose proof (sample_bits_range_ok _ _ Hk Hb Hpos) as R.
  unfold snd_pcm_hw_rule_sample_bits. destruct (sample_bits_range _) as [mn mx].
  eexists _, _. split; [reflexivity |]. split; [symmetry; exact E |].
  split.
  - unfold itv_mem, above, below; simpl. split_and!; [done | lia | lia |].
    intros _. unfold is_integer. simpl. eexists. symmetry. apply Z.mul_1_r.
  - unfold itv_wf; simpl. split_and!; try done; word_lia.
Qed.

(** The OS/2 branch refuses a table of more than 32 rules with a positive code,
    which no caller takes for an error. *)
Lemma too_many_rules_looks_like_success hw c fuel p :
  32 < c_rules_num c ->
  snd_pcm_hw_refine hw c fuel p = Some (EFAULT, p) /\ (EFAULT <? 0) = false.
Proof. intros H. unfold snd_pcm_hw_refine. by destruct (Z.ltb_spec 32 (c_rules_num c)); [| lia]. Qed.
