(* ===== verification/HwChoose.v ===== *)
(** * HwChoose: asking a configuration space for values

    The [snd_pcm_hw_param_*] functions of alsa/core/pcm_lib.c: reading the bounds of a
    parameter, narrowing it by a request, and choosing the nearest value or a whole
    configuration.  Those that refine afterwards take the refinement as a parameter:
    it is [snd_pcm_hw_refine] with the substream's table and enough fuel. *)

From Stdlib Require Import QArith.
From S2P Require Import Prelude Interval IntervalSets Mask HwParams HwRefine.
Open Scope Z_scope.

(** ** Requests *)

Definition _snd_pcm_hw_param_any (p : snd_pcm_hw_params) (var : Z) : snd_pcm_hw_params :=
  if hw_is_mask var then mark_requested (put_mask p var snd_mask_any) var
  else if hw_is_interval var then mark_requested (put_interval p var snd_interval_any) var
  else p.

Definition zero_params : snd_pcm_hw_params :=
  HwParams 0 (replicate 4 0) (replicate 12 (Itv 0 0 false false false false)) 0 0 0 0 0 0 0.

Definition _snd_pcm_hw_params_any : snd_pcm_hw_params :=
  fold_left _snd_pcm_hw_param_any (seqZ 0 (HW_LAST + 1)) zero_params <| hp_info := not32 0 |>.

Definition _snd_pcm_hw_param_setempty (p : snd_pcm_hw_params) (var : Z) : snd_pcm_hw_params :=
  if hw_is_mask var then mark_requested (put_mask p var snd_mask_none) var
  else if hw_is_interval var
  then mark_requested (put_interval p var (snd_interval_none (hw_param_interval p var))) var
  else p.

(** A change is recorded in both masks. *)
Definition noted (var : Z) (res : Z * snd_pcm_hw_params) : Z * snd_pcm_hw_params :=
  let '(changed, p) := res in (changed, if truth changed then mark_requested p var else p).

Definition on_mask (p : snd_pcm_hw_params) (var : Z) (f : Z -> Z * Z) : Z * snd_pcm_hw_params :=
  let '(r, m) := f (hw_param_mask p var) in (r, put_mask p var m).

Definition on_interval (p : snd_pcm_hw_params) (var : Z) (f : snd_interval -> Z * snd_interval)
    : Z * snd_pcm_hw_params :=
  let '(r, i) := f (hw_param_interval p var) in (r, put_interval p var i).

Definition _snd_pcm_hw_param_setinteger (p : snd_pcm_hw_params) (var : Z)
    : Z * snd_pcm_hw_params :=
  if negb (hw_is_interval var) then (-EINVAL, p)
  else noted var (on_interval p var snd_interval_setinteger).

Definition _snd_pcm_hw_param_first (p : snd_pcm_hw_params) (var : Z) : Z * snd_pcm_hw_params :=
  if hw_is_mask var then noted var (on_mask p var snd_mask_refine_first)
  else if hw_is_interval var then noted var (on_interval p var snd_interval_refine_first)
  else (-EINVAL, p).

Definition _snd_pcm_hw_param_last (p : snd_pcm_hw_params) (var : Z) : Z * snd_pcm_hw_params :=
  if hw_is_mask var then noted var (on_mask p var snd_mask_refine_last)
  else if hw_is_interval var then noted var (on_interval p var snd_interval_refine_last)
  else (-EINVAL, p).

(** The bound that [val] and [dir] stand for: just above, at, or just below [val]. *)
Definition min_bound (val dir : Z) : Z * bool :=
  if 0 <? dir then (val, true)
  else if (dir <? 0) && (0 <? val) then (val - 1, true)
  else (val, false).

Definition _snd_pcm_hw_param_min (p : snd_pcm_hw_params) (var val dir : Z)
    : Z * snd_pcm_hw_params :=
  let '(val, open) := min_bound val dir in
  if hw_is_mask var
  then noted var (on_mask p var (fun m => snd_mask_refine_min m (u32 (val + b2z open))))
  else if hw_is_interval var
  then noted var (on_interval p var (fun i => snd_interval_refine_min i val open))
  else (-EINVAL, p).

Definition max_bound (val dir : Z) : Z * bool :=
  if dir <? 0 then (val, true)
  else if 0 <? dir then (u32 (val + 1), true)
  else (val, false).

Definition _snd_pcm_hw_param_max (p : snd_pcm_hw_params) (var val dir : Z)
    : Z * snd_pcm_hw_params :=
  let '(val, open) := max_bound val dir in
  if hw_is_mask var
  then noted var
    (if (val =? 0) && open then (-EINVAL, put_mask p var snd_mask_none)
     else on_mask p var (fun m => snd_mask_refine_max m (u32 (val - b2z open))))
  else if hw_is_interval var
  then noted var (on_interval p var (fun i => snd_interval_refine_max i val open))
  else (-EINVAL, p).

Definition _snd_pcm_hw_param_set (p : snd_pcm_hw_params) (var val dir : Z)
    : Z * snd_pcm_hw_params :=
  if hw_is_mask var
  then noted var
    (if (val =? 0) && (dir <? 0) then (-EINVAL, put_mask p var snd_mask_none)
     else
       let val := if 0 <? dir then u32 (val + 1) else if dir <? 0 then u32 (val - 1) else val in
       on_mask p var (fun m => snd_mask_refine_set m val))
  else if hw_is_interval var
  then noted var
    (if (val =? 0) && (dir <? 0)
     then (-EINVAL, put_interval p var (snd_interval_none (hw_param_interval p var)))
     else if dir =? 0 then on_interval p var (fun i => snd_interval_refine_set i val)
     else
       let t := if dir <? 0 then Itv (u32 (val - 1)) val true true false false
                else Itv val (u32 (val + 1)) true true false false in
       on_interval p var (fun i => snd_interval_refine i t))
  else (-EINVAL, p).

Definition _snd_pcm_hw_param_mask (p : snd_pcm_hw_params) (var val : Z) : Z * snd_pcm_hw_params :=
  if negb (hw_is_mask var) then (-EINVAL, p)
  else noted var (on_mask p var (fun m => snd_mask_refine m val)).

(** ** Reading a parameter

    [dir] is the variable an optional pointer refers to; [None] is a null pointer.
    The values are returned as [int]. *)
Definition store_dir (dir : option Z) (d : Z) : option Z := (fun _ => d) <$> dir.

Definition snd_pcm_hw_param_value (p : snd_pcm_hw_params) (var : Z) (dir : option Z)
    : Z * option Z :=
  if hw_is_mask var then
    let m := hw_param_mask p var in
    if negb (snd_mask_single m) then (-EINVAL, dir) else (s32 (snd_mask_value m), store_dir dir 0)
  else if hw_is_interval var then
    let i := hw_param_interval p var in
    if negb (snd_interval_single i) then (-EINVAL, dir)
    else (s32 (snd_interval_value i), store_dir dir (b2z (i_openmin i)))
  else (-EINVAL, dir).

Definition snd_pcm_hw_param_value_min (p : snd_pcm_hw_params) (var : Z) (dir : option Z)
    : Z * option Z :=
  if hw_is_mask var then (s32 (snd_mask_min (hw_param_mask p var)), store_dir dir 0)
  else if hw_is_interval var then
    let i := hw_param_interval p var in
    (s32 (snd_interval_lowest i), store_dir dir (b2z (i_openmin i)))
  else (-EINVAL, dir).

Definition snd_pcm_hw_param_value_max (p : snd_pcm_hw_params) (var : Z) (dir : option Z)
    : Z * option Z :=
  if hw_is_mask var then (s32 (snd_mask_max (hw_param_mask p var)), store_dir dir 0)
  else if hw_is_interval var then
    let i := hw_param_interval p var in
    (s32 (snd_interval_highest i), store_dir dir (- b2z (i_openmax i)))
  else (-EINVAL, dir).

(** ** Distances between bounds *)

Definition sign (d : Z) : Z := if d <? 0 then -1 else if 0 <? d then 1 else 0.

(** The [assert]s of this function leave the difference as it is; the callers ignore
    the code. *)
Definition boundary_sub (a adir b bdir : Z) : Z * Z :=
  let c := s32 (a - b) in
  let cdir := sign adir - sign bdir in
  if cdir =? -2 then (if c =? -2147483648 then c else c - 1, cdir)
  else if cdir =? 2 then (if c =? INT_MAX then c else c + 1, cdir)
  else (c, cdir).

Definition boundary_step (a adir : Z) : Z * Z :=
  if adir <? 0 then (u32 (a - 1), 1) else if 0 <? adir then (a, 1) else (a, adir).

Definition boundary_lt (a adir b bdir : Z) : Z :=
  if negb ((0 <? a) || (0 <=? adir)) then -EINVAL
  else if negb ((0 <? b) || (0 <=? bdir)) then -EINVAL
  else
    let '(a, adir) := boundary_step a adir in
    let '(b, bdir) := boundary_step b bdir in
    b2z ((a <? b) || ((a =? b) && (adir <? bdir))).

Definition boundary_nearer (min mindir best bestdir max maxdir : Z) : Z :=
  let '(dmin, dmindir) := boundary_sub best bestdir min mindir in
  let '(dmax, dmaxdir) := boundary_sub max maxdir best bestdir in
  boundary_lt (u32 dmin) dmindir (u32 dmax) dmaxdir.

(** ** Requests followed by refinement *)

Section Choose.
Variable refine : snd_pcm_hw_params -> option (Z * snd_pcm_hw_params).

Definition answer : Type := option (Z * option Z * snd_pcm_hw_params).

(** [if (changed < 0) return changed; if (params->rmask) { refine, check }] and the
    value returned in the end; [bad] is what becomes of a refinement error. *)
Definition refine_then (bad : Z -> Z) (req : Z * snd_pcm_hw_params) (dir : option Z)
    (value : snd_pcm_hw_params -> Z * option Z) : answer :=
  let '(changed, p) := req in
  if changed <? 0 then Some (changed, dir, p)
  else if truth (hp_rmask p) then
    '(err, p) ← refine p;
    if err <? 0 then Some (bad err, dir, p) else Some (value p, p)
  else Some (value p, p).

Definition snd_pcm_hw_param_any (p : snd_pcm_hw_params) (var : Z) :=
  refine (_snd_pcm_hw_param_any p var).

Definition snd_pcm_hw_params_any := refine _snd_pcm_hw_params_any.

Definition snd_pcm_hw_param_setinteger (p : snd_pcm_hw_params) (var : Z) : answer :=
  refine_then id (_snd_pcm_hw_param_setinteger p var) None (fun _ => (0, None)).

Definition snd_pcm_hw_param_first (p : snd_pcm_hw_params) (var : Z) (dir : option Z) : answer :=
  refine_then (fun _ => -EINVAL) (_snd_pcm_hw_param_first p var) dir
    (fun p => snd_pcm_hw_param_value p var dir).

Definition snd_pcm_hw_param_last (p : snd_pcm_hw_params) (var : Z) (dir : option Z) : answer :=
  refine_then (fun _ => -EINVAL) (_snd_pcm_hw_param_last p var) dir
    (fun p => snd_pcm_hw_param_value p var dir).

Definition snd_pcm_hw_param_min (p : snd_pcm_hw_params) (var val : Z) (dir : option Z) : answer :=
  refine_then id (_snd_pcm_hw_param_min p var val (default 0 dir)) dir
    (fun p => snd_pcm_hw_param_value_min p var dir).

Definition snd_pcm_hw_param_max (p : snd_pcm_hw_params) (var val : Z) (dir : option Z) : answer :=
  refine_then id (_snd_pcm_hw_param_max p var val (default 0 dir)) dir
    (fun p => snd_pcm_hw_param_value_max p var dir).

Definition snd_pcm_hw_param_set (p : snd_pcm_hw_params) (var val dir : Z) : answer :=
  refine_then id (_snd_pcm_hw_param_set p var val dir) None
    (fun p => snd_pcm_hw_param_value p var None).

Definition snd_pcm_hw_param_mask (p : snd_pcm_hw_params) (var val : Z) : answer :=
  refine_then id (_snd_pcm_hw_param_mask p var val) None (fun _ => (0, None)).

(** The label [_end]: fix the parameter to the end chosen and return it. *)
Definition near_end (last : bool) (p : snd_pcm_hw_params) (var : Z) (dir : option Z) : answer :=
  '(v, dir, p) ← (if last then snd_pcm_hw_param_last else snd_pcm_hw_param_first) p var dir;
  Some (if v <? 0 then -EINVAL else v, dir, p).

Definition snd_pcm_hw_param_near (p : snd_pcm_hw_params) (var best : Z) (dir : option Z)
    : answer :=
  let valdir := default 0 dir in
  let best := if INT_MAX <? best then INT_MAX else best in
  let '(max, maxdir) :=
    if 0 <? valdir then (best, 0) else if valdir =? 0 then (best, -1) else (best - 1, 1) in
  let save := p in
  '(min, mindir, p) ← snd_pcm_hw_param_min p var best (Some valdir);
  let mindir := default 0 mindir in
  if 0 <=? min then
    if max <? 0 then near_end false p var dir
    else if (min =? best) && (mindir =? valdir) then near_end false p var dir
    else
      '(max, maxdir, p1) ← snd_pcm_hw_param_max save var (u32 max) (Some maxdir);
      if max <? 0 then near_end false p var dir
      else if truth (boundary_nearer max (default 0 maxdir) best valdir min mindir)
      then near_end true p1 var dir
      else near_end false p var dir
  else
    '(max, _, p) ← snd_pcm_hw_param_max save var (u32 max) (Some maxdir);
    if max <? 0 then Some (-EINVAL, dir, p) else near_end true p var dir.

(** Fix one parameter after another; OS/2 leaves the period time alone. *)
Definition fix_param (f : snd_pcm_hw_params -> Z -> option Z -> answer) (var : Z)
    (p : snd_pcm_hw_params) : option (Z * snd_pcm_hw_params) :=
  '(err, _, p) ← f p var None;
  Some (if err <? 0 then -EINVAL else 0, p).

Fixpoint fix_params (l : list ((snd_pcm_hw_params -> Z -> option Z -> answer) * Z))
    (p : snd_pcm_hw_params) : option (Z * snd_pcm_hw_params) :=
  match l with
  | [] => Some (0, p)
  | (f, var) :: l =>
      '(err, p) ← fix_param f var p;
      if err <? 0 then Some (err, p) else fix_params l p
  end.

Definition snd_pcm_hw_params_choose (p : snd_pcm_hw_params) : option (Z * snd_pcm_hw_params) :=
  fix_params
    [ (snd_pcm_hw_param_first, HW_ACCESS); (snd_pcm_hw_param_first, HW_FORMAT);
      (snd_pcm_hw_param_first, HW_SUBFORMAT); (snd_pcm_hw_param_first, HW_CHANNELS);
      (snd_pcm_hw_param_first, HW_RATE); (snd_pcm_hw_param_last, HW_BUFFER_SIZE);
      (snd_pcm_hw_param_first, HW_TICK_TIME) ] p.
End Choose.

(** Fixing the parameters ends when refinement does. *)
Lemma params_choose_total refine p :
  (forall p, is_Some (refine p)) -> is_Some (snd_pcm_hw_params_choose refine p).
Proof.
  intros Hr.
  assert (Hreq : forall bad req dir value, is_Some (refine_then refine bad req dir value)).
  { intros bad [changed q] dir value. unfold refine_then. destruct (changed <? 0); [eauto |].
    destruct (truth _); [| eauto]. destruct (Hr q) as [[err q'] ->]. simpl. destruct (err <? 0); eauto. }
  assert (Hfix : forall f var q, (forall q var dir, is_Some (f q var dir)) -> is_Some (fix_param f var q)).
  { intros f var q Hf. unfold fix_param. destruct (Hf q var None) as [[[err d] q'] ->]. simpl. eauto. }
  unfold snd_pcm_hw_params_choose. set (l := _ :: _).
  assert (Hl : Forall (fun fv => forall q var dir, is_Some (fv.1 q var dir)) l)
    by (repeat constructor; simpl; intros; apply Hreq).
  clearbody l. revert p. induction Hl as [| [f var] l Hf Hl IH]; intros p; simpl; [eauto |].
  destruct (Hfix f var p Hf) as [[err q] ->]. simpl. destruct (err <? 0); eauto.
Qed.

(** A space for the examples. *)
Definition wide_pcm : snd_pcm_hw_params :=
  HwParams 0 (replicate 4 snd_mask_any) (replicate 12 (Itv 1 UINT_MAX false false false false))
    0 0 0 0 0 0 0.

(** ** A request is an intersection *)

(** The outcome of a request that asks [P] of the parameter [var]. *)
Definition intersects (p : snd_pcm_hw_params) (var : Z) (P : Q -> Prop)
    (res : Z * snd_pcm_hw_params) : Prop :=
  (res.1 = -EINVAL /\ (forall s, sat p s -> ~ P (sol_val s var))) \/
  (0 <= res.1 /\ hp_wf res.2 /\ (forall s, sat res.2 s <-> sat p s /\ P (sol_val s var)) /\
   (res.1 <> 0 -> hp_rmask res.2 = Z.lor (hp_rmask p) (bit var))).

Lemma sat_put_interval p var i s :
  hp_wf p -> hw_is_interval var = true ->
  sat (put_interval p var i) s <->
  (forall k, hw_is_mask k = true ->
     0 <= sol_bit s k < 32 /\ Z.testbit (hw_param_mask p k) (sol_bit s k) = true) /\
  itv_mem i (sol_val s var) /\
  (forall k, hw_is_interval k = true -> k <> var -> itv_mem (hw_param_interval p k) (sol_val s k)).
Proof.
  intros W Hv. split.
  - intros [M I]. split; [exact M |]. split.
    + pose proof (I var Hv) as H. rewrite get_put_interval, Z.eqb_refl in H by done. done.
    + intros k Hk Hne. pose proof (I k Hk) as H. rewrite get_put_interval in H by done.
      destruct (Z.eqb_spec var k); congruence.
  - intros (M & Iv & I). split; [exact M |]. intros k Hk. rewrite get_put_interval by done.
    destruct (Z.eqb_spec var k) as [<- |]; auto.
Qed.

Lemma sat_same p p' s : same_space p p' -> sat p s <-> sat p' s.
Proof. destruct p, p'. intros [E E']. simpl in *. by subst. Qed.

Lemma request_intersects p var f P :
  hp_wf p -> hw_is_interval var = true ->
  refines P (hw_param_interval p var) (f (hw_param_interval p var)) ->
  intersects p var P (noted var (on_interval p var f)).
Proof.
  intros W Hv [C F O _ _ _]. unfold intersects, noted, on_interval.
  destruct (f (hw_param_interval p var)) as [r i]. simpl in *.
  destruct C as [-> | Hr].
  - left. split; [done |]. intros s [_ I] HP. destruct (F eq_refl) as [_ Hn]. by apply (Hn _ (I var Hv)).
  - right. assert (Hr0 : 0 <= r) by lia. destruct (O Hr0) as (Wi & _ & Hi). split; [done |].
    assert (same_space (put_interval p var i)
              (if truth r then mark_requested (put_interval p var i) var else put_interval p var i))
      as Hsame by by destruct (truth r).
    split; [| split].
    + pose proof (put_interval_wf p var i W Wi) as W'. destruct (truth r); [| done].
      by destruct W'.
    + intros s. rewrite <- (sat_same _ _ s Hsame), sat_put_interval by done. rewrite Hi. unfold sat.
      split; [| intros [[M I] HP]; auto].
      intros (M & [Iv HP] & I). split; [| done]. split; [exact M |].
      intros k Hk. destruct (Z.eq_dec k var) as [-> |]; auto.
    + intros Hnz. unfold truth. by destruct (Z.eqb_spec r 0).
Qed.

Lemma refines_impl P P' i res : (forall x, P x <-> P' x) -> refines P i res -> refines P' i res.
Proof.
  intros H [C F O N S K]. split; auto.
  - intros E. destruct (F E) as [He Hn]. split; [done |]. intros x Hx HP. by apply (Hn x Hx), H.
  - intros Hr. destruct (O Hr) as (W & Ex & M). split; [done |]. split; [done |].
    intros x. rewrite M. by rewrite H.
  - intros E x Hx. apply H. auto.
Qed.

(** A request for an interval parameter cuts the configuration space down to the
    configurations that satisfy it, and to nothing else: for a lower bound, an upper
    bound and a value, at, above or below [val].  It fails only when none is left,
    and it marks the parameter for refinement when anything was cut off. *)
Theorem hw_param_requests_intersect p var val :
  hp_wf p -> hw_is_interval var = true -> i_empty (hw_param_interval p var) = false ->
  is_u32 val ->
  intersects p var (above val false) (_snd_pcm_hw_param_min p var val 0) /\
  (val < UINT_MAX -> intersects p var (above val true) (_snd_pcm_hw_param_min p var val 1)) /\
  (0 < val -> intersects p var (above (val - 1) true) (_snd_pcm_hw_param_min p var val (-1))) /\
  intersects p var (below val false) (_snd_pcm_hw_param_max p var val 0) /\
  (val < UINT_MAX -> intersects p var (below (val + 1) true) (_snd_pcm_hw_param_max p var val 1)) /\
  (0 < val -> intersects p var (below val true) (_snd_pcm_hw_param_max p var val (-1))) /\
  intersects p var (fun x => x == inject_Z val)%Q (_snd_pcm_hw_param_set p var val 0) /\
  (val < UINT_MAX -> intersects p var (fun x => above val true x /\ below (val + 1) true x)
                       (_snd_pcm_hw_param_set p var val 1)).
Proof.
  intros W Hv Hne Hval. assert (Hm : hw_is_mask var = false).
  { apply hw_is_interval_range in Hv. apply not_true_iff_false. rewrite hw_is_mask_range. lia. }
  pose proof (interval_wf p var W Hv) as Wi.
  unfold _snd_pcm_hw_param_min, _snd_pcm_hw_param_max, _snd_pcm_hw_param_set, min_bound, max_bound.
  rewrite Hm, Hv. simpl. unfold UINT_MAX. split_and!; intros.
  - apply request_intersects; [done | done |]. by apply refine_min_refines.
  - apply request_intersects; [done | done |]. by apply refine_min_refines.
  - destruct (Z.ltb_spec 0 val); [| lia]. simpl.
    apply request_intersects; [done | done |]. apply refine_min_refines; word_lia || done.
  - apply request_intersects; [done | done |]. by apply refine_max_refines.
  - rewrite u32_small by word_lia.
    apply request_intersects; [done | done |]. apply refine_max_refines; word_lia || done.
  - apply request_intersects; [done | done |]. by apply refine_max_refines.
  - rewrite andb_false_r. apply request_intersects; [done | done |].
    eapply refines_impl; [| apply refine_refines; [done | done | by split_and!]].
    intros x. unfold bounds_of, above, below, is_integer, Qeq; simpl. split.
    + intros (? & ? & _). lia.
    + intros E. split_and!; try lia. intros _. exists val. lia.
  - rewrite andb_false_r. rewrite u32_small by word_lia.
    apply request_intersects; [done | done |].
    eapply refines_impl; [| apply refine_refines; [done | done | split_and!; simpl; word_lia]].
    intros x. unfold bounds_of; simpl. split; [tauto |]. intros []. by split_and!.
Qed.

Lemma hw_param_requests_intersect_witness :
  intersects wide_pcm HW_RATE (above 44100 false) (_snd_pcm_hw_param_min wide_pcm HW_RATE 44100 0).
Proof.
  assert (W : hp_wf wide_pcm).
  { split; try reflexivity.
    - repeat constructor; vm_compute; discriminate.
    - repeat (apply Forall_cons_2; [by apply itv_wfb_true |]). apply Forall_nil_2. }
  apply (hw_param_requests_intersect wide_pcm HW_RATE 44100 W); [reflexivity | reflexivity | word_lia].
Defined.

(** An upper bound "below zero" is not caught for intervals, as it is for masks: the
    closed bound wraps around and the interval is widened. *)
Theorem hw_param_max_below_zero_widens :
  let p := put_interval wide_pcm HW_CHANNELS (Itv 1 8 false false true false) in
  let '(r, p') := _snd_pcm_hw_param_max p HW_CHANNELS 0 (-1) in
  r = 1 /\ hw_param_interval p' HW_CHANNELS = Itv 1 UINT_MAX false false true false.
Proof. vm_compute. by split. Qed.

(** ** The nearest value *)

Section Near.
(** A substream without constraints: refinement only clears the request mask. *)
Definition free_refine (p : snd_pcm_hw_params) : option (Z * snd_pcm_hw_params) :=
  Some (0, p <| hp_rmask := 0 |>).

Context (var : Z) (Hv : hw_is_interval var = true).

Definition closed (lo hi : Z) : snd_interval := Itv lo hi false false true false.

Lemma not_mask : hw_is_mask var = false.
Proof.
  pose proof Hv as H. apply hw_is_interval_range in H. apply not_true_iff_false.
  rewrite hw_is_mask_range. lia.
Qed.

(** The outcome of a request [f] that narrows the interval to [i]. *)
Lemma free_request bad p f r i dir value :
  hp_wf p -> f (hw_param_interval p var) = (r, i) -> 0 <= r -> itv_wf i ->
  exists p', refine_then free_refine bad (noted var (on_interval p var f)) dir value
               = Some (value p', p') /\
    hp_wf p' /\ hw_param_interval p' var = i.
Proof.
  intros W E Hr Wi. unfold on_interval. rewrite E. unfold noted, refine_then.
  destruct (Z.ltb_spec r 0); [lia |].
  set (q := if truth r then mark_requested (put_interval p var i) var else put_interval p var i).
  assert (Wq : hp_wf q /\ hw_param_interval q var = i).
  { pose proof (put_interval_wf p var i W Wi) as W'.
    pose proof (get_put_interval p var i var W Hv Hv) as G. rewrite Z.eqb_refl in G.
    subst q. destruct (truth r); [| done]. split; [by destruct W' | exact G]. }
  destruct Wq as [Wq G]. destruct (truth (hp_rmask q)); [| by exists q].
  exists (q <| hp_rmask := 0 |>). split; [done |]. split; [by destruct Wq | exact G].
Qed.

Lemma free_request_fails bad p f i dir value :
  f (hw_param_interval p var) = (-EINVAL, i) ->
  exists p', refine_then free_refine bad (noted var (on_interval p var f)) dir value
               = Some (-EINVAL, dir, p').
Proof. intros E. unfold on_interval. rewrite E. by eexists. Qed.

Lemma closed_wf lo hi : 0 <= lo <= hi -> hi <= INT_MAX -> itv_wf (closed lo hi).
Proof. intros. split_and!; simpl; word_lia || done. Qed.

Lemma closed_value p dir v :
  hw_param_interval p var = closed v v -> 0 <= v <= INT_MAX ->
  snd_pcm_hw_param_value p var dir = (v, store_dir dir 0).
Proof.
  intros E Hb. unfold snd_pcm_hw_param_value. rewrite not_mask, Hv, E.
  unfold snd_interval_single, snd_interval_value; simpl. rewrite Z.eqb_refl. simpl.
  by rewrite s32_small by word_lia.
Qed.

Lemma near_end_closed last p lo hi dir :
  hp_wf p -> hw_param_interval p var = closed lo hi -> 0 <= lo <= hi -> hi <= INT_MAX ->
  exists p', near_end free_refine last p var dir
               = Some (if last then hi else lo, store_dir dir 0, p') /\
    hp_wf p' /\ hw_param_interval p' var = closed (if last then hi else lo) (if last then hi else lo).
Proof.
  intros W E Hlo Hhi. set (v := if last then hi else lo).
  assert (Hstep : exists p', (if last then snd_pcm_hw_param_last free_refine
                              else snd_pcm_hw_param_first free_refine) p var dir
                = Some (v, store_dir dir 0, p') /\ hp_wf p' /\ hw_param_interval p' var = closed v v).
  { assert (Hf : (if last then snd_interval_refine_last else snd_interval_refine_first) (closed lo hi)
                 = ((if lo =? hi then 0 else 1), closed v v)).
    { subst v. destruct last; unfold snd_interval_refine_last, snd_interval_refine_first,
        snd_interval_single, closed; simpl; rewrite andb_false_r, orb_false_r;
        destruct (Z.eqb_spec lo hi) as [-> |]; done. }
    rewrite <- E in Hf.
    assert (Hvb : 0 <= v <= INT_MAX) by (subst v; destruct last; lia).
    destruct (free_request (fun _ => -EINVAL) p _ _ _ dir
                (fun p => snd_pcm_hw_param_value p var dir) W Hf) as (p' & Er & W' & G).
    { destruct (lo =? hi); lia. }
    { apply closed_wf; lia. }
    exists p'. split; [| done]. rewrite (closed_value _ _ _ G Hvb) in Er. rewrite <- Er.
    destruct last; unfold snd_pcm_hw_param_last, snd_pcm_hw_param_first,
      _snd_pcm_hw_param_last, _snd_pcm_hw_param_first; by rewrite not_mask, Hv. }
  destruct Hstep as (p' & Es & W' & G). exists p'. unfold near_end.
  assert (0 <= v) by (subst v; destruct last; lia).
  destruct last; rewrite Es; simpl; (destruct (Z.ltb_spec v 0); [lia | done]).
Qed.

(** The two requests [near] makes around [best]. *)
Lemma ask_min p lo hi best :
  hp_wf p -> hw_param_interval p var = closed lo hi -> 0 <= lo <= hi -> hi <= INT_MAX ->
  0 <= best <= INT_MAX ->
  if best <=? hi then
    exists p', snd_pcm_hw_param_min free_refine p var best (Some 0)
                 = Some (Z.max lo best, Some 0, p') /\
      hp_wf p' /\ hw_param_interval p' var = closed (Z.max lo best) hi
  else exists d p', snd_pcm_hw_param_min free_refine p var best (Some 0) = Some (-EINVAL, d, p').
Proof.
  intros W E Hlo Hhi Hb. unfold snd_pcm_hw_param_min, _snd_pcm_hw_param_min. simpl.
  rewrite not_mask, Hv.
  assert (Hf : snd_interval_refine_min (closed lo hi) best false =
               if best <=? hi then (b2z (lo <? best), closed (Z.max lo best) hi)
               else (-EINVAL, snd_interval_none (closed best hi))).
  { unfold snd_interval_refine_min, raise_min, refine_result, snd_interval_checkempty, close_min,
      closed; simpl.
    destruct (Z.ltb_spec lo best); simpl.
    - rewrite Z.max_r by lia. rewrite andb_false_r, orb_false_r.
      destruct (Z.ltb_spec hi best), (Z.leb_spec best hi); try lia; done.
    - rewrite andb_false_r. simpl. rewrite andb_false_r, orb_false_r, Z.max_l by lia.
      destruct (Z.leb_spec best hi); [| lia]. destruct (Z.ltb_spec hi lo); [lia | done]. }
  rewrite <- E in Hf. destruct (Z.leb_spec best hi).
  - destruct (free_request id p (fun i => snd_interval_refine_min i best false) _ _ (Some 0) (fun p => snd_pcm_hw_param_value_min p var (Some 0))
                W Hf) as (p' & Er & W' & G).
    { apply b2z_range. }
    { apply closed_wf; lia. }
    exists p'. split; [| done]. rewrite Er. unfold snd_pcm_hw_param_value_min.
    rewrite not_mask, Hv, G. unfold snd_interval_lowest; simpl. by rewrite s32_small by word_lia.
  - destruct (free_request_fails id p (fun i => snd_interval_refine_min i best false) _ (Some 0)
                (fun p => snd_pcm_hw_param_value_min p var (Some 0)) Hf) as (p' & Er).
    exists (Some 0), p'. exact Er.
Qed.

(** Below [best]: nothing, or an interval whose upper end reads as negative, when the
    bound is out of range on the left; the upper end [hi] itself when it is out of range on the
    right. *)
Lemma ask_max p lo hi best :
  hp_wf p -> hw_param_interval p var = closed lo hi -> 0 <= lo <= hi -> hi <= INT_MAX ->
  0 <= best <= INT_MAX ->
  (best < lo -> exists v d p', v < 0 /\
     snd_pcm_hw_param_max free_refine p var best (Some (-1)) = Some (v, d, p')) /\
  (hi < best -> exists p',
     snd_pcm_hw_param_max free_refine p var best (Some (-1)) = Some (hi, Some 0, p') /\
     hp_wf p' /\ hw_param_interval p' var = closed lo hi).
Proof.
  intros W E Hlo Hhi Hb. unfold snd_pcm_hw_param_max, _snd_pcm_hw_param_max. simpl.
  rewrite not_mask, Hv. set (f := fun i => snd_interval_refine_max i best true).
  set (value := fun p => snd_pcm_hw_param_value_max p var (Some (-1))).
  split; intros Hout.
  - destruct (Z.eq_dec best 0) as [-> | Hnz].
    + assert (Hf : f (closed lo hi) = (1, closed lo UINT_MAX)).
      { unfold f, snd_interval_refine_max, lower_max, closed, refine_result, snd_interval_checkempty,
          close_max; simpl.
        destruct (Z.ltb_spec 0 hi); [| lia]. simpl. change (u32 (0 - 1)) with UINT_MAX.
        rewrite andb_false_r, orb_false_r. unfold UINT_MAX.
        destruct (Z.ltb_spec 4294967295 lo); [unfold INT_MAX in *; lia | done]. }
      rewrite <- E in Hf. destruct (free_request id p f _ _ (Some (-1)) value W Hf) as (p' & Er & W' & G).
      { lia. }
      { split_and!; simpl; try done; word_lia. }
      exists (-1), (Some 0), p'. split; [lia |]. rewrite Er. unfold value, snd_pcm_hw_param_value_max.
      rewrite not_mask, Hv, G. done.
    + assert (Hf : f (closed lo hi) = (-EINVAL, snd_interval_none (closed lo (best - 1)))).
      { unfold f, snd_interval_refine_max, lower_max, closed, refine_result, snd_interval_checkempty,
          close_max; simpl.
        destruct (Z.ltb_spec best hi); [| lia]. simpl. rewrite u32_small by word_lia.
        destruct (Z.ltb_spec (best - 1) lo); [done | lia]. }
      rewrite <- E in Hf. destruct (free_request_fails id p f _ (Some (-1)) value Hf) as (p' & Er).
      exists (-EINVAL), (Some (-1)), p'. split; [done | exact Er].
  - assert (Hf : f (closed lo hi) = (0, closed lo hi)).
    { unfold f, snd_interval_refine_max, lower_max, closed, refine_result, snd_interval_checkempty,
        close_max; simpl.
      destruct (Z.ltb_spec best hi); [lia |]. destruct (Z.eqb_spec hi best); [lia |]. simpl.
      rewrite andb_false_r, orb_false_r. destruct (Z.ltb_spec hi lo); [lia | done]. }
    rewrite <- E in Hf. destruct (free_request id p f _ _ (Some (-1)) value W Hf) as (p' & Er & W' & G).
    { lia. }
    { by apply interval_wf. }
    exists p'. split; [| by rewrite G, E]. rewrite Er. unfold value, snd_pcm_hw_param_value_max.
    rewrite not_mask, Hv, G, E. unfold snd_interval_highest; simpl. by rewrite s32_small by word_lia.
Qed.

(** Where no constraint interferes, [snd_pcm_hw_param_near] fixes the parameter to
    the value of the interval nearest to [best]: [best] clamped to it. *)
Theorem hw_param_near_clamps p lo hi best :
  hp_wf p -> hw_param_interval p var = closed lo hi -> 0 <= lo <= hi -> hi <= INT_MAX ->
  is_u32 best ->
  let v := Z.max lo (Z.min best hi) in
  exists p', snd_pcm_hw_param_near free_refine p var best None = Some (v, None, p') /\
    hw_param_interval p' var = closed v v.
Proof.
  intros W E Hlo Hhi Hb. cbv zeta. unfold snd_pcm_hw_param_near. simpl default.
  set (b := if INT_MAX <? best then INT_MAX else best).
  assert (Hbb : 0 <= b <= INT_MAX /\ Z.max lo (Z.min b hi) = Z.max lo (Z.min best hi)).
  { subst b. unfold is_u32 in Hb. destruct (Z.ltb_spec INT_MAX best); lia. }
  destruct Hbb as [Hbb <-]. clearbody b. simpl.
  pose proof (ask_min p lo hi b W E Hlo Hhi Hbb) as Hmin.
  destruct (ask_max p lo hi b W E Hlo Hhi Hbb) as [Hbelow Habove].
  assert (Hu : u32 b = b) by (apply u32_small; word_lia). rewrite Hu.
  destruct (Z.leb_spec b hi) as [Hle | Hgt].
  - destruct Hmin as (p1 & -> & W1 & G1). rewrite Z.min_l by lia. simpl.
    assert (Hend : exists p', near_end free_refine false p1 var None = Some (Z.max lo b, None, p') /\
              hw_param_interval p' var = closed (Z.max lo b) (Z.max lo b)).
    { destruct (near_end_closed false p1 _ _ None W1 G1) as (p' & Ee & _ & G'); [lia.. |].
      by exists p'. }
    destruct (Z.leb_spec 0 (Z.max lo b)); [| lia]. destruct (Z.ltb_spec b 0); [lia |].
    destruct (Z.eqb_spec (Z.max lo b) b); simpl; [exact Hend |].
    destruct (Hbelow ltac:(lia)) as (v & d & p2 & Hneg & ->). simpl.
    destruct (Z.ltb_spec v 0); [exact Hend | lia].
  - destruct Hmin as (d & p1 & ->). simpl.
    destruct (Habove Hgt) as (p2 & -> & W2 & G2). simpl.
    destruct (Z.ltb_spec hi 0); [lia |]. rewrite Z.min_r, Z.max_r by lia.
    destruct (near_end_closed true p2 _ _ None W2 G2) as (p' & Ee & _ & G'); [lia.. |].
    by exists p'.
Qed.
End Near.

Lemma hw_param_near_clamps_witness :
  exists p', snd_pcm_hw_param_near free_refine
      (put_interval wide_pcm HW_RATE (closed 8000 48000)) HW_RATE 96000 None = Some (48000, None, p').
Proof.
  assert (W : hp_wf (put_interval wide_pcm HW_RATE (closed 8000 48000))).
  { apply put_interval_wf; [split; try reflexivity | by apply itv_wfb_true].
    - repeat constructor; vm_compute; discriminate.
    - repeat (apply Forall_cons_2; [by apply itv_wfb_true |]). apply Forall_nil_2. }
  destruct (hw_param_near_clamps HW_RATE eq_refl _ 8000 48000 96000 W eq_refl) as (p' & E & _);
    [lia | word_lia | word_lia |].
  by exists p'.
Defined.
