(* ===== verification/HwInit.v ===== *)
(** * HwInit: the constraints every substream starts with

    The constraint constructors of alsa/core/pcm_lib.c, and
    [snd_pcm_hw_constraints_init] and [snd_pcm_hw_constraints_complete] of
    alsa/core/pcm_native.c; what the refinement does with the table they build. *)

From Stdlib Require Import QArith Sorted.
From S2P Require Import Prelude Div64 Interval IntervalSets Mask PcmFormat HwParams HwRefine HwChoose.
Open Scope Z_scope.

(** ** Constraint constructors *)

Definition constraint_op : Type := snd_pcm_hw_constraints -> Z * snd_pcm_hw_constraints.

Section Constructors.
(** Whether an allocation of a rule table of the given size succeeds. *)
Variable alloc : Z -> bool.

Definition snd_pcm_hw_constraint_list (cond var : Z) (l : list Z) (mask : Z) : constraint_op :=
  snd_pcm_hw_rule_add alloc cond var (snd_pcm_hw_rule_list l mask) [var].

Definition snd_pcm_hw_constraint_ratnums (cond var : Z) (r : list ratnum) : constraint_op :=
  snd_pcm_hw_rule_add alloc cond var (snd_pcm_hw_rule_ratnums r) [var].

Definition snd_pcm_hw_constraint_ratdens (cond var : Z) (r : list ratden) : constraint_op :=
  snd_pcm_hw_rule_add alloc cond var (snd_pcm_hw_rule_ratdens r) [var].

Definition snd_pcm_hw_constraint_msbits (cond width msbits : Z) : constraint_op :=
  snd_pcm_hw_rule_add alloc cond (-1)
    (snd_pcm_hw_rule_msbits (Z.lor (u32 (Z.shiftl msbits 16)) width)) [HW_SAMPLE_BITS].

Definition snd_pcm_hw_constraint_step (cond var step : Z) : constraint_op :=
  snd_pcm_hw_rule_add alloc cond var (snd_pcm_hw_rule_step step) [var].
End Constructors.

(** [if (err < 0) return err;] between calls. *)
Fixpoint run_ops (ops : list constraint_op) (c : snd_pcm_hw_constraints)
    : Z * snd_pcm_hw_constraints :=
  match ops with
  | [] => (0, c)
  | f :: ops =>
      let '(err, c) := f c in
      if err <? 0 then (err, c) else run_ops ops c
  end.

(** [snd_assert(err >= 0, return -EINVAL)] after the call; and a call whose result
    is dropped. *)
Definition checked (f : constraint_op) : constraint_op := fun c =>
  let '(err, c) := f c in if err <? 0 then (-EINVAL, c) else (0, c).

Definition ignored (f : constraint_op) : constraint_op := fun c => (0, (f c).2).

(** ** The rule table *)

Definition any_constraints (c : snd_pcm_hw_constraints) : snd_pcm_hw_constraints :=
  c <| c_masks := replicate 4 snd_mask_any |> <| c_intervals := replicate 12 snd_interval_any |>.

Definition init_integers : list Z :=
  [HW_CHANNELS; HW_BUFFER_SIZE; HW_BUFFER_BYTES; HW_SAMPLE_BITS; HW_FRAME_BITS].

Section Init.
Variables (alloc : Z -> bool) (junk : snd_interval).

Definition init_rules : list (Z * hw_rule_func * list Z) :=
  [ (HW_FORMAT, snd_pcm_hw_rule_format, [HW_SAMPLE_BITS]);
    (HW_SAMPLE_BITS, snd_pcm_hw_rule_sample_bits, [HW_FORMAT; HW_SAMPLE_BITS]);
    (HW_SAMPLE_BITS, snd_pcm_hw_rule_div junk, [HW_FRAME_BITS; HW_CHANNELS]);
    (HW_FRAME_BITS, snd_pcm_hw_rule_mul junk, [HW_SAMPLE_BITS; HW_CHANNELS]);
    (HW_FRAME_BITS, snd_pcm_hw_rule_mulkdiv junk 8, [HW_PERIOD_BYTES; HW_PERIOD_SIZE]);
    (HW_FRAME_BITS, snd_pcm_hw_rule_mulkdiv junk 8, [HW_BUFFER_BYTES; HW_BUFFER_SIZE]);
    (HW_CHANNELS, snd_pcm_hw_rule_div junk, [HW_FRAME_BITS; HW_SAMPLE_BITS]);
    (HW_PERIODS, snd_pcm_hw_rule_div junk, [HW_BUFFER_SIZE; HW_PERIOD_SIZE]);
    (HW_PERIOD_SIZE, snd_pcm_hw_rule_div junk, [HW_BUFFER_SIZE; HW_PERIODS]);
    (HW_PERIOD_SIZE, snd_pcm_hw_rule_mulkdiv junk 8, [HW_PERIOD_BYTES; HW_FRAME_BITS]);
    (HW_BUFFER_SIZE, snd_pcm_hw_rule_mul junk, [HW_PERIOD_SIZE; HW_PERIODS]);
    (HW_BUFFER_SIZE, snd_pcm_hw_rule_mulkdiv junk 8, [HW_BUFFER_BYTES; HW_FRAME_BITS]);
    (HW_PERIOD_BYTES, snd_pcm_hw_rule_muldivk junk 8, [HW_PERIOD_SIZE; HW_FRAME_BITS]);
    (HW_BUFFER_BYTES, snd_pcm_hw_rule_muldivk junk 8, [HW_BUFFER_SIZE; HW_FRAME_BITS]) ].

Definition add_rule (r : Z * hw_rule_func * list Z) : constraint_op :=
  let '(var, f, deps) := r in snd_pcm_hw_rule_add alloc 0 var f deps.

Definition snd_pcm_hw_constraints_init : constraint_op := fun c =>
  let c := any_constraints c in
  let c := fold_left (fun c var => (snd_pcm_hw_constraint_integer c var).2) init_integers c in
  run_ops (map add_rule init_rules) c.

(** ** The hardware's limits *)

Definition INFO_MMAP : Z := 0x1.
Definition INFO_INTERLEAVED : Z := 0x100.
Definition INFO_NONINTERLEAVED : Z := 0x200.
Definition INFO_COMPLEX : Z := 0x400.
Definition ACCESS_MMAP_INTERLEAVED : Z := 0.
Definition ACCESS_MMAP_NONINTERLEAVED : Z := 1.
Definition ACCESS_MMAP_COMPLEX : Z := 2.
Definition ACCESS_RW_INTERLEAVED : Z := 3.
Definition ACCESS_RW_NONINTERLEAVED : Z := 4.
Definition SUBFORMAT_STD : Z := 0.
Definition RATE_CONTINUOUS : Z := 0x40000000.
Definition RATE_KNOT : Z := 0x80000000.
Definition HZ : Z := 100.

Definition has (info flag : Z) : bool := truth (Z.land info flag).
Definition add_bit (b : bool) (k mask : Z) : Z := if b then Z.lor mask (shl32 1 k) else mask.

Definition access_mask (info : Z) : Z :=
  let mask := add_bit (has info INFO_INTERLEAVED) ACCESS_RW_INTERLEAVED 0 in
  let mask := add_bit (has info INFO_NONINTERLEAVED) ACCESS_RW_NONINTERLEAVED mask in
  if has info INFO_MMAP then
    let mask := add_bit (has info INFO_INTERLEAVED) ACCESS_MMAP_INTERLEAVED mask in
    let mask := add_bit (has info INFO_NONINTERLEAVED) ACCESS_MMAP_NONINTERLEAVED mask in
    add_bit (has info INFO_COMPLEX) ACCESS_MMAP_COMPLEX mask
  else mask.

Definition mask_op (var mask : Z) : constraint_op := fun c =>
  snd_pcm_hw_constraint_mask c var mask.
Definition minmax_op (var min max : Z) : constraint_op := fun c =>
  snd_pcm_hw_constraint_minmax c var min max.
Definition integer_op (var : Z) : constraint_op := fun c => snd_pcm_hw_constraint_integer c var.

(** [buffer_bytes_max] is a field of the substream, [dma_bytes] of the runtime. *)
Definition complete_ops (hw : hw_description) (buffer_bytes_max dma_bytes : Z)
    : list constraint_op :=
  [ checked (mask_op HW_ACCESS (access_mask (hw_info hw)));
    checked (mask_op HW_FORMAT (hw_formats hw));
    checked (mask_op HW_SUBFORMAT (shl32 1 SUBFORMAT_STD));
    checked (mask_op HW_RATE_MASK (hw_rates hw));
    checked (minmax_op HW_CHANNELS (hw_channels_min hw) (hw_channels_max hw));
    checked (minmax_op HW_RATE (hw_rate_min hw) (hw_rate_max hw));
    checked (minmax_op HW_PERIOD_BYTES (hw_period_bytes_min hw) (hw_period_bytes_max hw));
    checked (minmax_op HW_PERIODS (hw_periods_min hw) (hw_periods_max hw));
    checked (minmax_op HW_BUFFER_BYTES (hw_period_bytes_min hw) (hw_buffer_bytes_max hw));
    snd_pcm_hw_rule_add alloc 0 HW_BUFFER_BYTES
      (snd_pcm_hw_rule_buffer_bytes_max buffer_bytes_max) [HW_BUFFER_BYTES] ]
  ++ (if truth dma_bytes then [checked (minmax_op HW_BUFFER_BYTES 0 dma_bytes)] else [])
  ++ (if negb (truth (Z.land (hw_rates hw) (Z.lor RATE_KNOT RATE_CONTINUOUS)))
      then [snd_pcm_hw_rule_add alloc 0 HW_RATE (snd_pcm_hw_rule_rate (hw_rates hw)) [HW_RATE]]
      else [])
  ++ [ ignored (minmax_op HW_TICK_TIME (1000000 / HZ) (1000000 / HZ));
       ignored (integer_op HW_PERIOD_SIZE) ].

Definition snd_pcm_hw_constraints_complete (hw : hw_description) (buffer_bytes_max dma_bytes : Z)
    : constraint_op := run_ops (complete_ops hw buffer_bytes_max dma_bytes).
End Init.

(** A substream is opened with an empty table. *)
Definition empty_constraints : snd_pcm_hw_constraints := HwConstraints [] [] 0 0 [].

(** ** Building the table keeps a solution *)

(** A table of [n] rules that allows the solution [s] and whose rules make progress on
    it from [p0]. *)
Record table (p0 : snd_pcm_hw_params) (s : solution) (n : Z) (c : snd_pcm_hw_constraints)
    : Prop := {
  tb_masks_len : length (c_masks c) = 4%nat;
  tb_intervals_len : length (c_intervals c) = 12%nat;
  tb_allows : allows c s;
  tb_rules : Forall (RuleProgress p0 s) (c_rules c);
  tb_num : c_rules_num c = n;
  tb_all : (c_rules_all c = 0 /\ n = 0) \/ c_rules_all c = 32 }.

(** A constructor that succeeds on such a table and adds [d] rules. *)
Definition accepts (p0 : snd_pcm_hw_params) (s : solution) (d : Z) (f : constraint_op) : Prop :=
  forall n c, 0 <= n -> n + d <= 32 -> table p0 s n c ->
  0 <= (f c).1 /\ table p0 s (n + d) (f c).2.

Section Accepts.
Context (p0 : snd_pcm_hw_params) (s : solution) (alloc : Z -> bool).
Hypothesis Halloc : alloc 32 = true.

Lemma put_constrs_interval_table n c var i :
  table p0 s n c -> hw_is_interval var = true -> itv_wf i -> itv_mem i (sol_val s var) ->
  table p0 s n (put_constrs_interval c var i).
Proof.
  intros [Lm Li [Am Ai] R N Al] Hv W M. split; simpl; auto; [by rewrite length_insert |].
  split; [exact Am |]. intros k Hk. unfold constrs_interval, put_constrs_interval; simpl.
  apply hw_is_interval_range in Hv as Hv'. apply hw_is_interval_range in Hk as Hk'.
  rewrite slot_insert by (rewrite ?Li; change HW_FIRST_INTERVAL with 4; lia).
  destruct (Z.eqb_spec var k) as [<- |]; [done | by apply Ai].
Qed.

Lemma mask_accepts var mask :
  hw_is_mask var = true -> Z.testbit mask (sol_bit s var) = true ->
  accepts p0 s 0 (mask_op var mask).
Proof.
  intros Hv Hb n c Hn Hd [Lm Li [Am Ai] R N Al]. unfold mask_op, snd_pcm_hw_constraint_mask.
  assert (Ht : Z.testbit (Z.land (constrs_mask c var) mask) (sol_bit s var) = true)
    by (rewrite Z.land_spec, Am, Hb; done).
  destruct (Z.eqb_spec (Z.land (constrs_mask c var) mask) 0) as [E | _];
    [by rewrite E, Z.bits_0 in Ht |].
  rewrite Z.add_0_r. split; simpl; [done |]. split; simpl; auto; [by rewrite length_insert |].
  split; [| exact Ai]. intros k Hk. unfold constrs_mask, put_constrs_mask; simpl.
  apply hw_is_mask_range in Hv as Hv'. apply hw_is_mask_range in Hk as Hk'.
  rewrite slot_insert by (rewrite ?Lm; change HW_FIRST_MASK with 0; lia).
  destruct (Z.eqb_spec var k) as [<- |]; [done | by apply Am].
Qed.

Lemma minmax_accepts var min max :
  hw_is_interval var = true -> is_u32 min -> is_u32 max ->
  above min false (sol_val s var) -> below max false (sol_val s var) ->
  accepts p0 s 0 (minmax_op var min max).
Proof.
  intros Hv Hmin Hmax A B n c Hn Hd T. pose proof (proj2 (tb_allows _ _ _ _ T) var Hv) as [W M].
  assert (Wt : itv_wf (Itv min max false false false false)) by (by split_and!).
  pose proof (refine_refines _ _ (mem_nonempty _ _ M) W Wt) as R.
  pose proof (refines_keeps _ _ _ R (sol_val s var) M) as K.
  unfold minmax_op, snd_pcm_hw_constraint_minmax.
  destruct (snd_interval_refine _ _) as [r i]. destruct K as [Hr Hm]; [by split_and! |].
  simpl in *. rewrite Z.add_0_r. split; [done |].
  apply put_constrs_interval_table; [done | done | by apply (ref_ok _ _ _ R) | done].
Qed.

Lemma integer_accepts var :
  hw_is_interval var = true -> is_integer (sol_val s var) -> accepts p0 s 0 (integer_op var).
Proof.
  intros Hv Hi n c Hn Hd T. pose proof (proj2 (tb_allows _ _ _ _ T) var Hv) as [W M].
  unfold integer_op, snd_pcm_hw_constraint_integer, snd_interval_setinteger.
  rewrite Z.add_0_r. pose proof M as (He & A & B & I).
  destruct (i_integer _); [split; [done |]; by apply put_constrs_interval_table |].
  destruct (_ && _) eqn:E.
  - apply andb_prop in E as [[Eo Ex]%andb_prop Ee%Z.eqb_eq]. exfalso.
    unfold above, below in *. rewrite Eo in A. rewrite Ex in B. rewrite Ee in A. lia.
  - split; [done |]. apply put_constrs_interval_table; [done | done | exact W |].
    by split_and!.
Qed.

Lemma rule_add_accepts cond var f deps :
  (length deps < 4)%nat -> RuleProgress p0 s (HwRule cond f var deps) ->
  accepts p0 s 1 (snd_pcm_hw_rule_add alloc cond var f deps).
Proof.
  intros Hdeps HR n c Hn Hd [Lm Li A R N Al]. unfold snd_pcm_hw_rule_add.
  assert (Hl : (4 <=? Z.of_nat (length deps)) = false) by lia. rewrite Hl.
  assert (HR' : Forall (RuleProgress p0 s) (c_rules c ++ [HwRule cond f var deps]))
    by (rewrite Forall_app; split; [done | by constructor]).
  destruct Al as [[Ea ->] | Ea].
  - rewrite Ea, N. simpl. rewrite Halloc. simpl. split; [lia |].
    split; simpl; auto. rewrite N. done.
  - rewrite Ea, N. destruct (Z.leb_spec 32 n); [lia |]. simpl. split; [lia |].
    split; simpl; auto. rewrite N. apply u32_small. word_lia.
Qed.

Lemma checked_accepts f : accepts p0 s 0 f -> accepts p0 s 0 (checked f).
Proof.
  intros H n c Hn Hd T. destruct (H n c Hn Hd T) as [Hr T']. unfold checked.
  destruct (f c) as [r c']. simpl in *. destruct (Z.ltb_spec r 0); [lia |]. done.
Qed.

Lemma ignored_accepts f : accepts p0 s 0 f -> accepts p0 s 0 (ignored f).
Proof. intros H n c Hn Hd T. destruct (H n c Hn Hd T) as [Hr T']. done. Qed.

(** A sequence adds the rules of its parts. *)
Inductive accepts_all : Z -> list constraint_op -> Prop :=
| accepts_nil : accepts_all 0 []
| accepts_cons d d' f fs :
    0 <= d -> 0 <= d' -> accepts p0 s d f -> accepts_all d' fs ->
    accepts_all (d + d') (f :: fs).

Lemma accepts_app d d' fs fs' :
  0 <= d' -> accepts_all d fs -> accepts_all d' fs' -> accepts_all (d + d') (fs ++ fs').
Proof.
  intros Hd' H H'. induction H as [| d1 d2 f fs ? ? Hf Hfs IH]; simpl; [done |].
  rewrite <- Z.add_assoc. constructor; auto. lia.
Qed.

Lemma run_ops_accepts d fs : accepts_all d fs -> accepts p0 s d (run_ops fs).
Proof.
  induction 1 as [| d d' f fs ? ? Hf Hfs IH]; intros n c Hn Hd T; simpl.
  - by rewrite Z.add_0_r.
  - destruct (Hf n c Hn ltac:(lia) T) as [Hr T']. destruct (f c) as [r c']. simpl in *.
    destruct (Z.ltb_spec r 0); [lia |]. rewrite Z.add_assoc. apply IH; [lia | lia | done].
Qed.
End Accepts.

(** ** Configurations *)

(** The equations between the parameters of one configuration. *)
Record consistent (s : solution) : Prop := {
  cf_positive k : hw_is_interval k = true -> positive (sol_val s k);
  cf_unsaturated k : hw_is_interval k = true -> unsaturated (sol_val s k);
  cf_bit k : hw_is_mask k = true -> 0 <= sol_bit s k < 32;
  cf_width : 0 < snd_pcm_format_physical_width (sol_bit s HW_FORMAT);
  cf_sample_bits : (sol_val s HW_SAMPLE_BITS ==
                    inject_Z (snd_pcm_format_physical_width (sol_bit s HW_FORMAT)))%Q;
  cf_frame_bits : (sol_val s HW_FRAME_BITS == sol_val s HW_SAMPLE_BITS * sol_val s HW_CHANNELS)%Q;
  cf_period_bytes :
    (sol_val s HW_PERIOD_BYTES * inject_Z 8 == sol_val s HW_PERIOD_SIZE * sol_val s HW_FRAME_BITS)%Q;
  cf_buffer_bytes :
    (sol_val s HW_BUFFER_BYTES * inject_Z 8 == sol_val s HW_BUFFER_SIZE * sol_val s HW_FRAME_BITS)%Q;
  cf_buffer_size : (sol_val s HW_BUFFER_SIZE == sol_val s HW_PERIOD_SIZE * sol_val s HW_PERIODS)%Q;
  cf_integer k : k ∈ HW_PERIOD_SIZE :: init_integers -> is_integer (sol_val s k) }.

Definition within (lo hi : Z) (x : Q) : Prop :=
  is_u32 lo /\ is_u32 hi /\ above lo false x /\ below hi false x.

(** What the hardware description and the buffer allow. *)
Record supported (hw : hw_description) (buffer_bytes_max dma_bytes : Z) (s : solution) : Prop := {
  sp_access : Z.testbit (access_mask (hw_info hw)) (sol_bit s HW_ACCESS) = true;
  sp_format : Z.testbit (hw_formats hw) (sol_bit s HW_FORMAT) = true;
  sp_subformat : sol_bit s HW_SUBFORMAT = SUBFORMAT_STD;
  sp_rate_mask : Z.testbit (hw_rates hw) (sol_bit s HW_RATE_MASK) = true;
  sp_channels : within (hw_channels_min hw) (hw_channels_max hw) (sol_val s HW_CHANNELS);
  sp_rate : within (hw_rate_min hw) (hw_rate_max hw) (sol_val s HW_RATE);
  sp_period_bytes :
    within (hw_period_bytes_min hw) (hw_period_bytes_max hw) (sol_val s HW_PERIOD_BYTES);
  sp_periods : within (hw_periods_min hw) (hw_periods_max hw) (sol_val s HW_PERIODS);
  sp_buffer_bytes :
    within (hw_period_bytes_min hw) (hw_buffer_bytes_max hw) (sol_val s HW_BUFFER_BYTES);
  sp_buffer_bytes_max : within 0 buffer_bytes_max (sol_val s HW_BUFFER_BYTES);
  sp_dma_bytes : dma_bytes <> 0 -> within 0 dma_bytes (sol_val s HW_BUFFER_BYTES);
  sp_rate_list : Z.land (hw_rates hw) (Z.lor RATE_KNOT RATE_CONTINUOUS) = 0 ->
    exists x, selected 1 0 (hw_rates hw) rates x /\ (sol_val s HW_RATE == inject_Z x)%Q;
  sp_tick_time : within (1000000 / HZ) (1000000 / HZ) (sol_val s HW_TICK_TIME) }.

(** Periods and buffers of less than 256 megabytes: eight times their size is in half of
    the 32-bit range, where an inexact 64-bit division does no harm. *)
Definition MODERATE : Z := 0xFFFFFFF.

Record moderate (s : solution) : Prop := {
  md_period : below MODERATE false (sol_val s HW_PERIOD_BYTES);
  md_buffer : below MODERATE false (sol_val s HW_BUFFER_BYTES) }.

Lemma half_range_bytes x : below MODERATE false x -> half_range (x * inject_Z 8).
Proof.
  unfold below, half_range, MODERATE, UINT_MAX. destruct x as [p d]. simpl.
  rewrite Pos.mul_1_r. lia.
Qed.

Lemma half_range_proper x y : (x == y)%Q -> half_range x -> half_range y.
Proof. unfold half_range, Qeq. intros E H. nia. Qed.

Lemma Qdiv_of_mul a b c : positive b -> (a == b * c)%Q -> (a / b == c)%Q.
Proof.
  intros Hb ->. field. unfold positive in Hb. intros E. unfold Qeq in E. simpl in E. lia.
Qed.

Section Standard.
Context (p0 : snd_pcm_hw_params) (s : solution) (alloc : Z -> bool) (junk : snd_interval).
Hypothesis Halloc : alloc 32 = true.
Hypothesis Hwf : hp_wf p0.
Hypothesis Hcons : consistent s.
Hypothesis Hmoderate : moderate s.

Definition rule_ok (r : Z * hw_rule_func * list Z) : Prop :=
  let '(var, f, deps) := r in
  (length deps < 4)%nat /\ RuleProgress p0 s (HwRule 0 f var deps).

Lemma add_rules_accepts l :
  Forall rule_ok l -> accepts_all p0 s (Z.of_nat (length l)) (map (add_rule alloc) l).
Proof.
  induction 1 as [| [[var f] deps] l [Hd Hr] Hl IH]; [constructor |].
  simpl map. replace (Z.of_nat (length ((var, f, deps) :: l))) with (1 + Z.of_nat (length l))
    by (simpl length; lia).
  constructor; [lia | lia | | exact IH]. by apply rule_add_accepts.
Qed.

Lemma init_rules_ok : Forall rule_ok (init_rules junk).
Proof.
  destruct Hcons as [Hpos Huns _ Hw Esb Efb Epb Ebb Ebs _]. destruct Hmoderate as [X1%half_range_bytes X2%half_range_bytes].
  assert (H8 : 0 < 8 <= UINT_MAX) by (unfold UINT_MAX; lia).
  assert (P : forall k, hw_is_interval k = true -> positive (sol_val s k)) by done.
  repeat apply Forall_cons_2; try apply Forall_nil_2;
    (split; [simpl; lia |]).
  - by apply format_rule_progress.
  - by apply sample_bits_rule_progress.
  - apply div_progress; try done. apply Qdiv_of_mul; [by apply P |]. rewrite Efb. ring.
  - apply mul_progress; try done.
  - apply mulkdiv_progress; try done.
    apply Qdiv_of_mul; [by apply P |]. exact Epb.
  - apply mulkdiv_progress; try done.
    apply Qdiv_of_mul; [by apply P |]. exact Ebb.
  - apply div_progress; try done. apply Qdiv_of_mul; [by apply P |]. exact Efb.
  - apply div_progress; try done. apply Qdiv_of_mul; [by apply P |]. exact Ebs.
  - apply div_progress; try done. apply Qdiv_of_mul; [by apply P |]. rewrite Ebs. ring.
  - apply mulkdiv_progress; try done.
    apply Qdiv_of_mul; [by apply P |]. rewrite Epb. ring.
  - apply mul_progress; try done.
  - apply mulkdiv_progress; try done.
    apply Qdiv_of_mul; [by apply P |]. rewrite Ebb. ring.
  - apply muldivk_progress; try done.
    + apply Qdiv_of_mul; [done |]. rewrite <- Epb. ring.
    + by eapply half_range_proper.
  - apply muldivk_progress; try done.
    + apply Qdiv_of_mul; [done |]. rewrite <- Ebb. ring.
    + by eapply half_range_proper.
Qed.

Lemma any_table : table p0 s 0 (any_constraints empty_constraints).
Proof.
  split; simpl; auto. split.
  - intros k Hk. unfold constrs_mask.
    change (c_masks _) with (replicate 4 snd_mask_any).
    pose proof (cf_bit s Hcons k Hk) as Hb. apply hw_is_mask_range in Hk.
    rewrite lookup_replicate_2 by (change HW_FIRST_MASK with 0; lia).
    change (default 0 (Some snd_mask_any)) with (Z.ones 32). apply Z.ones_spec_low. lia.
  - intros k Hk. unfold constrs_interval.
    change (c_intervals _) with (replicate 12 snd_interval_any).
    pose proof (cf_positive s Hcons k Hk) as P. pose proof (cf_unsaturated s Hcons k Hk) as U.
    apply hw_is_interval_range in Hk.
    rewrite lookup_replicate_2 by (change HW_FIRST_INTERVAL with 4; lia).
    unfold positive, unsaturated in *. cbn [default].
    split; [by apply itv_wfb_true |].
    unfold itv_mem, above, below; simpl. split_and!; [done | lia | lia | done].
Qed.

Lemma integers_accepts l n c :
  Forall (fun k => hw_is_interval k = true /\ is_integer (sol_val s k)) l ->
  0 <= n <= 32 -> table p0 s n c ->
  table p0 s n (fold_left (fun c var => (snd_pcm_hw_constraint_integer c var).2) l c).
Proof.
  intros H Hn. revert c. induction H as [| k l [Hk Hi] Hl IH]; intros c T; [done |].
  simpl. apply IH. destruct (integer_accepts p0 s k Hk Hi n c) as [_ T']; [lia | lia | done |].
  by rewrite Z.add_0_r in T'.
Qed.

Lemma init_table :
  let '(r, c) := snd_pcm_hw_constraints_init alloc junk empty_constraints in
  0 <= r /\ table p0 s 14 c.
Proof.
  unfold snd_pcm_hw_constraints_init. cbv zeta.
  assert (T : table p0 s 0 (fold_left (fun c var => (snd_pcm_hw_constraint_integer c var).2)
                init_integers (any_constraints empty_constraints))).
  { apply integers_accepts; [| lia | apply any_table]. apply Forall_forall. intros k Hk. split.
    - apply list_elem_of_In in Hk. simpl in Hk. intuition (subst; done).
    - apply (cf_integer s Hcons). by right. }
  pose proof (run_ops_accepts p0 s _ _ (add_rules_accepts _ init_rules_ok) 0 _ ltac:(lia)
                ltac:(simpl; lia) T) as H.
  by destruct (run_ops _ _) as [r c].
Qed.

Lemma minmax_checked k lo hi :
  hw_is_interval k = true -> within lo hi (sol_val s k) ->
  accepts p0 s 0 (checked (minmax_op k lo hi)).
Proof. intros Hk (Hl & Hh & A & B). by apply checked_accepts, minmax_accepts. Qed.

Lemma complete_accepts hw bbm dma :
  supported hw bbm dma s ->
  exists d, 0 <= d <= 2 /\ accepts_all p0 s d (complete_ops alloc hw bbm dma).
Proof.
  intros [Sa Sf Ss Sm Sc Sr Sp Spp Sb Sbm Sd Sl St].
  assert (Hd : accepts_all p0 s 0
    (if truth dma then [checked (minmax_op HW_BUFFER_BYTES 0 dma)] else [])).
  { unfold truth. destruct (Z.eqb_spec dma 0); simpl; [constructor |].
    apply (accepts_cons _ _ 0 0); try done; [| constructor]. apply minmax_checked; auto. }
  assert (Hl : exists d, 0 <= d <= 1 /\ accepts_all p0 s d
    (if negb (truth (Z.land (hw_rates hw) (Z.lor RATE_KNOT RATE_CONTINUOUS)))
     then [snd_pcm_hw_rule_add alloc 0 HW_RATE (snd_pcm_hw_rule_rate (hw_rates hw)) [HW_RATE]]
     else [])).
  { unfold truth. destruct (Z.eqb_spec (Z.land (hw_rates hw) (Z.lor RATE_KNOT RATE_CONTINUOUS)) 0)
      as [E | _]; simpl; [| exists 0; split; [lia | constructor]].
    exists 1. split; [lia |]. apply (accepts_cons _ _ 1 0); try lia; [| constructor].
    destruct (Sl E) as (x & Hsel & Ex). apply rule_add_accepts; [done | simpl; lia |].
    eapply list_rule_progress; [done | | | exact Hsel | exact Ex].
    - repeat constructor; lia.
    - repeat constructor; lia. }
  destruct Hl as (d & Hd01 & Hl). exists (1 + d). split; [lia |]. unfold complete_ops.
  assert (Hfin : accepts_all p0 s 0 [ignored (minmax_op HW_TICK_TIME (1000000 / HZ) (1000000 / HZ));
                                     ignored (integer_op HW_PERIOD_SIZE)]).
  { destruct St as (? & ? & ? & ?).
    repeat (apply (accepts_cons _ _ 0 0); [lia | lia | apply ignored_accepts |]); [| | constructor].
    - by apply minmax_accepts.
    - apply integer_accepts; [done |]. apply (cf_integer s Hcons). left. }
  apply (accepts_app _ _ 1 d); [lia | | apply (accepts_app _ _ 0 d); [lia | done |];
    rewrite <- (Z.add_0_r d); by apply accepts_app].
  repeat (apply (accepts_cons _ _ 0 1); [lia | lia | first [by apply minmax_checked | apply checked_accepts] |]).
  all: try by apply mask_accepts.
  - apply mask_accepts; [done |]. by rewrite Ss.
  - apply (accepts_cons _ _ 1 0); try lia; [| constructor].
    apply rule_add_accepts; [done | simpl; lia |]. destruct Sbm as (_ & Hm & _ & B).
    apply buffer_bytes_max_progress; try done; try apply Hcons.
    right. unfold init_integers. rewrite !elem_of_cons. auto.
Qed.
End Standard.

Lemma run_ops_code ops c : (run_ops ops c).1 <= 0.
Proof.
  revert c. induction ops as [| f ops IH]; intros c; simpl; [done |].
  destruct (f c) as [r c']. destruct (Z.ltb_spec r 0); [simpl; lia | apply IH].
Qed.

(** C3: no supported configuration is lost.  On a substream set up by [init] and
    [complete], every configuration with periods and buffers of less than 256 megabytes
    that satisfies the parameter equations and the hardware's limits survives the
    refinement of any request that contains it: both calls succeed, the rule loop
    terminates and returns 0, and the narrowed space still contains it.  The bound is
    where a wrong 64-bit division does no harm to the configuration. *)
Theorem standard_configuration_survives alloc junk hw bbm dma p s :
  alloc 32 = true -> hp_wf p -> sat p s ->
  consistent s -> moderate s -> supported hw bbm dma s ->
  exists c1 c2 fuel0 p',
    snd_pcm_hw_constraints_init alloc junk empty_constraints = (0, c1) /\
    snd_pcm_hw_constraints_complete alloc hw bbm dma c1 = (0, c2) /\
    (forall fuel, (fuel0 <= fuel)%nat -> snd_pcm_hw_refine hw c2 fuel p = Some (0, p')) /\
    hp_wf p' /\ sat p' s /\ hp_narrower p' p.
Proof.
  intros Ha W S C X Sup.
  pose proof (init_table p s alloc junk Ha C X) as I.
  pose proof (run_ops_code (map (add_rule alloc) (init_rules junk))
    (fold_left (fun c var => (snd_pcm_hw_constraint_integer c var).2) init_integers
       (any_constraints empty_constraints))) as Z1.
  fold (snd_pcm_hw_constraints_init alloc junk empty_constraints) in Z1.
  destruct (snd_pcm_hw_constraints_init _ _ _) as [r1 c1]. destruct I as [Hr1 T1]. simpl in Z1.
  destruct (complete_accepts p s alloc Ha C hw bbm dma Sup) as (d & Hd & A).
  destruct (run_ops_accepts p s d _ A 14 c1 ltac:(lia) ltac:(lia) T1) as [Hr2 T2].
  pose proof (run_ops_code (complete_ops alloc hw bbm dma) c1) as Z2.
  fold (snd_pcm_hw_constraints_complete alloc hw bbm dma) in Hr2, T2, Z2.
  destruct (snd_pcm_hw_constraints_complete _ _ _ _ c1) as [r2 c2] eqn:E2. simpl in Hr2, T2, Z2.
  destruct (hw_refine_complete hw c2 p s W S (tb_allows _ _ _ _ T2)) as (f & p' & Hf & W' & S' & N & _).
  - rewrite (tb_num _ _ _ _ T2). lia.
  - apply (tb_rules _ _ _ _ T2).
  - exists c1, c2, f, p'. rewrite E2. split_and!; try done; f_equal; lia.
Qed.

(** ** A concrete configuration

    16-bit stereo at 48 kHz in four periods of 1024 frames. *)

Definition cd_like : solution := {|
  sol_bit k := if k =? HW_ACCESS then ACCESS_RW_INTERLEAVED
               else if k =? HW_FORMAT then format_code S16_LE
               else if k =? HW_RATE_MASK then 7 else 0;
  sol_val k := inject_Z (default 1 ([16; 32; 2; 48000; 21334; 1024; 4096; 4; 85334; 4096; 16384; 10000]
                                      !! Z.to_nat (k - HW_FIRST_INTERVAL))) |}.

Definition sample_hardware : hw_description :=
  HwDescription (Z.lor INFO_MMAP INFO_INTERLEAVED) 64 (shl32 1 (format_code S16_LE)) 0xC0
    44100 48000 1 2 64 65536 2 1024 65536.

Lemma for_all_intervals (P : Z -> Prop) :
  Forall P interval_vars -> forall k, hw_is_interval k = true -> P k.
Proof.
  intros H k Hk%hw_is_interval_range. rewrite Forall_forall in H. apply H.
  apply list_elem_of_In. unfold interval_vars. simpl. lia.
Qed.

Lemma for_all_masks (P : Z -> Prop) :
  Forall P mask_vars -> forall k, hw_is_mask k = true -> P k.
Proof.
  intros H k Hk%hw_is_mask_range. rewrite Forall_forall in H. apply H.
  apply list_elem_of_In. unfold mask_vars. simpl. lia.
Qed.

Lemma cd_like_consistent : consistent cd_like.
Proof.
  split; try reflexivity.
  - apply for_all_intervals. repeat constructor.
  - apply for_all_intervals. repeat constructor.
  - apply for_all_masks. repeat (apply Forall_cons_2; [by split; vm_compute |]). apply Forall_nil_2.
  - intros k _. unfold is_integer. simpl. eexists. symmetry. apply Z.mul_1_r.
Qed.

Lemma cd_like_supported : supported sample_hardware 65536 0 cd_like.
Proof.
  split; try reflexivity; try done; try (unfold within; split_and!; done || word_lia).
  intros _. exists 48000. split; [exists 7%nat; by split | reflexivity].
Qed.

(** The request is the one applications start with: anything. *)
Lemma standard_configuration_survives_witness :
  exists c1 c2 fuel p',
    snd_pcm_hw_constraints_init (fun _ => true) snd_interval_any empty_constraints = (0, c1) /\
    snd_pcm_hw_constraints_complete (fun _ => true) sample_hardware 65536 0 c1 = (0, c2) /\
    snd_pcm_hw_refine sample_hardware c2 fuel _snd_pcm_hw_params_any = Some (0, p') /\ sat p' cd_like.
Proof.
  assert (W : hp_wf _snd_pcm_hw_params_any).
  { split; try reflexivity.
    - repeat constructor; unfold UINT_MAX; vm_compute; discriminate.
    - repeat (apply Forall_cons_2; [by apply itv_wfb_true |]). apply Forall_nil_2. }
  assert (S : sat _snd_pcm_hw_params_any cd_like).
  { split.
    - apply for_all_masks. repeat (apply Forall_cons_2; [by split; [split; vm_compute |] |]).
      apply Forall_nil_2.
    - apply for_all_intervals. repeat (apply Forall_cons_2; [by apply itv_memb_true |]).
      apply Forall_nil_2. }
  assert (X : moderate cd_like) by (split; vm_compute; discriminate).
  destruct (standard_configuration_survives (fun _ => true) snd_interval_any sample_hardware 65536 0
              _snd_pcm_hw_params_any cd_like eq_refl W S cd_like_consistent X cd_like_supported)
    as (c1 & c2 & f & p' & E1 & E2 & E3 & _ & S' & _).
  exists c1, c2, f, p'. split; [exact E1 |]. split; [exact E2 |]. split; [apply E3; reflexivity | exact S'].
Defined.
