(* ===== verification/PcmRuntime.v ===== *)
(** * PcmRuntime: the runtime of a PCM substream

    [struct _snd_pcm_runtime] with its status and control pages
    (alsa/include/sound/pcm.h, asound.h), the arithmetic on the ring pointers, the
    position update, silence filling and the tick timer of alsa/core/pcm_lib.c, and
    the part of [snd_pcm_hw_params] (alsa/core/pcm_native.c) that fills the runtime in. *)

From S2P Require Import Prelude Div64 Interval Mask PcmFormat HwParams.
Open Scope Z_scope.

(** ** Data *)

Inductive pcm_state := OPEN | SETUP | PREPARED | RUNNING | XRUN | DRAINING | PAUSED.

#[export] Instance pcm_state_eq_dec : EqDecision pcm_state.
Proof. solve_decision. Defined.

Definition state_is (s s' : pcm_state) : bool := bool_decide (s = s').

Record snd_pcm_runtime := Runtime {
  rt_playback : bool;            (* substream->stream *)
  rt_state : pcm_state;          (* status->state *)
  rt_hw_ptr : Z;                 (* status->hw_ptr *)
  rt_appl_ptr : Z;               (* control->appl_ptr *)
  rt_avail_min : Z;              (* control->avail_min *)
  rt_avail_max : Z;
  rt_hw_ptr_base : Z;
  rt_hw_ptr_interrupt : Z;
  rt_access : Z; rt_format : Z; rt_subformat : Z;
  rt_rate : Z; rt_channels : Z;
  rt_period_size : Z; rt_periods : Z; rt_buffer_size : Z;
  rt_tick_time : Z; rt_min_align : Z; rt_byte_align : Z;
  rt_frame_bits : Z; rt_sample_bits : Z;
  rt_info : Z; rt_rate_num : Z; rt_rate_den : Z;
  rt_period_step : Z; rt_sleep_min : Z; rt_xfer_align : Z;
  rt_start_threshold : Z; rt_stop_threshold : Z;
  rt_silence_threshold : Z; rt_silence_size : Z;
  rt_boundary : Z;
  rt_silenced_start : Z; rt_silenced_size : Z;
  rt_dma_area : list Z;          (* the bytes of the DMA buffer *)
  rt_mmap_count : Z;
  rt_tick_timer : Z;             (* ticks the timer is armed for, 0 when deleted *)
  rt_wakeups : Z;                (* calls of wake_up(&runtime->sleep) *)
  rt_tstamp_mode : Z;
  rt_tstamp : Z;                 (* status->tstamp *)
  rt_overrange : Z }.

#[export] Instance settable_runtime : Settable snd_pcm_runtime :=
  fun r => Runtime (rt_playback r) (rt_state r) (rt_hw_ptr r) (rt_appl_ptr r) (rt_avail_min r)
    (rt_avail_max r) (rt_hw_ptr_base r) (rt_hw_ptr_interrupt r) (rt_access r) (rt_format r)
    (rt_subformat r) (rt_rate r) (rt_channels r) (rt_period_size r) (rt_periods r)
    (rt_buffer_size r) (rt_tick_time r) (rt_min_align r) (rt_byte_align r) (rt_frame_bits r)
    (rt_sample_bits r) (rt_info r) (rt_rate_num r) (rt_rate_den r) (rt_period_step r)
    (rt_sleep_min r) (rt_xfer_align r) (rt_start_threshold r) (rt_stop_threshold r)
    (rt_silence_threshold r) (rt_silence_size r) (rt_boundary r) (rt_silenced_start r)
    (rt_silenced_size r) (rt_dma_area r) (rt_mmap_count r) (rt_tick_timer r) (rt_wakeups r)
    (rt_tstamp_mode r) (rt_tstamp r) (rt_overrange r).

Definition wake_up (r : snd_pcm_runtime) : snd_pcm_runtime :=
  r <| rt_wakeups := rt_wakeups r + 1 |>.

Definition snd_pcm_running (r : snd_pcm_runtime) : bool :=
  state_is (rt_state r) RUNNING || (state_is (rt_state r) DRAINING && rt_playback r).

(** ** Available frames *)

Definition snd_pcm_playback_avail (r : snd_pcm_runtime) : Z :=
  let avail := s32 (rt_hw_ptr r + rt_buffer_size r - rt_appl_ptr r) in
  u32 (if avail <? 0 then avail + rt_boundary r
       else if rt_boundary r <=? avail then avail - rt_boundary r
       else avail).

Definition snd_pcm_capture_avail (r : snd_pcm_runtime) : Z :=
  let avail := s32 (rt_hw_ptr r - rt_appl_ptr r) in
  u32 (if avail <? 0 then avail + rt_boundary r else avail).

Definition snd_pcm_playback_hw_avail (r : snd_pcm_runtime) : Z :=
  u32 (rt_buffer_size r - snd_pcm_playback_avail r).

Definition snd_pcm_capture_hw_avail (r : snd_pcm_runtime) : Z :=
  u32 (rt_buffer_size r - snd_pcm_capture_avail r).

Definition snd_pcm_playback_ready (r : snd_pcm_runtime) : bool :=
  rt_avail_min r <=? snd_pcm_playback_avail r.
Definition snd_pcm_capture_ready (r : snd_pcm_runtime) : bool :=
  rt_avail_min r <=? snd_pcm_capture_avail r.
Definition snd_pcm_playback_data (r : snd_pcm_runtime) : bool :=
  snd_pcm_playback_avail r <? rt_buffer_size r.
Definition snd_pcm_playback_empty (r : snd_pcm_runtime) : bool :=
  rt_buffer_size r <=? snd_pcm_playback_avail r.
Definition snd_pcm_capture_empty (r : snd_pcm_runtime) : bool := snd_pcm_capture_avail r =? 0.

Definition pcm_avail (r : snd_pcm_runtime) : Z :=
  if rt_playback r then snd_pcm_playback_avail r else snd_pcm_capture_avail r.

(** ** Frames, samples and bytes *)

Definition bytes_to_samples (r : snd_pcm_runtime) (size : Z) : Z := u32 (size * 8) / rt_sample_bits r.
Definition bytes_to_frames (r : snd_pcm_runtime) (size : Z) : Z := u32 (size * 8) / rt_frame_bits r.
Definition samples_to_bytes (r : snd_pcm_runtime) (size : Z) : Z := u32 (size * rt_sample_bits r) / 8.
Definition frames_to_bytes (r : snd_pcm_runtime) (size : Z) : Z := u32 (size * rt_frame_bits r) / 8.
Definition frame_aligned (r : snd_pcm_runtime) (bytes : Z) : bool := bytes mod rt_byte_align r =? 0.

(** [substream->dma_bytes]: the size of the DMA buffer. *)
Definition dma_bytes (r : snd_pcm_runtime) : Z := Z.of_nat (length (rt_dma_area r)).

(** ** Silence *)

(** Run [f] on the memory from byte [off] on. *)
Definition at_offset (off : Z) (f : list Z -> list Z) (mem : list Z) : list Z :=
  take (Z.to_nat off) mem ++ f (drop (Z.to_nat off) mem).

Definition silence_at (format samples off : Z) (mem : list Z) : list Z :=
  at_offset off (fun m => (snd_pcm_format_set_silence format samples m).2) mem.

Definition ACCESS_MMAP_INTERLEAVED : Z := 0.
Definition ACCESS_MMAP_NONINTERLEAVED : Z := 1.
Definition ACCESS_MMAP_COMPLEX : Z := 2.
Definition ACCESS_RW_INTERLEAVED : Z := 3.
Definition ACCESS_RW_NONINTERLEAVED : Z := 4.

Definition interleaved (r : snd_pcm_runtime) : bool :=
  (rt_access r =? ACCESS_RW_INTERLEAVED) || (rt_access r =? ACCESS_MMAP_INTERLEAVED).

Section Silence.
(** [substream->ops->silence], when the driver has one: channel, offset and length
    in frames, on the driver's buffer. *)
Variable ops_silence : option (Z -> Z -> Z -> list Z -> list Z).

Definition fill_silence (r : snd_pcm_runtime) (ofs frames : Z) : list Z :=
  let mem := rt_dma_area r in
  if interleaved r then
    match ops_silence with
    | Some silence => silence (-1) ofs frames mem
    | None =>
        silence_at (rt_format r) (u32 (frames * rt_channels r)) (frames_to_bytes r ofs) mem
    end
  else
    let channels := seqZ 0 (rt_channels r) in
    match ops_silence with
    | Some silence => fold_left (fun mem c => silence c ofs frames mem) channels mem
    | None =>
        let dma_csize := dma_bytes r / rt_channels r in
        fold_left (fun mem c =>
          silence_at (rt_format r) frames (u32 (c * dma_csize + samples_to_bytes r ofs)) mem)
          channels mem
    end.

(** The first statement: what the application has written since is silent no more. *)
Definition silence_forget (r : snd_pcm_runtime) : snd_pcm_runtime :=
  if rt_silenced_start r =? rt_appl_ptr r then r
  else
    let n := s32 (rt_appl_ptr r - rt_silenced_start r) in
    let n := if n <? 0 then s32 (n + rt_boundary r) else n in
    r <| rt_silenced_size := if u32 n <? rt_silenced_size r then u32 (rt_silenced_size r - n) else 0 |>
      <| rt_silenced_start := rt_appl_ptr r |>.

Definition snd_pcm_playback_silence (r : snd_pcm_runtime) : snd_pcm_runtime :=
  let r := silence_forget r in
  if rt_silenced_size r =? rt_buffer_size r then r
  else if negb (rt_silenced_size r <=? rt_buffer_size r) then r
  else
    let noise_dist := s32 (snd_pcm_playback_hw_avail r + rt_silenced_size r) in
    if s32 (rt_silence_threshold r) <? noise_dist then r
    else
      let frames := u32 (rt_silence_threshold r - noise_dist) in
      let frames := if frames <? rt_silence_size r then rt_silence_size r else frames in
      let frames :=
        if rt_buffer_size r <? u32 (rt_silenced_size r + frames)
        then u32 (rt_buffer_size r - rt_silenced_size r) else frames in
      let ofs := u32 (rt_silenced_start r mod rt_buffer_size r + rt_silenced_size r) in
      let ofs := if rt_buffer_size r <=? ofs then u32 (ofs - rt_buffer_size r) else ofs in
      let frames :=
        if rt_buffer_size r <? u32 (ofs + frames) then u32 (rt_buffer_size r - ofs) else frames in
      r <| rt_dma_area := fill_silence r ofs frames |>
        <| rt_silenced_size := u32 (rt_silenced_size r + frames) |>.

(** ** Position update *)

(** [runtime->hw_ptr_base += runtime->buffer_size], back to 0 at the boundary. *)
Definition advance_base (r : snd_pcm_runtime) : Z :=
  let base := u32 (rt_hw_ptr_base r + rt_buffer_size r) in
  if base =? rt_boundary r then 0 else base.

(** The end of both update functions but for the stop. *)
Definition hw_ptr_notify (r : snd_pcm_runtime) (avail : Z) : snd_pcm_runtime :=
  let r := if rt_avail_min r <=? avail then wake_up r else r in
  if rt_playback r && (0 <? rt_silence_size r) then snd_pcm_playback_silence r else r.

Definition track_avail_max (r : snd_pcm_runtime) (avail : Z) : snd_pcm_runtime :=
  if rt_avail_max r <? avail then r <| rt_avail_max := avail |> else r.

(** [pos] is what [ops->pointer] returns; the time stamp of the query is the caller's
    (see [poll] of PcmOps).  The second result is the state the stream
    is to be stopped into, when the function calls [snd_pcm_stop] and returns
    [-EPIPE]. *)
Definition snd_pcm_update_hw_ptr_interrupt (pos : Z) (r : snd_pcm_runtime)
    : Z * option pcm_state * snd_pcm_runtime :=
  if negb (pos <=? rt_buffer_size r) then (0, None, r)
  else
    let pos := pos - pos mod rt_min_align r in
    let new_hw_ptr := u32 (rt_hw_ptr_base r + pos) in
    let hw_ptr_interrupt := u32 (rt_hw_ptr_interrupt r + rt_period_size r) in
    let delta := s32 (hw_ptr_interrupt - new_hw_ptr) in
    let moved :=
      if 0 <? delta then
        if delta <? rt_buffer_size r / 2 then Return tt
        else
          let base := advance_base r in
          Next (r <| rt_hw_ptr_base := base |>, u32 (base + pos))
      else Next (r, new_hw_ptr) in
    match moved with
    | Return _ => (0, None, r)
    | Next (r, new_hw_ptr) =>
        let r := r <| rt_hw_ptr := new_hw_ptr |>
                   <| rt_hw_ptr_interrupt := u32 (new_hw_ptr - pos mod rt_period_size r) |> in
        let avail := pcm_avail r in
        let r := track_avail_max r avail in
        if rt_stop_threshold r <=? avail then
          (-EPIPE, Some (if state_is (rt_state r) DRAINING then SETUP else XRUN), r)
        else (0, None, hw_ptr_notify r avail)
    end.

(** The OS/2 version never stops the stream. *)
Definition snd_pcm_update_hw_ptr (pos : Z) (r : snd_pcm_runtime) : Z * snd_pcm_runtime :=
  if negb (pos <=? rt_buffer_size r) then (0, r)
  else
    let pos := pos - pos mod rt_min_align r in
    let new_hw_ptr := u32 (rt_hw_ptr_base r + pos) in
    let delta := s32 (rt_hw_ptr r - new_hw_ptr) in
    let moved :=
      if 0 <? delta then
        if delta <? rt_buffer_size r / 2 then Return tt
        else
          let base := advance_base r in
          Next (r <| rt_hw_ptr_base := base |>, u32 (base + pos))
      else Next (r, new_hw_ptr) in
    match moved with
    | Return _ => (0, r)
    | Next (r, new_hw_ptr) =>
        let r := r <| rt_hw_ptr := new_hw_ptr |> in
        let avail := pcm_avail r in
        let r := track_avail_max r avail in
        if rt_stop_threshold r <=? avail then (0, r) else (0, hw_ptr_notify r avail)
    end.

(** *** Divisors

    The processor traps when it divides by 0.  Besides each of the functions above are the
    divisors it may reach; the callers check them (see [divides] of PcmState). *)

(** Of [snd_pcm_playback_silence], where it is called for. *)
Definition silence_divisors (r : snd_pcm_runtime) : list Z :=
  if rt_playback r && (0 <? rt_silence_size r) then
    rt_buffer_size r
    :: (if interleaved r || bool_decide (is_Some ops_silence) then [] else [rt_channels r])
  else [].

Definition update_divisors (pos : Z) (r : snd_pcm_runtime) : list Z :=
  if negb (pos <=? rt_buffer_size r) then [] else rt_min_align r :: silence_divisors r.

Definition interrupt_divisors (pos : Z) (r : snd_pcm_runtime) : list Z :=
  if negb (pos <=? rt_buffer_size r) then []
  else rt_min_align r :: rt_period_size r :: silence_divisors r.
End Silence.

(** ** The tick timer *)

Definition snd_pcm_tick_set (r : snd_pcm_runtime) (ticks : Z) : snd_pcm_runtime :=
  r <| rt_tick_timer := ticks |>.

(** [if (n > 0 && frames > n) frames = n], with [n] signed. *)
Definition nearer (n frames : Z) : Z :=
  let n := s32 n in if (0 <? n) && (n <? frames) then n else frames.

(** The frames until something is to be done, [ULONG_MAX] when nothing is. *)
Definition tick_frames (r : snd_pcm_runtime) : Z :=
  let frames :=
    if rt_playback r && (0 <? rt_silence_size r) && (rt_silenced_size r <? rt_buffer_size r) then
      let noise_dist := s32 (snd_pcm_playback_hw_avail r + rt_silenced_size r) in
      u32 (noise_dist - rt_silence_threshold r)
    else ULONG_MAX in
  let avail := pcm_avail r in
  let frames := if avail <? rt_avail_min r then nearer (rt_avail_min r - avail) frames else frames in
  if avail <? rt_buffer_size r then nearer (rt_buffer_size r - avail) frames else frames.

(** The frames until the next period interrupt. *)
Definition tick_dist (r : snd_pcm_runtime) : Z :=
  let dist := u32 (rt_hw_ptr r - rt_hw_ptr_base r) in
  u32 (rt_period_size r - dist mod rt_period_size r).

Definition tick_divisor (r : snd_pcm_runtime) : Z := u32 (rt_tick_time r * rt_rate r).

Definition snd_pcm_tick_prepare (r : snd_pcm_runtime) : snd_pcm_runtime :=
  let frames := tick_frames r in
  if frames =? ULONG_MAX then snd_pcm_tick_set r 0
  else if tick_dist r <=? frames then snd_pcm_tick_set r 0
  else
    let n := (div64_32 (frames * 1000000) (tick_divisor r)).1 in
    snd_pcm_tick_set r (u32 (u32 n + 1)).

Definition tick_divisors (r : snd_pcm_runtime) : list Z :=
  if tick_frames r =? ULONG_MAX then []
  else rt_period_size r :: (if tick_dist r <=? tick_frames r then [] else [tick_divisor r]).

(** Everything the operations on a stream divide by is there. *)
Definition divisors_there (r : snd_pcm_runtime) : bool :=
  forallb truth [rt_min_align r; rt_period_size r; rt_buffer_size r; rt_channels r;
                 rt_xfer_align r; tick_divisor r].

Lemma divisors_there_spec r :
  divisors_there r = true <->
  truth (rt_min_align r) = true /\ truth (rt_period_size r) = true /\
  truth (rt_buffer_size r) = true /\ truth (rt_channels r) = true /\
  truth (rt_xfer_align r) = true /\ truth (tick_divisor r) = true.
Proof. unfold divisors_there. simpl. rewrite !andb_true_iff. tauto. Qed.

Lemma silence_divisors_there sil r :
  divisors_there r = true -> forallb truth (silence_divisors sil r) = true.
Proof.
  intros (? & ? & Hb & Hc & _)%divisors_there_spec. unfold silence_divisors.
  destruct (_ && _); [| done]. simpl. rewrite Hb. destruct (_ || _); simpl; by rewrite ?Hc.
Qed.

Lemma update_divisors_there sil pos r :
  divisors_there r = true -> forallb truth (update_divisors sil pos r) = true.
Proof.
  intros H. pose proof (silence_divisors_there sil r H). apply divisors_there_spec in H as (Hm & _).
  unfold update_divisors. destruct (negb _); [done |]. simpl. by rewrite Hm.
Qed.

Lemma interrupt_divisors_there sil pos r :
  divisors_there r = true -> forallb truth (interrupt_divisors sil pos r) = true.
Proof.
  intros H. pose proof (silence_divisors_there sil r H). apply divisors_there_spec in H as (Hm & Hp & _).
  unfold interrupt_divisors. destruct (negb _); [done |]. simpl. by rewrite Hm, Hp.
Qed.

Lemma tick_divisors_there r : divisors_there r = true -> forallb truth (tick_divisors r) = true.
Proof.
  intros (_ & Hp & _ & _ & _ & Ht)%divisors_there_spec. unfold tick_divisors.
  destruct (_ =? _); [done |]. simpl. rewrite Hp. destruct (_ <=? _); simpl; by rewrite ?Ht.
Qed.

(** ** [ioctl] of the library *)

Section Ioctl.
Variable ops_silence : option (Z -> Z -> Z -> list Z -> list Z).

Definition snd_pcm_lib_ioctl_reset (pos : Z) (r : snd_pcm_runtime) : Z * snd_pcm_runtime :=
  if snd_pcm_running r then
    let '(err, r) := snd_pcm_update_hw_ptr ops_silence pos r in
    if 0 <=? err then (0, r <| rt_hw_ptr := rt_hw_ptr r mod rt_buffer_size r |>)
    else (0, r <| rt_hw_ptr := 0 |>)
  else (0, r <| rt_hw_ptr := 0 |>).
End Ioctl.

Record snd_pcm_channel_info := ChannelInfo {
  ci_channel : Z; ci_offset : Z; ci_first : Z; ci_step : Z }.

#[export] Instance settable_channel_info : Settable snd_pcm_channel_info :=
  fun i => ChannelInfo (ci_channel i) (ci_offset i) (ci_first i) (ci_step i).

Definition PCM_INFO_MMAP : Z := 0x1.

Definition snd_pcm_lib_ioctl_channel_info (r : snd_pcm_runtime) (info : snd_pcm_channel_info)
    : Z * snd_pcm_channel_info :=
  if Z.land (rt_info r) PCM_INFO_MMAP =? 0 then (0, info <| ci_offset := -1 |>)
  else
    let width := snd_pcm_format_physical_width (rt_format r) in
    if width <? 0 then (width, info)
    else
      let info := info <| ci_offset := 0 |> in
      if (rt_access r =? ACCESS_MMAP_INTERLEAVED) || (rt_access r =? ACCESS_RW_INTERLEAVED) then
        (0, info <| ci_first := u32 (ci_channel info * width) |>
                 <| ci_step := u32 (rt_channels r * width) |>)
      else if (rt_access r =? ACCESS_MMAP_NONINTERLEAVED)
              || (rt_access r =? ACCESS_RW_NONINTERLEAVED) then
        let size := dma_bytes r / rt_channels r in
        (0, info <| ci_first := u32 (ci_channel info * size * 8) |> <| ci_step := width |>)
      else (0, info).

(** ** Filling the runtime in *)

(** [while (bits % 8 != 0) { bits *= 2; frames *= 2; }] *)
Fixpoint align_frames (fuel : nat) (bits frames : Z) : Z * Z :=
  match fuel with
  | O => (bits, frames)
  | S fuel =>
      if bits mod 8 =? 0 then (bits, frames)
      else align_frames fuel (u32 (bits * 2)) (u32 (frames * 2))
  end.

(** [while (boundary * 2 <= LONG_MAX - buffer_size) boundary *= 2] *)
Fixpoint double_boundary (fuel : nat) (boundary buffer_size : Z) : Z :=
  match fuel with
  | O => boundary
  | S fuel =>
      if u32 (boundary * 2) <=? u32 (LONG_MAX - buffer_size)
      then double_boundary fuel (u32 (boundary * 2)) buffer_size
      else boundary
  end.

#[global] Arguments align_frames : simpl never.
#[global] Arguments double_boundary : simpl never.

Definition TSTAMP_NONE : Z := 0.
Definition TSTAMP_MMAP : Z := 1.
Definition TSTAMP_LAST : Z := TSTAMP_MMAP.

Definition params_min (p : snd_pcm_hw_params) (var : Z) : Z := i_min (hw_param_interval p var).

(** The assignments of [snd_pcm_hw_params] once the parameters are chosen and the
    driver has accepted them. *)
Definition hw_params_commit (p : snd_pcm_hw_params) (r : snd_pcm_runtime) : snd_pcm_runtime :=
  let r := r <| rt_access := s32 (snd_mask_min (hw_param_mask p HW_ACCESS)) |>
             <| rt_format := s32 (snd_mask_min (hw_param_mask p HW_FORMAT)) |>
             <| rt_subformat := s32 (snd_mask_min (hw_param_mask p HW_SUBFORMAT)) |>
             <| rt_channels := params_min p HW_CHANNELS |>
             <| rt_rate := params_min p HW_RATE |>
             <| rt_period_size := params_min p HW_PERIOD_SIZE |>
             <| rt_periods := params_min p HW_PERIODS |>
             <| rt_buffer_size := params_min p HW_BUFFER_SIZE |>
             <| rt_tick_time := params_min p HW_TICK_TIME |>
             <| rt_info := hp_info p |>
             <| rt_rate_num := hp_rate_num p |>
             <| rt_rate_den := hp_rate_den p |> in
  let bits := u32 (snd_pcm_format_physical_width (rt_format r)) in
  let r := r <| rt_sample_bits := bits |> in
  let bits := u32 (bits * rt_channels r) in
  let r := r <| rt_frame_bits := bits |> in
  let '(bits, frames) := align_frames 3 bits 1 in
  let r := r <| rt_byte_align := bits / 8 |> <| rt_min_align := frames |> in
  r <| rt_tstamp_mode := TSTAMP_NONE |>
    <| rt_period_step := 1 |>
    <| rt_sleep_min := 0 |>
    <| rt_avail_min := rt_period_size r |>
    <| rt_xfer_align := rt_period_size r |>
    <| rt_start_threshold := 1 |>
    <| rt_stop_threshold := rt_buffer_size r |>
    <| rt_silence_threshold := 0 |>
    <| rt_silence_size := 0 |>
    <| rt_boundary := double_boundary 32 (rt_buffer_size r) (rt_buffer_size r) |>
    <| rt_state := SETUP |>.
