(* ===== verification/PcmRing.v ===== *)
(** * PcmRing: the ring pointers keep track of the stream

    The pointers of a substream count frames modulo [boundary], a multiple of the
    buffer size.  The theorems relate them to unbounded frame counts: what [avail]
    computes, what the position updates preserve, where silence may be written. *)

From S2P Require Import Prelude Interval Mask PcmFormat HwParams PcmRuntime.
Open Scope Z_scope.

(** ** The boundary *)

Lemma double_boundary_spec fuel b size :
  0 < size <= LONG_MAX -> size <= b -> b <= Z.max size (LONG_MAX - size) ->
  LONG_MAX - size < b * 2 ^ Z.of_nat fuel ->
  exists k, 0 <= k /\ double_boundary fuel b size = b * 2 ^ k /\
    b * 2 ^ k <= Z.max size (LONG_MAX - size) /\ LONG_MAX - size < 2 * (b * 2 ^ k).
Proof.
  revert b. induction fuel as [| fuel IH]; intros b Hs Hb Hmax Hf.
  - exists 0. change (double_boundary 0 b size) with b. change (2 ^ Z.of_nat 0) with 1 in Hf.
    change (2 ^ 0) with 1. lia.
  - change (double_boundary (S fuel) b size) with
      (if u32 (b * 2) <=? u32 (LONG_MAX - size)
       then double_boundary fuel (u32 (b * 2)) size else b). rewrite (u32_small (LONG_MAX - size)) by word_lia.
    destruct (Z.leb_spec (u32 (b * 2)) (LONG_MAX - size)) as [H | H].
    + assert (Hu : u32 (b * 2) = b * 2) by word_lia. rewrite Hu in *.
      destruct (IH (b * 2)) as (k & Hk & -> & Hk1 & Hk2); [done | lia | lia | |].
      * rewrite Nat2Z.inj_succ, Z.pow_succ_r in Hf by lia. lia.
      * exists (k + 1). rewrite Z.pow_add_r by lia. change (2 ^ 1) with 2.
        replace (b * (2 ^ k * 2)) with (b * 2 * 2 ^ k) by ring. split; [lia | done].
    + exists 0. change (2 ^ 0) with 1. rewrite Z.mul_1_r.
      split; [done |]. split; [done |]. split; [done |].
      destruct (Z.le_gt_cases (b * 2) UINT_MAX); [rewrite u32_small in H by word_lia; lia | word_lia].
Qed.

(** What the runtime of a configured stream satisfies. *)
Record ring_config (r : snd_pcm_runtime) : Prop := {
  rc_buffer : 0 < rt_buffer_size r;
  rc_boundary : rt_boundary r mod rt_buffer_size r = 0;
  rc_boundary_ge : 2 * rt_buffer_size r <= rt_boundary r;
  rc_boundary_le : rt_boundary r + rt_buffer_size r <= LONG_MAX }.

(** The least number of frames that fills whole bytes. *)
Lemma align_frames_spec bits b f :
  is_u32 bits -> align_frames 3 bits 1 = (b, f) ->
  f ∈ [1; 2; 4; 8] /\
  (bits * 8 <= UINT_MAX -> b / 8 * 8 = bits * f /\ forall m, 0 < m < f -> (bits * m) mod 8 <> 0).
Proof.
  intros Hb.
  unfold align_frames.
    destruct (Z.eqb_spec (bits mod 8) 0) as [E0 | E0]; [intros [= <- <-]; split; [in_list | intros _; split; [word_lia | lia]] |].
    destruct (Z.eqb_spec (u32 (bits * 2) mod 8) 0) as [E1 | E1].
    { intros [= <- <-]. change (u32 (1 * 2)) with 2. split; [in_list |]. intros Hs.
      rewrite u32_small in * by word_lia. split; [word_lia |]. intros m Hm.
      assert (m = 1) as -> by lia. by rewrite Z.mul_1_r. }
    destruct (Z.eqb_spec (u32 (u32 (bits * 2) * 2) mod 8) 0) as [E2 | E2].
    { intros [= <- <-]. change (u32 (u32 (1 * 2) * 2)) with 4. split; [in_list |]. intros Hs.
      rewrite (u32_small (bits * 2)) in * by word_lia. rewrite u32_small in * by word_lia.
      split; [word_lia |]. intros m Hm. assert (m = 1 \/ m = 2 \/ m = 3) as [-> | [-> | ->]] by lia; word_lia. }
    intros [= <- <-]. change (u32 (u32 (u32 (1 * 2) * 2) * 2)) with 8. split; [in_list |]. intros Hs.
    rewrite (u32_small (bits * 2)) in * by word_lia. rewrite (u32_small (bits * 2 * 2)) in * by word_lia.
    rewrite u32_small by word_lia. split; [word_lia |]. intros m Hm.
    assert (m = 1 \/ m = 2 \/ m = 3 \/ m = 4 \/ m = 5 \/ m = 6 \/ m = 7)
      as [-> | [-> | [-> | [-> | [-> | [-> | ->]]]]]] by lia; word_lia.
Qed.

Lemma hw_params_commit_config p r :
  let size := params_min p HW_BUFFER_SIZE in
  0 < size -> 3 * size <= LONG_MAX ->
  let r' := hw_params_commit p r in
  ring_config r' /\ rt_state r' = SETUP /\ rt_buffer_size r' = size /\
  (exists k, 0 <= k /\ rt_boundary r' = size * 2 ^ k) /\
  LONG_MAX - size < 2 * rt_boundary r'.
Proof.
  cbv zeta. intros Hs H3. set (size := params_min p HW_BUFFER_SIZE) in *.
  destruct (double_boundary_spec 32 size size) as (k & Hk & Eb & Hmax & Hbig);
    [unfold LONG_MAX, INT_MAX in *; lia | lia | lia | change (2 ^ Z.of_nat 32) with 4294967296; word_lia |].
  unfold hw_params_commit. destruct (align_frames 3 _ 1) as [b f].
  assert (Hpos : 2 * size <= size * 2 ^ k).
  { destruct (Z.eq_dec k 0) as [-> | Hk0]; [change (2 ^ 0) with 1 in *; lia |].
    replace k with (1 + (k - 1)) by ring. rewrite Z.pow_add_r by lia. change (2 ^ 1) with 2.
    pose proof (Z.pow_pos_nonneg 2 (k - 1)). nia. }
  split; [split; simpl |]; fold size; rewrite ?Eb.
  - done.
  - rewrite Z.mul_comm. apply Z.mod_mul. lia.
  - exact Hpos.
  - lia.
  - simpl. fold size. rewrite Eb. split_and!; try done. by exists k.
Qed.

(** C32: Committing hardware parameters with a buffer of at most a third of the signed
    range gives a ring whose boundary is the buffer size times the largest power of
    two below the limit; the alignment is the least number of frames that fills
    whole bytes. *)
Theorem hw_params_commit_ring p r :
  let size := params_min p HW_BUFFER_SIZE in
  0 < size -> 3 * size <= LONG_MAX ->
  let r' := hw_params_commit p r in
  ring_config r' /\ rt_state r' = SETUP /\ rt_buffer_size r' = size /\
  (exists k, 0 <= k /\ rt_boundary r' = size * 2 ^ k) /\
  LONG_MAX - size < 2 * rt_boundary r' /\
  rt_min_align r' ∈ [1; 2; 4; 8] /\
  (rt_frame_bits r' * 8 <= UINT_MAX ->
     rt_byte_align r' * 8 = rt_frame_bits r' * rt_min_align r' /\
     (forall m, 0 < m < rt_min_align r' -> (rt_frame_bits r' * m) mod 8 <> 0)).
Proof.
  cbv zeta. intros Hs H3. destruct (hw_params_commit_config p r Hs H3) as (A & B & C & D & E).
  do 5 (split; [assumption |]). clear A B C D E. unfold hw_params_commit.
  set (bits := u32 (u32 _ * _)). destruct (align_frames 3 bits 1) as [b f] eqn:Ea.
  apply (align_frames_spec bits b f); [apply u32_range | exact Ea].
Qed.

(** ** Frame counts

    The total number of frames the hardware has moved is [T]; the pointer shows it
    modulo the boundary and the base is the pointer rounded down to a buffer. *)

Record tracks (r : snd_pcm_runtime) (T : Z) : Prop := {
  tk_hw : rt_hw_ptr r = T mod rt_boundary r;
  tk_base : rt_hw_ptr_base r = rt_hw_ptr r - rt_hw_ptr r mod rt_buffer_size r }.

(** A step of less than a buffer along the ring, in pointers. *)
Lemma ring_step n b T d :
  0 < n -> b mod n = 0 -> n <= b -> 0 <= d < n ->
  let o := T mod n in
  let base := T mod b - o in
  (T mod b) mod n = o /\ 0 <= base /\ base + n <= b /\ base mod n = 0 /\
  (o + d < n -> (T + d) mod b = base + o + d /\ (T + d) mod n = o + d) /\
  (n <= o + d ->
     (T + d) mod b = (if base + n =? b then 0 else base + n) + (o + d - n) /\
     (T + d) mod n = o + d - n).
Proof.
  intros Hn Hb Hle Hd. cbv zeta.
  apply Z.mod_divide in Hb as [k Hk]; [| lia].
  assert (Hk0 : 0 < k) by nia.
  pose proof (Z.div_mod T n ltac:(lia)) as E. pose proof (Z.mod_pos_bound T n Hn) as B.
  set (o := T mod n) in *. set (q := T / n) in *.
  pose proof (Z.div_mod q k ltac:(lia)) as Eq. pose proof (Z.mod_pos_bound q k Hk0) as Bq.
  set (c := q mod k) in *. set (w := q / k) in *.
  assert (Hmod : T mod b = n * c + o).
  { symmetry. apply (Z.mod_unique _ _ w); [left; nia |]. subst b. rewrite E, Eq. ring. }
  rewrite Hmod.
  assert (Hbase : n * c + o - o = n * c) by ring. rewrite Hbase.
  split_and!.
  - rewrite Z.add_comm, Z.mul_comm, Z.mod_add, Z.mod_small by lia. done.
  - nia.
  - subst b. nia.
  - rewrite Z.mul_comm. apply Z.mod_mul. lia.
  - intros Hlt. split.
    + symmetry. apply (Z.mod_unique _ _ w); [left; subst b; nia |]. subst b. rewrite E, Eq. ring.
    + symmetry. apply (Z.mod_unique _ _ q); [left; lia |]. lia.
  - intros Hge. split.
    + destruct (Z.eqb_spec (n * c + n) b) as [Ew | Ew].
      * symmetry. apply (Z.mod_unique _ _ (w + 1)); [left; lia |]. subst b. rewrite E, Eq.
        assert (c + 1 = k) by nia. nia.
      * symmetry. apply (Z.mod_unique _ _ w); [left; subst b; assert (c + 1 < k) by nia; nia |].
        subst b. rewrite E, Eq. ring.
    + symmetry. apply (Z.mod_unique _ _ (q + 1)); [left; lia |]. lia.
Qed.

(** The part of the runtime the pointers live in. *)
Definition ring_view (r : snd_pcm_runtime) :=
  (rt_hw_ptr r, rt_hw_ptr_base r, rt_hw_ptr_interrupt r, rt_appl_ptr r, rt_state r,
   (rt_boundary r, rt_buffer_size r, rt_period_size r, rt_min_align r)).

Lemma silence_view sil r : ring_view (snd_pcm_playback_silence sil r) = ring_view r.
Proof.
  assert (H : ring_view (silence_forget r) = ring_view r)
    by (unfold silence_forget; by destruct (_ =? _)).
  unfold snd_pcm_playback_silence. cbv zeta. rewrite <- H. generalize (silence_forget r). intros q.
  destruct (_ =? _); [done |]. destruct (negb _); [done |]. by destruct (_ <? _).
Qed.

Lemma notify_view sil r avail : ring_view (hw_ptr_notify sil r avail) = ring_view r.
Proof.
  unfold hw_ptr_notify. destruct (_ <=? _); destruct (_ && _); rewrite ?silence_view; done.
Qed.

Lemma track_view r avail : ring_view (track_avail_max r avail) = ring_view r.
Proof. unfold track_avail_max. by destruct (_ <? _). Qed.

Lemma tracks_view r r' T : ring_view r = ring_view r' -> tracks r T -> tracks r' T.
Proof.
  unfold ring_view. intros [= E1 E2 E3 E4 E5 E6 E7 E8 E9] [H B].
  split; rewrite <- ?E1, <- ?E2, <- ?E6, <- ?E7; done.
Qed.

(** The pointer and base that the common part of the updates computes, when the
    hardware has moved [d] frames on to [T + d]. *)
Lemma moved_ok r T d :
  ring_config r -> tracks r T -> 0 <= d < rt_buffer_size r ->
  let n := rt_buffer_size r in
  let pos := (T + d) mod n in
  let new := rt_hw_ptr_base r + pos in
  (new = (T + d) mod rt_boundary r /\ rt_hw_ptr_base r = new - new mod n /\
   new = rt_hw_ptr r + d /\ T mod n + d < n) \/
  (new = rt_hw_ptr r + d - n /\
   (let base := advance_base r in
    base + pos = (T + d) mod rt_boundary r /\ base = (base + pos) - (base + pos) mod n) /\ n <= T mod n + d).
Proof.
  intros [Hb Hm Hge Hle] [Hhw Hbase] Hd. cbv zeta.
  pose proof (ring_step (rt_buffer_size r) (rt_boundary r) T d Hb Hm ltac:(lia) Hd) as S. cbv zeta in S.
  rewrite <- Hhw in S. destruct S as (S1 & S2 & S3 & S4 & S5 & S6).
  rewrite Hbase, S1. pose proof (Z.mod_pos_bound T (rt_buffer_size r) Hb) as B.
  set (n := rt_buffer_size r) in *. set (o := T mod n) in *. set (hw := rt_hw_ptr r) in *.
  assert (Hmul : forall x, x mod n = 0 -> forall y, 0 <= y < n -> (x + y) mod n = y).
  { intros x Hx y Hy. rewrite Z.add_mod, Hx, Z.add_0_l, Z.mod_mod, Z.mod_small by lia. done. }
  destruct (Z.lt_ge_cases (o + d) n) as [Hlt | Hwrap].
  - left. destruct (S5 Hlt) as [E1 E2]. rewrite E2, E1.
    replace (hw - o + (o + d)) with (hw - o + o + d) by ring.
    split; [done |]. rewrite <- Z.add_assoc, (Hmul (hw - o)) by lia. lia.
  - right. destruct (S6 Hwrap) as [E1 E2]. rewrite E2, E1.
    assert (Ea : advance_base r = if hw - o + n =? rt_boundary r then 0 else hw - o + n).
    { unfold advance_base. rewrite Hbase. fold hw n. rewrite S1.
      rewrite u32_small by word_lia. done. }
    rewrite Ea. split; [lia |]. split; [| done]. split; [done |].
    destruct (Z.eqb_spec (hw - o + n) (rt_boundary r)).
    + rewrite Z.add_0_l, Z.mod_small by lia. lia.
    + rewrite (Hmul (hw - o + n)); [lia | | lia].
      rewrite Z.add_mod, S4, Z.mod_same, Z.add_0_l by lia. apply Z.mod_0_l. lia.
Qed.

Lemma base_nonneg r T : ring_config r -> tracks r T -> 0 <= rt_hw_ptr_base r.
Proof.
  intros [Hb _ Hge _] [Hhw ->]. pose proof (Z.mod_pos_bound T (rt_boundary r) ltac:(lia)).
  pose proof (Z.mod_le (rt_hw_ptr r) (rt_buffer_size r)). lia.
Qed.

(** The position a driver reports, rounded down to the alignment. *)
Lemma aligned_pos r T' :
  ring_config r -> 0 < rt_min_align r -> rt_buffer_size r mod rt_min_align r = 0 ->
  let A := T' - T' mod rt_min_align r in
  T' mod rt_buffer_size r - (T' mod rt_buffer_size r) mod rt_min_align r = A mod rt_buffer_size r.
Proof.
  intros [Hb _ _ _] Ha Hdiv. cbv zeta. apply Z.mod_divide in Hdiv as [k Hk]; [| lia].
  set (n := rt_buffer_size r) in *. set (a := rt_min_align r) in *.
  pose proof (Z.div_mod T' n ltac:(lia)) as E. pose proof (Z.mod_pos_bound T' n Hb) as B.
  assert (Em : (T' mod n) mod a = T' mod a).
  { rewrite <- (Z.mod_add (T' mod n) (k * (T' / n)) a) by lia. f_equal. rewrite E at 3. rewrite Hk. ring. }
  rewrite Em. pose proof (Z.mod_pos_bound T' a Ha). pose proof (Z.mod_le (T' mod n) a ltac:(lia) Ha).
  rewrite Em in *. apply (Z.mod_unique _ _ (T' / n)); [left; lia | lia].
Qed.

(** [snd_pcm_update_hw_ptr] keeps track: when the hardware has moved on by at most
    half a buffer since the last update, the new pointer is the new position modulo
    the boundary, rounded down to the frame alignment. *)
Theorem update_hw_ptr_tracks sil r T T' :
  ring_config r -> tracks r T ->
  0 < rt_min_align r -> rt_buffer_size r mod rt_min_align r = 0 ->
  let A := T' - T' mod rt_min_align r in
  T <= A < T + rt_buffer_size r -> A - T <= rt_buffer_size r - rt_buffer_size r / 2 ->
  let '(err, r') := snd_pcm_update_hw_ptr sil (T' mod rt_buffer_size r) r in
  err = 0 /\ tracks r' A /\ rt_appl_ptr r' = rt_appl_ptr r /\ rt_state r' = rt_state r.
Proof.
  intros C Tr Ha Hdiv. cbv zeta. intros HT Hhalf. pose proof C as [Hb Hm Hge Hle].
  pose proof (Z.mod_pos_bound T' _ Hb) as Bp.
  unfold snd_pcm_update_hw_ptr. destruct (Z.leb_spec (T' mod rt_buffer_size r) (rt_buffer_size r)); [| lia].
  cbv zeta. cbn [negb]. rewrite (aligned_pos r T' C Ha Hdiv).
  set (A := T' - T' mod rt_min_align r) in *.
  pose proof (moved_ok r T (A - T) C Tr ltac:(lia)) as M. cbv zeta in M.
  replace (T + (A - T)) with A in M by ring.
  pose proof (Z.mod_pos_bound A (rt_boundary r) ltac:(lia)) as BA.
  pose proof (Z.mod_pos_bound A (rt_buffer_size r) Hb) as BA'.
  pose proof (Z.mod_pos_bound T (rt_boundary r) ltac:(lia)) as BT.
  pose proof (tk_hw r T Tr) as Hhw. pose proof (base_nonneg r T C Tr) as Hbase.
  set (pos := A mod rt_buffer_size r) in *. set (base := rt_hw_ptr_base r) in *.
  assert (Hfin : forall q, ring_view q = ring_view (r <| rt_hw_ptr_base := rt_hw_ptr_base q |> <| rt_hw_ptr := rt_hw_ptr q |>) ->
    rt_hw_ptr q = A mod rt_boundary r -> rt_hw_ptr_base q = rt_hw_ptr q - rt_hw_ptr q mod rt_buffer_size r ->
    forall avail,
    let '(err, r') := (let q := track_avail_max q avail in
                       if rt_stop_threshold q <=? avail then (0, q) else (0, hw_ptr_notify sil q avail)) in
    err = 0 /\ tracks r' A /\ rt_appl_ptr r' = rt_appl_ptr r /\ rt_state r' = rt_state r).
  { intros q Hv E1 E2 avail.
    assert (Hq : forall q', ring_view q' = ring_view q ->
              tracks q' A /\ rt_appl_ptr q' = rt_appl_ptr r /\ rt_state q' = rt_state r).
    { intros q' Hq'. rewrite Hv in Hq'. unfold ring_view in Hq'. simpl in Hq'.
      injection Hq' as H1 H2 H3 H4 H5 H6 H7 H8 H9. rewrite H4, H5.
      split; [| done]. split; rewrite ?H1, ?H2, ?H6, ?H7; done. }
    cbv zeta. destruct (_ <=? avail); (split; [done |]); apply Hq; rewrite ?notify_view; apply track_view. }
  destruct M as [(E1 & E2 & E3 & E4) | (E1 & E2 & E4)].
  - rewrite (u32_small (base + pos)) by range_lia. rewrite s32_small by range_lia.
    destruct (Z.ltb_spec 0 (rt_hw_ptr r - (base + pos))); [lia |]. apply Hfin; simpl; done.
  - rewrite (u32_small (base + pos)) by range_lia. rewrite s32_small by range_lia.
    destruct (Z.ltb_spec 0 (rt_hw_ptr r - (base + pos))); [| lia].
    destruct (Z.ltb_spec (rt_hw_ptr r - (base + pos)) (rt_buffer_size r / 2)); [lia |].
    destruct E2 as [E2 E3]. rewrite (u32_small (advance_base r + pos)) by range_lia.
    apply Hfin; simpl; done.
Qed.

(** C26: the interrupt update keeps track too, as long as no position update crossed the
    boundary since the last interrupt (if one did, a buffer too much is added,
    [update_hw_ptr_interrupt_jumps_at_boundary]): when the interrupt comes at most half a buffer
    late, pointer, base and interrupt position are exact, whether or not the stream
    is stopped for an overrun. *)
Theorem update_hw_ptr_interrupt_tracks sil r T T' I :
  ring_config r -> tracks r T ->
  0 < rt_min_align r -> rt_buffer_size r mod rt_min_align r = 0 ->
  0 < rt_period_size r -> rt_buffer_size r mod rt_period_size r = 0 ->
  let A := T' - T' mod rt_min_align r in
  T <= A < T + rt_buffer_size r ->
  rt_hw_ptr_interrupt r = rt_hw_ptr r - (T - I) -> 0 <= rt_hw_ptr_interrupt r ->
  let late := A - (I + rt_period_size r) in
  I <= T -> 0 <= late < rt_buffer_size r -> late <= rt_buffer_size r - rt_buffer_size r / 2 ->
  let '(err, stop, r') := snd_pcm_update_hw_ptr_interrupt sil (T' mod rt_buffer_size r) r in
  tracks r' A /\ rt_hw_ptr_interrupt r' = rt_hw_ptr r' - A mod rt_period_size r /\
  (err = 0 /\ stop = None \/
   err = -EPIPE /\ stop = Some (if state_is (rt_state r) DRAINING then SETUP else XRUN)).
Proof.
  intros C Tr Ha Hdiv Hp Hpd. cbv zeta. intros HT HI HI0 HIT Hlate Hhalf. pose proof C as [Hb Hm Hge Hle].
  pose proof (Z.mod_pos_bound T' _ Hb) as Bp.
  unfold snd_pcm_update_hw_ptr_interrupt.
  destruct (Z.leb_spec (T' mod rt_buffer_size r) (rt_buffer_size r)); [| lia].
  cbv zeta. cbn [negb]. rewrite (aligned_pos r T' C Ha Hdiv).
  set (A := T' - T' mod rt_min_align r) in *.
  pose proof (moved_ok r T (A - T) C Tr ltac:(lia)) as M. cbv zeta in M.
  replace (T + (A - T)) with A in M by ring.
  pose proof (Z.mod_pos_bound A (rt_boundary r) ltac:(lia)) as BA.
  pose proof (Z.mod_pos_bound A (rt_buffer_size r) Hb) as BA'.
  pose proof (Z.mod_pos_bound T (rt_boundary r) ltac:(lia)) as BT.
  pose proof (tk_hw r T Tr) as Hhw. pose proof (base_nonneg r T C Tr) as Hbase.
  assert (Hper : (A mod rt_buffer_size r) mod rt_period_size r = A mod rt_period_size r).
  { apply Z.mod_divide in Hpd as [k Hk]; [| lia]. pose proof (Z.div_mod A (rt_buffer_size r) ltac:(lia)) as E.
    rewrite <- (Z.mod_add (A mod rt_buffer_size r) (k * (A / rt_buffer_size r)) (rt_period_size r)) by lia.
    f_equal. rewrite E at 3. rewrite Hk. ring. }
  set (pos := A mod rt_buffer_size r) in *. set (base := rt_hw_ptr_base r) in *.
  pose proof (Z.mod_pos_bound A (rt_period_size r) Hp) as BP.
  assert (Hfin : forall b hw, hw = A mod rt_boundary r -> b = hw - hw mod rt_buffer_size r ->
    A mod rt_period_size r <= hw ->
    let q := r <| rt_hw_ptr_base := b |> <| rt_hw_ptr := hw |>
               <| rt_hw_ptr_interrupt := u32 (hw - pos mod rt_period_size r) |> in
    forall q', ring_view q' = ring_view q ->
    tracks q' A /\ rt_hw_ptr_interrupt q' = rt_hw_ptr q' - A mod rt_period_size r).
  { intros b hw E1 E2 E3 q q' Hv. unfold ring_view in Hv. simpl in Hv.
    injection Hv as H1 H2 H3 H4 H5 H6 H7 H8 H9.
    split; [split; rewrite ?H1, ?H2, ?H6, ?H7; done |].
    rewrite H3, H1, Hper. apply u32_small. range_lia. }
  assert (Hend : forall q avail, state_is (rt_state q) DRAINING = state_is (rt_state r) DRAINING ->
    (forall q', ring_view q' = ring_view q ->
       tracks q' A /\ rt_hw_ptr_interrupt q' = rt_hw_ptr q' - A mod rt_period_size r) ->
    let '(err, stop, r') :=
      (let q := track_avail_max q avail in
       if rt_stop_threshold q <=? avail
       then (-EPIPE, Some (if state_is (rt_state q) DRAINING then SETUP else XRUN), q)
       else (0, None, hw_ptr_notify sil q avail)) in
    tracks r' A /\ rt_hw_ptr_interrupt r' = rt_hw_ptr r' - A mod rt_period_size r /\
    (err = 0 /\ stop = None \/
     err = -EPIPE /\ stop = Some (if state_is (rt_state r) DRAINING then SETUP else XRUN))).
  { intros q avail Hs Hq. cbv zeta.
    assert (Hst : rt_state (track_avail_max q avail) = rt_state q)
      by (unfold track_avail_max; by destruct (_ <? _)).
    destruct (_ <=? avail).
    - destruct (Hq _ (track_view q avail)) as [? ?]. rewrite Hst, Hs. auto.
    - destruct (Hq (hw_ptr_notify sil (track_avail_max q avail) avail)) as [? ?]; [| auto].
      by rewrite notify_view, track_view. }
  assert (Hmodle : forall hw, 0 <= hw -> hw - hw mod rt_buffer_size r + pos = hw ->
            A mod rt_period_size r <= hw).
  { intros hw H0 H1. rewrite <- Hper. pose proof (Z.mod_le pos (rt_period_size r) ltac:(lia) Hp).
    pose proof (Z.mod_le hw (rt_buffer_size r) H0 Hb). lia. }
  destruct M as [(E1 & E2 & E3 & E4) | (E1 & (E2 & E3) & E4)].
  - rewrite (u32_small (base + pos)) by range_lia.
    rewrite (u32_small (rt_hw_ptr_interrupt r + rt_period_size r)) by range_lia.
    rewrite s32_small by range_lia.
    destruct (Z.ltb_spec 0 (rt_hw_ptr_interrupt r + rt_period_size r - (base + pos))); [lia |].
    apply Hend; [done |]. intros q' Hq'. apply (Hfin base (base + pos)); [done | lia | | done].
    apply Hmodle; lia.
  - rewrite (u32_small (base + pos)) by range_lia.
    rewrite (u32_small (rt_hw_ptr_interrupt r + rt_period_size r)) by range_lia.
    rewrite s32_small by range_lia.
    destruct (Z.ltb_spec 0 (rt_hw_ptr_interrupt r + rt_period_size r - (base + pos))); [| lia].
    destruct (Z.ltb_spec (rt_hw_ptr_interrupt r + rt_period_size r - (base + pos)) (rt_buffer_size r / 2));
      [lia |].
    rewrite (u32_small (advance_base r + pos)) by range_lia.
    apply Hend; [done |]. intros q' Hq'.
    apply (Hfin (advance_base r) (advance_base r + pos)); [done | done | | done].
    apply Hmodle; lia.
Qed.

(** ** A sample stream: 4096 frames of 16-bit stereo in four periods *)

Definition sample_stream : snd_pcm_runtime :=
  Runtime true RUNNING 0 0 1024 0 0 0 3 2 0 48000 2 1024 4 4096 10000 1 4 32 16 0 48000 1 1 0 1024
    1 4096 0 0 8192 0 0 [] 0 0 0 0 0 0.

Lemma hw_params_commit_ring_witness :
  let p := put_interval (HwParams 0 [shl32 1 3; 0; shl32 1 2; 1]
             (replicate 12 (Itv 2 2 false false true false)) 0 0 0 0 0 0 0)
             HW_BUFFER_SIZE (Itv 4096 4096 false false true false) in
  rt_boundary (hw_params_commit p sample_stream) = 4096 * 2 ^ 18 /\
  LONG_MAX - 4096 < 2 * rt_boundary (hw_params_commit p sample_stream).
Proof.
  intros p. split; [vm_compute; reflexivity |].
  apply (hw_params_commit_ring p sample_stream); vm_compute; discriminate || reflexivity.
Defined.

Lemma sample_stream_config hw base int appl :
  ring_config (sample_stream <| rt_hw_ptr := hw |> <| rt_hw_ptr_base := base |>
                             <| rt_hw_ptr_interrupt := int |> <| rt_appl_ptr := appl |>).
Proof. split; vm_compute; congruence. Qed.

Lemma update_hw_ptr_tracks_witness :
  let r := sample_stream <| rt_hw_ptr := 4000 |> <| rt_hw_ptr_base := 0 |>
             <| rt_hw_ptr_interrupt := 3072 |> <| rt_appl_ptr := 8000 |> in
  tracks (snd_pcm_update_hw_ptr None (4200 mod 4096) r).2 4200.
Proof.
  cbv zeta. set (r := _ <| rt_appl_ptr := 8000 |>).
  assert (Tr : tracks r 4000) by (split; reflexivity).
  pose proof (update_hw_ptr_tracks None r 4000 4200 (sample_stream_config 4000 0 3072 8000) Tr
    ltac:(reflexivity) ltac:(reflexivity) ltac:(vm_compute; split; congruence)
    ltac:(vm_compute; congruence)) as H.
  change (rt_buffer_size r) with 4096 in H. cbv zeta in H.
  destruct (snd_pcm_update_hw_ptr None (4200 mod 4096) r) as [err r']. apply H.
Defined.

Lemma update_hw_ptr_interrupt_tracks_witness :
  let r := sample_stream <| rt_hw_ptr := 3500 |> <| rt_hw_ptr_base := 0 |>
             <| rt_hw_ptr_interrupt := 3072 |> <| rt_appl_ptr := 7000 |> in
  tracks (snd_pcm_update_hw_ptr_interrupt None (4110 mod 4096) r).2 4110.
Proof.
  cbv zeta. set (r := _ <| rt_appl_ptr := 7000 |>).
  assert (Tr : tracks r 3500) by (split; reflexivity).
  pose proof (update_hw_ptr_interrupt_tracks None r 3500 4110 3072 (sample_stream_config 3500 0 3072 7000)
    Tr ltac:(reflexivity) ltac:(reflexivity) ltac:(reflexivity) ltac:(reflexivity)
    ltac:(vm_compute; split; congruence) ltac:(reflexivity) ltac:(vm_compute; congruence)
    ltac:(vm_compute; congruence) ltac:(vm_compute; split; congruence) ltac:(vm_compute; congruence)) as H.
  change (rt_buffer_size r) with 4096 in H. cbv zeta in H.
  destruct (snd_pcm_update_hw_ptr_interrupt None (4110 mod 4096) r) as [[err stop] r']. apply H.
Defined.

(** At the boundary the interrupt update loses track.  The stream is one period
    before the boundary; a position query in between wraps the base to 0; the next
    interrupt, at frame 110 of the new round, then takes the wrapped pointer for a
    stale one and reports a position one whole buffer too far. *)
Theorem update_hw_ptr_interrupt_jumps_at_boundary :
  let r := sample_stream <| rt_hw_ptr := 7168 |> <| rt_hw_ptr_base := 4096 |>
             <| rt_hw_ptr_interrupt := 7168 |> <| rt_appl_ptr := 1000 |> in
  tracks r 7168 /\
  let queried := (snd_pcm_update_hw_ptr None (8292 mod 4096) r).2 in
  tracks queried 8292 /\
  let '(err, stop, r') := snd_pcm_update_hw_ptr_interrupt None (8302 mod 4096) queried in
  err = -EPIPE /\ stop = Some XRUN /\ rt_hw_ptr r' = 8302 mod 8192 + 4096.
Proof. vm_compute. repeat split. Qed.

(** ** Available frames *)

Lemma avail_totals r H A :
  ring_config r -> rt_hw_ptr r = H mod rt_boundary r -> rt_appl_ptr r = A mod rt_boundary r ->
  (rt_buffer_size r - rt_boundary r < A - H <= rt_buffer_size r ->
     snd_pcm_playback_avail r = rt_buffer_size r - (A - H)) /\
  (0 <= A - H <= rt_buffer_size r -> snd_pcm_playback_hw_avail r = A - H) /\
  (0 <= H - A < rt_boundary r -> snd_pcm_capture_avail r = H - A).
Proof.
  intros [Hb Hm Hge Hle] Eh Ea.
  pose proof (Z.mod_pos_bound H (rt_boundary r) ltac:(lia)) as BH.
  pose proof (Z.mod_pos_bound A (rt_boundary r) ltac:(lia)) as BA.
  pose proof (Z.div_mod H (rt_boundary r) ltac:(lia)) as DH.
  pose proof (Z.div_mod A (rt_boundary r) ltac:(lia)) as DA.
  rewrite <- Eh in BH, DH. rewrite <- Ea in BA, DA.
  set (h := rt_hw_ptr r) in *. set (a := rt_appl_ptr r) in *. set (b := rt_boundary r) in *.
  set (n := rt_buffer_size r) in *. set (kh := H / b) in *. set (ka := A / b) in *.
  assert (Hplay : n - b < A - H <= n -> snd_pcm_playback_avail r = n - (A - H)).
  { intros Hd. unfold snd_pcm_playback_avail. fold h a b n. rewrite s32_small by range_lia.
    assert (ka - kh = 0 \/ ka - kh = 1 \/ ka - kh = -1) as [E | [E | E]] by nia.
    - assert (ka = kh) by lia. assert (A - H = a - h) by nia.
      destruct (Z.ltb_spec (h + n - a) 0); [lia |].
      destruct (Z.leb_spec b (h + n - a)); [lia |]. rewrite u32_small by range_lia. lia.
    - assert (A - H = a - h + b) by nia. destruct (Z.ltb_spec (h + n - a) 0); [lia |].
      destruct (Z.leb_spec b (h + n - a)); rewrite u32_small by range_lia; lia.
    - assert (A - H = a - h - b) by nia. destruct (Z.ltb_spec (h + n - a) 0).
      + rewrite u32_small by range_lia. lia.
      + destruct (Z.leb_spec b (h + n - a)); rewrite u32_small by range_lia; lia. }
  split; [exact Hplay |]. split.
  - intros Hd. unfold snd_pcm_playback_hw_avail. fold n. rewrite Hplay by lia.
    rewrite u32_small by range_lia. lia.
  - intros Hd. unfold snd_pcm_capture_avail. fold h a b. rewrite s32_small by range_lia.
    assert (kh - ka = 0 \/ kh - ka = 1) as [E | E] by nia.
    + assert (kh = ka) by lia. assert (H - A = h - a) by nia.
      destruct (Z.ltb_spec (h - a) 0); [lia |]. rewrite u32_small by range_lia. lia.
    + assert (H - A = h - a + b) by nia.
      destruct (Z.ltb_spec (h - a) 0); [| lia]. rewrite u32_small by range_lia. lia.
Qed.

Lemma avail_hw r H A :
  ring_config r -> rt_hw_ptr r = H mod rt_boundary r -> rt_appl_ptr r = A mod rt_boundary r ->
  0 <= A - H <= rt_buffer_size r -> snd_pcm_playback_hw_avail r = A - H.
Proof. intros C Eh Ea Hd. by apply (avail_totals r H A). Qed.

(** With [H] frames moved by the hardware and [A] by the application, the available
    room is the buffer less the queued frames for playback, and the frames recorded
    and not yet read for capture: also past an underrun, as long as the counts differ
    by less than the boundary less a buffer. *)
Theorem avail_counts r H A :
  ring_config r -> rt_hw_ptr r = H mod rt_boundary r -> rt_appl_ptr r = A mod rt_boundary r ->
  (rt_buffer_size r - rt_boundary r < A - H <= rt_buffer_size r ->
     snd_pcm_playback_avail r = rt_buffer_size r - (A - H)) /\
  (0 <= A - H <= rt_buffer_size r -> snd_pcm_playback_hw_avail r = A - H) /\
  (0 <= H - A < rt_boundary r -> snd_pcm_capture_avail r = H - A).
Proof. apply avail_totals. Qed.

Lemma avail_counts_witness :
  snd_pcm_playback_avail (sample_stream <| rt_hw_ptr := 8000 mod 8192 |>
                                        <| rt_appl_ptr := 9000 mod 8192 |>) = 4096 - 1000.
Proof.
  set (r := _ <| rt_appl_ptr := _ |>).
  destruct (avail_counts r 8000 9000) as [P _]; [split; vm_compute; congruence | done | done |].
  apply P. vm_compute. split; congruence.
Defined.

(** ** Silence *)

(** Filling writes no byte past the samples it is asked for. *)
Lemma set_silence_local format samples mem i :
  0 <= samples -> 0 <= snd_pcm_format_physical_width format ->
  samples * snd_pcm_format_physical_width format <= Z.of_nat i * 8 ->
  (snd_pcm_format_set_silence format samples mem).2 !! i = mem !! i.
Proof.
  intros Hs Hp Hi.
  assert (Hst : forall bytes, (length bytes <= i)%nat -> store bytes mem !! i = mem !! i).
  { intros bytes Hl. unfold store. rewrite lookup_app_r by done. rewrite lookup_drop. f_equal. lia. }
  assert (Hfill : forall n v, samples * Z.of_nat n <= Z.of_nat i -> fill n v samples mem !! i = mem !! i).
  { intros n v Hn. apply Hst. rewrite length_concat_replicate.
    assert (Hl : forall n v, length (le_bytes n v) = n) by (induction n0; intros; simpl; auto).
    rewrite Hl. lia. }
  unfold snd_pcm_format_set_silence. destruct (Z.eqb_spec samples 0); [done |].
  unfold snd_pcm_format_width, snd_pcm_format_physical_width in *.
  destruct (format_of format) as [[] |]; simpl in *; try done; try (unfold EINVAL in Hp; lia);
    try (apply Hfill; lia); try (apply Hst; rewrite length_replicate; lia).
  destruct (Z.eqb_spec (samples mod 2) 0); simpl; [| done].
  apply Hst. rewrite length_replicate. Z.div_mod_to_equations. lia.
Qed.

Lemma silence_at_local format samples off mem (i : nat) :
  0 <= samples -> 0 <= snd_pcm_format_physical_width format -> 0 <= off <= Z.of_nat (length mem) ->
  (Z.of_nat i < off \/ samples * snd_pcm_format_physical_width format <= (Z.of_nat i - off) * 8) ->
  silence_at format samples off mem !! i = mem !! i.
Proof.
  intros Hs Hp Ho Hi. unfold silence_at, at_offset.
  destruct (Z.lt_ge_cases (Z.of_nat i) off) as [Hlt | Hge].
  - rewrite lookup_app_l by (rewrite length_take; lia). apply lookup_take_lt. lia.
  - rewrite lookup_app_r by (rewrite length_take; lia). rewrite length_take, Nat.min_l by lia.
    rewrite set_silence_local by (try done; lia). rewrite lookup_drop. f_equal. lia.
Qed.

(** The frames that [snd_pcm_playback_silence] silences, if any: [frames] frames from
    [ofs], the first [silenced_size] frames after the application pointer skipped. *)
Definition silence_spec (sil : option (Z -> Z -> Z -> list Z -> list Z)) (r : snd_pcm_runtime)
    (q : Z) (a : Z) (r' : snd_pcm_runtime) : Prop :=
  (rt_dma_area r' = rt_dma_area r) \/
  exists s ofs frames,
    0 <= s < rt_buffer_size r /\ 0 <= frames /\ q + s + frames <= rt_buffer_size r /\
    ofs = (a + s) mod rt_buffer_size r /\ ofs + frames <= rt_buffer_size r /\
    rt_dma_area r' = fill_silence sil r ofs frames.

Lemma forget_fields r :
  let f := silence_forget r in
  rt_silenced_start f = rt_appl_ptr r /\ rt_buffer_size f = rt_buffer_size r /\
  rt_silence_threshold f = rt_silence_threshold r /\ rt_silence_size f = rt_silence_size r /\
  snd_pcm_playback_hw_avail f = snd_pcm_playback_hw_avail r /\
  rt_dma_area f = rt_dma_area r /\
  forall sil ofs frames, fill_silence sil f ofs frames = fill_silence sil r ofs frames.
Proof.
  unfold silence_forget. destruct (Z.eqb_spec (rt_silenced_start r) (rt_appl_ptr r)) as [E | _]; [done |].
  cbv zeta. by split_and!.
Qed.

Lemma forget_size r : is_u32 (rt_silenced_size r) -> is_u32 (rt_silenced_size (silence_forget r)).
Proof.
  intros Hs. unfold silence_forget. destruct (_ =? _); [done |]. simpl.
  destruct (u32 _ <? _); [apply u32_range | unfold is_u32; lia].
Qed.

Lemma silence_region sil r q a :
  ring_config r -> snd_pcm_playback_hw_avail r = q -> 0 <= q <= rt_buffer_size r ->
  rt_appl_ptr r mod rt_buffer_size r = a mod rt_buffer_size r ->
  0 <= rt_silence_threshold r -> 0 <= rt_silence_size r ->
  rt_silence_threshold r + rt_silence_size r <= rt_buffer_size r ->
  is_u32 (rt_silenced_size r) ->
  silence_spec sil r q a (snd_pcm_playback_silence sil r).
Proof.
  intros [Hb Hm Hge Hle] Hq Hqb Ha Ht Hz Hsum Hs.
  destruct (forget_fields r) as (E1 & E2 & E3 & E4 & E5 & E6 & E7). pose proof (forget_size r Hs) as Hs'.
  unfold snd_pcm_playback_silence. cbv zeta. set (f := silence_forget r) in *.
  rewrite E1, E2, E3, E4, E5, Hq. set (s := rt_silenced_size f) in *. set (n := rt_buffer_size r) in *.
  destruct (Z.eqb_spec s n); [left; exact E6 |]. destruct (Z.leb_spec s n); simpl; [| left; exact E6].
  unfold is_u32 in Hs'.
  rewrite (s32_small (q + s)) by range_lia. rewrite (s32_small (rt_silence_threshold r)) by range_lia.
  destruct (Z.ltb_spec (rt_silence_threshold r) (q + s)); [left; exact E6 |].
  rewrite (u32_small (rt_silence_threshold r - (q + s))) by range_lia.
  set (fr := if _ <? rt_silence_size r then _ else _).
  assert (Hfr : 0 <= fr /\ q + s + fr <= n).
  { subst fr. destruct (Z.ltb_spec (rt_silence_threshold r - (q + s)) (rt_silence_size r)); lia. }
  clearbody fr. rewrite (u32_small (s + fr)) by range_lia.
  destruct (Z.ltb_spec n (s + fr)); [lia |].
  pose proof (Z.mod_pos_bound a n Hb) as Ba. rewrite Ha.
  rewrite (u32_small (a mod n + s)) by range_lia.
  set (ofs := if n <=? a mod n + s then _ else _).
  assert (Eofs : ofs = (a + s) mod n).
  { subst ofs. rewrite <- Z.add_mod_idemp_l by lia. destruct (Z.leb_spec n (a mod n + s)).
    - rewrite u32_small by range_lia. apply (Z.mod_unique _ _ 1); [left; lia | lia].
    - symmetry. apply Z.mod_small. lia. }
  pose proof (Z.mod_pos_bound (a + s) n Hb) as Bo. rewrite <- Eofs in Bo. clearbody ofs.
  right. exists s, ofs, (if n <? u32 (ofs + fr) then u32 (n - ofs) else fr).
  rewrite (u32_small (ofs + fr)) by range_lia. rewrite (u32_small (n - ofs)) by range_lia.
  split; [lia |]. simpl rt_dma_area. rewrite E7.
  destruct (Z.ltb_spec n (ofs + fr)); split_and!; try done; lia.
Qed.

(** C27: silence filling never overwrites queued audio.  With interleaved frames of whole
    bytes and thresholds whose sum does not wrap around (those for which it does pass the check
    of [sw_params], [sw_params_wrap_silences_queue] in PcmCalls.v), every byte of every
    frame that is written and not yet played is left as it was. *)
Theorem silence_spares_queued r H A F i j :
  ring_config r -> rt_hw_ptr r = H mod rt_boundary r -> rt_appl_ptr r = A mod rt_boundary r ->
  0 <= A - H <= rt_buffer_size r ->
  0 <= rt_silence_threshold r -> 0 <= rt_silence_size r ->
  rt_silence_threshold r + rt_silence_size r <= rt_buffer_size r -> is_u32 (rt_silenced_size r) ->
  interleaved r = true -> 0 < F -> 0 <= rt_channels r ->
  0 <= snd_pcm_format_physical_width (rt_format r) ->
  rt_frame_bits r = 8 * F -> snd_pcm_format_physical_width (rt_format r) * rt_channels r = 8 * F ->
  rt_buffer_size r * (8 * F) <= UINT_MAX -> rt_buffer_size r * rt_channels r <= UINT_MAX ->
  dma_bytes r = rt_buffer_size r * F ->
  0 <= i < A - H -> 0 <= j < F ->
  let byte := Z.to_nat ((H + i) mod rt_buffer_size r * F + j) in
  rt_dma_area (snd_pcm_playback_silence None r) !! byte = rt_dma_area r !! byte.
Proof.
  intros C Eh Ea Hq Ht Hz Hsum Hs Hint HF Hch Hpw Hfb Hpc Hov Hovc Hdma Hi Hj. cbv zeta.
  pose proof C as [Hb Hm Hge Hle]. set (n := rt_buffer_size r) in *.
  assert (Eq : snd_pcm_playback_hw_avail r = A - H) by (by apply (avail_hw r H A)).
  assert (Ea' : rt_appl_ptr r mod n = A mod n).
  { rewrite Ea. apply Z.mod_divide in Hm as [k Hk]; [| lia].
    pose proof (Z.div_mod A (rt_boundary r) ltac:(lia)) as E.
    rewrite <- (Z.mod_add (A mod rt_boundary r) (k * (A / rt_boundary r)) n) by lia.
    f_equal. rewrite E at 3. rewrite Hk. ring. }
  destruct (silence_region None r (A - H) A C Eq Hq Ea' Ht Hz Hsum Hs)
    as [-> | (s & ofs & fr & Hs' & Hfr & Hsp & Eofs & Hofs & ->)]; [done |]. fold n in Hs', Hsp, Eofs, Hofs.
  pose proof (Z.mod_pos_bound (H + i) n Hb) as Bi. pose proof (Z.mod_pos_bound (A + s) n Hb) as Bo.
  rewrite <- Eofs in Bo.
  assert (Hout : (H + i) mod n < ofs \/ ofs + fr <= (H + i) mod n).
  { destruct (Z.lt_ge_cases ((H + i) mod n) ofs) as [? | Hle1]; [by left |].
    destruct (Z.lt_ge_cases ((H + i) mod n) (ofs + fr)) as [Hlt | ?]; [| by right]. exfalso.
    pose proof (Z.div_mod (H + i) n ltac:(lia)). pose proof (Z.div_mod (A + s) n ltac:(lia)) as E2.
    rewrite <- Eofs in E2. set (k1 := (H + i) / n) in *. set (k2 := (A + s) / n) in *.
    set (m := (H + i) mod n) in *.
    assert (H1 : A + s + (m - ofs) - (H + i) = n * (k2 - k1)) by nia.
    apply (no_multiple_between _ _ _ (eq_sym H1)). lia. }
  unfold fill_silence. rewrite Hint. unfold frames_to_bytes. rewrite Hfb.
  rewrite (u32_small (fr * rt_channels r)) by (unfold is_u32, UINT_MAX in *; nia).
  rewrite (u32_small (ofs * (8 * F))) by (unfold is_u32, UINT_MAX in *; nia).
  replace (ofs * (8 * F) / 8) with (ofs * F)
    by (replace (ofs * (8 * F)) with (ofs * F * 8) by ring; by rewrite Z.div_mul).
  apply silence_at_local; [nia | done | unfold dma_bytes in Hdma; nia |].
  rewrite Z2Nat.id by nia.
  replace (fr * rt_channels r * snd_pcm_format_physical_width (rt_format r)) with (fr * (8 * F))
    by (rewrite <- Hpc; ring).
  destruct Hout; [left; nia | right; nia].
Qed.

(** Eight bytes of 8-bit mono. *)
Definition small_stream : snd_pcm_runtime :=
  Runtime true RUNNING 2 5 4 0 0 0 3 1 0 8000 1 4 2 8 10000 1 1 8 8 0 8000 1 1 0 1
    1 8 4 2 64 5 0 [1; 2; 3; 4; 5; 6; 7; 8] 0 0 0 0 0 0.

Lemma silence_spares_queued_witness :
  rt_dma_area (snd_pcm_playback_silence None small_stream) = [1; 2; 3; 4; 5; 128; 128; 8] /\
  rt_dma_area (snd_pcm_playback_silence None small_stream) !! 3%nat = Some 4.
Proof.
  split; [vm_compute; reflexivity |].
  assert (C : ring_config small_stream) by (split; vm_compute; congruence).
  pose proof (silence_spares_queued small_stream 2 5 1 1 0 C) as H.
  change (rt_dma_area small_stream !! Z.to_nat ((2 + 1) mod 8 * 1 + 0)) with (Some 4) in H.
  apply H; vm_compute; try split; congruence.
Defined.
