(* ===== verification/PcmTransfer.v ===== *)
(** * PcmTransfer: reading and writing a PCM stream

    [snd_pcm_lib_write1] and [snd_pcm_lib_read1] of alsa/core/pcm_lib.c with the transfer
    functions they are given, interleaved with interrupts where the code drops the
    runtime lock. *)

From S2P Require Import Prelude PcmFormat HwParams PcmRuntime PcmRing.
Open Scope Z_scope.

(** ** Transfers *)

(** [transfer(substream, hwoff, data, off, frames)], [data] being fixed. *)
Definition transfer_f : Type := Z -> Z -> Z -> snd_pcm_runtime -> Z * snd_pcm_runtime.

(** [memcpy] of [n] bytes of [src] from [off] into [dst] at [pos]. *)
Definition copy_bytes (src : list Z) (off n pos : Z) (dst : list Z) : list Z :=
  take (Z.to_nat pos) dst ++ take (Z.to_nat n) (drop (Z.to_nat off) src)
  ++ drop (Z.to_nat (pos + n)) dst.

(** [ptr != NULL] *)
Definition present {A} (p : option A) : bool := bool_decide (is_Some p).

Section Transfers.
(** [substream->ops->copy], when the driver has one: channel, offset, the user's bytes
    from the current position on, frames; and whether there is a DMA area. *)
Variable ops_copy : option (Z -> Z -> list Z -> Z -> snd_pcm_runtime -> Z * snd_pcm_runtime).
Variable ops_silence : option (Z -> Z -> Z -> snd_pcm_runtime -> Z * snd_pcm_runtime).
Variable has_dma_area : bool.

Definition snd_pcm_lib_write_transfer (data : list Z) : transfer_f := fun hwoff off frames r =>
  let buf := frames_to_bytes r off in
  match ops_copy with
  | Some copy =>
      let '(err, r) := copy (-1) hwoff (drop (Z.to_nat buf) data) frames r in
      if err <? 0 then (err, r) else (0, r)
  | None =>
      if negb has_dma_area then (-EFAULT, r)
      else
        let r := r <| rt_dma_area :=
              copy_bytes data buf (frames_to_bytes r frames) (frames_to_bytes r hwoff)
                (rt_dma_area r) |> in
        if truth copy_from_user then (-EFAULT, r) else (0, r)
  end.

(** The channel buffers of a non-interleaved write; [None] is a null pointer. *)
Definition writev_channel (hwoff off frames : Z) (cb : Z * option (list Z)) (r : snd_pcm_runtime)
    : flow (Z * snd_pcm_runtime) snd_pcm_runtime :=
  let '(c, buf) := cb in
  match ops_copy with
  | Some copy =>
      let '(err, r) :=
        match buf with
        | None =>
            match ops_silence with Some silence => silence c hwoff frames r | None => (-EINVAL, r) end
        | Some b => copy c hwoff (drop (Z.to_nat (samples_to_bytes r off)) b) frames r
        end in
      if err <? 0 then Return (err, r) else Next r
  | None =>
      let dma_csize := dma_bytes r / rt_channels r in
      let hwbuf := u32 (c * dma_csize + samples_to_bytes r hwoff) in
      match buf with
      | None => Next (r <| rt_dma_area := silence_at (rt_format r) frames hwbuf (rt_dma_area r) |>)
      | Some b =>
          let r := r <| rt_dma_area :=
            copy_bytes b (samples_to_bytes r off) (samples_to_bytes r frames) hwbuf (rt_dma_area r) |> in
          if truth copy_from_user then Return (-EFAULT, r) else Next r
      end
  end.

Definition snd_pcm_lib_writev_transfer (bufs : list (option (list Z))) : transfer_f :=
  fun hwoff off frames r =>
    if present ops_copy && negb (present ops_silence) then (-EINVAL, r)
    else if negb (present ops_copy || has_dma_area) then (-EFAULT, r)
    else
      match loop_flow (writev_channel hwoff off frames)
              (zip (seqZ 0 (rt_channels r)) bufs) r with
      | Return res => res
      | Next r => (0, r)
      end.
End Transfers.

(** ** Sleeping and interrupts *)

(** What ends a [schedule_timeout]: a signal is noticed before sleeping; the timeout
    runs out; or a wake-up comes.  The interrupts meanwhile act on the runtime. *)
Inductive sleep_event :=
| Signal
| Timeout (irq : snd_pcm_runtime -> snd_pcm_runtime)
| Woken (irq : snd_pcm_runtime -> snd_pcm_runtime).

(** What happens whenever the lock is dropped, in order. *)
Record oracle := Oracle {
  o_sleeps : list sleep_event;
  o_irqs : list (snd_pcm_runtime -> snd_pcm_runtime) }.

Inductive wait_result := READY (avail : Z) | SIGNALED | ERROR | EXPIRED.

(** The inner [while (1)]; [None] when it sleeps for ever. *)
Fixpoint wait_avail (avail_of : snd_pcm_runtime -> Z) (sleeps : list sleep_event)
    (r : snd_pcm_runtime) : option (wait_result * list sleep_event * snd_pcm_runtime) :=
  match sleeps with
  | [] => None
  | Signal :: sleeps => Some (SIGNALED, sleeps, r)
  | Timeout irq :: sleeps => Some (EXPIRED, sleeps, irq r)
  | Woken irq :: sleeps =>
      let r := irq r in
      if state_is (rt_state r) XRUN then Some (ERROR, sleeps, r)
      else if rt_avail_min r <=? avail_of r then Some (READY (avail_of r), sleeps, r)
      else wait_avail avail_of sleeps r
  end.

Definition wait_error (w : wait_result) : Z :=
  match w with
  | ERROR => -EPIPE
  | SIGNALED => -ERESTARTSYS
  | EXPIRED => -EIO
  | READY _ => 0
  end.

Definition unlocked (orc : oracle) (r : snd_pcm_runtime) : oracle * snd_pcm_runtime :=
  match o_irqs orc with
  | [] => (orc, r)
  | irq :: irqs => (Oracle (o_sleeps orc) irqs, irq r)
  end.

(** ** The transfer loops *)

(** The result of a call: [return xfer > 0 ? xfer : err]. *)
Definition io_result : Type := option (Z * snd_pcm_runtime * oracle).

Definition finish (xfer err : Z) (r : snd_pcm_runtime) (orc : oracle) : io_result :=
  Some (if 0 <? xfer then xfer else err, r, orc).

(** [size > xfer_align ? size - size % xfer_align : size] *)
Definition align_down_frames (size align : Z) : Z :=
  if align <? size then size - size mod align else size.

(** The divisors of a round: the processor traps if one is 0. *)
Definition io_traps (r : snd_pcm_runtime) : bool := (rt_xfer_align r =? 0) || (rt_buffer_size r =? 0).

(** The frames of one round: what is left, what fits, and no further than the end of
    the ring. *)
Definition chunk (size avail : Z) (r : snd_pcm_runtime) : Z :=
  let avail := align_down_frames avail (rt_xfer_align r) in
  let frames := if avail <? size then avail else size in
  let cont := u32 (rt_buffer_size r - rt_appl_ptr r mod rt_buffer_size r) in
  if cont <? frames then cont else frames.

Definition advance_appl (appl_ptr frames : Z) (r : snd_pcm_runtime) : snd_pcm_runtime :=
  let appl_ptr := u32 (appl_ptr + frames) in
  r <| rt_appl_ptr := if rt_boundary r <=? appl_ptr then 0 else appl_ptr |>.

(** Wait for room or data when there is too little; the result is an error or the
    available frames. *)
Definition ensure_avail (avail_of : snd_pcm_runtime -> Z) (nonblock : bool) (size : Z)
    (r : snd_pcm_runtime) (orc : oracle)
    : option (flow Z Z * snd_pcm_runtime * oracle) :=
  let avail := avail_of r in
  if (avail =? 0) || ((rt_xfer_align r <=? size) && (avail <? rt_xfer_align r)) then
    if nonblock then Some (Return (-EAGAIN), r, orc)
    else
      '(w, sleeps, r) ← wait_avail avail_of (o_sleeps orc) r;
      let orc := Oracle sleeps (o_irqs orc) in
      match w with
      | READY avail => Some (Next avail, r, orc)
      | w => Some (Return (wait_error w), r, orc)
      end
  else Some (Next avail, r, orc).

Definition tick_wanted (r : snd_pcm_runtime) : bool :=
  truth (rt_sleep_min r) && state_is (rt_state r) RUNNING.

Definition tick_after (r : snd_pcm_runtime) : snd_pcm_runtime :=
  if tick_wanted r then snd_pcm_tick_prepare r else r.

Definition tick_traps (r : snd_pcm_runtime) : bool :=
  tick_wanted r && negb (forallb truth (tick_divisors r)).

Section Loops.
(** [snd_pcm_start] on this substream. *)
Variable start : snd_pcm_runtime -> Z * snd_pcm_runtime.
Variable transfer : transfer_f.
Variable nonblock : bool.

Definition write_avail (size : Z) (r : snd_pcm_runtime) (orc : oracle)
    : option (flow Z Z * snd_pcm_runtime * oracle) :=
  if state_is (rt_state r) PREPARED then
    let avail := snd_pcm_playback_avail r in
    Some (if avail =? 0 then Return (-EPIPE) else Next avail, r, orc)
  else ensure_avail snd_pcm_playback_avail nonblock size r orc.

Fixpoint write_loop (fuel : nat) (size offset xfer err : Z) (r : snd_pcm_runtime) (orc : oracle)
    : io_result :=
  match fuel with
  | O => None
  | S fuel =>
      if size =? 0 then finish xfer err r orc
      else
        '(a, r, orc) ← write_avail size r orc;
        match a with
        | Return err => finish xfer err r orc
        | Next avail =>
            if io_traps r then None
            else
            let frames := chunk size avail r in
            if frames =? 0 then Some (-EINVAL, r, orc)
            else
              let appl_ptr := rt_appl_ptr r in
              let appl_ofs := appl_ptr mod rt_buffer_size r in
              let '(err, r) := transfer appl_ofs offset frames r in
              if err <? 0 then finish xfer err r orc
              else
                let '(orc, r) := unlocked orc r in
                if state_is (rt_state r) XRUN then finish xfer (-EPIPE) r orc
                else
                  let r := advance_appl appl_ptr frames r in
                  let offset := u32 (offset + frames) in
                  let size := u32 (size - frames) in
                  let xfer := u32 (xfer + frames) in
                  let '(err, r) :=
                    if state_is (rt_state r) PREPARED
                       && (rt_start_threshold r <=? snd_pcm_playback_hw_avail r)
                    then start r else (err, r) in
                  if err <? 0 then finish xfer err r orc
                  else if tick_traps r then None
                  else write_loop fuel size offset xfer err (tick_after r) orc
        end
  end.

(** A chunk is at least one frame, so [size] rounds are enough. *)
Definition snd_pcm_lib_write1 (size : Z) (r : snd_pcm_runtime) (orc : oracle) : io_result :=
  if size =? 0 then Some (0, r, orc)
  else if rt_xfer_align r =? 0 then None
  else
    let size := align_down_frames size (rt_xfer_align r) in
    match rt_state r with
    | PREPARED | RUNNING => write_loop (S (Z.to_nat size)) size 0 0 0 r orc
    | XRUN => Some (-EPIPE, r, orc)
    | _ => Some (-EBADFD, r, orc)
    end.
End Loops.

(** A read also writes the user's buffers, of type [U]. *)
Section Reading.
Context {U : Type}.
Variable start : snd_pcm_runtime -> Z * snd_pcm_runtime.
Variable transfer : Z -> Z -> Z -> snd_pcm_runtime -> U -> Z * snd_pcm_runtime * U.
Variable nonblock : bool.

Definition read_result : Type := option (Z * snd_pcm_runtime * U * oracle).

Definition finish_read (xfer err : Z) (r : snd_pcm_runtime) (user : U) (orc : oracle)
    : read_result := Some (if 0 <? xfer then xfer else err, r, user, orc).

Definition read_avail (size : Z) (r : snd_pcm_runtime) (orc : oracle)
    : option (flow Z Z * snd_pcm_runtime * oracle) :=
  if state_is (rt_state r) DRAINING then
    let avail := snd_pcm_capture_avail r in
    if avail =? 0 then Some (Return (-EPIPE), r <| rt_state := SETUP |>, orc)
    else Some (Next avail, r, orc)
  else ensure_avail snd_pcm_capture_avail nonblock size r orc.

Fixpoint read_loop (fuel : nat) (size offset xfer err : Z) (r : snd_pcm_runtime) (user : U)
    (orc : oracle) : read_result :=
  match fuel with
  | O => None
  | S fuel =>
      if size =? 0 then finish_read xfer err r user orc
      else
        '(a, r, orc) ← read_avail size r orc;
        match a with
        | Return err => finish_read xfer err r user orc
        | Next avail =>
            if io_traps r then None
            else
            let frames := chunk size avail r in
            if frames =? 0 then Some (-EINVAL, r, user, orc)
            else
              let appl_ptr := rt_appl_ptr r in
              let appl_ofs := appl_ptr mod rt_buffer_size r in
              let '(err, r, user) := transfer appl_ofs offset frames r user in
              if err <? 0 then finish_read xfer err r user orc
              else
                let '(orc, r) := unlocked orc r in
                if state_is (rt_state r) XRUN then finish_read xfer (-EPIPE) r user orc
                else
                  let r := advance_appl appl_ptr frames r in
                  if tick_traps r then None
                  else
                  read_loop fuel (u32 (size - frames)) (u32 (offset + frames)) (u32 (xfer + frames))
                    err (tick_after r) user orc
        end
  end.

Definition snd_pcm_lib_read1 (size : Z) (r : snd_pcm_runtime) (user : U) (orc : oracle)
    : read_result :=
  if size =? 0 then Some (0, r, user, orc)
  else if rt_xfer_align r =? 0 then None
  else
    let size := align_down_frames size (rt_xfer_align r) in
    match rt_state r with
    | PREPARED =>
        if rt_start_threshold r <=? size then
          let '(err, r) := start r in
          if err <? 0 then finish_read 0 err r user orc
          else read_loop (S (Z.to_nat size)) size 0 0 err r user orc
        else read_loop (S (Z.to_nat size)) size 0 0 0 r user orc
    | DRAINING | RUNNING => read_loop (S (Z.to_nat size)) size 0 0 0 r user orc
    | XRUN => Some (-EPIPE, r, user, orc)
    | _ => Some (-EBADFD, r, user, orc)
    end.
End Reading.

Section ReadTransfers.
(** The driver's [copy] for capture: channel, offset, the user's bytes, the position in
    them, frames. *)
Variable ops_copy
  : option (Z -> Z -> list Z -> Z -> Z -> snd_pcm_runtime -> Z * snd_pcm_runtime * list Z).
Variable has_dma_area : bool.

Definition snd_pcm_lib_read_transfer (hwoff off frames : Z) (r : snd_pcm_runtime) (user : list Z)
    : Z * snd_pcm_runtime * list Z :=
  let buf := frames_to_bytes r off in
  match ops_copy with
  | Some copy =>
      let '(err, r, user) := copy (-1) hwoff user buf frames r in
      if err <? 0 then (err, r, user) else (0, r, user)
  | None =>
      if negb has_dma_area then (-EFAULT, r, user)
      else
        let user := copy_bytes (rt_dma_area r) (frames_to_bytes r hwoff) (frames_to_bytes r frames)
                      buf user in
        if truth copy_to_user then (-EFAULT, r, user) else (0, r, user)
  end.

(** One channel of a non-interleaved read; a null buffer is skipped. *)
Definition readv_channel (hwoff off frames : Z) (c : Z)
    (st : snd_pcm_runtime * list (option (list Z)))
    : flow (Z * snd_pcm_runtime * list (option (list Z))) (snd_pcm_runtime * list (option (list Z))) :=
  let '(r, bufs) := st in
  match bufs !! Z.to_nat c with
  | Some (Some b) =>
      match ops_copy with
      | Some copy =>
          let '(err, r, b) := copy c hwoff b (samples_to_bytes r off) frames r in
          let bufs := <[Z.to_nat c := Some b]> bufs in
          if err <? 0 then Return (err, r, bufs) else Next (r, bufs)
      | None =>
          let dma_csize := dma_bytes r / rt_channels r in
          let hwbuf := u32 (c * dma_csize + samples_to_bytes r hwoff) in
          let bufs := <[Z.to_nat c :=
            Some (copy_bytes (rt_dma_area r) hwbuf (samples_to_bytes r frames)
                    (samples_to_bytes r off) b)]> bufs in
          if truth copy_to_user then Return (-EFAULT, r, bufs) else Next (r, bufs)
      end
  | _ => Next (r, bufs)
  end.

Definition snd_pcm_lib_readv_transfer (hwoff off frames : Z) (r : snd_pcm_runtime)
    (bufs : list (option (list Z))) : Z * snd_pcm_runtime * list (option (list Z)) :=
  if negb (present ops_copy || has_dma_area) then (-EFAULT, r, bufs)
  else
    match loop_flow (readv_channel hwoff off frames) (seqZ 0 (rt_channels r)) (r, bufs) with
    | Return res => res
    | Next (r, bufs) => (0, r, bufs)
    end.
End ReadTransfers.

(** ** The entry points *)

Section Entry.
Variable start : snd_pcm_runtime -> Z * snd_pcm_runtime.
Variable ops_copy : option (Z -> Z -> list Z -> Z -> snd_pcm_runtime -> Z * snd_pcm_runtime).
Variable ops_silence : option (Z -> Z -> Z -> snd_pcm_runtime -> Z * snd_pcm_runtime).
Variables has_dma_area nonblock : bool.

(** The checks all four entry points start with; [None] lets the call go on. *)
Definition io_guard (access : Z) (has_copy : bool) (r : snd_pcm_runtime) : option Z :=
  if negb (has_copy || has_dma_area) then Some (-EINVAL)
  else if state_is (rt_state r) OPEN then Some (-EBADFD)
  else if negb (rt_access r =? access) then Some (-EINVAL)
  else None.

Definition snd_pcm_lib_write (buf : list Z) (size : Z) (r : snd_pcm_runtime) (orc : oracle)
    : io_result :=
  match io_guard ACCESS_RW_INTERLEAVED (present ops_copy) r with
  | Some err => Some (err, r, orc)
  | None =>
      snd_pcm_lib_write1 start (snd_pcm_lib_write_transfer ops_copy has_dma_area buf)
        nonblock size r orc
  end.

Definition snd_pcm_lib_writev (bufs : list (option (list Z))) (frames : Z) (r : snd_pcm_runtime)
    (orc : oracle) : io_result :=
  match io_guard ACCESS_RW_NONINTERLEAVED (present ops_copy) r with
  | Some err => Some (err, r, orc)
  | None =>
      snd_pcm_lib_write1 start
        (snd_pcm_lib_writev_transfer ops_copy ops_silence has_dma_area bufs)
        nonblock frames r orc
  end.

Variable ops_copy_read
  : option (Z -> Z -> list Z -> Z -> Z -> snd_pcm_runtime -> Z * snd_pcm_runtime * list Z).

Definition snd_pcm_lib_read (user : list Z) (size : Z) (r : snd_pcm_runtime) (orc : oracle) :=
  match io_guard ACCESS_RW_INTERLEAVED (present ops_copy_read) r with
  | Some err => Some (err, r, user, orc)
  | None =>
      snd_pcm_lib_read1 start (snd_pcm_lib_read_transfer ops_copy_read has_dma_area)
        nonblock size r user orc
  end.

Definition snd_pcm_lib_readv (bufs : list (option (list Z))) (frames : Z) (r : snd_pcm_runtime)
    (orc : oracle) :=
  match io_guard ACCESS_RW_NONINTERLEAVED (present ops_copy_read) r with
  | Some err => Some (err, r, bufs, orc)
  | None =>
      snd_pcm_lib_read1 start (snd_pcm_lib_readv_transfer ops_copy_read has_dma_area)
        nonblock frames r bufs orc
  end.
End Entry.

(** ** Every transfer stays inside the ring, however the call is interrupted *)

Definition io_config (r : snd_pcm_runtime) : Prop :=
  0 < rt_buffer_size r <= UINT_MAX /\ 0 <= rt_appl_ptr r /\ 0 < rt_xfer_align r.

Lemma no_io_traps r : io_config r -> io_traps r = false.
Proof. intros (Hb & _ & Hx). unfold io_traps. rewrite !(proj2 (Z.eqb_neq _ _)) by lia. done. Qed.

Definition preserving (f : snd_pcm_runtime -> snd_pcm_runtime) : Prop :=
  forall r, io_config r -> io_config (f r).

Definition sleep_ok (e : sleep_event) : Prop :=
  match e with Signal => True | Timeout irq | Woken irq => preserving irq end.

Definition oracle_ok (orc : oracle) : Prop :=
  Forall sleep_ok (o_sleeps orc) /\ Forall preserving (o_irqs orc).

(** The requests a transfer may rely on: from the application pointer on, not past the
    end of the ring, into free room only, and not past the user's [total] frames. *)
Record in_ring (avail_of : snd_pcm_runtime -> Z) (total hwoff off frames : Z)
    (r : snd_pcm_runtime) : Prop := {
  ir_ofs : hwoff = rt_appl_ptr r mod rt_buffer_size r;
  ir_pos : 0 < frames;
  ir_end : hwoff + frames <= rt_buffer_size r;
  ir_avail : frames <= avail_of r;
  ir_data : 0 <= off /\ off + frames <= total }.

Lemma align_down_le size align : 0 <= size -> 0 < align -> 0 <= align_down_frames size align <= size.
Proof.
  intros Hs Ha. unfold align_down_frames. destruct (Z.ltb_spec align size); [| lia].
  pose proof (Z.mod_pos_bound size align Ha). lia.
Qed.

Lemma chunk_le size avail r :
  io_config r -> 0 <= size -> 0 <= avail ->
  0 <= chunk size avail r <= size /\ chunk size avail r <= avail /\
  rt_appl_ptr r mod rt_buffer_size r + chunk size avail r <= rt_buffer_size r.
Proof.
  intros (Hb & Ha & Hx) Hs Hav. unfold chunk. pose proof (align_down_le avail (rt_xfer_align r) Hav Hx).
  pose proof (Z.mod_pos_bound (rt_appl_ptr r) (rt_buffer_size r) (proj1 Hb)).
  rewrite u32_small by range_lia. set (a := align_down_frames avail (rt_xfer_align r)) in *.
  destruct (Z.ltb_spec a size).
  - destruct (Z.ltb_spec (rt_buffer_size r - rt_appl_ptr r mod rt_buffer_size r) a); lia.
  - destruct (Z.ltb_spec (rt_buffer_size r - rt_appl_ptr r mod rt_buffer_size r) size); lia.
Qed.

Lemma wait_avail_ok avail_of sleeps r w sleeps' r' :
  Forall sleep_ok sleeps -> io_config r ->
  wait_avail avail_of sleeps r = Some (w, sleeps', r') ->
  Forall sleep_ok sleeps' /\ io_config r' /\ (forall avail, w = READY avail -> avail = avail_of r').
Proof.
  intros Hf. revert r. induction Hf as [| e l He Hl IH]; intros r C; simpl; [done |].
  destruct e as [| irq | irq].
  - intros [= <- <- <-]. split; [done |]. by split.
  - intros [= <- <- <-]. split; [done |]. split; [by apply He | done].
  - destruct (state_is _ _).
    { intros [= <- <- <-]. split; [done |]. split; [by apply He | done]. }
    destruct (_ <=? _); [| apply IH; auto].
    intros [= <- <- <-]. split; [done |]. split; [auto |]. by intros ? [= <-].
Qed.

Lemma ensure_avail_ok avail_of nonblock size r orc a r' orc' :
  oracle_ok orc -> io_config r ->
  ensure_avail avail_of nonblock size r orc = Some (a, r', orc') ->
  oracle_ok orc' /\ io_config r' /\ (forall avail, a = Next avail -> avail = avail_of r').
Proof.
  intros [Hs Hi] C. unfold ensure_avail.
  destruct (_ || _); [| intros [= <- <- <-]; split; [done |]; split; [done |]; by intros ? [= <-]].
  destruct nonblock; [intros [= <- <- <-]; done |].
  destruct (wait_avail avail_of (o_sleeps orc) r) as [[[w sl] r1] |] eqn:E; [| done]. simpl.
  destruct (wait_avail_ok _ _ _ _ _ _ Hs C E) as (Hs' & C' & Hav).
  destruct w; intros [= <- <- <-]; (split; [done |]; split; [done |]); try done.
  intros ? [= <-]. auto.
Qed.

Lemma unlocked_ok orc r :
  oracle_ok orc -> io_config r -> oracle_ok (unlocked orc r).1 /\ io_config (unlocked orc r).2.
Proof.
  intros [Hs Hi] C. unfold unlocked. destruct (o_irqs orc) as [| irq irqs] eqn:E; simpl; [by split; [split; rewrite ?E |] |].
  rewrite ?E in Hi. inversion Hi; subst. split; [by split | auto].
Qed.

Lemma tick_config r : io_config (tick_after r) <-> io_config r.
Proof.
  unfold tick_after. destruct (tick_wanted _); [| done].
  unfold snd_pcm_tick_prepare, snd_pcm_tick_set. cbv zeta.
  repeat match goal with |- context [if ?b then _ else _] =>
    match type of b with bool => destruct b end end; done.
Qed.

Lemma advance_config appl frames r : io_config r -> io_config (advance_appl appl frames r).
Proof.
  intros (Hb & Ha & Hx). unfold advance_appl, io_config. simpl. split; [done |]. split; [| done].
  pose proof (u32_range (appl + frames)) as [? _]. destruct (_ <=? _); lia.
Qed.

Section Agree.
Context (start : snd_pcm_runtime -> Z * snd_pcm_runtime) (t1 t2 : transfer_f) (nonblock : bool).
Context (total : Z).
Hypothesis Htotal : 0 <= total <= UINT_MAX.
Hypothesis Hstart : preserving (fun r => (start r).2).
Hypothesis Hkeep : forall hwoff off frames, preserving (fun r => (t1 hwoff off frames r).2).
Hypothesis Hagree : forall hwoff off frames r,
  io_config r -> in_ring snd_pcm_playback_avail total hwoff off frames r ->
  t1 hwoff off frames r = t2 hwoff off frames r.

Lemma write_avail_ok size r orc a r' orc' :
  oracle_ok orc -> io_config r -> write_avail nonblock size r orc = Some (a, r', orc') ->
  oracle_ok orc' /\ io_config r' /\ (forall avail, a = Next avail -> avail = snd_pcm_playback_avail r').
Proof.
  intros O C. unfold write_avail. destruct (state_is _ _); [| by apply ensure_avail_ok].
  cbv zeta. destruct (_ =? 0); intros [= <- <- <-]; (split; [done |]; split; [done |]); [done |].
  by intros ? [= <-].
Qed.

Lemma write_loop_agree fuel size offset xfer err r orc :
  oracle_ok orc -> io_config r -> 0 <= size -> 0 <= offset -> offset + size <= total ->
  write_loop start t1 nonblock fuel size offset xfer err r orc =
  write_loop start t2 nonblock fuel size offset xfer err r orc.
Proof.
  revert size offset xfer err r orc.
  induction fuel as [| fuel IH]; intros size offset xfer err r orc O C Hs Ho Ht; [done |]. simpl.
  destruct (Z.eqb_spec size 0) as [| Hnz]; [done |].
  destruct (write_avail nonblock size r orc) as [[[a r1] orc1] |] eqn:E; [| done]. simpl.
  destruct (write_avail_ok _ _ _ _ _ _ O C E) as (O1 & C1 & Hav).
  destruct a as [e | avail]; [done |]. specialize (Hav avail eq_refl). subst avail. rewrite (no_io_traps r1 C1).
  pose proof (chunk_le size _ r1 C1 Hs (proj1 (u32_range _)) :
    0 <= chunk size (snd_pcm_playback_avail r1) r1 <= size /\ _) as (Hc1 & Hc2 & Hc3).
  set (c := chunk size (snd_pcm_playback_avail r1) r1) in *.
  destruct (Z.eqb_spec c 0) as [| Hc]; [done |].
  rewrite Hagree; [| done | split; try done; lia].
  pose proof (Hkeep (rt_appl_ptr r1 mod rt_buffer_size r1) offset c r1 C1) as C2.
  cbv beta in C2. rewrite Hagree in C2; [| done | split; try done; lia].
  destruct (t2 _ offset c r1) as [err2 r2]. simpl in C2.
  destruct (err2 <? 0); [done |].
  destruct (unlocked_ok orc1 r2 O1 C2) as [O3 C3].
  destruct (unlocked orc1 r2) as [orc3 r3]. simpl in O3, C3.
  destruct (state_is (rt_state r3) XRUN); [done |].
  pose proof (advance_config (rt_appl_ptr r1) c r3 C3) as C4.
  set (r4 := advance_appl (rt_appl_ptr r1) c r3) in *. unfold is_u32, UINT_MAX in *.
  rewrite (u32_small (offset + c)), (u32_small (size - c)) by range_lia.
  pose proof (Hstart r4 C4) as C5. cbv beta in C5.
  destruct (_ && _); [destruct (start r4) as [err5 r5]; simpl in C5; destruct (err5 <? 0); [done |] |
                      destruct (err2 <? 0); [done |]];
    (destruct (tick_traps _); [done |]; apply IH; [done | by apply tick_config | lia | lia | lia]).
Qed.
End Agree.

(** [snd_pcm_lib_write1] asks its transfer function only for frames in the ring:
    from the application pointer on, not past the end of the buffer, no more than are
    free, and consecutive in the user's data.  Two transfers that agree on such requests
    give the same result, whatever interrupts, wake-ups, signals and timeouts come in
    between. *)
Theorem write1_transfers_in_ring start t1 t2 nonblock size r orc :
  is_u32 size -> io_config r -> oracle_ok orc ->
  preserving (fun r => (start r).2) ->
  (forall hwoff off frames, preserving (fun r => (t1 hwoff off frames r).2)) ->
  (forall hwoff off frames r, io_config r ->
     in_ring snd_pcm_playback_avail size hwoff off frames r ->
     t1 hwoff off frames r = t2 hwoff off frames r) ->
  snd_pcm_lib_write1 start t1 nonblock size r orc = snd_pcm_lib_write1 start t2 nonblock size r orc.
Proof.
  intros Hsize C O Hst Hk Hag. unfold snd_pcm_lib_write1. destruct (size =? 0); [done |]. cbv zeta.
  pose proof C as (_ & _ & Hx). unfold is_u32 in Hsize. destruct (rt_xfer_align r =? 0); [done |].
  pose proof (align_down_le size (rt_xfer_align r) (proj1 Hsize) Hx).
  destruct (rt_state r); try done;
    apply (write_loop_agree start t1 t2 nonblock size); try done; lia.
Qed.

(** The default transfer, and the same with a check that the request fits the ring. *)
Definition ram_transfer (data : list Z) : transfer_f := snd_pcm_lib_write_transfer None true data.

Definition checked_transfer (data : list Z) : transfer_f := fun hwoff off frames r =>
  if hwoff + frames <=? rt_buffer_size r then ram_transfer data hwoff off frames r
  else (-EINVAL, r).

Definition simple_start (r : snd_pcm_runtime) : Z * snd_pcm_runtime := (0, r <| rt_state := RUNNING |>).

Lemma write1_transfers_in_ring_witness :
  snd_pcm_lib_write1 simple_start (ram_transfer [11; 12; 13; 14]) true 4 small_stream (Oracle [] []) =
  snd_pcm_lib_write1 simple_start (checked_transfer [11; 12; 13; 14]) true 4 small_stream (Oracle [] []).
Proof.
  apply write1_transfers_in_ring.
  - range_lia.
  - unfold io_config; simpl. range_lia.
  - by split.
  - intros r C. exact C.
  - intros hwoff off frames r C. exact C.
  - unfold checked_transfer. intros hwoff off frames r C [_ _ He _ _].
    by destruct (Z.leb_spec (hwoff + frames) (rt_buffer_size r)); [| lia].
Defined.

(** ** A write appends the user's frames to the stream *)

Lemma copy_bytes_spec src off n pos dst :
  0 <= off -> 0 <= n -> off + n <= Z.of_nat (length src) ->
  0 <= pos -> pos + n <= Z.of_nat (length dst) ->
  length (copy_bytes src off n pos dst) = length dst /\
  (forall k, 0 <= k < n -> copy_bytes src off n pos dst !! Z.to_nat (pos + k) = src !! Z.to_nat (off + k)) /\
  (forall p, Z.of_nat p < pos \/ pos + n <= Z.of_nat p -> copy_bytes src off n pos dst !! p = dst !! p).
Proof.
  intros Ho Hn Hs Hp Hd. unfold copy_bytes.
  assert (L1 : length (take (Z.to_nat pos) dst) = Z.to_nat pos) by (rewrite length_take; lia).
  assert (L2 : length (take (Z.to_nat n) (drop (Z.to_nat off) src)) = Z.to_nat n)
    by (rewrite length_take, length_drop; lia).
  split; [rewrite !length_app, L1, L2, length_drop; lia |]. split.
  - intros k Hk. rewrite lookup_app_r by lia. rewrite lookup_app_l by lia.
    rewrite L1, lookup_take_lt by lia. rewrite lookup_drop. f_equal. lia.
  - intros p Hout. destruct (Z.lt_ge_cases (Z.of_nat p) pos).
    + rewrite lookup_app_l by lia. apply lookup_take_lt. lia.
    + rewrite lookup_app_r by lia. rewrite lookup_app_r by lia. rewrite L1, L2, lookup_drop.
      f_equal. lia.
Qed.

Lemma whole_bytes r F n :
  rt_frame_bits r = 8 * F -> 0 <= n -> 0 <= F -> n * (8 * F) <= UINT_MAX ->
  frames_to_bytes r n = n * F.
Proof.
  intros E Hn HF Hs. unfold frames_to_bytes. rewrite E, u32_small by (unfold is_u32, UINT_MAX in *; nia).
  replace (n * (8 * F)) with (n * F * 8) by ring. by apply Z.div_mul.
Qed.

Lemma chunk_pos size avail r :
  io_config r -> 0 < size -> 0 < avail -> 0 < chunk size avail r.
Proof.
  intros (Hb & Ha & Hx) Hs Hav. unfold chunk, align_down_frames.
  pose proof (Z.mod_pos_bound (rt_appl_ptr r) (rt_buffer_size r) (proj1 Hb)).
  rewrite u32_small by range_lia.
  pose proof (Z.mod_pos_bound avail (rt_xfer_align r) Hx).
  set (a := if _ <? avail then _ else _).
  assert (0 < a) by (subst a; destruct (Z.ltb_spec (rt_xfer_align r) avail); lia).
  destruct (Z.ltb_spec a size).
  - destruct (Z.ltb_spec (rt_buffer_size r - rt_appl_ptr r mod rt_buffer_size r) a); lia.
  - destruct (Z.ltb_spec (rt_buffer_size r - rt_appl_ptr r mod rt_buffer_size r) size); lia.
Qed.

(** A turn of the counters does not move the position in the ring. *)
Lemma mod_mod_ring A b n : 0 < n -> 0 < b -> b mod n = 0 -> (A mod b) mod n = A mod n.
Proof.
  intros Hn Hb [k Hk]%Z.mod_divide; [| lia]. pose proof (Z.div_mod A b ltac:(lia)) as E.
  rewrite <- (Z.mod_add (A mod b) (k * (A / b)) n) by lia. f_equal. rewrite E at 3. rewrite Hk. ring.
Qed.

Lemma tick_prepare_shape r : exists t, snd_pcm_tick_prepare r = snd_pcm_tick_set r t.
Proof.
  unfold snd_pcm_tick_prepare. cbv zeta. destruct (_ =? _); [by eexists |].
  destruct (_ <=? _); by eexists.
Qed.

Section Stream.
(** A ring of [n] frames of [F] bytes whose counters turn at [b]. *)
Variables F n b : Z.

Record stream_config (r : snd_pcm_runtime) : Prop := {
  sc_ring : ring_config r;
  sc_size : rt_buffer_size r = n;
  sc_boundary : rt_boundary r = b;
  sc_bits : rt_frame_bits r = 8 * F;
  sc_dma : dma_bytes r = n * F;
  sc_align : 0 < rt_xfer_align r;
  sc_min : 0 < rt_avail_min r;
  sc_tick : truth (rt_period_size r) = true /\ truth (tick_divisor r) = true }.

(** [str] is all that is ever played, byte by byte.  The hardware is at frame [H] and the
    application at frame [A], and the bytes in between are in their places in the ring. *)
Record playing (str : Z -> option Z) (H A : Z) (r : snd_pcm_runtime) : Prop := {
  pl_config : stream_config r;
  pl_hw : rt_hw_ptr r = H mod b;
  pl_appl : rt_appl_ptr r = A mod b;
  pl_queued : 0 <= A - H <= n;
  pl_bytes k : H * F <= k < A * F -> rt_dma_area r !! Z.to_nat (k mod (n * F)) = str k }.

(** What may happen while the lock is dropped: the hardware plays some of the queued
    frames, and the stream stays configured; or it is stopped by an underrun. *)
Definition goes_on (f : snd_pcm_runtime -> snd_pcm_runtime) : Prop := forall str H A r,
  playing str H A r ->
  rt_state (f r) = XRUN \/ exists H', H <= H' <= A /\ playing str H' A (f r).

(** Between the copy and the update of the pointer, nothing may be written to the ring
    either, as the new frames are not queued yet. *)
Definition spares (f : snd_pcm_runtime -> snd_pcm_runtime) : Prop := forall str H A r,
  playing str H A r -> rt_dma_area (f r) = rt_dma_area r.

Definition sleep_goes_on (e : sleep_event) : Prop :=
  match e with Signal => True | Timeout irq | Woken irq => goes_on irq end.

(** The event ends a sleep for good. *)
Definition ends_sleep (e : sleep_event) : Prop := match e with Woken _ => False | _ => True end.

Record lawful (orc : oracle) : Prop := {
  lw_sleeps : Forall sleep_goes_on (o_sleeps orc);
  lw_irqs : Forall (fun f => goes_on f /\ spares f) (o_irqs orc) }.

(** A start that fails may also leave an underrun. *)
Definition starts (start : snd_pcm_runtime -> Z * snd_pcm_runtime) : Prop := forall str H A r,
  playing str H A r ->
  (start r).1 < 0 /\ rt_state (start r).2 = XRUN \/
  exists H', H <= H' <= A /\ playing str H' A (start r).2.

Lemma playing_ring str H A r :
  playing str H A r -> 0 < n /\ b mod n = 0 /\ 2 * n <= b /\ b + n <= LONG_MAX.
Proof. intros [[[] <- <- _ _ _ _ _] _ _ _ _]. done. Qed.

Lemma playing_avail str H A r : playing str H A r -> snd_pcm_playback_avail r = n - (A - H).
Proof.
  intros P. pose proof (playing_ring _ _ _ _ P). destruct P as [[C <- <- _ _ _ _ _] Eh Ea Hq _].
  apply (avail_totals r H A C Eh Ea). lia.
Qed.

Lemma playing_io str H A r : playing str H A r -> io_config r.
Proof.
  intros P. pose proof (playing_ring _ _ _ _ P). destruct P as [[_ En _ _ _ Hx _ _] _ Ea _ _].
  pose proof (Z.mod_pos_bound A b ltac:(lia)). unfold io_config. rewrite En, Ea. split; [range_lia | lia].
Qed.

Lemma playing_tick str H A r :
  playing str H A r -> tick_traps r = false /\ playing str H A (tick_after r).
Proof.
  intros P. pose proof P as [[C1 C2 C3 C4 C5 C6 C7 [C8 C9]] P2 P3 P4 P5]. unfold tick_traps, tick_after. split.
  - destruct (tick_wanted r); [| done]. unfold tick_divisors.
    destruct (_ =? _); [done |]. simpl. rewrite C8. destruct (_ <=? _); simpl; by rewrite ?C9.
  - destruct (tick_wanted r); [| done].
    destruct (tick_prepare_shape r) as [t ->]. destruct C1. by split; [split; [split |..] |..].
Qed.

Hypothesis HF : 0 < F.
Hypothesis Hsmall : n * (8 * F) <= UINT_MAX.

(** The next [c] frames are copied, not past the end of the buffer. *)
Lemma chunk_copied data str H A r off c :
  playing str H A r -> 0 <= off -> 0 < c -> c <= n - (A - H) -> A mod n + c <= n ->
  (off + c) * F <= Z.of_nat (length data) -> (off + c) * (8 * F) <= UINT_MAX ->
  (forall k, 0 <= k < c * F -> str (A * F + k) = data !! Z.to_nat (off * F + k)) ->
  exists r1, ram_transfer data (rt_appl_ptr r mod rt_buffer_size r) off c r = (0, r1) /\
    rt_state r1 = rt_state r /\ playing str H A r1 /\
    forall k, A * F <= k < (A + c) * F -> rt_dma_area r1 !! Z.to_nat (k mod (n * F)) = str k.
Proof.
  intros P Ho Hc Hroom Hend Hlen Hov Hstr. pose proof (playing_ring _ _ _ _ P) as (Hn & Hm & Hge & Hle).
  destruct P as [C Eh Ea Hq Hqb]. pose proof C as [C1 En Eb Ebits Ed Hx Hmin Ht].
  unfold ram_transfer, snd_pcm_lib_write_transfer. simpl.
  replace (rt_appl_ptr r mod rt_buffer_size r) with (A mod n)
    by (rewrite Ea, En; symmetry; apply mod_mod_ring; lia). pose proof (Z.mod_pos_bound A n Hn) as Bn.
  rewrite !(whole_bytes r F) by (try done; unfold UINT_MAX in *; nia).
  set (pos := A mod n * F).
  assert (Hpos : forall k, 0 <= k < c * F -> (A * F + k) mod (n * F) = pos + k).
  { intros k Hk. symmetry. apply (Z.mod_unique _ _ (A / n)); [left; subst pos; nia |].
    pose proof (Z.div_mod A n ltac:(lia)). subst pos. nia. }
  destruct (copy_bytes_spec data (off * F) (c * F) pos (rt_dma_area r)) as (S1 & S2 & S3);
    [nia | nia | nia | subst pos; nia | unfold dma_bytes in Ed; subst pos; nia |].
  eexists. split; [reflexivity |]. split; [done |]. split.
  - destruct C1. split; [| done | done | done |].
    + split; [by split | done | done | done | | done | done | done]. unfold dma_bytes in *. simpl. by rewrite S1.
    + intros k Hk. simpl. rewrite S3; [by apply Hqb |].
      rewrite Z2Nat.id by (apply Z.mod_pos_bound; nia).
      destruct (Z.lt_ge_cases (k mod (n * F)) pos); [by left |]. right.
      destruct (Z.le_gt_cases (pos + c * F) (k mod (n * F))); [done |]. exfalso.
      pose proof (Hpos (k mod (n * F) - pos) ltac:(lia)) as E.
      pose proof (Z.div_mod k (n * F) ltac:(nia)). pose proof (Z.div_mod (A * F + (k mod (n * F) - pos)) (n * F) ltac:(nia)).
      rewrite E in *.
      apply (no_multiple_between (n * F) ((A * F + (k mod (n * F) - pos)) / (n * F) - k / (n * F))
               (A * F + (k mod (n * F) - pos) - k)); [nia |]. split; [lia | nia].
  - intros k Hk. simpl. replace k with (A * F + (k - A * F)) by ring.
    rewrite Hpos, S2, Hstr by lia. done.
Qed.

(** The pointer follows once they are there. *)
Lemma advance_playing str H A r c :
  playing str H A r -> 0 < c -> A + c - H <= n -> A mod n + c <= n ->
  (forall k, A * F <= k < (A + c) * F -> rt_dma_area r !! Z.to_nat (k mod (n * F)) = str k) ->
  playing str H (A + c) (advance_appl (A mod b) c r).
Proof.
  intros P Hc Hroom Hend Hk. pose proof (playing_ring _ _ _ _ P) as (Hn & Hm & Hge & Hle).
  destruct P as [[[] En Eb Ebits Ed Hx Hmin Ht] Eh Ea Hq Hb].
  split; [by split; [split |..] | done | | lia |].
  - unfold advance_appl. simpl. rewrite Eb. pose proof (Z.mod_pos_bound A b ltac:(lia)) as Bb.
    rewrite u32_small by range_lia. pose proof (Z.div_mod A b ltac:(lia)) as E.
    assert (Hcb : A mod b + c <= b).
    { pose proof (ring_step n b A 0 Hn Hm ltac:(lia) ltac:(lia)) as S. cbv zeta in S.
      destruct S as (_ & _ & S & _). lia. }
    destruct (Z.leb_spec b (A mod b + c)).
    + apply (Z.mod_unique _ _ (A / b + 1)); [left; lia | lia].
    + apply (Z.mod_unique _ _ (A / b)); [left; lia | lia].
  - intros k Hk'. simpl. destruct (Z.lt_ge_cases k (A * F)); [apply Hb | apply Hk]; lia.
Qed.

(** *** The loop *)

(** Where the stream may be found: at [A], the hardware not before [H]; or stopped. *)
Definition going (str : Z -> option Z) (H A : Z) (r : snd_pcm_runtime) : Prop :=
  rt_state r = XRUN \/ exists H', H <= H' <= A /\ playing str H' A r.

Lemma going_later str H H' A r : H <= H' -> going str H' A r -> going str H A r.
Proof. intros Hle [Hx | (H2 & ? & P)]; [by left | right]. exists H2. split; [lia | done]. Qed.

Section Appends.
Context (start : snd_pcm_runtime -> Z * snd_pcm_runtime) (Hstart : starts start).
Context (nonblock : bool) (sleeps : list sleep_event).

(** Why a write ends early: the ring is full (for a call that may not block, or before the
    start of the stream), the stream was stopped, the sleep was ended by a signal or a
    timeout, or the stream could not be started. *)
Inductive halted : Z -> snd_pcm_runtime -> Prop :=
| halt_full r : nonblock = true -> snd_pcm_playback_avail r < Z.max 1 (rt_xfer_align r) ->
    halted (-EAGAIN) r
| halt_prepared r : rt_state r = PREPARED -> snd_pcm_playback_avail r = 0 -> halted (-EPIPE) r
| halt_xrun r : rt_state r = XRUN -> halted (-EPIPE) r
| halt_signal r : nonblock = false -> Signal ∈ sleeps -> halted (-ERESTARTSYS) r
| halt_timeout r irq : nonblock = false -> Timeout irq ∈ sleeps -> halted (-EIO) r
| halt_start r r0 : (start r0).1 < 0 -> halted (start r0).1 r.

Lemma wait_playing str A l : forall H r,
  Forall sleep_goes_on l -> Exists ends_sleep l -> l ⊆ sleeps -> nonblock = false -> playing str H A r ->
  exists w l' r', wait_avail snd_pcm_playback_avail l r = Some (w, l', r') /\
    Forall sleep_goes_on l' /\ l' ⊆ sleeps /\ going str H A r' /\
    match w with
    | READY avail => exists H', H <= H' <= A /\ playing str H' A r' /\ avail = n - (A - H') /\
        0 < avail /\ Exists ends_sleep l'
    | w => halted (wait_error w) r'
    end.
Proof.
  induction l as [| e l IH]; intros H r Hl He Hsub Hnb P; [by inversion He |].
  apply Forall_cons in Hl as [Hg Hl]. pose proof P as [_ _ _ Hq _].
  assert (Hsub' : l ⊆ sleeps) by (intros x Hx; apply Hsub; by right).
  pose proof (Hsub e ltac:(by left)) as Hin. destruct e as [| irq | irq]; simpl.
  - eexists _, _, _. split_and!; [reflexivity | done | done | right; exists H; split; [lia | done] |].
    by apply halt_signal.
  - eexists _, _, _. split_and!; [reflexivity | done | done | by apply Hg |]. by eapply halt_timeout.
  - pose proof (Hg str H A r P) as G. destruct (state_is (rt_state (irq r)) XRUN) eqn:Ex.
    + apply bool_decide_eq_true in Ex. eexists _, _, _.
      split_and!; [reflexivity | done | done | by left | by apply halt_xrun].
    + apply bool_decide_eq_false in Ex. destruct G as [| (H' & HH & P')]; [done |].
      apply Exists_cons in He as [[] | He].
      destruct (Z.leb_spec (rt_avail_min (irq r)) (snd_pcm_playback_avail (irq r))) as [Hle | _].
      * eexists _, _, _. split_and!; [reflexivity | done | done | right; eauto |].
        exists H'. split; [done |]. split; [done |]. rewrite (playing_avail _ _ _ _ P') in *.
        pose proof (sc_min _ (pl_config _ _ _ _ P')). split_and!; [done | lia | done].
      * destruct (IH H' (irq r) Hl He Hsub' Hnb P') as (w & l' & r' & E & Hl' & Hs' & G & Hw).
        exists w, l', r'. split_and!; [done.. | eapply going_later; [| exact G]; lia |].
        destruct w as [avail | | |]; [| done..].
        destruct Hw as (H2 & ? & ?). exists H2. split; [lia | done].
Qed.

(** The room there is when a round begins, or the end of the call. *)
Lemma write_avail_playing str H A size r orc :
  lawful orc -> o_sleeps orc ⊆ sleeps -> nonblock = true \/ Exists ends_sleep (o_sleeps orc) ->
  playing str H A r ->
  exists a r' orc', write_avail nonblock size r orc = Some (a, r', orc') /\
    lawful orc' /\ o_sleeps orc' ⊆ sleeps /\ going str H A r' /\
    match a with
    | Next avail => exists H', H <= H' <= A /\ playing str H' A r' /\ avail = n - (A - H') /\
        0 < avail /\ (nonblock = true \/ Exists ends_sleep (o_sleeps orc'))
    | Return err => halted err r'
    end.
Proof.
  intros L Hsub Hend P. pose proof (playing_avail _ _ _ _ P) as Eav. pose proof P as [_ _ _ Hq _].
  assert (G : going str H A r) by (right; exists H; split; [lia | done]).
  assert (Go : 0 < n - (A - H) -> exists H', H <= H' <= A /\ playing str H' A r /\
            snd_pcm_playback_avail r = n - (A - H') /\ 0 < snd_pcm_playback_avail r /\
            (nonblock = true \/ Exists ends_sleep (o_sleeps orc))).
  { intros Hpos. exists H. split; [lia |]. split; [done |]. split; [done |]. split; [lia | done]. }
  unfold write_avail. destruct (state_is (rt_state r) PREPARED) eqn:Ep.
  - apply bool_decide_eq_true in Ep. destruct (Z.eqb_spec (snd_pcm_playback_avail r) 0) as [E0 | E0].
    + eexists _, _, _. split_and!; [reflexivity | done | done | done | by apply halt_prepared].
    + eexists _, _, _. split_and!; [reflexivity | done | done | done |]. apply Go. lia.
  - unfold ensure_avail. destruct (_ || _) eqn:Egate.
    + assert (Hfull : snd_pcm_playback_avail r < Z.max 1 (rt_xfer_align r)).
      { apply orb_true_iff in Egate as [E%Z.eqb_eq | [_ E%Z.ltb_lt]%andb_true_iff]; lia. }
      destruct nonblock eqn:Enb.
      { eexists _, _, _. split_and!; [reflexivity | done | done | done |]. rewrite <- Enb in *. by apply halt_full. }
      rewrite <- Enb in *. destruct Hend as [| Hend]; [congruence |]. destruct L as [Ls Li].
      destruct (wait_playing str A (o_sleeps orc) H r Ls Hend Hsub Enb P)
        as (w & l' & r' & -> & Hl' & Hs' & G' & Hw). simpl.
      destruct w as [avail | | |]; (eexists _, _, _; split; [reflexivity | split; [by split | split; [done | split; [done |]]]]);
        [| exact Hw | exact Hw | exact Hw].
      destruct Hw as (H' & ? & ? & ? & ? & ?). exists H'. do 4 (split; [done |]). by right.
    + apply orb_false_iff in Egate as [E0%Z.eqb_neq _].
      eexists _, _, _. split_and!; [reflexivity | done | done | done |]. apply Go. lia.
Qed.

Lemma unlocked_playing str H A r orc :
  lawful orc -> playing str H A r ->
  let '(orc', r') := unlocked orc r in
  lawful orc' /\ o_sleeps orc' = o_sleeps orc /\ rt_dma_area r' = rt_dma_area r /\ going str H A r'.
Proof.
  intros [Ls Li] P. pose proof P as [_ _ _ Hq _]. unfold unlocked.
  destruct (o_irqs orc) as [| irq irqs] eqn:E.
  - split; [by split; rewrite ?E |]. split; [done |]. split; [done |]. right. exists H. split; [lia | done].
  - apply Forall_cons in Li as [[Hg Hsp] Li]. split; [by split |]. split; [done |].
    split; [by eapply Hsp | by apply Hg].
Qed.

(** What follows a copy: the pointer moves, the stream may be started. *)
Lemma started_playing str H A r (err : Z) :
  0 <= err -> playing str H A r ->
  let '(err', r') :=
    if state_is (rt_state r) PREPARED && (rt_start_threshold r <=? snd_pcm_playback_hw_avail r)
    then start r else (err, r) in
  if err' <? 0 then going str H A r' /\ halted err' r'
  else exists H', H <= H' <= A /\ playing str H' A r'.
Proof using Hstart.
  intros He P. pose proof P as [_ _ _ Hq _]. destruct (_ && _).
  - pose proof (Hstart str H A r P) as S. pose proof (halt_start (start r).2 r) as Hh.
    destruct (start r) as [err' r']. simpl in *. destruct (Z.ltb_spec err' 0).
    + split; [| auto]. destruct S as [[_ S] | S]; [by left | by right].
    + destruct S as [[S _] | S]; [lia | done].
  - destruct (Z.ltb_spec err 0); [lia |]. exists H. split; [lia | done].
Qed.

Lemma write_loop_appends data str fuel : forall size offset xfer err H A r orc,
  lawful orc -> o_sleeps orc ⊆ sleeps -> nonblock = true \/ Exists ends_sleep (o_sleeps orc) ->
  playing str H A r -> (Z.to_nat size < fuel)%nat -> 0 <= size -> 0 <= offset -> 0 <= xfer ->
  xfer + size <= UINT_MAX -> (offset + size) * F <= Z.of_nat (length data) ->
  (offset + size) * (8 * F) <= UINT_MAX ->
  (forall k, 0 <= k < size * F -> str (A * F + k) = data !! Z.to_nat (offset * F + k)) ->
  exists m err' r' orc',
    write_loop start (ram_transfer data) nonblock fuel size offset xfer err r orc =
      finish (xfer + m) err' r' orc' /\
    0 <= m <= size /\ going str H (A + m) r' /\ (m = size \/ halted err' r').
Proof using Hstart HF Hsmall.
  remember (ram_transfer data) as t eqn:Htr.
  induction fuel as [| fuel IH]; intros size offset xfer err H A r orc L Hsub Hend P Hf Hs Ho Hx Hxs Hlen Hov Hstr; [lia |].
  assert (Stop : forall r' err' orc', going str H A r' -> halted err' r' -> exists m err2 r2 orc2,
    finish xfer err' r' orc' = finish (xfer + m) err2 r2 orc2 /\
    0 <= m <= size /\ going str H (A + m) r2 /\ (m = size \/ halted err2 r2)).
  { intros r' err' orc' G Hh. exists 0, err', r', orc'. rewrite !Z.add_0_r.
    split; [done |]. split; [lia |]. split; [done | by right]. }
  simpl. destruct (Z.eqb_spec size 0) as [-> | Hnz].
  { exists 0, err, r, orc. rewrite !Z.add_0_r. pose proof P as [_ _ _ Hq _].
    split_and!; [done | lia | lia | right; exists H; split; [lia | done] | by left]. }
  destruct (write_avail_playing str H A size r orc L Hsub Hend P)
    as (a & r1 & orc1 & -> & L1 & Hsub1 & G1 & Ha). simpl.
  destruct a as [err1 | avail]; [by apply Stop |].
  destruct Ha as (H1 & HH1 & P1 & Eav & Hpos & Hend1). clear G1.
  pose proof (playing_io _ _ _ _ P1) as Hio. rewrite (no_io_traps r1 Hio).
  pose proof (chunk_le size avail r1 Hio Hs ltac:(lia)) as (Hc1 & Hc2 & Hc3).
  pose proof (chunk_pos size avail r1 Hio ltac:(lia) ltac:(lia)) as Hc0.
  set (c := chunk size avail r1) in *. destruct (Z.eqb_spec c 0) as [| _]; [lia |].
  pose proof (playing_ring _ _ _ _ P1) as (Hn & Hm & Hge & Hle).
  assert (Hofs : A mod n + c <= n).
  { pose proof P1 as [C1 _ E1 _ _]. rewrite E1, (sc_size _ C1), (mod_mod_ring A b n) in Hc3 by lia. lia. }
  destruct (chunk_copied data str H1 A r1 offset c P1 Ho Hc0 ltac:(lia) Hofs ltac:(nia) ltac:(nia))
    as (r2 & E2 & Es2 & P2 & Hfresh); [intros k Hk; apply Hstr; nia |].
  rewrite Htr, E2. simpl.
  pose proof (unlocked_playing str H1 A r2 orc1 L1 P2) as U.
  destruct (unlocked orc1 r2) as [orc3 r3]. destruct U as (L3 & Esl & Earea & G3).
  destruct (state_is (rt_state r3) XRUN) eqn:Ex.
  { apply bool_decide_eq_true in Ex. apply Stop; [by left | by apply halt_xrun]. }
  apply bool_decide_eq_false in Ex. destruct G3 as [| (H3 & HH3 & P3)]; [done |].
  rewrite <- Earea in Hfresh.
  pose proof (advance_playing str H3 A r3 c P3 Hc0 ltac:(lia) Hofs Hfresh) as P4.
  replace (rt_appl_ptr r1) with (A mod b) by (by destruct P1).
  set (r4 := advance_appl (A mod b) c r3) in *.
  assert (Hov1 : offset + size <= UINT_MAX) by (clear -Hov HF Ho Hs; nia).
  rewrite (u32_small (offset + c)), (u32_small (size - c)), (u32_small (xfer + c)) by range_lia.
  pose proof (started_playing str H3 (A + c) r4 0 ltac:(lia) P4) as S.
  destruct (if state_is (rt_state r4) PREPARED && _ then _ else _) as [err5 r5].
  destruct (err5 <? 0).
  { destruct S as [G Hh]. exists c, err5, r5, orc3. split_and!; [done | lia | lia | | by right].
    eapply going_later; [| exact G]. lia. }
  destruct S as (H5 & HH5 & P5). destruct (playing_tick _ _ _ _ P5) as [-> P6].
  destruct (IH (size - c) (offset + c) (xfer + c) err5 H5 (A + c) (tick_after r5) orc3 L3)
    as (m & err' & r' & orc' & E & Hm' & G & Hh); try done; try lia.
  - by rewrite Esl.
  - by rewrite Esl.
  - intros k Hk. replace ((A + c) * F + k) with (A * F + (c * F + k)) by ring.
    rewrite Hstr by nia. f_equal. f_equal. ring.
  - rewrite <- Htr, E. exists (c + m), err', r', orc'.
    replace (xfer + c + m) with (xfer + (c + m)) by ring.
    replace (A + c + m) with (A + (c + m)) in G by ring.
    split_and!; [done | lia | lia | eapply going_later; [| exact G]; lia |].
    destruct Hh as [-> | Hh]; [left; ring | by right].
Qed.
End Appends.
End Stream.

(** C4: a write appends the user's frames to the stream.  Blocking or not, on a prepared
    or running stream, with the hardware playing meanwhile, but filling in no silence
    between a copy and its update of the pointer: the call returns; for some
    [m] up to the frames asked for, it returns [m], or an error when [m] is 0; the stream
    is stopped by an underrun, or its queue now ends [m] frames later and holds what was
    queued and not yet played, followed by the first [m] frames of the user, each byte in
    its place.  [m] is smaller than asked (in whole transfers) only when the ring is
    full and the call may not block or the stream is not started, when the stream was
    stopped or could not be started, or when a signal or a timeout ended the sleep. *)
Theorem write1_copies F n b start nonblock data str H A size r orc :
  0 < F -> n * (8 * F) <= UINT_MAX -> starts F n b start -> lawful F n b orc ->
  nonblock = true \/ Exists ends_sleep (o_sleeps orc) ->
  playing F n b str H A r -> rt_state r = PREPARED \/ rt_state r = RUNNING ->
  0 < size -> size * F <= Z.of_nat (length data) -> size * (8 * F) <= UINT_MAX ->
  (forall k, 0 <= k < size * F -> str (A * F + k) = data !! Z.to_nat k) ->
  exists m err r' orc',
    snd_pcm_lib_write1 start (ram_transfer data) nonblock size r orc =
      Some (if 0 <? m then m else err, r', orc') /\
    0 <= m <= size /\
    (rt_state r' = XRUN \/ exists H', H <= H' <= A + m /\ playing F n b str H' (A + m) r') /\
    (m = align_down_frames size (rt_xfer_align r) \/
     halted start nonblock (o_sleeps orc) err r').
Proof.
  intros HF Hsm Hst L Hend P Hstate Hs Hl Hov Hstr.
  pose proof (sc_align _ _ _ _ (pl_config _ _ _ _ _ _ _ P)) as Hal.
  unfold snd_pcm_lib_write1. destruct (Z.eqb_spec size 0); [lia |].
  destruct (Z.eqb_spec (rt_xfer_align r) 0); [lia |]. cbv zeta.
  pose proof (align_down_le size (rt_xfer_align r) ltac:(lia) Hal) as Hsz.
  set (size' := align_down_frames size (rt_xfer_align r)) in *.
  destruct (write_loop_appends F n b HF Hsm start Hst nonblock (o_sleeps orc) data str (S (Z.to_nat size'))
              size' 0 0 0 H A r orc L) as (m & err & r' & orc' & E & Hm & G & Hh);
    try done; try lia; try (unfold UINT_MAX in *; nia).
  - intros k Hk. by rewrite Hstr by nia.
  - exists m, err, r', orc'. split_and!; [| lia | lia | exact G | exact Hh].
    unfold finish in E. rewrite Z.add_0_l in E.
    destruct Hstate as [-> | ->]; exact E.
Qed.

(** *** Hardware that plays [d] frames at each interrupt *)

Definition play_frames (d : Z) (r : snd_pcm_runtime) : snd_pcm_runtime :=
  if d <=? snd_pcm_playback_hw_avail r then r <| rt_hw_ptr := (rt_hw_ptr r + d) mod rt_boundary r |>
  else r <| rt_state := XRUN |>.

Lemma play_frames_goes_on F n b d : 0 <= F -> 0 <= d -> goes_on F n b (play_frames d).
Proof.
  intros HF Hd str H A r P. pose proof (playing_ring F n b _ _ _ _ P) as (Hn & Hm & Hge & Hle).
  pose proof P as [[C En Eb E4 E5 E6 E7 E8] Eh Ea Hq Hk]. unfold play_frames.
  destruct (Z.leb_spec d (snd_pcm_playback_hw_avail r)) as [Hle' | _]; [right | by left].
  assert (Ehw : snd_pcm_playback_hw_avail r = A - H).
  { apply (avail_totals r H A C); [by rewrite Eb | by rewrite Eb | lia]. }
  exists (H + d). split; [lia |]. destruct C.
  split; [split; try done; by split | | done | lia | intros k Hk'; apply Hk; nia].
  simpl. rewrite Eh, Eb. apply Zplus_mod_idemp_l.
Qed.

Lemma simple_start_starts F n b : starts F n b simple_start.
Proof.
  intros str H A r [[[] E2 E3 E4 E5 E6 E7 E8] Eh Ea Hq Hk]. right. exists H. split; [lia |].
  split; done.
Qed.

(** Ten frames written to a ring of eight that has three queued: five fit, four more after
    an interrupt, and the next sleep ends with a timeout. *)
Lemma write1_copies_witness :
  let orc := Oracle [Woken (play_frames 4); Timeout (play_frames 1)] [] in
  let data := [11; 12; 13; 14; 15; 16; 17; 18; 19; 20] in
  let str k := if k <? 5 then rt_dma_area small_stream !! Z.to_nat (k mod 8)
               else data !! Z.to_nat (k - 5) in
  (exists m err r' orc', snd_pcm_lib_write1 simple_start (ram_transfer data) false 10 small_stream orc =
     Some (if 0 <? m then m else err, r', orc') /\
     (rt_state r' = XRUN \/ exists H', 2 <= H' <= 5 + m /\ playing 1 8 64 str H' (5 + m) r')) /\
  (('(rc, r', _) ← snd_pcm_lib_write1 simple_start (ram_transfer data) false 10 small_stream orc;
    Some (rc, rt_dma_area r')) = Some (9, [14; 15; 16; 17; 18; 19; 12; 13])).
Proof.
  intros orc data str. split; [| vm_compute; reflexivity].
  assert (P : playing 1 8 64 str 2 5 small_stream).
  { split; [split; [split |..] |..]; try (vm_compute; try split; congruence).
    intros k Hk. unfold str. destruct (Z.ltb_spec k 5); [| lia].
    by replace (8 * 1) with 8 by ring. }
  destruct (write1_copies 1 8 64 simple_start false data str 2 5 10 small_stream orc)
    as (m & err & r' & orc' & E & _ & G & _).
  - lia.
  - unfold UINT_MAX. lia.
  - apply simple_start_starts.
  - split; simpl; [| by constructor].
    apply Forall_cons; split; [apply play_frames_goes_on; lia |].
    apply Forall_singleton, play_frames_goes_on; lia.
  - right. apply Exists_cons. right. by apply Exists_cons; left.
  - exact P.
  - by right.
  - lia.
  - simpl. lia.
  - unfold UINT_MAX. lia.
  - intros k Hk. unfold str. destruct (Z.ltb_spec (5 * 1 + k) 5); [lia |]. do 2 f_equal. lia.
  - exists m, err, r', orc'. split; [exact E | exact G].
Defined.

(** An interrupt between the copy and the update of the pointer spares the new frames only
    while no silence is to be filled in: filling begins at the old pointer, and the two
    frames of this write are silenced before they are queued. *)
Theorem write1_race_with_silence :
  ('(rc, r', _) ← snd_pcm_lib_write1 simple_start (ram_transfer [11; 12]) true 2 small_stream
                   (Oracle [] [snd_pcm_playback_silence None]);
  Some (rc, rt_appl_ptr r', rt_dma_area r')) = Some (2, 7, [1; 2; 3; 4; 5; 128; 128; 8]).
Proof. vm_compute. reflexivity. Qed.
