(* ===== verification/PcmTimer.v ===== *)
(** * PcmTimer: the period timer of a substream

    alsa/core/pcm_timer.c: the resolution, in nanoseconds, of the timer that ticks once
    per period. *)

From S2P Require Import Prelude.
Open Scope Z_scope.

(** [while ((r = a % b) != 0) { a = b; b = r; }] *)
Fixpoint gcd_loop (fuel : nat) (a b : Z) : Z :=
  match fuel with
  | O => b
  | S fuel => let r := Z.rem a b in if r =? 0 then b else gcd_loop fuel b r
  end.

(** The smaller argument strictly decreases, so that many rounds are enough. *)
Definition gcd (a b : Z) : Z :=
  let '(a, b) := if a <? b then (b, a) else (a, b) in gcd_loop (S (Z.to_nat (Z.abs b))) a b.

(** [while ((mult * fsize) / fsize != mult) { mult /= 2; rate /= 2; }] *)
Fixpoint fit_loop (fuel : nat) (mult rate fsize : Z) : Z * Z :=
  match fuel with
  | O => (mult, rate)
  | S fuel =>
      if u32 (mult * fsize) / fsize =? mult then (mult, rate)
      else fit_loop fuel (mult / 2) (rate / 2) fsize
  end.

(** The new [runtime->timer_resolution]; [None] leaves the old one. *)
Definition snd_pcm_timer_resolution_change (rate period_size : Z) : option Z :=
  let mult := 1000000000 in
  if rate =? 0 then None
  else
    let l := u32 (gcd mult (s32 rate)) in
    let mult := mult / l in
    let rate := rate / l in
    let fsize := period_size in
    if fsize =? 0 then None
    else
      let l := u32 (gcd (s32 rate) (s32 fsize)) in
      let rate := rate / l in
      let fsize := fsize / l in
      let '(mult, rate) := fit_loop 32 mult rate fsize in
      if rate =? 0 then None else Some (u32 (mult * fsize) / rate).

(** What it divides by: [gcd] by its smaller argument first. *)
Definition resolution_divisors (rate period_size : Z) : list Z :=
  if rate =? 0 then []
  else
    let l := u32 (gcd 1000000000 (s32 rate)) in
    Z.min 1000000000 (s32 rate) :: l ::
    if period_size =? 0 then []
    else
      let rate := s32 (rate / l) in
      let l := u32 (gcd rate (s32 period_size)) in
      [Z.min rate (s32 period_size); l; period_size / l].

(** ** Correctness *)

Lemma gcd_loop_gcd fuel a b :
  0 <= a -> 0 < b -> (Z.to_nat b < fuel)%nat -> gcd_loop fuel a b = Z.gcd a b.
Proof.
  revert a b. induction fuel as [| fuel IH]; intros a b Ha Hb Hf; [lia |].
  cbn [gcd_loop]. rewrite Z.rem_mod_nonneg by lia.
  pose proof (Z.mod_pos_bound a b Hb). cbv zeta.
  rewrite Z.gcd_comm, <- Z.gcd_mod, (Z.gcd_comm (a mod b)) by lia.
  destruct (Z.eqb_spec (a mod b) 0) as [-> | Hr].
  - rewrite Z.gcd_0_r. lia.
  - apply IH; lia.
Qed.

Lemma gcd_gcd a b : 0 < a -> 0 < b -> gcd a b = Z.gcd a b.
Proof.
  intros Ha Hb. unfold gcd. destruct (Z.ltb_spec a b); rewrite Z.abs_eq by lia.
  - rewrite (Z.gcd_comm a b). apply gcd_loop_gcd; lia.
  - apply gcd_loop_gcd; lia.
Qed.

(** The division test detects that the product does not fit. *)
Lemma fits_spec mult fsize :
  0 <= mult -> 0 < fsize -> (u32 (mult * fsize) / fsize =? mult) = (mult * fsize <=? UINT_MAX).
Proof.
  intros Hm Hf. pose proof (u32_range (mult * fsize)) as Hr.
  destruct (Z.leb_spec (mult * fsize) UINT_MAX) as [H | H].
  - rewrite u32_small by (split; [nia | exact H]). rewrite Z.div_mul by lia. apply Z.eqb_refl.
  - apply Z.eqb_neq. assert (u32 (mult * fsize) / fsize < mult); [| lia].
    apply Z.div_lt_upper_bound; [lia |]. range_lia.
Qed.

Lemma fit_loop_fits fuel mult rate fsize :
  0 <= mult < 2 ^ Z.of_nat fuel -> 0 <= rate -> 0 < fsize -> fsize <= UINT_MAX ->
  exists k, 0 <= k /\
    fit_loop fuel mult rate fsize = (mult / 2 ^ k, rate / 2 ^ k) /\
    mult / 2 ^ k * fsize <= UINT_MAX /\
    (forall j, 0 <= j < k -> UINT_MAX < mult / 2 ^ j * fsize).
Proof.
  intros Hm Hr Hf Hmax. revert mult rate Hm Hr. induction fuel as [| fuel IH]; intros mult rate Hm Hr.
  - exists 0. change (2 ^ 0) with 1. rewrite !Z.div_1_r.
    replace mult with 0 by (change (2 ^ Z.of_nat 0) with 1 in Hm; lia).
    split; [lia |]. split; [done |]. split; [word_lia |]. lia.
  - cbn [fit_loop]. rewrite fits_spec by lia.
    destruct (Z.leb_spec (mult * fsize) UINT_MAX) as [H | H].
    + exists 0. change (2 ^ 0) with 1. rewrite !Z.div_1_r. split_and!; try done. lia.
    + rewrite Nat2Z.inj_succ, Z.pow_succ_r in Hm by lia.
      destruct (IH (mult / 2) (rate / 2)) as (k & Hk & E & Hb & Hj); [word_lia | word_lia |].
      rewrite !Z.div_div in E by lia. rewrite Z.div_div in Hb by lia.
      exists (k + 1). rewrite Z.pow_add_r, Z.mul_comm by lia. change (2 ^ 1) with 2.
      split; [lia |]. split; [done |]. split; [done |].
      intros j Hj'. destruct (Z.eq_dec j 0) as [-> | Hj0]; [by rewrite Z.div_1_r |].
      specialize (Hj (j - 1) ltac:(lia)). rewrite Z.div_div in Hj by lia.
      replace (2 ^ j) with (2 * 2 ^ (j - 1)); [done |]. rewrite <- Z.pow_succ_r by lia. f_equal. lia.
Qed.

(** A positive number by its greatest common divisor with another. *)
Lemma gcd_split a b :
  0 < a -> 0 < b -> exists a' b', 0 < Z.gcd a b <= a /\ 0 < a' <= a /\ 0 < b' <= b /\
    a = a' * Z.gcd a b /\ b = b' * Z.gcd a b /\ a / Z.gcd a b = a' /\ b / Z.gcd a b = b'.
Proof.
  intros Ha Hb.
  destruct (Z.gcd_divide_l a b) as [a' Ea]. destruct (Z.gcd_divide_r a b) as [b' Eb].
  pose proof (Z.gcd_nonneg a b) as Hg0. set (g := Z.gcd a b) in *. clearbody g.
  assert (Hg : 0 < g) by (destruct (Z.eq_dec g 0) as [-> |]; lia).
  assert (0 < a' /\ 0 < b') as [Ha' Hb'] by (split; nia).
  exists a', b'. split_and!; try done; try nia; rewrite ?Ea, ?Eb; apply Z.div_mul; lia.
Qed.

Lemma resolution_divisors_there rate period :
  0 < rate <= INT_MAX -> 0 < period <= INT_MAX -> forallb truth (resolution_divisors rate period) = true.
Proof.
  intros Hr Hp. unfold resolution_divisors.
  replace (rate =? 0) with false by (symmetry; apply Z.eqb_neq; lia).
  replace (period =? 0) with false by (symmetry; apply Z.eqb_neq; lia). cbv zeta.
  rewrite (s32_small rate) by range_lia. rewrite gcd_gcd by lia.
  destruct (gcd_split 1000000000 rate) as (m & d & Hg & Hm & Hd & Em & Ed & Edm & Edd); [lia | lia |].
  rewrite (u32_small (Z.gcd 1000000000 rate)), Edd by range_lia.
  rewrite (s32_small d), (s32_small period), gcd_gcd by range_lia.
  destruct (gcd_split d period) as (d' & f & Hh & Hd' & Hf & Ed' & Ef & Edd' & Edf); [lia | lia |].
  rewrite (u32_small (Z.gcd d period)) by range_lia. rewrite Edf.
  simpl. unfold truth. rewrite !(proj2 (Z.eqb_neq _ _)) by lia. done.
Qed.

(** The period timer's resolution.  With the fraction [10^9 / rate * period] reduced
    to [mult * fsize / den], the result is that quotient rounded down when the numerator
    fits 32 bits; otherwise [mult] and [den] are halved together exactly until it fits,
    and the old resolution stays only when [den] vanishes on the way. *)
Theorem timer_resolution_spec rate period :
  0 < rate <= INT_MAX -> 0 < period <= INT_MAX ->
  exists mult den fsize k,
    10 ^ 9 * period * den = mult * fsize * rate /\ 0 < den /\ 0 < fsize /\ 0 <= k /\
    mult / 2 ^ k * fsize <= UINT_MAX /\
    (forall j, 0 <= j < k -> UINT_MAX < mult / 2 ^ j * fsize) /\
    snd_pcm_timer_resolution_change rate period =
      (if den / 2 ^ k =? 0 then None else Some (mult / 2 ^ k * fsize / (den / 2 ^ k))) /\
    (k = 0 -> snd_pcm_timer_resolution_change rate period = Some (10 ^ 9 * period / rate)).
Proof.
  intros Hr Hp. unfold snd_pcm_timer_resolution_change.
  replace (rate =? 0) with false by (symmetry; apply Z.eqb_neq; lia).
  replace (period =? 0) with false by (symmetry; apply Z.eqb_neq; lia). cbv zeta.
  rewrite (s32_small rate) by range_lia. rewrite gcd_gcd by lia.
  destruct (gcd_split 1000000000 rate) as (m & d & Hg & Hm & Hd & Em & Ed & Edm & Edd); [lia | lia |].
  set (g := Z.gcd 1000000000 rate) in *. rewrite (u32_small g), Edm, Edd by range_lia.
  destruct (gcd_split d period) as (d' & f & Hh & Hd' & Hf & Ed' & Ef & Edd' & Edf); [lia | lia |].
  rewrite (s32_small d), (s32_small period), gcd_gcd by range_lia.
  set (h := Z.gcd d period) in *. rewrite (u32_small h), Edd', Edf by range_lia.
  destruct (fit_loop_fits 32 m d' f) as (k & Hk & -> & Hfit & Hj);
    [change (2 ^ Z.of_nat 32) with 4294967296; lia | lia | lia | range_lia |].
  assert (Hpow : 0 < 2 ^ k) by (apply Z.pow_pos_nonneg; lia).
  assert (Hmk : 0 <= m / 2 ^ k) by (apply Z.div_pos; lia).
  rewrite (u32_small (m / 2 ^ k * f)) by (split; [nia | exact Hfit]).
  exists m, d', f, k.
  assert (E : 10 ^ 9 * period * d' = m * f * rate).
  { change (10 ^ 9) with 1000000000. rewrite Em, Ed, Ed', Ef. ring. }
  split; [exact E |]. split_and!; try done; [lia | lia |].
  intros ->. change (2 ^ 0) with 1. rewrite !Z.div_1_r.
  replace (d' =? 0) with false by (symmetry; apply Z.eqb_neq; lia). f_equal.
  rewrite <- (Z.div_mul_cancel_r (m * f) d' rate), <- E, (Z.mul_comm d' rate) by lia.
  apply Z.div_mul_cancel_r; lia.
Qed.

Lemma timer_resolution_spec_witness :
  snd_pcm_timer_resolution_change 48000 1024 = Some 21333333 /\
  (exists mult den fsize k, 10 ^ 9 * 1024 * den = mult * fsize * 48000 /\ 0 < den /\ 0 <= k /\
     mult / 2 ^ k * fsize <= UINT_MAX).
Proof.
  split; [vm_compute; reflexivity |].
  destruct (timer_resolution_spec 48000 1024) as (m & d & f & k & H1 & H2 & H3 & H4 & H5 & _);
    [vm_compute; split; discriminate || reflexivity | vm_compute; split; discriminate || reflexivity |].
  exists m, d, f, k. split_and!; assumption.
Defined.

(** The halving costs accuracy at common settings: at 44100 Hz and 1024 frames the
    denominator 441 is cut to 110, and the period of 23.220 ms is reported as 23.273 ms. *)
Theorem timer_resolution_44100_off :
  snd_pcm_timer_resolution_change 44100 1024 = Some 23272727 /\ 10 ^ 9 * 1024 / 44100 = 23219954.
Proof. by vm_compute. Qed.
