(* ===== verification/PcmState.v ===== *)
(** * PcmState: the state machine of linked PCM substreams

    The operations of alsa/core/pcm_native.c that move substreams between states:
    start, stop, pause, reset and prepare act on all substreams of a link group, whose
    runtime locks they take and release; drain, drop, parameters, status, link and unlink
    are built on them.  The state is the heap of substreams with the set of runtime locks
    that are held. *)

From S2P Require Export StateMonad.
From S2P Require Import Prelude PcmRuntime PcmRing.
Open Scope Z_scope.

(** ** Substreams and the world *)

Record snd_pcm_substream := Substream {
  ss_rt : snd_pcm_runtime;
  ss_link_next : nat;
  ss_link_prev : nat;
  ss_trigger_master : option nat;   (* runtime->trigger_master *)
  ss_trigger_tstamp : Z;            (* runtime->trigger_tstamp *)
  ss_timer_resolution : Z;          (* runtime->timer_resolution *)
  ss_timer_running : bool;          (* runtime->timer_running *)
  ss_nonblock : bool }.             (* ffile->f_flags & O_NONBLOCK *)

#[export] Instance settable_substream : Settable snd_pcm_substream :=
  fun s => Substream (ss_rt s) (ss_link_next s) (ss_link_prev s) (ss_trigger_master s)
    (ss_trigger_tstamp s) (ss_timer_resolution s) (ss_timer_running s) (ss_nonblock s).

(** A spin lock: [pcm_link_lock], or the [runtime->lock] of a substream. *)
Definition lock : Type := option nat.
Definition pcm_link_lock : lock := None.
Definition runtime_lock (s : nat) : lock := Some s.

(** A division by 0 traps the processor.  The trap is recorded, and what the model does
    after it means nothing. *)
Record world := World {
  w_subs : gmap nat snd_pcm_substream;
  w_held : gset lock;
  w_clock : Z;                      (* what snd_timestamp_now reads *)
  w_trapped : bool }.

#[export] Instance settable_world : Settable world :=
  fun w => World (w_subs w) (w_held w) (w_clock w) (w_trapped w).

Abbreviation M := (ST world).
Open Scope state_scope.

Definition sub (s : nat) : M snd_pcm_substream := fun w =>
  match w_subs w !! s with Some x => Some (x, w) | None => None end.

Definition put_sub (s : nat) (x : snd_pcm_substream) : M unit := fun w =>
  Some (tt, w <| w_subs := <[s := x]> (w_subs w) |>).

Definition modify_sub (s : nat) (f : snd_pcm_substream -> snd_pcm_substream) : M unit :=
  x <- sub s;; put_sub s (f x).

Definition runtime (s : nat) : M snd_pcm_runtime := x <- sub s;; ret (ss_rt x).

Definition modify (s : nat) (f : snd_pcm_runtime -> snd_pcm_runtime) : M unit :=
  modify_sub s (fun x => x <| ss_rt := f (ss_rt x) |>).

Definition spin_lock (l : lock) : M unit := fun w =>
  if decide (l ∈ w_held w) then None else Some (tt, w <| w_held := {[l]} ∪ w_held w |>).

Definition spin_unlock (l : lock) : M unit := fun w =>
  if decide (l ∈ w_held w) then Some (tt, w <| w_held := w_held w ∖ {[l]} |>) else None.

Definition snd_timestamp_now : M Z := fun w => Some (w_clock w, w).

(** Something is divided by each of [l]. *)
Definition divides (l : list Z) : M unit := fun w =>
  Some (tt, if forallb truth l then w else w <| w_trapped := true |>).

(** The divisors [f] of what comes next are checked on the runtime. *)
Definition check_divisors (s : nat) (f : snd_pcm_runtime -> list Z) : M unit :=
  r <- runtime s;; divides (f r).

(** ** Acting on a link group *)

Section Linked.
(** The three parts of an operation: the check made on every member under its lock,
    the call into the driver, and what is done on success; and whether a member that
    the driver has already triggered along with another is spared the call. *)
Variable pre : snd_pcm_runtime -> Z.
Variable act : nat -> M Z.
Variable post : nat -> M unit.
Variable skip_triggered : bool.
Variable substream : nat.

(** The result and where the loop stopped: back at [substream] when all checks pass. *)
Fixpoint pre_loop (fuel : nat) (s : nat) : M (Z * nat) :=
  match fuel with
  | O => fun _ => None
  | S fuel =>
      when (negb (s =? substream)%nat) (spin_lock (runtime_lock s));;;
      x <- sub s;;
      let res := pre (ss_rt x) in
      if res <? 0 then ret (res, s)
      else if (ss_link_next x =? substream)%nat then ret (res, ss_link_next x)
      else pre_loop fuel (ss_link_next x)
  end.

(** [while (s != substream) { spin_unlock; s = s->link_prev; }] *)
Fixpoint unwind (fuel : nat) (s : nat) : M unit :=
  match fuel with
  | O => fun _ => None
  | S fuel =>
      if (s =? substream)%nat then ret tt
      else
        spin_unlock (runtime_lock s);;;
        x <- sub s;;
        unwind fuel (ss_link_prev x)
  end.

Definition act_one (s : nat) (res : Z) : M Z :=
  x <- sub s;;
  if skip_triggered && bool_decide (is_Some (ss_trigger_master x)) then (post s;;; ret res)
  else
    (err <- act s;;
     if err <? 0 then ret (if res =? 0 then err else res)
     else (post s;;; ret res)).

Fixpoint act_loop (fuel : nat) (s : nat) (res : Z) : M Z :=
  match fuel with
  | O => fun _ => None
  | S fuel =>
      res <- act_one s res;;
      when (negb (s =? substream)%nat) (spin_unlock (runtime_lock s));;;
      x <- sub s;;
      if (ss_link_next x =? substream)%nat then ret res else act_loop fuel (ss_link_next x) res
  end.

(** More rounds than there are substreams would mean a broken ring. *)
Definition group_fuel (w : world) : nat := S (size (w_subs w)).

Definition linked_op : M Z := fun w =>
  (spin_lock pcm_link_lock;;;
   rs <- pre_loop (group_fuel w) substream;;
   res <- (if rs.1 <? 0 then (unwind (group_fuel w) rs.2;;; ret rs.1)
           else act_loop (group_fuel w) substream rs.1);;
   spin_unlock pcm_link_lock;;;
   ret res) w.
End Linked.

(** [snd_pcm_change_state]: lock the others, then set and unlock all. *)
Fixpoint lock_others (fuel : nat) (substream s : nat) : M unit :=
  match fuel with
  | O => fun _ => None
  | S fuel =>
      if (s =? substream)%nat then ret tt
      else
        spin_lock (runtime_lock s);;;
        x <- sub s;;
        lock_others fuel substream (ss_link_next x)
  end.

Definition snd_pcm_change_state (s : nat) (state : pcm_state) : M unit := fun w =>
  (spin_lock pcm_link_lock;;;
   x <- sub s;;
   lock_others (group_fuel w) s (ss_link_next x);;;
   act_loop (fun _ => ret 0) (fun s => modify s (fun r => r <| rt_state := state |>)) false s
     (group_fuel w) s 0;;;
   spin_unlock pcm_link_lock) w.

(** ** What operations keep *)

(** The links of a substream, the geometry of its ring, and whether everything that is
    divided by is there. *)
Record skel := Skel {
  sk_next : nat; sk_prev : nat; sk_buffer : Z; sk_boundary : Z; sk_divisors : bool }.

Definition skel_of (x : snd_pcm_substream) : skel :=
  Skel (ss_link_next x) (ss_link_prev x) (rt_buffer_size (ss_rt x)) (rt_boundary (ss_rt x))
    (divisors_there (ss_rt x)).
Definition state_of (x : snd_pcm_substream) : pcm_state := rt_state (ss_rt x).

Definition skeleton (w : world) : gmap nat skel := skel_of <$> w_subs w.
Definition states (w : world) : gmap nat pcm_state := state_of <$> w_subs w.

(** No trigger master dangles. *)
Definition masters_ok (w : world) : Prop :=
  forall s x m, w_subs w !! s = Some x -> ss_trigger_master x = Some m -> is_Some (w_subs w !! m).

Record keeps (w w' : world) : Prop := {
  kp_skel : skeleton w' = skeleton w;
  kp_states : states w' = states w;
  kp_held : w_held w' = w_held w;
  kp_masters : masters_ok w -> masters_ok w';
  kp_trapped : w_trapped w' = w_trapped w }.

#[export] Instance keeps_preorder : PreOrder keeps.
Proof.
  split; [by split |]. intros w1 w2 w3 [A B C D E] [A' B' C' D' E'].
  split; [congruence | congruence | congruence | auto | congruence].
Qed.

(** The operations on [s] do not divide by 0. *)
Definition divisible (w : world) (s : nat) : Prop :=
  exists k, skeleton w !! s = Some k /\ sk_divisors k = true.

(** Like [keeps], but there is a trap if [s] is not divisible. *)
Record keeps_at (s : nat) (w w' : world) : Prop := {
  ka_skel : skeleton w' = skeleton w;
  ka_states : states w' = states w;
  ka_held : w_held w' = w_held w;
  ka_masters : masters_ok w -> masters_ok w';
  ka_trapped : divisible w s -> w_trapped w' = w_trapped w }.

Lemma divisible_skeleton w w' s : skeleton w' = skeleton w -> divisible w s -> divisible w' s.
Proof. unfold divisible. by intros ->. Qed.

#[export] Instance keeps_at_preorder s : PreOrder (keeps_at s).
Proof.
  split; [by split |]. intros w1 w2 w3 [A B C D E] [A' B' C' D' E'].
  split; [congruence | congruence | congruence | auto |].
  intros Hd. rewrite E' by (by apply (divisible_skeleton w1)). auto.
Qed.

Lemma keeps_keeps_at s w w' : keeps w w' -> keeps_at s w w'.
Proof. by intros []; split. Qed.

Lemma skeleton_dom w w' s :
  skeleton w' = skeleton w -> is_Some (w_subs w !! s) -> is_Some (w_subs w' !! s).
Proof.
  intros E [x Hx]. apply (f_equal (.!! s)) in E. unfold skeleton in E.
  rewrite !lookup_fmap, Hx in E. destruct (w_subs w' !! s); [eauto | done].
Qed.

Lemma skeleton_sub w s k :
  skeleton w !! s = Some k -> exists x, w_subs w !! s = Some x /\ skel_of x = k.
Proof. unfold skeleton. rewrite lookup_fmap, fmap_Some. intros (x & Hx & ->). eauto. Qed.

(** ** Total correctness *)

Lemma spin_lock_some l w :
  l ∉ w_held w -> spin_lock l w = Some (tt, w <| w_held := {[l]} ∪ w_held w |>).
Proof. intros H. unfold spin_lock. by rewrite decide_False. Qed.

Lemma spin_unlock_some l w :
  l ∈ w_held w -> spin_unlock l w = Some (tt, w <| w_held := w_held w ∖ {[l]} |>).
Proof. intros H. unfold spin_unlock. by rewrite decide_True. Qed.

Lemma wp_sub s x (Q : snd_pcm_substream -> world -> Prop) w :
  w_subs w !! s = Some x -> Q x w -> wp (sub s) Q w.
Proof. unfold wp, sub. by intros ->. Qed.

Lemma wp_modify_sub s x f (Q : unit -> world -> Prop) w :
  w_subs w !! s = Some x -> Q tt (w <| w_subs := <[s := f x]> (w_subs w) |>) ->
  wp (modify_sub s f) Q w.
Proof. intros H HQ. apply wp_bind, (wp_sub _ x); [done |]. exact HQ. Qed.

Lemma wp_spin_lock l (Q : unit -> world -> Prop) w :
  l ∉ w_held w -> Q tt (w <| w_held := {[l]} ∪ w_held w |>) -> wp (spin_lock l) Q w.
Proof. unfold wp, spin_lock. intros H HQ. by rewrite decide_False. Qed.

Lemma wp_spin_unlock l (Q : unit -> world -> Prop) w :
  l ∈ w_held w -> Q tt (w <| w_held := w_held w ∖ {[l]} |>) -> wp (spin_unlock l) Q w.
Proof. unfold wp, spin_unlock. intros H HQ. by rewrite decide_True. Qed.

Lemma world_held_id w H : w_held w = H -> w <| w_held := H |> = w.
Proof. by destruct w; simpl; intros <-. Qed.

(** ** Rings *)

Definition linked (K : gmap nat skel) (a b : nat) : Prop :=
  exists x y, K !! a = Some x /\ K !! b = Some y /\ sk_next x = b /\ sk_prev y = a.

Fixpoint path (K : gmap nat skel) (a : nat) (l : list nat) : Prop :=
  match l with
  | [] => True
  | b :: l => linked K a b /\ path K b l
  end.

(** The links lead from [s] through [rest] and back. *)
Definition ring (K : gmap nat skel) (s : nat) (rest : list nat) : Prop :=
  NoDup (s :: rest) /\ path K s (rest ++ [s]).

Lemma path_app K a l b l' : path K a (l ++ b :: l') <-> path K a (l ++ [b]) /\ path K b l'.
Proof.
  revert a. induction l as [| c l IH]; intros a; simpl; [tauto |]. rewrite IH. tauto.
Qed.

Lemma path_in K a l b : path K a l -> b ∈ l -> is_Some (K !! b).
Proof.
  revert a. induction l as [| c l IH]; intros a; simpl; [by rewrite elem_of_nil |].
  intros [(x & y & _ & H & _) P] [-> | Hb]%elem_of_cons; eauto.
Qed.

Lemma linked_next w a b x : linked (skeleton w) a b -> w_subs w !! a = Some x -> ss_link_next x = b.
Proof.
  intros (ka & kb & Ha & _ & E & _) H. unfold skeleton in Ha.
  rewrite lookup_fmap, H in Ha. simplify_eq/=. done.
Qed.

Lemma linked_prev w a b y : linked (skeleton w) a b -> w_subs w !! b = Some y -> ss_link_prev y = a.
Proof.
  intros (ka & kb & _ & Hb & _ & E) H. unfold skeleton in Hb.
  rewrite lookup_fmap, H in Hb. simplify_eq/=. done.
Qed.

Lemma linked_left w a b : linked (skeleton w) a b -> is_Some (w_subs w !! a).
Proof. intros (ka & kb & Ha & _). destruct (skeleton_sub _ _ _ Ha) as (x & -> & _). eauto. Qed.

Lemma linked_right w a b : linked (skeleton w) a b -> is_Some (w_subs w !! b).
Proof. intros (ka & kb & _ & Hb & _). destruct (skeleton_sub _ _ _ Hb) as (x & -> & _). eauto. Qed.

(** A list of distinct substreams is no longer than the heap, so the fuel is enough. *)
Lemma group_size w l :
  NoDup l -> (forall a, a ∈ l -> is_Some (w_subs w !! a)) -> (length l <= size (w_subs w))%nat.
Proof.
  intros N H. rewrite <- (size_list_to_set (C := gset nat) l N), <- size_dom.
  apply subseteq_size. intros a Ha. apply elem_of_dom, H. by apply elem_of_list_to_set in Ha.
Qed.

Lemma ring_subs w s rest a :
  ring (skeleton w) s rest -> a ∈ s :: rest -> is_Some (w_subs w !! a).
Proof.
  intros [_ P] Ha. destruct (path_in _ _ _ a P) as [k Hk].
  - rewrite elem_of_app, list_elem_of_singleton. rewrite elem_of_cons in Ha. tauto.
  - destruct (skeleton_sub _ _ _ Hk) as (x & -> & _). eauto.
Qed.

Lemma ring_fuel w s rest : ring (skeleton w) s rest -> (length rest < group_fuel w)%nat.
Proof.
  intros R. unfold group_fuel. pose proof (group_size w (s :: rest) (proj1 R)) as G.
  simpl in G. specialize (G (fun a => ring_subs w s rest a R)). lia.
Qed.

(** ** The loops over a group *)

Definition with_held (w : world) (H : gset lock) : world := w <| w_held := H |>.

Definition locks (l : list nat) : gset lock := list_to_set (runtime_lock <$> l).

Lemma elem_of_locks a l : runtime_lock a ∈ locks l <-> a ∈ l.
Proof.
  unfold locks. rewrite elem_of_list_to_set, list_elem_of_fmap. unfold runtime_lock.
  split; [intros (b & [= ->] & ?); done | eauto].
Qed.

Lemma locks_cons a l : locks (a :: l) = {[runtime_lock a]} ∪ locks l.
Proof. done. Qed.

Lemma locks_app l l' : locks (l ++ l') = locks l ∪ locks l'.
Proof. unfold locks. by rewrite fmap_app, list_to_set_app_L. Qed.

(** The members other than the one whose lock the caller holds. *)
Definition others (s : nat) (l : list nat) : list nat := filter (fun b => b <> s) l.

Lemma others_fresh s l : s ∉ l -> others s l = l.
Proof.
  unfold others. induction l as [| b l IH]; [done |]. rewrite not_elem_of_cons. intros [Hb Hl].
  rewrite filter_cons_True, IH by congruence. done.
Qed.

Lemma others_self s l : others s (s :: l) = others s l.
Proof. unfold others. rewrite filter_cons_False; [done | congruence]. Qed.

Lemma others_other s b l : b <> s -> others s (b :: l) = b :: others s l.
Proof. unfold others. intros H. by rewrite filter_cons_True. Qed.

Lemma locks_others_nil s H : locks (others s []) ∪ H = H.
Proof. change (locks (others s [])) with (∅ : gset lock). by rewrite union_empty_l_L. Qed.

Lemma unlock_set (l : lock) (A B : gset lock) :
  l ∉ A -> l ∉ B -> (A ∪ {[l]} ∪ B) ∖ {[l]} = A ∪ B.
Proof.
  intros HA HB. rewrite (comm_L (∪) A), <- (assoc_L (∪)), difference_union_distr_l_L, difference_diag_L.
  rewrite union_empty_l_L. apply difference_disjoint_L, disjoint_singleton_r. by apply not_elem_of_union.
Qed.

Lemma lock_held (l : lock) (A : gset lock) : l ∈ {[l]} ∪ A.
Proof. by apply elem_of_union_l, elem_of_singleton. Qed.

Lemma lock_undo (l : lock) (A : gset lock) : l ∉ A -> ({[l]} ∪ A) ∖ {[l]} = A.
Proof. intros H. rewrite difference_union_distr_l_L, difference_diag_L, union_empty_l_L.
  by apply difference_disjoint_L, disjoint_singleton_r. Qed.

(** [s] is now in [state], and nothing else has changed that matters. *)
Record moves (w : world) (s : nat) (state : pcm_state) (w' : world) : Prop := {
  mv_skel : skeleton w' = skeleton w;
  mv_held : w_held w' = w_held w;
  mv_masters : masters_ok w';
  mv_states : states w' = <[s := state]> (states w);
  mv_trapped : divisible w s -> w_trapped w' = w_trapped w }.

Section GroupSpec.
Variable pre : snd_pcm_runtime -> Z.
Variable act : nat -> M Z.
Variable post : nat -> M unit.
Variable skip_triggered : bool.
Variable substream : nat.
(** What success does to the state of a member. *)
Variable next_state : pcm_state -> pcm_state.

Definition check (w : world) (s : nat) : Z :=
  match w_subs w !! s with Some x => pre (ss_rt x) | None => 0 end.

Fixpoint first_failing (w : world) (l : list nat) : option Z :=
  match l with
  | [] => None
  | s :: l => if check w s <? 0 then Some (check w s) else first_failing w l
  end.

(** How the check loop ends: at the first member that fails, or back at the start. *)
Inductive checked_group (w : world) (l : list nat) : Z -> nat -> list nat -> Prop :=
| all_pass e : first_failing w l = None -> 0 <= e -> (exists b, b ∈ l /\ e = check w b) ->
    checked_group w l e substream l
| one_fails pass s left : l = pass ++ s :: left -> first_failing w l = Some (check w s) ->
    check w s < 0 -> checked_group w l (check w s) s (pass ++ [s]).

Lemma checked_group_cons w a l e s taken :
  0 <= check w a -> checked_group w l e s taken -> checked_group w (a :: l) e s (a :: taken).
Proof.
  intros Ha C. assert (E : first_failing w (a :: l) = first_failing w l).
  { simpl. by destruct (Z.ltb_spec (check w a) 0); [lia |]. }
  inversion C; subst.
  - constructor; [congruence | done |]. destruct H1 as (b & Hb & ->). exists b.
    split; [by right | done].
  - apply (one_fails w (a :: pass ++ s :: left) (a :: pass) s left); [done | | done]. by rewrite E.
Qed.

Lemma pre_loop_spec w todo : forall a fuel H,
  path (skeleton w) a (todo ++ [substream]) -> NoDup (a :: todo) -> substream ∉ todo ->
  (length todo < fuel)%nat ->
  (forall b, b ∈ others substream (a :: todo) -> runtime_lock b ∉ H) ->
  wp (pre_loop pre substream fuel a)
    (fun rs w' => exists taken, checked_group w (a :: todo) rs.1 rs.2 taken /\
       w' = with_held w (locks (others substream taken) ∪ H))
    (with_held w H).
Proof.
  induction todo as [| b todo IH]; intros a fuel H P N Hs Hf Hfree;
    (destruct fuel as [| fuel]; [simpl in Hf; lia |]).
  all: cbn [pre_loop]; apply wp_bind.
  all: set (H' := if (a =? substream)%nat then H else {[runtime_lock a]} ∪ H).
  all: apply (wp_mono _ (fun _ w' => w' = with_held w H')).
  1, 3: unfold H'; destruct (Nat.eqb_spec a substream) as [-> | Ha]; simpl; [done |];
    apply wp_spin_lock; [apply Hfree; rewrite others_other by done; by left | done].
  all: intros _ w' ->; destruct P as [L P]; destruct (linked_left _ _ _ L) as [x Hx];
    apply wp_bind, (wp_sub _ x); [exact Hx |]; rewrite (linked_next _ _ _ _ L Hx);
    assert (Ec : check w a = pre (ss_rt x)) by (unfold check; by rewrite Hx);
    assert (Eo : forall l, locks (others substream (a :: l)) ∪ H = locks (others substream l) ∪ H')
      by (intros l; unfold H'; destruct (Nat.eqb_spec a substream) as [-> | Ha];
          [by rewrite others_self | rewrite others_other, locks_cons by done;
            by rewrite (assoc_L (∪)), (comm_L (∪) {[runtime_lock a]})]);
    rewrite <- Ec; destruct (Z.ltb_spec (check w a) 0) as [Hneg | Hpos].
  - apply wp_ret. exists [a]. split; [| by rewrite Eo, locks_others_nil].
    apply (one_fails w [a] [] a []); [done | | done]. simpl. by destruct (Z.ltb_spec (check w a) 0); [| lia].
  - rewrite Nat.eqb_refl. apply wp_ret. exists [a].
    split; [| by rewrite Eo, locks_others_nil].
    apply all_pass; [simpl; by destruct (Z.ltb_spec (check w a) 0); [lia |] | done |].
    exists a. split; [by left | done].
  - apply wp_ret. exists [a]. split; [| by rewrite Eo, locks_others_nil].
    apply (one_fails w (a :: b :: todo) [] a (b :: todo)); [done | | done].
    simpl. by destruct (Z.ltb_spec (check w a) 0); [| lia].
  - rewrite not_elem_of_cons in Hs. destruct Hs as [Hsb Hs].
    destruct (Nat.eqb_spec b substream); [congruence |].
    apply NoDup_cons in N as [Na N].
    eapply wp_mono; [apply (IH b fuel H' P N Hs ltac:(simpl in Hf; lia)) |].
    + intros c Hc. assert (c ∈ others substream (a :: b :: todo)) as Hc'.
      { unfold others in *. apply list_elem_of_filter in Hc as [? ?].
        apply list_elem_of_filter. split; [done | by right]. }
      specialize (Hfree c Hc'). unfold H'. destruct (Nat.eqb_spec a substream); [done |].
      apply list_elem_of_filter in Hc as [_ Hc].
      rewrite elem_of_union, elem_of_singleton. intros [[= ->] |]; done.
    + intros [e s] w' (taken & C & ->). exists (a :: taken). split.
      * by apply checked_group_cons.
      * by rewrite Eo.
Qed.

Lemma unwind_spec w l : forall fuel H,
  path (skeleton w) substream l -> NoDup (substream :: l) -> (length l < fuel)%nat ->
  (forall b, b ∈ l -> runtime_lock b ∉ H) ->
  unwind substream fuel (default substream (last l)) (with_held w (locks l ∪ H)) =
    Some (tt, with_held w H).
Proof.
  induction l as [| s l IH] using rev_ind; intros fuel H P N Hf Hfree;
    (destruct fuel as [| fuel]; [simpl in Hf; rewrite ?length_app in Hf; simpl in Hf; lia |]).
  - simpl. rewrite Nat.eqb_refl. unfold locks. simpl. by rewrite union_empty_l_L.
  - rewrite last_snoc. cbn [unwind default from_option]. unfold id at 1 2 3.
    rewrite app_comm_cons, NoDup_app in N. destruct N as (N & Hns & _).
    assert (s <> substream) by (intros ->; apply (Hns substream); [by left | by left]).
    destruct (Nat.eqb_spec s substream); [done |].
    rewrite locks_app. replace (locks [s]) with ({[runtime_lock s]} : gset lock)
      by (unfold locks; simpl; by rewrite union_empty_r_L).
    assert (Hsl : runtime_lock s ∉ locks l).
    { rewrite elem_of_locks. intros Hs. apply (Hns s); [by right | by left]. }
    pose proof (Hfree s ltac:(apply elem_of_app; right; by left)) as HsH.
    unfold bind at 1, spin_unlock. case_decide as D; [clear D | destruct D; simpl; set_solver].
    replace ((with_held w (locks l ∪ {[runtime_lock s]} ∪ H)) <| w_held := _ |>)
      with (with_held w (locks l ∪ H)) by (unfold with_held; simpl; f_equal; by rewrite unlock_set).
    assert (Pl : path (skeleton w) substream l /\ linked (skeleton w) (default substream (last l)) s).
    { clear -P. revert P. generalize substream as a. induction l as [| c l IH]; intros a; simpl; [tauto |].
      intros [L P]. destruct (IH c P) as [P' L']. split; [done |].
      destruct l as [| d l]; [exact L' |].
      destruct (proj2 (last_is_Some (d :: l)) ltac:(done)) as [z Hz].
      change (last (c :: d :: l)) with (last (d :: l)). rewrite Hz in *. exact L'. }
    destruct Pl as [P' L]. destruct (linked_right _ _ _ L) as [x Hx].
    unfold bind, sub. simpl. rewrite Hx, (linked_prev _ _ _ _ L Hx).
    apply IH; [done | done | rewrite length_app in Hf; simpl in Hf; lia |].
    intros b Hb. apply Hfree, elem_of_app. by left.
Qed.

(** The members locked up to the failing one are released. *)
Lemma unwind_checked w rest pass s' left fuel H :
  ring (skeleton w) substream rest -> (length rest < fuel)%nat ->
  (forall b, b ∈ others substream (substream :: rest) -> runtime_lock b ∉ H) ->
  substream :: rest = pass ++ s' :: left ->
  unwind substream fuel s' (with_held w (locks (others substream (pass ++ [s'])) ∪ H)) =
    Some (tt, with_held w H).
Proof.
  intros [[Hsr Nr]%NoDup_cons P] Hfuel HH Esplit.
  destruct pass as [| p pass]; simpl in Esplit; injection Esplit as <- ->.
  - rewrite <- (unwind_spec w [] fuel H);
      [| done | apply NoDup_singleton | simpl; lia | by intros b ?%elem_of_nil].
    simpl. rewrite others_self, locks_others_nil. unfold locks. simpl. by rewrite union_empty_l_L.
  - assert (Hsub : substream ∉ pass ++ [s']).
    { intros Hin. apply Hsr. rewrite elem_of_app, list_elem_of_singleton in Hin.
      rewrite elem_of_app, elem_of_cons. tauto. }
    rewrite <- app_comm_cons, others_self, others_fresh by done.
    replace s' with (default substream (last (pass ++ [s']))) at 1 by (by rewrite last_snoc).
    apply unwind_spec.
    + rewrite <- app_assoc in P. simpl in P. by apply path_app in P as [P _].
    + apply NoDup_cons. split; [done |]. clear -Nr.
      rewrite NoDup_app in *. destruct Nr as (? & Hd & _). split; [done |].
      split; [| apply NoDup_singleton]. intros x Hx Hx'. apply (Hd x Hx).
      apply list_elem_of_singleton in Hx' as ->. by left.
    + rewrite length_app in *. simpl in *. lia.
    + intros b Hb. apply HH. rewrite others_self, others_fresh by done.
      rewrite elem_of_app, list_elem_of_singleton in Hb. rewrite elem_of_app, elem_of_cons. tauto.
Qed.

Hypothesis act_keeps : forall s w,
  is_Some (w_subs w !! s) -> masters_ok w -> wp (act s) (fun _ => keeps_at s w) w.
Hypothesis post_moves : forall s w st,
  states w !! s = Some st -> masters_ok w -> wp (post s) (fun _ => moves w s (next_state st)) w.

Definition act_succeeds : Prop := forall s w,
  is_Some (w_subs w !! s) -> masters_ok w -> wp (act s) (fun e _ => 0 <= e) w.

(** What acting on the members [l] does, started with result [res]. *)
Record group_result (w : world) (l : list nat) (res res' : Z) (w' : world) : Prop := {
  gr_skel : skeleton w' = skeleton w;
  gr_masters : masters_ok w';
  gr_res : res' = res \/ res = 0 /\ res' < 0;
  gr_out : forall b, b ∉ l -> states w' !! b = states w !! b;
  gr_in : forall b st, b ∈ l -> states w !! b = Some st ->
    states w' !! b = Some (next_state st) \/ res' < 0 /\ states w' !! b = Some st;
  gr_ok : act_succeeds -> res' = res;
  gr_trapped : (forall b, b ∈ l -> divisible w b) -> w_trapped w' = w_trapped w }.

Lemma act_one_spec s w res :
  is_Some (w_subs w !! s) -> masters_ok w -> res <= 0 ->
  wp (act_one act post skip_triggered s res)
    (fun res' w' => group_result w [s] res res' w' /\ w_held w' = w_held w) w.
Proof.
  intros [x Hx] Hm Hres. unfold act_one. apply wp_bind, (wp_sub _ x); [done |].
  assert (Hst : states w !! s = Some (state_of x)) by (unfold states; by rewrite lookup_fmap, Hx).
  assert (Post : forall w1, keeps_at s w w1 ->
    wp (post s;;; ret res)%state
      (fun res' w' => group_result w [s] res res' w' /\ w_held w' = w_held w) w1).
  { intros w1 [Ks Kst Kh Km Kt]. apply wp_bind.
    eapply wp_mono; [apply (post_moves s w1 (state_of x)); [by rewrite Kst | auto] |].
    intros _ w' [A B C D E]. apply wp_ret. split; [| congruence]. split.
    - congruence.
    - done.
    - by left.
    - intros b Hb%not_elem_of_cons. rewrite D, Kst, lookup_insert_ne; [done | intuition congruence].
    - intros b st ->%list_elem_of_singleton H. left. rewrite D, lookup_insert_eq. congruence.
    - done.
    - intros Hd. pose proof (Hd s ltac:(by left)) as Hs.
      rewrite E by (by apply (divisible_skeleton w)). auto. }
  destruct (skip_triggered && _); [by apply Post |].
  apply wp_bind. destruct (wp_run _ _ _ (act_keeps s w ltac:(eauto) Hm)) as (err & w1 & E & K).
  unfold wp at 1. rewrite E. destruct (Z.ltb_spec err 0) as [Hneg | _]; [| by apply Post].
  assert (Hf : ~ act_succeeds).
  { intros Hs. specialize (Hs s w ltac:(eauto) Hm). unfold wp in Hs. rewrite E in Hs. lia. }
  destruct K as [Ks Kst Kh Km Kt].
  apply wp_ret. split; [| done]. split; [done | auto | | by rewrite Kst | | done |].
  - destruct (Z.eqb_spec res 0); [right; lia | by left].
  - intros b st ->%list_elem_of_singleton H. right. rewrite Kst.
    split; [| done]. destruct (Z.eqb_spec res 0); lia.
  - intros Hd. apply Kt, Hd. by left.
Qed.

Lemma group_result_app w l l' res res1 res2 w1 w2 :
  (forall b, b ∈ l -> b ∈ l' -> False) -> res <= 0 ->
  group_result w l res res1 w1 -> group_result w1 l' res1 res2 w2 ->
  group_result w (l ++ l') res res2 w2.
Proof.
  intros Hd Hres [A1 B1 C1 D1 E1 F1 T1] [A2 B2 C2 D2 E2 F2 T2]. split.
  - congruence.
  - done.
  - lia.
  - intros b. rewrite not_elem_of_app. intros [Hb Hb']. by rewrite D2, D1.
  - intros b st [Hb | Hb]%elem_of_app H.
    + assert (b ∉ l') as Hb' by eauto. rewrite D2 by done.
      destruct (E1 b st Hb H) as [|[]]; [by left | right]. split; [lia | done].
    + apply E2; [done |]. rewrite D1; [done | eauto].
  - intros Hs. rewrite F2, F1; done.
  - intros Hdiv. rewrite T2, T1; [done | |]; intros b Hb.
    + apply Hdiv, elem_of_app. by left.
    + apply (divisible_skeleton w); [done |]. apply Hdiv, elem_of_app. by right.
Qed.

Lemma release_spec s H l w :
  w_held w = locks (others substream (s :: l)) ∪ H -> s ∉ l ->
  (forall b, b ∈ others substream (s :: l) -> runtime_lock b ∉ H) ->
  wp (when (negb (s =? substream)%nat) (spin_unlock (runtime_lock s)))
    (fun _ w' => w' = with_held w (locks (others substream l) ∪ H)) w.
Proof.
  intros E Hs Hfree. unfold when. destruct (Nat.eqb_spec s substream) as [-> | Hn]; simpl.
  - apply wp_ret. rewrite others_self in E. destruct w; simpl in *. by subst.
  - rewrite others_other in * by done. apply wp_spin_unlock.
    + rewrite E, locks_cons. apply elem_of_union_l, lock_held.
    + rewrite E, locks_cons, (comm_L (∪) {[runtime_lock s]}), unlock_set; [done | | apply Hfree; by left].
      rewrite elem_of_locks. unfold others. rewrite list_elem_of_filter. tauto.
Qed.

Lemma group_result_held w l res res' w' H :
  group_result w l res res' w' -> group_result w l res res' (with_held w' H).
Proof. by intros []; split. Qed.

Lemma act_loop_spec todo : forall a fuel H w res,
  path (skeleton w) a (todo ++ [substream]) -> NoDup (a :: todo) -> substream ∉ todo ->
  (length todo < fuel)%nat -> masters_ok w -> res <= 0 ->
  w_held w = locks (others substream (a :: todo)) ∪ H ->
  (forall b, b ∈ others substream (a :: todo) -> runtime_lock b ∉ H) ->
  wp (act_loop act post skip_triggered substream fuel a res)
    (fun res' w' => group_result w (a :: todo) res res' w' /\ w_held w' = H) w.
Proof.
  induction todo as [| b todo IH]; intros a fuel H w res P N Hs Hf Hm Hres Hh Hfree;
    (destruct fuel as [| fuel]; [simpl in Hf; lia |]); cbn [act_loop]; destruct P as [L P].
  all: apply wp_bind; eapply wp_mono; [apply act_one_spec; [by eapply linked_left | done | done] |].
  all: intros res1 w1 [G1 Hh1]; apply wp_bind; apply NoDup_cons in N as [Na N].
  all: eapply wp_mono; [apply release_spec; [by rewrite Hh1 | done | done] |]; intros _ w2 ->.
  all: pose proof (gr_skel _ _ _ _ _ G1) as Ek; rewrite <- Ek in L.
  all: destruct (linked_left _ _ _ L) as [x Hx]; apply wp_bind, (wp_sub _ x); [exact Hx |].
  all: rewrite (linked_next _ _ _ _ L Hx).
  - rewrite Nat.eqb_refl. apply wp_ret. split; [by apply group_result_held |].
    simpl. apply locks_others_nil.
  - rewrite not_elem_of_cons in Hs. destruct Hs as [Hsb Hs].
    destruct (Nat.eqb_spec b substream); [congruence |].
    eapply wp_mono; [apply (IH b fuel H) |].
    + change (skeleton (with_held w1 (locks (others substream (b :: todo)) ∪ H))) with (skeleton w1).
      by rewrite Ek.
    + done.
    + done.
    + simpl in Hf; lia.
    + apply (gr_masters _ _ _ _ _ G1).
    + pose proof (gr_res _ _ _ _ _ G1). lia.
    + done.
    + intros c Hc. apply Hfree. unfold others in *. apply list_elem_of_filter in Hc as [? ?].
      apply list_elem_of_filter. split; [done | by right].
    + intros res2 w2 [G2 Hh2]. split; [| done].
      apply (group_result_app w [a] (b :: todo) res res1 res2 w1); [| done | done |].
      * intros c ->%list_elem_of_singleton. done.
      * destruct G2. by split.
Qed.

Hypothesis pre_nonpos : forall r, pre r <= 0.

(** The whole operation on a ring whose other locks are free: when a check fails, the
    error and the untouched world; otherwise every member has been acted on. *)
Lemma linked_op_spec w rest :
  ring (skeleton w) substream rest -> masters_ok w ->
  pcm_link_lock ∉ w_held w -> (forall b, b ∈ rest -> runtime_lock b ∉ w_held w) ->
  match first_failing w (substream :: rest) with
  | Some e => linked_op pre act post skip_triggered substream w = Some (e, w)
  | None => wp (linked_op pre act post skip_triggered substream)
      (fun res w' => group_result w (substream :: rest) 0 res w' /\ w_held w' = w_held w) w
  end.
Proof.
  intros [N P] Hm Hl Hfree. pose proof N as [Hsr Nr]%NoDup_cons.
  set (H := {[pcm_link_lock]} ∪ w_held w).
  assert (HH : forall b, b ∈ others substream (substream :: rest) -> runtime_lock b ∉ H).
  { rewrite others_self, others_fresh by done. intros b Hb. unfold H.
    rewrite elem_of_union, elem_of_singleton. intros [[=] | ?]. by apply (Hfree b). }
  pose proof (ring_fuel w substream rest (conj N P)) as Hfuel.
  assert (Hunlock : with_held w (H ∖ {[pcm_link_lock]}) = w).
  { apply world_held_id. symmetry. by apply lock_undo. }
  unfold linked_op, wp. rewrite (bind_some _ _ _ _ _ (spin_lock_some _ _ Hl)).
  change (w <| w_held := {[pcm_link_lock]} ∪ w_held w |>) with (with_held w H).
  destruct (wp_run _ _ _ (pre_loop_spec w rest substream (group_fuel w) H P N Hsr Hfuel HH))
    as ([e s'] & w1 & E & taken & C & ->).
  rewrite (bind_some _ _ _ _ _ E). clear E. simpl in C.
  inversion C as [e' Hnone He (b & Hb & Ee) | pass sx left Esplit Hfirst Hneg]; subst; cbn [fst snd].
  - rewrite Hnone. assert (check w b = 0) as E0.
    { unfold check in *. destruct (w_subs w !! b) as [x |]; [| lia].
      pose proof (pre_nonpos (ss_rt x)). lia. }
    rewrite E0. destruct (Z.ltb_spec 0 0); [lia |].
    pose proof (act_loop_spec rest substream (group_fuel w) H
      (with_held w (locks (others substream (substream :: rest)) ∪ H)) 0 P N Hsr Hfuel Hm
      ltac:(lia) eq_refl HH) as A.
    destruct (wp_run _ _ _ A) as (res & w1 & E & G & Hh). rewrite (bind_some _ _ _ _ _ E).
    rewrite (bind_some _ _ _ _ _ (spin_unlock_some pcm_link_lock w1 ltac:(rewrite Hh; apply lock_held))).
    split; [| simpl; rewrite Hh; by apply lock_undo].
    destruct G. by split.
  - rewrite Hfirst. destruct (Z.ltb_spec (check w s') 0); [| lia].
    assert (U : unwind substream (group_fuel w) s'
                  (with_held w (locks (others substream (pass ++ [s'])) ∪ H)) =
                Some (tt, with_held w H)) by by eapply unwind_checked.
    rewrite (bind_some _ _ _ (check w s') (with_held w H)) by (by rewrite (bind_some _ _ _ _ _ U)).
    rewrite (bind_some _ _ _ _ _ (spin_unlock_some pcm_link_lock (with_held w H) ltac:(apply lock_held))).
    unfold ret. do 2 f_equal. exact Hunlock.
Qed.
End GroupSpec.

(** ** Changing the state of a whole group *)

Lemma lock_others_spec w s todo : forall a fuel H,
  path (skeleton w) a (todo ++ [s]) -> NoDup todo -> s ∉ todo -> (length todo < fuel)%nat ->
  (forall b, b ∈ todo -> runtime_lock b ∉ H) ->
  exists b, (ss_link_next <$> w_subs w !! a) = Some b /\
    lock_others fuel s b (with_held w H) = Some (tt, with_held w (locks todo ∪ H)).
Proof.
  induction todo as [| b todo IH]; intros a fuel H P N Hs Hf Hfree;
    (destruct fuel as [| fuel]; [simpl in Hf; lia |]); destruct P as [L P];
    destruct (linked_left _ _ _ L) as [x Hx]; rewrite Hx; simpl;
    rewrite (linked_next _ _ _ _ L Hx).
  - exists s. rewrite Nat.eqb_refl. split; [done |]. change (locks []) with (∅ : gset lock).
    by rewrite union_empty_l_L.
  - exists b. rewrite not_elem_of_cons in Hs. destruct Hs as [Hsb Hs].
    destruct (Nat.eqb_spec b s); [congruence |]. split; [done |].
    assert (Hb : runtime_lock b ∉ w_held (with_held w H)) by (apply Hfree; by left).
    rewrite (bind_some _ _ _ _ _ (spin_lock_some _ _ Hb)).
    apply NoDup_cons in N as [Nb N].
    destruct (IH b fuel ({[runtime_lock b]} ∪ H)) as (c & Hc & E); [done | done | done | simpl in Hf; lia | |].
    + intros d Hd. rewrite elem_of_union, elem_of_singleton. intros [[= ->] |]; [done |].
      apply (Hfree d); [by right | done].
    + destruct (w_subs w !! b) as [y |] eqn:Hy; [| done]. injection Hc as Hc.
      rewrite (bind_some _ _ _ y (with_held w ({[runtime_lock b]} ∪ H)))
        by (unfold sub; simpl; by rewrite Hy).
      rewrite Hc, E, locks_cons.
      by rewrite (assoc_L (∪)), (comm_L (∪) {[runtime_lock b]}).
Qed.

Lemma wp_modify s x f (Q : unit -> world -> Prop) w :
  w_subs w !! s = Some x ->
  Q tt (w <| w_subs := <[s := x <| ss_rt := f (ss_rt x) |>]> (w_subs w) |>) -> wp (modify s f) Q w.
Proof. intros H HQ. by apply (wp_modify_sub s x). Qed.

(** An update of one substream that keeps its links and geometry. *)
Lemma put_shape w s x y :
  w_subs w !! s = Some x -> skel_of y = skel_of x ->
  skeleton (w <| w_subs := <[s := y]> (w_subs w) |>) = skeleton w /\
  states (w <| w_subs := <[s := y]> (w_subs w) |>) = <[s := state_of y]> (states w).
Proof.
  intros H E. unfold skeleton, states. simpl. rewrite !fmap_insert. split; [| done].
  apply insert_id. by rewrite lookup_fmap, H, E.
Qed.

Lemma put_masters w s x y :
  w_subs w !! s = Some x -> ss_trigger_master y = ss_trigger_master x \/ ss_trigger_master y = None ->
  masters_ok w -> masters_ok (w <| w_subs := <[s := y]> (w_subs w) |>).
Proof.
  intros H E Hm s' x' m Hx' Hmx'. simpl in *.
  assert (is_Some (w_subs w !! m)) as Hmm.
  { destruct (decide (s = s')) as [<- | Hn].
    - rewrite lookup_insert_eq in Hx'. injection Hx' as ->.
      destruct E as [E | E]; rewrite E in Hmx'; [eauto | done].
    - rewrite lookup_insert_ne in Hx' by done. eauto. }
  destruct (decide (s = m)) as [<- | Hn]; [rewrite lookup_insert_eq; eauto |].
  by rewrite lookup_insert_ne.
Qed.

Lemma state_sub w s st :
  states w !! s = Some st -> exists x, w_subs w !! s = Some x /\ state_of x = st.
Proof. unfold states. rewrite lookup_fmap, fmap_Some. intros (x & Hx & ->). eauto. Qed.

(** [modify] with an update of the runtime that keeps the geometry. *)
Lemma modify_shape s w st f g :
  states w !! s = Some st -> masters_ok w ->
  (forall r, rt_buffer_size (f r) = rt_buffer_size r /\ rt_boundary (f r) = rt_boundary r /\
             divisors_there (f r) = divisors_there r) ->
  (forall r, rt_state r = st -> rt_state (f r) = g st) ->
  wp (modify s f) (fun _ => moves w s (g st)) w.
Proof.
  intros (x & Hx & Hst)%state_sub Hm Hf Hg. apply (wp_modify s x); [done |].
  set (y := x <| ss_rt := f (ss_rt x) |>).
  destruct (put_shape w s x y) as [A B]; [done | |].
  - unfold skel_of, y. simpl. destruct (Hf (ss_rt x)) as (-> & -> & ->). done.
  - split; [exact A | done | eapply put_masters; [done | by left | done] | | done].
    rewrite B. f_equal. unfold state_of, y. simpl. by rewrite Hg.
Qed.

Lemma change_state_spec w s rest state :
  ring (skeleton w) s rest -> masters_ok w -> pcm_link_lock ∉ w_held w ->
  (forall b, b ∈ rest -> runtime_lock b ∉ w_held w) ->
  wp (snd_pcm_change_state s state)
    (fun _ w' => skeleton w' = skeleton w /\ w_held w' = w_held w /\ masters_ok w' /\
       (forall b, b ∉ s :: rest -> states w' !! b = states w !! b) /\
       (forall b, b ∈ s :: rest -> states w' !! b = Some state) /\
       ((forall b, b ∈ s :: rest -> divisible w b) -> w_trapped w' = w_trapped w)) w.
Proof.
  intros R Hm Hl Hfree. pose proof R as [N P]. pose proof N as [Hsr Nr]%NoDup_cons.
  pose proof (ring_fuel _ _ _ R) as Hfuel. set (H := {[pcm_link_lock]} ∪ w_held w).
  assert (HH : forall b, b ∈ rest -> runtime_lock b ∉ H).
  { intros b Hb. unfold H. rewrite elem_of_union, elem_of_singleton. intros [[=] | ?]. by apply (Hfree b). }
  unfold snd_pcm_change_state, wp. rewrite (bind_some _ _ _ _ _ (spin_lock_some _ _ Hl)).
  change (w <| w_held := {[pcm_link_lock]} ∪ w_held w |>) with (with_held w H).
  destruct (lock_others_spec w s rest s (group_fuel w) H P Nr Hsr Hfuel HH) as (b & Hb & E).
  destruct (w_subs w !! s) as [x |] eqn:Hx; [| done]. injection Hb as Hb.
  rewrite (bind_some _ _ _ x (with_held w H)) by (unfold sub; simpl; by rewrite Hx).
  rewrite Hb, (bind_some _ _ _ _ _ E).
  set (post := fun s => modify s (fun r => r <| rt_state := state |>)).
  pose proof (act_loop_spec (fun _ => ret 0) post false s (fun _ => state)) as A.
  destruct (wp_run _ _ _ (A (fun s w' _ _ => reflexivity w')
    ltac:(intros s' w' st Hst Hm'; unfold post;
          apply (modify_shape s' w' st _ (fun _ => state)); done)
    rest s (group_fuel w) H (with_held w (locks rest ∪ H)) 0 P N Hsr Hfuel Hm ltac:(lia)
    ltac:(rewrite others_self, others_fresh by done; done)
    ltac:(rewrite others_self, others_fresh by done; done))) as (res & w1 & E1 & G & Hh).
  rewrite (bind_some _ _ _ _ _ E1).
  rewrite (spin_unlock_some pcm_link_lock w1 ltac:(rewrite Hh; apply lock_held)).
  destruct G as [G1 G2 _ G4 G5 G6 G7]. simpl. rewrite Hh. unfold H. rewrite lock_undo by done.
  split; [exact G1 |]. split; [done |]. split; [exact G2 |]. split; [exact G4 |].
  split; [| exact G7].
  intros c Hc. change (states w1 !! c = Some state). destruct (ring_subs _ _ _ _ R Hc) as [y Hy].
  destruct (G5 c (state_of y) Hc) as [-> | [Hneg _]]; [| done |].
  - unfold states. simpl. by rewrite lookup_fmap, Hy.
  - rewrite G6 in Hneg; [lia |]. intros s' w' _ _. by apply wp_ret.
Qed.

(** ** Checking divisors *)

Lemma divides_there l w : forallb truth l = true -> divides l w = Some (tt, w).
Proof. unfold divides. by intros ->. Qed.

(** A check of divisors that are there when the substream is set up. *)
Definition covered (f : snd_pcm_runtime -> list Z) : Prop :=
  forall r, divisors_there r = true -> forallb truth (f r) = true.

Lemma check_divisors_spec s f w :
  covered f -> is_Some (w_subs w !! s) -> wp (check_divisors s f) (fun _ => keeps_at s w) w.
Proof.
  intros Hf [x Hx]. unfold check_divisors, runtime. apply wp_bind, wp_bind, (wp_sub _ x); [done |].
  apply wp_ret. unfold wp, divides. destruct (forallb truth (f (ss_rt x))) eqn:E; [done |].
  split; try done. intros (k & Hk & Hd). exfalso. unfold skeleton in Hk.
  rewrite lookup_fmap, Hx in Hk. injection Hk as <-. rewrite (Hf _ Hd) in E. done.
Qed.

(** An update that keeps the geometry and the state. *)
Lemma modify_keeps s f w :
  is_Some (w_subs w !! s) -> masters_ok w ->
  (forall r, rt_buffer_size (f r) = rt_buffer_size r /\ rt_boundary (f r) = rt_boundary r /\
             divisors_there (f r) = divisors_there r) ->
  (forall r, rt_state (f r) = rt_state r) -> wp (modify s f) (fun _ => keeps w) w.
Proof.
  intros [x Hx] Hm Hf Hs.
  assert (Hst : states w !! s = Some (state_of x)) by (unfold states; by rewrite lookup_fmap, Hx).
  apply (wp_modify s x); [done |]. set (y := x <| ss_rt := f (ss_rt x) |>).
  destruct (put_shape w s x y) as [A B]; [done | |].
  - unfold skel_of, y. simpl. destruct (Hf (ss_rt x)) as (-> & -> & ->). done.
  - split; [exact A | | done | intros _; eapply put_masters; [done | by left | done] | done].
    rewrite B. unfold y, state_of. simpl. rewrite Hs. by apply insert_id.
Qed.
