(* ===== verification/PcmOps.v ===== *)
(** * PcmOps: the operations on PCM substreams

    The calls of alsa/core/pcm_native.c on one substream and its link group: parameters,
    status, start, stop, pause, reset, prepare, drain, drop, link and unlink, and the two
    interrupt entries of alsa/core/pcm_lib.c; with the theorems that they take and release
    the locks in balance, act on a group as a whole and keep the configuration. *)

From S2P Require Import Prelude Interval Mask HwParams HwChoose PcmRuntime PcmRing PcmTimer PcmState.
Open Scope Z_scope.

(** ** The driver and the services of other components *)

Inductive trigger_cmd := TRIGGER_STOP | TRIGGER_START | TRIGGER_PAUSE_PUSH | TRIGGER_PAUSE_RELEASE.

(** [substream->ops] and the callbacks of the runtime. *)
Record driver := Driver {
  d_trigger : nat -> trigger_cmd -> M Z;
  d_prepare : nat -> M Z;
  d_ioctl_reset : nat -> M Z;
  d_pointer : nat -> world -> Z;
  d_hw_params : option (nat -> snd_pcm_hw_params -> M Z);
  d_hw_free : option (nat -> M Z);
  d_silence : option (Z -> Z -> Z -> list Z -> list Z);
  d_transfer_ack_begin : option (nat -> M unit);
  d_transfer_ack_end : option (nat -> M unit);
  d_timer_interrupt : nat -> M unit;      (* snd_timer_interrupt(substream->timer, 1) *)
  d_kill_fasync : nat -> M unit;
  d_hardware : nat -> hw_description;     (* runtime->hw *)
  d_constraints : nat -> snd_pcm_hw_constraints }.

Definition PCM_INFO_PAUSE : Z := 0x80000.

Definition callback (f : option (nat -> M unit)) (s : nat) : M unit :=
  match f with Some f => f s | None => ret tt end.

(** ** The operations *)

Section Operations.
Variable ops : driver.

Definition snd_pcm_trigger_time (s : nat) : M unit :=
  x <- sub s;;
  stamp <- match ss_trigger_master x with
           | None => snd_timestamp_now
           | Some m =>
               if (m =? s)%nat then snd_timestamp_now
               else (y <- sub m;; ret (ss_trigger_tstamp y))
           end;;
  modify_sub s (fun x => x <| ss_trigger_tstamp := stamp |> <| ss_trigger_master := None |>).

Definition snd_pcm_start_pre (r : snd_pcm_runtime) : Z :=
  if negb (state_is (rt_state r) PREPARED) then -EBADFD
  else if rt_playback r && negb (snd_pcm_playback_data r) then -EPIPE
  else 0.

Definition snd_pcm_start1 (s : nat) : M Z := d_trigger ops s TRIGGER_START.

Definition silence_if_wanted (r : snd_pcm_runtime) : snd_pcm_runtime :=
  if rt_playback r && (0 <? rt_silence_size r) then snd_pcm_playback_silence (d_silence ops) r else r.

Definition tick_if_wanted (r : snd_pcm_runtime) : snd_pcm_runtime :=
  if truth (rt_sleep_min r) then snd_pcm_tick_prepare r else r.

Definition wanted_divisors (r : snd_pcm_runtime) : list Z :=
  if truth (rt_sleep_min r) then tick_divisors r else [].

Definition tick (s : nat) : M unit := check_divisors s wanted_divisors;;; modify s tick_if_wanted.

Definition set_state (state : pcm_state) (r : snd_pcm_runtime) : snd_pcm_runtime :=
  r <| rt_state := state |>.

Definition snd_pcm_start_post (s : nat) : M unit :=
  snd_pcm_trigger_time s;;;
  modify s (set_state RUNNING);;;
  check_divisors s (silence_divisors (d_silence ops));;;
  modify s silence_if_wanted;;;
  tick s.

Definition snd_pcm_start (s : nat) : M Z :=
  linked_op snd_pcm_start_pre snd_pcm_start1 snd_pcm_start_post true s.

Definition snd_pcm_stop_pre (r : snd_pcm_runtime) : Z :=
  if negb (snd_pcm_running r) then -EBADFD else 0.

Definition snd_pcm_stop1 (s : nat) : M Z := d_trigger ops s TRIGGER_STOP.

Definition snd_pcm_stop_post (state : pcm_state) (s : nat) : M unit :=
  snd_pcm_trigger_time s;;;
  modify s (fun r => wake_up (snd_pcm_tick_set (r <| rt_state := state |>) 0)).

Definition snd_pcm_stop (s : nat) (state : pcm_state) : M Z :=
  linked_op snd_pcm_stop_pre snd_pcm_stop1 (snd_pcm_stop_post state) true s.

Definition snd_pcm_pause_pre (push : bool) (r : snd_pcm_runtime) : Z :=
  if Z.land (rt_info r) PCM_INFO_PAUSE =? 0 then -ENOSYS
  else if push then (if negb (state_is (rt_state r) RUNNING) then -EBADFD else 0)
  else if negb (state_is (rt_state r) PAUSED) then -EBADFD
  else 0.

Definition snd_pcm_pause1 (push : bool) (s : nat) : M Z :=
  d_trigger ops s (if push then TRIGGER_PAUSE_PUSH else TRIGGER_PAUSE_RELEASE).

Definition snd_pcm_pause_post (push : bool) (s : nat) : M unit :=
  snd_pcm_trigger_time s;;;
  if push then modify s (fun r => wake_up (snd_pcm_tick_set (set_state PAUSED r) 0))
  else (modify s (set_state RUNNING);;; tick s).

Definition snd_pcm_pause (s : nat) (push : bool) : M Z :=
  linked_op (snd_pcm_pause_pre push) (snd_pcm_pause1 push) (snd_pcm_pause_post push) true s.

Definition snd_pcm_reset_pre (r : snd_pcm_runtime) : Z :=
  match rt_state r with RUNNING | PREPARED => 0 | _ => -EBADFD end.

Definition snd_pcm_reset1 (s : nat) : M Z :=
  err <- d_ioctl_reset ops s;;
  if err <? 0 then ret err
  else
    check_divisors s (fun r => [rt_period_size r]);;;
    modify s (fun r => r <| rt_hw_ptr_base := 0 |>
      <| rt_hw_ptr_interrupt := rt_hw_ptr r - rt_hw_ptr r mod rt_period_size r |>);;;
    ret 0.

Definition snd_pcm_reset_post (s : nat) : M unit :=
  modify s (fun r => r <| rt_appl_ptr := rt_hw_ptr r |>).

Definition snd_pcm_reset (s : nat) : M Z :=
  linked_op snd_pcm_reset_pre snd_pcm_reset1 snd_pcm_reset_post false s.

Definition snd_pcm_prepare_pre (r : snd_pcm_runtime) : Z :=
  match rt_state r with OPEN => -EBADFD | RUNNING => -EBUSY | _ => 0 end.

Definition snd_pcm_prepare1 (s : nat) : M Z :=
  err <- d_prepare ops s;;
  if err <? 0 then ret err else snd_pcm_reset1 s.

Definition snd_pcm_prepare_post (s : nat) : M unit :=
  modify s (fun r => r <| rt_appl_ptr := rt_hw_ptr r |> <| rt_state := PREPARED |>).

Definition snd_pcm_prepare (s : nat) : M Z :=
  linked_op snd_pcm_prepare_pre snd_pcm_prepare1 snd_pcm_prepare_post false s.

(** ** Position updates of a substream *)

(** Ask the driver for the position and, if wanted, stamp the query. *)
Definition poll (s : nat) : M Z := fun w =>
  let pos := d_pointer ops s w in
  (now <- snd_timestamp_now;;
   modify s (fun r =>
     if truth (Z.land (rt_tstamp_mode r) TSTAMP_MMAP) then r <| rt_tstamp := now |> else r);;;
   ret pos) w.

Definition update_hw_ptr (s : nat) : M Z :=
  pos <- poll s;;
  check_divisors s (update_divisors (d_silence ops) pos);;;
  r <- runtime s;;
  let '(err, r') := snd_pcm_update_hw_ptr (d_silence ops) pos r in
  modify s (fun _ => r');;; ret err.

Definition update_hw_ptr_interrupt (s : nat) : M Z :=
  pos <- poll s;;
  check_divisors s (interrupt_divisors (d_silence ops) pos);;;
  r <- runtime s;;
  let '(res, r') := snd_pcm_update_hw_ptr_interrupt (d_silence ops) pos r in
  modify s (fun _ => r');;;
  match res.2 with
  | Some state => (snd_pcm_stop s state;;; ret res.1)
  | None => ret res.1
  end.

Definition snd_pcm_tick_elapsed (s : nat) : M unit :=
  spin_lock (runtime_lock s);;;
  r <- runtime s;;
  (if negb (snd_pcm_running r) then ret tt
   else
     err <- update_hw_ptr s;;
     if err <? 0 then ret tt else tick s);;;
  spin_unlock (runtime_lock s).

Definition snd_pcm_period_elapsed (s : nat) : M unit :=
  callback (d_transfer_ack_begin ops) s;;;
  spin_lock (runtime_lock s);;;
  r <- runtime s;;
  (if negb (snd_pcm_running r) then ret tt
   else
     (err <- update_hw_ptr_interrupt s;;
      if err <? 0 then ret tt
      else
        (x <- sub s;;
         when (ss_timer_running x) (d_timer_interrupt ops s);;;
         tick s)));;;
  spin_unlock (runtime_lock s);;;
  callback (d_transfer_ack_end ops) s;;;
  d_kill_fasync ops s.

(** The ioctl cases that take the runtime lock around an operation. *)
Definition under_lock (op : nat -> M Z) (s : nat) : M Z :=
  spin_lock (runtime_lock s);;;
  res <- op s;;
  spin_unlock (runtime_lock s);;;
  ret res.

(** ** Draining and dropping *)

(** What ends the wait when no wake-up finds the stream drained. *)
Inductive drain_end := DrainSignal | DrainTimeout (irqs : list nat).

(** The period interrupts that arrive while the caller sleeps. *)
Fixpoint irqs_arrive (l : list nat) : M unit :=
  match l with
  | [] => ret tt
  | s :: l => snd_pcm_period_elapsed s;;; irqs_arrive l
  end.

(** The [while (1)] of the playback drain; each wake-up comes with the interrupts that
    arrived during the sleep. *)
Fixpoint drain_wait (s : nat) (wakes : list (list nat)) (last : drain_end) : M Z :=
  match wakes with
  | irqs :: wakes =>
      spin_unlock (runtime_lock s);;;
      irqs_arrive irqs;;;
      spin_lock (runtime_lock s);;;
      r <- runtime s;;
      if negb (state_is (rt_state r) DRAINING) then ret 0 else drain_wait s wakes last
  | [] =>
      match last with
      | DrainSignal => ret (-ERESTARTSYS)
      | DrainTimeout irqs =>
          spin_unlock (runtime_lock s);;;
          irqs_arrive irqs;;;
          spin_lock (runtime_lock s);;;
          ret (-EIO)
      end
  end.

(** Below the [switch]: a running stream stops if it is empty and drains otherwise. *)
Definition drain_running (s : nat) (wakes : list (list nat)) (last : drain_end) : M Z :=
  r <- runtime s;;
  let continue :=
    x <- sub s;;
    if ss_nonblock x then ret (-EAGAIN) else drain_wait s wakes last in
  if state_is (rt_state r) RUNNING then
    if snd_pcm_playback_empty r then snd_pcm_stop s SETUP;;; ret 0
    else snd_pcm_change_state s DRAINING;;; continue
  else continue.

Definition snd_pcm_playback_drain (s : nat) (wakes : list (list nat)) (last : drain_end) : M Z :=
  r <- runtime s;;
  if negb (rt_playback r) then ret (-EINVAL)
  else
    spin_lock (runtime_lock s);;;
    res <- match rt_state r with
           | PAUSED => snd_pcm_pause s false;;; drain_running s wakes last
           | RUNNING | DRAINING => drain_running s wakes last
           | OPEN => ret (-EBADFD)
           | PREPARED =>
               if negb (snd_pcm_playback_empty r) then
                 err <- snd_pcm_start s;;
                 if err <? 0 then ret err else drain_running s wakes last
               else snd_pcm_change_state s SETUP;;; ret 0
           | XRUN => snd_pcm_change_state s SETUP;;; ret 0
           | SETUP => ret 0
           end;;
    spin_unlock (runtime_lock s);;; ret res.

Definition appl_to_hw (r : snd_pcm_runtime) : snd_pcm_runtime := r <| rt_appl_ptr := rt_hw_ptr r |>.

Definition drop_running (s : nat) : M Z :=
  err <- update_hw_ptr s;;
  if 0 <=? err then snd_pcm_stop s SETUP;;; ret 0
  else snd_pcm_change_state s SETUP;;; ret 0.

Definition snd_pcm_playback_drop (s : nat) : M Z :=
  spin_lock (runtime_lock s);;;
  r <- runtime s;;
  res <- match rt_state r with
         | OPEN => ret (-EBADFD)
         | SETUP => ret 0
         | PAUSED => snd_pcm_pause s false;;; drop_running s
         | RUNNING | DRAINING => drop_running s
         | PREPARED | XRUN => snd_pcm_change_state s SETUP;;; ret 0
         end;;
  modify s appl_to_hw;;;
  spin_unlock (runtime_lock s);;; ret res.

Definition capture_rest (r : snd_pcm_runtime) : pcm_state :=
  if 0 <? snd_pcm_capture_avail r then DRAINING else SETUP.

Definition snd_pcm_capture_drain (s : nat) : M Z :=
  spin_lock (runtime_lock s);;;
  r <- runtime s;;
  res <- match rt_state r with
         | OPEN => ret (-EBADFD)
         | PREPARED => snd_pcm_change_state s SETUP;;; ret 0
         | SETUP | DRAINING | PAUSED => ret 0
         | RUNNING =>
             err <- update_hw_ptr s;;
             r <- runtime s;;
             if 0 <=? err then snd_pcm_stop s (capture_rest r);;; ret 0
             else snd_pcm_change_state s (capture_rest r);;; ret 0
         | XRUN => snd_pcm_change_state s (capture_rest r);;; ret 0
         end;;
  spin_unlock (runtime_lock s);;; ret res.

Definition snd_pcm_capture_drop (s : nat) : M Z :=
  spin_lock (runtime_lock s);;;
  r <- runtime s;;
  res <- match rt_state r with
         | OPEN => ret (-EBADFD)
         | SETUP | PAUSED => ret 0
         | RUNNING => snd_pcm_stop s SETUP;;; ret 0
         | PREPARED | DRAINING | XRUN => snd_pcm_change_state s SETUP;;; ret 0
         end;;
  modify s appl_to_hw;;;
  spin_unlock (runtime_lock s);;; ret res.

(** ** Rewinding and the delay *)

(** [appl_ptr -= frames], one turn of the ring up when it is negative. *)
Definition step_back (frames : Z) (r : snd_pcm_runtime) : snd_pcm_runtime :=
  let appl_ptr := s32 (rt_appl_ptr r - frames) in
  r <| rt_appl_ptr := u32 (if appl_ptr <? 0 then appl_ptr + rt_boundary r else appl_ptr) |>.

(** Below the [switch] of both rewinds, with the frames that can be taken back. *)
Definition rewind_by (s : nat) (hw_avail frames : Z) : M Z :=
  let hw_avail := s32 hw_avail in
  if hw_avail <=? 0 then ret 0
  else
    (check_divisors s (fun r => if hw_avail <? frames then [] else [rt_xfer_align r]);;;
     r <- runtime s;;
     let frames := if hw_avail <? frames then hw_avail else frames - frames mod rt_xfer_align r in
     modify s (step_back frames);;;
     when (state_is (rt_state r) RUNNING) (tick s);;;
     ret (s32 frames)).

Definition snd_pcm_playback_rewind (s : nat) (frames : Z) : M Z :=
  if frames =? 0 then ret 0
  else
    (spin_lock (runtime_lock s);;;
     r <- runtime s;;
     let rewind := (r <- runtime s;; rewind_by s (snd_pcm_playback_hw_avail r) frames) in
     res <- match rt_state r with
            | PREPARED => rewind
            | DRAINING | RUNNING =>
                (err <- update_hw_ptr s;; if 0 <=? err then rewind else ret (-EPIPE))
            | XRUN => ret (-EPIPE)
            | _ => ret (-EBADFD)
            end;;
     spin_unlock (runtime_lock s);;; ret res).

Definition snd_pcm_capture_rewind (s : nat) (frames : Z) : M Z :=
  if frames =? 0 then ret 0
  else
    (spin_lock (runtime_lock s);;;
     r <- runtime s;;
     let rewind := (r <- runtime s;; rewind_by s (snd_pcm_capture_hw_avail r) frames) in
     res <- match rt_state r with
            | PREPARED | DRAINING => rewind
            | RUNNING => (err <- update_hw_ptr s;; if 0 <=? err then rewind else ret (-EPIPE))
            | XRUN => ret (-EPIPE)
            | _ => ret (-EBADFD)
            end;;
     spin_unlock (runtime_lock s);;; ret res).

(** The error and what is stored at [*res]. *)
Definition snd_pcm_playback_delay (s : nat) : M (Z * option Z) :=
  spin_lock (runtime_lock s);;;
  r <- runtime s;;
  let measure (e : Z) :=
    (err <- update_hw_ptr s;;
     r <- runtime s;;
     if 0 <=? err then ret (0, Some (s32 (snd_pcm_playback_hw_avail r))) else ret (e, None)) in
  res <- match rt_state r with
         | RUNNING => measure (-EPIPE)
         | DRAINING => measure (-EBADFD)
         | XRUN => ret (-EPIPE, None)
         | _ => ret (-EBADFD, None)
         end;;
  spin_unlock (runtime_lock s);;; ret res.

Definition snd_pcm_capture_delay (s : nat) : M (Z * option Z) :=
  spin_lock (runtime_lock s);;;
  r <- runtime s;;
  res <- match rt_state r with
         | RUNNING =>
             (err <- update_hw_ptr s;;
              r <- runtime s;;
              if 0 <=? err then ret (0, Some (s32 (snd_pcm_capture_avail r)))
              else ret (-EPIPE, None))
         | XRUN => ret (-EPIPE, None)
         | _ => ret (-EBADFD, None)
         end;;
  spin_unlock (runtime_lock s);;; ret res.

(** ** Parameters *)

(** Passes over the rules allowed to one refinement. *)
Variable rounds : nat.

Definition lift {A} (o : option A) : M A := fun w =>
  match o with Some x => Some (x, w) | None => None end.

Definition hw_refine (s : nat) : snd_pcm_hw_params -> option (Z * snd_pcm_hw_params) :=
  snd_pcm_hw_refine (d_hardware ops s) (d_constraints ops s) rounds.

Definition snd_pcm_hw_free1 (s : nat) : M Z :=
  match d_hw_free ops with Some f => f s | None => ret 0 end.

(** The [_error] label: the hardware may be unusable, so the application has to start
    over. *)
Definition hw_params_error (s : nat) (err : Z) (p : snd_pcm_hw_params)
    : M (Z * snd_pcm_hw_params) :=
  modify s (set_state OPEN);;; snd_pcm_hw_free1 s;;; ret (err, p).

Definition timer_resolution_change (s : nat) : M unit :=
  check_divisors s (fun r => resolution_divisors (rt_rate r) (rt_period_size r));;;
  modify_sub s (fun x =>
    match snd_pcm_timer_resolution_change (rt_rate (ss_rt x)) (rt_period_size (ss_rt x)) with
    | Some resolution => x <| ss_timer_resolution := resolution |>
    | None => x
    end).

Definition snd_pcm_hw_params_set (s : nat) (p : snd_pcm_hw_params) : M (Z * snd_pcm_hw_params) :=
  rp <- lift (hw_refine s (p <| hp_rmask := UINT_MAX |>));;
  let '(err, p) := rp in
  if err <? 0 then hw_params_error s err p
  else
    (rp <- lift (snd_pcm_hw_params_choose (hw_refine s) p);;
     let '(err, p) := rp in
     if err <? 0 then hw_params_error s err p
     else
       (err <- match d_hw_params ops with Some f => f s p | None => ret err end;;
        if err <? 0 then hw_params_error s err p
        else
          (modify s (hw_params_commit p);;;
           timer_resolution_change s;;;
           ret (0, p)))).

Definition snd_pcm_hw_params (s : nat) (p : snd_pcm_hw_params) : M (Z * snd_pcm_hw_params) :=
  r <- runtime s;;
  match rt_state r with
  | OPEN | SETUP | PREPARED =>
      if truth (rt_mmap_count r) then ret (-EBADFD, p) else snd_pcm_hw_params_set s p
  | _ => ret (-EBADFD, p)
  end.

Definition snd_pcm_hw_free (s : nat) : M Z :=
  r <- runtime s;;
  match rt_state r with
  | SETUP | PREPARED =>
      if truth (rt_mmap_count r) then ret (-EBADFD)
      else
        match d_hw_free ops with
        | None => ret 0
        | Some f => (result <- f s;; modify s (set_state OPEN);;; ret result)
        end
  | _ => ret (-EBADFD)
  end.

Record snd_pcm_sw_params := SwParams {
  sw_tstamp_mode : Z; sw_period_step : Z; sw_sleep_min : Z; sw_avail_min : Z;
  sw_xfer_align : Z; sw_start_threshold : Z; sw_stop_threshold : Z;
  sw_silence_threshold : Z; sw_silence_size : Z }.

Definition sw_params_store (p : snd_pcm_sw_params) (r : snd_pcm_runtime) : snd_pcm_runtime :=
  r <| rt_tstamp_mode := sw_tstamp_mode p |>
    <| rt_sleep_min := sw_sleep_min p |>
    <| rt_period_step := sw_period_step p |>
    <| rt_avail_min := sw_avail_min p |>
    <| rt_start_threshold := sw_start_threshold p |>
    <| rt_stop_threshold := sw_stop_threshold p |>
    <| rt_silence_threshold := sw_silence_threshold p |>
    <| rt_silence_size := sw_silence_size p |>
    <| rt_xfer_align := sw_xfer_align p |>.

Definition sw_params_ok (p : snd_pcm_sw_params) (r : snd_pcm_runtime) : bool :=
  (sw_tstamp_mode p <=? TSTAMP_LAST)
  && negb (sw_avail_min p =? 0)
  && negb (sw_xfer_align p =? 0) && (sw_xfer_align p mod rt_min_align r =? 0)
  && (u32 (sw_silence_threshold p + sw_silence_size p) <=? rt_buffer_size r).

(** The alignment is divided by the least one, when the tests before it pass. *)
Definition sw_params_divisors (p : snd_pcm_sw_params) (r : snd_pcm_runtime) : list Z :=
  if (sw_tstamp_mode p <=? TSTAMP_LAST) && negb (sw_avail_min p =? 0) && negb (sw_xfer_align p =? 0)
  then [rt_min_align r] else [].

(** What a running stream does at once under its new parameters. *)
Definition sw_params_apply (r : snd_pcm_runtime) : snd_pcm_runtime :=
  if snd_pcm_running r then
    let r := if truth (rt_sleep_min r) then snd_pcm_tick_prepare r else snd_pcm_tick_set r 0 in
    wake_up (silence_if_wanted r)
  else r.

Definition apply_divisors (r : snd_pcm_runtime) : list Z :=
  if snd_pcm_running r then wanted_divisors r ++ silence_divisors (d_silence ops) r else [].

(** The result and [params->boundary], when it is set. *)
Definition snd_pcm_sw_params_call (s : nat) (p : snd_pcm_sw_params) : M (Z * option Z) :=
  r <- runtime s;;
  if state_is (rt_state r) OPEN then ret (-EBADFD, None)
  else
    (divides (sw_params_divisors p r);;;
     if negb (sw_params_ok p r) then ret (-EINVAL, None)
     else
       (modify s (sw_params_store p);;;
        spin_lock (runtime_lock s);;;
        check_divisors s apply_divisors;;;
        modify s sw_params_apply;;;
        spin_unlock (runtime_lock s);;;
        ret (0, Some (rt_boundary r)))).

(** ** Status *)

Record snd_pcm_status := PcmStatus {
  st_state : pcm_state; st_trigger_tstamp : Z; st_tstamp : Z; st_appl_ptr : Z; st_hw_ptr : Z;
  st_delay : Z; st_avail : Z; st_avail_max : Z; st_overrange : Z }.

(** Over the zeroed status of [snd_pcm_status_user]; a stream that is open but not set
    up reports its state only. *)
Definition snd_pcm_status_call (s : nat) : M snd_pcm_status :=
  spin_lock (runtime_lock s);;;
  x <- sub s;;
  let state := rt_state (ss_rt x) in
  if state_is state OPEN then
    (spin_unlock (runtime_lock s);;; ret (PcmStatus OPEN 0 0 0 0 0 0 0 0))
  else
    (when (snd_pcm_running (ss_rt x)) (update_hw_ptr s;;; ret tt);;;
     now <- snd_timestamp_now;;
     r <- runtime s;;
     let tstamp := if snd_pcm_running (ss_rt x) && truth (Z.land (rt_tstamp_mode r) TSTAMP_MMAP)
                   then rt_tstamp r else now in
     let avail := pcm_avail r in
     let delay :=
       if rt_playback r then
         if state_is (rt_state r) RUNNING || state_is (rt_state r) DRAINING
         then s32 (rt_buffer_size r - avail) else 0
       else if state_is (rt_state r) RUNNING then s32 avail else 0 in
     modify s (fun r => r <| rt_avail_max := 0 |> <| rt_overrange := 0 |>);;;
     spin_unlock (runtime_lock s);;;
     ret (PcmStatus state (ss_trigger_tstamp x) tstamp (rt_appl_ptr r) (rt_hw_ptr r) delay avail
            (rt_avail_max r) (rt_overrange r))).
End Operations.

(** ** Linking *)

(** [do { if (s == substream1) ...; s = s->link_next; } while (s != substream)] *)
Fixpoint in_group (fuel : nat) (substream target s : nat) : M bool :=
  match fuel with
  | O => fun _ => None
  | S fuel =>
      if (s =? target)%nat then ret true
      else
        (x <- sub s;;
         if (ss_link_next x =? substream)%nat then ret false
         else in_group fuel substream target (ss_link_next x))
  end.

Definition set_next (s n : nat) : M unit := modify_sub s (fun x => x <| ss_link_next := n |>).
Definition set_prev (s p : nat) : M unit := modify_sub s (fun x => x <| ss_link_prev := p |>).

Definition splice (substream substream1 : nat) : M unit :=
  x1 <- sub substream1;;
  x <- sub substream;;
  set_next (ss_link_prev x1) (ss_link_next x);;;
  x <- sub substream;;
  x1 <- sub substream1;;
  set_prev (ss_link_next x) (ss_link_prev x1);;;
  set_next substream substream1;;;
  set_prev substream1 substream.

(** What the file handle leads to. *)
Inductive link_target := NoFile | NotPcmFile | PcmFile (substream1 : nat).

Definition snd_pcm_link (substream : nat) (file : link_target) : M Z := fun w =>
  (r <- runtime substream;;
   if state_is (rt_state r) OPEN then ret (-EBADFD)
   else
     match file with
     | NoFile => ret (-EBADFD)
     | NotPcmFile => ret (-ENXIO)
     | PcmFile substream1 =>
         (spin_lock pcm_link_lock;;;
          r1 <- runtime substream1;;
          res <- (if negb (state_is (rt_state r) (rt_state r1)) then ret (-EBADFD)
                  else
                    (already <- in_group (group_fuel w) substream substream1 substream;;
                     if (already : bool) then ret (-EALREADY)
                     else (splice substream substream1;;; ret 0)));;
          spin_unlock pcm_link_lock;;;
          ret res)
     end) w.

Definition snd_pcm_unlink (substream : nat) : M Z :=
  spin_lock pcm_link_lock;;;
  x <- sub substream;;
  set_next (ss_link_prev x) (ss_link_next x);;;
  x <- sub substream;;
  set_prev (ss_link_next x) (ss_link_prev x);;;
  set_prev substream substream;;;
  set_next substream substream;;;
  spin_unlock pcm_link_lock;;;
  ret 0.
