(* ===== verification/PcmSafe.v ===== *)
(** * PcmSafe: the calls on PCM substreams are safe

    Every call terminates without deadlock, double unlock or dangling pointer, leaves the
    locks as it found them, acts on a link group as a whole, and keeps the configuration
    invariant: a substream that is open and set up has a valid ring. *)

From S2P Require Import Prelude Interval Mask PcmFormat HwParams HwChoose PcmRuntime PcmRing.
From S2P Require Import PcmTimer PcmState PcmOps.
Open Scope Z_scope.

(** ** What is expected of the driver and of the other components *)

(** A callback may do what it likes to hardware and runtimes, but leaves the links, the
    states, the geometry and the locks alone, and does not divide by 0. *)
Definition well_behaved {A} (f : nat -> M A) : Prop :=
  forall s w, is_Some (w_subs w !! s) -> masters_ok w -> wp (f s) (fun _ => keeps w) w.

Class DriverOk (ops : driver) : Prop := {
  dk_trigger c : well_behaved (fun s => d_trigger ops s c);
  dk_prepare : well_behaved (d_prepare ops);
  dk_ioctl_reset : well_behaved (d_ioctl_reset ops);
  dk_hw_params f p : d_hw_params ops = Some f -> well_behaved (fun s => f s p);
  dk_hw_free f : d_hw_free ops = Some f -> well_behaved f;
  dk_ack_begin f : d_transfer_ack_begin ops = Some f -> well_behaved f;
  dk_ack_end f : d_transfer_ack_end ops = Some f -> well_behaved f;
  dk_timer_interrupt : well_behaved (d_timer_interrupt ops);
  dk_kill_fasync : well_behaved (d_kill_fasync ops) }.

(** ** Updates that keep state and geometry *)

Definition mild (r r' : snd_pcm_runtime) : Prop :=
  rt_state r' = rt_state r /\ rt_buffer_size r' = rt_buffer_size r /\ rt_boundary r' = rt_boundary r /\
  divisors_there r' = divisors_there r.

#[export] Instance mild_preorder : PreOrder mild.
Proof.
  split; [done |]. unfold mild. intros a b c (-> & -> & -> & ->) (-> & -> & -> & ->). done.
Qed.

Lemma playback_silence_mild sil r : mild r (snd_pcm_playback_silence sil r).
Proof.
  unfold snd_pcm_playback_silence.
  assert (E : mild r (silence_forget r)).
  { unfold silence_forget. destruct (_ =? _); done. }
  transitivity (silence_forget r); [done |].
  destruct (_ =? _); [done |]. destruct (negb _); [done |]. destruct (_ <? _); done.
Qed.

Lemma tick_set_mild r n : mild r (snd_pcm_tick_set r n).
Proof. done. Qed.

Lemma tick_prepare_mild r : mild r (snd_pcm_tick_prepare r).
Proof.
  unfold snd_pcm_tick_prepare. cbv zeta.
  repeat match goal with |- mild _ (if ?b then _ else _) => destruct b; try done end.
Qed.

Lemma hw_ptr_notify_mild sil r avail : mild r (hw_ptr_notify sil r avail).
Proof.
  unfold hw_ptr_notify. destruct (_ <=? _); destruct (_ && _); try done.
  - transitivity (wake_up r); [done | apply playback_silence_mild].
  - apply playback_silence_mild.
Qed.

Lemma track_avail_max_mild r avail : mild r (track_avail_max r avail).
Proof. unfold track_avail_max. by destruct (_ <? _). Qed.

(** Walk through the tests of an update that is a chain of mild ones. *)
Ltac mild_cases :=
  repeat case_match; simplify_eq/=; try done;
  repeat first [ etransitivity; [| apply hw_ptr_notify_mild] | etransitivity; [| apply track_avail_max_mild] ];
  done.

Lemma update_hw_ptr_mild sil pos r : mild r (snd_pcm_update_hw_ptr sil pos r).2.
Proof.
  unfold snd_pcm_update_hw_ptr. cbv zeta. mild_cases.
Qed.

Lemma update_hw_ptr_interrupt_mild sil pos r :
  let '(err, stop, r') := snd_pcm_update_hw_ptr_interrupt sil pos r in
  mild r r' /\ match stop with Some OPEN => False | _ => True end.
Proof.
  unfold snd_pcm_update_hw_ptr_interrupt. cbv zeta.
  destruct (negb _); [done |].
  match goal with |- context [match ?f with Return _ => _ | Next _ => _ end] => destruct f as [[] | [r1 hw]] eqn:E end;
    [done |].
  assert (mild r r1) by (repeat case_match; simplify_eq; done).
  destruct (_ <=? _); (split; [| repeat case_match; simplify_eq; done]); mild_cases.
Qed.

Lemma silence_if_wanted_mild ops r : mild r (silence_if_wanted ops r).
Proof. unfold silence_if_wanted. destruct (_ && _); [apply playback_silence_mild | done]. Qed.

Lemma tick_if_wanted_mild r : mild r (tick_if_wanted r).
Proof. unfold tick_if_wanted. destruct (truth _); [apply tick_prepare_mild | done]. Qed.

Lemma running_not_open r : snd_pcm_running r = true -> rt_state r <> OPEN.
Proof. unfold snd_pcm_running. intros H E. by rewrite E in H. Qed.

(** ** The parts of the group operations *)

Lemma trigger_time_spec s w :
  is_Some (w_subs w !! s) -> masters_ok w -> wp (snd_pcm_trigger_time s) (fun _ => keeps w) w.
Proof.
  intros [x Hx] Hm. unfold snd_pcm_trigger_time. apply wp_bind, (wp_sub _ x); [done |].
  assert (Put : forall stamp, wp (modify_sub s (fun x => x <| ss_trigger_tstamp := stamp |>
                                                  <| ss_trigger_master := None |>)) (fun _ => keeps w) w).
  { intros stamp. apply (wp_modify_sub s x); [done |].
    destruct (put_shape w s x (x <| ss_trigger_tstamp := stamp |> <| ss_trigger_master := None |>))
      as [A B]; [done | done |].
    split; [exact A | | done | intros; apply (put_masters w s x); [done | by right | done] | done].
    rewrite B. apply insert_id. unfold states. by rewrite lookup_fmap, Hx. }
  apply wp_bind. destruct (ss_trigger_master x) as [m |] eqn:Em; [| by apply Put].
  destruct (_ =? _)%nat; [by apply Put |].
  destruct (Hm s x m Hx Em) as [y Hy]. apply wp_bind, (wp_sub _ y); [done |]. by apply Put.
Qed.

(** Steps on [s] that may trap only if [s] is not divisible. *)
Definition steps_at (s : nat) (m : M unit) : Prop := forall w,
  is_Some (w_subs w !! s) -> masters_ok w -> wp m (fun _ => keeps_at s w) w.

Lemma steps_bind s m m' : steps_at s m -> steps_at s m' -> steps_at s (m;;; m')%state.
Proof.
  intros H H' w Hs Hm. apply wp_bind. eapply wp_mono; [by apply H |]. intros [] w1 K.
  eapply wp_mono; [apply H' |].
  - by apply (skeleton_dom w w1 s (ka_skel _ _ _ K)).
  - by apply (ka_masters _ _ _ K).
  - intros [] w2 K'. by transitivity w1.
Qed.

Lemma steps_trigger_time s : steps_at s (snd_pcm_trigger_time s).
Proof.
  intros w Hs Hm. eapply wp_mono; [by apply trigger_time_spec |]. intros [] w'. apply keeps_keeps_at.
Qed.

Lemma steps_check s f : covered f -> steps_at s (check_divisors s f).
Proof. intros Hf w Hs _. by apply check_divisors_spec. Qed.

Lemma steps_modify s f : (forall r, mild r (f r)) -> steps_at s (modify s f).
Proof.
  intros Hf w Hs Hm. eapply wp_mono; [apply modify_keeps; try done |].
  - intros r. by destruct (Hf r) as (_ & ? & ? & ?).
  - intros r. by destruct (Hf r).
  - intros [] w'. apply keeps_keeps_at.
Qed.

Lemma wanted_covered : covered wanted_divisors.
Proof.
  intros r Hr. unfold wanted_divisors. destruct (truth _); [by apply tick_divisors_there | done].
Qed.

Lemma steps_tick s : steps_at s (tick s).
Proof.
  apply steps_bind; [apply steps_check, wanted_covered | apply steps_modify, tick_if_wanted_mild].
Qed.

Lemma moves_steps w s st m : forall w1, moves w s st w1 -> steps_at s m ->
  wp m (fun _ => moves w s st) w1.
Proof.
  intros w1 [A B C D E] Hm.
  assert (Hs : is_Some (w_subs w1 !! s)).
  { destruct (state_sub w1 s st) as (x & Hx & _); [by rewrite D, lookup_insert_eq | eauto]. }
  eapply wp_mono; [by apply Hm |]. intros _ w2 [A2 B2 C2 D2 E2].
  split; [congruence | congruence | auto | congruence |].
  intros Hd. rewrite E2 by (by apply (divisible_skeleton w)). auto.
Qed.

(** [snd_pcm_trigger_time] and an update that moves the state. *)
Lemma stamped_last s w st f st' :
  states w !! s = Some st -> masters_ok w -> (forall r, mild (set_state st' r) (f r)) ->
  wp (snd_pcm_trigger_time s;;; modify s f)%state (fun _ => moves w s st') w.
Proof.
  intros Hst Hm Hf. destruct (state_sub _ _ _ Hst) as (x & Hx & _). apply wp_bind.
  eapply wp_mono; [apply trigger_time_spec; eauto |].
  intros _ w1 [Ks Kst Kh Km Kt].
  eapply wp_mono; [apply (modify_shape s w1 st f (fun _ => st')) |].
  - by rewrite Kst.
  - auto.
  - intros r. by destruct (Hf r) as (_ & ? & ? & ?).
  - intros r Hr. by destruct (Hf r).
  - intros _ w2 [A B C D E]. split; [congruence | congruence | done | congruence |].
    intros Hd. rewrite E by (by apply (divisible_skeleton w)). done.
Qed.

(** The same with further steps. *)
Lemma stamped_post s w st f st' m :
  states w !! s = Some st -> masters_ok w ->
  (forall r, mild (set_state st' r) (f r)) -> steps_at s m ->
  wp (snd_pcm_trigger_time s;;; modify s f;;; m)%state (fun _ => moves w s st') w.
Proof.
  intros Hst Hm Hf Hsteps.
  destruct (wp_run _ _ _ (stamped_last s w st f st' Hst Hm Hf)) as ([] & w2 & E & Hmv).
  pose proof (moves_steps w s st' m w2 Hmv Hsteps) as W. unfold wp, bind in *.
  destruct (snd_pcm_trigger_time s w) as [[[] w1] |]; [| done].
  destruct (modify s f w1) as [[[] w2'] |]; [| done]. by injection E as ->.
Qed.

Section Group.
Context (ops : driver) `{!DriverOk ops}.

Inductive group_op := GStart | GStop (state : pcm_state) | GPause (push : bool) | GReset | GPrepare.

Definition run_op (op : group_op) : nat -> M Z :=
  match op with
  | GStart => snd_pcm_start ops
  | GStop state => fun s => snd_pcm_stop ops s state
  | GPause push => fun s => snd_pcm_pause ops s push
  | GReset => snd_pcm_reset ops
  | GPrepare => snd_pcm_prepare ops
  end.

(** The check a member has to pass and the state it is left in. *)
Definition op_check (op : group_op) : snd_pcm_runtime -> Z :=
  match op with
  | GStart => snd_pcm_start_pre
  | GStop _ => snd_pcm_stop_pre
  | GPause push => snd_pcm_pause_pre push
  | GReset => snd_pcm_reset_pre
  | GPrepare => snd_pcm_prepare_pre
  end.

Definition op_next (op : group_op) (state : pcm_state) : pcm_state :=
  match op with
  | GStart => RUNNING
  | GStop state => state
  | GPause push => if push then PAUSED else RUNNING
  | GReset => state
  | GPrepare => PREPARED
  end.

Lemma op_check_nonpos op r : op_check op r <= 0.
Proof.
  destruct op; simpl; unfold snd_pcm_start_pre, snd_pcm_stop_pre, snd_pcm_pause_pre,
    snd_pcm_reset_pre, snd_pcm_prepare_pre;
  repeat match goal with
  | |- (if ?b then _ else _) <= 0 => destruct b
  | |- match ?m with _ => _ end <= 0 => destruct m
  end; done.
Qed.

Lemma op_check_open op r : rt_state r = OPEN -> op_check op r < 0.
Proof.
  intros E. destruct op; simpl; unfold snd_pcm_start_pre, snd_pcm_stop_pre, snd_pcm_pause_pre,
    snd_pcm_reset_pre, snd_pcm_prepare_pre, snd_pcm_running; rewrite ?E; simpl; try done.
  destruct (_ =? 0), push; done.
Qed.

(** Like [well_behaved], but there may be a trap. *)
Definition well_behaved_at (f : nat -> M Z) : Prop :=
  forall s w, is_Some (w_subs w !! s) -> masters_ok w -> wp (f s) (fun _ => keeps_at s w) w.

Lemma well_behaved_weaken f : well_behaved f -> well_behaved_at f.
Proof.
  intros Hf s w Hs Hm. eapply wp_mono; [by apply Hf |]. intros e w'. apply keeps_keeps_at.
Qed.

Lemma reset1_keeps : well_behaved_at (snd_pcm_reset1 ops).
Proof.
  intros s w Hs Hm. unfold snd_pcm_reset1. apply wp_bind.
  eapply wp_mono; [by apply dk_ioctl_reset |]. intros err w1 K.
  destruct (err <? 0); [by apply keeps_keeps_at |].
  pose proof (skeleton_dom w w1 s (kp_skel _ _ K) Hs) as Hs1.
  apply wp_bind. eapply wp_mono; [apply (steps_check s (fun r => [rt_period_size r])); [| done |] |].
  - intros r (_ & Hp & _)%divisors_there_spec. simpl. by rewrite Hp.
  - by apply (kp_masters _ _ K).
  - intros [] w2 K2. apply wp_bind. eapply wp_mono; [apply steps_modify |].
    + done.
    + by apply (skeleton_dom w1 w2 s (ka_skel _ _ _ K2)).
    + by apply (ka_masters _ _ _ K2), (kp_masters _ _ K).
    + intros [] w3 K3. apply wp_ret. transitivity w1; [by apply keeps_keeps_at |].
      by transitivity w2.
Qed.

Lemma prepare1_keeps : well_behaved_at (snd_pcm_prepare1 ops).
Proof.
  intros s w Hs Hm. unfold snd_pcm_prepare1. apply wp_bind.
  eapply wp_mono; [by apply dk_prepare |]. intros err w1 K.
  destruct (err <? 0); [by apply keeps_keeps_at |].
  eapply wp_mono; [apply reset1_keeps |].
  - by apply (skeleton_dom w w1 s (kp_skel _ _ K)).
  - by apply (kp_masters _ _ K).
  - intros e w2 K'. transitivity w1; [by apply keeps_keeps_at | done].
Qed.

(** The driver calls of an operation succeed. *)
Definition op_succeeds (op : group_op) : Prop :=
  act_succeeds (match op with
                | GStart => snd_pcm_start1 ops
                | GStop _ => snd_pcm_stop1 ops
                | GPause push => snd_pcm_pause1 ops push
                | GReset => snd_pcm_reset1 ops
                | GPrepare => snd_pcm_prepare1 ops
                end).

Lemma group_op_spec op w s rest :
  ring (skeleton w) s rest -> masters_ok w ->
  pcm_link_lock ∉ w_held w -> (forall b, b ∈ rest -> runtime_lock b ∉ w_held w) ->
  match first_failing (op_check op) w (s :: rest) with
  | Some e => run_op op s w = Some (e, w)
  | None => exists res w', run_op op s w = Some (res, w') /\ w_held w' = w_held w /\
      skeleton w' = skeleton w /\ masters_ok w' /\ res <= 0 /\ (op_succeeds op -> res = 0) /\
      (forall b, b ∉ s :: rest -> states w' !! b = states w !! b) /\
      (forall b st, b ∈ s :: rest -> states w !! b = Some st ->
         states w' !! b = Some (op_next op st) \/ res < 0 /\ states w' !! b = Some st) /\
      ((forall b, b ∈ s :: rest -> divisible w b) -> w_trapped w' = w_trapped w)
  end.
Proof using DriverOk0.
  intros R Hm Hl Hf.
  assert (L : forall act post skip,
    run_op op = linked_op (op_check op) act post skip ->
    (op_succeeds op -> act_succeeds act) -> well_behaved_at act ->
    (forall s w st, states w !! s = Some st -> masters_ok w ->
       wp (post s) (fun _ => moves w s (op_next op st)) w) ->
    match first_failing (op_check op) w (s :: rest) with
    | Some e => run_op op s w = Some (e, w)
    | None => exists res w', run_op op s w = Some (res, w') /\ w_held w' = w_held w /\
        skeleton w' = skeleton w /\ masters_ok w' /\ res <= 0 /\ (op_succeeds op -> res = 0) /\
        (forall b, b ∉ s :: rest -> states w' !! b = states w !! b) /\
        (forall b st, b ∈ s :: rest -> states w !! b = Some st ->
           states w' !! b = Some (op_next op st) \/ res < 0 /\ states w' !! b = Some st) /\
        ((forall b, b ∈ s :: rest -> divisible w b) -> w_trapped w' = w_trapped w)
    end).
  { intros act post skip -> Hsucc Hact Hpost.
    pose proof (linked_op_spec (op_check op) act post skip s (op_next op) Hact Hpost
                  (op_check_nonpos op) w rest R Hm Hl Hf) as G.
    destruct (first_failing _ _ _); [done |].
    destruct (wp_run _ _ _ G) as (res & w' & E & [G1 G2 G3 G4 G5 G6 G7] & Hh).
    exists res, w'. split_and!; try done; [lia |]. intros Hs. apply G6. auto. }
  destruct op; simpl in L |- *.
  - apply (L (snd_pcm_start1 ops) (snd_pcm_start_post ops) true);
      [done | done | apply well_behaved_weaken, dk_trigger |].
    intros s' w' st Hst Hm'. apply (stamped_post s' w' st); [done | done | done |].
    apply steps_bind; [apply steps_check; intros r; apply silence_divisors_there |].
    apply steps_bind; [apply steps_modify, silence_if_wanted_mild | apply steps_tick].
  - apply (L (snd_pcm_stop1 ops) (snd_pcm_stop_post state) true);
      [done | done | apply well_behaved_weaken, dk_trigger |].
    intros s' w' st Hst Hm'. by apply (stamped_last s' w' st).
  - apply (L (snd_pcm_pause1 ops push) (snd_pcm_pause_post push) true);
      [done | done | apply well_behaved_weaken, dk_trigger |].
    intros s' w' st Hst Hm'. destruct push; [by apply (stamped_last s' w' st) |].
    apply (stamped_post s' w' st); [done | done | done | apply steps_tick].
  - apply (L (snd_pcm_reset1 ops) snd_pcm_reset_post false); [done | done | apply reset1_keeps |].
    intros s' w' st Hst Hm'. by apply (modify_shape s' w' st _ (fun st => st)).
  - apply (L (snd_pcm_prepare1 ops) snd_pcm_prepare_post false); [done | done | apply prepare1_keeps |].
    intros s' w' st Hst Hm'. by apply (modify_shape s' w' st _ (fun _ => PREPARED)).
Qed.
End Group.

(** C2: the group operations are all-or-nothing in their checks and balanced in their
    locks.  Start, stop, pause, reset and prepare, called on a member of a link group
    whose locks are free (but the caller's own), return the error of the first member
    that fails the check and change nothing at all; otherwise they end with the locks as
    before, every member in its new state unless its driver call failed, in which case
    the result is an error; streams outside the group keep their state; and nothing is
    divided by 0 when the divisors of all members are there. *)
Theorem group_operations ops `{!DriverOk ops} op w s rest :
  ring (skeleton w) s rest -> masters_ok w ->
  pcm_link_lock ∉ w_held w -> (forall b, b ∈ rest -> runtime_lock b ∉ w_held w) ->
  match first_failing (op_check op) w (s :: rest) with
  | Some e => run_op ops op s w = Some (e, w)
  | None => exists res w', run_op ops op s w = Some (res, w') /\ w_held w' = w_held w /\
      skeleton w' = skeleton w /\ masters_ok w' /\ res <= 0 /\ (op_succeeds ops op -> res = 0) /\
      (forall b, b ∉ s :: rest -> states w' !! b = states w !! b) /\
      (forall b st, b ∈ s :: rest -> states w !! b = Some st ->
         states w' !! b = Some (op_next op st) \/ res < 0 /\ states w' !! b = Some st) /\
      ((forall b, b ∈ s :: rest -> divisible w b) -> w_trapped w' = w_trapped w)
  end.
Proof. apply group_op_spec; assumption. Qed.

(** ** Invariants over a fixed link structure *)

Definition geometry_ok (k : skel) : Prop :=
  0 < sk_buffer k /\ sk_boundary k mod sk_buffer k = 0 /\ 2 * sk_buffer k <= sk_boundary k /\
  sk_boundary k + sk_buffer k <= LONG_MAX /\ sk_divisors k = true.

(** Next and previous are inverse to each other, and linked substreams are configured. *)
Record links_ok (K : gmap nat skel) : Prop := {
  lk_next a x : K !! a = Some x -> linked K a (sk_next x);
  lk_prev a x : K !! a = Some x -> linked K (sk_prev x) a;
  lk_geometry a x : K !! a = Some x -> sk_next x <> a -> geometry_ok x }.

Definition configured (w : world) : Prop :=
  forall s st k, states w !! s = Some st -> skeleton w !! s = Some k -> st <> OPEN -> geometry_ok k.

Record world_ok (w : world) : Prop := {
  wo_links : links_ok (skeleton w);
  wo_masters : masters_ok w;
  wo_configured : configured w }.

Lemma linked_prev_unique K a a' b : linked K a b -> linked K a' b -> a = a'.
Proof. intros (? & ? & _ & ? & _ & ?) (? & ? & _ & ? & _ & ?). congruence. Qed.

Lemma linked_next_unique K a b b' : linked K a b -> linked K a b' -> b = b'.
Proof. intros (? & ? & ? & _ & ? & _) (? & ? & ? & _ & ? & _). congruence. Qed.

Lemma path_snoc K a l b : path K a l -> linked K (default a (last l)) b -> path K a (l ++ [b]).
Proof.
  revert a. induction l as [| c l IH]; intros a P L; [done |]. destruct P as [Lc P].
  split; [done |]. apply IH; [done |]. destruct l as [| d l]; [done |].
  destruct (proj2 (last_is_Some (d :: l)) ltac:(done)) as [z Hz].
  change (last (c :: d :: l)) with (last (d :: l)) in L. rewrite Hz in *. exact L.
Qed.

(** Whoever is on a path but at its start is linked from its predecessor on the path. *)
Lemma path_pred K a l b :
  path K a l -> b ∈ l -> exists c, linked K c b /\ (c = a \/ c ∈ l) /\ 
    (NoDup (a :: l) -> Some c <> last (a :: l) /\ c <> b).
Proof.
  revert a. induction l as [| d l IH]; intros a P Hb; [by apply elem_of_nil in Hb |].
  destruct P as [L P]. apply elem_of_cons in Hb as [-> | Hb].
  - exists a. split; [done |]. split; [by left |]. intros [Ha _]%NoDup_cons.
    split; [| intros ->; apply Ha; by left]. intros E. apply Ha. change (last (a :: d :: l)) with (last (d :: l)) in E.
    symmetry in E. apply last_Some in E as [l' E]. rewrite E. apply elem_of_app. right. by left.
  - destruct (IH d P Hb) as (c & Lc & Hc & Hn). exists c. split; [done |].
    split; [right; destruct Hc as [-> |]; [by left | by right] |].
    intros [_ N]%NoDup_cons. by apply Hn.
Qed.

(** Following the links leads back to the start. *)
Lemma ring_exists K s : links_ok K -> is_Some (K !! s) -> exists rest, ring K s rest.
Proof.
  intros LK Hs.
  assert (G : forall n l, (size K - length (s :: l) <= n)%nat -> NoDup (s :: l) -> path K s l ->
                exists rest, ring K s rest).
  { induction n as [| n IH]; intros l Hn N P.
    all: assert (Hlast : exists a, default s (last l) = a /\ last (s :: l) = Some a)
      by (destruct l as [| d l]; [by exists s |];
          destruct (proj2 (last_is_Some (d :: l)) ltac:(done)) as [z Hz];
          exists z; change (last (s :: d :: l)) with (last (d :: l)); by rewrite Hz).
    all: destruct Hlast as (a & Ea & El).
    all: assert (Hin : forall b, b ∈ s :: l -> is_Some (K !! b))
      by (intros b [-> | Hb]%elem_of_cons; [done | by eapply path_in]).
    all: assert (Ha : a ∈ s :: l) by (apply last_Some in El as [l' E]; rewrite E; apply elem_of_app; right; by left).
    all: destruct (Hin a Ha) as [x Hx]; pose proof (lk_next _ LK a x Hx) as L.
    all: assert (P' : path K s (l ++ [sk_next x])) by (apply path_snoc; [done | by rewrite Ea]).
    all: destruct (decide (sk_next x = s)) as [Es | Hns]; [exists l; split; [exact N | by rewrite Es in P'] |].
    all: destruct (decide (sk_next x ∈ l)) as [Hl | Hl];
      [exfalso; destruct (path_pred _ _ _ _ P Hl) as (c & Lc & _ & Hc);
       apply (proj1 (Hc N)); rewrite El; f_equal; by eapply linked_prev_unique |].
    all: assert (N' : NoDup (s :: (l ++ [sk_next x])))
      by (rewrite app_comm_cons; apply NoDup_app; split; [done |]; split; [| apply NoDup_singleton];
          intros y Hy ->%list_elem_of_singleton; apply elem_of_cons in Hy as [|]; congruence).
    all: assert (Hsize : (length (s :: (l ++ [sk_next x])) <= size K)%nat)
      by (rewrite <- (size_list_to_set (C := gset nat) _ N'), <- size_dom; apply subseteq_size;
          intros b Hb%elem_of_list_to_set; apply elem_of_dom;
          apply elem_of_cons in Hb as [-> | Hb]; [done | by eapply path_in]).
    - simpl in Hn, Hsize. rewrite length_app in Hsize. simpl in Hsize. lia.
    - apply (IH (l ++ [sk_next x])); [| done | done].
      simpl in *. rewrite length_app in *. simpl in *. lia. }
  apply (G (size K) []); [lia | apply NoDup_singleton | done].
Qed.

Section Safe.
Context (K : gmap nat skel) (HK : links_ok K).

(** The links are [K], the locks [H] are held, nothing has trapped, and the invariants
    hold. *)
Record sound (H : gset lock) (w : world) : Prop := {
  sd_skel : skeleton w = K;
  sd_held : w_held w = H;
  sd_masters : masters_ok w;
  sd_configured : configured w;
  sd_trapped : w_trapped w = false }.

(** Started with the locks [H] held, [m] runs to an end without a trap, with the links as
    they were and the locks [H'] held, and keeps the invariants. *)
Definition safe {A : Type} (H H' : gset lock) (m : M A) : Prop := forall w,
  sound H w -> wp m (fun _ => sound H') w.

Lemma safe_ret {A : Type} H (x : A) : safe H H (ret x).
Proof. intros w W. by apply wp_ret. Qed.

Lemma safe_bind {A B : Type} H1 H2 H3 (m : M A) (k : A -> M B) :
  safe H1 H2 m -> (forall x, safe H2 H3 (k x)) -> safe H1 H3 (bind m k).
Proof.
  intros Hm Hk w W. apply wp_bind. eapply wp_mono; [by apply Hm |].
  intros x w' W'. by apply Hk.
Qed.

Lemma safe_lock l H : l ∉ H -> safe H ({[l]} ∪ H) (spin_lock l).
Proof.
  intros Hl w [Hk Hh Hm Hc Ht]. apply wp_spin_lock; [by rewrite Hh |].
  split; try done. simpl. by rewrite Hh.
Qed.

Lemma safe_unlock l H : l ∉ H -> safe ({[l]} ∪ H) H (spin_unlock l).
Proof.
  intros Hl w [Hk Hh Hm Hc Ht]. apply wp_spin_unlock; [rewrite Hh; apply lock_held |].
  split; try done. simpl. rewrite Hh. by apply lock_undo.
Qed.

Lemma safe_now H : safe H H snd_timestamp_now.
Proof. by intros w W. Qed.

Lemma sound_sub H w s : sound H w -> is_Some (K !! s) -> exists x, w_subs w !! s = Some x.
Proof.
  intros W [k Hks]. rewrite <- (sd_skel _ _ W) in Hks.
  destruct (skeleton_sub _ _ _ Hks) as (x & ? & _). eauto.
Qed.

(** A substream that is set up has a geometry that is. *)
Lemma sound_geometry H w s x g :
  sound H w -> w_subs w !! s = Some x -> K !! s = Some g -> state_of x <> OPEN -> geometry_ok g.
Proof.
  intros [Hk _ _ Hc _] Hx Hg Hno. apply (Hc s (state_of x)); [| by rewrite Hk | done].
  unfold states. by rewrite lookup_fmap, Hx.
Qed.

(** A change that keeps links, states and locks, and does not trap. *)
Lemma sound_keeps_at H s w w' g :
  sound H w -> keeps_at s w w' -> K !! s = Some g -> geometry_ok g -> sound H w'.
Proof.
  intros [Hk Hh Hm Hc Ht] [Ks Kst Kh Km Kt] Hg (_ & _ & _ & _ & Hd).
  split; [congruence | congruence | auto | |].
  - intros b st k. rewrite Kst, Ks. apply Hc.
  - rewrite Kt; [done |]. exists g. by rewrite Hk.
Qed.

Lemma sound_keeps H w w' : sound H w -> keeps w w' -> sound H w'.
Proof.
  intros [Hk Hh Hm Hc Ht] [Ks Kst Kh Km Kt]. split; [congruence | congruence | auto | | congruence].
  intros b st k. rewrite Kst, Ks. apply Hc.
Qed.

Lemma safe_keeps {A : Type} H (f : nat -> M A) (s : nat) :
  well_behaved f -> is_Some (K !! s) -> safe H H (f s).
Proof.
  intros Hf Hs w W. destruct (sound_sub H w s W Hs) as [x Hx].
  eapply wp_mono; [apply Hf; [eauto | apply W] |]. intros y w'. by apply sound_keeps.
Qed.

Lemma in_subs w s : skeleton w = K -> is_Some (K !! s) -> exists x, w_subs w !! s = Some x.
Proof.
  intros Hk [k Hks]. rewrite <- Hk in Hks. destruct (skeleton_sub _ _ _ Hks) as (x & ? & _). eauto.
Qed.

(** Reading a runtime tells that it is configured if it is set up. *)
Lemma safe_sub {A : Type} H s (k : snd_pcm_substream -> M A) H' :
  is_Some (K !! s) ->
  (forall x g, K !! s = Some g -> (state_of x <> OPEN -> geometry_ok g) -> safe H H' (k x)) ->
  safe H H' (x <- sub s;; k x).
Proof.
  intros Hs Hk w W. destruct (sound_sub H w s W Hs) as [x Hx].
  apply wp_bind, (wp_sub _ x); [done |]. destruct Hs as [g Hg]. apply (Hk x g); try done.
  by eapply sound_geometry.
Qed.

(** The divisors of a substream with a valid geometry are there. *)
Lemma safe_runtime_there {A : Type} H s (k : snd_pcm_runtime -> M A) H' :
  is_Some (K !! s) ->
  (forall r g, K !! s = Some g -> (rt_state r <> OPEN -> geometry_ok g) ->
     (geometry_ok g -> divisors_there r = true) -> safe H H' (k r)) ->
  safe H H' (r <- runtime s;; k r).
Proof.
  intros Hs Hk w W. unfold runtime. destruct (sound_sub H w s W Hs) as [x Hx].
  apply wp_bind, wp_bind, (wp_sub _ x); [done |]. apply wp_ret.
  destruct Hs as [g Hg]. apply (Hk (ss_rt x) g); try done; [by eapply sound_geometry |].
  pose proof Hg as Hg'. rewrite <- (sd_skel _ _ W) in Hg'.
  unfold skeleton in Hg'. rewrite lookup_fmap, Hx in Hg'. injection Hg' as <-.
  intros (_ & _ & _ & _ & Hd). exact Hd.
Qed.

Lemma safe_runtime {A : Type} H s (k : snd_pcm_runtime -> M A) H' :
  is_Some (K !! s) ->
  (forall r g, K !! s = Some g -> (rt_state r <> OPEN -> geometry_ok g) -> safe H H' (k r)) ->
  safe H H' (r <- runtime s;; k r).
Proof. intros Hs Hk. apply safe_runtime_there; [done |]. eauto. Qed.

Lemma safe_divides H l : forallb truth l = true -> safe H H (divides l).
Proof. intros Hl w W. unfold wp. by rewrite divides_there. Qed.

Lemma safe_check H s g f :
  K !! s = Some g -> geometry_ok g -> covered f -> safe H H (check_divisors s f).
Proof.
  intros Hg G Hf. unfold check_divisors. apply safe_runtime_there; [eauto |].
  intros r g' Hg' _ Hd. simplify_eq. apply safe_divides, Hf, Hd, G.
Qed.

(** An update of a substream that keeps its shape, or opens it. *)
Lemma safe_modify_sub H s f :
  is_Some (K !! s) ->
  (forall x, K !! s = Some (skel_of x) ->
     skel_of (f x) = skel_of x /\ (state_of (f x) = state_of x \/ state_of (f x) = OPEN) /\
     ss_trigger_master (f x) = ss_trigger_master x) ->
  safe H H (modify_sub s f).
Proof.
  intros Hs Hf w W. destruct (sound_sub H w s W Hs) as [x Hx]. pose proof W as [Hk Hh Hm Hc Ht].
  apply (wp_modify_sub s x); [done |].
  destruct (Hf x) as (Esk & Est & Em); [rewrite <- Hk; unfold skeleton; by rewrite lookup_fmap, Hx |].
  destruct (put_shape w s x (f x) Hx Esk) as [A B].
  split; [by rewrite A | done | apply (put_masters w s x); auto | | done].
  intros b st k. rewrite A, B. destruct (decide (b = s)) as [-> | Hb].
  - rewrite lookup_insert_eq. intros [= <-] Hk' Hno. apply (Hc s (state_of x)); [| done | intuition congruence].
    unfold states. by rewrite lookup_fmap, Hx.
  - rewrite lookup_insert_ne by done. apply Hc.
Qed.

Lemma safe_modify H s f :
  is_Some (K !! s) -> (forall r, mild r (f r)) -> safe H H (modify s f).
Proof.
  intros Hs Hf. apply safe_modify_sub; [done |]. intros x _. destruct (Hf (ss_rt x)) as (A & B & C & D).
  unfold skel_of, state_of. simpl. rewrite A, B, C, D. auto.
Qed.

(** The same where the divisors are known to be there. *)
Lemma safe_modify_there H s g f :
  K !! s = Some g -> geometry_ok g -> (forall r, divisors_there r = true -> mild r (f r)) ->
  safe H H (modify s f).
Proof.
  intros Hg (_ & _ & _ & _ & Hd) Hf. apply safe_modify_sub; [eauto |]. intros x Hx. simplify_eq.
  destruct (Hf (ss_rt x) Hd) as (A & B & C & D). unfold skel_of, state_of. simpl. rewrite A, B, C, D. auto.
Qed.

Lemma safe_when H b m : safe H H m -> safe H H (when b m).
Proof. destruct b; [done | intros; apply safe_ret]. Qed.

Lemma safe_if {A : Type} H H' (b : bool) (m m' : M A) : safe H H' m -> safe H H' m' -> safe H H' (if b then m else m').
Proof. by destruct b. Qed.
End Safe.

(** ** The calls *)

Section Calls.
Context (ops : driver) `{!DriverOk ops} (K : gmap nat skel) (HK : links_ok K).

(** The locks a caller may hold: at most that of the substream. *)
Definition own_locks (s : nat) (H : gset lock) : Prop :=
  (pcm_link_lock ∉ H) /\ (forall b, b <> s -> runtime_lock b ∉ H).

Lemma own_locks_one s : own_locks s {[runtime_lock s]}.
Proof. split; [by intros [=]%elem_of_singleton | intros b Hb [=]%elem_of_singleton; done]. Qed.

Lemma ring_member_linked s rest b k :
  ring K s rest -> b ∈ rest -> K !! b = Some k -> sk_next k <> b.
Proof using HK.
  intros [N P] Hb Hk E. apply list_elem_of_split in Hb as (l1 & l2 & ->).
  rewrite <- app_assoc in P. simpl in P. apply path_app in P as [P _].
  destruct (path_pred K s (l1 ++ [b]) b P) as (c & Lc & _ & Hc);
    [apply elem_of_app; right; by left |].
  destruct Hc as [_ Hc].
  - rewrite app_comm_cons in N. rewrite app_comm_cons. rewrite NoDup_app in *.
    destruct N as (N & Hd & _). split; [done |]. split; [| apply NoDup_singleton].
    intros x Hx ->%list_elem_of_singleton. apply (Hd b Hx). by left.
  - apply Hc. eapply linked_prev_unique; [exact Lc |]. pose proof (lk_next _ HK b k Hk) as L. by rewrite E in L.
Qed.

Lemma first_failing_none pre w l b x :
  first_failing pre w l = None -> b ∈ l -> w_subs w !! b = Some x -> 0 <= pre (ss_rt x).
Proof.
  induction l as [| c l IH]; simpl; [by intros _ ?%elem_of_nil |].
  destruct (Z.ltb_spec (check pre w c) 0) as [| Hc]; [done |].
  intros Hn [-> | Hb]%elem_of_cons Hx; [| auto]. unfold check in Hc. by rewrite Hx in Hc.
Qed.

(** The members of a group that pass the checks of an operation are set up. *)
Lemma checked_geometry op w l b x k :
  configured w -> first_failing (op_check op) w l = None -> b ∈ l ->
  w_subs w !! b = Some x -> skeleton w !! b = Some k -> geometry_ok k.
Proof.
  intros Hc E Hb Hx Hk.
  assert (Hsx : states w !! b = Some (state_of x)) by (unfold states; by rewrite lookup_fmap, Hx).
  apply (Hc b (state_of x) k Hsx Hk). intros Ho.
  pose proof (first_failing_none _ _ _ _ _ E Hb Hx). pose proof (op_check_open op (ss_rt x) Ho). lia.
Qed.

Lemma safe_group op s H :
  is_Some (K !! s) -> own_locks s H -> safe K H H (run_op ops op s).
Proof using HK DriverOk0.
  intros Hs [Hl Ho] w W. pose proof W as [Hw Hh Hm Hc Ht]. destruct (ring_exists K s HK Hs) as [rest R].
  rewrite <- Hw in R. pose proof (group_op_spec ops op w s rest R Hm) as G.
  assert (Hfree : forall b, b ∈ rest -> runtime_lock b ∉ w_held w).
  { intros b Hb. rewrite Hh. apply Ho. intros ->. destruct R as [[Hn _]%NoDup_cons _]. done. }
  specialize (G ltac:(by rewrite Hh) Hfree).
  destruct (first_failing _ _ _) as [e |] eqn:E; [unfold wp; by rewrite G |].
  destruct G as (res & w' & Er & Hh' & Hsk & Hm' & _ & _ & Hout & Hin & Htr).
  unfold wp. rewrite Er. split; [congruence | congruence | done | |].
  - intros b st k Hst Hk Hno. rewrite Hsk in Hk. destruct (decide (b ∈ s :: rest)) as [Hb | Hb].
    + destruct (ring_subs _ _ _ _ R Hb) as [x Hx]. by eapply checked_geometry.
    + rewrite Hout in Hst by done. by eapply Hc.
  - rewrite Htr; [done |]. intros b Hb. destruct (ring_subs _ _ _ _ R Hb) as [x Hx].
    assert (Hk : skeleton w !! b = Some (skel_of x)) by (unfold skeleton; by rewrite lookup_fmap, Hx).
    exists (skel_of x). split; [done |]. by eapply checked_geometry.
Qed.

Lemma safe_change_state s g state H :
  K !! s = Some g -> geometry_ok g -> own_locks s H -> safe K H H (snd_pcm_change_state s state).
Proof using HK.
  intros Hs Hg [Hl Ho] w [Hw Hh Hm Hc Ht]. destruct (ring_exists K s HK ltac:(eauto)) as [rest R].
  assert (Hgeo : forall b k, b ∈ s :: rest -> K !! b = Some k -> geometry_ok k).
  { intros b k [-> | Hb]%elem_of_cons Hk; [congruence |].
    apply (lk_geometry K HK b k Hk). by eapply ring_member_linked. }
  rewrite <- Hw in R. eapply wp_mono; [apply (change_state_spec w s rest state R Hm) |].
  - by rewrite Hh.
  - intros b Hb. rewrite Hh. apply Ho. intros ->. destruct R as [[Hn _]%NoDup_cons _]. done.
  - intros _ w' (Hsk & Hh' & Hm' & Hout & Hin & Htr). split; [congruence | congruence | done | |].
    + intros b st k Hst Hk Hno. rewrite Hsk in Hk. destruct (decide (b ∈ s :: rest)) as [Hb | Hb].
      * rewrite Hw in Hk. by eapply Hgeo.
      * rewrite Hout in Hst by done. by eapply Hc.
    + rewrite Htr; [done |]. intros b Hb. destruct (ring_subs _ _ _ _ R Hb) as [x Hx].
      assert (Hk : skeleton w !! b = Some (skel_of x)) by (unfold skeleton; by rewrite lookup_fmap, Hx).
      exists (skel_of x). split; [done |]. rewrite Hw in Hk. by apply (Hgeo b).
Qed.

(** Reading a runtime and writing back an update of it. *)
Lemma safe_update {A B : Type} H s (f : snd_pcm_runtime -> A * snd_pcm_runtime) (k : A -> M B) H' :
  is_Some (K !! s) -> (forall r, mild r (f r).2) -> (forall a, safe K H H' (k a)) ->
  safe K H H' (r <- runtime s;; let '(a, r') := f r in modify s (fun _ => r');;; k a).
Proof.
  intros Hs Hf Hk w W. destruct (sound_sub K H w s W Hs) as [x Hx]. pose proof W as [Hw Hh Hm Hc Ht].
  unfold runtime. apply wp_bind, wp_bind, (wp_sub _ x); [done |]. apply wp_ret.
  specialize (Hf (ss_rt x)). destruct (f (ss_rt x)) as [a r']. simpl in Hf. destruct Hf as (A1 & A2 & A3 & A4).
  apply wp_bind, (wp_modify s x); [done |].
  set (y := x <| ss_rt := r' |>).
  destruct (put_shape w s x y Hx) as [B1 B2]; [unfold skel_of, y; simpl; by rewrite A2, A3, A4 |].
  apply Hk. split; [congruence | done | by apply (put_masters w s x); auto | | done].
  intros b st g. rewrite B1, B2, insert_id; [apply Hc |].
  unfold states, y, state_of. simpl. by rewrite lookup_fmap, Hx, A1.
Qed.

Lemma safe_poll s H : is_Some (K !! s) -> safe K H H (poll ops s).
Proof.
  intros Hs w W. unfold poll.
  assert (S : safe K H H (now <- snd_timestamp_now;;
    modify s (fun r => if truth (Z.land (rt_tstamp_mode r) TSTAMP_MMAP) then r <| rt_tstamp := now |> else r);;;
    ret (d_pointer ops s w))); [| by apply S].
  eapply safe_bind; [apply safe_now |]. intros now. eapply safe_bind; [| intros; apply safe_ret].
  apply safe_modify; [done |]. intros r. by destruct (truth _).
Qed.

Lemma safe_tick s g H : K !! s = Some g -> geometry_ok g -> safe K H H (tick s).
Proof.
  intros Hg G. eapply safe_bind; [by apply (safe_check K H s g), wanted_covered | intros _].
  apply safe_modify; [eauto | apply tick_if_wanted_mild].
Qed.

Lemma safe_update_hw_ptr s g H :
  K !! s = Some g -> geometry_ok g -> safe K H H (update_hw_ptr ops s).
Proof.
  intros Hg G. assert (Hs : is_Some (K !! s)) by eauto.
  eapply safe_bind; [by apply safe_poll |]. intros pos.
  eapply safe_bind; [apply (safe_check K H s g); [done | done | intros r; apply update_divisors_there] | intros _].
  apply (safe_update H s (snd_pcm_update_hw_ptr (d_silence ops) pos)); [done | | intros; apply safe_ret].
  intros r. apply update_hw_ptr_mild.
Qed.

Lemma safe_update_hw_ptr_interrupt s g H :
  K !! s = Some g -> geometry_ok g -> own_locks s H -> safe K H H (update_hw_ptr_interrupt ops s).
Proof using HK DriverOk0.
  intros Hg G Ho. assert (Hs : is_Some (K !! s)) by eauto.
  eapply safe_bind; [by apply safe_poll |]. intros pos.
  eapply safe_bind;
    [apply (safe_check K H s g); [done | done | intros r; apply interrupt_divisors_there] | intros _].
  apply (safe_update H s (snd_pcm_update_hw_ptr_interrupt (d_silence ops) pos)); [done | |].
  - intros r. pose proof (update_hw_ptr_interrupt_mild (d_silence ops) pos r) as Hi.
    destruct (snd_pcm_update_hw_ptr_interrupt _ _ _) as [[err stop] r']. apply Hi.
  - intros [err [state |]]; [| apply safe_ret].
    eapply safe_bind; [by apply (safe_group (GStop state)) | intros; apply safe_ret].
Qed.

Lemma safe_callback f s H :
  is_Some (K !! s) -> (forall g, f = Some g -> well_behaved g) -> safe K H H (callback f s).
Proof.
  intros Hs Hf. destruct f as [g |]; [| apply safe_ret]. apply safe_keeps; auto.
Qed.


(** Steps of a proof of safety that need no thought. *)
Ltac safe_step :=
  lazymatch goal with
  | |- safe _ _ _ (ret _) => apply safe_ret
  | |- safe _ _ _ (bind (sub _) _) => apply safe_sub; [done | intros ? ? ? ?]
  | |- safe _ _ _ (bind (runtime _) _) => apply safe_runtime; [done | intros ? ? ? ?]
  | |- safe _ _ _ (bind _ _) => eapply safe_bind; [| intros ?]
  | |- safe _ _ _ (spin_lock _) => apply safe_lock; done
  | |- safe _ _ _ (spin_unlock _) => apply safe_unlock; done
  | |- safe _ _ _ snd_timestamp_now => apply safe_now
  | |- safe _ _ _ (when _ _) => apply safe_when
  | |- safe _ _ _ (if ?b then _ else _) => destruct b eqn:?
  | |- safe _ _ _ (tick ?s) =>
      match goal with
      | Hg : K !! s = Some ?g, G : geometry_ok ?g |- _ => apply (safe_tick s g _ Hg G)
      end
  | |- safe _ _ _ (modify _ _) => apply safe_modify; [done | done]
  | |- safe _ _ _ (callback _ _) =>
      apply safe_callback; [done | first [apply dk_ack_begin | apply dk_ack_end]]
  | |- safe _ _ _ (d_timer_interrupt _ _) => apply safe_keeps; [apply dk_timer_interrupt | done]
  | |- safe _ _ _ (d_kill_fasync _ _) => apply safe_keeps; [apply dk_kill_fasync | done]
  | |- safe _ _ _ (match rt_state ?r with _ => _ end) => destruct (rt_state r) eqn:?
  | |- safe _ _ _ (snd_pcm_start _ _) => apply (safe_group GStart); [done |]
  | |- safe _ _ _ (snd_pcm_stop _ _ ?state) => apply (safe_group (GStop state)); [done |]
  | |- safe _ _ _ (snd_pcm_pause _ _ ?push) => apply (safe_group (GPause push)); [done |]
  | |- safe _ _ _ (snd_pcm_change_state ?s ?state) =>
      match goal with
      | Hg : K !! s = Some ?g, G : geometry_ok ?g |- _ => apply (safe_change_state s g state _ Hg G)
      end
  | |- safe _ _ _ (update_hw_ptr _ ?s) =>
      match goal with
      | Hg : K !! s = Some ?g, G : geometry_ok ?g |- _ => apply (safe_update_hw_ptr s g _ Hg G)
      end
  | |- safe _ _ _ (update_hw_ptr_interrupt _ ?s) =>
      match goal with
      | Hg : K !! s = Some ?g, G : geometry_ok ?g |- _ => apply (safe_update_hw_ptr_interrupt s g _ Hg G)
      end
  end.

Lemma own_locks_self s : own_locks s ({[runtime_lock s]} ∪ ∅).
Proof. rewrite union_empty_r_L. apply own_locks_one. Qed.

Ltac safe_auto := repeat (safe_step; try apply own_locks_self).

(** A runtime that is set up has its geometry. *)
Ltac geometry :=
  match goal with
  | H : rt_state ?r <> OPEN -> geometry_ok ?g, E : rt_state ?r = _ |- _ =>
      let G := fresh "G" in assert (G : geometry_ok g) by (apply H; congruence); clear H
  | H : rt_state ?r <> OPEN -> geometry_ok ?g, E : snd_pcm_running ?r = true |- _ =>
      let G := fresh "G" in assert (G : geometry_ok g) by (apply H; by apply running_not_open); clear H
  | H : ?x <> OPEN -> geometry_ok ?g |- _ =>
      let G := fresh "G" in assert (G : geometry_ok g) by (apply H; congruence); clear H
  end.

Lemma safe_tick_elapsed s : is_Some (K !! s) -> safe K ∅ ∅ (snd_pcm_tick_elapsed ops s).
Proof using HK DriverOk0.
  intros Hs. unfold snd_pcm_tick_elapsed.
  eapply safe_bind; [by apply safe_lock | intros _]. apply safe_runtime; [done |]. intros r g Hg Gr.
  eapply (safe_bind K _ ({[runtime_lock s]} ∪ ∅)); [| intros; safe_auto].
  destruct (snd_pcm_running r) eqn:E; [| apply safe_ret]. simpl. geometry. safe_auto.
Qed.

Lemma safe_period_elapsed s : is_Some (K !! s) -> safe K ∅ ∅ (snd_pcm_period_elapsed ops s).
Proof using HK DriverOk0.
  intros Hs. unfold snd_pcm_period_elapsed. eapply safe_bind; [safe_auto | intros _].
  eapply safe_bind; [by apply safe_lock | intros _]. apply safe_runtime; [done |]. intros r g Hg Gr.
  eapply (safe_bind K _ ({[runtime_lock s]} ∪ ∅)); [| intros; safe_auto].
  destruct (snd_pcm_running r) eqn:E; [| apply safe_ret]. simpl. geometry. safe_auto.
Qed.

Lemma safe_irqs l :
  (forall b, b ∈ l -> is_Some (K !! b)) -> safe K ∅ ∅ (irqs_arrive ops l).
Proof using HK DriverOk0.
  induction l as [| b l IH]; intros Hl; simpl; [apply safe_ret |].
  eapply safe_bind; [apply safe_period_elapsed, Hl; by left |].
  intros _. apply IH. intros c Hc. apply Hl. by right.
Qed.

Definition irqs_in (wakes : list (list nat)) (last : drain_end) : Prop :=
  (forall l b, l ∈ wakes -> b ∈ l -> is_Some (K !! b)) /\
  match last with DrainSignal => True | DrainTimeout l => forall b, b ∈ l -> is_Some (K !! b) end.

Lemma safe_drain_wait s wakes last :
  is_Some (K !! s) -> irqs_in wakes last ->
  safe K ({[runtime_lock s]} ∪ ∅) ({[runtime_lock s]} ∪ ∅) (drain_wait ops s wakes last).
Proof using HK DriverOk0.
  intros Hs. induction wakes as [| irqs wakes IH]; intros [Hw Hl]; simpl.
  - destruct last as [| irqs]; [apply safe_ret |].
    eapply safe_bind; [by apply safe_unlock | intros _].
    eapply safe_bind; [by apply safe_irqs | intros _]. safe_auto.
  - eapply safe_bind; [by apply safe_unlock | intros _].
    eapply safe_bind; [apply safe_irqs; intros b Hb; apply (Hw irqs); [by left | done] | intros _].
    safe_auto. apply IH. split; [| done]. intros l b Hl' Hb. apply (Hw l); [by right | done].
Qed.

Lemma safe_drain_running s g wakes last :
  K !! s = Some g -> geometry_ok g -> irqs_in wakes last ->
  safe K ({[runtime_lock s]} ∪ ∅) ({[runtime_lock s]} ∪ ∅) (drain_running ops s wakes last).
Proof using HK DriverOk0.
  intros Hg G Hi. assert (Hs : is_Some (K !! s)) by eauto.
  unfold drain_running. cbv zeta. safe_auto; by apply safe_drain_wait.
Qed.

Lemma safe_playback_drain s wakes last :
  is_Some (K !! s) -> irqs_in wakes last -> safe K ∅ ∅ (snd_pcm_playback_drain ops s wakes last).
Proof using HK DriverOk0.
  intros Hs Hi. unfold snd_pcm_playback_drain.
  apply safe_runtime; [done |]. intros r g Hg Gr. destruct (negb _); [apply safe_ret |].
  eapply safe_bind; [by apply safe_lock | intros _].
  eapply (safe_bind K _ ({[runtime_lock s]} ∪ ∅)); [| intros res; safe_auto].
  destruct (rt_state r) eqn:E; try (geometry; safe_auto); try (by eapply safe_drain_running).
  all: apply safe_ret.
Qed.

Lemma safe_drop_running s g :
  K !! s = Some g -> geometry_ok g ->
  safe K ({[runtime_lock s]} ∪ ∅) ({[runtime_lock s]} ∪ ∅) (drop_running ops s).
Proof using HK DriverOk0.
  intros Hg G. assert (Hs : is_Some (K !! s)) by eauto. unfold drop_running. safe_auto.
Qed.

Lemma safe_playback_drop s : is_Some (K !! s) -> safe K ∅ ∅ (snd_pcm_playback_drop ops s).
Proof using HK DriverOk0.
  intros Hs. unfold snd_pcm_playback_drop.
  eapply safe_bind; [by apply safe_lock | intros _].
  apply safe_runtime; [done |]. intros r g Hg Gr.
  eapply (safe_bind K _ ({[runtime_lock s]} ∪ ∅)); [| intros res; safe_auto].
  destruct (rt_state r) eqn:E; try (geometry; safe_auto); try (by eapply safe_drop_running).
  apply safe_ret.
Qed.

Lemma safe_capture_drain s : is_Some (K !! s) -> safe K ∅ ∅ (snd_pcm_capture_drain ops s).
Proof using HK DriverOk0.
  intros Hs. unfold snd_pcm_capture_drain.
  eapply safe_bind; [by apply safe_lock | intros _].
  apply safe_runtime; [done |]. intros r g Hg Gr.
  eapply (safe_bind K _ ({[runtime_lock s]} ∪ ∅)); [| intros res; safe_auto].
  destruct (rt_state r) eqn:E; try (geometry; safe_auto). apply safe_ret.
Qed.

Lemma safe_capture_drop s : is_Some (K !! s) -> safe K ∅ ∅ (snd_pcm_capture_drop ops s).
Proof using HK DriverOk0.
  intros Hs. unfold snd_pcm_capture_drop.
  eapply safe_bind; [by apply safe_lock | intros _].
  apply safe_runtime; [done |]. intros r g Hg Gr.
  eapply (safe_bind K _ ({[runtime_lock s]} ∪ ∅)); [| intros res; safe_auto].
  destruct (rt_state r) eqn:E; try (geometry; safe_auto). apply safe_ret.
Qed.

Lemma safe_under_lock op s :
  is_Some (K !! s) ->
  safe K ({[runtime_lock s]} ∪ ∅) ({[runtime_lock s]} ∪ ∅) (op s) -> safe K ∅ ∅ (under_lock op s).
Proof.
  intros Hs Ho. unfold under_lock. eapply safe_bind; [by apply safe_lock | intros _].
  eapply (safe_bind K _ ({[runtime_lock s]} ∪ ∅)); [done | intros res]. safe_auto.
Qed.

Lemma safe_rewind_by s g hw_avail frames H :
  K !! s = Some g -> geometry_ok g -> safe K H H (rewind_by s hw_avail frames).
Proof.
  intros Hg G. assert (Hs : is_Some (K !! s)) by eauto.
  unfold rewind_by. cbv zeta. destruct (_ <=? 0); [apply safe_ret |].
  eapply safe_bind; [apply (safe_check K H s g); [done | done |] | intros _].
  - intros r (_ & _ & _ & _ & Hx & _)%divisors_there_spec. destruct (_ <? _); [done |]. simpl. by rewrite Hx.
  - apply safe_runtime; [done |]. intros r g' _ _. safe_auto.
Qed.

Lemma safe_playback_rewind s frames : is_Some (K !! s) -> safe K ∅ ∅ (snd_pcm_playback_rewind ops s frames).
Proof.
  intros Hs. unfold snd_pcm_playback_rewind. cbv zeta. destruct (frames =? 0); [apply safe_ret |].
  eapply safe_bind; [by apply safe_lock | intros _]. apply safe_runtime; [done |]. intros r g Hg Gr.
  eapply (safe_bind K _ ({[runtime_lock s]} ∪ ∅)); [| intros res; safe_auto].
  destruct (rt_state r) eqn:E; try apply safe_ret; geometry; safe_auto; by apply (safe_rewind_by s g).
Qed.

Lemma safe_capture_rewind s frames : is_Some (K !! s) -> safe K ∅ ∅ (snd_pcm_capture_rewind ops s frames).
Proof.
  intros Hs. unfold snd_pcm_capture_rewind. cbv zeta. destruct (frames =? 0); [apply safe_ret |].
  eapply safe_bind; [by apply safe_lock | intros _]. apply safe_runtime; [done |]. intros r g Hg Gr.
  eapply (safe_bind K _ ({[runtime_lock s]} ∪ ∅)); [| intros res; safe_auto].
  destruct (rt_state r) eqn:E; try apply safe_ret; geometry; safe_auto; by apply (safe_rewind_by s g).
Qed.

Lemma safe_playback_delay s : is_Some (K !! s) -> safe K ∅ ∅ (snd_pcm_playback_delay ops s).
Proof.
  intros Hs. unfold snd_pcm_playback_delay. cbv zeta.
  eapply safe_bind; [by apply safe_lock | intros _]. apply safe_runtime; [done |]. intros r g Hg Gr.
  eapply (safe_bind K _ ({[runtime_lock s]} ∪ ∅)); [| intros res; safe_auto].
  destruct (rt_state r) eqn:E; try apply safe_ret; geometry; safe_auto.
Qed.

Lemma safe_capture_delay s : is_Some (K !! s) -> safe K ∅ ∅ (snd_pcm_capture_delay ops s).
Proof.
  intros Hs. unfold snd_pcm_capture_delay.
  eapply safe_bind; [by apply safe_lock | intros _]. apply safe_runtime; [done |]. intros r g Hg Gr.
  eapply (safe_bind K _ ({[runtime_lock s]} ∪ ∅)); [| intros res; safe_auto].
  destruct (rt_state r) eqn:E; try apply safe_ret; geometry; safe_auto.
Qed.

Lemma sw_params_apply_mild r : mild r (sw_params_apply ops r).
Proof.
  unfold sw_params_apply. destruct (snd_pcm_running r); [| done]. cbv zeta.
  transitivity (silence_if_wanted ops (if truth (rt_sleep_min r) then snd_pcm_tick_prepare r
                                       else snd_pcm_tick_set r 0)); [| done].
  etransitivity; [| apply silence_if_wanted_mild].
  destruct (truth _); [apply tick_prepare_mild | done].
Qed.

Lemma apply_covered : covered (apply_divisors ops).
Proof.
  intros r Hr. unfold apply_divisors. destruct (snd_pcm_running r); [| done].
  rewrite forallb_app, (wanted_covered r Hr). by apply silence_divisors_there.
Qed.

(** Accepted parameters have a transfer alignment, so the divisors stay there. *)
Lemma sw_params_store_mild p r0 r :
  sw_params_ok p r0 = true -> divisors_there r = true -> mild r (sw_params_store p r).
Proof.
  unfold sw_params_ok. rewrite !andb_true_iff. intros (((_ & Hx) & _) & _) Hd.
  split; [done |]. split; [done |]. split; [done |]. rewrite Hd.
  apply divisors_there_spec. apply divisors_there_spec in Hd as (? & ? & ? & ? & _ & ?). done.
Qed.

Lemma safe_sw_params s p : is_Some (K !! s) -> safe K ∅ ∅ (snd_pcm_sw_params_call ops s p).
Proof.
  intros Hs. unfold snd_pcm_sw_params_call. apply safe_runtime_there; [done |]. intros r g Hg Gr Hd.
  destruct (state_is _ _) eqn:E; [apply safe_ret |]. apply bool_decide_eq_false in E.
  geometry. pose proof (Hd G) as Hd'.
  eapply safe_bind; [apply safe_divides | intros _].
  { unfold sw_params_divisors. apply divisors_there_spec in Hd' as (Hm & _).
    destruct (_ && _); [simpl; by rewrite Hm | done]. }
  destruct (sw_params_ok p r) eqn:Eok; [| apply safe_ret].
  eapply safe_bind; [apply (safe_modify_there K ∅ s g); [done | done |] | intros _].
  { intros r'. by apply (sw_params_store_mild p r). }
  eapply safe_bind; [by apply safe_lock | intros _].
  eapply safe_bind; [by apply (safe_check K _ s g), apply_covered | intros _].
  eapply (safe_bind K _ ({[runtime_lock s]} ∪ ∅)); [| intros res; safe_auto].
  apply safe_modify; [done | apply sw_params_apply_mild].
Qed.

Lemma safe_status s : is_Some (K !! s) -> safe K ∅ ∅ (snd_pcm_status_call ops s).
Proof.
  intros Hs. unfold snd_pcm_status_call. cbv zeta.
  eapply safe_bind; [by apply safe_lock | intros _]. apply safe_sub; [done |]. intros x g Hg Gr.
  destruct (state_is _ _) eqn:E.
  - eapply (safe_bind K _ ∅); [by apply safe_unlock | intros; apply safe_ret].
  - apply bool_decide_eq_false in E.
    assert (G : geometry_ok g) by (by apply Gr).
    eapply (safe_bind K _ ({[runtime_lock s]} ∪ ∅)); [safe_auto | intros _].
    eapply safe_bind; [apply safe_now | intros now]. apply safe_runtime; [done |]. intros r g' _ _.
    eapply safe_bind; [by apply safe_modify | intros _]. safe_auto.
Qed.

Lemma safe_open s H : is_Some (K !! s) -> safe K H H (modify s (set_state OPEN)).
Proof. intros Hs. apply safe_modify_sub; [done |]. intros x _. split; [done |]. split; [by right | done]. Qed.

Lemma safe_hw_free s H : is_Some (K !! s) -> safe K H H (snd_pcm_hw_free ops s).
Proof using DriverOk0.
  intros Hs. unfold snd_pcm_hw_free. apply safe_runtime; [done |]. intros r g _ _.
  destruct (rt_state r); try apply safe_ret.
  all: destruct (truth _); [apply safe_ret |]; destruct (d_hw_free ops) as [f |] eqn:E; [| apply safe_ret].
  all: eapply safe_bind; [apply safe_keeps; [by apply dk_hw_free | done] | intros res].
  all: eapply safe_bind; [by apply safe_open | intros; apply safe_ret].
Qed.
End Calls.
