(* ===== verification/PcmLink.v ===== *)
(** * PcmLink: linking and unlinking

    Link groups are rings of next and previous pointers; [snd_pcm_link] splices the ring of
    one substream into another's and [snd_pcm_unlink] takes one substream out.  With the
    other calls they keep the invariants of the world. *)

From S2P Require Import Prelude Interval Mask HwParams HwChoose PcmRuntime PcmRing.
From S2P Require Import PcmTimer PcmState PcmOps PcmSafe.
Open Scope Z_scope.

(** ** The two pointer maps *)

Definition nexts (K : gmap nat skel) : gmap nat nat := sk_next <$> K.
Definition prevs (K : gmap nat skel) : gmap nat nat := sk_prev <$> K.
Definition geometries (K : gmap nat skel) : gmap nat (Z * Z * bool) :=
  (fun k => (sk_buffer k, sk_boundary k, sk_divisors k)) <$> K.

Definition good_geometry (g : Z * Z * bool) : Prop := geometry_ok (Skel 0 0 g.1.1 g.1.2 g.2).

Lemma linked_maps K a b : linked K a b <-> nexts K !! a = Some b /\ prevs K !! b = Some a.
Proof.
  unfold linked, nexts, prevs. rewrite !lookup_fmap, !fmap_Some. split.
  - intros (x & y & ? & ? & ? & ?). split; eauto.
  - intros [(x & ? & ?) (y & ? & ?)]. exists x, y. done.
Qed.

(** [links_ok] without geometry: the maps are inverse to each other. *)
Lemma links_ok_maps K :
  links_ok K <->
  (forall a b, nexts K !! a = Some b <-> prevs K !! b = Some a) /\
  (forall a b g, nexts K !! a = Some b -> a <> b -> geometries K !! a = Some g ->
     good_geometry g).
Proof.
  split.
  - intros [N P G]. split.
    + intros a b. unfold nexts, prevs. rewrite !lookup_fmap, !fmap_Some. split.
      * intros (x & Hx & ->). destruct (N a x Hx) as (? & y & ? & Hy & _ & E). eauto.
      * intros (y & Hy & ->). destruct (P b y Hy) as (x & ? & Hx & _ & E & _). eauto.
    + intros a b g. unfold nexts, geometries. rewrite !lookup_fmap, !fmap_Some.
      intros (x & Hx & ->) Hn (y & Hy & ->). simplify_eq. exact (G a x Hx (not_eq_sym Hn)).
  - intros [I G]. split.
    + intros a x Hx. apply linked_maps. assert (E : nexts K !! a = Some (sk_next x))
        by (unfold nexts; by rewrite lookup_fmap, Hx). split; [done | by apply I].
    + intros a x Hx. apply linked_maps. assert (E : prevs K !! a = Some (sk_prev x))
        by (unfold prevs; by rewrite lookup_fmap, Hx). split; [by apply I | done].
    + intros a x Hx Hn. apply (G a (sk_next x) (sk_buffer x, sk_boundary x, sk_divisors x)).
      * unfold nexts. by rewrite lookup_fmap, Hx.
      * congruence.
      * unfold geometries. by rewrite lookup_fmap, Hx.
Qed.

Lemma maps_dom K a : is_Some (K !! a) <-> is_Some (nexts K !! a).
Proof. unfold nexts. rewrite lookup_fmap. destruct (K !! a); simpl; split; intros [? ?]; eauto; done. Qed.

(** ** Writing a pointer *)

(** A world that differs in the pointer maps only. *)
Record relinked (w w' : world) (N P : gmap nat nat) : Prop := {
  re_nexts : nexts (skeleton w') = N;
  re_prevs : prevs (skeleton w') = P;
  re_geometries : geometries (skeleton w') = geometries (skeleton w);
  re_states : states w' = states w;
  re_held : w_held w' = w_held w;
  re_masters : masters_ok w -> masters_ok w';
  re_trapped : w_trapped w' = w_trapped w }.

Lemma relinked_trans w w1 w2 N1 P1 N2 P2 :
  relinked w w1 N1 P1 -> relinked w1 w2 N2 P2 -> relinked w w2 N2 P2.
Proof.
  intros [A B C D E F G] [A' B' C' D' E' F' G'].
  split; [done | done | congruence | congruence | congruence | auto | congruence].
Qed.

Lemma put_pointer w s x y :
  w_subs w !! s = Some x -> ss_rt y = ss_rt x -> ss_trigger_master y = ss_trigger_master x ->
  relinked w (w <| w_subs := <[s := y]> (w_subs w) |>)
    (<[s := ss_link_next y]> (nexts (skeleton w))) (<[s := ss_link_prev y]> (prevs (skeleton w))).
Proof.
  intros Hx Er Em. assert (Ek : skeleton (w <| w_subs := <[s := y]> (w_subs w) |>)
                                = <[s := skel_of y]> (skeleton w))
    by (unfold skeleton; simpl; by rewrite fmap_insert).
  split; rewrite ?Ek.
  - unfold nexts. by rewrite fmap_insert.
  - unfold prevs. by rewrite fmap_insert.
  - unfold geometries. rewrite fmap_insert. apply insert_id.
    unfold skeleton. rewrite !lookup_fmap, Hx. simpl. by rewrite Er.
  - unfold states. simpl. rewrite fmap_insert. apply insert_id.
    rewrite lookup_fmap, Hx. simpl. unfold state_of. by rewrite Er.
  - done.
  - intros Hm. apply (put_masters w s x y); auto.
  - done.
Qed.

Lemma pointers w s x :
  w_subs w !! s = Some x ->
  nexts (skeleton w) !! s = Some (ss_link_next x) /\ prevs (skeleton w) !! s = Some (ss_link_prev x).
Proof. intros Hx. unfold nexts, prevs, skeleton. by rewrite !lookup_fmap, Hx. Qed.

Lemma set_next_spec w s n :
  is_Some (nexts (skeleton w) !! s) ->
  wp (set_next s n) (fun _ w' => relinked w w' (<[s := n]> (nexts (skeleton w))) (prevs (skeleton w))) w.
Proof.
  intros [k Hk]%maps_dom.
  destruct (skeleton_sub _ _ _ Hk) as (x & Hx & _). apply (wp_modify_sub s x); [done |].
  destruct (pointers w s x Hx) as [_ Hp].
  rewrite <- (insert_id (prevs (skeleton w)) s _ Hp).
  set (y := x <| ss_link_next := n |>). exact (put_pointer w s x y Hx eq_refl eq_refl).
Qed.

Lemma set_prev_spec w s p :
  is_Some (nexts (skeleton w) !! s) ->
  wp (set_prev s p) (fun _ w' => relinked w w' (nexts (skeleton w)) (<[s := p]> (prevs (skeleton w)))) w.
Proof.
  intros [k Hk]%maps_dom.
  destruct (skeleton_sub _ _ _ Hk) as (x & Hx & _). apply (wp_modify_sub s x); [done |].
  destruct (pointers w s x Hx) as [Hn _].
  rewrite <- (insert_id (nexts (skeleton w)) s _ Hn).
  set (y := x <| ss_link_prev := p |>). exact (put_pointer w s x y Hx eq_refl eq_refl).
Qed.

(** ** The pointer maps stay inverse *)

Definition inverse (N P : gmap nat nat) : Prop := forall a b, N !! a = Some b <-> P !! b = Some a.

Lemma inverse_inj N P a a' b : inverse N P -> N !! a = Some b -> N !! a' = Some b -> a = a'.
Proof. intros I Ha%I Ha'%I. congruence. Qed.

(** Case analysis on the keys of nested insertions. *)
Ltac insert_cases :=
  repeat match goal with
  | |- context [<[?i := _]> _ !! ?j] =>
      destruct (decide (i = j)) as [? | ?];
        [subst; rewrite lookup_insert_eq | rewrite (lookup_insert_ne _ i j) by done]
  end.

(** Exchanging the successors of two elements. *)
Lemma swap_inverse N P s n p m :
  inverse N P -> N !! s = Some n -> N !! p = Some m ->
  inverse (<[s := m]> (<[p := n]> N)) (<[m := s]> (<[n := p]> P)).
Proof.
  intros I Hs Hp.
  assert (U : forall a a' b, N !! a = Some b -> N !! a' = Some b -> a = a')
    by (intros; by eapply inverse_inj).
  unfold inverse in I. pose proof (U s p m) as U1. pose proof (U p s n) as U2.
  intros a b. pose proof (U a s b) as U3. pose proof (U a p b) as U4.
  insert_cases; split; intros E; try rewrite <- I in E; try rewrite <- I; try congruence;
    try (f_equal; intuition congruence);
    exfalso; try (injection E as E; subst); intuition congruence.
Qed.

(** ** Paths in the next map *)

Fixpoint route (N : gmap nat nat) (a : nat) (l : list nat) : Prop :=
  match l with
  | [] => True
  | b :: l => N !! a = Some b /\ route N b l
  end.

Lemma path_route K a l : inverse (nexts K) (prevs K) -> path K a l <-> route (nexts K) a l.
Proof.
  intros I. revert a. induction l as [| b l IH]; intros a; simpl; [done |].
  rewrite IH, linked_maps, <- (I a b). tauto.
Qed.

Lemma route_app N a l b l' : route N a (l ++ b :: l') <-> route N a (l ++ [b]) /\ route N b l'.
Proof. revert a. induction l as [| c l IH]; intros a; simpl; [tauto |]. rewrite IH. tauto. Qed.

(** An insertion at a key the route does not leave from. *)
Lemma route_insert N a l z k v :
  k ∉ a :: l -> route N a (l ++ [z]) -> route (<[k := v]> N) a (l ++ [z]).
Proof.
  revert a. induction l as [| b l IH]; intros a; simpl; intros [Ha Hl]%not_elem_of_cons.
  - intros [H _]. by rewrite lookup_insert_ne.
  - intros [H R]. rewrite lookup_insert_ne by done. auto.
Qed.

(** Sending the last element of a route elsewhere. *)
Lemma route_redirect N a l z p v :
  NoDup (a :: l) -> last (a :: l) = Some p -> route N a (l ++ [z]) ->
  route (<[p := v]> N) a (l ++ [v]).
Proof.
  revert a. induction l as [| b l IH]; intros a Nd Hp; simpl.
  - injection Hp as ->. intros _. by rewrite lookup_insert_eq.
  - intros [H R]. apply NoDup_cons in Nd as [Ha Nd].
    change (last (a :: b :: l)) with (last (b :: l)) in Hp.
    rewrite lookup_insert_ne; [split; [done | by apply IH] |].
    intros ->. apply Ha. apply last_Some in Hp as [l' ->]. apply elem_of_app. right. by left.
Qed.

Lemma route_last N a l z : route N a (l ++ [z]) -> exists p, last (a :: l) = Some p /\ N !! p = Some z.
Proof.
  revert a. induction l as [| b l IH]; intros a; simpl.
  - intros [H _]. eauto.
  - intros [_ R]. by apply IH.
Qed.

(** ** Linking *)

Lemma sub_pointers w s n :
  nexts (skeleton w) !! s = Some n ->
  exists x, w_subs w !! s = Some x /\ ss_link_next x = n /\ prevs (skeleton w) !! s = Some (ss_link_prev x).
Proof.
  intros Hn. destruct (proj2 (maps_dom (skeleton w) s) ltac:(eauto)) as [k Hk].
  destruct (skeleton_sub _ _ _ Hk) as (x & Hx & _). destruct (pointers w s x Hx) as [A B].
  exists x. split; [done |]. split; [congruence | done].
Qed.

Lemma splice_spec w s s1 n p :
  links_ok (skeleton w) -> nexts (skeleton w) !! s = Some n -> nexts (skeleton w) !! p = Some s1 -> p <> s ->
  wp (splice s s1)
    (fun _ w' => relinked w w' (<[s := s1]> (<[p := n]> (nexts (skeleton w))))
                               (<[s1 := s]> (<[n := p]> (prevs (skeleton w))))) w.
Proof.
  intros [I _]%links_ok_maps Hs Hp Hps. pose proof (proj1 (I _ _) Hs) as Hn. pose proof (proj1 (I _ _) Hp) as Hs1.
  set (N := nexts (skeleton w)) in *. set (P := prevs (skeleton w)) in *.
  assert (Hnext : forall b a, P !! b = Some a -> is_Some (N !! b)).
  { intros b a Hb. unfold N. apply maps_dom. unfold P, prevs in Hb. rewrite lookup_fmap in Hb.
    destruct (skeleton w !! b); [eauto | done]. }
  destruct (Hnext s1 p Hs1) as [n1 Hn1]. destruct (Hnext n s Hn) as [nn Hnn].
  destruct (sub_pointers w s n Hs) as (x & Hx & Ex & _).
  destruct (sub_pointers w s1 n1 Hn1) as (x1 & Hx1 & _ & Ex1).
  assert (ss_link_prev x1 = p) as Ep by (fold P in Ex1; congruence).
  unfold splice. apply wp_bind, (wp_sub _ x1); [done |]. apply wp_bind, (wp_sub _ x); [done |].
  rewrite Ex, Ep. apply wp_bind.
  eapply wp_mono; [apply (set_next_spec w p n); fold N; eauto |]. intros [] w1 R1.
  fold N P in R1. pose proof (re_nexts _ _ _ _ R1) as N1. pose proof (re_prevs _ _ _ _ R1) as P1.
  assert (Hs' : nexts (skeleton w1) !! s = Some n) by (rewrite N1, lookup_insert_ne; done).
  destruct (sub_pointers w1 s n Hs') as (y & Hy & Ey & _).
  assert (H1' : is_Some (nexts (skeleton w1) !! s1)).
  { rewrite N1. destruct (decide (p = s1)) as [-> |]; [rewrite lookup_insert_eq; eauto |].
    rewrite lookup_insert_ne; eauto. }
  destruct H1' as [m1 Hm1]. destruct (sub_pointers w1 s1 m1 Hm1) as (y1 & Hy1 & _ & Ey1).
  assert (ss_link_prev y1 = p) as Ep' by (rewrite P1 in Ey1; congruence).
  apply wp_bind, (wp_sub _ y); [done |]. apply wp_bind, (wp_sub _ y1); [done |]. rewrite Ey, Ep'.
  assert (Hdom : forall w' N' P' b, relinked w w' N' P' -> is_Some (N !! b) ->
                   is_Some (nexts (skeleton w') !! b)).
  { intros w' N' P' b R Hb. apply maps_dom. apply maps_dom in Hb as [k Hk].
    pose proof (f_equal (.!! b) (re_geometries _ _ _ _ R)) as E. unfold geometries in E.
    rewrite !lookup_fmap, Hk in E. destruct (skeleton w' !! b); [eauto | done]. }
  apply wp_bind. eapply wp_mono; [apply (set_prev_spec w1 n p); eapply Hdom; eauto |]. intros [] w2 R2.
  rewrite N1, P1 in R2. pose proof (relinked_trans _ _ _ _ _ _ _ R1 R2) as R12.
  apply wp_bind. eapply wp_mono; [apply (set_next_spec w2 s s1); eapply Hdom; eauto |]. intros [] w3 R3.
  rewrite (re_nexts _ _ _ _ R2), (re_prevs _ _ _ _ R2) in R3.
  pose proof (relinked_trans _ _ _ _ _ _ _ R12 R3) as R13.
  eapply wp_mono; [apply (set_prev_spec w3 s1 s); eapply Hdom; eauto |]. intros [] w4 R4.
  rewrite (re_nexts _ _ _ _ R3), (re_prevs _ _ _ _ R3) in R4. by eapply relinked_trans.
Qed.

Lemma in_group_spec w s target : forall todo a fuel,
  path (skeleton w) a (todo ++ [s]) -> s ∉ todo -> (length todo < fuel)%nat ->
  in_group fuel s target a w = Some (bool_decide (target ∈ a :: todo), w).
Proof.
  induction todo as [| b todo IH]; intros a fuel P Hs Hf;
    (destruct fuel as [| fuel]; [simpl in Hf; lia |]); destruct P as [L P]; cbn [in_group].
  all: destruct (Nat.eqb_spec a target) as [-> | Ha];
    [rewrite bool_decide_true by (by left); done |].
  all: destruct (linked_left _ _ _ L) as [x Hx];
    rewrite (bind_some _ _ _ x w) by (unfold sub; by rewrite Hx); rewrite (linked_next _ _ _ _ L Hx).
  - rewrite Nat.eqb_refl. rewrite bool_decide_false; [done |].
    rewrite list_elem_of_singleton. congruence.
  - apply not_elem_of_cons in Hs as [Hsb Hs]. destruct (Nat.eqb_spec b s); [congruence |].
    rewrite IH; [| done | done | simpl in Hf; lia]. do 2 f_equal.
    apply bool_decide_ext. rewrite (elem_of_cons (b :: todo)). split; [by right |]. intros [|]; [congruence | done].
Qed.

(** Two rings become one. *)
Lemma splice_ring N s A s1 B n p :
  NoDup (s :: A ++ s1 :: B) -> route N s (A ++ [s]) -> route N s1 (B ++ [s1]) ->
  N !! s = Some n -> last (s1 :: B) = Some p ->
  route (<[s := s1]> (<[p := n]> N)) s ((s1 :: B ++ A) ++ [s]).
Proof.
  intros Nd RA RB Hn Hp.
  assert (HsA : (s ∉ A) /\ (s ∉ s1 :: B)) by (apply NoDup_cons in Nd as [? _]; by apply not_elem_of_app).
  assert (Hd : forall x, x ∈ A -> (x ∉ s1 :: B) /\ x <> s).
  { apply NoDup_cons in Nd as [Hs (_ & Hd & _)%NoDup_app]. intros x Hx. split; [by apply Hd |].
    intros ->. apply Hs, elem_of_app. by left. }
  assert (NdB : NoDup (s1 :: B)) by (apply NoDup_cons in Nd as [_ (_ & _ & ?)%NoDup_app]; done).
  assert (Hps : p ∈ s1 :: B) by (apply last_Some in Hp as [l' ->]; apply elem_of_app; right; by left).
  rewrite <- app_comm_cons, <- app_assoc. simpl. rewrite lookup_insert_eq. split; [done |].
  assert (Hhead : exists A', A ++ [s] = n :: A').
  { destruct A as [| a A]; simpl in RA |- *; destruct RA as [E _]; rewrite Hn in E; injection E as ->; eauto. }
  destruct Hhead as [A' EA]. rewrite EA. apply route_app. split.
  - apply route_insert; [apply HsA |]. eapply route_redirect; eauto.
  - destruct A as [| a A]; simpl in EA; injection EA as -> <-; [done |].
    simpl in RA. destruct RA as [_ RA].
    apply route_insert; [intros Hin; destruct (Hd s Hin); done |].
    apply route_insert; [intros Hin; by destruct (Hd p Hin) | done].
Qed.

Lemma relinked_links_ok w w' N P :
  links_ok (skeleton w) -> relinked w w' N P -> inverse N P ->
  (forall a b g, N !! a = Some b -> a <> b -> geometries (skeleton w) !! a = Some g ->
     good_geometry g) ->
  links_ok (skeleton w').
Proof.
  intros _ [<- <- Eg _ _ _ _] I G. apply links_ok_maps. split; [exact I |]. by rewrite Eg.
Qed.

Lemma geometry_of w s st g :
  configured w -> states w !! s = Some st -> st <> OPEN -> geometries (skeleton w) !! s = Some g ->
  good_geometry g.
Proof.
  intros Hc Hst Hno. unfold geometries. rewrite lookup_fmap, fmap_Some. intros (k & Hk & ->).
  exact (Hc s st k Hst Hk Hno).
Qed.

Lemma relinked_configured w w' N P : relinked w w' N P -> configured w -> configured w'.
Proof.
  intros [_ _ Eg Es _ _ _] Hc s st k Hst Hk Hno. rewrite Es in Hst.
  pose proof (f_equal (.!! s) Eg) as E. unfold geometries in E. rewrite !lookup_fmap, Hk in E.
  destruct (skeleton w !! s) as [k' |] eqn:Hk'; [| done]. injection E as E1 E2 E3.
  pose proof (Hc s st k' Hst Hk' Hno) as G. unfold geometry_ok in *. by rewrite E1, E2, E3.
Qed.

Lemma next_geometry w a b g :
  links_ok (skeleton w) -> nexts (skeleton w) !! a = Some b -> a <> b ->
  geometries (skeleton w) !! a = Some g -> good_geometry g.
Proof. intros [_ G]%links_ok_maps. apply G. Qed.

Lemma wp_runtime s x (Q : snd_pcm_runtime -> world -> Prop) w :
  w_subs w !! s = Some x -> Q (ss_rt x) w -> wp (runtime s) Q w.
Proof. intros Hx HQ. by apply wp_bind, (wp_sub _ x). Qed.

Lemma route_next N s A z a b :
  route N s (A ++ [z]) -> a ∈ s :: A -> N !! a = Some b -> b ∈ A ++ [z].
Proof.
  revert s. induction A as [| c A IH]; intros s; simpl.
  - intros [H _] ->%list_elem_of_singleton Hb. rewrite H in Hb. injection Hb as ->. by left.
  - intros [H R] [-> | Ha]%elem_of_cons Hb; [rewrite H in Hb; injection Hb as ->; by left |].
    right. by eapply IH.
Qed.

(** Two rings that share a member share every member. *)
Lemma route_meets N s A s1 B b :
  route N s (A ++ [s]) -> route N s1 (B ++ [s1]) -> b ∈ s :: A -> b ∈ s1 :: B -> s1 ∈ s :: A.
Proof.
  intros RA RB Hb Hb1.
  assert (C : forall l a, a ∈ s :: A -> route N a l -> forall c, c ∈ l -> c ∈ s :: A).
  { induction l as [| d l IH]; intros a Ha; simpl; [by intros _ c ?%elem_of_nil |].
    intros [H R] c Hc. assert (Hd : d ∈ s :: A).
    { pose proof (route_next N s A s a d RA Ha H) as Hd. rewrite elem_of_app, list_elem_of_singleton in Hd.
      apply elem_of_cons. tauto. }
    apply elem_of_cons in Hc as [-> | Hc]; [done |]. by eapply IH. }
  assert (exists l, route N b (l ++ [s1])) as [l Rl].
  { apply elem_of_cons in Hb1 as [-> | Hb1]; [eauto |].
    apply list_elem_of_split in Hb1 as (l1 & l2 & ->). rewrite <- app_assoc in RB. simpl in RB.
    apply route_app in RB as [_ RB]. eauto. }
  apply (C _ b Hb Rl). apply elem_of_app. right. by left.
Qed.

(** What linking does: the checks in their order, then the splice. *)
Definition link_post (w : world) (s s1 : nat) (A : list nat) (st st1 : pcm_state)
    (res : Z) (w' : world) : Prop :=
  world_ok w' /\ w_held w' = w_held w /\ w_trapped w' = w_trapped w /\ states w' = states w /\
  (st = OPEN \/ st1 <> st -> res = -EBADFD /\ w' = w) /\
  (st <> OPEN -> st1 = st -> s1 ∈ s :: A -> res = -EALREADY /\ w' = w) /\
  (st <> OPEN -> st1 = st -> s1 ∉ s :: A ->
     res = 0 /\ forall B, ring (skeleton w) s1 B -> ring (skeleton w') s (s1 :: B ++ A)).

Lemma splice_links_ok w w' s s1 n p st :
  world_ok w -> states w !! s = Some st -> states w !! s1 = Some st -> st <> OPEN ->
  nexts (skeleton w) !! s = Some n -> nexts (skeleton w) !! p = Some s1 -> p <> s ->
  relinked w w' (<[s := s1]> (<[p := n]> (nexts (skeleton w)))) (<[s1 := s]> (<[n := p]> (prevs (skeleton w)))) ->
  world_ok w'.
Proof.
  intros [LK Hm Hc] Hst Hst1 Hno Hs Hp Hps R.
  pose proof (proj1 (links_ok_maps _) LK) as [I _].
  split; [| by apply (re_masters _ _ _ _ R) | by eapply relinked_configured].
  eapply relinked_links_ok; [done | exact R | by apply swap_inverse |].
  intros a b g. destruct (decide (a = s)) as [-> | Has].
  - intros _ _. by apply (geometry_of w s st).
  - rewrite (lookup_insert_ne _ s a) by done. destruct (decide (a = p)) as [-> | Hap].
    + rewrite lookup_insert_eq. intros _ _. destruct (decide (p = s1)) as [-> | Hp1].
      * by apply (geometry_of w s1 st).
      * by apply (next_geometry w p s1).
    + rewrite lookup_insert_ne by done. by apply next_geometry.
Qed.

Lemma link_spec w s st s1 st1 A :
  world_ok w -> (pcm_link_lock ∉ w_held w) -> ring (skeleton w) s A ->
  states w !! s = Some st -> states w !! s1 = Some st1 ->
  wp (snd_pcm_link s (PcmFile s1)) (link_post w s s1 A st st1) w.
Proof.
  intros WO Hl R Hst Hst1. pose proof WO as [LK Hm Hc].
  destruct (state_sub _ _ _ Hst) as (x & Hx & <-). destruct (state_sub _ _ _ Hst1) as (x1 & Hx1 & <-).
  unfold snd_pcm_link. apply wp_bind, (wp_runtime s x); [done |].
  destruct (state_is (rt_state (ss_rt x)) OPEN) eqn:Eo.
  { apply bool_decide_eq_true in Eo. apply wp_ret. split_and!; try done. }
  apply bool_decide_eq_false in Eo. apply wp_bind, wp_spin_lock; [done |].
  set (w1 := w <| w_held := {[pcm_link_lock]} ∪ w_held w |>).
  assert (Hrel : w1 <| w_held := w_held w1 ∖ {[pcm_link_lock]} |> = w).
  { unfold w1. destruct w. simpl. by rewrite lock_undo. }
  apply wp_bind, (wp_runtime s1 x1); [done |]. apply wp_bind.
  assert (Err : forall e, link_post w s s1 A (state_of x) (state_of x1) e w ->
    wp (ret e) (fun e => wp (spin_unlock pcm_link_lock;;; ret e)%state (link_post w s s1 A (state_of x) (state_of x1))) w1).
  { intros e He. apply wp_ret, wp_bind, wp_spin_unlock; [apply lock_held |]. apply wp_ret. by rewrite Hrel. }
  destruct (state_is (rt_state (ss_rt x)) (rt_state (ss_rt x1))) eqn:Es; simpl negb; cbn match.
  2: { apply bool_decide_eq_false in Es. apply Err. unfold state_of. split_and!; try done; congruence. }
  apply bool_decide_eq_true in Es. apply wp_bind. unfold wp at 1.
  pose proof R as [[HsA NdA]%NoDup_cons P]. pose proof (ring_fuel _ _ _ R) as Hf.
  rewrite (in_group_spec w1 s s1 A s (group_fuel w) P HsA Hf).
  destruct (bool_decide (s1 ∈ s :: A)) eqn:Eg.
  { apply bool_decide_eq_true in Eg. apply Err. unfold state_of. split_and!; try done; intuition congruence. }
  apply bool_decide_eq_false in Eg.
  pose proof (proj1 (links_ok_maps _) LK) as [I _].
  apply path_route in P; [| done].
  assert (exists n, nexts (skeleton w) !! s = Some n) as [n Hn]
    by (destruct A; simpl in P; destruct P; eauto).
  assert (exists p, nexts (skeleton w) !! p = Some s1) as [p Hp].
  { destruct (pointers w s1 x1 Hx1) as [_ Hp]. exists (ss_link_prev x1). by apply I. }
  assert (Hps : p <> s).
  { intros ->. apply Eg. pose proof (route_next _ _ _ s s s1 P ltac:(by left) Hp) as Hin.
    rewrite elem_of_app, list_elem_of_singleton in Hin. apply elem_of_cons. tauto. }
  apply wp_bind. eapply wp_mono; [apply (splice_spec w1 s s1 n p LK Hn Hp Hps) |]. intros [] w2 R2.
  apply wp_ret, wp_bind, wp_spin_unlock; [rewrite (re_held _ _ _ _ R2); apply lock_held |].
  apply wp_ret. set (w3 := w2 <| w_held := w_held w2 ∖ {[pcm_link_lock]} |>).
  assert (R3 : relinked w w3 (<[s:=s1]> (<[p:=n]> (nexts (skeleton w)))) (<[s1:=s]> (<[n:=p]> (prevs (skeleton w))))).
  { destruct R2 as [A1 A2 A3 A4 A5 A6 A7]. split; [exact A1 | exact A2 | exact A3 | exact A4 | | exact A6 | exact A7].
    unfold w3. simpl. rewrite A5. by apply lock_undo. }
  split_and!.
  - eapply (splice_links_ok w w3 s s1 n p (state_of x)); try done. rewrite Hst1. unfold state_of. congruence.
  - apply (re_held _ _ _ _ R3).
  - apply (re_trapped _ _ _ _ R3).
  - apply (re_states _ _ _ _ R3).
  - unfold state_of. intuition congruence.
  - intros. done.
  - intros _ _ _. split; [done |]. intros B [NdB PB]. apply path_route in PB; [| done].
    destruct (route_last _ _ _ _ PB) as (p' & Hp' & Hps1).
    assert (p' = p) as -> by (eapply inverse_inj; eauto).
    assert (Hdisj : forall b, b ∈ s :: A -> b ∈ s1 :: B -> False).
    { intros b Hb Hb1. apply Eg. by eapply (route_meets _ s A s1 B b). }
    assert (Nd : NoDup (s :: A ++ s1 :: B)).
    { rewrite app_comm_cons. apply NoDup_app. split; [by apply NoDup_cons |]. split; [| done].
      intros b Hb Hb1. by apply (Hdisj b). }
    split.
    + eapply NoDup_Permutation_proper; [| exact Nd]. constructor. rewrite app_comm_cons.
      apply Permutation_app_comm.
    + apply path_route.
      * rewrite (re_nexts _ _ _ _ R3), (re_prevs _ _ _ _ R3). by apply swap_inverse.
      * rewrite (re_nexts _ _ _ _ R3). eapply splice_ring; eauto.
Qed.

(** ** Unlinking *)

Lemma relinked_dom w w' N P b :
  relinked w w' N P -> is_Some (nexts (skeleton w) !! b) -> is_Some (nexts (skeleton w') !! b).
Proof.
  intros R Hb. apply maps_dom. apply maps_dom in Hb as [k Hk].
  pose proof (f_equal (.!! b) (re_geometries _ _ _ _ R)) as E. unfold geometries in E.
  rewrite !lookup_fmap, Hk in E. destruct (skeleton w' !! b); [eauto | done].
Qed.

Lemma unlink_pointers w s n p :
  links_ok (skeleton w) -> (pcm_link_lock ∉ w_held w) ->
  nexts (skeleton w) !! s = Some n -> nexts (skeleton w) !! p = Some s ->
  wp (snd_pcm_unlink s)
    (fun res w' => res = 0 /\ relinked w w' (<[s := s]> (<[p := n]> (nexts (skeleton w))))
                                            (<[s := s]> (<[n := p]> (prevs (skeleton w))))) w.
Proof.
  intros [I _]%links_ok_maps Hl Hs Hp. pose proof (proj1 (I _ _) Hp) as Hps.
  set (N := nexts (skeleton w)) in *. set (P := prevs (skeleton w)) in *.
  unfold snd_pcm_unlink. apply wp_bind, wp_spin_lock; [done |].
  set (w0 := w <| w_held := {[pcm_link_lock]} ∪ w_held w |>).
  assert (R0 : relinked w0 w0 N P) by by split.
  destruct (sub_pointers w s n Hs) as (x & Hx & Ex & Ex'). fold P in Ex'.
  assert (ss_link_prev x = p) as Ep by congruence.
  apply wp_bind, (wp_sub _ x); [done |]. rewrite Ex, Ep.
  apply wp_bind. eapply wp_mono; [apply (set_next_spec w0 p n); change (is_Some (N !! p)); eauto |].
  intros [] w1 R1. change (relinked w0 w1 (<[p := n]> N) P) in R1.
  assert (Hs' : nexts (skeleton w1) !! s = Some n).
  { rewrite (re_nexts _ _ _ _ R1). destruct (decide (p = s)) as [-> |]; [apply lookup_insert_eq |].
    by rewrite lookup_insert_ne. }
  destruct (sub_pointers w1 s n Hs') as (y & Hy & Ey & Ey').
  rewrite (re_prevs _ _ _ _ R1) in Ey'. assert (ss_link_prev y = p) as Ep' by congruence.
  apply wp_bind, (wp_sub _ y); [done |]. rewrite Ey, Ep'.
  assert (Hn : is_Some (N !! n)).
  { unfold N. apply maps_dom. apply I in Hs. unfold P, prevs in Hs. rewrite lookup_fmap in Hs.
    destruct (skeleton w !! n); [eauto | done]. }
  apply wp_bind. eapply wp_mono; [apply (set_prev_spec w1 n p); by eapply (relinked_dom w0) |].
  intros [] w2 R2. rewrite (re_nexts _ _ _ _ R1), (re_prevs _ _ _ _ R1) in R2.
  pose proof (relinked_trans _ _ _ _ _ _ _ R1 R2) as R12.
  apply wp_bind. eapply wp_mono; [apply (set_prev_spec w2 s s), (relinked_dom w0 _ _ _ _ R12), (mk_is_Some _ _ Hs) |].
  intros [] w3 R3. rewrite (re_nexts _ _ _ _ R2), (re_prevs _ _ _ _ R2) in R3.
  pose proof (relinked_trans _ _ _ _ _ _ _ R12 R3) as R13.
  apply wp_bind. eapply wp_mono; [apply (set_next_spec w3 s s), (relinked_dom w0 _ _ _ _ R13), (mk_is_Some _ _ Hs) |].
  intros [] w4 R4. rewrite (re_nexts _ _ _ _ R3), (re_prevs _ _ _ _ R3) in R4.
  pose proof (relinked_trans _ _ _ _ _ _ _ R13 R4) as [A1 A2 A3 A4 A5 A6 A7].
  apply wp_bind, wp_spin_unlock; [rewrite A5; apply lock_held |]. apply wp_ret. split; [done |].
  split; [exact A1 | exact A2 | exact A3 | exact A4 | | exact A6 | exact A7].
  simpl. rewrite A5. by apply lock_undo.
Qed.

Definition unlink_post (w : world) (s : nat) (A : list nat) (res : Z) (w' : world) : Prop :=
  res = 0 /\ world_ok w' /\ w_held w' = w_held w /\ w_trapped w' = w_trapped w /\
  states w' = states w /\
  ring (skeleton w') s [] /\ (forall a A', A = a :: A' -> ring (skeleton w') a A').

Lemma unlink_spec w s A :
  world_ok w -> (pcm_link_lock ∉ w_held w) -> ring (skeleton w) s A ->
  wp (snd_pcm_unlink s) (unlink_post w s A) w.
Proof.
  intros [LK Hm Hc] Hl [Nd P]. pose proof (proj1 (links_ok_maps _) LK) as [I _].
  apply path_route in P; [| done].
  assert (exists n, nexts (skeleton w) !! s = Some n) as [n Hn]
    by (destruct A; simpl in P; destruct P; eauto).
  destruct (route_last _ _ _ _ P) as (p & Hlast & Hp).
  eapply wp_mono; [by apply (unlink_pointers w s n p) |]. intros res w' [-> R].
  assert (I' : inverse (nexts (skeleton w')) (prevs (skeleton w'))).
  { rewrite (re_nexts _ _ _ _ R), (re_prevs _ _ _ _ R). by apply swap_inverse. }
  unfold unlink_post. split_and!; 
    [done | | apply (re_held _ _ _ _ R) | apply (re_trapped _ _ _ _ R) | apply (re_states _ _ _ _ R) | |].
  - split; [| by apply (re_masters _ _ _ _ R) | by eapply relinked_configured].
    eapply relinked_links_ok; [done | exact R | by apply swap_inverse |].
    intros a b g. destruct (decide (a = s)) as [-> | Has]; [rewrite lookup_insert_eq; congruence |].
    rewrite (lookup_insert_ne _ s a) by done. destruct (decide (a = p)) as [-> | Hap].
    + rewrite lookup_insert_eq. intros _ _. by apply (next_geometry w p s).
    + rewrite lookup_insert_ne by done. by apply next_geometry.
  - split; [apply NoDup_singleton |]. apply path_route; [done |].
    rewrite (re_nexts _ _ _ _ R). simpl. by rewrite lookup_insert_eq.
  - intros a A' ->. apply NoDup_cons in Nd as [Hs Nd]. split; [done |]. apply path_route; [done |].
    rewrite (re_nexts _ _ _ _ R). simpl in P. destruct P as [En P].
    assert (n = a) as -> by congruence.
    apply route_insert; [done |]. by eapply route_redirect.
Qed.
