(* ===== verification/PcmCalls.v ===== *)
(** * PcmCalls: every call keeps the world in order

    Setting the hardware parameters, which changes the geometry of a ring, and the theorem
    that collects all calls: from a world in order every call returns, and leaves the world
    in order. *)

From S2P Require Import Prelude Interval Mask HwParams HwChoose PcmRuntime PcmRing.
From S2P Require Import PcmTimer PcmState PcmOps PcmSafe PcmLink.
Open Scope Z_scope.

(** ** Setting hardware parameters *)

(** Buffers up to a third of the signed range, periods and rates in the signed range, and
    no divisor that is 0. *)
Definition sizes_ok (p : HwParams.snd_pcm_hw_params) : bool :=
  (0 <? params_min p HW_BUFFER_SIZE) && (3 * params_min p HW_BUFFER_SIZE <=? LONG_MAX)
  && (0 <? params_min p HW_PERIOD_SIZE) && (params_min p HW_PERIOD_SIZE <=? INT_MAX)
  && (0 <? params_min p HW_RATE) && (params_min p HW_RATE <=? INT_MAX)
  && truth (params_min p HW_CHANNELS)
  && truth (u32 (params_min p HW_TICK_TIME * params_min p HW_RATE)).

(** The driver is asked, and refuses other parameters. *)
Class DriverSizes (ops : driver) : Prop := driver_sizes :
  exists f, d_hw_params ops = Some f /\
    forall s p w, wp (f s p) (fun err _ => 0 <= err -> sizes_ok p = true) w.

Lemma commit_divisors p r : sizes_ok p = true -> divisors_there (hw_params_commit p r) = true.
Proof.
  unfold sizes_ok. rewrite !andb_true_iff, !Z.ltb_lt, !Z.leb_le.
  intros (((((((Hb & _) & Hp) & _) & _) & _) & Hc) & Ht). apply divisors_there_spec.
  assert (Hpos : forall z, 0 < z -> truth z = true).
  { intros z Hz. unfold truth. by rewrite (proj2 (Z.eqb_neq z 0)) by lia. }
  unfold hw_params_commit. cbv zeta. set (bits := u32 (u32 _ * _)).
  destruct (align_frames 3 bits 1) as [b f] eqn:Ea.
  destruct (align_frames_spec bits b f (u32_range _) Ea) as [Hf _].
  rewrite list_elem_of_In in Hf. simpl in Hf.
  split_and!; [apply Hpos; simpl; lia | by apply Hpos | by apply Hpos | done | by apply Hpos | done].
Qed.

Section Params.
Context (ops : driver) `{!DriverOk ops} `{!DriverSizes ops} (rounds : nat).

(** The negotiation of the parameters: the refinement of the request and the choice of one
    value each; [None] when it is not over within the rounds. *)
Definition negotiate (s : nat) (p : HwParams.snd_pcm_hw_params)
    : option (Z * HwParams.snd_pcm_hw_params) :=
  '(err, p) ← hw_refine ops rounds s (p <| hp_rmask := UINT_MAX |>);
  if err <? 0 then Some (err, p) else snd_pcm_hw_params_choose (hw_refine ops rounds s) p.

Definition params_post (w : world) (s : nat) (rp : Z * HwParams.snd_pcm_hw_params) (w' : world) : Prop :=
  world_ok w' /\ w_held w' = w_held w /\ w_trapped w' = w_trapped w /\
  nexts (skeleton w') = nexts (skeleton w) /\
  (forall b, b <> s -> states w' !! b = states w !! b) /\
  (rp.1 < 0 -> states w' !! s = Some OPEN) /\
  (0 <= rp.1 -> rp.1 = 0 /\ states w' !! s = Some SETUP /\
     exists x, w_subs w' !! s = Some x /\
       rt_buffer_size (ss_rt x) = params_min rp.2 HW_BUFFER_SIZE /\ ring_config (ss_rt x)).

Lemma world_ok_safe {R : Type} w (m : M R) :
  world_ok w -> w_trapped w = false -> safe (skeleton w) (w_held w) (w_held w) m ->
  wp m (fun _ w' => world_ok w' /\ w_held w' = w_held w /\ w_trapped w' = false) w.
Proof.
  intros [LK Hm Hc] Ht Hs. eapply wp_mono; [by apply Hs |]. intros _ w' [A B C D E].
  split; [| done]. split; [by rewrite A | done | done].
Qed.

(** An update of [s] after which its ring is valid. *)
Lemma put_configured w s x y :
  world_ok w -> w_subs w !! s = Some x ->
  ss_link_next y = ss_link_next x -> ss_link_prev y = ss_link_prev x ->
  ss_trigger_master y = ss_trigger_master x -> ring_config (ss_rt y) ->
  divisors_there (ss_rt y) = true ->
  let w' := w <| w_subs := <[s := y]> (w_subs w) |> in
  world_ok w' /\ nexts (skeleton w') = nexts (skeleton w) /\
  states w' = <[s := state_of y]> (states w).
Proof.
  intros [LK Hm Hc] Hx En Ep Em [C1 C2 C3 C4] Hd w'.
  assert (Ek : skeleton w' = <[s := skel_of y]> (skeleton w)) by (unfold skeleton; simpl; by rewrite fmap_insert).
  assert (Es : states w' = <[s := state_of y]> (states w)) by (unfold states; simpl; by rewrite fmap_insert).
  destruct (pointers w s x Hx) as [Hn Hp].
  assert (EN : nexts (skeleton w') = nexts (skeleton w))
    by (rewrite Ek; unfold nexts in *; rewrite fmap_insert; apply insert_id; simpl; congruence).
  assert (EP : prevs (skeleton w') = prevs (skeleton w))
    by (rewrite Ek; unfold prevs in *; rewrite fmap_insert; apply insert_id; simpl; congruence).
  assert (Gy : geometry_ok (skel_of y)) by (unfold geometry_ok; simpl; done).
  pose proof (proj1 (links_ok_maps _) LK) as [I G].
  split; [| done]. split.
  - apply links_ok_maps. rewrite EN, EP. split; [exact I |]. intros a b g Ha Hab.
    rewrite Ek. unfold geometries. rewrite fmap_insert. destruct (decide (a = s)) as [-> | Has].
    + rewrite lookup_insert_eq. intros [= <-]. exact Gy.
    + rewrite lookup_insert_ne by done. by apply (G a b).
  - by apply (put_masters w s x y); [| left |].
  - intros b st k. rewrite Es, Ek. destruct (decide (b = s)) as [-> | Hb].
    + rewrite !lookup_insert_eq. intros _ [= <-] _. exact Gy.
    + rewrite !lookup_insert_ne by done. apply Hc.
Qed.

Lemma hw_params_error_spec w s err p :
  world_ok w -> is_Some (skeleton w !! s) -> err < 0 ->
  wp (hw_params_error ops s err p) (params_post w s) w.
Proof.
  intros [LK Hm Hc] Hs Herr. unfold hw_params_error.
  destruct (in_subs _ w s eq_refl Hs) as [x Hx].
  apply wp_bind, (wp_modify s x); [done |]. set (y := x <| ss_rt := set_state OPEN (ss_rt x) |>).
  destruct (put_shape w s x y Hx eq_refl) as [A B].
  set (w1 := w <| w_subs := <[s := y]> (w_subs w) |>).
  assert (M1 : masters_ok w1) by (by apply (put_masters w s x y); [| left |]).
  assert (C1 : configured w1).
  { intros b st k. unfold w1. rewrite A, B. destruct (decide (b = s)) as [-> | Hb].
    - rewrite lookup_insert_eq. by intros [= <-].
    - rewrite lookup_insert_ne by done. apply Hc. }
  assert (Free : wp (snd_pcm_hw_free1 ops s) (fun _ => keeps w1) w1).
  { unfold snd_pcm_hw_free1. destruct (d_hw_free ops) as [f |] eqn:Ef.
    - apply (dk_hw_free f Ef); [| done]. unfold w1. simpl. rewrite lookup_insert_eq. eauto.
    - by apply wp_ret. }
  apply wp_bind. eapply wp_mono; [exact Free |]. intros r w2 [Ks Kst Kh Km Kt]. apply wp_ret.
  unfold params_post. simpl.
  assert (Est : states w2 = <[s := OPEN]> (states w)) by (rewrite Kst; exact B).
  split_and!.
  - split; [rewrite Ks; unfold w1; by rewrite A | auto |].
    intros b st k. rewrite Kst, Ks. apply C1.
  - by rewrite Kh.
  - by rewrite Kt.
  - rewrite Ks. unfold w1. by rewrite A.
  - intros b Hb. rewrite Est. by rewrite lookup_insert_ne.
  - intros _. rewrite Est. by rewrite lookup_insert_eq.
  - lia.
Qed.

Lemma keeps_world_ok w w' : world_ok w -> keeps w w' -> world_ok w'.
Proof.
  intros [LK Hm Hc] [Ks Kst _ Km _]. split; [by rewrite Ks | auto |].
  intros b st k. rewrite Kst, Ks. apply Hc.
Qed.

Lemma params_post_keeps w w1 s rp w2 : keeps w w1 -> params_post w1 s rp w2 -> params_post w s rp w2.
Proof.
  intros [Ks Kst Kh _ Kt] (A & B & T & C & D & E & F). unfold params_post.
  split_and!; try done; try congruence.
  - intros b Hb. rewrite D by done. by rewrite Kst.
Qed.

Lemma wp_lift {A : Type} (o : option A) a (Q : A -> world -> Prop) w :
  o = Some a -> Q a w -> wp (lift o) Q w.
Proof. intros ->. done. Qed.

(** The parameters are committed: the ring is valid and the stream set up. *)
Lemma commit_spec w s p :
  world_ok w -> is_Some (skeleton w !! s) -> sizes_ok p = true ->
  wp (modify s (hw_params_commit p);;; timer_resolution_change s;;; ret (0, p))%state (params_post w s) w.
Proof.
  intros WO Hs Hok. destruct (in_subs _ w s eq_refl Hs) as [x Hx].
  apply wp_bind, (wp_modify s x); [done |].
  set (y := x <| ss_rt := hw_params_commit p (ss_rt x) |>).
  pose proof (commit_divisors p (ss_rt x) Hok) as Hdiv. unfold sizes_ok in Hok.
  rewrite !andb_true_iff, !Z.ltb_lt, !Z.leb_le in Hok.
  destruct Hok as (((((((H1 & H2) & Hp1) & Hp2) & Hr1) & Hr2) & _) & _).
  destruct (hw_params_commit_config p (ss_rt x) H1 H2) as (Cfg & Est & Esz & _).
  destruct (put_configured w s x y WO Hx eq_refl eq_refl eq_refl Cfg Hdiv) as (WO1 & EN1 & ES1).
  set (w1 := w <| w_subs := <[s := y]> (w_subs w) |>) in *.
  assert (Hy : w_subs w1 !! s = Some y) by (unfold w1; simpl; apply lookup_insert_eq).
  apply wp_bind. unfold timer_resolution_change.
  assert (Hcheck : check_divisors s (fun r => resolution_divisors (rt_rate r) (rt_period_size r)) w1 =
                   Some (tt, w1)).
  { unfold check_divisors, runtime, bind, sub. rewrite Hy. unfold ret. apply divides_there.
    unfold y, hw_params_commit. cbv zeta. destruct (align_frames 3 _ 1).
    apply resolution_divisors_there; simpl; lia. }
  unfold wp at 1. rewrite (bind_some _ _ _ _ _ Hcheck).
  apply (wp_modify_sub s y (fun x => match snd_pcm_timer_resolution_change (rt_rate (ss_rt x))
      (rt_period_size (ss_rt x)) with Some resolution => x <| ss_timer_resolution := resolution |>
      | None => x end)); [done |].
  set (z := match snd_pcm_timer_resolution_change (rt_rate (ss_rt y)) (rt_period_size (ss_rt y)) with
            | Some resolution => y <| ss_timer_resolution := resolution |>
            | None => y end).
  assert (Ez : ss_rt z = ss_rt y /\ ss_link_next z = ss_link_next y /\ ss_link_prev z = ss_link_prev y /\
               ss_trigger_master z = ss_trigger_master y) by (unfold z; destruct (snd_pcm_timer_resolution_change _ _); done).
  destruct Ez as (Er & En & Ep & Em).
  destruct (put_configured w1 s y z WO1) as (WO2 & EN2 & ES2);
    [done | done | done | done | by rewrite Er | by rewrite Er |].
  set (w2 := w1 <| w_subs := <[s := z]> (w_subs w1) |>) in *. apply wp_ret.
  assert (ES : states w2 = <[s := SETUP]> (states w)).
  { rewrite ES2, ES1, insert_insert_eq. f_equal. unfold state_of. rewrite Er. exact Est. }
  unfold params_post. split_and!; [exact WO2 | done | done | congruence | | simpl; lia |].
  - intros b Hb. rewrite ES. by rewrite lookup_insert_ne.
  - intros _. split; [done |]. split; [rewrite ES; apply lookup_insert_eq |].
    exists z. split; [unfold w2; simpl; apply lookup_insert_eq |]. rewrite Er. split; [exact Esz | exact Cfg].
Qed.

Lemma hw_params_set_spec w s p :
  world_ok w -> is_Some (skeleton w !! s) -> is_Some (negotiate s p) ->
  wp (snd_pcm_hw_params_set ops rounds s p) (params_post w s) w.
Proof.
  intros WO Hs Hneg. destruct (in_subs _ w s eq_refl Hs) as [x Hx].
  unfold negotiate in Hneg. unfold snd_pcm_hw_params_set.
  destruct (hw_refine ops rounds s (p <| hp_rmask := UINT_MAX |>)) as [[err q] |] eqn:Eq;
    [| by destruct Hneg]. simpl in Hneg.
  apply wp_bind, (wp_lift _ (err, q)); [done |].
  destruct (Z.ltb_spec err 0); [by apply hw_params_error_spec |].
  destruct (snd_pcm_hw_params_choose (hw_refine ops rounds s) q) as [[err' q'] |] eqn:Eq';
    [| by destruct Hneg].
  apply wp_bind, (wp_lift _ (err', q')); [done |].
  destruct (Z.ltb_spec err' 0); [by apply hw_params_error_spec |].
  destruct driver_sizes as (f & Ef & Hf). rewrite Ef. apply wp_bind.
  eapply wp_mono; [apply (wp_and _ _ _ w
    (dk_hw_params f q' Ef s w (ex_intro _ x Hx) (wo_masters _ WO)) (Hf s q' w)) |].
  intros err2 w1 [K Hsz]. cbv beta in Hsz. pose proof (keeps_world_ok _ _ WO K) as WO1.
  assert (Hs1 : is_Some (skeleton w1 !! s)) by (by rewrite (kp_skel _ _ K)).
  eapply wp_mono; [| intros rp w2; by apply params_post_keeps].
  destruct (Z.ltb_spec err2 0); [by apply hw_params_error_spec |].
  by apply commit_spec; [.. | apply Hsz].
Qed.

(** Parameters may be set while the stream is not in use and not mapped. *)
Definition may_set (r : snd_pcm_runtime) : bool :=
  match rt_state r with OPEN | SETUP | PREPARED => negb (truth (rt_mmap_count r)) | _ => false end.

Lemma hw_params_run w s p x :
  w_subs w !! s = Some x ->
  PcmOps.snd_pcm_hw_params ops rounds s p w =
  if may_set (ss_rt x) then snd_pcm_hw_params_set ops rounds s p w else Some ((-EBADFD, p), w).
Proof.
  intros Hx. unfold PcmOps.snd_pcm_hw_params, may_set. rewrite (bind_some _ _ _ (ss_rt x) w)
    by (unfold runtime, bind, sub; by rewrite Hx).
  destruct (rt_state (ss_rt x)); try done; by destruct (truth _).
Qed.

(** The setting ends when the negotiation does. *)
Lemma hw_params_set_run w s p :
  world_ok w -> is_Some (skeleton w !! s) ->
  match snd_pcm_hw_params_set ops rounds s p w with
  | Some (rp, w') => params_post w s rp w'
  | None => negotiate s p = None
  end.
Proof.
  intros WO Hs. destruct (negotiate s p) as [q |] eqn:En.
  - pose proof (hw_params_set_spec w s p WO Hs ltac:(eauto)) as H. unfold wp in H.
    by destruct (snd_pcm_hw_params_set ops rounds s p w) as [[rp w'] |].
  - replace (snd_pcm_hw_params_set ops rounds s p w) with (@None ((Z * HwParams.snd_pcm_hw_params) * world)); [done |].
    unfold negotiate in En. unfold snd_pcm_hw_params_set, bind, lift.
    destruct (hw_refine ops rounds s (p <| hp_rmask := UINT_MAX |>)) as [[err q] |]; [| done].
    simpl in En. destruct (err <? 0); [done |]. by rewrite En.
Qed.
End Params.

(** ** All calls *)

Inductive call :=
| CallStart (s : nat) | CallPrepare (s : nat) | CallReset (s : nat) | CallPause (s : nat) (push : bool)
| CallPlaybackDrain (s : nat) (wakes : list (list nat)) (last : drain_end)
| CallCaptureDrain (s : nat) | CallPlaybackDrop (s : nat) | CallCaptureDrop (s : nat)
| CallPlaybackRewind (s : nat) (frames : Z) | CallCaptureRewind (s : nat) (frames : Z)
| CallPlaybackDelay (s : nat) | CallCaptureDelay (s : nat)
| CallHwParams (s : nat) (p : HwParams.snd_pcm_hw_params) | CallHwFree (s : nat)
| CallSwParams (s : nat) (p : snd_pcm_sw_params) | CallStatus (s : nat)
| CallLink (s : nat) (file : link_target) | CallUnlink (s : nat)
| InterruptPeriod (s : nat) | InterruptTick (s : nat).

Section Exec.
Context (ops : driver) (rounds : nat).

(** The result of a call, without the data it hands back. *)
Definition result_of {A} (m : M (Z * A)) : M Z := r <- m;; ret r.1.

Definition exec (c : call) : M Z :=
  match c with
  | CallStart s => under_lock (snd_pcm_start ops) s
  | CallPrepare s => under_lock (snd_pcm_prepare ops) s
  | CallReset s => under_lock (snd_pcm_reset ops) s
  | CallPause s push => under_lock (fun s => snd_pcm_pause ops s push) s
  | CallPlaybackDrain s wakes last => snd_pcm_playback_drain ops s wakes last
  | CallCaptureDrain s => snd_pcm_capture_drain ops s
  | CallPlaybackDrop s => snd_pcm_playback_drop ops s
  | CallCaptureDrop s => snd_pcm_capture_drop ops s
  | CallPlaybackRewind s frames => snd_pcm_playback_rewind ops s frames
  | CallCaptureRewind s frames => snd_pcm_capture_rewind ops s frames
  | CallPlaybackDelay s => result_of (snd_pcm_playback_delay ops s)
  | CallCaptureDelay s => result_of (snd_pcm_capture_delay ops s)
  | CallHwParams s p => result_of (PcmOps.snd_pcm_hw_params ops rounds s p)
  | CallHwFree s => snd_pcm_hw_free ops s
  | CallSwParams s p => result_of (snd_pcm_sw_params_call ops s p)
  | CallStatus s => snd_pcm_status_call ops s;;; ret 0
  | CallLink s file => snd_pcm_link s file
  | CallUnlink s => snd_pcm_unlink s
  | InterruptPeriod s => snd_pcm_period_elapsed ops s;;; ret 0
  | InterruptTick s => snd_pcm_tick_elapsed ops s;;; ret 0
  end.

(** The substream a call is made on. *)
Definition target (c : call) : nat :=
  match c with
  | CallStart s | CallPrepare s | CallReset s | CallPause s _ | CallPlaybackDrain s _ _
  | CallCaptureDrain s | CallPlaybackDrop s | CallCaptureDrop s | CallPlaybackRewind s _
  | CallCaptureRewind s _ | CallPlaybackDelay s | CallCaptureDelay s | CallHwParams s _
  | CallHwFree s | CallSwParams s _ | CallStatus s | CallLink s _ | CallUnlink s
  | InterruptPeriod s | InterruptTick s => s
  end.

(** The call names substreams that exist. *)
Definition sensible (w : world) (c : call) : Prop :=
  is_Some (skeleton w !! target c) /\
  match c with
  | CallPlaybackDrain _ wakes last => irqs_in (skeleton w) wakes last
  | CallLink _ (PcmFile s1) => is_Some (skeleton w !! s1)
  | _ => True
  end.

(** The call sets parameters whose negotiation is not over within the rounds. *)
Definition negotiating (c : call) : Prop :=
  match c with CallHwParams s p => negotiate ops rounds s p = None | _ => False end.

Context `{!DriverOk ops} `{!DriverSizes ops}.

(** A world between two calls: in order, no lock held, nothing trapped. *)
Record calm (w : world) : Prop := {
  cm_ok : world_ok w; cm_held : w_held w = ∅; cm_trapped : w_trapped w = false }.

Lemma safe_result {A : Type} K (m : M (Z * A)) : safe K ∅ ∅ m -> safe K ∅ ∅ (result_of m).
Proof. intros Hm. eapply safe_bind; [exact Hm | intros; apply safe_ret]. Qed.

Lemma call_keeps_world w c :
  calm w -> sensible w c ->
  match exec c w with Some (res, w') => calm w' | None => negotiating c end.
Proof using DriverOk0 DriverSizes0.
  intros [WO Hh Ht] [Hs Hc]. pose proof (wo_links _ WO) as LK. set (K := skeleton w) in *.
  assert (Done : wp (exec c) (fun _ => calm) w ->
    match exec c w with Some (res, w') => calm w' | None => negotiating c end).
  { unfold wp. by destruct (exec c w) as [[res w'] |]. }
  assert (Safe : safe K ∅ ∅ (exec c) ->
    match exec c w with Some (res, w') => calm w' | None => negotiating c end).
  { intros S. apply Done. rewrite <- Hh in S.
    eapply wp_mono; [exact (world_ok_safe w _ WO Ht S) |]. intros res w' (A & B & C).
    split; [done | congruence | done]. }
  assert (Group : forall op s, is_Some (K !! s) -> safe K ∅ ∅ (under_lock (run_op ops op) s)).
  { intros op s Hs'. apply safe_under_lock; [done |]. apply safe_group; [done | done | done | apply own_locks_self]. }
  assert (Unit : forall m : M unit, safe K ∅ ∅ m -> safe K ∅ ∅ (m;;; ret 0)%state).
  { intros m Hm. eapply safe_bind; [exact Hm | intros; apply safe_ret]. }
  assert (Hl : pcm_link_lock ∉ w_held w) by (rewrite Hh; apply not_elem_of_empty).
  destruct c as [s | s | s | s push | s wakes last | s | s | s | s frames | s frames | s | s | s p | s
                | s p | s | s file | s | s | s]; simpl in Hs, Hc.
  - by apply Safe, (Group GStart).
  - by apply Safe, (Group GPrepare).
  - by apply Safe, (Group GReset).
  - by apply Safe, (Group (GPause push)).
  - by apply Safe, safe_playback_drain.
  - by apply Safe, safe_capture_drain.
  - by apply Safe, safe_playback_drop.
  - by apply Safe, safe_capture_drop.
  - by apply Safe, safe_playback_rewind.
  - by apply Safe, safe_capture_rewind.
  - by apply Safe, safe_result, safe_playback_delay.
  - by apply Safe, safe_result, safe_capture_delay.
  - pose proof (hw_params_set_run ops rounds w s p WO Hs) as H.
    destruct (in_subs K w s eq_refl Hs) as [x Hx].
    unfold exec, result_of, bind. rewrite (hw_params_run ops rounds w s p x Hx).
    destruct (may_set (ss_rt x)); [| by split].
    destruct (snd_pcm_hw_params_set ops rounds s p w) as [[rp w'] |]; [| exact H].
    destruct H as (A & B & C & _). split; [done | congruence | congruence].
  - by apply Safe, safe_hw_free.
  - by apply Safe, safe_result, safe_sw_params.
  - apply Safe. eapply safe_bind; [by apply safe_status | intros; apply safe_ret].
  - destruct (ring_exists K s LK Hs) as [A R]. destruct (in_subs K w s eq_refl Hs) as [x Hx].
    assert (Hst : states w !! s = Some (state_of x)) by (unfold states; by rewrite lookup_fmap, Hx).
    destruct file as [| | s1].
    1, 2: apply Safe; intros w' W'; destruct (sound_sub K ∅ w' s W' Hs) as [y Hy];
      apply wp_bind, (wp_runtime s y); [done |]; by destruct (state_is _ _).
    destruct (in_subs K w s1 eq_refl Hc) as [x1 Hx1].
    assert (Hst1 : states w !! s1 = Some (state_of x1)) by (unfold states; by rewrite lookup_fmap, Hx1).
    apply Done. eapply wp_mono; [exact (link_spec w s _ s1 _ A WO Hl R Hst Hst1) |].
    intros res w' (B1 & B2 & B3 & _). split; [done | congruence | congruence].
  - destruct (ring_exists K s LK Hs) as [A R]. apply Done.
    eapply wp_mono; [exact (unlink_spec w s A WO Hl R) |].
    intros res w' (_ & B1 & B2 & B3 & _). split; [done | congruence | congruence].
  - by apply Safe, Unit, safe_period_elapsed.
  - by apply Safe, Unit, safe_tick_elapsed.
Qed.
End Exec.

(** ** Reachable worlds *)

(** Substreams as they are opened: alone, without parameters, with no lock held. *)
Definition fresh (w : world) : Prop :=
  w_held w = ∅ /\ w_trapped w = false /\
  forall s x, w_subs w !! s = Some x ->
    state_of x = OPEN /\ ss_link_next x = s /\ ss_link_prev x = s /\ ss_trigger_master x = None.

Inductive reachable (ops : driver) (rounds : nat) : world -> Prop :=
| reach_fresh w : fresh w -> reachable ops rounds w
| reach_call w c res w' :
    reachable ops rounds w -> sensible w c -> exec ops rounds c w = Some (res, w') ->
    reachable ops rounds w'.

Lemma fresh_world_ok w : fresh w -> world_ok w.
Proof.
  intros (_ & _ & F).
  assert (L : forall s k, skeleton w !! s = Some k -> sk_next k = s /\ sk_prev k = s).
  { intros s k Hk. destruct (skeleton_sub _ _ _ Hk) as (x & Hx & <-). by destruct (F s x Hx) as (_ & ? & ? & _). }
  split; [split | |].
  - intros a k Hk. destruct (L a k Hk) as [En Ep]. exists k, k. by rewrite En.
  - intros a k Hk. destruct (L a k Hk) as [En Ep]. exists k, k. by rewrite Ep.
  - intros a k Hk. by destruct (L a k Hk).
  - intros s x m Hx Hm. destruct (F s x Hx) as (_ & _ & _ & E). congruence.
  - intros s st k (x & Hx & <-)%state_sub _ Hno. by destruct (F s x Hx).
Qed.

Lemma reachable_ok ops `{!DriverOk ops} `{!DriverSizes ops} rounds w :
  reachable ops rounds w -> calm w.
Proof.
  induction 1 as [w F | w c res w' _ IH Hs E].
  - split; [by apply fresh_world_ok | apply F | apply F].
  - pose proof (call_keeps_world ops rounds w c IH Hs) as H. by rewrite E in H.
Qed.


(** ** A driver and worlds for the examples *)

Definition quiet_hw_params (s : nat) (p : HwParams.snd_pcm_hw_params) : M Z :=
  ret (if sizes_ok p then 0 else -EINVAL).

(** Accepts everything; its hardware takes 16-bit stereo at 48000 Hz in 4 periods of 1024
    frames. *)
Definition quiet_constraints : snd_pcm_hw_constraints :=
  let one v := Itv v v false false true false in
  HwConstraints [shl32 1 3; 1; shl32 1 2; 1]
    [one 16; one 32; one 2; one 48000; one 21333; one 1024; one 4096; one 4; one 85333; one 4096;
     one 16384; one 10000] 0 0 [].

Definition quiet_driver : driver := {|
  d_trigger := fun _ _ => ret 0; d_prepare := fun _ => ret 0;
  d_ioctl_reset := fun s => modify s (fun r => r <| rt_hw_ptr := 0 |>);;; ret 0;
  d_pointer := fun _ _ => 0; d_hw_params := Some quiet_hw_params;
  d_hw_free := Some (fun _ => ret 0); d_silence := None;
  d_transfer_ack_begin := None; d_transfer_ack_end := None;
  d_timer_interrupt := fun _ => ret tt; d_kill_fasync := fun _ => ret tt;
  d_hardware := fun _ => HwDescription 0 0 0 0 0 0 0 0 0 0 0 0 0;
  d_constraints := fun _ => quiet_constraints |}.

Lemma ret_well_behaved {A : Type} (x : A) : well_behaved (fun _ => ret x).
Proof. intros s w _ _. by apply wp_ret. Qed.

#[export] Instance quiet_driver_ok : DriverOk quiet_driver.
Proof.
  split.
  - intros c. apply ret_well_behaved.
  - apply ret_well_behaved.
  - intros s w [x Hx] Hm. apply wp_bind.
    assert (Hst : states w !! s = Some (state_of x)) by (unfold states; by rewrite lookup_fmap, Hx).
    eapply wp_mono; [by apply modify_keeps; eauto |]. intros [] w' K. by apply wp_ret.
  - intros f p [= <-] s w _ _. by apply wp_ret.
  - intros f [= <-]. apply ret_well_behaved.
  - done.
  - done.
  - apply ret_well_behaved.
  - apply ret_well_behaved.
Qed.

#[export] Instance quiet_driver_sizes : DriverSizes quiet_driver.
Proof.
  exists quiet_hw_params. split; [done |]. intros s p w. apply wp_ret.
  destruct (sizes_ok p); [done |]. unfold EINVAL. lia.
Qed.

Lemma quiet_refines s p : is_Some (hw_refine quiet_driver 1 s p).
Proof.
  unfold hw_refine, snd_pcm_hw_refine. simpl (d_constraints _ _).
  change (32 <? c_rules_num quiet_constraints) with false. cbn match.
  destruct (loop_flow (refine_mask_var _) _ _); [eauto |].
  destruct (loop_flow (refine_interval_var _) _ _); [eauto |].
  change (indexed (c_rules quiet_constraints)) with (@nil (Z * snd_pcm_hw_rule)). simpl. eauto.
Qed.

Definition opened (playback : bool) (s : nat) : snd_pcm_substream :=
  Substream (Runtime playback OPEN 0 0 0 0 0 0 0 0 0 0 0 0 0 0 0 0 0 0 0 0 0 0 0 0 0 0 0 0 0 0 0 0
               (replicate 64 7) 0 0 0 0 0 0) s s None 0 0 false false.

(** A capture and a playback substream, just opened. *)
Definition pair_world : world := World {[0%nat := opened false 0; 1%nat := opened true 1]} ∅ 5 false.

Lemma pair_world_fresh : fresh pair_world.
Proof.
  split; [done |]. split; [done |]. intros s x. simpl.
  intros [[<- <-] | [_ [<- <-]%lookup_singleton_Some]]%lookup_insert_Some; done.
Qed.

Fixpoint run_calls (ops : driver) (rounds : nat) (l : list call) (w : world) : option (list Z * world) :=
  match l with
  | [] => Some ([], w)
  | c :: l =>
      '(res, w) ← exec ops rounds c w;
      '(rs, w) ← run_calls ops rounds l w;
      Some (res :: rs, w)
  end.

Definition any_params : HwParams.snd_pcm_hw_params := _snd_pcm_hw_params_any.

Definition setup_both : list call :=
  [CallHwParams 0 any_params; CallHwParams 1 any_params; CallLink 0 (PcmFile 1); CallPrepare 0].

(** The group, seen from outside: the results of the calls and the states and links. *)
Definition view (o : option (list Z * world)) : option (list Z * list (nat * (pcm_state * nat * nat))) :=
  '(rs, w) ← o;
  Some (rs, map_to_list ((fun x => (state_of x, ss_link_next x, ss_link_prev x)) <$> w_subs w)).

Example setup_both_view :
  view (run_calls quiet_driver 1 setup_both pair_world) =
  Some ([0; 0; 0; 0], [(1%nat, (PREPARED, 0%nat, 0%nat)); (0%nat, (PREPARED, 1%nat, 1%nat))]).
Proof. vm_compute. reflexivity. Qed.

(** The world after a call, and after a list of calls. *)
Definition after (ops : driver) (rounds : nat) (c : call) (w : world) : world :=
  match exec ops rounds c w with Some (_, w') => w' | None => w end.

Definition after_all (ops : driver) (rounds : nat) (l : list call) (w : world) : world :=
  fold_left (fun w c => after ops rounds c w) l w.

Lemma reach_after ops rounds w c :
  reachable ops rounds w -> sensible w c -> reachable ops rounds (after ops rounds c w).
Proof.
  intros R S. unfold after. destruct (exec ops rounds c w) as [[res w'] |] eqn:E; [| done].
  by eapply reach_call.
Qed.

Definition in_world (w : world) (s : nat) : bool := bool_decide (is_Some (skeleton w !! s)).

Lemma setup_both_reachable : reachable quiet_driver 1 (after_all quiet_driver 1 setup_both pair_world).
Proof.
  assert (H : forall w s, in_world w s = true -> is_Some (skeleton w !! s))
    by (intros w s; apply bool_decide_eq_true).
  unfold after_all, setup_both. cbn [fold_left].
  repeat (apply reach_after; [| split; [apply H; vm_compute; reflexivity |]]).
  - apply reach_fresh, pair_world_fresh.
  - exact I.
  - exact I.
  - apply H. vm_compute. reflexivity.
  - exact I.
Qed.


Lemma pair_ring w :
  nexts (skeleton w) = {[0%nat := 1%nat; 1%nat := 0%nat]} ->
  prevs (skeleton w) = {[0%nat := 1%nat; 1%nat := 0%nat]} -> ring (skeleton w) 0%nat [1%nat].
Proof.
  intros En Ep. split; [by apply (bool_decide_unpack _) |].
  simpl. rewrite !linked_maps, En, Ep. done.
Qed.

(** Starting the prepared group fails: the playback member has no data.  Nothing changes. *)
Lemma group_operations_witness :
  let w := after_all quiet_driver 1 setup_both pair_world in
  run_op quiet_driver GStart 0%nat w = Some (-EPIPE, w) /\
  exists w', run_op quiet_driver GReset 0%nat w = Some (0, w').
Proof.
  cbv zeta. set (w := after_all _ _ _ _).
  assert (R : ring (skeleton w) 0%nat [1%nat]) by (apply pair_ring; vm_compute; reflexivity).
  assert (M : masters_ok w) by (apply (reachable_ok quiet_driver 1 w setup_both_reachable)).
  assert (H : w_held w = ∅) by (apply (reachable_ok quiet_driver 1 w setup_both_reachable)).
  assert (L : pcm_link_lock ∉ w_held w) by (rewrite H; apply not_elem_of_empty).
  assert (F : forall b, b ∈ [1%nat] -> runtime_lock b ∉ w_held w)
    by (intros b _; rewrite H; apply not_elem_of_empty).
  split.
  - pose proof (group_operations quiet_driver GStart w 0%nat [1%nat] R M L F) as G.
    assert (E : first_failing (op_check GStart) w [0%nat; 1%nat] = Some (-EPIPE)) by (vm_compute; reflexivity).
    by rewrite E in G.
  - pose proof (group_operations quiet_driver GReset w 0%nat [1%nat] R M L F) as G.
    assert (E : first_failing (op_check GReset) w [0%nat; 1%nat] = None) by (vm_compute; reflexivity).
    rewrite E in G. destruct G as (res & w' & E1 & _ & _ & _ & _ & Hs & _).
    exists w'. rewrite E1, Hs; [done |]. intros s w0 [x Hx] Hm.
    apply wp_bind, wp_bind, (wp_modify s x); [done |]. apply wp_ret.
    eapply wp_bind, wp_mono; [apply check_divisors_spec |].
    + intros r (_ & Hp & _)%divisors_there_spec. simpl. by rewrite Hp.
    + simpl. rewrite lookup_insert_eq. eauto.
    + intros [] w1 K1.
      destruct (skeleton_dom _ w1 s (ka_skel _ _ _ K1)) as [y Hy]; [simpl; rewrite lookup_insert_eq; eauto |].
      eapply wp_bind, wp_modify; [exact Hy |]. by apply wp_ret.
Defined.

(** Linking splices two rings into one, and unlinking takes one substream out.  In a
    world in order, linking two set-up substreams of the same state and different groups
    makes one ring of all members; substreams that are not set up or differ in state give
    -EBADFD, members of one group -EALREADY, without any change; unlinking leaves the
    substream alone and the others in a ring. *)
Theorem link_unlink_rings w s st s1 st1 A :
  world_ok w -> w_held w = ∅ -> ring (skeleton w) s A ->
  states w !! s = Some st -> states w !! s1 = Some st1 ->
  (exists res w', snd_pcm_link s (PcmFile s1) w = Some (res, w') /\ states w' = states w /\
     (st = OPEN \/ st1 <> st -> res = -EBADFD /\ w' = w) /\
     (st <> OPEN -> st1 = st -> s1 ∈ s :: A -> res = -EALREADY /\ w' = w) /\
     (st <> OPEN -> st1 = st -> s1 ∉ s :: A ->
        res = 0 /\ forall B, ring (skeleton w) s1 B -> ring (skeleton w') s (s1 :: B ++ A))) /\
  (exists w', snd_pcm_unlink s w = Some (0, w') /\ states w' = states w /\
     ring (skeleton w') s [] /\ (forall a A', A = a :: A' -> ring (skeleton w') a A')).
Proof.
  intros WO Hh R Hst Hst1.
  assert (Hl : pcm_link_lock ∉ w_held w) by (rewrite Hh; apply not_elem_of_empty).
  split.
  - destruct (wp_run _ _ _ (link_spec w s st s1 st1 A WO Hl R Hst Hst1))
      as (res & w' & E & _ & _ & _ & A1 & A2 & A3 & A4). eauto 10.
  - destruct (wp_run _ _ _ (unlink_spec w s A WO Hl R)) as (res & w' & E & -> & _ & _ & _ & A1 & A2 & A3). eauto.
Qed.

Lemma self_ring w s : world_ok w -> nexts (skeleton w) !! s = Some s -> ring (skeleton w) s [].
Proof.
  intros WO Hn. split; [apply NoDup_singleton |].
  apply path_route; [exact (proj1 (proj1 (links_ok_maps _) (wo_links _ WO))) |]. by split.
Qed.

Lemma link_unlink_rings_witness :
  let w := after_all quiet_driver 1 (take 2 setup_both) pair_world in
  exists res w', snd_pcm_link 0 (PcmFile 1) w = Some (res, w') /\ ring (skeleton w') 0%nat [1%nat].
Proof.
  cbv zeta. set (w := after_all _ _ _ _).
  assert (H : forall w s, in_world w s = true -> is_Some (skeleton w !! s))
    by (intros w0 s; apply bool_decide_eq_true).
  assert (R : reachable quiet_driver 1 w).
  { unfold w, after_all, setup_both. cbn [fold_left take].
    repeat (apply reach_after; [| split; [apply H; vm_compute; reflexivity |]]).
    - apply reach_fresh, pair_world_fresh.
    - exact I.
    - exact I. }
  destruct (reachable_ok quiet_driver 1 w R) as [WO Hh _].
  pose proof (fun s => self_ring w s WO) as R0.
  destruct (link_unlink_rings w 0 SETUP 1 SETUP [] WO Hh) as [(res & w' & E & _ & _ & _ & L) _].
  - apply R0. vm_compute. reflexivity.
  - vm_compute. reflexivity.
  - vm_compute. reflexivity.
  - exists res, w'. split; [done |].
    destruct (L ltac:(done) ltac:(done) ltac:(by apply (bool_decide_unpack _))) as [_ LB].
    apply (LB []). apply R0. vm_compute. reflexivity.
Defined.

(** C37: setting the hardware parameters either commits them or closes the stream.  A
    stream that is in use or mapped gives -EBADFD and nothing changes.  Otherwise, with a
    driver that keeps to [DriverOk] and [DriverSizes], the call returns once the
    negotiation is over within the given rounds: on success the stream is set up, the
    buffer size is the one chosen, and the ring is valid; on failure the stream is in the
    open state; the other streams keep their states. *)
Theorem hw_params_commits_or_closes ops `{!DriverOk ops} `{!DriverSizes ops} rounds w s p x :
  world_ok w -> w_subs w !! s = Some x ->
  if may_set (ss_rt x) then
    match PcmOps.snd_pcm_hw_params ops rounds s p w with
    | Some ((res, q), w') =>
        world_ok w' /\ w_held w' = w_held w /\ w_trapped w' = w_trapped w /\
        (forall b, b <> s -> states w' !! b = states w !! b) /\
        (res < 0 -> states w' !! s = Some OPEN) /\
        (0 <= res -> res = 0 /\ states w' !! s = Some SETUP /\
           exists y, w_subs w' !! s = Some y /\
             rt_buffer_size (ss_rt y) = params_min q HW_BUFFER_SIZE /\ ring_config (ss_rt y))
    | None => negotiate ops rounds s p = None
    end
  else PcmOps.snd_pcm_hw_params ops rounds s p w = Some ((-EBADFD, p), w).
Proof.
  intros WO Hx. rewrite (hw_params_run ops rounds w s p x Hx).
  destruct (may_set (ss_rt x)); [| done].
  assert (Hs : is_Some (skeleton w !! s)) by (unfold skeleton; rewrite lookup_fmap, Hx; eauto).
  pose proof (hw_params_set_run ops rounds w s p WO Hs) as H.
  destruct (snd_pcm_hw_params_set ops rounds s p w) as [[[res q] w'] |]; [| done].
  destruct H as (A & B & C & _ & D & E & F). by split_and!.
Qed.

Lemma hw_params_commits_or_closes_witness :
  exists q w', PcmOps.snd_pcm_hw_params quiet_driver 1 1 any_params pair_world = Some ((0, q), w') /\
    states w' !! 1%nat = Some SETUP.
Proof.
  pose proof (hw_params_commits_or_closes quiet_driver 1 pair_world 1 any_params (opened true 1)
                (fresh_world_ok _ pair_world_fresh) eq_refl) as H.
  change (may_set _) with true in H. cbv iota in H.
  assert (E : fst <$> (fst <$> PcmOps.snd_pcm_hw_params quiet_driver 1 1 any_params pair_world) = Some 0)
    by (vm_compute; reflexivity).
  destruct (PcmOps.snd_pcm_hw_params quiet_driver 1 1 any_params pair_world) as [[[res q] w'] |];
    [| discriminate]. simpl in E. injection E as ->. destruct H as (_ & _ & _ & _ & _ & F).
  exists q, w'. split; [done |]. apply F. lia.
Defined.

(** Dropping a stream sets up a linked member that has been freed.  Two linked
    prepared substreams; the hardware resources of the second are freed, which puts it in
    the open state; dropping the first moves all members to the set-up state, the second
    included, without new parameters. *)
Theorem drop_sets_up_freed_member :
  let w := after_all quiet_driver 1 (setup_both ++ [CallHwFree 1]) pair_world in
  states w !! 1%nat = Some OPEN /\
  states (after quiet_driver 1 (CallCaptureDrop 0) w) !! 1%nat = Some SETUP.
Proof. by vm_compute. Qed.

(** Software parameters whose silence thresholds wrap around are accepted and let the
    silence overwrite queued audio: of the eight frames of the ring three (2 to 4) are
    queued, and after the call and the next position update all of them are silence. *)
Theorem sw_params_wrap_silences_queue :
  let greedy := SwParams 0 1 0 1 1 1 8 0x7FFFFFFF 0x80000001 in
  sw_params_ok greedy small_stream = true /\
  let r := sw_params_apply quiet_driver (sw_params_store greedy small_stream) in
  snd_pcm_playback_hw_avail r = 3 /\
  rt_dma_area r = [1; 2; 3; 4; 5; 128; 128; 128] /\
  rt_dma_area (snd_pcm_playback_silence None r) = [128; 128; 128; 128; 128; 128; 128; 128].
Proof. by vm_compute. Qed.

(** ** Rewinding *)

Lemma step_back_mod r A n :
  ring_config r -> rt_appl_ptr r = A mod rt_boundary r -> 0 <= n <= rt_buffer_size r ->
  rt_appl_ptr (step_back n r) = (A - n) mod rt_boundary r.
Proof.
  intros [Hb Hm Hge Hle] Ea Hn. unfold step_back. simpl. rewrite Ea.
  set (b := rt_boundary r) in *. pose proof (Z.mod_pos_bound A b ltac:(lia)) as HA.
  rewrite s32_small by range_lia.
  rewrite <- Zminus_mod_idemp_l. set (a := A mod b) in *.
  destruct (Z.ltb_spec (a - n) 0).
  - rewrite u32_small by range_lia. apply Z.mod_unique with (-1); [left; lia | ring].
  - rewrite u32_small by range_lia. rewrite Z.mod_small; [done | lia].
Qed.

Lemma check_run s f w x :
  w_subs w !! s = Some x ->
  exists t, check_divisors s f w = Some (tt, w <| w_trapped := t |>).
Proof.
  intros Hx. unfold check_divisors, runtime, bind, sub. rewrite Hx. unfold ret, divides.
  destruct (forallb truth (f (ss_rt x))); [exists (w_trapped w); by destruct w | by exists true].
Qed.

(** The tick timer moves neither pointer. *)
Lemma when_tick_run s (b : bool) w x :
  w_subs w !! s = Some x ->
  exists w' y, when b (tick s) w = Some (tt, w') /\ w_subs w' !! s = Some y /\
    rt_appl_ptr (ss_rt y) = rt_appl_ptr (ss_rt x) /\ rt_hw_ptr (ss_rt y) = rt_hw_ptr (ss_rt x).
Proof.
  intros Hx. destruct b; [| by exists w, x]. unfold when, tick.
  destruct (check_run s wanted_divisors w x Hx) as [t Et]. rewrite (bind_some _ _ _ _ _ Et).
  unfold modify, modify_sub, bind, sub. simpl. rewrite Hx. unfold put_sub.
  eexists _, _. split; [reflexivity |]. split; [simpl; apply lookup_insert_eq |]. simpl.
  unfold tick_if_wanted, snd_pcm_tick_prepare. cbv zeta. destruct (truth _); [| done].
  destruct (_ =? _); [done |]. by destruct (_ <=? _).
Qed.

(** Rewinding takes back at most the frames that are still ahead of the hardware.
    With [v] such frames, a rewind by [frames] moves the application pointer back by the
    [n] it returns: all [v] when more are asked for, else [frames] rounded down to the
    transfer alignment; the hardware pointer stays. *)
Theorem rewind_takes_back s w x A v frames :
  w_subs w !! s = Some x -> ring_config (ss_rt x) ->
  rt_appl_ptr (ss_rt x) = A mod rt_boundary (ss_rt x) ->
  0 <= v <= rt_buffer_size (ss_rt x) -> 0 < rt_xfer_align (ss_rt x) -> 0 <= frames ->
  exists n w' x', rewind_by s v frames w = Some (n, w') /\ w_subs w' !! s = Some x' /\
    n = (if v <? frames then v else if v =? 0 then 0
         else frames - frames mod rt_xfer_align (ss_rt x)) /\
    0 <= n <= v /\ n <= frames /\
    rt_appl_ptr (ss_rt x') = (A - n) mod rt_boundary (ss_rt x) /\
    rt_hw_ptr (ss_rt x') = rt_hw_ptr (ss_rt x).
Proof.
  intros Hx C Ea Hv Ha Hf. pose proof C as [Hb Hm Hge Hle].
  pose proof (Z.mod_pos_bound frames (rt_xfer_align (ss_rt x)) Ha) as Hmod.
  pose proof (Z.mod_le frames _ Hf Ha) as Hmle.
  unfold rewind_by. cbv zeta. rewrite (s32_small v) by range_lia.
  destruct (Z.leb_spec v 0) as [Hv0 | Hv0].
  { assert (v = 0) as -> by lia. exists 0, w, x. split; [done |]. split; [done |].
    split; [destruct (0 <? frames); done |]. rewrite Z.sub_0_r. split_and!; done || lia. }
  set (n := if v <? frames then v else frames - frames mod rt_xfer_align (ss_rt x)).
  assert (Hn : 0 <= n <= v /\ n <= frames) by (unfold n; destruct (Z.ltb_spec v frames); lia).
  destruct (check_run s (fun r => if v <? frames then [] else [rt_xfer_align r]) w x Hx) as [t Et].
  rewrite (bind_some _ _ _ _ _ Et). set (w1 := w <| w_trapped := t |>). assert (Hx1 : w_subs w1 !! s = Some x) by done.
  rewrite (bind_some _ _ _ (ss_rt x) w1) by (unfold runtime, bind, sub; by rewrite Hx1).
  fold n. rewrite (s32_small n) by range_lia. unfold modify.
  set (y := x <| ss_rt := step_back n (ss_rt x) |>).
  rewrite (bind_some _ _ _ tt (w1 <| w_subs := <[s := y]> (w_subs w1) |>))
    by (unfold modify_sub, bind, sub; by rewrite Hx1).
  set (w2 := w1 <| w_subs := <[s := y]> (w_subs w1) |>).
  assert (Hy : w_subs w2 !! s = Some y) by apply lookup_insert_eq.
  assert (Eptr : rt_appl_ptr (ss_rt y) = (A - n) mod rt_boundary (ss_rt x))
    by (apply step_back_mod; [done | done | lia]).
  destruct (when_tick_run s (state_is (rt_state (ss_rt x)) RUNNING) w2 y Hy)
    as (w3 & z & E & Hz & Eaz & Ehz).
  rewrite (bind_some _ _ _ _ _ E). exists n, w3, z.
  split; [done |]. split; [done |].
  split; [unfold n; destruct (Z.eqb_spec v 0); [lia | done] |].
  split; [lia |]. split; [lia |]. split; [congruence | done].
Qed.

Lemma rewind_takes_back_witness :
  let w := World {[1%nat := (opened true 1) <| ss_rt := sample_stream <| rt_appl_ptr := 3000 |> |>]} ∅ 0 false in
  exists n w', rewind_by 1 3000 2500 w = Some (n, w') /\ 0 <= n <= 2500.
Proof.
  intros w.
  destruct (rewind_takes_back 1 w ((opened true 1) <| ss_rt := sample_stream <| rt_appl_ptr := 3000 |> |>) 3000 3000 2500)
    as (n & w' & x' & E & _ & _ & H & H' & _).
  - done.
  - split; vm_compute; congruence.
  - done.
  - vm_compute. split; congruence.
  - done.
  - done.
  - exists n, w'. split; [exact E | lia].
Defined.
