(* ===== verification/SeqEvent.v ===== *)
(** * SeqEvent: sequencer events and their time stamps

    [struct sndrv_seq_event] with its two unions (alsa/include/sound/asequencer.h) and the
    comparisons and increments of time stamps (alsa/core/seq/seq_timer.h).  The unions are
    kept as the words they overlay: a tick is the first word of a time stamp, and the
    twelve bytes of data are three little-endian words. *)

From S2P Require Import Prelude.
Open Scope Z_scope.

(** ** Bytes of a word *)

Definition byte_of (k w : Z) : Z := Z.land (Z.shiftr w (8 * k)) 255.
Definition set_byte (k v w : Z) : Z := w - byte_of k w * 2 ^ (8 * k) + v * 2 ^ (8 * k).
Definition le32 (w : Z) : list Z := [byte_of 0 w; byte_of 1 w; byte_of 2 w; byte_of 3 w].
Definition word (b0 b1 b2 b3 : Z) : Z := b0 + b1 * 256 + b2 * 65536 + b3 * 16777216.

Definition is_byte (b : Z) : Prop := 0 <= b < 256.

(** ** Events *)

(** [union sndrv_seq_timestamp]; [tick] shares its word with [tv_sec]. *)
Record snd_seq_timestamp := Timestamp { tv_sec : Z; tv_nsec : Z }.
Definition tick (t : snd_seq_timestamp) : Z := tv_sec t.

Record snd_seq_addr := Addr { addr_client : Z; addr_port : Z }.

Record snd_seq_event := Event {
  ev_type : Z; ev_flags : Z; ev_tag : Z; ev_queue : Z;
  ev_time : snd_seq_timestamp;
  ev_source : snd_seq_addr; ev_dest : snd_seq_addr;
  ev_d0 : Z; ev_d1 : Z; ev_d2 : Z }.

#[export] Instance settable_timestamp : Settable snd_seq_timestamp :=
  fun t => Timestamp (tv_sec t) (tv_nsec t).
#[export] Instance settable_event : Settable snd_seq_event :=
  fun e => Event (ev_type e) (ev_flags e) (ev_tag e) (ev_queue e) (ev_time e) (ev_source e)
    (ev_dest e) (ev_d0 e) (ev_d1 e) (ev_d2 e).

(** The members of [data]. *)
Definition note_channel (e : snd_seq_event) : Z := byte_of 0 (ev_d0 e).
Definition note_note (e : snd_seq_event) : Z := byte_of 1 (ev_d0 e).
Definition note_velocity (e : snd_seq_event) : Z := byte_of 2 (ev_d0 e).
Definition note_off_velocity (e : snd_seq_event) : Z := byte_of 3 (ev_d0 e).
Definition note_duration (e : snd_seq_event) : Z := ev_d1 e.
Definition control_channel (e : snd_seq_event) : Z := byte_of 0 (ev_d0 e).
Definition control_param (e : snd_seq_event) : Z := ev_d1 e.
Definition control_value (e : snd_seq_event) : Z := s32 (ev_d2 e).
Definition ext_len (e : snd_seq_event) : Z := ev_d0 e.
Definition ext_ptr (e : snd_seq_event) : Z := ev_d1 e.
Definition queue_queue (e : snd_seq_event) : Z := byte_of 0 (ev_d0 e).
Definition queue_value (e : snd_seq_event) : Z := s32 (ev_d1 e).
Definition queue_time (e : snd_seq_event) : snd_seq_timestamp := Timestamp (ev_d1 e) (ev_d2 e).

Definition SEQ_EVENT_SIZE : Z := 28.   (* sizeof(snd_seq_event_t) *)

(** The memory of an event. *)
Definition bytes_of_event (e : snd_seq_event) : list Z :=
  [ev_type e; ev_flags e; ev_tag e; ev_queue e] ++
  le32 (tv_sec (ev_time e)) ++ le32 (tv_nsec (ev_time e)) ++
  [addr_client (ev_source e); addr_port (ev_source e);
   addr_client (ev_dest e); addr_port (ev_dest e)] ++
  le32 (ev_d0 e) ++ le32 (ev_d1 e) ++ le32 (ev_d2 e).

Definition event_of_bytes (l : list Z) : snd_seq_event :=
  let b i := nth i l 0 in
  let w i := word (b i) (b (i + 1)%nat) (b (i + 2)%nat) (b (i + 3)%nat) in
  Event (b 0%nat) (b 1%nat) (b 2%nat) (b 3%nat) (Timestamp (w 4%nat) (w 8%nat))
    (Addr (b 12%nat) (b 13%nat)) (Addr (b 14%nat) (b 15%nat)) (w 16%nat) (w 20%nat) (w 24%nat).

(** ** Types and flags *)

Definition EVENT_NOTE : Z := 5.
Definition EVENT_NOTEON : Z := 6.
Definition EVENT_NOTEOFF : Z := 7.
Definition EVENT_KEYPRESS : Z := 8.
Definition EVENT_CONTROLLER : Z := 10.
Definition EVENT_PGMCHANGE : Z := 11.
Definition EVENT_CHANPRESS : Z := 12.
Definition EVENT_PITCHBEND : Z := 13.
Definition EVENT_CONTROL14 : Z := 14.
Definition EVENT_SONGPOS : Z := 20.
Definition EVENT_SONGSEL : Z := 21.
Definition EVENT_QFRAME : Z := 22.
Definition EVENT_START : Z := 30.
Definition EVENT_CONTINUE : Z := 31.
Definition EVENT_STOP : Z := 32.
Definition EVENT_SETPOS_TICK : Z := 33.
Definition EVENT_SETPOS_TIME : Z := 34.
Definition EVENT_TEMPO : Z := 35.
Definition EVENT_CLOCK : Z := 36.
Definition EVENT_TUNE_REQUEST : Z := 40.
Definition EVENT_RESET : Z := 41.
Definition EVENT_SENSING : Z := 42.
Definition EVENT_SYSEX : Z := 130.
Definition EVENT_NONE : Z := 255.

Definition TIME_STAMP_REAL : Z := 0x1.
Definition TIME_STAMP_MASK : Z := 0x1.
Definition TIME_MODE_REL : Z := 0x2.
Definition TIME_MODE_MASK : Z := 0x2.
Definition EVENT_LENGTH_VARIABLE : Z := 0x4.
Definition EVENT_LENGTH_MASK : Z := 0xc.
Definition PRIORITY_MASK : Z := 0x10.

Definition EXT_MASK : Z := 0xc0000000.
Definition EXT_USRPTR : Z := 0x80000000.
Definition EXT_CHAINED : Z := 0x40000000.

Definition is_channel_type (e : snd_seq_event) : bool := (5 <=? ev_type e) && (ev_type e <? 20).
Definition is_variable (e : snd_seq_event) : bool :=
  Z.land (ev_flags e) EVENT_LENGTH_MASK =? EVENT_LENGTH_VARIABLE.
Definition is_tick (e : snd_seq_event) : bool := Z.land (ev_flags e) TIME_STAMP_MASK =? 0.
Definition is_real (e : snd_seq_event) : bool :=
  Z.land (ev_flags e) TIME_STAMP_MASK =? TIME_STAMP_REAL.
Definition is_reltime (e : snd_seq_event) : bool :=
  Z.land (ev_flags e) TIME_MODE_MASK =? TIME_MODE_REL.
Definition is_prior (e : snd_seq_event) : bool := truth (Z.land (ev_flags e) PRIORITY_MASK).

Definition ADDRESS_SUBSCRIBERS : Z := 254.
Definition SEQ_MAX_QUEUES : Z := 8.
Definition SEQ_MAX_CLIENTS : Z := 192.
Definition SEQ_MAX_EVENTS : Z := 2000.
Definition SEQ_MAX_DEQUEUE : Z := 50.
Definition SEQ_DEFAULT_CHUNK_EVENTS : Z := 64.

(** ** Time stamps *)

Definition snd_seq_compare_tick_time (a b : Z) : bool := b <=? a.

Definition snd_seq_compare_real_time (a b : snd_seq_timestamp) : bool :=
  if tv_sec b <? tv_sec a then true
  else (tv_sec a =? tv_sec b) && (tv_nsec b <=? tv_nsec a).

Definition NSEC : Z := 1000000000.

(** [while (tm->tv_nsec >= 1000000000)]: at most four rounds take a 32-bit word below. *)
Fixpoint sanity_loop (fuel : nat) (t : snd_seq_timestamp) : option snd_seq_timestamp :=
  if NSEC <=? tv_nsec t then
    match fuel with
    | O => None
    | S fuel => sanity_loop fuel (Timestamp (u32 (tv_sec t + 1)) (u32 (tv_nsec t - NSEC)))
    end
  else Some t.

Definition snd_seq_sanity_real_time (t : snd_seq_timestamp) : snd_seq_timestamp :=
  default t (sanity_loop 4 t).

Definition snd_seq_inc_real_time (t inc : snd_seq_timestamp) : snd_seq_timestamp :=
  snd_seq_sanity_real_time
    (Timestamp (u32 (tv_sec t + tv_sec inc)) (u32 (tv_nsec t + tv_nsec inc))).

Definition snd_seq_inc_time_nsec (t : snd_seq_timestamp) (nsec : Z) : snd_seq_timestamp :=
  snd_seq_sanity_real_time (t <| tv_nsec := u32 (tv_nsec t + nsec) |>).

(** ** Lemmas on bytes and words *)

Lemma byte_of_divmod k w : 0 <= k -> byte_of k w = (w / 2 ^ (8 * k)) mod 256.
Proof.
  intros Hk. unfold byte_of. rewrite Z.shiftr_div_pow2 by lia.
  change 255 with (Z.ones 8). by rewrite Z.land_ones by lia.
Qed.

Ltac bytes := unfold le32, word, set_byte; rewrite ?byte_of_divmod by lia;
  change (2 ^ (8 * 0)) with 1; change (2 ^ (8 * 1)) with 256;
  change (2 ^ (8 * 2)) with 65536; change (2 ^ (8 * 3)) with 16777216.

Lemma byte_of_range k w : 0 <= k -> is_byte (byte_of k w).
Proof. intros Hk. rewrite byte_of_divmod by done. apply Z.mod_pos_bound. lia. Qed.

Lemma word_le32 w : is_u32 w -> word (byte_of 0 w) (byte_of 1 w) (byte_of 2 w) (byte_of 3 w) = w.
Proof. intros H. bytes. word_lia. Qed.

Lemma byte_of_word b0 b1 b2 b3 :
  is_byte b0 -> is_byte b1 -> is_byte b2 -> is_byte b3 ->
  byte_of 0 (word b0 b1 b2 b3) = b0 /\ byte_of 1 (word b0 b1 b2 b3) = b1 /\
  byte_of 2 (word b0 b1 b2 b3) = b2 /\ byte_of 3 (word b0 b1 b2 b3) = b3.
Proof. unfold is_byte. intros. bytes. split_and!; Z.div_mod_to_equations; lia. Qed.

Lemma le32_word b0 b1 b2 b3 :
  is_byte b0 -> is_byte b1 -> is_byte b2 -> is_byte b3 -> le32 (word b0 b1 b2 b3) = [b0; b1; b2; b3].
Proof.
  intros H0 H1 H2 H3. destruct (byte_of_word b0 b1 b2 b3 H0 H1 H2 H3) as (E0 & E1 & E2 & E3).
  unfold le32. by rewrite E0, E1, E2, E3.
Qed.

Lemma word_range b0 b1 b2 b3 :
  is_byte b0 -> is_byte b1 -> is_byte b2 -> is_byte b3 -> is_u32 (word b0 b1 b2 b3).
Proof. unfold is_byte, word, is_u32. lia. Qed.

(** The bytes of a word whose low three bytes are assigned one after another. *)
Lemma set_byte_word k v b0 b1 b2 b3 :
  is_byte b0 -> is_byte b1 -> is_byte b2 -> is_byte b3 ->
  (k = 0 -> set_byte k v (word b0 b1 b2 b3) = word v b1 b2 b3) /\
  (k = 1 -> set_byte k v (word b0 b1 b2 b3) = word b0 v b2 b3) /\
  (k = 2 -> set_byte k v (word b0 b1 b2 b3) = word b0 b1 v b3).
Proof.
  unfold is_byte. intros. split_and!; intros ->; bytes; Z.div_mod_to_equations; lia.
Qed.

Record event_wf (e : snd_seq_event) : Prop := {
  wf_head : Forall is_byte [ev_type e; ev_flags e; ev_tag e; ev_queue e;
              addr_client (ev_source e); addr_port (ev_source e);
              addr_client (ev_dest e); addr_port (ev_dest e)];
  wf_words : Forall is_u32 [tv_sec (ev_time e); tv_nsec (ev_time e); ev_d0 e; ev_d1 e; ev_d2 e] }.

Lemma length_bytes_of_event e : length (bytes_of_event e) = 28%nat.
Proof. reflexivity. Qed.

Lemma event_of_bytes_of_event e : event_wf e -> event_of_bytes (bytes_of_event e) = e.
Proof.
  destruct e as [? ? ? ? [s n] [? ?] [? ?] d0 d1 d2]. intros [_ W].
  apply Forall_cons in W as [? W]. apply Forall_cons in W as [? W]. apply Forall_cons in W as [? W].
  apply Forall_cons in W as [? W]. apply Forall_cons in W as [? _]. simpl in *.
  unfold event_of_bytes, bytes_of_event, le32. simpl.
  by rewrite !word_le32 by done.
Qed.

Lemma bytes_of_event_of_bytes l :
  length l = 28%nat -> Forall is_byte l -> bytes_of_event (event_of_bytes l) = l.
Proof.
  intros L F. do 28 (destruct l as [| ? l]; [discriminate |]). destruct l; [| discriminate].
  rewrite !Forall_cons in F. destruct_and? F.
  unfold event_of_bytes, bytes_of_event. cbn [nth Nat.add ev_type ev_flags ev_tag ev_queue ev_time
    ev_source ev_dest ev_d0 ev_d1 ev_d2 tv_sec tv_nsec addr_client addr_port].
  rewrite !le32_word by done. reflexivity.
Qed.

Lemma event_of_bytes_wf l :
  length l = 28%nat -> Forall is_byte l -> event_wf (event_of_bytes l).
Proof.
  intros L F. do 28 (destruct l as [| ? l]; [discriminate |]). destruct l; [| discriminate].
  rewrite !Forall_cons in F. destruct_and? F.
  split; unfold event_of_bytes; simpl; rewrite !Forall_cons; split_and!;
    first [done | by apply Forall_nil | by apply word_range].
Qed.

(** ** Lemmas on time stamps *)

(** Nanoseconds from zero. *)
Definition nsec_of (t : snd_seq_timestamp) : Z := tv_sec t * NSEC + tv_nsec t.

Record time_wf (t : snd_seq_timestamp) : Prop := {
  time_sec : is_u32 (tv_sec t);
  time_nsec : 0 <= tv_nsec t < NSEC }.

Lemma sanity_loop_spec fuel t :
  is_u32 (tv_sec t) -> 0 <= tv_nsec t -> tv_nsec t < (Z.of_nat fuel + 1) * NSEC ->
  is_u32 (tv_nsec t) ->
  sanity_loop fuel t = Some (Timestamp (u32 (tv_sec t + tv_nsec t / NSEC)) (tv_nsec t mod NSEC)).
Proof.
  revert t. induction fuel as [| fuel IH]; intros [s n] Hs Hn Hf Hu; cbn [sanity_loop tv_sec tv_nsec] in *.
  all: unfold NSEC in *; destruct (Z.leb_spec 1000000000 n); [| do 2 f_equal; word_lia].
  - lia.
  - rewrite (u32_small (n - _)) by range_lia. rewrite IH; simpl; [| word_lia | lia | lia | range_lia].
    do 2 f_equal; word_lia.
Qed.

Lemma sanity_real_time_spec t :
  is_u32 (tv_sec t) -> is_u32 (tv_nsec t) ->
  snd_seq_sanity_real_time t =
    Timestamp (u32 (tv_sec t + tv_nsec t / NSEC)) (tv_nsec t mod NSEC).
Proof.
  intros Hs Hn. unfold snd_seq_sanity_real_time.
  rewrite (sanity_loop_spec 4 t Hs) by (try done; unfold NSEC; range_lia). done.
Qed.

Lemma sanity_real_time_wf t :
  is_u32 (tv_sec t) -> is_u32 (tv_nsec t) -> time_wf (snd_seq_sanity_real_time t).
Proof.
  intros Hs Hn. rewrite sanity_real_time_spec by done.
  split; simpl; [apply u32_range | unfold NSEC; word_lia].
Qed.

(** Below the overflow of the seconds the sum of times is exact. *)
Lemma inc_time_nsec_exact t nsec :
  time_wf t -> 0 <= nsec <= UINT_MAX - NSEC -> tv_sec t + (tv_nsec t + nsec) / NSEC <= UINT_MAX ->
  time_wf (snd_seq_inc_time_nsec t nsec) /\ nsec_of (snd_seq_inc_time_nsec t nsec) = nsec_of t + nsec.
Proof.
  intros [Hs Hn] Hi Hmax. unfold snd_seq_inc_time_nsec. destruct t as [s n]. simpl in *.
  unfold NSEC in *. rewrite (u32_small (n + nsec)) by range_lia.
  split; [apply sanity_real_time_wf; simpl; range_lia |].
  rewrite sanity_real_time_spec by (simpl; range_lia). unfold nsec_of, NSEC in *. simpl. word_lia.
Qed.

Lemma inc_real_time_exact t inc :
  time_wf t -> time_wf inc -> nsec_of t + nsec_of inc < (UINT_MAX + 1) * NSEC ->
  time_wf (snd_seq_inc_real_time t inc) /\
  nsec_of (snd_seq_inc_real_time t inc) = nsec_of t + nsec_of inc.
Proof.
  intros [Hs Hn] [Hs' Hn'] Hmax. unfold snd_seq_inc_real_time, nsec_of in *. destruct t as [s n], inc as [s' n'].
  simpl in *. unfold NSEC in *. rewrite (u32_small (n + n')), (u32_small (s + s')) by range_lia.
  split; [apply sanity_real_time_wf; simpl; range_lia |].
  rewrite sanity_real_time_spec by (simpl; range_lia). unfold NSEC in *. simpl. word_lia.
Qed.

(** Comparing stamps is comparing nanoseconds. *)
Lemma compare_real_time_nsec a b :
  time_wf a -> time_wf b -> snd_seq_compare_real_time a b = (nsec_of b <=? nsec_of a).
Proof.
  intros [] []. unfold snd_seq_compare_real_time, nsec_of, NSEC in *.
  repeat btest; simpl; repeat btest; lia || reflexivity.
Qed.
