(* ===== verification/SeqCells.v ===== *)
(** * SeqCells: the memory of sequencer cells

    Event cells live at addresses and are linked through their [next] fields, in the free
    list of a pool, in a queue or as the chained data of a variable-length event
    (alsa/core/seq/seq_memory.h).  This file holds the memory, its primitive accesses and
    the representation of linked cells by lists of addresses. *)

From S2P Require Export StateMonad.
From S2P Require Import Prelude SeqEvent.
Open Scope Z_scope.
Open Scope state_scope.

Definition NULL : Z := 0.

(** [snd_seq_event_cell_t]. *)
Record cell := Cell { c_event : snd_seq_event; c_pool : Z; c_next : Z }.

(** [struct pool]; a chunk is its address and its number of cells. *)
Record pool := Pool {
  p_ptr : list (Z * Z);
  p_free : Z;
  p_total_elements : Z;
  p_counter : Z;
  p_size : Z; p_room : Z;
  p_closing : bool;
  p_max_used : Z;
  p_event_alloc_failures : Z; p_event_alloc_success : Z;
  p_sleepers : bool;                (* waitqueue_active(&pool->output_sleep) *)
  p_wakeups : Z }.

(** Cells and pools by address, and the bytes of other buffers, of the kernel and of users. *)
Record seqmem := Seqmem {
  m_cells : gmap Z cell;
  m_pools : gmap Z pool;
  m_bytes : gmap Z Z }.

#[export] Instance settable_cell : Settable cell := fun c => Cell (c_event c) (c_pool c) (c_next c).
#[export] Instance settable_pool : Settable pool :=
  fun p => Pool (p_ptr p) (p_free p) (p_total_elements p) (p_counter p) (p_size p) (p_room p)
    (p_closing p) (p_max_used p) (p_event_alloc_failures p) (p_event_alloc_success p)
    (p_sleepers p) (p_wakeups p).
#[export] Instance settable_seqmem : Settable seqmem :=
  fun m => Seqmem (m_cells m) (m_pools m) (m_bytes m).

Abbreviation M := (ST seqmem).

(** ** Accesses: an address that holds nothing, [NULL] among them, crashes *)

Definition cell_at (a : Z) : M cell := fun m =>
  match m_cells m !! a with Some x => Some (x, m) | None => None end.
Definition pool_at (a : Z) : M pool := fun m =>
  match m_pools m !! a with Some x => Some (x, m) | None => None end.

Definition with_cell (a : Z) (x : cell) (m : seqmem) : seqmem :=
  m <| m_cells := <[a := x]> (m_cells m) |>.
Definition with_pool (a : Z) (x : pool) (m : seqmem) : seqmem :=
  m <| m_pools := <[a := x]> (m_pools m) |>.

Definition modify_cell (a : Z) (f : cell -> cell) : M unit :=
  x <- cell_at a;; update (with_cell a (f x)).
Definition modify_pool (a : Z) (f : pool -> pool) : M unit :=
  x <- pool_at a;; update (with_pool a (f x)).

Definition set_next (a n : Z) : M unit := modify_cell a (fun x => x <| c_next := n |>).

(** The bytes that can be read from an address, up to [n]. *)
Fixpoint readable (m : seqmem) (a : Z) (n : nat) : list Z :=
  match n with
  | O => []
  | S n => match m_bytes m !! a with Some b => b :: readable m (a + 1) n | None => [] end
  end.

(** [memcpy] and [copy_from_user] of [n] bytes from [a]; the latter stops at a fault. *)
Definition memory_at (a : Z) (n : nat) : M (list Z) := fun m =>
  let l := readable m a n in
  if (length l =? n)%nat then Some (l, m) else None.
Definition user_at (a : Z) (n : nat) : M (list Z) := fun m => Some (readable m a n, m).

(** Overwriting the first bytes of an event. *)
Definition overlay (l : list Z) (e : snd_seq_event) : snd_seq_event :=
  event_of_bytes (l ++ drop (length l) (bytes_of_event e)).

(** A bound on the length of any chain of cells. *)
Definition chain_fuel (m : seqmem) : nat := S (size (m_cells m)).

(** ** Linked cells *)

Section Segments.
Implicit Types (H : gmap Z cell) (a b c : Z) (l : list Z).

(** The cells at [l] lead from [a] to [b]. *)
Fixpoint lseg H a l b : Prop :=
  match l with
  | [] => a = b
  | c :: l => a = c /\ c <> NULL /\ exists x, H !! c = Some x /\ lseg H (c_next x) l b
  end.

Definition chain H a l : Prop := lseg H a l NULL.

Lemma lseg_app H a l l' b : lseg H a (l ++ l') b <-> exists c, lseg H a l c /\ lseg H c l' b.
Proof.
  revert a. induction l as [| d l IH]; intros a; simpl.
  - split; [eauto | by intros (c & -> & ?)].
  - split.
    + intros (-> & Hn & x & Hx & (c & ? & ?)%IH). exists c. eauto 6.
    + intros (c & (-> & Hn & x & Hx & ?) & ?). split; [done |]. split; [done |].
      exists x. split; [done |]. apply IH. eauto.
Qed.

Lemma lseg_frame H H' a l b :
  (forall c, c ∈ l -> exists x x', H !! c = Some x /\ H' !! c = Some x' /\ c_next x' = c_next x) ->
  lseg H a l b -> lseg H' a l b.
Proof.
  revert a. induction l as [| d l IH]; intros a F; simpl; [done |].
  intros (-> & Hn & x & Hx & S). split; [done |]. split; [done |].
  destruct (F d ltac:(left)) as (y & y' & Hy & Hy' & E). simplify_eq.
  exists y'. split; [done |]. rewrite E. apply IH; [| done]. intros c Hc. apply F. by right.
Qed.

Lemma lseg_insert H a l b c x : c ∉ l -> lseg H a l b -> lseg (<[c := x]> H) a l b.
Proof.
  revert a. induction l as [| d l IH]; intros a; simpl; [done |].
  rewrite not_elem_of_cons. intros [Hc Hl] (-> & Hn & y & Hy & S).
  split; [done |]. split; [done |]. exists y. rewrite lookup_insert_ne by done. auto.
Qed.

Lemma chain_insert H a l c x : c ∉ l -> chain H a l -> chain (<[c := x]> H) a l.
Proof. apply lseg_insert. Qed.

Lemma chain_null H l : chain H NULL l -> l = [].
Proof. destruct l as [| c l]; [done |]. intros (? & ? & _). congruence. Qed.

Lemma chain_cons H a l :
  a <> NULL -> chain H a l -> exists x l', l = a :: l' /\ H !! a = Some x /\ chain H (c_next x) l'.
Proof.
  destruct l as [| c l]; [by intros ? ? |]. intros _ (-> & _ & x & Hx & S). eauto.
Qed.

Lemma chain_inj H a l l' : chain H a l -> chain H a l' -> l = l'.
Proof.
  revert a l'. induction l as [| c l IH]; intros a l'.
  - intros E. unfold chain in E. simpl in E. subst a. intros E%chain_null. done.
  - intros (-> & Hn & x & Hx & S) S'. destruct (chain_cons H c l' Hn S') as (y & k & -> & Hy & S2).
    simplify_eq. f_equal. by eapply IH.
Qed.

Lemma lseg_cell H a l b c : lseg H a l b -> c ∈ l -> is_Some (H !! c) /\ c <> NULL.
Proof.
  revert a. induction l as [| d l IH]; intros a; simpl; [by rewrite elem_of_nil |].
  intros (-> & Hn & x & Hx & S) [-> | Hc]%elem_of_cons; eauto.
Qed.

(** The suffix of a chain from one of its cells. *)
Lemma lseg_suffix H a l b c :
  lseg H a l b -> c ∈ l -> exists l1 l2, l = l1 ++ c :: l2 /\ lseg H c (c :: l2) b.
Proof.
  revert a. induction l as [| d l IH]; intros a S; [by rewrite elem_of_nil |].
  intros [-> | Hc]%elem_of_cons.
  - exists [], l. split; [done |]. destruct S as (-> & S). by split.
  - destruct S as (-> & Hn & x & Hx & S). destruct (IH _ S Hc) as (l1 & l2 & -> & S2).
    exists (d :: l1), l2. done.
Qed.

(** A chain visits no cell twice. *)
Lemma chain_nodup H a l : chain H a l -> NoDup l.
Proof.
  revert a. induction l as [| c l IH]; intros a S; [constructor |].
  pose proof S as (-> & Hn & x & Hx & S'). constructor; [| by eapply IH].
  intros Hc. destruct (lseg_suffix _ _ _ _ _ S' Hc) as (l1 & l2 & -> & S2).
  pose proof (chain_inj H c _ _ S S2) as E. apply (f_equal length) in E.
  simpl in E. rewrite length_app in E. simpl in E. lia.
Qed.

(** Hence the fuel suffices. *)
Lemma chain_length H a l : chain H a l -> (length l <= size H)%nat.
Proof.
  intros S. rewrite <- (size_list_to_set (C := gset Z) l (chain_nodup _ _ _ S)), <- size_dom.
  apply subseteq_size. intros c Hc. apply elem_of_dom. apply elem_of_list_to_set in Hc.
  by destruct (lseg_cell _ _ _ _ _ S Hc).
Qed.

(** Linking a fresh cell behind the last one. *)
Lemma lseg_snoc H a l t x c y :
  t ∉ l -> c ∉ t :: l -> c <> NULL -> H !! t = Some x -> H !! c = Some y ->
  lseg H a (l ++ [t]) (c_next x) ->
  lseg (<[t := x <| c_next := c |>]> H) a ((l ++ [t]) ++ [c]) (c_next y).
Proof.
  intros Ht Hc Hn Hx Hy S. apply not_elem_of_cons in Hc as [Hct Hcl].
  apply lseg_app in S as (d & S1 & (-> & Hn' & z & Hz & _)). simplify_eq.
  apply lseg_app. exists c. split.
  - apply lseg_app. exists t. split; [by apply lseg_insert |]. simpl. split; [done |].
    split; [done |]. eexists. by rewrite lookup_insert_eq.
  - simpl. split; [done |]. split; [done |]. exists y. by rewrite lookup_insert_ne by congruence.
Qed.
End Segments.

(** ** Rules of the accesses *)

Lemma wp_cell_at a x (Q : cell -> seqmem -> Prop) m : m_cells m !! a = Some x -> Q x m -> wp (cell_at a) Q m.
Proof. unfold wp, cell_at. by intros ->. Qed.

Lemma wp_pool_at a x (Q : pool -> seqmem -> Prop) m : m_pools m !! a = Some x -> Q x m -> wp (pool_at a) Q m.
Proof. unfold wp, pool_at. by intros ->. Qed.

Lemma wp_modify_cell a x f (Q : unit -> seqmem -> Prop) m :
  m_cells m !! a = Some x -> Q tt (with_cell a (f x) m) -> wp (modify_cell a f) Q m.
Proof. intros Hx HQ. apply wp_bind, (wp_cell_at _ x); done. Qed.

Lemma wp_modify_pool a x f (Q : unit -> seqmem -> Prop) m :
  m_pools m !! a = Some x -> Q tt (with_pool a (f x) m) -> wp (modify_pool a f) Q m.
Proof. intros Hx HQ. apply wp_bind, (wp_pool_at _ x); done. Qed.

Lemma wp_memory_at a n l (Q : list Z -> seqmem -> Prop) m :
  readable m a n = l -> length l = n -> Q l m -> wp (memory_at a n) Q m.
Proof. unfold wp, memory_at. intros -> ->. by rewrite Nat.eqb_refl. Qed.

Lemma length_readable m a n : (length (readable m a n) <= n)%nat.
Proof.
  revert a. induction n as [| n IH]; intros a; simpl; [lia |].
  destruct (m_bytes m !! a); simpl; [specialize (IH (a + 1)); lia | lia].
Qed.

Lemma readable_bytes m m' a n : m_bytes m' = m_bytes m -> readable m' a n = readable m a n.
Proof. intros E. revert a. induction n as [| n IH]; intros a; simpl; [done |]. by rewrite E, IH. Qed.

(** Reading in pieces. *)
Lemma readable_app m a n k :
  length (readable m a (n + k)) = (n + k)%nat ->
  readable m a (n + k) = readable m a n ++ readable m (a + Z.of_nat n) k /\
  length (readable m a n) = n /\ length (readable m (a + Z.of_nat n) k) = k.
Proof.
  revert a. induction n as [| n IH]; intros a; simpl.
  - rewrite Z.add_0_r. done.
  - destruct (m_bytes m !! a) as [b |]; simpl; [| done]. intros [= L].
    destruct (IH (a + 1) L) as (E & L1 & L2).
    replace (a + Z.of_nat (S n)) with (a + 1 + Z.of_nat n) by lia.
    rewrite E. split_and!; [done | by f_equal | done].
Qed.
