(* ===== verification/SeqMemory.v ===== *)
(** * SeqMemory: pools of event cells

    alsa/core/seq/seq_memory.h and seq_memory.c: allocating and freeing cells, copying an
    event and its external data into cells, reading the data back, and setting a pool up
    and down.  The functions run under the pool's lock, which makes each a single step of
    the memory; where they sleep, what the other threads do meanwhile is a parameter. *)

From S2P Require Import Prelude SeqEvent SeqCells.
Open Scope Z_scope.
Open Scope state_scope.

Definition EXT_LEN_MASK : Z := 0x3fffffff.   (* ~SNDRV_SEQ_EXT_MASK *)
Definition data_len (e : snd_seq_event) : Z := Z.land (ext_len e) EXT_LEN_MASK.
Definition is_chained (e : snd_seq_event) : bool := truth (Z.land (ext_len e) EXT_CHAINED).
Definition is_usrptr (e : snd_seq_event) : bool := truth (Z.land (ext_len e) EXT_USRPTR).

(** Cells for [len] bytes of data. *)
Definition cells_for (len : Z) : Z := (len + SEQ_EVENT_SIZE - 1) / SEQ_EVENT_SIZE.

Definition piece (len : Z) : Z := if len <? SEQ_EVENT_SIZE then len else SEQ_EVENT_SIZE.

Definition snd_seq_pool_available (p : pool) : Z := p_total_elements p - p_counter p.
Definition snd_seq_output_ok (p : pool) : bool := p_room p <=? snd_seq_pool_available p.

(** ** Reading variable-length data *)

(** The loop over chained cells: each gives up to [SEQ_EVENT_SIZE] bytes. *)
Fixpoint expand_cells (fuel : nat) (len cell : Z) : M (list Z) :=
  match fuel with
  | O => crash
  | S fuel =>
      if (0 <? len) && negb (cell =? NULL) then
        (x <- cell_at cell;;
         let size := piece len in
         rest <- expand_cells fuel (len - size) (c_next x);;
         ret (take (Z.to_nat size) (bytes_of_event (c_event x)) ++ rest))
      else ret []
  end.

(** The result and the bytes stored to [buf]; the copies to a user's buffer are taken to
    succeed when [user_ok] says so. *)
Definition snd_seq_expand_var_event (user_ok : bool) (e : snd_seq_event) (count : Z)
    (in_kernel : bool) (size_aligned : Z) : M (Z * list Z) := fun m =>
  (if negb (is_variable e) then ret (-EINVAL, [])
   else
     let len := data_len e in
     let newlen := if 0 <? size_aligned
                   then Z.quot (len + size_aligned - 1) size_aligned * size_aligned else len in
     if count <? newlen then ret (-EAGAIN, [])
     else if is_usrptr e then
       if negb in_kernel then ret (-EINVAL, [])
       else (l <- user_at (ext_ptr e) (Z.to_nat len);; ret (newlen, l))
     else if negb (is_chained e) then
       (l <- memory_at (ext_ptr e) (Z.to_nat len);;
        if in_kernel || user_ok then ret (newlen, l) else ret (-EFAULT, []))
     else
       (l <- expand_cells (chain_fuel m) len (ext_ptr e);;
        if in_kernel || user_ok || (0 =? Z.of_nat (length l))
        then ret (newlen, l) else ret (-EFAULT, []))) m.

(** ** Dumping: the same data handed to a function piece by piece

    A fault in the user's buffer would hand stale bytes over; the model stops there. *)

Section Dump.
Context {A : Type} (func : A -> list Z -> Z * A).

Fixpoint dump_user (fuel : nat) (ptr len : Z) (a : A) : M (Z * A) :=
  match fuel with
  | O => crash
  | S fuel =>
      if negb (0 <? len) then ret (0, a)
      else
        let size := if len <? 32 then len else 32 in
        (l <- memory_at ptr (Z.to_nat size);;
         let '(err, a) := func a l in
         if err <? 0 then ret (err, a) else dump_user fuel (ptr + size) (len - size) a)
  end.

Fixpoint dump_cells (fuel : nat) (len cell : Z) (a : A) : M (Z * A) :=
  match fuel with
  | O => crash
  | S fuel =>
      if (0 <? len) && negb (cell =? NULL) then
        (x <- cell_at cell;;
         let size := piece len in
         let '(err, a) := func a (take (Z.to_nat size) (bytes_of_event (c_event x))) in
         if err <? 0 then ret (err, a) else dump_cells fuel (len - size) (c_next x) a)
      else ret (0, a)
  end.

Definition snd_seq_dump_var_event (e : snd_seq_event) (a : A) : M (Z * A) := fun m =>
  (if negb (is_variable e) then ret (-EINVAL, a)
   else
     let len := data_len e in
     if len <=? 0 then ret (0, a)
     else if is_usrptr e then dump_user (S (Z.to_nat len)) (ext_ptr e) len a
     else if negb (is_chained e) then
       (l <- memory_at (ext_ptr e) (Z.to_nat len);; ret (func a l))
     else dump_cells (chain_fuel m) len (ext_ptr e) a) m.
End Dump.

(** ** Freeing *)

Definition free_cell (pool cell : Z) : M unit :=
  p <- pool_at pool;;
  set_next cell (p_free p);;;
  modify_pool pool (fun p => p <| p_free := cell |> <| p_counter := p_counter p - 1 |>).

Fixpoint free_chain (fuel : nat) (pool curp : Z) : M unit :=
  match fuel with
  | O => crash
  | S fuel =>
      if curp =? NULL then ret tt
      else
        (x <- cell_at curp;;
         p <- pool_at pool;;
         set_next curp (p_free p);;;
         free_cell pool curp;;;
         free_chain fuel pool (c_next x))
  end.

Definition wake_output (p : pool) : pool :=
  if p_sleepers p && snd_seq_output_ok p then p <| p_wakeups := p_wakeups p + 1 |> else p.

Definition snd_seq_cell_free (cell : Z) : M unit := fun m =>
  (if cell =? NULL then ret tt
   else
     (x <- cell_at cell;;
      if c_pool x =? NULL then ret tt
      else
        (free_cell (c_pool x) cell;;;
         when (is_variable (c_event x) && is_chained (c_event x))
           (free_chain (chain_fuel m) (c_pool x) (ext_ptr (c_event x)));;;
         modify_pool (c_pool x) wake_output))) m.

(** ** Allocating *)

Section Alloc.
(** What happens while a thread sleeps on [output_sleep] of a pool: whether a signal is
    pending when it wakes up, and the memory it finds. *)
Context (sleep : Z -> seqmem -> bool * seqmem).

Definition sleep_in_lock (pool : Z) : M bool := fun m => Some (sleep pool m).

(** [while (pool->free == NULL && !nonblock && !pool->closing)]; true when interrupted. *)
Fixpoint wait_free (fuel : nat) (pool : Z) (nonblock : bool) : M bool :=
  match fuel with
  | O => crash
  | S fuel =>
      p <- pool_at pool;;
      if (p_free p =? NULL) && negb nonblock && negb (p_closing p) then
        (signal <- sleep_in_lock pool;;
         if (signal : bool) then ret true else wait_free fuel pool nonblock)
      else ret false
  end.

(** The error and the cell. *)
Definition snd_seq_cell_alloc (fuel : nat) (pool : Z) (nonblock : bool) : M (Z * Z) :=
  if pool =? NULL then ret (-EINVAL, NULL)
  else
    (p <- pool_at pool;;
     if bool_decide (p_ptr p = []) then ret (-EINVAL, NULL)
     else
       (interrupted <- wait_free fuel pool nonblock;;
        if (interrupted : bool) then ret (-ERESTARTSYS, NULL)
        else
          (p <- pool_at pool;;
           if p_closing p then ret (-ENOMEM, NULL)
           else if p_free p =? NULL then
             (modify_pool pool (fun p => p <| p_event_alloc_failures := p_event_alloc_failures p + 1 |>);;;
              ret (-EAGAIN, NULL))
           else
             let cell := p_free p in
             (x <- cell_at cell;;
              modify_pool pool (fun p =>
                let used := p_counter p + 1 in
                p <| p_free := c_next x |> <| p_counter := used |>
                  <| p_max_used := if p_max_used p <? used then used else p_max_used p |>
                  <| p_event_alloc_success := p_event_alloc_success p + 1 |>);;;
              set_next cell NULL;;;
              ret (0, cell))))).

(** ** Copying an event *)

Definition set_event (a : Z) (f : snd_seq_event -> snd_seq_event) : M unit :=
  modify_cell a (fun x => x <| c_event := f (c_event x) |>).

(** Copy one piece into [tmp]: the error, and the next chained source cell. *)
Definition copy_piece (chained usrptr : bool) (tmp src buf size : Z) : M (Z * Z) :=
  if chained && negb (src =? NULL) then
    (s <- cell_at src;; set_event tmp (fun _ => c_event s);;; ret (0, c_next s))
  else if usrptr then
    (l <- user_at buf (Z.to_nat size);;
     set_event tmp (overlay l);;;
     ret (if (length l =? Z.to_nat size)%nat then 0 else -EFAULT, src))
  else (l <- memory_at buf (Z.to_nat size);; set_event tmp (overlay l);;; ret (0, src)).

Fixpoint dup_cells (fuel : nat) (pool : Z) (nonblock chained usrptr : bool) (cell : Z)
    (ncells : nat) (src buf tail len : Z) : M Z :=
  match ncells with
  | O => ret 0
  | S ncells =>
      let size := piece len in
      rc <- snd_seq_cell_alloc fuel pool nonblock;;
      let '(err, tmp) := rc in
      if err <? 0 then ret err
      else
        (x <- cell_at cell;;
         when (ext_ptr (c_event x) =? NULL) (set_event cell (fun e => e <| ev_d1 := tmp |>));;;
         when (negb (tail =? NULL)) (set_next tail tmp);;;
         es <- copy_piece chained usrptr tmp src buf size;;
         if es.1 <? 0 then ret es.1
         else dup_cells fuel pool nonblock chained usrptr cell ncells es.2 (buf + size) tmp
                (len - size))
  end.

Definition event_cells (e : snd_seq_event) : Z := if is_variable e then cells_for (data_len e) else 0.

Definition snd_seq_event_dup (fuel : nat) (pool : Z) (e : snd_seq_event) (nonblock : bool)
    : M (Z * Z) :=
  let ncells := event_cells e in
  p <- pool_at pool;;
  if p_total_elements p <=? ncells then ret (-ENOMEM, NULL)
  else
    (rc <- snd_seq_cell_alloc fuel pool nonblock;;
     let '(err, cell) := rc in
     if err <? 0 then ret (err, NULL)
     else
       (set_event cell (fun _ => e);;;
        err <- (if is_variable e then
                  (set_event cell (fun e' => e' <| ev_d0 := Z.lor (data_len e) EXT_CHAINED |>
                                                <| ev_d1 := NULL |>);;;
                   dup_cells fuel pool nonblock (is_chained e) (is_usrptr e) cell (Z.to_nat ncells)
                     (ext_ptr e) (ext_ptr e) NULL (data_len e))
                else ret 0);;
        if err <? 0 then (snd_seq_cell_free cell;;; ret (err, NULL)) else ret (0, cell))).
End Alloc.

Definition snd_seq_unused_cells (pool : Z) : M Z :=
  if pool =? NULL then ret 0 else (p <- pool_at pool;; ret (snd_seq_pool_available p)).
Definition snd_seq_total_cells (pool : Z) : M Z :=
  if pool =? NULL then ret 0 else (p <- pool_at pool;; ret (p_total_elements p)).
Definition snd_seq_pool_poll_wait (pool : Z) : M bool :=
  p <- pool_at pool;; ret (snd_seq_output_ok p).

(** ** Pools *)

Definition zero_event : snd_seq_event := Event 0 0 0 0 (Timestamp 0 0) (Addr 0 0) (Addr 0 0) 0 0 0.

Definition CHUNK_HEADER : Z := 8.    (* sizeof(snd_seq_event_chunk_t) *)
Definition CELL_SIZE : Z := 36.      (* sizeof(snd_seq_event_cell_t) *)

(** The address of cell [i] of a chunk. *)
Definition chunk_cell (chunk : Z) (i : Z) : Z := chunk + CHUNK_HEADER + CELL_SIZE * i.

Definition chunk_cells (chunk : Z * Z) : list Z := chunk_cell chunk.1 <$> seqZ 0 chunk.2.

(** The kernel's allocator: an address for a chunk of so many cells, or for a pool. *)
Class SeqAlloc := {
  alloc_chunk : seqmem -> Z -> option Z;
  alloc_pool : seqmem -> option Z }.

(** What the code relies on: the cells of a new chunk are not in use. *)
Class SeqAllocOk `{SeqAlloc} : Prop := {
  alloc_chunk_fresh m n a c :
    alloc_chunk m n = Some a -> c ∈ chunk_cells (a, n) ->
    m_cells m !! c = None /\ 0 < c <= UINT_MAX;
  alloc_pool_fresh m a : alloc_pool m = Some a -> m_pools m !! a = None /\ a <> NULL }.

Section Pools.
Context `{SeqAlloc}.

Definition clear_cells (l : list Z) : M unit :=
  update (fun m => m <| m_cells := foldr (fun a H => <[a := Cell zero_event NULL NULL]> H) (m_cells m) l |>).

Definition snd_seq_chunk_allocate (numcells : Z) : M (option Z) := fun m =>
  match alloc_chunk m numcells with
  | Some a => (clear_cells (chunk_cells (a, numcells));;; ret (Some a)) m
  | None => Some (None, m)
  end.

(** [for (; chunks_got < chunks_req; chunks_got++)]: the chunks, newest first. *)
Fixpoint allocate_chunks (n : nat) (chunks : list (Z * Z)) (got : Z) : M (list (Z * Z) * Z) :=
  match n with
  | O => ret (chunks, got)
  | S n =>
      a <- snd_seq_chunk_allocate SEQ_DEFAULT_CHUNK_EVENTS;;
      match a with
      | Some a => allocate_chunks n ((a, SEQ_DEFAULT_CHUNK_EVENTS) :: chunks) (got + 1)
      | None => ret (chunks, got)
      end
  end.

(** Push the cells on the free list, one after another. *)
Fixpoint add_free (pool : Z) (cells : list Z) : M unit :=
  match cells with
  | [] => ret tt
  | c :: cells =>
      p <- pool_at pool;;
      modify_cell c (fun x => x <| c_pool := pool |> <| c_next := p_free p |>);;;
      modify_pool pool (fun p => p <| p_free := c |>);;;
      add_free pool cells
  end.

Definition snd_seq_pool_init (pool : Z) : M Z :=
  if pool =? NULL then ret (-EINVAL)
  else
    (p <- pool_at pool;;
     if negb (bool_decide (p_ptr p = [])) then ret 0
     else
       let events_req := p_size p in
       let chunks_req := Z.quot events_req SEQ_DEFAULT_CHUNK_EVENTS in
       let last_chunk_cells := Z.rem events_req SEQ_DEFAULT_CHUNK_EVENTS in
       first <- (if last_chunk_cells =? 0 then ret (Some [])
                 else (a <- snd_seq_chunk_allocate last_chunk_cells;;
                       ret (option_map (fun a => [(a, last_chunk_cells)]) a)));;
       cg <- match first with
             | None => ret ([], 0)
             | Some chunks => allocate_chunks (Z.to_nat chunks_req) chunks 0
             end;;
       let '(chunks, chunks_got) := cg in
       modify_pool pool (fun p => p <| p_ptr := chunks |>);;;
       if bool_decide (chunks = []) then ret (-ENOMEM)
       else
         let events_got := chunks_got * SEQ_DEFAULT_CHUNK_EVENTS + last_chunk_cells in
         (modify_pool pool (fun p => p <| p_free := NULL |>);;;
          add_free pool (chunks ≫= chunk_cells);;;
          modify_pool pool (fun p => p <| p_size := events_got |>
            <| p_room := Z.quot (events_got + 1) 2 |> <| p_max_used := 0 |>
            <| p_total_elements := events_got |>);;;
          ret 0)).

Definition new_pool (poolsize : Z) : pool := Pool [] NULL 0 0 poolsize 0 false 0 0 0 false 0.

(** The pool, or [NULL]. *)
Definition snd_seq_pool_new (poolsize : Z) : M Z := fun m =>
  match alloc_pool m with
  | Some a => Some (a, with_pool a (new_pool poolsize) m)
  | None => Some (NULL, m)
  end.
End Pools.

Section Done.
(** What the other threads do in a tick. *)
Context (idle : seqmem -> seqmem).

(** [while (counter > 0)]: wait for the cells to come back, for five seconds. *)
Fixpoint wait_cells (max_count : nat) (pool : Z) : M unit :=
  p <- pool_at pool;;
  if 0 <? p_counter p then
    match max_count with
    | O => ret tt
    | S max_count => (update idle;;; wait_cells max_count pool)
    end
  else ret tt.

Definition SEQ_HZ : Z := 100.

Definition free_chunks (chunks : list (Z * Z)) : M unit :=
  update (fun m => m <| m_cells := foldr (fun a H => delete a H) (m_cells m) (chunks ≫= chunk_cells) |>).

Definition snd_seq_pool_done (pool : Z) : M Z :=
  if pool =? NULL then ret (-EINVAL)
  else
    (modify_pool pool (fun p => p <| p_closing := true |>);;;
     modify_pool pool (fun p => if p_sleepers p then p <| p_wakeups := p_wakeups p + 1 |> else p);;;
     wait_cells (Z.to_nat (5 * SEQ_HZ)) pool;;;
     p <- pool_at pool;;
     modify_pool pool (fun p => p <| p_ptr := [] |> <| p_free := NULL |> <| p_total_elements := 0 |>);;;
     free_chunks (p_ptr p);;;
     modify_pool pool (fun p => p <| p_closing := false |>);;;
     ret 0).

Definition snd_seq_pool_delete (pool : Z) : M Z :=
  if pool =? NULL then ret 0
  else
    (snd_seq_pool_done pool;;;
     update (fun m => m <| m_pools := delete pool (m_pools m) |>);;;
     ret 0).
End Done.

(** ** The state of a pool *)

Definition owned (m : seqmem) (p a : Z) : Prop :=
  0 < a <= UINT_MAX /\ exists x, m_cells m !! a = Some x /\ c_pool x = p /\ event_wf (c_event x).

(** [F] is the free list of the pool, and the counter counts the other cells. *)
Record pool_is (m : seqmem) (p : Z) (P : pool) (F : list Z) : Prop := {
  pi_null : p <> NULL;
  pi_pool : m_pools m !! p = Some P;
  pi_free : chain (m_cells m) (p_free P) F;
  pi_counter : p_counter P = p_total_elements P - Z.of_nat (length F) }.

Definition ready (P : pool) : Prop := p_ptr P <> [] /\ p_closing P = false.

(** What stays while the cells of [T], which belong to pool [p], change hands. *)
Record pool_frame (p : Z) (T : list Z) (m m' : seqmem) : Prop := {
  pf_bytes : m_bytes m' = m_bytes m;
  pf_cells : forall a, a ∉ T -> m_cells m' !! a = m_cells m !! a;
  pf_pools : forall q, q <> p -> m_pools m' !! q = m_pools m !! q;
  pf_owned : Forall (owned m p) T -> Forall (owned m' p) T;
  pf_pool : forall P, m_pools m !! p = Some P -> exists P', m_pools m' !! p = Some P' /\
    p_ptr P' = p_ptr P /\ p_closing P' = p_closing P /\ p_total_elements P' = p_total_elements P }.

Lemma frame_refl p T m : pool_frame p T m m.
Proof. split; eauto. Qed.

Lemma frame_trans p T m1 m2 m3 :
  pool_frame p T m1 m2 -> pool_frame p T m2 m3 -> pool_frame p T m1 m3.
Proof.
  intros [A1 A2 A3 A4 A5] [B1 B2 B3 B4 B5]. split; [congruence | | | auto |].
  - intros a Ha. rewrite B2, A2; done.
  - intros q Hq. rewrite B3, A3; done.
  - intros P HP. destruct (A5 P HP) as (P' & HP' & E1 & E2 & E3).
    destruct (B5 P' HP') as (P2 & HP2 & ? & ? & ?). exists P2. split; [done |]. split_and!; congruence.
Qed.

Lemma frame_mono p T T' m m' : T ⊆ T' -> pool_frame p T m m' -> pool_frame p T' m m'.
Proof.
  intros HT [A B C D E]. split; [done | | done | | done].
  - intros a Ha. apply B. auto.
  - rewrite !Forall_forall. intros O a Ha. destruct (decide (a ∈ T)) as [Hin | Hout].
    + rewrite !Forall_forall in D. auto.
    + destruct (O a Ha) as (Hr & x & Hx). split; [done |]. exists x. by rewrite B.
Qed.

Lemma frame_ready p T m m' P P' :
  pool_frame p T m m' -> m_pools m !! p = Some P -> m_pools m' !! p = Some P' -> ready P ->
  ready P' /\ p_total_elements P' = p_total_elements P.
Proof.
  intros Fr HP HP' [A B]. destruct (pf_pool _ _ _ _ Fr P HP) as (P2 & H2 & E1 & E2 & E3).
  simplify_eq. split; [split; congruence | done].
Qed.

(** Changing a cell of [T] but not its owner, and the pool but not its size. *)
Lemma frame_cell p T m a x f :
  a ∈ T -> m_cells m !! a = Some x -> c_pool (f x) = c_pool x ->
  (event_wf (c_event x) -> event_wf (c_event (f x))) ->
  pool_frame p T m (with_cell a (f x) m).
Proof.
  intros Ha Hx Ep Ew. split; simpl; [done | | done | | eauto].
  - intros b Hb. rewrite lookup_insert_ne by (intros ->; done). done.
  - intros O. apply Forall_forall. intros b Hb. rewrite Forall_forall in O.
    destruct (O b Hb) as (Hn & y & Hy & Eo & W). split; [done |]. simpl.
    destruct (decide (a = b)) as [-> | Hab].
    + simplify_eq. exists (f x). rewrite lookup_insert_eq. auto.
    + exists y. by rewrite lookup_insert_ne.
Qed.

Lemma frame_pool p T m P P' :
  m_pools m !! p = Some P ->
  p_ptr P' = p_ptr P -> p_closing P' = p_closing P -> p_total_elements P' = p_total_elements P ->
  pool_frame p T m (with_pool p P' m).
Proof.
  intros HP E1 E2 E3. split; simpl; [done | done | | done |].
  - intros q Hq. by rewrite lookup_insert_ne.
  - intros P0 HP0. simplify_eq. exists P'. by rewrite lookup_insert_eq.
Qed.

Lemma owned_cell m p T a : Forall (owned m p) T -> a ∈ T -> owned m p a.
Proof. rewrite Forall_forall. auto. Qed.

(** ** Allocation and freeing of single cells *)

Lemma cell_alloc_spec sleep fuel p P F T m :
  pool_is m p P F -> ready P -> Forall (owned m p) T -> F ⊆ T ->
  wp (snd_seq_cell_alloc sleep (S fuel) p true)
    (fun r m' => pool_frame p T m m' /\
       match F with
       | [] => r = (-EAGAIN, NULL) /\ m_cells m' = m_cells m /\ exists P', pool_is m' p P' []
       | c :: F' => r = (0, c) /\ exists P' x, pool_is m' p P' F' /\
           m_cells m !! c = Some x /\ m_cells m' = <[c := x <| c_next := NULL |>]> (m_cells m)
       end) m.
Proof.
  intros [Hp HP HF HC] [R1 R2] HO HT. unfold snd_seq_cell_alloc.
  rewrite (proj2 (Z.eqb_neq p NULL) Hp).
  apply wp_bind, (wp_pool_at _ P); [done |]. rewrite bool_decide_eq_false_2 by done.
  cbn [wait_free]. apply wp_bind, wp_bind, (wp_pool_at _ P); [done |].
  rewrite R2, andb_false_r. simpl. apply wp_ret, wp_bind, (wp_pool_at _ P); [done |]. rewrite R2.
  destruct F as [| c F'].
  - unfold chain in HF. simpl in HF. rewrite HF, Z.eqb_refl.
    apply wp_bind, (wp_modify_pool _ P); [done |]. apply wp_ret.
    split; [by apply (frame_pool _ _ _ P) |].
    split; [done |]. split; [done |].
    eexists. split; simpl; [done | by rewrite lookup_insert_eq | done | done].
  - pose proof HF as (Ec & Hn & x & Hx & HF'). rewrite Ec, (proj2 (Z.eqb_neq c NULL) Hn).
    apply wp_bind, (wp_cell_at _ x); [done |]. apply wp_bind, (wp_modify_pool _ P); [done |].
    cbv beta zeta. match goal with |- context [with_pool p ?X m] => set (P' := X) end.
    apply wp_bind, (wp_modify_cell _ x); [done |]. apply wp_ret.
    assert (HcT : c ∈ T) by (apply HT; left).
    split.
    { apply (frame_trans _ _ _ (with_pool p P' m)); [by apply (frame_pool _ _ _ P) |].
      by apply (frame_cell _ _ (with_pool p P' m) c x (fun x => x <| c_next := NULL |>)). }
    split; [done |]. exists P', x. split; [| done].
    assert (N : NoDup (c :: F')) by (eapply chain_nodup, HF).
    apply NoDup_cons in N as [N _].
    split; simpl; [done | by rewrite lookup_insert_eq | by apply chain_insert | simpl in HC; lia].
Qed.

Lemma free_cell_spec p P F T c x m :
  pool_is m p P F -> m_cells m !! c = Some x -> c ∈ T -> c ∉ F -> c <> NULL ->
  wp (free_cell p c)
    (fun _ m' => pool_frame p T m m' /\ exists P', pool_is m' p P' (c :: F) /\
       m_cells m' = <[c := x <| c_next := p_free P |>]> (m_cells m)) m.
Proof.
  intros [Hp HP HF HC] Hx HcT HcF Hn. unfold free_cell.
  apply wp_bind, (wp_pool_at _ P); [done |]. apply wp_bind, (wp_modify_cell _ x); [done |].
  set (m1 := with_cell c _ m). apply (wp_modify_pool _ P); [done |].
  match goal with |- context [with_pool p ?X m1] => set (P' := X) end. split.
  { apply (frame_trans _ _ _ m1); [by apply (frame_cell _ _ m c x (fun x => x <| c_next := _ |>)) |].
    by apply (frame_pool _ _ m1 P). }
  exists P'. split; [| done]. split; simpl; [done | by rewrite lookup_insert_eq | | lia].
  split; [done |]. split; [done |]. eexists. rewrite lookup_insert_eq. split; [done |].
  simpl. by apply chain_insert.
Qed.

Lemma free_chain_spec p T D : forall fuel P F a m,
  pool_is m p P F -> chain (m_cells m) a D -> D ⊆ T -> NoDup (D ++ F) -> (length D < fuel)%nat ->
  wp (free_chain fuel p a)
    (fun _ m' => pool_frame p T m m' /\ exists P', pool_is m' p P' (reverse D ++ F)) m.
Proof.
  induction D as [| c D IH]; intros fuel P F a m HP S HT N Hf; destruct fuel as [| fuel];
    try (simpl in Hf; lia); cbn [free_chain].
  - unfold chain in S. simpl in S. rewrite S, Z.eqb_refl. apply wp_ret.
    split; [apply frame_refl | eauto].
  - destruct S as (-> & Hn & x & Hx & S). rewrite (proj2 (Z.eqb_neq c NULL) Hn).
    apply wp_bind, (wp_cell_at _ x); [done |].
    apply wp_bind, (wp_pool_at _ P); [by destruct HP |].
    apply wp_bind, (wp_modify_cell _ x); [done |].
    set (m1 := with_cell c _ m). simpl in N. apply NoDup_cons in N as [Nc N].
    rewrite elem_of_app in Nc. apply Decidable.not_or in Nc as [NcD NcF].
    assert (HcT : c ∈ T) by (apply HT; left).
    assert (HP1 : pool_is m1 p P F).
    { destruct HP as [A1 A2 A3 A4]. split; simpl; [done | done | by apply chain_insert | done]. }
    assert (Fr1 : pool_frame p T m m1).
    { by apply (frame_cell _ _ m c x (fun x => x <| c_next := p_free P |>)). }
    apply wp_bind. eapply wp_mono.
    { apply (free_cell_spec p P F T c (x <| c_next := p_free P |>) m1); try done.
      simpl. by rewrite lookup_insert_eq. }
    intros _ m2 (Fr2 & P2 & HP2 & E2). eapply wp_mono.
    { apply (IH fuel P2 (c :: F) (c_next x) m2 HP2).
      - rewrite E2. simpl. do 2 (apply chain_insert; [done |]). done.
      - intros d Hd. apply HT. by right.
      - rewrite <- Permutation_middle. apply NoDup_cons. rewrite elem_of_app. tauto.
      - simpl in Hf. lia. }
    intros _ m3 (Fr3 & P3 & HP3). split; [eauto using frame_trans |].
    exists P3. rewrite reverse_cons, <- (assoc_L (++)). done.
Qed.

(** The cells a live event holds besides its own. *)
Definition chained_cells (m : seqmem) (e : snd_seq_event) (D : list Z) : Prop :=
  if is_variable e && is_chained e then chain (m_cells m) (ext_ptr e) D else D = [].

Lemma chained_cells_length m e D : chained_cells m e D -> (length D < chain_fuel m)%nat.
Proof.
  unfold chained_cells, chain_fuel. destruct (_ && _); [| by intros ->; simpl; lia].
  intros S%chain_length. lia.
Qed.

Lemma cell_free_spec p P F T c x D m :
  pool_is m p P F -> m_cells m !! c = Some x -> c_pool x = p -> c <> NULL ->
  chained_cells m (c_event x) D -> c :: D ⊆ T -> NoDup (c :: D ++ F) ->
  wp (snd_seq_cell_free c)
    (fun _ m' => pool_frame p T m m' /\ exists P', pool_is m' p P' (reverse D ++ c :: F)) m.
Proof.
  intros HP Hx Hp Hn HD HT N. pose proof (chained_cells_length _ _ _ HD) as Hf.
  unfold snd_seq_cell_free. unfold wp. rewrite (proj2 (Z.eqb_neq c NULL) Hn).
  rewrite (bind_some _ _ m x m) by (unfold cell_at; by rewrite Hx).
  pose proof (pi_null _ _ _ _ HP) as Hpn. rewrite Hp, (proj2 (Z.eqb_neq p NULL) Hpn).
  apply NoDup_cons in N as [Nc N]. rewrite elem_of_app in Nc. apply Decidable.not_or in Nc as [NcD NcF].
  assert (HcT : c ∈ T) by (apply HT; left).
  apply wp_bind. eapply wp_mono; [by apply (free_cell_spec p P F T c x m) |].
  intros _ m1 (Fr1 & P1 & HP1 & E1). apply wp_bind.
  apply (wp_mono _ (fun _ m2 => pool_frame p T m1 m2 /\ exists P2, pool_is m2 p P2 (reverse D ++ c :: F))).
  - unfold chained_cells in HD. unfold when. destruct (is_variable _ && is_chained _).
    + apply (free_chain_spec p T D _ P1 (c :: F)); [done | | | | done].
      * rewrite E1. by apply chain_insert.
      * intros d Hd. apply HT. by right.
      * rewrite <- Permutation_middle. apply NoDup_cons. rewrite elem_of_app. tauto.
    + subst D. apply wp_ret. split; [apply frame_refl | eauto].
  - intros _ m2 (Fr2 & P2 & HP2).
    apply (wp_modify_pool _ P2); [by destruct HP2 |].
    assert (Ew : p_ptr (wake_output P2) = p_ptr P2 /\ p_closing (wake_output P2) = p_closing P2 /\
                 p_total_elements (wake_output P2) = p_total_elements P2 /\
                 p_free (wake_output P2) = p_free P2 /\ p_counter (wake_output P2) = p_counter P2).
    { unfold wake_output. by destruct (_ && _). }
    destruct Ew as (W1 & W2 & W3 & W4 & W5). split.
    { eapply frame_trans; [exact Fr1 |]. eapply frame_trans; [exact Fr2 |].
      apply (frame_pool _ _ m2 P2); [by destruct HP2 | done | done | done]. }
    exists (wake_output P2). destruct HP2 as [A1 A2 A3 A4].
    split; simpl; [done | by rewrite lookup_insert_eq | by rewrite W4 | by rewrite W5, W3].
Qed.
