(* ===== verification/SeqCopy.v ===== *)
(** * SeqCopy: copies of events keep their data

    What [snd_seq_event_dup], [snd_seq_expand_var_event] and [snd_seq_cell_free] of SeqMemory
    do together: an event with external data is cut into cells of a pool, read back, and
    given back to the free list. *)

From S2P Require Import Prelude SeqEvent SeqCells SeqMemory.
Open Scope Z_scope.
Open Scope state_scope.

(** ** Variable-length data *)

(** All buffers hold bytes. *)
Definition bytes_ok (m : seqmem) : Prop := forall a b, m_bytes m !! a = Some b -> is_byte b.

(** The next [n] pieces of the [len] bytes of data that are left to copy, in chained cells
    from [src] or in a buffer from [buf]; no source cell is in [T]. *)
Fixpoint source (m : seqmem) (T : list Z) (chained : bool) (n : nat) (src buf len : Z)
    (ps : list (list Z)) : Prop :=
  match n with
  | O => ps = []
  | S n =>
      let size := Z.to_nat (piece len) in
      exists b ps', ps = b :: ps' /\ length b = size /\
        (if chained
        then src <> NULL /\ (src ∉ T) /\ exists s, m_cells m !! src = Some s /\
             event_wf (c_event s) /\ b = take size (bytes_of_event (c_event s)) /\
             source m T chained n (c_next s) (buf + piece len) (len - piece len) ps'
        else readable m buf size = b /\ source m T chained n src (buf + piece len) (len - piece len) ps')
  end.

Lemma source_frame p T m m' chained n src buf len ps :
  pool_frame p T m m' -> source m T chained n src buf len ps -> source m' T chained n src buf len ps.
Proof.
  intros Fr. revert src buf len ps. induction n as [| n IH]; intros src buf len ps; simpl; [done |].
  intros (b & ps' & -> & L & H). exists b, ps'. split; [done |]. split; [done |].
  destruct chained.
  - destruct H as (Hn & HT & s & Hs & W & E & S). split; [done |]. split; [done |].
    exists s. split; [by rewrite (pf_cells _ _ _ _ Fr) |]. auto.
  - destruct H as [R S]. split; [| auto]. by rewrite (readable_bytes m m') by apply Fr.
Qed.

Lemma source_length m T chained n src buf len ps :
  source m T chained n src buf len ps -> length ps = n.
Proof.
  revert src buf len ps. induction n as [| n IH]; intros src buf len ps; simpl; [by intros -> |].
  intros (b & ps' & -> & _ & H). simpl. f_equal.
  destruct chained; [destruct H as (_ & _ & s & _ & _ & _ & H) | destruct H as [_ H]]; eauto.
Qed.

Lemma readable_is_bytes m a n : bytes_ok m -> Forall is_byte (readable m a n).
Proof.
  intros Hm. revert a. induction n as [| n IH]; intros a; simpl; [constructor |].
  destruct (m_bytes m !! a) as [b |] eqn:E; constructor; eauto.
Qed.

Lemma bytes_of_event_is_bytes e : event_wf e -> Forall is_byte (bytes_of_event e).
Proof.
  intros [W _]. rewrite !Forall_cons in W. destruct_and? W.
  unfold bytes_of_event, le32. simpl. rewrite !Forall_cons.
  split_and!; first [done | by apply byte_of_range | by apply Forall_nil].
Qed.

Lemma overlay_spec l e :
  (length l <= 28)%nat -> Forall is_byte l -> event_wf e ->
  event_wf (overlay l e) /\ take (length l) (bytes_of_event (overlay l e)) = l.
Proof.
  intros L F W. unfold overlay.
  assert (Hl : length (l ++ drop (length l) (bytes_of_event e)) = 28%nat).
  { rewrite length_app, length_drop, length_bytes_of_event. lia. }
  assert (Hf : Forall is_byte (l ++ drop (length l) (bytes_of_event e))).
  { apply Forall_app. split; [done |]. by apply Forall_drop, bytes_of_event_is_bytes. }
  split; [by apply event_of_bytes_wf |]. rewrite bytes_of_event_of_bytes by done.
  by rewrite take_app_length.
Qed.

Lemma piece_range len : 0 <= len -> 0 <= piece len <= len /\ piece len <= 28.
Proof. unfold piece, SEQ_EVENT_SIZE. intros. btest; lia. Qed.

(** Cell [a] holds the bytes [b]. *)
Definition holds (m : seqmem) (a : Z) (b : list Z) : Prop :=
  exists x, m_cells m !! a = Some x /\ take (length b) (bytes_of_event (c_event x)) = b.

Lemma copy_piece_spec p T chained usrptr tmp y n src buf len ps m :
  bytes_ok m -> owned m p tmp -> m_cells m !! tmp = Some y -> 0 <= len -> tmp ∈ T ->
  source m T chained (S n) src buf len ps ->
  wp (copy_piece chained usrptr tmp src buf (piece len))
    (fun r m' => r.1 = 0 /\ pool_frame p T m m' /\ m_pools m' = m_pools m /\
       exists b ps' e', ps = b :: ps' /\
         m_cells m' = <[tmp := y <| c_event := e' |>]> (m_cells m) /\ event_wf e' /\
         take (length b) (bytes_of_event e') = b /\
         source m' T chained n r.2 (buf + piece len) (len - piece len) ps') m.
Proof.
  intros Hb (_ & y' & Hy' & Hp & Wy) Hy Hlen HT (b & ps' & -> & Lb & S).
  assert (y' = y) as -> by congruence. subst p.
  pose proof (piece_range len Hlen) as Hpc.
  assert (Fin : forall e', event_wf e' ->
    pool_frame (c_pool y) T m (with_cell tmp (y <| c_event := e' |>) m)).
  { intros e' We. by apply (frame_cell _ _ m tmp y (fun y => y <| c_event := e' |>)). }
  unfold copy_piece. destruct chained; simpl in S; simpl.
  - destruct S as (Hn & HsT & s & Hs & Ws & -> & S). rewrite (proj2 (Z.eqb_neq src NULL) Hn). simpl.
    apply wp_bind, (wp_cell_at _ s); [done |]. apply wp_bind, (wp_modify_cell _ y); [done |].
    apply wp_ret. split; [done |]. split; [by apply Fin |]. split; [done |].
    exists (take (Z.to_nat (piece len)) (bytes_of_event (c_event s))), ps', (c_event s).
    split; [done |]. split; [done |]. split; [done |]. split; [by rewrite Lb |].
    by apply (source_frame (c_pool y) T m); [apply Fin |].
  - destruct S as [R S].
    assert (Ov : event_wf (overlay b (c_event y)) /\ take (length b) (bytes_of_event (overlay b (c_event y))) = b).
    { apply overlay_spec; [lia | subst b; by apply readable_is_bytes | done]. }
    assert (Q : wp (set_event tmp (overlay b);;; ret (0, src)) (fun r m' => r.1 = 0 /\
      pool_frame (c_pool y) T m m' /\ m_pools m' = m_pools m /\
      exists b' ps'' e', b :: ps' = b' :: ps'' /\
         m_cells m' = <[tmp := y <| c_event := e' |>]> (m_cells m) /\ event_wf e' /\
         take (length b') (bytes_of_event e') = b' /\
         source m' T false n r.2 (buf + piece len) (len - piece len) ps'') m).
    { apply wp_bind, (wp_modify_cell _ y); [done |]. apply wp_ret. destruct Ov as [Wo To].
      split; [done |]. split; [by apply Fin |]. split; [done |].
      exists b, ps', (overlay b (c_event y)). split; [done |]. split; [done |]. split; [done |].
      split; [done |]. by apply (source_frame (c_pool y) T m); [apply Fin |]. }
    destruct usrptr.
    + unfold wp, bind at 1, user_at. rewrite R, <- Lb, Nat.eqb_refl. exact Q.
    + apply wp_bind, (wp_memory_at _ _ b); [done | done | exact Q].
Qed.

(** ** Copying external data *)

(** While an event is copied: the first cell [c] holds [e0] and points to the chain of the
    cells [D] allocated so far; the cells [F] are free. *)
Record dup_state (m : seqmem) (p c : Z) (e0 : snd_seq_event) (D F : list Z) : Prop := {
  ds_pool : exists P, pool_is m p P F /\ ready P;
  ds_cell : exists x, m_cells m !! c = Some x /\ c_event x = e0 <| ev_d1 := hd NULL D |> /\ c_next x = NULL;
  ds_chain : chain (m_cells m) (hd NULL D) D;
  ds_fresh : NoDup (c :: D ++ F) }.

Lemma hd_null m l : chain (m_cells m) (hd NULL l) l -> (hd NULL l =? NULL) = bool_decide (l = []).
Proof.
  destruct l as [| a l]; [done |]. intros (_ & Hn & _). simpl. by rewrite (proj2 (Z.eqb_neq a NULL) Hn).
Qed.

Lemma event_wf_d1 e a : event_wf e -> is_u32 a -> event_wf (e <| ev_d1 := a |>).
Proof.
  intros [W1 W2] Ha. split; simpl in *; [done |].
  rewrite !Forall_cons in *. destruct_and? W2. by split_and!.
Qed.

Lemma holds_insert (m m' : seqmem) c x y a b :
  m_cells m !! c = Some x -> m_cells m' = <[c := y]> (m_cells m) ->
  take (length b) (bytes_of_event (c_event y)) = take (length b) (bytes_of_event (c_event x)) \/ a <> c ->
  holds m a b -> holds m' a b.
Proof.
  intros Hx E Hy (z & Hz & Hb). destruct (decide (a = c)) as [-> | Ha].
  - simplify_eq. exists y. rewrite E, lookup_insert_eq. destruct Hy as [Hy | []]; [| done]. by rewrite Hy.
  - exists z. rewrite E, lookup_insert_ne by done. done.
Qed.

(** Linking a new cell behind the others. *)
Lemma link_cell_spec p T c e0 D t F m x :
  Forall (owned m p) T -> c ∈ T -> t ∈ T -> D ⊆ T -> NoDup (c :: D ++ t :: F) ->
  (exists P, pool_is m p P F /\ ready P) ->
  m_cells m !! c = Some x -> c_event x = e0 <| ev_d1 := hd NULL D |> -> c_next x = NULL ->
  chain (m_cells m) (hd NULL D) D -> (exists y, m_cells m !! t = Some y /\ c_next y = NULL) ->
  wp (when (ext_ptr (c_event x) =? NULL) (set_event c (fun e => e <| ev_d1 := t |>));;;
      when (negb (default NULL (last D) =? NULL)) (set_next (default NULL (last D)) t))
    (fun _ m' => pool_frame p T m m' /\ m_pools m' = m_pools m /\ dup_state m' p c e0 (D ++ [t]) F /\
       m_cells m' !! t = m_cells m !! t /\ forall a b, a <> c -> holds m a b -> holds m' a b) m.
Proof.
  intros HO HcT HtT HDT N (P & HP & R) Hx Ec Enx HC (y & Hy & Hyn).
  pose proof (owned_cell _ _ _ _ HO HtT) as (Ht & y' & Hy' & _ & Wt).
  pose proof (owned_cell _ _ _ _ HO HcT) as (_ & x' & Hx' & _ & Wc).
  assert (y' = y) as -> by congruence. assert (x' = x) as -> by congruence.
  apply NoDup_cons in N as [Nc N]. rewrite elem_of_app, elem_of_cons in Nc.
  apply Decidable.not_or in Nc as [NcD Nc]. apply Decidable.not_or in Nc as [Nct NcF].
  assert (Nt : (t ∉ D) /\ (t ∉ F)).
  { rewrite <- Permutation_middle in N. apply NoDup_cons in N as [Nt _].
    rewrite elem_of_app in Nt. tauto. }
  destruct Nt as [NtD NtF]. destruct HP as [Hp HPp HF HCn].
  unfold ext_ptr. rewrite Ec. simpl. rewrite (hd_null m) by done.
  destruct D as [| d D _] using rev_ind; simpl.
  - apply wp_bind, (wp_modify_cell _ x); [done |]. rewrite Ec. simpl. apply wp_ret.
    match goal with |- context [with_cell c ?X m] => set (x2 := X) end. set (m2 := with_cell c x2 m).
    assert (Ex2 : c_event x2 = e0 <| ev_d1 := t |>) by done.
    split; [| split; [done |]]; [| split; [split |]].
    + apply (frame_cell p T m c x (fun _ => x2)); [done | done | done |].
      intros _. simpl. rewrite Ec in Wc. apply (event_wf_d1 _ t) in Wc; [exact Wc | range_lia].
    + exists P. split; [| done]. split; simpl; [done | done | by apply chain_insert | done].
    + exists x2. simpl. by rewrite lookup_insert_eq.
    + simpl. split; [done |]. split; [unfold NULL; lia |]. exists y. rewrite lookup_insert_ne by done. done.
    + simpl. apply NoDup_cons. simpl in N. rewrite elem_of_cons. tauto.
    + split; [by simpl; rewrite lookup_insert_ne |]. intros a b Ha.
      by apply (holds_insert m m2 c x x2); [| | right].
  - rewrite bool_decide_eq_false_2 by (by destruct D). simpl.
    unfold when at 1. apply wp_bind, wp_ret. rewrite last_snoc. simpl.
    assert (HdT : d ∈ T) by (apply HDT; rewrite elem_of_app, list_elem_of_singleton; by right).
    pose proof (owned_cell _ _ _ _ HO HdT) as (Hd & z & Hz & _ & Wd).
    rewrite (proj2 (Z.eqb_neq d NULL)) by (unfold NULL; lia). simpl.
    apply (wp_modify_cell _ z); [done |].
    set (m2 := with_cell d _ m).
    rewrite elem_of_app, list_elem_of_singleton in NtD, NcD.
    assert (NdD : (d ∉ D) /\ (d ∉ F)).
    { rewrite (comm app D [d]) in N. simpl in N. apply NoDup_cons in N as [N _].
      rewrite elem_of_app, elem_of_cons in N. tauto. }
    assert (Hhd : hd NULL ((D ++ [d]) ++ [t]) = hd NULL (D ++ [d])) by (by destruct D).
    split; [by apply (frame_cell _ _ m d z (fun z => z <| c_next := t |>)) |].
    split; [done |]. split; [split |].
    + exists P. split; [| done]. split; simpl; [done | done | by apply chain_insert; [apply NdD |] | done].
    + exists x. simpl. rewrite lookup_insert_ne by (intros ->; apply NcD; by right). by rewrite Hhd.
    + rewrite Hhd. unfold chain.
      assert (Ezn : c_next z = NULL).
      { apply lseg_app in HC as (q & _ & (-> & _ & z' & Hz' & E)). simpl in E. by simplify_eq. }
      pose proof (lseg_snoc (m_cells m) (hd NULL (D ++ [d])) D d z t y) as LS.
      rewrite Ezn, Hyn in LS. apply LS; [tauto | | unfold NULL; lia | done | done | done].
      rewrite elem_of_cons. tauto.
    + apply NoDup_cons. rewrite !elem_of_app, !list_elem_of_singleton.
      split; [tauto |]. by rewrite <- (assoc_L (++)).
    + split; [simpl; by rewrite lookup_insert_ne by (intros ->; apply NtD; by right) |]. intros a b _.
      apply (holds_insert m m2 d z (z <| c_next := t |>)); [done | done | by left].
Qed.

(** The data of the cells is in place after a copy of [n] pieces, or the pool ran out. *)
Record dup_post (p : Z) (T : list Z) (m m' : seqmem) (c : Z) (e0 : snd_seq_event) (D F : list Z)
    (ps : list (list Z)) (err : Z) : Prop := {
  dp_frame : pool_frame p T m m';
  dp_err : err = (if (length ps <=? length F)%nat then 0 else -EAGAIN);
  dp_state : dup_state m' p c e0 (D ++ take (length ps) F) (drop (length ps) F);
  dp_data : Forall2 (holds m') (take (length ps) F) (take (length F) ps);
  dp_kept : forall a b, a ∈ D -> holds m a b -> holds m' a b }.

Lemma dup_state_event p c e0 D F t y e' m m' :
  dup_state m p c e0 D F -> t <> c -> t ∉ F -> m_cells m !! t = Some y ->
  m_cells m' = <[t := y <| c_event := e' |>]> (m_cells m) -> m_pools m' = m_pools m ->
  dup_state m' p c e0 D F.
Proof.
  intros [(P & [A1 A2 A3 A4] & R) (x & Hx & Ec & Enx) HC N] Ht HF Hy Em Ep. split; [| | | done].
  - exists P. split; [| done]. split; [done | by rewrite Ep | rewrite Em; by apply chain_insert | done].
  - exists x. by rewrite Em, lookup_insert_ne.
  - apply (lseg_frame (m_cells m)); [| done]. intros a Ha. rewrite Em.
    destruct (lseg_cell _ _ _ _ _ HC Ha) as [[z Hz] _]. destruct (decide (a = t)) as [-> | Hat].
    + simplify_eq. eexists _, _. rewrite lookup_insert_eq. done.
    + exists z, z. by rewrite lookup_insert_ne.
Qed.

Lemma dup_cells_spec sleep fuel p T chained usrptr c e0 ps : forall F D src buf len m,
  bytes_ok m -> Forall (owned m p) T -> c :: D ++ F ⊆ T -> 0 <= len ->
  dup_state m p c e0 D F -> source m T chained (length ps) src buf len ps ->
  wp (dup_cells sleep (S fuel) p true chained usrptr c (length ps) src buf (default NULL (last D)) len)
    (fun err m' => dup_post p T m m' c e0 D F ps err) m.
Proof.
  induction ps as [| b0 ps0 IH]; intros F D src buf len m Hb HO HT Hlen DS HS; cbn [length dup_cells].
  { apply wp_ret. split; simpl; [apply frame_refl | done | by rewrite app_nil_r, drop_0 | | done].
    rewrite take_nil. constructor. }
  destruct DS as [(P & HP & R) (x & Hx & Ec & Enx) HC N].
  assert (HcT : c ∈ T) by (apply HT; left).
  assert (HDT : D ⊆ T) by (intros a Ha; apply HT; right; apply elem_of_app; by left).
  assert (HFT : F ⊆ T) by (intros a Ha; apply HT; right; apply elem_of_app; by right).
  apply wp_bind. eapply wp_mono; [by apply (cell_alloc_spec _ fuel p P F T) |].
  intros [err t] m1 (Fr1 & Post). destruct F as [| t' F].
  { destruct Post as ([= -> ->] & E1 & P' & HP'). simpl. apply wp_ret.
    split; simpl; [done | done | | constructor | intros a b _ (z & ?); exists z; by rewrite E1].
    rewrite app_nil_r. split; [| exists x; by rewrite E1 | by rewrite E1 | done].
    exists P'. split; [done |]. eapply frame_ready; [done | | | done]; [by destruct HP | by destruct HP']. }
  destruct Post as ([= -> ->] & P1 & yt & HP1 & Hyt & E1). rewrite Z.ltb_irrefl.
  assert (HtT : t' ∈ T) by (apply HFT; left).
  assert (HtN : t' <> c /\ (t' ∉ D) /\ (t' ∉ F)).
  { clear -N. rewrite <- Permutation_middle in N. rewrite !NoDup_cons in N.
    rewrite !elem_of_cons, !elem_of_app in N. destruct N as (N1 & N2 & _).
    split_and!; [intros ->; tauto | tauto | tauto]. }
  destruct HtN as (Htc & HtD & HtF).
  assert (R1 : ready P1).
  { eapply frame_ready; [done | | | done]; [by destruct HP | by destruct HP1]. }
  apply wp_bind, (wp_cell_at _ x); [by rewrite E1, lookup_insert_ne |].
  apply wp_assoc, wp_bind. eapply wp_mono.
  { apply (link_cell_spec p T c e0 D t' F m1 x); try done.
    - by apply Fr1.
    - exists P1. done.
    - by rewrite E1, lookup_insert_ne.
    - rewrite E1. by apply chain_insert.
    - eexists. by rewrite E1, lookup_insert_eq. }
  intros _ m2 (Fr2 & Ep2 & DS2 & Et2 & K2).
  rewrite E1, lookup_insert_eq in Et2.
  assert (Fr12 : pool_frame p T m m2) by eauto using frame_trans.
  apply wp_bind. eapply wp_mono.
  { apply (copy_piece_spec p T chained usrptr t' (yt <| c_next := NULL |>) (length ps0) src buf len (b0 :: ps0) m2);
      [by intros a b; rewrite (pf_bytes _ _ _ _ Fr12); apply Hb | | exact Et2 | done | done |].
    - eapply owned_cell; [by apply Fr12 | done].
    - eapply source_frame; done. }
  intros [e2 src'] m3 (E0 & Fr3 & Ep3 & b & ps' & e' & [= <- <-] & E3 & We' & Hb' & S3). simpl in E0. subst e2.
  simpl. assert (DS3 : dup_state m3 p c e0 (D ++ [t']) F) by (by eapply dup_state_event).
  assert (Fr13 : pool_frame p T m m3) by eauto using frame_trans.
  assert (Ht3 : holds m3 t' b0) by (eexists; rewrite E3, lookup_insert_eq; done).
  eapply wp_mono.
  { pose proof (IH F (D ++ [t']) src' (buf + piece len) (len - piece len) m3) as IH'.
    rewrite last_snoc in IH'. apply IH'; [| by apply Fr13 | | | done | done].
    - intros a b. rewrite (pf_bytes _ _ _ _ Fr13). apply Hb.
    - by rewrite <- (assoc_L (++)).
    - pose proof (piece_range len Hlen). lia. }
  intros err m4 [Q1 Q2 Q3 Q4 Q5]. split; simpl.
  - eauto using frame_trans.
  - exact Q2.
  - by rewrite <- (assoc_L (++)) in Q3.
  - constructor; [| done]. apply Q5; [| done]. rewrite elem_of_app, list_elem_of_singleton. by right.
  - intros a b Ha Hab. apply Q5; [rewrite elem_of_app; by left |].
    assert (a <> c) by (intros ->; rewrite !NoDup_cons, elem_of_app in N; tauto).
    apply (holds_insert m2 m3 t' _ _ a b Et2 E3); [right; by intros -> |]. apply K2; [done |].
    apply (holds_insert m m1 t' yt _ a b Hyt E1); [right; by intros -> | done].
Qed.

(** ** The whole copy *)

(** The external data of an event, cut into the pieces that its cells hold. *)
Definition event_source (m : seqmem) (T : list Z) (e : snd_seq_event) (ps : list (list Z)) : Prop :=
  source m T (is_chained e) (Z.to_nat (event_cells e)) (ext_ptr e) (ext_ptr e) (data_len e) ps.

(** The event in its cell: it leads to the chain of its data. *)
Definition copied (e : snd_seq_event) (D : list Z) : snd_seq_event :=
  if is_variable e
  then e <| ev_d0 := Z.lor (data_len e) EXT_CHAINED |> <| ev_d1 := hd NULL D |> else e.

Lemma data_len_range e : 0 <= data_len e < 2 ^ 30.
Proof.
  unfold data_len, EXT_LEN_MASK. change 0x3fffffff with (Z.ones 30). rewrite Z.land_ones by lia.
  apply Z.mod_pos_bound. lia.
Qed.

(** The length word of chained data. *)
Lemma chained_word len :
  0 <= len < 2 ^ 30 ->
  is_u32 (Z.lor len EXT_CHAINED) /\ Z.land (Z.lor len EXT_CHAINED) EXT_LEN_MASK = len /\
  truth (Z.land (Z.lor len EXT_CHAINED) EXT_CHAINED) = true /\
  Z.land (Z.lor len EXT_CHAINED) EXT_USRPTR = 0.
Proof.
  intros H.
  assert (E : Z.lor len EXT_CHAINED = 2 ^ 30 + len).
  { rewrite Z.lor_comm. change EXT_CHAINED with (1 * 2 ^ 30). rewrite lor_add_shifted by lia. lia. }
  split; [rewrite E; range_lia |]. rewrite !Z.land_lor_distr_l.
  assert (L1 : Z.land len EXT_LEN_MASK = len).
  { change EXT_LEN_MASK with (Z.ones 30). rewrite Z.land_ones by lia. apply Z.mod_small. lia. }
  assert (L2 : Z.land len EXT_CHAINED = 0).
  { rewrite Z.land_comm. change EXT_CHAINED with (1 * 2 ^ 30). apply land_pow2_add; lia. }
  assert (L3 : Z.land len EXT_USRPTR = 0).
  { rewrite Z.land_comm. change EXT_USRPTR with (2 * 2 ^ 30). apply land_pow2_add; lia. }
  rewrite L1, L2, L3. split; [by rewrite Z.lor_0_r |]. done.
Qed.

Lemma copied_chained e D :
  is_variable e = true ->
  is_variable (copied e D) = true /\ is_chained (copied e D) = true /\ is_usrptr (copied e D) = false /\
  data_len (copied e D) = data_len e /\ ext_ptr (copied e D) = hd NULL D.
Proof.
  intros V. unfold copied. rewrite V. destruct (chained_word _ (data_len_range e)) as (_ & A & B & C).
  unfold is_chained, is_usrptr, data_len, ext_len, ext_ptr, is_variable in *. simpl.
  unfold data_len in *. rewrite A, B, C. done.
Qed.

Lemma cells_for_nonneg len : 0 <= len -> 0 <= cells_for len.
Proof. intros H. unfold cells_for, SEQ_EVENT_SIZE. apply Z.div_pos; lia. Qed.

Lemma cells_for_step len : 0 < len -> cells_for len = 1 + cells_for (len - piece len).
Proof. unfold cells_for, piece, SEQ_EVENT_SIZE. intros H. btest; Z.div_mod_to_equations; lia. Qed.

Lemma event_cells_nonneg e : 0 <= event_cells e.
Proof.
  unfold event_cells. destruct (is_variable e); [| lia]. apply cells_for_nonneg, data_len_range.
Qed.

Lemma event_source_length m T e ps : event_source m T e ps -> Z.of_nat (length ps) = event_cells e.
Proof. intros ->%source_length. pose proof (event_cells_nonneg e). lia. Qed.

(** What a copy that is not refused for its size gives. *)
Definition dup_result (m m' : seqmem) (p : Z) (e : snd_seq_event) (F : list Z) (ps : list (list Z))
    (r : Z * Z) : Prop :=
  if (S (length ps) <=? length F)%nat then
    exists c D F', F = c :: D ++ F' /\ r = (0, c) /\
      (exists P', pool_is m' p P' F' /\ ready P') /\
      (exists x, m_cells m' !! c = Some x /\ c_event x = copied e D /\ c_next x = NULL) /\
      chained_cells m' (copied e D) D /\ Forall2 (holds m') D ps
  else r = (-EAGAIN, NULL) /\ exists P' F', pool_is m' p P' F' /\ ready P' /\ F' ≡ₚ F.

(** The part of [snd_seq_event_dup] after the first cell is there. *)
Lemma dup_data_spec sleep fuel p e F T ps c m x :
  bytes_ok m -> Forall (owned m p) T -> c :: F ⊆ T -> NoDup (c :: F) -> event_wf e ->
  (exists P, pool_is m p P F /\ ready P) -> m_cells m !! c = Some x -> c_event x = e -> c_next x = NULL ->
  is_variable e = true -> event_source m T e ps ->
  wp (set_event c (fun e' => e' <| ev_d0 := Z.lor (data_len e) EXT_CHAINED |> <| ev_d1 := NULL |>);;;
      dup_cells sleep (S fuel) p true (is_chained e) (is_usrptr e) c (Z.to_nat (event_cells e))
        (ext_ptr e) (ext_ptr e) NULL (data_len e))
    (fun err m' => pool_frame p T m m' /\
       err = (if (length ps <=? length F)%nat then 0 else -EAGAIN) /\
       dup_state m' p c (e <| ev_d0 := Z.lor (data_len e) EXT_CHAINED |>)
         (take (length ps) F) (drop (length ps) F) /\
       Forall2 (holds m') (take (length ps) F) (take (length F) ps)) m.
Proof.
  intros Hb HO HT N We (P & HP & R) Hx Ec Enx V S. pose proof (event_source_length _ _ _ _ S) as Hl.
  apply wp_bind, (wp_modify_cell _ x); [done |]. rewrite Ec.
  match goal with |- context [with_cell c ?X m] => set (x1 := X) end. set (m1 := with_cell c x1 m).
  assert (Fr1 : pool_frame p T m m1).
  { apply (frame_cell p T m c x (fun _ => x1)); [apply HT; left | done | done |].
    intros [W1 W2]. destruct (chained_word _ (data_len_range e)) as (A & _). rewrite Ec in *.
    split; simpl; [done |]. rewrite !Forall_cons in *. destruct_and? W2.
    split_and!; done || (unfold NULL; range_lia). }
  apply NoDup_cons in N as [Nc N].
  assert (DS : dup_state m1 p c (e <| ev_d0 := Z.lor (data_len e) EXT_CHAINED |>) [] F).
  { split; [| | done | by apply NoDup_cons].
    - exists P. split; [| done]. destruct HP as [A1 A2 A3 A4].
      split; simpl; [done | done | by apply chain_insert | done].
    - exists x1. simpl. by rewrite lookup_insert_eq. }
  replace (Z.to_nat (event_cells e)) with (length ps) by lia.
  eapply wp_mono.
  { apply (dup_cells_spec sleep fuel p T (is_chained e) (is_usrptr e) c
      (e <| ev_d0 := Z.lor (data_len e) EXT_CHAINED |>) ps F [] (ext_ptr e) (ext_ptr e) (data_len e) m1);
      [done | by apply Fr1 | done | apply data_len_range | done |].
    eapply source_frame; [exact Fr1 |]. unfold event_source in S.
    replace (length ps) with (Z.to_nat (event_cells e)) by lia. exact S. }
  intros err m2 [Q1 Q2 Q3 Q4 Q5]. split; [eauto using frame_trans |]. done.
Qed.

(** Its end: the copy is handed out, or its cells go back. *)
Lemma dup_finish p T e F ps c m m3 :
  is_variable e = true -> pool_frame p T m m3 -> Forall (owned m p) T -> c :: F ⊆ T ->
  dup_state m3 p c (e <| ev_d0 := Z.lor (data_len e) EXT_CHAINED |>)
    (take (length ps) F) (drop (length ps) F) ->
  Forall2 (holds m3) (take (length ps) F) (take (length F) ps) ->
  wp (let err := if (length ps <=? length F)%nat then 0 else -EAGAIN in
      if err <? 0 then (snd_seq_cell_free c;;; ret (err, NULL)) else ret (0, c))
    (fun r m' => pool_frame p T m m' /\ dup_result m m' p e (c :: F) ps r) m3.
Proof.
  intros V Fr HO HT [(P & HP & R) (x & Hx & Ec & Enx) HC N] Hd. unfold dup_result. cbn [length Nat.leb].
  destruct (Nat.leb_spec (length ps) (length F)) as [Hle | Hlt]; simpl.
  - apply wp_ret. split; [done |]. exists c, (take (length ps) F), (drop (length ps) F).
    split; [by rewrite take_drop |]. split; [done |]. split; [eauto |].
    split; [exists x; split; [done |]; split; [unfold copied; by rewrite V | done] |].
    split; [| by rewrite (take_ge ps) in Hd by lia].
    unfold chained_cells. destruct (copied_chained e (take (length ps) F) V) as (-> & -> & _ & _ & ->). done.
  - rewrite (take_ge F), (drop_ge F) in * by lia. rewrite app_nil_r in N.
    assert (HO3 : Forall (owned m3 p) T) by (by apply Fr).
    destruct (owned_cell _ _ _ c HO3 ltac:(apply HT; left)) as (Hc & x' & Hx' & Hp & _). simplify_eq.
    apply wp_bind. eapply wp_mono.
    { apply (cell_free_spec (c_pool x) P [] T c x F m3); try done.
      - unfold NULL. lia.
      - rewrite Ec. pose proof (copied_chained e F V) as (A & B & _ & _ & C). unfold copied in *. rewrite V in *.
        unfold chained_cells. rewrite A, B, C. done.
      - by rewrite app_nil_r. }
    intros _ m4 (Fr4 & P4 & HP4). apply wp_ret. split; [eauto using frame_trans |]. split; [done |].
    exists P4, (reverse F ++ [c]). split; [done |]. split.
    + eapply frame_ready; [exact Fr4 | | | exact R]; [by destruct HP | by destruct HP4].
    + rewrite reverse_Permutation. by rewrite <- Permutation_cons_append.
Qed.

Lemma event_dup_spec sleep fuel p P e F T ps m :
  pool_is m p P F -> ready P -> bytes_ok m -> Forall (owned m p) T -> F ⊆ T -> event_wf e ->
  event_source m T e ps ->
  wp (snd_seq_event_dup sleep (S fuel) p e true)
    (fun r m' => pool_frame p T m m' /\
       if p_total_elements P <=? Z.of_nat (length ps) then r = (-ENOMEM, NULL) /\ m' = m
       else dup_result m m' p e F ps r) m.
Proof.
  intros HP R Hb HO HT We S. pose proof (event_source_length _ _ _ _ S) as Hl.
  unfold snd_seq_event_dup. apply wp_bind, (wp_pool_at _ P); [by destruct HP |]. rewrite Hl.
  destruct (p_total_elements P <=? event_cells e).
  { apply wp_ret. split; [apply frame_refl | done]. }
  apply wp_bind. eapply wp_mono; [by apply (cell_alloc_spec _ fuel p P F T) |].
  intros [err c'] m1 (Fr1 & Post). unfold dup_result. destruct F as [| c F].
  { destruct Post as ([= -> ->] & _ & P' & HP'). simpl. apply wp_ret. split; [done |]. split; [done |].
    exists P', []. split; [done |]. split; [| done].
    eapply frame_ready; [done | | | done]; [by destruct HP | by destruct HP']. }
  destruct Post as ([= -> ->] & P1 & y & HP1 & Hy & E1). rewrite Z.ltb_irrefl.
  assert (R1 : ready P1).
  { eapply frame_ready; [done | | | done]; [by destruct HP | by destruct HP1]. }
  assert (HcT : c ∈ T) by (apply HT; left).
  assert (N : NoDup (c :: F)) by (eapply chain_nodup, HP).
  apply wp_bind, (wp_modify_cell _ (y <| c_next := NULL |>)); [by rewrite E1, lookup_insert_eq |].
  match goal with |- context [with_cell c ?X m1] => set (y1 := X) end. set (m2 := with_cell c y1 m1).
  assert (Fr2 : pool_frame p T m m2).
  { eapply frame_trans; [exact Fr1 |].
    apply (frame_cell p T m1 c (y <| c_next := NULL |>) (fun _ => y1)); [done | | done | done].
    by rewrite E1, lookup_insert_eq. }
  assert (HP2 : pool_is m2 p P1 F).
  { apply NoDup_cons in N as [Nc _]. destruct HP1 as [A1 A2 A3 A4].
    split; simpl; [done | done | by apply chain_insert | done]. }
  assert (Hy1 : m_cells m2 !! c = Some y1) by (simpl; by rewrite lookup_insert_eq).
  destruct (is_variable e) eqn:V.
  - apply wp_bind. eapply wp_mono.
    { apply (dup_data_spec sleep fuel p e F T ps c m2 y1); try done; [| by apply Fr2 | by exists P1 |].
      - intros a b. rewrite (pf_bytes _ _ _ _ Fr2). apply Hb.
      - eapply source_frame; done. }
    intros err m3 (Fr3 & -> & DS & Hd). cbn [length Nat.leb].
    assert (Fr : pool_frame p T m m3) by eauto using frame_trans.
    by apply (dup_finish p T e F ps c m).
  - apply wp_bind, wp_ret. rewrite Z.ltb_irrefl. apply wp_ret. split; [done |].
    assert (ps = []) as ->. { unfold event_cells in Hl. rewrite V in Hl. by destruct ps. }
    simpl. exists c, [], F. split; [done |]. split; [done |]. split; [eauto |].
    unfold copied, chained_cells. rewrite !V. simpl. split; [eauto |]. split; [done | constructor].
Qed.

(** ** Reading the data back *)

Fixpoint sized (len : Z) (ps : list (list Z)) : Prop :=
  match ps with
  | [] => True
  | b :: ps => length b = Z.to_nat (piece len) /\ sized (len - piece len) ps
  end.

Lemma source_sized m T chained n src buf len ps : source m T chained n src buf len ps -> sized len ps.
Proof.
  revert src buf len ps. induction n as [| n IH]; intros src buf len ps; simpl; [by intros -> |].
  intros (b & ps' & -> & L & H). split; [done |].
  destruct chained; [destruct H as (_ & _ & s & _ & _ & _ & H) | destruct H as [_ H]]; eauto.
Qed.

(** A flat buffer is a source of its own bytes. *)
Lemma flat_source m T n src buf len :
  0 <= len -> Z.of_nat n = cells_for len -> length (readable m buf (Z.to_nat len)) = Z.to_nat len ->
  exists ps, source m T false n src buf len ps /\ concat ps = readable m buf (Z.to_nat len).
Proof.
  revert buf len. induction n as [| n IH]; intros buf len Hlen Hn R.
  - assert (len = 0) as ->. { unfold cells_for, SEQ_EVENT_SIZE in Hn. Z.div_mod_to_equations. lia. }
    exists []. done.
  - assert (0 < len). { unfold cells_for, SEQ_EVENT_SIZE in Hn. Z.div_mod_to_equations. lia. }
    rewrite cells_for_step in Hn by done. pose proof (piece_range len Hlen) as Hp.
    replace (Z.to_nat len) with (Z.to_nat (piece len) + Z.to_nat (len - piece len))%nat in R |- * by lia.
    destruct (readable_app m buf _ _ R) as (E & L1 & L2). rewrite Z2Nat.id in * by lia.
    destruct (IH (buf + piece len) (len - piece len)) as (ps & S & C); [lia | lia | done |].
    exists (readable m buf (Z.to_nat (piece len)) :: ps). split; [| simpl; by rewrite E, C].
    eexists _, _. done.
Qed.

Lemma expand_cells_spec m ps : forall D len a fuel,
  chain (m_cells m) a D -> Forall2 (holds m) D ps -> sized len ps -> 0 <= len ->
  Z.of_nat (length ps) = cells_for len -> (length D < fuel)%nat ->
  expand_cells fuel len a m = Some (concat ps, m).
Proof.
  induction ps as [| b ps IH]; intros D len a fuel HC HD HS Hlen Hn Hf; destruct fuel as [| fuel]; try lia.
  - assert (len = 0) as ->. { unfold cells_for, SEQ_EVENT_SIZE in Hn. simpl in Hn. Z.div_mod_to_equations. lia. }
    done.
  - assert (0 < len).
    { unfold cells_for, SEQ_EVENT_SIZE in Hn. cbn [length] in Hn. Z.div_mod_to_equations. lia. }
    rewrite cells_for_step in Hn by done. pose proof (piece_range len Hlen) as Hp.
    apply Forall2_cons_inv_r in HD as (c & D' & (x & Hx & Hb) & HD & ->).
    destruct HC as (-> & Hnull & x' & Hx' & HC). assert (x' = x) as -> by congruence.
    destruct HS as [Hs HS].
    cbn [expand_cells]. rewrite (proj2 (Z.ltb_lt 0 len)), (proj2 (Z.eqb_neq c NULL)) by done. simpl.
    rewrite (bind_some _ _ m x m) by (unfold cell_at; by rewrite Hx).
    rewrite (bind_some _ _ m (concat ps) m); [by rewrite <- Hs, Hb |].
    apply (IH D'); [done | done | done | lia | cbn [length] in Hn; lia | simpl in Hf; lia].
Qed.

(** The external data of an event, as bytes; no source cell is in [T]. *)
Definition event_data (m : seqmem) (T : list Z) (e : snd_seq_event) (bs : list Z) : Prop :=
  exists ps, event_source m T e ps /\ concat ps = bs.

Lemma flat_data m T e :
  is_variable e = true -> is_chained e = false ->
  length (readable m (ext_ptr e) (Z.to_nat (data_len e))) = Z.to_nat (data_len e) ->
  event_data m T e (readable m (ext_ptr e) (Z.to_nat (data_len e))).
Proof.
  intros V C L. pose proof (data_len_range e) as Hl.
  assert (E : event_cells e = cells_for (data_len e)) by (unfold event_cells; by rewrite V).
  destruct (flat_source m T (Z.to_nat (event_cells e)) (ext_ptr e) (ext_ptr e) (data_len e))
    as (ps & S & Ep); [lia | rewrite <- E; pose proof (event_cells_nonneg e); lia | done |].
  exists ps. split; [| done]. unfold event_source. by rewrite C.
Qed.

(** The free cells of a pool, however they are ordered. *)
Definition pool_free_cells (m : seqmem) (p : Z) (F : list Z) : Prop :=
  exists P F', pool_is m p P F' /\ ready P /\ F' ≡ₚ F.

Lemma expand_copied m e D ps T m0 count :
  is_variable e = true -> chained_cells m (copied e D) D -> Forall2 (holds m) D ps ->
  event_source m0 T e ps -> data_len e <= count ->
  snd_seq_expand_var_event false (copied e D) count true 0 m = Some (data_len e, concat ps, m).
Proof.
  intros V HC HD S Hcount. unfold chained_cells in HC.
  destruct (copied_chained e D V) as (Vc & Cc & Uc & Lc & Pc). rewrite Vc, Cc in HC. simpl in HC.
  unfold snd_seq_expand_var_event. rewrite Vc, Uc, Cc, Lc, Pc in *.
  cbn [negb]. rewrite Z.ltb_irrefl.
  rewrite (proj2 (Z.ltb_ge count (data_len e))) by done.
  rewrite (bind_some _ _ m (concat ps) m); [done |].
  pose proof (event_source_length _ _ _ _ S) as Hl. pose proof (data_len_range e).
  apply (expand_cells_spec m ps D); [done | done | by eapply source_sized | lia | |].
  - rewrite Hl. unfold event_cells. by rewrite V.
  - unfold chain_fuel. apply chain_length in HC. lia.
Qed.

(** C24: copying an event into a pool, reading the copy and freeing it again loses nothing.
    When the pool has a cell for the event and one for every 28 bytes of its external
    data - in a kernel buffer, a user's buffer or chained cells - the copy succeeds, leaves
    the cells that are not free alone, and expands to the very bytes of the original;
    freeing it gives all its cells back. *)
Theorem event_dup_roundtrip sleep fuel p P e F T bs m :
  pool_is m p P F -> ready P -> bytes_ok m -> Forall (owned m p) T -> F ⊆ T ->
  event_wf e -> is_variable e = true -> event_data m T e bs ->
  event_cells e < p_total_elements P -> event_cells e < Z.of_nat (length F) ->
  exists c m1 x m2,
    snd_seq_event_dup sleep (S fuel) p e true m = Some ((0, c), m1) /\ c ∈ F /\
    (forall a, a ∉ T -> m_cells m1 !! a = m_cells m !! a) /\
    m_cells m1 !! c = Some x /\ ev_type (c_event x) = ev_type e /\
    ev_time (c_event x) = ev_time e /\ ev_dest (c_event x) = ev_dest e /\
    (forall count, data_len e <= count ->
       snd_seq_expand_var_event false (c_event x) count true 0 m1 = Some (data_len e, bs, m1)) /\
    snd_seq_cell_free c m1 = Some (tt, m2) /\ pool_free_cells m2 p F.
Proof.
  intros HP R Hb HO HT We V (ps & S & <-) Ht Hf.
  pose proof (event_source_length _ _ _ _ S) as Hl.
  destruct (wp_run _ _ _ (event_dup_spec sleep fuel p P e F T ps m HP R Hb HO HT We S))
    as (r & m1 & E & Fr & Q).
  rewrite (proj2 (Z.leb_gt _ _)) in Q by lia. unfold dup_result in Q.
  rewrite (proj2 (Nat.leb_le _ _)) in Q by lia.
  destruct Q as (c & D & F' & -> & -> & (P1 & HP1 & R1) & (x & Hx & Ec & _) & HC & HD).
  assert (HO1 : Forall (owned m1 p) T) by (by apply Fr).
  destruct (owned_cell _ _ _ c HO1 ltac:(apply HT; left)) as (Hc & x' & Hx' & Hp & _).
  assert (x' = x) as -> by congruence. subst p.
  assert (N : NoDup (c :: D ++ F')) by (eapply chain_nodup, HP).
  destruct (wp_run _ _ _ (cell_free_spec (c_pool x) P1 F' T c x D m1 HP1 Hx eq_refl
    ltac:(unfold NULL; lia) ltac:(by rewrite Ec)
    ltac:(intros a Ha; apply HT; rewrite elem_of_cons, elem_of_app; apply elem_of_cons in Ha; tauto) N))
    as ([] & m2 & E2 & Fr2 & P2 & HP2).
  exists c, m1, x, m2. split; [done |]. split; [left |]. split; [by apply Fr |]. split; [done |].
  assert (Es : ev_type (copied e D) = ev_type e /\ ev_time (copied e D) = ev_time e /\
               ev_dest (copied e D) = ev_dest e) by (unfold copied; by rewrite V).
  rewrite Ec. destruct Es as (-> & -> & ->). do 3 (split; [done |]).
  split; [intros count Hcount; by eapply expand_copied |]. split; [done |].
  exists P2, (reverse D ++ c :: F'). split; [done |]. split.
  - eapply frame_ready; [exact Fr2 | | | exact R1]; [by destruct HP1 | by destruct HP2].
  - by rewrite reverse_Permutation, <- Permutation_middle.
Qed.

(** C36: a copy that fails takes nothing.  When the event needs as many cells for its data as
    the pool has in all, the copy is refused with -ENOMEM and the memory is untouched; when
    cells run out on the way, it gives -EAGAIN and every free cell is free again. *)
Theorem event_dup_all_or_nothing sleep fuel p P e F T bs m :
  pool_is m p P F -> ready P -> bytes_ok m -> Forall (owned m p) T -> F ⊆ T ->
  event_wf e -> event_data m T e bs -> Z.of_nat (length F) <= event_cells e ->
  exists r m', snd_seq_event_dup sleep (S fuel) p e true m = Some ((r, NULL), m') /\
    (p_total_elements P <= event_cells e -> r = -ENOMEM /\ m' = m) /\
    (event_cells e < p_total_elements P -> r = -EAGAIN) /\
    pool_free_cells m' p F /\ (forall a, a ∉ T -> m_cells m' !! a = m_cells m !! a).
Proof.
  intros HP R Hb HO HT We (ps & S & <-) Hf.
  pose proof (event_source_length _ _ _ _ S) as Hl.
  destruct (wp_run _ _ _ (event_dup_spec sleep fuel p P e F T ps m HP R Hb HO HT We S))
    as (r & m1 & E & Fr & Q). rewrite Hl in Q.
  destruct (Z.leb_spec (p_total_elements P) (event_cells e)) as [Hle | Hlt].
  - destruct Q as [-> ->]. exists (-ENOMEM), m. split; [done |]. split; [done |]. split; [lia |].
    split; [by exists P, F | done].
  - unfold dup_result in Q. rewrite (proj2 (Nat.leb_gt _ _)) in Q by lia.
    destruct Q as (-> & P' & F' & HP' & R' & Ep). exists (-EAGAIN), m1.
    split; [done |]. split; [lia |]. split; [done |]. split; [by exists P', F' | by apply Fr].
Qed.

(** ** A pool of four cells *)

Definition plain_event (type flags : Z) : snd_seq_event :=
  Event type flags 0 0 (Timestamp 0 0) (Addr 0 0) (Addr 0 0) 0 0 0.

Definition four_cells : seqmem :=
  Seqmem (<[100 := Cell (plain_event 0 0) 1 136]> (<[136 := Cell (plain_event 0 0) 1 172]>
          (<[172 := Cell (plain_event 0 0) 1 208]> {[208 := Cell (plain_event 0 0) 1 0]})))
    {[1 := Pool [(92, 4)] 100 4 0 4 2 false 0 0 0 false 0]}
    (list_to_map ((fun i => (1000 + i, (7 * i) mod 128)) <$> seqZ 0 40)).

Definition sysex_40 : snd_seq_event :=
  (plain_event EVENT_SYSEX EVENT_LENGTH_VARIABLE) <| ev_d0 := 40 |> <| ev_d1 := 1000 |>.

Lemma plain_event_wf type flags : is_byte type -> is_byte flags -> event_wf (plain_event type flags).
Proof.
  intros. split; unfold plain_event; simpl; rewrite !Forall_cons; split_and!;
    first [done | apply Forall_nil | split; lia].
Qed.

Lemma four_cells_pool :
  exists P, pool_is four_cells 1 P [100; 136; 172; 208] /\ ready P /\ p_total_elements P = 4.
Proof.
  eexists. split; [split; [done | reflexivity | | done] |]; [| done].
  repeat (split; [done |]; split; [done |]; eexists; split; [reflexivity |]; simpl). done.
Qed.

Lemma four_cells_owned : Forall (owned four_cells 1) [100; 136; 172; 208].
Proof.
  assert (W : event_wf (plain_event 0 0)) by (apply plain_event_wf; split; lia).
  repeat (apply Forall_cons; split; [split; [range_lia |]; eexists; split; [reflexivity | done] |]).
  constructor.
Qed.

Lemma four_cells_bytes : bytes_ok four_cells.
Proof.
  intros a b H. apply elem_of_list_to_map_2 in H. apply list_elem_of_fmap in H as (i & [= -> ->] & _).
  pose proof (Z.mod_pos_bound (7 * i) 128). unfold is_byte. lia.
Qed.

Lemma sysex_40_data : event_data four_cells [100; 136; 172; 208] sysex_40
  ((fun i => (7 * i) mod 128) <$> seqZ 0 40).
Proof. apply (flat_data four_cells _ sysex_40); reflexivity. Qed.

Lemma sysex_40_wf : event_wf sysex_40.
Proof.
  split; unfold sysex_40, plain_event; simpl; rewrite !Forall_cons; split_and!;
    first [done | apply Forall_nil | split; lia].
Qed.

(** A system exclusive message of 40 bytes takes three of the four cells. *)
Lemma event_dup_roundtrip_witness :
  exists c m1 x m2,
    snd_seq_event_dup (fun _ m => (false, m)) 1 1 sysex_40 true four_cells = Some ((0, c), m1) /\
    m_cells m1 !! c = Some x /\
    snd_seq_expand_var_event false (c_event x) 64 true 0 m1
      = Some (40, (fun i => (7 * i) mod 128) <$> seqZ 0 40, m1) /\
    snd_seq_cell_free c m1 = Some (tt, m2) /\ pool_free_cells m2 1 [100; 136; 172; 208].
Proof.
  destruct four_cells_pool as (P & HP & R & Et).
  destruct (event_dup_roundtrip (fun _ m => (false, m)) 0 1 P sysex_40 [100; 136; 172; 208]
    [100; 136; 172; 208] _ four_cells HP R four_cells_bytes four_cells_owned ltac:(done) sysex_40_wf
    eq_refl sysex_40_data ltac:(rewrite Et; reflexivity) ltac:(reflexivity))
    as (c & m1 & x & m2 & E & _ & _ & Hx & _ & _ & _ & Hexp & Hfree & Hcells).
  exists c, m1, x, m2. split; [exact E |]. split; [exact Hx |].
  split; [apply (Hexp 64); vm_compute; discriminate |]. by split.
Defined.

(** With no free cell the copy gives up. *)
Lemma event_dup_all_or_nothing_witness :
  exists r m', snd_seq_event_dup (fun _ m => (false, m)) 1 1 (plain_event EVENT_NOTEON 0)
      true (four_cells <| m_pools := {[1 := Pool [(92, 4)] 0 4 4 4 2 false 0 0 0 false 0]} |>)
      = Some ((r, NULL), m') /\ r = -EAGAIN.
Proof.
  set (m := four_cells <| m_pools := _ |>).
  assert (HP : pool_is m 1 (Pool [(92, 4)] 0 4 4 4 2 false 0 0 0 false 0) []).
  { split; [done | reflexivity | done | done]. }
  assert (HO : Forall (owned m 1) [100; 136; 172; 208]) by exact four_cells_owned.
  destruct (event_dup_all_or_nothing (fun _ m => (false, m)) 0 1 _ (plain_event EVENT_NOTEON 0) []
    [100; 136; 172; 208] [] m HP ltac:(done) four_cells_bytes HO ltac:(intros a Ha; by apply not_elem_of_nil in Ha)
    ltac:(apply plain_event_wf; split; vm_compute; congruence)
    ltac:(exists []; split; reflexivity) ltac:(vm_compute; discriminate)) as (r & m' & E & _ & Q & _).
  exists r, m'. split; [exact E | apply Q; reflexivity].
Defined.
