(* ===== verification/SeqPool.v ===== *)
(** * SeqPool: setting pools up

    [snd_seq_pool_new] and [snd_seq_pool_init] of SeqMemory give a pool whose free list
    holds every cell of its chunks once. *)

From S2P Require Import Prelude SeqEvent SeqCells SeqMemory.
Open Scope Z_scope.
Open Scope state_scope.

(** ** Setting a pool up *)

Lemma zero_event_wf : event_wf zero_event.
Proof. split; simpl; rewrite !Forall_cons; split_and!; try apply Forall_nil; done || (split; lia). Qed.

Lemma length_chunk_cells a n : length (chunk_cells (a, n)) = Z.to_nat n.
Proof. unfold chunk_cells. rewrite length_fmap. apply length_seqZ. Qed.

Lemma chunk_cells_nodup ch : NoDup (chunk_cells ch).
Proof.
  unfold chunk_cells. apply NoDup_fmap_2; [| apply NoDup_seqZ].
  intros i j. unfold chunk_cell, CELL_SIZE. lia.
Qed.

Lemma foldr_insert_in {V} (v : V) (H : gmap Z V) l a :
  foldr (fun a H => <[a := v]> H) H l !! a = if decide (a ∈ l) then Some v else H !! a.
Proof.
  induction l as [| b l IH]; cbn [foldr]; [by rewrite decide_False by apply not_elem_of_nil |].
  destruct (decide (a = b)) as [-> | Hab].
  - rewrite lookup_insert_eq, decide_True by left. done.
  - rewrite lookup_insert_ne, IH by done. apply decide_ext. rewrite elem_of_cons. tauto.
Qed.

Section PoolInit.
Context `{SeqAllocOk}.

(** [cells] are new since [m0], clear, and all that has changed. *)
Record fresh_cells (m0 m : seqmem) (cells : list Z) : Prop := {
  fc_nodup : NoDup cells;
  fc_new : forall a, a ∈ cells -> m_cells m0 !! a = None /\ 0 < a <= UINT_MAX /\
             m_cells m !! a = Some (Cell zero_event NULL NULL);
  fc_old : forall a, a ∉ cells -> m_cells m !! a = m_cells m0 !! a;
  fc_pools : m_pools m = m_pools m0;
  fc_bytes : m_bytes m = m_bytes m0 }.

Lemma fresh_refl m : fresh_cells m m [].
Proof. split; [constructor | | done | done | done]. intros a Ha. by apply not_elem_of_nil in Ha. Qed.

Lemma chunk_allocate_spec m0 m cells n :
  fresh_cells m0 m cells ->
  wp (snd_seq_chunk_allocate n)
    (fun a m' => match a with
       | Some a => fresh_cells m0 m' (chunk_cells (a, n) ++ cells)
       | None => m' = m /\ alloc_chunk m n = None
       end) m.
Proof.
  intros [N A B C D]. unfold snd_seq_chunk_allocate, wp.
  destruct (alloc_chunk m n) as [a |] eqn:E; [| done]. simpl.
  pose proof (fun c => alloc_chunk_fresh m n a c E) as Fr.
  assert (Old : forall c, c ∈ chunk_cells (a, n) -> (c ∉ cells) /\ m_cells m0 !! c = None).
  { intros c Hc. destruct (Fr c Hc) as [Hm _]. split.
    - intros Hcc. destruct (A c Hcc) as (_ & _ & Hx). congruence.
    - rewrite <- B; [done |]. intros Hcc. destruct (A c Hcc) as (_ & _ & Hx). congruence. }
  split; simpl; [| | | done | done].
  - apply NoDup_app. split; [apply chunk_cells_nodup |]. split; [| done]. intros c Hc. by apply Old.
  - intros c Hc. rewrite foldr_insert_in. apply elem_of_app in Hc as [Hc | Hc].
    + rewrite decide_True by done. split; [by apply Old |]. split; [by apply Fr | done].
    + destruct (A c Hc) as (? & ? & ?). split; [done |]. split; [done |].
      by destruct (decide (c ∈ chunk_cells (a, n))).
  - intros c Hc. rewrite elem_of_app in Hc. rewrite foldr_insert_in, decide_False by tauto. apply B. tauto.
Qed.

Lemma allocate_chunks_spec m0 n : forall chunks got m,
  fresh_cells m0 m (chunks ≫= chunk_cells) ->
  wp (allocate_chunks n chunks got)
    (fun r m' => fresh_cells m0 m' (r.1 ≫= chunk_cells) /\ got <= r.2 <= got + Z.of_nat n /\
       Z.of_nat (length (r.1 ≫= chunk_cells)) =
         Z.of_nat (length (chunks ≫= chunk_cells)) + (r.2 - got) * SEQ_DEFAULT_CHUNK_EVENTS /\
       (r.2 = got + Z.of_nat n \/ exists m1, alloc_chunk m1 SEQ_DEFAULT_CHUNK_EVENTS = None) /\
       (r.1 = [] -> chunks = [] /\ r.2 = got)) m.
Proof.
  induction n as [| n IH]; intros chunks got m F; cbn [allocate_chunks].
  { apply wp_ret. simpl. split; [done |]. split; [lia |]. split; [lia |]. split; [left; lia | done]. }
  apply wp_bind. eapply wp_mono; [by apply chunk_allocate_spec |]. intros [b |] m' F'.
  - eapply wp_mono; [by apply (IH ((b, SEQ_DEFAULT_CHUNK_EVENTS) :: chunks)) |].
    intros [chunks' got'] m2 (A & B & C & D & G). cbn [fst snd] in *.
    rewrite bind_cons, length_app, length_chunk_cells in C. split; [done |]. split; [lia |].
    split; [unfold SEQ_DEFAULT_CHUNK_EVENTS in *; lia |]. split; [| by intros [? _]%G].
    destruct D as [D | D]; [left; lia | by right].
  - destruct F' as [-> E]. apply wp_ret. simpl.
    split; [done |]. split; [lia |]. split; [lia |]. split; [right; eauto | done].
Qed.

Lemma add_free_spec p cells : forall P F m,
  p <> NULL -> m_pools m !! p = Some P -> chain (m_cells m) (p_free P) F -> NoDup (cells ++ F) ->
  (forall a, a ∈ cells -> a <> NULL /\ exists x, m_cells m !! a = Some x /\ c_event x = zero_event) ->
  wp (add_free p cells)
    (fun _ m' => exists q, m_pools m' = <[p := P <| p_free := q |>]> (m_pools m) /\
       chain (m_cells m') q (reverse cells ++ F) /\ m_bytes m' = m_bytes m /\
       (forall a, a ∉ cells -> m_cells m' !! a = m_cells m !! a) /\
       (forall a, a ∈ cells -> exists x, m_cells m' !! a = Some x /\ c_pool x = p /\ c_event x = zero_event)) m.
Proof.
  induction cells as [| c cells IH]; intros P F m Hp HP HF N HC; cbn [add_free].
  { apply wp_ret. exists (p_free P). split_and!; try done.
    - symmetry. apply insert_id. by destruct P.
    - intros a Ha. by apply not_elem_of_nil in Ha. }
  destruct (HC c ltac:(left)) as (Hn & x & Hx & Ez).
  simpl in N. apply NoDup_cons in N as [Nc N]. rewrite elem_of_app in Nc.
  apply wp_bind, (wp_pool_at _ P); [done |]. apply wp_bind, (wp_modify_cell _ x); [done |].
  match goal with |- context [with_cell c ?X m] => set (x1 := X) end. set (m1 := with_cell c x1 m).
  apply wp_bind, (wp_modify_pool _ P); [done |].
  set (P1 := P <| p_free := c |>). set (m2 := with_pool p P1 m1).
  eapply wp_mono.
  { apply (IH P1 (c :: F) m2); [done | simpl; by rewrite lookup_insert_eq | | |].
    - simpl. split; [done |]. split; [done |]. exists x1. rewrite lookup_insert_eq. split; [done |].
      apply (chain_insert (m_cells m)); [tauto | done].
    - rewrite <- Permutation_middle. apply NoDup_cons. rewrite elem_of_app. tauto.
    - intros a Ha. destruct (HC a ltac:(by right)) as (Hna & y & Hy & Ey). split; [done |].
      exists y. simpl. rewrite lookup_insert_ne by (intros ->; tauto). done. }
  intros _ m3 (q & Ep & Ech & Eb & Hold & Hnew). exists q.
  split; [rewrite Ep; simpl; rewrite insert_insert_eq; done |].
  split; [by rewrite reverse_cons, <- (assoc_L (++)) |]. split; [done |]. split.
  - intros a Ha. apply not_elem_of_cons in Ha as [Hac Ha]. rewrite Hold by done. simpl.
    by rewrite lookup_insert_ne.
  - intros a [-> | Ha]%elem_of_cons; [| by apply Hnew].
    exists x1. rewrite Hold by tauto. simpl. by rewrite lookup_insert_eq.
Qed.

Lemma pool_init_spec p P m :
  p <> NULL -> m_pools m !! p = Some P -> p_ptr P = [] -> p_counter P = 0 -> 0 <= p_size P ->
  wp (snd_seq_pool_init p)
    (fun r m' => exists P' F, m_pools m' = <[p := P']> (m_pools m) /\ m_bytes m' = m_bytes m /\
       (forall a, a ∈ F -> m_cells m !! a = None) /\
       (forall a, a ∉ F -> m_cells m' !! a = m_cells m !! a) /\
       if r =? 0
       then pool_is m' p P' F /\ p_ptr P' <> [] /\ p_closing P' = p_closing P /\ Forall (owned m' p) F /\
            Z.of_nat (length F) = p_total_elements P' /\ p_total_elements P' <= p_size P /\
            (p_total_elements P' = p_size P \/ exists m1, alloc_chunk m1 SEQ_DEFAULT_CHUNK_EVENTS = None)
       else r = -ENOMEM /\ F = [] /\ p_ptr P' = []) m.
Proof.
  intros Hp HP Hptr Hc Hs. unfold snd_seq_pool_init. rewrite (proj2 (Z.eqb_neq p NULL) Hp).
  apply wp_bind, (wp_pool_at _ P); [done |]. rewrite bool_decide_eq_true_2 by done. simpl negb. cbv iota.
  set (req := Z.quot (p_size P) SEQ_DEFAULT_CHUNK_EVENTS).
  set (last := Z.rem (p_size P) SEQ_DEFAULT_CHUNK_EVENTS).
  assert (Hreq : 0 <= req /\ 0 <= last /\ p_size P = req * SEQ_DEFAULT_CHUNK_EVENTS + last).
  { unfold req, last, SEQ_DEFAULT_CHUNK_EVENTS. rewrite Z.quot_div_nonneg, Z.rem_mod_nonneg by lia.
    Z.div_mod_to_equations. lia. }
  destruct Hreq as (Hr0 & Hl0 & Esz).
  apply wp_bind.
  apply (wp_mono _ (fun first m1 => match first with
    | Some ch => fresh_cells m m1 (ch ≫= chunk_cells) /\ Z.of_nat (length (ch ≫= chunk_cells)) = last
    | None => m1 = m end)).
  { destruct (Z.eqb_spec last 0) as [El | El].
    - apply wp_ret. rewrite El. split; [apply fresh_refl | done].
    - apply wp_bind. eapply wp_mono; [apply (chunk_allocate_spec m m []), fresh_refl |].
      intros [a |] m1 Hm1; apply wp_ret; [| by destruct Hm1]. simpl.
      rewrite app_nil_r in Hm1 |- *. split; [done |]. rewrite length_chunk_cells. lia. }
  intros first m1 H1. apply wp_bind.
  apply (wp_mono _ (fun cg m2 => fresh_cells m m2 (cg.1 ≫= chunk_cells) /\
    (cg.1 <> [] -> Z.of_nat (length (cg.1 ≫= chunk_cells)) = cg.2 * SEQ_DEFAULT_CHUNK_EVENTS + last /\
     0 <= cg.2 <= req /\
     (cg.2 = req \/ exists m1, alloc_chunk m1 SEQ_DEFAULT_CHUNK_EVENTS = None)))).
  { destruct first as [ch |].
    - destruct H1 as [F1 L1]. eapply wp_mono; [by apply allocate_chunks_spec |].
      intros [ch2 got] m2 (A & B & C & D & _). simpl in *. split; [done |]. intros _.
      split; [lia |]. split; [lia |]. destruct D as [D | D]; [left; lia | by right].
    - subst m1. apply wp_ret. split; [apply fresh_refl | done]. }
  intros [chunks got] m2 [[N New Old Pools Bytes] Hgot]. simpl in Hgot.
  apply wp_bind, (wp_modify_pool _ P); [by rewrite Pools |]. set (P1 := P <| p_ptr := chunks |>).
  destruct (decide (chunks = [])) as [-> | Hch].
  { rewrite bool_decide_eq_true_2 by done. apply wp_ret. exists P1, [].
    simpl. rewrite Pools. split_and!; try done. intros a Ha. by apply not_elem_of_nil in Ha. }
  rewrite bool_decide_eq_false_2 by done. destruct (Hgot Hch) as (L & Hgr & Hall).
  apply wp_bind, (wp_modify_pool _ P1); [simpl; by rewrite lookup_insert_eq |].
  set (P2 := P1 <| p_free := NULL |>). set (m4 := with_pool p P2 (with_pool p P1 m2)).
  apply wp_bind. eapply wp_mono.
  { apply (add_free_spec p (chunks ≫= chunk_cells) P2 [] m4); [done | simpl; by rewrite lookup_insert_eq | done | |].
    - by rewrite app_nil_r.
    - intros a Ha. destruct (New a Ha) as (_ & Hra & Hx). split; [unfold NULL; lia | eauto]. }
  intros _ m5 (q & Ep & Ech & Eb & Hold & Hnew).
  apply wp_bind, (wp_modify_pool _ (P2 <| p_free := q |>)); [rewrite Ep; by rewrite lookup_insert_eq |].
  match goal with |- context [with_pool p ?X m5] => set (P3 := X) end.
  apply wp_ret. exists P3, (reverse (chunks ≫= chunk_cells)). rewrite app_nil_r in Ech.
  split; [simpl; rewrite Ep; simpl; rewrite !insert_insert_eq, Pools; done |].
  split; [simpl; rewrite Eb; exact Bytes |]. split; [intros a Ha; apply New; by apply elem_of_reverse |].
  split; [intros a Ha; rewrite elem_of_reverse in Ha; simpl; rewrite Hold by done; by apply Old |].
  simpl. split_and!; try done.
  - split; simpl; [done | by rewrite lookup_insert_eq | done | rewrite length_reverse; lia].
  - apply Forall_forall. intros a Ha. rewrite elem_of_reverse in Ha. destruct (New a Ha) as (_ & Hra & _).
    split; [done |]. destruct (Hnew a Ha) as (y & Hy & Eo & Ez). exists y. split; [done |].
    split; [done |]. rewrite Ez. apply zero_event_wf.
  - rewrite length_reverse. lia.
  - unfold SEQ_DEFAULT_CHUNK_EVENTS in *. lia.
  - destruct Hall as [Hall | ?]; [left; rewrite Hall; lia | by right].
Qed.
End PoolInit.

(** A new pool has all its cells on its free list.  Setting up a pool for [size] events
    succeeds with a free list of as many distinct, clear cells as the pool counts - [size]
    of them unless the kernel ran out of memory for a chunk - and touches no other cell; or
    it gives -ENOMEM and leaves no cells. *)
Theorem pool_init_fills `{SeqAllocOk} size m :
  0 <= size ->
  exists p m1, snd_seq_pool_new size m = Some (p, m1) /\
    (p = NULL \/ exists r m2 P F, snd_seq_pool_init p m1 = Some (r, m2) /\
       m_pools m2 !! p = Some P /\ (forall a, a ∈ F -> m_cells m !! a = None) /\
       (forall a, a ∉ F -> m_cells m2 !! a = m_cells m !! a) /\
       (if r =? 0
        then pool_is m2 p P F /\ ready P /\ NoDup F /\ Forall (owned m2 p) F /\
             Z.of_nat (length F) = p_total_elements P /\ p_total_elements P <= size /\
             ((forall m n, is_Some (alloc_chunk m n)) -> p_total_elements P = size)
        else r = -ENOMEM /\ F = [])).
Proof.
  intros Hs. unfold snd_seq_pool_new. destruct (alloc_pool m) as [p |] eqn:E.
  2: { exists NULL, m. auto. }
  destruct (alloc_pool_fresh m p E) as [Hnew Hn]. set (m1 := with_pool p (new_pool size) m).
  exists p, m1. split; [done |]. right.
  destruct (wp_run _ _ _ (pool_init_spec p (new_pool size) m1 Hn
    ltac:(simpl; by rewrite lookup_insert_eq) eq_refl eq_refl Hs))
    as (r & m2 & E2 & P & F & Ep & _ & A & B & Q).
  exists r, m2, P, F. split; [done |]. split; [rewrite Ep; by rewrite lookup_insert_eq |].
  split; [exact A |]. split; [exact B |]. destruct (r =? 0).
  - destruct Q as (HP & Hptr & Hcl & HO & L & Hle & Hall). split; [done |]. split; [done |].
    split; [eapply chain_nodup, HP |]. do 3 (split; [done |]). intros Tot.
    destruct Hall as [? | [m3 E3]]; [done |]. destruct (Tot m3 SEQ_DEFAULT_CHUNK_EVENTS). congruence.
  - by destruct Q as (? & ? & ?).
Qed.

(** ** An allocator: cells behind the highest address in use *)

Definition highest {V} (H : gmap Z V) : Z := map_fold (fun a _ h => Z.max a h) 0 H.

Lemma highest_spec {V} (H : gmap Z V) : 0 <= highest H /\ forall a, is_Some (H !! a) -> a <= highest H.
Proof.
  unfold highest. apply (map_fold_weak_ind (fun h H => 0 <= h /\ forall a, is_Some (H !! a) -> a <= h)).
  - split; [done |]. intros a [x Hx]. by rewrite lookup_empty in Hx.
  - intros a x H' h _ [IH1 IH2]. split; [lia |]. intros b Hb.
    destruct (decide (b = a)) as [-> | Hab]; [lia |]. rewrite lookup_insert_ne in Hb by done.
    specialize (IH2 b Hb). lia.
Qed.

#[export] Instance bump_alloc : SeqAlloc := {
  alloc_chunk m n :=
    let a := highest (m_cells m) + 1 in
    if a + CHUNK_HEADER + CELL_SIZE * n <=? UINT_MAX then Some a else None;
  alloc_pool m := Some (highest (m_pools m) + 1) }.

#[export] Instance bump_alloc_ok : SeqAllocOk.
Proof.
  split.
  - intros m n a c. simpl. btest; [| done]. intros [= <-].
    unfold chunk_cells. rewrite list_elem_of_fmap. intros (i & -> & Hi). apply elem_of_seqZ in Hi.
    destruct (highest_spec (m_cells m)) as [H0 Hh].
    unfold chunk_cell, CHUNK_HEADER, CELL_SIZE in *. simpl in *. split; [| lia].
    apply eq_None_not_Some. intros Hc%Hh. lia.
  - intros m a [= <-]. destruct (highest_spec (m_pools m)) as [H0 Hh]. split; [| unfold NULL; lia].
    apply eq_None_not_Some. intros Hc%Hh. lia.
Qed.

(** A new pool of 70 events: two chunks. *)
Lemma pool_init_fills_witness :
  exists p m1, snd_seq_pool_new 70 (Seqmem ∅ ∅ ∅) = Some (p, m1) /\ p = 1 /\
    exists r m2 P F, snd_seq_pool_init p m1 = Some (r, m2) /\ r = 0 /\ pool_is m2 p P F /\
      Z.of_nat (length F) = 70.
Proof.
  destruct (pool_init_fills 70 (Seqmem ∅ ∅ ∅) ltac:(lia)) as (p & m1 & E & Q).
  exists p, m1. split; [exact E |]. assert (p = 1) as -> by (vm_compute in E; congruence).
  split; [done |]. destruct Q as [Q | (r & m2 & P & F & E2 & HP & _ & _ & Q)]; [discriminate Q |].
  assert (Er : match snd_seq_pool_init 1 m1 with
               | Some (r, m2) => r = 0 /\ option_map p_total_elements (m_pools m2 !! 1) = Some 70
               | None => False end).
  { vm_compute in E. injection E as <-. vm_compute. by split. }
  rewrite E2 in Er. destruct Er as [-> Et]. rewrite HP in Et. simpl in Et. injection Et as Et.
  destruct Q as (HPF & _ & _ & _ & L & _).
  exists 0, m2, P, F. split; [exact E2 |]. split; [done |]. split; [exact HPF |]. lia.
Defined.
