(* ===== verification/SeqPrioq.v ===== *)
(** * SeqPrioq: the priority queue of scheduled events

    alsa/core/seq/seq_prioq.c: a linked list of cells, ordered by time stamp, with a pointer
    to its last cell.  The operations work on the pointers; [prioq_is] relates them to the
    list of cells in the queue. *)

From S2P Require Import Prelude SeqEvent SeqCells SeqMemory.
From stdpp Require Import sorting.
Open Scope Z_scope.
Open Scope state_scope.

Record prioq := Prioq { pq_head : Z; pq_tail : Z; pq_cells : Z }.
#[export] Instance settable_prioq : Settable prioq := fun q => Prioq (pq_head q) (pq_tail q) (pq_cells q).

Definition snd_seq_prioq_new : prioq := Prioq NULL NULL 0.

(** [a >= b], for the kind of time stamp of [a]. *)
Definition compare_timestamp (a b : snd_seq_event) : bool :=
  if is_tick a then snd_seq_compare_tick_time (tick (ev_time a)) (tick (ev_time b))
  else snd_seq_compare_real_time (ev_time a) (ev_time b).

(** Negative, zero or positive. *)
Definition compare_timestamp_rel (a b : snd_seq_event) : Z :=
  let ta := ev_time a in
  let tb := ev_time b in
  if is_tick a then
    if tick tb <? tick ta then 1 else if tick ta =? tick tb then 0 else -1
  else
    if tv_sec tb <? tv_sec ta then 1
    else if tv_sec ta =? tv_sec tb then
      if tv_nsec tb <? tv_nsec ta then 1 else if tv_nsec ta =? tv_nsec tb then 0 else -1
    else -1.

(** The cell to insert before, and the one before it. *)
Fixpoint find_place (fuel : nat) (e : snd_seq_event) (prior : bool) (prev cur : Z) : M (Z * Z) :=
  match fuel with
  | O => crash
  | S fuel =>
      if cur =? NULL then ret (prev, cur)
      else
        (x <- cell_at cur;;
         let rel := compare_timestamp_rel e (c_event x) in
         if (rel <? 0) || ((rel =? 0) && prior) then ret (prev, cur)
         else find_place fuel e prior cur (c_next x))
  end.

Definition cell_in_place (f : prioq) (cell prev cur : Z) : M prioq :=
  when (negb (prev =? NULL)) (set_next prev cell);;;
  set_next cell cur;;;
  ret (f <| pq_head := if pq_head f =? cur then cell else pq_head f |>
         <| pq_tail := if cur =? NULL then cell else pq_tail f |>
         <| pq_cells := pq_cells f + 1 |>).

Definition snd_seq_prioq_cell_in (f : prioq) (cell : Z) : M prioq := fun m =>
  (if cell =? NULL then ret f
   else
     (x <- cell_at cell;;
      let e := c_event x in
      let prior := is_prior e in
      at_end <- (if negb (pq_tail f =? NULL) && negb prior
                 then (t <- cell_at (pq_tail f);; ret (compare_timestamp e (c_event t)))
                 else ret false);;
      if (at_end : bool) then
        (set_next (pq_tail f) cell;;;
         set_next cell NULL;;;
         ret (f <| pq_tail := cell |> <| pq_cells := pq_cells f + 1 |>))
      else
        (pc <- find_place (chain_fuel m) e prior NULL (pq_head f);;
         cell_in_place f cell pc.1 pc.2))) m.

(** The cell and the queue without it. *)
Definition snd_seq_prioq_cell_out (f : prioq) : M (Z * prioq) :=
  let cell := pq_head f in
  if cell =? NULL then ret (NULL, f)
  else
    (x <- cell_at cell;;
     set_next cell NULL;;;
     ret (cell, f <| pq_head := c_next x |>
                  <| pq_tail := if pq_tail f =? cell then NULL else pq_tail f |>
                  <| pq_cells := pq_cells f - 1 |>)).

Definition snd_seq_prioq_avail (f : prioq) : Z := pq_cells f.
Definition snd_seq_prioq_cell_peek (f : prioq) : Z := pq_head f.

(** [while (f->cells > 0 && max++ < SNDRV_SEQ_MAX_EVENTS)] *)
Fixpoint drain (max : nat) (f : prioq) : M prioq :=
  match max with
  | O => ret f
  | S max =>
      if 0 <? pq_cells f then
        (cq <- snd_seq_prioq_cell_out f;;
         snd_seq_cell_free cq.1;;;
         drain max cq.2)
      else ret f
  end.

Definition snd_seq_prioq_delete (f : prioq) : M unit :=
  drain (Z.to_nat SEQ_MAX_EVENTS) f;;; ret tt.

(** ** Removing events *)

Definition prioq_match (e : snd_seq_event) (client : Z) (timestamp : bool) : bool :=
  if (addr_client (ev_source e) =? client) || (addr_client (ev_dest e) =? client) then true
  else if negb timestamp then false
  else if is_tick e then truth (tick (ev_time e))
  else truth (tv_sec (ev_time e)) || truth (tv_nsec (ev_time e)).

(** [snd_seq_remove_events_t] *)
Record snd_seq_remove_events := RemoveEvents {
  rm_mode : Z; rm_time : snd_seq_timestamp; rm_queue : Z; rm_dest : snd_seq_addr;
  rm_channel : Z; rm_type : Z; rm_tag : Z }.

Definition REMOVE_DEST : Z := 0x4.
Definition REMOVE_DEST_CHANNEL : Z := 0x8.
Definition REMOVE_TIME_BEFORE : Z := 0x10.
Definition REMOVE_TIME_AFTER : Z := 0x20.
Definition REMOVE_TIME_TICK : Z := 0x40.
Definition REMOVE_EVENT_TYPE : Z := 0x80.
Definition REMOVE_IGNORE_OFF : Z := 0x100.
Definition REMOVE_TAG_MATCH : Z := 0x200.

Definition mode (info : snd_seq_remove_events) (flag : Z) : bool := truth (Z.land (rm_mode info) flag).

(** The event's time is the given one or later. *)
Definition at_or_after (info : snd_seq_remove_events) (e : snd_seq_event) : bool :=
  if mode info REMOVE_TIME_TICK then snd_seq_compare_tick_time (tick (ev_time e)) (tick (rm_time info))
  else snd_seq_compare_real_time (ev_time e) (rm_time info).

Definition prioq_remove_match (info : snd_seq_remove_events) (e : snd_seq_event) : bool :=
  if mode info REMOVE_DEST &&
     (negb (addr_client (ev_dest e) =? addr_client (rm_dest info)) ||
      negb (addr_port (ev_dest e) =? addr_port (rm_dest info))) then false
  else if mode info REMOVE_DEST_CHANNEL &&
     (negb (is_channel_type e) || negb (note_channel e =? rm_channel info)) then false
  else if mode info REMOVE_TIME_AFTER && negb (at_or_after info e) then false
  else if mode info REMOVE_TIME_BEFORE && at_or_after info e then false
  else if mode info REMOVE_EVENT_TYPE && negb (ev_type e =? rm_type info) then false
  else if mode info REMOVE_IGNORE_OFF && (ev_type e =? EVENT_NOTEOFF) then false
  else if mode info REMOVE_TAG_MATCH && negb (rm_tag info =? ev_tag e) then false
  else true.

Section Remove.
(** Whether the event of a cell is to be removed. *)
Variable matches : snd_seq_event -> bool.

(** One walk over the queue: matching cells move to a list of their own.  [prev] is the last
    cell kept, [first] and [last] the ends of the list. *)
Fixpoint unlink_cells (fuel : nat) (f : prioq) (cell prev first last : Z) : M (prioq * Z) :=
  match fuel with
  | O => crash
  | S fuel =>
      if cell =? NULL then ret (f, first)
      else
        (x <- cell_at cell;;
         let next := c_next x in
         if matches (c_event x) then
           (f <- (if cell =? pq_head f then ret (f <| pq_head := next |>)
                  else (set_next prev next;;; ret f));;
            set_next cell NULL;;;
            when (negb (first =? NULL)) (set_next last cell);;;
            let f := f <| pq_tail := if cell =? pq_tail f then next else pq_tail f |>
                       <| pq_cells := pq_cells f - 1 |> in
            unlink_cells fuel f next prev (if first =? NULL then cell else first) cell)
         else unlink_cells fuel f next cell first last)
  end.

Fixpoint free_list (fuel : nat) (cell : Z) : M unit :=
  match fuel with
  | O => crash
  | S fuel =>
      if cell =? NULL then ret tt
      else (x <- cell_at cell;; snd_seq_cell_free cell;;; free_list fuel (c_next x))
  end.

Definition remove_cells (f : prioq) : M prioq := fun m =>
  (fr <- unlink_cells (chain_fuel m) f (pq_head f) NULL NULL NULL;;
   free_list (chain_fuel m) fr.2;;;
   ret fr.1) m.
End Remove.

Definition snd_seq_prioq_leave (f : prioq) (client : Z) (timestamp : bool) : M prioq :=
  remove_cells (fun e => prioq_match e client timestamp) f.

Definition snd_seq_prioq_remove_events (f : prioq) (client : Z) (info : snd_seq_remove_events)
    : M prioq :=
  remove_cells (fun e => (addr_client (ev_source e) =? client) && prioq_remove_match info e) f.

(** ** The order of the queue *)

(** The time of an event, ticks or seconds and nanoseconds in one number. *)
Definition key (e : snd_seq_event) : Z :=
  if is_tick e then tick (ev_time e) else tv_sec (ev_time e) * 2 ^ 32 + tv_nsec (ev_time e).

Lemma compare_timestamp_key a b :
  event_wf a -> event_wf b -> is_tick a = is_tick b -> compare_timestamp a b = (key b <=? key a).
Proof.
  intros [_ Wa] [_ Wb] K. rewrite !Forall_cons in *. destruct_and? Wa. destruct_and? Wb.
  unfold compare_timestamp, key. rewrite <- K. destruct (is_tick a); [done |].
  unfold snd_seq_compare_real_time, is_u32 in *. repeat btest; simpl; repeat btest; lia || reflexivity.
Qed.

Lemma compare_timestamp_rel_key a b :
  event_wf a -> event_wf b -> is_tick a = is_tick b ->
  (compare_timestamp_rel a b <? 0) = (key a <? key b) /\ (compare_timestamp_rel a b =? 0) = (key a =? key b).
Proof.
  intros [_ Wa] [_ Wb] K. rewrite !Forall_cons in *. destruct_and? Wa. destruct_and? Wb.
  unfold compare_timestamp_rel, key, tick. rewrite <- K.
  unfold is_u32 in *. destruct (is_tick a); repeat btest; simpl; repeat btest;
    split; lia || reflexivity.
Qed.

Section Insert.
Variable time : Z -> Z.

(** Where a cell goes: behind the earlier ones, and behind those of its time unless it has
    priority. *)
Fixpoint insert_by (prior : bool) (c : Z) (l : list Z) : list Z :=
  match l with
  | [] => [c]
  | d :: l =>
      if (time c <? time d) || ((time c =? time d) && prior) then c :: d :: l
      else d :: insert_by prior c l
  end.

Definition by_time (l : list Z) : Prop := StronglySorted (fun a b => time a <= time b) l.

Lemma insert_by_perm prior c l : insert_by prior c l ≡ₚ c :: l.
Proof.
  induction l as [| d l IH]; simpl; [done |]. destruct (_ || _); [done |].
  rewrite IH. apply Permutation_swap.
Qed.

Lemma insert_by_sorted prior c l : by_time l -> by_time (insert_by prior c l).
Proof.
  unfold by_time. induction l as [| d l IH]; intros S; simpl.
  { repeat constructor. }
  apply StronglySorted_inv in S as [S F].
  destruct (Z.ltb_spec (time c) (time d)) as [Hlt | Hge]; simpl.
  { constructor; [by constructor |]. constructor; [lia |]. eapply Forall_impl; [exact F |]. simpl. lia. }
  destruct (Z.eqb_spec (time c) (time d)) as [E | E]; simpl; [destruct prior |].
  { constructor; [by constructor |]. constructor; [lia |]. eapply Forall_impl; [exact F |]. simpl. lia. }
  all: constructor; [auto |]; rewrite insert_by_perm; constructor; [lia | done].
Qed.

Lemma insert_by_end c l : Forall (fun d => time d <= time c) l -> insert_by false c l = l ++ [c].
Proof.
  induction 1 as [| d l Hd _ IH]; simpl; [done |].
  rewrite (proj2 (Z.ltb_ge _ _)), andb_false_r by done. simpl. by rewrite IH.
Qed.

(** Among the cells of one time. *)
Lemma insert_by_filter prior c l t :
  by_time l ->
  filter (fun a => time a = t) (insert_by prior c l) =
    if decide (time c = t)
    then if prior then c :: filter (fun a => time a = t) l else filter (fun a => time a = t) l ++ [c]
    else filter (fun a => time a = t) l.
Proof.
  induction l as [| d l IH]; intros S; cbn [insert_by].
  { rewrite filter_cons, filter_nil. by destruct (decide _), prior. }
  apply StronglySorted_inv in S as [S F]. specialize (IH S).
  destruct (Z.ltb_spec (time c) (time d)) as [Hlt | Hge]; simpl.
  - assert (Hno : time c = t -> filter (fun a => time a = t) (d :: l) = []).
    { intros <-. apply filter_none. constructor; [lia |]. eapply Forall_impl; [exact F |]. simpl. lia. }
    rewrite filter_cons. destruct (decide (time c = t)) as [E | E]; [| done].
    rewrite (Hno E). by destruct prior.
  - destruct (Z.eqb_spec (time c) (time d)) as [E | E]; simpl.
    + destruct prior; simpl.
      * rewrite filter_cons. by destruct (decide (time c = t)).
      * rewrite !(filter_cons _ d), IH. rewrite <- E.
        by destruct (decide (time c = t)).
    + rewrite !(filter_cons _ d), IH. destruct (decide (time c = t)) as [<- | ?]; [| done].
      rewrite !decide_False by lia. done.
Qed.
End Insert.

(** ** The representation *)

(** Only [next] pointers change, those of the cells in [L]. *)
Record relinked (L : list Z) (m m' : seqmem) : Prop := {
  rl_pools : m_pools m' = m_pools m;
  rl_bytes : m_bytes m' = m_bytes m;
  rl_others : forall a, a ∉ L -> m_cells m' !! a = m_cells m !! a;
  rl_cells : forall a x, m_cells m !! a = Some x -> exists n, m_cells m' !! a = Some (x <| c_next := n |>) }.

Lemma relinked_refl L m : relinked L m m.
Proof. split; [done | done | done |]. intros a [e p n] Hx. by exists n. Qed.

Lemma relink_trans L m1 m2 m3 : relinked L m1 m2 -> relinked L m2 m3 -> relinked L m1 m3.
Proof.
  intros [A1 A2 A3 A4] [B1 B2 B3 B4]. split; [congruence | congruence | |].
  - intros a Ha. by rewrite B3, A3.
  - intros a x Hx. destruct (A4 a x Hx) as (n & Hn). destruct (B4 _ _ Hn) as (n' & Hn').
    by exists n'.
Qed.

Lemma relinked_mono L L' m m' : L ⊆ L' -> relinked L m m' -> relinked L' m m'.
Proof. intros HL [A B C D]. split; [done | done | | done]. intros a Ha. apply C. auto. Qed.

Lemma relinked_next L m a x n :
  a ∈ L -> m_cells m !! a = Some x -> relinked L m (with_cell a (x <| c_next := n |>) m).
Proof.
  intros Ha Hx. split; simpl; [done | done | |].
  - intros b Hb. rewrite lookup_insert_ne by (intros ->; done). done.
  - intros b y Hy. destruct (decide (a = b)) as [-> | Hab].
    + rewrite Hx in Hy. injection Hy as <-. exists n. by rewrite lookup_insert_eq.
    + destruct y as [e p k]. exists k. by rewrite lookup_insert_ne.
Qed.

Definition event_at (m : seqmem) (a : Z) : snd_seq_event := default zero_event (c_event <$> m_cells m !! a).
Definition time_at (m : seqmem) (a : Z) : Z := key (event_at m a).

Lemma event_at_some m a x : m_cells m !! a = Some x -> event_at m a = c_event x.
Proof. unfold event_at. by intros ->. Qed.

Lemma relinked_event L m m' a : relinked L m m' -> is_Some (m_cells m !! a) -> event_at m' a = event_at m a.
Proof.
  intros R [x Hx]. destruct (rl_cells _ _ _ R a x Hx) as (n & Hn).
  by rewrite (event_at_some _ _ _ Hx), (event_at_some _ _ _ Hn).
Qed.

(** A queue of events with time stamps of one kind. *)
Record prioq_is (m : seqmem) (ticks : bool) (q : prioq) (l : list Z) : Prop := {
  pq_chain : chain (m_cells m) (pq_head q) l;
  pq_count : pq_cells q = Z.of_nat (length l);
  pq_last : pq_tail q = NULL \/ last l = Some (pq_tail q);
  pq_kind : Forall (fun a => event_wf (event_at m a) /\ is_tick (event_at m a) = ticks) l;
  pq_sorted : by_time (time_at m) l }.

Lemma prioq_cell m ticks q l a : prioq_is m ticks q l -> a ∈ l -> is_Some (m_cells m !! a) /\ a <> NULL.
Proof. intros Q Ha. by apply (lseg_cell _ _ _ _ a (pq_chain _ _ _ _ Q)). Qed.

Lemma StronglySorted_ext {A} (R R' : A -> A -> Prop) l :
  (forall a b, a ∈ l -> b ∈ l -> R a b -> R' a b) -> StronglySorted R l -> StronglySorted R' l.
Proof.
  induction l as [| a l IH]; intros E S; [constructor |].
  apply StronglySorted_inv in S as [S F]. constructor.
  - apply IH; [| done]. intros b c Hb Hc HR. apply E; [by right | by right | done].
  - rewrite Forall_forall in F |- *. intros b Hb. apply E; [left | by right | auto].
Qed.

(** Everything but the links of the queue carries over a change of links. *)
Lemma prioq_is_relinked L m m' ticks q l q' l' :
  relinked L m m' -> (forall a, a ∈ l' -> is_Some (m_cells m !! a)) ->
  Forall (fun a => event_wf (event_at m a) /\ is_tick (event_at m a) = ticks) l' ->
  by_time (time_at m) l' ->
  chain (m_cells m') (pq_head q') l' -> pq_cells q' = Z.of_nat (length l') ->
  (pq_tail q' = NULL \/ last l' = Some (pq_tail q')) ->
  prioq_is m ticks q l -> prioq_is m' ticks q' l'.
Proof.
  intros R Hc HK HS HC HN HT _. split; [done | done | done | |].
  - rewrite Forall_forall in HK |- *. intros a Ha. rewrite (relinked_event L m m') by auto. auto.
  - eapply StronglySorted_ext; [| exact HS]. intros a b Ha Hb. simpl. unfold time_at.
    by rewrite !(relinked_event L m m') by auto.
Qed.

(** ** Insertion *)

Lemma find_place_spec m c x e prior ticks l :
  m_cells m !! c = Some x -> c_event x = e -> event_wf e -> is_tick e = ticks ->
  Forall (fun a => event_wf (event_at m a) /\ is_tick (event_at m a) = ticks) l ->
  forall fuel prev cur, chain (m_cells m) cur l -> (length l < fuel)%nat ->
  exists l1 l2, l = l1 ++ l2 /\ insert_by (time_at m) prior c l = l1 ++ c :: l2 /\
    find_place fuel e prior prev cur m = Some ((default prev (last l1), hd NULL l2), m).
Proof.
  intros Hx <- We Ke. induction l as [| d l IH]; intros F fuel prev cur HC Hf;
    destruct fuel as [| fuel]; try lia; cbn [find_place insert_by].
  - unfold chain in HC. simpl in HC. subst cur. exists [], []. done.
  - destruct HC as (-> & Hn & y & Hy & HC). rewrite (proj2 (Z.eqb_neq d NULL) Hn).
    rewrite (bind_some _ _ m y m) by (unfold cell_at; by rewrite Hy).
    apply Forall_cons in F as [[Wd Kd] F]. rewrite (event_at_some _ _ _ Hy) in Wd, Kd.
    destruct (compare_timestamp_rel_key (c_event x) (c_event y)) as [-> ->]; [done | done | congruence |].
    unfold time_at at 1 2 3 4. rewrite (event_at_some _ _ _ Hx), (event_at_some _ _ _ Hy).
    destruct (_ || _).
    + exists [], (d :: l). done.
    + destruct (IH F fuel d (c_next y) HC) as (l1 & l2 & -> & E & ->); [simpl in Hf; lia |].
      exists (d :: l1), l2. split; [done |]. split; [by rewrite E |].
      rewrite last_cons. by destruct (last l1).
Qed.

Lemma last_app_cons {A} (l1 l2 : list A) c : last (l1 ++ c :: l2) = last (c :: l2).
Proof. by rewrite last_app, last_cons; destruct (last l2). Qed.

(** Putting a cell between two parts of the list. *)
Lemma chain_link m l1 l2 c x head :
  chain (m_cells m) head (l1 ++ l2) -> m_cells m !! c = Some x -> c <> NULL -> c ∉ l1 ++ l2 ->
  wp (when (negb (default NULL (last l1) =? NULL)) (set_next (default NULL (last l1)) c);;;
      set_next c (hd NULL l2))
    (fun _ m' => relinked (c :: l1) m m' /\
       chain (m_cells m') (match l1 with [] => c | _ :: _ => head end) (l1 ++ c :: l2)) m.
Proof.
  intros HC Hx Hn Hc. rewrite elem_of_app in Hc. apply Decidable.not_or in Hc as [Hc1 Hc2].
  pose proof (chain_nodup _ _ _ HC) as N. apply lseg_app in HC as (b & HC1 & HC2).
  assert (Eb : b = hd NULL l2) by (destruct l2; [done | by destruct HC2]).
  destruct l1 as [| d l1 _] using rev_ind; simpl.
  - apply wp_bind, wp_ret, (wp_modify_cell _ x); [done |].
    split; [apply relinked_next; [left | done] |]. simpl.
    split; [done |]. split; [done |]. eexists. rewrite lookup_insert_eq. split; [done |].
    simpl. rewrite <- Eb. by apply lseg_insert.
  - replace (match l1 ++ [d] with [] => c | _ :: _ => head end) with head by (by destruct l1).
    rewrite last_snoc. simpl.
    apply lseg_app in HC1 as (k & HC0 & (-> & Hd & y & Hy & En)). simpl in En.
    rewrite (proj2 (Z.eqb_neq d NULL) Hd). simpl.
    rewrite elem_of_app, list_elem_of_singleton in Hc1.
    apply NoDup_app in N as (N1 & N12 & N2). apply NoDup_app in N1 as (_ & N1 & _).
    assert (Hdl : d ∉ l1) by (intros H; apply (N1 d H); left).
    assert (Hd2 : d ∉ l2) by (apply N12; rewrite elem_of_app; right; left).
    apply wp_bind, (wp_modify_cell _ y); [done |].
    set (y' := y <| c_next := c |>). set (m1 := with_cell d y' m).
    assert (R1 : relinked (c :: l1 ++ [d]) m m1).
    { apply relinked_next; [| done]. right. rewrite elem_of_app. right. left. }
    apply (wp_modify_cell _ x); [simpl; rewrite lookup_insert_ne by (intros ->; tauto); done |].
    split.
    { eapply relink_trans; [exact R1 |]. apply relinked_next; [left |].
      simpl. rewrite lookup_insert_ne by (intros ->; tauto). done. }
    simpl. rewrite <- (assoc_L (++)). apply lseg_app. exists d. split.
    { apply lseg_insert; [tauto |]. by apply lseg_insert. }
    simpl. split; [done |]. split; [done |]. exists y'.
    rewrite lookup_insert_ne by (intros ->; tauto). rewrite lookup_insert_eq.
    split; [done |]. split; [done |]. split; [done |]. eexists. rewrite lookup_insert_eq. split; [done |].
    simpl. rewrite <- Eb. apply lseg_insert; [done |]. by apply lseg_insert.
Qed.

Lemma by_time_last time l t : by_time time l -> last l = Some t -> Forall (fun d => time d <= time t) l.
Proof.
  intros S. induction l as [| d l IH]; [done |]. apply StronglySorted_inv in S as [S F].
  destruct l as [| b l]; [intros [= ->]; by repeat constructor |]. rewrite last_cons_cons. intros L.
  constructor; [| auto]. rewrite Forall_forall in F. apply F. by apply last_Some_elem_of in L.
Qed.

Lemma prioq_cell_in_spec m ticks q l c x :
  prioq_is m ticks q l -> m_cells m !! c = Some x -> c <> NULL -> c ∉ l ->
  event_wf (c_event x) -> is_tick (c_event x) = ticks ->
  wp (snd_seq_prioq_cell_in q c)
    (fun q' m' => relinked (c :: l) m m' /\
       prioq_is m' ticks q' (insert_by (time_at m) (is_prior (c_event x)) c l)) m.
Proof.
  intros Q Hx Hn Hc We Ke. pose proof Q as [HC HN HL HK HS].
  assert (Kc : Forall (fun a => event_wf (event_at m a) /\ is_tick (event_at m a) = ticks)
                 (insert_by (time_at m) (is_prior (c_event x)) c l)).
  { rewrite insert_by_perm. constructor; [| done]. by rewrite (event_at_some _ _ _ Hx). }
  assert (Sc : by_time (time_at m) (insert_by (time_at m) (is_prior (c_event x)) c l)) by (by apply insert_by_sorted).
  assert (Cc : forall a, a ∈ insert_by (time_at m) (is_prior (c_event x)) c l -> is_Some (m_cells m !! a)).
  { intros a. rewrite insert_by_perm. intros [-> | Ha]%elem_of_cons; [eauto |]. by eapply prioq_cell. }
  assert (Nc : Z.of_nat (length (insert_by (time_at m) (is_prior (c_event x)) c l)) = pq_cells q + 1).
  { rewrite insert_by_perm, HN. simpl. lia. }
  unfold snd_seq_prioq_cell_in, wp. rewrite (proj2 (Z.eqb_neq c NULL) Hn).
  rewrite (bind_some _ _ m x m) by (unfold cell_at; by rewrite Hx).
  set (prior := is_prior (c_event x)) in *.
  assert (Fin : forall l1 l2, l = l1 ++ l2 -> insert_by (time_at m) prior c l = l1 ++ c :: l2 ->
    wp (cell_in_place q c (default NULL (last l1)) (hd NULL l2))
      (fun q' m' => relinked (c :: l) m m' /\ prioq_is m' ticks q' (insert_by (time_at m) prior c l)) m).
  { intros l1 l2 El Ei. unfold cell_in_place. apply wp_assoc, wp_bind. eapply wp_mono.
    { apply (chain_link m l1 l2 c x (pq_head q)); rewrite <- ?El; done. }
    intros _ m' [R C]. apply wp_ret.
    assert (R' : relinked (c :: l) m m').
    { eapply relinked_mono; [| exact R]. intros a [-> | Ha]%elem_of_cons; [left |].
      right. rewrite El, elem_of_app. by left. }
    split; [exact R' |]. eapply prioq_is_relinked; try done; simpl.
    - rewrite Ei. destruct l1 as [| b l1].
      + assert (pq_head q = hd NULL l2) as ->.
        { rewrite El in HC. simpl in HC. by destruct l2; [| destruct HC]. }
        by rewrite Z.eqb_refl.
      + rewrite El in HC. pose proof (chain_nodup _ _ _ HC) as N. simpl in HC, N.
        destruct HC as (Eh & Hb & _). rewrite Eh in C |- *.
        apply NoDup_cons in N as [N _]. rewrite elem_of_app in N.
        rewrite (proj2 (Z.eqb_neq b (hd NULL l2))); [done |].
        destruct l2 as [| k l2]; [done |]. simpl. intros ->. apply N. right. left.
    - rewrite Ei, last_app_cons. destruct l2 as [| k l2]; [by right |].
      rewrite last_cons_cons. simpl.
      assert (Hk : k <> NULL).
      { destruct (lseg_cell _ _ _ _ k HC); [| done]. rewrite El, elem_of_app. right. left. }
      rewrite (proj2 (Z.eqb_neq k NULL) Hk). rewrite El, last_app_cons in HL. done. }
  assert (Place : wp (pc <- find_place (chain_fuel m) (c_event x) prior NULL (pq_head q);;
                      cell_in_place q c pc.1 pc.2)
      (fun q' m' => relinked (c :: l) m m' /\ prioq_is m' ticks q' (insert_by (time_at m) prior c l)) m).
  { destruct (find_place_spec m c x (c_event x) prior ticks l Hx eq_refl We Ke HK (chain_fuel m) NULL _ HC)
      as (l1 & l2 & El & Ei & E); [unfold chain_fuel; apply chain_length in HC; lia |].
    unfold wp. rewrite (bind_some _ _ _ _ _ E). by apply Fin. }
  destruct (Z.eqb_spec (pq_tail q) NULL) as [Et | Et]; simpl; [exact Place |].
  destruct prior eqn:Ep; simpl; [exact Place |].
  destruct HL as [? | HL]; [done |].
  assert (Htl : pq_tail q ∈ l) by (by apply last_Some_elem_of in HL).
  destruct (prioq_cell _ _ _ _ _ Q Htl) as [[t Ht] _].
  pose proof HK as HKf. rewrite Forall_forall in HKf. destruct (HKf _ Htl) as [Wt Kt].
  rewrite (event_at_some _ _ _ Ht) in Wt, Kt.
  assert (Ecmp : (t0 <- cell_at (pq_tail q);; ret (compare_timestamp (c_event x) (c_event t0))) m
                 = Some (key (c_event t) <=? key (c_event x), m)).
  { rewrite (bind_some _ _ m t m) by (unfold cell_at; by rewrite Ht).
    rewrite compare_timestamp_key by (done || congruence). done. }
  rewrite (bind_some _ _ _ _ _ Ecmp). clear Ecmp.
  destruct (Z.leb_spec (key (c_event t)) (key (c_event x))) as [Hle | Hlt]; [| exact Place].
  assert (Ei : insert_by (time_at m) false c l = l ++ [c]).
  { apply insert_by_end. eapply Forall_impl; [by apply by_time_last |]. intros d. simpl.
    unfold time_at at 2 4. rewrite (event_at_some _ _ _ Hx), (event_at_some _ _ _ Ht). lia. }
  pose proof (chain_link m l [] c x (pq_head q)) as CL. rewrite app_nil_r, HL in CL. simpl in CL.
  rewrite (proj2 (Z.eqb_neq _ _) Et) in CL. specialize (CL HC Hx Hn Hc).
  apply wp_assoc, wp_bind. eapply wp_mono; [exact CL |]. intros _ m' [R C]. apply wp_ret.
  split; [exact R |]. eapply prioq_is_relinked; try done; simpl.
  - rewrite Ei. by destruct l.
  - right. by rewrite Ei, last_snoc.
Qed.

(** ** Removal of the first cell *)

Lemma prioq_cell_out_spec m ticks q l :
  prioq_is m ticks q l ->
  wp (snd_seq_prioq_cell_out q)
    (fun cq m' => relinked l m m' /\ cq.1 = hd NULL l /\ prioq_is m' ticks cq.2 (tail l)) m.
Proof.
  intros Q. pose proof Q as [HC HN HL HK HS]. unfold snd_seq_prioq_cell_out.
  destruct l as [| c l].
  { unfold chain in HC. simpl in HC. rewrite HC. apply wp_ret. split; [apply relinked_refl | done]. }
  pose proof (chain_nodup _ _ _ HC) as N. apply NoDup_cons in N as [Nc N].
  pose proof HC as (-> & Hn & x & Hx & HC'). rewrite (proj2 (Z.eqb_neq c NULL) Hn).
  apply wp_bind, (wp_cell_at _ x); [done |]. apply wp_bind, (wp_modify_cell _ x); [done |]. apply wp_ret.
  assert (R : relinked (c :: l) m (with_cell c (x <| c_next := NULL |>) m)).
  { apply relinked_next; [left | done]. }
  split; [exact R |]. split; [done |].
  eapply prioq_is_relinked; [exact R | | | | | | | exact Q].
  - intros a Ha. eapply prioq_cell; [exact Q | by right].
  - by apply Forall_cons in HK as [_ HK].
  - by apply StronglySorted_inv in HS as [HS _].
  - simpl. by apply lseg_insert.
  - cbn [snd pq_cells tail]. cbn [length] in HN. simpl. lia.
  - simpl. destruct HL as [-> | HL]; [left; by destruct (NULL =? c) |].
    destruct l as [| d l]; [injection HL as HL; left; by rewrite HL, Z.eqb_refl |].
    rewrite last_cons_cons in HL. right. rewrite (proj2 (Z.eqb_neq (pq_tail q) c)); [done |].
    intros <-. by apply last_Some_elem_of in HL.
Qed.

(** ** Many events *)

Fixpoint cells_in (q : prioq) (cs : list Z) : M prioq :=
  match cs with
  | [] => ret q
  | c :: cs => q <- snd_seq_prioq_cell_in q c;; cells_in q cs
  end.

Fixpoint cells_out (n : nat) (q : prioq) : M (list Z * prioq) :=
  match n with
  | O => ret ([], q)
  | S n =>
      cq <- snd_seq_prioq_cell_out q;;
      lq <- cells_out n cq.2;;
      ret (cq.1 :: lq.1, lq.2)
  end.

(** A cell whose event has a time stamp of the kind. *)
Definition event_cell (m : seqmem) (ticks : bool) (c : Z) : Prop :=
  c <> NULL /\ is_Some (m_cells m !! c) /\ event_wf (event_at m c) /\ is_tick (event_at m c) = ticks.

Lemma event_cell_relinked L m m' ticks c : relinked L m m' -> event_cell m ticks c -> event_cell m' ticks c.
Proof.
  intros R (A & [x B] & C & D). destruct (rl_cells _ _ _ R c x B) as (n & Hn).
  unfold event_cell. rewrite (relinked_event L m m') by eauto. eauto.
Qed.

Lemma insert_by_ext t t' prior c l :
  (forall a, a ∈ c :: l -> t a = t' a) -> insert_by t prior c l = insert_by t' prior c l.
Proof.
  induction l as [| d l IH]; intros E; simpl; [done |].
  rewrite (E c), (E d) by (left || (right; left)). rewrite IH; [done |].
  intros a [-> | Ha]%elem_of_cons; apply E; [left | right; by right].
Qed.

(** The queue after the insertions. *)
Definition inserts (m : seqmem) (l cs : list Z) : list Z :=
  foldl (fun l c => insert_by (time_at m) (is_prior (event_at m c)) c l) l cs.

Lemma inserts_ext L m m' l cs :
  relinked L m m' -> (forall a, a ∈ l ++ cs -> is_Some (m_cells m !! a)) -> inserts m' l cs = inserts m l cs.
Proof.
  intros R. revert l. unfold inserts. induction cs as [| c cs IH]; intros l H; simpl; [done |].
  rewrite (relinked_event L m m' c R) by (apply H; rewrite elem_of_app; right; left).
  rewrite (insert_by_ext (time_at m') (time_at m)).
  - apply IH. intros a. rewrite elem_of_app, insert_by_perm, elem_of_cons. intros Ha. apply H.
    rewrite elem_of_app, elem_of_cons. tauto.
  - intros a Ha. unfold time_at. rewrite (relinked_event L m m' a R); [done |]. apply H.
    rewrite elem_of_app, elem_of_cons. apply elem_of_cons in Ha. tauto.
Qed.

Lemma cells_in_spec ticks cs : forall m q l,
  prioq_is m ticks q l -> NoDup (l ++ cs) -> Forall (event_cell m ticks) cs ->
  wp (cells_in q cs)
    (fun q' m' => relinked (l ++ cs) m m' /\ prioq_is m' ticks q' (inserts m l cs)) m.
Proof.
  induction cs as [| c cs IH]; intros m q l Q N F; cbn [cells_in].
  { apply wp_ret. split; [apply relinked_refl | done]. }
  apply Forall_cons in F as [(Hn & [x Hx] & We & Ke) F].
  assert (Hc : (c ∉ l) /\ NoDup ((c :: l) ++ cs)).
  { rewrite <- Permutation_middle in N. simpl. split; [| done].
    apply NoDup_cons in N as [N _]. rewrite elem_of_app in N. tauto. }
  destruct Hc as [Hc N']. rewrite (event_at_some _ _ _ Hx) in We, Ke.
  apply wp_bind. eapply wp_mono; [by apply (prioq_cell_in_spec m ticks q l c x) |].
  intros q1 m1 [R1 Q1]. eapply wp_mono.
  { apply (IH m1 q1 _ Q1).
    - by rewrite insert_by_perm.
    - eapply Forall_impl; [exact F |]. intros a. by apply (event_cell_relinked (c :: l)). }
  intros q2 m2 [R2 Q2]. split.
  - eapply relink_trans; eapply relinked_mono; [| exact R1 | | exact R2].
    + intros a. rewrite elem_of_app, !elem_of_cons. tauto.
    + intros a. rewrite !elem_of_app, insert_by_perm, !elem_of_cons. tauto.
  - rewrite (inserts_ext (c :: l) m m1) in Q2; [| done |].
    + unfold inserts in *. simpl. by rewrite (event_at_some m c x).
    + intros a. rewrite elem_of_app, insert_by_perm, elem_of_cons. intros [[-> | Ha] | Ha]; [eauto | |].
      * by eapply prioq_cell.
      * rewrite Forall_forall in F. by destruct (F a Ha) as (_ & ? & _).
Qed.

Lemma cells_out_spec ticks l : forall m q,
  prioq_is m ticks q l ->
  wp (cells_out (length l) q)
    (fun r m' => relinked l m m' /\ r.1 = l /\ prioq_is m' ticks r.2 []) m.
Proof.
  induction l as [| c l IH]; intros m q Q; cbn [length cells_out].
  { apply wp_ret. split; [apply relinked_refl | done]. }
  apply wp_bind. eapply wp_mono; [by apply prioq_cell_out_spec |].
  intros [c' q1] m1 (R1 & E1 & Q1). simpl in E1, Q1. subst c'.
  apply wp_bind. eapply wp_mono; [by apply IH |]. intros [l' q2] m2 (R2 & E2 & Q2). simpl in E2, Q2. subst l'.
  apply wp_ret. split; [| done]. eapply relink_trans; [exact R1 |].
  eapply relinked_mono; [| exact R2]. intros a Ha. by right.
Qed.

Lemma inserts_perm m l cs : inserts m l cs ≡ₚ l ++ cs.
Proof.
  unfold inserts. revert l. induction cs as [| c cs IH]; intros l; simpl; [by rewrite app_nil_r |].
  rewrite IH, insert_by_perm. simpl. by rewrite Permutation_middle.
Qed.

Lemma inserts_sorted m l cs : by_time (time_at m) l -> by_time (time_at m) (inserts m l cs).
Proof.
  unfold inserts. revert l. induction cs as [| c cs IH]; intros l S; simpl; [done |].
  apply IH. by apply insert_by_sorted.
Qed.

(** The cells of time [t] with and without priority. *)
Definition prior_at (m : seqmem) (t : Z) (prior : bool) (cs : list Z) : list Z :=
  filter (fun c => time_at m c = t /\ is_prior (event_at m c) = prior) cs.

Lemma inserts_filter m t cs : forall l,
  by_time (time_at m) l ->
  filter (fun a => time_at m a = t) (inserts m l cs) =
    reverse (prior_at m t true cs) ++ filter (fun a => time_at m a = t) l ++ prior_at m t false cs.
Proof.
  unfold inserts, prior_at. induction cs as [| c cs IH]; intros l S; simpl.
  { by rewrite !filter_nil, app_nil_r. }
  rewrite IH by (by apply insert_by_sorted). rewrite insert_by_filter by done.
  rewrite !filter_cons. destruct (is_prior (event_at m c)); repeat case_decide; try (exfalso; intuition congruence).
  all: by rewrite ?reverse_cons, <- ?(assoc_L (++)).
Qed.

(** C21: the priority queue delivers events in the order of their time stamps.  Whatever cells
    are put into a new queue, in whatever order, taking out as many returns, ends with an
    empty queue, and gives exactly those cells sorted by time; of the events of one time,
    those with priority come first, the last one put in leading, and then the others, first
    in first out. *)
Theorem prioq_drains_in_order m ticks cs :
  NoDup cs -> Forall (event_cell m ticks) cs ->
  exists out q m',
    (q <- cells_in snd_seq_prioq_new cs;; cells_out (length cs) q) m = Some ((out, q), m') /\
    out ≡ₚ cs /\ StronglySorted (fun a b => time_at m a <= time_at m b) out /\
    (forall t, filter (fun c => time_at m c = t) out =
                 reverse (prior_at m t true cs) ++ prior_at m t false cs) /\
    snd_seq_prioq_cell_peek q = NULL /\ snd_seq_prioq_avail q = 0.
Proof.
  intros N F.
  assert (Q0 : prioq_is m ticks snd_seq_prioq_new []).
  { split; [done | done | by left | constructor | constructor]. }
  pose proof (inserts_perm m [] cs) as P. simpl in P.
  assert (W : wp (q <- cells_in snd_seq_prioq_new cs;; cells_out (length cs) q)
    (fun r m' => r.1 = inserts m [] cs /\ prioq_is m' ticks r.2 []) m).
  { apply wp_bind. eapply wp_mono; [by apply (cells_in_spec ticks cs m _ [])|].
    intros q m1 [_ Q]. rewrite <- P. eapply wp_mono; [by apply cells_out_spec |].
    intros r m2 (_ & ? & ?). done. }
  destruct (wp_run _ _ _ W) as ([out q] & m' & E & Eo & Q). simpl in Eo, Q. subst out.
  exists (inserts m [] cs), q, m'. split; [done |]. split; [done |].
  split; [apply inserts_sorted; constructor |].
  split; [intros t; rewrite inserts_filter by constructor; done |].
  destruct Q as [HC HN _ _ _]. split; [exact HC | exact HN].
Qed.

(** ** Removal of the matching cells *)

Section RemoveSpec.
Variable matches : snd_seq_event -> bool.

Definition kept (m : seqmem) (l : list Z) : list Z := filter (fun c => matches (event_at m c) = false) l.
Definition removed (m : seqmem) (l : list Z) : list Z := filter (fun c => matches (event_at m c) = true) l.

(** During the walk: [K] are the cells kept so far, [R] those removed, [rest] is ahead. *)
Record walk (m : seqmem) (q : prioq) (K R rest : list Z) (cell prev first lst : Z) : Prop := {
  wk_queue : lseg (m_cells m) (pq_head q) K cell;
  wk_rest : chain (m_cells m) cell rest;
  wk_removed : chain (m_cells m) first R;
  wk_prev : prev = default NULL (last K);
  wk_last : lst = default NULL (last R);
  wk_nodup : NoDup (K ++ R ++ rest);
  wk_count : pq_cells q = Z.of_nat (length (K ++ rest));
  wk_tail : pq_tail q = NULL \/ last (K ++ rest) = Some (pq_tail q) }.

(** Bypassing the cell after [K]. *)
Lemma bypass m q K c x :
  lseg (m_cells m) (pq_head q) K c -> c ∉ K -> m_cells m !! c = Some x -> NoDup K -> c <> NULL ->
  wp (if c =? pq_head q then ret (q <| pq_head := c_next x |>)
      else (set_next (default NULL (last K)) (c_next x);;; ret q))
    (fun f m' => relinked K m m' /\ lseg (m_cells m') (pq_head f) K (c_next x) /\
       pq_tail f = pq_tail q /\ pq_cells f = pq_cells q) m.
Proof.
  intros S Hc Hx N Hn. destruct K as [| d K _] using rev_ind.
  - simpl in S. rewrite S, Z.eqb_refl. apply wp_ret. split; [apply relinked_refl | done].
  - assert (Eh : c <> pq_head q).
    { intros ->. apply Hc. destruct K as [| b K]; destruct S as (-> & _); left. }
    rewrite (proj2 (Z.eqb_neq _ _) Eh), last_snoc. simpl.
    apply NoDup_app in N as (N1 & N2 & _). assert (HdK : d ∉ K) by (intros H; apply (N2 d H); left).
    apply lseg_app in S as (k & S & (-> & Hd & y & Hy & _)).
    apply wp_bind, (wp_modify_cell _ y); [done |]. apply wp_ret. split.
    { apply relinked_next; [rewrite elem_of_app; right; left | done]. }
    split; [| done]. apply lseg_app. exists d. split; [by apply lseg_insert |].
    split; [done |]. split; [done |]. eexists. split; [apply lookup_insert_eq | done].
Qed.

(** Appending the cell to the removed ones. *)
Lemma append_removed m R c x first :
  chain (m_cells m) first R -> c ∉ R -> m_cells m !! c = Some x -> c <> NULL ->
  wp (set_next c NULL;;; when (negb (first =? NULL)) (set_next (default NULL (last R)) c))
    (fun _ m' => relinked (c :: R) m m' /\
       chain (m_cells m') (if first =? NULL then c else first) (R ++ [c])) m.
Proof.
  intros S Hc Hx Hn. apply wp_bind, (wp_modify_cell _ x); [done |].
  set (x' := x <| c_next := NULL |>). set (m1 := with_cell c x' m).
  assert (R1 : relinked (c :: R) m m1) by (apply relinked_next; [left | done]).
  destruct R as [| d R _] using rev_ind.
  - unfold chain in S. simpl in S. rewrite S. simpl. apply wp_ret. split; [done |].
    simpl. split; [done |]. split; [done |]. exists x'. by rewrite lookup_insert_eq.
  - pose proof (chain_nodup _ _ _ S) as N. apply NoDup_app in N as (N1 & N2 & _).
    assert (HdR : d ∉ R) by (intros H; apply (N2 d H); left).
    rewrite elem_of_app, list_elem_of_singleton in Hc.
    assert (Hf : first <> NULL) by (intros ->; apply chain_null in S; by destruct R).
    rewrite (proj2 (Z.eqb_neq _ _) Hf), last_snoc. simpl.
    assert (S1 : chain (m_cells m1) first (R ++ [d])).
    { apply chain_insert; [by rewrite elem_of_app, list_elem_of_singleton | done]. }
    pose proof S1 as S2. apply lseg_app in S2 as (k & S2 & (-> & Hd & y & Hy & En)). simpl in En.
    apply (wp_modify_cell _ y); [done |]. split.
    { eapply relink_trans; [exact R1 |]. apply relinked_next; [| done].
      right. rewrite elem_of_app. right. left. }
    unfold chain. change NULL with (c_next x'). apply lseg_snoc; [done | | done | done | | by rewrite En].
    + rewrite elem_of_cons. intros [-> | ?]; tauto.
    + simpl. by rewrite lookup_insert_eq.
Qed.

(** Links among cells that are not touched stay. *)
Lemma lseg_relinked L m m' a l b :
  relinked L m m' -> (forall c, c ∈ l -> c ∉ L) -> lseg (m_cells m) a l b -> lseg (m_cells m') a l b.
Proof.
  intros R H S. apply (lseg_frame (m_cells m)); [| done]. intros c Hc.
  destruct (lseg_cell _ _ _ _ c S Hc) as [[x Hx] _]. exists x, x.
  by rewrite (rl_others _ _ _ R) by auto.
Qed.

(** Taking the cell ahead out of the queue. *)
Lemma walk_remove m q K R c rest prev first lst x :
  walk m q K R (c :: rest) c prev first lst -> m_cells m !! c = Some x ->
  wp (f <- (if c =? pq_head q then ret (q <| pq_head := c_next x |>)
            else (set_next prev (c_next x);;; ret q));;
      set_next c NULL;;;
      when (negb (first =? NULL)) (set_next lst c);;;
      ret (f <| pq_tail := if c =? pq_tail f then c_next x else pq_tail f |>
             <| pq_cells := pq_cells f - 1 |>))
    (fun f m' => relinked (K ++ R ++ [c]) m m' /\
       walk m' f K (R ++ [c]) rest (c_next x) prev (if first =? NULL then c else first) c) m.
Proof.
  intros [S1 S2 S3 -> -> N HN HT] Hx. pose proof S2 as (_ & Hn & x' & Hx' & S2').
  assert (x' = x) as -> by congruence.
  assert (D : (forall a, a ∈ K -> (a ∉ R) /\ (a ∉ c :: rest)) /\ (forall a, a ∈ R -> a ∉ c :: rest)).
  { apply NoDup_app in N as (_ & D1 & N). apply NoDup_app in N as (_ & D2 & _). split; [| done].
    intros a Ha. specialize (D1 a Ha). rewrite elem_of_app in D1. tauto. }
  destruct D as [DK DR].
  assert (HcK : c ∉ K) by (intros H; apply (DK c H); left).
  assert (HcR : c ∉ R) by (intros H; apply (DR c H); left).
  assert (Hcr : c ∉ rest).
  { apply NoDup_app in N as (_ & _ & N). apply NoDup_app in N as (_ & _ & N). by apply NoDup_cons in N as [N _]. }
  apply wp_bind. eapply wp_mono; [apply bypass; try done; by apply NoDup_app in N as (N & _) |].
  intros f m1 (R1 & Q1 & Et & Ec). destruct (rl_cells _ _ _ R1 c x Hx) as (n & Hx1).
  assert (S31 : chain (m_cells m1) first R).
  { eapply lseg_relinked; [exact R1 | | done]. intros a Ha Hk. by destruct (DK a Hk). }
  apply wp_assoc, wp_bind. eapply wp_mono; [by eapply append_removed |].
  intros _ m2 [R2 S32]. apply wp_ret. split.
  { eapply relink_trans; eapply relinked_mono; [| exact R1 | | exact R2]; intros a;
      rewrite !elem_of_app, ?elem_of_cons; [tauto |]. rewrite elem_of_nil. tauto. }
  split; simpl; [| | done | done | by rewrite last_snoc | | |].
  - eapply lseg_relinked; [exact R2 | | done]. intros a Ha. rewrite elem_of_cons.
    intros [-> | Hr]; [done |]. by destruct (DK a Ha).
  - eapply lseg_relinked; [exact R2 | | eapply lseg_relinked; [exact R1 | | done]].
    + intros a Ha. rewrite elem_of_cons. intros [-> | Hr]; [done |]. apply (DR a Hr). by right.
    + intros a Ha Hk. destruct (DK a Hk) as [_ H]. apply H. by right.
  - by rewrite <- (assoc_L (++)).
  - rewrite Ec, HN, !length_app. simpl. lia.
  - rewrite Et. destruct HT as [HT | HT]; [left; rewrite HT, (proj2 (Z.eqb_neq c NULL) Hn); done |].
    rewrite last_app_cons in HT. destruct rest as [| d rest].
    + injection HT as HT. rewrite <- HT, Z.eqb_refl. left. exact S2'.
    + rewrite last_cons_cons in HT. right. rewrite last_app_cons, (proj2 (Z.eqb_neq c (pq_tail q))); [done |].
      intros ->. by apply last_Some_elem_of in HT.
Qed.

(** Running one step of the walk before the rest of it. *)
Lemma wp_step {S A B C D E} (m1 : ST S A) (m2 : A -> ST S B) (m3 : A -> ST S C) (g : A -> D)
    (k : D -> ST S E) Q s :
  wp (f <- m1;; m2 f;;; m3 f;;; ret (g f)) (fun x => wp (k x) Q) s ->
  wp (f <- m1;; m2 f;;; m3 f;;; k (g f)) Q s.
Proof.
  unfold wp, bind, ret. destruct (m1 s) as [[f s1] |]; [| done].
  destruct (m2 f s1) as [[? s2] |]; [| done]. by destruct (m3 f s2) as [[? s3] |].
Qed.

Lemma unlink_cells_spec rest : forall fuel q K R cell prev first lst m,
  walk m q K R rest cell prev first lst -> (length rest < fuel)%nat ->
  wp (unlink_cells matches fuel q cell prev first lst)
    (fun r m' => relinked (K ++ R ++ rest) m m' /\ exists cell' prev' lst',
       walk m' r.1 (K ++ kept m rest) (R ++ removed m rest) [] cell' prev' r.2 lst') m.
Proof.
  induction rest as [| c rest IH]; intros fuel q K R cell prev first lst m W Hf;
    destruct fuel as [| fuel]; try (simpl in Hf; lia); cbn [unlink_cells].
  - pose proof (wk_rest _ _ _ _ _ _ _ _ _ W) as S. unfold chain in S. simpl in S.
    rewrite S, Z.eqb_refl. apply wp_ret. split; [apply relinked_refl |].
    exists cell, prev, lst. unfold kept, removed. by rewrite !filter_nil, !app_nil_r.
  - pose proof (wk_rest _ _ _ _ _ _ _ _ _ W) as (-> & Hn & x & Hx & S).
    rewrite (proj2 (Z.eqb_neq c NULL) Hn). apply wp_bind, (wp_cell_at _ x); [done |].
    assert (Cells : forall a, a ∈ rest -> is_Some (m_cells m !! a)).
    { intros a Ha. by apply (lseg_cell _ _ _ _ a S). }
    unfold kept, removed. rewrite !filter_cons, (event_at_some _ _ _ Hx).
    destruct (matches (c_event x)) eqn:E.
    + apply (wp_step _ (fun _ => set_next c NULL)
        (fun _ => when (negb (first =? NULL)) (set_next lst c))
        (fun f => f <| pq_tail := if c =? pq_tail f then c_next x else pq_tail f |>
                    <| pq_cells := pq_cells f - 1 |>)
        (fun f => unlink_cells matches fuel f (c_next x) prev (if first =? NULL then c else first) c)).
      eapply wp_mono; [by apply (walk_remove m q K R c rest prev first lst x) |].
      intros f m1 [R1 W1]. eapply wp_mono; [apply (IH _ _ _ _ _ _ _ _ _ W1); simpl in Hf; lia |].
      intros r m2 (R2 & cell' & prev' & lst' & W2). split.
      { eapply relink_trans; eapply relinked_mono; [| exact R1 | | exact R2]; intros a;
          rewrite !elem_of_app, ?elem_of_cons, elem_of_nil; tauto. }
      exists cell', prev', lst'. rewrite decide_False, decide_True by done.
      assert (Ek : kept m1 rest = kept m rest /\ removed m1 rest = removed m rest).
      { unfold kept, removed. split; apply filter_agree; intros a Ha; by rewrite (relinked_event _ _ _ a R1) by auto. }
      destruct Ek as [Ek1 Ek2]. unfold kept, removed in *. rewrite Ek1, Ek2, <- (assoc_L (++)) in W2. done.
    + destruct W as [S1 S2 S3 -> -> N HN HT].
      assert (W : walk m q (K ++ [c]) R rest (c_next x) c first (default NULL (last R))).
      { split; try done.
        - apply lseg_app. exists c. split; [done |]. split; [done |]. split; [done |]. by exists x.
        - by rewrite last_snoc.
        - rewrite <- (assoc_L (++)). rewrite <- Permutation_middle in N. simpl.
          rewrite <- Permutation_middle in N. simpl in *. by rewrite <- Permutation_middle.
        - by rewrite <- (assoc_L (++)).
        - by rewrite <- (assoc_L (++)). }
      eapply wp_mono; [apply (IH _ _ _ _ _ _ _ _ _ W); simpl in Hf; lia |].
      intros r m2 (R2 & cell' & prev' & lst' & W2). split.
      { eapply relinked_mono; [| exact R2]. intros a. rewrite !elem_of_app, !elem_of_cons, elem_of_nil. tauto. }
      exists cell', prev', lst'. rewrite decide_True, decide_False by done.
      by rewrite <- (assoc_L (++)) in W2.
Qed.

(** The cells [R] belong to pool [p], and each holds the cells [D c] of its data. *)
Definition live_cells (m : seqmem) (p : Z) (D : Z -> list Z) (R : list Z) : Prop :=
  Forall (fun c => exists x, m_cells m !! c = Some x /\ c_pool x = p /\
                     chained_cells m (c_event x) (D c)) R.

Definition with_data (D : Z -> list Z) (R : list Z) : list Z := R ≫= (fun c => c :: D c).

Lemma live_cells_frame m m' p D R :
  (forall a, a ∈ with_data D R -> m_cells m' !! a = m_cells m !! a) ->
  live_cells m p D R -> live_cells m' p D R.
Proof.
  unfold live_cells. rewrite !Forall_forall. intros E L c Hc. destruct (L c Hc) as (x & Hx & Hp & HD).
  assert (HcD : forall a, a ∈ c :: D c -> m_cells m' !! a = m_cells m !! a).
  { intros a Ha. apply E, list_elem_of_bind. eauto. }
  exists x. rewrite HcD by left. split; [done |]. split; [done |].
  unfold chained_cells in *. destruct (_ && _); [| done].
  apply (lseg_frame (m_cells m)); [| done]. intros a Ha.
  destruct (lseg_cell _ _ _ _ a HD Ha) as [[y Hy] _]. exists y, y. rewrite HcD by (by right). done.
Qed.

Lemma free_list_spec p D R : forall fuel P F a m,
  pool_is m p P F -> chain (m_cells m) a R -> live_cells m p D R ->
  NoDup (with_data D R ++ F) -> (length R < fuel)%nat ->
  wp (free_list fuel a)
    (fun _ m' => pool_frame p (with_data D R) m m' /\ exists P' F', pool_is m' p P' F' /\ F' ≡ₚ with_data D R ++ F) m.
Proof.
  induction R as [| c R IH]; intros fuel P F a m HP S L N Hf; destruct fuel as [| fuel];
    try (simpl in Hf; lia); cbn [free_list].
  - unfold chain in S. simpl in S. rewrite S, Z.eqb_refl. apply wp_ret.
    split; [apply frame_refl |]. by exists P, F.
  - destruct S as (-> & Hn & x & Hx & S). rewrite (proj2 (Z.eqb_neq c NULL) Hn).
    apply wp_bind, (wp_cell_at _ x); [done |].
    apply Forall_cons in L as [(x' & Hx' & Hp & HD) L]. assert (x' = x) as -> by congruence.
    change (with_data D (c :: R)) with ((c :: D c) ++ with_data D R) in *.
    assert (N1 : NoDup (c :: D c ++ F) /\ (forall b, b ∈ with_data D R -> b ∉ c :: D c)).
    { rewrite <- (assoc_L (++)) in N. split.
      - rewrite (Permutation_app_comm (with_data D R) F), (assoc_L (++)) in N. by apply NoDup_app in N as (N & _).
      - apply NoDup_app in N as (_ & N & _). intros b Hb Hc. apply (N b Hc). rewrite elem_of_app. by left. }
    destruct N1 as [N1 Dis].
    apply wp_bind. eapply wp_mono.
    { apply (cell_free_spec p P F (c :: D c) c x (D c) m HP Hx Hp Hn HD); [done | done]. }
    intros _ m1 (Fr1 & P1 & HP1).
    assert (Keep : forall b, b ∈ with_data D R -> m_cells m1 !! b = m_cells m !! b).
    { intros b Hb. apply Fr1. auto. }
    assert (HRD : forall b, b ∈ R -> b ∈ with_data D R).
    { intros b Hb. apply list_elem_of_bind. exists b. split; [left | done]. }
    eapply wp_mono.
    { apply (IH fuel P1 (reverse (D c) ++ c :: F) (c_next x) m1 HP1).
      - apply (lseg_frame (m_cells m)); [| exact S]. intros b Hb.
        destruct (lseg_cell _ _ _ _ b S Hb) as [[y Hy] _]. exists y, y. by rewrite Keep by auto.
      - by eapply live_cells_frame.
      - rewrite reverse_Permutation. rewrite <- (assoc_L (++)) in N.
        rewrite (Permutation_app_comm (with_data D R)). simpl in N.
        rewrite <- (assoc_L (++)). simpl. rewrite <- Permutation_middle.
        by rewrite (Permutation_app_comm F).
      - simpl in Hf. lia. }
    intros _ m2 (Fr2 & P2 & F2 & HP2 & E2). split.
    + eapply frame_trans; eapply frame_mono; [| exact Fr1 | | exact Fr2]; intros b Hb; rewrite elem_of_app; tauto.
    + exists P2, F2. split; [done |]. rewrite E2, reverse_Permutation.
      rewrite (assoc_L (++)), (Permutation_app_comm (with_data D R) (D c)). simpl.
      rewrite <- (assoc_L (++)). simpl. rewrite (assoc_L (++)). by rewrite <- Permutation_middle.
Qed.

Lemma filter_sorted {A} (R : A -> A -> Prop) (P : A -> Prop) `{!forall x, Decision (P x)} (l : list A) :
  StronglySorted R l -> StronglySorted R (filter P l).
Proof.
  induction l as [| a l IH]; intros S; [constructor |]. apply StronglySorted_inv in S as [S F].
  rewrite filter_cons. destruct (decide (P a)); [| auto]. constructor; [auto |].
  rewrite Forall_forall in F |- *. intros b Hb. apply F. by apply list_elem_of_filter in Hb as [_ Hb].
Qed.

Lemma split_by_match m l : kept m l ++ removed m l ≡ₚ l.
Proof.
  unfold kept, removed. induction l as [| c l IH]; [done |]. rewrite !filter_cons.
  destruct (matches (event_at m c)).
  - rewrite decide_False, decide_True by done. by rewrite <- Permutation_middle, IH.
  - rewrite decide_True, decide_False by done. simpl. by rewrite IH.
Qed.

Lemma remove_cells_spec m ticks q l p P F D :
  prioq_is m ticks q l -> pool_is m p P F -> live_cells m p D l -> NoDup (with_data D l ++ F) ->
  wp (remove_cells matches q)
    (fun q' m' => prioq_is m' ticks q' (kept m l) /\
       (forall a, a ∉ with_data D l -> m_cells m' !! a = m_cells m !! a) /\
       (forall a, a ∈ kept m l -> event_at m' a = event_at m a) /\
       exists P' F', pool_is m' p P' F' /\ F' ≡ₚ with_data D (removed m l) ++ F) m.
Proof.
  intros Q HP L N. pose proof Q as [HC HN HL HK HS].
  assert (HlD : l ⊆ with_data D l).
  { intros c Hc. apply list_elem_of_bind. exists c. split; [left | done]. }
  assert (W : walk m q [] [] l (pq_head q) NULL NULL NULL).
  { split; simpl; try done. eapply chain_nodup, HC. }
  assert (Hf : (length l < chain_fuel m)%nat) by (unfold chain_fuel; apply chain_length in HC; lia).
  unfold remove_cells, wp. apply wp_bind. eapply wp_mono; [by apply (unlink_cells_spec l _ q [] [])|].
  intros [q' first] m1 (R1 & cell' & prev' & lst' & [S1 S2 S3 _ _ N1 N1c N1t]).
  cbn [app fst snd] in *. rewrite !app_nil_r in *. unfold chain in S2. simpl in S2. rewrite S2 in S1.
  assert (Sp : kept m l ++ removed m l ≡ₚ l) by apply split_by_match.
  assert (Ev : forall a, a ∈ l -> event_at m1 a = event_at m a).
  { intros a Ha. eapply relinked_event; [exact R1 |]. by eapply prioq_cell. }
  assert (Hk : forall a, a ∈ kept m l -> a ∈ l) by (intros a Ha; rewrite <- Sp, elem_of_app; by left).
  assert (Hr : forall a, a ∈ removed m l -> a ∈ l) by (intros a Ha; rewrite <- Sp, elem_of_app; by right).
  assert (Q1 : prioq_is m1 ticks q' (kept m l)).
  { eapply prioq_is_relinked; [exact R1 | | | | exact S1 | done | done | exact Q].
    - intros a Ha. eapply prioq_cell; eauto.
    - apply Forall_forall. intros a Ha. rewrite Forall_forall in HK. auto.
    - by apply filter_sorted. }
  assert (Dl : forall a, a ∈ with_data D l -> a ∉ l -> m_cells m1 !! a = m_cells m !! a).
  { intros a _ Ha. by apply R1. }
  assert (NW : NoDup (with_data D (kept m l) ++ with_data D (removed m l) ++ F)).
  { rewrite (assoc_L (++)). unfold with_data. rewrite <- bind_app, Sp. exact N. }
  assert (Ndd : forall c a, c ∈ l -> a ∈ D c -> a ∉ l).
  { clear -N. apply NoDup_app in N as (N & _). intros c a Hc Ha Hal.
    destruct (list_elem_of_split _ _ Hc) as (l1 & l2 & ->). unfold with_data in N.
    rewrite bind_app, bind_cons in N. rewrite (Permutation_app_comm (l1 ≫= _)) in N. simpl in N.
    rewrite elem_of_app, elem_of_cons in Hal.
    apply NoDup_cons in N as [Nc N]. rewrite !elem_of_app in Nc.
    rewrite <- (assoc_L (++)) in N. apply NoDup_app in N as (_ & N & _).
    destruct Hal as [Ha1 | [-> | Ha2]].
    - apply (N a Ha). rewrite elem_of_app. right. apply list_elem_of_bind. exists a. split; [left | done].
    - tauto.
    - apply (N a Ha). rewrite elem_of_app. left. apply list_elem_of_bind. exists a. split; [left | done]. }
  assert (L1 : live_cells m1 p D (removed m l)).
  { unfold live_cells in *. rewrite Forall_forall in L |- *. intros c Hc.
    destruct (L c (Hr c Hc)) as (x & Hx & Hp & HD). destruct (rl_cells _ _ _ R1 c x Hx) as (n & Hn).
    eexists. split; [exact Hn |]. split; [done |]. unfold chained_cells in *. simpl.
    destruct (_ && _); [| done]. eapply lseg_relinked; [exact R1 | | exact HD].
    intros a Ha. by eapply Ndd; [apply Hr |]. }
  assert (HP1 : pool_is m1 p P F).
  { destruct HP as [A1 A2 A3 A4]. split; [done | by rewrite (rl_pools _ _ _ R1) | | done].
    eapply lseg_relinked; [exact R1 | | exact A3]. intros a Ha Hl.
    apply NoDup_app in N as (_ & N & _). apply (N a); [by apply HlD | done]. }
  apply wp_bind. eapply wp_mono.
  { apply (free_list_spec p D (removed m l) _ P F first m1 HP1 S3 L1).
    - by apply NoDup_app in NW as (_ & _ & NW).
    - apply (f_equal length) in Sp || apply Permutation_length in Sp. rewrite length_app in Sp. lia. }
  intros _ m2 (Fr & P2 & F2 & HP2 & E2). apply wp_ret.
  assert (Kp : forall a, a ∈ kept m l -> m_cells m2 !! a = m_cells m1 !! a).
  { intros a Ha. apply Fr. intros Hx. apply NoDup_app in NW as (_ & NW & _). apply (NW a).
    - apply list_elem_of_bind. exists a. split; [left | done].
    - rewrite elem_of_app. by left. }
  split; [| split; [| split; [| by exists P2, F2]]].
  - destruct Q1 as [A1 A2 A3 A4 A5]. split; [| done | done | |].
    + apply (lseg_frame (m_cells m1)); [| exact A1]. intros a Ha.
      destruct (lseg_cell _ _ _ _ a A1 Ha) as [[y Hy] _]. exists y, y. by rewrite Kp.
    + rewrite Forall_forall in A4 |- *. intros a Ha. unfold event_at. rewrite Kp by done. by apply A4.
    + eapply StronglySorted_ext; [| exact A5]. intros a b Ha Hb. simpl. unfold time_at, event_at. by rewrite !Kp.
  - intros a Ha. rewrite (pf_cells _ _ _ _ Fr).
    + apply R1. intros H. apply Ha. by apply HlD.
    + intros H. apply Ha. apply list_elem_of_bind in H as (c & Hac & Hc). apply list_elem_of_bind. eauto.
  - intros a Ha. unfold event_at at 1. rewrite Kp by done. apply Ev. auto.
Qed.
End RemoveSpec.

(** C31: events taken out of a queue are freed, and only they.  Removing a client's events
    (when it leaves, or by given criteria) leaves the other events queued in their order and
    untouched, and gives the cells of the removed events and of their external data back to
    the pool, each once. *)
Theorem prioq_removal_frees m ticks q l p P F D client timestamp info :
  prioq_is m ticks q l -> pool_is m p P F -> live_cells m p D l -> NoDup (with_data D l ++ F) ->
  let gone op (matches : snd_seq_event -> bool) := exists q' m' P' F',
    op m = Some (q', m') /\
    prioq_is m' ticks q' (filter (fun c => matches (event_at m c) = false) l) /\
    (forall a, a ∉ with_data D l -> m_cells m' !! a = m_cells m !! a) /\
    (forall a, a ∈ l -> matches (event_at m a) = false -> event_at m' a = event_at m a) /\
    pool_is m' p P' F' /\
    F' ≡ₚ with_data D (filter (fun c => matches (event_at m c) = true) l) ++ F in
  gone (snd_seq_prioq_leave q client timestamp) (fun e => prioq_match e client timestamp) /\
  gone (snd_seq_prioq_remove_events q client info)
    (fun e => (addr_client (ev_source e) =? client) && prioq_remove_match info e).
Proof.
  intros Q HP L N gone.
  assert (G : forall matches, gone (remove_cells matches q) matches).
  { intros matches. destruct (wp_run _ _ _ (remove_cells_spec matches m ticks q l p P F D Q HP L N))
      as (q' & m' & E & A & B & C & P' & F' & HP' & EF).
    exists q', m', P', F'. split; [done |]. split; [exact A |]. split; [done |]. split; [| done].
    intros a Ha Hm. apply C. unfold kept. apply list_elem_of_filter. done. }
  split; apply G.
Qed.

(** ** A queue of three events *)

Definition timed (flags t source : Z) (d0 d1 : Z) : snd_seq_event :=
  Event EVENT_SYSEX flags 0 0 (Timestamp t 0) (Addr source 0) (Addr 0 0) d0 d1 0.

(** The second event has data in the cell at 208; the cell at 244 is free. *)
Definition five_cells : seqmem :=
  Seqmem (<[100 := Cell (timed 0 3 128 0 0) 1 136]>
          (<[136 := Cell (timed EVENT_LENGTH_VARIABLE 5 129 (10 + EXT_CHAINED) 208) 1 172]>
          (<[172 := Cell (timed 0x10 5 128 0 0) 1 0]>
          (<[208 := Cell zero_event 1 0]> {[244 := Cell zero_event 1 0]}))))
    {[1 := Pool [(92, 5)] 244 5 4 5 2 false 4 0 0 false 0]} ∅.

Lemma timed_wf flags t source d0 d1 :
  is_byte flags -> is_u32 t -> is_byte source -> is_u32 d0 -> is_u32 d1 ->
  event_wf (timed flags t source d0 d1).
Proof.
  intros. split; unfold timed; simpl; rewrite !Forall_cons; split_and!;
    first [done | by apply Forall_nil | vm_compute; intuition congruence].
Qed.

Lemma five_cells_events : Forall (event_cell five_cells true) [100; 136; 172].
Proof.
  repeat (apply Forall_cons; split);
    first [by apply Forall_nil | split; [done |]; split; [by eexists |]; split; [| done]];
    apply timed_wf; vm_compute; intuition congruence.
Qed.

(** The three events put in: the one with priority overtakes the other of its time. *)
Lemma prioq_drains_in_order_witness :
  exists out q m',
    (q <- cells_in snd_seq_prioq_new [136; 100; 172];; cells_out 3 q) five_cells = Some ((out, q), m') /\
    filter (fun c => time_at five_cells c = 5) out = [172; 136] /\ snd_seq_prioq_avail q = 0.
Proof.
  destruct (prioq_drains_in_order five_cells true [136; 100; 172]) as (out & q & m' & E & _ & _ & H & _ & A).
  - by apply (bool_decide_unpack _).
  - repeat (apply Forall_cons; split; [eapply (Forall_forall _ _); [exact five_cells_events | set_solver] |]).
    constructor.
  - exists out, q, m'. split; [exact E |]. split; [| exact A]. rewrite H. reflexivity.
Defined.

(** Client 129 leaves: its event and the data cell go to the pool. *)
Lemma prioq_removal_frees_witness :
  exists q' m' P' F',
    snd_seq_prioq_leave (Prioq 100 172 3) 129 false five_cells = Some (q', m') /\
    prioq_is m' true q' [100; 172] /\ pool_is m' 1 P' F' /\ F' ≡ₚ [136; 208; 244].
Proof.
  set (D := fun c : Z => if c =? 136 then [208] else []).
  assert (Q : prioq_is five_cells true (Prioq 100 172 3) [100; 136; 172]).
  { split; [| done | by right | | ].
    - repeat (split; [done |]; split; [done |]; eexists; split; [reflexivity |]; cbn [c_next]). done.
    - eapply Forall_impl; [exact five_cells_events |]. intros c (_ & _ & ?). done.
    - repeat (constructor; [| repeat (constructor; [vm_compute; congruence |]); constructor]). constructor. }
  destruct (prioq_removal_frees five_cells true (Prioq 100 172 3) [100; 136; 172] 1
    (Pool [(92, 5)] 244 5 4 5 2 false 4 0 0 false 0) [244] D 129 false
    (RemoveEvents 0 (Timestamp 0 0) 0 (Addr 0 0) 0 0 0)) as [(q' & m' & P' & F' & E & A & _ & _ & B & C) _].
  - exact Q.
  - split; [done | reflexivity | | done].
    split; [done |]. split; [done |]. eexists. by split.
  - repeat (apply Forall_cons; split; [eexists; split; [reflexivity |]; split; [done |] |]);
      [done | | done | constructor].
    split; [done |]. split; [done |]. eexists. by split.
  - by apply (bool_decide_unpack _).
  - exists q', m', P', F'. split; [exact E |]. split; [exact A |]. split; [exact B |]. exact C.
Defined.
