(* ===== verification/SeqMidi.v ===== *)
(** * SeqMidi: coding MIDI bytes and sequencer events

    alsa/core/seq/seq_midi_event.c, the coder, and the two loops of seq_midi.c that drive
    it: bytes read from a MIDI port become events, events sent to a port become bytes.  The
    coder's buffer is memory of its own, so that an event can point into it. *)

From S2P Require Import Prelude SeqEvent SeqCells SeqMemory.
Open Scope Z_scope.
Open Scope state_scope.

(** ** The coder *)

Definition MIDI_CMD_CONTROL : Z := 0xb0.
Definition MIDI_CMD_COMMON_SYSEX : Z := 0xf0.
Definition MIDI_CMD_COMMON_SYSEX_END : Z := 0xf7.
Definition MIDI_CMD_COMMON_CLOCK : Z := 0xf8.
Definition MAX_MIDI_EVENT_BUF : Z := 256.
Definition ST_SPECIAL : Z := 8.
Definition ST_SYSEX : Z := ST_SPECIAL.

(** [snd_midi_event_t]; the buffer is an address. *)
Record snd_midi_event := MidiEvent {
  me_qlen : Z; me_read : Z; me_type : Z; me_lastcmd : Z; me_bufsize : Z; me_buf : Z }.
#[export] Instance settable_midi_event : Settable snd_midi_event :=
  fun d => MidiEvent (me_qlen d) (me_read d) (me_type d) (me_lastcmd d) (me_bufsize d) (me_buf d).

(** Byte accesses; an unmapped address crashes. *)
Definition load (a : Z) : M Z := fun m =>
  match m_bytes m !! a with Some b => Some (b, m) | None => None end.
Definition with_byte (a b : Z) (m : seqmem) : seqmem := m <| m_bytes := <[a := b]> (m_bytes m) |>.
Definition store (a b : Z) : M unit := load a;;; update (with_byte a b).
Fixpoint store_list (a : Z) (l : list Z) : M unit :=
  match l with [] => ret tt | b :: l => store a b;;; store_list (a + 1) l end.

Definition buf_byte (dev : snd_midi_event) (i : Z) : M Z := load (me_buf dev + i).
Definition put_byte (dev : snd_midi_event) (i c : Z) : M unit := store (me_buf dev + i) c.

(** *** Data of an event, from the buffer *)

Definition set_channel (c : Z) (ev : snd_seq_event) : snd_seq_event :=
  ev <| ev_d0 := set_byte 0 c (ev_d0 ev) |>.
Definition set_value (v : Z) (ev : snd_seq_event) : snd_seq_event := ev <| ev_d2 := u32 v |>.

Definition note_event (dev : snd_midi_event) (ev : snd_seq_event) : M snd_seq_event :=
  b0 <- buf_byte dev 0;; b1 <- buf_byte dev 1;; b2 <- buf_byte dev 2;;
  ret (ev <| ev_d0 := set_byte 2 b2 (set_byte 1 b1 (set_byte 0 (Z.land b0 0x0f) (ev_d0 ev))) |>).

Definition one_param_ctrl_event (dev : snd_midi_event) (ev : snd_seq_event) : M snd_seq_event :=
  b0 <- buf_byte dev 0;; b1 <- buf_byte dev 1;;
  ret (set_value b1 (set_channel (Z.land b0 0x0f) ev)).

Definition pitchbend_ctrl_event (dev : snd_midi_event) (ev : snd_seq_event) : M snd_seq_event :=
  b0 <- buf_byte dev 0;; b2 <- buf_byte dev 2;; b1 <- buf_byte dev 1;;
  ret (set_value (b2 * 128 + b1 - 8192) (set_channel (Z.land b0 0x0f) ev)).

Definition two_param_ctrl_event (dev : snd_midi_event) (ev : snd_seq_event) : M snd_seq_event :=
  b0 <- buf_byte dev 0;; b1 <- buf_byte dev 1;; b2 <- buf_byte dev 2;;
  ret (set_value b2 (set_channel (Z.land b0 0x0f) ev <| ev_d1 := b1 |>)).

Definition one_param_event (dev : snd_midi_event) (ev : snd_seq_event) : M snd_seq_event :=
  b1 <- buf_byte dev 1;; ret (set_value b1 ev).

Definition songpos_event (dev : snd_midi_event) (ev : snd_seq_event) : M snd_seq_event :=
  b2 <- buf_byte dev 2;; b1 <- buf_byte dev 1;; ret (set_value (b2 * 128 + b1) ev).

(** *** Bytes of an event *)

Definition low7 (v : Z) : Z := Z.land v 0x7f.
Definition high7 (v : Z) : Z := Z.land (Z.shiftr v 7) 0x7f.

Definition note_decode (ev : snd_seq_event) : list Z := [low7 (note_note ev); low7 (note_velocity ev)].
Definition one_param_decode (ev : snd_seq_event) : list Z := [low7 (control_value ev)].
Definition pitchbend_decode (ev : snd_seq_event) : list Z :=
  let value := s32 (control_value ev + 8192) in [low7 value; high7 value].
Definition two_param_decode (ev : snd_seq_event) : list Z :=
  [low7 (control_param ev); low7 (control_value ev)].
Definition songpos_decode (ev : snd_seq_event) : list Z :=
  [low7 (control_value ev); high7 (control_value ev)].

(** *** The table *)

Record status_event_list := StatusEvent {
  se_event : Z; se_qlen : Z;
  se_encode : option (snd_midi_event -> snd_seq_event -> M snd_seq_event);
  se_decode : option (snd_seq_event -> list Z) }.

Definition status_event : list status_event_list :=
  [StatusEvent EVENT_NOTEOFF 2 (Some note_event) (Some note_decode);
   StatusEvent EVENT_NOTEON 2 (Some note_event) (Some note_decode);
   StatusEvent EVENT_KEYPRESS 2 (Some note_event) (Some note_decode);
   StatusEvent EVENT_CONTROLLER 2 (Some two_param_ctrl_event) (Some two_param_decode);
   StatusEvent EVENT_PGMCHANGE 1 (Some one_param_ctrl_event) (Some one_param_decode);
   StatusEvent EVENT_CHANPRESS 1 (Some one_param_ctrl_event) (Some one_param_decode);
   StatusEvent EVENT_PITCHBEND 2 (Some pitchbend_ctrl_event) (Some pitchbend_decode);
   StatusEvent EVENT_NONE 0 None None;
   StatusEvent EVENT_SYSEX 1 None None;                                      (* 0xf0 *)
   StatusEvent EVENT_QFRAME 1 (Some one_param_event) (Some one_param_decode);
   StatusEvent EVENT_SONGPOS 2 (Some songpos_event) (Some songpos_decode);
   StatusEvent EVENT_SONGSEL 1 (Some one_param_event) (Some one_param_decode);
   StatusEvent EVENT_NONE 0 None None;
   StatusEvent EVENT_NONE 0 None None;
   StatusEvent EVENT_TUNE_REQUEST 0 None None;
   StatusEvent EVENT_NONE 0 None None;
   StatusEvent EVENT_CLOCK 0 None None;                                      (* 0xf8 *)
   StatusEvent EVENT_NONE 0 None None;
   StatusEvent EVENT_START 0 None None;
   StatusEvent EVENT_CONTINUE 0 None None;
   StatusEvent EVENT_STOP 0 None None;
   StatusEvent EVENT_NONE 0 None None;
   StatusEvent EVENT_SENSING 0 None None;
   StatusEvent EVENT_RESET 0 None None].

Definition status_at (type : Z) : M status_event_list :=
  match status_event !! Z.to_nat type with Some s => ret s | None => crash end.

(** *** Creation and resets *)

(** [kcalloc] and [kmalloc] as given: whether the record, and where the buffer was allocated. *)
Definition snd_midi_event_new (bufsize : Z) (record : bool) (buffer : Z) : Z * option snd_midi_event :=
  if negb record then (-ENOMEM, None)
  else if 0 <? bufsize then
    if buffer =? NULL then (-ENOMEM, None) else (0, Some (MidiEvent 0 0 0 0 bufsize buffer))
  else (0, Some (MidiEvent 0 0 0 0 bufsize NULL)).

Definition reset_encode (dev : snd_midi_event) : snd_midi_event :=
  dev <| me_read := 0 |> <| me_qlen := 0 |> <| me_type := 0 |>.
Definition snd_midi_event_reset_encode (dev : snd_midi_event) : snd_midi_event := reset_encode dev.
Definition snd_midi_event_reset_decode (dev : snd_midi_event) : snd_midi_event :=
  dev <| me_lastcmd := 0xff |>.
Definition snd_midi_event_init (dev : snd_midi_event) : snd_midi_event :=
  snd_midi_event_reset_decode (snd_midi_event_reset_encode dev).

Definition snd_midi_event_resize_buffer (dev : snd_midi_event) (bufsize buffer : Z)
    : Z * snd_midi_event :=
  if bufsize =? me_bufsize dev then (0, dev)
  else if buffer =? NULL then (-ENOMEM, dev)
  else (0, reset_encode (dev <| me_buf := buffer |> <| me_bufsize := bufsize |>)).

(** *** From bytes to events *)

Definition fixed_length (flags : Z) : Z := Z.land flags 0xf3.
Definition variable_length (flags : Z) : Z := Z.lor (Z.land flags 0xf3) EVENT_LENGTH_VARIABLE.

Definition set_fixed (s : status_event_list) (ev : snd_seq_event) : snd_seq_event :=
  ev <| ev_type := se_event s |> <| ev_flags := fixed_length (ev_flags ev) |>.

(** The byte goes to the buffer. *)
Definition take_byte (dev : snd_midi_event) (c : Z) : M snd_midi_event :=
  if 0 <? me_qlen dev then
    (put_byte dev (me_read dev) c;;;
     ret (dev <| me_read := me_read dev + 1 |>
              <| me_qlen := if me_type dev =? ST_SYSEX then me_qlen dev else me_qlen dev - 1 |>))
  else if truth (Z.land c 0x80) then
    (put_byte dev 0 c;;;
     let type := if Z.land c 0xf0 =? 0xf0 then Z.land c 0x0f + ST_SPECIAL
                 else Z.land (Z.shiftr c 4) 0x07 in
     s <- status_at type;;
     ret (dev <| me_read := 1 |> <| me_type := type |> <| me_qlen := se_qlen s |>))
  else
    (put_byte dev 1 c;;;
     s <- status_at (me_type dev);;
     ret (dev <| me_read := 2 |> <| me_qlen := se_qlen s - 1 |>)).

(** 1 when an event is complete. *)
Definition snd_midi_event_encode_byte (dev : snd_midi_event) (c : Z) (ev : snd_seq_event)
    : M (Z * snd_midi_event * snd_seq_event) :=
  let c := Z.land c 0xff in
  if MIDI_CMD_COMMON_CLOCK <=? c then
    (s <- status_at (ST_SPECIAL + c - 0xf0);; ret (1, dev, set_fixed s ev))
  else
    (dev <- take_byte dev c;;
     if me_qlen dev =? 0 then
       (s <- status_at (me_type dev);;
        ev <- match se_encode s with
              | Some encode => encode dev (set_fixed s ev)
              | None => ret (set_fixed s ev)
              end;;
        ret (1, dev, ev))
     else if (me_type dev =? ST_SYSEX) &&
             ((c =? MIDI_CMD_COMMON_SYSEX_END) || (me_bufsize dev <=? me_read dev)) then
       let ev := ev <| ev_flags := variable_length (ev_flags ev) |> <| ev_type := EVENT_SYSEX |>
                    <| ev_d0 := me_read dev |> <| ev_d1 := me_buf dev |> in
       ret (1, if negb (c =? MIDI_CMD_COMMON_SYSEX_END) then dev <| me_read := 0 |>
               else reset_encode dev, ev)
     else ret (0, dev, ev)).

Fixpoint encode_loop (dev : snd_midi_event) (buf : list Z) (ev : snd_seq_event) (result : Z)
    : M (Z * snd_midi_event * snd_seq_event) :=
  match buf with
  | [] => ret (result, dev, ev)
  | c :: buf =>
      r <- snd_midi_event_encode_byte dev c ev;;
      let '(rc, dev, ev) := r in
      let result := result + 1 in
      if rc <? 0 then ret (rc, dev, ev)
      else if 0 <? rc then ret (result, dev, ev)
      else encode_loop dev buf ev result
  end.

Definition snd_midi_event_encode (dev : snd_midi_event) (buf : list Z) (ev : snd_seq_event)
    : M (Z * snd_midi_event * snd_seq_event) :=
  encode_loop dev buf (ev <| ev_type := EVENT_NONE |>) 0.

(** *** From events to bytes *)

Definition extra_decode_ctrl14 (dev : snd_midi_event) (buf count : Z) (ev : snd_seq_event)
    : M (Z * snd_midi_event) :=
  let cmd := Z.lor MIDI_CMD_CONTROL (Z.land (control_channel ev) 0x0f) in
  if control_param ev <? 32 then
    if count <? 5 then ret (-ENOMEM, dev)
    else
      (store_list buf [cmd; control_param ev; high7 (control_value ev); control_param ev + 32;
                       low7 (control_value ev)];;;
       ret (5, dev <| me_lastcmd := cmd |>))
  else
    if count <? 3 then ret (-ENOMEM, dev)
    else
      (store buf cmd;;;
       store (buf + 1) (low7 (control_param ev));;;
       store (buf + 4) (low7 (control_value ev));;;
       ret (3, dev <| me_lastcmd := cmd |>)).

(** The table's index of an event's type. *)
Definition find_status (type : Z) : option (nat * status_event_list) :=
  list_find (fun s => se_event s = type) status_event.

Definition command (type : Z) (ev : snd_seq_event) : Z :=
  if ST_SPECIAL <=? type then 0xf0 + (type - ST_SPECIAL)
  else Z.lor (Z.lor 0x80 (Z.shiftl type 4)) (Z.land (note_channel ev) 0x0f).

Definition data_bytes (s : status_event_list) (ev : snd_seq_event) : list Z :=
  match se_decode s with Some decode => decode ev | None => [] end.

Definition snd_midi_event_decode (dev : snd_midi_event) (buf count : Z) (ev : snd_seq_event)
    : M (Z * snd_midi_event) :=
  if ev_type ev =? EVENT_NONE then ret (-ENOENT, dev)
  else
    match find_status (ev_type ev) with
    | None =>
        if ev_type ev =? EVENT_CONTROL14 then extra_decode_ctrl14 dev buf count ev
        else ret (-ENOENT, dev)
    | Some (type, s) =>
        let cmd := command (Z.of_nat type) ev in
        if cmd =? MIDI_CMD_COMMON_SYSEX then
          (r <- snd_seq_expand_var_event false ev count true 0;;
           store_list buf r.2;;;
           ret (r.1, snd_midi_event_reset_decode dev))
        else
          let fresh := (Z.land cmd 0xf0 =? 0xf0) || negb (me_lastcmd dev =? cmd) in
          let dev := if fresh then dev <| me_lastcmd := cmd |> else dev in
          let xbuf := (if fresh then [cmd] else []) ++ data_bytes s ev in
          let qlen := if fresh then se_qlen s + 1 else se_qlen s in
          if count <? qlen then ret (-ENOMEM, dev)
          else (store_list buf (take (Z.to_nat qlen) xbuf);;; ret (qlen, dev))
    end.

(** ** The MIDI ports of the sequencer *)


Section Input.
(** Sending an event on: the state of the receivers, and the event with the port's address. *)
Context {A : Type} (seq_port : Z) (dispatch : A -> snd_seq_event -> M A).

Definition send_on (a : A) (ev : snd_seq_event) : M A :=
  dispatch a (ev <| ev_source := Addr (addr_client (ev_source ev)) seq_port |>
                 <| ev_dest := Addr ADDRESS_SUBSCRIBERS (addr_port (ev_dest ev)) |>).

(** [while (res > 0)] of [snd_midi_input_event]: the bytes of one read. *)
Fixpoint parse_loop (fuel : nat) (a : A) (dev : snd_midi_event) (ev : snd_seq_event) (buf : list Z)
    : M (A * snd_midi_event * snd_seq_event) :=
  match buf, fuel with
  | [], _ => ret (a, dev, ev)
  | _, O => crash
  | _, S fuel =>
      r <- snd_midi_event_encode dev buf ev;;
      let '(count, dev, ev) := r in
      if count <? 0 then ret (a, dev, ev)
      else
        let rest := drop (Z.to_nat count) buf in
        if negb (ev_type ev =? EVENT_NONE) then
          (a <- send_on a ev;; parse_loop fuel a dev zero_event rest)
        else parse_loop fuel a dev ev rest
  end.

(** [while (runtime->avail > 0)]: the reads, of up to 16 bytes each. *)
Fixpoint input_loop (a : A) (dev : snd_midi_event) (ev : snd_seq_event) (reads : list (list Z))
    : M (A * snd_midi_event * snd_seq_event) :=
  match reads with
  | [] => ret (a, dev, ev)
  | buf :: reads =>
      r <- parse_loop (length buf) a dev ev buf;;
      let '(a, dev, ev) := r in input_loop a dev ev reads
  end.

Definition snd_midi_input_event (a : A) (parser : option snd_midi_event) (reads : list (list Z))
    : M (A * option snd_midi_event) :=
  match parser with
  | None => ret (a, None)
  | Some dev =>
      r <- input_loop a dev zero_event reads;;
      let '(a, dev, _) := r in ret (a, Some dev)
  end.
End Input.

(** The raw MIDI output a port writes to. *)
Class RawMidi (A : Type) := {
  raw_avail : A -> Z;
  snd_rawmidi_kernel_write : A -> list Z -> Z * A }.

Section Output.
Context {A : Type} `{RawMidi A}.

Definition dump_midi (substream : A) (buf : list Z) : Z * A :=
  if raw_avail substream <? Z.of_nat (length buf) then (-ENOMEM, substream)
  else
    let '(n, substream) := snd_rawmidi_kernel_write substream buf in
    (if n <? Z.of_nat (length buf) then -EINVAL else 0, substream).

(** [msg] is the address of ten bytes of stack. *)
Definition event_process_midi (msg : Z) (ev : snd_seq_event) (parser : option snd_midi_event)
    (substream : option A) : M (Z * option snd_midi_event * option A) :=
  match substream with
  | None => ret (-EINVAL, parser, None)
  | Some out =>
      if ev_type ev =? EVENT_SYSEX then
        if negb (is_variable ev) then ret (0, parser, Some out)
        else
          (r <- snd_seq_dump_var_event dump_midi ev out;;
           match parser with
           | None => crash
           | Some dev =>
               ret (if r.1 <? 0 then r.1 else 0, Some (snd_midi_event_reset_decode dev), Some r.2)
           end)
      else
        match parser with
        | None => ret (-EIO, None, Some out)
        | Some dev =>
            r <- snd_midi_event_decode dev msg 10 ev;;
            let '(res, dev) := r in
            if res <? 0 then ret (res, Some dev, Some out)
            else
              (bytes <- memory_at msg (Z.to_nat res);;
               let '(res, out) := dump_midi out bytes in
               if res <? 0 then ret (res, Some (snd_midi_event_reset_decode dev), Some out)
               else ret (0, Some dev, Some out))
        end
  end.
End Output.
