(* ===== verification/SeqMidiParse.v ===== *)
(** * SeqMidiParse: parsing MIDI input

    The input loops of SeqMidi.v against a parser that takes one byte at a time: how the
    stream is cut into reads does not matter, and the coder stays within its buffer whatever
    bytes arrive. *)

From S2P Require Import Prelude SeqEvent SeqCells SeqMemory SeqMidi.
Open Scope Z_scope.
Open Scope state_scope.

(** ** Byte accesses *)

Lemma wp_load_byte a b (Q : Z -> seqmem -> Prop) m : m_bytes m !! a = Some b -> Q b m -> wp (load a) Q m.
Proof. unfold wp, load. by intros ->. Qed.

Lemma wp_store_byte a b (Q : unit -> seqmem -> Prop) m :
  is_Some (m_bytes m !! a) -> Q tt (with_byte a b m) -> wp (store a b) Q m.
Proof. intros [x Hx] HQ. apply wp_bind, (wp_load_byte _ x); done. Qed.

(** The [n] bytes from [a] are there. *)
Definition mapped (m : seqmem) (a n : Z) : Prop := forall i, 0 <= i < n -> is_Some (m_bytes m !! (a + i)).

Lemma mapped_with_byte m a n b c : mapped m a n -> mapped (with_byte b c m) a n.
Proof.
  intros H i Hi. simpl. destruct (decide (b = a + i)) as [-> | ?].
  - rewrite lookup_insert_eq. by eexists.
  - rewrite lookup_insert_ne by done. by apply H.
Qed.

(** Memory apart from the [n] bytes at [a] is unchanged. *)
Definition within (a n : Z) (m m' : seqmem) : Prop :=
  m_cells m' = m_cells m /\ m_pools m' = m_pools m /\
  forall b, ~ (a <= b < a + n) -> m_bytes m' !! b = m_bytes m !! b.

Lemma within_refl a n m : within a n m m.
Proof. done. Qed.

Lemma within_trans a n m1 m2 m3 : within a n m1 m2 -> within a n m2 m3 -> within a n m1 m3.
Proof.
  intros (A1 & A2 & A3) (B1 & B2 & B3). split_and!; [congruence | congruence |].
  intros b Hb. by rewrite B3, A3.
Qed.

Lemma within_byte a n m i c : 0 <= i < n -> within a n m (with_byte (a + i) c m).
Proof. intros Hi. split_and!; [done | done |]. intros b Hb. apply lookup_insert_ne. lia. Qed.

(** ** One byte at a time *)

Section Pump.
Context {A : Type} (port : Z) (dispatch : A -> snd_seq_event -> M A).
Implicit Types (a : A) (dev : snd_midi_event) (ev : snd_seq_event) (m : seqmem).

Fixpoint pump a dev ev (bs : list Z) : M (A * snd_midi_event * snd_seq_event) :=
  match bs with
  | [] => ret (a, dev, ev)
  | c :: bs =>
      r <- snd_midi_event_encode_byte dev c (ev <| ev_type := EVENT_NONE |>);;
      let '(rc, dev, ev) := r in
      if (rc =? 0) || (ev_type ev =? EVENT_NONE) then pump a dev ev bs
      else (a <- send_on port dispatch a ev;; pump a dev zero_event bs)
  end.

Lemma pump_app a dev ev xs ys m :
  pump a dev ev (xs ++ ys) m = (r <- pump a dev ev xs;; let '(a, dev, ev) := r in pump a dev ev ys) m.
Proof.
  revert a dev ev m. induction xs as [| c xs IH]; intros; cbn [pump app]; [done |].
  unfold bind. destruct (snd_midi_event_encode_byte _ _ _ _) as [[[[rc d] e] m'] |]; [| done].
  destruct (_ || _); [apply IH |]. destruct (send_on _ _ _ _ _) as [[? ?] |]; [apply IH | done].
Qed.

(** A byte that completes no event leaves the event alone. *)
Lemma encode_byte_pending dev c ev m rc dev' ev' m' :
  snd_midi_event_encode_byte dev c ev m = Some ((rc, dev', ev'), m') -> rc = 1 \/ rc = 0 /\ ev' = ev.
Proof.
  unfold snd_midi_event_encode_byte, bind, ret. intros E.
  repeat case_match; simplify_eq; auto.
Qed.

Lemma set_type_id ev t : ev_type ev = t -> ev <| ev_type := t |> = ev.
Proof. intros <-. by destruct ev. Qed.

(** Every call takes at least a byte. *)
Lemma encode_loop_count bs dev ev k m n d e m' :
  encode_loop dev bs ev k m = Some ((n, d, e), m') -> 0 <= n -> bs <> [] -> k + 1 <= n.
Proof.
  revert dev ev k m. induction bs as [| c bs IH]; intros dev ev k m; [done |].
  cbn [encode_loop]. unfold bind, ret. destruct (snd_midi_event_encode_byte _ _ _ _) as [[[[rc d1] e1] m1] |] eqn:E; [| done].
  apply encode_byte_pending in E as [-> | [-> ->]]; cbn [Z.ltb Z.compare].
  - intros [= <- _ _ _] _ _. lia.
  - intros E H _. destruct bs as [| c' bs]; [injection E as <- _ _ _; lia |].
    pose proof (IH _ _ _ _ E H ltac:(done)). lia.
Qed.

(** What [parse_loop] does with the result of a call that began [k] bytes ahead of [bs]. *)
Definition after_call (fuel : nat) a bs k (r : Z * snd_midi_event * snd_seq_event)
    : M (A * snd_midi_event * snd_seq_event) :=
  let '(count, dev, ev) := r in
  if count <? 0 then ret (a, dev, ev)
  else
    let rest := drop (Z.to_nat (count - k)) bs in
    if negb (ev_type ev =? EVENT_NONE) then
      (a <- send_on port dispatch a ev;; parse_loop port dispatch fuel a dev zero_event rest)
    else parse_loop port dispatch fuel a dev ev rest.

Lemma encode_loop_pump fuel a bs : 
  (forall a dev ev bs m, (length bs <= fuel)%nat -> parse_loop port dispatch fuel a dev ev bs m = pump a dev ev bs m) ->
  forall k dev ev m, bs <> [] -> (length bs <= S fuel)%nat -> 0 <= k ->
  (r <- encode_loop dev bs (ev <| ev_type := EVENT_NONE |>) k;; after_call fuel a bs k r) m = pump a dev ev bs m.
Proof.
  intros IH. induction bs as [| c bs IHb]; intros k dev ev m Hne Hf Hk; [done |].
  cbn [encode_loop pump]. unfold bind.
  destruct (snd_midi_event_encode_byte _ _ _ _) as [[[[rc d] e] m'] |] eqn:E; [| done].
  apply encode_byte_pending in E as [-> | [-> ->]]; cbn [Z.ltb Z.compare Z.eqb].
  - cbn [ret after_call]. rewrite (proj2 (Z.ltb_ge _ _)) by lia.
    replace (Z.to_nat (k + 1 - k)) with 1%nat by lia. cbn [drop orb]. simpl in Hf.
    destruct (ev_type e =? EVENT_NONE); cbn [negb]; [by apply IH; lia |].
    unfold bind. destruct (send_on _ _ _ _ _) as [[? ?] |]; [apply IH; lia | done].
  - cbn [orb]. destruct bs as [| c' bs].
    + cbn [encode_loop pump ret after_call]. rewrite (proj2 (Z.ltb_ge _ _)) by lia.
      replace (Z.to_nat (k + 1 - k)) with 1%nat by lia. cbn [drop]. by destruct fuel.
    + specialize (IHb (k + 1) d ev m' ltac:(done) ltac:(simpl in *; lia) ltac:(lia)).
      transitivity (pump a d ev (c' :: bs) m'); [| by destruct ev].
      rewrite <- IHb. unfold bind. destruct (encode_loop _ _ _ _ _) as [[[[n d'] e'] m2] |] eqn:E; [| done].
      unfold after_call. destruct (n <? 0) eqn:En; [done |]. apply Z.ltb_ge in En.
      pose proof (encode_loop_count _ _ _ _ _ _ _ _ _ E En ltac:(done)).
      by replace (Z.to_nat (n - k)) with (S (Z.to_nat (n - (k + 1)))) by lia.
Qed.

Lemma parse_loop_pump fuel a dev ev bs m :
  (length bs <= fuel)%nat -> parse_loop port dispatch fuel a dev ev bs m = pump a dev ev bs m.
Proof.
  revert a dev ev bs m. induction fuel as [| fuel IH]; intros a dev ev bs m Hf.
  { by destruct bs; [| simpl in Hf; lia]. }
  destruct bs as [| c bs]; [done |]. rewrite <- (encode_loop_pump fuel a (c :: bs) IH 0) by done.
  cbn [parse_loop]. unfold snd_midi_event_encode, bind.
  destruct (encode_loop _ _ _ _ _) as [[[[n d] e] m'] |]; [| done]. unfold after_call. by rewrite Z.sub_0_r.
Qed.

Lemma input_loop_pump a dev ev reads m :
  input_loop port dispatch a dev ev reads m = pump a dev ev (concat reads) m.
Proof.
  revert a dev ev m. induction reads as [| buf reads IH]; intros; [done |].
  cbn [input_loop concat]. rewrite pump_app. unfold bind. rewrite parse_loop_pump by done.
  destruct (pump _ _ _ buf m) as [[[[? ?] ?] ?] |]; [apply IH | done].
Qed.
End Pump.

(** C35: how a MIDI stream is cut into reads makes no difference.  Whatever the reads that
    deliver the same bytes, the input handler sends on the same events, and leaves the coder
    and the memory the same. *)
Theorem input_independent_of_reads {A} port (dispatch : A -> snd_seq_event -> M A) a parser reads reads' m :
  concat reads = concat reads' ->
  snd_midi_input_event port dispatch a parser reads m = snd_midi_input_event port dispatch a parser reads' m.
Proof.
  intros E. destruct parser as [dev |]; [| done]. cbn [snd_midi_input_event]. unfold bind.
  by rewrite !input_loop_pump, E.
Qed.

Lemma input_independent_of_reads_witness :
  snd_midi_input_event 0 (fun l ev => ret (l ++ [ev])) [] (Some (MidiEvent 0 0 0 255 4 10))
    [[0x90]; [60; 100; 62]; [0]] (Seqmem ∅ ∅ (list_to_map [(10, 0); (11, 0); (12, 0); (13, 0)])) =
  snd_midi_input_event 0 (fun l ev => ret (l ++ [ev])) [] (Some (MidiEvent 0 0 0 255 4 10))
    [[0x90; 60; 100; 62; 0]] (Seqmem ∅ ∅ (list_to_map [(10, 0); (11, 0); (12, 0); (13, 0)])).
Proof. by apply (input_independent_of_reads (A := list snd_seq_event)). Defined.

(** ** The coder stays within its buffer *)

(** Between two commands, in a command that needs more bytes, in a long message. *)
Definition parser_state (dev : snd_midi_event) : Prop :=
  (me_qlen dev <= 0 /\ me_type dev <> ST_SYSEX) \/
  (0 < me_qlen dev /\ me_type dev <> ST_SYSEX /\ 0 <= me_read dev /\ me_read dev + me_qlen dev <= 3) \/
  (me_qlen dev = 1 /\ me_type dev = ST_SYSEX /\ 0 <= me_read dev < me_bufsize dev).

Record parser_wf (m : seqmem) (dev : snd_midi_event) : Prop := {
  pw_bufsize : 3 <= me_bufsize dev < 2 ^ 30;
  pw_type : 0 <= me_type dev < 24;
  pw_state : parser_state dev;
  pw_buf : mapped m (me_buf dev) (me_bufsize dev) }.

Lemma status_qlen t : 0 <= t < 24 ->
  exists s, status_event !! Z.to_nat t = Some s /\ 0 <= se_qlen s <= 2 /\ (t = ST_SYSEX -> se_qlen s = 1).
Proof.
  intros Ht. assert (Hn : (Z.to_nat t < 24)%nat) by lia. rewrite <- (Z2Nat.id t) in * by lia.
  rewrite Nat2Z.id. revert Hn. generalize (Z.to_nat t). clear. intros n Hn.
  unfold ST_SYSEX, ST_SPECIAL.
  do 24 (destruct n as [| n]; [eexists; split; [reflexivity |]; simpl; lia |]). lia.
Qed.

Lemma wp_status_at t s (Q : status_event_list -> seqmem -> Prop) m :
  status_event !! Z.to_nat t = Some s -> Q s m -> wp (status_at t) Q m.
Proof. unfold wp, status_at. by intros ->. Qed.

Lemma land_ones_bound c n : 0 <= n -> 0 <= Z.land c (Z.ones n) < 2 ^ n.
Proof. intros Hn. rewrite Z.land_ones by done. apply Z.mod_pos_bound. lia. Qed.

Lemma encode_fn_spec t s encode dev ev m :
  status_event !! t = Some s -> se_encode s = Some encode -> mapped m (me_buf dev) 3 ->
  wp (encode dev ev) (fun ev' m' => m' = m /\ ev_type ev' = ev_type ev /\ ev_flags ev' = ev_flags ev) m.
Proof.
  intros Ht He Hm.
  destruct (Hm 0 ltac:(lia)) as [b0 H0], (Hm 1 ltac:(lia)) as [b1 H1], (Hm 2 ltac:(lia)) as [b2 H2].
  do 24 (destruct t as [| t]; [injection Ht as <-; simplify_eq/=;
    unfold wp, note_event, one_param_ctrl_event, pitchbend_ctrl_event, two_param_ctrl_event,
      one_param_event, songpos_event, bind, buf_byte, load; rewrite ?H0, ?H2, ?H1, ?H2; done |]). discriminate Ht.
Qed.

(** The states after one byte. *)
Lemma take_byte_spec dev c m :
  parser_wf m dev -> 0 <= c < MIDI_CMD_COMMON_CLOCK ->
  wp (take_byte dev c) (fun dev' m' =>
    me_buf dev' = me_buf dev /\ me_bufsize dev' = me_bufsize dev /\ 0 <= me_type dev' < 24 /\
    mapped m' (me_buf dev) (me_bufsize dev) /\ within (me_buf dev) (me_bufsize dev) m m' /\
    if me_type dev' =? ST_SYSEX then me_qlen dev' = 1 /\ 0 < me_read dev' <= me_bufsize dev
    else me_qlen dev' <= 0 \/ 0 <= me_read dev' /\ me_read dev' + me_qlen dev' <= 3) m.
Proof.
  intros [Hb Ht Hs Hm] Hc. unfold take_byte, put_byte.
  assert (Put : forall i (Q : unit -> seqmem -> Prop), 0 <= i < me_bufsize dev ->
    (forall m', mapped m' (me_buf dev) (me_bufsize dev) -> within (me_buf dev) (me_bufsize dev) m m' -> Q tt m') ->
    wp (store (me_buf dev + i) c) Q m).
  { intros i Q Hi HQ. apply wp_store_byte; [by apply Hm |]. apply HQ;
      [by apply mapped_with_byte | by apply within_byte]. }
  destruct (Z.ltb_spec 0 (me_qlen dev)) as [Hq | Hq].
  - apply wp_bind, Put; [destruct Hs as [Hs | [Hs | Hs]]; lia |]. intros m1 M1 W1. apply wp_ret. simpl.
    do 5 (split; [done || lia |]). destruct Hs as [Hs | [Hs | Hs]]; destruct (Z.eqb_spec (me_type dev) ST_SYSEX); lia.
  - destruct Hs as [[_ Hs] | Hs]; [| lia].
    destruct (truth (Z.land c 0x80)).
    + apply wp_bind, Put; [lia |]. intros m1 M1 W1. cbv zeta.
      match goal with |- context [status_at ?x] => set (t := x) end.
      assert (Htt : 0 <= t < 24).
      { unfold t, ST_SPECIAL. change 0x0f with (Z.ones 4). change 0x07 with (Z.ones 3).
        pose proof (land_ones_bound c 4). pose proof (land_ones_bound (Z.shiftr c 4) 3). destruct (_ =? _); lia. }
      destruct (status_qlen t Htt) as (s & Es & Hql & Hsx).
      apply wp_bind, (wp_status_at _ s); [done |]. apply wp_ret. simpl.
      do 5 (split; [done |]). destruct (Z.eqb_spec t ST_SYSEX); [rewrite Hsx by done | right]; lia.
    + apply wp_bind, Put; [lia |]. intros m1 M1 W1.
      destruct (status_qlen (me_type dev) Ht) as (s & Es & Hql & _).
      apply wp_bind, (wp_status_at _ s); [done |]. apply wp_ret. simpl.
      do 5 (split; [done |]). rewrite (proj2 (Z.eqb_neq _ _)) by done. lia.
Qed.

(** An event that points to data points to bytes of the coder's buffer. *)
Definition from_buffer (dev : snd_midi_event) (ev : snd_seq_event) : Prop :=
  is_variable ev = true ->
  ev_type ev = EVENT_SYSEX /\ ext_ptr ev = me_buf dev /\ 1 <= ext_len ev <= me_bufsize dev.

Lemma fixed_not_variable ev : ev_flags ev = fixed_length (ev_flags ev) -> is_variable ev = false.
Proof.
  unfold is_variable, fixed_length. intros ->. rewrite <- Z.land_assoc. by rewrite Z.land_0_r.
Qed.

Lemma fixed_length_idem f : fixed_length (fixed_length f) = fixed_length f.
Proof. unfold fixed_length. by rewrite <- Z.land_assoc. Qed.

Lemma land_255 c : 0 <= c < 256 -> Z.land c 0xff = c.
Proof. intros H. change 0xff with (Z.ones 8). rewrite Z.land_ones by lia. by apply Z.mod_small. Qed.

Lemma encode_byte_spec dev c ev m :
  parser_wf m dev -> 0 <= c < 256 ->
  wp (snd_midi_event_encode_byte dev c ev) (fun r m' =>
    parser_wf m' r.1.2 /\ me_buf r.1.2 = me_buf dev /\ me_bufsize r.1.2 = me_bufsize dev /\
    within (me_buf dev) (me_bufsize dev) m m' /\
    (r.1.1 = 0 /\ r.2 = ev \/ r.1.1 = 1 /\ from_buffer dev r.2)) m.
Proof.
  intros W Hc. pose proof W as [Hb Ht Hs Hm]. unfold snd_midi_event_encode_byte.
  rewrite land_255 by done.
  assert (Fix : forall s ev', ev_flags ev' = ev_flags (set_fixed s ev) -> from_buffer dev ev').
  { intros s ev' E V. rewrite fixed_not_variable in V; [done |].
    rewrite E. cbn [ev_flags set_fixed set_field]. by rewrite fixed_length_idem. }
  destruct (Z.leb_spec MIDI_CMD_COMMON_CLOCK c) as [Hclk | Hclk].
  { destruct (status_qlen (ST_SPECIAL + c - 0xf0)) as (s & Es & _);
      [unfold MIDI_CMD_COMMON_CLOCK, ST_SPECIAL in *; lia |].
    apply wp_bind, (wp_status_at _ s); [done |]. apply wp_ret. do 3 (split; [done |]).
    split; [apply within_refl |]. right. split; [done |]. by eapply Fix. }
  apply wp_bind. eapply wp_mono; [apply take_byte_spec; [done | lia] |].
  intros d m1 (E1 & E2 & Ht1 & M1 & W1 & Hd). rewrite <- E1, <- E2 in M1, W1.
  destruct (Z.eqb_spec (me_qlen d) 0) as [Hq | Hq].
  - destruct (status_qlen (me_type d) Ht1) as (s & Es & _).
    apply wp_bind, (wp_status_at _ s); [done |].
    assert (Wd : parser_wf m1 d).
    { split; [lia | done | | done]. left.
      revert Hd. destruct (Z.eqb_spec (me_type d) ST_SYSEX); intros Hd; [lia | split; [lia | done]]. }
    apply wp_bind. destruct (se_encode s) as [encode |] eqn:Een.
    + eapply wp_mono; [eapply encode_fn_spec; try done; intros i Hi; apply M1; lia |].
      intros ev' m' (-> & _ & Ef). apply wp_ret. do 3 (split; [done || congruence |]).
      split; [congruence |]. right. split; [done |]. by eapply Fix.
    + apply wp_ret, wp_ret. do 3 (split; [done || congruence |]).
      split; [congruence |]. right. split; [done |]. by eapply Fix.
  - revert Hd. destruct (Z.eqb_spec (me_type d) ST_SYSEX) as [Hsx | Hsx]; intros Hd; cbn [andb].
    + destruct (_ || _) eqn:Eend.
      * apply wp_ret. split; [| destruct (negb _); simpl; (do 3 (split; [cbn [fst snd]; congruence |]))].
        { destruct (negb _); split; unfold parser_state; simpl; try lia; try done; left; split; [lia | done]. }
        all: right; split; [done |]; intros _; unfold ext_ptr, ext_len; simpl; split; [done |]; lia.
      * apply wp_ret. cbn [fst snd]. apply orb_false_elim in Eend as [_ Eend%Z.leb_gt].
        split; [| do 3 (split; [cbn [fst snd]; congruence |]); by left].
        split; [lia | done | | done]. right. right. split_and!; done || lia.
    + apply wp_ret. cbn [fst snd]. split; [| do 3 (split; [cbn [fst snd]; congruence |]); by left].
      split; [lia | done | | done]. destruct Hd as [Hd | Hd]; [left; split; [lia | done] |].
      destruct (Z.ltb_spec 0 (me_qlen d)); [right; left; lia | left; split; [lia | done]].
Qed.

(** ** What the receivers see: the events with the data they point to *)

Definition external (ev : snd_seq_event) : M (list Z) :=
  if is_variable ev then memory_at (ext_ptr ev) (Z.to_nat (data_len ev)) else ret [].
Definition record_event (l : list (snd_seq_event * list Z)) (ev : snd_seq_event)
    : M (list (snd_seq_event * list Z)) :=
  d <- external ev;; ret (l ++ [(ev, d)]).

Lemma readable_mapped m a n : mapped m a (Z.of_nat n) -> length (readable m a n) = n.
Proof.
  revert a. induction n as [| n IH]; intros a H; cbn [readable]; [done |].
  destruct (H 0 ltac:(lia)) as [b Hb]. rewrite Z.add_0_r in Hb. rewrite Hb. simpl. f_equal. apply IH.
  intros i Hi. replace (a + 1 + i) with (a + (i + 1)) by lia. apply H. lia.
Qed.

Lemma data_len_small ev : 0 <= ext_len ev < 2 ^ 30 -> data_len ev = ext_len ev.
Proof.
  intros H. unfold data_len. change EXT_LEN_MASK with (Z.ones 30).
  rewrite Z.land_ones by lia. by apply Z.mod_small.
Qed.

Lemma wp_external dev ev (Q : list Z -> seqmem -> Prop) m :
  parser_wf m dev -> from_buffer dev ev ->
  (is_variable ev = false -> Q [] m) ->
  (is_variable ev = true -> ev_type ev = EVENT_SYSEX -> 1 <= ext_len ev <= me_bufsize dev ->
   Q (readable m (me_buf dev) (Z.to_nat (ext_len ev))) m) ->
  wp (external ev) Q m.
Proof.
  intros W F Q1 Q2. unfold external. destruct (is_variable ev) eqn:V; [| by apply wp_ret, Q1].
  destruct (F V) as (E & -> & L). pose proof W as [Hb _ _ Hm]. rewrite data_len_small by lia.
  eapply wp_memory_at; [done | | by apply Q2]. apply readable_mapped. intros i Hi. apply Hm. lia.
Qed.

Definition sent_ok (bufsize : Z) (p : snd_seq_event * list Z) : Prop :=
  addr_client (ev_dest p.1) = ADDRESS_SUBSCRIBERS /\
  if is_variable p.1 then ev_type p.1 = EVENT_SYSEX /\ 1 <= Z.of_nat (length p.2) <= bufsize else p.2 = [].

Lemma pump_safe port bs : forall l dev ev m,
  parser_wf m dev -> Forall is_byte bs -> Forall (sent_ok (me_bufsize dev)) l ->
  wp (pump port record_event l dev ev bs) (fun r m' =>
    parser_wf m' r.1.2 /\ within (me_buf dev) (me_bufsize dev) m m' /\
    Forall (sent_ok (me_bufsize dev)) r.1.1 /\
    Z.of_nat (length r.1.1) <= Z.of_nat (length l) + Z.of_nat (length bs)) m.
Proof.
  induction bs as [| c bs IH]; intros l dev ev m W Hbs Hl; cbn [pump].
  { apply wp_ret. split; [done |]. split; [apply within_refl |]. split; [done | simpl; lia]. }
  apply Forall_cons in Hbs as [Hc Hbs]. apply wp_bind. eapply wp_mono; [by apply encode_byte_spec |].
  intros [[rc d] e] m1 (W1 & E1 & E2 & Wi & R). cbn [fst snd] in *.
  assert (Next : forall l' e', Forall (sent_ok (me_bufsize dev)) l' ->
    (length l' <= S (length l))%nat ->
    wp (pump port record_event l' d e' bs) (fun r m' =>
      parser_wf m' r.1.2 /\ within (me_buf dev) (me_bufsize dev) m m' /\
      Forall (sent_ok (me_bufsize dev)) r.1.1 /\
      Z.of_nat (length r.1.1) <= Z.of_nat (length l) + Z.of_nat (length (c :: bs))) m1).
  { intros l' e' Hl' Hlen. eapply wp_mono; [apply IH; [done | done | by rewrite E2] |].
    rewrite E1, E2. intros r m2 (? & ? & ? & ?). split; [done |]. split; [by eapply within_trans |].
    split; [done | simpl; lia]. }
  destruct (_ || _) eqn:End; [apply Next; [done | lia] |].
  apply orb_false_elim in End as [Erc _]. destruct R as [[-> _] | [_ F]]; [done |].
  apply wp_bind. unfold send_on, record_event. apply wp_bind.
  rewrite <- E2 in Hl. set (e1 := set_field _ _ (set_field _ _ e)).
  assert (F1 : from_buffer d e1). { intros V. rewrite E1, E2. by apply F. }
  apply (wp_external d); [done | done | |].
  - intros V. apply wp_ret, Next; [| rewrite length_app; simpl; lia].
    rewrite E2 in Hl. apply Forall_app. split; [done |]. constructor; [| constructor].
    split; [done |]. cbn [fst snd]. by rewrite V.
  - intros V T L. apply wp_ret, Next; [| rewrite length_app; simpl; lia].
    rewrite E2 in Hl. apply Forall_app. split; [done |]. constructor; [| constructor].
    split; [done |]. cbn [fst snd]. rewrite V, E2 in *. split; [done |]. 
    rewrite readable_mapped; [lia |]. intros i Hi. apply W1. lia.
Qed.

(** C28: the MIDI parser is safe on any input.  Whatever bytes arrive and however they are
    read, the coder writes to no byte outside its buffer (the model would crash on a foreign
    address, and the rest of the memory is as before), and every event sent on has the
    subscribers as its destination and either no external data or a system exclusive message
    of no more than the buffer. *)
Theorem midi_input_safe port dev reads m :
  parser_wf m dev -> Forall (Forall is_byte) reads ->
  exists l dev' m',
    snd_midi_input_event port record_event [] (Some dev) reads m = Some ((l, Some dev'), m') /\
    parser_wf m' dev' /\ within (me_buf dev) (me_bufsize dev) m m' /\
    Forall (sent_ok (me_bufsize dev)) l /\
    Z.of_nat (length l) <= Z.of_nat (length (concat reads)).
Proof.
  intros W Hb. assert (Hc : Forall is_byte (concat reads)) by (by apply Forall_concat).
  destruct (wp_run _ _ _ (pump_safe port (concat reads) [] dev zero_event m W Hc ltac:(constructor)))
    as ([[l d] e] & m' & E & H1 & H2 & H3 & H4).
  exists l, d, m'. split; [| done]. cbn [snd_midi_input_event].
  erewrite bind_some; [| by rewrite input_loop_pump]. done.
Qed.

Definition fresh_parser : snd_midi_event := snd_midi_event_init (MidiEvent 0 0 0 0 8 100).
Definition parser_memory : seqmem := Seqmem ∅ ∅ (list_to_map ((fun i => (i, 0)) <$> seqZ 100 32)).

Lemma fresh_parser_wf : parser_wf parser_memory fresh_parser.
Proof.
  split; [simpl; lia | simpl; lia | left; simpl; done |].
  assert (F : Forall (fun i => is_Some (m_bytes parser_memory !! (100 + i))) (seqZ 0 8)).
  { apply (bool_decide_unpack _). vm_compute. exact I. }
  rewrite Forall_forall in F. intros i Hi. apply F. apply elem_of_seqZ. simpl in Hi. lia.
Qed.

(** A status byte in the middle of a message, stray data and an endless message. *)
Lemma midi_input_safe_witness :
  exists l dev' m',
    snd_midi_input_event 0 record_event [] (Some fresh_parser)
      [[0x40; 0x90; 60; 0x80; 0xf6]; [0xf0] ++ repeat 1 30] parser_memory = Some ((l, Some dev'), m') /\
    Forall (sent_ok 8) l.
Proof.
  destruct (midi_input_safe 0 fresh_parser
    [[0x40; 0x90; 60; 0x80; 0xf6]; [0xf0] ++ repeat 1 30] parser_memory fresh_parser_wf)
    as (l & d & m & E & _ & _ & H & _).
  - repeat (constructor; [| constructor || idtac]); apply (bool_decide_unpack _); vm_compute; exact I.
  - exists l, d, m. by split.
Defined.
