(* ===== verification/SeqMidiWire.v ===== *)
(** * SeqMidiWire: events over a MIDI line

    An event sent to a MIDI port as bytes, running status included, and the bytes parsed at
    the other end: the message comes back. *)

From S2P Require Import Prelude SeqEvent SeqCells SeqMemory SeqMidi SeqMidiParse.
Open Scope Z_scope.
Open Scope state_scope.

(** ** Storing bytes *)

Fixpoint with_bytes (a : Z) (l : list Z) (m : seqmem) : seqmem :=
  match l with [] => m | b :: l => with_bytes (a + 1) l (with_byte a b m) end.

Lemma with_bytes_other a l m b :
  ~ (a <= b < a + Z.of_nat (length l)) -> m_bytes (with_bytes a l m) !! b = m_bytes m !! b.
Proof.
  revert a m. induction l as [| c l IH]; intros a m Hb; cbn [with_bytes]; [done |].
  cbn [length] in Hb. rewrite IH by lia. apply lookup_insert_ne. lia.
Qed.

Lemma with_bytes_at a l m i b :
  l !! i = Some b -> m_bytes (with_bytes a l m) !! (a + Z.of_nat i) = Some b.
Proof.
  revert a i m. induction l as [| c l IH]; intros a i m; [done |]. destruct i as [| i]; cbn [with_bytes].
  - intros [= ->]. rewrite with_bytes_other by lia. rewrite Z.add_0_r. apply lookup_insert_eq.
  - intros H. replace (a + Z.of_nat (S i)) with (a + 1 + Z.of_nat i) by lia. by apply IH.
Qed.

Lemma with_bytes_rest a l m : m_cells (with_bytes a l m) = m_cells m /\ m_pools (with_bytes a l m) = m_pools m.
Proof. revert a m. induction l as [| c l IH]; intros a m; [done |]. apply (IH (a + 1) (with_byte a c m)). Qed.

Lemma with_bytes_within a n o l m :
  a <= o -> o + Z.of_nat (length l) <= a + n -> within a n m (with_bytes o l m).
Proof.
  intros H1 H2. split_and!; try apply with_bytes_rest. intros b Hb. apply with_bytes_other. lia.
Qed.

Lemma mapped_with_bytes a n o l m : mapped m a n -> mapped (with_bytes o l m) a n.
Proof. revert o m. induction l as [| c l IH]; intros o m H; [done |]. by apply IH, mapped_with_byte. Qed.

Lemma wp_store_list a l (Q : unit -> seqmem -> Prop) m :
  mapped m a (Z.of_nat (length l)) -> Q tt (with_bytes a l m) -> wp (store_list a l) Q m.
Proof.
  revert a m. induction l as [| b l IH]; intros a m H HQ; [done |]. cbn [store_list].
  apply wp_bind, wp_store_byte.
  - destruct (H 0) as [x Hx]; [simpl; lia |]. rewrite Z.add_0_r in Hx. by eexists.
  - apply IH; [| done]. apply mapped_with_byte. intros i Hi.
    replace (a + 1 + i) with (a + (i + 1)) by lia. apply H. simpl. lia.
Qed.

Lemma readable_with_bytes a l m : readable (with_bytes a l m) a (length l) = l.
Proof.
  enough (G : forall (l l' : list Z) m, (forall i b, l !! i = Some b -> m_bytes m !! (a + Z.of_nat (length l') + Z.of_nat i) = Some b) ->
    readable m (a + Z.of_nat (length l')) (length l) = l).
  { specialize (G l [] (with_bytes a l m)). rewrite !Z.add_0_r in G. apply G. apply with_bytes_at. }
  clear l m. induction l as [| b l IH]; intros l' m H; [done |]. cbn [length readable].
  specialize (H 0%nat b eq_refl) as Hb. rewrite Z.add_0_r in Hb. rewrite Hb. f_equal.
  specialize (IH (l' ++ [b]) m). rewrite length_app in IH. simpl in IH.
  replace (a + Z.of_nat (length l' + 1)) with (a + Z.of_nat (length l') + 1) in IH by lia.
  apply IH. intros i b' Hi. rewrite <- (H (S i) b' Hi). f_equal. lia.
Qed.

(** ** Messages *)

(** The data of a message of the table's row [t]. *)
Definition in7 (v : Z) : Prop := 0 <= v < 128.
Definition message_ok (t : nat) (e : snd_seq_event) : Prop :=
  match Z.of_nat t with
  | 0 | 1 | 2 => note_channel e < 16 /\ in7 (note_note e) /\ in7 (note_velocity e)
  | 3 => control_channel e < 16 /\ in7 (control_param e) /\ in7 (control_value e)
  | 4 | 5 => control_channel e < 16 /\ in7 (control_value e)
  | 6 => control_channel e < 16 /\ -8192 <= control_value e < 8192
  | 9 | 11 => in7 (control_value e)
  | 10 => 0 <= control_value e < 16384
  | 14 | 16 | 18 | 19 | 20 | 22 | 23 => True
  | _ => False
  end.

Definition same_data (t : nat) (e e' : snd_seq_event) : Prop :=
  match Z.of_nat t with
  | 0 | 1 | 2 => note_channel e' = note_channel e /\ note_note e' = note_note e /\
                 note_velocity e' = note_velocity e
  | 3 => control_channel e' = control_channel e /\ control_param e' = control_param e /\
         control_value e' = control_value e
  | 4 | 5 | 6 => control_channel e' = control_channel e /\ control_value e' = control_value e
  | 9 | 10 | 11 => control_value e' = control_value e
  | _ => True
  end.

Lemma low7_small v : in7 v -> low7 v = v.
Proof. unfold in7, low7. intros. change 0x7f with (Z.ones 7). rewrite Z.land_ones by lia. apply Z.mod_small. lia. Qed.

Lemma low7_range v : in7 (low7 v).
Proof. unfold low7. change 0x7f with (Z.ones 7). pose proof (land_ones_bound v 7). unfold in7. lia. Qed.

Lemma high7_range v : in7 (high7 v).
Proof. unfold high7. change 0x7f with (Z.ones 7). pose proof (land_ones_bound (Z.shiftr v 7) 7). unfold in7. lia. Qed.

Lemma low7_high7 v : 0 <= v < 16384 -> high7 v * 128 + low7 v = v.
Proof.
  intros. unfold low7, high7. change 0x7f with (Z.ones 7). rewrite !Z.land_ones, Z.shiftr_div_pow2 by lia.
  Z.div_mod_to_equations. lia.
Qed.

Lemma data_bytes_spec t s e :
  status_event !! t = Some s -> message_ok t e ->
  Z.of_nat (length (data_bytes s e)) = se_qlen s /\ Forall in7 (data_bytes s e) /\
  se_event s <> EVENT_NONE /\ (se_qlen s = 0 <-> se_encode s = None) /\ 0 <= se_qlen s <= 2.
Proof.
  intros Hs Hok. do 24 (destruct t as [| t]; [injection Hs as <-; try (by destruct Hok);
    (split; [done |]; split; [repeat constructor; apply low7_range || apply high7_range |];
     split; [done |]; split; [done | simpl; lia]) |]). discriminate Hs.
Qed.

(** The command byte of a message. *)
Lemma channel_command t ch : (t < 7)%nat -> 0 <= ch < 16 ->
  let cmd := Z.lor (Z.lor 0x80 (Z.shiftl (Z.of_nat t) 4)) ch in
  0x80 <= cmd < 0xf0 /\ Z.land cmd 0x80 = 0x80 /\ Z.land cmd 0xf0 <> 0xf0 /\
  Z.land (Z.shiftr cmd 4) 0x07 = Z.of_nat t /\ Z.land cmd 0x0f = ch.
Proof.
  intros Ht Hch.
  assert (G : forallb (fun t => forallb (fun ch =>
      let cmd := Z.lor (Z.lor 0x80 (Z.shiftl (Z.of_nat t) 4)) ch in
      (0x80 <=? cmd) && (cmd <? 0xf0) && (Z.land cmd 0x80 =? 0x80) && negb (Z.land cmd 0xf0 =? 0xf0) &&
      (Z.land (Z.shiftr cmd 4) 0x07 =? Z.of_nat t) && (Z.land cmd 0x0f =? ch)) (seqZ 0 16)) (seq 0 7) = true)
    by reflexivity.
  rewrite forallb_forall in G. specialize (G t ltac:(apply in_seq; lia)). rewrite forallb_forall in G.
  specialize (G ch ltac:(apply list_elem_of_In, elem_of_seqZ; lia)).
  rewrite !andb_true_iff, negb_true_iff, Z.leb_le, Z.ltb_lt, !Z.eqb_eq, Z.eqb_neq in G.
  destruct_and! G. split_and!; done.
Qed.

Lemma message_row t s e :
  status_event !! t = Some s -> message_ok t e ->
  (t < 7)%nat \/ t ∈ [9; 10; 11; 14; 16; 18; 19; 20; 22; 23]%nat.
Proof.
  intros Hs H. apply lookup_lt_Some in Hs. simpl in Hs.
  do 24 (destruct t as [| t]; [first [left; lia | right; set_solver | by destruct H] |]). lia.
Qed.

Lemma command_facts t s e :
  status_event !! t = Some s -> message_ok t e ->
  let cmd := command (Z.of_nat t) e in
  0x80 <= cmd < 0x100 /\ Z.land cmd 0x80 = 0x80 /\ cmd <> MIDI_CMD_COMMON_SYSEX /\
  ((t < 8)%nat -> cmd < 0xf0 /\ Z.land cmd 0xf0 <> 0xf0 /\ Z.land (Z.shiftr cmd 4) 0x07 = Z.of_nat t /\
                  Z.land cmd 0x0f = Z.land (note_channel e) 0x0f) /\
  ((8 <= t)%nat -> Z.land cmd 0xf0 = 0xf0 /\ Z.land cmd 0x0f + ST_SPECIAL = Z.of_nat t /\
                   cmd = 0xf0 + (Z.of_nat t - ST_SPECIAL) /\ 9 <= Z.of_nat t < 24).
Proof.
  intros Hs Hok. destruct (message_row t s e Hs Hok) as [Ht | Ht]; unfold command.
  - assert (Hch : 0 <= Z.land (note_channel e) 0x0f < 16) by (apply (land_ones_bound _ 4); lia).
    rewrite (proj2 (Z.leb_gt _ _)) by (unfold ST_SPECIAL; lia).
    destruct (channel_command t _ Ht Hch) as (F1 & F2 & F3 & F4 & F5).
    unfold MIDI_CMD_COMMON_SYSEX. split_and!; try lia; try done.
  - repeat (apply elem_of_cons in Ht as [-> | Ht]; [vm_compute; intuition (congruence || lia) |]).
    by apply not_elem_of_nil in Ht.
Qed.

(** ** The data, back from the buffer *)

Lemma channel_low4 e : note_channel e < 16 -> Z.land (note_channel e) 0x0f = note_channel e.
Proof.
  intros H. pose proof (byte_of_range 0 (ev_d0 e) ltac:(lia)) as R. unfold is_byte in R.
  change 0x0f with (Z.ones 4). rewrite Z.land_ones by lia. apply Z.mod_small. unfold note_channel in *. lia.
Qed.

Lemma s32_u32 v : is_s32 v -> s32 (u32 v) = v.
Proof. unfold is_s32. intros. word_lia. Qed.

Ltac byte_ok := first [done | unfold is_byte in *; lia].

Lemma channel_set c : is_byte c -> set_byte 0 c 0 = word c 0 0 0.
Proof. intros Hc. change 0 with (word 0 0 0 0) at 2. by apply set_byte_word; byte_ok. Qed.

Lemma note_set c n v :
  is_byte c -> is_byte n -> is_byte v -> set_byte 2 v (set_byte 1 n (set_byte 0 c 0)) = word c n v 0.
Proof.
  intros Hc Hn Hv. rewrite channel_set by done.
  assert (set_byte 1 n (word c 0 0 0) = word c n 0 0) as -> by (apply set_byte_word; byte_ok).
  apply set_byte_word; byte_ok.
Qed.

Lemma value_back v ev : is_s32 v -> control_value (set_value v ev) = v.
Proof. apply s32_u32. Qed.

Lemma channel_back c v ev :
  ev_d0 ev = 0 -> is_byte c -> control_channel (set_value v (set_channel c ev)) = c.
Proof.
  intros E Hc. unfold control_channel, set_value, set_channel. simpl. rewrite E, channel_set by done.
  apply byte_of_word; byte_ok.
Qed.

Lemma note_back c n v ev :
  ev_d0 ev = 0 -> is_byte c -> is_byte n -> is_byte v ->
  let e := ev <| ev_d0 := set_byte 2 v (set_byte 1 n (set_byte 0 c (ev_d0 ev))) |> in
  note_channel e = c /\ note_note e = n /\ note_velocity e = v.
Proof.
  intros E Hc Hn Hv. unfold note_channel, note_note, note_velocity. simpl. rewrite E, note_set by done.
  destruct (byte_of_word c n v 0) as (? & ? & ? & _); byte_ok.
Qed.

(** The row of a given index. *)
Ltac row_data :=
  unfold same_data; match goal with |- context [Z.of_nat ?n] =>
    let z := eval compute in (Z.of_nat n) in change (Z.of_nat n) with z; cbv iota end.

Ltac data_back :=
  rewrite ?(s32_small (_ + 8192)) by range_lia; rewrite ?low7_high7 by lia; rewrite ?low7_small by (unfold in7; lia);
  first [ apply note_back; byte_ok
        | split_and?; first [done | apply channel_back; done | rewrite value_back; [lia | range_lia]] ].

Lemma encode_data t s encode dev ev e b0 m :
  status_event !! t = Some s -> message_ok t e -> se_encode s = Some encode -> ev_d0 ev = 0 ->
  m_bytes m !! (me_buf dev + 0) = Some b0 ->
  ((t < 7)%nat -> Z.land b0 0x0f = Z.land (note_channel e) 0x0f) ->
  (forall i b, data_bytes s e !! i = Some b -> m_bytes m !! (me_buf dev + 1 + Z.of_nat i) = Some b) ->
  wp (encode dev ev) (fun ev' m' => m' = m /\ ev_type ev' = ev_type ev /\ ev_flags ev' = ev_flags ev /\
                                    same_data t e ev') m.
Proof.
  intros Hs Hok He E0 H0 Hc Hd.
  assert (Bc : (t < 7)%nat -> note_channel e < 16 -> Z.land b0 0x0f = note_channel e /\ is_byte (note_channel e)).
  { intros Ht Hlt. rewrite Hc, channel_low4 by done. split; [done |]. apply byte_of_range. lia. }
  pose proof (Hd 0%nat) as D1. pose proof (Hd 1%nat) as D2.
  replace (me_buf dev + 1 + Z.of_nat 0) with (me_buf dev + 1) in D1 by lia.
  replace (me_buf dev + 1 + Z.of_nat 1) with (me_buf dev + 2) in D2 by lia.
  unfold message_ok, in7 in Hok.
  do 24 (destruct t as [| t]; [injection Hs as <-; simplify_eq/=; try (by destruct Hok);
    try specialize (D1 _ eq_refl); try specialize (D2 _ eq_refl);
    unfold wp, note_event, one_param_ctrl_event, pitchbend_ctrl_event, two_param_ctrl_event,
      one_param_event, songpos_event, bind, buf_byte, load; rewrite ?H0, ?D2, ?D1, ?D2; unfold ret;
    (split; [done |]; split; [done |]; split; [done |]); row_data;
    try (destruct (Bc ltac:(lia) ltac:(tauto)) as [Ec Bch]; rewrite Ec);
    data_back |]).
  discriminate Hs.
Qed.

(** ** Parsing one message *)

Section Parse.
Variable port : Z.
Implicit Types (l : list (snd_seq_event * list Z)) (dev : snd_midi_event) (ev e : snd_seq_event).

(** The event before a message: nothing in it yet. *)
Definition blank ev : Prop := ev <| ev_type := EVENT_NONE |> = zero_event <| ev_type := EVENT_NONE |>.

(** The event as it is sent on. *)
Definition addressed ev : snd_seq_event :=
  ev <| ev_source := Addr (addr_client (ev_source ev)) port |>
     <| ev_dest := Addr ADDRESS_SUBSCRIBERS (addr_port (ev_dest ev)) |>.

Definition received t e (ev : snd_seq_event) : Prop :=
  option_map se_event (status_event !! t) = Some (ev_type ev) /\ is_variable ev = false /\ same_data t e ev.

Lemma received_addressed t e ev : received t e ev -> received t e (addressed ev).
Proof. done. Qed.

Lemma send_fixed l ev m :
  is_variable ev = false -> send_on port record_event l ev m = Some (l ++ [(addressed ev, [])], m).
Proof.
  intros V. unfold send_on, record_event, external. fold (addressed ev).
  assert (is_variable (addressed ev) = false) as -> by done. done.
Qed.

(** A byte of data, where the command expects one. *)
Lemma take_data dev c m :
  0 < me_qlen dev -> me_type dev <> ST_SYSEX -> is_Some (m_bytes m !! (me_buf dev + me_read dev)) ->
  take_byte dev c m =
    Some (dev <| me_read := me_read dev + 1 |> <| me_qlen := me_qlen dev - 1 |>,
          with_byte (me_buf dev + me_read dev) c m).
Proof.
  intros Hq Ht [x Hx]. unfold take_byte, put_byte, store, load, bind. rewrite (proj2 (Z.ltb_lt _ _)) by done.
  rewrite Hx. cbn. by rewrite (proj2 (Z.eqb_neq _ _)).
Qed.

Lemma complete_event dev ev t s encode e b0 m (Q : Z * snd_midi_event * snd_seq_event -> seqmem -> Prop) :
  status_event !! t = Some s -> message_ok t e -> se_encode s = Some encode ->
  me_type dev = Z.of_nat t -> blank ev ->
  m_bytes m !! (me_buf dev + 0) = Some b0 ->
  ((t < 7)%nat -> Z.land b0 0x0f = Z.land (note_channel e) 0x0f) ->
  (forall i b, data_bytes s e !! i = Some b -> m_bytes m !! (me_buf dev + 1 + Z.of_nat i) = Some b) ->
  (forall ev', received t e ev' -> Q (1, dev, ev') m) ->
  wp (s <- status_at (me_type dev);;
      ev <- match se_encode s with
            | Some encode => encode dev (set_fixed s (ev <| ev_type := EVENT_NONE |>))
            | None => ret (set_fixed s (ev <| ev_type := EVENT_NONE |>))
            end;;
      ret (1, dev, ev)) Q m.
Proof.
  intros Hs Hok He Et B H0 Hc Hd HQ. apply wp_bind, (wp_status_at _ s); [by rewrite Et, Nat2Z.id |].
  rewrite He, B. apply wp_bind. eapply wp_mono; [by apply (encode_data t s encode dev _ e b0) |].
  intros ev' m' (-> & E1 & E2 & E3). apply wp_ret, HQ. split; [rewrite Hs; simpl; by rewrite E1 |].
  split; [| done]. unfold is_variable. by rewrite E2.
Qed.

Definition parsed l dev t e m (r : list (snd_seq_event * list Z) * snd_midi_event * snd_seq_event) m' : Prop :=
  exists e' rd, received t e e' /\ r = (l ++ [(e', [])], dev <| me_read := rd |> <| me_qlen := 0 |>, zero_event) /\
    within (me_buf dev) (me_bufsize dev) m m' /\ mapped m' (me_buf dev) (me_bufsize dev) /\
    m_bytes m' !! (me_buf dev + 0) = m_bytes m !! (me_buf dev + 0).

Lemma pump_data l dev t s encode e b0 ds : forall pre ev m,
  status_event !! t = Some s -> message_ok t e -> se_encode s = Some encode -> t <> 8%nat ->
  me_type dev = Z.of_nat t -> blank ev -> mapped m (me_buf dev) (me_bufsize dev) -> 3 <= me_bufsize dev ->
  m_bytes m !! (me_buf dev + 0) = Some b0 ->
  ((t < 7)%nat -> Z.land b0 0x0f = Z.land (note_channel e) 0x0f) ->
  (forall i b, pre !! i = Some b -> m_bytes m !! (me_buf dev + 1 + Z.of_nat i) = Some b) ->
  data_bytes s e = pre ++ ds -> ds <> [] ->
  let dev0 := dev <| me_read := 1 + Z.of_nat (length pre) |> <| me_qlen := Z.of_nat (length ds) |> in
  wp (pump port record_event l dev0 ev ds) (parsed l dev t e m) m.
Proof.
  induction ds as [| d ds IH]; intros pre ev m Hs Hok He H8 Et B Hm H3 H0 Hc Hpre Ed Hne; [done |]. cbv zeta.
  destruct (data_bytes_spec t s e Hs Hok) as (Hlen & H7 & HN & _ & Hq).
  rewrite Ed, length_app in Hlen. simpl in Hlen. rewrite Ed in H7. apply Forall_app in H7 as [_ H7].
  apply Forall_cons in H7 as [H7 _]. unfold in7 in H7.
  set (dev0 := set_field me_qlen _ _). cbn [pump]. apply wp_bind.
  unfold snd_midi_event_encode_byte. rewrite land_255 by lia.
  rewrite (proj2 (Z.leb_gt _ _)) by (unfold MIDI_CMD_COMMON_CLOCK; lia).
  apply wp_bind. unfold wp at 1. rewrite take_data; [| simpl; lia | simpl; unfold ST_SYSEX, ST_SPECIAL; lia | apply Hm; simpl; lia].
  set (dev1 := set_field me_qlen _ (set_field me_read _ dev0)). cbn [me_buf me_read dev0 set_field].
  set (m1 := with_byte _ d m).
  assert (Pre1 : forall i b, (pre ++ [d]) !! i = Some b -> m_bytes m1 !! (me_buf dev + 1 + Z.of_nat i) = Some b).
  { intros i b Hi. unfold m1. simpl. apply lookup_snoc_Some in Hi as [[Hi1 Hi] | [-> <-]].
    - rewrite lookup_insert_ne by lia. by apply Hpre.
    - replace (me_buf dev + 1 + Z.of_nat (length pre)) with (me_buf dev + (1 + Z.of_nat (length pre))) by lia.
      apply lookup_insert_eq. }
  assert (Hb0 : m_bytes m1 !! (me_buf dev + 0) = Some b0) by (unfold m1; simpl; by rewrite lookup_insert_ne by lia).
  assert (W1 : within (me_buf dev) (me_bufsize dev) m m1) by (apply within_byte; lia).
  destruct (Z.eqb_spec (me_qlen dev1) 0) as [Hz | Hz].
  - destruct ds as [| d' ds]; [| simpl in Hz; lia].
    apply (complete_event dev1 ev t s encode e b0); try done.
    { intros i b Hi. apply Pre1. by rewrite <- Ed. }
    intros ev' R. pose proof R as (Ety & V & _). rewrite Hs in Ety. injection Ety as Ety.
    rewrite <- Ety, (proj2 (Z.eqb_neq _ _) HN). cbn [Z.eqb orb]. apply wp_bind.
    unfold wp at 1. rewrite send_fixed by done. apply wp_ret.
    exists (addressed ev'), (1 + Z.of_nat (length pre) + 1). split; [by apply received_addressed |].
    split; [by unfold dev1, dev0; simpl |]. split; [done |]. split; [by apply mapped_with_byte |].
    by rewrite Hb0, H0.
  - rewrite (proj2 (Z.eqb_neq (me_type dev1) _)) by (simpl; unfold ST_SYSEX, ST_SPECIAL; lia).
    cbn [andb]. apply wp_ret. cbn [Z.eqb orb].
    assert (dev1 = dev <| me_read := 1 + Z.of_nat (length (pre ++ [d])) |> <| me_qlen := Z.of_nat (length ds) |>) as ->.
    { unfold dev1, dev0. rewrite length_app. destruct dev. cbn. f_equal; lia. }
    eapply wp_mono; [apply IH; try done | ].
    + by apply mapped_with_byte.
    + by rewrite <- (assoc_L (++)).
    + intros ->. simpl in Hz. lia.
    + intros r m2 (e' & rd & R & -> & W2 & M2 & E0). exists e', rd. split; [done |]. split; [done |].
      split; [by eapply within_trans |]. split; [done |]. by rewrite E0, Hb0, H0.
Qed.

(** The coder agrees with the sender on the running status. *)
Record synced (m : seqmem) dev (lastcmd : Z) : Prop := {
  sy_wf : parser_wf m dev;
  sy_idle : me_qlen dev <= 0 /\ me_type dev <> ST_SYSEX;
  sy_status : 0x80 <= lastcmd < 0xf0 ->
    m_bytes m !! (me_buf dev + 0) = Some lastcmd /\ me_type dev = Z.land (Z.shiftr lastcmd 4) 0x07 }.

Lemma synced_idle m dev : parser_wf m dev -> me_qlen dev <= 0 -> me_type dev <> ST_SYSEX -> synced m dev 0xff.
Proof. intros W Hq Ht. split; [done | done | lia]. Qed.

(** The bytes of a message. *)
Definition message_bytes (lastcmd : Z) t s e : list Z :=
  let cmd := command (Z.of_nat t) e in
  (if (Z.land cmd 0xf0 =? 0xf0) || negb (lastcmd =? cmd) then [cmd] else []) ++ data_bytes s e.

Definition parsed_message l dev t e m (r : list (snd_seq_event * list Z) * snd_midi_event * snd_seq_event) m' : Prop :=
  exists e', received t e e' /\ r.1.1 = l ++ [(e', [])] /\ blank r.2 /\
    synced m' r.1.2 (command (Z.of_nat t) e) /\ me_buf r.1.2 = me_buf dev /\ me_bufsize r.1.2 = me_bufsize dev /\
    within (me_buf dev) (me_bufsize dev) m m'.

(** After the status byte, the data. *)
Lemma pump_after_status l dev ev t s e m :
  status_event !! t = Some s -> message_ok t e -> t <> 8%nat -> parser_wf m dev -> blank ev ->
  m_bytes m !! (me_buf dev + 0) = Some (command (Z.of_nat t) e) -> data_bytes s e <> [] ->
  wp (pump port record_event l
        (dev <| me_read := 1 |> <| me_type := Z.of_nat t |> <| me_qlen := se_qlen s |>) ev (data_bytes s e))
     (parsed_message l dev t e m) m.
Proof.
  intros Hs Hok H8 [Hb Ht Hst Hm] B H0 Hne.
  destruct (data_bytes_spec t s e Hs Hok) as (Hlen & _ & _ & Hen & _).
  destruct (command_facts t s e Hs Hok) as (_ & _ & _ & Hc1 & Hc2).
  pose proof (lookup_lt_Some _ _ _ Hs) as Ht2. simpl in Ht2.
  destruct (se_encode s) as [encode |] eqn:He.
  2: { destruct (data_bytes s e); [done |]. simpl in Hlen. destruct Hen as [_ Hen]. specialize (Hen eq_refl). lia. }
  rewrite <- Hlen. set (dev1 := dev <| me_type := Z.of_nat t |>).
  eapply wp_mono; [eapply (pump_data l dev1 t s encode e _ (data_bytes s e) [] ev m); try done |].
  - simpl. lia.
  - intros Ht7. apply Hc1. lia.
  - intros r m2 (e' & rd & R & -> & W2 & M2 & E0). exists e'. split; [done |]. split; [done |].
    split; [done |]. split; [| done]. split; [split; try done; simpl; try lia | split; simpl; [lia |] |].
    + left. simpl. unfold ST_SYSEX, ST_SPECIAL. lia.
    + unfold ST_SYSEX, ST_SPECIAL. lia.
    + intros Hcmd. simpl in E0 |- *. rewrite E0, H0. split; [done |]. symmetry. apply Hc1.
      destruct (Nat.lt_ge_cases t 8) as [? | H]; [done |]. specialize (Hc2 H). unfold ST_SPECIAL in Hc2. lia.
Qed.

(** A message without data is complete with its status byte. *)
Lemma finish_fixed l dev ev t s e m (Q : _ -> seqmem -> Prop) :
  status_event !! t = Some s -> message_ok t e -> (8 <= t)%nat -> data_bytes s e = [] -> blank ev ->
  (forall e', received t e e' -> Q (l ++ [(e', [])], dev, zero_event) m) ->
  wp (if (ev_type (set_fixed s (ev <| ev_type := EVENT_NONE |>)) =? EVENT_NONE)
      then pump port record_event l dev (set_fixed s (ev <| ev_type := EVENT_NONE |>)) []
      else (a <- send_on port record_event l (set_fixed s (ev <| ev_type := EVENT_NONE |>));;
            pump port record_event a dev zero_event [])) Q m.
Proof.
  intros Hs Hok H8 Hnil B HQ. destruct (data_bytes_spec t s e Hs Hok) as (_ & _ & HN & _ & _).
  set (e1 := set_fixed s _). assert (V : is_variable e1 = false).
  { apply fixed_not_variable. change (fixed_length (ev_flags ev) = fixed_length (fixed_length (ev_flags ev))).
    by rewrite fixed_length_idem. }
  change (ev_type e1) with (se_event s). rewrite (proj2 (Z.eqb_neq _ _) HN). apply wp_bind.
  unfold wp at 1. rewrite send_fixed by done. apply wp_ret, HQ, received_addressed.
  split; [by rewrite Hs |]. split; [done |].
  unfold same_data. destruct (message_row t s e Hs Hok) as [? | Hrow]; [lia |].
  repeat (apply elem_of_cons in Hrow as [-> | Hrow];
    [first [done | injection Hs as <-; discriminate Hnil] |]).
  by apply not_elem_of_nil in Hrow.
Qed.

Lemma store_some a b m : is_Some (m_bytes m !! a) -> store a b m = Some (tt, with_byte a b m).
Proof. intros [x Hx]. unfold store, load, bind. by rewrite Hx. Qed.

Lemma status_some t s m : status_event !! t = Some s -> status_at (Z.of_nat t) m = Some (s, m).
Proof. intros Hs. unfold status_at. by rewrite Nat2Z.id, Hs. Qed.

(** The status byte of a message, taken by an idle coder. *)
Lemma take_status dev t s e m :
  status_event !! t = Some s -> message_ok t e -> me_qlen dev <= 0 -> mapped m (me_buf dev) 1 ->
  take_byte dev (command (Z.of_nat t) e) m =
    Some (dev <| me_read := 1 |> <| me_type := Z.of_nat t |> <| me_qlen := se_qlen s |>,
          with_byte (me_buf dev + 0) (command (Z.of_nat t) e) m).
Proof.
  intros Hs Hok Hq Hm. destruct (command_facts t s e Hs Hok) as (Hr & H80 & _ & Hc1 & Hc2).
  unfold take_byte. rewrite (proj2 (Z.ltb_ge _ _)), H80 by done. cbn [truth Z.eqb negb].
  assert ((if Z.land (command (Z.of_nat t) e) 240 =? 240 then Z.land (command (Z.of_nat t) e) 15 + ST_SPECIAL
    else Z.land (Z.shiftr (command (Z.of_nat t) e) 4) 7) = Z.of_nat t) as ->.
  { destruct (Nat.lt_ge_cases t 8) as [H | H].
    - destruct (Hc1 H) as (_ & N & E & _). by rewrite (proj2 (Z.eqb_neq _ _)).
    - destruct (Hc2 H) as (-> & E & _). done. }
  erewrite bind_some by (apply store_some, Hm; lia). erewrite bind_some by (by apply status_some). done.
Qed.

(** Running status: the first byte of data is taken as after the status byte. *)
Lemma take_running dev t s d m :
  status_event !! t = Some s -> me_type dev = Z.of_nat t -> t <> 8%nat -> me_qlen dev <= 0 ->
  0 < se_qlen s -> in7 d -> mapped m (me_buf dev) 3 ->
  take_byte dev d m =
  take_byte (dev <| me_read := 1 |> <| me_type := Z.of_nat t |> <| me_qlen := se_qlen s |>) d m.
Proof.
  intros Hs Et H8 Hq Hq2 Hd Hm. rewrite (take_data (set_field me_qlen _ _)); simpl;
    [| done | unfold ST_SYSEX, ST_SPECIAL; lia | apply Hm; lia].
  unfold take_byte. rewrite (proj2 (Z.ltb_ge _ _)) by done.
  assert (Z.land d 0x80 = 0) as ->.
  { unfold in7 in Hd. rewrite <- (low7_small d) by done. unfold low7. rewrite <- Z.land_assoc. apply Z.land_0_r. }
  cbn [truth Z.eqb negb]. erewrite bind_some by (apply store_some, Hm; lia).
  rewrite Et. erewrite bind_some by (by apply status_some). by rewrite <- Et.
Qed.

Lemma message_not_sysex t e : message_ok t e -> t <> 8%nat.
Proof. intros Hok ->. by destruct Hok. Qed.

Lemma no_data_system t s e :
  status_event !! t = Some s -> message_ok t e -> data_bytes s e = [] -> (8 <= t)%nat.
Proof.
  intros Hs Hok Ed. destruct (message_row t s e Hs Hok) as [Ht7 | Hr2].
  - clear -Hs Ed Ht7. do 7 (destruct t as [| t]; [injection Hs as <-; discriminate Ed |]). lia.
  - clear -Hr2. repeat (apply elem_of_cons in Hr2 as [-> | Hr2]; [lia |]). by apply not_elem_of_nil in Hr2.
Qed.

Lemma realtime_no_data t s e :
  status_event !! t = Some s -> message_ok t e -> let cmd := command (Z.of_nat t) e in
  MIDI_CMD_COMMON_CLOCK <= cmd -> (8 <= t)%nat /\ data_bytes s e = [].
Proof.
  intros Hs Hok cmd Hclk. destruct (command_facts t s e Hs Hok) as (_ & _ & _ & Hc1 & Hc2). fold cmd in Hc1, Hc2.
  assert (Hge : (8 <= t)%nat).
  { destruct (Nat.lt_ge_cases t 8) as [H | H]; [| done]. destruct (Hc1 H). unfold MIDI_CMD_COMMON_CLOCK in *. lia. }
  split; [done |]. destruct (Hc2 Hge) as (_ & _ & Ecmd & _).
  destruct (message_row t s e Hs Hok) as [? | Hr2]; [lia |]. unfold ST_SPECIAL, MIDI_CMD_COMMON_CLOCK in *.
  clear -Hs Hr2 Ecmd Hclk.
  repeat (apply elem_of_cons in Hr2 as [-> | Hr2]; [first [lia | by injection Hs as <-] |]).
  by apply not_elem_of_nil in Hr2.
Qed.

(** The three ways a message begins: a real-time byte, a status byte, running status. *)
Section Begin.
Variables (l : list (snd_seq_event * list Z)) (dev : snd_midi_event) (ev : snd_seq_event) (lastcmd : Z)
  (t : nat) (s : status_event_list) (e : snd_seq_event) (m : seqmem).
Hypothesis Hs : status_event !! t = Some s.
Hypothesis Hok : message_ok t e.
Hypothesis Hsync : synced m dev lastcmd.
Hypothesis B : blank ev.
Let cmd := command (Z.of_nat t) e.

Lemma pump_realtime :
  MIDI_CMD_COMMON_CLOCK <= cmd ->
  wp (pump port record_event l dev ev [cmd]) (parsed_message l dev t e m) m.
Proof using All.
  intros Hclk. destruct (realtime_no_data t s e Hs Hok Hclk) as [Hge Hnil].
  destruct (command_facts t s e Hs Hok) as (Hr & _ & _ & _ & Hc2). destruct (Hc2 Hge) as (_ & _ & Ecmd & Hrow).
  fold cmd in Hr, Ecmd. destruct Hsync as [W [Hi Hi2] _].
  cbn [pump]. apply wp_bind. unfold snd_midi_event_encode_byte. rewrite land_255, (proj2 (Z.leb_le _ _)) by lia.
  rewrite Ecmd.
  replace (ST_SPECIAL + (240 + (Z.of_nat t - ST_SPECIAL)) - 240) with (Z.of_nat t) by (unfold ST_SPECIAL; lia).
  apply wp_bind. unfold wp at 1. rewrite (status_some t s) by done. apply wp_ret. cbn [Z.eqb orb].
  eapply finish_fixed; [exact Hs | done | done | done | done |].
  intros e' R. exists e'. do 3 (split; [done |]). split; [| done].
  split; [done | done |]. fold cmd. intros. unfold ST_SPECIAL in *. lia.
Qed.

Lemma pump_status :
  cmd < MIDI_CMD_COMMON_CLOCK ->
  wp (pump port record_event l dev ev (cmd :: data_bytes s e)) (parsed_message l dev t e m) m.
Proof using All.
  intros Hclk. destruct Hsync as [W [Hi Hi2] _]. pose proof W as [Hb Ht _ Hm]. pose proof (message_not_sysex t e Hok) as H8.
  destruct (data_bytes_spec t s e Hs Hok) as (Hlen & _ & _ & Hen & _).
  destruct (command_facts t s e Hs Hok) as (Hr & _ & _ & _ & Hc2). fold cmd in Hr, Hc2.
  assert (W1 : within (me_buf dev) (me_bufsize dev) m (with_byte (me_buf dev + 0) cmd m)) by (apply within_byte; lia).
  cbn [pump]. apply wp_bind. unfold snd_midi_event_encode_byte. rewrite land_255, (proj2 (Z.leb_gt _ _)) by lia.
  apply wp_bind. unfold wp at 1. unfold cmd at 1.
  rewrite (take_status dev t s e) by (done || intros ? ?; apply Hm; lia). fold cmd.
  set (dev1 := set_field me_qlen _ _). set (m1 := with_byte _ _ m) in *.
  assert (Wm : parser_wf m1 dev) by (destruct W; split; try done; by apply mapped_with_byte).
  destruct (data_bytes s e) as [| d ds] eqn:Ed.
  - pose proof (no_data_system t s e Hs Hok Ed) as Hge. simpl in Hlen.
    assert (me_qlen dev1 = 0) as -> by (simpl; lia). cbn [Z.eqb].
    apply wp_bind. unfold wp at 1. change (me_type dev1) with (Z.of_nat t).
    rewrite (status_some t s) by done. rewrite (proj1 Hen) by lia. apply wp_ret. cbn [Z.eqb orb].
    eapply finish_fixed; [exact Hs | done | done | done | done |].
    intros e' R. exists e'. do 3 (split; [done |]). split; [| done].
    destruct (Hc2 Hge) as (_ & _ & Ecmd & ?).
    split; [destruct Wm; split; try done; simpl; [lia | left; simpl; unfold ST_SYSEX, ST_SPECIAL; lia] |
            simpl; unfold ST_SYSEX, ST_SPECIAL; lia |].
    fold cmd. intros. unfold ST_SPECIAL in *. lia.
  - assert (Hz : (me_qlen dev1 =? 0) = false) by (apply Z.eqb_neq; simpl in *; lia). rewrite Hz.
    rewrite (proj2 (Z.eqb_neq (me_type dev1) _)) by (simpl; unfold ST_SYSEX, ST_SPECIAL; lia).
    cbn [andb]. apply wp_ret. cbn [Z.eqb orb]. rewrite <- Ed.
    eapply wp_mono; [eapply (pump_after_status l dev _ t s e m1); try done |].
    + unfold m1. simpl. apply lookup_insert_eq.
    + by rewrite Ed.
    + intros r m2 (e' & R & E1 & E2 & E3 & E4 & E5 & E6). exists e'. do 6 (split; [done |]). by eapply within_trans.
Qed.

Lemma pump_running :
  Z.land cmd 0xf0 <> 0xf0 -> lastcmd = cmd ->
  wp (pump port record_event l dev ev (data_bytes s e)) (parsed_message l dev t e m) m.
Proof using All.
  intros F1 F2. destruct Hsync as [W [Hi _] Hst]. pose proof W as [Hb Ht _ Hm]. pose proof (message_not_sysex t e Hok) as H8.
  destruct (data_bytes_spec t s e Hs Hok) as (Hlen & H7 & _ & _ & _).
  destruct (command_facts t s e Hs Hok) as (Hr & _ & _ & Hc1 & Hc2). fold cmd in Hr, Hc1, Hc2. rewrite F2 in Hst.
  assert (Ht8 : (t < 8)%nat). { destruct (Nat.lt_ge_cases t 8) as [H | H]; [done |]. by destruct (Hc2 H). }
  destruct (Hc1 Ht8) as (Hlt & _ & Ety & _). destruct (Hst ltac:(lia)) as [H0 Etd].
  destruct (data_bytes s e) as [| d ds] eqn:Ed; [pose proof (no_data_system t s e Hs Hok Ed); lia |]. simpl in Hlen.
  assert (Run : pump port record_event l dev ev (d :: ds) m =
    pump port record_event l (dev <| me_read := 1 |> <| me_type := Z.of_nat t |> <| me_qlen := se_qlen s |>) ev (d :: ds) m).
  { cbn [pump]. unfold snd_midi_event_encode_byte, bind. apply Forall_cons in H7 as [H7 _].
    rewrite land_255 by (unfold in7 in H7; lia).
    rewrite (proj2 (Z.leb_gt _ _)) by (unfold in7, MIDI_CMD_COMMON_CLOCK in *; lia).
    by rewrite (take_running dev t s d m) by (done || congruence || lia || intros ? ?; apply Hm; lia). }
  unfold wp. rewrite Run. rewrite <- Ed. apply (pump_after_status l dev ev t s e m); try done. by rewrite Ed.
Qed.

(** A message sent by a coder that last sent [lastcmd], taken by one that is in step with it. *)
Lemma pump_message :
  wp (pump port record_event l dev ev (message_bytes lastcmd t s e)) (parsed_message l dev t e m) m.
Proof using All.
  unfold message_bytes. fold cmd. destruct (_ || _) eqn:Fresh.
  - destruct (Z.leb_spec MIDI_CMD_COMMON_CLOCK cmd) as [H | H]; [| by apply pump_status].
    destruct (realtime_no_data t s e Hs Hok H) as [_ ->]. by apply pump_realtime.
  - apply orb_false_elim in Fresh as [F1%Z.eqb_neq F2%negb_false_iff%Z.eqb_eq]. by apply pump_running.
Qed.
End Begin.

(** ** Parsing a system exclusive message *)

Definition chunk_ok (bufsize : Z) (p : snd_seq_event * list Z) : Prop :=
  ev_type p.1 = EVENT_SYSEX /\ is_variable p.1 = true /\ 1 <= Z.of_nat (length p.2) <= bufsize.

Definition sysex_form (d : list Z) : Prop :=
  exists mid, d = MIDI_CMD_COMMON_SYSEX :: mid ++ [MIDI_CMD_COMMON_SYSEX_END] /\
              Forall (fun b => 0 <= b < MIDI_CMD_COMMON_SYSEX_END) mid.

Lemma readable_snoc m a n c :
  length (readable m a n) = n ->
  readable (with_byte (a + Z.of_nat n) c m) a (n + 1) = readable m a n ++ [c].
Proof.
  revert a. induction n as [| n IH]; intros a L.
  - cbn [readable Nat.add app]. simpl. by rewrite Z.add_0_r, lookup_insert_eq.
  - cbn [readable Nat.add] in *. simpl. rewrite lookup_insert_ne by lia.
    destruct (m_bytes m !! a) as [b |]; [| done]. simpl in L. injection L as L.
    specialize (IH (a + 1) L). simpl. f_equal. rewrite <- IH. f_equal. f_equal. lia.
Qed.

Definition parsed_chunks l dev cur rest m
    (r : list (snd_seq_event * list Z) * snd_midi_event * snd_seq_event) m' : Prop :=
  exists chunks, r.1.1 = l ++ chunks /\ Forall (chunk_ok (me_bufsize dev)) chunks /\
    concat (snd <$> chunks) = cur ++ rest /\ blank r.2 /\
    synced m' r.1.2 0xff /\ me_buf r.1.2 = me_buf dev /\ me_bufsize r.1.2 = me_bufsize dev /\
    within (me_buf dev) (me_bufsize dev) m m'.

(** The event of a full buffer. *)
Lemma send_chunk l dev ev c n m (Q : list (snd_seq_event * list Z) -> Prop) :
  parser_wf m dev -> 1 <= n <= me_bufsize dev -> c = readable m (me_buf dev) (Z.to_nat n) ->
  (forall e', chunk_ok (me_bufsize dev) (e', c) -> Q (l ++ [(e', c)])) ->
  wp (send_on port record_event l
    (ev <| ev_flags := variable_length (ev_flags ev) |> <| ev_type := EVENT_SYSEX |>
        <| ev_d0 := n |> <| ev_d1 := me_buf dev |>)) (fun a m' => Q a /\ m' = m) m.
Proof.
  intros [Hb _ _ Hm] Hn -> HQ. set (e1 := set_field ev_d1 _ _). unfold send_on. fold (addressed e1).
  assert (V : is_variable (addressed e1) = true).
  { unfold is_variable, e1. cbn [addressed set_field ev_flags]. unfold variable_length.
    rewrite Z.land_lor_distr_l, <- Z.land_assoc. by rewrite Z.land_0_r. }
  unfold record_event, external. rewrite V. apply wp_bind.
  assert (ext_len (addressed e1) = n) as En by done.
  rewrite data_len_small by (rewrite En; lia). rewrite En.
  assert (L : length (readable m (me_buf dev) (Z.to_nat n)) = Z.to_nat n).
  { apply readable_mapped. intros i Hi. apply Hm. lia. }
  eapply wp_memory_at; [done | done |]. apply wp_ret. split; [| done]. apply HQ.
  split; [done |]. split; [done |]. simpl. rewrite L. lia.
Qed.

(** One byte of the message. *)
Lemma take_sysex dev c m :
  me_qlen dev = 1 -> me_type dev = ST_SYSEX -> is_Some (m_bytes m !! (me_buf dev + me_read dev)) ->
  take_byte dev c m = Some (dev <| me_read := me_read dev + 1 |>, with_byte (me_buf dev + me_read dev) c m).
Proof.
  intros Hq Ht Hx. unfold take_byte. rewrite Hq. cbn [Z.ltb Z.compare]. unfold put_byte.
  erewrite bind_some by (by apply store_some). rewrite Ht. cbn [Z.eqb ST_SYSEX ST_SPECIAL Pos.eqb].
  by destruct dev; simplify_eq/=.
Qed.

Lemma pump_sysex_rest mid : forall l dev ev m,
  parser_wf m dev -> me_qlen dev = 1 -> me_type dev = ST_SYSEX ->
  Forall (fun b => 0 <= b < MIDI_CMD_COMMON_SYSEX_END) mid -> blank ev ->
  let rest := mid ++ [MIDI_CMD_COMMON_SYSEX_END] in
  wp (pump port record_event l dev ev rest)
    (parsed_chunks l dev (readable m (me_buf dev) (Z.to_nat (me_read dev))) rest m) m.
Proof.
  induction mid as [| c mid IH]; intros l dev ev m W Hq Ht Hmid B; cbv zeta;
    pose proof W as [Hb Htr Hs Hm];
    assert (Hrd : 0 <= me_read dev < me_bufsize dev) by (destruct Hs as [? | [? | ?]]; [lia | tauto | lia]);
    assert (Hlen : length (readable m (me_buf dev) (Z.to_nat (me_read dev))) = Z.to_nat (me_read dev))
      by (apply readable_mapped; intros i Hi; apply Hm; lia).
  - cbn [app pump]. apply wp_bind. unfold snd_midi_event_encode_byte. change (Z.land MIDI_CMD_COMMON_SYSEX_END 255) with 247.
    change (MIDI_CMD_COMMON_CLOCK <=? 247) with false. cbv iota.
    apply wp_bind. unfold wp at 1. rewrite take_sysex by (done || apply Hm; lia).
    set (m1 := with_byte _ _ m). set (dev1 := set_field me_read _ dev).
    assert (W1 : parser_wf m1 (reset_encode dev1)).
    { split; simpl; [done | lia | left; done | by apply mapped_with_byte]. }
    change (me_qlen dev1) with (me_qlen dev). change (me_type dev1) with (me_type dev). rewrite Hq, Ht.
    cbn [Z.eqb ST_SYSEX ST_SPECIAL Pos.eqb andb MIDI_CMD_COMMON_SYSEX_END orb negb]. apply wp_ret. cbn [Z.eqb orb].
    match goal with |- context [ev_type ?x =? EVENT_NONE] => change (ev_type x =? EVENT_NONE) with false end.
    cbv iota. apply wp_bind. eapply wp_mono.
    { eapply (send_chunk l (reset_encode dev1) _ _ (me_read dev1) m1 (fun a => exists e', chunk_ok (me_bufsize dev) (e', _) /\ a = l ++ [(e', _)]));
        [done | simpl; lia | reflexivity | intros e' He; by exists e']. }
    intros a m' [(e' & He & ->) ->]. apply wp_ret. eexists. split; [reflexivity |].
    split; [by constructor |]. split; [| split; [done |]; split; [by apply synced_idle | split; [done | split; [done | apply within_byte; lia]]]].
    cbn [fmap list_fmap concat snd]. rewrite app_nil_r. cbn [me_buf reset_encode set_field dev1 me_read m1].
    replace (Z.to_nat (me_read dev + 1)) with (Z.to_nat (me_read dev) + 1)%nat by lia.
    unfold m1. rewrite <- (Z2Nat.id (me_read dev)) at 1 by lia. by apply readable_snoc.
  - apply Forall_cons in Hmid as [Hc Hmid]. unfold MIDI_CMD_COMMON_SYSEX_END in Hc.
    cbn [app pump]. apply wp_bind. unfold snd_midi_event_encode_byte. rewrite land_255 by lia.
    rewrite (proj2 (Z.leb_gt _ _)) by (unfold MIDI_CMD_COMMON_CLOCK; lia).
    apply wp_bind. unfold wp at 1. rewrite take_sysex by (done || apply Hm; lia).
    set (m1 := with_byte _ _ m). set (dev1 := set_field me_read _ dev).
    assert (Win : within (me_buf dev) (me_bufsize dev) m m1) by (apply within_byte; lia).
    assert (M1 : mapped m1 (me_buf dev) (me_bufsize dev)) by (by apply mapped_with_byte).
    assert (Ecur : readable m1 (me_buf dev) (Z.to_nat (me_read dev + 1)) =
                   readable m (me_buf dev) (Z.to_nat (me_read dev)) ++ [c]).
    { replace (Z.to_nat (me_read dev + 1)) with (Z.to_nat (me_read dev) + 1)%nat by lia.
      unfold m1. rewrite <- (Z2Nat.id (me_read dev)) at 1 by lia. by apply readable_snoc. }
    change (me_qlen dev1) with (me_qlen dev). change (me_type dev1) with (me_type dev). rewrite Hq, Ht.
    cbn [Z.eqb ST_SYSEX ST_SPECIAL Pos.eqb andb]. unfold MIDI_CMD_COMMON_SYSEX_END at 1 2.
    rewrite (proj2 (Z.eqb_neq c 247)) by lia. cbn [orb negb].
    destruct (Z.leb_spec (me_bufsize dev1) (me_read dev1)) as [Hfull | Hfull].
    + apply wp_ret. cbn [Z.eqb orb].
      match goal with |- context [ev_type ?x =? EVENT_NONE] => change (ev_type x =? EVENT_NONE) with false end.
      cbv iota. set (dev2 := set_field me_read _ dev1).
      assert (W2 : parser_wf m1 dev2).
      { split; simpl; [done | lia | right; right; simpl; split_and!; done || lia | done]. }
      apply wp_bind. eapply wp_mono.
      { eapply (send_chunk l dev2 _ _ (me_read dev1) m1 (fun a => exists e', chunk_ok (me_bufsize dev) (e', _) /\ a = l ++ [(e', _)]));
          [done | simpl; lia | reflexivity | intros e' He; by exists e']. }
      intros a m' [(e' & He & ->) ->]. eapply wp_mono; [apply (IH _ dev2 _ m1); try done |].
      intros r m2 (chunks & E1 & E2 & E3 & E4 & E5 & E6 & E7 & E8).
      eexists (_ :: chunks). rewrite <- (assoc_L (++)) in E1. split; [exact E1 |].
      split; [by constructor |]. split.
      { rewrite fmap_cons. cbn [concat snd]. rewrite E3.
        cbn [me_buf me_read dev2 dev1 set_field Z.to_nat readable app]. rewrite Ecur. by rewrite <- (assoc_L (++)). }
      do 4 (split; [done |]). by eapply within_trans.
    + apply wp_ret. cbn [Z.eqb orb].
      assert (W1 : parser_wf m1 dev1).
      { split; simpl; [done | lia | right; right; simpl in *; split_and!; done || lia | done]. }
      eapply wp_mono; [apply (IH _ dev1 _ m1); try done |].
      intros r m2 (chunks & E1 & E2 & E3 & E4 & E5 & E6 & E7 & E8). exists chunks.
      split; [done |]. split; [done |]. split.
      { rewrite E3. cbn [me_buf me_read dev1 set_field]. rewrite Ecur. by rewrite <- (assoc_L (++)). }
      do 4 (split; [done |]). by eapply within_trans.
Qed.
End Parse.
