(* ===== verification/SeqMidiLink.v ===== *)
(** * SeqMidiLink: what is sent over a MIDI line arrives

    The output of a port captured as a list of bytes, and read by the input of another. *)

From S2P Require Import Prelude SeqEvent SeqCells SeqMemory SeqMidi SeqMidiParse SeqMidiWire.
Open Scope Z_scope.
Open Scope state_scope.

(** An output that takes every byte. *)
#[export] Instance capture : RawMidi (list Z) := {
  raw_avail _ := INT_MAX;
  snd_rawmidi_kernel_write l b := (Z.of_nat (length b), l ++ b) }.

(** Events sent to a port, one after another: the results, the coder and what was written. *)
Fixpoint play (msg : Z) (es : list snd_seq_event) (parser : option snd_midi_event) (out : option (list Z))
    : M (list Z * option snd_midi_event * option (list Z)) :=
  match es with
  | [] => ret ([], parser, out)
  | e :: es =>
      r <- event_process_midi msg e parser out;;
      let '(res, parser, out) := r in
      rs <- play msg es parser out;;
      let '(l, parser, out) := rs in ret (res :: l, parser, out)
  end.

Lemma dump_capture out piece :
  Z.of_nat (length piece) <= INT_MAX -> dump_midi out piece = (0, out ++ piece).
Proof.
  intros H. unfold dump_midi. simpl. rewrite (proj2 (Z.ltb_ge _ _)) by done.
  by rewrite Z.ltb_irrefl.
Qed.

(** Dumping writes what expanding reads. *)
Lemma dump_expand_cells fuel : forall len cell out l m m',
  expand_cells fuel len cell m = Some (l, m') ->
  dump_cells dump_midi fuel len cell out m = Some ((0, out ++ l), m').
Proof.
  induction fuel as [| fuel IH]; intros len cell out l m m'; [done |]. cbn [expand_cells dump_cells].
  destruct (_ && _); [| by intros [= <- <-]; rewrite app_nil_r].
  unfold bind. destruct (cell_at cell m) as [[x m1] |]; [| done].
  set (p := take _ _). assert (Hp : Z.of_nat (length p) <= 28).
  { unfold p. rewrite length_take, length_bytes_of_event. lia. }
  destruct (expand_cells fuel _ _ m1) as [[rest m2] |] eqn:E; [| done]. intros [= <- <-].
  rewrite dump_capture by (unfold INT_MAX; lia). cbn [Z.ltb Z.compare].
  rewrite (IH _ _ _ _ _ _ E). by rewrite <- (assoc_L (++)).
Qed.

Lemma dump_expand e out d m :
  is_variable e = true -> is_usrptr e = false -> d <> [] ->
  snd_seq_expand_var_event false e (Z.of_nat (length d)) true 0 m = Some ((Z.of_nat (length d), d), m) ->
  snd_seq_dump_var_event dump_midi e out m = Some ((0, out ++ d), m).
Proof.
  intros V U Hd. unfold snd_seq_expand_var_event, snd_seq_dump_var_event. rewrite V, U. cbn [negb Z.ltb Z.compare].
  assert (Hl : 0 <= data_len e < 2 ^ 30).
  { unfold data_len. change EXT_LEN_MASK with (Z.ones 30). apply land_ones_bound. lia. }
  destruct (_ <? _) eqn:Ec; [by intros [= _ <-] |]. cbn [orb].
  destruct (is_chained e); cbn [negb]; unfold bind.
  - destruct (expand_cells _ _ _ m) as [[l m1] |] eqn:E; [| done]. cbn [orb]. intros [= El -> ->].
    rewrite (proj2 (Z.leb_gt _ _)) by (destruct d; [done | simpl in El; lia]). by apply dump_expand_cells.
  - destruct (memory_at _ _ m) as [[l m1] |] eqn:E; [| done]. cbn [orb]. intros [= El -> ->].
    rewrite (proj2 (Z.leb_gt _ _)) by (destruct d; [done | simpl in El; lia]).
    rewrite E. unfold ret. by rewrite dump_capture by (unfold INT_MAX; lia).
Qed.

(** ** Sending a message *)

Lemma find_status_row type t s : find_status type = Some (t, s) -> status_event !! t = Some s /\ se_event s = type.
Proof. intros H. apply list_find_Some in H as (H1 & H2 & _). done. Qed.

Lemma row_not_sysex t s e : status_event !! t = Some s -> message_ok t e -> se_event s <> EVENT_SYSEX.
Proof.
  intros Hs Hok. destruct (message_row t s e Hs Hok) as [Ht | Hrow].
  - clear -Hs Ht. do 7 (destruct t as [| t]; [by injection Hs as <- |]). lia.
  - repeat (apply elem_of_cons in Hrow as [-> | Hrow]; [by injection Hs as <- |]). by apply not_elem_of_nil in Hrow.
Qed.

Lemma process_message msg e dev out t s m :
  find_status (ev_type e) = Some (t, s) -> message_ok t e -> mapped m msg 10 ->
  exists m', event_process_midi msg e (Some dev) (Some out) m =
    Some ((0, Some (dev <| me_lastcmd := command (Z.of_nat t) e |>),
           Some (out ++ message_bytes (me_lastcmd dev) t s e)), m') /\
    within msg 10 m m' /\ mapped m' msg 10.
Proof.
  intros Hf Hok Hm. destruct (find_status_row _ _ _ Hf) as [Hs Ety].
  destruct (data_bytes_spec t s e Hs Hok) as (Hlen & _ & HN & _ & Hq).
  destruct (command_facts t s e Hs Hok) as (_ & _ & Hnx & _ & _).
  unfold event_process_midi. rewrite <- Ety, (proj2 (Z.eqb_neq _ _) (row_not_sysex t s e Hs Hok)).
  unfold snd_midi_event_decode. rewrite Hf, <- Ety, (proj2 (Z.eqb_neq _ _) HN), (proj2 (Z.eqb_neq _ _) Hnx).
  unfold message_bytes. set (cmd := command (Z.of_nat t) e) in *. set (fresh := _ || _).
  set (bytes := (if fresh then [cmd] else []) ++ data_bytes s e).
  assert (Eq : (if fresh then se_qlen s + 1 else se_qlen s) = Z.of_nat (length bytes)).
  { unfold bytes. rewrite length_app. destruct fresh; simpl; lia. }
  assert (Hb : Z.of_nat (length bytes) <= 3) by (rewrite <- Eq; destruct fresh; lia).
  rewrite Eq, Nat2Z.id, (proj2 (Z.ltb_ge _ _)) by lia. rewrite firstn_all.
  exists (with_bytes msg bytes m).
  assert (St : store_list msg bytes m = Some (tt, with_bytes msg bytes m)).
  { destruct (wp_run (store_list msg bytes) (fun _ m' => m' = with_bytes msg bytes m) m) as ([] & m' & E & ->); [| done].
    - apply wp_store_list; [| done]. intros i Hi. apply Hm. lia. }
  split; [| split; [apply with_bytes_within; lia | by apply mapped_with_bytes]].
  unfold bind. rewrite St. unfold ret. rewrite (proj2 (Z.ltb_ge _ _)) by lia.
  unfold memory_at. rewrite Nat2Z.id, readable_with_bytes, Nat.eqb_refl.
  rewrite dump_capture by (unfold INT_MAX; lia). cbn [Z.ltb Z.compare]. do 4 f_equal.
  unfold fresh. destruct (_ || _) eqn:Ef; [done |].
  apply orb_false_elim in Ef as [_ Ef%negb_false_iff%Z.eqb_eq]. rewrite <- Ef. by destruct dev.
Qed.

(** ** From one end to the other *)

(** An event, and the bytes of a system exclusive message; its data is not in the ten bytes
    of stack. *)
Definition sendable (m : seqmem) (msg : Z) (p : snd_seq_event * option (list Z)) : Prop :=
  match p.2 with
  | None => exists t s, find_status (ev_type p.1) = Some (t, s) /\ message_ok t p.1
  | Some d =>
      ev_type p.1 = EVENT_SYSEX /\ is_variable p.1 = true /\ is_usrptr p.1 = false /\ sysex_form d /\
      forall m', within msg 10 m m' ->
        snd_seq_expand_var_event false p.1 (Z.of_nat (length d)) true 0 m' = Some ((Z.of_nat (length d), d), m')
  end.

Definition arrived (bufsize : Z) (p : snd_seq_event * option (list Z)) (group : list (snd_seq_event * list Z)) : Prop :=
  match p.2 with
  | None => exists t e', group = [(e', [])] /\ received t p.1 e' /\ ev_type e' = ev_type p.1
  | Some d => Forall (chunk_ok bufsize) group /\ concat (snd <$> group) = d
  end.

Lemma sendable_within m m' msg p : within msg 10 m m' -> sendable m msg p -> sendable m' msg p.
Proof.
  intros W. unfold sendable. destruct (p.2); [| done]. intros (? & ? & ? & ? & H).
  do 4 (split; [done |]). intros m2 W2. apply H. by eapply within_trans.
Qed.

(** The bytes on the line. *)
Fixpoint wire (lastcmd : Z) (es : list (snd_seq_event * option (list Z))) : list Z :=
  match es with
  | [] => []
  | (_, Some d) :: es => d ++ wire 0xff es
  | (e, None) :: es =>
      match find_status (ev_type e) with
      | Some (t, s) => message_bytes lastcmd t s e ++ wire (command (Z.of_nat t) e) es
      | None => []
      end
  end.

Lemma play_wire msg es : forall dev out m,
  Forall (sendable m msg) es -> mapped m msg 10 ->
  exists dev' m', play msg (fst <$> es) (Some dev) (Some out) m =
    Some ((replicate (length es) 0, Some dev', Some (out ++ wire (me_lastcmd dev) es)), m').
Proof.
  induction es as [| [e [d |]] es IH]; intros dev out m Hes Hm;
    rewrite ?fmap_nil, ?fmap_cons; cbn [fst play wire].
  { exists dev, m. by rewrite app_nil_r. }
  all: apply Forall_cons in Hes as [He Hes]; unfold bind at 1.
  - destruct He as (Ety & V & U & Fd & He). simpl in Ety, V, U, He.
    destruct (IH (snd_midi_event_reset_decode dev) (out ++ d) m Hes Hm) as (dev' & m' & E).
    exists dev', m'. unfold event_process_midi. rewrite Ety. cbn [Z.eqb Pos.eqb EVENT_SYSEX]. rewrite V. cbn [negb].
    unfold bind. rewrite (dump_expand e out d); [| done | done | by destruct Fd as (? & -> & _) | by apply He].
    cbn [ret fst snd Z.ltb Z.compare]. rewrite E. by rewrite <- (assoc_L (++)).
  - destruct He as (t & s & Hf & Hok). simpl in Hf, Hok. rewrite Hf.
    destruct (process_message msg e dev out t s m Hf Hok Hm) as (m1 & E1 & W1 & M1). rewrite E1.
    assert (Hes1 : Forall (sendable m1 msg) es) by (eapply Forall_impl; [exact Hes |]; intros p; by apply sendable_within).
    destruct (IH (dev <| me_lastcmd := command (Z.of_nat t) e |>) (out ++ message_bytes (me_lastcmd dev) t s e) m1 Hes1 M1)
      as (dev' & m' & E). exists dev', m'. unfold bind. rewrite E. by rewrite <- (assoc_L (++)).
Qed.

Definition delivered port (es : list (snd_seq_event * option (list Z))) bs l dev ev m : Prop :=
  wp (pump port record_event l dev ev bs) (fun r m' => exists groups,
    Forall2 (arrived (me_bufsize dev)) es groups /\ r.1.1 = l ++ concat groups) m.

Lemma delivered_cons port p es bs1 bs2 l dev ev m :
  wp (pump port record_event l dev ev bs1) (fun r m' => exists group,
    arrived (me_bufsize dev) p group /\ r.1.1 = l ++ group /\ me_bufsize r.1.2 = me_bufsize dev /\
    delivered port es bs2 r.1.1 r.1.2 r.2 m') m ->
  delivered port (p :: es) (bs1 ++ bs2) l dev ev m.
Proof.
  intros H. unfold delivered, wp. rewrite pump_app. apply wp_bind.
  eapply wp_mono; [exact H |]. intros [[l1 d1] e1] m1 (group & A & E & B & D). cbn [fst snd] in *.
  eapply wp_mono; [exact D |]. intros r m2 (groups & As & E2). rewrite B in As.
  exists (group :: groups). split; [by constructor |]. by rewrite E2, E, <- (assoc_L (++)).
Qed.

(** The start of a system exclusive message. *)
Lemma pump_sysex port l dev ev lastcmd d m :
  synced m dev lastcmd -> blank ev -> sysex_form d ->
  wp (pump port record_event l dev ev d) (parsed_chunks l dev [] d m) m.
Proof.
  intros [W [Hi Hi2] _] B (mid & -> & Hmid). pose proof W as [Hb Ht _ Hm]. cbn [pump].
  apply wp_bind. unfold snd_midi_event_encode_byte. change (Z.land MIDI_CMD_COMMON_SYSEX 255) with 0xf0.
  change (MIDI_CMD_COMMON_CLOCK <=? 0xf0) with false. cbv iota. apply wp_bind. unfold take_byte at 1.
  rewrite (proj2 (Z.ltb_ge _ _)) by done. change (truth (Z.land 0xf0 128)) with true. cbv iota zeta.
  change (Z.land 0xf0 0xf0 =? 0xf0) with true. cbv iota.
  assert (W1 : within (me_buf dev) (me_bufsize dev) m (with_byte (me_buf dev + 0) 0xf0 m)) by (apply within_byte; lia).
  set (m1 := with_byte _ _ m) in *. unfold put_byte. apply wp_bind. unfold wp at 1.
  rewrite store_some by (apply Hm; lia). fold m1. apply wp_bind, (wp_status_at _ (StatusEvent EVENT_SYSEX 1 None None)); [done |].
  apply wp_ret. set (dev1 := set_field me_qlen _ _).
  change (me_qlen dev1 =? 0) with false. change (me_type dev1 =? ST_SYSEX) with true. cbv iota.
  change (0xf0 =? MIDI_CMD_COMMON_SYSEX_END) with false. cbn [andb orb].
  rewrite (proj2 (Z.leb_gt _ _)) by (simpl; lia). apply wp_ret. cbn [Z.eqb orb].
  assert (P1 : parser_wf m1 dev1).
  { split; simpl; [done | split; vm_compute; congruence | | by apply mapped_with_byte].
    right. right. simpl. split_and!; done || lia. }
  eapply wp_mono; [apply (pump_sysex_rest port mid l dev1 _ m1); done |].
  intros r m2 (chunks & E1 & E2 & E3 & E4 & E5 & E6 & E7 & E8). exists chunks.
  split; [done |]. split; [done |]. split.
  { rewrite E3. unfold m1. simpl. by rewrite Z.add_0_r, lookup_insert_eq. }
  do 4 (split; [done |]). by eapply within_trans.
Qed.

Lemma pump_wire port msg ms es : forall l dev ev lastcmd m,
  Forall (sendable ms msg) es -> synced m dev lastcmd -> blank ev ->
  delivered port es (wire lastcmd es) l dev ev m.
Proof.
  induction es as [| [e [d |]] es IH]; intros l dev ev lastcmd m Hes Sy B; cbn [wire].
  { exists []. split; [constructor | by rewrite app_nil_r]. }
  all: apply Forall_cons in Hes as [He Hes].
  - destruct He as (_ & _ & _ & Fd & _). apply delivered_cons.
    eapply wp_mono; [by eapply pump_sysex |].
    intros r m' (chunks & E1 & E2 & E3 & E4 & E5 & E6 & E7 & _). exists chunks.
    split; [done |]. split; [done |]. split; [done |]. by apply IH.
  - destruct He as (t & s & Hf & Hok). simpl in Hf, Hok. rewrite Hf.
    destruct (find_status_row _ _ _ Hf) as [Hs Ety]. apply delivered_cons.
    eapply wp_mono; [by apply pump_message |].
    intros r m' (e' & R & E1 & E2 & E3 & E4 & E5 & _). exists [(e', [])]. split.
    { exists t, e'. split; [done |]. split; [done |]. destruct R as [R _]. rewrite Hs in R. injection R as <-. done. }
    split; [done |]. split; [done |]. by apply IH.
Qed.

(** C20: what is sent over a MIDI line arrives.  Any sequence of channel, common and real-time
    messages and system exclusive messages, sent through a port's coder with running status
    and read at the other end in pieces of any size, arrives as the same sequence: each
    message as one event with its type, channel and values, each system exclusive message as
    one event or several, of at most a buffer each, whose data is together the message.  The
    events are those that MIDI can carry ([sendable]): values of 7 or 14 bits, and not the
    14-bit controllers, which the code decodes wrongly ([ctrl14_writes_past_count]); the line
    has room for what is sent. *)
Theorem midi_link_roundtrip port msg es sender receiver m m2 :
  Forall (sendable m msg) es -> mapped m msg 10 -> me_lastcmd sender = 0xff ->
  parser_wf m2 receiver -> me_qlen receiver <= 0 -> me_type receiver <> ST_SYSEX ->
  exists sender' out m',
    play msg (fst <$> es) (Some sender) (Some []) m =
      Some ((replicate (length es) 0, Some sender', Some out), m') /\
    forall reads, concat reads = out ->
      exists groups receiver' m2',
        snd_midi_input_event port record_event [] (Some receiver) reads m2 =
          Some ((concat groups, Some receiver'), m2') /\
        Forall2 (arrived (me_bufsize receiver)) es groups.
Proof.
  intros Hes Hm Hl W Hq Ht. destruct (play_wire msg es sender [] m Hes Hm) as (sender' & m' & E).
  exists sender', (wire (me_lastcmd sender) es), m'. split; [done |]. intros reads Er. rewrite Hl in Er.
  destruct (wp_run _ _ _ (pump_wire port msg m es [] receiver zero_event 0xff m2 Hes
    (synced_idle _ _ W Hq Ht) eq_refl)) as ([[l d] e] & m2' & E2 & groups & A & El).
  exists groups, d, m2'. split; [| done]. cbn [snd_midi_input_event].
  erewrite bind_some; [| by rewrite input_loop_pump, Er]. simpl in El. by rewrite El.
Qed.

(** ** Two notes, a message of ten bytes and a bend *)

Definition short_event (type d0 d1 d2 : Z) : snd_seq_event :=
  Event type 0 0 0 (Timestamp 0 0) (Addr 0 0) (Addr 0 0) d0 d1 d2.

Definition ten_bytes : list Z := [0xf0; 1; 2; 3; 4; 5; 6; 7; 8; 0xf7].
Definition sender_memory : seqmem :=
  Seqmem ∅ ∅ (list_to_map (((fun i => (i, 0)) <$> seqZ 500 10) ++ zip (seqZ 1000 10) ten_bytes)).
Definition four_events : list (snd_seq_event * option (list Z)) :=
  [(short_event EVENT_NOTEON (word 3 60 100 0) 0 0, None);
   (short_event EVENT_NOTEON (word 3 64 90 0) 0 0, None);
   ((short_event EVENT_SYSEX 10 1000 0) <| ev_flags := EVENT_LENGTH_VARIABLE |>, Some ten_bytes);
   (short_event EVENT_PITCHBEND 3 0 (u32 (-300)), None)].

Lemma readable_lookup m m' a n :
  (forall i, 0 <= i < Z.of_nat n -> m_bytes m' !! (a + i) = m_bytes m !! (a + i)) ->
  readable m' a n = readable m a n.
Proof.
  revert a. induction n as [| n IH]; intros a H; [done |]. cbn [readable].
  pose proof (H 0 ltac:(lia)) as H0. rewrite Z.add_0_r in H0. rewrite H0. destruct (m_bytes m !! a); [| done].
  f_equal. apply IH. intros i Hi. replace (a + 1 + i) with (a + (i + 1)) by lia. apply H. lia.
Qed.

Lemma expand_flat e d m :
  is_variable e = true -> is_usrptr e = false -> is_chained e = false -> data_len e = Z.of_nat (length d) ->
  readable m (ext_ptr e) (length d) = d ->
  snd_seq_expand_var_event false e (Z.of_nat (length d)) true 0 m = Some ((Z.of_nat (length d), d), m).
Proof.
  intros V U C L E. unfold snd_seq_expand_var_event, bind, memory_at. rewrite V, U, C, L. cbn [negb Z.ltb Z.compare].
  by rewrite Z.ltb_irrefl, Nat2Z.id, E, Nat.eqb_refl.
Qed.

Lemma four_events_sendable : Forall (sendable sender_memory 500) four_events.
Proof.
  unfold four_events. repeat (apply Forall_cons; split); [| | | | by apply Forall_nil].
  - eexists _, _. split; [reflexivity |]. vm_compute. intuition congruence.
  - eexists _, _. split; [reflexivity |]. vm_compute. intuition congruence.
  - split; [done |]. split; [done |]. split; [done |]. split.
    { exists [1; 2; 3; 4; 5; 6; 7; 8]. split; [done |]. repeat constructor; vm_compute; congruence. }
    intros m' (_ & _ & W). apply expand_flat; try done.
    rewrite (readable_lookup sender_memory); [reflexivity |]. intros i Hi. apply W.
    change (ext_ptr _) with 1000. lia.
  - eexists _, _. split; [reflexivity |]. vm_compute. intuition congruence.
Qed.

Lemma midi_link_roundtrip_witness :
  exists sender' out m' groups receiver' m2',
    play 500 (fst <$> four_events) (Some fresh_parser) (Some []) sender_memory =
      Some (([0; 0; 0; 0], Some sender', Some out), m') /\
    snd_midi_input_event 0 record_event [] (Some fresh_parser) [out] parser_memory =
      Some ((concat groups, Some receiver'), m2') /\
    Forall2 (arrived 8) four_events groups.
Proof.
  destruct (midi_link_roundtrip 0 500 four_events fresh_parser fresh_parser sender_memory parser_memory
    four_events_sendable) as (s & out & m & E & R).
  - assert (F : Forall (fun i => is_Some (m_bytes sender_memory !! (500 + i))) (seqZ 0 10)).
    { apply (bool_decide_unpack _). vm_compute. exact I. }
    rewrite Forall_forall in F. intros i Hi. apply F. by apply elem_of_seqZ.
  - reflexivity.
  - exact fresh_parser_wf.
  - by vm_compute.
  - by vm_compute.
  - destruct (R [out] (app_nil_r out)) as (groups & r & m2 & E2 & A). exists s, out, m, groups, r, m2.
    split; [exact E |]. split; [exact E2 | exact A].
Defined.

(** ** What the coder gets wrong *)

(** A controller above 31 sent as a 14-bit one: the third byte goes to the fifth place, past
    the [count] bytes of the caller, and the third is left as it was. *)
Lemma ctrl14_writes_past_count dev buf ev m :
  32 <= control_param ev -> mapped m buf 5 ->
  exists dev' m', extra_decode_ctrl14 dev buf 3 ev m = Some ((3, dev'), m') /\
    m_bytes m' !! (buf + 4) = Some (low7 (control_value ev)) /\ m_bytes m' !! (buf + 2) = m_bytes m !! (buf + 2).
Proof.
  intros Hp Hm. unfold extra_decode_ctrl14. rewrite (proj2 (Z.ltb_ge _ _)) by done. cbn [Z.ltb Z.compare Pos.compare Pos.compare_cont].
  assert (Hm0 : is_Some (m_bytes m !! buf)). { destruct (Hm 0 ltac:(lia)) as [x Hx]. rewrite Z.add_0_r in Hx. by eexists. }
  eexists _, _. erewrite bind_some by (by apply store_some).
  erewrite bind_some by (apply store_some, mapped_with_byte with (n := 5); [done | lia]).
  erewrite bind_some by (apply store_some, mapped_with_byte with (n := 5); [by apply mapped_with_byte | lia]).
  split; [reflexivity |]. simpl. split; [apply lookup_insert_eq |]. by rewrite !lookup_insert_ne by lia.
Qed.

(** A message refused for lack of room is sent without its status byte the next time. *)
Lemma decode_retry_loses_status :
  let ev := short_event EVENT_NOTEON (word 3 60 100 0) 0 0 in
  option_map fst
    ((r1 <- snd_midi_event_decode fresh_parser 500 2 ev;;
      r2 <- snd_midi_event_decode r1.2 500 3 ev;;
      l <- memory_at 500 2;; ret (r1.1, r2.1, l)) sender_memory) = Some (-ENOMEM, 2, [60; 100]).
Proof. vm_compute. reflexivity. Qed.

(** A status byte inside a message is taken as its data. *)
Lemma status_inside_message_is_data :
  option_map (fun r => (fun p => (ev_type p.1, note_velocity p.1)) <$> r.1.1)
    (snd_midi_input_event 0 record_event [] (Some fresh_parser) [[0x90; 60; 0x80]] parser_memory) =
  Some [(EVENT_NOTEON, 0x80)].
Proof. vm_compute. reflexivity. Qed.
