(* ===== verification/SeqFifo.v ===== *)
(** * SeqFifo: the queue of events a client reads

    alsa/core/seq/seq_fifo.c, and the reading loop of a client, [snd_seq_read] of
    seq_clientmgr.c.  A FIFO has a pool of its own; an event put in is copied into its
    cells.  Each function holds the FIFO's lock while it works on the list, so it is one
    step; the use lock only delays [clear] and [resize], and is left out. *)

From S2P Require Import Prelude SeqEvent SeqCells SeqMemory.
Open Scope Z_scope.
Open Scope state_scope.

(** [fifo_t] *)
Record fifo := Fifo {
  ff_pool : Z; ff_head : Z; ff_tail : Z; ff_cells : Z;
  ff_overflow : Z;
  ff_sleepers : bool; ff_wakeups : Z }.   (* input_sleep *)
#[export] Instance settable_fifo : Settable fifo :=
  fun f => Fifo (ff_pool f) (ff_head f) (ff_tail f) (ff_cells f) (ff_overflow f) (ff_sleepers f) (ff_wakeups f).

Definition wake_input (f : fifo) : fifo :=
  if ff_sleepers f then f <| ff_wakeups := ff_wakeups f + 1 |> else f.

(** ** Taking cells out and putting them back *)

Definition fifo_cell_out (f : fifo) : M (Z * fifo) :=
  let cell := ff_head f in
  if cell =? NULL then ret (NULL, f)
  else
    (x <- cell_at cell;;
     set_next cell NULL;;;
     ret (cell, f <| ff_head := c_next x |>
                  <| ff_tail := if ff_tail f =? cell then NULL else ff_tail f |>
                  <| ff_cells := ff_cells f - 1 |>)).

Definition snd_seq_fifo_cell_putback (f : fifo) (cell : Z) : M fifo :=
  if cell =? NULL then ret f
  else
    (set_next cell (ff_head f);;;
     ret (f <| ff_head := cell |> <| ff_cells := ff_cells f + 1 |>)).

Definition snd_seq_fifo_poll_wait (f : fifo) : bool := 0 <? ff_cells f.

Section Fifo.
(** What happens while a thread sleeps on a pool's [output_sleep] and on the FIFO's
    [input_sleep]: whether a signal is pending when it wakes up, and the state it finds. *)
Context (sleep : Z -> seqmem -> bool * seqmem) (sleep_input : fifo -> seqmem -> bool * fifo * seqmem).

Definition sleep_fifo (f : fifo) : M (bool * fifo) := fun m => Some (sleep_input f m).

(** The error, the cell and the FIFO. *)
Fixpoint snd_seq_fifo_cell_out (fuel : nat) (f : fifo) (nonblock : bool) : M (Z * Z * fifo) :=
  match fuel with
  | O => crash
  | S fuel =>
      cf <- fifo_cell_out f;;
      let '(cell, f) := cf in
      if cell =? NULL then
        if (nonblock : bool) then ret (-EAGAIN, NULL, f)
        else
          (sf <- sleep_fifo f;;
           let '(signal, f) := sf in
           if (signal : bool) then ret (-ERESTARTSYS, NULL, f)
           else snd_seq_fifo_cell_out fuel f nonblock)
      else ret (0, cell, f)
  end.

(** [while ((cell = fifo_cell_out(f)) != NULL)] *)
Fixpoint drain_fifo (fuel : nat) (f : fifo) : M fifo :=
  match fuel with
  | O => crash
  | S fuel =>
      cf <- fifo_cell_out f;;
      if cf.1 =? NULL then ret cf.2
      else (snd_seq_cell_free cf.1;;; drain_fifo fuel cf.2)
  end.

Definition snd_seq_fifo_clear (f : fifo) : M fifo := fun m =>
  drain_fifo (chain_fuel m) (f <| ff_overflow := 0 |>) m.

Definition snd_seq_fifo_event_in (fuel : nat) (f : fifo) (event : snd_seq_event) : M (Z * fifo) :=
  rc <- snd_seq_event_dup sleep fuel (ff_pool f) event true;;
  let '(err, cell) := rc in
  if err <? 0 then
    ret (err, if err =? -ENOMEM then f <| ff_overflow := ff_overflow f + 1 |> else f)
  else
    (when (negb (ff_tail f =? NULL)) (set_next (ff_tail f) cell);;;
     let f := f <| ff_tail := cell |>
                <| ff_head := if ff_head f =? NULL then cell else ff_head f |>
                <| ff_cells := ff_cells f + 1 |> in
     ret (0, wake_input f)).

(** ** Creation, deletion and a new size *)

(** What the other threads do in a tick, for the pools that wait for their cells. *)
Context (idle : seqmem -> seqmem) `{SeqAlloc}.

(** [record] is whether the [fifo_t] itself was allocated. *)
Definition snd_seq_fifo_new (record : bool) (poolsize : Z) : M (option fifo) :=
  if negb record then ret None
  else
    (pool <- snd_seq_pool_new poolsize;;
     if pool =? NULL then ret None
     else
       (err <- snd_seq_pool_init pool;;
        if err <? 0 then (snd_seq_pool_delete idle pool;;; ret None)
        else ret (Some (Fifo pool NULL NULL 0 0 false 0)))).

Definition snd_seq_fifo_delete (f : fifo) : M unit :=
  f <- snd_seq_fifo_clear f;;
  let f := wake_input f in
  when (negb (ff_pool f =? NULL))
    (snd_seq_pool_done idle (ff_pool f);;; snd_seq_pool_delete idle (ff_pool f);;; ret tt).

(** [for (cell = oldhead; cell; cell = next)] *)
Fixpoint free_old (fuel : nat) (cell : Z) : M unit :=
  match fuel with
  | O => crash
  | S fuel =>
      if cell =? NULL then ret tt
      else (x <- cell_at cell;; snd_seq_cell_free cell;;; free_old fuel (c_next x))
  end.

Definition snd_seq_fifo_resize (f : fifo) (poolsize : Z) : M (Z * fifo) := fun m =>
  (if ff_pool f =? NULL then ret (-EINVAL, f)
   else
     (newpool <- snd_seq_pool_new poolsize;;
      if newpool =? NULL then ret (-ENOMEM, f)
      else
        (err <- snd_seq_pool_init newpool;;
         if err <? 0 then (snd_seq_pool_delete idle newpool;;; ret (-ENOMEM, f))
         else
           (free_old (chain_fuel m) (ff_head f);;;
            snd_seq_pool_delete idle (ff_pool f);;;
            ret (0, f <| ff_pool := newpool |> <| ff_head := NULL |> <| ff_tail := NULL |>
                      <| ff_cells := 0 |>))))) m.

(** ** Reading *)

(** What is copied to the user's buffer: an offset and bytes, when the buffer can be written. *)
Section Read.
Context (user_ok : bool) (nonblocking : bool).

Definition copy_out (offset : Z) (bytes : list Z) : list (Z * list Z) :=
  if user_ok then [(offset, bytes)] else [].

(** The event as the reader sees it: its length without the internal flags. *)
Definition read_header (e : snd_seq_event) : snd_seq_event := e <| ev_d0 := data_len e |>.

(** [while (count >= sizeof(snd_seq_event_t))]: the error, a cell that was not read to its
    end, and the result so far. *)
Fixpoint read_loop (fuel sfuel : nat) (f : fifo) (count offset result : Z) (copies : list (Z * list Z))
    : M (Z * Z * Z * list (Z * list Z) * fifo) :=
  match fuel with
  | O => crash
  | S fuel =>
      if count <? SEQ_EVENT_SIZE then ret (0, NULL, result, copies, f)
      else
        (r <- snd_seq_fifo_cell_out sfuel f (nonblocking || (0 <? result));;
         let '(err, cell, f) := r in
         if err <? 0 then ret (err, NULL, result, copies, f)
         else
           (x <- cell_at cell;;
            let e := c_event x in
            if is_variable e then
              if negb user_ok then ret (-EFAULT, cell, result, copies, f)
              else
                let copies := copies ++ copy_out offset (bytes_of_event (read_header e)) in
                let count := count - SEQ_EVENT_SIZE in
                let offset := offset + SEQ_EVENT_SIZE in
                (d <- snd_seq_expand_var_event user_ok e count false SEQ_EVENT_SIZE;;
                 if d.1 <? 0 then ret (d.1, cell, result, copies, f)
                 else
                   (snd_seq_cell_free cell;;;
                    read_loop fuel sfuel f (count - d.1) (offset + d.1) (result + d.1 + SEQ_EVENT_SIZE)
                      (copies ++ copy_out offset d.2)))
            else
              (snd_seq_cell_free cell;;;
               read_loop fuel sfuel f (count - SEQ_EVENT_SIZE) (offset + SEQ_EVENT_SIZE)
                 (result + SEQ_EVENT_SIZE) (copies ++ copy_out offset (bytes_of_event e)))))
  end.

(** [input] is whether the file was opened for input, and [accept] the client's flag;
    [area_ok] is the result of [verify_area]. *)
Definition snd_seq_read (sfuel : nat) (input area_ok accept : bool) (fp : option fifo) (count : Z)
    : M (Z * list (Z * list Z) * option fifo) :=
  if negb input then ret (-ENXIO, [], fp)
  else if negb area_ok then ret (-EFAULT, [], fp)
  else
    match fp with
    | None => ret (-ENXIO, [], fp)
    | Some f =>
        if negb accept then ret (-ENXIO, [], fp)
        else if 0 <? ff_overflow f then
          (f <- snd_seq_fifo_clear f;; ret (-ENOSPC, [], Some f))
        else
          (r <- read_loop (S (Z.to_nat (count / SEQ_EVENT_SIZE))) sfuel f count 0 0 [];;
           let '(err, cell, result, copies, f) := r in
           f <- (if err <? 0 then snd_seq_fifo_cell_putback f cell else ret f);;
           let err := if (err =? -EAGAIN) && (0 <? result) then 0 else err in
           ret (if err <? 0 then err else result, copies, Some f))
    end.
End Read.
End Fifo.
