(* ===== verification/SeqFifoSpec.v ===== *)
(** * SeqFifoSpec: a client's FIFO is a bounded queue

    What [snd_seq_fifo_event_in] and [snd_seq_read] promise, as operations on a list of
    events with their data, and the representation of that list in the memory of cells. *)

From S2P Require Import Prelude SeqEvent SeqCells SeqMemory SeqCopy SeqFifo.
Open Scope Z_scope.
Open Scope state_scope.

(** ** The specification *)

(** An event and its external data. *)
Definition item : Type := snd_seq_event * list Z.

(** The FIFO: what is queued, how many cells of the pool are free, and the pool's size. *)
Record spec := Spec { sp_items : list item; sp_free : Z; sp_total : Z; sp_overflow : Z }.

Definition cost (it : item) : Z := 1 + event_cells it.1.
Definition costs (its : list item) : Z := foldr (fun it n => cost it + n) 0 its.

Definition spec_in (s : spec) (e : snd_seq_event) (bs : list Z) : Z * spec :=
  if sp_total s <=? event_cells e then
    (-ENOMEM, Spec (sp_items s) (sp_free s) (sp_total s) (sp_overflow s + 1))
  else if sp_free s <=? event_cells e then (-EAGAIN, s)
  else (0, Spec (sp_items s ++ [(e, bs)]) (sp_free s - cost (e, bs)) (sp_total s) (sp_overflow s)).

(** The room an event takes in the reader's buffer. *)
Definition data_room (e : snd_seq_event) : Z :=
  if is_variable e then (data_len e + SEQ_EVENT_SIZE - 1) / SEQ_EVENT_SIZE * SEQ_EVENT_SIZE else 0.

(** Reading: the error, the bytes used, what is delivered and what stays. *)
Fixpoint spec_take (count result : Z) (its : list item) : Z * Z * list item * list item :=
  if count <? SEQ_EVENT_SIZE then (0, result, [], its)
  else
    match its with
    | [] => (-EAGAIN, result, [], [])
    | it :: rest =>
        let need := SEQ_EVENT_SIZE + data_room it.1 in
        if count <? need then (-EAGAIN, result, [], its)
        else
          let '(err, r, dl, rest) := spec_take (count - need) (result + need) rest in
          (err, r, it :: dl, rest)
    end.

(** A read that stops at the only event left for lack of room is not specified. *)
Definition spec_read (s : spec) (count : Z) : option (Z * list item * spec) :=
  if 0 <? sp_overflow s then
    Some (-ENOSPC, [], Spec [] (sp_free s + costs (sp_items s)) (sp_total s) 0)
  else
    let '(err, r, dl, rest) := spec_take count 0 (sp_items s) in
    if (err =? -EAGAIN) && (length rest =? 1)%nat then None
    else Some (if (err <? 0) && negb (0 <? r) then err else r, dl,
               Spec rest (sp_free s + costs dl) (sp_total s) 0).

Inductive fifo_op := In (e : snd_seq_event) (bs : list Z) | Read (count : Z).

Definition spec_step (s : spec) (op : fifo_op) : option (Z * list item * spec) :=
  match op with
  | In e bs => let '(r, s) := spec_in s e bs in Some (r, [], s)
  | Read count => spec_read s count
  end.

Fixpoint spec_run (s : spec) (ops : list fifo_op) : option (list (Z * list item) * spec) :=
  match ops with
  | [] => Some ([], s)
  | op :: ops =>
      match spec_step s op with
      | None => None
      | Some (r, its, s) => option_map (fun p => ((r, its) :: p.1, p.2)) (spec_run s ops)
      end
  end.

(** ** The operations of the code *)

Section Run.
Context (sleep : Z -> seqmem -> bool * seqmem) (sleep_input : fifo -> seqmem -> bool * fifo * seqmem).

Definition fifo_step (f : fifo) (op : fifo_op) : M (Z * list (Z * list Z) * fifo) :=
  match op with
  | In e _ => r <- snd_seq_fifo_event_in sleep 1 f e;; ret (r.1, [], r.2)
  | Read count =>
      r <- snd_seq_read sleep_input true true 1 true true true (Some f) count;;
      let '(n, copies, fp) := r in ret (n, copies, default f fp)
  end.

Fixpoint fifo_run (f : fifo) (ops : list fifo_op) : M (list (Z * list (Z * list Z)) * fifo) :=
  match ops with
  | [] => ret ([], f)
  | op :: ops =>
      r <- fifo_step f op;;
      let '(n, copies, f) := r in
      rs <- fifo_run f ops;;
      ret ((n, copies) :: rs.1, rs.2)
  end.
End Run.

(** The bytes a read copies out for the events it delivers.  The pointer of an event with
    data is the kernel's.  The header of an event that did not fit may follow them. *)
Fixpoint copied_out (o : Z) (its : list item) (copies : list (Z * list Z)) : Prop :=
  match its with
  | [] => copies = [] \/ exists b, copies = [(o, b)]
  | (e, bs) :: its =>
      exists rest, copied_out (o + SEQ_EVENT_SIZE + data_room e) its rest /\
        if is_variable e
        then exists ptr, copies = (o, bytes_of_event (e <| ev_d0 := data_len e |> <| ev_d1 := ptr |>)) ::
                                  (o + SEQ_EVENT_SIZE, bs) :: rest
        else copies = (o, bytes_of_event e) :: rest
  end.

Definition out_matches (a : Z * list item) (c : Z * list (Z * list Z)) : Prop :=
  c.1 = a.1 /\ copied_out 0 a.2 c.2.

(** ** The representation *)

(** Only cells of [T] differ. *)
Definition outside (T : list Z) (m m' : seqmem) : Prop :=
  m_bytes m' = m_bytes m /\ forall a, a ∉ T -> m_cells m' !! a = m_cells m !! a.

Lemma outside_refl T m : outside T m m.
Proof. done. Qed.

Lemma outside_trans T m1 m2 m3 : outside T m1 m2 -> outside T m2 m3 -> outside T m1 m3.
Proof. intros [A1 A2] [B1 B2]. split; [congruence |]. intros a Ha. by rewrite B2, A2. Qed.

Lemma frame_outside p T T' m m' : pool_frame p T m m' -> T ⊆ T' -> outside T' m m'.
Proof. intros Fr HT. split; [apply Fr |]. intros a Ha. apply Fr. auto. Qed.

Lemma source_agree m m' T T' chained n src buf len ps :
  outside T m m' -> T' ⊆ T -> source m T chained n src buf len ps -> source m' T' chained n src buf len ps.
Proof.
  intros [Eb Ec] HT. revert src buf len ps. induction n as [| n IH]; intros src buf len ps; simpl; [done |].
  intros (b & ps' & -> & L & H). exists b, ps'. split; [done |]. split; [done |]. destruct chained.
  - destruct H as (Hn & HsT & s & Hs & W & E & S). split; [done |]. split; [by auto |].
    exists s. split; [by rewrite Ec |]. auto.
  - destruct H as [R S]. split; [| auto]. by rewrite (readable_bytes m m').
Qed.

Lemma data_agree m m' T T' e bs : outside T m m' -> T' ⊆ T -> event_data m T e bs -> event_data m' T' e bs.
Proof. intros O HT (ps & S & E). exists ps. split; [by eapply source_agree | done]. Qed.

(** Cell [c] holds an event, and the cells [D] its data. *)
Definition item_at (m : seqmem) (c : Z) (D : list Z) (it : item) : Prop :=
  exists x ps m0 T0, m_cells m !! c = Some x /\ c_event x = copied it.1 D /\
    chained_cells m (copied it.1 D) D /\ Forall2 (holds m) D ps /\
    event_source m0 T0 it.1 ps /\ concat ps = it.2.

Lemma holds_keep m m' D ps :
  (forall a, a ∈ D -> m_cells m' !! a = m_cells m !! a) -> Forall2 (holds m) D ps -> Forall2 (holds m') D ps.
Proof.
  intros Keep HD. induction HD as [| a b D ps (y & Hy & E) HD IH]; constructor.
  - exists y. by rewrite Keep by left.
  - apply IH. intros c Hc. apply Keep. by right.
Qed.

Lemma item_at_keep m m' c D it x' :
  item_at m c D it -> (forall a, a ∈ D -> m_cells m' !! a = m_cells m !! a) ->
  m_cells m' !! c = Some x' -> (forall x, m_cells m !! c = Some x -> c_event x' = c_event x) ->
  item_at m' c D it.
Proof.
  intros (x & ps & m0 & T0 & Hx & Ex & HC & HD & S) Keep Hx' Ev. exists x', ps, m0, T0.
  split; [done |]. split; [by rewrite (Ev x) |]. split; [| split; [| done]].
  - unfold chained_cells in *. destruct (_ && _); [| done]. apply (lseg_frame (m_cells m)); [| done].
    intros a Ha. destruct (lseg_cell _ _ _ _ a HC Ha) as [[y Hy] _]. exists y, y. by rewrite Keep.
  - by apply (holds_keep m).
Qed.

Definition cells_of (L : list (Z * list Z)) : list Z := L ≫= (fun p => p.1 :: p.2).

(** The cells [L] are queued with their data, [H] are in the reader's hands, [F] are free; in
    all they are the cells [T] of the pool. *)
Record fifo_rep (T : list Z) (m : seqmem) (f : fifo) (P : pool) (L : list (Z * list Z)) (H F : list Z)
    (its : list item) : Prop := {
  fr_pool : pool_is m (ff_pool f) P F;
  fr_ready : ready P;
  fr_cells : cells_of L ++ H ++ F ≡ₚ T;
  fr_nodup : NoDup T;
  fr_owned : Forall (owned m (ff_pool f)) T;
  fr_bytes : bytes_ok m;
  fr_chain : chain (m_cells m) (ff_head f) L.*1;
  fr_tail : ff_tail f = default NULL (last L.*1);
  fr_count : ff_cells f = Z.of_nat (length L);
  fr_items : Forall2 (fun p it => item_at m p.1 p.2 it) L its }.

Lemma rep_nodup T m f P L H F its : fifo_rep T m f P L H F its -> NoDup (cells_of L ++ H ++ F).
Proof. intros R. rewrite (fr_cells _ _ _ _ _ _ _ _ R). apply R. Qed.

Lemma queued_cell L c : c ∈ L.*1 -> c ∈ cells_of L.
Proof.
  intros (p & -> & Hp)%list_elem_of_fmap. apply list_elem_of_bind. exists p. split; [left | done].
Qed.

Lemma data_cell L p a : p ∈ L -> a ∈ p.2 -> a ∈ cells_of L.
Proof. intros Hp Ha. apply list_elem_of_bind. exists p. split; [by right | done]. Qed.

(** The queued events stay what they are when their cells do, up to links. *)
Lemma items_keep m m' L its :
  (forall a x, a ∈ cells_of L -> m_cells m !! a = Some x ->
     exists x', m_cells m' !! a = Some x' /\ c_event x' = c_event x /\ (a ∉ L.*1 -> x' = x)) ->
  (forall p a, p ∈ L -> a ∈ p.2 -> (a ∉ L.*1) /\ is_Some (m_cells m !! a)) ->
  Forall2 (fun p it => item_at m p.1 p.2 it) L its -> Forall2 (fun p it => item_at m' p.1 p.2 it) L its.
Proof.
  intros Keep Dat HF. assert (G : forall L' , L' ⊆ L -> forall its, Forall2 (fun p it => item_at m p.1 p.2 it) L' its ->
    Forall2 (fun p it => item_at m' p.1 p.2 it) L' its); [| by eapply G].
  clear HF its. induction L' as [| p L' IH]; intros HL its HF.
  { apply Forall2_nil_inv_l in HF as ->. constructor. }
  apply Forall2_cons_inv_l in HF as (it & its' & HI & HF & ->). constructor; [| apply IH; [| done]; intros q Hq; apply HL; by right].
  assert (Hp : p ∈ L) by (apply HL; left). pose proof HI as (x & ps & m0 & T0 & Hx & _).
  destruct (Keep p.1 x) as (x' & Hx' & Ev & _); [| done |].
  { apply queued_cell. by apply list_elem_of_fmap_2. }
  eapply item_at_keep; [done | | done | intros y Hy; by simplify_eq].
  intros a Ha. destruct (Dat p a Hp Ha) as [Hnot [y Hy]].
  destruct (Keep a y) as (y' & Hy' & _ & E); [by eapply data_cell | done |]. by rewrite Hy', Hy, E.
Qed.

Lemma data_not_queued L X p a : NoDup (cells_of L ++ X) -> p ∈ L -> a ∈ p.2 -> a ∉ L.*1.
Proof.
  intros N Hp Ha Hq. apply NoDup_app in N as (N & _).
  destruct (list_elem_of_split _ _ Hp) as (l1 & l2 & ->). unfold cells_of in N.
  rewrite bind_app, bind_cons, (Permutation_app_comm (l1 ≫= _)) in N. simpl in N.
  apply NoDup_cons in N as [Nc N]. rewrite !elem_of_app in Nc. rewrite <- (assoc_L (++)) in N.
  apply NoDup_app in N as (_ & N & _). specialize (N a Ha). rewrite elem_of_app in N.
  rewrite fmap_app, fmap_cons, elem_of_app, elem_of_cons in Hq.
  destruct Hq as [Hq | [-> | Hq]]; [| tauto |]; apply queued_cell in Hq; tauto.
Qed.

Lemma queued_nodup L X : NoDup (cells_of L ++ X) -> NoDup L.*1.
Proof.
  intros (N & _)%NoDup_app. induction L as [| [c D] L IH]; [constructor |].
  rewrite fmap_cons. cbn [cells_of fst] in *. unfold cells_of in N. rewrite bind_cons in N. simpl in N.
  apply NoDup_cons in N as [Nc N]. apply NoDup_app in N as (_ & _ & N). constructor; [| by apply IH].
  intros Hc%queued_cell. apply Nc. rewrite elem_of_app. by right.
Qed.

(** Relinking a queued or a held cell. *)
Definition relink (c n : Z) (x : cell) (m : seqmem) : seqmem := with_cell c (x <| c_next := n |>) m.

Lemma relink_owned m p a c n x : m_cells m !! c = Some x -> owned m p a -> owned (relink c n x m) p a.
Proof.
  intros Hx (Ha & y & Hy & Ep & W). split; [done |]. simpl. destruct (decide (c = a)) as [-> | Hca].
  - simplify_eq. exists (x <| c_next := n |>). by rewrite lookup_insert_eq.
  - exists y. by rewrite lookup_insert_ne.
Qed.

Lemma rep_some T m f P L H F its a : fifo_rep T m f P L H F its -> a ∈ cells_of L ++ H ++ F -> is_Some (m_cells m !! a) /\ a <> NULL.
Proof.
  intros R Ha. rewrite (fr_cells _ _ _ _ _ _ _ _ R) in Ha. pose proof (fr_owned _ _ _ _ _ _ _ _ R) as HO.
  destruct (owned_cell _ _ _ _ HO Ha) as (Hr & x & Hx & _). split; [by eexists | unfold NULL; lia].
Qed.

Lemma relink_items T m f P L H F its c n x :
  fifo_rep T m f P L H F its -> m_cells m !! c = Some x -> (c ∈ L.*1 \/ c ∈ H) ->
  Forall2 (fun p it => item_at (relink c n x m) p.1 p.2 it) L its.
Proof.
  intros R Hx Hc. pose proof (rep_nodup _ _ _ _ _ _ _ _ R) as N.
  apply (items_keep m); [| | by destruct R].
  - intros a y Ha Hy. simpl. destruct (decide (c = a)) as [-> | Hca].
    + simplify_eq. eexists. rewrite lookup_insert_eq. split; [done |]. split; [done |]. intros Hna.
      exfalso. destruct Hc as [Hc | Hc]; [done |]. apply NoDup_app in N as (_ & N & _).
      apply (N a Ha). rewrite elem_of_app. by left.
    + exists y. by rewrite lookup_insert_ne.
  - intros p a Hp Ha. split; [by eapply data_not_queued |].
    eapply rep_some; [done |]. rewrite elem_of_app. left. by eapply data_cell.
Qed.

(** From the queue to the reader. *)
Lemma hand_over c D L (F : list Z) : cells_of ((c, D) :: L) ++ [] ++ F ≡ₚ cells_of L ++ (c :: D) ++ F.
Proof.
  change (cells_of ((c, D) :: L)) with ((c :: D) ++ cells_of L). rewrite app_nil_l, <- (assoc_L (++)).
  rewrite !(assoc_L (++)). by rewrite (Permutation_app_comm (c :: D) (cells_of L)).
Qed.

Lemma cell_out_rep T m f P c D L F it its :
  fifo_rep T m f P ((c, D) :: L) [] F (it :: its) ->
  wp (fifo_cell_out f) (fun r m' => r.1 = c /\ c <> NULL /\ ff_overflow r.2 = ff_overflow f /\
    fifo_rep T m' r.2 P L (c :: D) F its /\ item_at m' c D it /\ outside T m m') m.
Proof.
  intros R. pose proof R as [HP HR HC HN HO HB Hch Ht Hcnt HI]. pose proof (rep_nodup _ _ _ _ _ _ _ _ R) as N.
  rewrite fmap_cons in Hch, Ht. cbn [fst] in Hch, Ht. destruct Hch as (Eh & Hn & x & Hx & Hch).
  unfold fifo_cell_out. rewrite Eh, (proj2 (Z.eqb_neq c NULL) Hn).
  apply wp_bind, (wp_cell_at _ x); [done |]. apply wp_bind, (wp_modify_cell _ x); [done |]. apply wp_ret.
  cbn [fst snd]. change (with_cell c _ m) with (relink c NULL x m).
  pose proof (relink_items _ _ _ _ _ _ _ _ c NULL x R Hx ltac:(left; rewrite fmap_cons; left)) as HI'.
  apply Forall2_cons in HI' as [HI1 HI']. pose proof (queued_nodup _ _ N) as NL. rewrite fmap_cons in NL.
  apply NoDup_cons in NL as [NcL NL].
  assert (HcF : c ∉ F).
  { apply NoDup_app in N as (_ & N & _). intros Hc. apply (N c); [left |]. by rewrite elem_of_app; right. }
  split; [done |]. split; [done |]. split; [done |]. split; [| split; [done |]].
  - split; simpl; try done.
    + destruct HP as [A1 A2 A3 A4]. split; simpl; [done | done | by apply chain_insert | done].
    + rewrite <- HC. symmetry. apply hand_over.
    + eapply Forall_impl; [exact HO |]. intros a. by apply relink_owned.
    + by apply chain_insert.
    + rewrite Ht. destruct (L.*1) as [| d l] eqn:El; [by rewrite Z.eqb_refl |].
      rewrite last_cons_cons. destruct (last_is_Some (d :: l)) as [_ Hl]. destruct (Hl ltac:(done)) as [t Et].
      rewrite Et. simpl. rewrite (proj2 (Z.eqb_neq t c)); [done |].
      intros ->. apply NcL. by apply last_Some_elem_of.
    + rewrite Hcnt. simpl. lia.
  - split; [done |]. intros a Ha. simpl. apply lookup_insert_ne. intros ->. apply Ha.
    rewrite <- HC, elem_of_app. left. apply queued_cell. rewrite fmap_cons. left.
Qed.

(** Held cells are freed. *)
Lemma free_rep T m f P c D L F it its :
  fifo_rep T m f P L (c :: D) F its -> item_at m c D it ->
  wp (snd_seq_cell_free c) (fun _ m' => exists P', fifo_rep T m' f P' L [] (reverse D ++ c :: F) its /\
    p_total_elements P' = p_total_elements P /\ outside T m m') m.
Proof.
  intros R (x & ps & m0 & T0 & Hx & Ex & HC & HD & S). pose proof (rep_nodup _ _ _ _ _ _ _ _ R) as N.
  pose proof R as [HP HR HT HN HO HB Hch Ht Hcnt HI].
  assert (HcT : c :: D ⊆ T). { intros a Ha. rewrite <- HT, !elem_of_app. auto. }
  destruct (owned_cell _ _ _ c HO ltac:(apply HcT; left)) as (Hc & x' & Hx' & Ep & _). assert (x' = x) as -> by congruence.
  apply NoDup_app in N as (_ & Dis & N).
  eapply wp_mono.
  { eapply (cell_free_spec (ff_pool f) P F (c :: D) c x D m HP Hx Ep); [unfold NULL; lia | by rewrite Ex | done | done]. }
  intros _ m' (Fr & P' & HP'). exists P'.
  assert (Keep : forall a, a ∈ cells_of L -> m_cells m' !! a = m_cells m !! a).
  { intros a Ha. apply Fr. intros Hin. apply (Dis a Ha). rewrite elem_of_app. by left. }
  destruct (frame_ready _ _ _ _ P P' Fr ltac:(by destruct HP) ltac:(by destruct HP') HR) as [R' Et].
  split; [| split; [done | by eapply frame_outside]]. split; try done.
  - rewrite <- HT. rewrite reverse_Permutation. simpl. rewrite <- Permutation_middle. done.
  - eapply (pf_owned _ T); [eapply frame_mono; [exact HcT | exact Fr] | done].
  - intros a b. rewrite (pf_bytes _ _ _ _ Fr). apply HB.
  - apply (lseg_frame (m_cells m)); [| exact Hch]. intros a Ha.
    destruct (lseg_cell _ _ _ _ a Hch Ha) as [[y Hy] _]. exists y, y. by rewrite Keep by (by apply queued_cell).
  - apply (items_keep m); [| | done].
    + intros a y Ha Hy. exists y. by rewrite Keep.
    + intros p a Hp Ha. split; [eapply data_not_queued; [by eapply rep_nodup | done | done] |].
      eapply rep_some; [done |]. rewrite elem_of_app. left. by eapply data_cell.
Qed.

(** A held cell is put back, in front of others. *)
Lemma putback_rep T m f P c D L F it its :
  fifo_rep T m f P L (c :: D) F its -> item_at m c D it -> L <> [] ->
  wp (snd_seq_fifo_cell_putback f c) (fun f' m' => ff_overflow f' = ff_overflow f /\
    fifo_rep T m' f' P ((c, D) :: L) [] F (it :: its) /\ outside T m m') m.
Proof.
  intros R HI1 HL. pose proof R as [HP HR HT HN HO HB Hch Ht Hcnt HI]. pose proof (rep_nodup _ _ _ _ _ _ _ _ R) as N.
  pose proof HI1 as (x & ps & m0 & T0 & Hx & _).
  destruct (rep_some _ _ _ _ _ _ _ _ c R) as [_ Hn]. { rewrite !elem_of_app. right. left. left. }
  unfold snd_seq_fifo_cell_putback. rewrite (proj2 (Z.eqb_neq c NULL) Hn).
  apply wp_bind, (wp_modify_cell _ x); [done |]. apply wp_ret.
  change (with_cell c _ m) with (relink c (ff_head f) x m).
  pose proof (relink_items _ _ _ _ _ _ _ _ c (ff_head f) x R Hx ltac:(right; left)) as HI'.
  apply NoDup_app in N as (NL & Dis & N). apply NoDup_app in N as (ND & Dis2 & NF). apply NoDup_cons in ND as [NcD ND].
  assert (HcL : c ∉ L.*1).
  { intros Hc%queued_cell. apply (Dis c Hc). rewrite elem_of_app. left. left. }
  split; [done |]. split.
  - split; simpl; try done.
    + destruct HP as [A1 A2 A3 A4]. split; simpl; [done | done | | done]. apply chain_insert; [| done].
      apply Dis2. left.
    + rewrite <- HT. apply hand_over.
    + eapply Forall_impl; [exact HO |]. intros a. by apply relink_owned.
    + split; [done |]. split; [done |]. eexists. rewrite lookup_insert_eq. split; [done |]. simpl.
      by apply chain_insert.
    + destruct L as [| [d D2] L]; [done |]. exact Ht.
    + rewrite Hcnt. lia.
    + constructor; [| done]. eapply (item_at_keep m); [exact HI1 | | simpl; apply lookup_insert_eq |].
      * intros a Ha. simpl. apply lookup_insert_ne. by intros ->.
      * cbn [fst]. intros y Hy. by simplify_eq.
  - split; [done |]. intros a Ha. simpl. apply lookup_insert_ne. intros ->. apply Ha.
    rewrite <- HT, !elem_of_app. right. left. left.
Qed.

(** ** Putting in *)

Definition fifo_is (T : list Z) (m : seqmem) (f : fifo) (s : spec) : Prop :=
  exists P L F, fifo_rep T m f P L [] F (sp_items s) /\ sp_free s = Z.of_nat (length F) /\
    sp_total s = p_total_elements P /\ sp_overflow s = ff_overflow f.

Lemma wake_input_rep T m f P L H F its :
  fifo_rep T m f P L H F its -> fifo_rep T m (wake_input f) P L H F its /\ ff_overflow (wake_input f) = ff_overflow f.
Proof. unfold wake_input. intros R. destruct (ff_sleepers f); [| done]. split; [by destruct R | done]. Qed.

(** A copied event is linked behind the others. *)
Lemma append_rep T m f P L F its c D it x :
  fifo_rep T m f P L (c :: D) F its -> item_at m c D it -> m_cells m !! c = Some x -> c_next x = NULL ->
  wp (when (negb (ff_tail f =? NULL)) (set_next (ff_tail f) c);;;
      let f := f <| ff_tail := c |> <| ff_head := if ff_head f =? NULL then c else ff_head f |>
                 <| ff_cells := ff_cells f + 1 |> in
      ret (0, wake_input f))
    (fun r m' => r.1 = 0 /\ ff_overflow r.2 = ff_overflow f /\
       fifo_rep T m' r.2 P (L ++ [(c, D)]) [] F (its ++ [it]) /\ outside T m m') m.
Proof.
  intros R HI1 Hx Enx. pose proof R as [HP HR HT HN HO HB Hch Ht Hcnt HI]. pose proof (rep_nodup _ _ _ _ _ _ _ _ R) as N.
  destruct (rep_some _ _ _ _ _ _ _ _ c R) as [_ Hn]. { rewrite !elem_of_app. right. left. left. }
  assert (HT' : cells_of (L ++ [(c, D)]) ++ [] ++ F ≡ₚ T).
  { rewrite <- HT. unfold cells_of. rewrite bind_app. simpl. by rewrite app_nil_r, <- (assoc_L (++)). }
  destruct L as [| q L0 _] using rev_ind.
  - simpl in Hch, Ht. unfold chain in Hch. simpl in Hch. rewrite Ht, Hch, Z.eqb_refl. cbn [negb when].
    apply wp_bind, wp_ret, wp_ret. cbn [fst snd]. split; [done |].
    assert (R1 : fifo_rep T m (f <| ff_tail := c |> <| ff_head := c |> <| ff_cells := ff_cells f + 1 |>) P
      ([] ++ [(c, D)]) [] F (its ++ [it])).
    { apply Forall2_nil_inv_l in HI as ->. split; simpl; try done; [| simpl in Hcnt; lia | by constructor].
      split; [done |]. split; [done |]. exists x. by rewrite Enx. }
    destruct (wake_input_rep _ _ _ _ _ _ _ _ R1) as [R2 ->]. done.
  - destruct q as [t D']. rewrite fmap_app in Hch, Ht. cbn [fmap list_fmap fst] in Hch, Ht. rewrite last_snoc in Ht.
    simpl in Ht. assert (Htq : t ∈ cells_of (L0 ++ [(t, D')])).
    { apply queued_cell. rewrite fmap_app, elem_of_app. right. left. }
    destruct (rep_some _ _ _ _ _ _ _ _ t R) as [[y Hy] Hnt]. { rewrite elem_of_app. by left. }
    rewrite Ht, (proj2 (Z.eqb_neq t NULL) Hnt). cbn [negb when].
    apply wp_bind, (wp_modify_cell _ y); [done |]. apply wp_ret. cbn [fst snd].
    change (with_cell t _ m) with (relink t c y m).
    assert (Hct : c <> t).
    { intros ->. apply NoDup_app in N as (_ & N & _). apply (N t Htq). rewrite elem_of_app. left. left. }
    assert (Eh : (ff_head f =? NULL) = false).
    { apply Z.eqb_neq. intros E. rewrite E in Hch. apply chain_null in Hch. by destruct (L0.*1). }
    rewrite Eh. split; [done |].
    assert (R1 : fifo_rep T (relink t c y m) (f <| ff_tail := c |> <| ff_head := ff_head f |> <| ff_cells := ff_cells f + 1 |>) P
      ((L0 ++ [(t, D')]) ++ [(c, D)]) [] F (its ++ [it])).
    { pose proof (queued_nodup _ _ N) as NL. rewrite fmap_app in NL. cbn [fmap list_fmap fst] in NL.
      assert (HcL : c ∉ (L0 ++ [(t, D')]).*1).
      { intros Hc%queued_cell. apply NoDup_app in N as (_ & N & _). apply (N c Hc). rewrite elem_of_app. left. left. }
      rewrite fmap_app in HcL. cbn [fmap list_fmap fst] in HcL.
      split; simpl; try done.
      - destruct HP as [A1 A2 A3 A4]. split; simpl; [done | done | | done]. apply chain_insert; [| done].
        apply NoDup_app in N as (_ & N & _). intros HtF. apply (N t Htq). rewrite elem_of_app. by right.
      - eapply Forall_impl; [exact HO |]. intros a. by apply relink_owned.
      - rewrite !fmap_app. cbn [fmap list_fmap fst]. unfold chain.
        assert (Eyn : c_next y = NULL).
        { apply lseg_app in Hch as (d & _ & (-> & _ & y' & Hy' & E)). simpl in E. by simplify_eq. }
        pose proof (lseg_snoc (m_cells m) (ff_head f) (L0.*1) t y c x) as LS. rewrite Eyn, Enx in LS.
        apply LS; try done.
        + apply NoDup_app in NL as (_ & NL & _). intros Hin. apply (NL t Hin). left.
        + intros [-> | Hin]%elem_of_cons; [done |]. apply HcL. rewrite elem_of_app. by left.
      - rewrite fmap_app. cbn [fmap list_fmap fst]. by rewrite last_snoc.
      - rewrite length_app, Hcnt. simpl. lia.
      - apply Forall2_app; [apply (relink_items _ _ _ _ _ _ _ _ t c y R Hy); left; rewrite fmap_app, elem_of_app; right; left |].
        constructor; [| constructor]. eapply (item_at_keep m); [exact HI1 | | simpl; by rewrite lookup_insert_ne |].
        + cbn [snd]. intros a Ha. simpl. apply lookup_insert_ne. intros ->.
          apply NoDup_app in N as (_ & N & _). apply (N a Htq). rewrite elem_of_app. left. by right.
        + cbn [fst]. intros z Hz. by simplify_eq. }
    destruct (wake_input_rep _ _ _ _ _ _ _ _ R1) as [R2 ->]. split; [done |]. split; [done |].
    split; [done |]. intros a Ha. simpl. apply lookup_insert_ne. intros ->. apply Ha.
    rewrite <- HT, elem_of_app. by left.
Qed.

(** The memory after a copy into free cells: the queue is as before. *)
Lemma dup_rep T m m1 f P P' L F its H F' :
  fifo_rep T m f P L [] F its -> pool_frame (ff_pool f) F m m1 -> pool_is m1 (ff_pool f) P' F' -> ready P' ->
  H ++ F' ≡ₚ F -> fifo_rep T m1 f P' L H F' its.
Proof.
  intros R Fr HP' R' E. pose proof R as [HP HR HT HN HO HB Hch Ht Hcnt HI]. pose proof (rep_nodup _ _ _ _ _ _ _ _ R) as N.
  simpl in HT, N. assert (HFT : F ⊆ T). { intros a Ha. rewrite <- HT, elem_of_app. by right. }
  assert (Keep : forall a, a ∈ cells_of L -> m_cells m1 !! a = m_cells m !! a).
  { intros a Ha. apply Fr. apply NoDup_app in N as (_ & N & _). by apply N. }
  split; try done.
  - by rewrite E.
  - eapply (pf_owned _ T); [eapply frame_mono; [exact HFT | exact Fr] | done].
  - intros a b. rewrite (pf_bytes _ _ _ _ Fr). apply HB.
  - apply (lseg_frame (m_cells m)); [| exact Hch]. intros a Ha.
    destruct (lseg_cell _ _ _ _ a Hch Ha) as [[y Hy] _]. exists y, y. by rewrite Keep by (by apply queued_cell).
  - apply (items_keep m); [| | done].
    + intros a y Ha Hy. exists y. by rewrite Keep.
    + intros p a Hp Ha. split; [by eapply data_not_queued |].
      eapply rep_some; [done |]. rewrite elem_of_app. left. by eapply data_cell.
Qed.

Lemma event_in_rep sleep T m f s e bs :
  fifo_is T m f s -> event_wf e -> event_data m T e bs ->
  wp (snd_seq_fifo_event_in sleep 1 f e)
    (fun r m' => r.1 = (spec_in s e bs).1 /\ fifo_is T m' r.2 (spec_in s e bs).2 /\ outside T m m') m.
Proof.
  intros (P & L & F & R & Ef & Et & Eo) We Hd. pose proof R as [HP HR HT HN HO HB Hch Ht Hcnt HI].
  assert (HFT : F ⊆ T). { intros a Ha. rewrite <- HT, elem_of_app. by right. }
  destruct (data_agree m m T F e bs (outside_refl _ _) HFT Hd) as (ps & S & Ebs).
  pose proof (event_source_length _ _ _ _ S) as Hl.
  assert (HOF : Forall (owned m (ff_pool f)) F) by (rewrite Forall_forall in *; auto).
  unfold snd_seq_fifo_event_in. apply wp_bind. eapply wp_mono.
  { by apply (event_dup_spec sleep 0 (ff_pool f) P e F F ps m). }
  intros [err c] m1 [Fr Post]. unfold spec_in. rewrite Et, Ef. rewrite Hl in Post.
  destruct (p_total_elements P <=? event_cells e).
  - destruct Post as [[= -> ->] ->]. apply wp_ret. cbn [fst snd Z.ltb Z.compare Z.eqb]. split; [done |].
    split; [| apply outside_refl]. exists P, L, F. split; [by destruct R |]. simpl. rewrite Eo. done.
  - assert (O1 : outside T m m1) by (by eapply frame_outside). unfold dup_result in Post.
    destruct (Z.leb_spec (Z.of_nat (length F)) (event_cells e)) as [Hle | Hgt].
    + rewrite (proj2 (Nat.leb_gt _ _)) in Post by lia. destruct Post as ([= -> ->] & P' & F' & HP' & R' & EF').
      apply wp_ret. cbn [fst snd]. split; [done |]. split; [| done].
      exists P', L, F'. split; [by eapply dup_rep |]. destruct (frame_ready _ _ _ _ P P' Fr ltac:(by destruct HP) ltac:(by destruct HP') HR) as [_ ->].
      rewrite EF', Ef, Et. done.
    + rewrite (proj2 (Nat.leb_le _ _)) in Post by lia.
      destruct Post as (c' & D & F' & EF & [= -> ->] & (P' & HP' & R') & (x & Hx & Ex & Enx) & HC & HD).
      rewrite Z.ltb_irrefl. eapply wp_mono.
      { eapply (append_rep T m1 f P' L F' (sp_items s) c' D (e, bs) x); [| | done | done].
        - eapply dup_rep; try done. by rewrite EF.
        - exists x, ps, m, F. done. }
      intros [r f'] m2 (E1 & Eo2 & R2 & O2). cbn [fst snd] in *. split; [done |]. split; [| by eapply outside_trans].
      exists P', (L ++ [(c', D)]), F'. split; [done |]. cbn [sp_free sp_total sp_overflow].
      destruct (frame_ready _ _ _ _ P P' Fr ltac:(by destruct HP) ltac:(by destruct HP') HR) as [_ ->].
      apply Forall2_length in HD. subst F. cbn [length] in *. rewrite length_app in *. unfold cost. cbn [fst].
      split; [lia | split; [done | congruence]].
Qed.

(** ** Reading *)

Lemma item_cells m c D it : item_at m c D it -> Z.of_nat (length (c :: D)) = cost it.
Proof.
  intros (x & ps & m0 & T0 & _ & _ & _ & HD & S & _). apply Forall2_length in HD.
  pose proof (event_source_length _ _ _ _ S). unfold cost. simpl. lia.
Qed.

Lemma copied_variable e D : is_variable (copied e D) = is_variable e.
Proof. destruct (is_variable e) eqn:V; [by apply copied_chained | unfold copied; by rewrite V]. Qed.

Lemma data_room_nonneg e : 0 <= data_room e.
Proof.
  unfold data_room, SEQ_EVENT_SIZE. destruct (is_variable e); [| lia].
  pose proof (data_len_range e). apply Z.mul_nonneg_nonneg; [apply Z.div_pos; lia | lia].
Qed.

(** Expanding an event into the reader's buffer. *)
Lemma expand_read m c D it x count :
  item_at m c D it -> is_variable it.1 = true -> m_cells m !! c = Some x ->
  snd_seq_expand_var_event true (c_event x) count false SEQ_EVENT_SIZE m =
    Some (if count <? data_room it.1 then (-EAGAIN, []) else (data_room it.1, it.2), m).
Proof.
  intros (x' & ps & m0 & T0 & Hx' & Ex & HC & HD & S & <-) V Hx. assert (x' = x) as -> by congruence. rewrite Ex.
  destruct (copied_chained it.1 D V) as (Vc & Cc & Uc & Lc & Pc). unfold chained_cells in HC. rewrite Vc, Cc, Pc in HC.
  pose proof (data_len_range it.1) as Hr.
  unfold snd_seq_expand_var_event. rewrite Vc, Uc, Cc, Lc, Pc. change (0 <? SEQ_EVENT_SIZE) with true. cbn [negb].
  assert (Er : Z.quot (data_len it.1 + SEQ_EVENT_SIZE - 1) SEQ_EVENT_SIZE * SEQ_EVENT_SIZE = data_room it.1).
  { unfold data_room, SEQ_EVENT_SIZE. rewrite V. f_equal. apply Z.quot_div_nonneg; lia. }
  rewrite Er. destruct (count <? data_room it.1); [done |].
  rewrite (bind_some _ _ m (concat ps) m); [done |].
  pose proof (event_source_length _ _ _ _ S) as Hl.
  apply (expand_cells_spec m ps D); [done | done | by eapply source_sized | lia | |].
  - rewrite Hl. unfold event_cells. by rewrite V.
  - unfold chain_fuel. apply chain_length in HC. lia.
Qed.

(** How a read ends: all queued, or one event in the reader's hands that did not fit. *)
Definition read_end (T : list Z) (f : fifo) (Pt n : Z) (cell err : Z) (rest : list item) (m : seqmem) : Prop :=
  exists P L F, p_total_elements P = Pt /\
    ((cell = NULL /\ fifo_rep T m f P L [] F rest /\ Z.of_nat (length F) = n) \/
     (exists c D it rest', cell = c /\ rest = it :: rest' /\ err = -EAGAIN /\ item_at m c D it /\
        fifo_rep T m f P L (c :: D) F rest' /\ Z.of_nat (length F) = n)).

Lemma fifo_cell_out_empty T m f P F its : fifo_rep T m f P [] [] F its -> fifo_cell_out f m = Some ((NULL, f), m).
Proof.
  intros R. pose proof (fr_chain _ _ _ _ _ _ _ _ R) as Hch. unfold chain in Hch. simpl in Hch.
  unfold fifo_cell_out. by rewrite Hch, Z.eqb_refl.
Qed.

Lemma cell_out_spec sleep_input T m f P L F its nb :
  fifo_rep T m f P L [] F its -> nb = true ->
  wp (snd_seq_fifo_cell_out sleep_input 1 f nb)
    (fun r m' => outside T m m' /\ ff_overflow r.2 = ff_overflow f /\
       match its with
       | [] => r = (-EAGAIN, NULL, f) /\ L = [] /\ m' = m
       | it :: its' => exists c D L', L = (c, D) :: L' /\ r.1 = (0, c) /\ c <> NULL /\
           fifo_rep T m' r.2 P L' (c :: D) F its' /\ item_at m' c D it
       end) m.
Proof.
  intros R ->. cbn [snd_seq_fifo_cell_out]. pose proof (fr_items _ _ _ _ _ _ _ _ R) as HI.
  destruct its as [| it its].
  - apply Forall2_nil_inv_r in HI as ->. apply wp_bind. unfold wp at 1.
    rewrite (fifo_cell_out_empty _ _ _ _ _ _ R). cbn [Z.eqb]. apply wp_ret. done.
  - apply Forall2_cons_inv_r in HI as ([c D] & L' & _ & _ & ->). apply wp_bind.
    eapply wp_mono; [by apply cell_out_rep |]. intros [c' f'] m' (E & Hn & Eo & R' & HI' & O).
    cbn [fst snd] in *. subst c'. rewrite (proj2 (Z.eqb_neq c NULL) Hn). apply wp_ret.
    split; [done |]. split; [done |]. exists c, D, L'. done.
Qed.

(** The loop's result, against the specification's [sr]. *)
Definition read_post (T : list Z) (m : seqmem) (f : fifo) (Pt n o : Z) (copies : list (Z * list Z))
    (sr : Z * Z * list item * list item) (r : Z * Z * Z * list (Z * list Z) * fifo) (m' : seqmem) : Prop :=
  let '(err, cell, result, copies', f') := r in
  let '(err0, r0, dl, rest) := sr in
  err = err0 /\ result = r0 /\ outside T m m' /\ ff_overflow f' = ff_overflow f /\
  read_end T f' Pt (n + costs dl) cell err rest m' /\
  exists cps, copies' = copies ++ cps /\ copied_out o dl cps.

(** The loop with [fuel] rounds left. *)
Definition reads (sleep_input : fifo -> seqmem -> bool * fifo * seqmem) (T : list Z) (fuel : nat) : Prop :=
  forall m f P L F its count o result copies,
  fifo_rep T m f P L [] F its -> 0 <= count -> count / SEQ_EVENT_SIZE < Z.of_nat fuel -> 0 <= result ->
  wp (read_loop sleep_input true true fuel 1 f count o result copies)
    (read_post T m f (p_total_elements P) (Z.of_nat (length F)) o copies (spec_take count result its)) m.

(** Nothing more is read. *)
Lemma read_stop T m f P L F its o result copies err :
  fifo_rep T m f P L [] F its ->
  read_post T m f (p_total_elements P) (Z.of_nat (length F)) o copies (err, result, [], its)
    (err, NULL, result, copies, f) m.
Proof.
  intros R. do 2 (split; [done |]). split; [apply outside_refl |]. split; [done |]. split.
  - exists P, L, F. split; [done |]. left. split; [done |]. split; [done | simpl; lia].
  - exists []. split; [by rewrite app_nil_r | by left].
Qed.

Lemma fuel_step count need fuel :
  0 <= need -> SEQ_EVENT_SIZE + need <= count -> count / SEQ_EVENT_SIZE < Z.of_nat (S fuel) ->
  (count - (SEQ_EVENT_SIZE + need)) / SEQ_EVENT_SIZE < Z.of_nat fuel.
Proof.
  unfold SEQ_EVENT_SIZE. intros Hn Hle Hf.
  assert ((count - (28 + need)) / 28 <= (count - 28) / 28) by (apply Z.div_le_mono; lia).
  replace (count - 28) with (count + (-1) * 28) in * by lia. rewrite Z.div_add in * by lia. lia.
Qed.

(** After an event has been copied out: its cells are freed, and the loop goes on. *)
Lemma read_next sleep_input T fuel m m1 f f1 P L F c D e bs its count o result copies cp :
  reads sleep_input T fuel ->
  fifo_rep T m1 f1 P L (c :: D) F its -> item_at m1 c D (e, bs) ->
  outside T m m1 -> ff_overflow f1 = ff_overflow f ->
  count / SEQ_EVENT_SIZE < Z.of_nat (S fuel) -> 0 <= result ->
  SEQ_EVENT_SIZE + data_room e <= count ->
  (forall rest cps, copied_out (o + SEQ_EVENT_SIZE + data_room e) rest cps ->
     copied_out o ((e, bs) :: rest) (cp ++ cps)) ->
  wp (snd_seq_cell_free c;;;
      read_loop sleep_input true true fuel 1 f1 (count - (SEQ_EVENT_SIZE + data_room e))
        (o + SEQ_EVENT_SIZE + data_room e) (result + (SEQ_EVENT_SIZE + data_room e)) (copies ++ cp))
    (read_post T m f (p_total_elements P) (Z.of_nat (length F)) o copies
      (let '(err, r, dl, rest) := spec_take (count - (SEQ_EVENT_SIZE + data_room e))
         (result + (SEQ_EVENT_SIZE + data_room e)) its in (err, r, (e, bs) :: dl, rest))) m1.
Proof.
  intros IH R1 HI1 O1 Eo1 Hf Hr Hle Hcp. pose proof (data_room_nonneg e) as Hroom.
  pose proof (item_cells _ _ _ _ HI1) as Hcost.
  apply wp_bind. eapply wp_mono; [by eapply free_rep |].
  intros _ m2 (P2 & R2 & Et2 & O2). eapply wp_mono.
  { eapply (IH m2 f1 P2 L (reverse D ++ c :: F) its); [done | lia | by apply fuel_step | unfold SEQ_EVENT_SIZE in *; lia]. }
  intros [[[[err cell] result'] copies'] f'] m3. unfold read_post.
  destruct (spec_take _ _ its) as [[[err0 r0] dl] rest].
  intros (-> & -> & O3 & Eo3 & RE & cps & -> & Hcps). do 2 (split; [done |]).
  split; [by eapply outside_trans; [| eapply outside_trans] |]. split; [congruence |]. split.
  - rewrite Et2, length_app, length_reverse in RE. cbn [length] in RE, Hcost. cbn [costs foldr].
    replace (Z.of_nat (length F) + (cost (e, bs) + foldr (fun it n => cost it + n) 0 dl))
      with (Z.of_nat (length D + S (length F)) + costs dl) by (rewrite <- Hcost; unfold costs; lia). done.
  - exists (cp ++ cps). split; [by rewrite (assoc_L (++)) | by apply Hcp].
Qed.

(** An event with data, when it does not fit. *)
Lemma read_no_room T m m1 f f1 P L F c D e bs its o result copies b :
  fifo_rep T m1 f1 P L (c :: D) F its -> item_at m1 c D (e, bs) ->
  outside T m m1 -> ff_overflow f1 = ff_overflow f ->
  read_post T m f (p_total_elements P) (Z.of_nat (length F)) o copies (-EAGAIN, result, [], (e, bs) :: its)
    (-EAGAIN, c, result, copies ++ [(o, b)], f1) m1.
Proof.
  intros R1 HI1 O1 Eo1. do 2 (split; [done |]). split; [done |]. split; [done |]. split.
  - exists P, L, F. split; [done |]. right. exists c, D, (e, bs), its. do 5 (split; [done |]). simpl. lia.
  - eexists. split; [reflexivity |]. right. by eexists.
Qed.

Lemma read_loop_rep sleep_input T fuel : reads sleep_input T fuel.
Proof.
  induction fuel as [| fuel IH]; intros m f P L F its count o result copies R Hc Hf Hr.
  { exfalso. unfold SEQ_EVENT_SIZE in Hf. assert (0 <= count / 28) by (apply Z.div_pos; lia). lia. }
  cbn [read_loop].
  assert (Es : spec_take count result its = if count <? SEQ_EVENT_SIZE then (0, result, [], its)
    else spec_take count result its) by (destruct its; cbn [spec_take]; by destruct (count <? _)).
  rewrite Es. destruct (Z.ltb_spec count SEQ_EVENT_SIZE) as [Hlt | Hge]; [by apply wp_ret, (read_stop _ _ _ _ L) |].
  clear Es. apply wp_bind. eapply wp_mono; [by eapply cell_out_spec |].
  intros [[err c'] f1] m1 (O1 & Eo1 & Post). destruct its as [| [e bs] its]; cbn [spec_take];
    rewrite (proj2 (Z.ltb_ge count _)) by done.
  { destruct Post as ([= -> -> ->] & -> & ->). by apply wp_ret, (read_stop _ _ _ _ []). }
  destruct Post as (c & D & L' & -> & [= -> ->] & Hn & R1 & HI1). cbn [fst snd] in *.
  rewrite Z.ltb_irrefl. pose proof HI1 as (x & ps & m0 & T0 & Hx & Ex & _).
  apply wp_bind, (wp_cell_at _ x); [done |]. rewrite Ex at 1. rewrite copied_variable. cbn [fst].
  pose proof (data_room_nonneg e) as Hroom. destruct (is_variable e) eqn:V; cbn [negb].
  - apply wp_bind. unfold wp at 1. rewrite (expand_read m1 c D (e, bs) x) by done. cbn [fst snd].
    destruct (Z.ltb_spec (count - SEQ_EVENT_SIZE) (data_room e)) as [Hlt | Hge2]; cbn [fst snd].
    + rewrite (proj2 (Z.ltb_lt count _)) by lia. cbn [Z.ltb Z.compare Z.opp EAGAIN].
      apply wp_ret. by eapply read_no_room.
    + rewrite (proj2 (Z.ltb_ge count _)), (proj2 (Z.ltb_ge (data_room e) 0)) by lia.
      replace (count - SEQ_EVENT_SIZE - data_room e) with (count - (SEQ_EVENT_SIZE + data_room e)) by lia.
      replace (result + data_room e + SEQ_EVENT_SIZE) with (result + (SEQ_EVENT_SIZE + data_room e)) by lia.
      unfold copy_out. rewrite <- (assoc_L (++)).
      eapply read_next; try done; [lia |]. intros rest cps Hcps. cbn [copied_out app]. exists cps. split; [done |].
      rewrite V. exists (hd NULL D). do 3 f_equal. rewrite Ex. cbn [fst]. unfold read_header, copied. rewrite V.
      destruct (copied_chained e D V) as (_ & _ & _ & Lc & _). unfold copied in Lc. rewrite V in Lc. by rewrite Lc.
  - assert (Er : data_room e = 0) by (unfold data_room; by rewrite V).
    rewrite (proj2 (Z.ltb_ge count _)) by lia.
    pose proof (read_next sleep_input T fuel m m1 f f1 P L' F c D e bs its count o result copies
      [(o, bytes_of_event (c_event x))] IH R1 HI1 O1 Eo1 Hf Hr) as Next.
    rewrite Er, !Z.add_0_r in *. apply Next; [lia |]. intros rest cps Hcps. cbn [copied_out app]. exists cps.
    rewrite Er, Z.add_0_r, V. split; [done |]. rewrite Ex. cbn [fst]. unfold copied. by rewrite V.
Qed.

Lemma drain_rep T L : forall fuel m f P F its,
  fifo_rep T m f P L [] F its -> (length L < fuel)%nat ->
  wp (drain_fifo fuel f) (fun f' m' => ff_overflow f' = ff_overflow f /\ outside T m m' /\
    exists P' F', fifo_rep T m' f' P' [] [] F' [] /\ p_total_elements P' = p_total_elements P /\
      Z.of_nat (length F') = Z.of_nat (length F) + costs its) m.
Proof.
  induction L as [| [c D] L IH]; intros fuel m f P F its R Hf; destruct fuel as [| fuel];
    try (simpl in Hf; lia); cbn [drain_fifo]; pose proof (fr_items _ _ _ _ _ _ _ _ R) as HI.
  - apply Forall2_nil_inv_l in HI as ->. apply wp_bind. unfold wp at 1.
    rewrite (fifo_cell_out_empty _ _ _ _ _ _ R). cbn [fst snd Z.eqb NULL]. apply wp_ret.
    split; [done |]. split; [done |]. exists P, F. split; [done |]. split; [done | simpl; lia].
  - apply Forall2_cons_inv_l in HI as (it & its' & _ & _ & ->).
    apply wp_bind. eapply wp_mono; [by apply cell_out_rep |].
    intros [c' f1] m1 (E & Hn & Eo & R1 & HI1 & O1). cbn [fst snd] in *. subst c'.
    rewrite (proj2 (Z.eqb_neq c NULL) Hn). apply wp_bind. eapply wp_mono; [by eapply free_rep |].
    intros _ m2 (P2 & R2 & Et2 & O2). eapply wp_mono; [apply (IH fuel m2 f1 P2 _ its' R2); simpl in Hf; lia |].
    intros f3 m3 (Eo3 & O3 & P3 & F3 & R3 & Et3 & L3). split; [congruence |].
    split; [by eapply outside_trans; [| eapply outside_trans] |]. exists P3, F3. split; [done |].
    split; [congruence |]. rewrite L3, length_app, length_reverse. pose proof (item_cells _ _ _ _ HI1) as Hc.
    cbn [length costs foldr] in *. unfold costs. lia.
Qed.

Lemma rep_overflow T m f P L H F its n :
  fifo_rep T m f P L H F its -> fifo_rep T m (f <| ff_overflow := n |>) P L H F its.
Proof. by intros []. Qed.

Lemma clear_rep T m f s :
  fifo_is T m f s ->
  wp (snd_seq_fifo_clear f) (fun f' m' => outside T m m' /\
    fifo_is T m' f' (Spec [] (sp_free s + costs (sp_items s)) (sp_total s) 0)) m.
Proof.
  intros (P & L & F & R & Ef & Et & _). unfold snd_seq_fifo_clear. unfold wp.
  apply (rep_overflow _ _ _ _ _ _ _ _ 0) in R.
  eapply wp_mono; [apply (drain_rep T L _ m _ P F _ R) |].
  - pose proof (chain_length _ _ _ (fr_chain _ _ _ _ _ _ _ _ R)) as Hl. rewrite length_fmap in Hl.
    unfold chain_fuel. lia.
  - intros f' m' (Eo & O & P' & F' & R' & Et' & L'). split; [done |].
    exists P', [], F'. split; [done |]. simpl. split; [lia |]. split; [congruence | by rewrite Eo].
Qed.

Lemma costs_nonneg its : 0 <= costs its.
Proof.
  induction its as [| it its IH]; simpl; [lia |]. unfold cost. pose proof (event_cells_nonneg it.1). fold (costs its). lia.
Qed.

Lemma spec_take_err count result its :
  (spec_take count result its).1.1.1 = 0 \/ (spec_take count result its).1.1.1 = -EAGAIN.
Proof.
  revert count result. induction its as [| it its IH]; intros count result; cbn [spec_take].
  - destruct (_ <? _); auto.
  - destruct (_ <? _); [auto |]. cbv zeta. destruct (_ <? _); [auto |].
    specialize (IH (count - (SEQ_EVENT_SIZE + data_room it.1)) (result + (SEQ_EVENT_SIZE + data_room it.1))).
    by destruct (spec_take _ _ its) as [[[? ?] ?] ?].
Qed.

Lemma read_rep sleep_input T m f s count r its s' :
  fifo_is T m f s -> 0 <= count -> spec_read s count = Some (r, its, s') -> 0 <= ff_overflow f ->
  wp (snd_seq_read sleep_input true true 1 true true true (Some f) count)
    (fun c m' => exists f', c.2 = Some f' /\ out_matches (r, its) c.1 /\ fifo_is T m' f' s' /\ outside T m m') m.
Proof.
  intros S Hc E Ho. pose proof S as (P & L & F & R & Ef & Et & Eo). unfold spec_read in E. rewrite Eo in E.
  unfold snd_seq_read. cbn [negb]. destruct (Z.ltb_spec 0 (ff_overflow f)).
  - injection E as <- <- <-. apply wp_bind. eapply wp_mono; [by apply clear_rep |].
    intros f' m' [O S']. apply wp_ret. exists f'. split; [done |]. split; [split; [done | by left] | done].
  - apply wp_bind. eapply wp_mono.
    { apply (read_loop_rep sleep_input T _ m f P L F (sp_items s) count 0 0 []); [done | done | | done].
      unfold SEQ_EVENT_SIZE. assert (0 <= count / 28) by (apply Z.div_pos; lia). lia. }
    intros [[[[err cell] result] copies] f1] m1. pose proof (spec_take_err count 0 (sp_items s)) as Her.
    destruct (spec_take count 0 (sp_items s)) as [[[err0 r0] dl] rest]. cbn [fst] in Her.
    unfold read_post.
    intros (-> & -> & O1 & Eo1 & (P1 & L1 & F1 & EP & RE) & cps & -> & Hcps).
    destruct ((err0 =? -EAGAIN) && _) eqn:Stuck; [done |]. injection E as <- <- <-.
    assert (W : wp (if err0 <? 0 then snd_seq_fifo_cell_putback f1 cell else ret f1)
      (fun f' m' => fifo_is T m' f' (Spec rest (sp_free s + costs dl) (sp_total s) 0) /\ outside T m m') m1).
    { destruct RE as [(-> & R1 & L2) | (c & D & it & rest' & -> & -> & -> & HI1 & R1 & L2)].
      - assert (S1 : fifo_is T m1 f1 (Spec rest (sp_free s + costs dl) (sp_total s) 0)).
        { exists P1, L1, F1. simpl. split; [done |]. split; [lia |]. split; [congruence | lia]. }
        by destruct (err0 <? 0); apply wp_ret.
      - rewrite Z.eqb_refl in Stuck. cbn [Z.ltb Z.compare Z.opp EAGAIN].
        assert (L1 <> []).
        { intros ->. pose proof (fr_items _ _ _ _ _ _ _ _ R1) as HI. by apply Forall2_nil_inv_l in HI as ->. }
        eapply wp_mono; [by eapply putback_rep |]. intros f' m' (Eo' & R' & O'). split; [| by eapply outside_trans].
        exists P1, ((c, D) :: L1), F1. simpl. split; [done |]. split; [lia |]. split; [congruence | lia]. }
    apply wp_bind. eapply wp_mono; [exact W |]. intros f' m' [S' O']. apply wp_ret. cbn [fst snd].
    exists f'. split; [done |]. split; [| done]. split; [| done]. cbn [fst snd].
    destruct Her as [-> | ->]; [done |]. rewrite Z.eqb_refl. cbn [andb]. by destruct (0 <? r0).
Qed.

(** ** The refinement *)

Definition op_ok (m : seqmem) (T : list Z) (op : fifo_op) : Prop :=
  match op with
  | In e bs => event_wf e /\ event_data m T e bs
  | Read count => 0 <= count
  end.

Lemma op_ok_agree m m' T op : outside T m m' -> op_ok m T op -> op_ok m' T op.
Proof. intros O. destruct op; [| done]. intros [? ?]. split; [done |]. by eapply data_agree. Qed.

Lemma spec_step_overflow s op r its s' :
  spec_step s op = Some (r, its, s') -> 0 <= sp_overflow s -> 0 <= sp_overflow s'.
Proof.
  destruct op as [e bs | count]; simpl; unfold spec_in, spec_read.
  - repeat case_match; intros [= <- <- <-]; simplify_eq/=; lia.
  - repeat case_match; intros [= <- <- <-]; simpl; lia.
Qed.

Lemma fifo_step_rep sleep sleep_input T m f s op r its s' :
  fifo_is T m f s -> op_ok m T op -> 0 <= sp_overflow s -> spec_step s op = Some (r, its, s') ->
  wp (fifo_step sleep sleep_input f op)
    (fun c m' => out_matches (r, its) c.1 /\ fifo_is T m' c.2 s' /\ outside T m m') m.
Proof.
  intros S Hok Ho E. destruct op as [e bs | count]; cbn [spec_step fifo_step op_ok] in *.
  - destruct Hok as [We Hd]. destruct (spec_in s e bs) as [r0 s0] eqn:Ei. injection E as <- <- <-.
    apply wp_bind. eapply wp_mono; [by apply (event_in_rep sleep T m f s e bs) |]. rewrite Ei.
    intros [r' f'] m' (-> & S' & O). apply wp_ret. split; [split; [done | by left] | done].
  - apply wp_bind. eapply wp_mono; [apply (read_rep sleep_input T m f s count r its s'); try done |].
    { destruct S as (? & ? & ? & _ & _ & _ & <-). done. }
    intros [[n copies] fp] m' (f' & Ef & Hm & S' & O). simpl in Ef. subst fp. by apply wp_ret.
Qed.

(** C18: the FIFO a client reads is a bounded queue, in order and without loss or damage.
    Events are put in and read out in any order, their data in buffers or in chained cells
    outside the pool.  Reads do not block, and none stops for lack of room at the only event
    queued, after which the code loses the next one ([small_read_loses_event]).  Then every
    result is that of the specification: an event too large for the pool gives -ENOMEM, one for
    which no cells are left -EAGAIN, and neither changes the queue; a read hands out the
    oldest events that fit, with their very data and in order, or gives -EAGAIN, if the queue
    is empty and also if the buffer is too small for the oldest event; after an event was too
    large, the next read gives -ENOSPC and empties the queue.  Cells are neither lost nor used
    twice. *)
Theorem fifo_refines sleep sleep_input T ops : forall m f s outs s',
  fifo_is T m f s -> 0 <= sp_overflow s -> Forall (op_ok m T) ops -> spec_run s ops = Some (outs, s') ->
  exists couts f' m', fifo_run sleep sleep_input f ops m = Some ((couts, f'), m') /\
    Forall2 out_matches outs couts /\ fifo_is T m' f' s' /\ outside T m m'.
Proof.
  induction ops as [| op ops IH]; intros m f s outs s' S Ho Hops E; cbn [spec_run fifo_run] in *.
  { injection E as <- <-. exists [], f, m. split; [done |]. split; [constructor | done]. }
  apply Forall_cons in Hops as [Hop Hops].
  destruct (spec_step s op) as [[[r its] s1] |] eqn:E1; [| done].
  destruct (spec_run s1 ops) as [[outs2 s2] |] eqn:E2; [| done]. injection E as <- <-.
  destruct (wp_run _ _ _ (fifo_step_rep sleep sleep_input T m f s op r its s1 S Hop Ho E1))
    as ([[n copies] f1] & m1 & R1 & Hm & S1 & O1). cbn [fst snd] in *.
  destruct (IH m1 f1 s1 outs2 s2 S1) as (couts & f2 & m2 & R2 & Hm2 & S2 & O2); [| | done |].
  - by eapply spec_step_overflow.
  - eapply Forall_impl; [exact Hops |]. intros op'. by apply op_ok_agree.
  - exists ((n, copies) :: couts), f2, m2. split.
    { unfold bind. by rewrite R1, R2. }
    split; [by constructor |]. split; [done |]. by eapply outside_trans.
Qed.

(** A note, a message of forty bytes, a note too many, and three reads. *)
Definition empty_fifo : fifo := Fifo 1 NULL NULL 0 0 false 0.
Definition no_sleep : Z -> seqmem -> bool * seqmem := fun _ m => (false, m).
Definition no_input : fifo -> seqmem -> bool * fifo * seqmem := fun f m => (false, f, m).
Definition sysex_bytes : list Z := (fun i => (7 * i) mod 128) <$> seqZ 0 40.
Definition note : snd_seq_event := plain_event EVENT_NOTEON 0.

Lemma note_data m T : event_data m T note [].
Proof. exists []. by split. Qed.

Lemma empty_fifo_is : fifo_is [100; 136; 172; 208] four_cells empty_fifo (Spec [] 4 4 0).
Proof.
  destruct four_cells_pool as (P & HP & R & Et). exists P, [], [100; 136; 172; 208].
  split; [| by rewrite Et]. split; simpl; try done.
  - eapply chain_nodup, HP.
  - exact four_cells_owned.
  - exact four_cells_bytes.
Qed.

Lemma fifo_refines_witness :
  exists couts f' m',
    fifo_run no_sleep no_input empty_fifo
      [In note []; In sysex_40 sysex_bytes; In note []; Read 28; Read 200; Read 28] four_cells =
      Some ((couts, f'), m') /\
    Forall2 out_matches [(0, []); (0, []); (-EAGAIN, []); (28, [(note, [])]); (84, [(sysex_40, sysex_bytes)]);
                         (-EAGAIN, [])] couts.
Proof.
  assert (Wn : event_wf note) by (apply plain_event_wf; split; vm_compute; congruence).
  destruct (fifo_refines no_sleep no_input [100; 136; 172; 208]
    [In note []; In sysex_40 sysex_bytes; In note []; Read 28; Read 200; Read 28] four_cells empty_fifo
    (Spec [] 4 4 0) [(0, []); (0, []); (-EAGAIN, []); (28, [(note, [])]); (84, [(sysex_40, sysex_bytes)]);
                     (-EAGAIN, [])] (Spec [] 4 4 0))
    as (couts & f' & m' & E & H & _).
  - exact empty_fifo_is.
  - by vm_compute.
  - repeat (apply Forall_cons; split); [split | split | split | by vm_compute | by vm_compute | by vm_compute | by apply Forall_nil].
    + exact Wn.
    + apply note_data.
    + exact sysex_40_wf.
    + exact sysex_40_data.
    + exact Wn.
    + apply note_data.
  - vm_compute. reflexivity.
  - exists couts, f', m'. split; [exact E | exact H].
Defined.

(** ** What goes wrong *)

(** A read with room for the header only, of a FIFO with one event with data, puts the event
    back and leaves no last cell: the next event put in is not linked to it, and lost.  The
    event after it is linked to the lost one.  The FIFO still counts the lost event, so that
    polling reports something to read when there is nothing. *)
Lemma small_read_loses_event :
  option_map (fun r => (r.1.1.*1, snd_seq_fifo_poll_wait r.1.2))
    (fifo_run no_sleep no_input empty_fifo
      [In ((plain_event EVENT_SYSEX EVENT_LENGTH_VARIABLE) <| ev_d0 := 20 |> <| ev_d1 := 1000 |>) []; Read 28;
       In note []; Read 1000; Read 1000] four_cells) =
  Some ([0; -EAGAIN; 0; 56; -EAGAIN], true).
Proof. vm_compute. reflexivity. Qed.

(** An event refused because the cells ran out is not reported to the reader: only one too
    large for the whole pool raises the overflow flag. *)
Lemma full_fifo_not_reported :
  option_map (fun r => (r.1.1.*1, ff_overflow r.1.2))
    (fifo_run no_sleep no_input empty_fifo
      [In note []; In note []; In note []; In note []; In note []; Read 1000] four_cells) =
  Some ([0; 0; 0; 0; -EAGAIN; 112], 0).
Proof. vm_compute. reflexivity. Qed.
