(* ===== verification/SeqTimer.v ===== *)
(** * SeqTimer: the clock of a sequencer queue

    alsa/core/seq/seq_timer.c and the tick counter of seq_timer.h.  The timers the clock is
    driven by belong to alsa/core/timer.c; here they are an interface.  The build does not
    define SNDRV_SEQ_SYNC_SUPPORT, and the code under it is left out. *)

From S2P Require Export StateMonad.
From S2P Require Import Prelude SeqEvent.
Open Scope Z_scope.
Open Scope state_scope.

(** ** Ticks *)

(** [seq_timer_tick_t] *)
Record seq_timer_tick := TimerTick { cur_tick : Z; tick_resolution : Z; fraction : Z }.
#[export] Instance settable_tick : Settable seq_timer_tick :=
  fun t => TimerTick (cur_tick t) (tick_resolution t) (fraction t).

Definition snd_seq_timer_update_tick (t : seq_timer_tick) (resolution : Z) : seq_timer_tick :=
  if 0 <? tick_resolution t then
    let f := u32 (fraction t + resolution) in
    t <| cur_tick := u32 (cur_tick t + f / tick_resolution t) |> <| fraction := f mod tick_resolution t |>
  else t.

(** [None] is a division by zero. *)
Definition snd_seq_timer_set_tick_resolution (t : seq_timer_tick) (tempo ppq nticks : Z)
    : option seq_timer_tick :=
  if ppq =? 0 then None
  else
    let r := if tempo <? 1000000 then u32 (Z.quot (tempo * 1000) ppq)
             else
               let s := u32 (Z.rem tempo ppq) in
               let s := u32 (s * 1000) / u32 ppq in
               u32 (u32 (Z.quot tempo ppq * 1000) + s) in
    let r := if r <=? 0 then 1 else r in
    Some (snd_seq_timer_update_tick (t <| tick_resolution := u32 (r * nticks) |>) 0).

(** ** Timers *)

Definition SEQ_TIMER_ALSA : Z := 0.
Definition TIMER_CLASS_SLAVE : Z := 0.
Definition TIMER_CLASS_GLOBAL : Z := 1.
Definition TIMER_SCLASS_SEQUENCER : Z := 2.
Definition TIMER_GLOBAL_SYSTEM : Z := 0.
Definition HZ : Z := 100.

(** [snd_timer_id_t] *)
Record snd_timer_id := TimerId { dev_class : Z; dev_sclass : Z; card : Z; device : Z; subdevice : Z }.

(** The timer core: instances are addresses, 0 for none.  [setup_slave] and [setup_callback]
    assign the fields of an instance that the sequencer sets. *)
Class SndTimer (T : Type) := {
  snd_timer_open : Z -> snd_timer_id -> T -> Z * T;      (* owner's queue, timer *)
  setup_slave : Z -> Z -> Z -> T -> T;                     (* instance, slave_class, slave_id *)
  setup_callback : Z -> Z -> T -> T;                       (* instance, queue; also flags |= AUTO *)
  hw_slave : Z -> T -> option bool;                        (* t->timer->hw.flags & SLAVE, if t->timer *)
  snd_timer_resolution : Z -> T -> Z;
  snd_timer_start : Z -> Z -> T -> T;
  snd_timer_stop : Z -> T -> T;
  snd_timer_close : Z -> T -> T }.

(** [seq_timer_t] *)
Record seq_timer := SeqTimer {
  running : bool; tempo : Z; ppq : Z;
  cur_time : snd_seq_timestamp; tmr_tick : seq_timer_tick;
  tmr_type : Z; alsa_id : snd_timer_id; tmr_resolution : Z;
  base_period : Z; period : Z; timeri : Z; ticks : Z;
  last_sec : Z; last_usec : Z }.
#[export] Instance settable_seq_timer : Settable seq_timer :=
  fun t => SeqTimer (running t) (tempo t) (ppq t) (cur_time t) (tmr_tick t) (tmr_type t) (alsa_id t)
    (tmr_resolution t) (base_period t) (period t) (timeri t) (ticks t) (last_sec t) (last_usec t).

(** The module's parameters. *)
Record timer_defaults := TimerDefaults { default_id : snd_timer_id; default_resolution : Z }.

Section Timer.
Context (dflt : timer_defaults).

Definition snd_seq_timer_defaults (tmr : seq_timer) : option seq_timer :=
  let tmr := tmr <| ppq := 96 |> <| tempo := 500000 |> in
  match snd_seq_timer_set_tick_resolution (tmr_tick tmr) (tempo tmr) (ppq tmr) 1 with
  | None => None
  | Some t =>
      let base := if 0 <? default_resolution dflt then Z.quot 1000000000 (default_resolution dflt) else HZ in
      Some (tmr <| tmr_tick := t |> <| running := false |> <| ticks := 1 |>
                <| tmr_type := SEQ_TIMER_ALSA |> <| alsa_id := default_id dflt |>
                <| tmr_resolution := default_resolution dflt |>
                <| base_period := base |> <| period := base |>)
  end.

Definition snd_seq_timer_reset (tmr : seq_timer) : seq_timer :=
  tmr <| cur_time := Timestamp 0 0 |>
      <| tmr_tick := (tmr_tick tmr) <| cur_tick := 0 |> <| fraction := 0 |> |>.

Definition zero_timer : seq_timer :=
  SeqTimer false 0 0 (Timestamp 0 0) (TimerTick 0 0 0) 0 (TimerId 0 0 0 0 0) 0 0 0 0 0 0 0.

(** [alloc] is whether memory was found. *)
Definition snd_seq_timer_new (alloc : bool) : option (option seq_timer) :=
  if negb alloc then Some None
  else option_map (fun t => Some (snd_seq_timer_reset t)) (snd_seq_timer_defaults zero_timer).

(** [snd_seq_timer_interrupt] up to the call of [snd_seq_check_queue]; [now] is the time of
    day.  The flag tells whether the queue is to be checked. *)
Definition snd_seq_timer_interrupt (now : Z * Z) (tmr : seq_timer) : bool * seq_timer :=
  if negb (running tmr) then (false, tmr)
  else
    let resolution := period tmr in
    (true, tmr <| cur_time := snd_seq_inc_time_nsec (cur_time tmr) resolution |>
               <| tmr_tick := snd_seq_timer_update_tick (tmr_tick tmr) resolution |>
               <| last_sec := now.1 |> <| last_usec := now.2 |>).

(** *** Settings *)

Definition snd_seq_timer_set_tempo (tmr : seq_timer) (t : Z) : option (Z * seq_timer) :=
  if 0 <? t then
    if negb (u32 t =? tempo tmr) then
      match snd_seq_timer_set_tick_resolution (tmr_tick tmr) t (ppq tmr) 1 with
      | None => None
      | Some k => Some (0, tmr <| tempo := u32 t |> <| tmr_tick := k |>)
      end
    else Some (0, tmr)
  else Some (-EINVAL, tmr).

Definition snd_seq_timer_set_ppq (tmr : seq_timer) (p : Z) : option (Z * seq_timer) :=
  if 0 <? p then
    if running tmr && negb (p =? ppq tmr) then Some (-EBUSY, tmr)
    else
      match snd_seq_timer_set_tick_resolution (tmr_tick tmr) (s32 (tempo tmr)) p 1 with
      | None => None
      | Some k => Some (0, tmr <| ppq := p |> <| tmr_tick := k |>)
      end
  else Some (-EINVAL, tmr).

Definition snd_seq_timer_set_position_tick (tmr : seq_timer) (position : Z) : Z * seq_timer :=
  if running tmr then (-EBUSY, tmr)
  else (0, tmr <| tmr_tick := (tmr_tick tmr) <| cur_tick := position |> <| fraction := 0 |> |>).

Definition snd_seq_timer_set_position_time (tmr : seq_timer) (position : snd_seq_timestamp) : Z * seq_timer :=
  if running tmr then (-EBUSY, tmr)
  else (0, tmr <| cur_time := snd_seq_sanity_real_time position |>).

(** *** Running *)

Section Core.
Context {T : Type} `{SndTimer T}.

Definition core (f : T -> T) : ST T unit := update f.
Definition open_timer (queue : Z) (id : snd_timer_id) : ST T Z := fun s => Some (snd_timer_open queue id s).
Definition ask {A} (f : T -> A) : ST T A := fun s => Some (f s, s).

(** Using an instance that is not there crashes. *)
Definition instance (t : Z) : ST T unit := if t =? 0 then crash else ret tt.

Definition snd_seq_timer_stop (tmr : seq_timer) : ST T seq_timer :=
  if negb (running tmr) then ret tmr
  else (core (snd_timer_stop (timeri tmr));;; ret (tmr <| running := false |>)).

Definition snd_seq_timer_start (now : Z * Z) (tmr : seq_timer) : ST T seq_timer :=
  tmr <- (if running tmr then snd_seq_timer_stop tmr else ret tmr);;
  let tmr := snd_seq_timer_reset tmr in
  core (snd_timer_start (timeri tmr) (ticks tmr));;;
  ret (tmr <| running := true |> <| last_sec := now.1 |> <| last_usec := now.2 |>).

Definition snd_seq_timer_continue (now : Z * Z) (tmr : seq_timer) : ST T seq_timer :=
  if running tmr then ret tmr
  else
    (core (snd_timer_start (timeri tmr) (ticks tmr));;;
     ret (tmr <| running := true |> <| last_sec := now.1 |> <| last_usec := now.2 |>)).

(** The second attempt, with the system timer. *)
Definition open_default (queue : Z) (tmr : seq_timer) : ST T Z :=
  if negb (dev_class (alsa_id tmr) =? TIMER_CLASS_GLOBAL) &&
     negb (device (alsa_id tmr) =? TIMER_GLOBAL_SYSTEM)
  then open_timer queue (TimerId TIMER_CLASS_GLOBAL 0 0 TIMER_GLOBAL_SYSTEM 0)
  else ret 0.

Definition snd_seq_timer_open (queue : Z) (tmr : seq_timer) : ST T (Z * seq_timer) :=
  if negb (timeri tmr =? 0) then ret (-EBUSY, tmr)
  else if negb (tmr_type tmr =? SEQ_TIMER_ALSA) then ret (-EINVAL, tmr)
  else
    (t <- open_timer queue (alsa_id tmr);;
     t <- (if (t =? 0) && negb (dev_class (alsa_id tmr) =? TIMER_CLASS_SLAVE)
           then (t <- open_default queue tmr;; ret (if t =? 0 then None else Some t))
           else ret (Some t));;
     match t with
     | None => ret (-ENODEV, tmr)
     | Some t =>
         instance t;;;
         core (setup_slave t TIMER_SCLASS_SEQUENCER queue);;;
         (if tmr_resolution tmr =? 0 then crash else ret tt);;;
         let tmp := 1000000000 / u32 (tmr_resolution tmr) in
         slave <- ask (hw_slave t);;
         slave <- match slave with Some b => ret b | None => crash end;;
         tmr <- (if (slave : bool) then
                   ret (tmr <| ticks := 1 |> <| period := tmp |> <| base_period := tmp |>)
                 else
                   (tmp1 <- ask (snd_timer_resolution t);;
                    if tmp <=? tmp1 then
                      ret (tmr <| ticks := 1 |> <| period := tmp1 |> <| base_period := tmp1 |>)
                    else if tmp1 =? 0 then crash
                    else
                      let n := tmp / tmp1 in
                      ret (tmr <| ticks := n |> <| period := s32 (tmp1 * n) |>
                               <| base_period := s32 (tmp1 * n) |>)));;
         core (setup_callback t queue);;;
         ret (0, tmr <| timeri := t |>)
     end).

Definition snd_seq_timer_close (tmr : seq_timer) : ST T seq_timer :=
  if negb (timeri tmr =? 0) then
    (core (snd_timer_stop (timeri tmr));;;
     core (snd_timer_close (timeri tmr));;;
     ret (tmr <| timeri := 0 |>))
  else ret tmr.

Definition snd_seq_timer_delete (tmr : seq_timer) : ST T unit :=
  snd_seq_timer_stop (tmr <| running := false |>);;; ret tt.
End Core.

(** *** The time between two interrupts *)

Definition snd_seq_timer_get_cur_time (now : Z * Z) (tmr : seq_timer) : snd_seq_timestamp :=
  let t := cur_time tmr in
  if running tmr then
    let usec := now.2 - last_usec tmr in
    snd_seq_sanity_real_time
      (if usec <? 0
       then Timestamp (u32 (tv_sec t + (now.1 - last_sec tmr - 1))) (u32 (tv_nsec t + (1000000 + usec) * 1000))
       else Timestamp (u32 (tv_sec t + (now.1 - last_sec tmr))) (u32 (tv_nsec t + usec * 1000)))
  else t.

Definition snd_seq_timer_get_cur_tick (tmr : seq_timer) : Z := cur_tick (tmr_tick tmr).
End Timer.
