(* ===== verification/SeqClock.v ===== *)
(** * SeqClock: a queue's clock keeps time

    The tick length against the tempo, the position after any number of timer interrupts,
    the time between two of them, and the opening of the timer, for SeqTimer.v. *)

From S2P Require Import Prelude SeqEvent SeqTimer.
Open Scope Z_scope.
Open Scope state_scope.

(** ** Ticks *)

(** Nanoseconds since tick 0. *)
Definition tick_nsec (t : seq_timer_tick) : Z := cur_tick t * tick_resolution t + fraction t.

Record tick_wf (t : seq_timer_tick) : Prop := {
  tk_tick : is_u32 (cur_tick t);
  tk_resolution : 0 < tick_resolution t <= UINT_MAX;
  tk_fraction : 0 <= fraction t < tick_resolution t }.

Lemma update_tick_exact t n :
  0 < tick_resolution t <= UINT_MAX -> is_u32 (cur_tick t) -> 0 <= fraction t -> 0 <= n ->
  fraction t + n <= UINT_MAX -> tick_nsec t + n < (UINT_MAX + 1) * tick_resolution t ->
  let t' := snd_seq_timer_update_tick t n in
  tick_wf t' /\ tick_resolution t' = tick_resolution t /\ tick_nsec t' = tick_nsec t + n.
Proof.
  unfold tick_nsec, snd_seq_timer_update_tick. destruct t as [c r f]. simpl. intros Hr Hc Hf Hn Hs Ht.
  rewrite (proj2 (Z.ltb_lt 0 r)) by lia. simpl. rewrite (u32_small (f + n)) by range_lia.
  assert (Hd : 0 <= (f + n) / r) by (apply Z.div_pos; lia).
  pose proof (Z.div_mod (f + n) r ltac:(lia)) as E. pose proof (Z.mod_pos_bound (f + n) r ltac:(lia)) as B.
  assert (Hsum : c + (f + n) / r <= UINT_MAX).
  { unfold is_u32 in Hc. assert (c * r + r * ((f + n) / r) < (UINT_MAX + 1) * r) by lia.
    assert ((c + (f + n) / r) * r < (UINT_MAX + 1) * r) by lia. apply Z.mul_lt_mono_pos_r in H0; lia. }
  rewrite (u32_small (c + _)) by range_lia. split; [| split; [done | lia]]. split; simpl; [range_lia | lia | lia].
Qed.

(** Dividing in two steps, as the code does for slow tempos. *)
Lemma split_quotient a b : 0 < b -> 0 <= a -> a / b * 1000 + a mod b * 1000 / b = a * 1000 / b.
Proof.
  intros Hb Ha. pose proof (Z.div_mod a b ltac:(lia)) as E.
  replace (a * 1000) with (a mod b * 1000 + a / b * 1000 * b) by lia. rewrite Z.div_add by lia. lia.
Qed.

(** The length of a tick is the tempo divided by the resolution.  For a tempo in
    microseconds per quarter and a number of ticks per quarter, both positive, a tick lasts
    the quotient in whole nanoseconds, at least one, in the two ways it is computed, as long
    as it and the remainder of the division fit in 32 bits.  The position in nanoseconds is
    carried over: the ticks already gone keep their count. *)
Theorem tick_resolution_spec t tempo ppq :
  tick_wf t -> 0 < tempo <= INT_MAX -> 0 < ppq <= INT_MAX ->
  tempo * 1000 / ppq <= UINT_MAX -> tempo mod ppq * 1000 <= UINT_MAX ->
  cur_tick t + fraction t <= UINT_MAX ->
  exists t', snd_seq_timer_set_tick_resolution t tempo ppq 1 = Some t' /\
    tick_resolution t' = Z.max 1 (tempo * 1000 / ppq) /\ tick_wf t' /\
    cur_tick t' * tick_resolution t' + fraction t' = cur_tick t * tick_resolution t' + fraction t.
Proof.
  intros [W1 W2 W3] Ht Hp Hmax Hrem Hsum. unfold snd_seq_timer_set_tick_resolution.
  rewrite (proj2 (Z.eqb_neq ppq 0)) by lia. cbv zeta.
  assert (Hq : 0 <= tempo * 1000 / ppq) by (apply Z.div_pos; lia).
  set (r := if tempo <? 1000000 then _ else _).
  assert (Er : r = tempo * 1000 / ppq).
  { unfold r. destruct (tempo <? 1000000).
    - rewrite Z.quot_div_nonneg by lia. apply u32_small. range_lia.
    - pose proof (Z.mod_pos_bound tempo ppq ltac:(lia)). pose proof (split_quotient tempo ppq ltac:(lia) ltac:(lia)) as S.
      assert (0 <= tempo mod ppq * 1000 / ppq) by (apply Z.div_pos; lia).
      assert (0 <= tempo / ppq) by (apply Z.div_pos; lia).
      rewrite Z.rem_mod_nonneg, Z.quot_div_nonneg by lia.
      rewrite (u32_small (tempo mod ppq)), (u32_small ppq), (u32_small (_ mod _ * 1000)) by range_lia.
      rewrite (u32_small (tempo / ppq * 1000)), S by range_lia. apply u32_small. range_lia. }
  rewrite Er. set (r1 := if tempo * 1000 / ppq <=? 0 then 1 else tempo * 1000 / ppq).
  assert (E1 : r1 = Z.max 1 (tempo * 1000 / ppq)) by (unfold r1; btest; lia).
  rewrite Z.mul_1_r, (u32_small r1) by range_lia. eexists. split; [reflexivity |].
  set (t1 := t <| tick_resolution := r1 |>).
  destruct (update_tick_exact t1 0) as (A & B & C); unfold tick_nsec; simpl.
  1-5: range_lia.
  { unfold is_u32 in W1. rewrite Z.add_0_r. nia. }
  rewrite B. simpl. split; [exact E1 |]. split; [exact A |].
  unfold tick_nsec in C. rewrite B in C. simpl in C. lia.
Qed.

Lemma tick_resolution_spec_witness :
  exists t', snd_seq_timer_set_tick_resolution (TimerTick 10 5208333 40) 2000000 480 1 = Some t' /\
    tick_resolution t' = 4166666.
Proof.
  destruct (tick_resolution_spec (TimerTick 10 5208333 40) 2000000 480) as (t' & E & R & _).
  - split; simpl; [range_lia | range_lia | lia].
  - range_lia.
  - range_lia.
  - vm_compute. congruence.
  - vm_compute. congruence.
  - simpl. range_lia.
  - exists t'. split; [exact E | rewrite R; reflexivity].
Defined.

(** ** Interrupts *)

(** One interrupt after another, at the given times of day. *)
Fixpoint interrupts (nows : list (Z * Z)) (tmr : seq_timer) : seq_timer :=
  match nows with
  | [] => tmr
  | now :: nows => interrupts nows (snd_seq_timer_interrupt now tmr).2
  end.

Record clock_wf (tmr : seq_timer) : Prop := {
  cw_time : time_wf (cur_time tmr);
  cw_tick : tick_wf (tmr_tick tmr);
  cw_period : 0 <= period tmr <= UINT_MAX - NSEC;
  cw_sum : tick_resolution (tmr_tick tmr) + period tmr <= UINT_MAX }.

(** The seconds fit when the nanoseconds do. *)
Lemma seconds_fit t n :
  0 <= tv_nsec t < NSEC -> nsec_of t + n < (UINT_MAX + 1) * NSEC ->
  tv_sec t + (tv_nsec t + n) / NSEC <= UINT_MAX.
Proof.
  unfold nsec_of. intros Ht Hn. apply Z.lt_succ_r.
  assert (tv_sec t + (tv_nsec t + n) / NSEC = (tv_sec t * NSEC + tv_nsec t + n) / NSEC) as ->
    by (replace (tv_sec t * NSEC + tv_nsec t + n) with (tv_sec t * NSEC + (tv_nsec t + n)) by lia;
        rewrite Z.div_add_l by (unfold NSEC; lia); reflexivity).
  apply Z.div_lt_upper_bound; [unfold NSEC; lia |]. rewrite Z.mul_comm. unfold Z.succ. lia.
Qed.

Lemma interrupt_exact now tmr :
  running tmr = true -> clock_wf tmr ->
  nsec_of (cur_time tmr) + period tmr < (UINT_MAX + 1) * NSEC ->
  tick_nsec (tmr_tick tmr) + period tmr < (UINT_MAX + 1) * tick_resolution (tmr_tick tmr) ->
  let '(check, tmr') := snd_seq_timer_interrupt now tmr in
  check = true /\ running tmr' = true /\ clock_wf tmr' /\ period tmr' = period tmr /\
  tick_resolution (tmr_tick tmr') = tick_resolution (tmr_tick tmr) /\
  nsec_of (cur_time tmr') = nsec_of (cur_time tmr) + period tmr /\
  tick_nsec (tmr_tick tmr') = tick_nsec (tmr_tick tmr) + period tmr /\
  last_sec tmr' = now.1 /\ last_usec tmr' = now.2.
Proof.
  intros Hrun [Wt [K1 K2 K3] Wp Ws] Hn Hk. unfold snd_seq_timer_interrupt. rewrite Hrun. cbn [negb].
  destruct (inc_time_nsec_exact (cur_time tmr) (period tmr) Wt Wp) as [A B].
  { apply seconds_fit; [apply Wt | exact Hn]. }
  destruct (update_tick_exact (tmr_tick tmr) (period tmr)) as (C & D & E); [lia | exact K1 | lia | lia | lia | exact Hk |].
  split; [reflexivity |]. split; [exact Hrun |].
  split; [split; simpl; [exact A | exact C | exact Wp | rewrite D; exact Ws] |].
  split; [reflexivity |]. split; [exact D |]. split; [exact B |]. split; [exact E |]. split; reflexivity.
Qed.

(** C34: a running clock does not drift.  After any number of timer interrupts, whatever the
    times of day, the real time of the queue and its position in ticks have both advanced by
    exactly that many periods, to the nanosecond; the rest of a tick is always less than a
    tick.  This holds until the seconds or the ticks exceed 32 bits, and as long as the length
    of a tick and the period together are at most 4294967295 nanoseconds ([clock_wf]).  Neither
    [snd_seq_timer_set_tempo] nor [snd_seq_timer_set_ppq] checks the latter: with ticks of
    4.294967 seconds and a period of four milliseconds a tick is lost ([long_ticks_lose_time]). *)
Theorem timer_no_drift nows tmr :
  running tmr = true -> clock_wf tmr ->
  let total := Z.of_nat (length nows) * period tmr in
  nsec_of (cur_time tmr) + total < (UINT_MAX + 1) * NSEC ->
  tick_nsec (tmr_tick tmr) + total < (UINT_MAX + 1) * tick_resolution (tmr_tick tmr) ->
  let tmr' := interrupts nows tmr in
  nsec_of (cur_time tmr') = nsec_of (cur_time tmr) + total /\ tv_nsec (cur_time tmr') < NSEC /\
  snd_seq_timer_get_cur_tick tmr' = (tick_nsec (tmr_tick tmr) + total) / tick_resolution (tmr_tick tmr) /\
  fraction (tmr_tick tmr') = (tick_nsec (tmr_tick tmr) + total) mod tick_resolution (tmr_tick tmr).
Proof.
  assert (G : forall nows tmr, running tmr = true -> clock_wf tmr ->
    let total := Z.of_nat (length nows) * period tmr in
    nsec_of (cur_time tmr) + total < (UINT_MAX + 1) * NSEC ->
    tick_nsec (tmr_tick tmr) + total < (UINT_MAX + 1) * tick_resolution (tmr_tick tmr) ->
    let tmr' := interrupts nows tmr in
    clock_wf tmr' /\ tick_resolution (tmr_tick tmr') = tick_resolution (tmr_tick tmr) /\
    nsec_of (cur_time tmr') = nsec_of (cur_time tmr) + total /\
    tick_nsec (tmr_tick tmr') = tick_nsec (tmr_tick tmr) + total).
  { clear. intros nows. induction nows as [| now nows IH]; intros tmr Hrun W total Hn Hk; cbn [interrupts].
    { unfold total. simpl. rewrite !Z.add_0_r. done. }
    pose proof W as [_ _ Hp _]. unfold total in *. cbn [length] in *.
    pose proof (interrupt_exact now tmr Hrun W ltac:(nia) ltac:(nia)) as I.
    destruct (snd_seq_timer_interrupt now tmr) as [check t1]. cbn [snd].
    destruct I as (_ & R1 & W1 & P1 & D1 & N1 & K1 & _).
    specialize (IH t1 R1 W1). rewrite P1, N1, K1, D1 in IH. destruct IH as (A & B & C & D); [lia | lia |].
    split; [done |]. split; [done |]. split; lia. }
  intros Hrun W total Hn Hk tmr'. destruct (G nows tmr Hrun W Hn Hk) as ([[_ A] [K1 K2 K3] _ _] & B & C & D).
  fold tmr' in A, B, C, D, K1, K2, K3. split; [done |]. split; [lia |].
  unfold snd_seq_timer_get_cur_tick, tick_nsec in *. rewrite B in *.
  fold total in D. rewrite <- D. split.
  - rewrite Z.div_add_l by lia. rewrite Z.div_small by lia. lia.
  - rewrite Z.add_comm, Z.mod_add by lia. by rewrite Z.mod_small.
Qed.

Definition system_timer : timer_defaults := TimerDefaults (TimerId TIMER_CLASS_GLOBAL 0 (-1) 0 0) 250.
Definition standard_timer : seq_timer :=
  (default zero_timer (snd_seq_timer_defaults system_timer zero_timer)) <| running := true |>.

(** Twenty-five interrupts of four milliseconds at 120 beats a minute: 19 ticks and a bit. *)
Lemma timer_no_drift_witness :
  let tmr' := interrupts (replicate 25 (0, 0)) standard_timer in
  nsec_of (cur_time tmr') = 100000000 /\ snd_seq_timer_get_cur_tick tmr' = 19.
Proof.
  destruct (timer_no_drift (replicate 25 (0, 0)) standard_timer) as (A & _ & B & _).
  - reflexivity.
  - split; [split; vm_compute; intuition congruence | split; vm_compute; intuition congruence
           | vm_compute; intuition congruence | vm_compute; congruence].
  - by vm_compute.
  - by vm_compute.
  - split; [rewrite A; reflexivity | rewrite B; reflexivity].
Defined.

(** The fraction of a tick wraps around before it is divided by the length of a tick: one tick
    of 4294967 microseconds and four milliseconds more have passed, and no tick is counted. *)
Definition slow_timer : seq_timer :=
  let t := default zero_timer (snd_seq_timer_defaults system_timer zero_timer) in
  let t := default t (snd <$> snd_seq_timer_set_tempo t 4294967) in
  let t := default t (snd <$> snd_seq_timer_set_ppq t 1) in
  t <| running := true |> <| period := 4000000 |>.

Example long_ticks_lose_time :
  let tmr' := interrupts (replicate 1074 (0, 0)) slow_timer in
  tick_resolution (tmr_tick slow_timer) = 4294967000 /\
  nsec_of (cur_time tmr') = 4296000000 /\ snd_seq_timer_get_cur_tick tmr' = 0 /\ fraction (tmr_tick tmr') = 1032704.
Proof. vm_compute. repeat split; reflexivity. Qed.

(** The time asked for between two interrupts: that of the last one, and the time gone by
    since on the clock of the day, in microseconds. *)
Lemma cur_time_interpolates now tmr :
  running tmr = true -> time_wf (cur_time tmr) ->
  0 <= now.2 < 1000000 -> 0 <= last_usec tmr < 1000000 ->
  let gone := (now.1 - last_sec tmr) * 1000000 + (now.2 - last_usec tmr) in
  0 <= gone -> nsec_of (cur_time tmr) + gone * 1000 < UINT_MAX * NSEC ->
  nsec_of (snd_seq_timer_get_cur_time now tmr) = nsec_of (cur_time tmr) + gone * 1000.
Proof.
  intros Hrun [Hs Hn] Hu Hl gone Hg Hmax. unfold snd_seq_timer_get_cur_time. rewrite Hrun.
  unfold nsec_of, gone, is_u32, NSEC, UINT_MAX in *. destruct (cur_time tmr) as [s n]. simpl in *.
  destruct (Z.ltb_spec (now.2 - last_usec tmr) 0) as [Hneg | Hpos];
    rewrite sanity_real_time_spec by (simpl; apply u32_range); simpl; unfold NSEC;
    rewrite (u32_small (s + _)), (u32_small (n + _)) by range_lia; word_lia.
Qed.

(** ** Opening the timer *)

Section Open.
Context {T : Type} `{SndTimer T}.

(** The device that is opened: the one chosen, or else the system timer. *)
Definition opened (queue : Z) (tmr : seq_timer) (s : T) : Z * T :=
  let '(t, s) := snd_timer_open queue (alsa_id tmr) s in
  if t =? 0 then
    if negb (dev_class (alsa_id tmr) =? TIMER_CLASS_SLAVE) &&
       negb (dev_class (alsa_id tmr) =? TIMER_CLASS_GLOBAL) &&
       negb (device (alsa_id tmr) =? TIMER_GLOBAL_SYSTEM)
    then snd_timer_open queue (TimerId TIMER_CLASS_GLOBAL 0 0 TIMER_GLOBAL_SYSTEM 0) s
    else (0, s)
  else (t, s).

(** The ticks of the device in a period of the queue: as many as fit in the time asked for. *)
Lemma period_ticks want tick :
  0 < tick -> tick < want -> 1 <= want / tick /\ tick * (want / tick) <= want < tick * (want / tick) + tick.
Proof.
  intros Ht Hw. pose proof (Z.div_mod want tick ltac:(lia)). pose proof (Z.mod_pos_bound want tick Ht).
  split; [| lia]. apply Z.div_le_lower_bound; lia.
Qed.

(** Opening the timer of a queue.  A timer that is open is not opened again ([-EBUSY]) and
    a type other than an ALSA timer is refused ([-EINVAL]), with nothing changed.  Otherwise
    the chosen device is opened, or in its place the system timer; without either the result
    is [-ENODEV] and the queue's timer is as before.  With a device that is not a slave the
    period of the queue is a whole number of its ticks: one, or as many as fit in the time
    between interrupts that was asked for, which is missed by less than a tick. *)
Theorem timer_open_spec queue tmr s :
  (timeri tmr <> 0 -> snd_seq_timer_open queue tmr s = Some ((-EBUSY, tmr), s)) /\
  (timeri tmr = 0 -> tmr_type tmr <> SEQ_TIMER_ALSA -> snd_seq_timer_open queue tmr s = Some ((-EINVAL, tmr), s)) /\
  (timeri tmr = 0 -> tmr_type tmr = SEQ_TIMER_ALSA -> dev_class (alsa_id tmr) <> TIMER_CLASS_SLAVE ->
     let '(t, s1) := opened queue tmr s in
     let s2 := setup_slave t TIMER_SCLASS_SEQUENCER queue s1 in
     let want := NSEC / tmr_resolution tmr in
     let tick := snd_timer_resolution t s2 in
     (t = 0 -> snd_seq_timer_open queue tmr s = Some ((-ENODEV, tmr), s1)) /\
     (t <> 0 -> hw_slave t s2 = Some false -> 0 < tmr_resolution tmr <= UINT_MAX -> 0 < tick -> want <= INT_MAX ->
        exists n, snd_seq_timer_open queue tmr s =
          Some ((0, tmr <| ticks := n |> <| period := tick * n |> <| base_period := tick * n |> <| timeri := t |>),
                setup_callback t queue s2) /\
          1 <= n /\ (want <= tick -> n = 1) /\ (tick < want -> tick * n <= want < tick * n + tick))).
Proof.
  split; [| split].
  - intros E. unfold snd_seq_timer_open. by rewrite (proj2 (Z.eqb_neq _ _) E).
  - intros E1 E2. unfold snd_seq_timer_open. by rewrite E1, (proj2 (Z.eqb_neq _ _) E2).
  - intros E1 E2 E3. unfold opened. rewrite (proj2 (Z.eqb_neq _ _) E3). cbn [negb andb].
    destruct (snd_timer_open queue (alsa_id tmr) s) as [t0 s0] eqn:Eo.
    set (o := if t0 =? 0 then _ else _).
    assert (Prefix : (t <- open_timer queue (alsa_id tmr);;
       if (t =? 0) && negb (dev_class (alsa_id tmr) =? TIMER_CLASS_SLAVE)
           then (t <- open_default queue tmr;; ret (if t =? 0 then None else Some t))
           else ret (Some t)) s = Some (if o.1 =? 0 then None else Some o.1, o.2)).
    { unfold bind at 1, open_timer at 1. rewrite Eo, (proj2 (Z.eqb_neq _ _) E3), andb_true_r. unfold o.
      destruct (Z.eqb_spec t0 0) as [-> | Ht]; [| cbn [fst snd]; by rewrite (proj2 (Z.eqb_neq _ _) Ht)].
      unfold open_default. destruct (_ && _); [| done]. unfold bind, open_timer, ret.
      by destruct (snd_timer_open queue _ s0). }
    destruct o as [t s1] eqn:Eo'. cbn [fst snd] in Prefix. cbv zeta.
    unfold snd_seq_timer_open. rewrite E1, E2. cbn [negb Z.eqb]. change (SEQ_TIMER_ALSA =? SEQ_TIMER_ALSA) with true.
    cbn [negb].
    rewrite <- bind_assoc, (bind_some _ _ _ _ _ Prefix). clear Prefix Eo' o. split; [by intros -> |].
    intros Ht Hs Hr Htk Hw. rewrite (proj2 (Z.eqb_neq t 0) Ht). cbv zeta.
    unfold instance. rewrite (proj2 (Z.eqb_neq t 0) Ht), (proj2 (Z.eqb_neq (tmr_resolution tmr) 0)) by lia.
    set (s2 := setup_slave t TIMER_SCLASS_SEQUENCER queue s1) in *. rewrite (u32_small (tmr_resolution tmr)) by range_lia.
    change 1000000000 with NSEC. set (want := NSEC / tmr_resolution tmr) in *. set (tick := snd_timer_resolution t s2) in *.
    do 2 rewrite (bind_some _ _ _ tt _ eq_refl). fold s2. rewrite (bind_some _ _ _ tt _ eq_refl).
    rewrite (bind_some _ _ _ (Some false) s2) by (unfold ask; by rewrite Hs).
    rewrite (bind_some _ _ _ false s2 eq_refl).
    destruct (Z.leb_spec want tick) as [Hle | Hlt].
    + exists 1. rewrite Z.mul_1_r. split; [| split; [lia | split; [done | lia]]].
      unfold bind, ask. fold tick. by rewrite (proj2 (Z.leb_le want tick)).
    + destruct (period_ticks want tick Htk Hlt) as (P1 & P2 & P3). exists (want / tick).
      split; [| split; [done | split; [lia | done]]].
      unfold bind, ask. fold tick. rewrite (proj2 (Z.leb_gt want tick)), (proj2 (Z.eqb_neq tick 0)) by lia.
      rewrite s32_small by range_lia. done.
Qed.
End Open.

(** A core with the system timer alone, of a millisecond. *)
Definition millisecond_timer : SndTimer unit := {|
  snd_timer_open := fun _ id t => (if dev_class id =? TIMER_CLASS_GLOBAL then 5 else 0, t);
  setup_slave := fun _ _ _ t => t;
  setup_callback := fun _ _ t => t;
  hw_slave := fun _ _ => Some false;
  snd_timer_resolution := fun _ _ => 1000000;
  snd_timer_start := fun _ _ t => t;
  snd_timer_stop := fun _ t => t;
  snd_timer_close := fun _ t => t |}.

(** The 250 interrupts a second of the default: four ticks each. *)
Lemma timer_open_spec_witness :
  exists n, snd_seq_timer_open (H := millisecond_timer) 0 standard_timer tt =
    Some ((0, standard_timer <| ticks := n |> <| period := 1000000 * n |> <| base_period := 1000000 * n |>
                             <| timeri := 5 |>), tt) /\ 1 <= n.
Proof.
  destruct (timer_open_spec (H := millisecond_timer) 0 standard_timer tt) as (_ & _ & E).
  destruct E as [_ E].
  - reflexivity.
  - reflexivity.
  - vm_compute. congruence.
  - destruct E as (n & E & Hn & _).
    + vm_compute. congruence.
    + reflexivity.
    + vm_compute. intuition congruence.
    + reflexivity.
    + vm_compute. congruence.
    + exists n. split; [exact E | exact Hn].
Defined.

(** A resolution of 0, which a client may set, divides by zero. *)
Lemma zero_resolution_crashes {T} `{SndTimer T} queue tmr (s : T) :
  timeri tmr = 0 -> tmr_type tmr = SEQ_TIMER_ALSA -> tmr_resolution tmr = 0 ->
  (snd_timer_open queue (alsa_id tmr) s).1 <> 0 -> snd_seq_timer_open queue tmr s = None.
Proof.
  intros E1 E2 E3 Ht. unfold snd_seq_timer_open. rewrite E1, E2, E3. cbn [negb Z.eqb].
  change (SEQ_TIMER_ALSA =? SEQ_TIMER_ALSA) with true. cbn [negb].
  destruct (snd_timer_open queue (alsa_id tmr) s) as [t s1] eqn:Eo. cbn [fst] in Ht.
  rewrite (bind_some _ _ s t s1) by (unfold open_timer; by rewrite Eo).
  rewrite (proj2 (Z.eqb_neq t 0) Ht). cbn [andb]. rewrite (bind_some _ _ s1 (Some t) s1) by done. cbv iota.
  unfold instance. rewrite (proj2 (Z.eqb_neq t 0) Ht). done.
Qed.

(** A slave timer that cannot be opened is used all the same. *)
Lemma missing_slave_crashes {T} `{SndTimer T} queue tmr (s : T) :
  timeri tmr = 0 -> tmr_type tmr = SEQ_TIMER_ALSA -> dev_class (alsa_id tmr) = TIMER_CLASS_SLAVE ->
  (snd_timer_open queue (alsa_id tmr) s).1 = 0 -> snd_seq_timer_open queue tmr s = None.
Proof.
  intros E1 E2 E3 Ht. unfold snd_seq_timer_open. rewrite E1, E2, E3. cbn [negb Z.eqb].
  change (SEQ_TIMER_ALSA =? SEQ_TIMER_ALSA) with true. cbn [negb].
  destruct (snd_timer_open queue (alsa_id tmr) s) as [t s1] eqn:Eo. cbn [fst] in Ht. subst t.
  rewrite (bind_some _ _ s 0 s1) by (unfold open_timer; by rewrite Eo). done.
Qed.

(** The system timer is only tried when neither the class nor the device are its own: a
    missing first device of a card fails. *)
Lemma fallback_needs_device queue tmr :
  timeri tmr = 0 -> tmr_type tmr = SEQ_TIMER_ALSA -> dev_class (alsa_id tmr) = 2 -> device (alsa_id tmr) = 0 ->
  snd_seq_timer_open (H := millisecond_timer) queue tmr tt = Some ((-ENODEV, tmr), tt).
Proof.
  intros E1 E2 E3 E4. unfold snd_seq_timer_open. rewrite E1, E2. cbn [negb Z.eqb].
  unfold bind, open_timer, open_default. simpl. rewrite E3, E4. reflexivity.
Qed.
