(* ===== verification/SeqQueue.v ===== *)
(** * SeqQueue: the sequencer's queues

    alsa/core/seq/seq_queue.c, with [snd_seq_dispatch_event] of seq_clientmgr.c and the
    interrupt of seq_timer.c, which call it and are called by it.  The delivery of an event
    to the clients is an interface.  A queue is named by its number, as the functions that
    look it up do; each holds the queue's lock while it changes a field, and the use lock is
    empty in this build. *)

From S2P Require Import Prelude SeqEvent SeqCells SeqMemory SeqPrioq SeqTimer.
Open Scope Z_scope.
Open Scope state_scope.

(** [queue_t] *)
Record queue := Queue {
  q_queue : Z; q_name : list Z;
  q_tickq : prioq; q_timeq : prioq; q_timer : seq_timer;
  q_owner : Z; q_locked : bool; q_klocked : bool;
  q_check_again : bool; q_check_blocked : bool;
  q_info_flags : Z;
  q_clients_bitmap : Z; q_clients : Z }.
#[export] Instance settable_queue : Settable queue :=
  fun q => Queue (q_queue q) (q_name q) (q_tickq q) (q_timeq q) (q_timer q) (q_owner q) (q_locked q)
    (q_klocked q) (q_check_again q) (q_check_blocked q) (q_info_flags q) (q_clients_bitmap q) (q_clients q).

(** The cells and pools, [queue_list] and [num_queues], the time of day, whether the code
    runs in an interrupt, and the timer core. *)
Record world (T : Type) := World {
  w_mem : seqmem;
  w_queues : list (option queue); w_num : Z;
  w_now : Z * Z; w_interrupt : bool;
  w_core : T }.
Arguments World {T}.
Arguments w_mem {T}.
Arguments w_queues {T}.
Arguments w_num {T}.
Arguments w_now {T}.
Arguments w_interrupt {T}.
Arguments w_core {T}.
#[export] Instance settable_world T : Settable (world T) :=
  fun w => World (w_mem w) (w_queues w) (w_num w) (w_now w) (w_interrupt w) (w_core w).

Definition initial_world {T} (m : seqmem) (t : T) : world T :=
  World m (replicate (Z.to_nat SEQ_MAX_QUEUES) None) 0 (0, 0) false t.

Section Access.
Context {T : Type}.

Definition in_mem {A} (f : M A) : ST (world T) A := fun w =>
  match f (w_mem w) with Some (x, m) => Some (x, w <| w_mem := m |>) | None => None end.
Definition in_core {A} (f : ST T A) : ST (world T) A := fun w =>
  match f (w_core w) with Some (x, t) => Some (x, w <| w_core := t |>) | None => None end.

(** [queue_list[id]] *)
Definition lookup_queue (w : world T) (id : Z) : option queue :=
  if (0 <=? id) && (id <? SEQ_MAX_QUEUES) then mjoin (w_queues w !! Z.to_nat id) else None.
Definition with_queue (id : Z) (q : option queue) (w : world T) : world T :=
  w <| w_queues := <[Z.to_nat id := q]> (w_queues w) |>.

Definition queue_at (id : Z) : ST (world T) queue := fun w =>
  match lookup_queue w id with Some q => Some (q, w) | None => None end.
Definition modify_queue (id : Z) (f : queue -> queue) : ST (world T) unit :=
  q <- queue_at id;; update (with_queue id (Some (f q))).
Definition now : ST (world T) (Z * Z) := fun w => Some (w_now w, w).

(** An operation of the timer of a queue; [None] is a crash. *)
Definition on_timer {A} (id : Z) (f : seq_timer -> ST T (A * seq_timer)) : ST (world T) A :=
  q <- queue_at id;;
  rt <- in_core (f (q_timer q));;
  modify_queue id (fun q => q <| q_timer := rt.2 |>);;;
  ret rt.1.
Definition timer_set {A} (id : Z) (f : seq_timer -> option (A * seq_timer)) : ST (world T) A :=
  on_timer id (fun tmr => match f tmr with Some r => ret r | None => crash end).
Definition timer_do (id : Z) (f : seq_timer -> ST T seq_timer) : ST (world T) unit :=
  on_timer id (fun tmr => tmr <- f tmr;; ret (tt, tmr)).

(** An operation of the tick queue or the real-time queue of a queue. *)
Definition prioq_of (ticks : bool) (q : queue) : prioq := if ticks then q_tickq q else q_timeq q.
Definition with_prioq (ticks : bool) (f : prioq) (q : queue) : queue :=
  if ticks then q <| q_tickq := f |> else q <| q_timeq := f |>.
Definition on_prioq {A} (id : Z) (ticks : bool) (f : prioq -> M (A * prioq)) : ST (world T) A :=
  q <- queue_at id;;
  rf <- in_mem (f (prioq_of ticks q));;
  modify_queue id (with_prioq ticks rf.2);;;
  ret rf.1.
Definition prioq_do (id : Z) (ticks : bool) (f : prioq -> M prioq) : ST (world T) unit :=
  on_prioq id ticks (fun p => p <- f p;; ret (tt, p)).

(** Whether the number is that of a queue. *)
Definition queueptr (id : Z) : ST (world T) bool := fun w =>
  Some (bool_decide (is_Some (lookup_queue w id)), w).

(** What the functions that take a queue's number begin with. *)
Definition with_queueptr {A} (id : Z) (err : A) (f : ST (world T) A) : ST (world T) A :=
  found <- queueptr id;; if (found : bool) then f else ret err.
End Access.

(** ** Names *)

(** [strncpy(dst, src, 64)]: what is stored. *)
Fixpoint strncpy (n : nat) (src : list Z) : list Z :=
  match n with
  | O => []
  | S n => match src with
           | c :: src => if c =? 0 then replicate (S n) 0 else c :: strncpy n src
           | [] => replicate (S n) 0
           end
  end.

(** ** The delivery of events, by the client manager *)

Class SeqClients (T : Type) := {
  client_exists : Z -> world T -> bool;
  snd_seq_deliver_event : Z -> snd_seq_event -> bool -> Z -> ST (world T) Z;
  snd_seq_kernel_client_dispatch : Z -> snd_seq_event -> bool -> Z -> ST (world T) Z }.

Definition CLIENT_SYSTEM : Z := 0.
Definition PORT_SYSTEM_TIMER : Z := 0.

Section Queue.
Context {T : Type} `{SndTimer T} `{SeqClients T} (dflt : timer_defaults).
Abbreviation W := (ST (world T)).

(** ** Dispatching and enqueueing

    The two call each other; [check] stands for the call of [snd_seq_check_queue]. *)

Section Check.
Context (check : Z -> bool -> Z -> W unit).

(** The time stamp an event is given in the queue: relative ones are made absolute. *)
Definition absolute (tmr : seq_timer) (e : snd_seq_event) : snd_seq_event :=
  if is_reltime e then
    (if is_tick e
     then e <| ev_time := Timestamp (u32 (tick (ev_time e) + cur_tick (tmr_tick tmr))) (tv_nsec (ev_time e)) |>
     else e <| ev_time := snd_seq_inc_real_time (ev_time e) (cur_time tmr) |>)
    <| ev_flags := Z.land (ev_flags e) (255 - TIME_MODE_MASK) |>
  else e.

Definition enqueue_event (cell : Z) (atomic : bool) (hop : Z) : W Z :=
  x <- in_mem (cell_at cell);;
  let dest := ev_queue (c_event x) in
  with_queueptr dest (-EINVAL)
    (q <- queue_at dest;;
     let e := absolute (q_timer q) (c_event x) in
     in_mem (set_event cell (fun _ => e));;;
     prioq_do dest (is_tick e) (fun f => snd_seq_prioq_cell_in f cell);;;
     check dest atomic hop;;;
     ret 0).

(** A note becomes the note-off that ends it. *)
Definition note_off (e : snd_seq_event) : snd_seq_event :=
  let t := ev_time e in
  let d := note_duration e in
  let t' := if is_tick e then Timestamp (u32 (tick t + d)) (tv_nsec t)
            else
              let ns := u32 (tv_nsec t + u32 (1000000 * (d mod 1000))) in
              Timestamp (u32 (tv_sec t + u32 (d / 1000 + ns / 1000000000))) (ns mod 1000000000) in
  e <| ev_type := EVENT_NOTEOFF |> <| ev_flags := Z.lor (ev_flags e) PRIORITY_MASK |>
    <| ev_time := t' |> <| ev_d0 := set_byte 2 (note_off_velocity e) (ev_d0 e) |>.

Definition snd_seq_dispatch_event (cell : Z) (atomic : bool) (hop : Z) : W Z := fun w =>
  (x <- in_mem (cell_at cell);;
   let e := c_event x in
   let client := addr_client (ev_source e) in
   if negb (client_exists client w) then (in_mem (snd_seq_cell_free cell);;; ret (-EINVAL))
   else if ev_type e =? EVENT_NOTE then
     (result <- snd_seq_deliver_event client (e <| ev_type := EVENT_NOTEON |>) atomic hop;;
      in_mem (set_event cell note_off);;;
      err <- enqueue_event cell atomic hop;;
      (if err <? 0 then in_mem (snd_seq_cell_free cell) else ret tt);;;
      ret result)
   else
     (result <- snd_seq_deliver_event client e atomic hop;;
      in_mem (snd_seq_cell_free cell);;;
      ret result)) w.

(** ** Checking a queue *)

(** Whether the time of an event has come. *)
Definition due (ticks : bool) (tmr : seq_timer) (e : snd_seq_event) : bool :=
  if ticks then snd_seq_compare_tick_time (cur_tick (tmr_tick tmr)) (tick (ev_time e))
  else snd_seq_compare_real_time (cur_time tmr) (ev_time e).

(** One of the two loops; the rest of the budget [dequeue]. *)
Fixpoint process (fuel : nat) (ticks : bool) (id : Z) (atomic : bool) (hop dequeue : Z) : W Z :=
  match fuel with
  | O => crash
  | S fuel =>
      if negb (0 <? dequeue) then ret dequeue
      else
        (q <- queue_at id;;
         let cell := snd_seq_prioq_cell_peek (prioq_of ticks q) in
         if cell =? NULL then ret dequeue
         else
           (x <- in_mem (cell_at cell);;
            if due ticks (q_timer q) (c_event x) then
              (cell <- on_prioq id ticks snd_seq_prioq_cell_out;;
               rc <- (if negb (cell =? NULL) then snd_seq_dispatch_event cell atomic hop else ret 0);;
               process fuel ticks id atomic hop (if 0 <? rc then dequeue - rc else dequeue))
            else ret dequeue))
  end.

(** From [__again] on. *)
Fixpoint check_loop (fuel : nat) (id : Z) (atomic : bool) (hop dequeue : Z) : W unit :=
  match fuel with
  | O => crash
  | S n =>
      dequeue <- process fuel true id atomic hop dequeue;;
      dequeue <- process fuel false id atomic hop dequeue;;
      q <- queue_at id;;
      if q_check_again q then
        (modify_queue id (fun q => q <| q_check_again := false |>);;;
         check_loop n id atomic hop dequeue)
      else modify_queue id (fun q => q <| q_check_blocked := false |>)
  end.

Definition dequeue_limit (w : world T) : Z := if w_interrupt w then SEQ_MAX_DEQUEUE else INT_MAX.

Definition check_queue (fuel : nat) (id : Z) (atomic : bool) (hop : Z) : W unit := fun w =>
  (q <- queue_at id;;
   if q_check_blocked q then modify_queue id (fun q => q <| q_check_again := true |>)
   else
     (modify_queue id (fun q => q <| q_check_blocked := true |>);;;
      check_loop fuel id atomic hop (dequeue_limit w))) w.
End Check.

Fixpoint snd_seq_check_queue (fuel : nat) (id : Z) (atomic : bool) (hop : Z) : W unit :=
  match fuel with
  | O => crash
  | S fuel => check_queue (snd_seq_check_queue fuel) fuel id atomic hop
  end.

Definition snd_seq_enqueue_event (fuel : nat) (cell : Z) (atomic : bool) (hop : Z) : W Z :=
  enqueue_event (snd_seq_check_queue fuel) cell atomic hop.

(** The callback of the timer instance of queue [id]. *)
Definition queue_timer_interrupt (fuel : nat) (id : Z) : W unit :=
  t <- now;;
  check <- on_timer id (fun tmr => ret (snd_seq_timer_interrupt t tmr));;
  if (check : bool) then snd_seq_check_queue fuel id true 0 else ret tt.

(** ** The list of queues *)

Definition queue_ids : list Z := seqZ 0 SEQ_MAX_QUEUES.

Fixpoint free_slot (l : list (option queue)) : option nat :=
  match l with
  | [] => None
  | None :: _ => Some O
  | Some _ :: l => option_map S (free_slot l)
  end.

(** The number given to the queue, or -1. *)
Definition queue_list_add (q : queue) : W Z := fun w =>
  match free_slot (w_queues w) with
  | Some i => Some (Z.of_nat i, with_queue (Z.of_nat i) (Some (q <| q_queue := Z.of_nat i |>))
                                  (w <| w_num := w_num w + 1 |>))
  | None => Some (-1, w)
  end.

Definition queue_list_remove (id client : Z) : W (option queue) := fun w =>
  match lookup_queue w id with
  | Some q =>
      if q_owner q =? client then
        Some (Some (q <| q_klocked := true |>), with_queue id None (w <| w_num := w_num w - 1 |>))
      else Some (None, w)
  | None => Some (None, w)
  end.

Definition snd_seq_queue_get_cur_queues (w : world T) : Z := w_num w.

(** Whether each of the four allocations succeeds. *)
Record queue_memory := QueueMemory { got_queue : bool; got_tickq : bool; got_timeq : bool; got_timer : bool }.

Definition queue_new (g : queue_memory) (owner : Z) (locked : bool) : W (option queue) :=
  if negb (got_queue g) then ret None
  else
    match snd_seq_timer_new dflt (got_timer g) with
    | None => crash
    | Some timer =>
        match timer, got_tickq g && got_timeq g with
        | Some tmr, true =>
            ret (Some (Queue (-1) (replicate 64 0) snd_seq_prioq_new snd_seq_prioq_new tmr owner locked
                         false false false 0 0 0))
        | _, _ => ret None
        end
    end.

(** The queue is no longer in the list. *)
Definition queue_delete (q : queue) : W unit :=
  tmr <- in_core (snd_seq_timer_stop (q_timer q));;
  tmr <- in_core (snd_seq_timer_close tmr);;
  in_mem (snd_seq_prioq_delete (q_tickq q));;;
  in_mem (snd_seq_prioq_delete (q_timeq q));;;
  in_core (snd_seq_timer_delete tmr).

(** A loop over all numbers of queues. *)
Fixpoint for_queues (ids : list Z) (f : Z -> W unit) : W unit :=
  match ids with
  | [] => ret tt
  | id :: ids => f id;;; for_queues ids f
  end.

(** ** The clients of a queue *)

Definition snd_seq_queue_use (queueid client : Z) (use : bool) : W Z :=
  with_queueptr queueid (-EINVAL)
    (q <- queue_at queueid;;
     let used := Z.testbit (q_clients_bitmap q) client in
     (if use
      then modify_queue queueid (fun q => q <| q_clients_bitmap := Z.setbit (q_clients_bitmap q) client |>
             <| q_clients := if used then q_clients q else u32 (q_clients q + 1) |>)
      else modify_queue queueid (fun q => q <| q_clients_bitmap := Z.clearbit (q_clients_bitmap q) client |>
             <| q_clients := if used then u32 (q_clients q - 1) else q_clients q |>));;;
     q <- queue_at queueid;;
     (if truth (q_clients q) then
        ((if use && (q_clients q =? 1)
          then timer_set queueid (fun tmr => option_map (pair tt) (snd_seq_timer_defaults dflt tmr))
          else ret tt);;;
         _ <- on_timer queueid (snd_seq_timer_open (q_queue q));;
         ret tt)
      else timer_do queueid snd_seq_timer_close);;;
     ret 0).

Definition snd_seq_queue_is_used (queueid client : Z) : W Z :=
  with_queueptr queueid (-EINVAL)
    (q <- queue_at queueid;;
     ret (if Z.testbit (q_clients_bitmap q) client then 1 else 0)).

(** The number of the new queue, or an error. *)
Definition snd_seq_queue_alloc (g : queue_memory) (client : Z) (locked : bool) (info_flags : Z) : W Z :=
  q <- queue_new g client locked;;
  match q with
  | None => ret (-ENOMEM)
  | Some q =>
      let q := q <| q_info_flags := info_flags |> in
      id <- queue_list_add q;;
      if id <? 0 then (queue_delete q;;; ret (-ENOMEM))
      else (snd_seq_queue_use id client true;;; ret id)
  end.

Definition snd_seq_queue_delete (client queueid : Z) : W Z :=
  if (queueid <? 0) || (SEQ_MAX_QUEUES <=? queueid) then ret (-EINVAL)
  else
    (q <- queue_list_remove queueid client;;
     match q with
     | None => ret (-EINVAL)
     | Some q => (queue_delete q;;; ret 0)
     end).

(** The end of the module; the list keeps its pointers. *)
Definition snd_seq_queues_delete : W unit :=
  for_queues queue_ids (fun id => fun w =>
    match lookup_queue w id with Some q => queue_delete q w | None => Some (tt, w) end).

(** [strncpy] is called where a comparison was meant. *)
Fixpoint find_name (ids : list Z) (name : list Z) : W (option Z) :=
  match ids with
  | [] => ret None
  | id :: ids =>
      found <- queueptr id;;
      (if (found : bool) then modify_queue id (fun q => q <| q_name := strncpy 64 name |>) else ret tt);;;
      find_name ids name
  end.

Definition snd_seq_queue_find_name (name : list Z) : W (option Z) := find_name queue_ids name.

(** ** Access *)

Definition check_access (q : queue) (client : Z) : bool :=
  (q_owner q =? client) || (negb (q_locked q) && negb (q_klocked q)).

Definition queue_access_lock (id client : Z) : W bool :=
  q <- queue_at id;;
  let ok := check_access q client in
  (if ok then modify_queue id (fun q => q <| q_klocked := true |>) else ret tt);;;
  ret ok.

Definition queue_access_unlock (id : Z) : W unit := modify_queue id (fun q => q <| q_klocked := false |>).

Definition snd_seq_queue_check_access (queueid client : Z) : W bool :=
  with_queueptr queueid false (q <- queue_at queueid;; ret (check_access q client)).

Definition snd_seq_queue_set_owner (queueid client : Z) (locked : bool) : W Z :=
  with_queueptr queueid (-EINVAL)
    (ok <- queue_access_lock queueid client;;
     if negb ok then ret (-EPERM)
     else
       (modify_queue queueid (fun q => q <| q_locked := locked |> <| q_owner := client |>);;;
        queue_access_unlock queueid;;;
        ret 0)).

(** ** Timers of queues *)

Definition snd_seq_queue_timer_open (queueid : Z) : W Z :=
  with_queueptr queueid (-EINVAL)
    (q <- queue_at queueid;;
     result <- on_timer queueid (snd_seq_timer_open (q_queue q));;
     if result <? 0 then
       (timer_set queueid (fun tmr => option_map (pair tt) (snd_seq_timer_defaults dflt tmr));;;
        on_timer queueid (snd_seq_timer_open (q_queue q)))
     else ret result).

Definition snd_seq_queue_timer_close (queueid : Z) : W Z :=
  with_queueptr queueid (-EINVAL) (timer_do queueid snd_seq_timer_close;;; ret 0).

Definition snd_seq_queue_timer_set_tempo (queueid client tempo ppq : Z) : W Z :=
  with_queueptr queueid (-EINVAL)
    (ok <- queue_access_lock queueid client;;
     if negb ok then ret (-EPERM)
     else
       (result <- timer_set queueid (fun tmr => snd_seq_timer_set_tempo tmr tempo);;
        result <- (if 0 <=? result then timer_set queueid (fun tmr => snd_seq_timer_set_ppq tmr ppq)
                   else ret result);;
        queue_access_unlock queueid;;;
        ret result)).

(** ** Clients that leave *)

Definition leave_prioqs (id client : Z) (timestamp : bool) : W unit :=
  prioq_do id true (fun f => snd_seq_prioq_leave f client timestamp);;;
  prioq_do id false (fun f => snd_seq_prioq_leave f client timestamp).

(** [if ((q = queueptr(i)) == NULL) continue;] *)
Definition if_queue (id : Z) (f : W unit) : W unit := with_queueptr id tt f.

Definition client_termination (client id : Z) : W unit :=
  if_queue id
    (q <- queue_at id;;
     if q_owner q =? client then
       (modify_queue id (fun q => q <| q_klocked := true |>);;;
        (if running (q_timer q) then timer_do id snd_seq_timer_stop else ret tt);;;
        timer_do id (fun tmr => ret (snd_seq_timer_reset tmr)))
     else ret tt).

Definition snd_seq_queue_client_termination (client : Z) : W unit :=
  for_queues queue_ids (client_termination client).

Definition delete_own (client id : Z) : W unit :=
  q <- queue_list_remove id client;;
  match q with Some q => queue_delete q | None => ret tt end.

Definition leave_queue (client id : Z) : W unit :=
  if_queue id
    (q <- queue_at id;;
     if Z.testbit (q_clients_bitmap q) client then
       (leave_prioqs id client false;;;
        snd_seq_queue_use (q_queue q) client false;;; ret tt)
     else ret tt).

Definition snd_seq_queue_client_leave (client : Z) : W unit :=
  for_queues queue_ids (delete_own client);;;
  for_queues queue_ids (leave_queue client).

Definition snd_seq_queue_client_leave_cells (client : Z) : W unit :=
  for_queues queue_ids (fun id => if_queue id (leave_prioqs id client false)).

Definition remove_from_queue (client : Z) (info : snd_seq_remove_events) (id : Z) : W unit :=
  if_queue id
    (q <- queue_at id;;
     if Z.testbit (q_clients_bitmap q) client && (negb (mode info REMOVE_DEST) || (q_queue q =? rm_queue info)) then
       (prioq_do id true (fun f => snd_seq_prioq_remove_events f client info);;;
        prioq_do id false (fun f => snd_seq_prioq_remove_events f client info))
     else ret tt).

Definition snd_seq_queue_remove_cells (client : Z) (info : snd_seq_remove_events) : W unit :=
  for_queues queue_ids (remove_from_queue client info).

(** ** Control *)

Definition queue_broadcast_event (id : Z) (ev : snd_seq_event) (from_timer_port atomic : bool) (hop : Z) : W unit :=
  q <- queue_at id;;
  let sev := ev <| ev_flags := 0 |>
                <| ev_time := Timestamp (cur_tick (tmr_tick (q_timer q))) (tv_nsec (ev_time ev)) |>
                <| ev_queue := u8 (q_queue q) |>
                <| ev_d0 := set_byte 0 (u8 (q_queue q)) (ev_d0 ev) |> in
  if from_timer_port then
    (_ <- snd_seq_kernel_client_dispatch CLIENT_SYSTEM
            (sev <| ev_source := Addr CLIENT_SYSTEM PORT_SYSTEM_TIMER |>
                 <| ev_dest := Addr ADDRESS_SUBSCRIBERS (addr_port (ev_dest sev)) |>) atomic hop;;
     ret tt)
  else ret tt.

Definition snd_seq_queue_process_event (id : Z) (ev : snd_seq_event) (from_timer_port atomic : bool) (hop : Z)
    : W unit :=
  let broadcast := queue_broadcast_event id ev from_timer_port atomic hop in
  let ty := ev_type ev in
  if ty =? EVENT_START then
    (leave_prioqs id (addr_client (ev_source ev)) true;;;
     t <- now;;
     timer_do id (snd_seq_timer_start t);;;
     broadcast)
  else if ty =? EVENT_CONTINUE then
    (t <- now;; timer_do id (snd_seq_timer_continue t);;; broadcast)
  else if ty =? EVENT_STOP then (timer_do id snd_seq_timer_stop;;; broadcast)
  else if ty =? EVENT_TEMPO then
    (_ <- timer_set id (fun tmr => snd_seq_timer_set_tempo tmr (queue_value ev));; broadcast)
  else if ty =? EVENT_SETPOS_TICK then
    (err <- timer_set id (fun tmr => Some (snd_seq_timer_set_position_tick tmr (tick (queue_time ev))));;
     if err =? 0 then broadcast else ret tt)
  else if ty =? EVENT_SETPOS_TIME then
    (err <- timer_set id (fun tmr => Some (snd_seq_timer_set_position_time tmr (queue_time ev)));;
     if err =? 0 then broadcast else ret tt)
  else ret tt.

Definition snd_seq_control_queue (ev : snd_seq_event) (atomic : bool) (hop : Z) : W Z :=
  let id := queue_queue ev in
  with_queueptr id (-EINVAL)
    (ok <- queue_access_lock id (addr_client (ev_source ev));;
     if negb ok then ret (-EPERM)
     else
       (snd_seq_queue_process_event id ev true atomic hop;;;
        queue_access_unlock id;;;
        ret 0)).
End Queue.
