(* ===== verification/SeqLive.v ===== *)
(** * SeqLive: the cells that queues hold

    The cells in a queue belong to the pools of the clients that sent them, and events with
    data hold more cells.  [live] says that all of them are distinct from each other and from
    the free cells of the pools; what the queue operations do keeps it. *)

From S2P Require Import Prelude SeqEvent SeqCells SeqMemory SeqPrioq SeqTimer SeqQueue.
Open Scope Z_scope.
Open Scope state_scope.

(** [F p] are the free cells of pool [p], and [D c] the cells of the data of [c]. *)
Record cells_live (m : seqmem) (ps : list Z) (F D : Z -> list Z) (L : list Z) : Prop := {
  cl_pools : forall p, p ∈ ps -> exists P, pool_is m p P (F p);
  cl_nodup_pools : NoDup ps;
  cl_cells : forall c, c ∈ L -> exists x, m_cells m !! c = Some x /\ c <> NULL /\ c_pool x ∈ ps /\
    chained_cells m (c_event x) (D c);
  cl_nodup : NoDup (with_data D L ++ (ps ≫= F)) }.

Definition live (m : seqmem) (L : list Z) : Prop := exists ps F D, cells_live m ps F D L.

Lemma with_data_self D L c : c ∈ L -> c ∈ with_data D L.
Proof. intros Hc. apply list_elem_of_bind. exists c. split; [left | done]. Qed.

Lemma with_data_data D L c a : c ∈ L -> a ∈ D c -> a ∈ with_data D L.
Proof. intros Hc Ha. apply list_elem_of_bind. exists c. split; [by right | done]. Qed.

Lemma with_data_cons D c L : with_data D (c :: L) = (c :: D c) ++ with_data D L.
Proof. done. Qed.

#[export] Instance with_data_proper D : Proper (Permutation ==> Permutation) (with_data D).
Proof. intros L L' E. unfold with_data. by rewrite E. Qed.

Lemma live_perm m L L' : L ≡ₚ L' -> live m L -> live m L'.
Proof.
  intros E (ps & F & D & [A B C N]). exists ps, F, D. split; [done | done | | by rewrite <- E].
  intros c Hc. apply C. by rewrite E.
Qed.

Lemma live_cell m L c : live m L -> c ∈ L -> is_Some (m_cells m !! c) /\ c <> NULL.
Proof. intros (ps & F & D & [_ _ C _]) Hc. destruct (C c Hc) as (x & Hx & Hn & _). split; [by exists x | done]. Qed.

Lemma live_nodup m L : live m L -> NoDup L.
Proof.
  intros (ps & F & D & [_ _ _ N]). apply NoDup_app in N as (N & _).
  induction L as [| c L IH]; [constructor |]. rewrite with_data_cons in N.
  apply NoDup_app in N as (_ & Dis & N). constructor; [| auto].
  intros Hc. apply (Dis c); [left | by apply with_data_self].
Qed.

(** A data cell or a free cell is not a queued one. *)
Lemma live_data_apart m ps F D L c a : cells_live m ps F D L -> c ∈ L -> a ∈ D c -> a ∉ L.
Proof.
  intros HL Hc Ha Hal. pose proof HL as [_ _ _ N]. apply NoDup_app in N as (N & _).
  destruct (list_elem_of_split _ _ Hc) as (l1 & l2 & ->). rewrite <- Permutation_middle in N.
  rewrite with_data_cons in N. simpl in N. apply NoDup_cons in N as [Nc N].
  apply NoDup_app in N as (_ & N & _). rewrite elem_of_app in Nc.
  rewrite <- Permutation_middle, elem_of_cons in Hal. destruct Hal as [-> | Hal]; [tauto |].
  apply (N a Ha). by apply with_data_self.
Qed.

Lemma live_free_apart m ps F D L p a : cells_live m ps F D L -> p ∈ ps -> a ∈ F p -> a ∉ L.
Proof.
  intros [_ _ _ N] Hp Ha Hal. apply NoDup_app in N as (_ & N & _).
  apply (N a); [by apply with_data_self | apply list_elem_of_bind; eauto].
Qed.

(** Nothing the queued cells depend on is touched: their own links and flags aside. *)
Lemma live_keep m m' L :
  m_pools m' = m_pools m ->
  (forall a, a ∉ L -> m_cells m' !! a = m_cells m !! a) ->
  (forall c x, c ∈ L -> m_cells m !! c = Some x -> exists x', m_cells m' !! c = Some x' /\ c_pool x' = c_pool x /\
     ext_ptr (c_event x') = ext_ptr (c_event x) /\
     is_variable (c_event x') && is_chained (c_event x') = is_variable (c_event x) && is_chained (c_event x)) ->
  live m L -> live m' L.
Proof.
  intros EP EO EC (ps & F & D & HL). exists ps, F, D. pose proof HL as [A B C N]. split; [| done | | done].
  - intros p Hp. destruct (A p Hp) as (P & [Q1 Q2 Q3 Q4]). exists P. split; [done | by rewrite EP | | done].
    apply (lseg_frame (m_cells m)); [| done]. intros a Ha. destruct (lseg_cell _ _ _ _ a Q3 Ha) as [[x Hx] _].
    exists x, x. by rewrite EO by (by eapply live_free_apart).
  - intros c Hc. destruct (C c Hc) as (x & Hx & Hn & Hp & HD).
    destruct (EC c x Hc Hx) as (x' & Hx' & E1 & E2 & E3). exists x'. rewrite E1.
    split; [done |]. split; [done |]. split; [done |]. unfold chained_cells in *. rewrite E2, E3.
    destruct (_ && _); [| done]. apply (lseg_frame (m_cells m)); [| done]. intros a Ha.
    destruct (lseg_cell _ _ _ _ a HD Ha) as [[y Hy] _]. exists y, y.
    by rewrite EO by (by eapply live_data_apart).
Qed.

Lemma live_relinked R m m' L : relinked R m m' -> R ⊆ L -> live m L -> live m' L.
Proof.
  intros [A B C E] HR. apply live_keep; [done | auto |].
  intros c x _ Hx. destruct (E c x Hx) as (n & Hn). exists (x <| c_next := n |>). done.
Qed.

(** Changing the event of a queued cell, but not its data. *)
Lemma live_set_event m L c x e :
  m_cells m !! c = Some x -> c ∈ L -> ext_ptr e = ext_ptr (c_event x) ->
  is_variable e && is_chained e = is_variable (c_event x) && is_chained (c_event x) ->
  live m L -> live (with_cell c (x <| c_event := e |>) m) L.
Proof.
  intros Hx Hc E1 E2. apply live_keep; simpl; [done | |].
  - intros a Ha. rewrite lookup_insert_ne by (intros ->; done). done.
  - intros d y Hd Hy. destruct (decide (c = d)) as [-> | Hcd].
    + assert (y = x) as -> by congruence. eexists. rewrite lookup_insert_eq. done.
    + exists y. rewrite lookup_insert_ne by done. done.
Qed.

(** Freeing a queued cell leaves the others alone. *)
Lemma live_free m c L :
  live m (c :: L) ->
  wp (snd_seq_cell_free c)
    (fun _ m' => live m' L /\ forall a, a ∈ L -> m_cells m' !! a = m_cells m !! a) m.
Proof.
  intros (ps & F & D & HL). pose proof HL as [A B C N].
  destruct (C c ltac:(left)) as (x & Hx & Hn & Hp & HD). destruct (A _ Hp) as (P & HP).
  set (p := c_pool x) in *. rewrite with_data_cons in N.
  destruct (list_elem_of_split _ _ Hp) as (ps1 & ps2 & Eps).
  set (others := with_data D L ++ ((ps1 ++ ps2) ≫= F)).
  assert (N1 : NoDup (((c :: D c) ++ F p) ++ others)).
  { unfold others. rewrite <- (assoc_L (++)) in N. rewrite Eps in N.
    rewrite <- Permutation_middle, bind_cons in N.
    rewrite (assoc_L (++) (with_data D L)), (Permutation_app_comm (with_data D L)) in N.
    by rewrite <- !(assoc_L (++)) in *. }
  apply NoDup_app in N1 as (N1 & N2 & N3).
  assert (Apart : forall a, a ∈ others -> a ∉ c :: D c).
  { intros a Ha Hc. apply (N2 a); [| done]. rewrite elem_of_app. by left. }
  eapply wp_mono.
  { apply (cell_free_spec p P (F p) (c :: D c) c x (D c) m HP Hx eq_refl Hn HD); [done | exact N1]. }
  intros _ m' (Fr & P' & HP').
  assert (Keep : forall a, a ∈ others -> m_cells m' !! a = m_cells m !! a).
  { intros a Ha. by apply Fr, Apart. }
  split.
  2:{ intros a Ha. apply Keep. unfold others. rewrite elem_of_app. left. by apply with_data_self. }
  set (F' := fun q => if q =? p then reverse (D c) ++ c :: F p else F q).
  assert (Hq : forall q, q ∈ ps1 ++ ps2 -> q <> p).
  { intros q Hq ->. rewrite Eps in B. rewrite <- Permutation_middle in B. apply NoDup_cons in B as [B _]. done. }
  assert (EF : (ps1 ++ ps2) ≫= F' = (ps1 ++ ps2) ≫= F).
  { clear -Hq. induction (ps1 ++ ps2) as [| q l IH]; [done |]. rewrite !bind_cons, IH.
    - unfold F' at 1. by rewrite (proj2 (Z.eqb_neq q p)) by (apply Hq; left).
    - intros r Hr. apply Hq. by right. }
  exists ps, F', D. split; [| done | |].
  - intros q Hin. unfold F'. destruct (Z.eqb_spec q p) as [-> | Hqp]; [by exists P' |].
    destruct (A q Hin) as (Q & [Q1 Q2 Q3 Q4]). exists Q. split; [done | | | done].
    + by rewrite (pf_pools _ _ _ _ Fr).
    + apply (lseg_frame (m_cells m)); [| done]. intros a Ha. destruct (lseg_cell _ _ _ _ a Q3 Ha) as [[y Hy] _].
      exists y, y. rewrite Keep; [done |]. unfold others. rewrite elem_of_app. right.
      apply list_elem_of_bind. exists q. split; [done |].
      rewrite Eps, <- Permutation_middle, elem_of_cons in Hin. destruct Hin; [congruence | done].
  - intros d Hd. destruct (C d ltac:(by right)) as (y & Hy & Hnd & Hpd & HDd).
    exists y. rewrite Keep; [| unfold others; rewrite elem_of_app; left; by apply with_data_self].
    split; [done |]. split; [done |]. split; [done |]. unfold chained_cells in *. destruct (is_variable (c_event y) && _); [| exact HDd].
    apply (lseg_frame (m_cells m)); [| done]. intros a Ha. destruct (lseg_cell _ _ _ _ a HDd Ha) as [[z Hz] _].
    exists z, z. rewrite Keep; [done |]. unfold others. rewrite elem_of_app. left. by eapply with_data_data.
  - rewrite Eps. rewrite <- Permutation_middle, bind_cons, EF. unfold F' at 1. rewrite Z.eqb_refl.
    rewrite (Permutation_app_comm (with_data D L)), <- (assoc_L (++) (_ ++ _)), (Permutation_app_comm (_ ≫= _)).
    fold others. apply NoDup_app. split; [| split; [| done]].
    + rewrite reverse_Permutation, <- Permutation_middle. exact N1.
    + intros a. rewrite reverse_Permutation, <- Permutation_middle. apply N2.
Qed.
