(* ===== verification/SeqWorld.v ===== *)
(** * SeqWorld: working on the queues

    The rules of the operations of SeqQueue.v on the world, and what the operations of a
    queue do to the cells and to the other queues. *)

From S2P Require Import Prelude SeqEvent SeqCells SeqMemory SeqPrioq SeqTimer SeqQueue SeqLive.
Open Scope Z_scope.
Open Scope state_scope.

Section World.
Context {T : Type}.
Implicit Types (w : world T) (q : queue) (id : Z).

Lemma wp_in_mem {A} (f : M A) Q w :
  wp f (fun x m => Q x (w <| w_mem := m |>)) (w_mem w) -> wp (in_mem f) Q w.
Proof. unfold wp, in_mem. by destruct (f (w_mem w)) as [[x m] |]. Qed.

Lemma wp_in_core {A} (f : ST T A) Q w :
  wp f (fun x t => Q x (w <| w_core := t |>)) (w_core w) -> wp (in_core f) Q w.
Proof. unfold wp, in_core. by destruct (f (w_core w)) as [[x t] |]. Qed.

Lemma wp_queue_at id q (Q : queue -> world T -> Prop) w :
  lookup_queue w id = Some q -> Q q w -> wp (queue_at id) Q w.
Proof. unfold wp, queue_at. by intros ->. Qed.

Lemma wp_modify_queue id q f (Q : unit -> world T -> Prop) w :
  lookup_queue w id = Some q -> Q tt (with_queue id (Some (f q)) w) -> wp (modify_queue id f) Q w.
Proof. intros Hq HQ. apply wp_bind, (wp_queue_at _ q); done. Qed.

(** The list has its length. *)
Definition slots w : Prop := length (w_queues w) = Z.to_nat SEQ_MAX_QUEUES.

Lemma lookup_queue_range w id q : lookup_queue w id = Some q -> 0 <= id < SEQ_MAX_QUEUES.
Proof. unfold lookup_queue. destruct (Z.leb_spec 0 id), (Z.ltb_spec id SEQ_MAX_QUEUES); simpl; congruence || lia. Qed.

Lemma lookup_with_queue w id o :
  slots w -> 0 <= id < SEQ_MAX_QUEUES -> lookup_queue (with_queue id o w) id = o.
Proof.
  intros L R. unfold lookup_queue, with_queue. rewrite (proj2 (Z.leb_le 0 id)), (proj2 (Z.ltb_lt id _)) by lia. simpl.
  rewrite list_lookup_insert_eq; [done |]. unfold slots in L. rewrite L. unfold SEQ_MAX_QUEUES in *. lia.
Qed.

Lemma lookup_with_queue_ne w id id' o :
  0 <= id -> 0 <= id' -> id <> id' -> lookup_queue (with_queue id o w) id' = lookup_queue w id'.
Proof.
  intros. unfold lookup_queue, with_queue. simpl. rewrite list_lookup_insert_ne; [done |]. lia.
Qed.

Lemma slots_with_queue w id o : slots w -> slots (with_queue id o w).
Proof. unfold slots, with_queue. simpl. by rewrite length_insert. Qed.

Lemma with_queue_twice w id o o' : with_queue id o' (with_queue id o w) = with_queue id o' w.
Proof. unfold with_queue. destruct w. simpl. by rewrite list_insert_insert_eq. Qed.

Lemma prioq_of_with ticks f q : prioq_of ticks (with_prioq ticks f q) = f.
Proof. by destruct ticks. Qed.

Lemma prioq_of_with_other ticks f q : prioq_of (negb ticks) (with_prioq ticks f q) = prioq_of (negb ticks) q.
Proof. by destruct ticks. Qed.

(** An operation on one of the two priority queues. *)
Lemma wp_on_prioq {A} id ticks (f : prioq -> M (A * prioq)) q (Q : A -> world T -> Prop) w :
  lookup_queue w id = Some q ->
  wp (f (prioq_of ticks q))
    (fun rf m => Q rf.1 (with_queue id (Some (with_prioq ticks rf.2 q)) (w <| w_mem := m |>))) (w_mem w) ->
  wp (on_prioq id ticks f) Q w.
Proof.
  intros Hq W. unfold on_prioq. apply wp_bind, (wp_queue_at _ q); [done |].
  apply wp_bind, wp_in_mem. eapply wp_mono; [exact W |]. intros rf m HQ.
  apply wp_bind, (wp_modify_queue _ q); [exact Hq |]. by apply wp_ret.
Qed.
End World.

(** ** A note and its end *)

Lemma land_same_bit a b n : 0 <= n -> Z.testbit a n = Z.testbit b n -> Z.land a (2 ^ n) = Z.land b (2 ^ n).
Proof.
  intros Hn E. apply Z.bits_inj'. intros k Hk. rewrite !Z.land_spec, Z.pow2_bits_eqb by done.
  destruct (Z.eqb_spec n k) as [-> | ?]; [by rewrite E | by rewrite !andb_false_r].
Qed.

Lemma word_high_bit b0 b1 b2 b3 :
  is_byte b0 -> is_byte b1 -> is_byte b2 -> Z.testbit (word b0 b1 b2 b3) 30 = Z.testbit b3 6.
Proof.
  unfold is_byte, word. intros. change 30 with (6 + 24). rewrite <- Z.shiftr_spec by lia. f_equal.
  rewrite Z.shiftr_div_pow2 by lia. change (2 ^ 24) with 16777216. symmetry.
  apply (Z.div_unique _ _ _ (b0 + b1 * 256 + b2 * 65536)); lia.
Qed.

Lemma set_byte_2 v w :
  is_u32 w -> is_byte v -> is_u32 (set_byte 2 v w) /\ Z.land (set_byte 2 v w) EXT_CHAINED = Z.land w EXT_CHAINED.
Proof.
  intros Hw Hv. rewrite <- (word_le32 w Hw).
  pose proof (fun k => byte_of_range k w) as B.
  pose proof (B 0 ltac:(lia)). pose proof (B 1 ltac:(lia)). pose proof (B 2 ltac:(lia)). pose proof (B 3 ltac:(lia)).
  rewrite (proj2 (proj2 (set_byte_word 2 v _ _ _ _ H H0 H1 H2))) by done. split; [by apply word_range |].
  change EXT_CHAINED with (2 ^ 30). apply land_same_bit; [lia |]. by rewrite !word_high_bit.
Qed.

Lemma land_lor_clear f b m : Z.land b m = 0 -> Z.land (Z.lor f b) m = Z.land f m.
Proof. intros E. by rewrite Z.land_lor_distr_l, E, Z.lor_0_r. Qed.

Lemma lor_byte f : is_byte f -> is_byte (Z.lor f PRIORITY_MASK).
Proof.
  intros Hf. assert (F : Forall (fun n => 0 <= Z.lor n PRIORITY_MASK < 256) (seqZ 0 256)) by
    by apply (bool_decide_unpack _).
  rewrite Forall_forall in F. apply F. apply elem_of_seqZ. exact Hf.
Qed.

(** What of an event decides where its cells are. *)
Definition same_place (e e' : snd_seq_event) : Prop :=
  ext_ptr e' = ext_ptr e /\ is_variable e' = is_variable e /\ is_chained e' = is_chained e /\
  is_tick e' = is_tick e /\ ev_queue e' = ev_queue e.

Lemma note_off_place e : event_wf e -> same_place e (note_off e) /\ event_wf (note_off e).
Proof.
  intros [W1 W2]. rewrite !Forall_cons in *. destruct_and? W1. destruct_and? W2.
  assert (Hv : is_byte (note_off_velocity e)) by (apply byte_of_range; lia).
  destruct (set_byte_2 (note_off_velocity e) (ev_d0 e)) as [B1 B2]; [done | done |].
  split.
  - unfold same_place, is_variable, is_chained, is_tick, ext_ptr, ext_len, note_off, data_len. simpl.
    rewrite !land_lor_clear by reflexivity. rewrite B2. done.
  - split; unfold note_off; simpl; rewrite !Forall_cons; split_and?; try done; try (by apply Forall_nil).
    + by apply lor_byte.
    + destruct (is_tick e); apply u32_range.
    + destruct (is_tick e); simpl; [done |]. 
      pose proof (Z.mod_pos_bound (u32 (tv_nsec (ev_time e) + u32 (1000000 * (note_duration e mod 1000)))) 1000000000 ltac:(lia)).
      range_lia.
Qed.

Lemma land_byte f m : is_byte f -> 0 <= m -> is_byte (Z.land f m).
Proof.
  unfold is_byte. intros [H0 H1] Hm. split; [apply Z.land_nonneg; lia |].
  assert (Z.land f m <= f); [| lia].
  apply Z.ldiff_le; [done |]. apply Z.bits_inj'. intros n Hn.
  rewrite Z.ldiff_spec, Z.land_spec, Z.bits_0. by destruct (Z.testbit f n), (Z.testbit m n).
Qed.

Lemma land_mask f m k : Z.land m k = k -> Z.land (Z.land f m) k = Z.land f k.
Proof. intros E. by rewrite <- Z.land_assoc, E. Qed.

Lemma absolute_place tmr e : event_wf e -> same_place e (absolute tmr e) /\ event_wf (absolute tmr e).
Proof.
  intros W. unfold absolute. destruct (is_reltime e); [| by split].
  pose proof W as [W1 W2]. rewrite !Forall_cons in *. destruct_and? W1. destruct_and? W2.
  set (t := if is_tick e then Timestamp (u32 (tick (ev_time e) + cur_tick (tmr_tick tmr))) (tv_nsec (ev_time e))
            else snd_seq_inc_real_time (ev_time e) (cur_time tmr)).
  assert (Ht : is_u32 (tv_sec t) /\ is_u32 (tv_nsec t)).
  { unfold t. destruct (is_tick e); [split; [apply u32_range | done] |].
    unfold snd_seq_inc_real_time. rewrite sanity_real_time_spec by apply u32_range. simpl.
    split; [apply u32_range |]. unfold NSEC. pose proof (Z.mod_pos_bound (u32 (tv_nsec (ev_time e) + tv_nsec (cur_time tmr))) 1000000000).
    range_lia. }
  destruct Ht as [Ht1 Ht2].
  assert (E : (if is_tick e then e <| ev_time := Timestamp (u32 (tick (ev_time e) + cur_tick (tmr_tick tmr))) (tv_nsec (ev_time e)) |>
               else e <| ev_time := snd_seq_inc_real_time (ev_time e) (cur_time tmr) |>) = e <| ev_time := t |>).
  { unfold t. by destruct (is_tick e). }
  rewrite E. clear E. split.
  - unfold same_place, is_variable, is_chained, is_tick, ext_ptr, ext_len. simpl.
    by rewrite !land_mask by reflexivity.
  - split; simpl; rewrite !Forall_cons; split_and?; try done; try (by apply Forall_nil).
    by apply land_byte.
Qed.

Lemma absolute_not_relative tmr e : is_reltime (absolute tmr e) = false.
Proof.
  unfold absolute. destruct (is_reltime e) eqn:E; [| done]. unfold is_reltime.
  assert (Z.land (Z.land (ev_flags e) (255 - TIME_MODE_MASK)) TIME_MODE_MASK = 0) as F.
  { rewrite <- Z.land_assoc. apply Z.land_0_r. }
  by destruct (is_tick e); simpl; rewrite F.
Qed.

(** ** A queue and its events *)

Definition queued (ls : bool -> list Z) : list Z := ls true ++ ls false.
Definition set_list (ticks : bool) (l : list Z) (ls : bool -> list Z) : bool -> list Z :=
  fun b => if Bool.eqb b ticks then l else ls b.

Lemma queued_split ls ticks : queued ls ≡ₚ ls ticks ++ ls (negb ticks).
Proof. unfold queued. destruct ticks; simpl; [done | apply Permutation_app_comm]. Qed.

Lemma queued_set ls ticks l : queued (set_list ticks l ls) ≡ₚ l ++ ls (negb ticks).
Proof. rewrite (queued_split _ ticks). unfold set_list. by destruct ticks. Qed.

Section At.
Context {T : Type}.
Implicit Types (w : world T) (q : queue).

(** Queue [id] is [q], its events are those of the cells [ls true], by ticks, and [ls false],
    by real time; the cells [hold] are in somebody's hands. *)
Record queue_is w (id : Z) q (hold : list Z) (ls : bool -> list Z) : Prop := {
  qi_slots : slots w;
  qi_queue : lookup_queue w id = Some q;
  qi_prioq : forall b, prioq_is (w_mem w) b (prioq_of b q) (ls b);
  qi_live : live (w_mem w) (hold ++ queued ls);
  qi_events : forall c, c ∈ hold ++ queued ls ->
    event_wf (event_at (w_mem w) c) /\ ev_queue (event_at (w_mem w) c) = id }.

Lemma queue_is_ext w id q hold ls ls' :
  (forall b, ls' b = ls b) -> queue_is w id q hold ls -> queue_is w id q hold ls'.
Proof.
  intros E [A1 A2 A3 A4 A5]. assert (Eq : queued ls' = queued ls) by (unfold queued; by rewrite !E).
  split; [done | done | | by rewrite Eq | by rewrite Eq]. intros b. rewrite E. apply A3.
Qed.

Lemma set_list_same ls ticks b : set_list ticks (ls ticks) ls b = ls b.
Proof. unfold set_list. by destruct (Bool.eqb_spec b ticks) as [-> |]. Qed.

Lemma set_list_twice ls ticks l l' b : set_list ticks l' (set_list ticks l ls) b = set_list ticks l' ls b.
Proof. unfold set_list. by destruct (Bool.eqb b ticks). Qed.

(** Only the memory and the queue differ. *)
Definition only_queue (id : Z) w q' w' : Prop :=
  exists m, w' = with_queue id (Some q') (w <| w_mem := m |>).

Lemma prioq_is_frame m m' ticks (q : prioq) l :
  (forall a, a ∈ l -> exists x x', m_cells m !! a = Some x /\ m_cells m' !! a = Some x' /\
     c_next x' = c_next x /\ c_event x' = c_event x) ->
  prioq_is m ticks q l -> prioq_is m' ticks q l.
Proof.
  intros F [A1 A2 A3 A4 A5].
  assert (E : forall a, a ∈ l -> event_at m' a = event_at m a).
  { intros a Ha. destruct (F a Ha) as (x & x' & H & H' & _ & Ee).
    by rewrite (event_at_some _ _ _ H), (event_at_some _ _ _ H'). }
  split; [| done | done | |].
  - apply (lseg_frame (m_cells m)); [| done]. intros a Ha. destruct (F a Ha) as (x & x' & ? & ? & ? & _). eauto.
  - rewrite Forall_forall in A4 |- *. intros a Ha. rewrite E by done. auto.
  - eapply StronglySorted_ext; [| exact A5]. intros a b Ha Hb. simpl. unfold time_at. by rewrite !E.
Qed.

Lemma relinked_frame R m m' ticks (q : prioq) l :
  relinked R m m' -> (forall a, a ∈ l -> a ∉ R) -> prioq_is m ticks q l -> prioq_is m' ticks q l.
Proof.
  intros HR Dis Q. apply (prioq_is_frame m); [| done]. intros a Ha.
  destruct (prioq_cell _ _ _ _ _ Q Ha) as [[x Hx] _]. exists x, x. by rewrite (rl_others _ _ _ HR) by auto.
Qed.

Lemma queue_is_nodup w id q hold ls : queue_is w id q hold ls -> NoDup (hold ++ queued ls).
Proof. intros W. eapply live_nodup, qi_live, W. Qed.

(** Whatever relinks the cells in hand and in one of the priority queues. *)
Lemma queue_is_relinked w id q hold ls ticks R m' p l hold' :
  queue_is w id q hold ls ->
  relinked R (w_mem w) m' -> (forall a, a ∈ R -> a ∈ hold ++ queued ls /\ a ∉ ls (negb ticks)) ->
  prioq_is m' ticks p l -> hold' ++ l ≡ₚ hold ++ ls ticks ->
  queue_is (with_queue id (Some (with_prioq ticks p q)) (w <| w_mem := m' |>)) id (with_prioq ticks p q)
    hold' (set_list ticks l ls) /\
  (forall a, a ∈ hold ++ queued ls -> event_at m' a = event_at (w_mem w) a).
Proof.
  intros [A1 A2 A3 A4 A5] HR Hin HP E.
  assert (P : hold' ++ queued (set_list ticks l ls) ≡ₚ hold ++ queued ls).
  { rewrite queued_set, (queued_split ls ticks), !(assoc_L (++)). by rewrite E. }
  assert (Ev : forall a, a ∈ hold ++ queued ls -> event_at m' a = event_at (w_mem w) a).
  { intros a Ha. eapply relinked_event; [exact HR |]. by apply (live_cell _ _ a A4). }
  split; [| exact Ev]. pose proof (lookup_queue_range _ _ _ A2) as Rg. split.
  - by apply slots_with_queue.
  - by apply lookup_with_queue.
  - intros b. destruct (Bool.eqb b ticks) eqn:Eb.
    + apply Bool.eqb_prop in Eb as ->. rewrite prioq_of_with. unfold set_list. by rewrite Bool.eqb_reflx.
    + assert (b = negb ticks) as -> by (by destruct b, ticks). rewrite prioq_of_with_other.
      unfold set_list. rewrite Eb. eapply relinked_frame; [exact HR | | by apply A3].
      intros a Ha HaR. by destruct (Hin a HaR).
  - simpl. eapply live_perm; [symmetry; exact P |]. eapply live_relinked; [exact HR | | done].
    intros a Ha. by apply Hin.
  - simpl. intros c Hc. rewrite P in Hc. rewrite Ev by done. by apply A5.
Qed.

(** Taking the first cell out. *)
Lemma cell_out_step w id q hold ls ticks c l :
  queue_is w id q hold ls -> ls ticks = c :: l ->
  wp (on_prioq id ticks snd_seq_prioq_cell_out)
    (fun c' w' => c' = c /\ exists p, only_queue id w (with_prioq ticks p q) w' /\
       queue_is w' id (with_prioq ticks p q) (c :: hold) (set_list ticks l ls) /\
       (forall a, a ∈ hold ++ queued ls -> event_at (w_mem w') a = event_at (w_mem w) a)) w.
Proof.
  intros W El. pose proof (queue_is_nodup _ _ _ _ _ W) as N. pose proof (qi_prioq _ _ _ _ _ W ticks) as Q.
  rewrite El in Q. apply (wp_on_prioq _ _ _ q); [apply W |].
  eapply wp_mono; [exact (prioq_cell_out_spec _ _ _ _ Q) |]. intros [c' p] m' (R & Ec & Q').
  cbn [fst snd hd tail] in *. split; [done |]. exists p. split; [by exists m' |].
  eapply (queue_is_relinked w id q hold ls ticks (c :: l)); [done | done | | done |].
  - intros a Ha. rewrite <- El in Ha. split; [rewrite elem_of_app, (queued_split ls ticks), elem_of_app; tauto |].
    rewrite (queued_split ls ticks) in N. apply NoDup_app in N as (_ & _ & N). apply NoDup_app in N as (_ & N & _). auto.
  - rewrite El. by rewrite <- Permutation_middle.
Qed.

(** Giving a cell in hand back to its pool. *)
Lemma free_step w id q hold ls c :
  queue_is w id q (c :: hold) ls ->
  wp (in_mem (snd_seq_cell_free c))
    (fun _ w' => (exists m, w' = w <| w_mem := m |>) /\ queue_is w' id q hold ls /\
       (forall a, a ∈ hold ++ queued ls -> event_at (w_mem w') a = event_at (w_mem w) a)) w.
Proof.
  intros [A1 A2 A3 A4 A5]. apply wp_in_mem. eapply wp_mono; [by apply live_free |]. intros _ m' [L Keep].
  assert (Ev : forall a, a ∈ hold ++ queued ls -> event_at m' a = event_at (w_mem w) a).
  { intros a Ha. unfold event_at. by rewrite Keep. }
  split; [by exists m' |]. split; [| exact Ev]. split; simpl; [done | done | | done |].
  - intros b. apply (prioq_is_frame (w_mem w)); [| auto]. intros a Ha.
    destruct (prioq_cell _ _ _ _ _ (A3 b) Ha) as [[x Hx] _]. exists x, x. rewrite Keep; [done |].
    rewrite elem_of_app, (queued_split ls b), elem_of_app. tauto.
  - intros a Ha. rewrite Ev by done. apply A5. by right.
Qed.

(** Changing the event of a cell in hand. *)
Lemma set_event_step w id q hold ls c f :
  queue_is w id q (c :: hold) ls -> same_place (event_at (w_mem w) c) (f (event_at (w_mem w) c)) ->
  event_wf (f (event_at (w_mem w) c)) ->
  wp (in_mem (set_event c f))
    (fun _ w' => (exists m, w' = w <| w_mem := m |>) /\ queue_is w' id q (c :: hold) ls /\
       event_at (w_mem w') c = f (event_at (w_mem w) c) /\
       (forall a, a ∈ hold ++ queued ls -> event_at (w_mem w') a = event_at (w_mem w) a)) w.
Proof.
  intros W (S1 & S2 & S3 & S4 & S5) Wf. pose proof (queue_is_nodup _ _ _ _ _ W) as N.
  destruct W as [A1 A2 A3 A4 A5]. simpl in N. apply NoDup_cons in N as [Nc N].
  destruct (live_cell _ _ c A4) as [[x Hx] _]; [left |].
  rewrite (event_at_some _ _ _ Hx) in *.
  apply wp_in_mem, (wp_modify_cell _ x); [done |]. set (m' := with_cell c _ (w_mem w)).
  assert (Ec : event_at m' c = f (c_event x)) by (unfold event_at, m'; simpl; by rewrite lookup_insert_eq).
  assert (Eo : forall a, a <> c -> m_cells m' !! a = m_cells (w_mem w) !! a).
  { intros a Ha. unfold m'. simpl. by rewrite lookup_insert_ne. }
  assert (Ev : forall a, a ∈ hold ++ queued ls -> event_at m' a = event_at (w_mem w) a).
  { intros a Ha. unfold event_at. rewrite Eo; [done |]. by intros ->. }
  split; [by exists m' |]. split; [| by split]. split; simpl; [done | done | | |].
  - intros b. apply (prioq_is_frame (w_mem w)); [| auto]. intros a Ha.
    destruct (prioq_cell _ _ _ _ _ (A3 b) Ha) as [[y Hy] _]. exists y, y. rewrite Eo; [done |].
    intros ->. apply Nc. rewrite elem_of_app, (queued_split ls b), elem_of_app. tauto.
  - apply live_set_event; [done | left | done | by rewrite S2, S3 | done].
  - intros a Ha. destruct (decide (a = c)) as [-> | Hac].
    + rewrite Ec. split; [done |]. rewrite S5. specialize (A5 c ltac:(left)). rewrite (event_at_some _ _ _ Hx) in A5. tauto.
    + rewrite Ev; [by apply A5 |]. apply elem_of_cons in Ha as [? | ?]; done.
Qed.

(** Putting a cell in hand into the queue of its kind. *)
Lemma cell_in_step w id q hold ls c :
  queue_is w id q (c :: hold) ls ->
  let e := event_at (w_mem w) c in
  let l := insert_by (time_at (w_mem w)) (is_prior e) c (ls (is_tick e)) in
  wp (prioq_do id (is_tick e) (fun f => snd_seq_prioq_cell_in f c))
    (fun _ w' => exists p, only_queue id w (with_prioq (is_tick e) p q) w' /\
       queue_is w' id (with_prioq (is_tick e) p q) hold (set_list (is_tick e) l ls) /\
       (forall a, a ∈ c :: hold ++ queued ls -> event_at (w_mem w') a = event_at (w_mem w) a)) w.
Proof.
  intros W e l. pose proof (queue_is_nodup _ _ _ _ _ W) as N. simpl in N. apply NoDup_cons in N as [Nc N].
  pose proof (qi_prioq _ _ _ _ _ W (is_tick e)) as Q.
  destruct (live_cell _ _ c (qi_live _ _ _ _ _ W)) as [[x Hx] Hn]; [left |].
  destruct (qi_events _ _ _ _ _ W c ltac:(left)) as [We _]. fold e in We.
  assert (Ee : c_event x = e) by (unfold e; by rewrite (event_at_some _ _ _ Hx)).
  assert (Hcl : c ∉ ls (is_tick e)).
  { intros H. apply Nc. rewrite elem_of_app, (queued_split ls (is_tick e)), elem_of_app. tauto. }
  unfold prioq_do. apply (wp_on_prioq _ _ _ q); [apply W |].
  apply wp_bind. eapply wp_mono.
  { apply (prioq_cell_in_spec _ (is_tick e) _ (ls (is_tick e)) c x); try done; by rewrite Ee. }
  rewrite Ee. intros p m' [R Q']. apply wp_ret. exists p. split; [by exists m' |].
  apply (queue_is_relinked w id q (c :: hold) ls (is_tick e) (c :: ls (is_tick e))); [done | done | | done |].
  - intros a Ha. split.
    + apply elem_of_cons in Ha as [-> | Ha]; [left |]. right.
      rewrite elem_of_app, (queued_split ls (is_tick e)), elem_of_app. tauto.
    + rewrite (queued_split ls (is_tick e)) in N, Nc. apply NoDup_app in N as (_ & _ & N).
      apply NoDup_app in N as (_ & N & _). apply elem_of_cons in Ha as [-> | Ha]; [| auto].
      rewrite !elem_of_app in Nc. tauto.
  - unfold l. rewrite insert_by_perm, <- Permutation_middle. done.
Qed.
End At.
