(* ===== verification/SeqCheck.v ===== *)
(** * SeqCheck: scheduled events are delivered when their time comes

    What enqueuing and dispatching an event do, that checking a queue ends, and which events
    it delivers in which order, for SeqQueue.v. *)

From S2P Require Import Prelude SeqEvent SeqCells SeqMemory SeqPrioq SeqTimer SeqQueue SeqLive SeqWorld.
Open Scope Z_scope.
Open Scope state_scope.

Section Check.
Context {T : Type} `{SndTimer T} `{SeqClients T}.
Implicit Types (w : world T) (q : queue).

Lemma queueptr_found w id q A (err : A) f :
  lookup_queue w id = Some q -> with_queueptr id err f w = f w.
Proof. intros Hq. unfold with_queueptr, bind, queueptr. rewrite Hq. by rewrite bool_decide_eq_true_2 by eauto. Qed.

(** Up to the check, enqueuing puts the event, with its absolute time, in its place. *)
Lemma enqueue_step w id q hold ls c :
  queue_is w id q (c :: hold) ls ->
  let e := absolute (q_timer q) (event_at (w_mem w) c) in
  exists p w1,
    (forall check atomic hop, enqueue_event check c atomic hop w = (check id atomic hop;;; ret 0) w1) /\
    only_queue id w (with_prioq (is_tick e) p q) w1 /\
    queue_is w1 id (with_prioq (is_tick e) p q) hold
      (set_list (is_tick e) (insert_by (time_at (w_mem w1)) (is_prior e) c (ls (is_tick e))) ls) /\
    event_at (w_mem w1) c = e /\
    (forall a, a ∈ hold ++ queued ls -> event_at (w_mem w1) a = event_at (w_mem w) a).
Proof.
  intros W e. destruct (live_cell _ _ c (qi_live _ _ _ _ _ W)) as [[x Hx] Hn]; [left |].
  destruct (qi_events _ _ _ _ _ W c ltac:(left)) as [We Ed].
  destruct (absolute_place (q_timer q) _ We) as [Sp Wa]. fold e in Sp, Wa.
  assert (Et : is_tick e = is_tick (event_at (w_mem w) c)) by apply Sp.
  pose proof (event_at_some _ _ _ Hx) as Ee. rewrite Ee in Ed.
  assert (P : wp (in_mem (set_event c (fun _ => e));;; prioq_do id (is_tick e) (fun f => snd_seq_prioq_cell_in f c))
    (fun _ w1 => exists p, only_queue id w (with_prioq (is_tick e) p q) w1 /\
    queue_is w1 id (with_prioq (is_tick e) p q) hold
      (set_list (is_tick e) (insert_by (time_at (w_mem w1)) (is_prior e) c (ls (is_tick e))) ls) /\
    event_at (w_mem w1) c = e /\
    (forall a, a ∈ hold ++ queued ls -> event_at (w_mem w1) a = event_at (w_mem w) a)) w).
  { apply wp_bind. eapply wp_mono; [by apply (set_event_step w id q hold ls c (fun _ => e)) |].
    intros _ w0 ([m0 E0] & W0 & Ec & Eo). pose proof (cell_in_step w0 id q hold ls c W0) as St.
    rewrite Ec in St. eapply wp_mono; [exact St |].
    intros _ w1 (p & [m1 E1] & W1 & Ev). exists p. split; [| split; [| split]].
    - exists m1. by rewrite E1, E0.
    - erewrite insert_by_ext; [exact W1 |]. intros a Ha. unfold time_at. rewrite Ev; [done |].
      apply elem_of_cons in Ha as [-> | Ha]; [left |]. right.
      rewrite elem_of_app, (queued_split ls (is_tick e)), elem_of_app. tauto.
    - rewrite Ev by left. done.
    - intros a Ha. rewrite Ev by (by right). by apply Eo. }
  destruct (wp_run _ _ _ P) as ([] & w1 & Er & p & Q1 & Q2 & Q3 & Q4).
  exists p, w1. split; [| done]. intros check atomic hop. unfold enqueue_event.
  rewrite (bind_some _ _ w x w) by (unfold in_mem, cell_at; rewrite Hx; by destruct w).
  cbv zeta. rewrite Ed, (queueptr_found w id q) by apply W.
  rewrite (bind_some _ _ w q w) by (unfold queue_at; by rewrite (qi_queue _ _ _ _ _ W)).
  cbv zeta. rewrite <- Ee. fold e. rewrite <- bind_assoc.
  by rewrite (bind_some _ _ _ _ _ Er).
Qed.

Definition is_note (e : snd_seq_event) : bool := ev_type e =? EVENT_NOTE.

(** Notes count twice: their note-offs come back. *)
Definition weight (m : seqmem) (L : list Z) : nat :=
  sum_list_with (fun c => if is_note (event_at m c) then 2%nat else 1%nat) L.

#[local] Instance weight_proper m : Proper (Permutation ==> eq) (weight m).
Proof. intros L L' E. unfold weight. induction E; simpl; lia. Qed.

Lemma weight_app m L L' : weight m (L ++ L') = (weight m L + weight m L')%nat.
Proof. unfold weight. induction L as [| c L IH]; simpl; [done | rewrite IH; lia]. Qed.

Lemma weight_cons m c L :
  weight m (c :: L) = ((if is_note (event_at m c) then 2 else 1) + weight m L)%nat.
Proof. done. Qed.

Lemma weight_ext m m' L : (forall a, a ∈ L -> event_at m' a = event_at m a) -> weight m' L = weight m L.
Proof.
  unfold weight. induction L as [| c L IH]; intros E; simpl; [done |].
  rewrite E by left. rewrite IH; [done |]. intros a Ha. apply E. by right.
Qed.

(** *** Delivery

    The state of a queue that is being checked. *)
Definition checking w (id : Z) (hold : list Z) (ls : bool -> list Z) : Prop :=
  exists q, queue_is w id q hold ls /\ q_check_blocked q = true.

Definition again w (id : Z) : bool := match lookup_queue w id with Some q => q_check_again q | None => false end.

(** What the check of queue [id] relies on: the delivery of an event returns, leaves the
    cells in hand and a well-formed queue, and only schedules more events in it when it
    delivered to some client. *)
Class DeliveryOk (id : Z) : Prop := delivery_ok : forall w client e atomic hop hold ls,
  checking w id hold ls ->
  exists rc w' ls', snd_seq_deliver_event client e atomic hop w = Some (rc, w') /\
    checking w' id hold ls' /\
    (forall a, a ∈ hold -> event_at (w_mem w') a = event_at (w_mem w) a) /\
    (0 < rc \/ (weight (w_mem w') (queued ls') <= weight (w_mem w) (queued ls))%nat).

(** A check of a queue that is being checked only leaves a mark. *)
Definition check_ok (check : Z -> bool -> Z -> ST (world T) unit) (id : Z) : Prop :=
  forall w q atomic hop, lookup_queue w id = Some q -> q_check_blocked q = true ->
    check id atomic hop w = Some (tt, with_queue id (Some (q <| q_check_again := true |>)) w).

Lemma check_queue_blocked fuel id : check_ok (snd_seq_check_queue (S fuel)) id.
Proof.
  intros w q atomic hop Hq B. cbn [snd_seq_check_queue]. unfold check_queue.
  rewrite (bind_some _ _ w q w) by (unfold queue_at; by rewrite Hq). rewrite B.
  unfold modify_queue. rewrite (bind_some _ _ w q w) by (unfold queue_at; by rewrite Hq). reflexivity.
Qed.

(** Changing other fields of the queue. *)
Lemma queue_is_fields w id q q' hold ls :
  queue_is w id q hold ls -> (forall b, prioq_of b q' = prioq_of b q) ->
  queue_is (with_queue id (Some q') w) id q' hold ls.
Proof.
  intros [A1 A2 A3 A4 A5] E. split; [by apply slots_with_queue | | | done | done].
  - apply lookup_with_queue; [done |]. by eapply lookup_queue_range.
  - intros b. rewrite E. apply A3.
Qed.

Lemma set_list_queued_perm (ls : bool -> list Z) ticks c t prior :
  queued (set_list ticks (insert_by t prior c (ls ticks)) ls) ≡ₚ c :: queued ls.
Proof. rewrite queued_set, insert_by_perm. simpl. by rewrite <- queued_split. Qed.

Lemma note_off_not_note e : is_note (note_off e) = false.
Proof. done. Qed.

Lemma absolute_type tmr e : ev_type (absolute tmr e) = ev_type e.
Proof. unfold absolute. destruct (is_reltime e); [| done]. by destruct (is_tick e). Qed.

Context (id : Z) {law : DeliveryOk id}.

(** Enqueuing from within a check. *)
Lemma enqueue_while_checking w hold ls c :
  checking w id (c :: hold) ls ->
  exists w' ls', (forall check atomic hop, check_ok check id -> enqueue_event check c atomic hop w = Some (0, w')) /\
    checking w' id hold ls' /\ ev_type (event_at (w_mem w') c) = ev_type (event_at (w_mem w) c) /\
    queued ls' ≡ₚ c :: queued ls /\
    (forall a, a ∈ hold ++ queued ls -> event_at (w_mem w') a = event_at (w_mem w) a).
Proof.
  intros (q & W & B). destruct (enqueue_step w id q hold ls c W) as (p & w1 & E & _ & W1 & Ec & Eo).
  set (e := absolute _ _) in *. set (q1 := with_prioq (is_tick e) p q) in *.
  assert (B1 : q_check_blocked q1 = true) by (unfold q1; by destruct (is_tick e)).
  exists (with_queue id (Some (q1 <| q_check_again := true |>)) w1). eexists. split; [| split; [| split; [| split]]].
  - intros check atomic hop Hc. rewrite E. by rewrite (bind_some _ _ _ _ _ (Hc _ _ _ _ (qi_queue _ _ _ _ _ W1) B1)).
  - eexists. split; [eapply queue_is_fields; [exact W1 |] | exact B1]. by intros [].
  - simpl. rewrite Ec. apply absolute_type.
  - apply set_list_queued_perm.
  - exact Eo.
Qed.

(** Dispatching an event in hand while its queue is checked: either it was delivered, or
    there is less to do. *)
Lemma dispatch_while_checking w ls c :
  checking w id [c] ls ->
  forall atomic hop, exists rc w' ls',
    (forall check, check_ok check id -> snd_seq_dispatch_event check c atomic hop w = Some (rc, w')) /\
    checking w' id [] ls' /\
    (0 < rc \/ (weight (w_mem w') (queued ls') < weight (w_mem w) (c :: queued ls))%nat).
Proof.
  intros K atomic hop. pose proof K as (q & W & B).
  destruct (live_cell _ _ c (qi_live _ _ _ _ _ W)) as [[x Hx] Hn]; [left |].
  destruct (qi_events _ _ _ _ _ W c ltac:(left)) as [We _].
  pose proof (event_at_some _ _ _ Hx) as Ee. rewrite Ee in We.
  unfold snd_seq_dispatch_event. set (client := addr_client (ev_source (c_event x))).
  assert (E0 : in_mem (cell_at c) w = Some (x, w)) by (unfold in_mem, cell_at; rewrite Hx; by destruct w).
  assert (Free : forall w1 ls1 (rc : Z), checking w1 id [c] ls1 -> exists w' ,
    bind (in_mem (snd_seq_cell_free c)) (fun _ => ret rc) w1 = Some (rc, w') /\ checking w' id [] ls1 /\
    (forall a, a ∈ queued ls1 -> event_at (w_mem w') a = event_at (w_mem w1) a)).
  { intros w1 ls1 rc (q1 & W1 & B1). destruct (wp_run _ _ _ (free_step _ _ _ _ _ _ W1)) as ([] & w' & E & _ & W' & Ev).
    exists w'. rewrite (bind_some _ _ _ _ _ E). split; [done |]. split; [by exists q1 | exact Ev]. }
  destruct (client_exists client w) eqn:Ex; cbn [negb].
  2:{ destruct (Free w ls (-EINVAL) K) as (w' & E & K' & Ev). exists (-EINVAL), w', ls. split; [| split; [done |]].
      - intros check _. rewrite (bind_some _ _ _ _ _ E0). cbv zeta. fold client. rewrite Ex. exact E.
      - right. rewrite (weight_ext (w_mem w)), weight_cons by done. destruct (is_note (event_at (w_mem w) c)); lia. }
  destruct (is_note (c_event x)) eqn:En.
  - destruct (delivery_ok w client ((c_event x) <| ev_type := EVENT_NOTEON |>) atomic hop [c] ls K)
      as (rc & w1 & ls1 & E1 & (q1 & W1 & B1) & Ev1 & Pr).
    pose proof (Ev1 c ltac:(left)) as Ec1. rewrite Ee in Ec1.
    destruct (note_off_place _ We) as [Sp Wn].
    destruct (wp_run _ _ _ (set_event_step w1 id q1 [] ls1 c note_off W1 ltac:(by rewrite Ec1) ltac:(by rewrite Ec1)))
      as ([] & w2 & E2 & _ & W2 & Ec2 & Ev2).
    destruct (enqueue_while_checking w2 [] ls1 c) as (w3 & ls3 & E3 & K3 & Et3 & P3 & Ev3); [by exists q1 |].
    exists rc, w3, ls3. split; [| split; [done |]].
    + intros check Hc. rewrite (bind_some _ _ _ _ _ E0). cbv zeta. fold client. rewrite Ex. cbn [negb].
      unfold is_note in En. rewrite En. rewrite (bind_some _ _ _ _ _ E1), (bind_some _ _ _ _ _ E2).
      by rewrite (bind_some _ _ _ _ _ (E3 check atomic hop Hc)).
    + destruct Pr as [Pr | Pr]; [by left | right]. rewrite P3, !weight_cons.
      assert (is_note (event_at (w_mem w3) c) = false) as ->.
      { unfold is_note. by rewrite Et3, Ec2. }
      rewrite Ee, En, (weight_ext (w_mem w1)); [lia |]. intros a Ha. rewrite Ev3 by done. by apply Ev2.
  - destruct (delivery_ok w client (c_event x) atomic hop [c] ls K) as (rc & w1 & ls1 & E1 & K1 & _ & Pr).
    destruct (Free w1 ls1 rc K1) as (w' & E & K' & Ev). exists rc, w', ls1. split; [| split; [done |]].
    + intros check _. rewrite (bind_some _ _ _ _ _ E0). cbv zeta. fold client. rewrite Ex. cbn [negb].
      unfold is_note in En. rewrite En. by rewrite (bind_some _ _ _ _ _ E1).
    + destruct Pr as [Pr | Pr]; [by left | right]. rewrite (weight_ext (w_mem w1) (w_mem w')) by done.
      rewrite weight_cons. destruct (is_note (event_at (w_mem w) c)); lia.
Qed.

(** ** The end of a check *)

Definition less (d' d : Z) (n' n : nat) : Prop := (Z.to_nat d' < Z.to_nat d)%nat \/ d' = d /\ (n' < n)%nat.

Lemma less_trans d1 d2 d3 n1 n2 n3 : less d1 d2 n1 n2 -> less d2 d3 n2 n3 -> less d1 d3 n1 n3.
Proof. unfold less. intros [A | [-> A]] [B | [-> B]]; [left; lia | left; lia | left; lia | right; lia]. Qed.

Lemma less_ind (P : Z -> nat -> Prop) :
  (forall d n, (forall d' n', less d' d n' n -> P d' n') -> P d n) -> forall d n, P d n.
Proof.
  intros IH d. remember (Z.to_nat d) as k eqn:Ek. revert d Ek.
  induction k as [k IHk] using lt_wf_ind. intros d Ek n. induction n as [n IHn] using lt_wf_ind.
  apply IH. intros d' n' [Hd | [-> Hn]]; [| auto]. apply (IHk (Z.to_nat d')); [lia | done].
Qed.

(** One round of a loop. *)
Lemma process_spent check fuel ticks k atomic hop dequeue w :
  dequeue <= 0 -> process check (S fuel) ticks k atomic hop dequeue w = Some (dequeue, w).
Proof. intros Hd. cbn [process]. by rewrite (proj2 (Z.ltb_ge 0 dequeue)). Qed.

Lemma process_empty check fuel ticks k atomic hop dequeue w q hold ls :
  queue_is w k q hold ls -> ls ticks = [] ->
  process check (S fuel) ticks k atomic hop dequeue w = Some (dequeue, w).
Proof.
  intros W El. cbn [process]. destruct (negb (0 <? dequeue)); [done |].
  rewrite (bind_some _ _ w q w) by (unfold queue_at; by rewrite (qi_queue _ _ _ _ _ W)).
  cbv zeta. unfold snd_seq_prioq_cell_peek. destruct (qi_prioq _ _ _ _ _ W ticks) as [Q _ _ _ _].
  rewrite El in Q. unfold chain in Q. simpl in Q. by rewrite Q.
Qed.

Lemma process_head check fuel ticks k atomic hop dequeue w q hold ls c l :
  queue_is w k q hold ls -> ls ticks = c :: l -> 0 < dequeue ->
  process check (S fuel) ticks k atomic hop dequeue w =
    (if due ticks (q_timer q) (event_at (w_mem w) c) then
       (_ <- on_prioq k ticks snd_seq_prioq_cell_out;;
        rc <- snd_seq_dispatch_event check c atomic hop;;
        process check fuel ticks k atomic hop (if 0 <? rc then dequeue - rc else dequeue))
     else ret dequeue) w.
Proof.
  intros W El Hd. cbn [process]. rewrite (proj2 (Z.ltb_lt 0 dequeue)) by lia. cbn [negb].
  rewrite (bind_some _ _ w q w) by (unfold queue_at; by rewrite (qi_queue _ _ _ _ _ W)).
  cbv zeta. unfold snd_seq_prioq_cell_peek. pose proof (qi_prioq _ _ _ _ _ W ticks) as [Q _ _ _ _].
  rewrite El in Q. destruct Q as (-> & Hn & x & Hx & _). rewrite (proj2 (Z.eqb_neq c NULL) Hn).
  rewrite (bind_some _ _ w x w) by (unfold in_mem, cell_at; rewrite Hx; by destruct w).
  rewrite (event_at_some _ _ _ Hx). destruct (due _ _ _); [| done].
  destruct (wp_run _ _ _ (cell_out_step w k q hold ls ticks c l W El)) as (c' & w1 & E1 & -> & _).
  rewrite !(bind_some _ _ _ _ _ E1). by rewrite (proj2 (Z.eqb_neq c NULL) Hn).
Qed.

(** Each of the two loops ends; it either did nothing, or less is left to do. *)
Lemma process_ends ticks atomic hop : forall dequeue n w ls,
  checking w id [] ls -> weight (w_mem w) (queued ls) = n ->
  exists N dequeue' w' ls',
    (forall check fuel, check_ok check id -> (N <= fuel)%nat ->
       process check fuel ticks id atomic hop dequeue w = Some (dequeue', w')) /\
    checking w' id [] ls' /\
    (dequeue' = dequeue /\ w' = w /\ ls' = ls \/
     less dequeue' dequeue (weight (w_mem w') (queued ls')) (weight (w_mem w) (queued ls))).
Proof.
  apply (less_ind (fun dequeue n => forall w ls, checking w id [] ls -> weight (w_mem w) (queued ls) = n -> _)).
  intros dequeue n IH w ls K En.
  assert (Stop : (forall check fuel, process check (S fuel) ticks id atomic hop dequeue w = Some (dequeue, w)) ->
    exists N dequeue' w' ls',
    (forall check fuel, check_ok check id -> (N <= fuel)%nat ->
       process check fuel ticks id atomic hop dequeue w = Some (dequeue', w')) /\
    checking w' id [] ls' /\
    (dequeue' = dequeue /\ w' = w /\ ls' = ls \/
     less dequeue' dequeue (weight (w_mem w') (queued ls')) (weight (w_mem w) (queued ls)))).
  { intros Ep. exists 1%nat, dequeue, w, ls. split; [| split; [done | by left]].
    intros check [| fuel] _ Hf; [lia | apply Ep]. }
  pose proof K as (q & W & B).
  destruct (Z.ltb_spec 0 dequeue) as [Hd | Hd].
  2:{ apply Stop. intros check fuel. by apply process_spent. }
  destruct (ls ticks) as [| c l] eqn:El.
  { apply Stop. intros check fuel. by eapply process_empty. }
  pose proof (fun check fuel => process_head check fuel ticks id atomic hop dequeue w q [] ls c l W El Hd) as Start.
  destruct (due ticks (q_timer q) (event_at (w_mem w) c)) eqn:Ed.
  2:{ apply Stop. intros check fuel. by rewrite Start. }
  destruct (wp_run _ _ _ (cell_out_step w id q [] ls ticks c l W El)) as (c' & w1 & E1 & -> & p & _ & W1 & Ev1).
  set (ls1 := set_list ticks l ls) in *.
  assert (K1 : checking w1 id [c] ls1) by (eexists; split; [exact W1 | by destruct ticks]).
  assert (E1w : weight (w_mem w1) (c :: queued ls1) = weight (w_mem w) (queued ls)).
  { assert (P : c :: queued ls1 ≡ₚ queued ls).
    { unfold ls1. rewrite queued_set, (queued_split ls ticks), El. done. }
    rewrite P. by apply weight_ext. }
  destruct (dispatch_while_checking w1 ls1 c K1 atomic hop) as (rc & w2 & ls2 & E2 & K2 & Pr).
  set (d2 := if 0 <? rc then dequeue - rc else dequeue).
  assert (L2 : less d2 dequeue (weight (w_mem w2) (queued ls2)) (weight (w_mem w) (queued ls))).
  { unfold less, d2. rewrite <- E1w. destruct (Z.ltb_spec 0 rc); [left; lia | right; lia]. }
  destruct (IH d2 _ ltac:(rewrite <- En; exact L2) w2 ls2 K2 eq_refl) as (N & d3 & w3 & ls3 & E3 & K3 & Pr3).
  exists (S N), d3, w3, ls3. split; [| split; [done |]].
  - intros check [| fuel] Hc Hf; [lia |]. rewrite Start. rewrite (bind_some _ _ _ _ _ E1).
    rewrite (bind_some _ _ _ _ _ (E2 check Hc)).
    apply E3; [done | lia].
  - right. destruct Pr3 as [(-> & -> & ->) | Pr3]; [exact L2 |]. eapply less_trans; [exact Pr3 | exact L2].
Qed.

Lemma queue_at_is w k q hold ls : queue_is w k q hold ls -> queue_at k w = Some (q, w).
Proof. intros W. unfold queue_at. by rewrite (qi_queue _ _ _ _ _ W). Qed.

Lemma modify_queue_is w k q hold ls f :
  queue_is w k q hold ls -> modify_queue k f w = Some (tt, with_queue k (Some (f q)) w).
Proof. intros W. unfold modify_queue. by rewrite (bind_some _ _ _ _ _ (queue_at_is _ _ _ _ _ W)). Qed.

(** A check of a queue that is not being checked. *)
Lemma check_queue_start fuel k atomic hop w q hold ls :
  queue_is w k q hold ls -> q_check_blocked q = false ->
  snd_seq_check_queue (S fuel) k atomic hop w =
    check_loop (snd_seq_check_queue fuel) fuel k atomic hop (dequeue_limit w)
      (with_queue k (Some (q <| q_check_blocked := true |>)) w).
Proof.
  intros W B. cbn [snd_seq_check_queue]. unfold check_queue.
  rewrite (bind_some _ _ _ _ _ (queue_at_is _ _ _ _ _ W)), B.
  by rewrite (bind_some _ _ _ _ _ (modify_queue_is _ _ _ _ _ _ W)).
Qed.

(** The state after a check: the queue is free to be checked again. *)
Definition checked w' : Prop :=
  exists q' ls', queue_is w' id q' [] ls' /\ q_check_blocked q' = false /\ q_check_again q' = false.

Definition work w (ls : bool -> list Z) : nat := 2 * weight (w_mem w) (queued ls) + (if again w id then 1 else 0).

Lemma check_loop_ends atomic hop : forall dequeue n w ls,
  checking w id [] ls -> work w ls = n ->
  exists N w',
    (forall check fuel, check_ok check id -> (N <= fuel)%nat ->
       check_loop check fuel id atomic hop dequeue w = Some (tt, w')) /\ checked w'.
Proof.
  apply (less_ind (fun dequeue n => forall w ls, checking w id [] ls -> work w ls = n -> _)).
  intros dequeue n IH w ls K En.
  destruct (process_ends true atomic hop dequeue _ w ls K eq_refl) as (N1 & d1 & w1 & ls1 & E1 & K1 & Pr1).
  destruct (process_ends false atomic hop d1 _ w1 ls1 K1 eq_refl) as (N2 & d2 & w2 & ls2 & E2 & K2 & Pr2).
  assert (Pr : d2 = dequeue /\ w2 = w /\ ls2 = ls \/
    less d2 dequeue (weight (w_mem w2) (queued ls2)) (weight (w_mem w) (queued ls))).
  { destruct Pr2 as [(-> & -> & ->) | Pr2]; [exact Pr1 |]. right.
    destruct Pr1 as [(-> & -> & ->) | Pr1]; [exact Pr2 |]. eapply less_trans; [exact Pr2 | exact Pr1]. }
  clear Pr1 Pr2. pose proof K2 as (q & W & B).
  pose proof (queue_at_is _ _ _ _ _ W) as Eq. pose proof (fun f => modify_queue_is _ _ _ _ _ f W) as Set_.
  destruct (q_check_again q) eqn:Ea.
  - set (q3 := q <| q_check_again := false |>). set (w3 := with_queue id (Some q3) w2).
    assert (W3 : queue_is w3 id q3 [] ls2) by (eapply queue_is_fields; [exact W | by intros []]).
    assert (K3 : checking w3 id [] ls2) by (by exists q3).
    assert (L : less d2 dequeue (work w3 ls2) n).
    { rewrite <- En. unfold work, again. rewrite (qi_queue _ _ _ _ _ W3). simpl q_check_again.
      change (w_mem w3) with (w_mem w2). destruct Pr as [(-> & -> & ->) | [Pr | [-> Pr]]].
      - right. rewrite (qi_queue _ _ _ _ _ W), Ea. lia.
      - by left.
      - right. lia. }
    destruct (IH d2 _ L w3 ls2 K3 eq_refl) as (N3 & w' & E3 & Fin).
    exists (S (N1 + N2 + N3)), w'. split; [| exact Fin]. intros check [| fuel] Hc Hf; [lia |].
    cbn [check_loop]. rewrite (bind_some _ _ _ _ _ (E1 check (S fuel) Hc ltac:(lia))).
    rewrite (bind_some _ _ _ _ _ (E2 check (S fuel) Hc ltac:(lia))), (bind_some _ _ _ _ _ Eq), Ea.
    rewrite (bind_some _ _ _ _ _ (Set_ _)). apply E3; [done | lia].
  - set (q3 := q <| q_check_blocked := false |>). set (w3 := with_queue id (Some q3) w2).
    exists (S (N1 + N2)), w3. split.
    + intros check [| fuel] Hc Hf; [lia |]. cbn [check_loop].
      rewrite (bind_some _ _ _ _ _ (E1 check (S fuel) Hc ltac:(lia))).
      rewrite (bind_some _ _ _ _ _ (E2 check (S fuel) Hc ltac:(lia))), (bind_some _ _ _ _ _ Eq), Ea. apply Set_.
    + exists q3, ls2. split; [eapply queue_is_fields; [exact W | by intros []] |]. done.
Qed.
End Check.

(** C22: checking a queue always ends, and leaves it free for the next check.  Whatever the
    clients do with the events they are given (answer with more events for the same queue,
    control it, or ask for it to be checked again), as long as an event that reaches nobody
    does not schedule new ones, enough fuel gives the result: events that are delivered use
    up the limit of the check, and each of the others leaves less to do, though a note
    returns to the queue as its note-off. *)
Theorem check_queue_ends {T} `{SndTimer T} `{SeqClients T} id `{!DeliveryOk id} (w : world T) q ls atomic hop :
  queue_is w id q [] ls -> q_check_blocked q = false ->
  exists N w', (forall fuel, (N <= fuel)%nat -> snd_seq_check_queue fuel id atomic hop w = Some (tt, w')) /\
    exists q' ls', queue_is w' id q' [] ls' /\ q_check_blocked q' = false /\ q_check_again q' = false.
Proof.
  intros W B. set (q1 := q <| q_check_blocked := true |>). set (w1 := with_queue id (Some q1) w).
  assert (K1 : checking w1 id [] ls).
  { exists q1. split; [eapply queue_is_fields; [exact W | by intros []] | done]. }
  destruct (check_loop_ends id atomic hop (dequeue_limit w) _ w1 ls K1 eq_refl) as (N & w' & E & Fin).
  exists (S (S N)), w'. split; [| exact Fin]. intros [| [| fuel]] Hf; [lia | lia |].
  rewrite (check_queue_start _ _ _ _ _ _ _ _ W B). apply E; [apply check_queue_blocked | lia].
Qed.
