(* ===== verification/SeqDeliver.v ===== *)
(** * SeqDeliver: which events a check delivers

    The check of a queue delivers the events that are due, in order, up to the limit, to any
    clients that keep the law [Listeners]. *)

From S2P Require Import Prelude SeqEvent SeqCells SeqMemory SeqPrioq SeqTimer SeqQueue SeqLive SeqWorld SeqCheck.
From stdpp Require Import sorting.
Open Scope Z_scope.
Open Scope state_scope.

(** ** Clients that record *)

Definition records : Type := list snd_seq_event.

#[export] Instance no_timers : SndTimer records := {|
  snd_timer_open := fun _ _ t => (0, t);
  setup_slave := fun _ _ _ t => t;
  setup_callback := fun _ _ t => t;
  hw_slave := fun _ _ => None;
  snd_timer_resolution := fun _ _ => 0;
  snd_timer_start := fun _ _ t => t;
  snd_timer_stop := fun _ t => t;
  snd_timer_close := fun _ t => t |}.

(** ** What a check may count on

    The events that are planned in a queue, and how one is planned: behind those that come
    earlier and behind those of its time, unless it has priority. *)
Definition plan : Type := bool -> list snd_seq_event.

Fixpoint insert_event (e : snd_seq_event) (l : list snd_seq_event) : list snd_seq_event :=
  match l with
  | [] => [e]
  | d :: l => if (key e <? key d) || ((key e =? key d) && is_prior e) then e :: d :: l else d :: insert_event e l
  end.

Definition place (e : snd_seq_event) (P : plan) : plan :=
  fun b => if Bool.eqb b (is_tick e) then insert_event e (P b) else P b.
Definition schedule (new : list snd_seq_event) (P : plan) : plan := foldl (fun P e => place e P) P new.
Definition without (ticks : bool) (P : plan) : plan := fun b => if Bool.eqb b ticks then tail (P b) else P b.

(** A note is heard as a note-on, and comes back as the note-off that ends it. *)
Definition sounding (e : snd_seq_event) : snd_seq_event := if is_note e then e <| ev_type := EVENT_NOTEON |> else e.
Definition comes_back (clk : seq_timer) (e : snd_seq_event) (P : plan) : plan :=
  if is_note e then place (absolute clk (note_off e)) P else P.

Definition sender (e : snd_seq_event) : Z := addr_client (ev_source e).

Definition events (m : seqmem) (l : list Z) : list snd_seq_event := event_at m <$> l.
Definition planned {T} (w : world T) (ls : bool -> list Z) : plan := fun b => events (w_mem w) (ls b).

(** The clients of a sequencer as queue [id] meets them: [known] says which there are, and
    [hears] what the delivery of an event may answer and do to the clients, and which events
    they then schedule in the queue.  The delivery may schedule events only if it reached
    somebody, asks for another check then, as enqueuing does, and leaves the clock alone. *)
Class Listeners (id : Z) (T : Type) `{SndTimer T} `{SeqClients T} := {
  known : Z -> T -> bool;
  hears : Z -> snd_seq_event -> Z -> T -> T -> list snd_seq_event -> Prop;
  known_ok c (w : world T) : client_exists c w = known c (w_core w);
  hears_ok (w : world T) q client e atomic hop hold ls :
    queue_is w id q hold ls -> q_check_blocked q = true ->
    exists rc w' q' ls' new,
      snd_seq_deliver_event client e atomic hop w = Some (rc, w') /\
      hears client e rc (w_core w) (w_core w') new /\
      queue_is w' id q' hold ls' /\ q_check_blocked q' = true /\ q_timer q' = q_timer q /\
      (forall b, planned w' ls' b = schedule new (planned w ls) b) /\
      (forall a, a ∈ hold -> event_at (w_mem w') a = event_at (w_mem w) a) /\
      (new = [] /\ q_check_again q' = q_check_again q \/ 0 < rc /\ q_check_again q' = true) }.

(** ** What a check does

    What is left of its limit, the events that are planned, and the clients. *)
Record agenda {T} := Agenda { ag_left : Z; ag_plan : plan; ag_core : T }.
Arguments agenda : clear implicits.

(** The time of an event has come. *)
Definition has_come (ticks : bool) (clk : seq_timer) (e : snd_seq_event) : Prop :=
  let t := ev_time e in
  if ticks then tick t <= cur_tick (tmr_tick clk)
  else tv_sec t < tv_sec (cur_time clk) \/ tv_sec t = tv_sec (cur_time clk) /\ tv_nsec t <= tv_nsec (cur_time clk).

Definition spend (d rc : Z) : Z := if 0 <? rc then d - rc else d.

Section Agenda.
Context {T : Type} (known : Z -> T -> bool) (hears : Z -> snd_seq_event -> Z -> T -> T -> list snd_seq_event -> Prop).
Context (clk : seq_timer).

(** The first event of one of the two lists is delivered, or dropped when its sender is gone. *)
Inductive takes (b : bool) : agenda T -> agenda T -> Prop :=
| takes_gone d P t e l P' :
    0 < d -> P b = e :: l -> has_come b clk e -> known (sender e) t = false ->
    (forall k, P' k = without b P k) ->
    takes b (Agenda _ d P t) (Agenda _ d P' t)
| takes_heard d P t e l rc t' new P' :
    0 < d -> P b = e :: l -> has_come b clk e -> known (sender e) t = true ->
    hears (sender e) (sounding e) rc t t' new ->
    (forall k, P' k = comes_back clk e (schedule new (without b P)) k) ->
    takes b (Agenda _ d P t) (Agenda _ (spend d rc) P' t').

(** Nothing more to take: the limit is used up, or no event of the list has come. *)
Definition none_come (b : bool) (P : plan) : Prop := forall e, e ∈ P b -> ~ has_come b clk e.
Definition idle (b : bool) (A : agenda T) : Prop := ag_left A <= 0 \/ none_come b (ag_plan A).

(** All events by ticks whose time has come, then all those by real time. *)
Definition pass (A A' : agenda T) : Prop :=
  exists A1, rtc (takes true) A A1 /\ idle true A1 /\ rtc (takes false) A1 A' /\ idle false A'.

Lemma takes_left b A A' : rtc (takes b) A A' -> ag_left A' <= ag_left A.
Proof.
  induction 1 as [| A1 A2 A3 S _ IH]; [done |]. destruct S; simpl in *; [done |]. unfold spend in *.
  destruct (Z.ltb_spec 0 rc); lia.
Qed.
End Agenda.

(** *** Plans and cells *)

Definition clock_ok (tmr : seq_timer) : Prop := is_u32 (tv_nsec (cur_time tmr)).

Lemma due_has_come ticks clk e : due ticks clk e = true <-> has_come ticks clk e.
Proof.
  unfold due, has_come. destruct ticks.
  - unfold snd_seq_compare_tick_time. apply Z.leb_le.
  - unfold snd_seq_compare_real_time. cbv zeta. repeat btest; simpl; repeat btest; split; lia || done.
Qed.

Lemma due_earlier ticks tmr a b :
  clock_ok tmr -> event_wf a -> event_wf b -> is_tick a = ticks -> is_tick b = ticks -> key a <= key b ->
  has_come ticks tmr b -> has_come ticks tmr a.
Proof.
  intros Hc [_ Wa] [_ Wb] Ka Kb. rewrite !Forall_cons in *. destruct_and? Wa. destruct_and? Wb.
  unfold key, has_come. rewrite Ka, Kb. unfold clock_ok, is_u32 in *. destruct ticks; cbv zeta; lia.
Qed.

(** The first event has not come: none has. *)
Lemma none_due {T} (w : world T) ticks clk f ls :
  clock_ok clk -> prioq_is (w_mem w) ticks f (ls ticks) ->
  (forall c l, ls ticks = c :: l -> due ticks clk (event_at (w_mem w) c) = false) ->
  none_come clk ticks (planned w ls).
Proof.
  intros Hc [_ _ _ K S] Hd e He He2. unfold planned, events in He.
  apply list_elem_of_fmap in He as (a & -> & Ha). destruct (ls ticks) as [| c l] eqn:El; [by apply elem_of_nil in Ha |].
  specialize (Hd c l eq_refl). apply not_true_iff_false in Hd. apply Hd, due_has_come.
  apply elem_of_cons in Ha as [-> | Ha]; [done |].
  apply Forall_cons in K as [[Wc Kc] K]. apply StronglySorted_inv in S as [_ S].
  rewrite Forall_forall in *. destruct (K a Ha) as [Wa Ka].
  apply (due_earlier ticks clk (event_at (w_mem w) c) (event_at (w_mem w) a)); try done. by apply S.
Qed.

Lemma events_ext m m' l : (forall a, a ∈ l -> event_at m' a = event_at m a) -> events m' l = events m l.
Proof. intros E. unfold events. apply list_fmap_ext. intros i a Ha. apply E. by apply list_elem_of_lookup_2 in Ha. Qed.

Lemma planned_ext {T} (w w' : world T) ls :
  (forall a, a ∈ queued ls -> event_at (w_mem w') a = event_at (w_mem w) a) ->
  forall b, planned w' ls b = planned w ls b.
Proof. intros E b. apply events_ext. intros a Ha. apply E. rewrite (queued_split ls b), elem_of_app. by left. Qed.

Lemma events_insert m c l :
  events m (insert_by (time_at m) (is_prior (event_at m c)) c l) = insert_event (event_at m c) (events m l).
Proof.
  unfold events. induction l as [| d l IH]; [done |]. cbn [insert_by fmap list_fmap insert_event].
  unfold time_at at 1 2 3 4. destruct (_ || _); [done |]. cbn [fmap list_fmap]. by f_equal.
Qed.

Lemma place_ext e P P' : (forall b, P b = P' b) -> forall b, place e P b = place e P' b.
Proof. intros E b. unfold place. by rewrite E. Qed.

Lemma schedule_ext new : forall P P', (forall b, P b = P' b) -> forall b, schedule new P b = schedule new P' b.
Proof. induction new as [| e new IH]; intros P P' E; [done |]. apply IH, place_ext, E. Qed.

Lemma comes_back_ext clk e P P' : (forall b, P b = P' b) -> forall b, comes_back clk e P b = comes_back clk e P' b.
Proof. intros E b. unfold comes_back. destruct (is_note e); [by apply place_ext | done]. Qed.

Lemma weight_planned {T} (w w' : world T) ls ls' :
  (forall b, planned w' ls' b = planned w ls b) -> weight (w_mem w') (queued ls') = weight (w_mem w) (queued ls).
Proof.
  intros E. unfold queued. rewrite !weight_app.
  assert (W : forall m l, weight m l = sum_list_with (fun e => if is_note e then 2%nat else 1%nat) (events m l)).
  { intros m l. unfold weight, events. induction l as [| c l IH]; simpl; [done | by rewrite IH]. }
  rewrite !W. unfold planned in E. by rewrite !E.
Qed.

(** ** The check *)

Section Deliver.
Context {T : Type} `{SndTimer T} `{SeqClients T} (id : Z) {L : Listeners id T}.
Implicit Types (w : world T) (q : queue).

#[export] Instance listeners_deliver : DeliveryOk id.
Proof.
  intros w client e atomic hop hold ls (q & W & B).
  destruct (hears_ok w q client e atomic hop hold ls W B) as (rc & w' & q' & ls' & new & E & _ & W' & B' & _ & P & Eh & D).
  exists rc, w', ls'. split; [done |]. split; [by exists q' |]. split; [done |].
  destruct D as [[-> _] | [D _]]; [right | by left]. by rewrite (weight_planned w w' ls ls').
Qed.

(** Putting the note-off back while the queue is checked. *)
Lemma enqueue_planned w q hold ls c check atomic hop :
  queue_is w id q (c :: hold) ls -> q_check_blocked q = true -> check_ok check id ->
  exists w' q' ls', enqueue_event check c atomic hop w = Some (0, w') /\
    queue_is w' id q' hold ls' /\ q_check_blocked q' = true /\ q_timer q' = q_timer q /\ q_check_again q' = true /\
    w_core w' = w_core w /\
    (forall b, planned w' ls' b = place (absolute (q_timer q) (event_at (w_mem w) c)) (planned w ls) b).
Proof.
  intros W B Hc. destruct (enqueue_step w id q hold ls c W) as (p & w1 & E & [m Em] & W1 & Ec & Eo).
  set (e := absolute _ _) in *. set (q1 := with_prioq (is_tick e) p q) in *.
  assert (B1 : q_check_blocked q1 = true) by (unfold q1; by destruct (is_tick e)).
  set (q2 := q1 <| q_check_again := true |>).
  eexists (with_queue id (Some q2) w1), q2, _. split; [| split; [| split; [done | split; [| split; [done | split]]]]].
  - rewrite E. by rewrite (bind_some _ _ _ _ _ (Hc _ _ _ _ (qi_queue _ _ _ _ _ W1) B1)).
  - eapply queue_is_fields; [exact W1 |]. by intros [].
  - unfold q2, q1. by destruct (is_tick e).
  - by rewrite Em.
  - intros b. unfold planned, place, set_list. change (w_mem (with_queue id (Some q2) w1)) with (w_mem w1).
    assert (Ev : forall k, events (w_mem w1) (ls k) = events (w_mem w) (ls k)).
    { intros k. apply events_ext. intros a Ha. apply Eo. rewrite elem_of_app, (queued_split ls k), elem_of_app. tauto. }
    destruct (Bool.eqb b (is_tick e)) eqn:Eb; [| apply Ev].
    apply Bool.eqb_prop in Eb as ->. rewrite <- Ec at 1. rewrite events_insert, Ev, Ec. done.
Qed.

(** Dispatching the cell in hand. *)
Lemma dispatch_heard w q ls c check atomic hop :
  queue_is w id q [c] ls -> q_check_blocked q = true -> check_ok check id ->
  let e := event_at (w_mem w) c in
  exists rc w' q' ls',
    snd_seq_dispatch_event check c atomic hop w = Some (rc, w') /\
    queue_is w' id q' [] ls' /\ q_check_blocked q' = true /\ q_timer q' = q_timer q /\
    (known (sender e) (w_core w) = false /\ rc <= 0 /\ w_core w' = w_core w /\
     q_check_again q' = q_check_again q /\ (forall b, planned w' ls' b = planned w ls b) \/
     known (sender e) (w_core w) = true /\ exists new,
       hears (sender e) (sounding e) rc (w_core w) (w_core w') new /\
       (forall b, planned w' ls' b = comes_back (q_timer q) e (schedule new (planned w ls)) b) /\
       (q_check_again q' = false -> q_check_again q = false /\ new = [] /\ is_note e = false)).
Proof.
  intros W B Hc e. destruct (live_cell _ _ c (qi_live _ _ _ _ _ W)) as [[x Hx] Hn]; [left |].
  pose proof (event_at_some _ _ _ Hx) as Ee. fold e in Ee.
  destruct (qi_events _ _ _ _ _ W c ltac:(left)) as [We _]. fold e in We.
  unfold snd_seq_dispatch_event.
  rewrite (bind_some _ _ w x w) by (unfold in_mem, cell_at; rewrite Hx; by destruct w).
  cbv zeta. rewrite <- Ee, known_ok. change (addr_client (ev_source e)) with (sender e).
  destruct (known (sender e) (w_core w)) eqn:Ek; cbn [negb].
  2:{ destruct (wp_run _ _ _ (free_step w id q [] ls c W)) as ([] & w' & E & [m Em] & W' & Ev).
      rewrite (bind_some _ _ _ _ _ E). exists (-EINVAL), w', q, ls. split_and!; try done. left.
      split_and!; try done; [by rewrite Em | by apply planned_ext]. }
  assert (Hd : forall e', exists rc w1 q1 ls1 new, _) by (intros e'; exact (hears_ok w q (sender e) e' atomic hop [c] ls W B)).
  unfold sounding, comes_back, is_note in *. destruct (ev_type e =? EVENT_NOTE) eqn:En.
  - destruct (Hd (e <| ev_type := EVENT_NOTEON |>)) as (rc & w1 & q1 & ls1 & new & E1 & Hh & W1 & B1 & T1 & P1 & Eh & D).
    rewrite (bind_some _ _ _ _ _ E1). specialize (Eh c ltac:(left)). fold e in Eh.
    destruct (note_off_place _ We) as [Sp Wn].
    destruct (wp_run _ _ _ (set_event_step w1 id q1 [] ls1 c note_off W1 ltac:(by rewrite Eh) ltac:(by rewrite Eh)))
      as ([] & w2 & E2 & [m2 Em2] & W2 & Ec2 & Ev2).
    destruct (enqueue_planned w2 q1 [] ls1 c check atomic hop W2 B1 Hc) as (w3 & q3 & ls3 & E3 & W3 & B3 & T3 & A3 & C3 & P3).
    rewrite (bind_some _ _ _ _ _ E2), (bind_some _ _ _ _ _ E3). cbn [Z.ltb].
    exists rc, w3, q3, ls3. split_and!; try done; [by rewrite T3, T1 |]. right. split; [done |]. exists new. split_and!; [| | congruence].
    + rewrite C3, Em2. exact Hh.
    + intros b. rewrite P3, Ec2, Eh, T1. apply place_ext. intros k. rewrite <- P1. by apply planned_ext.
  - destruct (Hd e) as (rc & w1 & q1 & ls1 & new & E1 & Hh & W1 & B1 & T1 & P1 & _ & D).
    rewrite (bind_some _ _ _ _ _ E1).
    destruct (wp_run _ _ _ (free_step w1 id q1 [] ls1 c W1)) as ([] & w2 & E2 & [m2 Em2] & W2 & Ev2).
    rewrite (bind_some _ _ _ _ _ E2). exists rc, w2, q1, ls1. split_and!; try done. right. split; [done |]. exists new. split_and!.
    + rewrite Em2. exact Hh.
    + intros b. rewrite <- P1. by apply planned_ext.
    + intros A1. destruct D as [[-> D] | [_ D]]; [| congruence]. by rewrite <- D.
Qed.

Abbreviation served clk := (takes known hears clk).
Definition agenda_of (d : Z) w ls : agenda T := Agenda _ d (planned w ls) (w_core w).

(** Taking the first event, dispatch included. *)
Lemma head_served w q ls ticks c l d check atomic hop :
  queue_is w id q [] ls -> q_check_blocked q = true -> check_ok check id -> ls ticks = c :: l -> 0 < d ->
  due ticks (q_timer q) (event_at (w_mem w) c) = true ->
  exists rc w' q' ls',
    (_ <- on_prioq id ticks snd_seq_prioq_cell_out;; snd_seq_dispatch_event check c atomic hop) w = Some (rc, w') /\
    queue_is w' id q' [] ls' /\ q_check_blocked q' = true /\ q_timer q' = q_timer q /\
    served (q_timer q) ticks (agenda_of d w ls) (agenda_of (spend d rc) w' ls') /\
    (q_check_again q' = false ->
       q_check_again q = false /\ planned w' ls' (negb ticks) = planned w ls (negb ticks)).
Proof.
  intros W B Hc El Hd Ed.
  destruct (wp_run _ _ _ (cell_out_step w id q [] ls ticks c l W El)) as (c' & w1 & E1 & -> & p & [m1 Em1] & W1 & Ev1).
  set (ls1 := set_list ticks l ls) in *. set (q1 := with_prioq ticks p q) in *.
  assert (F : q_check_blocked q1 = q_check_blocked q /\ q_timer q1 = q_timer q /\ q_check_again q1 = q_check_again q)
    by (unfold q1; by destruct ticks).
  destruct F as (F1 & F2 & F3). rewrite (bind_some _ _ _ _ _ E1).
  assert (In1 : forall a, a ∈ c :: queued ls1 -> a ∈ queued ls).
  { intros a. unfold ls1. by rewrite queued_set, (queued_split ls ticks), El. }
  assert (Ec : event_at (w_mem w1) c = event_at (w_mem w) c) by (apply Ev1, In1; left).
  assert (P1 : forall b, planned w1 ls1 b = without ticks (planned w ls) b).
  { intros b. rewrite (planned_ext w w1 ls1) by (intros a Ha; apply Ev1, In1; by right).
    unfold planned, without, ls1, set_list. destruct (Bool.eqb b ticks) eqn:Eb; [| done].
    apply Bool.eqb_prop in Eb as ->. by rewrite El. }
  assert (Head : planned w ls ticks = event_at (w_mem w) c :: events (w_mem w) l).
  { unfold planned. by rewrite El. }
  apply due_has_come in Ed.
  assert (C1 : w_core w1 = w_core w) by by rewrite Em1.
  assert (Other : without ticks (planned w ls) (negb ticks) = planned w ls (negb ticks)) by (unfold without; by destruct ticks).
  destruct (dispatch_heard w1 q1 ls1 c check atomic hop W1) as (rc & w2 & q2 & ls2 & E2 & W2 & B2 & T2 & D); [by rewrite F1 | done |].
  rewrite Ec, C1, F2, F3 in D. exists rc, w2, q2, ls2. split_and!; try done; [by rewrite T2, F2 | |].
  - destruct D as [(Ek & Hr & C2 & _ & P2) | (Ek & new & Hh & P2 & _)].
    + unfold agenda_of, spend. rewrite C2, (proj2 (Z.ltb_ge 0 rc)) by done.
      eapply takes_gone; try done. intros k. by rewrite P2.
    + eapply takes_heard; try done. intros k. rewrite P2. by apply comes_back_ext, schedule_ext.
  - intros A2. destruct D as [(_ & _ & _ & A3 & P2) | (_ & new & _ & P2 & A3)].
    + split; [congruence |]. by rewrite P2, P1.
    + destruct (A3 A2) as (A4 & -> & En). split; [done |]. rewrite P2. unfold comes_back. rewrite En. cbn [schedule foldl].
      by rewrite P1.
Qed.

Lemma process_serves check ticks atomic hop : check_ok check id -> forall fuel d w q ls d' w',
  queue_is w id q [] ls -> q_check_blocked q = true -> clock_ok (q_timer q) ->
  process check fuel ticks id atomic hop d w = Some (d', w') ->
  exists q' ls', queue_is w' id q' [] ls' /\ q_check_blocked q' = true /\ q_timer q' = q_timer q /\
    rtc (served (q_timer q) ticks) (agenda_of d w ls) (agenda_of d' w' ls') /\
    idle (q_timer q) ticks (agenda_of d' w' ls') /\
    (q_check_again q' = false ->
       q_check_again q = false /\ planned w' ls' (negb ticks) = planned w ls (negb ticks)).
Proof.
  intros Hc. induction fuel as [| fuel IH]; intros d w q ls d' w' W B Hk E; [done |].
  assert (Stop : idle (q_timer q) ticks (agenda_of d w ls) -> Some (d, w) = Some (d', w') ->
    exists q' ls', queue_is w' id q' [] ls' /\ q_check_blocked q' = true /\ q_timer q' = q_timer q /\
    rtc (served (q_timer q) ticks) (agenda_of d w ls) (agenda_of d' w' ls') /\
    idle (q_timer q) ticks (agenda_of d' w' ls') /\
    (q_check_again q' = false ->
       q_check_again q = false /\ planned w' ls' (negb ticks) = planned w ls (negb ticks))).
  { intros I [= <- <-]. exists q, ls. by split_and!. }
  destruct (Z.ltb_spec 0 d) as [Hd | Hd].
  2:{ apply Stop; [by left |]. rewrite <- E. symmetry. by apply process_spent. }
  pose proof (qi_prioq _ _ _ _ _ W ticks) as Q.
  destruct (ls ticks) as [| c l] eqn:El.
  { apply Stop; [| rewrite <- E; symmetry; by eapply process_empty].
    right. eapply none_due; [done | rewrite El; exact Q | by rewrite El]. }
  rewrite (process_head check fuel ticks id atomic hop d w q [] ls c l W El Hd) in E.
  destruct (due ticks (q_timer q) (event_at (w_mem w) c)) eqn:Ed.
  2:{ apply Stop; [| exact E]. right. eapply none_due; [done | rewrite El; exact Q |]. rewrite El. by intros ?? [= <- <-]. }
  destruct (head_served w q ls ticks c l d check atomic hop W B Hc El Hd Ed)
    as (rc & w2 & q2 & ls2 & E2 & W2 & B2 & T2 & S2 & A2).
  rewrite <- (bind_assoc _ (fun _ => snd_seq_dispatch_event check c atomic hop)), (bind_some _ _ _ _ _ E2) in E.
  destruct (IH _ w2 q2 ls2 d' w' W2 B2 ltac:(by rewrite T2) E) as (q3 & ls3 & W3 & B3 & T3 & S3 & I3 & A3).
  rewrite T2 in *. exists q3, ls3. split_and!; try done; [by eapply rtc_l |].
  intros A4. destruct (A3 A4) as (A5 & ->). by apply A2.
Qed.

Lemma check_loop_serves check atomic hop : check_ok check id -> forall fuel d w q ls w',
  queue_is w id q [] ls -> q_check_blocked q = true -> clock_ok (q_timer q) ->
  check_loop check fuel id atomic hop d w = Some (tt, w') ->
  exists d' q' ls', queue_is w' id q' [] ls' /\ q_check_blocked q' = false /\ q_check_again q' = false /\
    q_timer q' = q_timer q /\
    tc (pass known hears (q_timer q)) (agenda_of d w ls) (agenda_of d' w' ls') /\
    (0 < d' -> forall b, none_come (q_timer q) b (planned w' ls')).
Proof.
  intros Hc. induction fuel as [| fuel IH]; intros d w q ls w' W B Hk E; [done |]. cbn [check_loop] in E.
  apply bind_inv in E as (d1 & w1 & E1 & E). apply bind_inv in E as (d2 & w2 & E2 & E).
  destruct (process_serves check true atomic hop Hc _ _ _ _ _ _ _ W B Hk E1) as (q1 & ls1 & W1 & B1 & T1 & S1 & I1 & _).
  destruct (process_serves check false atomic hop Hc _ _ _ _ _ _ _ W1 B1 ltac:(by rewrite T1) E2)
    as (q2 & ls2 & W2 & B2 & T2 & S2 & I2 & A2).
  rewrite T1 in *. assert (P : pass known hears (q_timer q) (agenda_of d w ls) (agenda_of d2 w2 ls2)) by (by eexists).
  rewrite (bind_some _ _ _ _ _ (queue_at_is _ _ _ _ _ W2)) in E. destruct (q_check_again q2) eqn:Ea.
  - rewrite (bind_some _ _ _ _ _ (modify_queue_is _ _ _ _ _ _ W2)) in E.
    set (q3 := q2 <| q_check_again := false |>) in *. set (w3 := with_queue id (Some q3) w2) in *.
    assert (W3 : queue_is w3 id q3 [] ls2) by (eapply queue_is_fields; [exact W2 | by intros []]).
    destruct (IH d2 w3 q3 ls2 w' W3 B2 ltac:(by simpl; rewrite T2) E) as (d' & q' & ls' & F1 & F2 & F3 & F4 & F5 & F6).
    change (q_timer q3) with (q_timer q2) in *. rewrite T2 in *. exists d', q', ls'. split_and!; try done.
    eapply tc_l; [exact P | exact F5].
  - rewrite (modify_queue_is _ _ _ _ _ _ W2) in E. injection E as <-.
    set (q3 := q2 <| q_check_blocked := false |>). set (w3 := with_queue id (Some q3) w2).
    exists d2, q3, ls2. split_and!; try done; [eapply queue_is_fields; [exact W2 | by intros []] | by apply tc_once |].
    intros Hd b. destruct (A2 eq_refl) as [_ P2]. cbn [negb] in P2. pose proof (takes_left _ _ _ _ _ _ S2) as Lf. simpl in Lf.
    destruct I2 as [I2 | I2]; [simpl in I2; lia |]. destruct I1 as [I1 | I1]; [simpl in I1; lia |].
    destruct b; [| exact I2]. intros e He. apply (I1 e). cbn [ag_plan agenda_of]. rewrite <- P2. exact He.
Qed.
End Deliver.

(** C5: checking a queue delivers exactly the events whose time has come.  It takes the first
    event again and again, as long as its time has come and the limit of the check is not used
    up: all those by ticks, then all those by real time, and once more if events were scheduled
    meanwhile.  Each is heard by the clients, or dropped if its sender is gone; a note is heard
    as a note-on and comes back as its note-off; what the clients schedule is put in its place;
    and the other events stay.  If the limit was not reached, no event whose time has come is
    left.  The clients are any that keep the law of [Listeners]: an event that reaches nobody
    schedules nothing, and what they schedule asks for another check; they do not set the clock
    of the queue meanwhile. *)
Theorem check_delivers_due {T} `{SndTimer T} `{SeqClients T} id `{!Listeners id T} (w : world T) q ls atomic hop :
  queue_is w id q [] ls -> q_check_blocked q = false -> clock_ok (q_timer q) ->
  exists N d' w' q' ls',
    (forall fuel, (N <= fuel)%nat -> snd_seq_check_queue fuel id atomic hop w = Some (tt, w')) /\
    queue_is w' id q' [] ls' /\ q_check_blocked q' = false /\ q_check_again q' = false /\ q_timer q' = q_timer q /\
    tc (pass known hears (q_timer q))
      (Agenda _ (dequeue_limit w) (planned w ls) (w_core w)) (Agenda _ d' (planned w' ls') (w_core w')) /\
    (0 < d' -> forall b, none_come (q_timer q) b (planned w' ls')).
Proof.
  intros W B Hk. set (q1 := q <| q_check_blocked := true |>). set (w1 := with_queue id (Some q1) w).
  assert (W1 : queue_is w1 id q1 [] ls) by (eapply queue_is_fields; [exact W | by intros []]).
  destruct (check_loop_ends id atomic hop (dequeue_limit w) _ w1 ls ltac:(by exists q1) eq_refl) as (N & w' & E & _).
  pose proof (E _ (S N) (check_queue_blocked N id) ltac:(lia)) as E1.
  destruct (check_loop_serves id _ atomic hop (check_queue_blocked N id) _ _ _ _ _ _ W1 eq_refl Hk E1)
    as (d' & q' & ls' & F1 & F2 & F3 & F4 & F5 & F6).
  exists (S (S N)), d', w', q', ls'. split; [| done]. intros [| [| fuel]] Hf; [lia | lia |].
  rewrite (check_queue_start _ _ _ _ _ _ _ _ W B). apply E; [apply check_queue_blocked | lia].
Qed.

(** ** Clients that record

    Those that are there and take note of what they receive. *)
Section Recorder.
Context (clients : Z -> bool) (receivers : snd_seq_event -> Z).

#[local] Instance recorder : SeqClients records := {|
  client_exists := fun c _ => clients c;
  snd_seq_deliver_event := fun _ e _ _ w => Some (receivers e, w <| w_core := w_core w ++ [e] |>);
  snd_seq_kernel_client_dispatch := fun _ e _ _ w => Some (receivers e, w <| w_core := w_core w ++ [e] |>) |}.

#[local] Instance recorder_listens id : Listeners id records.
Proof.
  refine {| known := fun c _ => clients c;
            hears := fun _ e rc t t' new => rc = receivers e /\ t' = t ++ [e] /\ new = [] |}.
  - done.
  - intros w q client e atomic hop hold ls [A1 A2 A3 A4 A5] B. eexists _, _, q, ls, []. split; [reflexivity |].
    split; [done |]. split; [done |]. split_and!; try done. by left.
Defined.
End Recorder.

(** Enqueuing an event schedules it.  An event for a queue that is not there is refused
    with [-EINVAL], and nothing changes.  Otherwise the event is in the list of its kind,
    which stays ordered by time, behind the events that come earlier and those of its time
    (before the latter if it has priority), with an absolute time: a relative time in ticks
    counts from the position of the queue, one in seconds from its clock.  Then the queue is
    checked. *)
Theorem enqueue_schedules {T} `{SndTimer T} `{SeqClients T} (w : world T) c x fuel atomic hop :
  m_cells (w_mem w) !! c = Some x ->
  (lookup_queue w (ev_queue (c_event x)) = None ->
     snd_seq_enqueue_event fuel c atomic hop w = Some (-EINVAL, w)) /\
  (forall id q hold ls, queue_is w id q (c :: hold) ls ->
     exists p w1, let e := event_at (w_mem w1) c in
       snd_seq_enqueue_event fuel c atomic hop w =
         (snd_seq_check_queue fuel id atomic hop;;; ret 0) w1 /\
       only_queue id w (with_prioq (is_tick (c_event x)) p q) w1 /\
       prioq_is (w_mem w1) (is_tick (c_event x)) p
         (insert_by (time_at (w_mem w1)) (is_prior e) c (ls (is_tick (c_event x)))) /\
       is_reltime e = false /\
       (is_reltime (c_event x) = false -> e = c_event x) /\
       (is_reltime (c_event x) = true ->
          if is_tick (c_event x)
          then tick (ev_time e) = (tick (ev_time (c_event x)) + cur_tick (tmr_tick (q_timer q))) mod 2 ^ 32
          else time_wf (ev_time (c_event x)) -> time_wf (cur_time (q_timer q)) ->
               nsec_of (ev_time (c_event x)) + nsec_of (cur_time (q_timer q)) < (UINT_MAX + 1) * NSEC ->
               nsec_of (ev_time e) = nsec_of (ev_time (c_event x)) + nsec_of (cur_time (q_timer q))) /\
       (forall a, a ∈ hold ++ queued ls -> event_at (w_mem w1) a = event_at (w_mem w) a)).
Proof.
  intros Hx. split.
  - intros Hq. unfold snd_seq_enqueue_event, enqueue_event.
    rewrite (bind_some _ _ w x w) by (unfold in_mem, cell_at; rewrite Hx; by destruct w).
    cbv zeta. unfold with_queueptr, bind, queueptr. rewrite Hq.
    rewrite bool_decide_eq_false_2; [done |]. by intros [? ?].
  - intros id q hold ls W. destruct (enqueue_step w id q hold ls c W) as (p & w1 & E & O & W1 & Ec & Eo).
    rewrite (event_at_some _ _ _ Hx) in *. exists p, w1. cbv zeta. rewrite Ec.
    destruct (absolute_place (q_timer q) (c_event x)) as [(_ & _ & _ & Et & _) _].
    { destruct (qi_events _ _ _ _ _ W c ltac:(left)) as [We _]. by rewrite (event_at_some _ _ _ Hx) in We. }
    split; [apply E |]. rewrite Et in *. split; [exact O |]. split.
    { pose proof (qi_prioq _ _ _ _ _ W1 (is_tick (c_event x))) as Q. rewrite prioq_of_with in Q.
      unfold set_list in Q. by rewrite Bool.eqb_reflx in Q. }
    split; [apply absolute_not_relative |]. unfold absolute. split; [by intros -> |]. split; [| exact Eo].
    intros ->. destruct (is_tick (c_event x)); [done |].
    intros Wa Wb Hmax. simpl. by apply inc_real_time_exact.
Qed.

(** ** The queue of three events *)

Definition five_queue (f : prioq) : queue :=
  Queue 0 (replicate 64 0) f snd_seq_prioq_new
    (zero_timer <| tmr_tick := TimerTick 4 5208333 0 |> <| running := true |>)
    128 true false false false 0 0 0.

Definition five_world (f : prioq) : world records :=
  with_queue 0 (Some (five_queue f)) (initial_world five_cells []).

Lemma five_cells_live : live five_cells [100; 136; 172].
Proof.
  exists [1], (fun _ => [244]), (fun c : Z => if c =? 136 then [208] else []). split.
  - intros p Hp%list_elem_of_singleton. subst p. eexists. split; [done | reflexivity | | done].
    split; [done |]. split; [done |]. eexists. by split.
  - by apply (bool_decide_unpack _).
  - intros c Hc. rewrite !elem_of_cons in Hc.
    destruct Hc as [-> | [-> | [-> | Hc]]]; [| | | by apply elem_of_nil in Hc];
      (eexists; split; [reflexivity |]; split; [done |]; split; [by left |]); [done | | done].
    split; [done |]. split; [done |]. eexists. by split.
  - by apply (bool_decide_unpack _).
Qed.

(** The first cells of the three in hand, the others queued. *)
Lemma five_world_is hold l f :
  hold ++ l = [100; 136; 172] -> prioq_is five_cells true f l ->
  queue_is (five_world f) 0 (five_queue f) hold (fun b => if b then l else []).
Proof.
  intros E Q. unfold queued. split; [done | reflexivity | | |].
  - intros []; [exact Q |]. split; [done | done | by left | constructor | constructor].
  - unfold queued. rewrite app_nil_r, E. apply five_cells_live.
  - intros c Hc. unfold queued in Hc. rewrite app_nil_r, E in Hc.
    pose proof five_cells_events as F. rewrite Forall_forall in F. destruct (F c Hc) as (_ & _ & We & _).
    split; [exact We |]. rewrite !elem_of_cons in Hc.
    destruct Hc as [-> | [-> | [-> | Hc]]]; [done.. | by apply elem_of_nil in Hc].
Qed.

Lemma five_prioq_is : prioq_is five_cells true (Prioq 100 172 3) [100; 136; 172].
Proof.
  split; [| done | by right | | ].
  - repeat (split; [done |]; split; [done |]; eexists; split; [reflexivity |]; cbn [c_next]). done.
  - eapply Forall_impl; [exact five_cells_events |]. intros c (_ & _ & ?). done.
  - repeat (constructor; [| repeat (constructor; [vm_compute; congruence |]); constructor]). constructor.
Qed.

Lemma two_prioq_is : prioq_is five_cells true (Prioq 136 172 2) [136; 172].
Proof.
  destruct five_prioq_is as [C _ _ K S]. split; [| done | by right | | ].
  - destruct C as (_ & _ & x & Hx & C). injection Hx as <-. exact C.
  - by apply Forall_cons in K as [_ K].
  - by apply StronglySorted_inv in S as [S _].
Qed.

(** At tick 4 the event of tick 3 has come, and the clients hear it; the others have not. *)
Lemma check_delivers_due_witness :
  exists N d' w' ls', (forall fuel, (N <= fuel)%nat ->
      snd_seq_check_queue (H0 := recorder (fun _ => true) (fun _ => 1)) fuel 0 true 0 (five_world (Prioq 100 172 3)) = Some (tt, w')) /\
    tc (pass (fun _ (_ : records) => true) (fun _ e rc t t' new => rc = 1 /\ t' = t ++ [e] /\ new = [])
         (q_timer (five_queue (Prioq 100 172 3))))
      (Agenda _ INT_MAX (planned (five_world (Prioq 100 172 3)) (fun b => if b then [100; 136; 172] else [])) [])
      (Agenda _ d' (planned w' ls') (w_core w')) /\
    (0 < d' -> forall b, none_come (q_timer (five_queue (Prioq 100 172 3))) b (planned w' ls')).
Proof.
  destruct (check_delivers_due (H0 := recorder (fun _ => true) (fun _ => 1)) 0
    (Listeners0 := recorder_listens (fun _ => true) (fun _ => 1) 0) _ _ _ true 0
    (five_world_is [] _ _ eq_refl five_prioq_is) eq_refl) as (N & d' & w' & q' & ls' & E & _ & _ & _ & _ & P & F).
  - vm_compute. intuition congruence.
  - exists N, d', w', ls'. split; [exact E |]. split; [exact P | exact F].
Defined.

(** The same by evaluation: one event is heard, the other two stay. *)
Example five_delivered :
  (fun r => (w_core r.2, map (fun q => pq_cells (q_tickq q)) (omap id (w_queues r.2)))) <$>
    snd_seq_check_queue (H0 := recorder (fun _ => true) (fun _ => 1)) 5 0 true 0 (five_world (Prioq 100 172 3)) =
  Some ([timed 0 3 128 0 0], [2]).
Proof. vm_compute. reflexivity. Qed.

Lemma check_queue_ends_witness :
  exists N w', forall fuel, (N <= fuel)%nat ->
    snd_seq_check_queue (H0 := recorder (fun c => c =? 128) (fun _ => 0)) fuel 0 false 0 (five_world (Prioq 100 172 3)) = Some (tt, w').
Proof.
  destruct (check_queue_ends (H0 := recorder (fun c => c =? 128) (fun _ => 0)) 0
    (DeliveryOk0 := listeners_deliver 0 (L := recorder_listens (fun c => c =? 128) (fun _ => 0) 0)) _ _ _ false 0
    (five_world_is [] _ _ eq_refl five_prioq_is) eq_refl) as (N & w' & E & _).
  exists N, w'. exact E.
Defined.

(** Put in again, the first event is the first one. *)
Lemma enqueue_schedules_witness :
  exists p w1,
    snd_seq_enqueue_event (H0 := recorder (fun _ => true) (fun _ => 1)) 5 100 true 0 (five_world (Prioq 136 172 2))
    = (snd_seq_check_queue (H0 := recorder (fun _ => true) (fun _ => 1)) 5 0 true 0;;; ret 0) w1 /\
    prioq_is (w_mem w1) true p (insert_by (time_at (w_mem w1)) false 100 [136; 172]).
Proof.
  destruct (enqueue_schedules (H0 := recorder (fun _ => true) (fun _ => 1)) (five_world (Prioq 136 172 2))
    100 (Cell (timed 0 3 128 0 0) 1 136) 5 true 0) as [_ E].
  - reflexivity.
  - destruct (E 0 _ _ _ (five_world_is [100] _ _ eq_refl two_prioq_is)) as (p & w1 & E1 & _ & Q & _ & F & _).
    exists p, w1. split; [exact E1 |]. rewrite F in Q by reflexivity. exact Q.
Defined.
