(* ===== verification/SeqQueueList.v ===== *)
(** * SeqQueueList: the list of queues and who may use them

    The invariant of [queue_list], of the numbers of the queues and of their sets of clients,
    kept by every operation of SeqQueue.v; the right to control a queue; and how the timer of
    a queue is opened. *)

From S2P Require Import Prelude SeqEvent SeqCells SeqMemory SeqPrioq SeqTimer SeqClock SeqQueue SeqLive SeqWorld SeqCheck SeqDeliver.
Open Scope Z_scope.
Open Scope state_scope.

(** ** The invariant *)

(** The number of clients in a bitmap. *)
Definition bits (m : Z) : Z :=
  Z.of_nat (length (filter (fun c => Z.testbit m c = true) (seqZ 0 SEQ_MAX_CLIENTS))).

Record queue_wf (i : Z) (q : queue) : Prop := {
  qw_number : q_queue q = i;
  qw_clients : q_clients q = bits (q_clients_bitmap q) }.

Definition one (o : option queue) : Z := match o with Some _ => 1 | None => 0 end.
Fixpoint count (l : list (option queue)) : Z :=
  match l with [] => 0 | o :: l => one o + count l end.

Record queues_wf {T} (w : world T) : Prop := {
  qs_slots : slots w;
  qs_queues : forall i q, lookup_queue w i = Some q -> queue_wf i q;
  qs_num : w_num w = count (w_queues w) }.

Lemma count_insert l i o o' :
  l !! i = Some o -> count (<[i := o']> l) + one o = count l + one o'.
Proof.
  revert i. induction l as [| d l IH]; intros [| i] E; simpl in *; [done | done | |].
  - injection E as ->. lia.
  - specialize (IH i E). lia.
Qed.

Lemma count_range l : 0 <= count l <= Z.of_nat (length l).
Proof. induction l as [| o l IH]; simpl; [lia |]. unfold one. destruct o; lia. Qed.

Lemma bits_set m c :
  0 <= c < SEQ_MAX_CLIENTS -> bits (Z.setbit m c) = if Z.testbit m c then bits m else bits m + 1.
Proof.
  intros R. unfold bits. assert (Hc : c ∈ seqZ 0 SEQ_MAX_CLIENTS) by (apply elem_of_seqZ; lia).
  destruct (list_elem_of_split _ _ Hc) as (l1 & l2 & E). pose proof (NoDup_seqZ 0 SEQ_MAX_CLIENTS) as N.
  rewrite E in *. apply NoDup_app in N as (_ & N1 & N2). apply NoDup_cons in N2 as [N2 _].
  assert (Other : forall l : list Z, c ∉ l -> filter (fun a => Z.testbit (Z.setbit m c) a = true) l =
                    filter (fun a => Z.testbit m a = true) l).
  { intros l Hl. apply filter_agree. intros a Ha. rewrite Z.setbit_neq; [done | lia |]. by intros ->. }
  rewrite !filter_app, !filter_cons, !Other; [| done | intros H; apply (N1 c H); left].
  rewrite Z.setbit_eq by lia. rewrite decide_True by done. rewrite !length_app.
  destruct (Z.testbit m c); [by rewrite decide_True by done |]. rewrite decide_False by done. simpl. lia.
Qed.

Lemma bits_clear m c :
  0 <= c < SEQ_MAX_CLIENTS -> bits (Z.clearbit m c) = if Z.testbit m c then bits m - 1 else bits m.
Proof.
  intros R. unfold bits. assert (Hc : c ∈ seqZ 0 SEQ_MAX_CLIENTS) by (apply elem_of_seqZ; lia).
  destruct (list_elem_of_split _ _ Hc) as (l1 & l2 & E). pose proof (NoDup_seqZ 0 SEQ_MAX_CLIENTS) as N.
  rewrite E in *. apply NoDup_app in N as (_ & N1 & N2). apply NoDup_cons in N2 as [N2 _].
  assert (Other : forall l : list Z, c ∉ l -> filter (fun a => Z.testbit (Z.clearbit m c) a = true) l =
                    filter (fun a => Z.testbit m a = true) l).
  { intros l Hl. apply filter_agree. intros a Ha. rewrite Z.clearbit_neq; [done |]. by intros ->. }
  rewrite !filter_app, !filter_cons, !Other; [| done | intros H; apply (N1 c H); left].
  rewrite Z.clearbit_eq. rewrite decide_False by done. rewrite !length_app.
  destruct (Z.testbit m c); [rewrite decide_True by done; simpl; lia |]. by rewrite decide_False by done.
Qed.

Lemma bits_range m : 0 <= bits m <= SEQ_MAX_CLIENTS.
Proof.
  unfold bits. pose proof (length_filter (fun c => Z.testbit m c = true) (seqZ 0 SEQ_MAX_CLIENTS)) as L.
  rewrite length_seqZ in L. unfold SEQ_MAX_CLIENTS in *. lia.
Qed.

(** ** Keeping it *)

Section Keeps.
Context {T : Type}.

Definition keeps {A} (f : ST (world T) A) : Prop :=
  forall w x w', f w = Some (x, w') -> queues_wf w -> queues_wf w'.

Lemma keeps_ret A (x : A) : keeps (ret x).
Proof. intros w y w' [= _ <-]. done. Qed.

Lemma keeps_crash A : keeps (A := A) crash.
Proof. intros w y w' E. discriminate E. Qed.

Lemma keeps_bind A B (f : ST (world T) A) (g : A -> ST (world T) B) :
  keeps f -> (forall x, keeps (g x)) -> keeps (bind f g).
Proof.
  intros Hf Hg w y w'. unfold bind. destruct (f w) as [[x w1] |] eqn:E; [| done]. intros E2 W.
  eapply Hg; [exact E2 |]. by eapply Hf.
Qed.

Lemma keeps_same A (f : ST (world T) A) :
  (forall w x w', f w = Some (x, w') -> w_queues w' = w_queues w /\ w_num w' = w_num w) -> keeps f.
Proof.
  intros Hf w x w' E [A1 A2 A3]. destruct (Hf _ _ _ E) as [E1 E2].
  split; [by unfold slots; rewrite E1 | | by rewrite E1, E2].
  intros i q. unfold lookup_queue. rewrite E1. apply A2.
Qed.

Lemma keeps_in_mem A (f : M A) : keeps (in_mem f).
Proof.
  apply keeps_same. intros w x w'. unfold in_mem. destruct (f (w_mem w)) as [[y m] |]; [| done].
  intros [= _ <-]. done.
Qed.

Lemma keeps_in_core A (f : ST T A) : keeps (in_core f).
Proof.
  apply keeps_same. intros w x w'. unfold in_core. destruct (f (w_core w)) as [[y m] |]; [| done].
  intros [= _ <-]. done.
Qed.

Lemma keeps_queue_at id : keeps (queue_at id).
Proof.
  apply keeps_same. intros w x w'. unfold queue_at. destruct (lookup_queue w id); [| done]. intros [= _ <-]. done.
Qed.

Lemma keeps_queueptr id : keeps (queueptr id).
Proof. apply keeps_same. intros w x w' [= _ <-]. done. Qed.

Lemma keeps_now : keeps now.
Proof. apply keeps_same. intros w x w' [= _ <-]. done. Qed.

Lemma wf_with_queue (w : world T) id q q' :
  queues_wf w -> lookup_queue w id = Some q -> queue_wf id q' -> queues_wf (with_queue id (Some q') w).
Proof.
  intros [A1 A2 A3] Hq Wq. pose proof (lookup_queue_range _ _ _ Hq) as R. split.
  - by apply slots_with_queue.
  - intros i q2. destruct (decide (id = i)) as [<- | Hi].
    + rewrite lookup_with_queue by done. by intros [= <-].
    + intros E. pose proof (lookup_queue_range _ _ _ E). rewrite lookup_with_queue_ne in E by lia. by apply A2.
  - unfold with_queue. simpl. rewrite A3. unfold lookup_queue in Hq.
    destruct ((0 <=? id) && (id <? SEQ_MAX_QUEUES)); [| done].
    destruct (w_queues w !! Z.to_nat id) as [[q0 |] |] eqn:E; [| done..].
    pose proof (count_insert _ _ _ (Some q') E). simpl in *. lia.
Qed.

Lemma keeps_modify id f : (forall i q, queue_wf i q -> queue_wf i (f q)) -> keeps (modify_queue id f).
Proof.
  intros Hf w x w'. unfold modify_queue, bind, queue_at.
  destruct (lookup_queue w id) as [q |] eqn:Hq; [| done]. intros [= _ <-] W.
  eapply wf_with_queue; [done | exact Hq |]. apply Hf. by eapply qs_queues.
Qed.

Lemma keeps_with_queueptr A id (err : A) f : keeps f -> keeps (with_queueptr id err f).
Proof.
  intros Hf. apply keeps_bind; [apply keeps_queueptr |]. intros []; [done | apply keeps_ret].
Qed.

Lemma keeps_on_timer A id (f : seq_timer -> ST T (A * seq_timer)) : keeps (on_timer id f).
Proof.
  apply keeps_bind; [apply keeps_queue_at |]. intros q. apply keeps_bind; [apply keeps_in_core |]. intros rt.
  apply keeps_bind; [| intros; apply keeps_ret]. apply keeps_modify. by intros i q' [? ?].
Qed.

Lemma keeps_on_prioq A id ticks (f : prioq -> M (A * prioq)) : keeps (on_prioq id ticks f).
Proof.
  apply keeps_bind; [apply keeps_queue_at |]. intros q. apply keeps_bind; [apply keeps_in_mem |]. intros rf.
  apply keeps_bind; [| intros; apply keeps_ret]. apply keeps_modify. destruct ticks; by intros i q' [? ?].
Qed.

Lemma keeps_for_queues ids f : (forall id, keeps (f id)) -> keeps (for_queues ids f).
Proof.
  intros Hf. induction ids as [| id ids IH]; simpl; [apply keeps_ret | apply keeps_bind; [apply Hf | done]].
Qed.

Lemma keeps_read A (k : world T -> ST (world T) A) : (forall w, keeps (k w)) -> keeps (fun w => k w w).
Proof. intros Hk w x w' E. by eapply Hk. Qed.
End Keeps.

Create HintDb keeps.
#[export] Hint Resolve keeps_ret keeps_crash keeps_in_mem keeps_in_core keeps_queue_at keeps_queueptr
  keeps_now keeps_on_timer keeps_on_prioq : keeps.
#[export] Hint Extern 1 (keeps (modify_queue _ _)) => apply keeps_modify; intros ? ? [? ?]; by split : keeps.

(** An operation keeps the invariant if its parts do. *)
Ltac keeps_step :=
  first
    [ solve [auto 2 with keeps]
    | apply keeps_bind; [| intros ?]
    | apply keeps_with_queueptr
    | apply keeps_for_queues; intros ?
    | match goal with
      | |- keeps (if ?b then _ else _) => destruct b
      | |- keeps (match ?x with _ => _ end) => destruct x
      | |- keeps (let _ := _ in _) => cbv zeta
      end ].
Ltac keeps_tac := intros; autounfold with keeps; repeat keeps_step.

(** ** The operations *)

(** What the list relies on: delivering an event only changes it through the operations. *)
Class ClientsKeep (T : Type) `{SeqClients T} : Prop := {
  deliver_keeps c e atomic hop : keeps (snd_seq_deliver_event c e atomic hop);
  dispatch_keeps c e atomic hop : keeps (snd_seq_kernel_client_dispatch c e atomic hop) }.

Section Operations.
Context {T : Type} `{SndTimer T} `{SeqClients T} `{!ClientsKeep T} (dflt : timer_defaults).

#[local] Hint Resolve deliver_keeps dispatch_keeps : keeps.
#[local] Hint Unfold timer_set timer_do prioq_do leave_prioqs if_queue queue_access_unlock : keeps.

Lemma add_keeps q : q_clients q = bits (q_clients_bitmap q) -> keeps (queue_list_add (T := T) q).
Proof.
  intros Hb w x w'. unfold queue_list_add. destruct (free_slot (w_queues w)) as [i |] eqn:E; [| by intros [= _ <-]].
  intros [= _ <-] [A1 A2 A3].
  assert (F : forall l i, free_slot l = Some i -> l !! i = Some None).
  { clear. induction l as [| [q |] l IH]; intros i; simpl; [done | | by intros [= <-]].
    destruct (free_slot l) as [j |]; simpl; [| done]. intros [= <-]. by apply IH. }
  apply F in E. pose proof (lookup_lt_Some _ _ _ E) as L. unfold slots in A1. rewrite A1 in L. split.
  - unfold slots, with_queue. simpl. by rewrite length_insert.
  - intros k q2. destruct (decide (Z.of_nat i = k)) as [<- | Hk].
    + rewrite lookup_with_queue; [| done | unfold SEQ_MAX_QUEUES in *; lia]. intros [= <-]. by split.
    + intros Hq. pose proof (lookup_queue_range _ _ _ Hq). rewrite lookup_with_queue_ne in Hq by lia. by apply A2.
  - unfold with_queue. simpl. rewrite Nat2Z.id, A3. pose proof (count_insert _ _ _ (Some (q <| q_queue := Z.of_nat i |>)) E).
    simpl in *. lia.
Qed.

Lemma remove_keeps id client : keeps (queue_list_remove (T := T) id client).
Proof.
  intros w x w'. unfold queue_list_remove. destruct (lookup_queue w id) as [q |] eqn:Hq; [| by intros [= _ <-]].
  destruct (_ =? _); [| by intros [= _ <-]]. intros [= _ <-] [A1 A2 A3].
  pose proof (lookup_queue_range _ _ _ Hq) as R. split.
  - by apply slots_with_queue.
  - intros i q2. destruct (decide (id = i)) as [<- | Hi]; [by rewrite lookup_with_queue |].
    intros E. pose proof (lookup_queue_range _ _ _ E). rewrite lookup_with_queue_ne in E by lia. by apply A2.
  - unfold with_queue. simpl. rewrite A3. unfold lookup_queue in Hq.
    destruct ((0 <=? id) && (id <? SEQ_MAX_QUEUES)); [| done].
    destruct (w_queues w !! Z.to_nat id) as [[q0 |] |] eqn:E; [| done..].
    pose proof (count_insert _ _ _ None E). simpl in *. lia.
Qed.

Lemma use_keeps id client use : 0 <= client < SEQ_MAX_CLIENTS -> keeps (snd_seq_queue_use (T := T) dflt id client use).
Proof.
  intros R. apply keeps_with_queueptr. intros w x w'. unfold bind at 1, queue_at at 1.
  destruct (lookup_queue w id) as [q |] eqn:Hq; [| done]. cbv zeta. unfold bind at 1.
  set (setb := if use then _ else _).
  assert (S : forall w1, setb w = Some (tt, w1) -> queues_wf w -> queues_wf w1).
  { intros w1 E W. pose proof (qs_queues _ W _ _ Hq) as [Q1 Q2]. pose proof (bits_range (q_clients_bitmap q)) as B.
    pose proof (bits_range (Z.setbit (q_clients_bitmap q) client)) as B1.
    pose proof (bits_range (Z.clearbit (q_clients_bitmap q) client)) as B2.
    rewrite bits_set in B1 by done. rewrite bits_clear in B2 by done. unfold SEQ_MAX_CLIENTS in *.
    destruct use; unfold setb, modify_queue, bind, queue_at in E; rewrite Hq in E; injection E as <-;
      (eapply wf_with_queue; [done | exact Hq |]); split; simpl; try done.
    - rewrite bits_set by (unfold SEQ_MAX_CLIENTS; lia). rewrite Q2.
      destruct (Z.testbit _ _); [done | rewrite u32_small by range_lia; done].
    - rewrite bits_clear by (unfold SEQ_MAX_CLIENTS; lia). rewrite Q2.
      destruct (Z.testbit _ _); [rewrite u32_small by range_lia; done | done]. }
  destruct (setb w) as [[[] w1] |]; [| done]. intros E W. specialize (S w1 eq_refl W). revert E S.
  match goal with |- ?f w1 = _ -> _ => assert (K : keeps f) by keeps_tac; apply K end.
Qed.

(** One operation, with whatever arguments; [client] stands for a client's number. *)
Inductive queue_op :=
  | OpAlloc (g : queue_memory) (client : Z) (locked : bool) (flags : Z)
  | OpDelete (client id : Z)
  | OpUse (id client : Z) (use : bool)
  | OpSetOwner (id client : Z) (locked : bool)
  | OpTimerOpen (id : Z)
  | OpTimerClose (id : Z)
  | OpSetTempo (id client tempo ppq : Z)
  | OpFindName (name : list Z)
  | OpTermination (client : Z)
  | OpLeave (client : Z)
  | OpLeaveCells (client : Z)
  | OpRemoveCells (client : Z) (info : snd_seq_remove_events)
  | OpControl (ev : snd_seq_event) (atomic : bool) (hop : Z)
  | OpEnqueue (fuel : nat) (cell : Z) (atomic : bool) (hop : Z)
  | OpInterrupt (fuel : nat) (id : Z).

Definition ignore {A} (f : ST (world T) A) : ST (world T) unit := _ <- f;; ret tt.

Definition run_op (op : queue_op) : ST (world T) unit :=
  match op with
  | OpAlloc g client locked flags => ignore (snd_seq_queue_alloc dflt g client locked flags)
  | OpDelete client id => ignore (snd_seq_queue_delete client id)
  | OpUse id client use => ignore (snd_seq_queue_use dflt id client use)
  | OpSetOwner id client locked => ignore (snd_seq_queue_set_owner id client locked)
  | OpTimerOpen id => ignore (snd_seq_queue_timer_open dflt id)
  | OpTimerClose id => ignore (snd_seq_queue_timer_close id)
  | OpSetTempo id client tempo ppq => ignore (snd_seq_queue_timer_set_tempo id client tempo ppq)
  | OpFindName name => ignore (snd_seq_queue_find_name name)
  | OpTermination client => snd_seq_queue_client_termination client
  | OpLeave client => snd_seq_queue_client_leave dflt client
  | OpLeaveCells client => snd_seq_queue_client_leave_cells client
  | OpRemoveCells client info => snd_seq_queue_remove_cells client info
  | OpControl ev atomic hop => ignore (snd_seq_control_queue ev atomic hop)
  | OpEnqueue fuel cell atomic hop => ignore (snd_seq_enqueue_event fuel cell atomic hop)
  | OpInterrupt fuel id => queue_timer_interrupt fuel id
  end.

(** The numbers of clients are in range. *)
Definition op_ok (op : queue_op) : Prop :=
  match op with
  | OpAlloc _ c _ _ | OpUse _ c _ | OpLeave c => 0 <= c < SEQ_MAX_CLIENTS
  | _ => True
  end.

Definition queue_step (w w' : world T) : Prop := exists op, op_ok op /\ run_op op w = Some (tt, w').

Lemma delete_keeps q : keeps (queue_delete (T := T) q).
Proof. unfold queue_delete. keeps_tac. Qed.

#[local] Hint Resolve remove_keeps use_keeps delete_keeps : keeps.

Lemma queue_new_bits g owner locked w o w' :
  queue_new (T := T) dflt g owner locked w = Some (o, w') ->
  w' = w /\ forall q, o = Some q -> q_clients q = bits (q_clients_bitmap q).
Proof.
  unfold queue_new. destruct (negb _); [by intros [= <- <-] |].
  destruct (snd_seq_timer_new _ _) as [[tmr |] |]; [| by intros [= <- <-] | done].
  destruct (_ && _); intros [= <- <-]; (split; [done |]); intros q [= <-]. done.
Qed.

Lemma alloc_keeps g client locked flags :
  0 <= client < SEQ_MAX_CLIENTS -> keeps (snd_seq_queue_alloc (T := T) dflt g client locked flags).
Proof.
  intros R w x w'. unfold snd_seq_queue_alloc, bind at 1.
  destruct (queue_new dflt g client locked w) as [[o w1] |] eqn:E; [| done].
  destruct (queue_new_bits _ _ _ _ _ _ E) as [-> Hb]. destruct o as [q |]; [| apply keeps_ret].
  revert w x w' E. intros w x w' _. cbv zeta.
  match goal with |- ?f w = _ -> _ => assert (K : keeps f) end; [| apply K].
  apply keeps_bind; [apply add_keeps; exact (Hb q eq_refl) |]. keeps_tac.
Qed.

Lemma find_name_keeps ids name : keeps (find_name (T := T) ids name).
Proof. induction ids as [| id ids IH]; simpl; keeps_tac. Qed.

Section Checks.
Context (check : Z -> bool -> Z -> ST (world T) unit) (Hcheck : forall id atomic hop, keeps (check id atomic hop)).

Lemma enqueue_keeps c atomic hop : keeps (enqueue_event (T := T) check c atomic hop).
Proof. unfold enqueue_event. keeps_tac. Qed.

#[local] Hint Resolve enqueue_keeps : keeps.

Lemma dispatch_event_keeps c atomic hop : keeps (snd_seq_dispatch_event check c atomic hop).
Proof.
  intros w. unfold snd_seq_dispatch_event. revert w.
  apply (keeps_read _ (fun w => x <- in_mem (cell_at c);; _)). intros w. keeps_tac.
Qed.

#[local] Hint Resolve dispatch_event_keeps : keeps.

Lemma process_keeps fuel ticks id atomic hop : forall dequeue, keeps (process check fuel ticks id atomic hop dequeue).
Proof. induction fuel as [| fuel IH]; intros dequeue; cbn [process]; keeps_tac. Qed.

#[local] Hint Resolve process_keeps : keeps.

Lemma check_loop_keeps fuel id atomic hop : forall dequeue, keeps (check_loop check fuel id atomic hop dequeue).
Proof. induction fuel as [| fuel IH]; intros dequeue; cbn [check_loop]; keeps_tac. Qed.
End Checks.

#[local] Hint Resolve check_loop_keeps : keeps.

Lemma check_queue_keeps fuel : forall id atomic hop, keeps (snd_seq_check_queue (T := T) fuel id atomic hop).
Proof.
  induction fuel as [| fuel IH]; intros id atomic hop; cbn [snd_seq_check_queue]; [apply keeps_crash |].
  intros w. unfold check_queue. revert w.
  apply (keeps_read _ (fun w => q <- queue_at id;; if q_check_blocked q then _ else _)). intros w. keeps_tac.
Qed.

#[local] Hint Resolve check_queue_keeps enqueue_keeps alloc_keeps find_name_keeps : keeps.
#[local] Hint Unfold ignore queue_access_lock snd_seq_queue_delete snd_seq_queue_set_owner
  snd_seq_queue_timer_open snd_seq_queue_timer_close snd_seq_queue_timer_set_tempo snd_seq_queue_find_name
  snd_seq_queue_client_termination client_termination snd_seq_queue_client_leave delete_own leave_queue
  snd_seq_queue_client_leave_cells snd_seq_queue_remove_cells remove_from_queue
  snd_seq_control_queue snd_seq_queue_process_event queue_broadcast_event snd_seq_enqueue_event
  queue_timer_interrupt : keeps.

Lemma run_op_keeps op : op_ok op -> keeps (run_op op).
Proof. destruct op; simpl; intros R; keeps_tac. Qed.
End Operations.

Lemma initial_world_wf {T} m (t : T) : queues_wf (initial_world m t).
Proof.
  split; [done | | done]. intros i q. unfold lookup_queue, initial_world. simpl w_queues.
  destruct (_ && _); [| done]. by destruct (Z.to_nat i) as [| [| [| [| [| [| [| [|]]]]]]]].
Qed.

(** C30: the list of queues stays consistent.  Whatever operations run, in whatever order, on
    whatever queues: a queue in the list has the number of its place; its count of users is
    the number of clients in its set, so that the timer is closed when the last one leaves
    and not before; and the number of queues that is reported is that of the queues in the
    list, at most eight. *)
Theorem queue_list_invariant {T} `{SndTimer T} `{SeqClients T} `{!ClientsKeep T} dflt m (t : T) w :
  rtc (queue_step dflt) (initial_world m t) w ->
  (forall i q, lookup_queue w i = Some q -> q_queue q = i /\ q_clients q = bits (q_clients_bitmap q)) /\
  snd_seq_queue_get_cur_queues w = count (w_queues w) /\
  0 <= snd_seq_queue_get_cur_queues w <= SEQ_MAX_QUEUES.
Proof.
  intros R. assert (W : queues_wf w).
  { pose proof (initial_world_wf m t) as W0. revert W0. induction R as [| w1 w2 w3 (op & Ok & E) R IH]; [done |].
    intros W. apply IH. by eapply run_op_keeps. }
  destruct W as [A B C]. split; [| split; [exact C |]].
  - intros i q Hq. by destruct (B i q Hq).
  - unfold snd_seq_queue_get_cur_queues. rewrite C. pose proof (count_range (w_queues w)) as L.
    unfold slots in A. rewrite A in L. unfold SEQ_MAX_QUEUES in *. lia.
Qed.

#[local] Instance recorder_keeps clients receivers : ClientsKeep (H := recorder clients receivers) records.
Proof. split; intros c e atomic hop; apply keeps_same; by intros w x w' [= _ <-]. Qed.

(** Client 128 creates two queues and deletes the first. *)
Lemma queue_list_invariant_witness :
  exists w, rtc (queue_step (H0 := recorder (fun _ => true) (fun _ => 1)) system_timer)
              (initial_world (Seqmem ∅ ∅ ∅) []) w /\
    snd_seq_queue_get_cur_queues w = count (w_queues w) /\ count (w_queues w) = 1.
Proof.
  assert (G : exists w, rtc (queue_step (H0 := recorder (fun _ => true) (fun _ => 1)) system_timer)
                (initial_world (Seqmem ∅ ∅ ∅) []) w /\ count (w_queues w) = 1).
  { eexists. split.
    - eapply rtc_l; [exists (OpAlloc (QueueMemory true true true true) 128 true 0);
        split; [vm_compute; intuition congruence | vm_compute; reflexivity] |].
      eapply rtc_l; [exists (OpAlloc (QueueMemory true true true true) 128 true 0);
        split; [vm_compute; intuition congruence | vm_compute; reflexivity] |].
      eapply rtc_l; [exists (OpDelete 128 0); split; [exact I | vm_compute; reflexivity] |].
      apply rtc_refl.
    - reflexivity. }
  destruct G as (w & R & E). exists w. split; [exact R |]. split; [| exact E].
  destruct (queue_list_invariant (H0 := recorder (fun _ => true) (fun _ => 1)) system_timer _ _ w R) as (_ & N & _).
  exact N.
Defined.

(** ** Who controls a queue *)

Section Control.
Context {T : Type} `{SndTimer T} `{SeqClients T} (dflt : timer_defaults).

(** A queue that its owner has locked, or that is being controlled, is the owner's alone.
    Any other client that tries to take it over, to change its tempo, or to start, stop or
    move it by an event gets [-EPERM], and to delete it [-EINVAL]; nothing changes.  The
    owner, or anyone if it is not locked, takes it over and locks or unlocks it as asked. *)
Theorem queue_access w id q client :
  lookup_queue w id = Some q ->
  (q_owner q <> client -> q_locked q = true \/ q_klocked q = true ->
     (forall locked, snd_seq_queue_set_owner id client locked w = Some (-EPERM, w)) /\
     (forall tempo ppq, snd_seq_queue_timer_set_tempo id client tempo ppq w = Some (-EPERM, w)) /\
     (forall ev atomic hop, queue_queue ev = id -> addr_client (ev_source ev) = client ->
        snd_seq_control_queue ev atomic hop w = Some (-EPERM, w)) /\
     snd_seq_queue_check_access id client w = Some (false, w)) /\
  (q_owner q <> client -> snd_seq_queue_delete client id w = Some (-EINVAL, w)) /\
  (q_owner q = client \/ q_locked q = false /\ q_klocked q = false -> slots w ->
     snd_seq_queue_check_access id client w = Some (true, w) /\
     forall locked, snd_seq_queue_set_owner id client locked w =
       Some (0, with_queue id (Some (q <| q_klocked := false |> <| q_locked := locked |> <| q_owner := client |>)) w)).
Proof.
  intros Hq. assert (Eq : queue_at id w = Some (q, w)) by (unfold queue_at; by rewrite Hq).
  split; [| split].
  - intros Ho Hl. assert (Ea : check_access q client = false).
    { unfold check_access. rewrite (proj2 (Z.eqb_neq _ _) Ho). by destruct Hl as [-> | ->]; [| rewrite andb_comm]. }
    assert (El : queue_access_lock id client w = Some (false, w)).
    { unfold queue_access_lock. rewrite (bind_some _ _ _ _ _ Eq), Ea. done. }
    split; [| split; [| split]].
    + intros locked. unfold snd_seq_queue_set_owner. by rewrite (queueptr_found _ _ _ _ _ _ Hq), (bind_some _ _ _ _ _ El).
    + intros tempo ppq. unfold snd_seq_queue_timer_set_tempo.
      by rewrite (queueptr_found _ _ _ _ _ _ Hq), (bind_some _ _ _ _ _ El).
    + intros ev atomic hop <- <-. unfold snd_seq_control_queue. cbv zeta.
      by rewrite (queueptr_found _ _ _ _ _ _ Hq), (bind_some _ _ _ _ _ El).
    + unfold snd_seq_queue_check_access. rewrite (queueptr_found _ _ _ _ _ _ Hq), (bind_some _ _ _ _ _ Eq), Ea. done.
  - intros Ho. unfold snd_seq_queue_delete. destruct (_ || _); [done |].
    unfold bind, queue_list_remove. rewrite Hq, (proj2 (Z.eqb_neq _ _) Ho). done.
  - intros Hc Sl. assert (Ea : check_access q client = true).
    { unfold check_access. destruct Hc as [-> | [-> ->]]; [by rewrite Z.eqb_refl | by rewrite orb_true_r]. }
    pose proof (lookup_queue_range _ _ _ Hq) as R. split.
    + unfold snd_seq_queue_check_access. rewrite (queueptr_found _ _ _ _ _ _ Hq), (bind_some _ _ _ _ _ Eq), Ea. done.
    + intros locked. unfold snd_seq_queue_set_owner. rewrite (queueptr_found _ _ _ _ _ _ Hq).
      set (q1 := q <| q_klocked := true |>). set (w1 := with_queue id (Some q1) w).
      assert (El : queue_access_lock id client w = Some (true, w1)).
      { unfold queue_access_lock. rewrite (bind_some _ _ _ _ _ Eq), Ea.
        unfold bind at 1, modify_queue. by rewrite (bind_some _ _ _ _ _ Eq). }
      rewrite (bind_some _ _ _ _ _ El). cbn [negb].
      unfold queue_access_unlock, modify_queue, bind, queue_at, update.
      unfold w1. rewrite lookup_with_queue by done. rewrite with_queue_twice, lookup_with_queue by done.
      by rewrite with_queue_twice.
Qed.

(** The only user of a queue that asks to use it again: the clock is reset to the default
    tempo and marked as stopped, while its timer stays open and runs on. *)
Lemma use_again_resets w id q client :
  lookup_queue w id = Some q -> slots w -> Z.testbit (q_clients_bitmap q) client = true -> 0 <= client ->
  q_clients q = 1 -> timeri (q_timer q) <> 0 ->
  wp (snd_seq_queue_use dflt id client true) (fun r w' => r = 0 /\ w_core w' = w_core w /\
      exists q', lookup_queue w' id = Some q' /\ running (q_timer q') = false /\ tempo (q_timer q') = 500000 /\
        timeri (q_timer q') = timeri (q_timer q)) w.
Proof.
  intros Hq Sl Hb Hc Hn Ht. pose proof (lookup_queue_range _ _ _ Hq) as R.
  unfold snd_seq_queue_use, wp. rewrite (queueptr_found _ _ _ _ _ _ Hq).
  apply wp_bind, (wp_queue_at _ q); [done |]. rewrite Hb. cbv zeta.
  apply wp_bind, (wp_modify_queue _ q); [done |]. set (q1 := q <| q_clients_bitmap := _ |> <| q_clients := q_clients q |>).
  set (w1 := with_queue id (Some q1) w). assert (Hq1 : lookup_queue w1 id = Some q1) by (by apply lookup_with_queue).
  apply wp_bind, (wp_queue_at _ q1); [done |]. change (q_clients q1) with (q_clients q). rewrite Hn. cbn [truth andb].
  change (truth 1) with true. cbn [Z.eqb negb].
  set (dq := snd_seq_timer_defaults dflt (q_timer q)).
  assert (Ed : exists tmr', dq = Some tmr' /\ running tmr' = false /\ tempo tmr' = 500000 /\ timeri tmr' = timeri (q_timer q)).
  { unfold dq, snd_seq_timer_defaults, snd_seq_timer_set_tick_resolution. simpl. eexists. split; [reflexivity |]. done. }
  destruct Ed as (tmr' & Ed & E1 & E2 & E3).
  set (q2 := q1 <| q_timer := tmr' |>). set (w2 := with_queue id (Some q2) w1).
  assert (Hq2 : lookup_queue w2 id = Some q2) by (by apply lookup_with_queue; [apply slots_with_queue |]).
  apply wp_bind, wp_bind. unfold timer_set, on_timer.
  apply wp_bind, (wp_queue_at _ q1); [done |]. apply wp_bind, wp_in_core.
  change (q_timer q1) with (q_timer q). fold dq. rewrite Ed. apply wp_ret.
  apply wp_bind, (wp_modify_queue _ q1); [done |]. apply wp_ret.
  apply wp_bind. unfold on_timer.
  apply wp_bind, (wp_queue_at _ q2); [exact Hq2 |]. apply wp_bind, wp_in_core.
  assert (Eo : forall s : T, snd_seq_timer_open (q_queue q1) (q_timer q2) s = Some ((-EBUSY, tmr'), s)).
  { intros s. unfold snd_seq_timer_open. change (q_timer q2) with tmr'. by rewrite E3, (proj2 (Z.eqb_neq _ _) Ht). }
  unfold wp at 1. rewrite Eo. cbn [fst snd].
  apply wp_bind, (wp_modify_queue _ q2); [exact Hq2 |]. apply wp_ret, wp_ret, wp_ret.
  split; [done |]. split; [done |]. eexists. split.
  { apply lookup_with_queue; [| done]. unfold slots in *. simpl. by rewrite !length_insert. }
  done.
Qed.
End Control.

(** Looking a queue up by its name finds none, and gives every queue that name. *)
Lemma find_name_overwrites {T} (w : world T) id q name :
  lookup_queue w id = Some q -> w_queues w = <[Z.to_nat id := Some q]> (replicate 8 None) ->
  snd_seq_queue_find_name name w = Some (None, with_queue id (Some (q <| q_name := strncpy 64 name |>)) w).
Proof.
  intros Hq E. pose proof (lookup_queue_range _ _ _ Hq) as R. unfold SEQ_MAX_QUEUES in R.
  destruct w as [m l n t i c]. cbn [w_queues] in E. subst l.
  assert (D : id = 0 \/ id = 1 \/ id = 2 \/ id = 3 \/ id = 4 \/ id = 5 \/ id = 6 \/ id = 7) by lia.
  repeat (destruct D as [-> | D]; [reflexivity |]). by subst id.
Qed.

(** Client 129 and the queue that client 128 has locked. *)
Lemma queue_access_witness :
  lookup_queue (five_world (Prioq 100 172 3)) 0 = Some (five_queue (Prioq 100 172 3)) /\
  snd_seq_queue_timer_set_tempo 0 129 1 1 (five_world (Prioq 100 172 3)) =
    Some (-EPERM, five_world (Prioq 100 172 3)).
Proof.
  split; [reflexivity |].
  destruct (queue_access (H0 := recorder (fun _ => true) (fun _ => 1)) (five_world (Prioq 100 172 3)) 0
    (five_queue (Prioq 100 172 3)) 129) as (E & _ & _).
  - reflexivity.
  - apply E; [vm_compute; congruence | left; reflexivity].
Defined.
