(* ===== verification/SeqPorts.v ===== *)
(** * SeqPorts: the ports of sequencer clients and their subscriptions

    alsa/core/seq/seq_ports.c over the client table of seq_clientmgr.c.  A port is a record
    in memory, named by its address; a client keeps the list of its ports, sorted by number,
    and a port two lists of subscribers, those it sends to (export) and those it receives
    from (import).  A spin lock of this port of ALSA (lib32/spinlock.c) turns interrupts off and
    keeps what the flag was in the lock; that is modelled.  The callbacks of the drivers that
    own ports are a class. *)

From Stdlib Require Import Ascii String.
From stdpp Require Import pretty.
From S2P Require Import Prelude SeqEvent SeqCells SeqMemory SeqPrioq SeqFifo SeqTimer SeqQueue.
Open Scope Z_scope.
Open Scope state_scope.

(** ** Data *)

(** [snd_seq_port_subscribe_t] *)
Record subscribe_info := Subs {
  s_sender : snd_seq_addr; s_dest : snd_seq_addr; s_voices : Z; s_flags : Z; s_queue : Z }.

(** [subscribers_t] *)
Record subscriber := Subscriber { sb_addr : snd_seq_addr; sb_info : subscribe_info }.

(** [subscribers_group_t] *)
Record group := Group { g_list : list subscriber; g_count : Z; g_exclusive : bool }.
#[export] Instance settable_group : Settable group := fun g => Group (g_list g) (g_count g) (g_exclusive g).

(** [client_port_t]; functions are named by their address. *)
Record port := Port {
  pt_owner : Z; pt_port : Z; pt_name : list Z;
  pt_export : group; pt_import : group;
  pt_subscribe : Z; pt_unsubscribe : Z; pt_subscribe_count : Z;
  pt_use : Z; pt_unuse : Z; pt_use_count : Z;
  pt_event_input : Z; pt_private_free : Z; pt_private_data : Z; pt_callback_all : bool;
  pt_capability : Z; pt_type : Z; pt_midi_channels : Z; pt_synth_voices : Z }.
#[export] Instance settable_port : Settable port := fun p => Port
  (pt_owner p) (pt_port p) (pt_name p) (pt_export p) (pt_import p)
  (pt_subscribe p) (pt_unsubscribe p) (pt_subscribe_count p) (pt_use p) (pt_unuse p) (pt_use_count p)
  (pt_event_input p) (pt_private_free p) (pt_private_data p) (pt_callback_all p)
  (pt_capability p) (pt_type p) (pt_midi_channels p) (pt_synth_voices p).

Inductive client_type := NO_CLIENT | USER_CLIENT | KERNEL_CLIENT.
#[export] Instance client_type_eq_dec : EqDecision client_type.
Proof. solve_decision. Defined.

(** [client_t]; the event filter is the set of its bits. *)
Record client := Client {
  cl_type : client_type; cl_accept_input : bool; cl_accept_output : bool; cl_name : list Z;
  cl_number : Z; cl_filter : Z; cl_event_filter : Z; cl_event_lost : Z;
  cl_ports : list Z; cl_num_ports : Z;
  cl_pool : Z; cl_fifo : option fifo }.
#[export] Instance settable_client : Settable client := fun c => Client
  (cl_type c) (cl_accept_input c) (cl_accept_output c) (cl_name c) (cl_number c) (cl_filter c)
  (cl_event_filter c) (cl_event_lost c) (cl_ports c) (cl_num_ports c) (cl_pool c) (cl_fifo c).

(** The locks: of a client's list of ports, and of the two groups of a port. *)
Inductive lock := PortsLock (client : Z) | GroupLock (port : Z) (export : bool).
#[export] Instance lock_eq_dec : EqDecision lock.
Proof. solve_decision. Defined.
#[export] Instance lock_countable : Countable lock.
Proof.
  refine (inj_countable' (fun l => match l with PortsLock c => inl c | GroupLock p b => inr (p, b) end)
    (fun x => match x with inl c => PortsLock c | inr (p, b) => GroupLock p b end) _). by intros [].
Defined.

(** The mutexes of a port. *)
Inductive mutex := SubscribeMutex (port : Z) | UseMutex (port : Z).
#[export] Instance mutex_eq_dec : EqDecision mutex.
Proof. solve_decision. Defined.
#[export] Instance mutex_countable : Countable mutex.
Proof.
  refine (inj_countable' (fun l => match l with SubscribeMutex c => inl c | UseMutex p => inr p end)
    (fun x => match x with inl c => SubscribeMutex c | inr p => UseMutex p end) _). by intros [].
Defined.

(** The client manager's state, over the timer core's: the client table, the ports in
    memory, the use counts of modules, the locks, whether interrupts are enabled, and the
    system client with its port for announcements. *)
Record sys (C : Type) := Sys {
  sy_core : C;
  sy_clients : gmap Z client;
  sy_ports : gmap Z port;
  sy_modules : gmap Z Z;
  sy_locks : gmap lock bool; sy_enabled : bool; sy_mutexes : gset mutex;
  sy_sysclient : Z; sy_announce : Z }.
Arguments Sys {C}.
Arguments sy_core {C}. Arguments sy_clients {C}. Arguments sy_ports {C}. Arguments sy_modules {C}.
Arguments sy_locks {C}. Arguments sy_enabled {C}. Arguments sy_mutexes {C}.
Arguments sy_sysclient {C}. Arguments sy_announce {C}.
#[export] Instance settable_sys C : Settable (sys C) := fun s => Sys
  (sy_core s) (sy_clients s) (sy_ports s) (sy_modules s) (sy_locks s) (sy_enabled s) (sy_mutexes s)
  (sy_sysclient s) (sy_announce s).

Definition CAP_READ : Z := 1.
Definition CAP_WRITE : Z := 2.
Definition CAP_SUBS_READ : Z := 32.
Definition CAP_SUBS_WRITE : Z := 64.
Definition CAP_NO_EXPORT : Z := 128.
Definition SUBS_EXCLUSIVE : Z := 1.
Definition SUBS_TIMESTAMP : Z := 2.
Definition SUBS_TIME_REAL : Z := 4.
Definition SEQ_MAX_PORTS : Z := 254.

(** What drivers provide: the functions that ports point to, the kernel's allocator, and
    where events lie. *)
Class PortDrivers (C : Type) := {
  port_callback : Z -> Z -> subscribe_info -> ST (world (sys C)) Z;   (* function, private data *)
  port_input : Z -> snd_seq_event -> bool -> Z -> bool -> Z -> ST (world (sys C)) Z;
  port_free : Z -> Z -> ST (world (sys C)) unit;
  alloc_port : world (sys C) -> Z;          (* [snd_kcalloc], for a port *)
  alloc_subscriber : world (sys C) -> bool;
  event_address : snd_seq_event -> Z;
  event_behind : Z -> option snd_seq_event }.

Section Ports.
Context {C : Type} `{PortDrivers C}.
Abbreviation W := (ST (world (sys C))).

Definition sys_get {A} (f : sys C -> A) : W A := w <- get;; ret (f (w_core w)).
Definition sys_do (f : sys C -> sys C) : W unit := update (fun w => w <| w_core := f (w_core w) |>).

(** ** Locks *)

Definition spin_lock (l : lock) : W unit :=
  sys_do (fun s => s <| sy_locks := <[l := sy_enabled s]> (sy_locks s) |> <| sy_enabled := false |>).
Definition spin_unlock (l : lock) : W unit :=
  sys_do (fun s => s <| sy_enabled := default false (sy_locks s !! l) |>).

Definition down (m : mutex) : W unit :=
  held <- sys_get sy_mutexes;;
  if decide (m ∈ held) then crash else sys_do (fun s => s <| sy_mutexes := {[m]} ∪ held |>).
Definition up (m : mutex) : W unit := sys_do (fun s => s <| sy_mutexes := sy_mutexes s ∖ {[m]} |>).

(** ** Memory *)

Definition port_at (p : Z) : W port := s <- sys_get id;;
  match sy_ports s !! p with Some x => ret x | None => crash end.
Definition set_port (p : Z) (f : port -> port) : W unit :=
  x <- port_at p;; sys_do (fun s => s <| sy_ports := <[p := f x]> (sy_ports s) |>).

Definition group_of (export : bool) (x : port) : group := if export then pt_export x else pt_import x.
Definition with_group (export : bool) (g : group) (x : port) : port :=
  if export then x <| pt_export := g |> else x <| pt_import := g |>.
Definition group_at (p : Z) (export : bool) : W group := x <- port_at p;; ret (group_of export x).
Definition set_group (p : Z) (export : bool) (f : group -> group) : W unit :=
  set_port p (fun x => with_group export (f (group_of export x)) x).

(** The client table; the pointer to a client is its number. *)
Definition lookup_client (w : world (sys C)) (c : Z) : option client := sy_clients (w_core w) !! c.
Definition client_at (c : Z) : W client := fun w =>
  match lookup_client w c with Some x => Some (x, w) | None => None end.
Definition set_client (c : Z) (f : client -> client) : W unit :=
  x <- client_at c;; sys_do (fun s => s <| sy_clients := <[c := f x]> (sy_clients s) |>).
(** [snd_seq_client_use_ptr]: whether the client is there; the use lock is empty in this build. *)
Definition snd_seq_client_use_ptr (c : Z) : W bool := w <- get;;
  ret ((0 <=? c) && (c <? SEQ_MAX_CLIENTS) && bool_decide (is_Some (lookup_client w c))).

Definition snd_seq_ports_lock (c : Z) : W unit := spin_lock (PortsLock c).
(** The lock is in the client, so there must be one. *)
Definition snd_seq_ports_unlock (c : Z) : W unit := client_at c;;; spin_unlock (PortsLock c).

(** ** Looking for a port *)

Fixpoint find_port (num : Z) (l : list Z) : W Z :=
  match l with
  | [] => ret NULL
  | p :: l => x <- port_at p;; if pt_port x =? num then ret p else find_port num l
  end.

(** The pointer, or NULL; the ports stay locked if there is one. *)
Definition snd_seq_port_use_ptr (c num : Z) : W Z :=
  cl <- client_at c;;
  snd_seq_ports_lock c;;;
  p <- find_port num (cl_ports cl);;
  if p =? NULL then snd_seq_ports_unlock c;;; ret NULL else ret p.

Fixpoint nearest (num found : Z) (l : list Z) : W Z :=
  match l with
  | [] => ret found
  | p :: l =>
      x <- port_at p;;
      if pt_port x <? num then nearest num found l
      else if pt_port x =? num then ret p
      else if found =? NULL then nearest num p l
      else y <- port_at found;; nearest num (if pt_port x <? pt_port y then p else found) l
  end.

Definition snd_seq_port_query_nearest (c num : Z) : W Z :=
  cl <- client_at c;;
  snd_seq_ports_lock c;;;
  p <- nearest num NULL (cl_ports cl);;
  if p =? NULL then snd_seq_ports_unlock c;;; ret NULL else ret p.

(** ** Creating a port *)

(** The text in 64 bytes. *)
Definition text (s : string) : list Z :=
  strncpy 64 ((fun a => Z.of_nat (nat_of_ascii a)) <$> list_ascii_of_string s).
Definition port_text (num : Z) : list Z := text ("port-" +:+ pretty num).

Definition no_group : group := Group [] 0 false.
Definition THIS_MODULE : Z := 1.
Definition new_port (num : Z) : port :=
  Port THIS_MODULE num (port_text num) no_group no_group 0 0 0 0 0 0 0 0 0 false 0 0 0 0.

(** The ports before the new one, those after it, and its number. *)
Fixpoint port_place (port num : Z) (before l : list Z) : W (list Z * list Z * Z) :=
  match l with
  | [] => ret (before, [], num)
  | p :: l' =>
      x <- port_at p;;
      if num <? pt_port x then ret (before, l, num)
      else port_place port (if port <? 0 then pt_port x + 1 else num) (before ++ [p]) l'
  end.

Definition snd_seq_create_port (c port : Z) : W Z :=
  cl <- client_at c;;
  if SEQ_MAX_PORTS - 1 <=? cl_num_ports cl then ret NULL
  else
    w <- get;;
    let p := alloc_port w in
    if p =? NULL then ret NULL
    else
      sys_do (fun s => s <| sy_ports := <[p := new_port (-1)]> (sy_ports s) |>);;;
      spin_lock (PortsLock c);;;
      place <- port_place port (if 0 <=? port then port else 0) [] (cl_ports cl);;
      let '(before, rest, num) := place in
      set_client c (fun cl => cl <| cl_ports := before ++ p :: rest |> <| cl_num_ports := cl_num_ports cl + 1 |>);;;
      set_port p (fun x => x <| pt_port := num |> <| pt_name := port_text num |>);;;
      spin_unlock (PortsLock c);;;
      ret p.

(** ** Port information *)

(** [snd_seq_port_info_t]; the callbacks are those a kernel client gives. *)
Record port_info := PortInfo {
  i_addr : snd_seq_addr; i_name : list Z; i_capability : Z; i_type : Z;
  i_midi_channels : Z; i_synth_voices : Z; i_read_use : Z; i_write_use : Z; i_flags : Z;
  i_kernel : option port }.
#[export] Instance settable_port_info : Settable port_info := fun i => PortInfo
  (i_addr i) (i_name i) (i_capability i) (i_type i) (i_midi_channels i) (i_synth_voices i)
  (i_read_use i) (i_write_use i) (i_flags i) (i_kernel i).

Definition snd_seq_set_port_info (p : Z) (i : port_info) : W unit :=
  set_port p (fun x =>
    (if nth 0 (i_name i) 0 =? 0 then x else x <| pt_name := strncpy 63 (i_name i) ++ [0] |>)
    <| pt_capability := i_capability i |> <| pt_type := i_type i |>
    <| pt_midi_channels := i_midi_channels i |> <| pt_synth_voices := i_synth_voices i |>).

Definition snd_seq_get_port_info (p : Z) (i : port_info) : W port_info :=
  x <- port_at p;;
  ret (i <| i_name := strncpy 64 (pt_name x) |> <| i_capability := pt_capability x |> <| i_type := pt_type x |>
         <| i_midi_channels := pt_midi_channels x |> <| i_synth_voices := pt_synth_voices x |>
         <| i_read_use := pt_subscribe_count x |> <| i_write_use := pt_use_count x |>).

(** ** Subscribers *)

Definition addr_compare (r s : snd_seq_addr) : bool :=
  (addr_client r =? addr_client s) && (addr_port r =? addr_port s).

(** [snd_seq_port_add_subscriber] on the group; the result is the error. *)
Definition group_add (addr : snd_seq_addr) (subs : subscribe_info) (exclusive : bool) (g : group) : Z * group :=
  match g_list g with
  | [] => (0, Group [Subscriber addr subs] (u32 (g_count g + 1)) exclusive)
  | l => if exclusive then (-EBUSY, g)
         else (0, g <| g_list := l ++ [Subscriber addr subs] |> <| g_count := u32 (g_count g + 1) |>)
  end.

(** The subscription an address and a queue name, if it is there. *)
Fixpoint unlink_subscriber (addr : snd_seq_addr) (queue : Z) (l : list subscriber) : option (list subscriber) :=
  match l with
  | [] => None
  | s :: l =>
      if addr_compare (sb_addr s) addr && (s_queue (sb_info s) =? queue) then Some l
      else match unlink_subscriber addr queue l with Some l' => Some (s :: l') | None => None end
  end.

Definition group_remove (addr : snd_seq_addr) (subs : subscribe_info) (g : group) : Z * group :=
  match unlink_subscriber addr (s_queue subs) (g_list g) with
  | Some l => (0, Group l (u32 (g_count g - 1)) false)
  | None => (-ENOENT, g)
  end.

(** The group is read under its lock, and written back. *)
Definition group_do (p : Z) (export : bool) (f : group -> Z * group) : W Z :=
  spin_lock (GroupLock p export);;;
  g <- group_at p export;;
  set_group p export (fun _ => (f g).2);;;
  spin_unlock (GroupLock p export);;;
  ret (f g).1.

Definition snd_seq_port_add_subscriber (p : Z) (export : bool) (addr : snd_seq_addr) (subs : subscribe_info)
    (exclusive : bool) : W Z :=
  w <- get;;
  if negb (alloc_subscriber w) then ret (-ENOMEM)
  else group_do p export (group_add addr subs exclusive).

Definition snd_seq_port_remove_subscriber (p : Z) (export : bool) (addr : snd_seq_addr) (subs : subscribe_info) : W Z :=
  group_do p export (group_remove addr subs).

(** The group stays locked if the address is there. *)
Definition snd_seq_port_get_subscription (p : Z) (export : bool) (addr : snd_seq_addr) : W (option subscriber) :=
  spin_lock (GroupLock p export);;;
  g <- group_at p export;;
  match List.find (fun s => addr_compare (sb_addr s) addr) (g_list g) with
  | Some s => ret (Some s)
  | None => spin_unlock (GroupLock p export);;; ret None
  end.

Definition snd_seq_port_is_subscribed (p : Z) (export : bool) (addr : snd_seq_addr) : W bool :=
  s <- snd_seq_port_get_subscription p export addr;;
  match s with
  | Some _ => spin_unlock (GroupLock p export);;; ret true
  | None => ret false
  end.

(** ** Using a port

    Two counts, of subscriptions to what the port sends and of those it receives from; the
    driver is called for the first and the last one, or for each if it asked for that. *)

(** [try_inc_mod_count] and [dec_mod_count]. *)
Definition try_inc_mod_count (m : Z) : W bool :=
  n <- sys_get (fun s => u32 (default 0 (sy_modules s !! m) + 1));;
  sys_do (fun s => s <| sy_modules := <[m := n]> (sy_modules s) |>);;;
  ret (truth n).
Definition dec_mod_count (m : Z) : W unit :=
  sys_do (fun s => s <| sy_modules := <[m := u32 (default 0 (sy_modules s !! m) - 1)]> (sy_modules s) |>).

Definition snd_seq_port_subscribe (p : Z) (info : subscribe_info) : W Z :=
  down (SubscribeMutex p);;;
  set_port p (fun x => x <| pt_subscribe_count := u32 (pt_subscribe_count x + 1) |>);;;
  x <- port_at p;;
  ok <- try_inc_mod_count (pt_owner x);;
  result <-
    (if negb ok then
       set_port p (fun x => x <| pt_subscribe_count := u32 (pt_subscribe_count x - 1) |>);;; ret (-EFAULT)
     else if truth (pt_subscribe x) && (pt_callback_all x || (pt_subscribe_count x =? 1)) then
       result <- port_callback (pt_subscribe x) (pt_private_data x) info;;
       when (result <? 0)
         (set_port p (fun x => x <| pt_subscribe_count := u32 (pt_subscribe_count x - 1) |>);;;
          dec_mod_count (pt_owner x));;;
       ret result
     else ret 0);;
  up (SubscribeMutex p);;;
  ret result.

Definition snd_seq_port_unsubscribe (p : Z) (info : subscribe_info) : W Z :=
  down (SubscribeMutex p);;;
  x <- port_at p;;
  result <-
    (if 0 <? pt_subscribe_count x then
       let n := pt_subscribe_count x - 1 in
       set_port p (fun x => x <| pt_subscribe_count := n |>);;;
       result <- (if truth (pt_unsubscribe x) && (pt_callback_all x || (n =? 0))
                  then port_callback (pt_unsubscribe x) (pt_private_data x) info else ret 0);;
       dec_mod_count (pt_owner x);;;
       ret result
     else ret 0);;
  up (SubscribeMutex p);;;
  ret result.

Definition from_system (info : subscribe_info) : bool := addr_client (s_sender info) =? CLIENT_SYSTEM.

Definition snd_seq_port_use (p : Z) (info : subscribe_info) : W Z :=
  down (UseMutex p);;;
  set_port p (fun x => x <| pt_use_count := u32 (pt_use_count x + 1) |>);;;
  x <- port_at p;;
  ok <- (if from_system info then ret true else try_inc_mod_count (pt_owner x));;
  result <-
    (if negb ok then
       set_port p (fun x => x <| pt_use_count := u32 (pt_use_count x - 1) |>);;; ret (-EFAULT)
     else if truth (pt_use x) && (pt_callback_all x || (pt_use_count x =? 1)) then
       result <- port_callback (pt_use x) (pt_private_data x) info;;
       when (result <? 0)
         (set_port p (fun x => x <| pt_use_count := u32 (pt_use_count x - 1) |>);;;
          when (negb (from_system info)) (dec_mod_count (pt_owner x)));;;
       ret result
     else ret 0);;
  up (UseMutex p);;;
  ret result.

Definition snd_seq_port_unuse (p : Z) (info : subscribe_info) : W Z :=
  down (UseMutex p);;;
  x <- port_at p;;
  result <-
    (if 0 <? pt_use_count x then
       let n := pt_use_count x - 1 in
       set_port p (fun x => x <| pt_use_count := n |>);;;
       result <- (if truth (pt_unuse x) && (pt_callback_all x || (n =? 0))
                  then port_callback (pt_unuse x) (pt_private_data x) info else ret 0);;
       when (negb (from_system info)) (dec_mod_count (pt_owner x));;;
       ret result
     else ret 0);;
  up (UseMutex p);;;
  ret result.
End Ports.
