(* ===== verification/SeqRoute.v ===== *)
(** * SeqRoute: delivering events to clients

    The delivery of alsa/core/seq/seq_clientmgr.c: to a port, to the subscribers of a port, to
    all ports or all clients; the return of events that cannot be delivered; and the entry
    points of kernel clients.  With the queues of SeqQueue.v this closes the circle: it is
    their [SeqClients].  The events passed around are values; the memory a returned or quoted
    event lies in is a parameter.  The list of subscribers or ports that is walked is the one at
    the start: it is locked against changes. *)

From S2P Require Import Prelude SeqEvent SeqCells SeqMemory SeqPrioq SeqFifo SeqTimer SeqQueue SeqPorts.
Open Scope Z_scope.
Open Scope state_scope.

Definition ADDRESS_BROADCAST : Z := 255.
Definition QUEUE_DIRECT : Z := 253.
Definition FILTER_BROADCAST : Z := 1.
Definition FILTER_BOUNCE : Z := 4.
Definition FILTER_USE_EVENT : Z := 0x80000000.
Definition EVENT_KERNEL_ERROR : Z := 150.
Definition EVENT_KERNEL_QUOTE : Z := 151.
Definition PORT_SYSTEM_ANNOUNCE : Z := 1.
Definition SEQ_MAX_HOPS : Z := 10.
Definition SEQ_MAX_EVENT_LEN : Z := 0x3fffffff.
Definition EVENT_LENGTH_VARUSR : Z := 8.
Definition EVENT_LENGTH_VARIPC : Z := 12.

Definition is_direct (e : snd_seq_event) : bool := ev_queue e =? QUEUE_DIRECT.
Definition is_reserved (e : snd_seq_event) : bool := 150 <=? ev_type e.
Definition is_instr_type (e : snd_seq_event) : bool := (100 <=? ev_type e) && (ev_type e <? 130).
Definition is_variable_type (e : snd_seq_event) : bool := (130 <=? ev_type e) && (ev_type e <? 140).
Definition is_varipc_type (e : snd_seq_event) : bool := (140 <=? ev_type e) && (ev_type e <? 150).
Definition length_type (e : snd_seq_event) : Z := Z.land (ev_flags e) EVENT_LENGTH_MASK.

(** The error if the type and the kind of data do not fit. *)
Definition check_event_type_and_length (e : snd_seq_event) : Z :=
  let t := length_type e in
  if t =? 0 then (if is_variable_type e || is_varipc_type e then -EINVAL else 0)
  else if t =? EVENT_LENGTH_VARIABLE then
    (if negb (is_variable_type e) || (SEQ_MAX_EVENT_LEN <=? Z.land (ext_len e) (UINT_MAX - EXT_MASK)) then -EINVAL else 0)
  else if t =? EVENT_LENGTH_VARUSR then
    (if negb (is_instr_type e) || negb (is_direct e) then -EINVAL else 0)
  else (if negb (is_varipc_type e) then -EINVAL else 0).

(** The first word of [data.quote]: the origin, and the value in 16 bits. *)
Definition quote_word (origin : snd_seq_addr) (value : Z) : Z :=
  addr_client origin + addr_port origin * 256 + (value mod 65536) * 65536.

Section Route.
Context {C : Type} `{PortDrivers C}.
Abbreviation W := (ST (world (sys C))).

Definition check_port_perm (p : Z) (flags : Z) : W bool :=
  x <- port_at p;; ret (Z.land (pt_capability x) flags =? flags).

(** The destination of an event, if it takes it; otherwise NULL, here [None]. *)
Definition get_event_dest_client (e : snd_seq_event) (filter : Z) : W (option Z) :=
  let dest := addr_client (ev_dest e) in
  there <- snd_seq_client_use_ptr dest;;
  if negb there then ret None
  else
    cl <- client_at dest;;
    if negb (cl_accept_input cl) then ret None
    else if truth (Z.land (cl_filter cl) FILTER_USE_EVENT) && negb (Z.testbit (cl_event_filter cl) (ev_type e))
    then ret None
    else if truth filter && negb (truth (Z.land (cl_filter cl) filter)) then ret None
    else ret (Some dest).

(** [snd_seq_fifo_event_in] does not sleep. *)
Definition fifo_event_in (c : Z) (e : snd_seq_event) : W Z :=
  cl <- client_at c;;
  match cl_fifo cl with
  | None => ret (-ENOENT)
  | Some f =>
      r <- in_mem (snd_seq_fifo_event_in (fun _ m => (true, m)) 1 f e);;
      set_client c (fun cl => cl <| cl_fifo := Some r.2 |>);;;
      ret r.1
  end.

(** The [switch] on the type of the destination. *)
Definition hand_over (dest p : Z) (e : snd_seq_event) (direct : bool) (atomic : bool) (hop : Z) : W Z :=
  cl <- client_at dest;;
  match cl_type cl with
  | USER_CLIENT => fifo_event_in dest e
  | KERNEL_CLIENT =>
      x <- port_at p;;
      if pt_event_input x =? 0 then ret (-ENOENT)
      else port_input (pt_event_input x) e direct (pt_private_data x) atomic hop
  | NO_CLIENT => ret (-ENOENT)
  end.

(** A delivery up to [__skip] and the unlocking: the result, whether the event was quoted, and
    the event. *)
Definition deliver_attempt (e : snd_seq_event) (filter : Z) (atomic : bool) (hop : Z)
    : W (Z * bool * snd_seq_event) :=
  d <- get_event_dest_client e filter;;
  match d with
  | None => ret (-ENOENT, false, e)
  | Some dest =>
      p <- snd_seq_port_use_ptr dest (addr_port (ev_dest e));;
      if p =? NULL then ret (-ENOENT, false, e)
      else
        ok <- check_port_perm p CAP_WRITE;;
        r <- (if negb ok then ret (-EPERM, false, e)
              else
                let direct := is_direct e in
                if ev_type e =? EVENT_KERNEL_QUOTE then
                  match event_behind (ev_d1 e) with
                  | None => ret (0, true, e)
                  | Some e' => result <- hand_over dest p e' direct atomic hop;; ret (result, true, e')
                  end
                else result <- hand_over dest p e direct atomic hop;; ret (result, false, e));;
        snd_seq_ports_unlock dest;;;
        ret r
  end.

(** The event that carries a failed one back. *)
Definition error_event (c : Z) (e : snd_seq_event) (err : Z) : snd_seq_event :=
  Event EVENT_KERNEL_ERROR 0 0 QUEUE_DIRECT (Timestamp 0 0) (Addr CLIENT_SYSTEM PORT_SYSTEM_ANNOUNCE)
    (Addr c (addr_port (ev_source e))) (quote_word (ev_dest e) (- err)) (event_address e) 0.

(** [client] is [None] for NULL.  The error event is delivered by [deliver], for no client. *)
Definition bounce_error_event (deliver : option Z -> snd_seq_event -> Z -> bool -> Z -> W Z)
    (client : option Z) (e : snd_seq_event) (err : Z) (atomic : bool) (hop : Z) : W Z :=
  match client with
  | None => ret 0
  | Some c =>
      cl <- client_at c;;
      if negb (truth (Z.land (cl_filter cl) FILTER_BOUNCE)) || negb (cl_accept_input cl) then ret 0
      else
        result <- deliver None (error_event c e err) 0 atomic (hop + 1);;
        when (result <? 0) (set_client c (fun cl => cl <| cl_event_lost := cl_event_lost cl + 1 |>));;;
        ret result
  end.

(** A delivery, and a bounce, and the bounce of the bounce, which goes nowhere. *)
Fixpoint single_event (depth : nat) (client : option Z) (e : snd_seq_event) (filter : Z)
    (atomic : bool) (hop : Z) : W Z :=
  match depth with
  | O => crash
  | S depth =>
      r <- deliver_attempt e filter atomic hop;;
      let '(result, quoted, e) := r in
      if result <? 0 then
        if quoted : bool then
          there <- snd_seq_client_use_ptr (addr_client (ev_source e));;
          bounce_error_event (single_event depth)
            (if there : bool then Some (addr_client (ev_source e)) else None) e result atomic hop
        else bounce_error_event (single_event depth) client e result atomic hop
      else ret result
  end.

Definition snd_seq_deliver_single_event : option Z -> snd_seq_event -> Z -> bool -> Z -> W Z := single_event 2.

(** ** To many *)

(** The event as subscription [s] wants it: its address, and the time of its queue. *)
Definition for_subscriber (s : subscriber) (e : snd_seq_event) : W snd_seq_event :=
  let e := e <| ev_dest := sb_addr s |> in
  if truth (Z.land (s_flags (sb_info s)) SUBS_TIMESTAMP) then
    let id := s_queue (sb_info s) in
    there <- queueptr id;;
    if negb there then ret e
    else
      q <- queue_at id;; t <- now;;
      let e := e <| ev_queue := id |> <| ev_flags := Z.land (ev_flags e) (255 - TIME_STAMP_MASK) |> in
      ret (if truth (Z.land (s_flags (sb_info s)) SUBS_TIME_REAL)
           then e <| ev_time := snd_seq_timer_get_cur_time t (q_timer q) |>
                  <| ev_flags := Z.lor (ev_flags e) TIME_STAMP_REAL |>
           else e <| ev_time := Timestamp (snd_seq_timer_get_cur_tick (q_timer q)) (tv_nsec (ev_time e)) |>)
  else ret e.

(** The event carried from one subscriber to the next, the count and the error.  It is
    restored after a subscription with a time stamp. *)
Fixpoint subscribers_loop (client : Z) (saved e : snd_seq_event) (num : Z) (l : list subscriber)
    (atomic : bool) (hop : Z) : W Z :=
  match l with
  | [] => ret num
  | s :: l =>
      e <- for_subscriber s e;;
      err <- snd_seq_deliver_single_event (Some client) e 0 atomic hop;;
      if err <? 0 then ret err
      else subscribers_loop client saved
             (if truth (Z.land (s_flags (sb_info s)) SUBS_TIMESTAMP) then saved else e) (num + 1) l atomic hop
  end.

Definition deliver_to_subscribers (client : Z) (e : snd_seq_event) (atomic : bool) (hop : Z) : W Z :=
  p <- snd_seq_port_use_ptr client (addr_port (ev_source e));;
  if p =? NULL then ret (-EINVAL)
  else
    x <- port_at p;;
    match g_list (pt_export x) with
    | [] => snd_seq_ports_unlock client;;; ret 0
    | l =>
        spin_lock (GroupLock p true);;;
        result <- subscribers_loop client e e 0 l atomic hop;;
        spin_unlock (GroupLock p true);;;
        snd_seq_ports_unlock client;;;
        ret result
    end.

(** Each port of the list, by its number. *)
Fixpoint ports_loop (e : snd_seq_event) (num : Z) (l : list Z) (atomic : bool) (hop : Z) : W Z :=
  match l with
  | [] => ret num
  | p :: l =>
      x <- port_at p;;
      err <- snd_seq_deliver_single_event None
               (e <| ev_dest := Addr (addr_client (ev_dest e)) (pt_port x mod 256) |>) FILTER_BROADCAST atomic hop;;
      if err <? 0 then ret err else ports_loop e (num + 1) l atomic hop
  end.

Definition port_broadcast_event (e : snd_seq_event) (atomic : bool) (hop : Z) : W Z :=
  d <- get_event_dest_client e FILTER_BROADCAST;;
  match d with
  | None => ret 0
  | Some dest =>
      snd_seq_ports_lock dest;;;
      cl <- client_at dest;;
      result <- ports_loop e 0 (cl_ports cl) atomic hop;;
      snd_seq_ports_unlock dest;;;
      ret result
  end.

Fixpoint clients_loop (client : Z) (e : snd_seq_event) (num : Z) (l : list Z) (atomic : bool) (hop : Z) : W Z :=
  match l with
  | [] => ret num
  | dest :: l =>
      if dest =? client then clients_loop client e num l atomic hop
      else
        let port := addr_port (ev_dest e) in
        let e := e <| ev_dest := Addr dest port |> in
        err <- (if port =? ADDRESS_BROADCAST then port_broadcast_event e atomic hop
                else snd_seq_deliver_single_event None e FILTER_BROADCAST atomic hop);;
        if err <? 0 then ret err else clients_loop client e (num + err) l atomic hop
  end.

Definition broadcast_event (client : Z) (e : snd_seq_event) (atomic : bool) (hop : Z) : W Z :=
  clients_loop client e 0 (seqZ 0 SEQ_MAX_CLIENTS) atomic hop.

Definition multicast_event (client : Z) (e : snd_seq_event) (atomic : bool) (hop : Z) : W Z := ret 0.

Definition deliver_event (client : Z) (e : snd_seq_event) (atomic : bool) (hop : Z) : W Z :=
  let hop := hop + 1 in
  if SEQ_MAX_HOPS <=? hop then ret (-EMLINK)
  else if (ev_queue e =? ADDRESS_SUBSCRIBERS) || (addr_client (ev_dest e) =? ADDRESS_SUBSCRIBERS)
  then deliver_to_subscribers client e atomic hop
  else if (ev_queue e =? ADDRESS_BROADCAST) || (addr_client (ev_dest e) =? ADDRESS_BROADCAST)
  then broadcast_event client e atomic hop
  else if SEQ_MAX_CLIENTS <=? addr_client (ev_dest e) then multicast_event client e atomic hop
  else if addr_port (ev_dest e) =? ADDRESS_BROADCAST then port_broadcast_event e atomic hop
  else snd_seq_deliver_single_event (Some client) e 0 atomic hop.

(** An event straight from a kernel client. *)
Definition kernel_client_dispatch (client : Z) (e : snd_seq_event) (atomic : bool) (hop : Z) : W Z :=
  let e := e <| ev_queue := QUEUE_DIRECT |> <| ev_source := Addr client (addr_port (ev_source e)) |> in
  if truth (check_event_type_and_length e) then ret (-EINVAL)
  else
    there <- snd_seq_client_use_ptr client;;
    if negb there then ret (-EINVAL)
    else
      cl <- client_at client;;
      if negb (cl_accept_output cl) then ret (-EPERM) else deliver_event client e atomic hop.
End Route.

(** The client manager under the queues. *)
#[export] Instance route_clients {C} `{PortDrivers C} : SeqClients (sys C) := {
  client_exists c w := (0 <=? c) && (c <? SEQ_MAX_CLIENTS) && bool_decide (is_Some (lookup_client w c));
  snd_seq_deliver_event := deliver_event;
  snd_seq_kernel_client_dispatch := kernel_client_dispatch }.
