(* ===== verification/SeqConnect.v ===== *)
(** * SeqConnect: connecting and removing ports

    The rest of alsa/core/seq/seq_ports.c, the calls of seq_clientmgr.c that create, connect
    and remove ports, and the announcements of seq_system.c.  A connection is kept twice, in
    the export group of its sender and in the import group of its receiver. *)

From S2P Require Import Prelude SeqEvent SeqCells SeqMemory SeqPrioq SeqFifo SeqTimer SeqQueue SeqPorts SeqRoute.
Open Scope Z_scope.
Open Scope state_scope.

Definition EVENT_PORT_START : Z := 63.
Definition EVENT_PORT_EXIT : Z := 64.
Definition EVENT_PORT_SUBSCRIBED : Z := 66.
Definition EVENT_PORT_UNSUBSCRIBED : Z := 67.
Definition PORT_FLG_GIVEN_PORT : Z := 1.
Definition PERM_RD : Z := Z.lor CAP_READ CAP_SUBS_READ.
Definition PERM_WR : Z := Z.lor CAP_WRITE CAP_SUBS_WRITE.

(** [data.connect] *)
Definition connect_word (sender dest : snd_seq_addr) : Z :=
  word (addr_client sender) (addr_port sender) (addr_client dest) (addr_port dest).

Section Connect.
Context {C : Type} `{PortDrivers C}.
Abbreviation W := (ST (world (sys C))).

(** ** Announcements *)

Definition snd_seq_system_notify (client port : Z) (e : snd_seq_event) : W Z :=
  s <- sys_get id;;
  kernel_client_dispatch (sy_sysclient s)
    (e <| ev_flags := 0 |> <| ev_source := Addr (sy_sysclient s) (sy_announce s mod 256) |>
       <| ev_dest := Addr client port |>) false 0.

Definition snd_seq_client_notify_subscription (client port : Z) (info : subscribe_info) (evtype : Z) : W Z :=
  snd_seq_system_notify client port
    (Event evtype 0 0 0 (Timestamp 0 0) (Addr 0 0) (Addr 0 0) (connect_word (s_sender info) (s_dest info)) 0 0).

Definition snd_seq_system_broadcast (client port type : Z) : W unit :=
  s <- sys_get id;;
  if sy_announce s <? 0 then ret tt
  else
    kernel_client_dispatch (sy_sysclient s)
      (Event type 0 0 0 (Timestamp 0 0) (Addr (sy_sysclient s mod 256) (sy_announce s mod 256))
         (Addr ADDRESS_SUBSCRIBERS 0) (client mod 256 + port mod 256 * 256) 0 0) false 0;;;
    ret tt.

(** ** Connecting *)

(** Whether a permission is missing or the port is taken; the first error. *)
Definition connect_check (p : Z) (export : bool) (perm : Z) (info : subscribe_info) : W Z :=
  ok <- check_port_perm p perm;;
  if negb ok then ret (-EPERM)
  else
    x <- port_at p;;
    if truth (Z.land (s_flags info) SUBS_EXCLUSIVE) && (0 <? (if export then pt_subscribe_count x else pt_use_count x))
    then ret (-EBUSY)
    else if g_exclusive (group_of export x) then ret (-EBUSY) else ret 0.

Definition exclusive (info : subscribe_info) : bool := truth (Z.land (s_flags info) SUBS_EXCLUSIVE).

(** The second half of [connect_ports], which undoes what it did when a step fails. *)
Definition make_connection (sport dport : Z) (info : subscribe_info) : W Z :=
  result <- snd_seq_port_subscribe sport info;;
  if result <? 0 then ret result else
  result <- snd_seq_port_use dport info;;
  if result <? 0 then snd_seq_port_unsubscribe sport info;;; ret result else
  result <- snd_seq_port_add_subscriber sport true (s_dest info) info (exclusive info);;
  if result <? 0 then
    snd_seq_port_unsubscribe sport info;;; snd_seq_port_unuse dport info;;; ret result else
  result <- snd_seq_port_add_subscriber dport false (s_sender info) info (exclusive info);;
  if result <? 0 then
    snd_seq_port_remove_subscriber sport true (s_dest info) info;;;
    snd_seq_port_unsubscribe sport info;;; snd_seq_port_unuse dport info;;; ret result
  else ret 0.

(** [check_sender] and [check_dest] are the bits of [check]. *)
Definition connect_ports (sport dport : Z) (info : subscribe_info) (check_sender check_dest : bool) : W Z :=
  err <- (if check_sender then connect_check sport true PERM_RD info else ret 0);;
  if err <? 0 then ret err else
  err <- (if check_dest then connect_check dport false PERM_WR info else ret 0);;
  if err <? 0 then ret err else
  is_out <- snd_seq_port_is_subscribed sport true (s_dest info);;
  is_in <- (if is_out : bool then ret true else snd_seq_port_is_subscribed dport false (s_sender info));;
  if is_in : bool then ret (-EBUSY) else
  make_connection sport dport info.

(** The four look-ups that both calls start with; [k] goes on with the two ports, and [fail]
    is the result when one is not there.  What was locked is unlocked at the end. *)
Definition with_ports (subs : subscribe_info) (fail : Z) (k : Z -> Z -> W Z) : W Z :=
  let receiver := addr_client (s_dest subs) in
  let sender := addr_client (s_sender subs) in
  there <- snd_seq_client_use_ptr receiver;;
  if negb there then ret fail else
  there <- snd_seq_client_use_ptr sender;;
  if negb there then ret fail else
  sport <- snd_seq_port_use_ptr sender (addr_port (s_sender subs));;
  if sport =? NULL then ret fail else
  dport <- snd_seq_port_use_ptr receiver (addr_port (s_dest subs));;
  result <- (if dport =? NULL then ret fail else k sport dport);;
  snd_seq_ports_unlock sender;;;
  when (negb (dport =? NULL)) (snd_seq_ports_unlock receiver);;;
  ret result.

(** Telling the client of users at [a] of a change, unless [client] is [but]. *)
Definition notify_user (client but : Z) (a : snd_seq_addr) (subs : subscribe_info) (evtype : Z) : W unit :=
  cl <- client_at (addr_client a);;
  when (negb (client =? but) && bool_decide (cl_type cl = USER_CLIENT))
    (snd_seq_client_notify_subscription (addr_client a) (addr_port a) subs evtype;;; ret tt).

Definition announce (subs : subscribe_info) (evtype : Z) : W unit :=
  snd_seq_client_notify_subscription ADDRESS_SUBSCRIBERS 0 subs evtype;;; ret tt.

Definition busy_in_interrupt (m : W Z) : W Z := w <- get;; if w_interrupt w then ret (-EBUSY) else m.

(** A third client may not connect ports that are not to be exported. *)
Definition third_may_not (client : Z) (subs : subscribe_info) (sport dport : Z) : W bool :=
  if (client =? addr_client (s_dest subs)) || (client =? addr_client (s_sender subs)) then ret false
  else
    s <- check_port_perm sport CAP_NO_EXPORT;;
    if s : bool then ret true else check_port_perm dport CAP_NO_EXPORT.

Definition snd_seq_ioctl_subscribe_port (client : Z) (subs : subscribe_info) : W Z :=
  busy_in_interrupt (with_ports subs (-EINVAL) (fun sport dport =>
    no <- third_may_not client subs sport dport;;
    if no : bool then ret (-EPERM)
    else
      result <- connect_ports sport dport subs
                  (negb (client =? addr_client (s_sender subs))) (negb (client =? addr_client (s_dest subs)));;
      when (0 <=? result)
        (notify_user client (addr_client (s_sender subs)) (s_sender subs) subs EVENT_PORT_SUBSCRIBED;;;
         notify_user client (addr_client (s_dest subs)) (s_dest subs) subs EVENT_PORT_SUBSCRIBED;;;
         announce subs EVENT_PORT_SUBSCRIBED);;;
      ret result)).

Definition snd_seq_ioctl_unsubscribe_port (client : Z) (subs : subscribe_info) : W Z :=
  busy_in_interrupt (with_ports subs (-ENXIO) (fun sport dport =>
    s_ok <- (if client =? addr_client (s_sender subs) then ret true else check_port_perm sport PERM_RD);;
    d_ok <- (if negb s_ok || (client =? addr_client (s_dest subs)) then ret true else check_port_perm dport PERM_WR);;
    no <- (if negb s_ok || negb d_ok then ret true else third_may_not client subs sport dport);;
    if no : bool then ret (-EPERM)
    else
      out <- snd_seq_port_is_subscribed sport true (s_dest subs);;
      when out
        (snd_seq_port_remove_subscriber sport true (s_dest subs) subs;;;
         snd_seq_port_unsubscribe sport subs;;;
         notify_user client (addr_client (s_sender subs)) (s_sender subs) subs EVENT_PORT_UNSUBSCRIBED);;;
      in_ <- snd_seq_port_is_subscribed dport false (s_sender subs);;
      when in_
        (snd_seq_port_remove_subscriber dport false (s_sender subs) subs;;;
         snd_seq_port_unuse dport subs;;;
         notify_user client (addr_client (s_sender subs)) (s_dest subs) subs EVENT_PORT_UNSUBSCRIBED);;;
      if out || in_ then announce subs EVENT_PORT_UNSUBSCRIBED;;; ret 0 else ret (-ENOENT))).

(** ** Removing ports *)

(** What is done for one subscriber of the port [lport] that is going away. *)
Definition disconnect (lclient lport : Z) (export : bool) (s : subscriber) : W unit :=
  x <- port_at lport;;
  let laddr := Addr lclient (pt_port x mod 256) in
  let raddr := sb_addr s in
  let subs := sb_info s in
  there <- snd_seq_client_use_ptr (addr_client raddr);;
  rport <- (if negb there then ret NULL else snd_seq_port_use_ptr (addr_client raddr) (addr_port raddr));;
  when (negb (rport =? NULL))
    (snd_seq_port_remove_subscriber lport export raddr subs;;;
     snd_seq_port_remove_subscriber rport (negb export) laddr subs;;;
     (if export then snd_seq_port_unsubscribe lport subs else snd_seq_port_unuse lport subs);;;
     notify_user (addr_client raddr) lclient laddr subs EVENT_PORT_UNSUBSCRIBED;;;
     (if export then snd_seq_port_unuse rport subs else snd_seq_port_unsubscribe rport subs);;;
     notify_user (addr_client raddr) lclient raddr subs EVENT_PORT_UNSUBSCRIBED;;;
     announce subs EVENT_PORT_UNSUBSCRIBED);;;
  (* [__skip], also when there is no client or no port *)
  snd_seq_ports_unlock (addr_client raddr).

Fixpoint clear_subscribers (fuel : nat) (lclient lport : Z) (export : bool) : W unit :=
  match fuel with
  | O => crash
  | S fuel =>
      spin_lock (GroupLock lport export);;;
      g <- group_at lport export;;
      match g_list g with
      | [] => spin_unlock (GroupLock lport export);;; ret tt
      | s :: l =>
          set_group lport export (fun g => g <| g_list := l |> <| g_count := u32 (g_count g - 1) |>);;;
          spin_unlock (GroupLock lport export);;;
          disconnect lclient lport export s;;;
          clear_subscribers fuel lclient lport export
      end
  end.

(** A group shrinks with each round. *)
Definition group_fuel (p : Z) (export : bool) : W nat :=
  g <- group_at p export;; ret (S (length (g_list g))).

(** The memory of a port that was freed still holds it: [pt_port] is read later. *)
Definition snd_seq_port_delete (c p : Z) : W Z :=
  n <- group_fuel p false;; clear_subscribers n c p false;;;
  n <- group_fuel p true;; clear_subscribers n c p true;;;
  x <- port_at p;;
  when (truth (pt_private_free x)) (port_free (pt_private_free x) (pt_private_data x));;;
  ret 0.

(** The list without the first port of the number, and that port. *)
Fixpoint unlink_port (num : Z) (l : list Z) : W (option (Z * list Z)) :=
  match l with
  | [] => ret None
  | p :: l =>
      x <- port_at p;;
      if pt_port x =? num then ret (Some (p, l))
      else r <- unlink_port num l;; ret (match r with Some (q, l') => Some (q, p :: l') | None => None end)
  end.

Definition snd_seq_delete_port (c num : Z) : W Z :=
  spin_lock (PortsLock c);;;
  cl <- client_at c;;
  r <- unlink_port num (cl_ports cl);;
  match r with
  | Some (p, l) =>
      set_client c (fun cl => cl <| cl_ports := l |> <| cl_num_ports := cl_num_ports cl - 1 |>);;;
      spin_unlock (PortsLock c);;;
      snd_seq_port_delete c p
  | None => spin_unlock (PortsLock c);;; ret (-ENOENT)
  end.

Fixpoint delete_all (c : Z) (l : list Z) : W unit :=
  match l with
  | [] => ret tt
  | p :: l =>
      snd_seq_port_delete c p;;;
      x <- port_at p;;
      snd_seq_system_broadcast c (pt_port x) EVENT_PORT_EXIT;;;
      delete_all c l
  end.

Definition snd_seq_delete_ports (c : Z) : W Z :=
  spin_lock (PortsLock c);;;
  cl <- client_at c;;
  set_client c (fun cl => cl <| cl_ports := [] |> <| cl_num_ports := 0 |>);;;
  spin_unlock (PortsLock c);;;
  delete_all c (cl_ports cl);;;
  ret 0.

(** ** The calls *)

(** The error, and what is copied back. *)
Definition snd_seq_ioctl_create_port (c : Z) (info : port_info) : W (Z * port_info) :=
  w <- get;;
  if w_interrupt w then ret (-EBUSY, info)
  else if negb (addr_client (i_addr info) =? c) then ret (-EPERM, info)
  else
    p <- snd_seq_create_port c (if truth (Z.land (i_flags info) PORT_FLG_GIVEN_PORT) then addr_port (i_addr info) else -1);;
    if p =? NULL then ret (-ENOMEM, info)
    else
      cl <- client_at c;;
      x <- port_at p;;
      if bool_decide (cl_type cl = USER_CLIENT) && bool_decide (is_Some (i_kernel info)) then
        snd_seq_delete_port c (pt_port x);;; ret (-EINVAL, info)
      else
        (match cl_type cl, i_kernel info with
         | KERNEL_CLIENT, Some k =>
             set_port p (fun x => (if truth (pt_owner k) then x <| pt_owner := pt_owner k |> else x)
               <| pt_private_data := pt_private_data k |> <| pt_subscribe := pt_subscribe k |>
               <| pt_unsubscribe := pt_unsubscribe k |> <| pt_use := pt_use k |> <| pt_unuse := pt_unuse k |>
               <| pt_event_input := pt_event_input k |> <| pt_private_free := pt_private_free k |>
               <| pt_callback_all := pt_callback_all k |>)
         | _, _ => ret tt
         end);;;
        let info := info <| i_addr := Addr c (pt_port x mod 256) |> in
        snd_seq_set_port_info p info;;;
        snd_seq_system_broadcast c (pt_port x) EVENT_PORT_START;;;
        ret (0, info).

Definition snd_seq_ioctl_delete_port (c : Z) (info : port_info) : W Z :=
  busy_in_interrupt
    (if negb (addr_client (i_addr info) =? c) then ret (-EPERM)
     else
       err <- snd_seq_delete_port c (addr_port (i_addr info));;
       when (0 <=? err) (snd_seq_system_broadcast c (addr_port (i_addr info)) EVENT_PORT_EXIT);;;
       ret err).

Definition snd_seq_ioctl_get_port_info (info : port_info) : W (Z * port_info) :=
  let c := addr_client (i_addr info) in
  there <- snd_seq_client_use_ptr c;;
  if negb there then ret (-ENXIO, info)
  else
    p <- snd_seq_port_use_ptr c (addr_port (i_addr info));;
    if p =? NULL then ret (-ENOENT, info)
    else
      info <- snd_seq_get_port_info p info;;
      snd_seq_ports_unlock c;;;
      ret (0, info).

Definition snd_seq_ioctl_set_port_info (c : Z) (info : port_info) : W Z :=
  if negb (addr_client (i_addr info) =? c) then ret (-EPERM)
  else
    p <- snd_seq_port_use_ptr c (addr_port (i_addr info));;
    when (negb (p =? NULL)) (snd_seq_set_port_info p info;;; snd_seq_ports_unlock c);;;
    ret 0.
End Connect.
