(* ===== verification/SeqMail.v ===== *)
(** * SeqMail: the FIFOs of all clients

    Each client that reads has a FIFO with a pool of its own, all in one memory.  Putting an
    event in one leaves the others alone. *)

From S2P Require Import Prelude SeqEvent SeqCells SeqMemory SeqCopy SeqFifo SeqFifoSpec SeqPrioq SeqTimer SeqQueue SeqWorld.
From S2P Require Import SeqPorts.
Open Scope Z_scope.
Open Scope state_scope.

(** ** One FIFO *)

Lemma fifo_keep T T' m m' f s :
  fifo_is T m f s -> outside T' m m' -> T ## T' -> m_pools m' !! ff_pool f = m_pools m !! ff_pool f -> fifo_is T m' f s.
Proof.
  intros (P & L & F & R & Ef & Et & Eo) [Eb Ec] D Ep. exists P, L, F. split; [| done].
  pose proof R as [HP HR HT HN HO HB Hch Ht Hcnt HI].
  assert (Keep : forall a, a ∈ T -> m_cells m' !! a = m_cells m !! a) by (intros a Ha; apply Ec; set_solver).
  assert (KL : forall a, a ∈ cells_of L -> m_cells m' !! a = m_cells m !! a).
  { intros a Ha. apply Keep. rewrite <- HT, elem_of_app. by left. }
  split; try done.
  - destruct HP as [A1 A2 A3 A4]. split; [done | by rewrite Ep | | done].
    apply (lseg_frame (m_cells m)); [| exact A3]. intros a Ha.
    destruct (lseg_cell _ _ _ _ a A3 Ha) as [[y Hy] _]. exists y, y. rewrite Keep; [done |].
    rewrite <- HT, !elem_of_app. auto.
  - rewrite Forall_forall in *. intros a Ha. destruct (HO a Ha) as (Hr & x & Hx & Hp). split; [done |].
    exists x. by rewrite Keep.
  - intros a b. rewrite Eb. apply HB.
  - apply (lseg_frame (m_cells m)); [| exact Hch]. intros a Ha.
    destruct (lseg_cell _ _ _ _ a Hch Ha) as [[y Hy] _]. exists y, y. by rewrite KL by (by apply queued_cell).
  - apply (items_keep m); [| | exact HI].
    + intros a y Ha Hy. exists y. by rewrite KL.
    + intros p a Hp Ha. split; [eapply data_not_queued; [by eapply rep_nodup | done | done] |].
      eapply rep_some; [done |]. rewrite elem_of_app. left. by eapply data_cell.
Qed.

Lemma event_in_frame sleep T m f s e bs :
  fifo_is T m f s -> event_wf e -> event_data m T e bs ->
  wp (snd_seq_fifo_event_in sleep 1 f e)
    (fun r m' => ff_pool r.2 = ff_pool f /\ forall q, q <> ff_pool f -> m_pools m' !! q = m_pools m !! q) m.
Proof.
  intros (P & L & F & R & Ef & Et & Eo) We Hd. pose proof R as [HP HR HT HN HO HB Hch Ht Hcnt HI].
  assert (HFT : F ⊆ T). { intros a Ha. rewrite <- HT, elem_of_app. by right. }
  destruct (data_agree m m T F e bs (outside_refl _ _) HFT Hd) as (ps & S & Ebs).
  assert (HOF : Forall (owned m (ff_pool f)) F) by (rewrite Forall_forall in *; auto).
  unfold snd_seq_fifo_event_in. apply wp_bind. eapply wp_mono.
  { by apply (event_dup_spec sleep 0 (ff_pool f) P e F F ps m). }
  intros [err c] m1 [Fr Post].
  assert (Hp : forall q, q <> ff_pool f -> m_pools m1 !! q = m_pools m !! q) by apply Fr.
  destruct (err <? 0); [by apply wp_ret; destruct (_ =? _) |].
  destruct (negb (ff_tail f =? NULL)) eqn:Etl; cbn [when].
  2: { apply wp_bind, wp_ret, wp_ret. split; [unfold wake_input; by destruct (ff_sleepers _) | done]. }
  assert (Hy : is_Some (m_cells m1 !! ff_tail f)).
  { rewrite Ht in Etl |- *. destruct (last L.*1) as [t |] eqn:El; [| done]. simpl in *.
    assert (HtL : t ∈ cells_of L) by (apply queued_cell; by apply last_Some_elem_of).
    assert (HtF : t ∉ F).
    { pose proof (rep_nodup _ _ _ _ _ _ _ _ R) as N. apply NoDup_app in N as (_ & N & _). by apply N. }
    rewrite (pf_cells _ _ _ _ Fr) by done. eapply rep_some; [exact R |]. rewrite elem_of_app. by left. }
  destruct Hy as [y Hy]. apply wp_bind, (wp_modify_cell _ y); [done |]. apply wp_ret.
  split; [unfold wake_input; by destruct (ff_sleepers _) | done].
Qed.

(** ** All FIFOs *)

(** The cells of the FIFO of each client that has one, and what it holds. *)
Abbreviation mail := (gmap Z (list Z * spec)).

Definition mail_cells (F : mail) : list Z := map_to_list F ≫= (fun x => x.2.1).

Lemma mail_cells_in F c T s a : F !! c = Some (T, s) -> a ∈ T -> a ∈ mail_cells F.
Proof.
  intros Hc Ha. apply list_elem_of_bind. exists (c, (T, s)). split; [done |]. by apply elem_of_map_to_list.
Qed.

Record mail_ok (m : seqmem) (fifos : gmap Z fifo) (F : mail) : Prop := {
  mo_fifo : forall c f, fifos !! c = Some f -> exists T s, F !! c = Some (T, s) /\ fifo_is T m f s;
  mo_dom : forall c T s, F !! c = Some (T, s) -> is_Some (fifos !! c);
  mo_apart : forall c c' T s T' s', c <> c' -> F !! c = Some (T, s) -> F !! c' = Some (T', s') -> T ## T';
  mo_pools : forall c c' f f', c <> c' -> fifos !! c = Some f -> fifos !! c' = Some f' -> ff_pool f <> ff_pool f' }.

(** An event whose data are not in the memory of the FIFOs. *)
Definition letter (m : seqmem) (F : mail) (e : snd_seq_event) (bs : list Z) : Prop :=
  event_wf e /\ event_data m (mail_cells F) e bs.

(** Only the memory of FIFOs changed. *)
Definition same_letters (m : seqmem) (F : mail) (m' : seqmem) (F' : mail) : Prop :=
  outside (mail_cells F) m m' /\ mail_cells F' ⊆ mail_cells F.

Lemma letter_keep m F m' F' e bs : same_letters m F m' F' -> letter m F e bs -> letter m' F' e bs.
Proof. intros [O HT] [We Hd]. split; [done |]. by eapply data_agree. Qed.

Lemma same_letters_refl m F : same_letters m F m F.
Proof. by split. Qed.

Lemma same_letters_trans m1 F1 m2 F2 m3 F3 :
  same_letters m1 F1 m2 F2 -> same_letters m2 F2 m3 F3 -> same_letters m1 F1 m3 F3.
Proof.
  intros [[A1 A2] A3] [[B1 B2] B3]. split; [split; [congruence |] | by etrans].
  intros a Ha. rewrite B2, A2; [done | done |]. auto.
Qed.

(** The FIFO of client [c] takes an event. *)
Lemma mail_in sleep m fifos F c f T s e bs :
  mail_ok m fifos F -> fifos !! c = Some f -> F !! c = Some (T, s) -> letter m F e bs ->
  wp (snd_seq_fifo_event_in sleep 1 f e) (fun r m' =>
    let F' := <[c := (T, (spec_in s e bs).2)]> F in
    r.1 = (spec_in s e bs).1 /\ mail_ok m' (<[c := r.2]> fifos) F' /\ same_letters m F m' F') m.
Proof.
  intros ok Hf HF [We Hd]. destruct (mo_fifo _ _ _ ok _ _ Hf) as (T2 & s2 & HF2 & R). rewrite HF in HF2. injection HF2 as <- <-.
  assert (HT : T ⊆ mail_cells F) by (intros a Ha; by eapply mail_cells_in).
  pose proof (data_agree m m _ T e bs (outside_refl _ _) HT Hd) as Hd'.
  eapply wp_mono; [apply wp_and; [by apply (event_in_rep sleep T m f s e bs) | by apply (event_in_frame sleep T m f s e bs)] |].
  intros [r f'] m' [(Er & R' & O) (Ep & Hp)]. cbn [fst snd] in *. cbv zeta.
  assert (HO : outside (mail_cells F) m m').
  { destruct O as [O1 O2]. split; [done |]. intros a Ha. apply O2. auto. }
  split; [done |]. split; [split | split; [exact HO |]].
  - intros c' g. destruct (decide (c = c')) as [<- | N].
    + rewrite !lookup_insert_eq. intros [= <-]. eauto.
    + rewrite !lookup_insert_ne by done. intros Hg. destruct (mo_fifo _ _ _ ok _ _ Hg) as (T3 & s3 & HF3 & R3).
      exists T3, s3. split; [done |]. eapply fifo_keep; [exact R3 | exact O | by eapply (mo_apart _ _ _ ok c' c) |].
      apply Hp. by eapply (mo_pools _ _ _ ok c' c).
  - intros c' T3 s3. destruct (decide (c = c')) as [<- | N].
    + rewrite !lookup_insert_eq. eauto.
    + rewrite !lookup_insert_ne by done. by apply (mo_dom _ _ _ ok).
  - intros c1 c2 T1 s1 T3 s3 N H1 H2.
    assert (G : forall c' T' s', <[c := (T, (spec_in s e bs).2)]> F !! c' = Some (T', s') -> exists s0, F !! c' = Some (T', s0)).
    { intros c' T' s'. destruct (decide (c = c')) as [<- | N']; [| rewrite lookup_insert_ne by done; eauto].
      rewrite lookup_insert_eq. intros [= <- <-]. eauto. }
    apply G in H1 as [? H1]. apply G in H2 as [? H2]. by eapply (mo_apart _ _ _ ok c1 c2).
  - intros c1 c2 f1 f2 N H1 H2.
    assert (G : forall c' g, <[c := f']> fifos !! c' = Some g -> exists g0, fifos !! c' = Some g0 /\ ff_pool g0 = ff_pool g).
    { intros c' g. destruct (decide (c = c')) as [<- | N']; [| rewrite lookup_insert_ne by done; eauto].
      rewrite lookup_insert_eq. intros [= <-]. eauto. }
    apply G in H1 as (g1 & H1 & <-). apply G in H2 as (g2 & H2 & <-). by eapply (mo_pools _ _ _ ok c1 c2).
  - intros a Ha. apply list_elem_of_bind in Ha as ([c' [T3 s3]] & Ha & Hin). apply elem_of_map_to_list in Hin. cbn in Ha.
    destruct (decide (c = c')) as [<- | N].
    + rewrite lookup_insert_eq in Hin. injection Hin as <- <-. auto.
    + rewrite lookup_insert_ne in Hin by done. by eapply mail_cells_in.
Qed.
