(* ===== verification/SeqRouteSpec.v ===== *)
(** * SeqRouteSpec: where events go

    The delivery of SeqRoute.v refines a routing function on the table of clients and ports
    and on what the FIFOs hold. *)

From S2P Require Import Prelude SeqEvent SeqCells SeqMemory SeqCopy SeqFifo SeqFifoSpec SeqPrioq SeqTimer SeqQueue SeqWorld.
From S2P Require Import SeqPorts SeqRoute SeqMail.
Open Scope Z_scope.
Open Scope state_scope.

(** ** Routing *)

(** Drivers that only answer: what they reply depends on what they are given, and the
    sequencer is as before. *)
Class QuietDrivers (C : Type) `{PortDrivers C} := {
  reply : Z -> snd_seq_event -> bool -> Z -> bool -> Z -> Z;
  port_input_quiet f e direct priv atomic hop w :
    exists t, port_input f e direct priv atomic hop w =
      Some (reply f e direct priv atomic hop, w <| w_core := (w_core w) <| sy_core := t |> |>) }.

Section Spec.
Context {C : Type} `{QuietDrivers C}.
Implicit Types (w : world (sys C)) (S : sys C) (F : mail) (e : snd_seq_event).

Definition a_client S (c : Z) : option client :=
  if (0 <=? c) && (c <? SEQ_MAX_CLIENTS) then sy_clients S !! c else None.

(** The first port of the list with the number. *)
Fixpoint a_find S (num : Z) (l : list Z) : option (Z * port) :=
  match l with
  | [] => None
  | p :: l => match sy_ports S !! p with
              | Some x => if pt_port x =? num then Some (p, x) else a_find S num l
              | None => None
              end
  end.

Definition takes (cl : client) e (filter : Z) : bool :=
  cl_accept_input cl &&
  negb (truth (Z.land (cl_filter cl) FILTER_USE_EVENT) && negb (Z.testbit (cl_event_filter cl) (ev_type e))) &&
  negb (truth filter && negb (truth (Z.land (cl_filter cl) filter))).

Definition a_dest S e (filter : Z) : option client :=
  match a_client S (addr_client (ev_dest e)) with
  | Some cl => if takes cl e filter then Some cl else None
  | None => None
  end.

(** An event at a port. *)
Definition a_hand_over F e (bs : list Z) (atomic : bool) (hop : Z) (cl : client) (x : port) : Z * mail :=
  let d := addr_client (ev_dest e) in
  match cl_type cl with
  | USER_CLIENT => match F !! d with
                   | Some (T, s) => let r := spec_in s e bs in (r.1, <[d := (T, r.2)]> F)
                   | None => (-ENOENT, F)
                   end
  | KERNEL_CLIENT => (if pt_event_input x =? 0 then -ENOENT
                      else reply (pt_event_input x) e (is_direct e) (pt_private_data x) atomic hop, F)
  | NO_CLIENT => (-ENOENT, F)
  end.

Definition a_attempt S F e (bs : list Z) (filter : Z) (atomic : bool) (hop : Z) : Z * mail :=
  match a_dest S e filter with
  | None => (-ENOENT, F)
  | Some cl =>
      match a_find S (addr_port (ev_dest e)) (cl_ports cl) with
      | None => (-ENOENT, F)
      | Some (_, x) => if Z.land (pt_capability x) CAP_WRITE =? CAP_WRITE
                       then a_hand_over F e bs atomic hop cl x else (-EPERM, F)
      end
  end.

(** A failure goes back to the sender, if it wants to know; a failure of that goes nowhere. *)
Definition a_single S F (client : option Z) e (bs : list Z) (filter : Z) (atomic : bool) (hop : Z) : Z * mail :=
  let '(r, F1) := a_attempt S F e bs filter atomic hop in
  if r <? 0 then
    match client with
    | None => (0, F1)
    | Some c =>
        match sy_clients S !! c with
        | Some cl =>
            if negb (truth (Z.land (cl_filter cl) FILTER_BOUNCE)) || negb (cl_accept_input cl) then (0, F1)
            else let '(r2, F2) := a_attempt S F1 (error_event c e r) [] 0 atomic (hop + 1) in
                 (if r2 <? 0 then 0 else r2, F2)
        | None => (0, F1)
        end
    end
  else (r, F1).

(** [for_subscriber] *)
Definition stamp w (s : subscriber) e : snd_seq_event :=
  let e := e <| ev_dest := sb_addr s |> in
  if truth (Z.land (s_flags (sb_info s)) SUBS_TIMESTAMP) then
    match lookup_queue w (s_queue (sb_info s)) with
    | None => e
    | Some q =>
        let e := e <| ev_queue := s_queue (sb_info s) |> <| ev_flags := Z.land (ev_flags e) (255 - TIME_STAMP_MASK) |> in
        if truth (Z.land (s_flags (sb_info s)) SUBS_TIME_REAL)
        then e <| ev_time := snd_seq_timer_get_cur_time (w_now w) (q_timer q) |>
               <| ev_flags := Z.lor (ev_flags e) TIME_STAMP_REAL |>
        else e <| ev_time := Timestamp (snd_seq_timer_get_cur_tick (q_timer q)) (tv_nsec (ev_time e)) |>
    end
  else e.

(** Deliveries one after the other, until one fails: the error, or what [count] makes of the
    results. *)
Fixpoint a_each {A} (deliver : A -> mail -> Z * mail) (count : Z -> Z -> Z) (n : Z) F (l : list A) : Z * mail :=
  match l with
  | [] => (n, F)
  | x :: l => let '(r, F1) := deliver x F in
              if r <? 0 then (r, F1) else a_each deliver count (count n r) F1 l
  end.

Definition a_subscribers w F (client : Z) e (bs : list Z) (atomic : bool) (hop : Z) : Z * mail :=
  let S := w_core w in
  match sy_clients S !! client with
  | None => (-EINVAL, F)
  | Some cl =>
      match a_find S (addr_port (ev_source e)) (cl_ports cl) with
      | None => (-EINVAL, F)
      | Some (_, x) =>
          a_each (fun s F => a_single S F (Some client) (stamp w s e) bs 0 atomic hop) (fun n _ => n + 1) 0 F
            (g_list (pt_export x))
      end
  end.

Definition port_number S (p : Z) : Z := match sy_ports S !! p with Some x => pt_port x | None => 0 end.

Definition a_port_broadcast S F e (bs : list Z) (atomic : bool) (hop : Z) : Z * mail :=
  match a_dest S e FILTER_BROADCAST with
  | None => (0, F)
  | Some cl =>
      a_each (fun p F => a_single S F None (e <| ev_dest := Addr (addr_client (ev_dest e)) (port_number S p mod 256) |>)
                           bs FILTER_BROADCAST atomic hop) (fun n _ => n + 1) 0 F (cl_ports cl)
  end.

(** The event for one of the clients of a broadcast. *)
Definition a_one S e (bs : list Z) (atomic : bool) (hop : Z) (d : Z) F : Z * mail :=
  let e := e <| ev_dest := Addr d (addr_port (ev_dest e)) |> in
  if addr_port (ev_dest e) =? ADDRESS_BROADCAST then a_port_broadcast S F e bs atomic hop
  else a_single S F None e bs FILTER_BROADCAST atomic hop.

Definition a_broadcast S F (client : Z) e (bs : list Z) (atomic : bool) (hop : Z) : Z * mail :=
  a_each (a_one S e bs atomic hop) (fun n r => n + r) 0 F (filter (fun d => d <> client) (seqZ 0 SEQ_MAX_CLIENTS)).

(** The result of a delivery and what the FIFOs hold then. *)
Definition route w F (client : Z) e (bs : list Z) (atomic : bool) (hop : Z) : Z * mail :=
  let S := w_core w in
  let hop := hop + 1 in
  if SEQ_MAX_HOPS <=? hop then (-EMLINK, F)
  else if (ev_queue e =? ADDRESS_SUBSCRIBERS) || (addr_client (ev_dest e) =? ADDRESS_SUBSCRIBERS)
  then a_subscribers w F client e bs atomic hop
  else if (ev_queue e =? ADDRESS_BROADCAST) || (addr_client (ev_dest e) =? ADDRESS_BROADCAST)
  then a_broadcast S F client e bs atomic hop
  else if SEQ_MAX_CLIENTS <=? addr_client (ev_dest e) then (0, F)
  else if addr_port (ev_dest e) =? ADDRESS_BROADCAST then a_port_broadcast S F e bs atomic hop
  else a_single S F (Some client) e bs 0 atomic hop.

(** ** What a delivery leaves alone *)

(** A client up to what its FIFO holds and the count of lost events. *)
Definition empty_fifo_of (f : option fifo) : option fifo := (fun _ => Fifo 0 0 0 0 0 false 0) <$> f.
Definition bare (cl : client) : client := cl <| cl_fifo := empty_fifo_of (cl_fifo cl) |> <| cl_event_lost := 0 |>.

Record calm w w' : Prop := {
  ca_queues : w_queues w' = w_queues w;
  ca_now : w_now w' = w_now w;
  ca_interrupt : w_interrupt w' = w_interrupt w;
  ca_clients : bare <$> sy_clients (w_core w') = bare <$> sy_clients (w_core w);
  ca_ports : sy_ports (w_core w') = sy_ports (w_core w);
  ca_modules : sy_modules (w_core w') = sy_modules (w_core w);
  ca_mutexes : sy_mutexes (w_core w') = sy_mutexes (w_core w);
  ca_sysclient : sy_sysclient (w_core w') = sy_sysclient (w_core w);
  ca_announce : sy_announce (w_core w') = sy_announce (w_core w) }.

Lemma calm_refl w : calm w w.
Proof. done. Qed.

Lemma calm_trans w1 w2 w3 : calm w1 w2 -> calm w2 w3 -> calm w1 w3.
Proof. intros [] []. split; congruence. Qed.

Lemma calm_client w w' c cl' : calm w w' -> sy_clients (w_core w') !! c = Some cl' ->
  exists cl, sy_clients (w_core w) !! c = Some cl /\ bare cl' = bare cl.
Proof.
  intros K Hc. pose proof (ca_clients _ _ K) as E. apply (f_equal (lookup c)) in E. rewrite !lookup_fmap, Hc in E.
  destruct (sy_clients (w_core w) !! c) as [cl |]; [| done]. apply (inj Some) in E. eauto.
Qed.

Lemma calm_client_back w w' c cl : calm w w' -> sy_clients (w_core w) !! c = Some cl ->
  exists cl', sy_clients (w_core w') !! c = Some cl' /\ bare cl' = bare cl.
Proof.
  intros K Hc. pose proof (ca_clients _ _ K) as E. apply (f_equal (lookup c)) in E. rewrite !lookup_fmap, Hc in E.
  destruct (sy_clients (w_core w') !! c) as [cl' |]; [| done]. apply (inj Some) in E. eauto.
Qed.

(** The FIFOs of a world, the invariant of a delivery, and what it ends in. *)
Definition fifos w : gmap Z fifo := omap cl_fifo (sy_clients (w_core w)).

Record sys_ok w F : Prop := {
  so_mail : mail_ok (w_mem w) (fifos w) F;
  so_ports : forall c cl p, sy_clients (w_core w) !! c = Some cl -> p ∈ cl_ports cl ->
    p <> NULL /\ is_Some (sy_ports (w_core w) !! p) }.

Definition ends w F (r : Z * mail) (rc : Z) w' : Prop :=
  rc = r.1 /\ calm w w' /\ sys_ok w' r.2 /\ same_letters (w_mem w) F (w_mem w') r.2.

(** Routing looks at the table only up to [bare]. *)
Lemma bare_fields cl cl' : bare cl' = bare cl ->
  cl_type cl' = cl_type cl /\ cl_accept_input cl' = cl_accept_input cl /\ cl_accept_output cl' = cl_accept_output cl /\
  cl_filter cl' = cl_filter cl /\ cl_event_filter cl' = cl_event_filter cl /\ cl_ports cl' = cl_ports cl /\
  (is_Some (cl_fifo cl') <-> is_Some (cl_fifo cl)).
Proof.
  destruct cl as [? ? ? ? ? ? ? ? ? ? ? f1], cl' as [? ? ? ? ? ? ? ? ? ? ? f2]. unfold bare, empty_fifo_of. cbn. intros E. injection E as ???????????. subst. split_and!; try done.
  destruct f1, f2; done.
Qed.

Lemma calm_takes cl cl' e filter : bare cl' = bare cl -> takes cl' e filter = takes cl e filter.
Proof. intros (_ & Ea & _ & Ef & Ee & _)%bare_fields. unfold takes. by rewrite Ea, Ef, Ee. Qed.

Lemma calm_find w w' num l : calm w w' -> a_find (w_core w') num l = a_find (w_core w) num l.
Proof. intros K. induction l as [| p l IH]; cbn [a_find]; [done |]. by rewrite (ca_ports _ _ K), IH. Qed.

(** ** Rules *)

Lemma wp_sys_get {A} (f : sys C -> A) Q w : Q (f (w_core w)) w -> wp (sys_get f) Q w.
Proof. done. Qed.

Lemma wp_sys_do f Q w : Q tt (w <| w_core := f (w_core w) |>) -> wp (sys_do f) Q w.
Proof. done. Qed.

Lemma wp_port_at p x (Q : port -> world (sys C) -> Prop) w : sy_ports (w_core w) !! p = Some x -> Q x w -> wp (port_at p) Q w.
Proof. intros Hp HQ. unfold port_at. apply wp_bind, wp_sys_get. unfold id. by rewrite Hp. Qed.

Lemma wp_client_at c x (Q : client -> world (sys C) -> Prop) w : sy_clients (w_core w) !! c = Some x -> Q x w -> wp (client_at c) Q w.
Proof. intros Hp HQ. unfold wp, client_at, lookup_client. by rewrite Hp. Qed.

(** Locks do not disturb. *)
Definition same_but_locks w w' : Prop := calm w w' /\ w_mem w' = w_mem w /\ fifos w' = fifos w.

Lemma locks_ok w w' F : same_but_locks w w' -> sys_ok w F -> sys_ok w' F.
Proof.
  intros (K & Em & Ef) [A B]. split; [by rewrite Em, Ef |]. intros c cl' p Hc Hp.
  destruct (calm_client _ _ _ _ K Hc) as (cl & Hc2 & (_ & _ & _ & _ & _ & El & _)%bare_fields). rewrite (ca_ports _ _ K).
  eapply B; [done |]. by rewrite <- El.
Qed.

Lemma wp_lock l (Q : unit -> world (sys C) -> Prop) w : (forall w', same_but_locks w w' -> sy_clients (w_core w') = sy_clients (w_core w) -> Q tt w') -> wp (spin_lock l) Q w.
Proof. intros HQ. apply wp_sys_do, HQ; done. Qed.

Lemma wp_unlock l (Q : unit -> world (sys C) -> Prop) w : (forall w', same_but_locks w w' -> sy_clients (w_core w') = sy_clients (w_core w) -> Q tt w') -> wp (spin_unlock l) Q w.
Proof. intros HQ. apply wp_sys_do, HQ; done. Qed.

Lemma wp_use_ptr c (Q : bool -> world (sys C) -> Prop) w :
  Q (bool_decide (is_Some (a_client (w_core w) c))) w -> wp (snd_seq_client_use_ptr c) Q w.
Proof.
  intros HQ. unfold snd_seq_client_use_ptr. apply wp_bind. unfold wp, get. apply wp_ret.
  unfold a_client in HQ. unfold lookup_client. destruct (_ && _); [done |].
  by rewrite bool_decide_eq_false_2 in HQ by (by intros [? ?]).
Qed.

(** ** One delivery *)

Lemma a_client_calm w w' c : calm w w' -> bare <$> a_client (w_core w') c = bare <$> a_client (w_core w) c.
Proof.
  intros K. unfold a_client. destruct (_ && _); [| done]. rewrite <- !lookup_fmap. by rewrite (ca_clients _ _ K).
Qed.

Lemma a_attempt_calm w w' F e bs filter atomic hop :
  calm w w' -> a_attempt (w_core w') F e bs filter atomic hop = a_attempt (w_core w) F e bs filter atomic hop.
Proof.
  intros K. unfold a_attempt, a_dest. pose proof (a_client_calm w w' (addr_client (ev_dest e)) K) as E.
  destruct (a_client (w_core w') _) as [cl' |], (a_client (w_core w) _) as [cl |]; try done.
  apply (inj Some) in E. rewrite (calm_takes _ _ _ _ E). destruct (takes cl e filter); [| done].
  apply bare_fields in E as (Et & _ & _ & _ & _ & -> & _). rewrite (calm_find w w') by done.
  destruct (a_find _ _ _) as [[p x] |]; [| done]. unfold a_hand_over. by rewrite Et.
Qed.

Lemma a_single_calm w w' F client e bs filter atomic hop :
  calm w w' -> a_single (w_core w') F client e bs filter atomic hop = a_single (w_core w) F client e bs filter atomic hop.
Proof.
  intros K. unfold a_single. rewrite (a_attempt_calm _ _ _ _ _ _ _ _ K).
  destruct (a_attempt _ _ _ _ _ _ _) as [r F1]. destruct (r <? 0); [| done]. destruct client as [c |]; [| done].
  rewrite (a_attempt_calm _ _ _ _ _ _ _ _ K).
  destruct (sy_clients (w_core w') !! c) as [cl' |] eqn:E.
  - destruct (calm_client _ _ _ _ K E) as (cl & -> & (_ & -> & _ & -> & _)%bare_fields). done.
  - destruct (sy_clients (w_core w) !! c) as [cl |] eqn:E2; [| done].
    destruct (calm_client_back _ _ _ _ K E2) as (cl' & ? & _). congruence.
Qed.

Lemma ends_now w F r w' : ends w F r r.1 w' -> ends w F (r.1, r.2) r.1 w'.
Proof. by destruct r. Qed.

Lemma ends_refl w F rc : sys_ok w F -> ends w F (rc, F) rc w.
Proof. intros ok. split_and!; [done | apply calm_refl | done | apply same_letters_refl]. Qed.

(** Locking before, unlocking after. *)
Lemma ends_locks w w1 w2 w3 F r rc : same_but_locks w w1 -> ends w1 F r rc w2 -> same_but_locks w2 w3 -> ends w F r rc w3.
Proof.
  intros (K1 & E1 & _) (-> & K2 & ok2 & L2) L3. pose proof L3 as (K3 & E3 & _). split_and!.
  - done.
  - by do 2 (eapply calm_trans; [done |]).
  - by eapply locks_ok.
  - rewrite E3. by rewrite <- E1.
Qed.

Lemma same_but_locks_refl w : same_but_locks w w.
Proof. split_and!; [apply calm_refl | done | done]. Qed.

Definition all_ports w (l : list Z) : Prop := forall p, p ∈ l -> p <> NULL /\ is_Some (sy_ports (w_core w) !! p).

Lemma wp_find_port num l (Q : Z -> world (sys C) -> Prop) w : all_ports w l ->
  Q (default NULL (fst <$> a_find (w_core w) num l)) w -> wp (find_port num l) Q w.
Proof.
  induction l as [| p l IH]; intros Hl HQ; cbn [find_port a_find] in *; [by apply wp_ret |].
  destruct (Hl p ltac:(left)) as [Hn [x Hx]]. rewrite Hx in HQ. apply wp_bind, (wp_port_at _ x); [done |].
  destruct (pt_port x =? num); [by apply wp_ret |]. apply IH; [| done]. intros q Hq. apply Hl. by right.
Qed.

Lemma a_find_in w num l p x : a_find (w_core w) num l = Some (p, x) -> p ∈ l /\ sy_ports (w_core w) !! p = Some x.
Proof.
  induction l as [| q l IH]; cbn [a_find]; [done |]. destruct (sy_ports (w_core w) !! q) as [y |] eqn:E; [| done].
  destruct (pt_port y =? num); [intros [= <- <-]; split; [left | done] | intros [? ?]%IH; split; [by right | done]].
Qed.

(** The port, locked, or NULL. *)
Lemma wp_port_use_ptr w F c cl num (Q : Z -> world (sys C) -> Prop) :
  sys_ok w F -> sy_clients (w_core w) !! c = Some cl ->
  (forall w', same_but_locks w w' -> sy_clients (w_core w') = sy_clients (w_core w) ->
     match a_find (w_core w) num (cl_ports cl) with Some (p, _) => Q p w' | None => Q NULL w' end) ->
  wp (snd_seq_port_use_ptr c num) Q w.
Proof.
  intros ok Hc HQ. assert (Hl : all_ports w (cl_ports cl)) by (intros p Hp; by eapply so_ports).
  unfold snd_seq_port_use_ptr. eapply wp_bind, wp_client_at; [done |]. apply wp_bind, wp_lock. intros w1 L1 E1.
  assert (Ep : sy_ports (w_core w1) = sy_ports (w_core w)) by apply L1.
  apply wp_bind, wp_find_port; [intros p Hp; rewrite Ep; by apply Hl |].
  rewrite (calm_find w w1 num (cl_ports cl)) by apply L1.
  destruct (a_find (w_core w) num (cl_ports cl)) as [[p x] |] eqn:Ef; cbn.
  - apply a_find_in in Ef as [Hp _]. destruct (Hl p Hp) as [Hn _]. rewrite (proj2 (Z.eqb_neq _ _) Hn). apply wp_ret.
    by apply HQ.
  - apply wp_bind. unfold snd_seq_ports_unlock. eapply wp_bind, wp_client_at; [by rewrite E1 |].
    apply wp_unlock. intros w2 (K2 & Em2 & Ef2) E2. apply wp_ret, HQ; [| by rewrite E2].
    destruct L1 as (K1 & Em1 & Ef1). split_and!; [by eapply calm_trans | congruence | congruence].
Qed.

(** A FIFO takes an event. *)
Lemma wp_fifo_event_in w F c cl e bs (Q : Z -> world (sys C) -> Prop) :
  sys_ok w F -> sy_clients (w_core w) !! c = Some cl -> letter (w_mem w) F e bs ->
  (forall w' rc, ends w F (match F !! c with
                           | Some (T, s) => let r := spec_in s e bs in (r.1, <[c := (T, r.2)]> F)
                           | None => (-ENOENT, F) end) rc w' -> Q rc w') ->
  wp (fifo_event_in c e) Q w.
Proof.
  intros ok Hc Hl HQ. unfold fifo_event_in. eapply wp_bind, wp_client_at; [done |].
  destruct (cl_fifo cl) as [f |] eqn:Ef.
  - assert (Hf : fifos w !! c = Some f) by (unfold fifos; rewrite lookup_omap, Hc; cbn; done).
    destruct (mo_fifo _ _ _ (so_mail _ _ ok) _ _ Hf) as (T & s & HF & _). rewrite HF in HQ.
    apply wp_bind, wp_in_mem. eapply wp_mono; [by eapply (mail_in _ _ _ _ c f T s e bs (so_mail _ _ ok)) |].
    intros [rc f'] m' (Er & ok' & L). cbn [fst snd] in *.
    apply wp_bind. unfold set_client. eapply wp_bind, wp_client_at; [done |]. apply wp_sys_do, wp_ret.
    match goal with |- Q _ ?st => set (w' := st) end.
    assert (K : calm w w').
    { split; try done. cbn. rewrite fmap_insert. apply insert_id. rewrite lookup_fmap, Hc. cbn.
      unfold bare. cbn. by rewrite Ef. }
    apply HQ. split_and!; [done | done | | done]. split.
    + replace (fifos w') with (<[c := f']> (fifos w)); [done |]. unfold fifos. cbn.
      apply map_eq. intros d. rewrite lookup_omap. destruct (decide (c = d)) as [<- | N].
      * by rewrite !lookup_insert_eq.
      * rewrite !lookup_insert_ne, lookup_omap by done. done.
    + intros d cl' p Hd Hp. destruct (calm_client _ _ _ _ K Hd) as (cl0 & Hd0 & (_ & _ & _ & _ & _ & El & _)%bare_fields).
      eapply (so_ports _ _ ok d cl0 p Hd0). by rewrite <- El.
  - apply wp_ret. assert (HF : F !! c = None).
    { apply eq_None_not_Some. intros [[T s] HF]. destruct (mo_dom _ _ _ (so_mail _ _ ok) _ _ _ HF) as [f Hf].
      unfold fifos in Hf. rewrite lookup_omap, Hc in Hf. cbn in Hf. congruence. }
    rewrite HF in HQ. apply HQ. by apply ends_refl.
Qed.

Lemma quiet_calm w t : same_but_locks w (w <| w_core := (w_core w) <| sy_core := t |> |>).
Proof. done. Qed.

Lemma wp_hand_over w F cl p x e bs atomic hop (Q : Z -> world (sys C) -> Prop) :
  let d := addr_client (ev_dest e) in
  sys_ok w F -> sy_clients (w_core w) !! d = Some cl -> sy_ports (w_core w) !! p = Some x -> letter (w_mem w) F e bs ->
  (forall w' rc, ends w F (a_hand_over F e bs atomic hop cl x) rc w' -> Q rc w') ->
  wp (hand_over d p e (is_direct e) atomic hop) Q w.
Proof.
  intros d ok Hc Hp Hl HQ. unfold hand_over. eapply wp_bind, wp_client_at; [done |]. unfold a_hand_over in HQ.
  destruct (cl_type cl).
  - apply wp_ret, HQ. by apply ends_refl.
  - by eapply wp_fifo_event_in.
  - eapply wp_bind, wp_port_at; [done |]. destruct (pt_event_input x =? 0).
    + apply wp_ret, HQ. by apply ends_refl.
    + destruct (port_input_quiet (pt_event_input x) e (is_direct e) (pt_private_data x) atomic hop w) as [t E].
      unfold wp. rewrite E. apply HQ. eapply (ends_locks _ w); [apply same_but_locks_refl | by apply ends_refl | apply quiet_calm].
Qed.

Lemma wp_dest_client w e filter (Q : option Z -> world (sys C) -> Prop) :
  match a_dest (w_core w) e filter with
  | Some cl => sy_clients (w_core w) !! addr_client (ev_dest e) = Some cl -> Q (Some (addr_client (ev_dest e))) w
  | None => Q None w
  end -> wp (get_event_dest_client e filter) Q w.
Proof.
  intros HQ. unfold get_event_dest_client. apply wp_bind, wp_use_ptr. unfold a_dest in HQ.
  destruct (a_client (w_core w) (addr_client (ev_dest e))) as [cl |] eqn:E; [| by apply wp_ret].
  assert (Hc : sy_clients (w_core w) !! addr_client (ev_dest e) = Some cl).
  { unfold a_client in E. by destruct (_ && _). }
  rewrite bool_decide_eq_true_2 by eauto. cbn [negb]. eapply wp_bind, wp_client_at; [done |].
  unfold takes in HQ. destruct (cl_accept_input cl); cbn [negb andb] in *; [| by apply wp_ret].
  destruct (truth (Z.land (cl_filter cl) FILTER_USE_EVENT) && negb (Z.testbit (cl_event_filter cl) (ev_type e)));
    cbn [negb andb] in *; [by apply wp_ret |].
  destruct (truth filter && negb (truth (Z.land (cl_filter cl) filter))); cbn [negb] in *; apply wp_ret; auto.
Qed.

Lemma letter_locks w w' F e bs : same_but_locks w w' -> letter (w_mem w) F e bs -> letter (w_mem w') F e bs.
Proof. by intros (_ & -> & _). Qed.

Definition plain e : Prop := ev_type e <> EVENT_KERNEL_QUOTE.

Lemma wp_attempt w F e bs filter atomic hop (Q : Z * bool * snd_seq_event -> world (sys C) -> Prop) :
  sys_ok w F -> letter (w_mem w) F e bs -> plain e ->
  (forall w' rc, ends w F (a_attempt (w_core w) F e bs filter atomic hop) rc w' -> Q (rc, false, e) w') ->
  wp (deliver_attempt e filter atomic hop) Q w.
Proof.
  intros ok Hl Hp HQ. unfold a_attempt in HQ. unfold deliver_attempt. apply wp_bind, wp_dest_client.
  destruct (a_dest (w_core w) e filter) as [cl |]; [| by apply wp_ret, HQ, ends_refl]. intros Hc.
  eapply wp_bind, wp_port_use_ptr; [done | done |]. intros w1 L1 E1.
  destruct (a_find (w_core w) (addr_port (ev_dest e)) (cl_ports cl)) as [[p x] |] eqn:Ef.
  2: { rewrite Z.eqb_refl. apply wp_ret, HQ.
       eapply ends_locks; [apply same_but_locks_refl | by apply ends_refl | done]. }
  apply a_find_in in Ef as [Hin Hx]. destruct (so_ports _ _ ok _ _ _ Hc Hin) as [Hn _].
  rewrite (proj2 (Z.eqb_neq _ _) Hn). assert (Hx1 : sy_ports (w_core w1) !! p = Some x) by (by rewrite (ca_ports _ _ (proj1 L1))).
  apply wp_bind. unfold check_port_perm. eapply wp_bind, wp_port_at; [exact Hx1 |]. apply wp_ret.
  (* the unlocking *)
  assert (Hend : forall rc w2 r, ends w1 F r rc w2 -> (forall w', ends w F r rc w' -> Q (rc, false, e) w') ->
    wp (snd_seq_ports_unlock (addr_client (ev_dest e));;; ret (rc, false, e)) Q w2).
  { intros rc w2 r He Hq. apply wp_bind. unfold snd_seq_ports_unlock.
    assert (Hc1 : sy_clients (w_core w1) !! addr_client (ev_dest e) = Some cl) by by rewrite E1.
    destruct (calm_client_back _ _ _ _ (proj1 (proj2 He)) Hc1) as (cl' & Hc' & _).
    eapply wp_bind, wp_client_at; [exact Hc' |]. apply wp_unlock. intros w3 L3 _. apply wp_ret, Hq.
    by eapply ends_locks. }
  apply wp_bind. destruct (Z.land (pt_capability x) CAP_WRITE =? CAP_WRITE); cbn [negb].
  2: { apply wp_ret. eapply Hend; [apply ends_refl; by eapply locks_ok | intros; by apply HQ]. }
  rewrite (proj2 (Z.eqb_neq _ _) Hp). apply wp_bind. cbv zeta. eapply (wp_hand_over w1 F cl p x e bs).
  - by eapply locks_ok.
  - by rewrite E1.
  - done.
  - by eapply letter_locks.
  - intros w2 rc He. apply wp_ret. eapply Hend; [exact He | intros; by apply HQ].
Qed.

(** An error event is a letter without data. *)
Definition byte_addr (a : snd_seq_addr) : Prop := is_byte (addr_client a) /\ is_byte (addr_port a).

Lemma error_letter m F c e err :
  is_byte c -> event_wf e -> is_u32 (event_address e) -> letter m F (error_event c e err) [] /\ plain (error_event c e err).
Proof.
  intros Hc [Hh Hw] Ha. apply Forall_cons in Hh as [_ Hh]. do 3 apply Forall_cons in Hh as [_ Hh].
  apply Forall_cons in Hh as [_ Hh]. apply Forall_cons in Hh as [Hsp Hh]. apply Forall_cons in Hh as [Hdc Hh].
  apply Forall_cons in Hh as [Hdp _]. split; [| done]. split; [| by exists []]. unfold is_byte in *.
  split; cbn; repeat (apply Forall_cons; split); try apply Forall_nil; try done; unfold is_u32, UINT_MAX, is_byte; try lia.
  unfold quote_word. pose proof (Z.mod_pos_bound (- err) 65536). lia.
Qed.

Lemma wp_single w F client e bs filter atomic hop (Q : Z -> world (sys C) -> Prop) :
  sys_ok w F -> letter (w_mem w) F e bs -> plain e -> is_u32 (event_address e) ->
  (forall c, client = Some c -> is_byte c /\ is_Some (sy_clients (w_core w) !! c)) ->
  (forall w' rc, ends w F (a_single (w_core w) F client e bs filter atomic hop) rc w' -> Q rc w') ->
  wp (snd_seq_deliver_single_event client e filter atomic hop) Q w.
Proof.
  intros ok Hl Hp Ha Hcl HQ. unfold snd_seq_deliver_single_event, a_single in *. cbn [single_event].
  apply wp_bind. eapply wp_attempt; [done | done | done |]. intros w1 rc He.
  destruct (a_attempt (w_core w) F e bs filter atomic hop) as [r F1] eqn:Er. pose proof He as (-> & K1 & ok1 & L1).
  cbn [fst snd] in *. destruct (r <? 0) eqn:Hr; [| apply wp_ret; by apply HQ].
  destruct client as [c |]; [| apply wp_ret, HQ; split_and!; done].
  destruct (Hcl c eq_refl) as [Hb [cl Hc]]. rewrite Hc in HQ.
  destruct (calm_client_back _ _ _ _ K1 Hc) as (cl1 & Hc1 & (_ & Ein & _ & Efl & _)%bare_fields).
  cbn [bounce_error_event]. eapply wp_bind, wp_client_at; [exact Hc1 |]. rewrite Efl, Ein.
  destruct (_ || _); [apply wp_ret, HQ; split_and!; done |].
  destruct (error_letter (w_mem w1) F1 c e r Hb (proj1 Hl) Ha) as [Hl2 Hp2].
  apply wp_bind, wp_bind. eapply wp_attempt; [done | exact Hl2 | done |]. intros w2 rc2 He2.
  rewrite (a_attempt_calm _ _ _ _ _ _ _ _ K1) in He2.
  destruct (a_attempt (w_core w) F1 (error_event c e r) [] 0 atomic (hop + 1)) as [r2 F2].
  pose proof He2 as (-> & K2 & ok2 & L2). cbn [fst snd] in *.
  assert (Hend : forall rc, ends w F (rc, F2) rc w2).
  { intros rc. split_and!; [done | by eapply calm_trans | done | by eapply same_letters_trans]. }
  destruct (r2 <? 0) eqn:Hr2.
  - cbn [bounce_error_event]. apply wp_ret. cbn [Z.ltb Z.compare when]. apply wp_bind, wp_ret, wp_ret, HQ, Hend.
  - apply wp_ret. rewrite Hr2. apply wp_bind, wp_ret, wp_ret, HQ, Hend.
Qed.

(** ** Deliveries to many *)

(** The clocks of queues show times of 32 bits. *)
Definition clocks_ok w : Prop := forall id q, lookup_queue w id = Some q ->
  is_u32 (tv_sec (snd_seq_timer_get_cur_time (w_now w) (q_timer q))) /\
  is_u32 (tv_nsec (snd_seq_timer_get_cur_time (w_now w) (q_timer q))) /\
  is_u32 (snd_seq_timer_get_cur_tick (q_timer q)).

Definition subscriber_ok (s : subscriber) : Prop := byte_addr (sb_addr s) /\ is_byte (s_queue (sb_info s)).

Lemma wf_with_dest e a : byte_addr a -> event_wf e -> event_wf (e <| ev_dest := a |>).
Proof. intros [? ?] [Hh Hw]. split; [| done]. cbn. rewrite !Forall_cons in *. tauto. Qed.

Lemma wf_stamped e q fl t : is_byte q -> is_byte fl -> is_u32 (tv_sec t) -> is_u32 (tv_nsec t) -> event_wf e ->
  event_wf (e <| ev_queue := q |> <| ev_flags := fl |> <| ev_time := t |>).
Proof. intros ???? [Hh Hw]. split; cbn; rewrite !Forall_cons in *; tauto. Qed.

Lemma byte_check (P : Z -> bool) a : forallb P (seqZ 0 256) = true -> is_byte a -> P a = true.
Proof. rewrite forallb_forall. intros HP Ha. apply HP, list_elem_of_In, elem_of_seqZ. unfold is_byte in Ha. lia. Qed.

Lemma byte_flags a : is_byte a ->
  is_byte (Z.land a (255 - TIME_STAMP_MASK)) /\ is_byte (Z.lor (Z.land a (255 - TIME_STAMP_MASK)) TIME_STAMP_REAL).
Proof.
  intros Ha. unfold is_byte.
  pose proof (byte_check (fun a => (0 <=? Z.land a 254) && (Z.land a 254 <? 256)) a eq_refl Ha) as H1.
  pose proof (byte_check (fun a => (0 <=? Z.lor (Z.land a 254) 1) && (Z.lor (Z.land a 254) 1 <? 256)) a eq_refl Ha) as H2.
  cbn in H1, H2. unfold TIME_STAMP_MASK, TIME_STAMP_REAL. change (255 - 1) with 254. lia.
Qed.

Lemma land_stamp f : Z.land (Z.land f (255 - TIME_STAMP_MASK)) EVENT_LENGTH_MASK = Z.land f EVENT_LENGTH_MASK.
Proof. by rewrite <- Z.land_assoc. Qed.

Lemma lor_stamp f : Z.land (Z.lor f TIME_STAMP_REAL) EVENT_LENGTH_MASK = Z.land f EVENT_LENGTH_MASK.
Proof. rewrite Z.land_lor_distr_l. by rewrite Z.lor_0_r. Qed.

Lemma data_same m T e e' bs : ev_d0 e' = ev_d0 e -> ev_d1 e' = ev_d1 e ->
  Z.land (ev_flags e') EVENT_LENGTH_MASK = Z.land (ev_flags e) EVENT_LENGTH_MASK -> event_data m T e bs -> event_data m T e' bs.
Proof.
  intros E0 E1 Ef (ps & Hs & Hc). exists ps. split; [| done].
  unfold event_source, is_chained, event_cells, is_variable, data_len, ext_len, ext_ptr in *. by rewrite E0, E1, Ef.
Qed.

Lemma stamp_letter w m F s e bs : clocks_ok w -> subscriber_ok s -> letter m F e bs -> letter m F (stamp w s e) bs.
Proof.
  intros Hk [Hd Hq] [We Hdt]. pose proof (wf_with_dest e _ Hd We) as W1.
  assert (Hfl : is_byte (ev_flags e)) by (destruct We as [Hh _]; rewrite !Forall_cons in Hh; tauto).
  assert (Hns : is_u32 (tv_nsec (ev_time e))) by (destruct We as [_ Hw]; rewrite !Forall_cons in Hw; tauto).
  destruct (byte_flags _ Hfl) as [Hf1 Hf2].
  unfold stamp. cbv zeta. destruct (truth _); [| by split].
  destruct (lookup_queue w (s_queue (sb_info s))) as [q |] eqn:Eq; [| by split].
  destruct (Hk _ _ Eq) as (K1 & K2 & K3). destruct (truth _).
  - split.
    + apply (wf_stamped (e <| ev_dest := sb_addr s |>) (s_queue (sb_info s))
        (Z.lor (Z.land (ev_flags e) (255 - TIME_STAMP_MASK)) TIME_STAMP_REAL)); done.
    + eapply data_same; [.. | exact Hdt]; [done | done |]. cbn. by rewrite lor_stamp, land_stamp.
  - split.
    + apply (wf_stamped (e <| ev_dest := sb_addr s |>) (s_queue (sb_info s)) (Z.land (ev_flags e) (255 - TIME_STAMP_MASK))
        (Timestamp _ _)); done.
    + eapply data_same; [.. | exact Hdt]; [done | done |]. cbn. by rewrite land_stamp.
Qed.

Lemma stamp_plain w s e : plain e -> plain (stamp w s e).
Proof. unfold stamp, plain. cbv zeta. destruct (truth _); [| done]. destruct (lookup_queue _ _); [| done]. by destruct (truth _). Qed.

Lemma stamp_calm w w' s e : calm w w' -> stamp w' s e = stamp w s e.
Proof. intros K. unfold stamp, lookup_queue. by rewrite (ca_queues _ _ K), (ca_now _ _ K). Qed.

Lemma stamp_dest w s e a : stamp w s (e <| ev_dest := a |>) = stamp w s e.
Proof. done. Qed.

Lemma wp_for_subscriber w s e (Q : snd_seq_event -> world (sys C) -> Prop) : Q (stamp w s e) w -> wp (for_subscriber s e) Q w.
Proof.
  intros HQ. unfold for_subscriber, stamp in *. cbv zeta in *. destruct (truth _); [| by apply wp_ret].
  apply wp_bind. unfold wp at 1, queueptr. destruct (lookup_queue w (s_queue (sb_info s))) as [q |] eqn:Eq; cbn.
  - apply wp_bind, (wp_queue_at _ q); [done |]. apply wp_bind. unfold wp at 1, now. apply wp_ret. by destruct (truth _).
  - by apply wp_ret.
Qed.

Lemma a_each_ext {A} (f g : A -> mail -> Z * mail) count l : forall n F,
  (forall x F, x ∈ l -> f x F = g x F) -> a_each f count n F l = a_each g count n F l.
Proof.
  induction l as [| x l IH]; intros n F E; cbn [a_each]; [done |]. rewrite E by left. destruct (g x F) as [r F1].
  destruct (r <? 0); [done |]. apply IH. intros y F2 Hy. apply E. by right.
Qed.

(** One delivery, then the rest. *)
Lemma ends_step w F F1 r r2 rc w1 w' : ends w F (r, F1) r w1 -> ends w1 F1 r2 rc w' -> ends w F r2 rc w'.
Proof.
  intros (_ & K1 & _ & L1) (-> & K2 & ok2 & L2). split_and!; [done | by eapply calm_trans | done | by eapply same_letters_trans].
Qed.

Context (address_u32 : forall e, is_u32 (event_address e)).

Lemma wp_subscribers_loop client e0 bs atomic hop (Q : Z -> world (sys C) -> Prop) l : forall w F e n,
  sys_ok w F -> letter (w_mem w) F e0 bs -> plain e0 -> is_byte client -> is_Some (sy_clients (w_core w) !! client) ->
  clocks_ok w -> Forall subscriber_ok l -> (e = e0 \/ exists a, e = e0 <| ev_dest := a |>) ->
  (forall w' rc, ends w F (a_each (fun s F => a_single (w_core w) F (Some client) (stamp w s e0) bs 0 atomic hop)
     (fun n _ => n + 1) n F l) rc w' -> Q rc w') ->
  wp (subscribers_loop client e0 e n l atomic hop) Q w.
Proof.
  induction l as [| s l IH]; intros w F e n ok Hl Hp Hb Hc Hk HL He HQ; cbn [subscribers_loop a_each] in *.
  { by apply wp_ret, HQ, ends_refl. }
  apply Forall_cons in HL as [Hs HL]. assert (Es : stamp w s e = stamp w s e0) by by destruct He as [-> | [a ->]].
  apply wp_bind, wp_for_subscriber. rewrite Es. apply wp_bind.
  eapply wp_single; [done | by apply stamp_letter | by apply stamp_plain | done | intros c [= <-]; done |].
  intros w1 rc He1. destruct (a_single (w_core w) F (Some client) (stamp w s e0) bs 0 atomic hop) as [r F1].
  pose proof He1 as (-> & K1 & ok1 & L1). cbn [fst snd] in *. destruct (r <? 0) eqn:Hr; [by apply wp_ret, HQ |].
  eapply (IH w1 F1); try done.
  - by eapply letter_keep.
  - destruct Hc as [cl Hc]. destruct (calm_client_back _ _ _ _ K1 Hc) as (cl1 & ? & _). eauto.
  - intros id q Hq. rewrite (ca_now _ _ K1). apply (Hk id q). unfold lookup_queue in *. by rewrite (ca_queues _ _ K1) in Hq.
  - unfold stamp. cbv zeta. destruct (truth (Z.land (s_flags (sb_info s)) SUBS_TIMESTAMP)); [by left | right; eauto].
  - intros w' rc He2. apply HQ. eapply ends_step; [exact He1 |].
    erewrite a_each_ext; [exact He2 |]. intros s' F' _. cbn. rewrite (stamp_calm _ _ _ _ K1). symmetry. by apply a_single_calm.
Qed.

(** The subscribers of the ports of clients have addresses and queues of a byte. *)
Definition table_ok w : Prop := forall c cl p x s, sy_clients (w_core w) !! c = Some cl -> p ∈ cl_ports cl ->
  sy_ports (w_core w) !! p = Some x -> s ∈ g_list (pt_export x) -> subscriber_ok s.

Lemma wp_deliver_to_subscribers w F client e bs atomic hop (Q : Z -> world (sys C) -> Prop) :
  sys_ok w F -> letter (w_mem w) F e bs -> plain e -> is_byte client -> is_Some (sy_clients (w_core w) !! client) ->
  clocks_ok w -> table_ok w ->
  (forall w' rc, ends w F (a_subscribers w F client e bs atomic hop) rc w' -> Q rc w') ->
  wp (deliver_to_subscribers client e atomic hop) Q w.
Proof.
  intros ok Hl Hp Hb [cl Hc] Hk Ht HQ. unfold a_subscribers in HQ. rewrite Hc in HQ. unfold deliver_to_subscribers.
  eapply wp_bind, wp_port_use_ptr; [done | done |]. intros w1 L1 E1.
  destruct (a_find (w_core w) (addr_port (ev_source e)) (cl_ports cl)) as [[p x] |] eqn:Ef.
  2: { rewrite Z.eqb_refl. apply wp_ret, HQ. eapply ends_locks; [apply same_but_locks_refl | by apply ends_refl | done]. }
  apply a_find_in in Ef as [Hin Hx]. destruct (so_ports _ _ ok _ _ _ Hc Hin) as [Hn _].
  rewrite (proj2 (Z.eqb_neq _ _) Hn). assert (Hx1 : sy_ports (w_core w1) !! p = Some x) by (by rewrite (ca_ports _ _ (proj1 L1))).
  eapply wp_bind, wp_port_at; [exact Hx1 |].
  assert (Hunlock : forall w2 rc (r : Z * mail) (k : world (sys C) -> Prop), calm w w2 ->
    (forall w3, same_but_locks w2 w3 -> Q rc w3) -> wp (snd_seq_ports_unlock client;;; ret rc) Q w2).
  { intros w2 rc _ _ K2 Hq. destruct (calm_client_back _ _ _ _ K2 Hc) as (cl2 & Hc2 & _).
    apply wp_bind. unfold snd_seq_ports_unlock. eapply wp_bind, wp_client_at; [exact Hc2 |]. apply wp_unlock.
    intros w3 L3 _. by apply wp_ret, Hq. }
  destruct (g_list (pt_export x)) as [| s l] eqn:Eg.
  { apply (Hunlock w1 0 (0, F) (fun _ => True)); [apply L1 |]. intros w3 L3. apply HQ. cbn [a_each].
    eapply ends_locks; [exact L1 | apply ends_refl; by eapply locks_ok | done]. }
  apply wp_bind, wp_lock. intros w2 L2 E2. apply wp_bind.
  assert (L12 : same_but_locks w w2).
  { destruct L1 as (K1 & Em1 & Ef1), L2 as (K2 & Em2 & Ef2). split_and!; [by eapply calm_trans | congruence | congruence]. }
  eapply (wp_subscribers_loop client e bs atomic hop _ (s :: l) w2 F); try done.
  - by eapply locks_ok.
  - by eapply letter_locks.
  - rewrite E2, E1. eauto.
  - intros id q Hq. rewrite (ca_now _ _ (proj1 L12)). apply (Hk id q). unfold lookup_queue in *.
    by rewrite (ca_queues _ _ (proj1 L12)) in Hq.
  - apply Forall_forall. intros y Hy. eapply (Ht client cl p x); [done | done | done |]. by rewrite Eg.
  - by left.
  - intros w3 rc He. apply wp_bind, wp_unlock. intros w4 L4 _.
    assert (K4 : calm w w4). { eapply calm_trans; [apply L12 |]. eapply calm_trans; [apply He | apply L4]. }
    apply (Hunlock w4 rc (0, F) (fun _ => True) K4). intros w5 L5. apply HQ.
    erewrite a_each_ext; [eapply ends_locks; [exact L12 | exact He |] |].
    + destruct L4 as (Ka & Ma & Fa), L5 as (Kb & Mb & Fb). split_and!; [by eapply calm_trans | congruence | congruence].
    + intros y F' _. cbn. rewrite (stamp_calm _ _ _ _ (proj1 L12)). symmetry. apply a_single_calm, L12.
Qed.

(** The letter at another address. *)
Lemma wf_dest e : event_wf e -> byte_addr (ev_dest e).
Proof. intros [Hh _]. rewrite !Forall_cons in Hh. split; tauto. Qed.

Lemma letter_dest m F e bs a : byte_addr a -> letter m F e bs -> letter m F (e <| ev_dest := a |>) bs.
Proof. intros Ha [We Hd]. split; [by apply wf_with_dest |]. by eapply data_same; [.. | exact Hd]. Qed.

Lemma wp_ports_loop e bs atomic hop (Q : Z -> world (sys C) -> Prop) l : forall w F n,
  sys_ok w F -> letter (w_mem w) F e bs -> plain e -> all_ports w l ->
  (forall w' rc, ends w F (a_each (fun p F => a_single (w_core w) F None
      (e <| ev_dest := Addr (addr_client (ev_dest e)) (port_number (w_core w) p mod 256) |>) bs FILTER_BROADCAST atomic hop)
     (fun n _ => n + 1) n F l) rc w' -> Q rc w') ->
  wp (ports_loop e n l atomic hop) Q w.
Proof.
  induction l as [| p l IH]; intros w F n ok Hl Hp Ha HQ; cbn [ports_loop a_each] in *.
  { by apply wp_ret, HQ, ends_refl. }
  destruct (Ha p ltac:(left)) as [_ [x Hx]]. eapply wp_bind, wp_port_at; [exact Hx |].
  replace (port_number (w_core w) p) with (pt_port x) in HQ by (unfold port_number; by rewrite Hx).
  assert (Hb : byte_addr (Addr (addr_client (ev_dest e)) (pt_port x mod 256))).
  { split; [by apply wf_dest, (proj1 Hl) |]. unfold is_byte. cbn. pose proof (Z.mod_pos_bound (pt_port x) 256). lia. }
  apply wp_bind. eapply wp_single; [done | by apply letter_dest | done | done | done |]. intros w1 rc He1.
  destruct (a_single _ _ _ _ _ _ _ _) as [r F1]. pose proof He1 as (-> & K1 & ok1 & L1). cbn [fst snd] in *.
  destruct (r <? 0) eqn:Hr; [by apply wp_ret, HQ |]. eapply (IH w1 F1); try done.
  - by eapply letter_keep.
  - intros q Hq. rewrite (ca_ports _ _ K1). apply Ha. by right.
  - intros w' rc He2. apply HQ. eapply ends_step; [exact He1 |].
    erewrite a_each_ext; [exact He2 |]. intros q F' _. cbn. unfold port_number. rewrite (ca_ports _ _ K1).
    symmetry. by apply a_single_calm.
Qed.

Lemma wp_port_broadcast w F e bs atomic hop (Q : Z -> world (sys C) -> Prop) :
  sys_ok w F -> letter (w_mem w) F e bs -> plain e ->
  (forall w' rc, ends w F (a_port_broadcast (w_core w) F e bs atomic hop) rc w' -> Q rc w') ->
  wp (port_broadcast_event e atomic hop) Q w.
Proof.
  intros ok Hl Hp HQ. unfold port_broadcast_event, a_port_broadcast in *. apply wp_bind, wp_dest_client.
  destruct (a_dest (w_core w) e FILTER_BROADCAST) as [cl |]; [| by apply wp_ret, HQ, ends_refl]. intros Hc.
  apply wp_bind, wp_lock. intros w1 L1 E1.
  eapply wp_bind, (wp_client_at _ cl); [by rewrite E1 |]. apply wp_bind. eapply (wp_ports_loop e bs _ _ _ _ w1 F).
  - by eapply locks_ok.
  - by eapply letter_locks.
  - done.
  - intros p Hp'. rewrite (ca_ports _ _ (proj1 L1)). by eapply (so_ports _ _ ok).
  - intros w2 rc He. apply wp_bind. assert (Hc1 : sy_clients (w_core w1) !! addr_client (ev_dest e) = Some cl) by by rewrite E1.
    destruct (calm_client_back _ _ _ _ (proj1 (proj2 He)) Hc1) as (cl' & Hc' & _).
    eapply wp_bind, wp_client_at; [exact Hc' |]. apply wp_unlock. intros w3 L3 _.
    apply wp_ret, HQ. eapply ends_locks; [exact L1 | | exact L3].
    erewrite a_each_ext; [exact He |]. intros q F' _. cbn. unfold port_number. rewrite (ca_ports _ _ (proj1 L1)).
    symmetry. by apply a_single_calm, L1.
Qed.

Lemma a_port_broadcast_calm w w' F e bs atomic hop :
  calm w w' -> a_port_broadcast (w_core w') F e bs atomic hop = a_port_broadcast (w_core w) F e bs atomic hop.
Proof.
  intros K. unfold a_port_broadcast, a_dest. pose proof (a_client_calm w w' (addr_client (ev_dest e)) K) as E.
  destruct (a_client (w_core w') _) as [cl' |], (a_client (w_core w) _) as [cl |]; try done.
  apply (inj Some) in E. rewrite (calm_takes _ _ _ _ E). destruct (takes cl e _); [| done].
  apply bare_fields in E as (_ & _ & _ & _ & _ & -> & _). apply a_each_ext. intros p F' _. unfold port_number.
  rewrite (ca_ports _ _ K). by apply a_single_calm.
Qed.

Lemma a_one_calm w w' F e bs atomic hop d :
  calm w w' -> a_one (w_core w') e bs atomic hop d F = a_one (w_core w) e bs atomic hop d F.
Proof. intros K. unfold a_one. cbv zeta. destruct (_ =? _); [by apply a_port_broadcast_calm | by apply a_single_calm]. Qed.

Lemma wp_clients_loop client bs atomic hop (Q : Z -> world (sys C) -> Prop) l : forall w F e n,
  sys_ok w F -> letter (w_mem w) F e bs -> plain e -> Forall is_byte l ->
  (forall w' rc, ends w F (a_each (a_one (w_core w) e bs atomic hop) (fun n r => n + r) n F
     (filter (fun d => d <> client) l)) rc w' -> Q rc w') ->
  wp (clients_loop client e n l atomic hop) Q w.
Proof.
  induction l as [| d l IH]; intros w F e n ok Hl Hp Hb HQ; cbn [clients_loop] in *.
  { by apply wp_ret, HQ, ends_refl. }
  apply Forall_cons in Hb as [Hd Hb]. destruct (d =? client) eqn:E.
  { apply Z.eqb_eq in E. rewrite filter_cons_False in HQ by auto. by eapply IH. }
  apply Z.eqb_neq in E. rewrite filter_cons_True in HQ by done. cbn [a_each] in HQ.
  set (e1 := e <| ev_dest := Addr d (addr_port (ev_dest e)) |>) in *.
  assert (Hl1 : letter (w_mem w) F e1 bs).
  { apply letter_dest; [| done]. split; [done | by apply wf_dest, (proj1 Hl)]. }
  assert (Hone : forall Q' : Z -> world (sys C) -> Prop,
    (forall w' rc, ends w F (a_one (w_core w) e bs atomic hop d F) rc w' -> Q' rc w') ->
    wp (if addr_port (ev_dest e) =? ADDRESS_BROADCAST then port_broadcast_event e1 atomic hop
        else snd_seq_deliver_single_event None e1 FILTER_BROADCAST atomic hop) Q' w).
  { intros Q' HQ'. unfold a_one in HQ'. cbv zeta in HQ'. change (addr_port (ev_dest (e <| ev_dest := _ |>))) with (addr_port (ev_dest e)) in HQ'.
    destruct (addr_port (ev_dest e) =? ADDRESS_BROADCAST); [by eapply wp_port_broadcast | by eapply wp_single]. }
  apply wp_bind, Hone. intros w1 rc He1. destruct (a_one (w_core w) e bs atomic hop d F) as [r F1].
  pose proof He1 as (-> & K1 & ok1 & L1). cbn [fst snd] in *. destruct (r <? 0) eqn:Hr; [by apply wp_ret, HQ |].
  eapply (IH w1 F1); [done | by eapply letter_keep | done | done |].
  intros w' rc He2. apply HQ. eapply ends_step; [exact He1 |].
  erewrite a_each_ext; [exact He2 |]. intros q F' _. symmetry. by apply (a_one_calm w w1 F' e).
Qed.

Lemma wp_broadcast w F client e bs atomic hop (Q : Z -> world (sys C) -> Prop) :
  sys_ok w F -> letter (w_mem w) F e bs -> plain e ->
  (forall w' rc, ends w F (a_broadcast (w_core w) F client e bs atomic hop) rc w' -> Q rc w') ->
  wp (broadcast_event client e atomic hop) Q w.
Proof.
  intros ok Hl Hp HQ. eapply wp_clients_loop; [done | done | done | | exact HQ].
  apply Forall_forall. intros d Hd%elem_of_seqZ. unfold is_byte, SEQ_MAX_CLIENTS in *. lia.
Qed.

Lemma wp_deliver_event w F client e bs atomic hop (Q : Z -> world (sys C) -> Prop) :
  sys_ok w F -> clocks_ok w -> table_ok w -> letter (w_mem w) F e bs -> plain e ->
  is_byte client -> is_Some (sy_clients (w_core w) !! client) ->
  (forall w' rc, ends w F (route w F client e bs atomic hop) rc w' -> Q rc w') ->
  wp (deliver_event client e atomic hop) Q w.
Proof.
  intros ok Hk Ht Hl Hp Hb Hc. unfold deliver_event, route. cbv zeta. intros HQ.
  destruct (SEQ_MAX_HOPS <=? hop + 1); [by apply wp_ret, HQ, ends_refl |].
  destruct (_ || _); [by eapply wp_deliver_to_subscribers |].
  destruct (_ || _); [by eapply wp_broadcast |].
  destruct (SEQ_MAX_CLIENTS <=? _); [by apply wp_ret, HQ, ends_refl |].
  destruct (_ =? _); [by eapply wp_port_broadcast |].
  eapply wp_single; try done. by intros c [= <-].
Qed.

(** C6: delivering an event goes where the table of clients and ports says, to one port, to the
    subscribers of the sender's port, to all ports of a client or to all clients: with the result
    of [route], and with the FIFOs then holding what it says, event for event; the number of hops
    is bounded, errors go back to the sender that wants them, and the clients, ports and queues
    are as before.  The drivers behind kernel ports are those that only answer ([QuietDrivers]):
    ports that call the sequencer back, as the system timer port (which controls queues) and the
    ports of seq_dummy.c (which send the event on) do, are left out, and so are events that
    carry another one in quotes ([plain]). *)
Theorem route_refines w F client e bs atomic hop :
  sys_ok w F -> clocks_ok w -> table_ok w -> letter (w_mem w) F e bs -> plain e ->
  is_byte client -> is_Some (sy_clients (w_core w) !! client) ->
  wp (deliver_event client e atomic hop) (ends w F (route w F client e bs atomic hop)) w.
Proof. intros. by eapply wp_deliver_event. Qed.
End Spec.

(** ** Delivering in a small system *)

(** Drivers that take every event, an allocator that goes beyond all ports, and events at a
    fixed address. *)
Definition listed (w : world (sys unit)) : list Z := map_to_list (sy_clients (w_core w)) ≫= (fun x => cl_ports x.2).
#[export] Instance idle_drivers : PortDrivers unit := {
  port_callback _ _ _ := ret 0;
  port_input _ _ _ _ _ _ := ret 0;
  port_free _ _ := ret tt;
  alloc_port w := 1 + foldr Z.max 0 (listed w);
  alloc_subscriber _ := true;
  event_address _ := 0x1000;
  event_behind _ := None }.
#[export] Instance idle_quiet : QuietDrivers unit.
Proof. refine {| reply _ _ _ _ _ _ := 0 |}. intros. exists tt. by destruct w as [????? [[] ????????]]. Defined.

(** Client 128 sends from its port 0, whose subscribers are port 3 of client 129, which reads
    from a FIFO of four cells, and port 1 of client 64, which is in the kernel. *)
Definition plain_port (c num input : Z) (subs : list subscriber) : port :=
  Port c num [] (Group subs (Z.of_nat (length subs)) false) (Group [] 0 false) 0 0 0 0 0 0 input 0 0 false 127 0 0 0.
Definition to (a : snd_seq_addr) : subscriber := Subscriber a (Subs (Addr 128 0) a 0 0 0).
Definition three_clients : sys unit := Sys tt
  (list_to_map [(128, Client USER_CLIENT true true [] 128 FILTER_BOUNCE 0 0 [1000] 1 0 None);
                (129, Client USER_CLIENT true true [] 129 0 0 0 [3000] 1 0 (Some empty_fifo));
                (64, Client KERNEL_CLIENT true true [] 64 0 0 0 [2000] 1 0 None)])
  (list_to_map [(1000, plain_port 128 0 0 [to (Addr 129 3); to (Addr 64 1)]); (2000, plain_port 64 1 4444 []);
                (3000, plain_port 129 3 0 [])])
  ∅ ∅ true ∅ 0 0.
Definition three_world : world (sys unit) := World four_cells [] 0 (0, 0) false three_clients.
Definition three_mail : mail := {[129 := ([100; 136; 172; 208], Spec [] 4 4 0)]}.
Definition note_out : snd_seq_event := note <| ev_source := Addr 128 0 |> <| ev_dest := Addr ADDRESS_SUBSCRIBERS 0 |>.

Lemma three_ok : sys_ok three_world three_mail.
Proof.
  split.
  - unfold three_mail. replace (fifos three_world) with ({[129 := empty_fifo]} : gmap Z fifo) by (vm_compute; reflexivity). split.
    + intros c f (<- & <-)%lookup_singleton_Some. do 2 eexists. split; [by rewrite lookup_singleton_eq | exact empty_fifo_is].
    + intros c T s (<- & [= <- <-])%lookup_singleton_Some. rewrite lookup_singleton_eq. eauto.
    + intros c c' T s T' s' N (<- & _)%lookup_singleton_Some (<- & _)%lookup_singleton_Some. done.
    + intros c c' f f' N (<- & _)%lookup_singleton_Some (<- & _)%lookup_singleton_Some. done.
  - intros c cl p Hc Hp. apply elem_of_list_to_map_2 in Hc. repeat (apply elem_of_cons in Hc as [[= -> ->] | Hc]).
    4: by apply elem_of_nil in Hc.
    all: cbn in Hp; apply list_elem_of_singleton in Hp as ->; split; [done | vm_compute; eauto].
Qed.

Lemma route_refines_witness :
  route three_world three_mail 128 note_out [] false 0 =
    (2, <[129 := ([100; 136; 172; 208], Spec [(note_out <| ev_dest := Addr 129 3 |>, [])] 3 4 0)]> three_mail) /\
  wp (deliver_event 128 note_out false 0) (ends three_world three_mail (route three_world three_mail 128 note_out [] false 0))
    three_world.
Proof.
  split; [vm_compute; reflexivity |]. apply route_refines.
  - intros. split; done.
  - exact three_ok.
  - intros id q Hq. unfold lookup_queue in Hq. cbn in Hq. by destruct (_ && _); [destruct (Z.to_nat id) |].
  - intros c cl p x s _ _ Hp Hs. apply elem_of_list_to_map_2 in Hp. repeat (apply elem_of_cons in Hp as [[= -> ->] | Hp]).
    4: by apply elem_of_nil in Hp.
    2-3: by apply elem_of_nil in Hs.
    repeat (apply elem_of_cons in Hs as [-> | Hs]); [| | by apply elem_of_nil in Hs]; vm_compute; split_and!; congruence.
  - split; [| by exists []]. split; cbn; rewrite !Forall_cons, Forall_nil; unfold is_byte, is_u32, UINT_MAX, EVENT_NOTEON, ADDRESS_SUBSCRIBERS; lia.
  - done.
  - vm_compute. split; congruence.
  - vm_compute. eauto.
Defined.
