(* ===== verification/SeqWiring.v ===== *)
(** * SeqWiring: the connections of ports

    A connection is kept twice, with its sender and with its receiver, and counted in both.
    Here it is one entry of a map from pairs of addresses; connecting, disconnecting and
    removing ports are the operations of that map. *)

From S2P Require Import Prelude SeqEvent SeqCells SeqMemory SeqCopy SeqFifo SeqFifoSpec SeqPrioq SeqTimer SeqQueue SeqWorld.
From S2P Require Import SeqPorts SeqRoute SeqConnect SeqMail SeqRouteSpec.
Open Scope Z_scope.
Open Scope state_scope.

#[export] Instance addr_eq_dec : EqDecision snd_seq_addr.
Proof. solve_decision. Defined.
#[export] Instance addr_countable : Countable snd_seq_addr.
Proof. refine (inj_countable' (fun a => (addr_client a, addr_port a)) (fun x => Addr x.1 x.2) _). by intros []. Defined.

(** Which port an address has, and the connections, from sender to receiver. *)
Abbreviation homes := (gmap snd_seq_addr Z).
Abbreviation wires := (gmap (snd_seq_addr * snd_seq_addr) subscribe_info).

(** The group holds the connections [R], each once, and their number. *)
Record group_ok (g : group) (R : snd_seq_addr -> subscribe_info -> Prop) : Prop := {
  gp_once : NoDup (sb_addr <$> g_list g);
  gp_list : forall s, s ∈ g_list g <-> R (sb_addr s) (sb_info s);
  gp_count : g_count g = Z.of_nat (length (g_list g)) }.

(** A port with the address [a]. *)
Record port_ok (K : wires) (a : snd_seq_addr) (x : port) : Prop := {
  po_export : group_ok (pt_export x) (fun b i => K !! (a, b) = Some i);
  po_import : group_ok (pt_import x) (fun b i => K !! (b, a) = Some i);
  po_subscribe : pt_subscribe_count x = Z.of_nat (length (g_list (pt_export x)));
  po_use : pt_use_count x = Z.of_nat (length (g_list (pt_import x))) }.

(** A port nobody can find. *)
Definition silent (x : port) : Prop :=
  g_list (pt_export x) = [] /\ g_list (pt_import x) = [] /\ g_count (pt_export x) = 0 /\ g_count (pt_import x) = 0 /\
  pt_subscribe_count x = 0 /\ pt_use_count x = 0.

Record wired (P : gmap Z port) (home : homes) (K : wires) : Prop := {
  wd_port : forall a p, home !! a = Some p -> exists x, P !! p = Some x /\ port_ok K a x;
  wd_ends : forall a b i, K !! (a, b) = Some i ->
    s_sender i = a /\ s_dest i = b /\ is_byte (s_queue i) /\ is_Some (home !! a) /\ is_Some (home !! b);
  wd_inj : forall a b p, home !! a = Some p -> home !! b = Some p -> a = b;
  wd_byte : forall a p, home !! a = Some p -> byte_addr a }.

(** The port with an address, as the clients list them. *)
Definition port_of {C} (S : sys C) (a : snd_seq_addr) : option Z :=
  match a_client S (addr_client a) with
  | Some cl => fst <$> a_find S (addr_port a) (cl_ports cl)
  | None => None
  end.

Record table {C} (S : sys C) (home : homes) : Prop := {
  tb_home : forall a p, home !! a = Some p -> port_of S a = Some p;
  tb_there : forall a p, port_of S a = Some p -> byte_addr a -> home !! a = Some p;
  tb_silent : forall c cl p x, sy_clients S !! c = Some cl -> p ∈ cl_ports cl -> sy_ports S !! p = Some x ->
    home !! (Addr c (pt_port x)) <> Some p -> silent x;
  tb_once : forall c cl, sy_clients S !! c = Some cl -> NoDup (cl_ports cl);
  tb_apart : forall c c' cl cl' p, sy_clients S !! c = Some cl -> sy_clients S !! c' = Some cl' ->
    p ∈ cl_ports cl -> p ∈ cl_ports cl' -> c = c' }.

Implicit Types (P : gmap Z port) (home : homes) (K : wires).

(** ** Changes of ports *)

Lemma alter_found {A} (f : A -> A) (p : Z) (x : A) (m : gmap Z A) : m !! p = Some x -> <[p := f x]> m = alter f p m.
Proof.
  intros Hx. apply map_eq. intros q. destruct (decide (p = q)) as [<- | N].
  - by rewrite lookup_insert_eq, lookup_alter_eq, Hx.
  - by rewrite lookup_insert_ne, lookup_alter_ne.
Qed.

Lemma lookup_alter_if {A} (f : A -> A) (p q : Z) (m : gmap Z A) :
  alter f p m !! q = (if decide (q = p) then f else id) <$> m !! q.
Proof.
  destruct (decide (q = p)) as [-> | N]; [apply lookup_alter_eq |].
  rewrite lookup_alter_ne by congruence. by rewrite option_fmap_id.
Qed.

Definition more_out (x : port) : port := x <| pt_subscribe_count := pt_subscribe_count x + 1 |>.
Definition less_out (x : port) : port := x <| pt_subscribe_count := pt_subscribe_count x - 1 |>.
Definition more_in (x : port) : port := x <| pt_use_count := pt_use_count x + 1 |>.
Definition less_in (x : port) : port := x <| pt_use_count := pt_use_count x - 1 |>.

Definition down_out (x : port) : port := if 0 <? pt_subscribe_count x then less_out x else x.
Definition down_in (x : port) : port := if 0 <? pt_use_count x then less_in x else x.

Lemma alter_back (f g : port -> port) p P x : P !! p = Some x -> g (f x) = x -> alter g p (alter f p P) = P.
Proof.
  intros Hx E. rewrite alter_alter_eq. apply alter_id. intros y Hy. rewrite Hx in Hy. injection Hy as <-. exact E.
Qed.

Lemma count_back n : 0 <= n < UINT_MAX -> u32 (u32 (n + 1) - 1) = n.
Proof. intros. rewrite (u32_small (n + 1)) by (unfold is_u32, UINT_MAX in *; lia). rewrite u32_small; unfold is_u32, UINT_MAX in *; lia. Qed.

(** Counting up and down again. *)
Lemma down_more_out x : 0 <= pt_subscribe_count x -> down_out (more_out x) = x.
Proof.
  intros Hx. unfold down_out. cbn. rewrite (proj2 (Z.ltb_lt _ _)) by lia. unfold less_out, more_out. cbn.
  replace (pt_subscribe_count x + 1 - 1) with (pt_subscribe_count x) by lia. by destruct x.
Qed.

Lemma down_more_in x : 0 <= pt_use_count x -> down_in (more_in x) = x.
Proof.
  intros Hx. unfold down_in. cbn. rewrite (proj2 (Z.ltb_lt _ _)) by lia. unfold less_in, more_in. cbn.
  replace (pt_use_count x + 1 - 1) with (pt_use_count x) by lia. by destruct x.
Qed.

Lemma addr_compare_eq a b : addr_compare a b = bool_decide (a = b).
Proof.
  destruct a as [c p], b as [c' p']. unfold addr_compare. cbn. symmetry.
  destruct (Z.eqb_spec c c') as [-> | N]; [| apply bool_decide_eq_false_2; congruence].
  destruct (Z.eqb_spec p p') as [-> | N]; [by apply bool_decide_eq_true_2 | apply bool_decide_eq_false_2; congruence].
Qed.

Lemma with_same_group export x : with_group export (group_of export x) x = x.
Proof. by destruct export, x. Qed.

(** ** What the changes of groups do to connections *)

Lemma group_small g R : group_ok g R -> (forall b i, R b i -> byte_addr b) -> Z.of_nat (length (g_list g)) <= 65536.
Proof.
  intros [N L _] Hb.
  set (all := (fun x => Addr x.1 x.2) <$> list_prod (seqZ 0 256) (seqZ 0 256)).
  assert (E : Z.of_nat (length all) = 65536) by (unfold all; by rewrite length_fmap, length_prod, !length_seqZ, Nat2Z.inj_mul).
  rewrite <- E. apply inj_le. rewrite <- (length_fmap sb_addr). apply submseteq_length, NoDup_submseteq; [done |]. intros a (s & -> & Hs)%list_elem_of_fmap.
  apply L, Hb in Hs as [H1 H2]. unfold is_byte in *. apply list_elem_of_fmap.
  exists (addr_client (sb_addr s), addr_port (sb_addr s)). split; [by destruct (sb_addr s) |].
  apply list_elem_of_In, in_prod; apply list_elem_of_In, elem_of_seqZ; lia.
Qed.

Lemma group_mono g (R R' : snd_seq_addr -> subscribe_info -> Prop) : (forall b i, R b i <-> R' b i) -> group_ok g R -> group_ok g R'.
Proof. intros E [A B D]. split; [done | | done]. intros s. by rewrite B, E. Qed.

Lemma group_in g R a : group_ok g R -> (a ∈ sb_addr <$> g_list g <-> exists i, R a i).
Proof.
  intros [_ L _]. rewrite list_elem_of_fmap. split.
  - intros (s & -> & Hs). exists (sb_info s). by apply L.
  - intros [i Hi]. exists (Subscriber a i). split; [done |]. by apply L.
Qed.

Lemma group_add_ok g R a i ex :
  group_ok g R -> (forall j, ~ R a j) -> Z.of_nat (length (g_list g)) <= 65537 ->
  (group_add a i ex g = (-EBUSY, g)) \/
  (exists g', group_add a i ex g = (0, g') /\ length (g_list g') = S (length (g_list g)) /\
     group_ok g' (fun b j => R b j \/ b = a /\ j = i)).
Proof.
  intros ok Hn Hs. pose proof ok as [N L Ec].
  assert (Eu : u32 (g_count g + 1) = g_count g + 1) by (apply u32_small; unfold is_u32; lia).
  assert (new : group_ok (Group (g_list g ++ [Subscriber a i]) (g_count g + 1) true) (fun b j => R b j \/ b = a /\ j = i)).
  { split; cbn.
    - rewrite fmap_app, NoDup_app. split_and!; [done | | apply NoDup_singleton]. intros b Hb. cbn. rewrite list_elem_of_singleton.
      intros ->. apply (group_in g R) in Hb as [j Hj]; [| done]. by apply (Hn j).
    - intros s. rewrite elem_of_app, list_elem_of_singleton, L. destruct s as [b j]. cbn. split.
      + intros [? | [= -> ->]]; auto.
      + intros [? | [-> ->]]; auto.
    - rewrite length_app. cbn. lia. }
  unfold group_add. destruct (g_list g) as [| s l] eqn:El.
  - right. eexists. split; [done |]. split; [done |]. rewrite Eu. by destruct new.
  - destruct ex; [by left | right]. eexists. split; [done |].
    split; [cbn; rewrite !length_app; cbn; lia |]. rewrite Eu. by destruct new.
Qed.

Lemma unlink_first a q l : NoDup (sb_addr <$> l) ->
  match unlink_subscriber a q l with
  | Some l' => exists s, s ∈ l /\ sb_addr s = a /\ s_queue (sb_info s) = q /\ length l = S (length l') /\ NoDup (sb_addr <$> l') /\
      forall t, t ∈ l' <-> t ∈ l /\ sb_addr t <> a
  | None => forall s, s ∈ l -> sb_addr s = a -> s_queue (sb_info s) <> q
  end.
Proof.
  induction l as [| s l IH]; cbn [unlink_subscriber]; intros N; [by intros s Hs%elem_of_nil |].
  apply NoDup_cons in N as [Hs N]. rewrite addr_compare_eq.
  assert (Hno : forall t, t ∈ l -> sb_addr t <> sb_addr s) by (intros t Ht E; apply Hs; rewrite <- E; by apply list_elem_of_fmap_2).
  destruct (bool_decide (sb_addr s = a)) eqn:Ea; [apply bool_decide_eq_true in Ea as <- | apply bool_decide_eq_false in Ea]; cbn [andb].
  - destruct (Z.eqb_spec (s_queue (sb_info s)) q) as [<- | Nq].
    + exists s. split_and!; try done; [left |]. intros t. rewrite elem_of_cons. split; [auto | intros [[-> | ?] ?]; done].
    + specialize (IH N). destruct (unlink_subscriber _ _ _) as [l' |].
      * destruct IH as (t & Ht & Et & _). exfalso. by eapply Hno.
      * intros t [-> | Ht]%elem_of_cons; [done |]. auto.
  - specialize (IH N). destruct (unlink_subscriber _ _ _) as [l' |].
    + destruct IH as (t & Ht & Et & Eq & El & Nl & Hl). exists t. split_and!; try done; [by right | cbn; lia | |].
      * rewrite fmap_cons, NoDup_cons. split; [| done]. intros (u & Eu & Hu)%list_elem_of_fmap. apply Hl in Hu as [Hu _].
        by apply (Hno u).
      * intros u. rewrite !elem_of_cons, Hl. split; [intros [-> | [? ?]]; auto | intros [[-> | ?] ?]; auto].
    + intros t [-> | Ht]%elem_of_cons; [done | auto].
Qed.

Lemma group_remove_ok g R a i j :
  group_ok g R -> R a j -> s_queue j = s_queue i -> Z.of_nat (length (g_list g)) <= 65537 ->
  exists g', group_remove a i g = (0, g') /\ length (g_list g) = S (length (g_list g')) /\
    group_ok g' (fun b k => R b k /\ b <> a).
Proof.
  intros ok Hj Eq Hs. pose proof ok as [N L Ec]. unfold group_remove. pose proof (unlink_first a (s_queue i) _ N) as U.
  destruct (unlink_subscriber _ _ _) as [l' |].
  - destruct U as (s & Hs1 & _ & _ & El & N' & Hl). eexists. split; [done |]. split; [done |]. split; [done | |].
    + intros t. cbn. by rewrite Hl, L.
    + cbn. rewrite u32_small; unfold is_u32; lia.
  - exfalso. apply (U (Subscriber a j)); [by apply L | done | done].
Qed.

Lemma group_remove_none g R a i : group_ok g R -> (forall j, ~ R a j) -> group_remove a i g = (-ENOENT, g).
Proof.
  intros ok Hn. pose proof ok as [N L Ec]. unfold group_remove. pose proof (unlink_first a (s_queue i) _ N) as U.
  destruct (unlink_subscriber _ _ _) as [l' |]; [| done]. destruct U as (s & Hs & <- & _). exfalso. apply (Hn (sb_info s)). by apply L.
Qed.


(** ** Connections made and broken *)

(** Ports that have no home are as they were, and all have their numbers. *)
Definition same_shape home P P' : Prop := forall q,
  pt_port <$> P' !! q = pt_port <$> P !! q /\ ((forall a, home !! a <> Some q) -> P' !! q = P !! q).

Lemma same_shape_refl home P : same_shape home P P.
Proof. done. Qed.

Lemma same_shape_alter home P P' f p a :
  same_shape home P P' -> home !! a = Some p -> (forall x, pt_port (f x) = pt_port x) -> same_shape home P (alter f p P').
Proof.
  intros S Ha Hf q. destruct (S q) as [S1 S2]. rewrite lookup_alter_if. destruct (decide (q = p)) as [-> | N].
  - split; [| intros Hn; by apply Hn in Ha]. rewrite <- S1. destruct (P' !! p) as [x |]; cbn; [by rewrite Hf | done].
  - by rewrite option_fmap_id.
Qed.

(** A new table of connections for new ports. *)
Lemma wired_update P P' home K K' : wired P home K ->
  (forall a b i, K' !! (a, b) = Some i -> K !! (a, b) = Some i \/
     s_sender i = a /\ s_dest i = b /\ is_byte (s_queue i) /\ is_Some (home !! a) /\ is_Some (home !! b)) ->
  (forall a p x, home !! a = Some p -> P !! p = Some x -> port_ok K a x -> exists x', P' !! p = Some x' /\ port_ok K' a x') ->
  wired P' home K'.
Proof.
  intros W HK HP. split; [| | apply W | apply W].
  - intros a p Ha. destruct (wd_port _ _ _ W _ _ Ha) as (x & Hx & ok). eauto.
  - intros a b i Hi. destruct (HK _ _ _ Hi) as [Hi' | ?]; [by apply W | done].
Qed.

Lemma port_small P home K a p x : wired P home K -> home !! a = Some p -> port_ok K a x ->
  Z.of_nat (length (g_list (pt_export x))) <= 65536 /\ Z.of_nat (length (g_list (pt_import x))) <= 65536.
Proof.
  intros W Ha [Oe Oi _ _]. split; eapply group_small; try done; intros b i Hi.
  - destruct (wd_ends _ _ _ W _ _ _ Hi) as (_ & _ & _ & _ & [q Hq]). by apply (wd_byte _ _ _ W _ q).
  - destruct (wd_ends _ _ _ W _ _ _ Hi) as (_ & _ & _ & [q Hq] & _). by apply (wd_byte _ _ _ W _ q).
Qed.

(** Counting up and down again. *)

(** New groups at the two ends of one connection, and counts that fit. *)
Definition regrouped P P' (sp dp : Z) (ge gi : group) : Prop := forall q x, P !! q = Some x ->
  exists x', P' !! q = Some x' /\
    pt_export x' = (if decide (q = sp) then ge else pt_export x) /\
    pt_import x' = (if decide (q = dp) then gi else pt_import x) /\
    (pt_subscribe_count x = Z.of_nat (length (g_list (pt_export x))) ->
     pt_subscribe_count x' = Z.of_nat (length (g_list (pt_export x')))) /\
    (pt_use_count x = Z.of_nat (length (g_list (pt_import x))) ->
     pt_use_count x' = Z.of_nat (length (g_list (pt_import x')))).

Lemma wired_set P P' home K K' s d sp dp ge gi : wired P home K -> home !! s = Some sp -> home !! d = Some dp ->
  (forall i, K' !! (s, d) = Some i -> s_sender i = s /\ s_dest i = d /\ is_byte (s_queue i)) ->
  (forall a b, (a, b) <> (s, d) -> K' !! (a, b) = K !! (a, b)) ->
  group_ok ge (fun b j => K' !! (s, b) = Some j) -> group_ok gi (fun b j => K' !! (b, d) = Some j) ->
  regrouped P P' sp dp ge gi -> wired P' home K'.
Proof.
  intros W Hs Hd Hn Hk Ge Gi R. apply (wired_update P P' home K); [done | |].
  - intros a b i Hi. destruct (decide ((a, b) = (s, d))) as [[= -> ->] | N]; [right | left; by rewrite <- Hk].
    destruct (Hn i Hi) as (? & ? & ?). split_and!; eauto.
  - intros a p x Ha Hx [Oe Oi Os Ou]. destruct (R p x Hx) as (x' & Hx' & Ee & Ei & Hc & Hu). exists x'. split; [done |].
    split; [| | by apply Hc | by apply Hu].
    + rewrite Ee. destruct (decide (p = sp)) as [-> | N].
      * by rewrite (wd_inj _ _ _ W _ _ _ Ha Hs).
      * eapply group_mono; [| done]. intros b i. cbn. rewrite Hk; [done | intros [= -> ->]; congruence].
    + rewrite Ei. destruct (decide (p = dp)) as [-> | N].
      * by rewrite (wd_inj _ _ _ W _ _ _ Ha Hd).
      * eapply group_mono; [| done]. intros b i. cbn. rewrite Hk; [done | intros [= -> ->]; congruence].
Qed.

(** What a call on a port leaves of the rest. *)
Record rewired home P P' K' : Prop := { rw_wired : wired P' home K'; rw_shape : same_shape home P P' }.

(** The case analysis on the ports of a chain of changes. *)
Ltac each_port :=
  let q := fresh "q" in let y := fresh "y" in let E := fresh "E" in
  intros q y E; rewrite ?lookup_alter_if, E; cbn [fmap option_fmap option_map];
  eexists; split; [reflexivity |]; repeat case_decide; subst; simplify_eq; cbn.

Section Connecting.
Variables (P : gmap Z port) (home : homes) (K : wires) (sp dp : Z) (xs xd : port) (i : subscribe_info).
Hypothesis W : wired P home K.
Hypothesis Hs : home !! s_sender i = Some sp.
Hypothesis Hd : home !! s_dest i = Some dp.
Hypothesis Hxs : P !! sp = Some xs.
Hypothesis Hxd : P !! dp = Some xd.
Hypothesis Hqb : is_byte (s_queue i).

Lemma sender_ok : port_ok K (s_sender i) xs.
Proof using W Hs Hxs. destruct (wd_port _ _ _ W _ _ Hs) as (x & Hx & ok). congruence. Qed.
Lemma dest_ok : port_ok K (s_dest i) xd.
Proof using W Hd Hxd. destruct (wd_port _ _ _ W _ _ Hd) as (x & Hx & ok). congruence. Qed.

Lemma wired_connect ge gi : K !! (s_sender i, s_dest i) = None ->
  group_ok ge (fun b j => K !! (s_sender i, b) = Some j \/ b = s_dest i /\ j = i) ->
  length (g_list ge) = S (length (g_list (pt_export xs))) ->
  group_ok gi (fun b j => K !! (b, s_dest i) = Some j \/ b = s_sender i /\ j = i) ->
  length (g_list gi) = S (length (g_list (pt_import xd))) ->
  wired (alter (with_group false gi) dp (alter (with_group true ge) sp (alter more_in dp (alter more_out sp P)))) home
    (<[(s_sender i, s_dest i) := i]> K).
Proof using All.
  intros Hn Ge Le Gi Li. apply (wired_set P _ home K _ (s_sender i) (s_dest i) sp dp ge gi); try done.
  - intros j. rewrite lookup_insert_eq. by intros [= <-].
  - intros a b N. by rewrite lookup_insert_ne.
  - eapply group_mono; [| exact Ge]. intros b j. cbn. destruct (decide (b = s_dest i)) as [-> | N].
    + rewrite lookup_insert_eq, Hn. split; [intros [? | [_ ->]]; done | intros [= ->]; auto].
    + rewrite lookup_insert_ne by congruence. split; [intros [? | [? _]]; done | auto].
  - eapply group_mono; [| exact Gi]. intros b j. cbn. destruct (decide (b = s_sender i)) as [-> | N].
    + rewrite lookup_insert_eq, Hn. split; [intros [? | [_ ->]]; done | intros [= ->]; auto].
    + rewrite lookup_insert_ne by congruence. split; [intros [? | [? _]]; done | auto].
  - each_port; split_and!; try done; intros; lia.
Qed.

Lemma wired_disconnect ge gi :
  group_ok ge (fun b j => K !! (s_sender i, b) = Some j /\ b <> s_dest i) ->
  length (g_list (pt_export xs)) = S (length (g_list ge)) ->
  group_ok gi (fun b j => K !! (b, s_dest i) = Some j /\ b <> s_sender i) ->
  length (g_list (pt_import xd)) = S (length (g_list gi)) ->
  forall P', regrouped P P' sp dp ge gi -> wired P' home (delete (s_sender i, s_dest i) K).
Proof using W Hs Hd Hxs Hxd.
  intros Ge Le Gi Li P' R. apply (wired_set P _ home K _ (s_sender i) (s_dest i) sp dp ge gi); try done.
  - intros j. by rewrite lookup_delete_eq.
  - intros a b N. by rewrite lookup_delete_ne.
  - eapply group_mono; [| exact Ge]. intros b j. cbn. destruct (decide (b = s_dest i)) as [-> | N].
    + rewrite lookup_delete_eq. split; [by intros [? ?] | done].
    + rewrite lookup_delete_ne by congruence. split; [by intros [? ?] | auto].
  - eapply group_mono; [| exact Gi]. intros b j. cbn. destruct (decide (b = s_sender i)) as [-> | N].
    + rewrite lookup_delete_eq. split; [by intros [? ?] | done].
    + rewrite lookup_delete_ne by congruence. split; [by intros [? ?] | auto].
Qed.
End Connecting.

(** What comes of connecting: an error and no connection, or the connection. *)
Definition connected home K (i : subscribe_info) P (rc : Z) P' : Prop :=
  (rc < 0 /\ rewired home P P' K) \/
  (rc = 0 /\ K !! (s_sender i, s_dest i) = None /\ rewired home P P' (<[(s_sender i, s_dest i) := i]> K)).


Ltac shape Hs Hd :=
  repeat (first [eapply same_shape_alter; [| exact Hs | by (intros; cbn; unfold down_out, down_in; repeat case_match)]
               | eapply same_shape_alter; [| exact Hd | by (intros; cbn; unfold down_out, down_in; repeat case_match)]]);
  apply same_shape_refl.
Ltac counts := each_port; split_and!; try done; intros; unfold down_out, down_in; cbn; repeat case_match; cbn in *; try done; try lia.


