(* ===== verification/SeqRewire.v ===== *)
(** * SeqRewire: the steps that connect ports

    What the functions of seq_ports.c and the second half of [connect_ports] do to the ports and
    the connections of SeqWiring.v: counting users, with the calls of drivers, and keeping the
    lists of subscribers. *)

From S2P Require Import Prelude SeqEvent SeqCells SeqMemory SeqCopy SeqFifo SeqFifoSpec SeqPrioq SeqTimer SeqQueue SeqWorld.
From S2P Require Import SeqPorts SeqRoute SeqConnect SeqMail SeqRouteSpec SeqWiring.
Open Scope Z_scope.
Open Scope state_scope.


(** Drivers that only answer to callbacks, and an allocator that finds room no client uses. *)
Class QuietCallbacks (C : Type) `{PortDrivers C} := {
  answer : Z -> Z -> subscribe_info -> Z;
  callback_quiet f priv info w : exists t,
    port_callback f priv info w = Some (answer f priv info, w <| w_core := (w_core w) <| sy_core := t |> |>);
  free_quiet f priv w : exists t, port_free f priv w = Some (tt, w <| w_core := (w_core w) <| sy_core := t |> |>);
  alloc_fresh w c cl : sy_clients (w_core w) !! c = Some cl -> alloc_port w ∉ cl_ports cl }.


Section Wiring.
Context {C : Type} `{QuietDrivers C} `{!QuietCallbacks C}.
Implicit Types (w : world (sys C)) (F : mail) (P : gmap Z port) (M : gset mutex) (home : homes) (K : wires).

(** ** The steps that change ports *)

(** The world [w0] but for the ports, now [P], and the mutexes held, now [M]. *)
Record st w0 M P w : Prop := {
  st_mem : w_mem w = w_mem w0;
  st_queues : w_queues w = w_queues w0;
  st_now : w_now w = w_now w0;
  st_interrupt : w_interrupt w = w_interrupt w0;
  st_clients : sy_clients (w_core w) = sy_clients (w_core w0);
  st_sysclient : sy_sysclient (w_core w) = sy_sysclient (w_core w0);
  st_announce : sy_announce (w_core w) = sy_announce (w_core w0);
  st_mutexes : sy_mutexes (w_core w) = M;
  st_ports : sy_ports (w_core w) = P }.

Lemma st_start w : st w (sy_mutexes (w_core w)) (sy_ports (w_core w)) w.
Proof. done. Qed.

Lemma st_sets w0 M M' P w : M = M' -> st w0 M P w -> st w0 M' P w.
Proof. by intros ->. Qed.

Lemma st_map w0 M P P' w : P = P' -> st w0 M P w -> st w0 M P' w.
Proof. by intros ->. Qed.

Lemma st_lock w0 M P w l (Q : unit -> world (sys C) -> Prop) :
  st w0 M P w -> (forall w', st w0 M P w' -> Q tt w') -> wp (spin_lock l) Q w.
Proof. intros [] HQ. by apply wp_sys_do, HQ. Qed.

Lemma st_unlock w0 M P w l (Q : unit -> world (sys C) -> Prop) :
  st w0 M P w -> (forall w', st w0 M P w' -> Q tt w') -> wp (spin_unlock l) Q w.
Proof. intros [] HQ. by apply wp_sys_do, HQ. Qed.

Lemma st_port w0 M P w p x (Q : port -> world (sys C) -> Prop) :
  st w0 M P w -> P !! p = Some x -> Q x w -> wp (port_at p) Q w.
Proof. intros [] Hx HQ. apply (wp_port_at p x); congruence. Qed.


Lemma st_set_port w0 M P w p f (Q : unit -> world (sys C) -> Prop) :
  st w0 M P w -> is_Some (P !! p) -> (forall w', st w0 M (alter f p P) w' -> Q tt w') -> wp (set_port p f) Q w.
Proof.
  intros S [x Hx] HQ. unfold set_port. eapply wp_bind, st_port; [done | done |]. apply wp_sys_do, HQ.
  rewrite <- (alter_found f p x) by done. destruct S. split; try done. cbn. congruence.
Qed.

Lemma st_down w0 M P w m (Q : unit -> world (sys C) -> Prop) :
  st w0 M P w -> m ∉ M -> (forall w', st w0 ({[m]} ∪ M) P w' -> Q tt w') -> wp (down m) Q w.
Proof.
  intros [] Hm HQ. subst. unfold down. apply wp_bind, wp_sys_get. rewrite decide_False by done. by apply wp_sys_do, HQ.
Qed.

Lemma st_up w0 M P w m (Q : unit -> world (sys C) -> Prop) :
  st w0 ({[m]} ∪ M) P w -> m ∉ M -> (forall w', st w0 M P w' -> Q tt w') -> wp (up m) Q w.
Proof.
  intros [] Hm HQ. apply wp_sys_do, HQ. split; try done. cbn. rewrite st_mutexes0. set_solver.
Qed.

Lemma st_callback w0 M P w f priv info (Q : Z -> world (sys C) -> Prop) :
  st w0 M P w -> (forall w', st w0 M P w' -> Q (answer f priv info) w') -> wp (port_callback f priv info) Q w.
Proof. intros [] HQ. destruct (callback_quiet f priv info w) as [t E]. unfold wp. rewrite E. by apply HQ. Qed.

Lemma st_inc w0 M P w m (Q : bool -> world (sys C) -> Prop) :
  st w0 M P w -> (forall b w', st w0 M P w' -> Q b w') -> wp (try_inc_mod_count m) Q w.
Proof. intros [] HQ. unfold try_inc_mod_count. apply wp_bind, wp_sys_get. apply wp_bind, wp_sys_do, wp_ret. by apply HQ. Qed.

Lemma st_dec w0 M P w m (Q : unit -> world (sys C) -> Prop) :
  st w0 M P w -> (forall w', st w0 M P w' -> Q tt w') -> wp (dec_mod_count m) Q w.
Proof. intros [] HQ. by apply wp_sys_do, HQ. Qed.

Lemma st_when w0 M P w (b : bool) m (Q : unit -> world (sys C) -> Prop) :
  st w0 M P w -> (forall Q' : unit -> world (sys C) -> Prop, (forall w', st w0 M P w' -> Q' tt w') -> wp m Q' w) ->
  (forall w', st w0 M P w' -> Q tt w') -> wp (when b m) Q w.
Proof. intros S Hm HQ. destruct b; cbn [when]; [by apply Hm | by apply wp_ret, HQ]. Qed.

(** ** The counts *)




(** The plan of [snd_seq_port_subscribe] and [snd_seq_port_use]: count up, and back if the
    module or the driver refuses. *)
Definition count_up (mx : mutex) (p : Z) (bump back : port -> port) (inc : port -> ST (world (sys C)) bool) (want : port -> bool)
    (call : port -> ST (world (sys C)) Z) (undo : port -> ST (world (sys C)) unit) : ST (world (sys C)) Z :=
  down mx;;; set_port p bump;;;
  x <- port_at p;; ok <- inc x;;
  result <- (if negb ok then set_port p back;;; ret (-EFAULT)
             else if want x then result <- call x;; when (result <? 0) (set_port p back;;; undo x);;; ret result
             else ret 0);;
  up mx;;; ret result.

(** What may happen beside the ports. *)
Definition beside {A} (m : ST (world (sys C)) A) : Prop := forall w0 M P w (Q : A -> world (sys C) -> Prop),
  st w0 M P w -> (forall a w', st w0 M P w' -> Q a w') -> wp m Q w.

Lemma st_count_up mx p bump back more inc want call undo w0 M P w x (Q : Z -> world (sys C) -> Prop) :
  st w0 M P w -> P !! p = Some x -> mx ∉ M -> bump x = more x -> back (bump x) = x ->
  (forall y, beside (inc y)) -> (forall y, beside (call y)) -> (forall y, beside (undo y)) ->
  (forall rc w', st w0 M (if rc <? 0 then P else alter more p P) w' -> Q rc w') ->
  wp (count_up mx p bump back inc want call undo) Q w.
Proof.
  intros S Hx Hm Eb Ek Hi Hc Hu HQ. unfold count_up.
  assert (E : alter bump p P = alter more p P).
  { apply alter_ext. intros y Hy. rewrite Hx in Hy. injection Hy as <-. exact Eb. }
  pose proof (alter_back bump back p P x Hx Ek) as B. assert (H2 : alter bump p P !! p = Some (bump x)) by by rewrite lookup_alter_eq, Hx.
  eapply wp_bind, st_down; [done | done |]. intros w1 S1.
  eapply wp_bind, st_set_port; [done | eauto |]. intros w2 S2.
  eapply wp_bind, st_port; [done | done |]. eapply wp_bind, Hi; [done |]. intros ok w3 S3. apply wp_bind.
  assert (Hup : forall rc P' w', st w0 ({[mx]} ∪ M) P' w' -> P' = (if rc <? 0 then P else alter more p P) ->
    wp (up mx;;; ret rc) Q w').
  { intros rc P' w' S' ->. eapply wp_bind, st_up; [done | done |]. intros w'' S''. by apply wp_ret, HQ. }
  destruct ok; cbn [negb].
  2: { eapply wp_bind, st_set_port; [done | eauto |]. intros w4 S4. apply wp_ret. eapply Hup; [exact S4 | exact B]. }
  destruct (want _); [| by eapply wp_ret, Hup].
  eapply wp_bind, Hc; [done |]. intros r w4 S4. destruct (r <? 0) eqn:Er; cbn [when].
  - eapply wp_bind, wp_bind, st_set_port; [done | eauto |]. intros w5 S5.
    eapply Hu; [done |]. intros [] w6 S6. apply wp_ret. eapply Hup; [exact S6 |]. rewrite Er. exact B.
  - apply wp_bind, wp_ret, wp_ret. eapply Hup; [exact S4 |]. by rewrite Er.
Qed.

Lemma beside_ret {A} (a : A) : beside (ret a).
Proof. intros w0 M P w Q S HQ. by apply wp_ret, HQ. Qed.

Lemma beside_when b m : beside m -> beside (when b m).
Proof. intros Hm. destruct b; [done | apply beside_ret]. Qed.

Lemma beside_inc m : beside (try_inc_mod_count m).
Proof. intros w0 M P w Q S HQ. by eapply st_inc. Qed.

Lemma beside_dec m : beside (dec_mod_count m).
Proof. intros w0 M P w Q S HQ. eapply st_dec; [done |]. eauto. Qed.

Lemma beside_callback f priv info : beside (port_callback f priv info).
Proof. intros w0 M P w Q S HQ. eapply st_callback; [done |]. eauto. Qed.

Create HintDb beside.
#[local] Hint Resolve beside_ret beside_when beside_inc beside_dec beside_callback : beside.

Lemma st_subscribe w0 M P w p x info (Q : Z -> world (sys C) -> Prop) :
  st w0 M P w -> P !! p = Some x -> SubscribeMutex p ∉ M -> 0 <= pt_subscribe_count x < UINT_MAX ->
  (forall rc w', st w0 M (if rc <? 0 then P else alter more_out p P) w' -> Q rc w') ->
  wp (snd_seq_port_subscribe p info) Q w.
Proof.
  intros S Hx Hm Hc HQ.
  eapply (st_count_up (SubscribeMutex p) p _ _ more_out _ (fun x => truth (pt_subscribe x) && (pt_callback_all x || (pt_subscribe_count x =? 1))));
    try done; try (intros; auto with beside; fail).
  - cbn. unfold more_out. rewrite u32_small; [done | unfold is_u32, UINT_MAX in *; lia].
  - cbn. rewrite count_back by done. by destruct x.
Qed.

Lemma st_use w0 M P w p x info (Q : Z -> world (sys C) -> Prop) :
  st w0 M P w -> P !! p = Some x -> UseMutex p ∉ M -> 0 <= pt_use_count x < UINT_MAX ->
  (forall rc w', st w0 M (if rc <? 0 then P else alter more_in p P) w' -> Q rc w') ->
  wp (snd_seq_port_use p info) Q w.
Proof.
  intros S Hx Hm Hc HQ.
  eapply (st_count_up (UseMutex p) p _ _ more_in _ (fun x => truth (pt_use x) && (pt_callback_all x || (pt_use_count x =? 1))));
    try done; try (intros; auto with beside; fail).
  - cbn. unfold more_in. rewrite u32_small; [done | unfold is_u32, UINT_MAX in *; lia].
  - cbn. rewrite count_back by done. by destruct x.
  - intros y. destruct (from_system info); auto with beside.
Qed.

(** The plan of [snd_seq_port_unsubscribe] and [snd_seq_port_unuse]: count down, but not below 0. *)
Definition count_down (mx : mutex) (p : Z) (n : port -> Z) (set : Z -> port -> port) (want : port -> bool)
    (call : port -> ST (world (sys C)) Z) (undo : port -> ST (world (sys C)) unit) : ST (world (sys C)) Z :=
  down mx;;; x <- port_at p;;
  result <- (if 0 <? n x then
               set_port p (set (n x - 1));;;
               result <- (if want x then call x else ret 0);;
               undo x;;; ret result
             else ret 0);;
  up mx;;; ret result.

Lemma st_count_down mx p n set want call undo w0 M P w (Q : Z -> world (sys C) -> Prop) :
  st w0 M P w -> is_Some (P !! p) -> mx ∉ M -> (forall y, beside (call y)) -> (forall y, beside (undo y)) ->
  (forall rc w', st w0 M (alter (fun x => if 0 <? n x then set (n x - 1) x else x) p P) w' -> Q rc w') ->
  wp (count_down mx p n set want call undo) Q w.
Proof.
  intros S [x Hx] Hm Hc Hu HQ. unfold count_down.
  eapply wp_bind, st_down; [done | done |]. intros w1 S1. eapply wp_bind, st_port; [done | done |]. apply wp_bind.
  assert (Hup : forall rc P' w', st w0 ({[mx]} ∪ M) P' w' ->
    P' = alter (fun x => if 0 <? n x then set (n x - 1) x else x) p P -> wp (up mx;;; ret rc) Q w').
  { intros rc P' w' S' ->. eapply wp_bind, st_up; [done | done |]. intros w'' S''. by apply wp_ret, HQ. }
  destruct (0 <? n x) eqn:En.
  - eapply wp_bind, st_set_port; [done | eauto |]. intros w2 S2.
    assert (E : alter (set (n x - 1)) p P = alter (fun x => if 0 <? n x then set (n x - 1) x else x) p P).
    { apply alter_ext. intros y Hy. rewrite Hx in Hy. injection Hy as <-. by rewrite En. }
    assert (Hcall : beside (if want x then call x else ret 0)) by (destruct (want x); auto with beside).
    eapply wp_bind, Hcall; [done |]. intros r w3 S3. eapply wp_bind, Hu; [done |]. intros [] w4 S4. by eapply wp_ret, Hup.
  - eapply wp_ret, Hup; [done |]. symmetry. apply alter_id. intros y Hy. rewrite Hx in Hy. injection Hy as <-. by rewrite En.
Qed.


Lemma st_unsubscribe w0 M P w p info (Q : Z -> world (sys C) -> Prop) :
  st w0 M P w -> is_Some (P !! p) -> SubscribeMutex p ∉ M ->
  (forall rc w', st w0 M (alter down_out p P) w' -> Q rc w') -> wp (snd_seq_port_unsubscribe p info) Q w.
Proof.
  intros S Hx Hm HQ.
  eapply (st_count_down (SubscribeMutex p) p pt_subscribe_count (fun n x => x <| pt_subscribe_count := n |>)
    (fun x => truth (pt_unsubscribe x) && (pt_callback_all x || (pt_subscribe_count x - 1 =? 0))));
    try done; intros; auto with beside.
Qed.

Lemma st_unuse w0 M P w p info (Q : Z -> world (sys C) -> Prop) :
  st w0 M P w -> is_Some (P !! p) -> UseMutex p ∉ M ->
  (forall rc w', st w0 M (alter down_in p P) w' -> Q rc w') -> wp (snd_seq_port_unuse p info) Q w.
Proof.
  intros S Hx Hm HQ.
  eapply (st_count_down (UseMutex p) p pt_use_count (fun n x => x <| pt_use_count := n |>)
    (fun x => truth (pt_unuse x) && (pt_callback_all x || (pt_use_count x - 1 =? 0))));
    try done; intros; auto with beside.
Qed.

(** ** The groups *)

Lemma st_group_do w0 M P w p x export f (Q : Z -> world (sys C) -> Prop) :
  st w0 M P w -> P !! p = Some x ->
  (forall w', st w0 M (alter (with_group export (f (group_of export x)).2) p P) w' -> Q (f (group_of export x)).1 w') ->
  wp (group_do p export f) Q w.
Proof.
  intros S Hx HQ. unfold group_do. eapply wp_bind, st_lock; [done |]. intros w1 S1.
  eapply wp_bind, wp_bind, st_port; [done | done |]. apply wp_ret.
  eapply wp_bind, st_set_port; [done | eauto |]. intros w2 S2.
  eapply wp_bind, st_unlock; [done |]. intros w3 S3. by apply wp_ret, HQ.
Qed.


Lemma st_is_subscribed w0 M P w p x export a (Q : bool -> world (sys C) -> Prop) :
  st w0 M P w -> P !! p = Some x ->
  (forall w', st w0 M P w' -> Q (bool_decide (a ∈ sb_addr <$> g_list (group_of export x))) w') ->
  wp (snd_seq_port_is_subscribed p export a) Q w.
Proof.
  intros S Hx HQ. unfold snd_seq_port_is_subscribed, snd_seq_port_get_subscription.
  eapply wp_bind, wp_bind, st_lock; [done |]. intros w1 S1. eapply wp_bind, wp_bind, st_port; [done | done |]. apply wp_ret.
  destruct (List.find _ _) as [s |] eqn:E.
  - apply List.find_some in E as [Hs E]. rewrite addr_compare_eq in E. apply bool_decide_eq_true in E as <-.
    rewrite bool_decide_eq_true_2 in HQ by (by apply list_elem_of_fmap_2, list_elem_of_In).
    apply wp_ret. eapply wp_bind, st_unlock; [done |]. intros w2 S2. by apply wp_ret, HQ.
  - rewrite bool_decide_eq_false_2 in HQ.
    + eapply wp_bind, st_unlock; [done |]. intros w2 S2. by apply wp_ret, wp_ret, HQ.
    + intros (s & -> & Hs)%list_elem_of_fmap. apply List.find_none with (x := s) in E; [| by apply list_elem_of_In].
      rewrite addr_compare_eq in E. by apply bool_decide_eq_false in E.
Qed.

(** ** Connecting two ports *)




Lemma wp_connect_check w p x export perm info (Q : Z -> world (sys C) -> Prop) :
  sy_ports (w_core w) !! p = Some x -> (forall rc, Q rc w) -> wp (connect_check p export perm info) Q w.
Proof.
  intros Hx HQ. unfold connect_check, check_port_perm. eapply wp_bind, wp_bind, wp_port_at; [done |]. apply wp_ret.
  destruct (negb _); [by apply wp_ret |]. eapply wp_bind, wp_port_at; [done |].
  destruct (_ && _); [by apply wp_ret |]. by destruct (g_exclusive _); apply wp_ret.
Qed.

Lemma st_add w0 M P w p x export a info ex (Q : Z -> world (sys C) -> Prop) :
  st w0 M P w -> P !! p = Some x -> (forall w', st w0 M P w' -> Q (-ENOMEM) w') ->
  (forall w', st w0 M (alter (with_group export (group_add a info ex (group_of export x)).2) p P) w' ->
     Q (group_add a info ex (group_of export x)).1 w') ->
  wp (snd_seq_port_add_subscriber p export a info ex) Q w.
Proof.
  intros S Hx HQ1 HQ2. unfold snd_seq_port_add_subscriber. apply wp_bind. unfold wp at 1, get.
  destruct (negb (alloc_subscriber w)); [by apply wp_ret, HQ1 | by eapply st_group_do].
Qed.


Section Making.
Variables (w0 : world (sys C)) (P : gmap Z port) (home : homes) (K : wires) (sp dp : Z) (xs xd : port) (i : subscribe_info).
Hypothesis W : wired P home K.
Hypothesis Hs : home !! s_sender i = Some sp.
Hypothesis Hd : home !! s_dest i = Some dp.
Hypothesis Hxs : P !! sp = Some xs.
Hypothesis Hxd : P !! dp = Some xd.
Hypothesis Hqb : is_byte (s_queue i).

(** What a chain of changes of the two ports leaves as it was. *)
Lemma rewired_same ge gi P' :
  group_ok ge (fun b j => K !! (s_sender i, b) = Some j) -> group_ok gi (fun b j => K !! (b, s_dest i) = Some j) ->
  regrouped P P' sp dp ge gi -> same_shape home P P' -> rewired home P P' K.
Proof using W Hs Hd.
  intros Ge Gi R S. split; [| done]. apply (wired_set P P' home K K (s_sender i) (s_dest i) sp dp ge gi); try done.
  intros j Hj. destruct (wd_ends _ _ _ W _ _ _ Hj) as (? & ? & ? & _). done.
Qed.

Lemma nothing_made rc P' : rc < 0 -> regrouped P P' sp dp (pt_export xs) (pt_import xd) -> same_shape home P P' ->
  connected home K i P rc P'.
Proof using W Hs Hd Hxs Hxd.
  intros Hrc R S. left. split; [done |]. eapply rewired_same; [| | exact R | exact S].
  - eapply (sender_ok P home K sp xs i); done.
  - eapply (dest_ok P home K dp xd i); done.
Qed.

(** Both counts go back. *)
Lemma wp_give_up P' w rc (Q : Z -> world (sys C) -> Prop) :
  st w0 ∅ P' w -> is_Some (P' !! sp) -> is_Some (P' !! dp) ->
  (forall w', st w0 ∅ (alter down_in dp (alter down_out sp P')) w' -> Q rc w') ->
  wp (snd_seq_port_unsubscribe sp i;;; snd_seq_port_unuse dp i;;; ret rc) Q w.
Proof using All.
  intros S H1 H2 HQ. eapply wp_bind, st_unsubscribe; [done | done | set_solver |]. intros r w1 S1.
  eapply wp_bind, st_unuse; [done | | set_solver |].
  - rewrite lookup_alter_if. destruct H2 as [? ->]. eauto.
  - intros r' w2 S2. by apply wp_ret, HQ.
Qed.

Lemma wp_add_both w (Q : Z -> world (sys C) -> Prop) :
  st w0 ∅ (alter more_in dp (alter more_out sp P)) w -> K !! (s_sender i, s_dest i) = None ->
  (forall rc P' w', connected home K i P rc P' -> st w0 ∅ P' w' -> Q rc w') ->
  wp (result <- snd_seq_port_add_subscriber sp true (s_dest i) i (exclusive i);;
      if result <? 0 then snd_seq_port_unsubscribe sp i;;; snd_seq_port_unuse dp i;;; ret result else
      result <- snd_seq_port_add_subscriber dp false (s_sender i) i (exclusive i);;
      if result <? 0 then
        snd_seq_port_remove_subscriber sp true (s_dest i) i;;;
        snd_seq_port_unsubscribe sp i;;; snd_seq_port_unuse dp i;;; ret result
      else ret 0) Q w.
Proof using All.
  intros S Hn HQ.
  pose proof (sender_ok P home K sp xs i W Hs Hxs) as Os. pose proof (dest_ok P home K dp xd i W Hd Hxd) as Od.
  destruct (port_small _ _ _ _ _ _ W Hs Os) as [Ss _]. destruct (port_small _ _ _ _ _ _ W Hd Od) as [_ Sd].
  assert (H2 : exists y, alter more_in dp (alter more_out sp P) !! sp = Some y /\ pt_export y = pt_export xs).
  { rewrite !lookup_alter_if, Hxs. cbn. eexists. split; [done |]. by repeat case_decide. }
  destruct H2 as (y & Hy & Ey).
  apply wp_bind. eapply st_add; [exact S | exact Hy | |].
  { intros w' S'. eapply wp_give_up; [exact S' | eauto | rewrite !lookup_alter_if, Hxd; eauto |]. intros w'' S''.
    eapply HQ; [| exact S'']. apply nothing_made; [done | counts | shape Hs Hd]. }
  cbn [group_of]. rewrite Ey.
  destruct (group_add_ok (pt_export xs) _ (s_dest i) i (exclusive i) (po_export _ _ _ Os)) as [-> | (ge & -> & Le & Ge)];
    [intros j; rewrite Hn; done | lia | |]; intros w1 S1; cbn [fst snd] in *.
  { cbn [Z.ltb Z.compare Z.opp EBUSY]. eapply wp_give_up; [exact S1 | rewrite !lookup_alter_if, Hxs; eauto | rewrite !lookup_alter_if, Hxd; eauto |].
    intros w'' S''. eapply HQ; [| exact S'']. apply nothing_made; [done | counts | shape Hs Hd]. }
  cbn [Z.ltb Z.compare].
  assert (H3 : exists y, alter (with_group true ge) sp (alter more_in dp (alter more_out sp P)) !! dp = Some y /\ pt_import y = pt_import xd).
  { rewrite !lookup_alter_if, Hxd. cbn. eexists. split; [done |]. by repeat case_decide. }
  clear y Hy Ey. destruct H3 as (y & Hy & Ey).
  (* undoing the first half *)
  assert (Hundo : forall rc f w', rc < 0 -> (forall x, pt_import x = pt_import xd -> f x = x) ->
    st w0 ∅ (alter f dp (alter (with_group true ge) sp (alter more_in dp (alter more_out sp P)))) w' ->
    wp (snd_seq_port_remove_subscriber sp true (s_dest i) i;;; snd_seq_port_unsubscribe sp i;;; snd_seq_port_unuse dp i;;; ret rc) Q w').
  { intros rc f w' Hrc Ef S'.
    assert (E : alter f dp (alter (with_group true ge) sp (alter more_in dp (alter more_out sp P))) =
      alter (with_group true ge) sp (alter more_in dp (alter more_out sp P))).
    { apply alter_id. intros x Hx. apply Ef. congruence. }
    rewrite E in S'. clear E Ef f.
    assert (H4 : exists z, alter (with_group true ge) sp (alter more_in dp (alter more_out sp P)) !! sp = Some z /\ pt_export z = ge).
    { rewrite !lookup_alter_if, Hxs. cbn. eexists. split; [done |]. by rewrite decide_True. }
    destruct H4 as (z & Hz & Ez). apply wp_bind. eapply st_group_do; [exact S' | exact Hz |]. cbn [group_of]. rewrite Ez.
    destruct (group_remove_ok ge _ (s_dest i) i i Ge) as (ge' & -> & Le' & Ge'); [auto | done | lia |].
    intros w2 S2. eapply wp_give_up; [exact S2 | rewrite !lookup_alter_if, Hxs; eauto | rewrite !lookup_alter_if, Hxd; eauto |].
    intros w3 S3. eapply HQ; [| exact S3]. left. split; [done |].
    eapply (rewired_same ge' (pt_import xd)); [| apply Od | counts | shape Hs Hd].
    eapply group_mono; [| exact Ge']. intros b j. cbn. split; [intros [[? | [? _]] ?]; done |].
    intros Hb. split; [auto |]. intros ->. congruence. }
  apply wp_bind. eapply st_add; [exact S1 | exact Hy | |].
  { intros w' S'. eapply (Hundo (-ENOMEM) id); [done | done |]. eapply st_map; [| exact S']. symmetry. by apply alter_id. }
  cbn [group_of]. rewrite Ey.
  destruct (group_add_ok (pt_import xd) _ (s_sender i) i (exclusive i) (po_import _ _ _ Od)) as [-> | (gi & -> & Li & Gi)];
    [intros j; rewrite Hn; done | lia | |]; intros w2 S2; cbn [fst snd] in *.
  { eapply (Hundo (-EBUSY)); [done | | exact S2]. intros x Ex. rewrite <- Ex. apply (with_same_group false). }
  apply wp_ret. eapply HQ; [| exact S2]. right. split_and!; [done | done |]. split; [| shape Hs Hd].
  by eapply (wired_connect P home K sp dp xs xd i).
Qed.
End Making.

Lemma wp_make_connection w0 P w home K sp dp i (Q : Z -> world (sys C) -> Prop) :
  st w0 ∅ P w -> wired P home K -> home !! s_sender i = Some sp -> home !! s_dest i = Some dp -> is_byte (s_queue i) ->
  K !! (s_sender i, s_dest i) = None ->
  (forall rc P' w', connected home K i P rc P' -> st w0 ∅ P' w' -> Q rc w') ->
  wp (make_connection sp dp i) Q w.
Proof.
  intros S W Hs Hd Hqb Hn HQ.
  destruct (wd_port _ _ _ W _ _ Hs) as (xs & Hxs & Os). destruct (wd_port _ _ _ W _ _ Hd) as (xd & Hxd & Od).
  destruct (port_small _ _ _ _ _ _ W Hs Os) as [Ss _]. destruct (port_small _ _ _ _ _ _ W Hd Od) as [_ Sd].
  pose proof (po_subscribe _ _ _ Os) as Cs. pose proof (po_use _ _ _ Od) as Cd.
  assert (Hfail : forall rc P' w', rc < 0 -> regrouped P P' sp dp (pt_export xs) (pt_import xd) -> same_shape home P P' ->
    st w0 ∅ P' w' -> Q rc w').
  { intros rc P' w' Hrc R Sh S'. eapply HQ; [| exact S']. by apply (nothing_made P home K sp dp xs xd i). }
  unfold make_connection.
  eapply wp_bind, st_subscribe; [done | done | set_solver | unfold UINT_MAX; lia |]. intros rc w1 S1.
  destruct (rc <? 0) eqn:E1; [apply wp_ret; eapply Hfail; [lia | | | exact S1]; [counts | shape Hs Hd] |].
  assert (H1 : exists y, alter more_out sp P !! dp = Some y /\ pt_use_count y = pt_use_count xd).
  { rewrite lookup_alter_if, Hxd. cbn. eexists. split; [done |]. by case_decide. }
  destruct H1 as (y1 & Hy1 & Ey1).
  eapply wp_bind, st_use; [done | done | set_solver | unfold UINT_MAX; lia |]. clear rc E1. intros rc w2 S2.
  destruct (rc <? 0) eqn:E1.
  { eapply wp_bind, st_unsubscribe; [done | rewrite lookup_alter_if, Hxs; cbn; eauto | set_solver |]. intros r w3 S3.
    apply wp_ret. eapply Hfail; [lia | | | exact S3]; [counts | shape Hs Hd]. }
  by eapply (wp_add_both w0 P home K sp dp xs xd i).
Qed.

Lemma wp_connect_ports w0 P w home K sp dp i cs cd (Q : Z -> world (sys C) -> Prop) :
  st w0 ∅ P w -> wired P home K -> home !! s_sender i = Some sp -> home !! s_dest i = Some dp -> is_byte (s_queue i) ->
  (forall rc P' w', connected home K i P rc P' -> st w0 ∅ P' w' -> Q rc w') ->
  wp (connect_ports sp dp i cs cd) Q w.
Proof.
  intros S W Hs Hd Hqb HQ.
  destruct (wd_port _ _ _ W _ _ Hs) as (xs & Hxs & Os). destruct (wd_port _ _ _ W _ _ Hd) as (xd & Hxd & Od).
  assert (Hfail : forall rc w', rc < 0 -> st w0 ∅ P w' -> Q rc w').
  { intros rc w' Hrc. apply HQ. left. done. }
  unfold connect_ports. apply wp_bind.
  assert (Hcheck : forall (b : bool) p x export perm (Q' : Z -> world (sys C) -> Prop), P !! p = Some x -> (forall rc, Q' rc w) ->
    wp (if b then connect_check p export perm i else ret 0) Q' w).
  { intros [] p x export perm Q' Hx HQ'; [| by apply wp_ret]. eapply wp_connect_check; [| done]. by rewrite (st_ports _ _ _ _ S). }
  eapply Hcheck; [done |]. intros rc. destruct (rc <? 0) eqn:E1; [apply wp_ret, Hfail; [lia | done] |].
  eapply wp_bind, Hcheck; [done |]. clear rc E1. intros rc. destruct (rc <? 0) eqn:E1; [apply wp_ret, Hfail; [lia | done] |].
  eapply wp_bind, st_is_subscribed; [done | done |]. intros w1 S1. apply wp_bind. cbn [group_of].
  case_bool_decide as N1; [by apply wp_ret, wp_ret, Hfail |].
  eapply st_is_subscribed; [done | done |]. intros w2 S2. case_bool_decide as N2; [by apply wp_ret, Hfail |].
  eapply wp_make_connection; try done. destruct (K !! (s_sender i, s_dest i)) as [j |] eqn:Ek; [| done].
  exfalso. apply N1, (group_in _ _ _ (po_export _ _ _ Os)). eauto.
Qed.
End Wiring.

