(* ===== verification/SeqWired.v ===== *)
(** * SeqWired: connecting and disconnecting

    The calls that connect and disconnect ports, with their announcements, over the changes of
    ports of SeqWiring.v: a system in order stays in order, and its connections are what the
    map says. *)

From S2P Require Import Prelude SeqEvent SeqCells SeqMemory SeqCopy SeqFifo SeqFifoSpec SeqPrioq SeqTimer SeqQueue SeqWorld.
From S2P Require Import SeqPorts SeqRoute SeqConnect SeqMail SeqRouteSpec SeqWiring SeqRewire.
Open Scope Z_scope.
Open Scope state_scope.

Section Wired.
Context {C : Type} `{QuietDrivers C} `{!QuietCallbacks C}.
Implicit Types (w : world (sys C)) (F : mail) (P : gmap Z port) (M : gset mutex) (home : homes) (K : wires).

(** ** The whole system *)

Record sound w home K : Prop := {
  sd_mail : exists F, sys_ok w F;
  sd_clocks : clocks_ok w;
  sd_wired : wired (sy_ports (w_core w)) home K;
  sd_table : table (w_core w) home;
  sd_free : sy_mutexes (w_core w) = ∅ }.

Lemma find_number (S : sys C) n l p x : a_find S n l = Some (p, x) -> p ∈ l /\ sy_ports S !! p = Some x /\ pt_port x = n.
Proof.
  induction l as [| q l IH]; cbn [a_find]; [done |]. destruct (sy_ports S !! q) as [y |] eqn:Hy; [| done].
  destruct (Z.eqb_spec (pt_port y) n) as [E | N].
  - intros [= <- <-]. split_and!; [left | done | done].
  - intros [? ?]%IH. split; [by right | done].
Qed.

Lemma port_of_find (S : sys C) a p : port_of S a = Some p ->
  exists cl x, sy_clients S !! addr_client a = Some cl /\ 0 <= addr_client a < SEQ_MAX_CLIENTS /\ p ∈ cl_ports cl /\
    sy_ports S !! p = Some x /\ pt_port x = addr_port a /\ a_find S (addr_port a) (cl_ports cl) = Some (p, x).
Proof.
  unfold port_of, a_client. destruct (_ && _) eqn:E; [| done]. destruct (sy_clients S !! addr_client a) as [cl |]; [| done].
  destruct (a_find S (addr_port a) (cl_ports cl)) as [[q x] |] eqn:Ef; [| done]. intros [= <-].
  destruct (find_number _ _ _ _ _ Ef) as (? & ? & ?). exists cl, x. split_and!; [done | lia | lia | done..].
Qed.

(** The address of a port is that of the client that lists it. *)
Lemma home_address (S : sys C) home c cl p x a : table S home -> sy_clients S !! c = Some cl -> p ∈ cl_ports cl ->
  sy_ports S !! p = Some x -> home !! a = Some p -> a = Addr c (pt_port x).
Proof.
  intros T Hc Hp Hx Ha. apply (tb_home _ _ T), port_of_find in Ha as (cl' & x' & Hc' & _ & Hp' & Hx' & En & _).
  assert (c = addr_client a) as -> by by eapply (tb_apart _ _ T). rewrite Hx in Hx'. injection Hx' as <-. rewrite En. by destruct a.
Qed.

Lemma find_shape (S S' : sys C) n l : (forall q, pt_port <$> sy_ports S' !! q = pt_port <$> sy_ports S !! q) ->
  fst <$> a_find S' n l = fst <$> a_find S n l.
Proof.
  intros E. induction l as [| q l IH]; cbn [a_find]; [done |]. specialize (E q).
  destruct (sy_ports S' !! q) as [x' |], (sy_ports S !! q) as [x |]; try done. cbn in E. injection E as ->.
  by destruct (_ =? _).
Qed.

Lemma table_wired w home K : sound w home K -> table_ok w.
Proof.
  intros D c cl p x s Hc Hp Hx Hs. pose proof (sd_wired _ _ _ D) as W. pose proof (sd_table _ _ _ D) as T.
  destruct (decide (home !! (Addr c (pt_port x)) = Some p)) as [E | N].
  - destruct (wd_port _ _ _ W _ _ E) as (y & Hy & [Oe _ _ _]). rewrite Hx in Hy. injection Hy as <-.
    apply Oe in Hs. destruct (wd_ends _ _ _ W _ _ _ Hs) as (_ & _ & Hq & _ & [q Hb]). split; [by eapply wd_byte | done].
  - destruct (tb_silent _ _ T _ _ _ _ Hc Hp Hx N) as (E & _). rewrite E in Hs. by apply elem_of_nil in Hs.
Qed.

(** The rest of the world is as before, up to the FIFOs. *)
Record drift w w' : Prop := {
  dr_queues : w_queues w' = w_queues w;
  dr_now : w_now w' = w_now w;
  dr_interrupt : w_interrupt w' = w_interrupt w;
  dr_clients : bare <$> sy_clients (w_core w') = bare <$> sy_clients (w_core w);
  dr_mutexes : sy_mutexes (w_core w') = sy_mutexes (w_core w) }.

Lemma drift_refl w : drift w w.
Proof. done. Qed.

Lemma drift_trans w1 w2 w3 : drift w1 w2 -> drift w2 w3 -> drift w1 w3.
Proof. intros [] []. split; congruence. Qed.

Lemma drift_calm w w' : calm w w' -> drift w w'.
Proof. by intros []. Qed.

Lemma drift_st w P w' : sy_mutexes (w_core w) = ∅ -> st w ∅ P w' -> drift w w'.
Proof. intros E []. split; congruence. Qed.

Lemma drift_client w w' c cl' : drift w w' -> sy_clients (w_core w') !! c = Some cl' ->
  exists cl, sy_clients (w_core w) !! c = Some cl /\ bare cl' = bare cl /\ cl_ports cl' = cl_ports cl.
Proof.
  intros D Hc. pose proof (dr_clients _ _ D) as E. apply (f_equal (lookup c)) in E. rewrite !lookup_fmap, Hc in E.
  destruct (sy_clients (w_core w) !! c) as [cl |]; [| done]. apply (inj Some) in E. exists cl.
  split_and!; [done | done | apply (bare_fields cl cl' E)].
Qed.

Lemma drift_port_of w w' home P' a : drift w w' -> sy_ports (w_core w') = P' -> same_shape home (sy_ports (w_core w)) P' ->
  port_of (w_core w') a = port_of (w_core w) a.
Proof.
  intros D <- Sh. unfold port_of, a_client. destruct (_ && _); [| done].
  pose proof (dr_clients _ _ D) as E. apply (f_equal (lookup (addr_client a))) in E. rewrite !lookup_fmap in E.
  destruct (sy_clients (w_core w') !! addr_client a) as [cl' |], (sy_clients (w_core w) !! addr_client a) as [cl |]; try done.
  apply (inj Some), bare_fields in E as (_ & _ & _ & _ & _ & -> & _). apply find_shape, Sh.
Qed.

Lemma sound_drift w w' P' F' home K K' :
  sound w home K -> drift w w' -> sy_ports (w_core w') = P' -> rewired home (sy_ports (w_core w)) P' K' -> sys_ok w' F' ->
  sound w' home K'.
Proof.
  intros S D Ep [W' Sh] ok. pose proof (sd_table _ _ _ S) as T. split; [eauto | | congruence | |].
  - intros id q Hq. rewrite (dr_now _ _ D). apply (sd_clocks _ _ _ S id q). unfold lookup_queue in *. by rewrite (dr_queues _ _ D) in Hq.
  - pose proof (fun a => drift_port_of _ _ _ _ a D Ep Sh) as Ea. split.
    + intros a p Ha. rewrite Ea. by apply T.
    + intros a p. rewrite Ea. apply T.
    + intros c cl' p x (cl & Hc & _ & ->)%(drift_client _ _ _ _ D) Hp Hx Ha. rewrite Ep in Hx. destruct (Sh p) as [En Es].
      rewrite Es in Hx; [by eapply (tb_silent _ _ T) |]. intros a Hh. apply Ha.
      pose proof (tb_home _ _ T _ _ Hh) as Hh2. apply port_of_find in Hh2 as (cl2 & y & Hc2 & _ & Hp' & Hy & _).
      rewrite Hx, Hy in En. cbn in En. injection En as ->. by rewrite <- (home_address _ _ _ _ _ _ _ T Hc Hp Hy Hh).
    + intros c cl' (cl & Hc & _ & ->)%(drift_client _ _ _ _ D). by eapply T.
    + intros c c' cl1 cl2 p (cl & Hc & _ & ->)%(drift_client _ _ _ _ D) (cl' & Hc' & _ & ->)%(drift_client _ _ _ _ D).
      by apply (tb_apart _ _ T).
  - rewrite (dr_mutexes _ _ D). apply S.
Qed.

(** What a delivery needs. *)
Record ready w F : Prop := { rd_sys : sys_ok w F; rd_clocks : clocks_ok w; rd_table : table_ok w }.

Lemma sound_ready w home K : sound w home K -> exists F, ready w F.
Proof. intros S. destruct (sd_mail _ _ _ S) as [F ok]. exists F. split; [done | apply S | by eapply table_wired]. Qed.

Lemma ready_calm w w' F F' : ready w F -> calm w w' -> sys_ok w' F' -> ready w' F'.
Proof.
  intros [ok Ck Tk] Ca ok'. split; [done | |].
  - intros id q Hq. rewrite (ca_now _ _ Ca). apply (Ck id q). unfold lookup_queue in *. by rewrite (ca_queues _ _ Ca) in Hq.
  - intros c cl' p x s Hc. rewrite (ca_ports _ _ Ca).
    destruct (calm_client _ _ _ _ Ca Hc) as (cl & Hc' & (_ & _ & _ & _ & _ & -> & _)%bare_fields). intros Hp Hx Hs. by eapply Tk.
Qed.

(** No port got a subscriber that is not fit for delivery. *)
Definition fit P P' : Prop := forall q,
  (is_Some (P !! q) -> is_Some (P' !! q)) /\
  (forall x', P' !! q = Some x' -> exists x, P !! q = Some x /\ forall s, s ∈ g_list (pt_export x') -> s ∈ g_list (pt_export x) \/ subscriber_ok s).

Lemma ready_st w M P' w' F : ready w F -> st w M P' w' -> fit (sy_ports (w_core w)) P' -> ready w' F.
Proof.
  intros [ok Ck Tk] S Fi. split.
  - split; [unfold fifos; rewrite (st_mem _ _ _ _ S), (st_clients _ _ _ _ S); apply ok |]. intros c cl p Hc Hp. rewrite (st_clients _ _ _ _ S) in Hc.
    destruct (so_ports _ _ ok _ _ _ Hc Hp) as [Hn Hx]. split; [done |]. rewrite (st_ports _ _ _ _ S). by apply Fi.
  - intros id q Hq. rewrite (st_now _ _ _ _ S). apply (Ck id q). unfold lookup_queue in *. by rewrite (st_queues _ _ _ _ S) in Hq.
  - intros c cl p x s Hc Hp Hx Hs. rewrite (st_clients _ _ _ _ S) in Hc. rewrite (st_ports _ _ _ _ S) in Hx. destruct (Fi p) as [_ Fp].
    destruct (Fp x Hx) as (y & Hy & Hsub). destruct (Hsub s Hs) as [Hs' |]; [by eapply Tk | done].
Qed.

(** ** Announcements *)

Context (address_u32 : forall e, is_u32 (event_address e)).

(** An event of the system client. *)
Lemma wp_dispatch w F c e hop (Q : Z -> world (sys C) -> Prop) :
  ready w F -> (forall c', is_byte c' -> letter (w_mem w) F (e <| ev_queue := QUEUE_DIRECT |> <| ev_source := Addr c' (addr_port (ev_source e)) |>) []) ->
  plain e -> (forall rc F' w', calm w w' -> ready w' F' -> Q rc w') ->
  wp (kernel_client_dispatch c e false hop) Q w.
Proof.
  intros R Hl Hp HQ. assert (HQ0 : forall rc, Q rc w) by (intros; eapply HQ; [apply calm_refl | exact R]).
  unfold kernel_client_dispatch. destruct (truth _); [by apply wp_ret |]. apply wp_bind, wp_use_ptr.
  case_bool_decide as Hc; cbn [negb]; [| by apply wp_ret]. destruct Hc as [cl Hc]. unfold a_client in Hc.
  destruct (_ && _) eqn:Eb; [| done]. eapply wp_bind, wp_client_at; [exact Hc |].
  destruct (negb _); [by apply wp_ret |].
  assert (Hcb : is_byte c) by (unfold is_byte, SEQ_MAX_CLIENTS in *; lia).
  eapply (wp_deliver_event address_u32 w F c _ []); [apply R | apply R | apply R | by apply Hl | done | done | eauto |].
  intros w' rc (_ & Ca & ok & _). by eapply HQ, ready_calm.
Qed.

Lemma connect_word_u32 a b : byte_addr a -> byte_addr b -> is_u32 (connect_word a b).
Proof. intros [? ?] [? ?]. unfold connect_word, word, is_u32, is_byte in *. lia. Qed.

Lemma wp_notify w F client port i evtype (Q : Z -> world (sys C) -> Prop) :
  ready w F -> is_byte client -> is_byte port -> byte_addr (s_sender i) -> byte_addr (s_dest i) ->
  is_byte evtype -> evtype <> EVENT_KERNEL_QUOTE ->
  (forall rc F' w', calm w w' -> ready w' F' -> Q rc w') ->
  wp (snd_seq_client_notify_subscription client port i evtype) Q w.
Proof.
  intros R Hc Hp Hs Hd Ht Hk HQ. unfold snd_seq_client_notify_subscription, snd_seq_system_notify. apply wp_bind, wp_sys_get.
  eapply wp_dispatch; [done | | done | done]. intros c' Hc'. split; [| by exists []].
  pose proof (connect_word_u32 _ _ Hs Hd). pose proof (Z.mod_pos_bound (sy_announce (w_core w)) 256).
  unfold is_byte in *. split; cbn; rewrite !Forall_cons, Forall_nil; unfold is_u32, is_byte, QUEUE_DIRECT, id in *; lia.
Qed.

Lemma wp_announce w F i evtype (Q : unit -> world (sys C) -> Prop) :
  ready w F -> byte_addr (s_sender i) -> byte_addr (s_dest i) -> is_byte evtype -> evtype <> EVENT_KERNEL_QUOTE ->
  (forall F' w', calm w w' -> ready w' F' -> Q tt w') -> wp (announce i evtype) Q w.
Proof.
  intros. apply wp_bind. by eapply wp_notify.
Qed.

Lemma wp_notify_user w F client but a i evtype (Q : unit -> world (sys C) -> Prop) :
  ready w F -> byte_addr a -> is_Some (sy_clients (w_core w) !! addr_client a) ->
  byte_addr (s_sender i) -> byte_addr (s_dest i) -> is_byte evtype -> evtype <> EVENT_KERNEL_QUOTE ->
  (forall F' w', calm w w' -> ready w' F' -> Q tt w') -> wp (notify_user client but a i evtype) Q w.
Proof.
  intros R Ha [cl Hc] Hs Hd Ht Hk HQ. unfold notify_user. eapply wp_bind, wp_client_at; [exact Hc |].
  destruct (_ && _); cbn [when]; [| by apply wp_ret; eapply HQ; [apply calm_refl | exact R]].
  apply wp_bind. destruct Ha. by eapply wp_notify.
Qed.

(** ** The calls *)

(** The port at an address, locked if there is one. *)
Lemma wp_use_port w M P w1 F home a (Q : Z -> world (sys C) -> Prop) :
  sys_ok w F -> same_shape home (sy_ports (w_core w)) P -> st w M P w1 -> is_Some (a_client (w_core w) (addr_client a)) ->
  (forall w2, st w M P w2 -> Q (default NULL (port_of (w_core w) a)) w2) ->
  wp (snd_seq_port_use_ptr (addr_client a) (addr_port a)) Q w1.
Proof.
  intros ok Sh S [cl Hcl] HQ. pose proof Hcl as Hc. unfold a_client in Hc. destruct (_ && _) eqn:Eb; [| done].
  assert (Ep : port_of (w_core w) a = fst <$> a_find (w_core w) (addr_port a) (cl_ports cl)) by (unfold port_of; by rewrite Hcl).
  assert (Ef : forall w', sy_ports (w_core w') = P ->
    fst <$> a_find (w_core w') (addr_port a) (cl_ports cl) = port_of (w_core w) a).
  { intros w' E. rewrite Ep. apply find_shape. intros q. rewrite E. apply Sh. }
  assert (Hc1 : sy_clients (w_core w1) !! addr_client a = Some cl) by (rewrite (st_clients _ _ _ _ S); exact Hc).
  unfold snd_seq_port_use_ptr. eapply wp_bind, wp_client_at; [exact Hc1 |].
  eapply wp_bind, st_lock; [exact S |]. intros w2 S2.
  assert (Hall : forall w', sy_ports (w_core w') = P -> all_ports w' (cl_ports cl)).
  { intros w' E p Hp. rewrite E. destruct (so_ports _ _ ok _ _ _ Hc Hp) as [Hn [x Hx]]. split; [done |].
    destruct (Sh p) as [En _]. rewrite Hx in En. destruct (P !! p); [eauto | done]. }
  apply wp_bind, wp_find_port; [apply Hall, S2 |]. rewrite Ef by apply S2.
  destruct (port_of (w_core w) a) as [p |] eqn:Ea; cbn [default from_option] in *.
  - pose proof Ea as Hp. apply port_of_find in Hp as (cl' & x & Hc' & _ & Hp & _).
    assert (cl' = cl) as -> by congruence. destruct (so_ports _ _ ok _ _ _ Hc' Hp) as [Hn _].
    unfold id. rewrite (proj2 (Z.eqb_neq _ _) Hn). by apply wp_ret, HQ.
  - rewrite Z.eqb_refl. unfold snd_seq_ports_unlock. eapply wp_bind, wp_bind, wp_client_at.
    { rewrite (st_clients _ _ _ _ S2). exact Hc. }
    eapply st_unlock; [exact S2 |]. intros w3 S3. by apply wp_ret, HQ.
Qed.

Lemma wp_use_home w w1 F home a (Q : Z -> world (sys C) -> Prop) :
  sys_ok w F -> table (w_core w) home -> byte_addr a -> st w ∅ (sy_ports (w_core w)) w1 ->
  is_Some (a_client (w_core w) (addr_client a)) ->
  (forall w2, st w ∅ (sy_ports (w_core w)) w2 -> Q (default NULL (home !! a)) w2) ->
  wp (snd_seq_port_use_ptr (addr_client a) (addr_port a)) Q w1.
Proof.
  intros ok T Ha S Hc HQ. assert (E : home !! a = port_of (w_core w) a).
  { destruct (port_of (w_core w) a) as [p |] eqn:E; [by apply T |].
    destruct (home !! a) as [p |] eqn:E2; [| done]. apply (tb_home _ _ T) in E2. congruence. }
  eapply (wp_use_port w ∅ _ w1 F home); [done | apply same_shape_refl | exact S | done |]. by rewrite <- E.
Qed.

Lemma wp_ports_unlock w P w1 w2 c (Q : unit -> world (sys C) -> Prop) :
  drift w w2 -> is_Some (sy_clients (w_core w) !! c) -> st w1 ∅ P w2 ->
  (forall w3, st w1 ∅ P w3 -> Q tt w3) -> wp (snd_seq_ports_unlock c) Q w2.
Proof.
  intros D [cl Hc] S HQ. unfold snd_seq_ports_unlock. pose proof (dr_clients _ _ D) as E. apply (f_equal (lookup c)) in E.
  rewrite !lookup_fmap, Hc in E. destruct (sy_clients (w_core w2) !! c) as [cl2 |] eqn:Hc2; [| done].
  eapply wp_bind, wp_client_at; [exact Hc2 |]. by eapply st_unlock.
Qed.

Lemma home_client w home a p : table (w_core w) home -> home !! a = Some p -> is_Some (sy_clients (w_core w) !! addr_client a).
Proof. intros T Ha. apply (tb_home _ _ T), port_of_find in Ha as (cl & _ & Hc & _). eauto. Qed.

Lemma home_not_null w F home a p : sys_ok w F -> table (w_core w) home -> home !! a = Some p -> p <> NULL.
Proof.
  intros ok T Ha. apply (tb_home _ _ T), port_of_find in Ha as (cl & x & Hc & _ & Hp & _). by eapply (so_ports _ _ ok).
Qed.

Lemma wp_with_ports w home K subs fail k (Q : Z -> world (sys C) -> Prop) :
  sound w home K -> byte_addr (s_sender subs) -> byte_addr (s_dest subs) ->
  (forall w', st w ∅ (sy_ports (w_core w)) w' -> Q fail w') ->
  (forall sp dp w1, home !! s_sender subs = Some sp -> home !! s_dest subs = Some dp -> st w ∅ (sy_ports (w_core w)) w1 ->
     wp (k sp dp) (fun rc w2 => drift w w2 /\ forall w3, st w2 ∅ (sy_ports (w_core w2)) w3 -> Q rc w3) w1) ->
  wp (with_ports subs fail k) Q w.
Proof.
  intros D Hs Hd HQ1 HQ2. pose proof (sd_table _ _ _ D) as T. destruct (sd_mail _ _ _ D) as [F ok].
  assert (S0 : st w ∅ (sy_ports (w_core w)) w) by (rewrite <- (sd_free _ _ _ D); apply st_start).
  unfold with_ports. apply wp_bind, wp_use_ptr. case_bool_decide as Hcd; cbn [negb]; [| by apply wp_ret, HQ1].
  apply wp_bind, wp_use_ptr. case_bool_decide as Hcs; cbn [negb]; [| by apply wp_ret, HQ1].
  eapply wp_bind, wp_use_home; [done | done | exact Hs | exact S0 | done |]. intros w1 S1.
  destruct (home !! s_sender subs) as [sp |] eqn:Es; cbn [default from_option id].
  2: { unfold id. rewrite Z.eqb_refl. by apply wp_ret, HQ1. }
  unfold id. rewrite (proj2 (Z.eqb_neq _ _) (home_not_null _ _ _ _ _ ok T Es)).
  eapply wp_bind, wp_use_home; [done | done | exact Hd | exact S1 | done |]. intros w2 S2.
  assert (Hfree : sy_mutexes (w_core w) = ∅) by apply D.
  assert (Hend : forall b rc w3, drift w w3 -> (forall w4, st w3 ∅ (sy_ports (w_core w3)) w4 -> Q rc w4) ->
    (b = true -> is_Some (sy_clients (w_core w) !! addr_client (s_dest subs))) ->
    wp (snd_seq_ports_unlock (addr_client (s_sender subs));;;
        when b (snd_seq_ports_unlock (addr_client (s_dest subs)));;; ret rc) Q w3).
  { intros b rc w3 D3 HQ Hb. assert (S3 : st w3 ∅ (sy_ports (w_core w3)) w3).
    { rewrite <- Hfree, <- (dr_mutexes _ _ D3). apply st_start. }
    eapply wp_bind, (wp_ports_unlock w); [exact D3 | by eapply home_client | exact S3 |]. intros w4 S4.
    destruct b; cbn [when].
    - eapply wp_bind, (wp_ports_unlock w); [| auto | exact S4 |].
      + eapply drift_trans; [exact D3 |]. eapply drift_st; [| exact S4]. rewrite (dr_mutexes _ _ D3). exact Hfree.
      + intros w5 S5. by apply wp_ret, HQ.
    - apply wp_bind, wp_ret, wp_ret. by apply HQ. }
  apply wp_bind. destruct (home !! s_dest subs) as [dp |] eqn:Ed; cbn [default from_option id]; unfold id.
  - rewrite (proj2 (Z.eqb_neq _ _) (home_not_null _ _ _ _ _ ok T Ed)). cbn [negb].
    eapply wp_mono; [by apply (HQ2 sp dp w2) |]. intros rc w3 [D3 HQ3]. apply Hend; [done | done |].
    intros _. by eapply home_client.
  - rewrite Z.eqb_refl. cbn [negb]. apply wp_ret. apply Hend; [by eapply drift_st | | done].
    intros w4 S4. apply HQ1. destruct S2, S4. split; congruence.
Qed.

(** What a call may leave: a system in order, with the connections [K']. *)
Definition leaves w home K w' : Prop := drift w w' /\ sound w' home K.

Lemma leaves_st w w2 w3 home K : leaves w home K w2 -> st w2 ∅ (sy_ports (w_core w2)) w3 -> leaves w home K w3.
Proof.
  intros [D So] S. assert (D3 : drift w2 w3) by (eapply drift_st; [apply So | exact S]).
  split; [by eapply drift_trans |]. destruct (sound_ready _ _ _ So) as [F R].
  eapply (sound_drift w2 w3 _ F home K); [done | done | exact (st_ports _ _ _ _ S) | | ].
  - split; [apply So | apply same_shape_refl].
  - eapply ready_st; [exact R | exact S |]. intros q. split; [done |]. eauto.
Qed.

Lemma sys_ok_st w M P' w' F home : sys_ok w F -> st w M P' w' -> same_shape home (sy_ports (w_core w)) P' -> sys_ok w' F.
Proof.
  intros ok S Sh. split; [unfold fifos; rewrite (st_mem _ _ _ _ S), (st_clients _ _ _ _ S); apply ok |].
  intros c cl p Hcl Hp. rewrite (st_clients _ _ _ _ S) in Hcl. destruct (so_ports _ _ ok _ _ _ Hcl Hp) as [Hn [x Hx]].
  split; [done |]. destruct (Sh p) as [E _]. rewrite Hx in E. rewrite (st_ports _ _ _ _ S). destruct (P' !! p); [eauto | done].
Qed.

(** The ports rewired. *)
Lemma leaves_change w w2 P' home K K' : sound w home K -> st w ∅ P' w2 -> rewired home (sy_ports (w_core w)) P' K' ->
  leaves w home K' w2.
Proof.
  intros So S2 R. assert (D2 : drift w w2) by (eapply drift_st; [apply So | exact S2]). split; [done |].
  destruct (sound_ready _ _ _ So) as [F Rd].
  eapply (sound_drift w w2 P' F); [done | done | exact (st_ports _ _ _ _ S2) | exact R |].
  eapply sys_ok_st; [apply Rd | exact S2 | apply R].
Qed.

Lemma leaves_calm w w2 w3 F home K : leaves w home K w2 -> calm w2 w3 -> ready w3 F -> leaves w home K w3.
Proof.
  intros [D So] Ca R. pose proof (drift_calm _ _ Ca) as D3. split; [by eapply drift_trans |].
  eapply (sound_drift w2 w3 _ F home K); [done | done | exact (ca_ports _ _ Ca) | | apply R].
  split; [apply So | apply same_shape_refl].
Qed.

Lemma wp_tell_user w w1 home K client but a i evtype (Q : unit -> world (sys C) -> Prop) :
  leaves w home K w1 -> is_Some (home !! a) -> byte_addr (s_sender i) -> byte_addr (s_dest i) ->
  is_byte evtype -> evtype <> EVENT_KERNEL_QUOTE ->
  (forall w2, leaves w home K w2 -> Q tt w2) -> wp (notify_user client but a i evtype) Q w1.
Proof.
  intros L [p Ha] Hs Hd Ht Hk HQ. destruct (sound_ready _ _ _ (proj2 L)) as [F R].
  eapply wp_notify_user; try done.
  - eapply wd_byte; [apply L | exact Ha].
  - eapply home_client; [apply L | exact Ha].
  - intros F' w2 Ca R2. eapply HQ, leaves_calm; done.
Qed.

Lemma wp_tell_all w w1 home K i evtype (Q : unit -> world (sys C) -> Prop) :
  leaves w home K w1 -> byte_addr (s_sender i) -> byte_addr (s_dest i) -> is_byte evtype -> evtype <> EVENT_KERNEL_QUOTE ->
  (forall w2, leaves w home K w2 -> Q tt w2) -> wp (announce i evtype) Q w1.
Proof.
  intros L Hs Hd Ht Hk HQ. destruct (sound_ready _ _ _ (proj2 L)) as [F R]. eapply wp_announce; try done.
  intros F' w2 Ca R2. eapply HQ, leaves_calm; done.
Qed.

Lemma wp_third_may_not w client subs sp dp x y (Q : bool -> world (sys C) -> Prop) :
  sy_ports (w_core w) !! sp = Some x -> sy_ports (w_core w) !! dp = Some y -> (forall b, Q b w) ->
  wp (third_may_not client subs sp dp) Q w.
Proof.
  intros Hx Hy HQ. unfold third_may_not, check_port_perm. destruct (_ || _); [by apply wp_ret |].
  eapply wp_bind, wp_bind, wp_port_at; [done |]. apply wp_ret. destruct (_ =? _); [by apply wp_ret |].
  eapply wp_bind, wp_port_at; [done |]. by apply wp_ret.
Qed.

(** C7: connecting two ports, by whatever client: either an error and the connections are as
    they were, also when the driver of a port refuses, or memory runs out halfway; or 0, and the
    connections are those before and the new one, which was not there.  In both cases they are
    recorded at both of their ports, with the counts of the groups and of the ports; the other
    clients, the queues and the table of ports are as before, and the mutexes are free.  (A
    failure may have reset the mark of a group that it is used exclusively; the use counts of
    modules and whether interrupts are enabled are not covered.)  The callbacks of ports only
    answer. *)
Theorem subscribe_connects w home K client subs :
  sound w home K -> byte_addr (s_sender subs) -> byte_addr (s_dest subs) -> is_byte (s_queue subs) ->
  wp (snd_seq_ioctl_subscribe_port client subs) (fun rc w' =>
    (rc < 0 /\ leaves w home K w') \/
    (rc = 0 /\ K !! (s_sender subs, s_dest subs) = None /\
     leaves w home (<[(s_sender subs, s_dest subs) := subs]> K) w')) w.
Proof.
  intros So Hs Hd Hqb. unfold snd_seq_ioctl_subscribe_port, busy_in_interrupt. apply wp_bind. unfold wp at 1, get.
  destruct (w_interrupt w); [by apply wp_ret; left |].
  assert (L0 : forall w', st w ∅ (sy_ports (w_core w)) w' -> leaves w home K w') by (intros; by eapply leaves_st).
  eapply wp_with_ports; [done | done | done | intros w' S'; left; split; [done | auto] |].
  intros sp dp w1 Hsp Hdp S1. pose proof (sd_wired _ _ _ So) as W.
  destruct (wd_port _ _ _ W _ _ Hsp) as (xs & Hxs & _). destruct (wd_port _ _ _ W _ _ Hdp) as (xd & Hxd & _).
  assert (Hk : forall w2 rc, leaves w home K w2 -> rc < 0 -> drift w w2 /\ forall w3, st w2 ∅ (sy_ports (w_core w2)) w3 ->
    rc < 0 /\ leaves w home K w3 \/ rc = 0 /\ K !! (s_sender subs, s_dest subs) = None /\
     leaves w home (<[(s_sender subs, s_dest subs) := subs]> K) w3).
  { intros w2 rc L Hrc. split; [apply L |]. intros w3 S3. left. split; [done | by eapply leaves_st]. }
  apply wp_bind. eapply (wp_third_may_not w1 _ _ _ _ xs xd); [by rewrite (st_ports _ _ _ _ S1) | by rewrite (st_ports _ _ _ _ S1) |].
  intros []; [apply wp_ret, Hk; [auto | done] |].
  apply wp_bind. eapply wp_connect_ports; [exact S1 | exact W | done | done | done |]. intros rc P' w2 Hc S2.
  destruct Hc as [[Hrc R] | (-> & Hn & R)].
  { rewrite (proj2 (Z.leb_gt _ _)) by done. cbn [when]. apply wp_bind, wp_ret, wp_ret, Hk; [by eapply leaves_change | done]. }
  cbn [Z.leb Z.compare when]. pose proof (leaves_change _ _ _ _ _ _ So S2 R) as L. apply wp_bind.
  eapply wp_bind, wp_tell_user; [exact L | eauto | done.. | intros w3 L3].
  eapply wp_bind, wp_tell_user; [exact L3 | eauto | done.. | intros w4 L4].
  eapply wp_tell_all; [exact L4 | done.. | intros w5 L5]. apply wp_ret. split; [apply L5 |]. intros w6 S6.
  right. split_and!; [done | done | by eapply leaves_st].
Qed.

(** Both ends of a connection taken out. *)
Lemma wp_remove w0 P w p x export a i j R (Q : Z -> world (sys C) -> Prop) :
  st w0 ∅ P w -> P !! p = Some x -> group_ok (group_of export x) R -> R a j -> s_queue j = s_queue i ->
  Z.of_nat (length (g_list (group_of export x))) <= 65536 ->
  (forall g w', length (g_list (group_of export x)) = S (length (g_list g)) -> group_ok g (fun b k => R b k /\ b <> a) ->
     (forall s, s ∈ g_list g -> s ∈ g_list (group_of export x)) -> st w0 ∅ (alter (with_group export g) p P) w' -> Q 0 w') ->
  wp (snd_seq_port_remove_subscriber p export a i) Q w.
Proof.
  intros S Hx G Hj Eq Hl HQ. unfold snd_seq_port_remove_subscriber. eapply st_group_do; [exact S | exact Hx |].
  destruct (group_remove_ok _ _ a i j G Hj Eq) as (g & -> & El & Gg); [lia |]. intros w' S'.
  eapply HQ; [exact El | exact Gg | | exact S']. intros s Hs. apply (gp_list _ _ G). by apply (gp_list _ _ Gg) in Hs as [? _].
Qed.

Lemma wp_check_perm w p x flags (Q : bool -> world (sys C) -> Prop) :
  sy_ports (w_core w) !! p = Some x -> (forall b, Q b w) -> wp (check_port_perm p flags) Q w.
Proof. intros Hx HQ. unfold check_port_perm. eapply wp_bind, wp_port_at; [done |]. by apply wp_ret. Qed.

(** The two halves of a disconnection, when the connection is there. *)
Section Breaking.
Variables (w : world (sys C)) (home : homes) (K : wires) (client : Z) (subs j : subscribe_info) (sp dp : Z).
Hypothesis So : sound w home K.
Hypothesis Hs : home !! s_sender subs = Some sp.
Hypothesis Hd : home !! s_dest subs = Some dp.
Hypothesis Hj : K !! (s_sender subs, s_dest subs) = Some j.
Hypothesis Hq : s_queue j = s_queue subs.

Lemma break_bytes : byte_addr (s_sender subs) /\ byte_addr (s_dest subs).
Proof using So Hs Hd. pose proof (wd_byte _ _ _ (sd_wired _ _ _ So)) as Hb. split; by eapply Hb. Qed.

Lemma wp_break w1 (Q : Z -> world (sys C) -> Prop) :
  st w ∅ (sy_ports (w_core w)) w1 ->
  (forall w2, leaves w home (delete (s_sender subs, s_dest subs) K) w2 -> Q 0 w2) ->
  wp (out <- snd_seq_port_is_subscribed sp true (s_dest subs);;
      when out
        (snd_seq_port_remove_subscriber sp true (s_dest subs) subs;;;
         snd_seq_port_unsubscribe sp subs;;;
         notify_user client (addr_client (s_sender subs)) (s_sender subs) subs EVENT_PORT_UNSUBSCRIBED);;;
      in_ <- snd_seq_port_is_subscribed dp false (s_sender subs);;
      when in_
        (snd_seq_port_remove_subscriber dp false (s_sender subs) subs;;;
         snd_seq_port_unuse dp subs;;;
         notify_user client (addr_client (s_sender subs)) (s_dest subs) subs EVENT_PORT_UNSUBSCRIBED);;;
      if out || in_ then announce subs EVENT_PORT_UNSUBSCRIBED;;; ret 0 else ret (-ENOENT)) Q w1.
Proof using All.
  intros S1 HQ. pose proof (sd_wired _ _ _ So) as W. destruct break_bytes as [Bs Bd].
  destruct (wd_port _ _ _ W _ _ Hs) as (xs & Hxs & Os). destruct (wd_port _ _ _ W _ _ Hd) as (xd & Hxd & Od).
  destruct (port_small _ _ _ _ _ _ W Hs Os) as [Ss _]. destruct (port_small _ _ _ _ _ _ W Hd Od) as [_ Sd].
  set (P := sy_ports (w_core w)) in *.
  eapply wp_bind, st_is_subscribed; [exact S1 | exact Hxs |]. intros w2 S2. cbn [group_of].
  rewrite bool_decide_eq_true_2 by (apply (group_in _ _ _ (po_export _ _ _ Os)); eauto). cbn [when].
  eapply wp_bind, wp_bind, (wp_remove w P w2 sp xs true); [exact S2 | exact Hxs | apply Os | exact Hj | exact Hq | exact Ss |].
  cbn [group_of]. intros ge w3 Le Ge Sub S3.
  eapply wp_bind, st_unsubscribe; [exact S3 | rewrite lookup_alter_if, Hxs; eauto | set_solver |]. intros r1 w4 S4.
  destruct (sound_ready _ _ _ So) as [F R].
  assert (R4 : ready w4 F).
  { eapply ready_st; [exact R | exact S4 |]. intros q. rewrite !lookup_alter_if. fold P. destruct (P !! q) as [y |] eqn:Hy; cbn.
    - split; [eauto |]. intros y' [= <-]. exists y. split; [done |]. intros s. unfold down_out.
      repeat case_decide; subst; simplify_eq; cbn; repeat case_match; cbn; auto.
    - split; [by intros [? ?] | done]. }
  assert (Hh : forall a p, home !! a = Some p -> is_Some (sy_clients (w_core w4) !! addr_client a)).
  { intros a p Ha. rewrite (st_clients _ _ _ _ S4). eapply home_client; [apply So | exact Ha]. }
  eapply wp_notify_user; [exact R4 | exact Bs | by eapply Hh | done.. |]. intros F5 w5 Ca R5.
  (* the second half, from there *)
  assert (E5 : sy_ports (w_core w5) = alter down_out sp (alter (with_group true ge) sp P)).
  { rewrite (ca_ports _ _ Ca). apply S4. }
  assert (S5 : st w5 ∅ (sy_ports (w_core w5)) w5).
  { replace (∅ : gset mutex) with (sy_mutexes (w_core w5)); [apply st_start |]. rewrite (ca_mutexes _ _ Ca). apply S4. }
  rewrite E5 in S5.
  assert (H5 : exists y, alter down_out sp (alter (with_group true ge) sp P) !! dp = Some y /\ pt_import y = pt_import xd).
  { rewrite !lookup_alter_if, Hxd. cbn. eexists. split; [done |]. unfold down_out. repeat case_decide; cbn; repeat case_match; done. }
  destruct H5 as (y & Hy & Ey).
  eapply wp_bind, st_is_subscribed; [exact S5 | exact Hy |]. intros w6 S6. cbn [group_of]. rewrite Ey.
  rewrite bool_decide_eq_true_2 by (apply (group_in _ _ _ (po_import _ _ _ Od)); eauto). cbn [when orb].
  eapply wp_bind, wp_bind, (wp_remove w5 _ w6 dp y false); [exact S6 | exact Hy | cbn [group_of]; rewrite Ey; apply Od | exact Hj | exact Hq | cbn [group_of]; rewrite Ey; exact Sd |].
  cbn [group_of]. rewrite Ey. intros gi w7 Li Gi _ S7.
  eapply wp_bind, st_unuse; [exact S7 | rewrite lookup_alter_if, Hy; eauto | set_solver |]. intros r2 w8 S8.
  assert (L8 : leaves w home (delete (s_sender subs, s_dest subs) K) w8).
  { assert (D4 : drift w w4) by (eapply drift_st; [apply So | exact S4]).
    assert (D8 : drift w5 w8) by (eapply drift_st; [apply S5 | exact S8]).
    assert (D : drift w w8) by (eapply drift_trans; [exact D4 |]; eapply drift_trans; [by apply drift_calm | exact D8]).
    assert (Sh : same_shape home P (alter down_in dp (alter (with_group false gi) dp (alter down_out sp (alter (with_group true ge) sp P)))))
      by shape Hs Hd.
    split; [exact D |]. eapply (sound_drift w w8 _ F5); [exact So | exact D | exact (st_ports _ _ _ _ S8) | |].
    - split; [| exact Sh]. eapply (wired_disconnect P home K sp dp xs xd subs W Hs Hd Hxs Hxd ge gi); try done.
      pose proof (po_subscribe _ _ _ Os). pose proof (po_use _ _ _ Od). counts.
    - eapply (sys_ok_st w5 ∅ _ w8 F5 home); [apply R5 | exact S8 |]. rewrite E5.
      do 2 (eapply same_shape_alter; [| exact Hd | by (intros; cbn; unfold down_in; repeat case_match)]). apply same_shape_refl. }
  eapply wp_tell_user; [exact L8 | eauto | done.. |]. intros w9 L9.
  eapply wp_bind, wp_tell_all; [exact L9 | done.. |]. intros w10 L10. by apply wp_ret, HQ.
Qed.
End Breaking.

(** C29: disconnecting two ports, with the queue the connection was made with: an error and the
    connections as they were, or 0 and the connections without this one, which was there. *)
Theorem unsubscribe_disconnects w home K client subs :
  sound w home K -> byte_addr (s_sender subs) -> byte_addr (s_dest subs) ->
  (forall j, K !! (s_sender subs, s_dest subs) = Some j -> s_queue j = s_queue subs) ->
  wp (snd_seq_ioctl_unsubscribe_port client subs) (fun rc w' =>
    (rc < 0 /\ leaves w home K w') \/
    (rc = 0 /\ is_Some (K !! (s_sender subs, s_dest subs)) /\ leaves w home (delete (s_sender subs, s_dest subs) K) w')) w.
Proof.
  intros So Bs Bd Hqueue. unfold snd_seq_ioctl_unsubscribe_port, busy_in_interrupt. apply wp_bind. unfold wp at 1, get.
  assert (L0 : forall w', st w ∅ (sy_ports (w_core w)) w' -> leaves w home K w').
  { intros w' S'. eapply leaves_st; [| exact S']. split; [apply drift_refl | exact So]. }
  assert (S0 : st w ∅ (sy_ports (w_core w)) w) by (rewrite <- (sd_free _ _ _ So); apply st_start).
  destruct (w_interrupt w); [apply wp_ret; left; split; [done | by apply L0] |].
  eapply wp_with_ports; [done | done | done | intros w' S'; left; split; [done | auto] |].
  intros sp dp w1 Hsp Hdp S1. pose proof (sd_wired _ _ _ So) as W.
  destruct (wd_port _ _ _ W _ _ Hsp) as (xs & Hxs & Os). destruct (wd_port _ _ _ W _ _ Hdp) as (xd & Hxd & Od).
  assert (Hk : forall w2 rc, leaves w home K w2 -> rc < 0 -> drift w w2 /\ forall w3, st w2 ∅ (sy_ports (w_core w2)) w3 ->
    rc < 0 /\ leaves w home K w3 \/ rc = 0 /\ is_Some (K !! (s_sender subs, s_dest subs)) /\
     leaves w home (delete (s_sender subs, s_dest subs) K) w3).
  { intros w2 rc L Hrc. split; [apply L |]. intros w3 S3. left. split; [done | by eapply leaves_st]. }
  assert (Hperm : forall (b : bool) p x flags (Q : bool -> world (sys C) -> Prop), sy_ports (w_core w) !! p = Some x ->
    (forall b, Q b w1) -> wp (if b then ret true else check_port_perm p flags) Q w1).
  { intros [] p x flags Q Hx HQ; [by apply wp_ret |]. eapply wp_check_perm; [| done]. by rewrite (st_ports _ _ _ _ S1). }
  eapply wp_bind, Hperm; [exact Hxs |]. intros s_ok. eapply wp_bind, Hperm; [exact Hxd |]. intros d_ok.
  apply wp_bind. assert (Hthird : forall (b : bool) (Q : bool -> world (sys C) -> Prop), (forall b, Q b w1) ->
    wp (if b then ret true else third_may_not client subs sp dp) Q w1).
  { intros [] Q HQ; [by apply wp_ret |]. eapply (wp_third_may_not w1 _ _ _ _ xs xd); by rewrite ?(st_ports _ _ _ _ S1). }
  apply Hthird. intros []; [apply wp_ret, Hk; [auto | done] |].
  destruct (K !! (s_sender subs, s_dest subs)) as [j |] eqn:Ej.
  - eapply (wp_break w home K client subs j); try done; [by apply Hqueue |]. intros w2 L2. split; [apply L2 |]. intros w3 S3.
    right. split_and!; [done | eauto | by eapply leaves_st].
  - eapply wp_bind, st_is_subscribed; [exact S1 | exact Hxs |]. intros w2 S2. cbn [group_of].
    rewrite bool_decide_eq_false_2 by (rewrite (group_in _ _ _ (po_export _ _ _ Os)), Ej; by intros [? ?]). cbn [when].
    apply wp_bind, wp_ret. eapply wp_bind, st_is_subscribed; [exact S2 | exact Hxd |]. intros w3 S3. cbn [group_of].
    rewrite bool_decide_eq_false_2 by (rewrite (group_in _ _ _ (po_import _ _ _ Od)), Ej; by intros [? ?]). cbn [when orb].
    apply wp_bind, wp_ret, wp_ret, Hk; [auto | done].
Qed.
End Wired.
