(* ===== verification/SeqUnport.v ===== *)
(** * SeqUnport: removing a port

    Removing a port takes its connections out at the other ends, also those of a port to
    itself, which nobody finds any more.  The port is off its client's list before that, and
    another port of the same number may take its place. *)

From S2P Require Import Prelude SeqEvent SeqCells SeqMemory SeqCopy SeqFifo SeqFifoSpec SeqPrioq SeqTimer SeqQueue SeqWorld.
From S2P Require Import SeqPorts SeqRoute SeqConnect SeqMail SeqRouteSpec SeqWiring SeqRewire SeqWired.
Open Scope Z_scope.
Open Scope state_scope.

Implicit Types (P : gmap Z port) (home : homes) (K : wires) (a b : snd_seq_addr).

(** Seen from the port at [a]: the connection with [b], as sender or receiver. *)
Definition key (export : bool) a b : snd_seq_addr * snd_seq_addr := if export then (a, b) else (b, a).

Lemma key_negb e a b : key (negb e) a b = key e b a.
Proof. by destruct e. Qed.

Lemma port_group K a x e : port_ok K a x -> group_ok (group_of e x) (fun b i => K !! key e a b = Some i).
Proof. intros []. by destruct e. Qed.

(** What a port that goes away holds: its connections but those with itself. *)
Definition own (g : group) (R : snd_seq_addr -> subscribe_info -> Prop) a : Prop :=
  NoDup (sb_addr <$> g_list g) /\ forall s, sb_addr s <> a -> (s ∈ g_list g <-> R (sb_addr s) (sb_info s)).

(** The connections that do not involve [a]. *)
Definition without a K : wires := filter (fun x => x.1.1 <> a /\ x.1.2 <> a) K.

Lemma without_lookup a K b d : without a K !! (b, d) = if decide (b = a \/ d = a) then None else K !! (b, d).
Proof.
  unfold without. destruct (decide (b = a \/ d = a)) as [E | N].
  - apply map_lookup_filter_None. right. intros i _ [N1 N2]. cbn in *. tauto.
  - destruct (K !! (b, d)) as [i |] eqn:E; [apply map_lookup_filter_Some; cbn; tauto | apply map_lookup_filter_None; auto].
Qed.

Lemma without_delete a K e b : without a (delete (key e a b) K) = without a K.
Proof.
  apply map_eq. intros [c d]. rewrite !without_lookup. case_decide as N; [done |]. apply lookup_delete_ne.
  destruct e; cbn; intros [= -> ->]; tauto.
Qed.

Section Unport.
Context {C : Type} `{QuietDrivers C} `{!QuietCallbacks C}.
Context (address_u32 : forall e, is_u32 (event_address e)).
Implicit Types (w : world (sys C)) (F : mail) (M : gset mutex).

(** A port of which nothing is found any more, with the connections it still has. *)
Record parting w home K a (p : Z) F : Prop := {
  pg_ready : ready w F;
  pg_port : exists x, sy_ports (w_core w) !! p = Some x /\ pt_port x = addr_port a /\
    forall e, own (group_of e x) (fun b i => K !! key e a b = Some i) a;
  pg_others : forall b q, b <> a -> home !! b = Some q -> exists x, sy_ports (w_core w) !! q = Some x /\ port_ok K b x;
  pg_ends : forall b d i, K !! (b, d) = Some i ->
    s_sender i = b /\ s_dest i = d /\ is_byte (s_queue i) /\ is_Some (home !! b) /\ is_Some (home !! d);
  pg_inj : forall b d q, home !! b = Some q -> home !! d = Some q -> b = d;
  pg_byte : forall b q, home !! b = Some q -> byte_addr b;
  pg_home : home !! a = Some p;
  pg_found : forall b q, b <> a -> home !! b = Some q -> port_of (w_core w) b = Some q;
  pg_there : forall b q, b <> a -> port_of (w_core w) b = Some q -> byte_addr b -> home !! b = Some q;
  pg_silent : forall c cl q x, sy_clients (w_core w) !! c = Some cl -> q ∈ cl_ports cl -> sy_ports (w_core w) !! q = Some x ->
    home !! (Addr c (pt_port x)) <> Some q -> silent x;
  pg_once : forall c cl, sy_clients (w_core w) !! c = Some cl -> NoDup (cl_ports cl);
  pg_apart : forall c c' cl cl' q, sy_clients (w_core w) !! c = Some cl -> sy_clients (w_core w) !! c' = Some cl' ->
    q ∈ cl_ports cl -> q ∈ cl_ports cl' -> c = c';
  pg_gone : forall c cl, sy_clients (w_core w) !! c = Some cl -> p ∉ cl_ports cl;
  pg_client : is_Some (a_client (w_core w) (addr_client a));
  pg_free : sy_mutexes (w_core w) = ∅ }.

Lemma parting_address w home K a p F c cl q x b : parting w home K a p F ->
  sy_clients (w_core w) !! c = Some cl -> q ∈ cl_ports cl -> sy_ports (w_core w) !! q = Some x -> home !! b = Some q ->
  b = Addr c (pt_port x).
Proof.
  intros G Hc Hq Hx Hb. assert (N : b <> a).
  { intros ->. rewrite (pg_home _ _ _ _ _ _ G) in Hb. injection Hb as <-. by eapply pg_gone. }
  apply (pg_found _ _ _ _ _ _ G) in Hb; [| done]. apply port_of_find in Hb as (cl' & x' & Hc' & _ & Hp' & Hx' & En & _).
  assert (c = addr_client b) as -> by by eapply (pg_apart _ _ _ _ _ _ G). rewrite Hx in Hx'. injection Hx' as <-.
  rewrite En. by destruct b.
Qed.

Lemma parting_step w w' home K K' a p F F' : parting w home K a p F -> drift w w' ->
  same_shape home (sy_ports (w_core w)) (sy_ports (w_core w')) -> K' ⊆ K -> ready w' F' ->
  (exists x, sy_ports (w_core w') !! p = Some x /\ forall e, own (group_of e x) (fun b i => K' !! key e a b = Some i) a) ->
  (forall b q x, b <> a -> home !! b = Some q -> sy_ports (w_core w) !! q = Some x -> port_ok K b x ->
     exists x', sy_ports (w_core w') !! q = Some x' /\ port_ok K' b x') ->
  parting w' home K' a p F'.
Proof.
  intros G D Sh Sub R Hp Ho. pose proof (fun b => drift_port_of w w' home _ b D eq_refl Sh) as Ea. split; try apply G.
  - done.
  - destruct Hp as (x' & Hx' & Hown), (pg_port _ _ _ _ _ _ G) as (x & Hx & En & _). exists x'. split_and!; [done | | done].
    destruct (Sh p) as [E _]. rewrite Hx, Hx' in E. cbn in E. injection E as ->. done.
  - intros b q N Hb. destruct (pg_others _ _ _ _ _ _ G b q N Hb) as (x & Hx & ok). by eapply Ho.
  - intros b d i Hi. eapply pg_ends; [exact G |]. by eapply lookup_weaken.
  - intros b q N Hb. rewrite Ea. by apply G.
  - intros b q N. rewrite Ea. by apply G.
  - intros c cl' q x (cl & Hc & _ & ->)%(drift_client _ _ _ _ D) Hq Hx Ha. destruct (Sh q) as [En Es].
    rewrite Es in Hx; [by eapply (pg_silent _ _ _ _ _ _ G) |]. intros b Hb. apply Ha.
    destruct (so_ports _ _ (rd_sys _ _ (pg_ready _ _ _ _ _ _ G)) _ _ _ Hc Hq) as [_ [y Hy]].
    rewrite Hx, Hy in En. cbn in En. injection En as ->. by rewrite <- (parting_address _ _ _ _ _ _ _ _ _ _ _ G Hc Hq Hy Hb).
  - intros c cl' (cl & Hc & _ & ->)%(drift_client _ _ _ _ D). by apply (pg_once _ _ _ _ _ _ G c).
  - intros c c' cl1 cl2 q (cl & Hc & _ & ->)%(drift_client _ _ _ _ D) (cl' & Hc' & _ & ->)%(drift_client _ _ _ _ D).
    by apply (pg_apart _ _ _ _ _ _ G).
  - intros c cl' (cl & Hc & _ & ->)%(drift_client _ _ _ _ D). by apply (pg_gone _ _ _ _ _ _ G c).
  - pose proof (dr_clients _ _ D) as E. apply (f_equal (lookup (addr_client a))) in E. rewrite !lookup_fmap in E.
    destruct (pg_client _ _ _ _ _ _ G) as [cl Hc]. unfold a_client in *. destruct (_ && _); [| done]. rewrite Hc in E.
    destruct (sy_clients (w_core w') !! addr_client a); [eauto | done].
  - rewrite (dr_mutexes _ _ D). apply G.
Qed.

(** ** One connection of a port that goes away *)

(** A connection fewer, on the given side. *)
Definition down_on (e : bool) (x : port) : port := if e then down_out x else down_in x.

Lemma st_off w0 M P w p info (e : bool) (Q : Z -> world (sys C) -> Prop) :
  st w0 M P w -> is_Some (P !! p) -> SubscribeMutex p ∉ M -> UseMutex p ∉ M ->
  (forall rc w', st w0 M (alter (down_on e) p P) w' -> Q rc w') ->
  wp (if e then snd_seq_port_unsubscribe p info else snd_seq_port_unuse p info) Q w.
Proof. intros S Hx H1 H2 HQ. destruct e; [by eapply st_unsubscribe | by eapply st_unuse]. Qed.

Lemma remove_absent a i g : a ∉ sb_addr <$> g_list g -> group_remove a i g = (-ENOENT, g).
Proof.
  intros Hn. unfold group_remove. assert (E : unlink_subscriber a (s_queue i) (g_list g) = None); [| by rewrite E].
  induction (g_list g) as [| t l IH]; cbn [unlink_subscriber]; [done |]. rewrite fmap_cons, not_elem_of_cons in Hn.
  destruct Hn as [N Hn]. rewrite addr_compare_eq, bool_decide_eq_false_2 by congruence. cbn [andb]. by rewrite IH.
Qed.

Lemma fit_refl P : fit P P.
Proof. intros q. split; [done |]. eauto. Qed.

Lemma fit_alter P P' f p : fit P P' -> (forall x t, P' !! p = Some x -> t ∈ g_list (pt_export (f x)) -> t ∈ g_list (pt_export x)) ->
  fit P (alter f p P').
Proof.
  intros Fi Hf q. destruct (Fi q) as [F1 F2]. rewrite lookup_alter_if. split.
  - intros Hq. destruct (F1 Hq) as [x ->]. eauto.
  - intros x' Hx'. destruct (P' !! q) as [x |] eqn:E; [| done]. destruct (F2 x eq_refl) as (y & Hy & Hsub). exists y.
    split; [done |]. cbn in Hx'. injection Hx' as <-. intros t. case_decide as N; [subst q; intros Ht; eauto | apply Hsub].
Qed.

Lemma down_on_export e x : pt_export (down_on e x) = pt_export x.
Proof. unfold down_on, down_out, down_in. destruct e; by case_match. Qed.
Lemma down_on_import e x : pt_import (down_on e x) = pt_import x.
Proof. unfold down_on, down_out, down_in. destruct e; by case_match. Qed.
Lemma down_on_port e x : pt_port (down_on e x) = pt_port x.
Proof. unfold down_on, down_out, down_in. destruct e; by case_match. Qed.

Lemma with_group_port e g x : pt_port (with_group e g x) = pt_port x.
Proof. by destruct e. Qed.

Lemma with_group_export e g x t : (forall t, t ∈ g_list g -> t ∈ g_list (group_of e x)) ->
  t ∈ g_list (pt_export (with_group e g x)) -> t ∈ g_list (pt_export x).
Proof. destruct e; [intros Hg; exact (Hg t) | done]. Qed.

Section Disconnect.
Variables (w : world (sys C)) (home : homes) (K : wires) (a : snd_seq_addr) (p r : Z) (F : mail) (e : bool) (s : subscriber) (x y : port).
Variables (g1 : group).
Hypothesis G : parting w home K a p F.
Hypothesis Hx : sy_ports (w_core w) !! p = Some x.
Hypothesis Hy : sy_ports (w_core w) !! r = Some y.
Hypothesis Hr : port_of (w_core w) (sb_addr s) = Some r.
Hypothesis Hrp : r <> p.
Hypothesis Hg1 : forall t, t ∈ g_list g1 -> t ∈ g_list (group_of e x).
Hypothesis Hs1 : sb_addr s ∉ sb_addr <$> g_list g1.
Hypothesis Hss : byte_addr (s_sender (sb_info s)).
Hypothesis Hsd : byte_addr (s_dest (sb_info s)).
Hypothesis Hsb : byte_addr (sb_addr s).
Let g2 := (group_remove a (sb_info s) (group_of (negb e) y)).2.
Hypothesis Hg2 : forall t, t ∈ g_list g2 -> t ∈ g_list (group_of (negb e) y).
Let P1 := alter (with_group e g1) p (sy_ports (w_core w)).
Let P2 := alter (down_on e) p (alter (with_group (negb e) g2) r P1).

Lemma fit_first : fit (sy_ports (w_core w)) P1.
Proof using Hg1 Hx.
  apply fit_alter; [apply fit_refl |]. intros z t Hz. rewrite Hx in Hz. injection Hz as <-. by apply with_group_export.
Qed.

Lemma fit_second : fit (sy_ports (w_core w)) P2.
Proof using Hg1 Hg2 Hx Hy Hrp.
  apply fit_alter; [| intros z t _; by rewrite down_on_export]. apply fit_alter; [apply fit_first |].
  intros z t Hz. unfold P1 in Hz. rewrite lookup_alter_ne, Hy in Hz by congruence. injection Hz as <-. by apply with_group_export.
Qed.

Lemma parting_bytes : byte_addr a.
Proof using G. eapply pg_byte; [exact G | apply G]. Qed.

Lemma wp_disconnect_found w1 (Q : unit -> world (sys C) -> Prop) :
  st w ∅ P1 w1 -> (forall w' F', drift w w' -> ready w' F' -> sy_ports (w_core w') = alter (down_on (negb e)) r P2 -> Q tt w') ->
  wp (disconnect (addr_client a) p e s) Q w1.
Proof using All.
  intros S1 HQ. pose proof parting_bytes as [Ba1 Ba2]. destruct (pg_port _ _ _ _ _ _ G) as (x' & Hx' & En & _).
  rewrite Hx in Hx'. injection Hx' as <-. pose proof (rd_sys _ _ (pg_ready _ _ _ _ _ _ G)) as ok.
  assert (H1 : P1 !! p = Some (with_group e g1 x)) by (unfold P1; by rewrite lookup_alter_eq, Hx).
  assert (H1r : P1 !! r = Some y) by (unfold P1; by rewrite lookup_alter_ne).
  assert (Sh1 : same_shape home (sy_ports (w_core w)) P1).
  { eapply same_shape_alter; [apply same_shape_refl | apply G | intros; apply with_group_port]. }
  unfold disconnect. eapply wp_bind, st_port; [exact S1 | exact H1 |]. rewrite with_group_port, En.
  rewrite (Z.mod_small (addr_port a)) by (unfold is_byte in *; lia).
  replace (Addr (addr_client a) (addr_port a)) with a by by destruct a.
  pose proof Hr as Hcl. apply port_of_find in Hcl as (cl & y' & Hcl & Hcb & Hin & _). assert (Hn : r <> NULL) by by eapply (so_ports _ _ ok).
  assert (Hc : is_Some (a_client (w_core w) (addr_client (sb_addr s)))).
  { unfold a_client. rewrite (proj2 (andb_true_iff _ _)) by lia. eauto. }
  assert (Hclients : forall w', drift w w' -> is_Some (sy_clients (w_core w') !! addr_client (sb_addr s)) /\
    is_Some (sy_clients (w_core w') !! addr_client a)).
  { intros w' D. pose proof (dr_clients _ _ D) as E. split.
    - apply (f_equal (lookup (addr_client (sb_addr s)))) in E. rewrite !lookup_fmap, Hcl in E. destruct (sy_clients (w_core w') !! _); [eauto | done].
    - apply (f_equal (lookup (addr_client a))) in E. rewrite !lookup_fmap in E. destruct (pg_client _ _ _ _ _ _ G) as [cla Hca].
      unfold a_client in Hca. destruct (_ && _); [| done]. rewrite Hca in E. destruct (sy_clients (w_core w') !! _); [eauto | done]. }
  assert (Dst : forall P' w', st w ∅ P' w' -> drift w w') by (intros P' w' S'; eapply drift_st; [apply G | exact S']).
  (* the port at the other end *)
  apply wp_bind, wp_use_ptr. rewrite bool_decide_eq_true_2.
  2: { unfold a_client. rewrite (st_clients _ _ _ _ S1). exact Hc. }
  cbn [negb]. eapply wp_bind, wp_use_port; [exact ok | exact Sh1 | exact S1 | exact Hc |]. intros w2 S2. rewrite Hr.
  cbn [default from_option id]. unfold id. rewrite (proj2 (Z.eqb_neq _ _) Hn). cbn [negb when].
  eapply wp_bind, wp_bind, st_group_do; [exact S2 | exact H1 |]. rewrite remove_absent by by destruct e.
  intros w3 S3. eapply (st_map _ _ _ P1) in S3.
  2: { apply alter_id. intros z Hz. rewrite H1 in Hz. injection Hz as <-. apply with_same_group. }
  eapply wp_bind, st_group_do; [exact S3 | exact H1r |]. fold g2. intros w4 S4.
  eapply wp_bind, st_off; [exact S4 | rewrite lookup_alter_ne, H1 by done; eauto | set_solver | set_solver |].
  intros rc5 w5 S5. fold P2 in S5.
  assert (R5 : ready w5 F) by (eapply ready_st; [apply G | exact S5 | apply fit_second]).
  eapply wp_bind, wp_notify_user; [done | exact R5 | done | apply Hclients; by eapply Dst | done.. |]. intros F6 w6 Ca6 R6.
  assert (D6 : drift w w6) by (eapply drift_trans; [by eapply Dst | by apply drift_calm]).
  assert (S6 : st w6 ∅ P2 w6).
  { replace (∅ : gset mutex) with (sy_mutexes (w_core w6)) by (rewrite (dr_mutexes _ _ D6); apply G).
    rewrite <- (st_ports _ _ _ _ S5), <- (ca_ports _ _ Ca6). apply st_start. }
  assert (Eoff : (if e then snd_seq_port_unuse r (sb_info s) else snd_seq_port_unsubscribe r (sb_info s)) =
    (if negb e then snd_seq_port_unsubscribe r (sb_info s) else snd_seq_port_unuse r (sb_info s))) by by destruct e.
  rewrite Eoff. eapply wp_bind, st_off; [exact S6 | unfold P2; rewrite lookup_alter_ne, lookup_alter_eq, H1r by done; cbn; eauto | set_solver | set_solver |].
  intros rc7 w7 S7. assert (D7 : drift w w7) by (eapply drift_trans; [exact D6 | eapply drift_st; [apply S6 | exact S7]]).
  assert (R7 : ready w7 F6).
  { eapply ready_st; [exact R6 | exact S7 |]. rewrite (st_ports _ _ _ _ S6). apply fit_alter; [apply fit_refl |].
    intros z t _. by rewrite down_on_export. }
  eapply wp_bind, wp_notify_user; [done | exact R7 | done | by apply Hclients | done.. |]. intros F8 w8 Ca8 R8.
  eapply wp_announce; [done | exact R8 | done.. |]. intros F9 w9 Ca9 R9.
  assert (D9 : drift w w9). { eapply drift_trans; [exact D7 |]. eapply drift_trans; by apply drift_calm. }
  unfold snd_seq_ports_unlock. destruct (proj1 (Hclients w9 D9)) as [cl9 Hcl9].
  eapply wp_bind, wp_client_at; [exact Hcl9 |]. apply wp_unlock. intros w10 (Ca10 & Em & Ef) Ec.
  eapply (HQ w10 F9).
  - eapply drift_trans; [exact D9 | by apply drift_calm].
  - eapply ready_calm; [exact R9 | exact Ca10 | eapply locks_ok; [by split_and! | apply R9]].
  - rewrite (ca_ports _ _ Ca10), (ca_ports _ _ Ca9), (ca_ports _ _ Ca8). apply S7.
Qed.
End Disconnect.

(** A connection taken out of the map, seen from its two ends and from elsewhere. *)
Lemma key_delete e a b K c i : delete (key e a b) K !! key e a c = Some i <-> K !! key e a c = Some i /\ c <> b.
Proof.
  destruct (decide (c = b)) as [-> | N].
  - rewrite lookup_delete_eq. split; [done | by intros [? ?]].
  - rewrite lookup_delete_ne; [tauto |]. destruct e; cbn; congruence.
Qed.

Lemma key_other e e' a b K c d : c <> a -> c <> b \/ b <> a /\ e' = e -> delete (key e a b) K !! key e' c d = K !! key e' c d.
Proof. intros Ha Hb. apply lookup_delete_ne. destruct e, e'; cbn; intros [= <- <-]; destruct Hb as [? | [? ?]]; congruence. Qed.

Lemma own_pop g R a s l g1 : own g R a -> g_list g = s :: l -> g_list g1 = l -> own g1 (fun b i => R b i /\ b <> sb_addr s) a.
Proof.
  intros [N O] E E1. rewrite E in *. apply NoDup_cons in N as [Hs N]. split; [by rewrite E1 |]. intros t Ht. rewrite E1.
  rewrite <- (O t Ht), elem_of_cons. split.
  - intros Hin. split; [by right |]. intros Et. apply Hs. rewrite <- Et. by apply list_elem_of_fmap_2.
  - intros [[-> | ?] ?]; done.
Qed.

Lemma own_mono g (R R' : snd_seq_addr -> subscribe_info -> Prop) a : (forall b i, b <> a -> R b i <-> R' b i) -> own g R a -> own g R' a.
Proof. intros E [N O]. split; [done |]. intros t Ht. rewrite <- E by done. by apply O. Qed.

(** The port that goes away, after one of its connections went. *)
Lemma own_after K a e s l g1 x x' :
  (forall e', own (group_of e' x) (fun b i => K !! key e' a b = Some i) a) -> g_list (group_of e x) = s :: l -> g_list g1 = l ->
  group_of e x' = g1 -> group_of (negb e) x' = group_of (negb e) x ->
  forall e', own (group_of e' x') (fun b i => delete (key e a (sb_addr s)) K !! key e' a b = Some i) a.
Proof.
  intros O El E1 Ex En e'. destruct (decide (e' = e)) as [-> | N].
  - rewrite Ex. eapply own_mono; [| eapply own_pop; [apply O | exact El | exact E1]]. intros b i _. cbn. by rewrite key_delete.
  - assert (e' = negb e) as -> by (destruct e, e'; done). rewrite En. eapply own_mono; [| apply O]. intros b i Nb. cbn.
    rewrite lookup_delete_ne; [done |]. rewrite key_negb. destruct e; cbn; congruence.
Qed.

Lemma group_of_down e e' x : group_of e' (down_on e x) = group_of e' x.
Proof. destruct e'; [apply down_on_export | apply down_on_import]. Qed.
Lemma group_of_with e g x : group_of e (with_group e g x) = g.
Proof. by destruct e. Qed.
Lemma group_of_other e g x : group_of (negb e) (with_group e g x) = group_of (negb e) x.
Proof. by destruct e. Qed.

(** The port at the other end. *)
Lemma port_after K a b e i x g : b <> a -> port_ok K b x -> K !! key e a b = Some i ->
  group_ok g (fun c j => K !! key (negb e) b c = Some j /\ c <> a) ->
  length (g_list (group_of (negb e) x)) = S (length (g_list g)) ->
  port_ok (delete (key e a b) K) b (down_on (negb e) (with_group (negb e) g x)).
Proof.
  intros N ok Hi Gg El. pose proof (port_group _ _ _ e ok) as Go. pose proof ok as [Oe Oi Os Ou].
  assert (Ga : group_ok g (fun c j => delete (key e a b) K !! key (negb e) b c = Some j)).
  { eapply group_mono; [| exact Gg]. intros c j. cbn. rewrite <- (key_negb e b a), key_delete. done. }
  assert (Gb : group_ok (group_of e x) (fun c j => delete (key e a b) K !! key e b c = Some j)).
  { eapply group_mono; [| exact Go]. intros c j. cbn. by rewrite key_other by auto. }
  destruct e; cbn in *; unfold down_out, down_in; cbn; rewrite (proj2 (Z.ltb_lt _ _)) by lia; split; cbn; try done; lia.
Qed.

Lemma group_ok_small w home K a p F b q x e : parting w home K a p F -> home !! b = Some q -> port_ok K b x ->
  Z.of_nat (length (g_list (group_of e x))) <= 65536.
Proof.
  intros G Hb ok. eapply group_small; [by apply port_group |]. intros c i Hi.
  destruct e; cbn in Hi; destruct (pg_ends _ _ _ _ _ _ G _ _ _ Hi) as (_ & _ & _ & [? H1] & [? H2]); by eapply pg_byte.
Qed.

(** What going on needs. *)
Definition parted w home K a p e (l : list subscriber) (g : group) w' : Prop :=
  drift w w' /\ exists F' x', parting w' home K a p F' /\ sy_ports (w_core w') !! p = Some x' /\
    g_list (group_of e x') = l /\ group_of (negb e) x' = g.

Lemma silent_group e y : silent y -> g_list (group_of e y) = [].
Proof. intros (? & ? & _). by destruct e. Qed.

Lemma down_silent e y : silent y -> down_on e y = y.
Proof. intros (_ & _ & _ & _ & Hs & Hu). unfold down_on, down_out, down_in. rewrite Hs, Hu. by destruct e. Qed.

(** The connection of the port with itself: what is found is another port of the number, or none. *)
Lemma wp_disconnect_self w home K a p F e s l x g1 w1 (Q : unit -> world (sys C) -> Prop) :
  parting w home K a p F -> sy_ports (w_core w) !! p = Some x -> g_list (group_of e x) = s :: l -> g_list g1 = l ->
  sb_addr s = a -> byte_addr (s_sender (sb_info s)) -> byte_addr (s_dest (sb_info s)) -> sb_addr s ∉ sb_addr <$> l ->
  st w ∅ (alter (with_group e g1) p (sy_ports (w_core w))) w1 ->
  (forall w', parted w home (delete (key e a (sb_addr s)) K) a p e l (group_of (negb e) x) w' -> Q tt w') ->
  wp (disconnect (addr_client a) p e s) Q w1.
Proof.
  intros G Hx El E1 Es Bs Bd Hns S1 HQ. pose proof (pg_byte _ _ _ _ _ _ G _ _ (pg_home _ _ _ _ _ _ G)) as Ba.
  destruct (pg_port _ _ _ _ _ _ G) as (x0 & Hx0 & En & O). rewrite Hx in Hx0. injection Hx0 as <-.
  pose proof (rd_sys _ _ (pg_ready _ _ _ _ _ _ G)) as ok.
  assert (Sub : delete (key e a (sb_addr s)) K ⊆ K) by apply delete_subseteq.
  assert (Hsame : forall w' F' x', drift w w' -> ready w' F' -> sy_ports (w_core w') = alter (fun _ => x') p (sy_ports (w_core w)) ->
    pt_port x' = pt_port x -> group_of e x' = g1 -> group_of (negb e) x' = group_of (negb e) x ->
    parted w home (delete (key e a (sb_addr s)) K) a p e l (group_of (negb e) x) w').
  { intros w' F' x' D R Ep Ept Ex Eo. split; [done |]. exists F', x'.
    assert (Hp : sy_ports (w_core w') !! p = Some x') by (by rewrite Ep, lookup_alter_eq, Hx).
    split_and!; [| done | by rewrite Ex | done]. eapply (parting_step w w' home K); [exact G | done | | exact Sub | exact R | |].
    - rewrite Ep. intros q. rewrite lookup_alter_if. case_decide as N.
      + subst q. rewrite Hx. cbn. rewrite Ept. split; [done |]. intros Hn. by destruct (Hn a (pg_home _ _ _ _ _ _ G)).
      + by rewrite option_fmap_id.
    - exists x'. split; [done |]. by apply (own_after K a e s l g1 x).
    - intros b q z N Hb Hz okz. exists z. split.
      + rewrite Ep, lookup_alter_ne; [done |]. intros ->. apply N. eapply pg_inj; [exact G | exact Hb | apply G].
      + assert (Ek : forall e' d, delete (key e a a) K !! key e' b d = K !! key e' b d) by (intros; apply key_other; auto).
        rewrite Es. destruct okz as [Oe Oi Os Ou]. split; [| | done | done].
        * eapply group_mono; [| exact Oe]. intros d i. cbn. pose proof (Ek true d) as E2. cbn in E2. by rewrite E2.
        * eapply group_mono; [| exact Oi]. intros d i. cbn. pose proof (Ek false d) as E2. cbn in E2. by rewrite E2. }
  assert (Dst : forall P' w', st w ∅ P' w' -> drift w w') by (intros P' w' S'; eapply drift_st; [apply G | exact S']).
  destruct (port_of (w_core w) (sb_addr s)) as [r |] eqn:Er.
  - (* another port of the number *)
    pose proof Er as Hr. apply port_of_find in Hr as (cl & y & Hcl & _ & Hin & Hy & Eny & _).
    assert (Hrp : r <> p) by (intros ->; by eapply (pg_gone _ _ _ _ _ _ G)).
    assert (Sil : silent y).
    { eapply (pg_silent _ _ _ _ _ _ G); [exact Hcl | exact Hin | exact Hy |]. rewrite Eny, Es. destruct a as [c n].
      cbn [addr_client addr_port]. rewrite (pg_home _ _ _ _ _ _ G). congruence. }
    assert (Eg2 : (group_remove a (sb_info s) (group_of (negb e) y)).2 = group_of (negb e) y).
    { rewrite remove_absent; [done |]. rewrite silent_group by done. apply not_elem_of_nil. }
    eapply (wp_disconnect_found w home K a p r F e s x y g1); try done.
    + rewrite E1, El. intros t Ht. by right.
    + by rewrite E1.
    + by rewrite Es.
    + by rewrite Eg2.
    + intros w' F' D R Ep. apply HQ. eapply (Hsame w' F' (down_on e (with_group e g1 x)) D R); [| by rewrite down_on_port, with_group_port |
        by rewrite group_of_down, group_of_with | by rewrite group_of_down, group_of_other].
      rewrite Ep, Eg2. apply map_eq. intros q. rewrite !lookup_alter_if.
      destruct (sy_ports (w_core w) !! q) as [z |] eqn:Hz; [| done]. cbn. repeat case_decide; subst; simplify_eq; try done.
      cbn. unfold id. by rewrite (with_same_group (negb e)), down_silent.
  - assert (H1 : alter (with_group e g1) p (sy_ports (w_core w)) !! p = Some (with_group e g1 x)) by by rewrite lookup_alter_eq, Hx.
    unfold disconnect. eapply wp_bind, st_port; [exact S1 | exact H1 |]. apply wp_bind, wp_use_ptr.
    destruct (pg_client _ _ _ _ _ _ G) as [cl Hcl].
    rewrite bool_decide_eq_true_2 by (rewrite Es; unfold a_client; rewrite (st_clients _ _ _ _ S1); fold (a_client (w_core w) (addr_client a)); eauto).
    cbn [negb]. eapply wp_bind, wp_use_port; [exact ok | | exact S1 | rewrite Es; eauto |].
    { eapply same_shape_alter; [apply same_shape_refl | apply G | intros; apply with_group_port]. }
    intros w2 S2. rewrite Er. cbn [default from_option]. rewrite Z.eqb_refl. cbn [negb when]. apply wp_bind, wp_ret.
    assert (Hcl0 : sy_clients (w_core w) !! addr_client (sb_addr s) = Some cl).
    { rewrite Es. unfold a_client in Hcl. by destruct (_ && _). }
    unfold snd_seq_ports_unlock. eapply wp_bind, wp_client_at; [rewrite (st_clients _ _ _ _ S2); exact Hcl0 |].
    eapply st_unlock; [exact S2 |]. intros w3 S3. apply HQ. eapply (Hsame w3 F (with_group e g1 x)).
    + by eapply Dst.
    + eapply ready_st; [apply G | exact S3 |]. apply fit_alter; [apply fit_refl |]. intros z t Hz. rewrite Hx in Hz. injection Hz as <-.
      apply with_group_export. rewrite E1, El. intros t' Ht. by right.
    + rewrite (st_ports _ _ _ _ S3). apply alter_ext. intros z Hz. rewrite Hx in Hz. by injection Hz as <-.
    + apply with_group_port.
    + apply group_of_with.
    + apply group_of_other.
Qed.

Lemma wp_disconnect w home K a p F e s l x g1 w1 (Q : unit -> world (sys C) -> Prop) :
  parting w home K a p F -> sy_ports (w_core w) !! p = Some x -> g_list (group_of e x) = s :: l -> g_list g1 = l ->
  byte_addr (s_sender (sb_info s)) -> byte_addr (s_dest (sb_info s)) ->
  st w ∅ (alter (with_group e g1) p (sy_ports (w_core w))) w1 ->
  (forall w', parted w home (delete (key e a (sb_addr s)) K) a p e l (group_of (negb e) x) w' -> Q tt w') ->
  wp (disconnect (addr_client a) p e s) Q w1.
Proof.
  intros G Hx El E1 Bs Bd S1 HQ. destruct (pg_port _ _ _ _ _ _ G) as (x0 & Hx0 & En & O). rewrite Hx in Hx0. injection Hx0 as <-.
  assert (Hns : sb_addr s ∉ sb_addr <$> l). { destruct (O e) as [N _]. rewrite El in N. by apply NoDup_cons in N as [? _]. }
  destruct (decide (sb_addr s = a)) as [Es | N]; [by eapply wp_disconnect_self |].
  assert (Hi : K !! key e a (sb_addr s) = Some (sb_info s)) by (apply (O e); [done | rewrite El; left]).
  assert (Hhome : exists r, home !! sb_addr s = Some r).
  { destruct e; cbn in Hi; destruct (pg_ends _ _ _ _ _ _ G _ _ _ Hi) as (_ & _ & _ & [? H1] & [? H2]); eauto. }
  destruct Hhome as [r Hr]. pose proof (pg_found _ _ _ _ _ _ G _ _ N Hr) as Hf.
  destruct (pg_others _ _ _ _ _ _ G _ _ N Hr) as (y & Hy & oky).
  assert (Hrp : r <> p).
  { intros ->. apply N. eapply pg_inj; [exact G | exact Hr | apply G]. }
  assert (Hi' : K !! key (negb e) (sb_addr s) a = Some (sb_info s)) by by rewrite key_negb.
  pose proof (group_ok_small _ _ _ _ _ _ _ _ _ (negb e) G Hr oky) as Hsm.
  destruct (group_remove_ok (group_of (negb e) y) _ a (sb_info s) (sb_info s) (port_group _ _ _ (negb e) oky) Hi')
    as (g2 & Eg2 & Lg2 & Gg2); [done | lia |].
  assert (Hg2 : forall t, t ∈ g_list g2 -> t ∈ g_list (group_of (negb e) y)).
  { intros t Ht. apply (gp_list _ _ (port_group _ _ _ (negb e) oky)). by apply (gp_list _ _ Gg2) in Ht as [? _]. }
  eapply (wp_disconnect_found w home K a p r F e s x y g1); try done.
  - rewrite E1, El. intros t Ht. by right.
  - by rewrite E1.
  - by eapply pg_byte.
  - by rewrite Eg2.
  - intros w' F' D R Ep. rewrite Eg2 in Ep. cbn [snd] in Ep. apply HQ. split; [done |].
    set (x' := down_on e (with_group e g1 x)).
    assert (Hp : sy_ports (w_core w') !! p = Some x').
    { rewrite Ep, !lookup_alter_if, Hx. cbn. by repeat case_decide; subst. }
    assert (Ex : group_of e x' = g1) by (unfold x'; by rewrite group_of_down, group_of_with).
    assert (Eo : group_of (negb e) x' = group_of (negb e) x) by (unfold x'; by rewrite group_of_down, group_of_other).
    exists F', x'. split_and!; [| done | by rewrite Ex | done].
    eapply (parting_step w w' home K); [exact G | done | | apply delete_subseteq | exact R | |].
    + rewrite Ep. repeat (eapply same_shape_alter;
        [| first [exact Hr | exact (pg_home _ _ _ _ _ _ G)] | intros; rewrite ?down_on_port, ?with_group_port; done]).
      apply same_shape_refl.
    + exists x'. split; [done |]. by apply (own_after K a e s l g1 x).
    + intros b q z Nb Hb Hz okz. assert (Hqp : q <> p) by (intros ->; apply Nb; eapply pg_inj; [exact G | exact Hb | apply G]).
      rewrite Ep, !lookup_alter_if, Hz. cbn. rewrite (decide_False (P := q = p)) by done.
      rewrite (decide_False (P := q = p)) by done. cbn. destruct (decide (q = r)) as [-> | Nr].
      * assert (b = sb_addr s) as -> by by eapply pg_inj. assert (z = y) as -> by congruence.
        eexists. split; [done |]. by apply (port_after K a (sb_addr s) e (sb_info s)).
      * exists z. split; [done |]. assert (Nb2 : b <> sb_addr s) by (intros ->; congruence).
        assert (Ek : forall e' d, delete (key e a (sb_addr s)) K !! key e' b d = K !! key e' b d) by (intros; apply key_other; auto).
        destruct okz as [Oe Oi Os Ou]. split; [| | done | done].
        -- eapply group_mono; [| exact Oe]. intros d i. cbn. pose proof (Ek true d) as E2. cbn in E2. by rewrite E2.
        -- eapply group_mono; [| exact Oi]. intros d i. cbn. pose proof (Ek false d) as E2. cbn in E2. by rewrite E2.
Qed.

(** All connections on one side. *)
Lemma wp_clear home a p e l : forall n w K F x (Q : unit -> world (sys C) -> Prop),
  parting w home K a p F -> sy_ports (w_core w) !! p = Some x -> g_list (group_of e x) = l -> (length l < n)%nat ->
  (forall s, s ∈ l -> byte_addr (s_sender (sb_info s)) /\ byte_addr (s_dest (sb_info s))) ->
  (forall K' w', without a K' = without a K -> parted w home K' a p e [] (group_of (negb e) x) w' -> Q tt w') ->
  wp (clear_subscribers n (addr_client a) p e) Q w.
Proof.
  induction l as [| s l IH]; intros n w K F x Q G Hx El Hn Hb HQ; (destruct n as [| n]; [cbn in Hn; lia |]); cbn [clear_subscribers].
  - assert (S0 : st w ∅ (sy_ports (w_core w)) w) by (rewrite <- (pg_free _ _ _ _ _ _ G); apply st_start).
    eapply wp_bind, st_lock; [exact S0 |]. intros w1 S1. eapply wp_bind, wp_bind, st_port; [exact S1 | exact Hx |]. apply wp_ret.
    rewrite El. eapply wp_bind, st_unlock; [exact S1 |]. intros w2 S2. apply wp_ret, (HQ K); [done |].
    assert (D : drift w w2) by (eapply drift_st; [apply G | exact S2]). split; [done |]. exists F, x.
    pose proof (st_ports _ _ _ _ S2) as Ep. split_and!; [| by rewrite Ep | done | done].
    eapply (parting_step w w2 home K); [exact G | exact D | rewrite Ep; apply same_shape_refl | done | | |].
    + eapply ready_st; [apply G | exact S2 | apply fit_refl].
    + rewrite Ep. destruct (pg_port _ _ _ _ _ _ G) as (x' & ? & _ & ?). eauto.
    + intros b q z _ _ Hz okz. rewrite Ep. eauto.
  - assert (S0 : st w ∅ (sy_ports (w_core w)) w) by (rewrite <- (pg_free _ _ _ _ _ _ G); apply st_start).
    eapply wp_bind, st_lock; [exact S0 |]. intros w1 S1. eapply wp_bind, wp_bind, st_port; [exact S1 | exact Hx |]. apply wp_ret.
    rewrite El. eapply wp_bind, st_set_port; [exact S1 | eauto |]. intros w2 S2. eapply wp_bind, st_unlock; [exact S2 |]. intros w3 S3.
    set (g1 := (group_of e x) <| g_list := l |> <| g_count := u32 (g_count (group_of e x) - 1) |>).
    assert (S4 : st w ∅ (alter (with_group e g1) p (sy_ports (w_core w))) w3).
    { eapply st_map; [| exact S3]. apply alter_ext. intros z Hz. rewrite Hx in Hz. by injection Hz as <-. }
    destruct (Hb s ltac:(left)) as [Bs Bd].
    eapply wp_bind, (wp_disconnect w home K a p F e s l x g1); [exact G | exact Hx | exact El | done | exact Bs | exact Bd | exact S4 |].
    intros w5 (D5 & F5 & x5 & G5 & Hx5 & El5 & Eo5). eapply (IH n w5 _ F5 x5); [exact G5 | exact Hx5 | exact El5 | cbn in Hn; lia | |].
    + intros t Ht. apply Hb. by right.
    + intros K' w6 EK (D6 & Post). apply (HQ K').
      * by rewrite EK, without_delete.
      * split; [by eapply drift_trans |]. by rewrite <- Eo5.
Qed.

(** ** The port off the list *)

Lemma wp_unlink w n l (Q : option (Z * list Z) -> world (sys C) -> Prop) : all_ports w l -> NoDup l ->
  (forall p x l', a_find (w_core w) n l = Some (p, x) -> NoDup l' -> (forall q, q ∈ l' <-> q ∈ l /\ q <> p) ->
     (forall m, m <> n -> a_find (w_core w) m l' = a_find (w_core w) m l) -> Q (Some (p, l')) w) ->
  (a_find (w_core w) n l = None -> Q None w) -> wp (unlink_port n l) Q w.
Proof.
  revert Q. induction l as [| q l IH]; intros Q Ha N HQ1 HQ2; cbn [unlink_port a_find] in *; [by apply wp_ret, HQ2 |].
  apply NoDup_cons in N as [Hq N]. destruct (Ha q ltac:(left)) as [_ [x Hx]]. rewrite Hx in HQ1, HQ2.
  eapply wp_bind, wp_port_at; [exact Hx |]. destruct (Z.eqb_spec (pt_port x) n) as [E | Ne].
  - apply wp_ret, (HQ1 q x); [done | done | |].
    + intros r. rewrite elem_of_cons. split; [intros Hr; split; [by right | by intros ->] | intros [[-> | ?] ?]; done].
    + intros m Hm. rewrite (proj2 (Z.eqb_neq _ _)); [done | congruence].
  - apply wp_bind, IH; [intros r Hr; apply Ha; by right | done | |].
    + intros p y l' Ef N' Hl Hf. apply wp_ret, (HQ1 p y); [done | | |].
      * apply NoDup_cons. split; [by intros [? _]%Hl | done].
      * intros r. rewrite !elem_of_cons, Hl. split; [intros [-> | [? ?]]; [split; [auto |] | auto] | intros [[-> | ?] ?]; auto].
        intros ->. apply find_number in Ef as [? _]. done.
      * intros m Hm. cbn [a_find]. rewrite Hx. destruct (pt_port x =? m); [done | by apply Hf].
    + intros Ef. by apply wp_ret, HQ2.
Qed.

(** The world with fewer ports for a client. *)
Lemma parting_start w w1 home K a p F cl x l' : sound w home K -> byte_addr a -> ready w F ->
  sy_clients (w_core w) !! addr_client a = Some cl -> 0 <= addr_client a < SEQ_MAX_CLIENTS ->
  a_find (w_core w) (addr_port a) (cl_ports cl) = Some (p, x) -> NoDup l' -> (forall q, q ∈ l' <-> q ∈ cl_ports cl /\ q <> p) ->
  (forall m, m <> addr_port a -> a_find (w_core w) m l' = a_find (w_core w) m (cl_ports cl)) ->
  w_mem w1 = w_mem w -> w_queues w1 = w_queues w -> w_now w1 = w_now w ->
  sy_ports (w_core w1) = sy_ports (w_core w) -> sy_mutexes (w_core w1) = sy_mutexes (w_core w) ->
  (exists cl', cl_ports cl' = l' /\ cl_fifo cl' = cl_fifo cl /\
     sy_clients (w_core w1) = <[addr_client a := cl']> (sy_clients (w_core w))) ->
  parting w1 home K a p F.
Proof.
  intros So Ba R Hcl Hb Ef N' Hl Hf Em Eq Et Ep Ex (cl' & El' & Eff & Ec).
  pose proof (sd_wired _ _ _ So) as W. pose proof (sd_table _ _ _ So) as T. destruct (find_number _ _ _ _ _ Ef) as (Hin & Hx & En).
  assert (Hpa : port_of (w_core w) a = Some p).
  { unfold port_of, a_client. rewrite (proj2 (andb_true_iff _ _)) by lia. by rewrite Hcl, Ef. }
  pose proof (tb_there _ _ T _ _ Hpa Ba) as Ha.
  assert (Hsub : forall c d q, sy_clients (w_core w1) !! c = Some d -> q ∈ cl_ports d ->
    exists d0, sy_clients (w_core w) !! c = Some d0 /\ q ∈ cl_ports d0 /\ q <> p).
  { intros c d q. rewrite Ec. destruct (decide (addr_client a = c)) as [<- | N].
    - rewrite lookup_insert_eq. intros [= <-]. rewrite El', Hl. intros [? ?]. eauto.
    - rewrite lookup_insert_ne by done. intros Hd Hq. exists d. split_and!; [done | done |]. intros ->. apply N.
      by eapply (tb_apart _ _ T). }
  assert (Hfind : forall b, b <> a -> port_of (w_core w1) b = port_of (w_core w) b).
  { intros b Nb. unfold port_of, a_client. destruct (_ && _); [| done]. rewrite Ec.
    destruct (decide (addr_client a = addr_client b)) as [E | N].
    - rewrite <- E, lookup_insert_eq, Hcl, El'.
      assert (Hm : addr_port b <> addr_port a) by (intros E2; apply Nb; destruct a, b; cbn in *; congruence).
      rewrite <- Hf by done. apply find_shape. intros q. by rewrite Ep.
    - rewrite lookup_insert_ne by done. destruct (sy_clients (w_core w) !! addr_client b); [| done]. apply find_shape. intros q. by rewrite Ep. }
  split.
  - destruct R as [[Mo Po] Ck Tk]. split; [split | |].
    + replace (fifos w1) with (fifos w); [by rewrite Em |]. unfold fifos. rewrite Ec. apply map_eq. intros c. rewrite !lookup_omap.
      destruct (decide (addr_client a = c)) as [<- | N]; [by rewrite lookup_insert_eq, Hcl; cbn; rewrite Eff | by rewrite lookup_insert_ne].
    + intros c d q Hd Hq. destruct (Hsub _ _ _ Hd Hq) as (d0 & Hd0 & Hq0 & _). rewrite Ep. by eapply Po.
    + intros id q Hq. rewrite Et. apply (Ck id q). unfold lookup_queue in *. by rewrite Eq in Hq.
    + intros c d q y t Hd Hq. destruct (Hsub _ _ _ Hd Hq) as (d0 & Hd0 & Hq0 & _). rewrite Ep. by eapply Tk.
  - destruct (wd_port _ _ _ W _ _ Ha) as (x' & Hx' & okx). exists x'. rewrite Ep. split_and!; [done | congruence |].
    intros e. destruct (port_group _ _ _ e okx) as [Nd L _]. split; [done |]. intros t _. apply L.
  - intros b q _ Hq. rewrite Ep. by apply (wd_port _ _ _ W).
  - apply W.
  - apply W.
  - apply W.
  - done.
  - intros b q Nb Hq. rewrite Hfind by done. by apply T.
  - intros b q Nb. rewrite Hfind by done. apply T.
  - intros c d q y Hd Hq. destruct (Hsub _ _ _ Hd Hq) as (d0 & Hd0 & Hq0 & _). rewrite Ep. by eapply (tb_silent _ _ T).
  - intros c d. rewrite Ec. destruct (decide (addr_client a = c)) as [<- | N]; [rewrite lookup_insert_eq; by intros [= <-]; rewrite El' |].
    rewrite lookup_insert_ne by done. apply (tb_once _ _ T).
  - intros c c' d d' q Hd Hd' Hq Hq'. destruct (Hsub _ _ _ Hd Hq) as (d0 & Hd0 & Hq0 & _).
    destruct (Hsub _ _ _ Hd' Hq') as (d0' & Hd0' & Hq0' & _). by eapply (tb_apart _ _ T).
  - intros c d Hd Hq. by destruct (Hsub _ _ _ Hd Hq) as (d0 & _ & _ & ?).
  - unfold a_client. rewrite (proj2 (andb_true_iff _ _)) by lia. rewrite Ec, lookup_insert_eq. eauto.
  - rewrite Ex. apply So.
Qed.

(** Nothing is left of it. *)
Lemma parting_sound w home K a p F x : parting w home K a p F -> sy_ports (w_core w) !! p = Some x ->
  g_list (pt_export x) = [] -> g_list (pt_import x) = [] ->
  exists home', (forall b, b <> a -> home' !! b = home !! b) /\ home' !! a <> Some p /\ sound w home' (without a K).
Proof.
  intros G Hx Ee Ei. exists (partial_alter (fun _ => port_of (w_core w) a) a home).
  assert (Hne : forall b, b <> a -> partial_alter (fun _ => port_of (w_core w) a) a home !! b = home !! b)
    by (intros; by apply lookup_partial_alter_ne).
  assert (Heq : partial_alter (fun _ => port_of (w_core w) a) a home !! a = port_of (w_core w) a) by apply lookup_partial_alter_eq.
  split; [done |]. split.
  { rewrite Heq. intros (cl & y & Hc & _ & Hin & _)%port_of_find. by eapply (pg_gone _ _ _ _ _ _ G). }
  assert (Hnone : forall e b, b <> a -> K !! key e a b = None).
  { intros e b Nb. destruct (K !! key e a b) as [i |] eqn:Ek; [| done]. exfalso.
    destruct (pg_port _ _ _ _ _ _ G) as (x0 & Hx0 & _ & O). rewrite Hx in Hx0. injection Hx0 as <-.
    apply (proj2 (O e) (Subscriber b i) Nb) in Ek. destruct e; cbn in Ek; rewrite ?Ee, ?Ei in Ek; by apply elem_of_nil in Ek. }
  assert (Hsame : forall b d, b <> a -> without a K !! (b, d) = K !! (b, d) /\ without a K !! (d, b) = K !! (d, b)).
  { intros b d Nb. rewrite !without_lookup. split; case_decide as E; try done.
    - destruct E as [? | ->]; [done |]. exact (eq_sym (Hnone false b Nb)).
    - destruct E as [-> | ?]; [| done]. exact (eq_sym (Hnone true b Nb)). }
  assert (Hself : forall q, port_of (w_core w) a = Some q -> exists y, sy_ports (w_core w) !! q = Some y /\ silent y).
  { intros q (cl & y & Hc & _ & Hin & Hy & En & _)%port_of_find. exists y. split; [done |].
    eapply (pg_silent _ _ _ _ _ _ G); [exact Hc | exact Hin | exact Hy |]. rewrite En.
    replace (Addr (addr_client a) (addr_port a)) with a by by destruct a. rewrite (pg_home _ _ _ _ _ _ G). intros [= ->].
    by eapply (pg_gone _ _ _ _ _ _ G). }
  assert (Ba : byte_addr a) by (eapply pg_byte; [exact G | apply G]).
  split; [eexists; apply G | apply (rd_clocks _ _ (pg_ready _ _ _ _ _ _ G)) | | | apply G].
  - split.
    + intros b q Hb. destruct (decide (b = a)) as [-> | Nb].
      * rewrite Heq in Hb. destruct (Hself q Hb) as (y & Hy & (S1 & S2 & S3 & S4 & S5 & S6)). exists y. split; [done |].
        assert (Hg : forall g R, g_list g = [] -> g_count g = 0 -> (forall c i, ~ R c i) -> group_ok g R).
        { intros g R Eg Ec Hn. split; rewrite Eg; [apply NoDup_nil; done | | done]. intros t.
          split; [by intros ?%elem_of_nil | intros Ht; by apply Hn in Ht]. }
        split; [apply Hg; [done | done |] | apply Hg; [done | done |] | by rewrite S1, S5 | by rewrite S2, S6];
          intros c i; rewrite without_lookup, decide_True by auto; done.
      * rewrite Hne in Hb by done. destruct (pg_others _ _ _ _ _ _ G b q Nb Hb) as (y & Hy & [Oe Oi Os Ou]). exists y. split; [done |].
        split; [| | done | done].
        -- eapply group_mono; [| exact Oe]. intros c i. cbn. by rewrite (proj1 (Hsame b c Nb)).
        -- eapply group_mono; [| exact Oi]. intros c i. cbn. by rewrite (proj2 (Hsame b c Nb)).
    + intros b d i Hi. rewrite without_lookup in Hi. case_decide as E; [done |].
      destruct (pg_ends _ _ _ _ _ _ G _ _ _ Hi) as (? & ? & ? & ? & ?). rewrite !Hne by tauto. done.
    + assert (Hmix : forall b q, b <> a -> home !! b = Some q -> port_of (w_core w) a = Some q -> False).
      { intros b q Nb Hb (cl & y & Hc & _ & Hin & Hy & En & _)%port_of_find. apply Nb.
        rewrite (parting_address _ _ _ _ _ _ _ _ _ _ _ G Hc Hin Hy Hb), En. by destruct a. }
      intros b d q Hb Hd. destruct (decide (b = a)) as [-> | Nb], (decide (d = a)) as [-> | Nd]; [done | | |].
      * rewrite Heq in Hb. rewrite Hne in Hd by done. by destruct (Hmix d q).
      * rewrite Heq in Hd. rewrite Hne in Hb by done. by destruct (Hmix b q).
      * rewrite Hne in Hb, Hd by done. by eapply pg_inj.
    + intros b q Hb. destruct (decide (b = a)) as [-> | Nb]; [done |]. rewrite Hne in Hb by done. by eapply pg_byte.
  - split.
    + intros b q Hb. destruct (decide (b = a)) as [-> | Nb]; [by rewrite Heq in Hb |]. rewrite Hne in Hb by done. by apply G.
    + intros b q Hb Bb. destruct (decide (b = a)) as [-> | Nb]; [by rewrite Heq |]. rewrite Hne by done. by apply G.
    + intros c cl q y Hc Hq Hy Hh. eapply (pg_silent _ _ _ _ _ _ G); [exact Hc | exact Hq | exact Hy |].
      destruct (decide (Addr c (pt_port y) = a)) as [-> | Na]; [| by rewrite <- Hne].
      rewrite (pg_home _ _ _ _ _ _ G). intros [= ->]. by eapply (pg_gone _ _ _ _ _ _ G).
    + apply G.
    + apply G.
Qed.

(** ** The calls *)

(** Both sides cleared, and the driver told. *)
Lemma wp_port_delete w home K a p F x (Q : Z -> world (sys C) -> Prop) :
  parting w home K a p F -> sy_ports (w_core w) !! p = Some x ->
  (forall e s, s ∈ g_list (group_of e x) -> byte_addr (s_sender (sb_info s)) /\ byte_addr (s_dest (sb_info s))) ->
  (forall w' home', drift w w' -> (forall b, b <> a -> home' !! b = home !! b) -> home' !! a <> Some p ->
     sound w' home' (without a K) -> Q 0 w') ->
  wp (snd_seq_port_delete (addr_client a) p) Q w.
Proof.
  intros G Hx Hb HQ. unfold snd_seq_port_delete, group_fuel.
  eapply wp_bind, wp_bind, wp_bind, wp_port_at; [exact Hx |]. apply wp_ret, wp_ret. apply wp_bind.
  eapply (wp_clear home a p false _ _ w K F x); [exact G | exact Hx | done | cbn; lia | by apply Hb |].
  intros K1 w1 E1 (D1 & F1 & x1 & G1 & Hx1 & El1 & Eo1).
  eapply wp_bind, wp_bind, wp_bind, wp_port_at; [exact Hx1 |]. apply wp_ret, wp_ret. apply wp_bind.
  eapply (wp_clear home a p true _ _ w1 K1 F1 x1); [exact G1 | exact Hx1 | done | cbn; lia | |].
  { intros s. cbn [negb] in Eo1. rewrite Eo1. apply Hb. }
  intros K2 w2 E2 (D2 & F2 & x2 & G2 & Hx2 & El2 & Eo2).
  eapply wp_bind, wp_port_at; [exact Hx2 |].
  cbn [negb group_of] in *. assert (Ei : g_list (pt_import x2) = []) by (by rewrite Eo2).
  destruct (parting_sound _ _ _ _ _ _ _ G2 Hx2 El2 Ei) as (home' & Hne & Ha & So). rewrite E2, E1 in So.
  assert (D : drift w w2) by by eapply drift_trans.
  destruct (truth (pt_private_free x2)); cbn [when]; [| by apply wp_bind, wp_ret, wp_ret, (HQ w2 home')].
  apply wp_bind. destruct (free_quiet (pt_private_free x2) (pt_private_data x2) w2) as [t Et]. unfold wp at 1. rewrite Et. apply wp_ret.
  set (w3 := w2 <| w_core := _ |>). assert (L : leaves w2 home' (without a K) w3).
  { eapply leaves_st; [split; [apply drift_refl | exact So] |]. split; try done. apply So. }
  eapply (HQ w3 home'); [by eapply drift_trans | done | done | apply L].
Qed.

Lemma wp_delete_port w home K a (Q : Z -> world (sys C) -> Prop) :
  sound w home K -> byte_addr a -> is_Some (a_client (w_core w) (addr_client a)) ->
  (home !! a = None -> forall w', leaves w home K w' -> Q (-ENOENT) w') ->
  (forall p w' home', home !! a = Some p -> (forall b, b <> a -> home' !! b = home !! b) -> home' !! a <> Some p ->
     sound w' home' (without a K) -> Q 0 w') ->
  wp (snd_seq_delete_port (addr_client a) (addr_port a)) Q w.
Proof.
  intros So Ba [cl Hca] HQ1 HQ2. pose proof (sd_table _ _ _ So) as T. destruct (sound_ready _ _ _ So) as [F R].
  pose proof (rd_sys _ _ R) as ok. pose proof Hca as Hc. unfold a_client in Hc. destruct (_ && _) eqn:Eb; [| done].
  assert (Hpo : port_of (w_core w) a = fst <$> a_find (w_core w) (addr_port a) (cl_ports cl)) by (unfold port_of; by rewrite Hca).
  assert (S0 : st w ∅ (sy_ports (w_core w)) w) by (rewrite <- (sd_free _ _ _ So); apply st_start).
  unfold snd_seq_delete_port. eapply wp_bind, st_lock; [exact S0 |]. intros w1 S1.
  assert (Ef : forall m l, fst <$> a_find (w_core w1) m l = fst <$> a_find (w_core w) m l).
  { intros m l. apply find_shape. intros q. by rewrite (st_ports _ _ _ _ S1). }
  eapply wp_bind, wp_client_at; [rewrite (st_clients _ _ _ _ S1); exact Hc |].
  apply wp_bind, wp_unlink.
  - intros q Hq. rewrite (st_ports _ _ _ _ S1). by eapply (so_ports _ _ ok).
  - by apply (tb_once _ _ T (addr_client a)).
  - intros p x l' Hf N' Hl Hm. pose proof (Ef (addr_port a) (cl_ports cl)) as E. rewrite Hf, <- Hpo in E. cbn in E.
    pose proof (tb_there _ _ T _ _ (eq_sym E) Ba) as Ha.
    assert (Hfind : exists x', a_find (w_core w) (addr_port a) (cl_ports cl) = Some (p, x')).
    { rewrite Hpo in E. destruct (a_find (w_core w) _ _) as [[q x'] |]; [| done]. cbn in E. injection E as ->. eauto. }
    destruct Hfind as [x' Hf']. destruct (find_number _ _ _ _ _ Hf') as (_ & Hx & _).
    unfold set_client. eapply wp_bind, wp_bind, wp_client_at; [rewrite (st_clients _ _ _ _ S1); exact Hc |]. apply wp_sys_do.
    eapply wp_bind, wp_unlock. intros w2 (Ca & Em & _) Ecl.
    assert (Hmem : forall m, m <> addr_port a -> a_find (w_core w) m l' = a_find (w_core w) m (cl_ports cl)).
    { intros m Nm. assert (Hcongr : forall l, a_find (w_core w1) m l = a_find (w_core w) m l); [| by rewrite <- !Hcongr, Hm].
      intros l. induction l as [| q l IH]; cbn [a_find]; [done |]. by rewrite (st_ports _ _ _ _ S1), IH. }
    assert (G : parting w2 home K a p F).
    { eapply (parting_start w w2 home K a p F cl x' l'); try done; [lia | ..].
      - rewrite Em. apply S1.
      - rewrite (ca_queues _ _ Ca). apply S1.
      - rewrite (ca_now _ _ Ca). apply S1.
      - rewrite (ca_ports _ _ Ca). apply S1.
      - rewrite (ca_mutexes _ _ Ca), (sd_free _ _ _ So). apply S1.
      - exists (cl <| cl_ports := l' |> <| cl_num_ports := cl_num_ports cl - 1 |>). split_and!; [done | done |].
        rewrite Ecl. cbn. by rewrite (st_clients _ _ _ _ S1). }
    assert (Hx2 : sy_ports (w_core w2) !! p = Some x').
    { rewrite (ca_ports _ _ Ca). cbn. by rewrite (st_ports _ _ _ _ S1). }
    destruct (wd_port _ _ _ (sd_wired _ _ _ So) _ _ Ha) as (y & Hy & oky). rewrite Hx in Hy. injection Hy as <-.
    eapply wp_port_delete; [exact G | exact Hx2 | |].
    + intros e s Hs. apply (gp_list _ _ (port_group _ _ _ e oky)) in Hs.
      assert (Hends : forall b d i, K !! (b, d) = Some i -> byte_addr (s_sender i) /\ byte_addr (s_dest i)).
      { intros b d i Hi. destruct (wd_ends _ _ _ (sd_wired _ _ _ So) _ _ _ Hi) as (-> & -> & _ & [? H1] & [? H2]).
        split; eapply (wd_byte _ _ _ (sd_wired _ _ _ So)); done. }
      by destruct e; apply Hends in Hs.
    + intros w' home' _ Hne Hna So'. by eapply (HQ2 p w' home').
  - intros Hf. eapply wp_bind, st_unlock; [exact S1 |]. intros w2 S2. apply wp_ret, HQ1.
    + destruct (home !! a) as [p |] eqn:Ha; [| done]. apply (tb_home _ _ T) in Ha. rewrite Hpo, <- Ef, Hf in Ha. done.
    + eapply leaves_st; [| exact S2]. split; [apply drift_refl | exact So].
Qed.

Lemma wp_system_broadcast w home K client num type (Q : unit -> world (sys C) -> Prop) :
  sound w home K -> is_byte type -> type <> EVENT_KERNEL_QUOTE ->
  (forall w', leaves w home K w' -> Q tt w') -> wp (snd_seq_system_broadcast client num type) Q w.
Proof.
  intros So Ht Hk HQ. destruct (sound_ready _ _ _ So) as [F R]. assert (L : leaves w home K w) by (split; [apply drift_refl | done]).
  unfold snd_seq_system_broadcast. apply wp_bind, wp_sys_get. destruct (_ <? 0); [by apply wp_ret, HQ |].
  apply wp_bind. eapply wp_dispatch; [done | exact R | | done |].
  - intros c' Hc'. split; [| by exists []].
    pose proof (Z.mod_pos_bound (sy_announce (w_core w)) 256). pose proof (Z.mod_pos_bound client 256). pose proof (Z.mod_pos_bound num 256).
    unfold is_byte in *. split; cbn; rewrite !Forall_cons, Forall_nil; unfold is_u32, is_byte, QUEUE_DIRECT, ADDRESS_SUBSCRIBERS, id in *; lia.
  - intros rc F' w' Ca R'. by apply wp_ret, HQ, (leaves_calm w w w' F').
Qed.

(** C8: removing the port at an address takes the connections of that address out of the map, on
    both sides and at both ends, and leaves the others; the address then is free, or another
    port of the same number has it.  If there is none, or the caller may not, nothing happens. *)
Theorem delete_port_unplugs w home K c info :
  sound w home K -> byte_addr (i_addr info) -> is_Some (a_client (w_core w) c) ->
  wp (snd_seq_ioctl_delete_port c info) (fun rc w' =>
    rc = (if w_interrupt w then -EBUSY else if negb (addr_client (i_addr info) =? c) then -EPERM
          else match home !! i_addr info with Some _ => 0 | None => -ENOENT end) /\
    if rc <? 0 then leaves w home K w' else
    exists p home', home !! i_addr info = Some p /\ home' !! i_addr info <> Some p /\
      (forall b, b <> i_addr info -> home' !! b = home !! b) /\ sound w' home' (without (i_addr info) K)) w.
Proof.
  intros So Ba Hc. assert (L : leaves w home K w) by (split; [apply drift_refl | done]).
  unfold snd_seq_ioctl_delete_port, busy_in_interrupt. apply wp_bind. unfold wp at 1, get.
  destruct (w_interrupt w); [by apply wp_ret |]. destruct (Z.eqb_spec (addr_client (i_addr info)) c) as [<- | N]; cbn [negb]; [| by apply wp_ret].
  apply wp_bind. eapply wp_delete_port; [exact So | exact Ba | exact Hc | |].
  - intros -> w' L'. cbn [Z.leb Z.compare Z.opp ENOENT when]. apply wp_bind, wp_ret, wp_ret. done.
  - intros p w' home' Ha Hne Hna So'. rewrite Ha. cbn [Z.leb Z.compare when].
    eapply wp_bind, wp_system_broadcast; [exact So' | done | done |]. intros w'' [_ So'']. apply wp_ret. split; [done |]. cbn. eauto 8.
Qed.
End Unport.
