(* ===== verification/SeqSmall.v ===== *)
(** * SeqSmall: a small system of connected ports

    The theorems on connections at work: client 128 has a port that sends to a port of client
    129, and client 64 is in the kernel. *)

From S2P Require Import Prelude SeqEvent SeqCells SeqMemory SeqCopy SeqFifo SeqFifoSpec SeqPrioq SeqTimer SeqQueue SeqWorld.
From S2P Require Import SeqPorts SeqRoute SeqConnect SeqMail SeqRouteSpec SeqWiring SeqRewire SeqWired SeqUnport.
Open Scope Z_scope.
Open Scope state_scope.

Lemma foldr_max_le (l : list Z) z : z ∈ l -> z <= foldr Z.max 0 l.
Proof. induction l as [| y l IH]; [by intros ?%elem_of_nil |]. intros [-> | Hz]%elem_of_cons; cbn [foldr]; [lia |]. specialize (IH Hz). lia. Qed.

#[export] Instance idle_callbacks : QuietCallbacks unit.
Proof.
  refine {| answer _ _ _ := 0 |}.
  - intros. exists tt. by destruct w as [????? [[] ????????]].
  - intros. exists tt. by destruct w as [????? [[] ????????]].
  - intros w c cl Hc Hin. assert (Hl : alloc_port w ∈ listed w).
    { apply list_elem_of_bind. exists (c, cl). split; [done |]. by apply elem_of_map_to_list. }
    apply foldr_max_le in Hl. cbn [alloc_port idle_drivers] in Hl. lia.
Defined.

Definition out : snd_seq_addr := Addr 128 0.
Definition inn : snd_seq_addr := Addr 129 3.
Definition synth : snd_seq_addr := Addr 64 1.
Definition cable (a b : snd_seq_addr) : subscribe_info := Subs a b 0 0 0.

Definition joined_port (c num : Z) (exp imp : list subscriber) : port :=
  Port c num [] (Group exp (Z.of_nat (length exp)) false) (Group imp (Z.of_nat (length imp)) false) 0 0 (Z.of_nat (length exp))
    0 0 (Z.of_nat (length imp)) 0 0 0 false 127 0 0 0.
Definition joined_ports : gmap Z port := list_to_map
  [(1000, joined_port 128 0 [Subscriber inn (cable out inn)] []); (2000, joined_port 64 1 [] []);
   (3000, joined_port 129 3 [] [Subscriber out (cable out inn)])].
Definition joined_world : world (sys unit) :=
  three_world <| w_core := (three_clients <| sy_ports := joined_ports |>) |>.
Definition joined_homes : homes := list_to_map [(out, 1000); (synth, 2000); (inn, 3000)].
Definition joined_wires : wires := {[(out, inn) := cable out inn]}.

(** The clients and homes one by one. *)
Lemma joined_client c cl : sy_clients (w_core joined_world) !! c = Some cl ->
  (c = 128 /\ cl_ports cl = [1000]) \/ (c = 129 /\ cl_ports cl = [3000]) \/ (c = 64 /\ cl_ports cl = [2000]).
Proof.
  intros Hc. apply elem_of_list_to_map_2 in Hc. repeat (apply elem_of_cons in Hc as [[= -> ->] | Hc]); [auto.. |]. by apply elem_of_nil in Hc.
Qed.

Lemma joined_home a p : joined_homes !! a = Some p -> (a = out /\ p = 1000) \/ (a = synth /\ p = 2000) \/ (a = inn /\ p = 3000).
Proof.
  intros Hc. apply elem_of_list_to_map_2 in Hc. repeat (apply elem_of_cons in Hc as [[= -> ->] | Hc]); [auto.. |]. by apply elem_of_nil in Hc.
Qed.

Lemma joined_group (R : snd_seq_addr -> subscribe_info -> Prop) (s : subscriber) :
  (forall b i, R b i <-> b = sb_addr s /\ i = sb_info s) -> group_ok (Group [s] 1 false) R.
Proof.
  intros HR. split; [apply NoDup_singleton | | done]. intros t. cbn. rewrite HR, list_elem_of_singleton.
  destruct s, t. cbn. split; [by intros [= -> ->] | by intros [-> ->]].
Qed.

Lemma empty_group (R : snd_seq_addr -> subscribe_info -> Prop) : (forall b i, ~ R b i) -> group_ok (Group [] 0 false) R.
Proof. intros HR. split; [by apply NoDup_nil | | done]. intros t. cbn. split; [by intros ?%elem_of_nil | intros Ht; by apply HR in Ht]. Qed.

Lemma joined_wired : wired joined_ports joined_homes joined_wires.
Proof.
  assert (HK : forall a b i, joined_wires !! (a, b) = Some i <-> a = out /\ b = inn /\ i = cable out inn).
  { intros a b i. unfold joined_wires. rewrite lookup_singleton_Some. split; [by intros [[= <- <-] <-] | by intros (-> & -> & ->)]. }
  split.
  - intros a p [[-> ->] | [[-> ->] | [-> ->]]]%joined_home; (eexists; split; [vm_compute; reflexivity |]); split; cbn; try done.
    + apply (joined_group _ (Subscriber inn (cable out inn))). intros b i. rewrite HK. cbn. tauto.
    + apply empty_group. intros b i. rewrite HK. by intros (_ & ? & _).
    + apply empty_group. intros b i. rewrite HK. by intros (? & _).
    + apply empty_group. intros b i. rewrite HK. by intros (_ & ? & _).
    + apply empty_group. intros b i. rewrite HK. by intros (? & _).
    + apply (joined_group _ (Subscriber out (cable out inn))). intros b i. rewrite HK. cbn. tauto.
  - intros a b i (-> & -> & ->)%HK. split_and!; [done | done | by vm_compute | by vm_compute; eauto..].
  - intros a b p [[-> ->] | [[-> ->] | [-> ->]]]%joined_home [[-> ?] | [[-> ?] | [-> ?]]]%joined_home; done.
  - intros a p [[-> ->] | [[-> ->] | [-> ->]]]%joined_home; vm_compute; split_and!; congruence.
Qed.

Lemma joined_sound : sound joined_world joined_homes joined_wires.
Proof.
  assert (Hport : forall p x, joined_ports !! p = Some x -> (p = 1000 /\ pt_port x = 0) \/ (p = 2000 /\ pt_port x = 1) \/ (p = 3000 /\ pt_port x = 3)).
  { intros p x Hx. apply elem_of_list_to_map_2 in Hx. repeat (apply elem_of_cons in Hx as [[= -> ->] | Hx]); [auto.. |]. by apply elem_of_nil in Hx. }
  split.
  - exists three_mail. split; [apply three_ok |].
    intros c cl p [[-> ->] | [[-> ->] | [-> ->]]]%joined_client ->%list_elem_of_singleton; split; by vm_compute; eauto.
  - intros id q Hq. unfold lookup_queue in Hq. cbn in Hq. by destruct (_ && _); [destruct (Z.to_nat id) |].
  - exact joined_wired.
  - split.
    + intros a p [[-> ->] | [[-> ->] | [-> ->]]]%joined_home; by vm_compute.
    + intros a p (cl & x & Hc & _ & Hp & Hx & En & _)%port_of_find _. destruct a as [c n]. cbn [addr_client addr_port] in *.
      destruct (joined_client _ _ Hc) as [[-> E] | [[-> E] | [-> E]]]; rewrite E in Hp; apply list_elem_of_singleton in Hp as ->;
        destruct (Hport _ _ Hx) as [[? E2] | [[? E2] | [? E2]]]; try done; rewrite E2 in En; subst n; by vm_compute.
    + intros c cl p x Hc Hp Hx Hn. exfalso. apply Hn.
      destruct (joined_client _ _ Hc) as [[-> E] | [[-> E] | [-> E]]]; rewrite E in Hp; apply list_elem_of_singleton in Hp as ->;
        destruct (Hport _ _ Hx) as [[? ->] | [[? ->] | [? ->]]]; try done; by vm_compute.
    + intros c cl [[-> ->] | [[-> ->] | [-> ->]]]%joined_client; apply NoDup_singleton.
    + intros c c' cl cl' p [[-> ->] | [[-> ->] | [-> ->]]]%joined_client [[-> ->] | [[-> ->] | [-> ->]]]%joined_client
        ->%list_elem_of_singleton Hp%list_elem_of_singleton; done.
  - done.
Qed.

Lemma byte_small c n : 0 <= c < 256 -> 0 <= n < 256 -> byte_addr (Addr c n).
Proof. by split. Qed.

(** Client 128 connects its port to the synthesizer as well. *)
Lemma subscribe_connects_witness :
  option_map fst (snd_seq_ioctl_subscribe_port 128 (cable out synth) joined_world) = Some 0 /\
  wp (snd_seq_ioctl_subscribe_port 128 (cable out synth)) (fun rc w' =>
    (rc < 0 /\ leaves joined_world joined_homes joined_wires w') \/
    (rc = 0 /\ joined_wires !! (out, synth) = None /\
     leaves joined_world joined_homes (<[(out, synth) := cable out synth]> joined_wires) w')) joined_world.
Proof.
  split; [vm_compute; reflexivity |]. apply subscribe_connects.
  - intros. split; done.
  - exact joined_sound.
  - apply byte_small; lia.
  - apply byte_small; lia.
  - split; done.
Defined.

(** The client that receives disconnects. *)
Lemma unsubscribe_disconnects_witness :
  option_map fst (snd_seq_ioctl_unsubscribe_port 129 (cable out inn) joined_world) = Some 0 /\
  wp (snd_seq_ioctl_unsubscribe_port 129 (cable out inn)) (fun rc w' =>
    (rc < 0 /\ leaves joined_world joined_homes joined_wires w') \/
    (rc = 0 /\ is_Some (joined_wires !! (out, inn)) /\
     leaves joined_world joined_homes (delete (out, inn) joined_wires) w')) joined_world.
Proof.
  split; [vm_compute; reflexivity |]. apply (unsubscribe_disconnects (C := unit)) with (subs := cable out inn).
  - intros. split; done.
  - exact joined_sound.
  - apply byte_small; lia.
  - apply byte_small; lia.
  - intros j Hj. vm_compute in Hj. by injection Hj as <-.
Defined.

(** The port that receives is removed, and the connection with it. *)
Definition inn_info : port_info := PortInfo inn [] 0 0 0 0 0 0 0 None.

Lemma delete_port_unplugs_witness :
  option_map fst (snd_seq_ioctl_delete_port 129 inn_info joined_world) = Some 0 /\ without inn joined_wires = ∅ /\
  wp (snd_seq_ioctl_delete_port 129 inn_info) (fun rc w' =>
    rc = (if w_interrupt joined_world then -EBUSY else if negb (addr_client (i_addr inn_info) =? 129) then -EPERM
          else match joined_homes !! i_addr inn_info with Some _ => 0 | None => -ENOENT end) /\
    if rc <? 0 then leaves joined_world joined_homes joined_wires w' else
    exists p home', joined_homes !! i_addr inn_info = Some p /\ home' !! i_addr inn_info <> Some p /\
      (forall b, b <> i_addr inn_info -> home' !! b = joined_homes !! b) /\
      sound w' home' (without (i_addr inn_info) joined_wires)) joined_world.
Proof.
  split_and!; [vm_compute; reflexivity | vm_compute; reflexivity |].
  apply (delete_port_unplugs (C := unit)) with (info := inn_info) (c := 129).
  - intros. split; done.
  - exact joined_sound.
  - apply byte_small; lia.
  - vm_compute. eauto.
Defined.
