(* ===== verification/MidiEmul.v ===== *)
(** * MidiEmul: the MIDI channels of a synthesizer

    alsa/core/seq/seq_midi_emul.c: what a driver for hardware that does not understand MIDI
    keeps for each channel, and how events change it: notes with the sustain and sostenuto
    pedals, controllers, parameters and system exclusive messages.  The driver's callbacks are
    calls in a log; whether it has them is [MidiOp].  A controller or note outside its
    array crashes. *)

From S2P Require Export StateMonad.
From S2P Require Import Prelude SeqEvent.
Open Scope Z_scope.
Open Scope state_scope.

(** ** Data *)

Definition EVENT_NONREGPARAM : Z := 15.
Definition EVENT_REGPARAM : Z := 16.

Definition CTL_MSB_BANK : Z := 0x00.
Definition CTL_MSB_DATA_ENTRY : Z := 0x06.
Definition CTL_MSB_MAIN_VOLUME : Z := 0x07.
Definition CTL_MSB_PAN : Z := 0x0a.
Definition CTL_MSB_EXPRESSION : Z := 0x0b.
Definition CTL_LSB_BANK : Z := 0x20.
Definition CTL_LSB_DATA_ENTRY : Z := 0x26.
Definition CTL_SUSTAIN : Z := 0x40.
Definition CTL_PORTAMENTO : Z := 0x41.
Definition CTL_SUSTENUTO : Z := 0x42.
Definition CTL_NONREG_PARM_NUM_LSB : Z := 0x62.
Definition CTL_NONREG_PARM_NUM_MSB : Z := 0x63.
Definition CTL_REGIST_PARM_NUM_LSB : Z := 0x64.
Definition CTL_REGIST_PARM_NUM_MSB : Z := 0x65.
Definition CTL_ALL_SOUNDS_OFF : Z := 0x78.
Definition CTL_RESET_CONTROLLERS : Z := 0x79.
Definition CTL_ALL_NOTES_OFF : Z := 0x7b.
Definition CTL_PITCHBEND : Z := 0x80.
Definition CTL_CHAN_PRESSURE : Z := 0x82.

Definition MODE_NONE : Z := 0.
Definition MODE_GM : Z := 1.
Definition MODE_GS : Z := 2.
Definition MODE_XG : Z := 3.

Definition NOTE_OFF : Z := 0.
Definition NOTE_ON : Z := 1.
Definition NOTE_RELEASED : Z := 2.
Definition NOTE_SUSTENUTO : Z := 4.

Definition PARAM_REGISTERED : Z := 0.
Definition PARAM_NONREGISTERED : Z := 1.

(** What a system exclusive message was found to be. *)
Definition SYSEX_NOT_PARSED : Z := 0.
Definition SYSEX_GM_ON : Z := 1.
Definition SYSEX_GS_RESET : Z := 3.
Definition SYSEX_GS_CHORUS_MODE : Z := 4.
Definition SYSEX_GS_REVERB_MODE : Z := 5.
Definition SYSEX_GS_DRUM_CHANNEL : Z := 8.
Definition SYSEX_XG_ON : Z := 9.

(** [snd_midi_channel_t] *)
Record channel := Channel {
  ch_number : Z; drum_channel : Z; param_type : Z; midi_aftertouch : Z; midi_pressure : Z; midi_program : Z; midi_pitchbend : Z;
  control : list Z; note : list Z; gm_rpn_pitch_bend_range : Z; gm_rpn_fine_tuning : Z; gm_rpn_coarse_tuning : Z }.
#[export] Instance settable_channel : Settable channel := fun c => Channel
  (ch_number c) (drum_channel c) (param_type c) (midi_aftertouch c) (midi_pressure c) (midi_program c) (midi_pitchbend c)
  (control c) (note c) (gm_rpn_pitch_bend_range c) (gm_rpn_fine_tuning c) (gm_rpn_coarse_tuning c).

(** A call of the driver, with the number of the channel in the set. *)
Inductive drv_call :=
| NoteOn (ch n vel : Z) | NoteOff (ch n vel : Z) | KeyPress (ch n vel : Z) | NoteTerminate (ch n : Z)
| Control (ch type : Z) | Nrpn (ch : Z) | Sysex (bytes : list Z) (parsed : Z).

(** [snd_midi_channel_set_t], and the calls made; [channels] is [None] without memory for them. *)
Record chanset := ChanSet {
  max_channels : Z; channels : option (list channel); midi_mode : Z; gs_master_volume : Z; gs_chorus_mode : Z; gs_reverb_mode : Z; log : list drv_call }.
#[export] Instance settable_chanset : Settable chanset := fun s => ChanSet
  (max_channels s) (channels s) (midi_mode s) (gs_master_volume s) (gs_chorus_mode s) (gs_reverb_mode s) (log s).

(** The callbacks that the driver has. *)
Class MidiOp := {
  op_note_on : bool; op_note_off : bool; op_key_press : bool; op_note_terminate : bool; op_control : bool; op_nrpn : bool; op_sysex : bool }.

Abbreviation E := (ST chanset).

(** ** Access *)

Definition s16 (z : Z) : Z := (z + 32768) mod 65536 - 32768.
Definition at_index (l : list Z) (i : Z) : option Z := if (0 <=? i) then l !! Z.to_nat i else None.
Definition put_index (i v : Z) (l : list Z) : list Z := <[Z.to_nat i := v]> l.

(** [chset->channels + ch] *)
Definition chan (ch : Z) : E channel := fun s =>
  match channels s with
  | Some l => match (if 0 <=? ch then l !! Z.to_nat ch else None) with Some c => Some (c, s) | None => None end
  | None => None
  end.
Definition set_chan (ch : Z) (f : channel -> channel) : E unit :=
  c <- chan ch;; update (fun s => s <| channels := option_map (<[Z.to_nat ch := f c]>) (channels s) |>).

Definition read_at (l : list Z) (i : Z) : E Z := match at_index l i with Some v => ret v | None => crash end.
Definition get_note (ch n : Z) : E Z := c <- chan ch;; read_at (note c) n.
Definition set_note (ch n v : Z) : E unit := get_note ch n;;; set_chan ch (fun c => c <| note := put_index n (u8 v) (note c) |>).
Definition get_control (ch i : Z) : E Z := c <- chan ch;; read_at (control c) i.
Definition set_control (ch i v : Z) : E unit := get_control ch i;;; set_chan ch (fun c => c <| control := put_index i (u8 v) (control c) |>).

Definition call (present : bool) (x : drv_call) : E unit := when present (update (fun s => s <| log := log s ++ [x] |>)).

Fixpoint for_each (body : Z -> E unit) (l : list Z) : E unit :=
  match l with [] => ret tt | i :: l => body i;;; for_each body l end.
Definition all_notes : list Z := seqZ 0 128.

(** [x & bit] *)
Definition bit (x b : Z) : bool := negb (Z.land x b =? 0).

Section Emul.
Context `{MidiOp}.

(** ** Channels *)

Definition reset_controllers (c : channel) : channel :=
  c <| control := put_index CTL_MSB_PAN 64 (put_index CTL_MSB_EXPRESSION 127 (put_index CTL_MSB_MAIN_VOLUME 127 (replicate 128 0))) |>.
Definition snd_midi_reset_controllers (ch : Z) : E unit := set_chan ch reset_controllers.

Definition reset_tuning (c : channel) : channel := c <| gm_rpn_pitch_bend_range := 256 |> <| gm_rpn_fine_tuning := 0 |> <| gm_rpn_coarse_tuning := 0 |>.

(** [memset(p, 0, ...)] *)
Definition zero_channel : channel := Channel 0 0 0 0 0 0 0 (replicate 128 0) (replicate 128 0) 0 0 0.
Definition snd_midi_channel_init (n : Z) : channel :=
  let c := reset_tuning (reset_controllers (zero_channel <| ch_number := n |>)) in
  if n =? 9 then c <| drum_channel := 1 |> else c.

Definition snd_midi_channel_init_set (n : Z) : list channel := map snd_midi_channel_init (seqZ 0 n).

(** The set, if there is memory for it; the fields that [kmalloc] leaves as they were are [junk]. *)
Definition snd_midi_channel_alloc_set (set_memory channel_memory : bool) (junk : chanset) (n : Z) : option chanset :=
  if set_memory then
    Some (junk <| channels := if channel_memory then Some (snd_midi_channel_init_set n) else None |> <| max_channels := n |> <| log := [] |>)
  else None.

Definition snd_midi_channel_set_clear : E unit :=
  update (fun s => s <| midi_mode := MODE_GM |> <| gs_master_volume := 127 |>);;;
  s <- get;;
  for_each (fun i =>
    set_chan i (fun c => c <| note := replicate 128 0 |> <| midi_aftertouch := 0 |> <| midi_pressure := 0 |> <| midi_program := 0 |> <| midi_pitchbend := 0 |>);;;
    snd_midi_reset_controllers i;;;
    set_chan i reset_tuning;;;
    set_chan i (fun c => c <| drum_channel := if i =? 9 then 1 else 0 |>)) (seqZ 0 (max_channels s)).

Definition reset_all_channels : E unit :=
  s <- get;;
  for_each (fun i =>
    snd_midi_reset_controllers i;;;
    set_chan i reset_tuning;;;
    set_chan i (fun c => c <| drum_channel := if i =? 9 then 1 else 0 |>)) (seqZ 0 (max_channels s)).

(** ** Notes *)

(** A key goes up. *)
Definition note_off (ch n vel : Z) : E unit :=
  hold <- get_control ch CTL_SUSTAIN;;
  v <- get_note ch n;;
  if negb (hold =? 0) then set_note ch n (Z.lor v NOTE_RELEASED)
  else if bit v NOTE_SUSTENUTO then set_note ch n (Z.lor v NOTE_RELEASED)
  else set_note ch n 0;;; call op_note_off (NoteOff ch n vel).

Definition all_sounds_off (ch : Z) : E unit :=
  if negb op_note_terminate then ret tt
  else for_each (fun n => v <- get_note ch n;; when (negb (v =? 0)) (call op_note_terminate (NoteTerminate ch n);;; set_note ch n 0)) all_notes.

Definition all_notes_off (ch : Z) : E unit :=
  if negb op_note_off then ret tt
  else for_each (fun n => v <- get_note ch n;; when (v =? NOTE_ON) (note_off ch n 0)) all_notes.

(** The sustain pedal goes up. *)
Definition release_sustained (ch : Z) : E unit :=
  for_each (fun n => v <- get_note ch n;; when (bit v NOTE_RELEASED) (set_note ch n NOTE_OFF;;; call op_note_off (NoteOff ch n 0))) all_notes.

(** The sostenuto pedal goes down, and up. *)
Definition mark_sustenuto (ch : Z) : E unit :=
  for_each (fun n => v <- get_note ch n;; when (bit v NOTE_ON) (set_note ch n (Z.lor v NOTE_SUSTENUTO))) all_notes.
Definition release_sustenuto (ch : Z) : E unit :=
  for_each (fun n =>
    v <- get_note ch n;;
    when (bit v NOTE_SUSTENUTO)
      (let v := Z.land v (Z.lnot NOTE_SUSTENUTO) in
       set_note ch n v;;;
       when (bit v NOTE_RELEASED) (set_note ch n NOTE_OFF;;; call op_note_off (NoteOff ch n 0)))) all_notes.

(** ** Parameters *)

Definition rpn (ch : Z) : E unit :=
  s <- get;;
  if midi_mode s =? MODE_NONE then ret tt
  else
    msb <- get_control ch CTL_REGIST_PARM_NUM_MSB;; lsb <- get_control ch CTL_REGIST_PARM_NUM_LSB;;
    vmsb <- get_control ch CTL_MSB_DATA_ENTRY;; vlsb <- get_control ch CTL_LSB_DATA_ENTRY;;
    let type := Z.lor (Z.shiftl msb 8) lsb in
    let val := Z.lor (Z.shiftl vmsb 7) vlsb in
    if type =? 0 then set_chan ch (fun c => c <| gm_rpn_pitch_bend_range := s16 val |>)
    else if type =? 1 then set_chan ch (fun c => c <| gm_rpn_fine_tuning := s16 (val - 8192) |>)
    else if type =? 2 then set_chan ch (fun c => c <| gm_rpn_coarse_tuning := s16 (val - 8192) |>)
    else ret tt.

Definition nrpn (ch : Z) : E unit := call op_nrpn (Nrpn ch).

(** ** Controllers *)

(** Switches are off or on. *)
Definition switch_value (ctl value : Z) : Z :=
  if ((64 <=? ctl) && (ctl <=? 69)) || ((80 <=? ctl) && (ctl <=? 83)) then (if 64 <=? value then 127 else 0) else value.

Definition do_control (ch ctl value0 : Z) : E unit :=
  let value := switch_value ctl value0 in
  set_control ch ctl value;;;
  let entry := c <- chan ch;; (if param_type c =? PARAM_REGISTERED then rpn ch else nrpn ch) in
  if ctl =? CTL_SUSTAIN then when (value =? 0) (release_sustained ch)
  else if ctl =? CTL_PORTAMENTO then ret tt
  else if ctl =? CTL_SUSTENUTO then if negb (value =? 0) then mark_sustenuto ch else release_sustenuto ch
  else if ctl =? CTL_MSB_DATA_ENTRY then set_control ch CTL_LSB_DATA_ENTRY 0;;; entry
  else if ctl =? CTL_LSB_DATA_ENTRY then entry
  else if (ctl =? CTL_REGIST_PARM_NUM_LSB) || (ctl =? CTL_REGIST_PARM_NUM_MSB) then set_chan ch (fun c => c <| param_type := PARAM_REGISTERED |>)
  else if (ctl =? CTL_NONREG_PARM_NUM_LSB) || (ctl =? CTL_NONREG_PARM_NUM_MSB) then set_chan ch (fun c => c <| param_type := PARAM_NONREGISTERED |>)
  else if ctl =? CTL_ALL_SOUNDS_OFF then all_sounds_off ch
  else if ctl =? CTL_ALL_NOTES_OFF then all_notes_off ch
  else if ctl =? CTL_MSB_BANK then
    s <- get;; when (midi_mode s =? MODE_XG) (set_chan ch (fun c => c <| drum_channel := if value =? 127 then 1 else 0 |>))
  else if ctl =? CTL_LSB_BANK then ret tt
  else if ctl =? CTL_RESET_CONTROLLERS then snd_midi_reset_controllers ch
  else call op_control (Control ch ctl).

(** ** System exclusive messages *)

Definition gm_on_macro : list Z := [0x7e; 0x7f; 0x09; 0x01].
Definition xg_on_macro : list Z := [0x43; 0x10; 0x4c; 0x00; 0x00; 0x7e; 0x00].
Definition gs_pfx_macro : list Z := [0x41; 0x10; 0x42; 0x12; 0x40].

(** [len >= sizeof(m) && memcmp(buf, m, sizeof(m)) == 0] *)
Definition begins (m buf : list Z) : bool := bool_decide (take (length m) buf = m).

Definition get_channel (cmd : Z) : Z :=
  let p := Z.land cmd 0x0f in if p =? 0 then 9 else if p <? 10 then p - 1 else p.

Definition plain_mode (mode : Z) : bool := negb (mode =? MODE_GS) && negb (mode =? MODE_XG).

(** The part of [sysex] for messages that begin with [gs_pfx_macro]; [XX], [YY] and [ZZ] follow. *)
Definition gs_sysex (xx yy zz : Z) : E Z :=
  update (fun s => if plain_mode (midi_mode s) then s <| midi_mode := MODE_GS |> else s);;;
  s <- get;;
  if (xx =? 0x00) && (yy =? 0x7f) && (zz =? 0x00) then reset_all_channels;;; ret SYSEX_GS_RESET
  else if (Z.land xx 0xf0 =? 0x10) && (yy =? 0x15) then
    let p := get_channel xx in
    if p <? max_channels s then set_chan p (fun c => c <| drum_channel := if zz =? 0 then 0 else 1 |>);;; ret SYSEX_GS_DRUM_CHANNEL
    else ret SYSEX_NOT_PARSED
  else if (Z.land xx 0xf0 =? 0x10) && (yy =? 0x21) then
    let p := get_channel xx in
    if p <? max_channels s then
      c <- chan p;;
      if drum_channel c =? 0 then set_chan p (fun c => c <| midi_program := zz |>);;; ret SYSEX_GS_DRUM_CHANNEL
      else ret SYSEX_NOT_PARSED
    else ret SYSEX_NOT_PARSED
  else if (xx =? 0x01) && (yy =? 0x30) then update (fun s => s <| gs_reverb_mode := zz |>);;; ret SYSEX_GS_CHORUS_MODE
  else if (xx =? 0x01) && (yy =? 0x38) then update (fun s => s <| gs_chorus_mode := zz |>);;; ret SYSEX_GS_REVERB_MODE
  else if (xx =? 0x00) && (yy =? 0x04) then update (fun s => s <| gs_master_volume := zz |>);;; ret SYSEX_GS_REVERB_MODE
  else ret SYSEX_NOT_PARSED.

Definition xg_on : E Z :=
  update (fun s => s <| midi_mode := MODE_XG |>);;;
  s <- get;;
  for_each (fun i => c <- chan i;; set_control i CTL_MSB_BANK (if drum_channel c =? 0 then 0 else 127)) (seqZ 0 (max_channels s));;;
  ret SYSEX_XG_ON.

Definition sysex (bytes : list Z) : E unit :=
  match bytes with
  | 0xf0 :: buf =>
      parsed <-
        (if begins gm_on_macro buf then
           s <- get;;
           if plain_mode (midi_mode s) then update (fun s => s <| midi_mode := MODE_GM |>);;; reset_all_channels;;; ret SYSEX_GM_ON
           else ret SYSEX_NOT_PARSED
         else if (8 <=? Z.of_nat (length buf)) && begins gs_pfx_macro buf then gs_sysex (nth 5 buf 0) (nth 6 buf 0) (nth 7 buf 0)
         else if begins xg_on_macro buf then xg_on
         else ret SYSEX_NOT_PARSED);;
      call op_sysex (Sysex bytes parsed)
  | _ => ret tt
  end.

(** ** Events *)

(** [sysex_bytes]: the bytes that [snd_seq_expand_var_event] copies, none if it fails.  The
    caller's event, in which a note on with velocity 0 becomes a note off, is not given back. *)
Definition snd_midi_process_event (ev0 : snd_seq_event) (sysex_bytes : list Z) : E unit :=
  s <- get;;
  match channels s with
  | None => ret tt
  | Some _ =>
      if is_channel_type ev0 && (max_channels s <=? note_channel ev0) then ret tt
      else
        let ch := if is_channel_type ev0 then note_channel ev0 else 0 in
        if ev_type ev0 =? EVENT_NOTE then ret tt
        else
          let ev := if (ev_type ev0 =? EVENT_NOTEON) && (note_velocity ev0 =? 0) then ev0 <| ev_type := EVENT_NOTEOFF |> else ev0 in
          let t := ev_type ev in
          let n := note_note ev in
          let param := control_param ev in
          let value := control_value ev in
          if ((t =? EVENT_NOTEON) || (t =? EVENT_NOTEOFF) || (t =? EVENT_KEYPRESS)) && (128 <=? n) then ret tt
          else if t =? EVENT_NOTEON then
            v <- get_note ch n;;
            when (bit v NOTE_ON) (call op_note_off (NoteOff ch n 0));;;
            set_note ch n NOTE_ON;;;
            call op_note_on (NoteOn ch n (note_velocity ev))
          else if t =? EVENT_NOTEOFF then
            v <- get_note ch n;;
            if negb (bit v NOTE_ON) then ret tt else when op_note_off (note_off ch n (note_velocity ev))
          else if t =? EVENT_KEYPRESS then call op_key_press (KeyPress ch n (note_velocity ev))
          else if t =? EVENT_CONTROLLER then do_control ch (s32 param) value
          else if t =? EVENT_PGMCHANGE then set_chan ch (fun c => c <| midi_program := u8 value |>)
          else if t =? EVENT_PITCHBEND then set_chan ch (fun c => c <| midi_pitchbend := s16 value |>);;; call op_control (Control ch CTL_PITCHBEND)
          else if t =? EVENT_CHANPRESS then set_chan ch (fun c => c <| midi_pressure := u8 value |>);;; call op_control (Control ch CTL_CHAN_PRESSURE)
          else if t =? EVENT_CONTROL14 then
            if param <? 32 then
              set_control ch (param + 32) (Z.land value 0x7f);;;
              do_control ch param (Z.land (Z.shiftr value 7) 0x7f)
            else do_control ch (s32 param) value
          else if t =? EVENT_NONREGPARAM then
            set_chan ch (fun c => c <| param_type := PARAM_NONREGISTERED |>);;;
            set_control ch CTL_MSB_DATA_ENTRY (Z.land (Z.shiftr value 7) 0x7f);;;
            set_control ch CTL_LSB_DATA_ENTRY (Z.land value 0x7f);;;
            set_control ch CTL_NONREG_PARM_NUM_MSB (Z.land (Z.shiftr param 7) 0x7f);;;
            set_control ch CTL_NONREG_PARM_NUM_LSB (Z.land param 0x7f);;;
            nrpn ch
          else if t =? EVENT_REGPARAM then
            set_chan ch (fun c => c <| param_type := PARAM_REGISTERED |>);;;
            set_control ch CTL_MSB_DATA_ENTRY (Z.land (Z.shiftr value 7) 0x7f);;;
            set_control ch CTL_LSB_DATA_ENTRY (Z.land value 0x7f);;;
            set_control ch CTL_REGIST_PARM_NUM_MSB (Z.land (Z.shiftr param 7) 0x7f);;;
            set_control ch CTL_REGIST_PARM_NUM_LSB (Z.land param 0x7f);;;
            rpn ch
          else if t =? EVENT_SYSEX then
            if is_variable ev && negb (bool_decide (sysex_bytes = [])) then sysex sysex_bytes else ret tt
          else ret tt
  end.
End Emul.
