(* ===== verification/MidiKeys.v ===== *)
(** * MidiKeys: what an event does to the notes, and what the driver hears of it

    Every event is, for each note, a step of the automaton [note_step]; the calls of the driver
    say the same.  So the notes that sound are those that the set has as on, and without
    pedals these are the keys that are down. *)

From S2P Require Import Prelude SeqEvent MidiEmul.
Open Scope Z_scope.
Open Scope state_scope.

(** ** Running on one channel *)

Definition at_chan (ch : Z) (c : channel) (s : chanset) : Prop := 0 <= ch /\ exists l, channels s = Some l /\ l !! Z.to_nat ch = Some c.

Definition put_chan (ch : Z) (c : channel) (s : chanset) : chanset := s <| channels := option_map (<[Z.to_nat ch := c]>) (channels s) |>.
Definition with_log (lg : list drv_call) (s : chanset) : chanset := s <| log := lg |>.

Lemma at_put ch c c' s : at_chan ch c s -> at_chan ch c' (put_chan ch c' s).
Proof.
  intros (H & l & E & El). split; [done |]. exists (<[Z.to_nat ch := c']> l). cbn. rewrite E. split; [done |]. apply list_lookup_insert_eq. by eapply lookup_lt_Some.
Qed.

Lemma at_log ch c lg s : at_chan ch c s -> at_chan ch c (with_log lg s).
Proof. done. Qed.

Lemma chan_put_put ch c c' s : put_chan ch c' (put_chan ch c s) = put_chan ch c' s.
Proof. unfold put_chan. destruct s as [m [l |] ? ? ? ? lg]; cbn; [| done]. by rewrite list_insert_insert_eq. Qed.

Lemma put_same ch c s : at_chan ch c s -> put_chan ch c s = s.
Proof. intros (_ & l & E & El). unfold put_chan. destruct s as [m ll ? ? ? ? lg]. cbn in *. rewrite E. cbn. by rewrite list_insert_id. Qed.

Lemma put_with_log ch c lg s : put_chan ch c (with_log lg s) = with_log lg (put_chan ch c s).
Proof. done. Qed.

Lemma run_chan {A} ch c s (m : channel -> ST chanset A) : at_chan ch c s -> bind (chan ch) m s = m c s.
Proof. intros (H & l & E & El). unfold bind, chan. rewrite E. rewrite (proj2 (Z.leb_le 0 ch) H). by rewrite El. Qed.

Lemma run_set_chan ch c s f : at_chan ch c s -> set_chan ch f s = Some (tt, put_chan ch (f c) s).
Proof. intros Hc. unfold set_chan. by rewrite (run_chan ch c). Qed.

Lemma at_index_some l i v : 0 <= i -> l !! Z.to_nat i = Some v -> at_index l i = Some v.
Proof. intros Hi. unfold at_index. by rewrite (proj2 (Z.leb_le 0 i) Hi). Qed.

Lemma run_get_note {A} ch c s n v (m : Z -> ST chanset A) : at_chan ch c s -> 0 <= n -> note c !! Z.to_nat n = Some v -> bind (get_note ch n) m s = m v s.
Proof. intros Hc Hn Hv. unfold bind, get_note. rewrite (run_chan ch c) by done. unfold read_at. by rewrite (at_index_some _ _ _ Hn Hv). Qed.

Lemma run_get_control {A} ch c s i v (m : Z -> ST chanset A) : at_chan ch c s -> 0 <= i -> control c !! Z.to_nat i = Some v -> bind (get_control ch i) m s = m v s.
Proof. intros Hc Hn Hv. unfold bind, get_control. rewrite (run_chan ch c) by done. unfold read_at. by rewrite (at_index_some _ _ _ Hn Hv). Qed.

Lemma run_set_note ch c s n v w : at_chan ch c s -> 0 <= n -> note c !! Z.to_nat n = Some v ->
  set_note ch n w s = Some (tt, put_chan ch (c <| note := put_index n (u8 w) (note c) |>) s).
Proof. intros Hc Hn Hv. unfold set_note. rewrite (run_get_note ch c s n v) by done. by rewrite (run_set_chan ch c). Qed.

Lemma run_set_control ch c s i v w : at_chan ch c s -> 0 <= i -> control c !! Z.to_nat i = Some v ->
  set_control ch i w s = Some (tt, put_chan ch (c <| control := put_index i (u8 w) (control c) |>) s).
Proof. intros Hc Hn Hv. unfold set_control. rewrite (run_get_control ch c s i v) by done. by rewrite (run_set_chan ch c). Qed.

Lemma run_bind {A B} (m : ST chanset A) (k : A -> ST chanset B) s x s' : m s = Some (x, s') -> bind m k s = k x s'.
Proof. apply bind_some. Qed.

(** ** What sounds *)

(** What a call says about a note: it sounds, it is silent, nothing. *)
Definition says (x : drv_call) (ch n : Z) : option bool :=
  match x with
  | NoteOn c m _ => if (c =? ch) && (m =? n) then Some true else None
  | NoteOff c m _ | NoteTerminate c m => if (c =? ch) && (m =? n) then Some false else None
  | _ => None
  end.

(** After these calls, when it did ([b]) or did not sound before. *)
Definition sounds_from (b : bool) (l : list drv_call) (ch n : Z) : bool :=
  fold_left (fun b x => match says x ch n with Some b => b | None => b end) l b.
Definition sounds : list drv_call -> Z -> Z -> bool := sounds_from false.

Lemma sounds_app b l l' ch n : sounds_from b (l ++ l') ch n = sounds_from (sounds_from b l ch n) l' ch n.
Proof. apply fold_left_app. Qed.

(** Calls about other notes. *)
Definition silent_on (ch n : Z) (l : list drv_call) : Prop := Forall (fun x => says x ch n = None) l.

Lemma sounds_silent b l ch n : silent_on ch n l -> sounds_from b l ch n = b.
Proof. intros Hs. revert b. induction Hs as [| x l Hx _ IH]; intros b; [done |]. cbn. rewrite Hx. apply IH. Qed.

(** The calls that a loop over all notes makes: those for each note, in order. *)
Definition concat_notes (out : Z -> Z -> list drv_call) (k : Z) (ns : list Z) : list drv_call := concat (imap (fun i v => out (k + Z.of_nat i) v) ns).

Lemma concat_notes_cons out k v ns : concat_notes out k (v :: ns) = out k v ++ concat_notes out (k + 1) ns.
Proof.
  unfold concat_notes. cbn. rewrite Z.add_0_r. f_equal. f_equal. apply imap_ext. intros i w _. cbn. f_equal. lia.
Qed.

Lemma sounds_concat b out ch ns : (forall m v n, m <> n -> silent_on ch n (out m v)) -> forall k n v,
  0 <= n - k -> ns !! Z.to_nat (n - k) = Some v -> sounds_from b (concat_notes out k ns) ch n = sounds_from b (out n v) ch n.
Proof.
  intros Hout. revert b. induction ns as [| w ns IH]; intros b k n v Hk Hv; [done |]. rewrite concat_notes_cons, sounds_app.
  destruct (Z.eq_dec n k) as [-> | NE].
  - rewrite Z.sub_diag in Hv. cbn in Hv. injection Hv as <-. apply sounds_silent. clear -Hout. assert (Hgt : k < k + 1) by lia. revert Hgt. generalize (k + 1).
    induction ns as [| w ns IH]; intros j Hj; [exact (List.Forall_nil _) |]. rewrite concat_notes_cons. apply Forall_app. split; [apply Hout; lia | apply IH; lia].
  - rewrite (sounds_silent _ (out k w)) by (apply Hout; lia). apply (IH b (k + 1) n v); [lia |]. replace (Z.to_nat (n - k)) with (S (Z.to_nat (n - (k + 1)))) in Hv by lia. done.
Qed.

Lemma sounds_concat_other b out ch' ns k n : (forall m v, silent_on ch' n (out m v)) -> sounds_from b (concat_notes out k ns) ch' n = b.
Proof.
  intros Hout. apply sounds_silent. revert k. induction ns as [| w ns IH]; intros k; [exact (List.Forall_nil _) |]. rewrite concat_notes_cons. apply Forall_app. split; [apply Hout | apply IH].
Qed.

(** ** Loops over all notes *)

(** The states of a note: off; on; on with the key up; the latter two held by sostenuto. *)
Definition note_state (v : Z) : Prop := v = 0 \/ v = 1 \/ v = 3 \/ v = 5 \/ v = 7.

(** The set with these notes and this log. *)
Definition having (ch : Z) (c : channel) (s : chanset) (ns : list Z) (lg : list drv_call) : chanset := with_log lg (put_chan ch (c <| note := ns |>) s).

Lemma having_now ch c s : at_chan ch c s -> having ch c s (note c) (log s) = s.
Proof. intros Hc. unfold having. replace (c <| note := note c |>) with c by (by destruct c). rewrite put_same by done. by destruct s. Qed.

Lemma having_at ch c s ns lg : at_chan ch c s -> at_chan ch (c <| note := ns |>) (having ch c s ns lg).
Proof. intros Hc. by eapply at_log, at_put. Qed.

Lemma having_note ch c s ns lg n v : at_chan ch c s -> 0 <= n -> ns !! Z.to_nat n = Some v ->
  forall {A} (m : Z -> ST chanset A), bind (get_note ch n) m (having ch c s ns lg) = m v (having ch c s ns lg).
Proof. intros Hc Hn Hv A m. by eapply run_get_note; [apply having_at | |]. Qed.

Lemma having_set_note ch c s ns lg n v w : at_chan ch c s -> 0 <= n -> ns !! Z.to_nat n = Some v ->
  set_note ch n w (having ch c s ns lg) = Some (tt, having ch c s (<[Z.to_nat n := u8 w]> ns) lg).
Proof. intros Hc Hn Hv. erewrite run_set_note; [| by apply having_at | done | done]. unfold having. by rewrite put_with_log, chan_put_put. Qed.

Lemma having_call ch c s ns lg (b : bool) x : b = true -> call b x (having ch c s ns lg) = Some (tt, having ch c s ns (lg ++ [x])).
Proof. by intros ->. Qed.

(** One round of the loop changes its note by [g] and makes the calls of [out]. *)
Definition round_is (ch : Z) (c : channel) (s : chanset) (body : Z -> ST chanset unit) (g : Z -> Z) (out : Z -> Z -> list drv_call) : Prop :=
  forall n ns lg v, 0 <= n -> ns !! Z.to_nat n = Some v -> note_state v ->
    body n (having ch c s ns lg) = Some (tt, having ch c s (<[Z.to_nat n := g v]> ns) (lg ++ out n v)).

Lemma run_rounds ch c s body g out : round_is ch c s body g out -> forall todo did lg, Forall note_state todo ->
  for_each body (seqZ (Z.of_nat (length did)) (Z.of_nat (length todo))) (having ch c s (did ++ todo) lg) =
  Some (tt, having ch c s (did ++ map g todo) (lg ++ concat_notes out (Z.of_nat (length did)) todo)).
Proof.
  intros Hb. induction todo as [| v todo IH]; intros did lg Hv.
  - cbn [length]. rewrite seqZ_nil by lia. cbn [for_each map]. unfold concat_notes. cbn [imap concat]. by rewrite !app_nil_r.
  - apply Forall_cons in Hv as [Hv Hvs]. rewrite seqZ_cons by (cbn; lia). cbn [for_each].
    erewrite run_bind; [| apply (Hb _ _ _ v); [lia | by rewrite Nat2Z.id, lookup_app_r, Nat.sub_diag by (rewrite ?Nat2Z.id; lia) | done]].
    rewrite Nat2Z.id, insert_app_r_alt, Nat.sub_diag by lia. cbn [list_insert insert]. cbn [map length].
    replace (did ++ g v :: todo) with ((did ++ [g v]) ++ todo) by (by rewrite <- app_assoc).
    replace (Z.succ (Z.of_nat (length did))) with (Z.of_nat (length (did ++ [g v]))) by (rewrite length_app; cbn; lia).
    replace (Z.pred (Z.of_nat (S (length todo)))) with (Z.of_nat (length todo)) by lia. rewrite IH by done.
    rewrite <- !app_assoc, concat_notes_cons. cbn [app]. replace (Z.of_nat (length (did ++ [g v]))) with (Z.of_nat (length did) + 1) by (rewrite length_app; cbn; lia). done.
Qed.

Lemma run_all_notes ch c s body g out : at_chan ch c s -> length (note c) = 128%nat -> Forall note_state (note c) -> round_is ch c s body g out ->
  for_each body all_notes s = Some (tt, having ch c s (map g (note c)) (log s ++ concat_notes out 0 (note c))).
Proof.
  intros Hc Hl Hb Hr. rewrite <- (having_now ch c s Hc) at 1. pose proof (run_rounds ch c s body g out Hr (note c) [] (log s) Hb) as R. cbn [app length] in R. rewrite Hl in R. exact R.
Qed.

(** ** One note *)

(** What an event says to the notes of its channel. *)
Inductive cmd := KeyDown (n vel : Z) | KeyUp (n vel : Z) | Sustain (down : bool) | Sostenuto (down : bool) | SoundsOff | NotesOff | ResetAll | NoCmd.

(** A note with the sustain pedal at [hold]: what becomes of it, and the calls for it. *)
Definition key_up (ch n vel hold v : Z) : Z * list drv_call :=
  if negb (hold =? 0) || bit v NOTE_SUSTENUTO then (Z.lor v NOTE_RELEASED, []) else (0, [NoteOff ch n vel]).

Definition note_step (x : cmd) (ch n hold v : Z) : Z * list drv_call :=
  match x with
  | KeyDown m vel => if n =? m then (NOTE_ON, (if bit v NOTE_ON then [NoteOff ch n 0] else []) ++ [NoteOn ch n vel]) else (v, [])
  | KeyUp m vel => if (n =? m) && bit v NOTE_ON then key_up ch n vel hold v else (v, [])
  | Sustain false => if bit v NOTE_RELEASED then (0, [NoteOff ch n 0]) else (v, [])
  | Sostenuto true => (if bit v NOTE_ON then Z.lor v NOTE_SUSTENUTO else v, [])
  | Sostenuto false =>
      if bit v NOTE_SUSTENUTO then if bit v NOTE_RELEASED then (0, [NoteOff ch n 0]) else (Z.land v (Z.lnot NOTE_SUSTENUTO), []) else (v, [])
  | SoundsOff => if v =? 0 then (v, []) else (0, [NoteTerminate ch n])
  | NotesOff => if v =? NOTE_ON then key_up ch n 0 hold v else (v, [])
  | Sustain true | ResetAll | NoCmd => (v, [])
  end.

(** Each step leaves a note in a state, and the calls say whether it sounds. *)
Lemma note_step_ok x ch n hold v : note_state v ->
  note_state (note_step x ch n hold v).1 /\ sounds_from (negb (v =? 0)) (note_step x ch n hold v).2 ch n = negb ((note_step x ch n hold v).1 =? 0).
Proof.
  intros Hv. destruct x as [m vel | m vel | [] | [] | | | |]; unfold note_step, key_up, bit, NOTE_ON, NOTE_RELEASED, NOTE_SUSTENUTO; try destruct (n =? m); destruct (hold =? 0);
    destruct Hv as [-> | [-> | [-> | [-> | ->]]]]; simpl; unfold sounds_from; simpl; rewrite ?Z.eqb_refl; split; unfold note_state; try done; tauto.
Qed.

Lemma note_step_others x ch n hold v ch' n' : ch' <> ch \/ n' <> n -> silent_on ch' n' (note_step x ch n hold v).2.
Proof.
  intros Hne. assert (Off : forall w, says (NoteOff ch n w) ch' n' = None /\ says (NoteOn ch n w) ch' n' = None /\ says (NoteTerminate ch n) ch' n' = None).
  { intros w. cbn. replace ((ch =? ch') && (n =? n')) with false by lia. done. }
  destruct x as [m vel | m vel | [] | [] | | | |]; unfold note_step, key_up;
    repeat match goal with |- context [if ?b then _ else _] => destruct b end; repeat constructor; apply Off; exact 0.
Qed.

(** ** Sets in order *)

Definition hold (c : channel) : Z := nth (Z.to_nat CTL_SUSTAIN) (control c) 0.

Record chan_ok (c : channel) : Prop := {
  co_control : length (control c) = 128%nat;
  co_control_bytes : Forall is_byte (control c);
  co_note : length (note c) = 128%nat;
  co_note_states : Forall note_state (note c);
  co_bytes : is_byte (midi_program c) /\ is_byte (midi_pressure c) /\ (drum_channel c = 0 \/ drum_channel c = 1) /\ (param_type c = 0 \/ param_type c = 1);
  co_shorts : Forall (fun v => -32768 <= v <= 32767) [midi_pitchbend c; gm_rpn_pitch_bend_range c; gm_rpn_fine_tuning c; gm_rpn_coarse_tuning c] }.

Record set_ok (s : chanset) : Prop := {
  so_chans : exists l, channels s = Some l /\ Z.of_nat (length l) = max_channels s /\ Forall chan_ok l }.

Lemma set_ok_at s ch c : set_ok s -> at_chan ch c s -> chan_ok c /\ 0 <= ch < max_channels s.
Proof.
  intros [(l & E & El & F)] (H & l' & E' & Hl). rewrite E in E'. injection E' as <-. split; [by eapply Forall_lookup_1 |]. apply lookup_lt_Some in Hl. lia.
Qed.

Lemma set_ok_get s ch : set_ok s -> 0 <= ch < max_channels s -> exists c, at_chan ch c s.
Proof. intros [(l & E & El & F)] H. destruct (lookup_lt_is_Some_2 l (Z.to_nat ch)) as [c Hc]; [lia |]. exists c. split; [lia |]. by exists l. Qed.

Lemma set_ok_put s ch c : set_ok s -> chan_ok c -> set_ok (put_chan ch c s).
Proof.
  intros [(l & E & El & F)] Hc. split. exists (<[Z.to_nat ch := c]> l). cbn. rewrite E. split_and!; [done | by rewrite length_insert | by apply Forall_insert].
Qed.

Lemma set_ok_log s lg : set_ok s -> set_ok (with_log lg s).
Proof. intros [H]. split. exact H. Qed.

Lemma at_fun ch c c' s : at_chan ch c s -> at_chan ch c' s -> c' = c.
Proof. intros (_ & l & E & Hl) (_ & l' & E' & Hl'). rewrite E in E'. injection E' as <-. congruence. Qed.

Lemma at_put_inv ch c ch' c' s : at_chan ch' c' (put_chan ch c s) -> 0 <= ch -> ch' = ch /\ c' = c \/ ch' <> ch /\ at_chan ch' c' s.
Proof.
  intros (H & l & E & Hl) Hch. cbn in E. destruct (channels s) as [k |] eqn:Ek; [| done]. injection E as <-.
  destruct (Z.eq_dec ch' ch) as [-> | NE].
  - left. split; [done |]. apply list_lookup_insert_Some in Hl as [(_ & -> & _) | (NE & _)]; done.
  - right. split; [done |]. rewrite list_lookup_insert_ne in Hl by lia. split; [done |]. by exists k.
Qed.

(** ** What an operation does to the notes *)

(** Nothing; [kept]: the pedal stays as well. *)
Record calm (kept : bool) (s s' : chanset) : Prop := {
  ca_ok : set_ok s';
  ca_max : max_channels s' = max_channels s;
  ca_chan ch c' : at_chan ch c' s' -> exists c, at_chan ch c s /\ note c' = note c /\ (kept = true -> hold c' = hold c);
  ca_log : exists l, log s' = log s ++ l /\ forall ch n, silent_on ch n l }.

Lemma notes_calm_refl kept s : set_ok s -> calm kept s s.
Proof. intros O. split; [done | done | by eauto |]. exists []. rewrite app_nil_r. split; [done |]. intros. exact (List.Forall_nil _). Qed.

Lemma notes_calm_trans kept s s1 s2 : calm kept s s1 -> calm kept s1 s2 -> calm kept s s2.
Proof.
  intros [A1 A2 A3 (l1 & E1 & S1)] [B1 B2 B3 (l2 & E2 & S2)]. split; [done | congruence | |].
  - intros ch c2 H2. destruct (B3 _ _ H2) as (c1 & H1 & En & Eh). destruct (A3 _ _ H1) as (c & H & En' & Eh'). exists c. split_and!; [done | congruence |]. intros K. by rewrite (Eh K), (Eh' K).
  - exists (l1 ++ l2). split; [by rewrite E2, E1, app_assoc |]. intros ch n. apply Forall_app. split; [apply S1 | apply S2].
Qed.

(** The sustain pedal after an event. *)
Definition hold_step (x : cmd) (h : Z) : Z := match x with Sustain down => if down then 127 else 0 | ResetAll => 0 | _ => h end.

(** A step of the automaton on each note of one channel; the other channels stay. *)
Record acts (ch : Z) (x : cmd) (s s' : chanset) : Prop := {
  ac_ok : set_ok s';
  ac_max : max_channels s' = max_channels s;
  ac_chan ch' c' : at_chan ch' c' s' -> exists c, at_chan ch' c s /\
    if ch' =? ch then note c' = imap (fun i v => (note_step x ch (Z.of_nat i) (hold c) v).1) (note c) /\ hold c' = hold_step x (hold c) else note c' = note c /\ hold c' = hold c;
  ac_others : exists l, log s' = log s ++ l /\ (forall ch' n, ch' <> ch -> silent_on ch' n l) /\
    forall c n v b, at_chan ch c s -> 0 <= n -> note c !! Z.to_nat n = Some v -> sounds_from b l ch n = sounds_from b (note_step x ch n (hold c) v).2 ch n }.

Lemma imap_same {A} (f : nat -> A -> A) l : (forall i v, l !! i = Some v -> f i v = v) -> imap f l = l.
Proof. intros Hf. apply list_eq. intros i. rewrite list_lookup_imap. destruct (l !! i) eqn:E; [cbn; f_equal; by apply Hf | done]. Qed.

Lemma calm_acts ch x s s' : (forall n h v, note_state v -> note_step x ch n h v = (v, [])) -> (forall h, hold_step x h = h) -> set_ok s -> calm true s s' -> acts ch x s s'.
Proof.
  intros Hx Hh O [A1 A2 A3 (l & E & S)]. split; [done | done | |].
  - intros ch' c' Hc'. destruct (A3 _ _ Hc') as (c & Hc & En & Eh). specialize (Eh eq_refl). exists c. split; [done |]. destruct (_ =? _); [| done].
    rewrite imap_same; [split; [done | by rewrite Hh, Eh] |]. intros i v Hv. rewrite Hx; [done |]. eapply Forall_lookup_1; [apply (set_ok_at s ch' c O Hc) | exact Hv].
  - exists l. split_and!; [done | by intros |]. intros c n v b Hc Hn Hv. rewrite Hx; [| eapply Forall_lookup_1; [apply (set_ok_at s ch c O Hc) | exact Hv]].
    rewrite sounds_silent by apply S. done.
Qed.

(** ** Operations that leave the notes alone *)

Definition keeps (kept : bool) (f : channel -> channel) : Prop := forall c, chan_ok c -> chan_ok (f c) /\ note (f c) = note c /\ (kept = true -> hold (f c) = hold c).

Lemma calm_put kept s ch c c' : set_ok s -> at_chan ch c s -> chan_ok c' -> note c' = note c -> (kept = true -> hold c' = hold c) -> calm kept s (put_chan ch c' s).
Proof.
  intros O Hc Oc En Eh. split; [by apply set_ok_put | done | | exists []; cbn; rewrite app_nil_r; split; [done | intros; exact (List.Forall_nil _)]].
  intros ch' c2 H2. apply at_put_inv in H2 as [[-> ->] | [NE H2]]; [by exists c | by exists c2 | apply Hc].
Qed.

Lemma wp_set_chan kept ch f s : set_ok s -> 0 <= ch < max_channels s -> keeps kept f -> wp (set_chan ch f) (fun _ s' => calm kept s s') s.
Proof.
  intros O Hch Hf. destruct (set_ok_get s ch O Hch) as [c Hc]. unfold wp. rewrite (run_set_chan ch c) by done. destruct (Hf c) as (A & B & C); [by eapply set_ok_at |].
  by apply (calm_put kept s ch c).
Qed.

Lemma byte_at (l : list Z) i : length l = 128%nat -> Forall is_byte l -> 0 <= i < 128 -> exists v, l !! Z.to_nat i = Some v /\ is_byte v.
Proof. intros El F Hi. destruct (lookup_lt_is_Some_2 l (Z.to_nat i)) as [v Hv]; [lia |]. exists v. split; [done |]. by eapply Forall_lookup_1. Qed.

Lemma put_control_ok c i v : chan_ok c -> is_byte v -> chan_ok (c <| control := put_index i v (control c) |>).
Proof. intros [A B C D F G] Hv. split; try done; cbn; unfold put_index; [by rewrite length_insert | by apply Forall_insert]. Qed.

Lemma put_control_hold c i v : chan_ok c -> 0 <= i -> hold (c <| control := put_index i v (control c) |>) = if i =? CTL_SUSTAIN then v else hold c.
Proof.
  intros O Hi. unfold hold, put_index. cbn [control set_field]. pose proof (co_control _ O) as L. destruct (Z.eqb_spec i CTL_SUSTAIN) as [-> | NE].
  - rewrite nth_lookup, list_lookup_insert_eq; [done | rewrite L; unfold CTL_SUSTAIN; lia].
  - by rewrite !nth_lookup, list_lookup_insert_ne by (unfold CTL_SUSTAIN in *; lia).
Qed.

Lemma u8_byte v : is_byte (u8 v).
Proof. unfold is_byte, u8. by apply Z.mod_pos_bound. Qed.

Lemma wp_set_control kept ch i v s : set_ok s -> 0 <= ch < max_channels s -> 0 <= i < 128 -> i <> CTL_SUSTAIN -> wp (set_control ch i v) (fun _ s' => calm kept s s') s.
Proof.
  intros O Hch Hi Hns. destruct (set_ok_get s ch O Hch) as [c Hc]. destruct (set_ok_at s ch c O Hc) as [Oc _].
  destruct (byte_at _ _ (co_control _ Oc) (co_control_bytes _ Oc) Hi) as (w & Hw & _). unfold wp. rewrite (run_set_control ch c s i w) by (done || lia).
  apply (calm_put kept s ch c); [done | done | by apply put_control_ok, u8_byte | done |]. intros _. rewrite put_control_hold by (done || lia).
  by rewrite (proj2 (Z.eqb_neq _ _) Hns).
Qed.

Section Ops.
Context `{MidiOp}.

(** A call that is about no note. *)
Lemma wp_call kept b x s : (forall ch n, says x ch n = None) -> set_ok s -> wp (call b x) (fun _ s' => calm kept s s') s.
Proof.
  intros Hx O. unfold call, when. destruct b; [| apply wp_ret; by apply notes_calm_refl]. change (calm kept s (with_log (log s ++ [x]) s)).
  split; [by apply set_ok_log | done | intros ch c Hc; by exists c |]. exists [x]. split; [done |]. intros ch n. by constructor.
Qed.

Lemma wp_calm_bind {A} (m : ST chanset unit) (k : ST chanset A) kept s s0 : calm kept s0 s ->
  wp m (fun _ s' => calm kept s s') s -> (forall s', calm kept s0 s' -> wp k (fun _ s2 => calm kept s0 s2) s') -> wp (m;;; k) (fun _ s2 => calm kept s0 s2) s.
Proof. intros C Hm Hk. apply wp_bind. eapply wp_mono; [exact Hm |]. intros [] s' C'. apply Hk. by eapply notes_calm_trans. Qed.

Lemma wp_calm_here {A} (m : ST chanset A) kept s s0 : calm kept s0 s -> wp m (fun _ s' => calm kept s s') s -> wp m (fun _ s' => calm kept s0 s') s.
Proof. intros C Hm. eapply wp_mono; [exact Hm |]. intros r s'. by apply notes_calm_trans. Qed.

Lemma byte_replicate n v : is_byte v -> Forall is_byte (replicate n v).
Proof. intros Hv. by apply Forall_replicate. Qed.

Lemma s16_range z : -32768 <= s16 z <= 32767.
Proof. unfold s16. pose proof (Z.mod_pos_bound (z + 32768) 65536). lia. Qed.

Lemma keeps_tuning kept : keeps kept reset_tuning.
Proof. intros c [A B C D F G]. split; [| done]. split; try done. cbn. repeat (apply Forall_cons; split; [| ]); try lia; [| exact (List.Forall_nil _)]. by apply Forall_cons in G as [? _]. Qed.

(** A field that is neither the controllers nor the notes. *)
Lemma wp_rpn kept ch s : set_ok s -> 0 <= ch < max_channels s -> wp (rpn ch) (fun _ s' => calm kept s s') s.
Proof.
  intros O Hch. destruct (set_ok_get s ch O Hch) as [c Hc]. destruct (set_ok_at s ch c O Hc) as [Oc _].
  assert (Get : forall i (m : Z -> ST chanset unit) Q, 0 <= i < 128 -> (forall v, is_byte v -> wp (m v) Q s) -> wp (bind (get_control ch i) m) Q s).
  { intros i m Q Hi Hm. destruct (byte_at _ _ (co_control _ Oc) (co_control_bytes _ Oc) Hi) as (w & Hw & Hb). unfold wp. rewrite (run_get_control ch c s i w) by (done || lia). by apply Hm. }
  unfold rpn. change (wp (if midi_mode s =? MODE_NONE then ret tt else
    msb <- get_control ch CTL_REGIST_PARM_NUM_MSB;; lsb <- get_control ch CTL_REGIST_PARM_NUM_LSB;; vmsb <- get_control ch CTL_MSB_DATA_ENTRY;; vlsb <- get_control ch CTL_LSB_DATA_ENTRY;;
    (let type := Z.lor (Z.shiftl msb 8) lsb in let val := Z.lor (Z.shiftl vmsb 7) vlsb in
    if type =? 0 then set_chan ch (fun c => c <| gm_rpn_pitch_bend_range := s16 val |>)
    else if type =? 1 then set_chan ch (fun c => c <| gm_rpn_fine_tuning := s16 (val - 8192) |>)
    else if type =? 2 then set_chan ch (fun c => c <| gm_rpn_coarse_tuning := s16 (val - 8192) |>)
    else ret tt)) (fun _ s' => calm kept s s') s).
  destruct (midi_mode s =? MODE_NONE); [apply wp_ret; by apply notes_calm_refl |].
  apply Get; [done |]. intros v1 _. apply Get; [done |]. intros v2 _. apply Get; [done |]. intros v3 _. apply Get; [done |]. intros v4 _. cbv zeta.
  assert (K : forall v, keeps kept (fun c => c <| gm_rpn_pitch_bend_range := s16 v |>) /\ keeps kept (fun c => c <| gm_rpn_fine_tuning := s16 v |>) /\ keeps kept (fun c => c <| gm_rpn_coarse_tuning := s16 v |>)).
  { intros v. pose proof (s16_range v) as R. split_and!; intros c' [A B C D F G]; (split; [| done]); split; try done; cbn in *;
      rewrite !Forall_cons in G; rewrite !Forall_cons; tauto. }
  destruct (_ =? 0); [by apply wp_set_chan, K |]. destruct (_ =? 1); [by apply wp_set_chan, K |]. destruct (_ =? 2); [by apply wp_set_chan, K |]. apply wp_ret. by apply notes_calm_refl.
Qed.
End Ops.

(** ** Notes *)

(** A driver with all the callbacks for notes. *)
Class FullNotes `{MidiOp} : Prop := { fn_on : op_note_on = true; fn_off : op_note_off = true; fn_term : op_note_terminate = true }.

Lemma lookup_imap_note x ch h (l : list Z) : Forall note_state l -> Forall note_state (imap (fun i v => (note_step x ch (Z.of_nat i) h v).1) l).
Proof.
  intros F. apply Forall_lookup_2. intros i w. rewrite list_lookup_imap. destruct (l !! i) as [v |] eqn:E; [| done]. cbn. intros [= <-].
  apply note_step_ok. by eapply Forall_lookup_1.
Qed.

Lemma acts_final ch x c c1 s lg : set_ok s -> at_chan ch c s -> chan_ok c1 -> hold c1 = hold_step x (hold c) ->
  (forall ch' n, ch' <> ch -> silent_on ch' n lg) ->
  (forall n v b, 0 <= n -> note c !! Z.to_nat n = Some v -> sounds_from b lg ch n = sounds_from b (note_step x ch n (hold c) v).2 ch n) ->
  acts ch x s (having ch c1 s (imap (fun i v => (note_step x ch (Z.of_nat i) (hold c) v).1) (note c)) (log s ++ lg)).
Proof.
  intros O Hc O1 Hh Hs Hl. destruct (set_ok_at s ch c O Hc) as [Oc Hch]. split; [| done | |].
  - apply set_ok_log, set_ok_put; [done |]. destruct O1 as [A B _ _ D F]. split; try done; cbn.
    + rewrite length_imap. apply Oc.
    + apply lookup_imap_note, Oc.
  - intros ch' c' Hc'. change (at_chan ch' c' (put_chan ch (c1 <| note := imap (fun i v => (note_step x ch (Z.of_nat i) (hold c) v).1) (note c) |>) s)) in Hc'.
    apply at_put_inv in Hc' as [[-> ->] | [NE Hc']]; [| | lia].
    + exists c. split; [done |]. rewrite Z.eqb_refl. split; [done | exact Hh].
    + exists c'. split; [done |]. by rewrite (proj2 (Z.eqb_neq _ _) NE).
  - exists lg. split_and!; [done | done |]. intros c2 n v b H2 Hn Hv. rewrite (at_fun _ _ _ _ Hc H2) in *. by apply Hl.
Qed.

(** A loop whose rounds are steps. *)
Lemma acts_loop ch x c c1 s body : set_ok s -> at_chan ch c s -> chan_ok c1 -> note c1 = note c -> hold c1 = hold_step x (hold c) ->
  (forall n v, (note_step x ch n (hold c) v).1 = (note_step x ch 0 (hold c) v).1) ->
  round_is ch c1 (put_chan ch c1 s) body (fun v => (note_step x ch 0 (hold c) v).1) (fun n v => (note_step x ch n (hold c) v).2) ->
  wp (for_each body all_notes) (fun _ s' => acts ch x s s') (put_chan ch c1 s).
Proof.
  intros O Hc O1 En Hh Hsame Hr. destruct (set_ok_at s ch c O Hc) as [Oc Hch]. unfold wp.
  rewrite (run_all_notes ch c1 (put_chan ch c1 s) body _ _ (at_put ch c c1 s Hc) (co_note _ O1) (co_note_states _ O1) Hr). unfold having. rewrite chan_put_put, En.
  replace (map (fun v => (note_step x ch 0 (hold c) v).1) (note c)) with (imap (fun i v => (note_step x ch (Z.of_nat i) (hold c) v).1) (note c)).
  2: { apply list_eq. intros i. rewrite list_lookup_imap. rewrite (list_lookup_fmap (fun v => (note_step x ch 0 (hold c) v).1)). destruct (note c !! i); [| done]. cbn. f_equal. apply Hsame. }
  apply (acts_final ch x c c1 s _ O Hc O1 Hh).
  - intros ch' n NE. clear -NE. generalize (hold c) 0 (note c). intros h k l. revert k. induction l as [| v l IH]; intros k; [exact (List.Forall_nil _) |]. rewrite concat_notes_cons. apply Forall_app. split; [| apply IH].
    apply note_step_others. by left.
  - intros n v b Hn Hv. apply (sounds_concat b (fun n v => (note_step x ch n (hold c) v).2)); [| lia | by rewrite Z.sub_0_r]. intros m w n' NE. apply note_step_others. right. congruence.
Qed.

(** One note. *)
Lemma acts_one ch x c s m v : set_ok s -> at_chan ch c s -> 0 <= m -> note c !! Z.to_nat m = Some v -> hold_step x (hold c) = hold c ->
  (forall n w, n <> m -> note_step x ch n (hold c) w = (w, [])) ->
  acts ch x s (having ch c s (<[Z.to_nat m := (note_step x ch m (hold c) v).1]> (note c)) (log s ++ (note_step x ch m (hold c) v).2)).
Proof.
  intros O Hc Hm Hv Hh Hn. destruct (set_ok_at s ch c O Hc) as [Oc Hch].
  replace (<[Z.to_nat m := (note_step x ch m (hold c) v).1]> (note c)) with (imap (fun i v => (note_step x ch (Z.of_nat i) (hold c) v).1) (note c)).
  2: { apply list_eq. intros i. rewrite list_lookup_imap. destruct (decide (i = Z.to_nat m)) as [-> | NE].
    - rewrite Hv, list_lookup_insert_eq by (by eapply lookup_lt_Some). cbn. by rewrite Z2Nat.id by lia.
    - rewrite list_lookup_insert_ne by done. destruct (note c !! i); [| done]. cbn. by rewrite Hn by lia. }
  apply acts_final; [done | done | done | done | |].
  - intros ch' n NE. apply note_step_others. by left.
  - intros n w b H0 Hw. destruct (Z.eq_dec n m) as [-> | NE]; [by replace w with v by congruence |]. rewrite (Hn n w NE). cbn. apply sounds_silent, note_step_others. by right.
Qed.

Section Note_ops.
Context `{FullNotes}.

Lemma byte_state v : note_state v -> u8 v = v /\ is_byte v.
Proof. intros [-> | [-> | [-> | [-> | ->]]]]; done. Qed.

Lemma round_sustain ch c s h : at_chan ch c s ->
  round_is ch c s (fun n => v <- get_note ch n;; when (bit v NOTE_RELEASED) (set_note ch n NOTE_OFF;;; call op_note_off (NoteOff ch n 0)))
    (fun v => (note_step (Sustain false) ch 0 h v).1) (fun n v => (note_step (Sustain false) ch n h v).2).
Proof.
  intros Hc n ns lg v Hn Hv Hst. rewrite (having_note ch c s ns lg n v) by done. cbn [note_step fst snd]. unfold when. destruct (bit v NOTE_RELEASED).
  - erewrite run_bind by (by eapply having_set_note). by rewrite having_call by apply fn_off.
  - unfold ret. cbn [fst snd]. by rewrite app_nil_r, list_insert_id.
Qed.

Lemma round_mark ch c s h : at_chan ch c s ->
  round_is ch c s (fun n => v <- get_note ch n;; when (bit v NOTE_ON) (set_note ch n (Z.lor v NOTE_SUSTENUTO)))
    (fun v => (note_step (Sostenuto true) ch 0 h v).1) (fun n v => (note_step (Sostenuto true) ch n h v).2).
Proof.
  intros Hc n ns lg v Hn Hv Hst. rewrite (having_note ch c s ns lg n v) by done. cbn [note_step fst snd]. rewrite app_nil_r. unfold when. destruct (bit v NOTE_ON) eqn:E.
  - erewrite having_set_note by done. do 3 f_equal. by destruct Hst as [-> | [-> | [-> | [-> | ->]]]].
  - unfold ret. by rewrite list_insert_id.
Qed.

Lemma round_unmark ch c s h : at_chan ch c s ->
  round_is ch c s (fun n => v <- get_note ch n;; when (bit v NOTE_SUSTENUTO)
      (let v := Z.land v (Z.lnot NOTE_SUSTENUTO) in set_note ch n v;;; when (bit v NOTE_RELEASED) (set_note ch n NOTE_OFF;;; call op_note_off (NoteOff ch n 0))))
    (fun v => (note_step (Sostenuto false) ch 0 h v).1) (fun n v => (note_step (Sostenuto false) ch n h v).2).
Proof.
  intros Hc n ns lg v Hn Hv Hst. rewrite (having_note ch c s ns lg n v) by done. cbn [note_step fst snd].
  assert (E2 : bit (Z.land v (Z.lnot NOTE_SUSTENUTO)) NOTE_RELEASED = bit v NOTE_RELEASED /\ u8 (Z.land v (Z.lnot NOTE_SUSTENUTO)) = Z.land v (Z.lnot NOTE_SUSTENUTO)).
  { by destruct Hst as [-> | [-> | [-> | [-> | ->]]]]. }
  cbv zeta. rewrite (proj1 E2). unfold when at 1. destruct (bit v NOTE_SUSTENUTO).
  - erewrite run_bind by (by eapply having_set_note). rewrite (proj2 E2). unfold when. destruct (bit v NOTE_RELEASED).
    + assert (Hv' : <[Z.to_nat n := Z.land v (Z.lnot NOTE_SUSTENUTO)]> ns !! Z.to_nat n = Some (Z.land v (Z.lnot NOTE_SUSTENUTO))) by (apply list_lookup_insert_eq; by eapply lookup_lt_Some).
      erewrite run_bind by (by eapply having_set_note). rewrite having_call by apply fn_off. by rewrite list_insert_insert_eq.
    + unfold ret. cbn [fst snd]. by rewrite app_nil_r.
  - unfold ret. cbn [fst snd]. by rewrite app_nil_r, list_insert_id.
Qed.

Lemma hold_lookup c ns : length (control c) = 128%nat -> control (c <| note := ns |>) !! Z.to_nat CTL_SUSTAIN = Some (hold c).
Proof. intros Hl. unfold hold. destruct (nth_lookup_or_length (control c) (Z.to_nat CTL_SUSTAIN) 0) as [E | L]; [done |]. rewrite Hl in L. unfold CTL_SUSTAIN in L. lia. Qed.

(** A key goes up; its channel has the notes [ns]. *)
Lemma run_note_off ch c s ns lg n vel v : at_chan ch c s -> 0 <= n -> ns !! Z.to_nat n = Some v -> note_state v -> length (control c) = 128%nat ->
  note_off ch n vel (having ch c s ns lg) =
    Some (tt, having ch c s (<[Z.to_nat n := (key_up ch n vel (hold c) v).1]> ns) (lg ++ (key_up ch n vel (hold c) v).2)).
Proof.
  intros Hc Hn Hv Hst Hl. unfold note_off. erewrite (run_get_control ch (c <| note := ns |>) _ _ (hold c)).
  2: { by apply having_at. }
  2: { done. }
  2: { apply hold_lookup. done. }
  unfold key_up. assert (Eu : u8 (Z.lor v NOTE_RELEASED) = Z.lor v NOTE_RELEASED) by (by destruct Hst as [-> | [-> | [-> | [-> | ->]]]]).
  rewrite (having_note ch c s ns lg n v) by done. destruct (hold c =? 0); cbn [negb orb].
  - destruct (bit v NOTE_SUSTENUTO); cbn [fst snd]; [erewrite having_set_note by done; by rewrite Eu, app_nil_r |].
    erewrite run_bind by (by eapply having_set_note). by rewrite having_call by apply fn_off.
  - cbn [fst snd]. erewrite having_set_note by done. by rewrite Eu, app_nil_r.
Qed.

Lemma round_notes_off ch c s : at_chan ch c s -> length (control c) = 128%nat ->
  round_is ch c s (fun n => v <- get_note ch n;; when (v =? NOTE_ON) (note_off ch n 0))
    (fun v => (note_step NotesOff ch 0 (hold c) v).1) (fun n v => (note_step NotesOff ch n (hold c) v).2).
Proof.
  intros Hc Hl n ns lg v Hn Hv Hst. rewrite (having_note ch c s ns lg n v) by done. cbn [note_step fst snd]. unfold when. destruct (v =? NOTE_ON) eqn:E.
  - rewrite (run_note_off ch c s ns lg n 0 v) by done. unfold key_up. by destruct (_ || _).
  - unfold ret. cbn [fst snd]. by rewrite app_nil_r, list_insert_id.
Qed.

Lemma round_sounds_off ch c s h : at_chan ch c s ->
  round_is ch c s (fun n => v <- get_note ch n;; when (negb (v =? 0)) (call op_note_terminate (NoteTerminate ch n);;; set_note ch n 0))
    (fun v => (note_step SoundsOff ch 0 h v).1) (fun n v => (note_step SoundsOff ch n h v).2).
Proof.
  intros Hc n ns lg v Hn Hv Hst. rewrite (having_note ch c s ns lg n v) by done. cbn [note_step fst snd]. unfold when. destruct (v =? 0) eqn:E; cbn [negb].
  - unfold ret. cbn [fst snd]. by rewrite app_nil_r, list_insert_id.
  - erewrite run_bind by (by apply having_call, fn_term). by erewrite having_set_note by done.
Qed.

Lemma note_off_acts ch s n vel c v : set_ok s -> at_chan ch c s -> 0 <= n -> note c !! Z.to_nat n = Some v -> bit v NOTE_ON = true ->
  wp (note_off ch n vel) (fun _ s' => acts ch (KeyUp n vel) s s') s.
Proof.
  intros O Hc Hn Hv Hb. destruct (set_ok_at s ch c O Hc) as [Oc _]. pose proof (having_now ch c s Hc) as E.
  pose proof (run_note_off ch c s (note c) (log s) n vel v Hc Hn Hv (Forall_lookup_1 _ _ _ _ (co_note_states _ Oc) Hv) (co_control _ Oc)) as R.
  rewrite E in R. unfold wp. rewrite R.
  pose proof (acts_one ch (KeyUp n vel) c s n v O Hc Hn Hv eq_refl) as A. cbn [note_step] in A. rewrite Z.eqb_refl, Hb in A. apply A.
  intros m w NE. by rewrite (proj2 (Z.eqb_neq _ _) NE).
Qed.

Lemma key_down_acts ch s n vel c v : set_ok s -> at_chan ch c s -> 0 <= n -> note c !! Z.to_nat n = Some v ->
  wp (when (bit v NOTE_ON) (call op_note_off (NoteOff ch n 0));;; set_note ch n NOTE_ON;;; call op_note_on (NoteOn ch n vel)) (fun _ s' => acts ch (KeyDown n vel) s s') s.
Proof.
  intros O Hc Hn Hv. pose proof (having_now ch c s Hc) as E.
  assert (W : when (bit v NOTE_ON) (call op_note_off (NoteOff ch n 0)) (having ch c s (note c) (log s)) =
    Some (tt, having ch c s (note c) (log s ++ (if bit v NOTE_ON then [NoteOff ch n 0] else [])))).
  { unfold when. destruct (bit v NOTE_ON); [by apply having_call, fn_off | by rewrite app_nil_r]. }
  rewrite E in W. unfold wp. rewrite (run_bind _ _ _ _ _ W). erewrite run_bind by (by eapply having_set_note). rewrite having_call by apply fn_on.
  pose proof (acts_one ch (KeyDown n vel) c s n v O Hc Hn Hv eq_refl) as A. cbn [note_step] in A. rewrite Z.eqb_refl in A. cbn [fst snd] in A.
  rewrite <- app_assoc. apply A. intros m w NE. by rewrite (proj2 (Z.eqb_neq _ _) NE).
Qed.
End Note_ops.

(** ** Controllers *)

Definition control_cmd (ctl value : Z) : cmd :=
  if ctl =? CTL_SUSTAIN then Sustain (64 <=? value)
  else if ctl =? CTL_SUSTENUTO then Sostenuto (64 <=? value)
  else if ctl =? CTL_ALL_SOUNDS_OFF then SoundsOff
  else if ctl =? CTL_ALL_NOTES_OFF then NotesOff
  else if ctl =? CTL_RESET_CONTROLLERS then ResetAll
  else NoCmd.

Lemma acts_plain ch x c c1 s : set_ok s -> at_chan ch c s -> chan_ok c1 -> note c1 = note c -> hold c1 = hold_step x (hold c) ->
  (forall n v, note_step x ch n (hold c) v = (v, [])) -> acts ch x s (put_chan ch c1 s).
Proof.
  intros O Hc O1 En Hh Hx. assert (A : acts ch x s (having ch c1 s (imap (fun i v => (note_step x ch (Z.of_nat i) (hold c) v).1) (note c)) (log s ++ []))).
  { apply acts_final; [done | done | done | done | intros; exact (List.Forall_nil _) | intros n v b _ _; by rewrite Hx]. }
  rewrite imap_same in A by (intros i v _; by rewrite Hx). rewrite app_nil_r, <- En in A. unfold having in A.
  replace (c1 <| note := note c1 |>) with c1 in A by (by destruct c1). by destruct s.
Qed.

Lemma reset_ok c : chan_ok c -> chan_ok (reset_controllers c) /\ note (reset_controllers c) = note c /\ hold (reset_controllers c) = 0.
Proof.
  intros [A B C D F G]. split; [| done]. split; try done. cbn [control set_field reset_controllers]. unfold put_index.
  repeat apply Forall_insert; try done. by apply byte_replicate.
Qed.

(** The steps of a loop do not depend on the note. *)
Lemma note_step_same x ch n h v : match x with KeyDown _ _ | KeyUp _ _ => True | _ => (note_step x ch n h v).1 = (note_step x ch 0 h v).1 end.
Proof. destruct x as [| | [] | [] | | | |]; unfold note_step, key_up; try done; repeat match goal with |- context [if ?b then _ else _] => destruct b end; done. Qed.

Section Controllers.
Context `{FullNotes}.

Lemma do_control_acts ch ctl value s : set_ok s -> 0 <= ch < max_channels s -> 0 <= ctl < 128 ->
  wp (do_control ch ctl value) (fun _ s' => acts ch (control_cmd ctl value) s s') s.
Proof.
  intros O Hch Hctl. destruct (set_ok_get s ch O Hch) as [c Hc]. destruct (set_ok_at s ch c O Hc) as [Oc _].
  destruct (byte_at _ _ (co_control _ Oc) (co_control_bytes _ Oc) Hctl) as (w & Hw & _).
  set (v := switch_value ctl value). set (c1 := c <| control := put_index ctl (u8 v) (control c) |>).
  assert (Set1 : forall (m : ST chanset unit) Q, wp m Q (put_chan ch c1 s) -> wp (set_control ch ctl v;;; m) Q s).
  { intros m Q Hm. unfold wp. erewrite run_bind by (by apply (run_set_control ch c s ctl w); [| lia |]). exact Hm. }
  assert (O1 : chan_ok c1) by (apply put_control_ok; [done | apply u8_byte]).
  assert (E1 : hold c1 = if ctl =? CTL_SUSTAIN then u8 v else hold c) by (by apply put_control_hold; [| lia]).
  assert (Os1 : set_ok (put_chan ch c1 s)) by (by apply set_ok_put).
  unfold do_control. fold v. apply Set1. unfold control_cmd. destruct (Z.eqb_spec ctl CTL_SUSTAIN) as [-> | N64].
  { replace v with (if 64 <=? value then 127 else 0) in E1 |- * by done. destruct (64 <=? value); cbn [Z.eqb when].
    - apply wp_ret. by apply (acts_plain ch _ c).
    - apply (acts_loop ch (Sustain false) c c1 s); try done; try (intros n u; exact (note_step_same (Sustain false) ch n (hold c) u)); by apply round_sustain, (at_put ch c). }
  assert (C1 : calm true s (put_chan ch c1 s)) by (by apply (calm_put true s ch c)).
  assert (Stay : forall m : ST chanset unit, wp m (fun _ s' => calm true s s') (put_chan ch c1 s) -> wp m (fun _ s' => acts ch NoCmd s s') (put_chan ch c1 s)).
  { intros m Hm. eapply wp_mono; [exact Hm |]. intros r s' C. by apply calm_acts. }
  assert (Entry : forall s0, calm true s s0 -> wp (c <- chan ch;; (if param_type c =? PARAM_REGISTERED then rpn ch else nrpn ch)) (fun _ s' => calm true s s') s0).
  { intros s0 C0. pose proof (ca_ok _ _ _ C0) as Os0. assert (Hch0 : 0 <= ch < max_channels s0) by (rewrite (ca_max _ _ _ C0); done).
    destruct (set_ok_get s0 ch Os0 Hch0) as [c0 Hc0]. unfold wp. rewrite (run_chan ch c0) by done.
    eapply wp_calm_here; [exact C0 |]. destruct (_ =? _); [by apply wp_rpn | by apply wp_call]. }
  destruct (Z.eqb_spec ctl CTL_PORTAMENTO) as [-> | N65]; [by apply Stay, wp_ret |].
  destruct (Z.eqb_spec ctl CTL_SUSTENUTO) as [-> | N66].
  { replace v with (if 64 <=? value then 127 else 0) by done. destruct (64 <=? value); cbn [Z.eqb negb].
    - apply (acts_loop ch (Sostenuto true) c c1 s); try done; try (intros n u; exact (note_step_same (Sostenuto true) ch n (hold c) u)); by apply round_mark, (at_put ch c).
    - apply (acts_loop ch (Sostenuto false) c c1 s); try done; try (intros n u; exact (note_step_same (Sostenuto false) ch n (hold c) u)); by apply round_unmark, (at_put ch c). }
  assert (Eh : hold c1 = hold c) by (by rewrite E1).
  destruct (Z.eqb_spec ctl CTL_ALL_SOUNDS_OFF) as [-> | N120].
  { cbn [Z.eqb CTL_MSB_DATA_ENTRY]. change (wp (all_sounds_off ch) (fun _ s' => acts ch SoundsOff s s') (put_chan ch c1 s)). unfold all_sounds_off. replace (negb op_note_terminate) with false by (by rewrite fn_term).
    apply (acts_loop ch SoundsOff c c1 s); try done; try (intros n u; exact (note_step_same SoundsOff ch n (hold c) u)); by apply round_sounds_off, (at_put ch c). }
  destruct (Z.eqb_spec ctl CTL_ALL_NOTES_OFF) as [-> | N123].
  { change (wp (all_notes_off ch) (fun _ s' => acts ch NotesOff s s') (put_chan ch c1 s)). unfold all_notes_off. replace (negb op_note_off) with false by (by rewrite fn_off).
    apply (acts_loop ch NotesOff c c1 s); try done; try (intros n u; exact (note_step_same NotesOff ch n (hold c) u)). rewrite <- Eh. apply round_notes_off; [by apply (at_put ch c) | apply O1]. }
  destruct (Z.eqb_spec ctl CTL_RESET_CONTROLLERS) as [-> | N121].
  { change (wp (snd_midi_reset_controllers ch) (fun _ s' => acts ch ResetAll s s') (put_chan ch c1 s)). unfold snd_midi_reset_controllers, wp.
    rewrite (run_set_chan ch c1) by (by apply (at_put ch c)). rewrite chan_put_put. destruct (reset_ok c1 O1) as (R1 & R2 & R3). by apply (acts_plain ch _ c). }
  apply Stay. assert (Keep : forall f, keeps true f -> wp (set_chan ch f) (fun _ s' => calm true s s') (put_chan ch c1 s)).
  { intros f Hf. eapply wp_calm_here; [exact C1 |]. by apply wp_set_chan. }
  assert (Param : forall p, p = 0 \/ p = 1 -> keeps true (fun c => c <| param_type := p |>)).
  { intros p Hp c2 [A B C D F G]. split; [| done]. split; try done. cbn. tauto. }
  assert (Drum : forall p, p = 0 \/ p = 1 -> keeps true (fun c => c <| drum_channel := p |>)).
  { intros p Hp c2 [A B C D F G]. split; [| done]. split; try done. cbn. tauto. }
  destruct (ctl =? CTL_MSB_DATA_ENTRY).
  { apply (wp_calm_bind _ _ true _ s C1); [by apply wp_set_control | apply Entry]. }
  destruct (ctl =? CTL_LSB_DATA_ENTRY); [by apply Entry |].
  destruct (_ || _); [apply Keep, Param; by left |]. destruct (_ || _); [apply Keep, Param; by right |].
  destruct (ctl =? CTL_MSB_BANK).
  { change (wp (when (midi_mode (put_chan ch c1 s) =? MODE_XG) (set_chan ch (fun c => c <| drum_channel := if v =? 127 then 1 else 0 |>))) (fun _ s' => calm true s s') (put_chan ch c1 s)).
    unfold when. destruct (_ =? _); [| by apply wp_ret]. apply Keep, Drum. destruct (v =? 127); tauto. }
  destruct (ctl =? CTL_LSB_BANK); [by apply wp_ret |]. eapply wp_calm_here; [exact C1 |]. by apply wp_call.
Qed.
End Controllers.

(** ** System exclusive messages *)

Section Messages.
Context `{MidiOp}.

Lemma wp_for_chans s0 body l : (forall i s, i ∈ l -> calm false s0 s -> wp (body i) (fun _ s' => calm false s s') s) -> forall s, calm false s0 s ->
  wp (for_each body l) (fun _ s' => calm false s0 s') s.
Proof.
  induction l as [| i l IH]; intros Hb s C; cbn [for_each]; [by apply wp_ret |]. apply (wp_calm_bind _ _ false); [done | apply Hb; [left | done] |].
  intros s1 C1. apply IH; [| done]. intros j s2 Hj. apply Hb. by right.
Qed.

Lemma in_range s0 s i : calm false s0 s -> i ∈ seqZ 0 (max_channels s0) -> 0 <= i < max_channels s.
Proof. intros C Hi%elem_of_seqZ. rewrite (ca_max _ _ _ C). lia. Qed.

Lemma keeps_reset : keeps false reset_controllers.
Proof. intros c O. destruct (reset_ok c O) as (A & B & _). done. Qed.

Lemma keeps_drum p : p = 0 \/ p = 1 -> keeps false (fun c => c <| drum_channel := p |>).
Proof. intros Hp c [A B C D F G]. split; [| done]. split; try done. cbn. tauto. Qed.

Lemma keeps_program z : is_byte z -> keeps false (fun c => c <| midi_program := z |>).
Proof. intros Hz c [A B C D F G]. split; [| done]. split; try done. cbn. tauto. Qed.

Lemma calm_field f s : set_ok s -> channels (f s) = channels s -> max_channels (f s) = max_channels s -> log (f s) = log s -> calm false s (f s).
Proof.
  intros [(l & E & El & F)] E1 E2 E3. split; [split; exists l; rewrite E1, E2; done | done | |].
  - intros ch c (Hc & l' & E' & Hl). rewrite E1 in E'. exists c. split; [split; [done |]; by exists l' | done].
  - exists []. rewrite app_nil_r. split; [done |]. intros. exact (List.Forall_nil _).
Qed.

Lemma wp_reset_all s0 s : calm false s0 s -> wp reset_all_channels (fun _ s' => calm false s0 s') s.
Proof.
  intros C. unfold reset_all_channels. apply (wp_calm_here _ false _ _ C).
  change (wp (for_each (fun i => snd_midi_reset_controllers i;;; set_chan i reset_tuning;;; set_chan i (fun c => c <| drum_channel := if i =? 9 then 1 else 0 |>)) (seqZ 0 (max_channels s))) (fun _ s' => calm false s s') s).
  apply wp_for_chans; [| apply notes_calm_refl, C]. intros i s1 Hi C1. pose proof (in_range _ _ _ C1 Hi) as R. pose proof (ca_ok _ _ _ C1) as O1.
  apply (wp_calm_bind _ _ false); [by apply notes_calm_refl | by apply wp_set_chan, keeps_reset |]. intros s2 C2.
  apply (wp_calm_bind _ _ false); [done | apply wp_set_chan; [apply C2 | by rewrite (ca_max _ _ _ C2) | apply keeps_tuning] |]. intros s3 C3.
  apply (wp_calm_here _ false _ _ C3), wp_set_chan; [apply C3 | by rewrite (ca_max _ _ _ C3) |]. apply keeps_drum. destruct (i =? 9); tauto.
Qed.

Lemma get_channel_pos cmd : 0 <= get_channel cmd.
Proof. unfold get_channel. cbv zeta. assert (0 <= Z.land cmd 0x0f) by (apply Z.land_nonneg; lia). destruct (Z.eqb_spec (Z.land cmd 0x0f) 0); [lia |]. destruct (_ <? 10); lia. Qed.

Lemma wp_gs_sysex xx yy zz s0 s : calm false s0 s -> is_byte zz -> wp (gs_sysex xx yy zz) (fun _ s' => calm false s0 s') s.
Proof.
  intros C Hz. unfold gs_sysex. set (f := fun s : chanset => if plain_mode (midi_mode s) then s <| midi_mode := MODE_GS |> else s).
  assert (C1 : calm false s0 (f s)).
  { eapply notes_calm_trans; [exact C |]. apply calm_field; unfold f; [apply C | by destruct (plain_mode _)..]. }
  apply wp_bind. change (wp (s1 <- get;; (if (xx =? 0x00) && (yy =? 0x7f) && (zz =? 0x00) then reset_all_channels;;; ret SYSEX_GS_RESET
    else if (Z.land xx 0xf0 =? 0x10) && (yy =? 0x15) then
      let p := get_channel xx in
      if p <? max_channels s1 then set_chan p (fun c => c <| drum_channel := if zz =? 0 then 0 else 1 |>);;; ret SYSEX_GS_DRUM_CHANNEL else ret SYSEX_NOT_PARSED
    else if (Z.land xx 0xf0 =? 0x10) && (yy =? 0x21) then
      let p := get_channel xx in
      if p <? max_channels s1 then
        c <- chan p;; if drum_channel c =? 0 then set_chan p (fun c => c <| midi_program := zz |>);;; ret SYSEX_GS_DRUM_CHANNEL else ret SYSEX_NOT_PARSED
      else ret SYSEX_NOT_PARSED
    else if (xx =? 0x01) && (yy =? 0x30) then update (fun s => s <| gs_reverb_mode := zz |>);;; ret SYSEX_GS_CHORUS_MODE
    else if (xx =? 0x01) && (yy =? 0x38) then update (fun s => s <| gs_chorus_mode := zz |>);;; ret SYSEX_GS_REVERB_MODE
    else if (xx =? 0x00) && (yy =? 0x04) then update (fun s => s <| gs_master_volume := zz |>);;; ret SYSEX_GS_REVERB_MODE
    else ret SYSEX_NOT_PARSED)) (fun _ s' => calm false s0 s') (f s)).
  set (s1 := f s) in *. clearbody s1. clear f C s. apply wp_bind. unfold wp at 1, get.
  assert (Done : forall (m : ST chanset unit) (r : Z), wp m (fun _ s' => calm false s0 s') s1 -> wp (m;;; ret r) (fun (_ : Z) s' => calm false s0 s') s1).
  { intros m r Hm. apply wp_bind. eapply wp_mono; [exact Hm |]. intros [] s' C'. by apply wp_ret. }
  assert (Field : forall (g : chanset -> chanset) (r : Z), channels (g s1) = channels s1 -> max_channels (g s1) = max_channels s1 -> log (g s1) = log s1 -> wp (update g;;; ret r) (fun (_ : Z) s' => calm false s0 s') s1).
  { intros g r E1 E2 E3. apply Done. unfold wp, update. eapply notes_calm_trans; [exact C1 |]. apply calm_field; [apply C1 | done..]. }
  assert (Chan : forall p g (r : Z), keeps false g -> 0 <= p < max_channels s1 -> wp (set_chan p g;;; ret r) (fun (_ : Z) s' => calm false s0 s') s1).
  { intros p g r Hg Hp. apply Done, (wp_calm_here _ false _ _ C1), wp_set_chan; [apply C1 | done | done]. }
  destruct (_ && _ && _); [by apply Done, wp_reset_all |]. pose proof (get_channel_pos xx) as Hp. cbv zeta.
  destruct (_ && _).
  { destruct (Z.ltb_spec (get_channel xx) (max_channels s1)); [| by apply wp_ret]. apply Chan; [| done]. apply keeps_drum. destruct (zz =? 0); tauto. }
  destruct (_ && _).
  { destruct (Z.ltb_spec (get_channel xx) (max_channels s1)); [| by apply wp_ret]. destruct (set_ok_get s1 (get_channel xx) (ca_ok _ _ _ C1) ltac:(done)) as [c Hc].
    unfold wp. rewrite (run_chan _ c) by done. destruct (drum_channel c =? 0); [| exact C1]. apply Chan; [by apply keeps_program | done]. }
  destruct (_ && _); [by apply Field |]. destruct (_ && _); [by apply Field |]. destruct (_ && _); [by apply Field | by apply wp_ret].
Qed.

Lemma wp_xg_on s0 s : calm false s0 s -> wp xg_on (fun _ s' => calm false s0 s') s.
Proof.
  intros C. unfold xg_on. set (s1 := s <| midi_mode := MODE_XG |>). assert (C1 : calm false s0 s1).
  { eapply notes_calm_trans; [exact C |]. apply (calm_field (fun s => s <| midi_mode := MODE_XG |>)); [apply C | done..]. }
  apply wp_bind. change (wp (s2 <- get;; (for_each (fun i => c <- chan i;; set_control i CTL_MSB_BANK (if drum_channel c =? 0 then 0 else 127)) (seqZ 0 (max_channels s2));;; ret SYSEX_XG_ON)) (fun _ s' => calm false s0 s') s1).
  clearbody s1. clear C s. apply wp_bind. unfold wp at 1, get. apply wp_bind.
  eapply wp_mono; [apply (wp_for_chans s1); [| apply notes_calm_refl, C1] | intros [] s' C'; apply wp_ret; by eapply notes_calm_trans].
  intros i s2 Hi C2. pose proof (in_range _ _ _ C2 Hi) as R. destruct (set_ok_get s2 i (ca_ok _ _ _ C2) R) as [c Hc]. unfold wp. rewrite (run_chan _ c) by done.
  by apply wp_set_control; [apply C2 | | |].
Qed.

Lemma wp_sysex bytes s : Forall is_byte bytes -> set_ok s -> wp (sysex bytes) (fun _ s' => calm false s s') s.
Proof.
  intros Hb O. assert (C0 : calm false s s) by (by apply notes_calm_refl). unfold sysex. destruct bytes as [| b buf]; [by apply wp_ret |].
  destruct (decide (b = 0xf0)) as [-> | NE].
  2: { destruct b as [| p | p]; try by apply wp_ret. repeat (destruct p as [p | p |]; try by apply wp_ret); done. }
  apply wp_bind. eapply (wp_mono _ (fun _ s' => calm false s s')); [| intros r s' C'; apply (wp_calm_here _ false _ _ C'), wp_call; [done | apply C']].
  destruct (begins gm_on_macro buf).
  { apply wp_bind. unfold wp at 1, get. destruct (plain_mode _); [| by apply wp_ret]. set (s1 := s <| midi_mode := MODE_GM |>).
    assert (C1 : calm false s s1) by (apply (calm_field (fun s => s <| midi_mode := MODE_GM |>)); done).
    apply wp_bind. change (wp (reset_all_channels;;; ret SYSEX_GM_ON) (fun (_ : Z) s' => calm false s s') s1). apply wp_bind. eapply wp_mono; [by apply wp_reset_all |]. intros [] s' C'. by apply wp_ret. }
  apply Forall_cons in Hb as [_ Hb]. destruct (_ && _); [apply wp_gs_sysex; [done |] | destruct (begins xg_on_macro buf); [by apply wp_xg_on | by apply wp_ret]].
  destruct (nth_in_or_default 7 buf 0) as [Hin | ->]; [| done]. rewrite Forall_forall in Hb. apply Hb. by apply list_elem_of_In.
Qed.
End Messages.
