(* ===== verification/MidiPlay.v ===== *)
(** * MidiPlay: what is heard of a stream of MIDI events

    Every event refines the automata of the notes.  A driver hears of each note what the set
    says of it, whatever the events; and as long as only keys and the sustain pedal are used, a
    key that is down sounds, and without the pedal nothing else does. *)

From S2P Require Import Prelude SeqEvent MidiEmul MidiKeys.
Open Scope Z_scope.
Open Scope state_scope.

(** ** Events *)

(** What an event says to the notes of its channel. *)
Definition cmd_of (ev : snd_seq_event) : cmd :=
  let t := ev_type ev in
  let n := note_note ev in
  if (t =? EVENT_NOTEON) && negb (note_velocity ev =? 0) then if 128 <=? n then NoCmd else KeyDown n (note_velocity ev)
  else if (t =? EVENT_NOTEON) || (t =? EVENT_NOTEOFF) then if 128 <=? n then NoCmd else KeyUp n (note_velocity ev)
  else if t =? EVENT_CONTROLLER then control_cmd (control_param ev) (control_value ev)
  else if (t =? EVENT_CONTROL14) && (32 <=? control_param ev) then control_cmd (control_param ev) (control_value ev)
  else NoCmd.

(** The controller is one of those that MIDI has. *)
Definition param_ok (ev : snd_seq_event) : Prop :=
  ev_type ev = EVENT_CONTROLLER \/ ev_type ev = EVENT_CONTROL14 -> 0 <= control_param ev < 128.

(** The event is for a channel of the set. *)
Definition for_set (ev : snd_seq_event) (s : chanset) : bool := is_channel_type ev && (note_channel ev <? max_channels s).

Section Events.
Context `{FullNotes}.

Lemma byte_of_pos k e : 0 <= k -> 0 <= byte_of k e.
Proof. intros Hk. pose proof (byte_of_range k e Hk) as [? _]. done. Qed.

Lemma keeps_bend z : -32768 <= z <= 32767 -> keeps true (fun c => c <| midi_pitchbend := z |>).
Proof. intros Hz c [A B C D F G]. split; [| done]. split; try done. cbn. rewrite !Forall_cons in *. tauto. Qed.

Lemma keeps_bytes z p : is_byte z -> p = 0 \/ p = 1 ->
  keeps true (fun c => c <| midi_program := z |>) /\ keeps true (fun c => c <| midi_pressure := z |>) /\ keeps true (fun c => c <| param_type := p |>).
Proof. intros Hz Hp. split_and!; intros c [A B C D F G]; (split; [| done]); split; try done; cbn; tauto. Qed.

Lemma run_quiet_note ch s c n : set_ok s -> at_chan ch c s -> 0 <= n < 128 -> exists v, note c !! Z.to_nat n = Some v.
Proof. intros O Hc Hn. apply lookup_lt_is_Some_2. rewrite (co_note c) by (by apply (set_ok_at s ch c)). lia. Qed.

Lemma wp_four_controls ch p v1 v2 v3 v4 i3 i4 (tail : ST chanset unit) s :
  set_ok s -> 0 <= ch < max_channels s -> p = 0 \/ p = 1 -> 0 <= i3 < 128 -> i3 <> CTL_SUSTAIN -> 0 <= i4 < 128 -> i4 <> CTL_SUSTAIN ->
  (forall s', set_ok s' -> 0 <= ch < max_channels s' -> wp tail (fun _ s2 => calm true s' s2) s') ->
  wp (set_chan ch (fun c => c <| param_type := p |>);;; set_control ch CTL_MSB_DATA_ENTRY v1;;; set_control ch CTL_LSB_DATA_ENTRY v2;;;
      set_control ch i3 v3;;; set_control ch i4 v4;;; tail) (fun _ s' => calm true s s') s.
Proof.
  intros O Hch Hp H3 N3 H4 N4 Ht.
  assert (Rng : forall s', calm true s s' -> set_ok s' /\ 0 <= ch < max_channels s') by (intros s' C; split; [apply C | by rewrite (ca_max _ _ _ C)]).
  apply (wp_calm_bind _ _ true _ _ (notes_calm_refl true s O)); [apply wp_set_chan; [done | done |]; by apply (keeps_bytes 0) |]. intros s1 C1. destruct (Rng _ C1).
  apply (wp_calm_bind _ _ true _ _ C1); [by apply wp_set_control |]. intros s2 C2. destruct (Rng _ C2).
  apply (wp_calm_bind _ _ true _ _ C2); [by apply wp_set_control |]. intros s3 C3. destruct (Rng _ C3).
  apply (wp_calm_bind _ _ true _ _ C3); [by apply wp_set_control |]. intros s4 C4. destruct (Rng _ C4).
  apply (wp_calm_bind _ _ true _ _ C4); [by apply wp_set_control |]. intros s5 C5. destruct (Rng _ C5).
  apply (wp_calm_here _ true _ _ C5). by apply Ht.
Qed.

(** A change and a call that are about no note. *)
Lemma wp_report ch f b x s : set_ok s -> 0 <= ch < max_channels s -> keeps true f -> (forall ch n, says x ch n = None) ->
  wp (set_chan ch f;;; call b x) (fun _ s' => calm true s s') s.
Proof.
  intros O Hch Hf Hx. apply (wp_calm_bind _ _ true _ _ (notes_calm_refl true s O)); [by apply wp_set_chan |]. intros s1 C1.
  apply (wp_calm_here _ true _ _ C1), wp_call; [done | apply C1].
Qed.

Lemma calm_at s s1 ch c : set_ok s -> calm true s s1 -> at_chan ch c s -> exists c1, at_chan ch c1 s1 /\ note c1 = note c /\ hold c1 = hold c.
Proof.
  intros O C Hc. destruct (set_ok_at s ch c O Hc) as [_ R]. destruct (set_ok_get s1 ch (ca_ok _ _ _ C)) as [c1 Hc1]; [by rewrite (ca_max _ _ _ C) |].
  destruct (ca_chan _ _ _ C ch c1 Hc1) as (c' & Hc' & En & Eh). rewrite (at_fun _ _ _ _ Hc Hc') in *. by exists c1; auto.
Qed.

Lemma calm_then_acts ch x s s1 s' : set_ok s -> calm true s s1 -> acts ch x s1 s' -> acts ch x s s'.
Proof.
  intros O C [B1 B2 B3 (l2 & E2 & S2 & S3)]. pose proof C as [A1 A2 A3 (l1 & E1 & S1)]. split; [done | congruence | |].
  - intros ch' c' Hc'. destruct (B3 _ _ Hc') as (c1 & Hc1 & Hb). destruct (A3 _ _ Hc1) as (c & Hc & En & Eh). specialize (Eh eq_refl). exists c. split; [done |].
    by rewrite <- En, <- Eh.
  - exists (l1 ++ l2). split_and!; [by rewrite E2, E1, app_assoc | intros ch' n NE; apply Forall_app; split; [apply S1 | by apply S2] |].
    intros c n v b Hc Hn Hv. destruct (calm_at s s1 ch c O C Hc) as (c1 & Hc1 & En & Eh). rewrite sounds_app, (sounds_silent b l1) by apply S1.
    rewrite (S3 c1 n v b Hc1 Hn); [by rewrite Eh | by rewrite En].
Qed.

(** ** Every event is a step of every note *)

Lemma param_small z : 0 <= z < 128 -> s32 z = z.
Proof. intros Hz. word_lia. Qed.

Lemma u8_short z : is_byte (u8 z).
Proof. apply u8_byte. Qed.

(** A key goes up that may not be down. *)
Lemma wp_key_up ch n vel s c : set_ok s -> at_chan ch c s -> 0 <= n < 128 ->
  wp (v <- get_note ch n;; if negb (bit v NOTE_ON) then ret tt else when op_note_off (note_off ch n vel)) (fun _ s' => acts ch (KeyUp n vel) s s') s.
Proof.
  intros O Hc Hn. destruct (run_quiet_note ch s c n O Hc Hn) as [v Hv]. unfold wp. rewrite (run_get_note ch c s n v) by (done || lia). destruct (bit v NOTE_ON) eqn:Eb; cbn [negb].
  - rewrite fn_off. apply (note_off_acts ch s n vel c v); [done | done | lia | done | done].
  - pose proof (acts_one ch (KeyUp n vel) c s n v O Hc ltac:(lia) Hv eq_refl) as A. cbn [note_step] in A. rewrite Z.eqb_refl, Eb in A. cbn [andb fst snd] in A.
    rewrite app_nil_r, list_insert_id, having_now in A by done. apply A. intros m w NE. by rewrite (proj2 (Z.eqb_neq _ _) NE).
Qed.

Lemma process_acts ev bytes s : set_ok s -> param_ok ev -> for_set ev s = true ->
  wp (snd_midi_process_event ev bytes) (fun _ s' => acts (note_channel ev) (cmd_of ev) s s') s.
Proof.
  intros O Hp Hf. unfold for_set in Hf. apply andb_true_iff in Hf as [Ht Hch%Z.ltb_lt]. pose proof (byte_of_pos 0 (ev_d0 ev) ltac:(done)) as Hch0. change (0 <= note_channel ev) in Hch0.
  set (ch := note_channel ev) in *. assert (R : 0 <= ch < max_channels s) by done. destruct (set_ok_get s ch O R) as [c Hc]. pose proof Hc as (_ & l & El & _).
  pose proof (byte_of_pos 1 (ev_d0 ev) ltac:(done)) as Hn0. change (0 <= note_note ev) in Hn0.
  assert (Quiet : forall m, wp m (fun _ s' => calm true s s') s -> wp m (fun (_ : unit) s' => acts ch NoCmd s s') s).
  { intros m Hm. eapply wp_mono; [exact Hm |]. intros [] s' C. by apply calm_acts. }
  assert (Nothing : wp (ret tt) (fun _ s' => acts ch NoCmd s s') s) by (apply Quiet, wp_ret; by apply notes_calm_refl).
  unfold snd_midi_process_event. apply wp_bind. unfold wp at 1, get. rewrite El, Ht. fold ch. replace (max_channels s <=? ch) with false by lia. cbn [andb]. cbv zeta. unfold cmd_of. cbv zeta.
  destruct (Z.eqb_spec (ev_type ev) EVENT_NOTE) as [E | N5]; [rewrite E; exact Nothing |].
  destruct (Z.eqb_spec (ev_type ev) EVENT_NOTEON) as [E6 | N6].
  { rewrite E6. cbn [andb orb]. destruct (Z.eqb_spec (note_velocity ev) 0) as [Ev | Nv]; cbn [negb].
    - change (ev_type (ev <| ev_type := EVENT_NOTEOFF |>)) with EVENT_NOTEOFF. cbn [Z.eqb EVENT_NOTEOFF EVENT_NOTEON EVENT_KEYPRESS Pos.eqb orb andb].
      change (note_note (ev <| ev_type := EVENT_NOTEOFF |>)) with (note_note ev). change (note_velocity (ev <| ev_type := EVENT_NOTEOFF |>)) with (note_velocity ev).
      destruct (Z.leb_spec 128 (note_note ev)); [exact Nothing |]. by apply (wp_key_up ch _ _ s c).
    - rewrite E6. cbn [Z.eqb EVENT_NOTEOFF EVENT_NOTEON EVENT_KEYPRESS Pos.eqb orb andb]. destruct (Z.leb_spec 128 (note_note ev)); [exact Nothing |].
      destruct (run_quiet_note ch s c (note_note ev) O Hc ltac:(done)) as [v Hv]. unfold wp. rewrite (run_get_note ch c s _ v) by done.
      by apply (key_down_acts ch s _ _ c v). }
  cbn [andb orb]. rewrite (proj2 (Z.eqb_neq _ _) N6). cbn [orb].
  destruct (Z.eqb_spec (ev_type ev) EVENT_NOTEOFF) as [E7 | N7].
  { cbn [orb andb]. destruct (Z.leb_spec 128 (note_note ev)); [exact Nothing |]. by apply (wp_key_up ch _ _ s c). }
  destruct (Z.eqb_spec (ev_type ev) EVENT_KEYPRESS) as [E8 | N8].
  { rewrite E8. cbn [orb andb Z.eqb EVENT_KEYPRESS EVENT_CONTROLLER EVENT_CONTROL14 Pos.eqb]. destruct (128 <=? note_note ev); [exact Nothing |]. apply Quiet. by apply wp_call. }
  cbn [orb andb]. destruct (Z.eqb_spec (ev_type ev) EVENT_CONTROLLER) as [E10 | N10].
  { assert (P : 0 <= control_param ev < 128) by (apply Hp; by left). rewrite param_small by done. by apply do_control_acts. }
  destruct (Z.eqb_spec (ev_type ev) EVENT_CONTROL14) as [E14 | N14].
  { assert (P : 0 <= control_param ev < 128) by (apply Hp; by right). rewrite E14. cbn [Z.eqb EVENT_CONTROL14 EVENT_PGMCHANGE EVENT_PITCHBEND EVENT_CHANPRESS Pos.eqb andb].
    destruct (Z.ltb_spec (control_param ev) 32) as [L | L].
    - replace (32 <=? control_param ev) with false by lia. apply wp_bind. eapply wp_mono; [apply (wp_set_control true); [done | done | lia | unfold CTL_SUSTAIN; lia] |].
      intros [] s1 C1. cbv beta. assert (NC : control_cmd (control_param ev) (Z.land (Z.shiftr (control_value ev) 7) 127) = NoCmd).
      { unfold control_cmd, CTL_SUSTAIN, CTL_SUSTENUTO, CTL_ALL_SOUNDS_OFF, CTL_ALL_NOTES_OFF, CTL_RESET_CONTROLLERS. by rewrite !(proj2 (Z.eqb_neq _ _)) by lia. }
      rewrite <- NC. eapply wp_mono; [apply do_control_acts; [apply C1 | by rewrite (ca_max _ _ _ C1) | lia] |]. intros [] s' A. by eapply calm_then_acts.
    - replace (32 <=? control_param ev) with true by lia. rewrite param_small by done. by apply do_control_acts. }
  cbn [andb]. apply Quiet.
  destruct (ev_type ev =? EVENT_PGMCHANGE); [by apply wp_set_chan, (keeps_bytes _ 0); [| | apply u8_byte | left] |].
  destruct (ev_type ev =? EVENT_PITCHBEND); [by apply wp_report; [| | apply keeps_bend, s16_range |] |].
  destruct (ev_type ev =? EVENT_CHANPRESS); [by apply wp_report; [| | apply (keeps_bytes _ 0); [apply u8_byte | left] |] |].
  destruct (ev_type ev =? EVENT_NONREGPARAM).
  { apply wp_four_controls; try done; [by right |]. intros s' O' R'. by apply wp_call. }
  destruct (ev_type ev =? EVENT_REGPARAM).
  { apply wp_four_controls; try done; [by left |]. intros s' O' R'. by apply wp_rpn. }
  destruct (Z.eqb_spec (ev_type ev) EVENT_SYSEX) as [Es | Ns]; [| apply wp_ret; by apply notes_calm_refl].
  unfold is_channel_type in Ht. rewrite Es in Ht. done.
Qed.

(** Other events leave the notes alone. *)
Lemma process_calm ev bytes s : set_ok s -> Forall is_byte bytes -> for_set ev s = false ->
  wp (snd_midi_process_event ev bytes) (fun _ s' => calm (negb (ev_type ev =? EVENT_SYSEX)) s s') s.
Proof.
  intros O Hb Hf. assert (C0 : calm (negb (ev_type ev =? EVENT_SYSEX)) s s) by (by apply notes_calm_refl). pose proof O as [(l & El & _)]. unfold snd_midi_process_event. apply wp_bind. unfold wp at 1, get. rewrite El.
  unfold for_set in Hf. destruct (is_channel_type ev) eqn:Et; cbn [andb] in *.
  { apply Z.ltb_ge in Hf. rewrite (proj2 (Z.leb_le _ _) Hf). by apply wp_ret. }
  unfold is_channel_type in Et. unfold EVENT_NOTE, EVENT_NOTEON, EVENT_NOTEOFF, EVENT_KEYPRESS, EVENT_CONTROLLER, EVENT_PGMCHANGE, EVENT_PITCHBEND, EVENT_CHANPRESS, EVENT_CONTROL14, EVENT_NONREGPARAM, EVENT_REGPARAM.
  rewrite (proj2 (Z.eqb_neq (ev_type ev) 5)), (proj2 (Z.eqb_neq (ev_type ev) 6)) by lia. cbn [andb orb]. cbv zeta.
  rewrite (proj2 (Z.eqb_neq (ev_type ev) 6)), (proj2 (Z.eqb_neq (ev_type ev) 7)), (proj2 (Z.eqb_neq (ev_type ev) 8)), (proj2 (Z.eqb_neq (ev_type ev) 10)), (proj2 (Z.eqb_neq (ev_type ev) 11)),
    (proj2 (Z.eqb_neq (ev_type ev) 13)), (proj2 (Z.eqb_neq (ev_type ev) 12)), (proj2 (Z.eqb_neq (ev_type ev) 14)), (proj2 (Z.eqb_neq (ev_type ev) 15)), (proj2 (Z.eqb_neq (ev_type ev) 16)) by lia.
  cbn [andb orb]. clear Et Hf. destruct (_ =? EVENT_SYSEX); [| by apply wp_ret]. destruct (is_variable ev && _); [by apply wp_sysex | by apply wp_ret].
Qed.

(** ** Streams of events *)

(** What an event with its data does. *)
Definition message : Type := snd_seq_event * list Z.
Definition message_ok (p : message) : Prop := param_ok p.1 /\ Forall is_byte p.2.
Fixpoint play_all (l : list message) : ST chanset unit :=
  match l with [] => ret tt | p :: l => snd_midi_process_event p.1 p.2;;; play_all l end.

(** The calls say of each note whether it is on. *)
Definition linked (s : chanset) : Prop := forall ch c n v, at_chan ch c s -> 0 <= n -> note c !! Z.to_nat n = Some v -> sounds (log s) ch n = negb (v =? 0).

Lemma linked_calm kept s s' : linked s -> calm kept s s' -> linked s'.
Proof.
  intros L [A1 A2 A3 (l & E & S)] ch c' n v Hc Hn Hv. destruct (A3 _ _ Hc) as (c & Hc0 & En & _). rewrite E. unfold sounds. rewrite sounds_app, sounds_silent by apply S.
  apply (L ch c); [done | done | by rewrite <- En].
Qed.

Lemma linked_acts ch x s s' : set_ok s -> linked s -> acts ch x s s' -> linked s'.
Proof.
  intros O L [A1 A2 A3 (l & E & S1 & S2)] ch' c' n v' Hc Hn Hv. destruct (A3 _ _ Hc) as (c & Hc0 & Hb). rewrite E. unfold sounds. rewrite sounds_app.
  destruct (Z.eqb_spec ch' ch) as [-> | NE]; destruct Hb as [En _].
  - rewrite En, list_lookup_imap in Hv. destruct (note c !! Z.to_nat n) as [v |] eqn:Ev; [| done]. cbn in Hv. injection Hv as <-. rewrite Z2Nat.id by done.
    rewrite (S2 c n v) by done. pose proof (L ch c n v Hc0 Hn Ev) as Ls. unfold sounds in Ls. rewrite Ls. apply note_step_ok. eapply Forall_lookup_1; [| exact Ev]. by apply (set_ok_at s ch c).
  - rewrite sounds_silent by (by apply S1). apply (L ch' c); [done | done | by rewrite <- En].
Qed.

Lemma wp_play l : forall s, Forall message_ok l -> set_ok s -> linked s -> wp (play_all l) (fun _ s' => set_ok s' /\ max_channels s' = max_channels s /\ linked s') s.
Proof.
  induction l as [| [ev bytes] l IH]; intros s Hl O L; cbn [play_all fst snd]; [by apply wp_ret |]. apply Forall_cons in Hl as [[Hp Hb] Hl].
  apply wp_bind. eapply (wp_mono _ (fun _ s' => set_ok s' /\ max_channels s' = max_channels s /\ linked s')).
  - destruct (for_set ev s) eqn:Ef.
    + eapply wp_mono; [by apply process_acts |]. intros [] s' A. split_and!; [apply A | apply A | by eapply linked_acts].
    + eapply wp_mono; [by apply process_calm |]. intros [] s' C. split_and!; [apply C | apply C | by eapply linked_calm].
  - intros [] s1 (O1 & E1 & L1). eapply wp_mono; [by apply IH |]. intros [] s2 (O2 & E2 & L2). split_and!; [done | congruence | done].
Qed.

(** ** Keys and the pedal *)

(** Whether a key is down, and the sustain pedal, after these messages. *)
Definition on_channel (ch : Z) (p : message) : bool := is_channel_type p.1 && (note_channel p.1 =? ch).
Definition key_after (ch n : Z) (down : bool) (p : message) : bool :=
  if on_channel ch p then match cmd_of p.1 with KeyDown m _ => if m =? n then true else down | KeyUp m _ => if m =? n then false else down | _ => down end else down.
Definition key_down (ch n : Z) (l : list message) : bool := fold_left (key_after ch n) l false.
Definition pedal_after (ch : Z) (down : bool) (p : message) : bool := if on_channel ch p then match cmd_of p.1 with Sustain d => d | _ => down end else down.
Definition pedal_down (ch : Z) (l : list message) : bool := fold_left (pedal_after ch) l false.

(** Nothing but keys, the sustain pedal and what is not about notes. *)
Definition simple (p : message) : Prop :=
  ev_type p.1 <> EVENT_SYSEX /\ match cmd_of p.1 with Sostenuto _ | SoundsOff | NotesOff | ResetAll => False | _ => True end.

(** A key that is down has state 1; one that the pedal holds has 3. *)
Record keyed (key : Z -> Z -> bool) (pedal : Z -> bool) (s : chanset) : Prop := {
  kd_hold ch c : at_chan ch c s -> hold c = if pedal ch then 127 else 0;
  kd_note ch c n v : at_chan ch c s -> 0 <= n -> note c !! Z.to_nat n = Some v -> (key ch n = true <-> v = 1) /\ (v = 0 \/ v = 1 \/ v = 3 /\ pedal ch = true) }.

Lemma keyed_calm p key pedal s s' : keyed key pedal s -> calm true s s' -> set_ok s -> for_set p.1 s = false ->
  keyed (fun ch n => key_after ch n (key ch n) p) (fun ch => pedal_after ch (pedal ch) p) s'.
Proof.
  intros [K1 K2] C O Hf. assert (Off : forall ch c, at_chan ch c s -> on_channel ch p = false).
  { intros ch c Hc. destruct (set_ok_at s ch c O Hc) as [_ R]. unfold for_set in Hf. unfold on_channel. destruct (is_channel_type p.1); [| done]. cbn in *. lia. }
  split; unfold key_after, pedal_after.
  - intros ch c' Hc. destruct (ca_chan _ _ _ C ch c' Hc) as (c & Hc0 & _ & Eh). rewrite (Off ch c Hc0), (Eh eq_refl). by apply K1.
  - intros ch c' n v Hc Hn Hv. destruct (ca_chan _ _ _ C ch c' Hc) as (c & Hc0 & En & _). rewrite (Off ch c Hc0). rewrite En in Hv. by apply (K2 ch c).
Qed.

(** The step of one note keeps what the keys say. *)
Lemma keyed_note x ch n (key pedal : bool) v : match x with Sostenuto _ | SoundsOff | NotesOff | ResetAll => False | _ => True end ->
  (key = true <-> v = 1) -> (v = 0 \/ v = 1 \/ v = 3 /\ pedal = true) ->
  let key' := match x with KeyDown m _ => if m =? n then true else key | KeyUp m _ => if m =? n then false else key | _ => key end in
  let pedal' := match x with Sustain d => d | _ => pedal end in
  let v' := (note_step x ch n (if pedal then 127 else 0) v).1 in
  (key' = true <-> v' = 1) /\ (v' = 0 \/ v' = 1 \/ v' = 3 /\ pedal' = true).
Proof.
  intros Hx Hk Hv. destruct x as [m vel | m vel | [] | [] | | | |]; try done; unfold note_step, key_up; cbv zeta; try rewrite (Z.eqb_sym m n); try destruct (n =? m);
    destruct Hv as [-> | [-> | [-> ->]]]; try destruct pedal; cbn; try tauto; try (split; [split; done | tauto]).
  change (bit 3 NOTE_RELEASED) with true. cbn [fst]. split; [split; [intros K; apply Hk in K |]; done | by left].
Qed.

Lemma keyed_acts p key pedal s s' : simple p -> keyed key pedal s -> acts (note_channel p.1) (cmd_of p.1) s s' -> is_channel_type p.1 = true ->
  keyed (fun ch n => key_after ch n (key ch n) p) (fun ch => pedal_after ch (pedal ch) p) s'.
Proof.
  intros [_ Hx] [K1 K2] [A1 A2 A3 _] Ht. split; unfold key_after, pedal_after, on_channel; rewrite Ht; cbn [andb].
  - intros ch c' Hc. destruct (A3 ch c' Hc) as (c & Hc0 & Hb). pose proof (K1 ch c Hc0) as Eh. destruct (Z.eqb_spec ch (note_channel p.1)) as [-> | NE].
    + rewrite Z.eqb_refl. destruct Hb as [_ ->]. rewrite Eh. by destruct (cmd_of p.1).
    + rewrite (proj2 (Z.eqb_neq (note_channel p.1) ch)) by congruence. destruct Hb as [_ ->]. done.
  - intros ch c' n v' Hc Hn Hv'. destruct (A3 ch c' Hc) as (c & Hc0 & Hb). pose proof (K1 ch c Hc0) as Eh. destruct (Z.eqb_spec ch (note_channel p.1)) as [-> | NE].
    + rewrite Z.eqb_refl. destruct Hb as [En _]. rewrite En, list_lookup_imap in Hv'. destruct (note c !! Z.to_nat n) as [v |] eqn:Ev; [| done]. cbn in Hv'. injection Hv' as <-.
      rewrite Z2Nat.id, Eh by done. destruct (K2 _ c n v Hc0 Hn Ev) as [Hk Hv]. by apply keyed_note.
    + rewrite (proj2 (Z.eqb_neq (note_channel p.1) ch)) by congruence. destruct Hb as [En _]. rewrite En in Hv'. by apply (K2 ch c).
Qed.

Lemma wp_play_keyed l : forall key pedal s, Forall message_ok l -> Forall simple l -> set_ok s -> keyed key pedal s ->
  wp (play_all l) (fun _ s' => set_ok s' /\ keyed (fun ch n => fold_left (key_after ch n) l (key ch n)) (fun ch => fold_left (pedal_after ch) l (pedal ch)) s') s.
Proof.
  induction l as [| [ev bytes] l IH]; intros key pedal s Hl Hs O K; cbn [play_all fst snd fold_left]; [by apply wp_ret |].
  apply Forall_cons in Hl as [[Hp Hb] Hl]. apply Forall_cons in Hs as [Hsi Hs]. apply wp_bind.
  eapply (wp_mono _ (fun _ s' => set_ok s' /\ keyed (fun ch n => key_after ch n (key ch n) (ev, bytes)) (fun ch => pedal_after ch (pedal ch) (ev, bytes)) s')).
  - destruct (for_set ev s) eqn:Ef.
    + eapply wp_mono; [by apply process_acts |]. intros [] s' A. split; [apply A |]. apply (keyed_acts _ _ _ s); [done | done | exact A |]. unfold for_set in Ef. by apply andb_true_iff in Ef as [? _].
    + eapply wp_mono; [by apply process_calm |]. intros [] s' C. split; [apply C |]. apply (keyed_calm _ _ _ s); [done | | done | done]. destruct Hsi as [Ns _]. cbn in Ns.
      rewrite (proj2 (Z.eqb_neq _ _) Ns) in C. exact C.
  - intros [] s1 [O1 K1]. by apply IH.
Qed.
End Events.

(** ** A new set of channels *)

(** What [snd_midi_channel_alloc_set] leaves. *)
Definition is_new (n : Z) (s : chanset) : Prop := channels s = Some (snd_midi_channel_init_set n) /\ max_channels s = n /\ log s = [].

Lemma alloc_new junk n s : snd_midi_channel_alloc_set true true junk n = Some s -> is_new n s.
Proof. by intros [= <-]. Qed.

Lemma new_channel_ok i : chan_ok (snd_midi_channel_init i) /\ note (snd_midi_channel_init i) = replicate 128 0 /\ hold (snd_midi_channel_init i) = 0.
Proof.
  unfold snd_midi_channel_init. assert (Z0 : chan_ok (zero_channel <| ch_number := i |>)).
  { split; try done; [exact (byte_replicate 128 0 ltac:(done)) | exact (Forall_replicate note_state 128 0 (or_introl eq_refl)) | split_and!; [done | done | by left | by left] | repeat (apply Forall_cons; split; [done |]); exact (List.Forall_nil _)]. }
  destruct (reset_ok _ Z0) as (R1 & R2 & R3). destruct (keeps_tuning true _ R1) as (T1 & T2 & T3).
  destruct (i =? 9); [| by rewrite T2, R2, T3].
  split; [| split; [done | done]]. destruct T1 as [A B C D F G]. split; try done. cbn. tauto.
Qed.

Section New.
Context (n : Z) (s : chanset) (Hs : is_new n s).

Lemma new_set_ok : 0 <= n -> set_ok s.
Proof using Hs.
  destruct Hs as (E & Em & _). intros Hn. split. eexists. split_and!; [exact E | | ].
  - rewrite Em. unfold snd_midi_channel_init_set. rewrite length_map, length_seqZ. lia.
  - apply Forall_fmap, Forall_forall. intros i _. apply new_channel_ok.
Qed.

Lemma new_set_at ch c : at_chan ch c s -> exists i, c = snd_midi_channel_init i.
Proof using Hs.
  destruct Hs as (E & _ & _). intros (_ & l & El & Hl). rewrite E in El. injection El as <-. unfold snd_midi_channel_init_set in Hl.
  change (map snd_midi_channel_init (seqZ 0 n)) with (snd_midi_channel_init <$> seqZ 0 n) in Hl. apply list_lookup_fmap_Some in Hl as (i & -> & _). by exists i.
Qed.

Lemma new_set_note ch c m v : at_chan ch c s -> note c !! Z.to_nat m = Some v -> v = 0.
Proof using Hs. intros (i & ->)%new_set_at. rewrite (proj1 (proj2 (new_channel_ok i))). intros [-> _]%lookup_replicate. done. Qed.

Lemma new_set_linked : linked s.
Proof using Hs. intros ch c m v Hc Hm Hv. destruct Hs as (_ & _ & ->). by rewrite (new_set_note ch c m v Hc Hv). Qed.

Lemma new_set_keyed : keyed (fun _ _ => false) (fun _ => false) s.
Proof using Hs.
  split.
  - intros ch c (i & ->)%new_set_at. apply new_channel_ok.
  - intros ch c m v Hc Hm Hv. rewrite (new_set_note ch c m v Hc Hv). split; [done | by left].
Qed.
End New.

(** ** The properties *)

Section Properties.
Context `{FullNotes}.

(** C16: whatever messages come, with controllers up to 127: each is done without touching memory
    outside the channels, which stay well-formed, and the notes that the driver was told to play
    and not to stop are those that the channels have as on. *)
Theorem driver_hears_notes n junk s l :
  0 <= n -> snd_midi_channel_alloc_set true true junk n = Some s -> Forall message_ok l ->
  exists s', play_all l s = Some (tt, s') /\ set_ok s' /\ max_channels s' = n /\
    forall ch c m v, at_chan ch c s' -> 0 <= m -> note c !! Z.to_nat m = Some v -> (sounds (log s') ch m = true <-> v <> 0).
Proof.
  intros Hn Hs Hl. apply alloc_new in Hs. destruct (wp_run _ _ _ (wp_play l s Hl (new_set_ok n s Hs Hn) (new_set_linked n s Hs))) as ([] & s' & E & O & Em & L).
  exists s'. split_and!; [done | done | by rewrite Em; apply Hs |]. intros ch c m v Hc Hm Hv. rewrite (L ch c m v Hc Hm Hv). destruct (Z.eqb_spec v 0); cbn; split; congruence.
Qed.

(** C17: as long as the messages are about keys, the sustain pedal and what does not concern
    notes: a key that is down sounds, and while the pedal is up nothing else sounds. *)
Theorem keys_sound n junk s l :
  0 <= n -> snd_midi_channel_alloc_set true true junk n = Some s -> Forall message_ok l -> Forall simple l ->
  exists s', play_all l s = Some (tt, s') /\
    forall ch m, 0 <= ch < n -> 0 <= m < 128 ->
      (key_down ch m l = true -> sounds (log s') ch m = true) /\ (pedal_down ch l = false -> sounds (log s') ch m = key_down ch m l).
Proof.
  intros Hn Hs Hl Hsi. apply alloc_new in Hs. pose proof (new_set_ok n s Hs Hn) as O.
  destruct (wp_run _ _ _ (wp_and _ _ _ _ (wp_play l s Hl O (new_set_linked n s Hs)) (wp_play_keyed l _ _ s Hl Hsi O (new_set_keyed n s Hs)))) as ([] & s' & E & (O' & Em & L) & _ & K1 & K2).
  exists s'. split; [done |]. intros ch m Hch Hm. destruct (set_ok_get s' ch O') as [c Hc]; [rewrite Em; destruct Hs as (_ & -> & _); lia |].
  destruct (run_quiet_note ch s' c m O' Hc Hm) as [v Hv]. rewrite (L ch c m v Hc ltac:(lia) Hv). destruct (K2 ch c m v Hc ltac:(lia) Hv) as [Hk Hst].
  fold (key_down ch m l) in Hk. fold (pedal_down ch l) in Hst. split.
  - intros Hd. by rewrite (proj1 Hk Hd).
  - intros Hp. destruct (key_down ch m l) eqn:Ek; [by rewrite (proj1 Hk eq_refl) |]. destruct Hst as [-> | [-> | [_ Hp']]]; [done | by destruct Hk as [_ Hk]; specialize (Hk eq_refl) | congruence].
Qed.
End Properties.

(** ** A synthesizer with sixteen channels *)

Definition full_op : MidiOp := Build_MidiOp true true true true true true true.

Lemma full_notes : FullNotes (H := full_op).
Proof. by split. Qed.

Definition junk_set : chanset := ChanSet 0 None 0 0 0 0 [].
Definition synth : chanset := match snd_midi_channel_alloc_set true true junk_set 16 with Some s => s | None => junk_set end.

Definition msg (type d0 d1 d2 : Z) : message := (Event type 0 0 0 (Timestamp 0 0) (Addr 0 0) (Addr 0 0) d0 d1 d2, []).
Definition note_msg (type ch n vel : Z) : message := msg type (ch + 256 * n + 65536 * vel) 0 0.
Definition ctl_msg (ch ctl value : Z) : message := msg EVENT_CONTROLLER ch ctl value.
Definition sysex_msg (bytes : list Z) : message := (Event EVENT_SYSEX EVENT_LENGTH_VARIABLE 0 0 (Timestamp 0 0) (Addr 0 0) (Addr 0 0) 0 0 0, bytes).

Definition calls (l : list message) : option (list drv_call) := match play_all (H := full_op) l synth with Some (_, s) => Some (log s) | None => None end.

(** A chord under the pedal: the keys go up, the pedal after them. *)
Definition chord : list message :=
  [note_msg EVENT_NOTEON 0 60 100; ctl_msg 0 CTL_SUSTAIN 127; note_msg EVENT_NOTEON 0 64 100; note_msg EVENT_NOTEOFF 0 60 0; note_msg EVENT_NOTEON 3 67 90;
   note_msg EVENT_NOTEON 0 64 0; note_msg EVENT_NOTEON 0 72 80; ctl_msg 0 CTL_SUSTAIN 0].

Example chord_calls : calls chord = Some [NoteOn 0 60 100; NoteOn 0 64 100; NoteOn 3 67 90; NoteOn 0 72 80; NoteOff 0 60 0; NoteOff 0 64 0].
Proof. by vm_compute. Qed.

(** A controller that is not one writes behind the controllers. *)
Example controller_overruns : calls [ctl_msg 0 200 1] = None.
Proof. by vm_compute. Qed.

(** When the controllers are reset the pedal is up, but a note that it held sounds on. *)
Example reset_strands_held :
  calls [ctl_msg 0 CTL_SUSTAIN 127; note_msg EVENT_NOTEON 0 60 100; note_msg EVENT_NOTEOFF 0 60 0; ctl_msg 0 CTL_RESET_CONTROLLERS 0] =
    Some [NoteOn 0 60 100].
Proof. by vm_compute. Qed.

(** The sostenuto pedal goes up while the sustain pedal is down: a note that both held stops. *)
Example sostenuto_ends_sustain :
  calls [note_msg EVENT_NOTEON 0 60 100; ctl_msg 0 CTL_SUSTENUTO 127; ctl_msg 0 CTL_SUSTAIN 127; note_msg EVENT_NOTEOFF 0 60 0; ctl_msg 0 CTL_SUSTENUTO 0] =
    Some [NoteOn 0 60 100; NoteOff 0 60 0].
Proof. by vm_compute. Qed.

(** A message that sets the reverb is reported as one that sets the chorus. *)
Example reverb_reported_as_chorus :
  option_map (fun r => (gs_reverb_mode r.2, gs_chorus_mode r.2, last (log r.2))) (play_all (H := full_op) [sysex_msg ([0xf0] ++ gs_pfx_macro ++ [0x01; 0x30; 5; 0; 0xf7])] synth) =
    Some (5, 0, Some (Sysex ([0xf0] ++ gs_pfx_macro ++ [0x01; 0x30; 5; 0; 0xf7]) SYSEX_GS_CHORUS_MODE)).
Proof. by vm_compute. Qed.

Lemma chord_ok : Forall message_ok chord.
Proof. repeat (apply Forall_cons; split; [split; [intros _; vm_compute; split; done | exact (List.Forall_nil _)] |]). exact (List.Forall_nil _). Qed.

Lemma chord_simple : Forall simple chord.
Proof. repeat (apply Forall_cons; split; [by split |]). exact (List.Forall_nil _). Qed.

Lemma driver_hears_notes_witness :
  exists s', play_all (H := full_op) chord synth = Some (tt, s') /\ set_ok s' /\ max_channels s' = 16 /\
    forall ch c m v, at_chan ch c s' -> 0 <= m -> note c !! Z.to_nat m = Some v -> (sounds (log s') ch m = true <-> v <> 0).
Proof. exact (driver_hears_notes (H := full_op) (H0 := full_notes) 16 junk_set synth chord ltac:(done) eq_refl chord_ok). Defined.

Lemma keys_sound_witness :
  key_down 0 72 chord = true /\ key_down 0 60 chord = false /\ pedal_down 0 chord = false /\
  exists s', play_all (H := full_op) chord synth = Some (tt, s') /\
    forall ch m, 0 <= ch < 16 -> 0 <= m < 128 ->
      (key_down ch m chord = true -> sounds (log s') ch m = true) /\ (pedal_down ch chord = false -> sounds (log s') ch m = key_down ch m chord).
Proof.
  split_and!; [by vm_compute | by vm_compute | by vm_compute |].
  exact (keys_sound (H := full_op) (H0 := full_notes) 16 junk_set synth chord ltac:(done) eq_refl chord_ok chord_simple).
Defined.
