(* ===== verification/Timer.v ===== *)
(** * Timer: the timer core

    alsa/core/timer.c: timers that drivers provide, and the instances that users open on
    them.  A timer counts in ticks; its hardware is told to interrupt after [sticks] of them,
    and the interrupt counts every running instance down and calls back those that reach
    zero.  A slave instance has no timer of its own and is called with its master.

    The list of a timer's instances and the two global lists are lists of addresses; the
    chain of slaves and the queue of instances to call back are followed by their pointers. *)

From S2P Require Export StateMonad.
From S2P Require Import Prelude SeqEvent SeqTimer.
Open Scope Z_scope.
Open Scope state_scope.

(** ** Data *)

(** A flag is its bit number: [IFLG_RUNNING] is 1 << 1. *)
Definition has (flags bit : Z) : bool := Z.testbit flags bit.
Arguments has : simpl never.

Definition HW_AUTO : Z := 0.
Definition HW_STOP : Z := 1.
Definition HW_SLAVE : Z := 2.
Definition HW_FIRST : Z := 3.
Definition IFLG_SLAVE : Z := 0.
Definition IFLG_RUNNING : Z := 1.
Definition IFLG_START : Z := 2.
Definition IFLG_AUTO : Z := 3.
Definition FLG_CHANGE : Z := 1.
Definition FLG_RESCHED : Z := 2.

Definition TIMER_CLASS_CARD : Z := 2.
Definition TIMER_CLASS_PCM : Z := 3.
Definition TIMER_SCLASS_NONE : Z := 0.
Definition TIMER_SCLASS_APPLICATION : Z := 1.
Definition TIMER_SCLASS_OSS_SEQUENCER : Z := 3.

Definition NULL : Z := 0.

(** [struct _snd_timer_hardware]; functions are named by their address. *)
Record hardware := Hardware {
  hw_flags : Z; hw_resolution : Z; hw_ticks : Z;
  hw_open : Z; hw_close : Z; hw_c_resolution : Z; hw_start : Z; hw_stop : Z }.

(** What the timer core uses of [snd_card_t]. *)
Record snd_card := Card { card_number : Z; card_module : Z }.

(** [struct _snd_timer]; [first] and [next] are the list [t_instances]. *)
Record timer := Timer {
  tmr_class : Z; tmr_card : option snd_card; tmr_device : Z; tmr_subdevice : Z;
  t_flags : Z; t_running : Z; sticks : Z; t_private_data : Z; t_private_free : Z;
  t_hw : hardware; t_in_use : Z; t_instances : list Z }.
#[export] Instance settable_timer : Settable timer := fun t => Timer
  (tmr_class t) (tmr_card t) (tmr_device t) (tmr_subdevice t)
  (t_flags t) (t_running t) (sticks t) (t_private_data t) (t_private_free t)
  (t_hw t) (t_in_use t) (t_instances t).

(** [struct _snd_timer_instance] *)
Record instance := Inst {
  i_timer : Z; i_owner : list Z; i_flags : Z; i_private_free : Z; i_callback : Z; i_callback_data : Z;
  i_ticks : Z; cticks : Z; lost : Z; slave_class : Z; slave_id : Z;
  inext : Z; iprev : Z; slave : Z; master : Z }.
#[export] Instance settable_instance : Settable instance := fun i => Inst
  (i_timer i) (i_owner i) (i_flags i) (i_private_free i) (i_callback i) (i_callback_data i)
  (i_ticks i) (cticks i) (lost i) (slave_class i) (slave_id i) (inext i) (iprev i) (slave i) (master i).

Definition zero_instance : instance := Inst 0 [] 0 0 0 0 0 0 0 0 0 0 0 0 0.

Inductive tlock := TimerLock (t : Z) | SlaveLock | RegisterMutex.
#[export] Instance tlock_eq_dec : EqDecision tlock.
Proof. solve_decision. Defined.
#[export] Instance tlock_countable : Countable tlock.
Proof.
  refine (inj_countable' (fun l => match l with TimerLock t => Some (Some t) | SlaveLock => Some None | RegisterMutex => None end)
    (fun x => match x with Some (Some t) => TimerLock t | Some None => SlaveLock | None => RegisterMutex end) _).
  by intros [].
Defined.

(** The timer core's memory, over the state of the drivers and users. *)
Record tworld (C : Type) := TWorld {
  tw_core : C; tw_timers : gmap Z timer; tw_instances : gmap Z instance;
  tw_devices : list Z; tw_slaves : list Z; tw_slave_in_use : Z;
  tw_modules : gmap Z Z; tw_locks : gset tlock }.
Arguments TWorld {C}.
Arguments tw_core {C}. Arguments tw_timers {C}. Arguments tw_instances {C}. Arguments tw_devices {C}.
Arguments tw_slaves {C}. Arguments tw_slave_in_use {C}. Arguments tw_modules {C}. Arguments tw_locks {C}.
#[export] Instance settable_tworld C : Settable (tworld C) := fun w => TWorld
  (tw_core w) (tw_timers w) (tw_instances w) (tw_devices w) (tw_slaves w) (tw_slave_in_use w)
  (tw_modules w) (tw_locks w).

(** The low-level functions of a timer. *)
Inductive hw_call := HwOpen | HwClose | HwStart | HwStop.
Definition hw_function (k : hw_call) : hardware -> Z :=
  match k with HwOpen => hw_open | HwClose => hw_close | HwStart => hw_start | HwStop => hw_stop end.

(** What drivers and users provide.  A low-level function works on its timer and on its
    own state. *)
Class TimerDrivers (C : Type) := {
  low_level : hw_call -> Z -> timer -> C -> timer * C;
  c_resolution : Z -> timer -> C -> Z;
  call_back : Z -> Z -> Z -> Z -> Z -> ST (tworld C) unit;    (* function, instance, resolution, ticks, data *)
  free_private : Z -> Z -> ST (tworld C) unit;
  alloc_instance : tworld C -> Z;
  alloc_timer : tworld C -> Z;
  new_device : Z -> tworld C -> Z }.                          (* [snd_device_new] *)

Section Timer.
Context {C : Type} `{TimerDrivers C}.
Abbreviation W := (ST (tworld C)).

Definition tw_get {A} (f : tworld C -> A) : W A := w <- get;; ret (f w).

Definition timer_at (t : Z) : W timer := m <- tw_get tw_timers;;
  match m !! t with Some x => ret x | None => crash end.
Definition set_timer (t : Z) (f : timer -> timer) : W unit :=
  x <- timer_at t;; update (fun w => w <| tw_timers := <[t := f x]> (tw_timers w) |>).
Definition inst_at (a : Z) : W instance := m <- tw_get tw_instances;;
  match m !! a with Some x => ret x | None => crash end.
Definition set_inst (a : Z) (f : instance -> instance) : W unit :=
  x <- inst_at a;; update (fun w => w <| tw_instances := <[a := f x]> (tw_instances w) |>).
Definition new_inst (a : Z) (i : instance) : W unit :=
  update (fun w => w <| tw_instances := <[a := i]> (tw_instances w) |>).
Definition kfree_inst (a : Z) : W unit :=
  inst_at a;;; update (fun w => w <| tw_instances := delete a (tw_instances w) |>).

Definition set_flag (a bit : Z) : W unit := set_inst a (fun i => i <| i_flags := Z.setbit (i_flags i) bit |>).
Definition clear_flag (a bit : Z) : W unit := set_inst a (fun i => i <| i_flags := Z.clearbit (i_flags i) bit |>).
Definition set_tflag (t bit : Z) : W unit := set_timer t (fun x => x <| t_flags := Z.setbit (t_flags x) bit |>).
Definition clear_tflag (t bit : Z) : W unit := set_timer t (fun x => x <| t_flags := Z.clearbit (t_flags x) bit |>).

Definition lock (l : tlock) : W unit :=
  held <- tw_get tw_locks;;
  if decide (l ∈ held) then crash else update (fun w => w <| tw_locks := {[l]} ∪ tw_locks w |>).
Definition unlock (l : tlock) : W unit := update (fun w => w <| tw_locks := tw_locks w ∖ {[l]} |>).

(** [timer->hw.start(timer)] and the like *)
Definition call_hw (k : hw_call) (t : Z) : W unit :=
  x <- timer_at t;;
  if hw_function k (t_hw x) =? NULL then crash
  else
    w <- get;;
    let r := low_level k t x (tw_core w) in
    update (fun w => w <| tw_timers := <[t := r.1]> (tw_timers w) |> <| tw_core := r.2 |>).
Definition call_hw_if (k : hw_call) (t : Z) : W unit :=
  x <- timer_at t;; when (negb (hw_function k (t_hw x) =? NULL)) (call_hw k t).

Definition try_inc_mod_count (m : Z) : W bool :=
  n <- tw_get (fun w => u32 (default 0 (tw_modules w !! m) + 1));;
  update (fun w => w <| tw_modules := <[m := n]> (tw_modules w) |>);;;
  ret (truth n).
Definition dec_mod_count (m : Z) : W unit :=
  update (fun w => w <| tw_modules := <[m := u32 (default 0 (tw_modules w !! m) - 1)]> (tw_modules w) |>).

(** ** Slaves *)

(** The loop over all slave instances. *)
Fixpoint add_slaves (timeri : Z) (l : list Z) : W unit :=
  match l with
  | [] => ret tt
  | ti :: l =>
      s <- inst_at ti;; m <- inst_at timeri;;
      (if negb (slave_class s =? slave_class m) || negb (slave_id s =? slave_id m) || negb (has (i_flags s) IFLG_RUNNING)
       then ret tt
       else
         set_inst ti (fun s => s <| master := timeri |>);;;
         m <- inst_at timeri;;
         set_inst ti (fun s => s <| slave := slave m |>);;;
         set_inst timeri (fun m => m <| slave := ti |>));;;
      add_slaves timeri l
  end.

Definition snd_timer_add_slaves (timeri : Z) : W unit :=
  if timeri =? NULL then ret tt
  else
    set_inst timeri (fun m => m <| slave := NULL |>);;;
    l <- tw_get tw_slaves;; add_slaves timeri l.

(** ** Scheduling *)

(** A delayed start takes effect. *)
Definition start_delayed (t ti : Z) : W unit :=
  i <- inst_at ti;;
  when (has (i_flags i) IFLG_START)
    (clear_flag ti IFLG_START;;; set_flag ti IFLG_RUNNING;;;
     set_timer t (fun x => x <| t_running := t_running x + 1 |>)).

(** Both loops of [snd_timer_reschedule]; [found] is whether the first has ended. *)
Fixpoint resched_loop (t : Z) (found : bool) (ticks : Z) (l : list Z) : W Z :=
  match l with
  | [] => ret ticks
  | ti :: l =>
      start_delayed t ti;;;
      i <- inst_at ti;;
      if has (i_flags i) IFLG_RUNNING then
        resched_loop t true (if found then (if cticks i <? ticks then cticks i else ticks) else cticks i) l
      else resched_loop t found ticks l
  end.

Definition snd_timer_reschedule (t ticks_left : Z) : W unit :=
  x <- timer_at t;;
  if bool_decide (t_instances x = []) then clear_tflag t FLG_RESCHED
  else
    ticks <- resched_loop t false ULONG_MAX (t_instances x);;
    if ticks =? ULONG_MAX then clear_tflag t FLG_RESCHED
    else
      let ticks := if hw_ticks (t_hw x) <? ticks then hw_ticks (t_hw x) else ticks in
      when (negb (ticks_left =? ticks)) (set_tflag t FLG_CHANGE);;;
      set_timer t (fun x => x <| sticks := ticks |>).

(** ** Starting and stopping *)

Definition snd_timer_start (timeri ticks : Z) : W Z :=
  if (timeri =? NULL) || (ticks <? 1) then ret (-EINVAL)
  else
    i <- inst_at timeri;;
    if negb (has (i_flags i) IFLG_SLAVE) then
      let t := i_timer i in
      if t =? NULL then ret (-EINVAL)
      else
        lock (TimerLock t);;;
        set_inst timeri (fun i => i <| cticks := ticks |> <| i_ticks := ticks |>);;;
        x <- timer_at t;;
        result <-
          (if negb (t_running x =? 0) then
             set_tflag t FLG_RESCHED;;; set_flag timeri IFLG_START;;; ret 1
           else
             set_timer t (fun x => x <| sticks := ticks |>);;;
             call_hw HwStart t;;;
             set_timer t (fun x => x <| t_running := t_running x + 1 |>);;;
             set_flag timeri IFLG_RUNNING;;; ret 0);;
        lock SlaveLock;;; snd_timer_add_slaves timeri;;; unlock SlaveLock;;;
        unlock (TimerLock t);;;
        ret result
    else
      lock SlaveLock;;;
      set_flag timeri IFLG_RUNNING;;;
      snd_timer_add_slaves timeri;;;
      unlock SlaveLock;;;
      ret 1.

Definition snd_timer_stop (timeri : Z) : W Z :=
  if timeri =? NULL then ret (-ENXIO)
  else
    i <- inst_at timeri;;
    if negb (has (i_flags i) IFLG_SLAVE) then
      let t := i_timer i in
      if t =? NULL then ret (-EINVAL)
      else
        lock (TimerLock t);;;
        when (has (i_flags i) IFLG_RUNNING)
          (clear_flag timeri IFLG_RUNNING;;;
           set_timer t (fun x => x <| t_running := t_running x - 1 |>);;;
           x <- timer_at t;;
           when (t_running x =? 0)
             (call_hw HwStop t;;;
              x <- timer_at t;;
              when (has (t_flags x) FLG_RESCHED)
                (clear_tflag t FLG_RESCHED;;;
                 snd_timer_reschedule t 0;;;
                 x <- timer_at t;;
                 when (has (t_flags x) FLG_CHANGE) (clear_tflag t FLG_CHANGE;;; call_hw HwStart t))));;;
        unlock (TimerLock t);;;
        ret 0
    else
      lock SlaveLock;;;
      clear_flag timeri IFLG_RUNNING;;;
      snd_timer_add_slaves timeri;;;
      unlock SlaveLock;;;
      ret 0.

Definition snd_timer_continue (timeri : Z) : W Z :=
  if timeri =? NULL then ret (-EINVAL)
  else
    i <- inst_at timeri;;
    if has (i_flags i) IFLG_SLAVE then snd_timer_start timeri 1
    else
      let t := i_timer i in
      if t =? NULL then ret (-EINVAL)
      else
        lock (TimerLock t);;;
        result <-
          (if negb (has (i_flags i) IFLG_RUNNING) then
             when (cticks i =? 0) (set_inst timeri (fun i => i <| cticks := 1 |>));;;
             x <- timer_at t;;
             result <-
               (if t_running x =? 0 then
                  call_hw HwStart t;;;
                  set_timer t (fun x => x <| t_running := t_running x + 1 |>);;;
                  set_flag timeri IFLG_RUNNING;;; ret 0
                else
                  set_tflag t FLG_RESCHED;;; set_flag timeri IFLG_START;;; ret 1);;
             lock SlaveLock;;; snd_timer_add_slaves timeri;;; unlock SlaveLock;;;
             ret result
           else ret (-EINVAL));;
        unlock (TimerLock t);;;
        ret result.

(** ** The interrupt *)

(** Puts [ti] at the end of the queue that starts at [ts]; [tc] is its last member.  The
    results are whether [ti] was in no queue before, and the new [tc]. *)
Definition snd_timer_insert (ts tc ti : Z) : W (bool * Z) :=
  i <- inst_at ti;;
  fresh <-
    (if negb (iprev i =? NULL) then
       set_inst (iprev i) (fun p => p <| inext := inext i |>);;;
       when (negb (inext i =? NULL)) (set_inst (inext i) (fun n => n <| iprev := iprev i |>));;;
       set_inst ti (fun i => i <| lost := u32 (lost i + 1) |>);;;
       ret false
     else ret true);;
  s <- inst_at ts;;
  (if inext s =? NULL then
     set_inst ts (fun s => s <| inext := ti |>);;; set_inst ti (fun i => i <| iprev := ts |>)
   else
     set_inst tc (fun c => c <| inext := ti |>);;; set_inst ti (fun i => i <| iprev := tc |>));;;
  set_inst ti (fun i => i <| inext := NULL |>);;;
  ret (fresh, ti).

(** The slaves of [ti]. *)
Fixpoint insert_slaves (fuel : nat) (ts tc ti tm : Z) : W Z :=
  match fuel with
  | O => crash
  | S fuel =>
      if tm =? NULL then ret tc
      else
        i <- inst_at ti;;
        set_inst tm (fun s => s <| i_ticks := i_ticks i |>);;;
        r <- snd_timer_insert ts tc tm;;
        when r.1 (update (fun w => w <| tw_slave_in_use := tw_slave_in_use w + 1 |>));;;
        s <- inst_at tm;;
        insert_slaves fuel ts r.2 ti (slave s)
  end.

(** One instance of the first loop of [snd_timer_interrupt]. *)
Definition elapse (t ts tc ticks_left ti : Z) : W Z :=
  i <- inst_at ti;;
  if negb (has (i_flags i) IFLG_RUNNING) then ret tc
  else
    set_inst ti (fun i => i <| cticks := if cticks i <? ticks_left then 0 else cticks i - ticks_left |>);;;
    i <- inst_at ti;;
    if negb (cticks i =? 0) then ret tc
    else
      (if has (i_flags i) IFLG_AUTO then set_inst ti (fun i => i <| cticks := i_ticks i |>)
       else
         clear_flag ti IFLG_RUNNING;;;
         set_timer t (fun x => x <| t_running := t_running x - 1 |>));;;
      r <- snd_timer_insert ts tc ti;;
      when r.1 (set_timer t (fun x => x <| t_in_use := t_in_use x + 1 |>));;;
      lock SlaveLock;;;
      i <- inst_at ti;;
      m <- tw_get tw_instances;;
      tc <- insert_slaves (S (size m)) ts r.2 ti (slave i);;
      unlock SlaveLock;;;
      ret tc.

Fixpoint elapse_loop (t ts tc ticks_left : Z) (l : list Z) : W Z :=
  match l with
  | [] => ret tc
  | ti :: l => tc <- elapse t ts tc ticks_left ti;; elapse_loop t ts tc ticks_left l
  end.

Definition rearm (t : Z) : W unit :=
  x <- timer_at t;;
  if negb (t_running x =? 0) then
    when (has (hw_flags (t_hw x)) HW_STOP) (call_hw HwStop t;;; set_tflag t FLG_CHANGE);;;
    x <- timer_at t;;
    when (negb (has (hw_flags (t_hw x)) HW_AUTO) || has (t_flags x) FLG_CHANGE)
      (clear_tflag t FLG_CHANGE;;; call_hw HwStart t)
  else call_hw HwStop t.

(** Takes the first instance out of the queue. *)
Definition pop (ts : Z) : W Z :=
  s <- inst_at ts;;
  let ti := inext s in
  i <- inst_at ti;;
  set_inst ts (fun s => s <| inext := inext i |>);;;
  when (negb (inext i =? NULL)) (set_inst (inext i) (fun n => n <| iprev := ts |>));;;
  set_inst ti (fun i => i <| inext := NULL |> <| iprev := NULL |>);;;
  ret ti.

(** The second loop; the lock is released for the callback. *)
Fixpoint call_loop (fuel : nat) (t ts resolution : Z) : W unit :=
  match fuel with
  | O => crash
  | S fuel =>
      s <- inst_at ts;;
      if inext s =? NULL then ret tt
      else
        ti <- pop ts;;
        i <- inst_at ti;;
        let ticks := i_ticks i in
        unlock (TimerLock t);;;
        i <- inst_at ti;;
        when (negb (i_callback i =? NULL)) (call_back (i_callback i) ti resolution ticks (i_callback_data i));;;
        lock (TimerLock t);;;
        i <- inst_at ti;;
        (if negb (has (i_flags i) IFLG_SLAVE) then set_timer t (fun x => x <| t_in_use := t_in_use x - 1 |>)
         else update (fun w => w <| tw_slave_in_use := tw_slave_in_use w - 1 |>));;;
        call_loop fuel t ts resolution
  end.

Definition resolution_of (t : Z) : W Z :=
  x <- timer_at t;;
  w <- get;;
  ret (if hw_c_resolution (t_hw x) =? NULL then hw_resolution (t_hw x)
       else c_resolution t x (tw_core w)).

(** [ts] is the address of the local variable of that name. *)
Definition snd_timer_interrupt (ts t ticks_left : Z) : W unit :=
  if t =? NULL then ret tt
  else
    new_inst ts zero_instance;;;
    lock (TimerLock t);;;
    x <- timer_at t;;
    elapse_loop t ts NULL ticks_left (t_instances x);;;
    x <- timer_at t;;
    when (has (t_flags x) FLG_RESCHED) (snd_timer_reschedule t ticks_left);;;
    rearm t;;;
    resolution <- resolution_of t;;
    m <- tw_get tw_instances;;
    call_loop (S (size m)) t ts resolution;;;
    unlock (TimerLock t);;;
    kfree_inst ts.

(** ** Opening and closing *)

Definition __snd_timer_open (owner : list Z) (t : Z) : W Z :=
  if t =? NULL then ret NULL
  else
    w <- get;;
    let ti := alloc_instance w in
    if ti =? NULL then ret NULL
    else
      x <- timer_at t;;
      ok <- match tmr_card x with Some c => try_inc_mod_count (card_module c) | None => ret true end;;
      if negb ok then ret NULL
      else
        new_inst ti (zero_instance <| i_timer := t |> <| i_owner := owner |>);;;
        lock (TimerLock t);;;
        x <- timer_at t;;
        when (bool_decide (t_instances x = [])) (call_hw_if HwOpen t);;;
        set_timer t (fun x => x <| t_instances := ti :: t_instances x |>);;;
        unlock (TimerLock t);;;
        ret ti.

(** The test of one timer. *)
Definition timer_matches (tid : snd_timer_id) (x : timer) : bool :=
  (tmr_class x =? dev_class tid) &&
  (negb ((tmr_class x =? TIMER_CLASS_CARD) || (tmr_class x =? TIMER_CLASS_PCM)) ||
   match tmr_card x with Some c => card_number c =? card tid | None => false end) &&
  (tmr_device x =? device tid) && (tmr_subdevice x =? subdevice tid).

Fixpoint find_timer (tid : snd_timer_id) (l : list Z) : W Z :=
  match l with
  | [] => ret NULL
  | t :: l => x <- timer_at t;; if timer_matches tid x then ret t else find_timer tid l
  end.

Definition snd_timer_find (tid : snd_timer_id) : W Z := l <- tw_get tw_devices;; find_timer tid l.

Definition snd_timer_open_slave (owner : list Z) (tid : snd_timer_id) : W Z :=
  if (dev_sclass tid <=? TIMER_SCLASS_NONE) || (TIMER_SCLASS_OSS_SEQUENCER <? dev_sclass tid) then ret NULL
  else
    w <- get;;
    let ti := alloc_instance w in
    if ti =? NULL then ret NULL
    else
      new_inst ti (zero_instance <| i_owner := owner |> <| slave_class := dev_sclass tid |>
                     <| slave_id := u32 (device tid) |>);;;
      lock SlaveLock;;;
      set_flag ti IFLG_SLAVE;;;
      update (fun w => w <| tw_slaves := ti :: tw_slaves w |>);;;
      unlock SlaveLock;;;
      ret ti.

Definition snd_timer_open (owner : list Z) (tid : snd_timer_id) : W Z :=
  if dev_class tid =? TIMER_CLASS_SLAVE then snd_timer_open_slave owner tid
  else
    lock RegisterMutex;;;
    t <- snd_timer_find tid;;
    timeri <- (if t =? NULL then ret NULL else __snd_timer_open owner t);;
    unlock RegisterMutex;;;
    ret timeri.

(** A list without the first occurrence of an address, if it has one. *)
Fixpoint unlink (a : Z) (l : list Z) : option (list Z) :=
  match l with
  | [] => None
  | b :: l => if b =? a then Some l else option_map (cons b) (unlink a l)
  end.

(** [snd_timer_close] after the instance is out of its list. *)
Definition close_end (timeri : Z) (card : option snd_card) : W Z :=
  i <- inst_at timeri;;
  when (negb (i_private_free i =? NULL)) (free_private (i_private_free i) timeri);;;
  kfree_inst timeri;;;
  match card with Some c => dec_mod_count (card_module c) | None => ret tt end;;;
  ret 0.

(** A callback that is still to be made is waited for; with one processor it is further up
    the stack, and the wait does not end. *)
Definition snd_timer_close (timeri : Z) : W Z :=
  if timeri =? NULL then ret (-ENXIO)
  else
    snd_timer_stop timeri;;;
    i <- inst_at timeri;;
    if negb (has (i_flags i) IFLG_SLAVE) then
      let t := i_timer i in
      if t =? NULL then ret (-EINVAL)
      else
        lock (TimerLock t);;;
        x <- timer_at t;;
        if negb (t_in_use x =? 0) then crash
        else
          match unlink timeri (t_instances x) with
          | None => unlock (TimerLock t);;; ret (-ENXIO)
          | Some l =>
              set_timer t (fun x => x <| t_instances := l |>);;;
              when (bool_decide (l = [])) (call_hw_if HwClose t);;;
              unlock (TimerLock t);;;
              close_end timeri (tmr_card x)
          end
    else
      lock SlaveLock;;;
      n <- tw_get tw_slave_in_use;;
      if negb (n =? 0) then crash
      else
        l <- tw_get tw_slaves;;
        match unlink timeri l with
        | None => unlock SlaveLock;;; ret (-ENXIO)
        | Some l =>
            update (fun w => w <| tw_slaves := l |>);;;
            snd_timer_add_slaves (master i);;;
            unlock SlaveLock;;;
            close_end timeri None
        end.

Definition snd_timer_resolution (timeri : Z) : W Z :=
  if timeri =? NULL then ret 0
  else i <- inst_at timeri;; if i_timer i =? NULL then ret 0 else resolution_of (i_timer i).

(** ** Devices *)

Definition snd_timer_free (t : Z) : W Z :=
  if t =? NULL then ret (-ENXIO)
  else
    x <- timer_at t;;
    when (negb (t_private_free x =? NULL)) (free_private (t_private_free x) t);;;
    update (fun w => w <| tw_timers := delete t (tw_timers w) |>);;;
    ret 0.

Definition no_hardware : hardware := Hardware 0 0 0 0 0 0 0 0.

(** The error, and the timer. *)
Definition snd_timer_new (crd : option snd_card) (tid : snd_timer_id) : W (Z * Z) :=
  w <- get;;
  let t := alloc_timer w in
  if t =? NULL then ret (-ENOMEM, NULL)
  else
    update (fun w => w <| tw_timers := <[t := Timer (dev_class tid) crd (device tid) (subdevice tid)
                                              0 0 0 0 0 no_hardware 0 []]> (tw_timers w) |>);;;
    w <- get;;
    let err := match crd with Some _ => new_device t w | None => 0 end in
    if err <? 0 then snd_timer_free t;;; ret (err, NULL) else ret (0, t).

(** Where a timer goes: [None] if its place is taken.  [lt] and [gt] tell of each key in turn;
    the cards are compared if both timers have one. *)
Definition timer_before (x y : timer) : option comparison :=
  if tmr_class y <? tmr_class x then Some Gt
  else if tmr_class x <? tmr_class y then Some Lt
  else
    match (match tmr_card x, tmr_card y with
           | Some c, Some d => if card_number d <? card_number c then Some Gt
                               else if card_number c <? card_number d then Some Lt else None
           | _, _ => None
           end) with
    | Some r => Some r
    | None =>
        if tmr_device y <? tmr_device x then Some Gt
        else if tmr_device x <? tmr_device y then Some Lt
        else if tmr_subdevice y <? tmr_subdevice x then Some Gt
        else if tmr_subdevice x <? tmr_subdevice y then Some Lt
        else None
    end.

Fixpoint place_timer (t : Z) (y : timer) (before l : list Z) : W (option (list Z)) :=
  match l with
  | [] => ret (Some (before ++ [t]))
  | t1 :: l' =>
      x <- timer_at t1;;
      match timer_before x y with
      | Some Gt => ret (Some (before ++ t :: l))
      | None => ret None
      | _ => place_timer t y (before ++ [t1]) l'
      end
  end.

Definition snd_timer_dev_register (t : Z) : W Z :=
  if t =? NULL then ret (-ENXIO)
  else
    x <- timer_at t;;
    if (hw_start (t_hw x) =? NULL) || (hw_stop (t_hw x) =? NULL) then ret (-ENXIO)
    else if negb (has (hw_flags (t_hw x)) HW_SLAVE) && (hw_resolution (t_hw x) =? 0) && (hw_c_resolution (t_hw x) =? NULL)
    then ret (-EINVAL)
    else
      lock RegisterMutex;;;
      l <- tw_get tw_devices;;
      r <- place_timer t x [] l;;
      match r with
      | None => unlock RegisterMutex;;; ret (-EBUSY)
      | Some l =>
          update (fun w => w <| tw_devices := l |>);;;
          unlock RegisterMutex;;;
          ret 0
      end.

Definition snd_timer_unregister (t : Z) : W Z :=
  if t =? NULL then ret (-ENXIO)
  else
    x <- timer_at t;;
    if negb (bool_decide (t_instances x = [])) then ret (-EBUSY)
    else
      lock RegisterMutex;;;
      l <- tw_get tw_devices;;
      match unlink t l with
      | None => unlock RegisterMutex;;; ret (-ENXIO)
      | Some l =>
          update (fun w => w <| tw_devices := l |>);;;
          unlock RegisterMutex;;;
          snd_timer_free t
      end.

(** Timers that belong to no card. *)
Definition global_id (device : Z) : snd_timer_id := TimerId TIMER_CLASS_GLOBAL TIMER_SCLASS_NONE (-1) device 0.
Definition snd_timer_global_new (device : Z) : W (Z * Z) := snd_timer_new None (global_id device).
Definition snd_timer_global_free (t : Z) : W Z := snd_timer_free t.
Definition snd_timer_global_register (t : Z) : W Z := snd_timer_dev_register t.
Definition snd_timer_global_unregister (t : Z) : W Z := snd_timer_unregister t.
End Timer.
