(* ===== verification/TimerRules.v ===== *)
(** * TimerRules: rules of the timer core's operations

    While one timer is worked on, only that timer, the instances, the drivers' state and
    the locks change.  [at_work] is the world in those four parts, and each primitive
    operation has a rule on it.  The callbacks of the drivers are a class of laws. *)

From S2P Require Import Prelude Timer.
Open Scope Z_scope.
Open Scope state_scope.

(** A low-level function may set the ticks that are scheduled and its private data, and
    starts or stops its hardware.  A callback that leaves the timer core alone has an effect
    on its own state only. *)
Class QuietTimers (C : Type) `{TimerDrivers C} := {
  hw_on : Z -> C -> bool;
  calls : C -> list (Z * Z * Z);             (* those made so far: instance, resolution, ticks *)
  callback_effect : Z -> Z -> Z -> Z -> Z -> C -> C;
  low_level_keeps k t x c : exists s p, (low_level k t x c).1 = x <| sticks := s |> <| t_private_data := p |>;
  low_level_on k t x c t' : hw_on t' (low_level k t x c).2 =
    if t' =? t then match k with HwStart => true | HwStop => false | _ => hw_on t' c end else hw_on t' c;
  call_back_quiet f ti r n d w :
    call_back f ti r n d w = Some (tt, w <| tw_core := callback_effect f ti r n d (tw_core w) |>);
  callback_on f ti r n d c t : hw_on t (callback_effect f ti r n d c) = hw_on t c;
  low_level_calls k t x c : calls (low_level k t x c).2 = calls c;
  callback_calls f ti r n d c : calls (callback_effect f ti r n d c) = calls c ++ [(ti, r, n)];
  free_private_quiet f a w : free_private f a w = Some (tt, w);
  alloc_instance_fresh w : tw_instances w !! alloc_instance w = None }.

Section Rules.
Context {C : Type} `{TimerDrivers C}.
Context (w0 : tworld C) (t : Z).

Definition at_work (x : timer) (M : gmap Z instance) (c : C) (L : gset tlock) : tworld C :=
  w0 <| tw_timers := <[t := x]> (tw_timers w0) |> <| tw_instances := M |> <| tw_core := c |> <| tw_locks := L |>.

Lemma at_work_start x : tw_timers w0 !! t = Some x -> w0 = at_work x (tw_instances w0) (tw_core w0) (tw_locks w0).
Proof. intros E. unfold at_work. destruct w0. cbn in *. by rewrite insert_id. Qed.

Implicit Types (x : timer) (M : gmap Z instance) (c : C) (L : gset tlock).

Lemma wp_tw_get {A} (f : tworld C -> A) (Q : A -> tworld C -> Prop) w : Q (f w) w -> wp (tw_get f) Q w.
Proof. done. Qed.

Lemma wp_timer_at x M c L Q : Q x (at_work x M c L) -> wp (timer_at t) Q (at_work x M c L).
Proof.
  intros HQ. unfold timer_at. apply wp_bind, wp_tw_get. unfold at_work at 1. cbn.
  rewrite lookup_insert_eq. by apply wp_ret.
Qed.

Lemma wp_set_timer f x M c L Q : Q tt (at_work (f x) M c L) -> wp (set_timer t f) Q (at_work x M c L).
Proof.
  intros HQ. unfold set_timer. apply wp_bind, wp_timer_at. unfold wp, update, at_work in *. cbn in *.
  by rewrite insert_insert_eq.
Qed.

Lemma wp_inst_at a i x M c L Q : M !! a = Some i -> Q i (at_work x M c L) -> wp (inst_at a) Q (at_work x M c L).
Proof. intros E HQ. unfold inst_at. apply wp_bind, wp_tw_get. cbn. rewrite E. by apply wp_ret. Qed.

Lemma wp_set_inst a f i x M c L Q :
  M !! a = Some i -> Q tt (at_work x (<[a := f i]> M) c L) -> wp (set_inst a f) Q (at_work x M c L).
Proof. intros E HQ. unfold set_inst. apply wp_bind. eapply wp_inst_at; done. Qed.

Lemma wp_new_inst a i x M c L Q : Q tt (at_work x (<[a := i]> M) c L) -> wp (new_inst a i) Q (at_work x M c L).
Proof. done. Qed.

Lemma wp_kfree_inst a i x M c L Q :
  M !! a = Some i -> Q tt (at_work x (delete a M) c L) -> wp (kfree_inst a) Q (at_work x M c L).
Proof. intros E HQ. unfold kfree_inst. apply wp_bind. eapply wp_inst_at; done. Qed.

Lemma wp_timer_lock l x M c L Q : l ∉ L -> Q tt (at_work x M c ({[l]} ∪ L)) -> wp (lock l) Q (at_work x M c L).
Proof. intros E HQ. unfold lock. apply wp_bind, wp_tw_get. cbn. by rewrite decide_False by done. Qed.

Lemma wp_timer_unlock l x M c L Q : l ∉ L -> Q tt (at_work x M c L) -> wp (unlock l) Q (at_work x M c ({[l]} ∪ L)).
Proof.
  intros E HQ. unfold wp, unlock, update, at_work in *. cbn in *.
  by replace (({[l]} ∪ L) ∖ {[l]}) with L by set_solver.
Qed.

Lemma wp_call_hw k x M c L Q :
  hw_function k (t_hw x) <> NULL ->
  Q tt (at_work (low_level k t x c).1 M (low_level k t x c).2 L) -> wp (call_hw k t) Q (at_work x M c L).
Proof.
  intros E%Z.eqb_neq HQ. unfold call_hw. apply wp_bind, wp_timer_at. rewrite E. unfold wp, bind, get, update, at_work in *.
  cbn in *. by rewrite insert_insert_eq.
Qed.

Lemma wp_call_hw_if k x M c L Q :
  (hw_function k (t_hw x) = NULL -> Q tt (at_work x M c L)) ->
  (hw_function k (t_hw x) <> NULL -> Q tt (at_work (low_level k t x c).1 M (low_level k t x c).2 L)) ->
  wp (call_hw_if k t) Q (at_work x M c L).
Proof.
  intros H0 H1. unfold call_hw_if. apply wp_bind, wp_timer_at.
  destruct (Z.eqb_spec (hw_function k (t_hw x)) NULL) as [E | E]; [by apply wp_ret, H0 | by apply wp_call_hw; auto].
Qed.

Lemma wp_call_back `{!QuietTimers C} f ti r n d x M c L Q :
  Q tt (at_work x M (callback_effect f ti r n d c) L) -> wp (call_back f ti r n d) Q (at_work x M c L).
Proof. intros HQ. unfold wp. by rewrite call_back_quiet. Qed.
End Rules.

Lemma wp_when {S} (b : bool) (m : ST S unit) Q w : (b = true -> wp m Q w) -> (b = false -> Q tt w) -> wp (when b m) Q w.
Proof. destruct b; cbn; auto using wp_ret. Qed.

#[export] Hint Rewrite Z.setbit_eqb Z.clearbit_eqb using (unfold IFLG_SLAVE, IFLG_RUNNING, IFLG_START, IFLG_AUTO, FLG_CHANGE, FLG_RESCHED; lia) : flags.

(** Flags that are set and cleared. *)
Lemma has_set f b b' : 0 <= b -> has (Z.setbit f b) b' = (b =? b') || has f b'.
Proof. intros. unfold has. apply Z.setbit_eqb. done. Qed.

Lemma has_clear f b b' : 0 <= b -> has (Z.clearbit f b) b' = has f b' && negb (b =? b').
Proof. intros. unfold has. apply Z.clearbit_eqb. Qed.

(** ** Instances of a list *)

(** The instances with those of [l] changed by [f]. *)
Definition over (l : list Z) (f : instance -> instance) (M : gmap Z instance) : gmap Z instance :=
  map_imap (fun a i => Some (if decide (a ∈ l) then f i else i)) M.

Lemma lookup_over l f M a : over l f M !! a = if decide (a ∈ l) then f <$> M !! a else M !! a.
Proof. unfold over. rewrite map_lookup_imap. destruct (M !! a); cbn; by case_decide. Qed.

Lemma over_nil f M : over [] f M = M.
Proof. apply map_eq. intros a. rewrite lookup_over. by rewrite decide_False by set_solver. Qed.

Lemma over_snoc l f M a i : a ∉ l -> M !! a = Some i -> over (l ++ [a]) f M = <[a := f i]> (over l f M).
Proof.
  intros Ha Hi. apply map_eq. intros b. rewrite lookup_over. destruct (decide (b = a)) as [-> | N].
  - rewrite lookup_insert_eq, Hi. by rewrite decide_True by set_solver.
  - rewrite lookup_insert_ne, lookup_over by done. destruct (decide (b ∈ l)).
    + by rewrite decide_True by set_solver.
    + by rewrite decide_False by set_solver.
Qed.

Lemma over_over l f g M : over l f (over l g M) = over l (fun i => f (g i)) M.
Proof. apply map_eq. intros a. rewrite !lookup_over. case_decide; [| done]. by destruct (M !! a). Qed.

Lemma over_id l f M : (forall a i, a ∈ l -> M !! a = Some i -> f i = i) -> over l f M = M.
Proof.
  intros Hf. apply map_eq. intros a. rewrite lookup_over. case_decide as Ha; [| done].
  destruct (M !! a) eqn:E; cbn; [| done]. f_equal. by eapply Hf.
Qed.

Lemma over_ext l f g M : (forall a i, a ∈ l -> M !! a = Some i -> f i = g i) -> over l f M = over l g M.
Proof.
  intros Hf. apply map_eq. intros a. rewrite !lookup_over. case_decide as Ha; [| done].
  destruct (M !! a) eqn:E; cbn; [| done]. f_equal. by eapply Hf.
Qed.

(** How many instances of a list have a property. *)
Fixpoint how_many (P : instance -> bool) (M : gmap Z instance) (l : list Z) : Z :=
  match l with
  | [] => 0
  | a :: l => match M !! a with Some i => b2z (P i) | None => 0 end + how_many P M l
  end.

Lemma how_many_ext P P' M M' l :
  (forall a, a ∈ l -> P <$> M !! a = P' <$> M' !! a) -> how_many P M l = how_many P' M' l.
Proof.
  intros E. induction l as [| a l IH]; [done |]. cbn.
  rewrite IH by (intros; apply E; by right). assert (Ha := E a ltac:(left)).
  destruct (M !! a), (M' !! a); cbn in Ha; congruence.
Qed.

Lemma how_many_app P M l k : how_many P M (l ++ k) = how_many P M l + how_many P M k.
Proof. induction l; cbn; lia. Qed.

Lemma how_many_nonneg P M l : 0 <= how_many P M l.
Proof. induction l as [| a l IH]; cbn; [lia |]. destruct (M !! a) as [i |]; [pose proof (b2z_range (P i)) |]; lia. Qed.

Lemma how_many_pos P M l a i : a ∈ l -> M !! a = Some i -> P i = true -> 0 < how_many P M l.
Proof.
  intros Ha E HP. induction l as [| b l IH]; [by apply not_elem_of_nil in Ha |]. cbn.
  pose proof (how_many_nonneg P M l). apply elem_of_cons in Ha as [<- | Ha].
  - rewrite E, HP. cbn. lia.
  - specialize (IH Ha). destruct (M !! b) as [j |]; [pose proof (b2z_range (P j)) |]; lia.
Qed.

Lemma how_many_zero P M l a i : how_many P M l = 0 -> a ∈ l -> M !! a = Some i -> P i = false.
Proof. intros E Ha Hi. destruct (P i) eqn:HP; [| done]. pose proof (how_many_pos P M l a i Ha Hi HP). lia. Qed.

Lemma how_many_some P M l : how_many P M l <> 0 -> exists a i, a ∈ l /\ M !! a = Some i /\ P i = true.
Proof.
  induction l as [| b l IH]; [done |]. cbn [how_many]. intros N.
  destruct (M !! b) as [k |] eqn:Hk; [destruct (P k) eqn:Hr |].
  - exists b, k. split; [by left | done].
  - cbn [b2z] in N. destruct IH as (a & i & Ha & Hi); [lia |]. exists a, i. split; [by right | done].
  - destruct IH as (a & i & Ha & Hi); [lia |]. exists a, i. split; [by right | done].
Qed.
