(* ===== verification/TimerSpec.v ===== *)
(** * TimerSpec: what an interrupt of a timer does

    Every running instance is counted down; those that come to zero are called back, once
    each and in the order of the list, and start again or stop; delayed starts take effect;
    the hardware runs afterwards exactly if an instance does. *)

From S2P Require Import Prelude Timer TimerRules.
Open Scope Z_scope.
Open Scope state_scope.

(** ** The functions on instances *)

Definition is_running (i : instance) : bool := has (i_flags i) IFLG_RUNNING.
Definition fires (n : Z) (i : instance) : bool := is_running i && (cticks i <=? n).

(** What [n] ticks do to an instance. *)
Definition elapsed (n : Z) (i : instance) : instance :=
  if negb (is_running i) then i
  else if n <? cticks i then i <| cticks := cticks i - n |>
  else if has (i_flags i) IFLG_AUTO then i <| cticks := i_ticks i |>
  else i <| cticks := 0 |> <| i_flags := Z.clearbit (i_flags i) IFLG_RUNNING |>.

Definition admitted (i : instance) : instance :=
  if has (i_flags i) IFLG_START then i <| i_flags := Z.setbit (Z.clearbit (i_flags i) IFLG_START) IFLG_RUNNING |> else i.

Fixpoint due (n : Z) (M : gmap Z instance) (l : list Z) : list Z :=
  match l with
  | [] => []
  | a :: l => match M !! a with Some i => if fires n i then [a] else [] | None => [] end ++ due n M l
  end.

Lemma elem_of_due n M l a : a ∈ due n M l <-> a ∈ l /\ exists i, M !! a = Some i /\ fires n i = true.
Proof.
  induction l as [| b l IH]; cbn; [set_solver |]. rewrite elem_of_app, IH, elem_of_cons.
  destruct (M !! b) as [i |] eqn:E; [destruct (fires n i) eqn:F |].
  - rewrite list_elem_of_singleton. split; [intros [-> | ?]; [| tauto] | intros [[-> | ?] ?]; tauto]. split; [by left | eauto].
  - split; [set_solver |]. intros [[-> | ?] (j & Hj & Fj)]; [congruence |]. right; eauto.
  - split; [set_solver |]. intros [[-> | ?] (j & Hj & Fj)]; [congruence |]. right; eauto.
Qed.

Lemma timer_due_ext n M M' l : (forall a, a ∈ l -> M !! a = M' !! a) -> due n M l = due n M' l.
Proof. intros E. induction l as [| a l IH]; cbn; [done |]. rewrite E by left. f_equal. apply IH. intros; apply E; by right. Qed.

Lemma due_nodup n M l : NoDup l -> NoDup (due n M l).
Proof.
  induction 1 as [| a l Ha Hl IH]; cbn; [constructor |].
  destruct (M !! a) as [i |]; [destruct (fires n i) |]; cbn; try done.
  constructor; [| done]. rewrite elem_of_due. tauto.
Qed.

(** ** The queue of instances to call *)

Definition head (l : list Z) : Z := match l with [] => NULL | a :: _ => a end.

Definition linked (i : instance) (n p : Z) : instance := i <| inext := n |> <| iprev := p |>.

(** The members of [l] after [p] are linked in [M], and otherwise as in [M1]. *)
Fixpoint seg (p : Z) (l : list Z) (M M1 : gmap Z instance) : Prop :=
  match l with
  | [] => True
  | a :: l => (exists i, M1 !! a = Some i /\ M !! a = Some (linked i (head l) p)) /\ seg a l M M1
  end.

(** [M] is [M1], in which nothing is queued, with the queue [l] that starts at [ts]. *)
Record queued (ts : Z) (l : list Z) (M M1 : gmap Z instance) : Prop := {
  qd_nodup : NoDup (ts :: l);
  qd_null : NULL ∉ ts :: l;
  qd_ts : M !! ts = Some (zero_instance <| inext := head l |>);
  qd_fresh : M1 !! ts = None;
  qd_seg : seg ts l M M1;
  qd_rest : forall a, a ∉ ts :: l -> M !! a = M1 !! a;
  qd_alone : forall a i, a ∈ l -> M1 !! a = Some i -> inext i = NULL /\ iprev i = NULL }.

Lemma linked_linked i n p n' p' : linked (linked i n p) n' p' = linked i n' p'.
Proof. by destruct i. Qed.

Lemma seg_ext p l M M' M1 M1' :
  (forall a, a ∈ l -> M !! a = M' !! a) -> (forall a, a ∈ l -> M1 !! a = M1' !! a) -> seg p l M M1 -> seg p l M' M1'.
Proof.
  revert p. induction l as [| a l IH]; cbn; [done |]. intros p E E1 [(i & Hi & Hm) Hs]. split.
  - exists i. rewrite <- E, <- E1 by left. done.
  - apply IH; [| | done]; intros; [apply E | apply E1]; by right.
Qed.

Lemma queued_nil ts M1 : ts <> NULL -> M1 !! ts = None -> queued ts [] (<[ts := zero_instance]> M1) M1.
Proof.
  intros N F. split; try done; [apply NoDup_singleton | set_solver | by rewrite lookup_insert_eq | | set_solver].
  intros a Ha. by rewrite lookup_insert_ne by set_solver.
Qed.

Lemma queued_end ts M M1 : queued ts [] M M1 -> delete ts M = M1.
Proof.
  intros Q. apply map_eq. intros a. destruct (decide (a = ts)) as [-> | N].
  - rewrite lookup_delete_eq. symmetry. apply Q.
  - rewrite lookup_delete_ne by done. apply Q. set_solver.
Qed.

(** An instance that is not queued is changed in both. *)
Lemma timer_queued_set ts l M M1 a j :
  a ∉ ts :: l -> queued ts l M M1 -> queued ts l (<[a := j]> M) (<[a := j]> M1).
Proof.
  intros Ha [Hn H0 Ht Hf Hs Hr Hl]. apply not_elem_of_cons in Ha as [Hat Hal]. split; try done.
  - by rewrite lookup_insert_ne by done.
  - by rewrite lookup_insert_ne by done.
  - eapply seg_ext, Hs; intros b Hb; by rewrite lookup_insert_ne by set_solver.
  - intros b Hb. destruct (decide (b = a)) as [-> | N]; [by rewrite !lookup_insert_eq |].
    rewrite !lookup_insert_ne by done. auto.
  - intros b i Hb. rewrite lookup_insert_ne by set_solver. by apply Hl.
Qed.

(** A change that leaves the links alone. *)
Lemma seg_over p l k f M M1 :
  (forall i n q, f (linked i n q) = linked (f i) n q) -> seg p l M M1 -> seg p l (over k f M) (over k f M1).
Proof.
  intros Hf. revert p. induction l as [| a l IH]; cbn; [done |]. intros p [(i & Hi & Hm) Hs]. split; [| auto].
  rewrite !lookup_over, Hi, Hm. case_decide; cbn; [rewrite Hf |]; eauto.
Qed.

Lemma queued_over ts l k f M M1 :
  (forall i n q, f (linked i n q) = linked (f i) n q) -> ts ∉ k -> queued ts l M M1 -> queued ts l (over k f M) (over k f M1).
Proof.
  intros Hf Hk [Hn H0 Ht Hfr Hs Hr Hl]. split; try done.
  - by rewrite lookup_over, decide_False by done.
  - by rewrite lookup_over, decide_False by done.
  - by apply seg_over.
  - intros a Ha. rewrite !lookup_over. by rewrite Hr by done.
  - intros a i Ha. rewrite lookup_over. case_decide; [| by apply Hl].
    destruct (M1 !! a) as [j |] eqn:Ej; cbn; [| done]. intros [= <-]. destruct (Hl _ _ Ha Ej) as [E1 E2].
    assert (j = linked j NULL NULL) as -> by (unfold linked; destruct j; cbn in *; by subst).
    rewrite Hf. done.
Qed.

Lemma head_null l : NULL ∉ l -> (head l =? NULL) = bool_decide (l = []).
Proof. destruct l as [| a l]; cbn; [done |]. intros N. apply Z.eqb_neq. set_solver. Qed.

Lemma head_app l a : l <> [] -> head (l ++ [a]) = head l.
Proof. by destruct l. Qed.

(** The last of the queue, where the next one is put. *)
Fixpoint tail_of (p : Z) (l : list Z) : Z := match l with [] => p | a :: l => tail_of a l end.

Lemma tail_snoc p l a : tail_of p (l ++ [a]) = a.
Proof. revert p. by induction l; intros; cbn. Qed.

Lemma tail_in p l : l <> [] -> tail_of p l ∈ l.
Proof.
  revert p. induction l as [| a [| b l] IH]; [done | cbn; set_solver |]. intros p _.
  change (tail_of p (a :: b :: l)) with (tail_of a (b :: l)). right. by apply IH.
Qed.

Lemma seg_snoc p l a i M M' M1 :
  NoDup l -> seg p l M M1 -> M1 !! a = Some i -> M' !! a = Some (linked i NULL (tail_of p l)) ->
  (forall b, b ∈ l -> M' !! b = if decide (b = tail_of p l) then (fun j => j <| inext := a |>) <$> M !! b else M !! b) ->
  seg p (l ++ [a]) M' M1.
Proof.
  revert p. induction l as [| b l IH]; cbn [app seg tail_of]; intros p Hn Hs Hi Ha Hb; [eauto |].
  destruct Hs as [(j & Hj & Hmj) Hs]. apply NoDup_cons in Hn as [Hbl Hn]. split.
  - exists j. split; [done |]. rewrite Hb, Hmj by left. destruct l as [| b' l]; cbn [tail_of].
    + by rewrite decide_True by done.
    + rewrite decide_False; [done |]. intros E. apply Hbl. rewrite E. by apply (tail_in b (b' :: l)).
  - apply IH; [done | done | done | done |]. intros b' Hb'. apply Hb. by right.
Qed.

Section Spec.
Context {C : Type} `{TimerDrivers C}.
Context (w0 : tworld C) (t : Z).
Implicit Types (x : timer) (M : gmap Z instance) (c : C) (L : gset tlock).
Notation at_work := (at_work w0 t).

Lemma wp_insert ts tc q a i x M M1 c L Q :
  queued ts q M M1 -> (q <> [] -> tc = tail_of ts q) -> a ∉ NULL :: ts :: q -> M1 !! a = Some i -> inext i = NULL -> iprev i = NULL ->
  (forall M', queued ts (q ++ [a]) M' M1 -> Q (true, a) (at_work x M' c L)) ->
  wp (snd_timer_insert ts tc a) Q (at_work x M c L).
Proof.
  intros Qd Htc Ha Hi En Ep HQ. destruct (Qd) as [Hn H0 Ht Hf Hs Hr Hl].
  apply not_elem_of_cons in Ha as [Ha0 [Hat Haq]%not_elem_of_cons].
  assert (HM : M !! a = Some i) by (rewrite Hr by set_solver; done).
  unfold snd_timer_insert. apply wp_bind. eapply wp_inst_at; [done |]. rewrite Ep. cbn [Z.eqb NULL negb].
  apply wp_bind, wp_ret, wp_bind. eapply wp_inst_at; [done |]. cbn [inext zero_instance set_field].
  assert (Hfin : forall M', M' !! ts = Some (zero_instance <| inext := head (q ++ [a]) |>) ->
    M' !! a = Some (linked i NULL (tail_of ts q)) ->
    (forall b, b ∈ q -> M' !! b = if decide (b = tail_of ts q) then (fun j => j <| inext := a |>) <$> M !! b else M !! b) ->
    (forall b, b ∉ ts :: q ++ [a] -> M' !! b = M !! b) -> Q (true, a) (at_work x M' c L)).
  { intros M' E1 E2 E3 E4. apply HQ. apply NoDup_cons in Hn as [Hn1 Hn2]. split; try done.
    - rewrite NoDup_cons, NoDup_app. split_and!; [set_solver | done | set_solver | apply NoDup_singleton].
    - set_solver.
    - by eapply seg_snoc.
    - intros b Hb. rewrite E4 by done. apply Hr. set_solver.
    - intros b j [? | ->%list_elem_of_singleton]%elem_of_app; [by apply Hl |]. intros E. by simplify_eq. }
  change (inext (zero_instance <| inext := head q |>)) with (head q). rewrite head_null by set_solver.
  case_bool_decide as Eq; apply wp_bind.
  - subst q. apply wp_bind. eapply wp_set_inst; [done |]. eapply wp_set_inst; [by rewrite lookup_insert_ne |].
    apply wp_bind. eapply wp_set_inst; [by rewrite lookup_insert_eq |]. apply wp_ret, Hfin.
    + by rewrite !lookup_insert_ne, lookup_insert_eq by done.
    + rewrite lookup_insert_eq. done.
    + set_solver.
    + intros b Hb. by rewrite !lookup_insert_ne by set_solver.
  - assert (Hin := tail_in ts q Eq). rewrite <- (Htc Eq) in *. clear Htc.
    assert (exists j, M !! tc = Some j) as [j Hj].
    { clear -Hs Hin. revert Hin Hs. generalize tc as b, ts as p. induction q as [| b' q IH]; [set_solver |].
      intros b p Hb [(i & _ & Hi) Hs]. apply elem_of_cons in Hb as [-> | Hb]; eauto. }
    assert (Nca : tc <> a) by congruence. assert (Nct : tc <> ts) by (apply NoDup_cons in Hn as [? _]; congruence).
    apply wp_bind. eapply wp_set_inst; [done |]. eapply wp_set_inst; [by rewrite lookup_insert_ne |].
    apply wp_bind. eapply wp_set_inst; [by rewrite lookup_insert_eq |]. apply wp_ret, Hfin.
    + rewrite !lookup_insert_ne by done. by rewrite head_app.
    + rewrite lookup_insert_eq. done.
    + intros b Hb. rewrite !(lookup_insert_ne _ a) by congruence. case_decide as Eb.
      * subst b. by rewrite lookup_insert_eq, Hj.
      * by rewrite lookup_insert_ne.
    + intros b [? [Hbq ?]%not_elem_of_app]%not_elem_of_cons.
      rewrite !lookup_insert_ne; [done | congruence | set_solver..].
Qed.

Lemma wp_pop ts a q x M M1 c L Q :
  queued ts (a :: q) M M1 ->
  (forall M', queued ts q M' M1 -> Q a (at_work x M' c L)) -> wp (pop ts) Q (at_work x M c L).
Proof.
  intros [Hn H0 Ht Hf Hs Hr Hl] HQ. destruct Hs as [(i & Hi & Hm) Hs].
  apply NoDup_cons in Hn as [Hn1 [Hn2 Hn3]%NoDup_cons].
  unfold pop. apply wp_bind. eapply wp_inst_at; [done |]. change (inext (zero_instance <| inext := head (a :: q) |>)) with a.
  apply wp_bind. eapply wp_inst_at; [done |]. change (inext (linked i (head q) ts)) with (head q).
  apply wp_bind. eapply wp_set_inst; [done |]. rewrite head_null by set_solver.
  destruct (Hl a i ltac:(left) Hi) as [En Ep].
  assert (Hfin : forall M', M' !! ts = Some (zero_instance <| inext := head q |>) -> M' !! a = Some (linked i NULL NULL) ->
    seg ts q M' M1 -> (forall b, b ∉ ts :: a :: q -> M' !! b = M !! b) -> Q a (at_work x M' c L)).
  { intros M' E1 E2 E3 E4. apply HQ. split; try done.
    - constructor; [set_solver | done].
    - set_solver.
    - intros b Hb. destruct (decide (b = a)) as [-> | N].
      + rewrite E2, Hi. f_equal. unfold linked. destruct i. cbn in *. by subst.
      + rewrite E4 by set_solver. apply Hr. set_solver.
    - intros b j Hb. apply Hl. by right. }
  assert (Nta : ts <> a) by (intros ->; apply Hn1; left).
  apply wp_bind, wp_when.
  - intros E%negb_true_iff%bool_decide_eq_false. destruct q as [| b q]; [done |]. destruct Hs as [(j & Hj & Hmj) Hs].
    cbn [head] in *. assert (Nab : a <> b) by (intros ->; apply Hn2; left).
    assert (Ntb : ts <> b) by (intros ->; apply Hn1; right; left).
    eapply wp_set_inst; [rewrite lookup_insert_ne by done; exact Hmj |].
    apply wp_bind. eapply wp_set_inst; [rewrite !lookup_insert_ne by congruence; exact Hm |]. apply wp_ret, Hfin.
    + rewrite !lookup_insert_ne by congruence. by rewrite lookup_insert_eq.
    + rewrite lookup_insert_eq. done.
    + apply NoDup_cons in Hn3 as [Hn3 Hn4]. split.
      * exists j. split; [done |]. rewrite lookup_insert_ne by congruence. by rewrite lookup_insert_eq.
      * eapply seg_ext, Hs; [| done]. intros b' Hb'. assert (b' <> b /\ b' <> a /\ b' <> ts) as (? & ? & ?) by (clear -Hb' Hn1 Hn2 Hn3; set_solver).
        by rewrite !lookup_insert_ne by done.
    + intros b' [? [? [? ?]%not_elem_of_cons]%not_elem_of_cons]%not_elem_of_cons. by rewrite !lookup_insert_ne by congruence.
  - intros E%negb_false_iff%bool_decide_eq_true. subst q. cbn [head].
    apply wp_bind. eapply wp_set_inst; [rewrite !lookup_insert_ne by congruence; exact Hm |]. apply wp_ret, Hfin; [| | done |].
    + rewrite !lookup_insert_ne by congruence. by rewrite lookup_insert_eq.
    + rewrite lookup_insert_eq. done.
    + intros b' [? [? ?]%not_elem_of_cons]%not_elem_of_cons. by rewrite !lookup_insert_ne by congruence.
Qed.
(** ** Counting down *)

Definition plain (i : instance) : Prop :=
  inext i = NULL /\ iprev i = NULL /\ slave i = NULL /\ has (i_flags i) IFLG_SLAVE = false.

Lemma plain_stopped i : plain i -> plain (i <| cticks := 0 |> <| i_flags := Z.clearbit (i_flags i) IFLG_RUNNING |>).
Proof. intros (? & ? & ? & Hs). split_and!; [done..|]. cbn. rewrite has_clear by done. by rewrite Hs. Qed.

Lemma elapsed_plain n i : plain i -> plain (elapsed n i).
Proof. intros P. unfold elapsed. repeat case_match; [exact P.. | by apply plain_stopped]. Qed.

Lemma wp_elapse ts tc q a n i x M M1 c L Q :
  queued ts q M M1 -> (q <> [] -> tc = tail_of ts q) -> a ∉ NULL :: ts :: q -> M1 !! a = Some i -> plain i ->
  SlaveLock ∉ L -> 0 <= n ->
  (forall tc' M', let q' := q ++ if fires n i then [a] else [] in
     queued ts q' M' (<[a := elapsed n i]> M1) -> (q' <> [] -> tc' = tail_of ts q') ->
     Q tc' (at_work (x <| t_running := t_running x + b2z (is_running (elapsed n i)) - b2z (is_running i) |>
                       <| t_in_use := t_in_use x + b2z (fires n i) |>) M' c L)) ->
  wp (elapse t ts tc n a) Q (at_work x M c L).
Proof.
  intros Qd Htc Ha Hi Hp HL Hn HQ. assert (Haq : a ∉ ts :: q) by set_solver.
  assert (HM : M !! a = Some i) by (rewrite (qd_rest _ _ _ _ Qd) by done; done).
  assert (Hx : forall r u, r = t_running x -> u = t_in_use x -> x <| t_running := r |> <| t_in_use := u |> = x)
    by (intros ? ? -> ->; by destruct x).
  unfold elapse. apply wp_bind. eapply wp_inst_at; [done |]. fold (is_running i).
  unfold elapsed, fires in *. destruct (is_running i) eqn:Er; cbn [negb andb] in *.
  2: { apply wp_ret. specialize (HQ tc M). rewrite app_nil_r, Er, Hx in HQ by (cbn; lia). apply HQ; [| done].
       by rewrite insert_id. }
  apply wp_bind. eapply wp_set_inst; [done |]. apply wp_bind. eapply wp_inst_at; [by rewrite lookup_insert_eq |].
  cbn [cticks i_flags set_field]. destruct (Z.ltb_spec n (cticks i)) as [Hlt | Hle].
  { rewrite (proj2 (Z.ltb_ge _ _)) by lia. rewrite (proj2 (Z.eqb_neq _ _)) by lia. cbn [negb].
    rewrite (proj2 (Z.leb_gt _ _)) in HQ by lia. apply wp_ret. specialize (HQ tc). rewrite app_nil_r in HQ.
    change (is_running (i <| cticks := cticks i - n |>)) with (is_running i) in HQ. rewrite Er in HQ.
    rewrite Hx in HQ by (cbn; lia). apply HQ; [| done]. by apply timer_queued_set. }
  rewrite (proj2 (Z.leb_le _ _)) in HQ by lia.
  assert (Ec : (if cticks i <? n then 0 else cticks i - n) = 0) by (btest; lia). rewrite Ec. cbn [Z.eqb negb b2z] in *.
  set (j := if has (i_flags i) IFLG_AUTO then i <| cticks := i_ticks i |>
            else i <| cticks := 0 |> <| i_flags := Z.clearbit (i_flags i) IFLG_RUNNING |>) in *.
  set (x1 := x <| t_running := t_running x + b2z (is_running j) - 1 |>) in *.
  assert (Hj : plain j) by (unfold j; destruct (has _ _); [exact Hp | by apply plain_stopped]).
  apply wp_bind. eapply wp_mono with (Q := fun _ w => w = at_work x1 (<[a := j]> M) c L).
  { unfold x1, j. clear HQ x1 Hj j. destruct (has (i_flags i) IFLG_AUTO).
    - eapply wp_set_inst; [by rewrite lookup_insert_eq |]. rewrite insert_insert_eq. f_equal.
      change (is_running (i <| cticks := i_ticks i |>)) with (is_running i). rewrite Er. symmetry.
      destruct x. cbn. f_equal. lia.
    - apply wp_bind. eapply wp_set_inst; [by rewrite lookup_insert_eq |]. eapply wp_set_timer. rewrite insert_insert_eq.
      f_equal. unfold is_running. cbn [i_flags set_field]. rewrite has_clear by done. rewrite Z.eqb_refl, andb_false_r.
      destruct x. cbn. f_equal. lia. }
  intros [] _ ->. apply wp_bind. eapply wp_insert; [by apply timer_queued_set | done | done | apply lookup_insert_eq | apply Hj | apply Hj |].
  intros M2 Q2. cbn [fst snd]. apply wp_bind. cbn [when]. eapply wp_set_timer.
  apply wp_bind, wp_timer_lock; [done |]. assert (Hm2 : exists k, M2 !! a = Some k /\ slave k = NULL).
  { assert (S2 := qd_seg _ _ _ _ Q2). clear -S2 Hj. revert S2. generalize ts as p. induction q as [| b q IH]; cbn.
    - intros p [(k & Hk & Hm) _]. rewrite lookup_insert_eq in Hk. injection Hk as <-. eexists. split; [exact Hm |]. apply Hj.
    - intros p [_ S2]. eauto. }
  destruct Hm2 as (k & Hk & Ek). apply wp_bind. eapply wp_inst_at; [exact Hk |]. apply wp_bind, wp_tw_get.
  apply wp_bind. rewrite Ek. cbn [insert_slaves Z.eqb NULL]. apply wp_ret, wp_bind, wp_timer_unlock; [done |]. apply wp_ret.
  specialize (HQ a M2). cbn [b2z] in HQ. replace (at_work _ M2 c L) with
    (at_work (x <| t_running := t_running x + b2z (is_running j) - 1 |> <| t_in_use := t_in_use x + 1 |>) M2 c L)
    by (unfold x1; by destruct x).
  apply HQ; [done |]. intros _. by rewrite tail_snoc.
Qed.
Lemma over_cons a l f M i : a ∉ l -> M !! a = Some i -> over (a :: l) f M = over l f (<[a := f i]> M).
Proof.
  intros Ha Hi. apply map_eq. intros b. rewrite !lookup_over. destruct (decide (b = a)) as [-> | N].
  - rewrite lookup_insert_eq, Hi. rewrite decide_True by left. by rewrite decide_False by done.
  - rewrite lookup_insert_ne by done. case_decide as E1; case_decide as E2; set_solver.
Qed.

Lemma how_many_over_cons P a l f M i :
  a ∉ l -> M !! a = Some i -> how_many P (over (a :: l) f M) (a :: l) = b2z (P (f i)) + how_many P (over l f (<[a := f i]> M)) l.
Proof.
  intros Ha Hi. rewrite over_cons with (i := i) by done. cbn [how_many].
  by rewrite lookup_over, decide_False, lookup_insert_eq by done.
Qed.

Lemma how_many_insert P a l j M : a ∉ l -> how_many P (<[a := j]> M) l = how_many P M l.
Proof. intros Ha. apply how_many_ext. intros b Hb. by rewrite lookup_insert_ne by set_solver. Qed.

Definition plain_all (M : gmap Z instance) (l : list Z) : Prop := forall a, a ∈ l -> exists i, M !! a = Some i /\ plain i.

Lemma wp_elapse_loop ts n l : forall tc q x M M1 c L Q,
  queued ts q M M1 -> (q <> [] -> tc = tail_of ts q) -> NoDup l -> (forall a, a ∈ l -> a ∉ NULL :: ts :: q) ->
  plain_all M1 l -> SlaveLock ∉ L -> 0 <= n ->
  (forall tc' M', let M2 := over l (elapsed n) M1 in queued ts (q ++ due n M1 l) M' M2 ->
     Q tc' (at_work (x <| t_running := t_running x + how_many is_running M2 l - how_many is_running M1 l |>
                       <| t_in_use := t_in_use x + Z.of_nat (length (due n M1 l)) |>) M' c L)) ->
  wp (elapse_loop t ts tc n l) Q (at_work x M c L).
Proof.
  induction l as [| a l IH]; intros tc q x M M1 c L Q Qd Htc Hl Hd Hp HL Hn HQ.
  - apply wp_ret. specialize (HQ tc M). cbn in HQ. rewrite app_nil_r, over_nil in HQ.
    change (Z.of_nat 0) with 0 in HQ. rewrite Z.sub_0_r, !Z.add_0_r in HQ. destruct x. by apply HQ.
  - apply NoDup_cons in Hl as [Ha Hl]. destruct (Hp a ltac:(left)) as (i & Hi & Pi).
    cbn [elapse_loop]. apply wp_bind. eapply wp_elapse; [done | done | apply Hd; left | done | done | done | done |].
    intros tc' M' q' Qd' Htc'. eapply IH; [done | done | done | | | done | done |].
    + intros b Hb. specialize (Hd b ltac:(by right)). unfold q'. assert (b <> a) by set_solver. case_match; set_solver.
    + intros b Hb. rewrite lookup_insert_ne by set_solver. apply Hp. by right.
    + intros tc2 M2 M3 Qd2. unfold M3 in *. clear M3. specialize (HQ tc2 M2). cbn [due] in HQ. rewrite Hi in HQ.
      rewrite over_cons with (i := i) in HQ by done. unfold q' in *. rewrite <- app_assoc in Qd2.
      rewrite (timer_due_ext n (<[a:=elapsed n i]> M1) M1) in Qd2 |- * by (intros; by rewrite lookup_insert_ne by set_solver).
      specialize (HQ Qd2). cbn [how_many] in HQ. rewrite lookup_over, decide_False, lookup_insert_eq, Hi in HQ by done.
      rewrite how_many_insert by done. rewrite length_app in HQ. replace (set_field t_in_use _ _) with
        (x <| t_running := t_running x + (b2z (is_running (elapsed n i)) + how_many is_running (over l (elapsed n) (<[a:=elapsed n i]> M1)) l) -
             (b2z (is_running i) + how_many is_running M1 l) |>
           <| t_in_use := t_in_use x + Z.of_nat (length (if fires n i then [a] else []) + length (due n M1 l)) |>); [done |].
      destruct x; cbn. f_equal; [lia |]. destruct (fires n i); cbn; lia.
Qed.

(** ** Delayed starts *)

Lemma admitted_linked i n p : admitted (linked i n p) = linked (admitted i) n p.
Proof. unfold admitted, linked. cbn [i_flags set_field]. by case_match. Qed.

(** The smallest count of the running instances. *)
Fixpoint earliest (M : gmap Z instance) (found : bool) (ticks : Z) (l : list Z) : Z :=
  match l with
  | [] => ticks
  | a :: l =>
      match M !! a with
      | Some i =>
          if is_running i then earliest M true (if found then (if cticks i <? ticks then cticks i else ticks) else cticks i) l
          else earliest M found ticks l
      | None => ticks
      end
  end.

Lemma earliest_ext M M' found ticks l : (forall a, a ∈ l -> M !! a = M' !! a) -> earliest M found ticks l = earliest M' found ticks l.
Proof.
  revert found ticks. induction l as [| a l IH]; cbn; intros found ticks E; [done |]. rewrite E by left.
  destruct (M' !! a); [| done]. case_match; apply IH; intros; apply E; by right.
Qed.

Lemma wp_start_delayed a i x M c L Q :
  M !! a = Some i ->
  Q tt (at_work (x <| t_running := t_running x + b2z (has (i_flags i) IFLG_START) |>) (<[a := admitted i]> M) c L) ->
  wp (start_delayed t a) Q (at_work x M c L).
Proof.
  intros Hi HQ. unfold start_delayed, admitted in *. apply wp_bind. eapply wp_inst_at; [done |].
  destruct (has (i_flags i) IFLG_START); cbn [when b2z] in *.
  - apply wp_bind. eapply wp_set_inst; [done |]. apply wp_bind. eapply wp_set_inst; [by rewrite lookup_insert_eq |].
    rewrite insert_insert_eq. by eapply wp_set_timer.
  - apply wp_ret. rewrite insert_id in HQ by done. replace x with (x <| t_running := t_running x + 0 |>); [done |].
    destruct x; cbn; f_equal; lia.
Qed.

Definition starting (i : instance) : bool := has (i_flags i) IFLG_START.

Lemma wp_resched_loop l : forall found ticks x M c L Q,
  NoDup l -> (forall a, a ∈ l -> is_Some (M !! a)) ->
  (let M2 := over l admitted M in
   Q (earliest M2 found ticks l) (at_work (x <| t_running := t_running x + how_many starting M l |>) M2 c L)) ->
  wp (resched_loop t found ticks l) Q (at_work x M c L).
Proof.
  induction l as [| a l IH]; intros found ticks x M c L Q Hl Hs HQ.
  - apply wp_ret. cbn in HQ. rewrite over_nil, Z.add_0_r in HQ. by destruct x.
  - apply NoDup_cons in Hl as [Ha Hl]. destruct (Hs a ltac:(left)) as (i & Hi). cbn [resched_loop].
    apply wp_bind. eapply wp_start_delayed; [done |]. apply wp_bind. eapply wp_inst_at; [apply lookup_insert_eq |].
    cbn zeta in HQ. rewrite over_cons with (i := i) in HQ by done. cbn [how_many] in HQ. rewrite Hi in HQ.
    assert (Hall : forall b, b ∈ l -> is_Some ((<[a:=admitted i]> M) !! b)).
    { intros b Hb. rewrite lookup_insert_ne by set_solver. apply Hs. by right. }
    fold (is_running (admitted i)). fold (starting i).
    cbn [earliest] in HQ. rewrite lookup_over, decide_False, lookup_insert_eq in HQ by done.
    destruct (is_running (admitted i)).
    all: eapply IH; [done | done |]; cbn zeta; rewrite how_many_insert by done.
    all: replace (x <| t_running := t_running x + b2z (starting i) |> <| t_running := _ |>) with
      (x <| t_running := t_running x + (b2z (starting i) + how_many starting M l) |>) by (destruct x; cbn; f_equal; lia); done.
Qed.
(** Only what is scheduled and the flags of a timer differ. *)
Definition retimed (x x' : timer) : Prop :=
  x' = x <| sticks := sticks x' |> <| t_private_data := t_private_data x' |> <| t_flags := t_flags x' |>.

Lemma retimed_refl x : retimed x x.
Proof. unfold retimed. by destruct x. Qed.

Lemma retimed_trans x y z : retimed x y -> retimed y z -> retimed x z.
Proof. unfold retimed. intros Ey Ez. rewrite Ez, Ey. by destruct z, y, x. Qed.

Lemma retimed_flags x f : retimed x (x <| t_flags := f |>).
Proof. unfold retimed. by destruct x. Qed.

Lemma retimed_sticks x s : retimed x (x <| sticks := s |>).
Proof. unfold retimed. by destruct x. Qed.

Lemma earliest_found M l : forall found ticks,
  earliest M found ticks l <> ticks -> exists a i, a ∈ l /\ M !! a = Some i /\ is_running i = true.
Proof.
  induction l as [| a l IH]; cbn; [done |]. intros found ticks E.
  destruct (M !! a) as [i |] eqn:Hi; [| done]. destruct (is_running i) eqn:Hr.
  - exists a, i. split; [by left | done].
  - destruct (IH _ _ E) as (b & j & Hb & Hj). exists b, j. split; [by right | done].
Qed.

Lemma wp_reschedule n x M c L Q :
  let l := t_instances x in let M2 := over l admitted M in
  NoDup l -> (forall a, a ∈ l -> is_Some (M !! a)) ->
  (forall x', retimed (x <| t_running := t_running x + how_many starting M l |>) x' ->
     (has (t_flags x') FLG_CHANGE = true -> has (t_flags x) FLG_CHANGE = true \/
        exists a i, a ∈ l /\ M2 !! a = Some i /\ is_running i = true) ->
     (earliest M2 false ULONG_MAX l <> ULONG_MAX -> n < earliest M2 false ULONG_MAX l -> n < hw_ticks (t_hw x) ->
        has (t_flags x') FLG_CHANGE = true) ->
     Q tt (at_work x' M2 c L)) ->
  wp (snd_timer_reschedule t n) Q (at_work x M c L).
Proof.
  intros l M2 Hl Hs HQ. unfold snd_timer_reschedule. apply wp_bind, wp_timer_at. fold l.
  set (x1 := x <| t_running := t_running x + how_many starting M l |>) in *.
  assert (Hnone : earliest M2 false ULONG_MAX l = ULONG_MAX ->
    wp (clear_tflag t FLG_RESCHED) Q (at_work x1 M2 c L)).
  { intros E. eapply wp_set_timer, HQ; [apply retimed_flags | | done]. cbn [t_flags set_field].
    rewrite has_clear by done. intros [? _]%andb_prop. by left. }
  case_bool_decide as El.
  { assert (x1 = x) as Ex by (unfold x1; rewrite El; cbn; rewrite Z.add_0_r; by destruct x).
    assert (M2 = M) as EM by (unfold M2; rewrite El; apply over_nil). rewrite Ex, EM in Hnone. apply Hnone. by rewrite El. }
  apply wp_bind, wp_resched_loop; [done | done |]. cbn zeta. change (over l admitted M) with M2. fold x1.
  destruct (Z.eqb_spec (earliest M2 false ULONG_MAX l) ULONG_MAX) as [E | E]; [auto |].
  set (e := if hw_ticks (t_hw x) <? _ then _ else _).
  destruct (earliest_found _ _ _ _ E) as (b & i & Hb & Hi & Hr).
  apply wp_bind, wp_when; intros Ee.
  - eapply wp_set_timer, wp_set_timer, HQ.
    + eapply retimed_trans; [apply retimed_flags | apply retimed_sticks].
    + intros _. right. eauto.
    + intros _ _ _. cbn [t_flags set_field]. by rewrite has_set by done.
  - eapply wp_set_timer, HQ; [apply retimed_sticks | by left |]. cbn [t_flags set_field].
    apply negb_false_iff, Z.eqb_eq in Ee. unfold e in Ee. intros _ N1 N2; exfalso; revert Ee; btest; lia.
Qed.

Context `{!QuietTimers C}.

Lemma low_level_retimed k x c : retimed x (low_level k t x c).1.
Proof. destruct (low_level_keeps k t x c) as (s & p & ->). unfold retimed. by destruct x. Qed.

Lemma low_level_same_flags k x c : t_flags (low_level k t x c).1 = t_flags x.
Proof. destruct (low_level_keeps k t x c) as (s & p & ->). done. Qed.

Lemma low_level_hw k x c : t_hw (low_level k t x c).1 = t_hw x.
Proof. destruct (low_level_keeps k t x c) as (s & p & ->). done. Qed.

(** Other hardware is as before, and no callback was made. *)
Definition others (c c' : C) : Prop := calls c' = calls c /\ forall t', t' <> t -> hw_on t' c' = hw_on t' c.

Lemma others_refl c : others c c.
Proof. done. Qed.

Lemma others_trans c c1 c2 : others c c1 -> others c1 c2 -> others c c2.
Proof. intros [E1 H1] [E2 H2]. split; [congruence |]. intros. rewrite H2, H1 by done. done. Qed.

Lemma low_level_others k x c : others c (low_level k t x c).2.
Proof. split; [apply low_level_calls |]. intros t' N. rewrite low_level_on. by rewrite (proj2 (Z.eqb_neq _ _)) by done. Qed.

Lemma wp_rearm x M c L Q :
  hw_start (t_hw x) <> NULL -> hw_stop (t_hw x) <> NULL ->
  (t_running x = 0 -> has (t_flags x) FLG_CHANGE = false) -> (t_running x <> 0 -> hw_on t c = true) ->
  (forall x' c', retimed x x' -> has (t_flags x') FLG_CHANGE = false -> others c c' ->
     hw_on t c' = negb (t_running x =? 0) ->
     (forall b, b <> FLG_CHANGE -> has (t_flags x') b = has (t_flags x) b) -> Q tt (at_work x' M c' L)) ->
  wp (rearm t) Q (at_work x M c L).
Proof.
  intros Hs1 Hs2 Hch Hon HQ. unfold rearm. apply wp_bind, wp_timer_at. destruct (Z.eqb_spec (t_running x) 0) as [E | E]; cbn [negb] in *.
  { apply wp_call_hw; [done |]. apply HQ; [apply low_level_retimed | rewrite low_level_same_flags; auto | apply low_level_others | |].
    - rewrite low_level_on, Z.eqb_refl. done.
    - intros. by rewrite low_level_same_flags. }
  assert (Hrest : forall x1 c1, retimed x x1 -> others c c1 -> t_hw x1 = t_hw x ->
    (has (t_flags x1) FLG_CHANGE = false -> hw_on t c1 = true) ->
    (forall b, b <> FLG_CHANGE -> has (t_flags x1) b = has (t_flags x) b) ->
    wp (x <- timer_at t;; when (negb (has (hw_flags (t_hw x)) HW_AUTO) || has (t_flags x) FLG_CHANGE)
          (clear_tflag t FLG_CHANGE;;; call_hw HwStart t)) Q (at_work x1 M c1 L)).
  { intros x1 c1 R1 O1 Eh Hon1 Hb. apply wp_bind, wp_timer_at, wp_when.
    - intros _. apply wp_bind, wp_set_timer, wp_call_hw; [cbn [t_hw set_field]; by rewrite Eh |].
      apply HQ.
      + eapply retimed_trans; [exact R1 |]. eapply retimed_trans; [apply retimed_flags | apply low_level_retimed].
      + rewrite low_level_same_flags. cbn [t_flags set_field]. rewrite has_clear, Z.eqb_refl by done. apply andb_false_r.
      + eapply others_trans, low_level_others. done.
      + rewrite low_level_on, Z.eqb_refl. done.
      + intros b Nb. rewrite low_level_same_flags. cbn [t_flags set_field]. rewrite has_clear by done.
        rewrite (proj2 (Z.eqb_neq _ _)) by congruence. cbn. rewrite andb_true_r. auto.
    - intros [_ Ec]%orb_false_iff. apply HQ; auto. }
  apply wp_bind, wp_when.
  - intros _. apply wp_bind, wp_call_hw; [done |]. apply wp_set_timer, Hrest.
    + eapply retimed_trans; [apply low_level_retimed | apply retimed_flags].
    + apply low_level_others.
    + apply low_level_hw.
    + cbn [t_flags set_field]. by rewrite has_set.
    + intros b Nb. cbn [t_flags set_field]. rewrite has_set by done. rewrite low_level_same_flags.
      by rewrite (proj2 (Z.eqb_neq _ _)) by congruence.
  - intros _. apply Hrest; [apply retimed_refl | apply others_refl | done | auto | done].
Qed.

(** ** Calling back *)

Definition callback_of (r : Z) (M : gmap Z instance) (c : C) (a : Z) : C :=
  match M !! a with
  | Some i => if i_callback i =? NULL then c else callback_effect (i_callback i) a r (i_ticks i) (i_callback_data i) c
  | None => c
  end.

Definition calls_of (r : Z) (M : gmap Z instance) (l : list Z) : list (Z * Z * Z) :=
  omap (fun a => match M !! a with
                 | Some i => if i_callback i =? NULL then None else Some (a, r, i_ticks i)
                 | None => None
                 end) l.

Lemma callbacks_on r M l : forall c t', hw_on t' (foldl (callback_of r M) c l) = hw_on t' c.
Proof.
  induction l as [| a l IH]; cbn; [done |]. intros c t'. rewrite IH. unfold callback_of.
  repeat case_match; try done. apply callback_on.
Qed.

Lemma callbacks_calls r M l : forall c, calls (foldl (callback_of r M) c l) = calls c ++ calls_of r M l.
Proof.
  induction l as [| a l IH]; intros c; [by rewrite (app_nil_r (calls c)) |].
  cbn [foldl]. rewrite IH. unfold callback_of, calls_of. cbn [omap list_omap].
  destruct (M !! a) as [i |]; [| done]. destruct (i_callback i =? NULL); [done |]. rewrite callback_calls. by rewrite <- app_assoc.
Qed.

Lemma wp_call_loop ts r q : forall fuel x M M1 c L Q,
  queued ts q M M1 -> plain_all M1 q -> (length q < fuel)%nat -> TimerLock t ∉ L ->
  (forall M', queued ts [] M' M1 ->
     Q tt (at_work (x <| t_in_use := t_in_use x - Z.of_nat (length q) |>) M' (foldl (callback_of r M1) c q) ({[TimerLock t]} ∪ L))) ->
  wp (call_loop fuel t ts r) Q (at_work x M c ({[TimerLock t]} ∪ L)).
Proof.
  induction q as [| a q IH]; intros [| fuel] x M M1 c L Q Qd Hp Hf HL HQ; [cbn in *; lia | | cbn in *; lia |]; cbn [call_loop].
  - apply wp_bind. eapply wp_inst_at; [apply Qd |]. cbn [inext set_field head Z.eqb NULL]. apply wp_ret.
    specialize (HQ M Qd). cbn [length Z.of_nat] in HQ. rewrite Z.sub_0_r in HQ. by destruct x.
  - apply wp_bind. eapply wp_inst_at; [apply Qd |].
    change (inext (zero_instance <| inext := head (a :: q) |>)) with a.
    assert (Na : a <> NULL) by (intros ->; apply (qd_null _ _ _ _ Qd); set_solver).
    rewrite (proj2 (Z.eqb_neq _ _)) by done. apply wp_bind. eapply wp_pop; [done |]. intros M' Qd'.
    destruct (Hp a ltac:(left)) as (i & Hi & (_ & _ & _ & Hsl)).
    assert (Hm : M' !! a = Some i).
    { rewrite (qd_rest _ _ _ _ Qd'); [done |]. pose proof (qd_nodup _ _ _ _ Qd) as [Hn1 [Hn2 _]%NoDup_cons]%NoDup_cons.
      intros [-> | ?]%elem_of_cons; [apply Hn1; left | done]. }
    apply wp_bind. eapply wp_inst_at; [done |]. apply wp_bind, wp_timer_unlock; [done |].
    apply wp_bind. eapply wp_inst_at; [done |]. apply wp_bind.
    eapply wp_mono with (Q := fun _ w => w = at_work x M' (callback_of r M1 c a) L).
    { unfold callback_of. rewrite Hi. apply wp_when; [intros ->%negb_true_iff | intros ->%negb_false_iff; done].
      by apply (wp_call_back w0 t). }
    intros [] _ ->. apply wp_bind, wp_timer_lock; [done |]. apply wp_bind. eapply wp_inst_at; [done |].
    rewrite Hsl. cbn [negb]. apply wp_bind, wp_set_timer. eapply IH; [done | | cbn in Hf; lia | done |].
    + intros b Hb. apply Hp. by right.
    + intros M2 Qd2. specialize (HQ M2 Qd2). cbn [foldl length] in HQ. replace (set_field t_in_use _ _) with
        (x <| t_in_use := t_in_use x - Z.of_nat (S (length q)) |>); [done |]. destruct x; cbn -[Z.of_nat]. f_equal. lia.
Qed.
(** ** A timer in order *)

Definition counting (i : instance) : bool := is_running i || starting i.

Record healthy (i : instance) : Prop := {
  he_timer : i_timer i = t;
  he_plain : plain i;
  he_once : is_running i && starting i = false;
  he_count : counting i = true -> 0 < cticks i < ULONG_MAX /\ 0 < i_ticks i < ULONG_MAX }.

(** The timer, its instances and its hardware agree. *)
Record tidy (x : timer) (M : gmap Z instance) (c : C) : Prop := {
  ti_nodup : NoDup (t_instances x);
  ti_inst : forall a, a ∈ t_instances x -> a <> NULL /\ exists i, M !! a = Some i /\ healthy i;
  ti_running : t_running x = how_many is_running M (t_instances x);
  ti_change : has (t_flags x) FLG_CHANGE = false;
  ti_resched : forall a i, a ∈ t_instances x -> M !! a = Some i -> starting i = true ->
    has (t_flags x) FLG_RESCHED = true /\ t_running x <> 0;
  ti_use : t_in_use x = 0;
  ti_hw : hw_start (t_hw x) <> NULL /\ hw_stop (t_hw x) <> NULL /\ 0 < hw_ticks (t_hw x);
  ti_on : hw_on t c = negb (t_running x =? 0) }.

Lemma running_elapsed n i : is_running (elapsed n i) = true -> is_running i = true.
Proof. unfold elapsed. destruct (is_running i) eqn:E; cbn [negb]; congruence. Qed.

Lemma starting_elapsed n i : starting (elapsed n i) = starting i.
Proof.
  unfold elapsed, starting. repeat case_match; try done. cbn [i_flags set_field]. rewrite has_clear by done.
  cbn. by rewrite andb_true_r.
Qed.

Lemma running_admitted i : is_running (admitted i) = is_running i || starting i.
Proof.
  unfold admitted, starting, is_running. destruct (has (i_flags i) IFLG_START) eqn:E; cbn [i_flags set_field].
  - rewrite has_set, Z.eqb_refl by done. by rewrite orb_true_r.
  - by rewrite orb_false_r.
Qed.

Lemma starting_admitted i : starting (admitted i) = false.
Proof.
  unfold admitted, starting. destruct (has (i_flags i) IFLG_START) eqn:E; [| done]. cbn [i_flags set_field].
  rewrite has_set, has_clear, Z.eqb_refl, andb_false_r by done. done.
Qed.

Lemma healthy_elapsed n i : 0 <= n -> healthy i -> healthy (elapsed n i).
Proof.
  intros Hn [Ht Hp Ho Hc]. split.
  - unfold elapsed. by repeat case_match.
  - by apply elapsed_plain.
  - destruct (is_running (elapsed n i)) eqn:E; [| done]. apply running_elapsed in E. rewrite starting_elapsed. by rewrite E in Ho.
  - intros Hk. assert (Hci : counting i = true).
    { unfold counting in *. apply orb_true_iff in Hk as [E%running_elapsed | E]; [by rewrite E |].
      rewrite starting_elapsed in E. by rewrite E, orb_true_r. }
    specialize (Hc Hci). revert Hk. unfold elapsed. destruct (is_running i) eqn:Er; cbn [negb]; [| done].
    destruct (Z.ltb_spec n (cticks i)); [intros _; cbn; lia |]. destruct (has (i_flags i) IFLG_AUTO); [intros _; cbn; lia |].
    cbn in Ho. unfold counting, is_running, starting in *. cbn [i_flags set_field]. rewrite !has_clear by done. rewrite Ho.
    rewrite Z.eqb_refl. cbn. by rewrite andb_false_r.
Qed.

Lemma healthy_admitted i : healthy i -> healthy (admitted i).
Proof.
  intros [Ht (P1 & P2 & P3 & P4) Ho Hc]. split.
  - unfold admitted. by case_match.
  - unfold admitted. case_match; [| by repeat split]. split_and!; try done. cbn [i_flags set_field].
    rewrite has_set, has_clear, P4 by done. done.
  - by rewrite starting_admitted, andb_false_r.
  - unfold counting. rewrite running_admitted, starting_admitted, orb_false_r. intros E. specialize (Hc E).
    unfold admitted. by case_match.
Qed.

(** What the interrupt leaves of the instances of a list. *)
Definition after_ticks (n : Z) (resched : bool) (i : instance) : instance :=
  if resched then admitted (elapsed n i) else elapsed n i.

Lemma healthy_after n b i : 0 <= n -> healthy i -> healthy (after_ticks n b i).
Proof. intros. unfold after_ticks. destruct b; [apply healthy_admitted |]; by apply healthy_elapsed. Qed.

Lemma how_many_admitted M l :
  (forall a i, a ∈ l -> M !! a = Some i -> is_running i && starting i = false) ->
  how_many is_running M l + how_many starting M l = how_many is_running (over l admitted M) l.
Proof.
  intros Ho. enough (how_many is_running (over l admitted M) l = how_many (fun i => is_running i || starting i) M l) as ->.
  { induction l as [| a l IH]; [done |]. cbn [how_many]. rewrite <- IH by (intros; eapply Ho; [by right | done]).
    destruct (M !! a) as [i |] eqn:E; [| lia]. specialize (Ho a i ltac:(left) E).
    destruct (is_running i), (starting i); cbn in *; try done; lia. }
  apply how_many_ext. intros a Ha. rewrite lookup_over, decide_True by done. destruct (M !! a); cbn; [| done].
  by rewrite running_admitted.
Qed.

(** The world after an interrupt. *)
Record interrupted (n : Z) (x : timer) (M : gmap Z instance) (c : C) (x' : timer) (M' : gmap Z instance) (c' : C) : Prop := {
  in_insts : M' = over (t_instances x) (after_ticks n (has (t_flags x) FLG_RESCHED)) M;
  in_timer : retimed (x <| t_running := how_many is_running M' (t_instances x) |>) x';
  in_tidy : tidy x' M' c';
  in_calls : exists r, calls c' = calls c ++ calls_of r M (due n M (t_instances x));
  in_others : forall t', t' <> t -> hw_on t' c' = hw_on t' c }.
(** Links do not matter for [P]. *)
Definition unlinked (P : instance -> bool) : Prop := forall i n p, P (linked i n p) = P i.

Lemma seg_lookup ts q M M1 a : seg ts q M M1 -> a ∈ q -> exists i n p, M1 !! a = Some i /\ M !! a = Some (linked i n p).
Proof.
  revert ts. induction q as [| b q IH]; [intros ? ? ?%not_elem_of_nil; done |].
  intros ts [(i & Hi & Hm) Hs] [-> | Ha]%elem_of_cons; eauto.
Qed.

Lemma queued_lookup ts q M M1 a : queued ts q M M1 -> a <> ts ->
  M !! a = M1 !! a \/ exists i n p, M1 !! a = Some i /\ M !! a = Some (linked i n p).
Proof.
  intros Qd N. destruct (decide (a ∈ q)) as [Ha | Ha].
  - right. by eapply seg_lookup; [apply Qd |].
  - left. apply Qd. rewrite not_elem_of_cons. done.
Qed.

Lemma queued_how_many ts q M M1 P l : unlinked P -> queued ts q M M1 -> ts ∉ l -> how_many P M l = how_many P M1 l.
Proof.
  intros HP Qd Hts. apply how_many_ext. intros a Ha.
  destruct (queued_lookup _ _ _ _ a Qd) as [-> | (i & n & p & -> & ->)]; [congruence | done |]. cbn. by rewrite HP.
Qed.

Lemma queued_length ts q M M1 : queued ts q M M1 -> (length q < S (size M))%nat.
Proof.
  intros Qd. pose proof (qd_nodup _ _ _ _ Qd) as [_ Hn]%NoDup_cons.
  rewrite <- (size_list_to_set (C := gset Z)), <- size_dom by done.
  apply Nat.lt_succ_r, subseteq_size. intros a Ha%elem_of_list_to_set. apply elem_of_dom.
  destruct (seg_lookup _ _ _ _ a (qd_seg _ _ _ _ Qd) Ha) as (i & n & p & _ & ->). eauto.
Qed.

Lemma running_unlinked : unlinked is_running. Proof. done. Qed.
Lemma starting_unlinked : unlinked starting. Proof. done. Qed.

Lemma calls_of_ext r M M' l :
  (forall a i, a ∈ l -> M !! a = Some i -> exists i', M' !! a = Some i' /\ i_callback i' = i_callback i /\ i_ticks i' = i_ticks i) ->
  (forall a, a ∈ l -> is_Some (M !! a)) -> calls_of r M l = calls_of r M' l.
Proof.
  unfold calls_of. induction l as [| a l IH]; [done |]. intros E Hs. cbn [omap list_omap].
  destruct (Hs a ltac:(left)) as [i Hi]. destruct (E a i ltac:(left) Hi) as (i' & Hi' & Ec & Et).
  rewrite Hi, Hi', Ec, Et. rewrite IH; [done | |]; intros; [eapply E; [by right | done] | apply Hs; by right].
Qed.

Lemma after_ticks_calls n b i : i_callback (after_ticks n b i) = i_callback i /\ i_ticks (after_ticks n b i) = i_ticks i.
Proof. unfold after_ticks, admitted, elapsed. repeat case_match; done. Qed.

(** In a tidy timer the running and the starting instances are apart. *)
Lemma tidy_idle x M c : tidy x M c -> t_running x = 0 ->
  forall a i, a ∈ t_instances x -> M !! a = Some i -> counting i = false.
Proof.
  intros Ti E a i Ha Hi. unfold counting. apply orb_false_iff. split.
  - eapply how_many_zero; [| done | done]. rewrite <- (ti_running _ _ _ Ti). done.
  - destruct (starting i) eqn:Es; [| done]. exfalso. by eapply (ti_resched _ _ _ Ti); eauto.
Qed.

Lemma tidy_after n x M c : 0 <= n -> tidy x M c ->
  let b := has (t_flags x) FLG_RESCHED in let M' := over (t_instances x) (after_ticks n b) M in
  forall x' c', retimed (x <| t_running := how_many is_running M' (t_instances x) |>) x' ->
  has (t_flags x') FLG_CHANGE = false -> hw_on t c' = negb (t_running x' =? 0) -> tidy x' M' c'.
Proof.
  intros Hn Ti b M' x' c' R Ec Eon. assert (El : t_instances x' = t_instances x) by (rewrite R; done).
  split; [rewrite El; apply Ti | | rewrite R; done | done | | rewrite R; apply Ti | rewrite R; apply Ti | done].
  - intros a. rewrite El. intros Ha. destruct (ti_inst _ _ _ Ti a Ha) as (N & i & Hi & Hh). split; [done |].
    unfold M'. rewrite lookup_over, decide_True, Hi by done. eexists. split; [done |]. by apply healthy_after.
  - intros a i. rewrite El. intros Ha. unfold M'. rewrite lookup_over, decide_True by done.
    destruct (M !! a) as [j |] eqn:Hj; [| done]. cbn. intros [= <-]. unfold after_ticks. destruct b eqn:Eb.
    + by rewrite starting_admitted.
    + rewrite starting_elapsed. intros Es. destruct (ti_resched _ _ _ Ti a j Ha Hj Es) as [Er _]. unfold b in Eb. congruence.
Qed.
(** The second half of the interrupt: the hardware is armed and the callbacks are made. *)
Lemma wp_interrupt_end ts q x M M1 c L Q :
  queued ts q M M1 -> plain_all M1 q -> TimerLock t ∉ L ->
  hw_start (t_hw x) <> NULL -> hw_stop (t_hw x) <> NULL ->
  (t_running x = 0 -> has (t_flags x) FLG_CHANGE = false) -> (t_running x <> 0 -> hw_on t c = true) ->
  (forall x' c' r, retimed (x <| t_in_use := t_in_use x - Z.of_nat (length q) |>) x' ->
     has (t_flags x') FLG_CHANGE = false -> calls c' = calls c ++ calls_of r M1 q ->
     (forall t', t' <> t -> hw_on t' c' = hw_on t' c) -> hw_on t c' = negb (t_running x =? 0) ->
     Q tt (at_work x' M1 c' L)) ->
  wp (rearm t;;; r <- resolution_of t;; m <- tw_get tw_instances;;
      call_loop (S (size m)) t ts r;;; unlock (TimerLock t);;; kfree_inst ts) Q (at_work x M c ({[TimerLock t]} ∪ L)).
Proof.
  intros Qd Hp HL Hs1 Hs2 Hch Hon HQ. apply wp_bind, wp_rearm; [done.. |].
  intros x1 c1 R1 Ec1 [O1 O2] Eon1 _. apply wp_bind. unfold resolution_of. apply wp_bind, wp_timer_at.
  apply wp_bind. unfold wp at 1, get. apply wp_ret. set (r := if _ =? _ then _ else _).
  apply wp_bind, wp_tw_get. apply wp_bind. eapply wp_call_loop; [done | done | by eapply queued_length | done |].
  intros M' Qd'. apply wp_bind, wp_timer_unlock; [done |]. eapply wp_kfree_inst; [apply Qd' |].
  rewrite (queued_end _ _ _ Qd'). apply (HQ _ _ r).
  - rewrite R1. unfold retimed. by destruct x, x1.
  - done.
  - rewrite callbacks_calls. by rewrite O1.
  - intros t' N. rewrite callbacks_on. auto.
  - by rewrite callbacks_on.
Qed.

Lemma wp_interrupt ts n x M c L Q :
  tidy x M c -> M !! ts = None -> ts <> NULL -> t <> NULL -> TimerLock t ∉ L -> SlaveLock ∉ L -> 0 <= n ->
  (forall x' M' c', interrupted n x M c x' M' c' -> Q tt (at_work x' M' c' L)) ->
  wp (snd_timer_interrupt ts t n) Q (at_work x M c L).
Proof.
  intros Ti Hts Nts Nt HL HS Hn HQ. set (l := t_instances x) in *. assert (Hl : NoDup l) by apply Ti.
  assert (Htl : ts ∉ l).
  { intros Ha. destruct (ti_inst _ _ _ Ti ts Ha) as (_ & i & Hi & _). congruence. }
  set (M1 := over l (elapsed n) M). set (b := has (t_flags x) FLG_RESCHED).
  set (M2 := over l (after_ticks n b) M).
  assert (Hpl : plain_all M l).
  { intros a Ha. destruct (ti_inst _ _ _ Ti a Ha) as (_ & i & Hi & Hh). exists i. split; [done |]. apply Hh. }
  assert (Hp2 : plain_all M2 (due n M l)).
  { intros a [Ha _]%elem_of_due. destruct (ti_inst _ _ _ Ti a Ha) as (_ & i & Hi & Hh). unfold M2.
    rewrite lookup_over, decide_True, Hi by done. eexists. split; [done |]. by apply (healthy_after n b). }
  assert (Hhw := ti_hw _ _ _ Ti). destruct Hhw as (Hs1 & Hs2 & _).
  unfold snd_timer_interrupt. rewrite (proj2 (Z.eqb_neq _ _)) by done.
  apply wp_bind, wp_new_inst, wp_bind, wp_timer_lock; [done |]. apply wp_bind, wp_timer_at.
  apply wp_bind. fold l. eapply wp_elapse_loop; [by apply queued_nil | done | done | | done | set_solver | done |].
  { intros a Ha. destruct (ti_inst _ _ _ Ti a Ha) as (N & _). set_solver. }
  intros tc Me M3 Qd. cbn [app] in Qd. unfold M3 in *. clear M3. fold M1 in Qd |- *.
  set (x1 := x <| t_running := _ |> <| t_in_use := _ |>). apply wp_bind, wp_timer_at, wp_bind.
  assert (Er1 : t_running x1 = how_many is_running M1 l).
  { unfold x1. cbn [t_running set_field]. rewrite (ti_running _ _ _ Ti). fold l. lia. }
  (* what the delayed starts make of it *)
  eapply wp_mono with (Q := fun _ w => exists x2 M', w = at_work x2 M' c ({[TimerLock t]} ∪ L) /\ queued ts (due n M l) M' M2 /\
    retimed (x1 <| t_running := how_many is_running M2 l |>) x2 /\
    (t_running x2 = 0 -> has (t_flags x2) FLG_CHANGE = false)).
  { apply wp_when.
    - intros Eb. change (t_flags x1) with (t_flags x) in Eb. fold b in Eb.
      assert (E2 : over l admitted M1 = M2) by (unfold M1, M2; rewrite over_over, Eb; done).
      eapply wp_reschedule; [done | |].
      + intros a Ha. destruct (queued_lookup _ _ _ _ a Qd) as [-> | (i & ? & ? & _ & ->)]; [by intros -> | | eauto].
        unfold M1. rewrite lookup_over, decide_True by done. destruct (Hpl a Ha) as (i & -> & _). eauto.
      + change (t_instances x1) with l. intros x2 R2 Hch _. exists x2, (over l admitted Me). split_and!; [done | | |].
        * rewrite <- E2. apply queued_over; [apply admitted_linked | done | done].
        * rewrite (queued_how_many _ _ _ _ _ _ starting_unlinked Qd Htl), Er1, how_many_admitted, E2 in R2; [done |].
          intros a i Ha. unfold M1. rewrite lookup_over, decide_True by done.
          destruct (ti_inst _ _ _ Ti a Ha) as (_ & j & -> & Hh). intros [= <-]. apply healthy_elapsed; done.
        * intros E0. destruct (has (t_flags x2) FLG_CHANGE) eqn:Ec; [| done]. exfalso.
          destruct (Hch eq_refl) as [Ec' | (a & i & Ha & Hi & Hr)].
          { change (t_flags x1) with (t_flags x) in Ec'. rewrite (ti_change _ _ _ Ti) in Ec'. done. }
          rewrite R2 in E0. cbn [t_running set_field] in E0. rewrite Er1 in E0.
          rewrite (queued_how_many _ _ _ _ _ _ starting_unlinked Qd Htl) in E0.
          rewrite how_many_admitted, <- (queued_how_many _ _ _ _ _ _ running_unlinked (queued_over _ _ l _ _ _ admitted_linked Htl Qd) Htl) in E0.
          2: { intros b' j Hb. unfold M1. rewrite lookup_over, decide_True by done.
               destruct (ti_inst _ _ _ Ti b' Hb) as (_ & k & -> & Hh). intros [= <-]. apply healthy_elapsed; done. }
          pose proof (how_many_pos _ _ _ _ _ Ha Hi Hr). lia.
    - intros Eb. change (t_flags x1) with (t_flags x) in Eb. fold b in Eb. exists x1, Me.
      assert (E2 : M1 = M2) by (unfold M1, M2; rewrite Eb; done). rewrite <- E2. split_and!; [done | done | |].
      + rewrite <- Er1. unfold retimed. by destruct x1.
      + intros _. apply Ti. }
  intros [] w (x2 & M' & -> & Qd2 & R2 & Hch2).
  assert (E2 : t_running x2 = how_many is_running M2 l) by (rewrite R2; done).
  eapply wp_interrupt_end; [done | done | done | rewrite R2; done | rewrite R2; done | done | |].
  { intros N. rewrite (ti_on _ _ _ Ti). destruct (Z.eqb_spec (t_running x) 0) as [E0 | ?]; [| done]. exfalso. apply N. rewrite E2.
    assert (forall k, (forall a, a ∈ k -> a ∈ l) -> how_many is_running M2 k = 0) as Hz; [| by apply Hz].
    induction k as [| a k IH]; [done |]. intros Hk. cbn [how_many]. rewrite IH by (intros; apply Hk; by right).
    assert (Ha : a ∈ l) by (apply Hk; left). unfold M2. rewrite lookup_over, decide_True by done.
    destruct (M !! a) as [i |] eqn:Hi; cbn; [| done]. pose proof (tidy_idle _ _ _ Ti E0 a i Ha Hi) as Ei.
    apply orb_false_iff in Ei as [Ei Ej]. unfold after_ticks, elapsed. rewrite Ei. cbn [negb].
    destruct b; [rewrite running_admitted, Ej, orb_false_r |]; by rewrite Ei. }
  intros x3 c3 r R3 Ec3 Ecalls Ho Eon. apply HQ.
  assert (R : retimed (x <| t_running := how_many is_running M2 l |>) x3).
  { rewrite R3, R2. unfold x1, retimed. cbn. destruct x, x2, x3; cbn. f_equal. rewrite (Z.add_simpl_r). done. }
  split; [done | done | | | done].
  - eapply tidy_after; [done | done | exact R | done |]. rewrite Eon. rewrite E2, R. done.
  - exists r. rewrite Ecalls. f_equal. symmetry. apply calls_of_ext.
    + intros a i [Ha _]%elem_of_due Hi. unfold M2. rewrite lookup_over, decide_True, Hi by done. eexists. split; [done |]. apply after_ticks_calls.
    + intros a (_ & i & Hi & _)%elem_of_due. eauto.
Qed.
End Spec.
