(* ===== verification/TimerLive.v ===== *)
(** * TimerLive: timers stay in order, and who starts one is called

    In an orderly world the count of running instances of each timer is right and its
    hardware runs exactly if that count is not zero.  Starting, stopping, continuing, opening,
    closing and interrupts keep this.  An instance that was started is called by the interrupt
    with which its ticks have passed, and not before. *)

From S2P Require Import Prelude SeqEvent SeqTimer Timer TimerRules TimerSpec.
Open Scope Z_scope.
Open Scope state_scope.

Section Live.
Context {C : Type} `{TimerDrivers C} `{!QuietTimers C}.
Abbreviation W := (ST (tworld C)).

(** ** Worlds in order *)

(** Slave instances are left out: starting one can leave its chain in a circle (below). *)
Record arranged (w : tworld C) : Prop := {
  or_timers : forall t x, tw_timers w !! t = Some x -> t <> NULL /\ tidy t x (tw_instances w) (tw_core w);
  or_insts : forall a i, tw_instances w !! a = Some i ->
    exists x, tw_timers w !! i_timer i = Some x /\ a ∈ t_instances x;
  or_devices : forall t, t ∈ tw_devices w -> is_Some (tw_timers w !! t);
  or_slaves : tw_slaves w = [] }.

Record orderly (w : tworld C) : Prop := {
  or_arranged :> arranged w;
  or_locks : tw_locks w = ∅ }.

Lemma or_inst w a i : orderly w -> tw_instances w !! a = Some i ->
  exists x, tw_timers w !! i_timer i = Some x /\ a ∈ t_instances x /\ a <> NULL /\ i_timer i <> NULL /\ healthy (i_timer i) i.
Proof.
  intros O Hi. destruct (or_insts _ O a i Hi) as (x & Hx & Ha). destruct (or_timers _ O _ _ Hx) as [N Ti].
  destruct (ti_inst _ _ _ _ Ti a Ha) as (Na & j & Hj & Hh). replace j with i in * by congruence. eauto 8.
Qed.

Lemma tidy_other t x M c M' c' : tidy t x M c -> (forall a, a ∈ t_instances x -> M' !! a = M !! a) ->
  hw_on t c' = hw_on t c -> tidy t x M' c'.
Proof.
  intros Ti E Eh. split; try apply Ti.
  - intros a Ha. rewrite E by done. by apply Ti.
  - rewrite (ti_running _ _ _ _ Ti). apply how_many_ext. intros a Ha. by rewrite E.
  - intros a i Ha. rewrite E by done. by apply Ti.
  - rewrite Eh. apply Ti.
Qed.

(** Work on one timer that leaves it tidy leaves the world in order. *)
Lemma arranged_work w t x x' M' c' L :
  arranged w -> tw_timers w !! t = Some x -> tidy t x' M' c' ->
  (forall a i, tw_instances w !! a = Some i -> i_timer i <> t -> M' !! a = Some i) ->
  (forall a i, M' !! a = Some i -> a ∈ t_instances x' \/ tw_instances w !! a = Some i /\ i_timer i <> t) ->
  (forall t', t' <> t -> hw_on t' c' = hw_on t' (tw_core w)) -> arranged (at_work w t x' M' c' L).
Proof.
  intros O Hx Ti Ho Hn Hh. destruct (or_timers _ O _ _ Hx) as [Nt _]. split; cbn; try apply O.
  - intros t' y. destruct (decide (t' = t)) as [-> | N].
    + rewrite lookup_insert_eq. by intros [= <-].
    + rewrite lookup_insert_ne by done. intros Hy. destruct (or_timers _ O _ _ Hy) as [N' Ti']. split; [done |].
      eapply tidy_other; [done | | auto]. intros a Ha. destruct (ti_inst _ _ _ _ Ti' a Ha) as (_ & i & Hi & Hh').
      rewrite Hi. apply Ho; [done |]. by rewrite (he_timer _ _ Hh').
  - intros a i Hi. destruct (Hn a i Hi) as [Ha | [Hi' N]].
    + exists x'. destruct (ti_inst _ _ _ _ Ti a Ha) as (_ & j & Hj & Hh'). replace j with i in * by congruence.
      rewrite (he_timer _ _ Hh'), lookup_insert_eq. done.
    + destruct (or_insts _ O _ _ Hi') as (y & Hy & Ha). exists y. by rewrite lookup_insert_ne.
  - intros t' Ht'. destruct (decide (t' = t)) as [-> | N]; [rewrite lookup_insert_eq; eauto |].
    rewrite lookup_insert_ne by done. by apply (or_devices _ O).
Qed.

(** Work that changes only instances of the timer. *)
Lemma orderly_touch w t x x' M' c' :
  orderly w -> tw_timers w !! t = Some x -> t_instances x' = t_instances x -> tidy t x' M' c' ->
  (forall b, b ∉ t_instances x -> M' !! b = tw_instances w !! b) -> (forall t', t' <> t -> hw_on t' c' = hw_on t' (tw_core w)) ->
  orderly (at_work w t x' M' c' ∅).
Proof.
  intros O Hx El Ti Hr Ho. destruct (or_timers _ O _ _ Hx) as [_ Ti0]. split; [| done].
  eapply arranged_work; [apply O | done | done | | | done].
  - intros a i Hi N. rewrite Hr; [done |]. intros Ha. apply N.
    destruct (ti_inst _ _ _ _ Ti0 a Ha) as (_ & j & Hj & Hh'). replace j with i in * by congruence. apply Hh'.
  - intros a i Hi. destruct (decide (a ∈ t_instances x)) as [Ha | Ha]; [left; by rewrite El |]. right.
    rewrite Hr in Hi by done. split; [done |]. intros <-. apply Ha. destruct (or_insts _ O _ _ Hi) as (y & Hy & Hay). congruence.
Qed.

(** ** Interrupts *)

Lemma orderly_interrupt w ts t x n (Q : unit -> tworld C -> Prop) :
  orderly w -> tw_timers w !! t = Some x -> tw_instances w !! ts = None -> ts <> NULL -> 0 <= n ->
  (forall x' M' c', interrupted t n x (tw_instances w) (tw_core w) x' M' c' ->
     orderly (at_work w t x' M' c' ∅) -> Q tt (at_work w t x' M' c' ∅)) ->
  wp (snd_timer_interrupt ts t n) Q w.
Proof.
  intros O Hx Hts Nts Hn HQ. destruct (or_timers _ O _ _ Hx) as [Nt Ti].
  rewrite (at_work_start w t x Hx), (or_locks _ O).
  eapply wp_interrupt; [done | done | done | done | set_solver | set_solver | done |].
  intros x' M' c' I. destruct (I) as [EM R Ti' _ Ho]. apply HQ; [done |]. subst M'.
  eapply orderly_touch; [done | done | rewrite R; done | done | | done].
  intros b Hb. by rewrite lookup_over, decide_False by done.
Qed.

Definition sum (ns : list Z) : Z := foldr Z.add 0 ns.

(** The instances that were called. *)
Definition callees (k : list (Z * Z * Z)) : list Z := (fun e => e.1.1) <$> k.

Lemma elem_of_callees r M l a :
  a ∈ callees (calls_of r M l) <-> a ∈ l /\ exists i, M !! a = Some i /\ i_callback i <> NULL.
Proof.
  unfold callees, calls_of. induction l as [| b l IH]; cbn [omap list_omap]; [set_solver |].
  rewrite elem_of_cons. destruct (M !! b) as [i |] eqn:Hi; [destruct (Z.eqb_spec (i_callback i) NULL) as [E | E] |]; cbn.
  - rewrite IH. split; [tauto |]. intros [[-> | ?] Hj]; [| tauto]. destruct Hj as (j & Hj & Nj). congruence.
  - rewrite elem_of_cons, IH. split; [intros [-> |]; [eauto | tauto] | tauto].
  - rewrite IH. split; [tauto |]. intros [[-> | ?] Hj]; [| tauto]. destruct Hj as (j & Hj & Nj). congruence.
Qed.

Lemma timer_sum_nonneg ns : Forall (Z.le 0) ns -> 0 <= sum ns.
Proof. unfold sum. induction 1; cbn; lia. Qed.

(** An instance that is not called waits for the rest of its ticks. *)
Lemma after_waiting n b i : healthy (i_timer i) i -> counting i = true -> fires n i = false -> (starting i = true -> b = true) ->
  let j := after_ticks n b i in
  is_running j = true /\ i_callback j = i_callback i /\ cticks j = (if is_running i then cticks i - n else cticks i).
Proof.
  intros Hh Hc Hf Hb. pose proof (after_ticks_calls n b i) as [Ecb Etk].
  unfold fires, counting in *. assert (Ho := he_once _ _ Hh). unfold after_ticks.
  destruct (is_running i) eqn:Er; cbn [andb orb] in *.
  - apply Z.leb_gt in Hf. assert (Ee : elapsed n i = i <| cticks := cticks i - n |>).
    { unfold elapsed. rewrite Er. cbn [negb]. by rewrite (proj2 (Z.ltb_lt _ _)). }
    assert (Ea : (if b then admitted (elapsed n i) else elapsed n i) = i <| cticks := cticks i - n |>).
    { destruct b; [| done]. unfold admitted. rewrite Ee. change (i_flags (i <| cticks := cticks i - n |>)) with (i_flags i).
      fold (starting i). by rewrite Ho. }
    by rewrite Ea.
  - rewrite Hb by done. unfold elapsed. rewrite Er. cbn [negb]. split_and!; [by rewrite running_admitted, Hc, orb_true_r | |].
    all: unfold admitted; by case_match.
Qed.

(** ** Starting and stopping *)

Lemma how_many_set P M l a i j : NoDup l -> a ∈ l -> M !! a = Some i ->
  how_many P (<[a := j]> M) l = how_many P M l + b2z (P j) - b2z (P i).
Proof.
  intros Hl. induction Hl as [| b l Hb Hl IH]; [by intros ?%not_elem_of_nil |]. intros Ha Hi. cbn [how_many].
  apply elem_of_cons in Ha as [<- | Ha].
  - rewrite lookup_insert_eq, Hi, how_many_insert by done. lia.
  - rewrite lookup_insert_ne by (intros ->; done). rewrite IH by done. lia.
Qed.

Section One.
Context (w0 : tworld C) (t : Z) (Slaves : tw_slaves w0 = []).
Notation at_work := (at_work w0 t).
Implicit Types (x : timer) (M : gmap Z instance) (c : C) (L : gset tlock).

Lemma wp_add_slaves a i x M c L (Q : unit -> tworld C -> Prop) :
  a <> NULL -> M !! a = Some i -> slave i = NULL -> Q tt (at_work x M c L) -> wp (snd_timer_add_slaves a) Q (at_work x M c L).
Proof.
  intros Na Hi Es HQ. unfold snd_timer_add_slaves. rewrite (proj2 (Z.eqb_neq _ _)) by done.
  apply wp_bind. eapply wp_set_inst; [done |]. rewrite insert_id by (rewrite Hi; by destruct i; cbn in *; subst).
  apply wp_bind, wp_tw_get. cbn. rewrite Slaves. by apply wp_ret.
Qed.

Lemma tidy_set x M c a i j x' c' :
  tidy t x M c -> a ∈ t_instances x -> M !! a = Some i -> healthy t j -> t_instances x' = t_instances x ->
  t_running x' = t_running x + b2z (is_running j) - b2z (is_running i) -> has (t_flags x') FLG_CHANGE = false ->
  ((exists b k, b ∈ t_instances x /\ <[a := j]> M !! b = Some k /\ starting k = true) ->
     has (t_flags x') FLG_RESCHED = true /\ t_running x' <> 0) ->
  t_in_use x' = 0 -> t_hw x' = t_hw x -> hw_on t c' = negb (t_running x' =? 0) -> tidy t x' (<[a := j]> M) c'.
Proof.
  intros Ti Ha Hi Hj El Er Ec Hst Eu Eh Eon. split; rewrite ?El, ?Eh; try done; try apply Ti.
  - intros b Hb. destruct (ti_inst _ _ _ _ Ti b Hb) as (N & k & Hk & Hhk). split; [done |].
    destruct (decide (b = a)) as [-> | Nb]; [rewrite lookup_insert_eq | rewrite lookup_insert_ne by done]; eauto.
  - rewrite Er. erewrite how_many_set by (done || apply Ti). rewrite (ti_running _ _ _ _ Ti). lia.
  - intros b k Hb Hk Hs. apply Hst. eauto.
Qed.

(** The fields that a start sets, with the flag that it raises. *)
Definition started (k bit : Z) (i : instance) : instance :=
  i <| cticks := k |> <| i_ticks := k |> <| i_flags := Z.setbit (i_flags i) bit |>.

Lemma healthy_flag bit i : healthy t i -> is_running i = false -> bit = IFLG_RUNNING /\ starting i = false \/ bit = IFLG_START ->
  0 < cticks i < ULONG_MAX -> 0 < i_ticks i < ULONG_MAX -> healthy t (i <| i_flags := Z.setbit (i_flags i) bit |>).
Proof.
  intros [Ht (P1 & P2 & P3 & P4) Ho Hc] Er Hb Hk1 Hk2.
  assert (E : forall b, has (Z.setbit (i_flags i) bit) b = (bit =? b) || has (i_flags i) b) by (intros; apply has_set; by destruct Hb as [[-> _] | ->]).
  split; [done | repeat split; try done | | done].
  - cbn [i_flags set_field]. rewrite E, P4. by destruct Hb as [[-> _] | ->].
  - unfold is_running, starting in *. cbn [i_flags set_field]. rewrite !E, Er. by destruct Hb as [[-> ->] | ->].
Qed.

Lemma flag_running bit i : bit = IFLG_RUNNING \/ bit = IFLG_START ->
  is_running (i <| i_flags := Z.setbit (i_flags i) bit |>) = (bit =? IFLG_RUNNING) || is_running i /\
  starting (i <| i_flags := Z.setbit (i_flags i) bit |>) = (bit =? IFLG_START) || starting i.
Proof. intros Hb. unfold is_running, starting. cbn [i_flags set_field]. split; apply has_set; by destruct Hb as [-> | ->]. Qed.

(** What starting or continuing does once the ticks are set. *)
Record let_running (a : Z) (i : instance) x M c x' M' c' : Prop := {
  lr_insts : M' = <[a := i <| i_flags := Z.setbit (i_flags i) (if t_running x =? 0 then IFLG_RUNNING else IFLG_START) |>]> M;
  lr_list : t_instances x' = t_instances x;
  lr_tidy : tidy t x' M' c';
  lr_others : others t c c' }.

Lemma lr_idle a i x M c x1 c1 :
  tidy t x M c -> a ∈ t_instances x -> M !! a = Some i -> is_running i = false ->
  0 < cticks i < ULONG_MAX -> 0 < i_ticks i < ULONG_MAX -> t_running x = 0 -> retimed x x1 -> t_flags x1 = t_flags x ->
  others t c c1 -> hw_on t c1 = true ->
  let_running a i x M c (x1 <| t_running := t_running x1 + 1 |>) (<[a := i <| i_flags := Z.setbit (i_flags i) IFLG_RUNNING |>]> M) c1.
Proof.
  intros Ti Ha Hi Er Hk1 Hk2 E0 R Ef O Eon. assert (Hidle := tidy_idle _ _ _ _ Ti E0).
  assert (Es : starting i = false) by (pose proof (Hidle a i Ha Hi) as [_ ?]%orb_false_iff; done).
  destruct (ti_inst _ _ _ _ Ti a Ha) as (_ & j & Hj & Hh). replace j with i in * by congruence.
  destruct (flag_running IFLG_RUNNING i) as [Fr Fs]; [by left |].
  split; [by rewrite E0 | by rewrite R | | done]. eapply tidy_set; [done | done | done | | by rewrite R | | | | by rewrite R; apply Ti | by rewrite R | ].
  - apply healthy_flag; auto.
  - rewrite Fr, Er, R. cbn. lia.
  - cbn [t_flags set_field]. rewrite Ef. apply Ti.
  - intros (b & k & Hb & Hk & Hs). exfalso. revert Hk. destruct (decide (b = a)) as [-> | N].
    + rewrite lookup_insert_eq. intros Hk%(inj Some). subst k. rewrite Fs, Es in Hs. done.
    + rewrite lookup_insert_ne by done. intros Hk. pose proof (Hidle b k Hb Hk) as [_ ?]%orb_false_iff. congruence.
  - rewrite Eon, R. cbn. rewrite E0. done.
Qed.

Lemma lr_delayed a i x M c :
  tidy t x M c -> a ∈ t_instances x -> M !! a = Some i -> is_running i = false ->
  0 < cticks i < ULONG_MAX -> 0 < i_ticks i < ULONG_MAX -> t_running x <> 0 ->
  let_running a i x M c (x <| t_flags := Z.setbit (t_flags x) FLG_RESCHED |>) (<[a := i <| i_flags := Z.setbit (i_flags i) IFLG_START |>]> M) c.
Proof.
  intros Ti Ha Hi Er Hk1 Hk2 E0. destruct (flag_running IFLG_START i) as [Fr Fs]; [by right |].
  destruct (ti_inst _ _ _ _ Ti a Ha) as (_ & j & Hj & Hh). replace j with i in * by congruence.
  split; [by rewrite (proj2 (Z.eqb_neq _ _)) by done | done | | done].
  eapply tidy_set; [done | done | done | | done | | | | apply Ti | done | apply Ti].
  - apply healthy_flag; auto.
  - rewrite Fr, Er. cbn. lia.
  - cbn [t_flags set_field]. rewrite has_set by done. apply Ti.
  - intros _. cbn [t_flags t_running set_field]. by rewrite has_set.
Qed.
Lemma healthy_ticks i k : healthy t i -> is_running i = false -> 0 < k < ULONG_MAX -> healthy t (i <| cticks := k |> <| i_ticks := k |>).
Proof. intros [Ht Hp Ho Hc] Er Hk. split; [done | done | done |]. intros _. cbn. done. Qed.

Lemma tidy_ticks x M c a i j : tidy t x M c -> a ∈ t_instances x -> M !! a = Some i -> healthy t j ->
  i_flags j = i_flags i -> tidy t x (<[a := j]> M) c.
Proof.
  intros Ti Ha Hi Hj Ef. assert (Er : is_running j = is_running i) by (unfold is_running; by rewrite Ef).
  eapply tidy_set; [done | done | done | done | done | rewrite Er; lia | apply Ti | | apply Ti | done | apply Ti].
  intros (b & k & Hb & Hk & Hs). destruct (decide (b = a)) as [-> | N].
  - rewrite lookup_insert_eq in Hk. apply (inj Some) in Hk. subst k. eapply (ti_resched _ _ _ _ Ti); [exact Ha | done |].
    unfold starting in *. by rewrite <- Ef.
  - rewrite lookup_insert_ne in Hk by done. by eapply (ti_resched _ _ _ _ Ti).
Qed.

Lemma wp_start a i k x M c (Q : Z -> tworld C -> Prop) :
  t <> NULL -> tidy t x M c -> a ∈ t_instances x -> M !! a = Some i -> is_running i = false -> 0 < k < ULONG_MAX ->
  (forall x' M' c', let_running a (i <| cticks := k |> <| i_ticks := k |>) x M c x' M' c' ->
     Q (if t_running x =? 0 then 0 else 1) (at_work x' M' c' ∅)) ->
  wp (snd_timer_start a k) Q (at_work x M c ∅).
Proof.
  intros Nt Ti Ha Hi Er Hk HQ. destruct (ti_inst _ _ _ _ Ti a Ha) as (Na & i' & Hi' & Hh). replace i' with i in * by congruence. clear i' Hi'.
  pose proof (he_plain _ _ Hh) as (_ & _ & Psl & Pflag).
  set (j := i <| cticks := k |> <| i_ticks := k |>) in *. assert (Hj : healthy t j) by by apply healthy_ticks.
  assert (Tj : tidy t x (<[a := j]> M) c) by (by eapply tidy_ticks).
  assert (Hja : <[a := j]> M !! a = Some j) by apply lookup_insert_eq.
  unfold snd_timer_start. rewrite (proj2 (Z.eqb_neq _ _)), (proj2 (Z.ltb_ge _ _)) by lia. cbn [orb].
  apply wp_bind. eapply wp_inst_at; [done |]. rewrite Pflag, (he_timer _ _ Hh). cbn [negb].
  rewrite (proj2 (Z.eqb_neq _ _)) by done. apply wp_bind, wp_timer_lock; [set_solver |].
  apply wp_bind. eapply wp_set_inst; [done |]. fold j. apply wp_bind, wp_timer_at.
  assert (Hend : forall r x' M' c', let_running a j x (<[a := j]> M) c x' M' c' -> r = (if t_running x =? 0 then 0 else 1) ->
    wp (lock SlaveLock;;; snd_timer_add_slaves a;;; unlock SlaveLock;;; unlock (TimerLock t);;; ret r) Q (at_work x' M' c' ({[TimerLock t]} ∪ ∅))).
  { intros r x' M' c' L ->. apply wp_bind, wp_timer_lock; [set_solver |].
    apply wp_bind. eapply wp_add_slaves; [done | rewrite (lr_insts _ _ _ _ _ _ _ _ L); apply lookup_insert_eq | done |].
    apply wp_bind, wp_timer_unlock; [set_solver |]. apply wp_bind, wp_timer_unlock; [set_solver |]. apply wp_ret, HQ.
    destruct L as [EM El Tx O]. split; [| done | done | done]. rewrite EM. by rewrite insert_insert_eq. }
  apply wp_bind. destruct (Z.eqb_spec (t_running x) 0) as [E0 | E0]; cbn [negb].
  - apply wp_bind, wp_set_timer, wp_bind, wp_call_hw; [apply (ti_hw _ _ _ _ Ti) |]. apply wp_bind, wp_set_timer, wp_bind.
    eapply wp_set_inst; [done |]. apply wp_ret. eapply Hend; [| done].
    eapply lr_idle; [exact Tj | done | done | done | done | done | done | | | | ].
    + eapply retimed_trans; [apply (retimed_sticks x k) | exact (low_level_retimed t _ _ _)].
    + exact (low_level_same_flags t _ _ _).
    + exact (low_level_others t _ _ _).
    + by rewrite low_level_on, Z.eqb_refl.
  - apply wp_bind, wp_set_timer, wp_bind. eapply wp_set_inst; [done |]. apply wp_ret. eapply Hend; [| done].
    by apply lr_delayed.
Qed.

Lemma wp_continue a i x M c (Q : Z -> tworld C -> Prop) :
  t <> NULL -> tidy t x M c -> a ∈ t_instances x -> M !! a = Some i -> is_running i = false -> 0 < i_ticks i < ULONG_MAX ->
  0 <= cticks i < ULONG_MAX ->
  (forall x' M' c', let_running a (i <| cticks := if cticks i =? 0 then 1 else cticks i |>) x M c x' M' c' ->
     Q (if t_running x =? 0 then 0 else 1) (at_work x' M' c' ∅)) ->
  wp (snd_timer_continue a) Q (at_work x M c ∅).
Proof.
  intros Nt Ti Ha Hi Er Hk Hc HQ. destruct (ti_inst _ _ _ _ Ti a Ha) as (Na & i' & Hi' & Hh). replace i' with i in * by congruence. clear i' Hi'.
  pose proof (he_plain _ _ Hh) as (_ & _ & Psl & Pflag).
  set (j := i <| cticks := _ |>) in *.
  assert (Hcj : 0 < cticks j < ULONG_MAX) by (unfold j, ULONG_MAX, UINT_MAX in *; cbn; btest; lia).
  assert (Hj : healthy t j) by (split; [apply Hh | apply Hh | apply Hh | intros _; done]).
  assert (Tj : tidy t x (<[a := j]> M) c) by (by eapply tidy_ticks).
  assert (Hja : <[a := j]> M !! a = Some j) by apply lookup_insert_eq.
  unfold snd_timer_continue. rewrite (proj2 (Z.eqb_neq a NULL)) by done.
  apply wp_bind. eapply wp_inst_at; [done |]. rewrite Pflag, (he_timer _ _ Hh).
  rewrite (proj2 (Z.eqb_neq _ _)) by done. apply wp_bind, wp_timer_lock; [set_solver |].
  fold (is_running i). rewrite Er. cbn [negb]. apply wp_bind, wp_bind.
  eapply wp_mono with (Q := fun _ w => w = at_work x (<[a := j]> M) c ({[TimerLock t]} ∪ ∅)).
  { apply wp_when.
    - intros E. eapply wp_set_inst; [done |]. unfold j. by rewrite E.
    - intros E. unfold j. rewrite E, insert_id; [done |]. rewrite Hi. by destruct i. }
  intros [] _ ->. apply wp_bind, wp_timer_at.
  assert (Hend : forall r x' M' c', let_running a j x (<[a := j]> M) c x' M' c' -> r = (if t_running x =? 0 then 0 else 1) ->
    wp (lock SlaveLock;;; snd_timer_add_slaves a;;; unlock SlaveLock;;; ret r)
      (fun r => wp (unlock (TimerLock t);;; ret r) Q) (at_work x' M' c' ({[TimerLock t]} ∪ ∅))).
  { intros r x' M' c' L ->. apply wp_bind, wp_timer_lock; [set_solver |].
    apply wp_bind. eapply wp_add_slaves; [done | rewrite (lr_insts _ _ _ _ _ _ _ _ L); apply lookup_insert_eq | done |].
    apply wp_bind, wp_timer_unlock; [set_solver |]. apply wp_ret, wp_bind, wp_timer_unlock; [set_solver |]. apply wp_ret, HQ.
    destruct L as [EM El Tx O]. split; [| done | done | done]. rewrite EM. by rewrite insert_insert_eq. }
  apply wp_bind. destruct (Z.eqb_spec (t_running x) 0) as [E0 | E0]; cbn [negb].
  - apply wp_bind, wp_call_hw; [apply (ti_hw _ _ _ _ Ti) |]. apply wp_bind, wp_set_timer, wp_bind.
    eapply wp_set_inst; [done |]. apply wp_ret. eapply Hend; [| done].
    eapply lr_idle; [exact Tj | done | done | done | done | done | done | exact (low_level_retimed t _ _ _) | exact (low_level_same_flags t _ _ _) | exact (low_level_others t _ _ _) |].
    by rewrite low_level_on, Z.eqb_refl.
  - apply wp_bind, wp_set_timer, wp_bind. eapply wp_set_inst; [done |]. apply wp_ret. eapply Hend; [| done].
    by apply lr_delayed.
Qed.
Lemma earliest_bounds M l : (forall a i, a ∈ l -> M !! a = Some i -> is_running i = true -> 0 < cticks i < ULONG_MAX) ->
  forall found ticks, 0 < ticks <= ULONG_MAX -> (found = true -> ticks < ULONG_MAX) ->
  0 < earliest M found ticks l /\
  (found = true -> earliest M found ticks l < ULONG_MAX) /\
  (forall a i, (forall b, b ∈ l -> is_Some (M !! b)) -> a ∈ l -> M !! a = Some i -> is_running i = true -> earliest M found ticks l < ULONG_MAX).
Proof.
  induction l as [| b l IH]; intros Hc found ticks Ht Hf; cbn [earliest].
  { split_and!; [lia | done |]. intros a i _ Ha. by apply not_elem_of_nil in Ha. }
  assert (Hc' : forall a i, a ∈ l -> M !! a = Some i -> is_running i = true -> 0 < cticks i < ULONG_MAX)
    by (intros; eapply Hc; [by right | done | done]).
  destruct (M !! b) as [j |] eqn:Hj.
  2: { split_and!; [lia | done |]. intros a i Hs. destruct (Hs b ltac:(left)). congruence. }
  destruct (is_running j) eqn:Er.
  - specialize (Hc b j ltac:(left) Hj Er).
    set (e := if found then if cticks j <? ticks then cticks j else ticks else cticks j).
    assert (Hb : 0 < e < ULONG_MAX) by (unfold e; destruct found; [specialize (Hf eq_refl); btest |]; lia).
    destruct (IH Hc' true e ltac:(lia) ltac:(lia)) as (H1 & H2 & _). split_and!; [done | auto | auto].
  - destruct (IH Hc' found ticks Ht Hf) as (H1 & H2 & H3). split_and!; [done | done |]. intros a i Hs [-> | Ha]%elem_of_cons Hi Hri; [congruence |].
    eapply H3; [| done..]. intros; apply Hs; by right.
Qed.

Definition halted (i : instance) : instance := i <| i_flags := Z.clearbit (i_flags i) IFLG_RUNNING |>.

Lemma halted_flags i : is_running (halted i) = false /\ starting (halted i) = starting i.
Proof.
  unfold is_running, starting, halted. cbn [i_flags set_field]. rewrite !has_clear by done.
  split; [apply andb_false_r | apply andb_true_r].
Qed.

Lemma healthy_halted i : healthy t i -> is_running i = true -> healthy t (halted i).
Proof.
  intros [Ht (P1 & P2 & P3 & P4) Ho Hc] Er. destruct (halted_flags i) as [E1 E2]. split; [done | | |].
  - repeat split; try done. cbn [halted i_flags set_field]. rewrite has_clear by done. by rewrite P4.
  - by rewrite E1.
  - unfold counting. rewrite E1, E2. rewrite Er in Ho. cbn [andb orb] in *. by rewrite Ho.
Qed.

(** What a stop leaves. *)
Record stopping (a : Z) (i : instance) x M c x' M' c' : Prop := {
  st_inst : M' !! a = Some (if is_running i then halted i else i);
  st_rest : forall b, b ∉ t_instances x -> M' !! b = M !! b;
  st_other : forall b k, b <> a -> M !! b = Some k -> M' !! b = Some k \/ M' !! b = Some (admitted k);
  st_list : t_instances x' = t_instances x;
  st_hw : t_hw x' = t_hw x;
  st_card : tmr_card x' = tmr_card x;
  st_tidy : tidy t x' M' c';
  st_others : others t c c' }.

(** The last running instance stops; delayed starts take over. *)
Lemma stopping_last a i x M c x1 c1 x2 :
  tidy t x M c -> a ∈ t_instances x -> M !! a = Some i -> is_running i = true -> t_running x = 1 ->
  retimed (x <| t_running := 0 |>) x1 -> has (t_flags x1) FLG_CHANGE = false -> hw_on t c1 = false -> others t c c1 ->
  let M1 := <[a := halted i]> M in let M2 := over (t_instances x) admitted M1 in
  retimed (x1 <| t_running := t_running x1 + how_many starting M1 (t_instances x) |>) x2 ->
  (has (t_flags x2) FLG_CHANGE = true -> exists a i, a ∈ t_instances x /\ M2 !! a = Some i /\ is_running i = true) ->
  (earliest M2 false ULONG_MAX (t_instances x) <> ULONG_MAX -> 0 < earliest M2 false ULONG_MAX (t_instances x) -> 0 < hw_ticks (t_hw x) ->
     has (t_flags x2) FLG_CHANGE = true) ->
  forall x3 c3, retimed x2 x3 -> has (t_flags x3) FLG_CHANGE = false -> others t c1 c3 ->
  hw_on t c3 = has (t_flags x2) FLG_CHANGE -> stopping a i x M c x3 M2 c3.
Proof.
  intros Ti Ha Hi Er E1 R1 _ Eoff O1 M1 M2 R2 Hch Hset x3 c3 R3 Ec3 O3 Eon. set (l := t_instances x) in *.
  destruct (ti_inst _ _ _ _ Ti a Ha) as (Na & i' & Hi' & Hh). replace i' with i in * by congruence. clear i' Hi'.
  destruct (halted_flags i) as [F1 F2]. assert (Es : starting i = false) by (pose proof (he_once _ _ Hh); rewrite Er in *; done).
  assert (Hall : forall b, b ∈ l -> b <> NULL /\ exists k, M1 !! b = Some k /\ healthy t k).
  { intros b Hb. destruct (ti_inst _ _ _ _ Ti b Hb) as (Nb & k & Hk & Hhk). split; [done |]. unfold M1.
    destruct (decide (b = a)) as [-> | N]; [rewrite lookup_insert_eq; eexists; split; [done | by apply healthy_halted] |].
    rewrite lookup_insert_ne by done. eauto. }
  assert (Hall2 : forall b, b ∈ l -> b <> NULL /\ exists k, M2 !! b = Some k /\ healthy t k /\ starting k = false).
  { intros b Hb. destruct (Hall b Hb) as (Nb & k & Hk & Hhk). split; [done |]. unfold M2. rewrite lookup_over, decide_True, Hk by done.
    eexists. split; [done |]. split; [by apply healthy_admitted | apply starting_admitted]. }
  assert (Ez : how_many is_running M1 l = 0).
  { unfold M1. erewrite how_many_set by (done || apply Ti). rewrite F1, Er. pose proof (ti_running _ _ _ _ Ti) as Et. fold l in Et. cbn. lia. }
  assert (E2 : t_running x3 = how_many is_running M2 l).
  { rewrite R3, R2, R1. cbn [t_running set_field]. unfold M2. rewrite <- how_many_admitted; [lia |].
    intros b k Hb Hk. destruct (Hall b Hb) as (_ & k' & Hk' & Hhk). replace k' with k in * by congruence. apply Hhk. }
  assert (El : t_instances x3 = l) by (rewrite R3, R2, R1; done).
  split; try done; try (by rewrite R3, R2, R1).
  - unfold M2. rewrite lookup_over, decide_True by done. unfold M1. rewrite lookup_insert_eq, Er. cbn. f_equal.
    unfold admitted. fold (starting (halted i)). by rewrite F2, Es.
  - intros b Hb. unfold M2. rewrite lookup_over, decide_False by done. unfold M1. rewrite lookup_insert_ne; [done |]. intros ->. done.
  - intros b k Nb Hk. unfold M2, M1. rewrite lookup_over, lookup_insert_ne, Hk by done. case_decide; [by right | by left].
  - split; rewrite ?El; try done; try apply Ti; try (by rewrite R3, R2, R1; apply Ti).
    + intros b Hb. destruct (Hall2 b Hb) as (Nb & k & Hk & Hhk & _). eauto.
    + intros b k Hb Hk. destruct (Hall2 b Hb) as (_ & k' & Hk' & _ & Hs). congruence.
    + rewrite Eon, E2. destruct (Z.eqb_spec (how_many is_running M2 l) 0) as [Ez2 | Nz]; cbn [negb].
      * destruct (has (t_flags x2) FLG_CHANGE) eqn:Ec; [| done]. destruct (Hch eq_refl) as (b & k & Hb & Hk & Hr).
        pose proof (how_many_pos _ _ _ _ _ Hb Hk Hr). lia.
      * destruct (how_many_some _ _ _ Nz) as (b & k & Hb & Hk & Hr).
        destruct (earliest_bounds M2 l) with (found := false) (ticks := ULONG_MAX) as (B1 & _ & B3).
        { intros b' k' Hb' Hk' Hr'. destruct (Hall2 b' Hb') as (_ & k2 & Hk2 & Hhk & _). replace k2 with k' in * by congruence.
          apply (he_count _ _ Hhk). unfold counting. by rewrite Hr'. }
        { done. } { done. }
        rewrite Hset; [done | | done | apply Ti]. intros Ee. specialize (B3 b k). rewrite Ee in B3.
        enough (ULONG_MAX < ULONG_MAX) by lia. apply B3; [| done..]. intros b' Hb'. destruct (Hall2 b' Hb') as (_ & k2 & -> & _). eauto.
  - eapply others_trans; done.
Qed.
Lemma stopping_other a i x M c :
  tidy t x M c -> a ∈ t_instances x -> M !! a = Some i -> is_running i = true -> t_running x <> 1 ->
  stopping a i x M c (x <| t_running := t_running x - 1 |>) (<[a := halted i]> M) c.
Proof.
  intros Ti Ha Hi Er N1. destruct (ti_inst _ _ _ _ Ti a Ha) as (Na & i' & Hi' & Hh). replace i' with i in * by congruence. clear i' Hi'.
  destruct (halted_flags i) as [F1 F2]. assert (Es : starting i = false) by (pose proof (he_once _ _ Hh) as Ho; by rewrite Er in Ho).
  assert (Hpos := how_many_pos _ _ _ _ _ Ha Hi Er). rewrite <- (ti_running _ _ _ _ Ti) in Hpos.
  split; [by rewrite lookup_insert_eq, Er | | | done | done | done | | done].
  - intros b Hb. rewrite lookup_insert_ne; [done |]. by intros ->.
  - intros b k Nb Hk. rewrite lookup_insert_ne by done. by left.
  - eapply tidy_set; [done | done | done | by apply healthy_halted | done | | apply Ti | | apply Ti | done |].
    + rewrite F1, Er. cbn. lia.
    + intros (b & k & Hb & Hk & Hs). destruct (decide (b = a)) as [-> | N].
      * rewrite lookup_insert_eq in Hk. apply (inj Some) in Hk. subst k. congruence.
      * rewrite lookup_insert_ne in Hk by done. destruct (ti_resched _ _ _ _ Ti b k Hb Hk Hs). split; [done |]. cbn. lia.
    + rewrite (ti_on _ _ _ _ Ti). cbn [t_running set_field]. rewrite !(proj2 (Z.eqb_neq _ _)) by lia. done.
Qed.

Lemma wp_stop a i x M c (Q : Z -> tworld C -> Prop) :
  t <> NULL -> tidy t x M c -> a ∈ t_instances x -> M !! a = Some i ->
  (forall x' M' c', stopping a i x M c x' M' c' -> Q 0 (at_work x' M' c' ∅)) ->
  wp (snd_timer_stop a) Q (at_work x M c ∅).
Proof.
  intros Nt Ti Ha Hi HQ. destruct (ti_inst _ _ _ _ Ti a Ha) as (Na & i' & Hi' & Hh). replace i' with i in * by congruence. clear i' Hi'.
  pose proof (he_plain _ _ Hh) as (_ & _ & Psl & Pflag). destruct (ti_hw _ _ _ _ Ti) as (Hs1 & Hs2 & Hs3).
  unfold snd_timer_stop. rewrite (proj2 (Z.eqb_neq a NULL)) by done.
  apply wp_bind. eapply wp_inst_at; [done |]. rewrite Pflag, (he_timer _ _ Hh). cbn [negb].
  rewrite (proj2 (Z.eqb_neq _ _)) by done. apply wp_bind, wp_timer_lock; [set_solver |]. fold (is_running i).
  apply wp_bind.
  assert (Hend : forall x' M' c', stopping a i x M c x' M' c' ->
    wp (unlock (TimerLock t);;; ret 0) Q (at_work x' M' c' ({[TimerLock t]} ∪ ∅))).
  { intros x' M' c' S. apply wp_bind, wp_timer_unlock; [set_solver |]. by apply wp_ret, HQ. }
  apply wp_when; intros Er.
  2: { apply Hend. split; try done; [by rewrite Er | by left]. }
  apply wp_bind. eapply wp_set_inst; [done |]. fold (halted i). apply wp_bind, wp_set_timer, wp_bind, wp_timer_at.
  cbn beta. set (x0 := x <| t_running := t_running x - 1 |>). change (t_running x0) with (t_running x - 1). apply wp_when.
  2: { intros N1%Z.eqb_neq. apply Hend, stopping_other; try done. lia. }
  intros E1%Z.eqb_eq. assert (E1' : t_running x = 1) by lia.
  assert (E0 : x0 = x <| t_running := 0 |>) by (unfold x0; by rewrite E1').
  assert (Ec0 : has (t_flags x) FLG_CHANGE = false) by apply Ti.
  apply wp_bind, wp_call_hw; [done |]. apply wp_bind, wp_timer_at. set (r := low_level HwStop t x0 c).
  assert (R0 : retimed x0 r.1) by exact (low_level_retimed t _ _ _). assert (Ef0 : t_flags r.1 = t_flags x) by exact (low_level_same_flags t _ _ _).
  assert (Eoff : hw_on t r.2 = false) by (unfold r; by rewrite low_level_on, Z.eqb_refl).
  assert (O0 : others t c r.2) by exact (low_level_others t _ _ _). clearbody r.
  assert (El0 : t_instances r.1 = t_instances x) by (by rewrite R0, E0). assert (Eh0 : t_hw r.1 = t_hw x) by (by rewrite R0, E0).
  rewrite E0 in R0.
  assert (Hlast := fun x1 => stopping_last a i x M c x1 r.2). set (M1 := <[a := halted i]> M) in *.
  apply wp_when; rewrite Ef0; intros Er1.
  - apply wp_bind, wp_set_timer, wp_bind. set (x1 := r.1 <| t_flags := _ |>).
    assert (R1 : retimed (x <| t_running := 0 |>) x1) by (eapply retimed_trans; [exact R0 | apply retimed_flags]).
    assert (Ec1 : has (t_flags x1) FLG_CHANGE = false) by (unfold x1; cbn [t_flags set_field]; rewrite Ef0, has_clear by done; by rewrite Ec0).
    eapply wp_reschedule; change (t_instances x1) with (t_instances r.1); rewrite El0; [apply Ti | |].
    { intros b Hb. unfold M1. destruct (decide (b = a)) as [-> | N]; [rewrite lookup_insert_eq; eauto |].
      rewrite lookup_insert_ne by done. destruct (ti_inst _ _ _ _ Ti b Hb) as (_ & k & -> & _). eauto. }
    intros x2 R2 Hch Hset. change (t_hw x1) with (t_hw r.1) in Hset. rewrite Eh0 in Hset.
    assert (Hch' : has (t_flags x2) FLG_CHANGE = true -> exists b k, b ∈ t_instances x /\ over (t_instances x) admitted M1 !! b = Some k /\ is_running k = true)
      by (intros E; destruct (Hch E) as [E' | ?]; [congruence | done]).
    specialize (Hlast x1 x2 Ti Ha Hi Er E1' R1 Ec1 Eoff O0 R2 Hch' Hset).
    apply wp_bind, wp_timer_at, wp_when; intros Ec2.
    + apply wp_bind, wp_set_timer, wp_call_hw; [rewrite R2; unfold x1; cbn; by rewrite Eh0 |].
      apply Hend, Hlast; [eapply retimed_trans; [apply retimed_flags | exact (low_level_retimed t _ _ _)] | | exact (low_level_others t _ _ _) |].
      * rewrite (low_level_same_flags t). cbn [t_flags set_field]. rewrite has_clear by done. apply andb_false_r.
      * rewrite low_level_on, Z.eqb_refl, Ec2. done.
    + apply Hend, Hlast; [apply retimed_refl | done | done | by rewrite Eoff, Ec2].
  - apply Hend. assert (EM : over (t_instances x) admitted M1 = M1).
    { apply over_id. intros b k Hb Hk. unfold admitted. fold (starting k). destruct (starting k) eqn:Es; [| done]. exfalso.
      unfold M1 in Hk. destruct (decide (b = a)) as [-> | N].
      - rewrite lookup_insert_eq in Hk. apply (inj Some) in Hk. subst k. rewrite (proj2 (halted_flags i)) in Es.
        pose proof (he_once _ _ Hh) as Ho. by rewrite Er, Es in Ho.
      - rewrite lookup_insert_ne in Hk by done. destruct (ti_resched _ _ _ _ Ti b k Hb Hk Es). congruence. }
    assert (Ez : how_many starting M1 (t_instances x) = 0).
    { destruct (Z.eq_dec (how_many starting M1 (t_instances x)) 0) as [? | (b & k & Hb & Hk & Hs)%how_many_some]; [done |]. exfalso.
      assert (E : admitted k = k) by (assert (E : over (t_instances x) admitted M1 !! b = M1 !! b) by (by rewrite EM);
        rewrite lookup_over, decide_True, Hk in E by done; by apply (inj Some) in E).
      pose proof (starting_admitted k) as E'. rewrite E in E'. congruence. }
    assert (Er0 : how_many is_running M1 (t_instances x) = 0).
    { unfold M1. erewrite how_many_set by (done || apply Ti). rewrite (proj1 (halted_flags i)), Er. rewrite <- (ti_running _ _ _ _ Ti), E1'. done. }
    specialize (Hlast r.1 r.1). cbn zeta in Hlast. rewrite EM, Ez, Z.add_0_r in Hlast.
    apply Hlast; try done; [by rewrite Ef0 | unfold retimed; by destruct r.1 | by rewrite Ef0, Ec0 | | apply retimed_refl | by rewrite Ef0 | by rewrite Ef0, Ec0].
    intros Ne. exfalso. destruct (earliest_found _ _ _ _ Ne) as (b & k & Hb & Hk & Hr).
    pose proof (how_many_pos _ _ _ _ _ Hb Hk Hr). lia.
Qed.
End One.
(** ** Opening and closing *)

Lemma timer_unlink_spec a l : a ∈ l -> exists l1 l2, l = l1 ++ a :: l2 /\ unlink a l = Some (l1 ++ l2).
Proof.
  induction l as [| b l IH]; [by intros ?%not_elem_of_nil |]. cbn [unlink]. destruct (Z.eqb_spec b a) as [-> | N].
  - intros _. exists [], l. done.
  - intros [-> | Ha]%elem_of_cons; [done |]. destruct (IH Ha) as (l1 & l2 & -> & ->). exists (b :: l1), l2. done.
Qed.

Lemma how_many_delete P M a l : a ∉ l -> how_many P (delete a M) l = how_many P M l.
Proof. intros Ha. apply how_many_ext. intros b Hb. by rewrite lookup_delete_ne by (intros ->; done). Qed.

(** A new instance at the head of the list. *)
Lemma tidy_open t x M c a i c' : tidy t x M c -> a <> NULL -> M !! a = None -> healthy t i -> counting i = false ->
  hw_on t c' = hw_on t c -> tidy t (x <| t_instances := a :: t_instances x |>) (<[a := i]> M) c'.
Proof.
  intros Ti Na Ha Hi [Er Es]%orb_false_iff Eon.
  assert (Hnew : a ∉ t_instances x) by (intros Hin; destruct (ti_inst _ _ _ _ Ti a Hin) as (_ & k & Hk & _); congruence).
  split; cbn [t_instances t_running t_flags t_in_use t_hw set_field]; try apply Ti; [| | | | by rewrite Eon; apply Ti].
  - constructor; [done | apply Ti].
  - intros b [-> | Hb]%elem_of_cons; [rewrite lookup_insert_eq; eauto |].
    rewrite lookup_insert_ne by (intros ->; done). by apply Ti.
  - cbn [how_many]. rewrite lookup_insert_eq, Er, how_many_insert by done. rewrite (ti_running _ _ _ _ Ti). done.
  - intros b k [-> | Hb]%elem_of_cons.
    + rewrite lookup_insert_eq. intros Hk%(inj Some). subst k. congruence.
    + rewrite lookup_insert_ne by (intros ->; done). by apply Ti.
Qed.

(** An instance that does not run leaves the list. *)
Lemma tidy_close t x M c a i l1 l2 x' c' : tidy t x M c -> t_instances x = l1 ++ a :: l2 -> M !! a = Some i -> is_running i = false ->
  retimed (x <| t_instances := l1 ++ l2 |>) x' -> t_flags x' = t_flags x -> hw_on t c' = hw_on t c -> tidy t x' (delete a M) c'.
Proof.
  intros Ti El Hi Er R Ef Eon. pose proof (ti_nodup _ _ _ _ Ti) as Hn. rewrite El in Hn.
  apply NoDup_app in Hn as (Hn1 & Hn2 & [Hn3 Hn4]%NoDup_cons).
  assert (Ha : a ∉ l1 ++ l2) by (rewrite elem_of_app; intros [? | ?]; [eapply Hn2; [done | left] | done]).
  assert (Hsub : forall b, b ∈ l1 ++ l2 -> b ∈ t_instances x /\ b <> a).
  { intros b Hb. rewrite El. split; [| by intros ->]. rewrite elem_of_app, elem_of_cons in *. tauto. }
  assert (El' : t_instances x' = l1 ++ l2) by (by rewrite R).
  split; rewrite ?El', ?Ef; try apply Ti; try (rewrite R; apply Ti).
  - apply NoDup_app. split_and!; [done | | done]. intros b Hb Hb'. eapply Hn2; [done | by right].
  - intros b [Hb Nb]%Hsub. rewrite lookup_delete_ne by done. by apply Ti.
  - rewrite R. cbn [t_running set_field]. rewrite (ti_running _ _ _ _ Ti), El, how_many_delete, !how_many_app by done.
    cbn [how_many]. rewrite Hi, Er. cbn. lia.
  - intros b k [Hb Nb]%Hsub. rewrite lookup_delete_ne by done. intros Hk Hs. rewrite R. cbn [t_running set_field]. by eapply (ti_resched _ _ _ _ Ti).
  - rewrite Eon, R. apply Ti.
Qed.

(** ** Calls and interrupts *)

Inductive op :=
| OpOpen (owner : list Z) (tid : snd_timer_id) | OpClose (a : Z)
| OpStart (a ticks : Z) | OpStop (a : Z) | OpContinue (a : Z)
| OpInterrupt (ts t ticks_left : Z).

Definition perform (o : op) : W unit :=
  match o with
  | OpOpen owner tid => snd_timer_open owner tid;;; ret tt
  | OpClose a => snd_timer_close a;;; ret tt
  | OpStart a k => snd_timer_start a k;;; ret tt
  | OpStop a => snd_timer_stop a;;; ret tt
  | OpContinue a => snd_timer_continue a;;; ret tt
  | OpInterrupt ts t n => snd_timer_interrupt ts t n
  end.

(** An instance that runs is not started again, one that was never started is not continued,
    and slaves are left out. *)
Definition allowed (w : tworld C) (o : op) : Prop :=
  match o with
  | OpOpen _ tid => dev_class tid <> TIMER_CLASS_SLAVE
  | OpClose a | OpStop a => is_Some (tw_instances w !! a)
  | OpStart a k => exists i, tw_instances w !! a = Some i /\ (is_running i = false \/ k < 1) /\ k < ULONG_MAX
  | OpContinue a => exists i, tw_instances w !! a = Some i /\
      (is_running i = false -> 0 < i_ticks i < ULONG_MAX /\ 0 <= cticks i < ULONG_MAX)
  | OpInterrupt ts t n => is_Some (tw_timers w !! t) /\ tw_instances w !! ts = None /\ ts <> NULL /\ 0 <= n
  end.

(** The other instances are as before, apart from delayed starts that take effect, and no
    callback was made. *)
Record spares (b : Z) (w w' : tworld C) : Prop := {
  sp_calls : calls (tw_core w') = calls (tw_core w);
  sp_insts : forall a i, a <> b -> tw_instances w !! a = Some i ->
    tw_instances w' !! a = Some i \/ tw_instances w' !! a = Some (admitted i) }.

Lemma spares_refl b w w' : tw_core w' = tw_core w -> tw_instances w' = tw_instances w -> spares b w w'.
Proof. intros Ec Ei. split; [by rewrite Ec |]. intros a i _. rewrite Ei. by left. Qed.

Lemma let_running_spares t a i j x w x' M' c' L : tw_instances w !! a = Some i ->
  let_running t a j x (tw_instances w) (tw_core w) x' M' c' -> spares a w (at_work w t x' M' c' L).
Proof.
  intros Hi [EM _ _ [Ec _]]. split; [done |]. intros b k Nb Hk. cbn. left. by rewrite EM, lookup_insert_ne by done.
Qed.

Lemma orderly_let_running w t x a i x' M' c' : orderly w -> tw_timers w !! t = Some x -> a ∈ t_instances x ->
  let_running t a i x (tw_instances w) (tw_core w) x' M' c' -> orderly (at_work w t x' M' c' ∅).
Proof.
  intros O Hx Ha [-> El Ti Ho]. eapply orderly_touch; [done | done | done | done | | apply Ho].
  intros b Hb. rewrite lookup_insert_ne; [done |]. by intros ->.
Qed.

Lemma orderly_start w a k (Q : Z -> tworld C -> Prop) :
  orderly w -> (exists i, tw_instances w !! a = Some i /\ is_running i = false /\ 0 < k < ULONG_MAX) ->
  (forall x i x' M' c', tw_timers w !! i_timer i = Some x -> a ∈ t_instances x -> tw_instances w !! a = Some i ->
     is_running i = false ->
     let_running (i_timer i) a (i <| cticks := k |> <| i_ticks := k |>) x (tw_instances w) (tw_core w) x' M' c' ->
     orderly (at_work w (i_timer i) x' M' c' ∅) -> Q (if t_running x =? 0 then 0 else 1) (at_work w (i_timer i) x' M' c' ∅)) ->
  wp (snd_timer_start a k) Q w.
Proof.
  intros O (i & Hi & Er & Hk) HQ. destruct (or_inst _ _ _ O Hi) as (x & Hx & Ha & _ & Nt & _).
  destruct (or_timers _ O _ _ Hx) as [_ Ti]. rewrite (at_work_start w _ x Hx), (or_locks _ O).
  eapply wp_start; [apply O | done | done | done | done | done | done |]. intros x' M' c' L. eapply HQ; [done.. |].
  by eapply orderly_let_running.
Qed.
Lemma orderly_continue w a (Q : Z -> tworld C -> Prop) :
  orderly w -> allowed w (OpContinue a) -> (forall r w', orderly w' -> spares a w w' -> Q r w') -> wp (snd_timer_continue a) Q w.
Proof.
  intros O (i & Hi & Hk) HQ. destruct (or_inst _ _ _ O Hi) as (x & Hx & Ha & Na & Nt & Hh).
  destruct (or_timers _ O _ _ Hx) as [_ Ti]. rewrite (at_work_start w _ x Hx), (or_locks _ O).
  destruct (is_running i) eqn:Er.
  - pose proof (he_plain _ _ Hh) as (_ & _ & _ & Pflag). unfold snd_timer_continue.
    rewrite (proj2 (Z.eqb_neq a NULL)) by done. apply wp_bind. eapply wp_inst_at; [done |]. rewrite Pflag.
    rewrite (proj2 (Z.eqb_neq _ _)) by done. apply wp_bind, wp_timer_lock; [set_solver |]. apply wp_bind.
    fold (is_running i). rewrite Er. apply wp_ret, wp_bind, wp_timer_unlock; [set_solver |]. apply wp_ret.
    rewrite <- (or_locks _ O), <- at_work_start by done. by apply HQ, spares_refl.
  - destruct (Hk eq_refl) as [Hk1 Hk2].
    eapply wp_continue; [apply O | done | done | done | done | done | done | done |]. intros x' M' c' L. apply HQ.
    + by eapply orderly_let_running.
    + by eapply let_running_spares.
Qed.

Lemma orderly_stop w a i (Q : Z -> tworld C -> Prop) :
  orderly w -> tw_instances w !! a = Some i ->
  (forall x x' M' c', tw_timers w !! i_timer i = Some x -> a ∈ t_instances x ->
     stopping (i_timer i) a i x (tw_instances w) (tw_core w) x' M' c' ->
     orderly (at_work w (i_timer i) x' M' c' ∅) -> Q 0 (at_work w (i_timer i) x' M' c' ∅)) ->
  wp (snd_timer_stop a) Q w.
Proof.
  intros O Hi HQ. destruct (or_inst _ _ _ O Hi) as (x & Hx & Ha & _ & Nt & _).
  destruct (or_timers _ O _ _ Hx) as [_ Ti]. rewrite (at_work_start w _ x Hx), (or_locks _ O).
  eapply wp_stop; [apply O | exact Nt | exact Ti | exact Ha | exact Hi |]. intros x' M' c' S. eapply HQ; [done.. |].
  eapply orderly_touch; [done | done | apply S | apply S | apply S | apply (st_others _ _ _ _ _ _ _ _ _ S)].
Qed.

Lemma wp_dec_mod_count m (Q : unit -> tworld C -> Prop) w :
  orderly w -> (forall w', orderly w' -> tw_instances w' = tw_instances w -> tw_core w' = tw_core w -> Q tt w') ->
  wp (dec_mod_count m) Q w.
Proof. intros [[] El] HQ. apply HQ; [split; [by split | done] | done | done]. Qed.

Lemma orderly_close w a (Q : Z -> tworld C -> Prop) :
  orderly w -> is_Some (tw_instances w !! a) -> (forall r w', orderly w' -> spares a w w' -> Q r w') -> wp (snd_timer_close a) Q w.
Proof.
  intros O [i Hi] HQ. destruct (or_inst _ _ _ O Hi) as (x0 & Hx0 & Ha0 & Na & Nt & Hh0). set (t := i_timer i) in *.
  unfold snd_timer_close. rewrite (proj2 (Z.eqb_neq a NULL)) by done. apply wp_bind.
  eapply orderly_stop; [done | done |]. fold t. intros x x1 M1 c1 Hx Ha S O1. replace x0 with x in * by congruence. clear x0 Hx0.
  set (j := if is_running i then halted i else i). assert (Hj : M1 !! a = Some j) by apply S.
  destruct (ti_inst _ _ _ _ (st_tidy _ _ _ _ _ _ _ _ _ S) a) as (_ & j' & Hj' & Hh); [by rewrite (st_list _ _ _ _ _ _ _ _ _ S) |].
  replace j' with j in * by congruence. clear j' Hj'.
  assert (Erj : is_running j = false) by (unfold j; destruct (is_running i) eqn:E; [apply halted_flags | done]).
  apply wp_bind. eapply wp_inst_at; [exact Hj |]. rewrite (proj2 (proj2 (proj2 (he_plain _ _ Hh)))), (he_timer _ _ Hh). cbn [negb].
  rewrite (proj2 (Z.eqb_neq t NULL)) by done. apply wp_bind, wp_timer_lock; [set_solver |]. apply wp_bind, wp_timer_at.
  rewrite (ti_use _ _ _ _ (st_tidy _ _ _ _ _ _ _ _ _ S)). cbn [Z.eqb negb].
  assert (Ha1 : a ∈ t_instances x1) by (by rewrite (st_list _ _ _ _ _ _ _ _ _ S)).
  destruct (timer_unlink_spec a (t_instances x1) Ha1) as (l1 & l2 & El & ->).
  apply wp_bind, wp_set_timer, wp_bind.
  assert (Hend : forall x2 c2, retimed (x1 <| t_instances := l1 ++ l2 |>) x2 -> t_flags x2 = t_flags x1 -> others t c1 c2 ->
    hw_on t c2 = hw_on t c1 -> wp (unlock (TimerLock t);;; close_end a (tmr_card x1)) Q (at_work w t x2 M1 c2 ({[TimerLock t]} ∪ ∅))).
  { intros x2 c2 R Ef Oc Eon. apply wp_bind, wp_timer_unlock; [set_solver |]. unfold close_end.
    apply wp_bind. eapply wp_inst_at; [exact Hj |]. apply wp_bind.
    eapply wp_mono with (Q := fun _ w' => w' = at_work w t x2 M1 c2 ∅).
    { apply wp_when; [intros _; unfold wp; by rewrite free_private_quiet | done]. }
    intros [] _ ->. apply wp_bind. eapply wp_kfree_inst; [exact Hj |].
    assert (O2 : orderly (at_work w t x2 (delete a M1) c2 ∅)).
    { destruct (st_others _ _ _ _ _ _ _ _ _ S) as [_ Ho1]. split; [| done]. eapply (arranged_work w t x); [apply O | done | eapply tidy_close; eauto; apply S | | |].
      - intros b k Hk N. rewrite lookup_delete_ne by (intros ->; apply N; unfold t; congruence). rewrite (st_rest _ _ _ _ _ _ _ _ _ S); [done |].
        intros Hb. destruct (or_timers _ O _ _ Hx) as [_ Ti0]. destruct (ti_inst _ _ _ _ Ti0 b Hb) as (_ & k' & Hk' & Hhk). apply N.
        replace k with k' by congruence. apply Hhk.
      - intros b k [Nb Hk]%lookup_delete_Some. destruct (decide (b ∈ t_instances x1)) as [Hb | Hb].
        + left. rewrite R. cbn. rewrite El in Hb. rewrite elem_of_app, elem_of_cons in *. intuition congruence.
        + right. rewrite (st_list _ _ _ _ _ _ _ _ _ S) in Hb. rewrite (st_rest _ _ _ _ _ _ _ _ _ S) in Hk by done. split; [done |].
          intros E. apply Hb. destruct (or_insts _ O _ _ Hk) as (y & Hy & Hby). rewrite E in Hy. congruence.
      - intros t' N. rewrite (proj2 Oc) by done. by apply Ho1. }
    assert (S2 : forall w', tw_instances w' = delete a M1 -> tw_core w' = c2 -> spares a w w').
    { intros w' EM Ec'. destruct (st_others _ _ _ _ _ _ _ _ _ S) as [Ec1 _]. split; [by rewrite Ec', (proj1 Oc), Ec1 |].
      intros b k Nb Hk. rewrite EM, lookup_delete_ne by done. by eapply (st_other _ _ _ _ _ _ _ _ _ S). }
    apply wp_bind. destruct (tmr_card x1) as [d |]; [apply wp_dec_mod_count; [done |]; intros w' ? Ei' Ec'; apply wp_ret, HQ; [done | by apply S2] | apply wp_ret, wp_ret, HQ; [done | by apply S2]]. }
  apply wp_when.
  - intros _. apply wp_call_hw_if.
    + intros _. apply Hend; [apply retimed_refl | done | apply others_refl | done].
    + intros _. apply Hend; [exact (low_level_retimed t _ _ _) | by rewrite (low_level_same_flags t) | exact (low_level_others t _ _ _) |].
      by rewrite low_level_on, Z.eqb_refl.
  - intros _. apply Hend; [apply retimed_refl | done | apply others_refl | done].
Qed.

Lemma orderly_open_on w owner t (Q : Z -> tworld C -> Prop) :
  arranged w -> is_Some (tw_timers w !! t) -> TimerLock t ∉ tw_locks w ->
  (forall r w', arranged w' -> tw_locks w' = tw_locks w -> (forall b, spares b w w') -> Q r w') -> wp (__snd_timer_open owner t) Q w.
Proof.
  intros O [x Hx] HL HQ. destruct (or_timers _ O _ _ Hx) as [Nt Ti]. unfold __snd_timer_open.
  rewrite (proj2 (Z.eqb_neq t NULL)) by done. apply wp_bind. unfold wp at 1, get. pose proof (alloc_instance_fresh w) as Hf.
  assert (Same : forall w' b, tw_core w' = tw_core w -> tw_instances w' = tw_instances w -> spares b w w') by (intros; by apply spares_refl).
  set (a := alloc_instance w) in *. destruct (Z.eqb_spec a NULL) as [_ | Na]; [apply wp_ret; auto |].
  apply wp_bind. unfold timer_at. apply wp_bind, wp_tw_get. rewrite Hx. apply wp_ret, wp_bind.
  eapply wp_mono with (Q := fun _ w' => arranged w' /\ tw_timers w' !! t = Some x /\ tw_instances w' = tw_instances w /\ tw_locks w' = tw_locks w /\ tw_core w' = tw_core w).
  { destruct (tmr_card x) as [d |]; [| by apply wp_ret]. unfold try_inc_mod_count. apply wp_bind, wp_tw_get, wp_bind.
    unfold wp at 1, update. apply wp_ret. split; [| done]. destruct O. by split. }
  clear Ti. intros ok w1 (O1 & Hx1 & EM & EL & EC). destruct ok; cbn [negb]; [| apply wp_ret; auto].
  destruct (or_timers _ O1 _ _ Hx1) as [_ Ti]. rewrite <- EM in Hf.
  rewrite (at_work_start w1 t x Hx1). rewrite <- EL in HL, HQ. set (i := zero_instance <| i_timer := t |> <| i_owner := owner |>).
  apply wp_bind, wp_new_inst, wp_bind, wp_timer_lock; [done |]. apply wp_bind, wp_timer_at, wp_bind.
  assert (Hi : healthy t i) by (split; [done | repeat split | done | done]).
  assert (Hend : forall x2 c2, retimed x x2 -> t_flags x2 = t_flags x -> others t (tw_core w1) c2 -> hw_on t c2 = hw_on t (tw_core w1) ->
    wp (set_timer t (fun x => x <| t_instances := a :: t_instances x |>);;; unlock (TimerLock t);;; ret a) Q
      (at_work w1 t x2 (<[a := i]> (tw_instances w1)) c2 ({[TimerLock t]} ∪ tw_locks w1))).
  { intros x2 c2 R Ef Oc Eon. apply wp_bind, wp_set_timer, wp_bind, wp_timer_unlock; [done |]. apply wp_ret, HQ; [| done |].
    2: { intros b. split; [cbn; by rewrite (proj1 Oc), EC |]. intros b' k _ Hk. left. cbn. rewrite EM, lookup_insert_ne; [done |]. intros <-. congruence. }
    assert (T2 : tidy t x2 (tw_instances w1) (tw_core w1)).
    { split; rewrite ?Ef; try (by rewrite R; apply Ti); apply Ti. }
    eapply (arranged_work w1 t x); [done | done | eapply tidy_open; done | | | apply Oc].
    - intros b k Hk _. rewrite lookup_insert_ne; [done |]. intros <-. congruence.
    - intros b k Hk. cbn [t_instances set_field]. destruct (decide (b = a)) as [-> | N]; [left; left |].
      rewrite lookup_insert_ne in Hk by done. destruct (decide (i_timer k = t)) as [<- | Nk]; [| by right].
      left. right. rewrite R. cbn. destruct (or_insts _ O1 _ _ Hk) as (y & Hy & Hby). congruence. }
  apply wp_when.
  - intros _. apply wp_call_hw_if.
    + intros _. apply Hend; [apply retimed_refl | done | apply others_refl | done].
    + intros _. apply Hend; [exact (low_level_retimed t _ _ _) | by rewrite (low_level_same_flags t) | exact (low_level_others t _ _ _) |].
      by rewrite low_level_on, Z.eqb_refl.
  - intros _. apply Hend; [apply retimed_refl | done | apply others_refl | done].
Qed.
Lemma find_timer_ends (w : tworld C) tid l : (forall t, t ∈ l -> is_Some (tw_timers w !! t)) ->
  wp (find_timer tid l) (fun t w' => w' = w /\ (t = NULL \/ t ∈ l)) w.
Proof.
  induction l as [| t l IH]; intros Hs; cbn [find_timer]; [by apply wp_ret; auto |].
  destruct (Hs t ltac:(left)) as [x Hx]. apply wp_bind. unfold timer_at. apply wp_bind, wp_tw_get. rewrite Hx. apply wp_ret.
  destruct (timer_matches tid x); [apply wp_ret; split; [done | right; left] |].
  eapply wp_mono; [apply IH; intros; apply Hs; by right |]. intros t' w' [-> [-> | Ht]]; split; auto. right. by right.
Qed.

Lemma orderly_open w owner tid (Q : Z -> tworld C -> Prop) :
  orderly w -> dev_class tid <> TIMER_CLASS_SLAVE -> (forall r w', orderly w' -> (forall b, spares b w w') -> Q r w') ->
  wp (snd_timer_open owner tid) Q w.
Proof.
  intros O Hc HQ. unfold snd_timer_open. rewrite (proj2 (Z.eqb_neq _ _)) by done.
  apply wp_bind. unfold lock. apply wp_bind, wp_tw_get. rewrite (or_locks _ O), decide_False by set_solver.
  unfold wp at 1, update. rewrite (or_locks _ O). set (w1 := w <| tw_locks := _ |>).
  assert (A1 : arranged w1) by (destruct (or_arranged _ O); by split).
  apply wp_bind. unfold snd_timer_find. apply wp_bind, wp_tw_get.
  eapply wp_mono; [apply find_timer_ends; apply A1 |]. intros t w2 [-> Ht].
  assert (Hend : forall r w', arranged w' -> tw_locks w' = tw_locks w1 -> (forall b, spares b w1 w') -> wp (unlock RegisterMutex;;; ret r) Q w').
  { intros r w' A E S. apply wp_bind. unfold wp at 1, unlock, update. apply wp_ret, HQ.
    - split; [destruct A; by split |]. cbn. rewrite E. cbn. set_solver.
    - intros b. by destruct (S b). }
  apply wp_bind. destruct (Z.eqb_spec t NULL) as [-> | N]; [apply wp_ret; apply Hend; [done.. |]; intros; by apply spares_refl |]. destruct Ht as [-> | Ht]; [done |].
  eapply orderly_open_on; [done | by apply A1 | cbn; set_solver | done].
Qed.

(** The instance that an operation is about; none for an interrupt. *)
Definition subject (o : op) : option Z :=
  match o with OpClose a | OpStart a _ | OpStop a | OpContinue a => Some a | _ => None end.

(** An operation leaves the others alone; an interrupt works on its timer only. *)
Definition leaves (o : op) w w' : Prop :=
  match o with
  | OpInterrupt ts t n => exists x x' M' c', tw_timers w !! t = Some x /\
      interrupted t n x (tw_instances w) (tw_core w) x' M' c' /\ w' = at_work w t x' M' c' ∅
  | _ => forall b, default b (subject o) = b -> spares b w w'
  end.

Lemma perform_leaves w o : orderly w -> allowed w o -> wp (perform o) (fun _ w' => orderly w' /\ leaves o w w') w.
Proof.
  intros O A. destruct o as [owner tid | a | a k | a | a | ts t n]; cbn [perform leaves subject default].
  - apply wp_bind, orderly_open; [done | done |]. intros. by apply wp_ret.
  - apply wp_bind, orderly_close; [done | done |]. intros. apply wp_ret. split; [done | by intros b <-].
  - apply wp_bind. destruct A as (i & Hi & Er & Hk). destruct (Z.ltb_spec k 1) as [Hk1 | Hk1].
    + unfold snd_timer_start. rewrite (proj2 (Z.ltb_lt k 1)), orb_true_r by done. apply wp_ret, wp_ret.
      split; [done |]. intros b _. by apply spares_refl.
    + destruct Er as [Er | ?]; [| lia]. apply orderly_start; [done | exists i; split_and!; [done | done | lia | lia] |].
      intros x i' x' M' c' Hx Ha Hi' _ L O'. apply wp_ret. split; [done |]. intros b <-. by eapply let_running_spares.
  - destruct A as [i Hi]. apply wp_bind. eapply orderly_stop; [done | done |]. intros x x' M' c' Hx Ha S O'. apply wp_ret.
    split; [done |]. intros b <-. destruct (st_others _ _ _ _ _ _ _ _ _ S) as [Ec _]. split; [done |].
    intros b k Nb Hk. by eapply (st_other _ _ _ _ _ _ _ _ _ S).
  - apply wp_bind, orderly_continue; [done | done |]. intros. apply wp_ret. split; [done | by intros b <-].
  - destruct A as ([x Hx] & Hts & Nts & Hn). eapply orderly_interrupt; [done.. |]. intros x' M' c' I O'. split; [done |].
    by exists x, x', M', c'.
Qed.

Lemma perform_orderly w o : orderly w -> allowed w o -> wp (perform o) (fun _ w' => orderly w') w.
Proof. intros O A. eapply wp_mono; [by apply perform_leaves |]. by intros [] w' []. Qed.

(** Worlds that calls and interrupts lead to. *)
Inductive leads_to : tworld C -> tworld C -> Prop :=
| leads_refl w : leads_to w w
| leads_step w w1 w2 o : leads_to w w1 -> allowed w1 o -> perform o w1 = Some (tt, w2) -> leads_to w w2.

Lemma leads_orderly w w' : orderly w -> leads_to w w' -> orderly w'.
Proof.
  intros O S. induction S as [| w w1 w2 o _ IH A E]; [done |]. pose proof (perform_orderly _ _ (IH O) A) as P. unfold wp in P. by rewrite E in P.
Qed.

(** C9: Timers that start in order, with no slaves, stay in order, whatever calls and interrupts follow: instances
    are opened, closed, started, stopped and continued, except that an instance that runs is not started again, one
    that was never started is not continued, and the number of ticks is not the largest of 32 bits.  Every such call and every interrupt returns with the locks free,
    a timer's count of running instances is right, and its hardware runs exactly if one of its instances does.
    (An instance that runs and is started again is counted twice, [start_twice_counts_twice] in TimerRun.v.) *)
Theorem timers_stay_in_order w w' :
  orderly w -> leads_to w w' ->
  (forall o, allowed w' o -> exists w'', perform o w' = Some (tt, w'')) /\ tw_locks w' = ∅ /\
  forall t x, tw_timers w' !! t = Some x ->
    t_running x = how_many is_running (tw_instances w') (t_instances x) /\
    (hw_on t (tw_core w') = true <-> exists a i, a ∈ t_instances x /\ tw_instances w' !! a = Some i /\ is_running i = true).
Proof.
  intros O S. assert (O' := leads_orderly _ _ O S). split_and!; [| apply O' |].
  - intros o A. destruct (wp_run _ _ _ (perform_orderly _ _ O' A)) as ([] & w'' & E & _). eauto.
  - intros t x Hx. destruct (or_timers _ O' _ _ Hx) as [_ Ti]. split; [apply Ti |]. rewrite (ti_on _ _ _ _ Ti), (ti_running _ _ _ _ Ti), negb_true_iff, Z.eqb_neq.
    split; [apply how_many_some |]. intros (a & i & Ha & Hi & Hr) E. pose proof (how_many_pos _ _ _ _ _ Ha Hi Hr). lia.
Qed.

(** One interrupt counts every running instance of its timer down, calls back those that come to zero, once
    each, in the order of the list, with the ticks they asked for, starts them again or stops them, lets delayed
    starts take effect and leaves the other timers alone. *)
Theorem interrupt_calls_due w ts t x n :
  orderly w -> tw_timers w !! t = Some x -> tw_instances w !! ts = None -> ts <> NULL -> 0 <= n ->
  wp (snd_timer_interrupt ts t n) (fun _ w' =>
    tw_instances w' = over (t_instances x) (after_ticks n (has (t_flags x) FLG_RESCHED)) (tw_instances w) /\
    (exists r, calls (tw_core w') = calls (tw_core w) ++ calls_of r (tw_instances w) (due n (tw_instances w) (t_instances x))) /\
    (forall t', t' <> t -> tw_timers w' !! t' = tw_timers w !! t' /\ hw_on t' (tw_core w') = hw_on t' (tw_core w)) /\ orderly w') w.
Proof.
  intros O Hx Hts Nts Hn. eapply orderly_interrupt; [done.. |]. intros x' M' c' [EM R Ti [r Ec] Ho] O'. split_and!; [done | eauto | | done].
  intros t' N. split; [by cbn; rewrite lookup_insert_ne | auto].
Qed.

(** What happens while instance [a] of timer [t] waits: calls of others, whichever they are,
    and interrupts.  [ns] are the ticks of the interrupts of [t] that find [a] running; [m] is
    how many find it waiting for its start to take effect, or stopped. *)
Definition by_others (a t : Z) (o : op) : Prop :=
  match o with OpInterrupt _ t' _ => t' <> t | _ => subject o <> Some a end.

Inductive meanwhile (a t : Z) : tworld C -> list Z -> nat -> tworld C -> Prop :=
| mw_none w : meanwhile a t w [] 0 w
| mw_other w o w1 ns m w' : allowed w o -> by_others a t o -> perform o w = Some (tt, w1) ->
    meanwhile a t w1 ns m w' -> meanwhile a t w ns m w'
| mw_ticks w ts n i w1 ns m w' : allowed w (OpInterrupt ts t n) -> tw_instances w !! a = Some i -> is_running i = true ->
    perform (OpInterrupt ts t n) w = Some (tt, w1) -> meanwhile a t w1 ns m w' -> meanwhile a t w (n :: ns) m w'
| mw_idle w ts n i w1 ns m w' : allowed w (OpInterrupt ts t n) -> tw_instances w !! a = Some i -> is_running i = false ->
    perform (OpInterrupt ts t n) w = Some (tt, w1) -> meanwhile a t w1 ns m w' -> meanwhile a t w ns (S m) w'.

Lemma performed w o w1 : orderly w -> allowed w o -> perform o w = Some (tt, w1) -> orderly w1 /\ leaves o w w1.
Proof. intros O A E. pose proof (perform_leaves w o O A) as P. unfold wp in P. by rewrite E in P. Qed.

Lemma leaves_calls w o w1 : leaves o w w1 -> exists k, calls (tw_core w1) = calls (tw_core w) ++ k.
Proof.
  assert (Spared : (forall b, default b (subject o) = b -> spares b w w1) -> exists k, calls (tw_core w1) = calls (tw_core w) ++ k).
  { intros S. exists []. rewrite app_nil_r. eapply sp_calls, (S (default 0 (subject o))). by destruct (subject o). }
  destruct o; try exact Spared.
  intros (x & x' & M' & c' & _ & I & ->). destruct (in_calls _ _ _ _ _ _ _ _ I) as [r E]. eauto.
Qed.

Lemma meanwhile_calls a t w ns m w' : meanwhile a t w ns m w' -> orderly w ->
  orderly w' /\ 0 <= sum ns /\ exists k, calls (tw_core w') = calls (tw_core w) ++ k.
Proof.
  assert (Step : forall w o w1 ns w', allowed w o -> perform o w = Some (tt, w1) -> orderly w ->
    (orderly w1 -> orderly w' /\ 0 <= sum ns /\ exists k, calls (tw_core w') = calls (tw_core w1) ++ k) ->
    orderly w' /\ 0 <= sum ns /\ exists k, calls (tw_core w') = calls (tw_core w) ++ k).
  { intros w1 o w2 ks w3 A E O IH. destruct (performed _ _ _ O A E) as [O1 [k1 E1]%leaves_calls].
    destruct (IH O1) as (? & ? & k2 & E2). split_and!; [done.. |]. exists (k1 ++ k2). by rewrite E2, E1, app_assoc. }
  induction 1 as [w | w o w1 ns m w' A _ E _ IH | w ts n i w1 ns m w' A _ _ E _ IH | w ts n i w1 ns m w' A _ _ E _ IH]; intros O.
  - split_and!; [done | done |]. exists []. by rewrite app_nil_r.
  - by eapply Step.
  - destruct (Step _ _ _ ns _ A E O IH) as (? & ? & ?). destruct A as (_ & _ & _ & Hn). split_and!; [done | unfold sum in *; cbn; lia | done].
  - by eapply Step.
Qed.

Lemma admitted_waits i : i_callback (admitted i) = i_callback i /\ cticks (admitted i) = cticks i /\
  i_timer (admitted i) = i_timer i /\ counting (admitted i) = counting i /\
  (is_running i = true -> is_running (admitted i) = true).
Proof.
  pose proof (running_admitted i) as Hr. pose proof (starting_admitted i) as Hs. unfold counting.
  rewrite Hr, Hs, orb_false_r. split_and!; [unfold admitted; by case_match.. | done | by intros ->].
Qed.

(** What others do neither calls [a] nor stops it. *)
Lemma others_leave a t w o w1 i : orderly w -> allowed w o -> by_others a t o -> perform o w = Some (tt, w1) ->
  tw_instances w !! a = Some i -> i_timer i = t -> 
  exists k j, calls (tw_core w1) = calls (tw_core w) ++ k /\ a ∉ callees k /\ tw_instances w1 !! a = Some j /\
    i_timer j = t /\ i_callback j = i_callback i /\ cticks j = cticks i /\ (counting i = true -> counting j = true) /\
    (is_running i = true -> is_running j = true).
Proof.
  intros O A B E Hi Et. destruct (performed _ _ _ O A E) as [O1 L].
  destruct (or_inst _ _ _ O Hi) as (y & Hy & Hay & _ & _ & Hh).
  destruct (admitted_waits i) as (E1 & E2 & E3 & E4 & E5).
  assert (Spared : (forall b, default b (subject o) = b -> spares b w w1) -> subject o <> Some a ->
    exists k j, calls (tw_core w1) = calls (tw_core w) ++ k /\ a ∉ callees k /\ tw_instances w1 !! a = Some j /\
    i_timer j = t /\ i_callback j = i_callback i /\ cticks j = cticks i /\ (counting i = true -> counting j = true) /\
    (is_running i = true -> is_running j = true)).
  { intros S N. destruct (S (default (a + 1) (subject o))) as [Ec Ei]; [by destruct (subject o) |].
    exists []. rewrite app_nil_r. destruct (Ei a i) as [H1 | H1]; [destruct (subject o); cbn; [congruence | lia] | done | |].
    - exists i. split_and!; try done. apply not_elem_of_nil.
    - exists (admitted i). split_and!; try done; [apply not_elem_of_nil | congruence | congruence]. }
  destruct o as [owner tid | b | b k | b | b | ts t' n]; try (by apply Spared).
  cbn in L, B. destruct L as (x & x' & M' & c' & Hx & [EM _ _ [r Ec] _] & ->).
  destruct (or_timers _ O _ _ Hx) as [_ Ti].
  assert (Na : a ∉ t_instances x).
  { intros Ha. destruct (ti_inst _ _ _ _ Ti a Ha) as (_ & j & Hj & Hhj). apply B. rewrite <- Et. replace i with j by congruence.
    symmetry. apply Hhj. }
  eexists _, i. split_and!; [exact Ec | | | done..].
  - intros [[Ha _]%elem_of_due _]%elem_of_callees. done.
  - cbn. by rewrite EM, lookup_over, decide_False.
Qed.

Lemma waiting_is_called a t w ns m w' : meanwhile a t w ns m w' -> orderly w -> forall i,
  tw_instances w !! a = Some i -> i_timer i = t -> counting i = true -> i_callback i <> NULL ->
  exists k, calls (tw_core w') = calls (tw_core w) ++ k /\ (a ∈ callees k <-> cticks i <= sum ns) /\
    (a ∉ callees k -> (m <= if is_running i then 0 else 1)%nat).
Proof.
  assert (App : forall (k1 k2 : list (Z * Z * Z)), a ∈ callees (k1 ++ k2) <-> a ∈ callees k1 \/ a ∈ callees k2).
  { intros. unfold callees. by rewrite fmap_app, elem_of_app. }
  assert (Tick : forall w ts n i w1 ns m w', allowed w (OpInterrupt ts t n) -> perform (OpInterrupt ts t n) w = Some (tt, w1) ->
    meanwhile a t w1 ns m w' -> orderly w -> tw_instances w !! a = Some i -> i_timer i = t -> counting i = true -> i_callback i <> NULL ->
    (orderly w1 -> forall j, tw_instances w1 !! a = Some j -> i_timer j = t -> counting j = true -> i_callback j <> NULL ->
       exists k, calls (tw_core w') = calls (tw_core w1) ++ k /\ (a ∈ callees k <-> cticks j <= sum ns) /\
         (a ∉ callees k -> (m <= if is_running j then 0 else 1)%nat)) ->
    exists k, calls (tw_core w') = calls (tw_core w) ++ k /\
      (a ∈ callees k <-> cticks i <= sum (if is_running i then n :: ns else ns)) /\ (a ∉ callees k -> m = 0%nat)).
  { intros w1 ts n i w2 ks k w3 A E Mw O Hi Et Hc Hcb IH. destruct (performed _ _ _ O A E) as [O1 L].
    destruct L as (x & x' & M' & c' & Hx & [EM R _ [r Ec] _] & ->). destruct (or_timers _ O _ _ Hx) as [_ Ti].
    destruct (or_inst _ _ _ O Hi) as (y & Hy & Hay & _ & _ & Hh). rewrite Et in Hy. replace y with x in * by congruence. clear y Hy.
    assert (Hi' : M' !! a = Some (after_ticks n (has (t_flags x) FLG_RESCHED) i)) by (by rewrite EM, lookup_over, decide_True, Hi by done).
    destruct (meanwhile_calls _ _ _ _ _ _ Mw O1) as (_ & Hs & k2 & Ek). cbn in Ek. destruct (fires n i) eqn:Ef.
    - eexists. rewrite Ek, Ec, <- app_assoc. split; [done |]. assert (Hin : forall k', a ∈ callees (calls_of r (tw_instances w1) (due n (tw_instances w1) (t_instances x)) ++ k')).
      { intros k'. rewrite App. left. apply elem_of_callees. split; [| eauto]. apply elem_of_due. eauto. }
      unfold fires in Ef. apply andb_true_iff in Ef as [Er El%Z.leb_le]. rewrite Er. cbn [sum foldr]. change (foldr Z.add 0 ks) with (sum ks).
      split; [split; [intros _; lia | intros _; apply Hin] |]. intros N. by destruct (N (Hin k2)).
    - assert (Hb : starting i = true -> has (t_flags x) FLG_RESCHED = true) by (intros; eapply (ti_resched _ _ _ _ Ti); done).
      destruct (after_waiting n _ i Hh Hc Ef Hb) as (Hr & Ecb & Ek2). set (j := after_ticks _ _ i) in *.
      destruct (IH O1 j) as (k3 & E3 & A3 & M3); [exact Hi' | | unfold counting; by rewrite Hr | by rewrite Ecb |].
      { destruct (or_inst _ _ _ O1 Hi') as (y & Hy & Hay' & _ & _ & Hhj). cbn in Hy. destruct (decide (i_timer j = t)) as [| N]; [done |].
        rewrite lookup_insert_ne in Hy by done. destruct (or_timers _ O _ _ Hy) as [_ Tiy]. destruct (ti_inst _ _ _ _ Tiy a Hay') as (_ & i2 & Hi2 & Hh2).
        exfalso. apply N. rewrite <- (he_timer _ _ Hh2). congruence. }
      rewrite Hr in M3. eexists. rewrite E3. cbn [tw_core at_work set_field]. rewrite Ec, <- app_assoc. split; [done |].
      assert (Hno : a ∉ callees (calls_of r (tw_instances w1) (due n (tw_instances w1) (t_instances x)))).
      { intros [[_ (i2 & Hi2 & Hf2)]%elem_of_due _]%elem_of_callees. congruence. }
      rewrite App, A3, Ek2. split.
      + destruct (is_running i); cbn [sum foldr]; change (foldr Z.add 0 ks) with (sum ks); split; [intros [? | ?] | | intros [? | ?] |]; done || lia || (right; lia).
      + intros N. assert (a ∉ callees k3) as N3 by (rewrite A3, Ek2; tauto). specialize (M3 N3). lia. }
  induction 1 as [w | w o w1 ns m w' A B E _ IH | w ts n i w1 ns m w' A Hi Er E Mw IH | w ts n i w1 ns m w' A Hi Er E Mw IH];
    intros O i0 Hi0 Et Hc Hcb.
  - exists []. rewrite app_nil_r. destruct (or_inst _ _ _ O Hi0) as (y & _ & _ & _ & _ & Hh). pose proof (he_count _ _ Hh Hc).
    split_and!; [done | | intros; lia]. split; [by intros ?%not_elem_of_nil | cbn; lia].
  - destruct (others_leave a t w o w1 i0 O A B E Hi0 Et) as (k1 & j & E1 & N1 & Hj & Etj & Ecb & Ect & Hcj & Hrj).
    destruct (IH (proj1 (performed _ _ _ O A E)) j) as (k2 & E2 & A2 & M2); [done | done | auto | by rewrite Ecb |].
    exists (k1 ++ k2). rewrite E2, E1, app_assoc. split; [done |]. rewrite App, A2, Ect. split; [tauto |]. intros N.
    assert (a ∉ callees k2) as N2 by (rewrite A2, Ect; tauto). specialize (M2 N2). destruct (is_running i0); [by rewrite Hrj in M2 | destruct (is_running j); lia].
  - replace i0 with i in * by congruence. destruct (Tick _ _ _ _ _ _ _ _ A E Mw O Hi Et Hc Hcb IH) as (k & E1 & A1 & M1).
    rewrite Er in *. exists k. split_and!; [done | done |]. intros N. rewrite (M1 N). done.
  - replace i0 with i in * by congruence. destruct (Tick _ _ _ _ _ _ _ _ A E Mw O Hi Et Hc Hcb IH) as (k & E1 & A1 & M1).
    rewrite Er in *. exists k. split_and!; [done | done |]. intros N. rewrite (M1 N). done.
Qed.

(** C10: An instance that is stopped and is started with [k] ticks is called back by the interrupt with which
    [k] ticks have passed, and no earlier, whatever others do meanwhile: they may open, close, start, stop and
    continue other instances, of this timer or another.  The ticks that count are those of the interrupts of its
    timer, apart from one: if the timer was running already, the start waits for the next interrupt, which is not
    counted unless the start took effect before, because the instances that ran have stopped. *)
Theorem started_is_called w a k i :
  orderly w -> tw_instances w !! a = Some i -> is_running i = false -> i_callback i <> NULL -> 0 < k < ULONG_MAX ->
  exists r w1, snd_timer_start a k w = Some (r, w1) /\ orderly w1 /\ (r = 0 \/ r = 1) /\
    forall ns m w', meanwhile a (i_timer i) w1 ns m w' ->
      exists q, calls (tw_core w') = calls (tw_core w) ++ q /\
        (a ∈ callees q <-> k <= sum ns) /\ (a ∉ callees q -> Z.of_nat m <= r).
Proof.
  intros O Hi Er Hcb Hk.
  destruct (wp_run (snd_timer_start a k) (fun r w1 => orderly w1 /\ (r = 0 \/ r = 1) /\ calls (tw_core w1) = calls (tw_core w) /\
    exists j, tw_instances w1 !! a = Some j /\ i_timer j = i_timer i /\ counting j = true /\ i_callback j = i_callback i /\
      cticks j = k /\ is_running j = (r =? 0)) w) as (r & w1 & E & O1 & Hr & Ec & j & Hj & Et & Hc & Ecb & Ek & Erj).
  { apply orderly_start; [done | by exists i |]. intros x i' x' M' c' Hx Ha Hi' _ [EM El _ [Ec _]] O'.
    replace i' with i in * by congruence. clear i' Hi'. set (i1 := i <| cticks := k |> <| i_ticks := k |>) in *.
    set (bit := if t_running x =? 0 then IFLG_RUNNING else IFLG_START) in *.
    assert (Er1 : is_running i1 = false) by done.
    destruct (flag_running bit i1) as [Fr Fs]; [unfold bit; case_match; auto |]. set (j := i1 <| i_flags := _ |>) in *.
    split_and!; [done | case_match; auto | done |]. exists j. cbn. rewrite EM, lookup_insert_eq. split_and!; try done.
    - unfold counting. rewrite Fr, Fs, Er1. unfold bit. by destruct (t_running x =? 0).
    - rewrite Fr, Er1, orb_false_r. unfold bit. by destruct (t_running x =? 0). }
  exists r, w1. split_and!; [done.. |]. intros ns m w' Mw.
  destruct (waiting_is_called _ _ _ _ _ _ Mw O1 j) as (q & Eq & Aq & Mq); [done.. | by rewrite Ecb |].
  exists q. rewrite Eq, Ec. split_and!; [done | by rewrite Aq, Ek |]. intros N. specialize (Mq N). rewrite Erj in Mq.
  destruct Hr as [-> | ->]; cbn in Mq; lia.
Qed.
End Live.
