(* ===== verification/TimerRun.v ===== *)
(** * TimerRun: a timer with two users

    The system timer with two instances, to apply the theorems to, and runs that show what
    the timer core does not keep: a stop that is forgotten, an instance that counts twice, a
    slave in a circle, a master that is gone. *)

From S2P Require Import Prelude SeqEvent SeqTimer Timer TimerRules TimerSpec TimerLive.
Open Scope Z_scope.
Open Scope state_scope.

(** ** A machine *)

(** The hardware that is on, and the calls that were made. *)
Record machine := Machine { m_on : list Z; m_calls : list (Z * Z * Z) }.

Definition listed_instances (w : tworld machine) : list Z := elements (dom (tw_instances w)).

#[export] Instance machine_drivers : TimerDrivers machine := {
  low_level k t x c :=
    (x, match k with
        | HwStart => Machine (t :: m_on c) (m_calls c)
        | HwStop => Machine (filter (fun u => u <> t) (m_on c)) (m_calls c)
        | _ => c
        end);
  c_resolution t x c := hw_resolution (t_hw x);
  call_back f ti r n d := update (fun w => w <| tw_core := Machine (m_on (tw_core w)) (m_calls (tw_core w) ++ [(ti, r, n)]) |>);
  free_private f a := ret tt;
  alloc_instance w := 1 + foldr Z.max 0 (listed_instances w);
  alloc_timer w := 1;
  new_device t w := 0 }.

Lemma below_max a l : a ∈ l -> a <= foldr Z.max 0 l.
Proof. induction l as [| b l IH]; [by intros ?%not_elem_of_nil |]. cbn. intros [-> | Ha]%elem_of_cons; [lia |]. specialize (IH Ha). lia. Qed.

#[export, program] Instance machine_quiet : QuietTimers machine := {
  hw_on t c := bool_decide (t ∈ m_on c);
  calls := m_calls;
  callback_effect f ti r n d c := Machine (m_on c) (m_calls c ++ [(ti, r, n)]) }.
Next Obligation. intros k t x c. exists (sticks x), (t_private_data x). by destruct x. Qed.
Next Obligation.
  intros k t x c t'. cbn. destruct (Z.eqb_spec t' t) as [-> | N]; destruct k; cbn; try done.
  - apply bool_decide_eq_true. left.
  - apply bool_decide_eq_false. rewrite list_elem_of_filter. tauto.
  - apply bool_decide_ext. rewrite elem_of_cons. tauto.
  - apply bool_decide_ext. rewrite list_elem_of_filter. tauto.
Qed.
Next Obligation. done. Qed.
Next Obligation. done. Qed.
Next Obligation. by intros []. Qed.
Next Obligation. done. Qed.
Next Obligation. done. Qed.
Next Obligation.
  intros w. cbn. apply not_elem_of_dom. intros Hin. pose proof (below_max _ (listed_instances w) (proj2 (elem_of_elements _ _) Hin)). lia.
Qed.

(** ** Two users of the system timer *)

Definition system_hw : hardware := Hardware (Z.setbit 0 HW_FIRST) (1000000000 / HZ) 10000000 0 0 0 1 2.
Definition user (callback flags : Z) : instance := zero_instance <| i_timer := 1 |> <| i_callback := callback |> <| i_flags := flags |>.
Definition system_timer (l : list Z) : timer := Timer TIMER_CLASS_GLOBAL None TIMER_GLOBAL_SYSTEM 0 0 0 0 0 0 system_hw 0 l.

(** The first is called again and again, the second once. *)
Definition two_users : tworld machine :=
  TWorld (Machine [] []) {[1 := system_timer [10; 20]]} (list_to_map [(10, user 5 (Z.setbit 0 IFLG_AUTO)); (20, user 5 0)])
    [1] [] 0 ∅ ∅.

Lemma two_users_instances a i : tw_instances two_users !! a = Some i ->
  a = 10 /\ i = user 5 (Z.setbit 0 IFLG_AUTO) \/ a = 20 /\ i = user 5 0.
Proof.
  intros Ha. apply elem_of_list_to_map_2 in Ha. repeat (apply elem_of_cons in Ha as [[= -> ->] | Ha]); [auto.. |]. by apply elem_of_nil in Ha.
Qed.

Lemma two_users_orderly : orderly two_users.
Proof.
  assert (Hh : forall a i, tw_instances two_users !! a = Some i -> healthy 1 i /\ counting i = false).
  { intros a i [[_ ->] | [_ ->]]%two_users_instances; (split; [split; [done | done | done | intros Hc; vm_compute in Hc; done] | done]). }
  assert (Hl : forall a, a ∈ [10; 20] -> a <> NULL /\ is_Some (tw_instances two_users !! a)).
  { intros a. rewrite !elem_of_cons, elem_of_nil. intros [-> | [-> | []]]; (split; [done | vm_compute; eauto]). }
  split; [split |]; try done.
  - intros t x. cbn. intros [<- <-]%lookup_singleton_Some. split; [done |]. split; try done.
    + cbn. repeat constructor; set_solver.
    + intros a Ha. destruct (Hl a Ha) as [N [i Hi]]. split; [done |]. exists i. split; [done |]. by eapply Hh.
    + intros a i _ Hi Hs. destruct (Hh a i Hi) as [_ [_ Es]%orb_false_iff]. congruence.
  - intros a i [[-> ->] | [-> ->]]%two_users_instances; exists (system_timer [10; 20]); (split; [by vm_compute |]); cbn; set_solver.
  - intros t. cbn. intros ->%list_elem_of_singleton. rewrite lookup_singleton_eq. eauto.
Qed.

Fixpoint perform_all (l : list op) : ST (tworld machine) unit :=
  match l with [] => ret tt | o :: l => perform o;;; perform_all l end.

Fixpoint allowed_all (l : list op) (w : tworld machine) : Prop :=
  match l with
  | [] => True
  | o :: l => allowed w o /\ match perform o w with Some (_, w') => allowed_all l w' | None => False end
  end.

Lemma leads_all l : forall w w1, leads_to w w1 -> allowed_all l w1 -> exists w', perform_all l w1 = Some (tt, w') /\ leads_to w w'.
Proof.
  induction l as [| o l IH]; intros w w1 S A; cbn in *; [eauto |]. destruct A as [A1 A2]. unfold bind.
  destruct (perform o w1) as [[[] w2] |] eqn:E; [| done]. apply IH; [by eapply leads_step | done].
Qed.

Ltac show_allowed := vm_compute; repeat (eexists || split || (left; reflexivity)); done.

(** Both start, the second with a delay, and the ticks of the first pass twice. *)
Definition story : list op := [OpStart 10 3; OpStart 20 5; OpInterrupt 99 1 3; OpInterrupt 99 1 3; OpStop 10].
Definition told : tworld machine := match perform_all story two_users with Some (_, w) => w | None => two_users end.

Lemma timers_stay_in_order_witness :
  orderly two_users /\ leads_to two_users told /\ m_calls (tw_core told) = [(10, 10000000, 3); (10, 10000000, 3)] /\
  forall x, tw_timers told !! 1 = Some x ->
    t_running x = how_many is_running (tw_instances told) (t_instances x) /\
    (hw_on 1 (tw_core told) = true <-> exists a i, a ∈ t_instances x /\ tw_instances told !! a = Some i /\ is_running i = true).
Proof.
  assert (O := two_users_orderly). assert (S : leads_to two_users told).
  { destruct (leads_all story two_users two_users) as (w' & E & S); [apply leads_refl | show_allowed |].
    unfold told. by rewrite E. }
  split_and!; [done | done | by vm_compute |]. intros x Hx. by apply (timers_stay_in_order two_users told).
Defined.

Lemma told_by l : allowed_all l two_users -> exists w', perform_all l two_users = Some (tt, w') /\ orderly w'.
Proof.
  intros A. destruct (leads_all l two_users two_users) as (w' & E & S); [apply leads_refl | done |].
  exists w'. split; [done |]. eapply leads_orderly; [apply two_users_orderly | done].
Qed.

(** Both have started; three ticks pass. *)
Definition both_started : tworld machine :=
  match perform_all [OpStart 10 3; OpStart 20 5] two_users with Some (_, w) => w | None => two_users end.
Lemma both_started_orderly : orderly both_started.
Proof.
  destruct (told_by [OpStart 10 3; OpStart 20 5]) as (w' & E & O); [show_allowed |].
  unfold both_started. by rewrite E.
Qed.
Definition running_timer : timer := (system_timer [10; 20]) <| t_flags := Z.setbit 0 FLG_RESCHED |> <| t_running := 1 |> <| sticks := 3 |>.

Lemma interrupt_calls_due_witness :
  tw_timers both_started !! 1 = Some running_timer /\ due 3 (tw_instances both_started) [10; 20] = [10] /\
  wp (snd_timer_interrupt 99 1 3) (fun _ w' =>
    tw_instances w' = over [10; 20] (after_ticks 3 true) (tw_instances both_started) /\
    (exists r, calls (tw_core w') = calls (tw_core both_started) ++ calls_of r (tw_instances both_started) (due 3 (tw_instances both_started) [10; 20])) /\
    (forall t', t' <> 1 -> tw_timers w' !! t' = tw_timers both_started !! t' /\
       hw_on t' (tw_core w') = hw_on t' (tw_core both_started)) /\ orderly w') both_started.
Proof.
  split_and!; [vm_compute; reflexivity | vm_compute; reflexivity |].
  apply (interrupt_calls_due both_started 99 1 running_timer 3); [exact both_started_orderly | vm_compute; reflexivity.. | done | done].
Defined.

(** What an instance sees while it waits, by running the calls and interrupts. *)
Definition from_others (a t : Z) (o : op) : bool :=
  match o with
  | OpInterrupt _ t' _ => negb (t' =? t)
  | OpOpen _ _ => true
  | OpClose b | OpStart b _ | OpStop b | OpContinue b => negb (b =? a)
  end.
Fixpoint watch (a t : Z) (l : list op) (w : tworld machine) : option (list Z * nat * tworld machine) :=
  match l with
  | [] => Some ([], O, w)
  | o :: l =>
      match perform o w with
      | Some (_, w1) =>
          match watch a t l w1 with
          | Some (ns, m, w') =>
              match o, tw_instances w !! a with
              | OpInterrupt _ t' n, Some i =>
                  if t' =? t then if is_running i then Some (n :: ns, m, w') else Some (ns, S m, w') else Some (ns, m, w')
              | _, Some _ => if from_others a t o then Some (ns, m, w') else None
              | _, None => None
              end
          | None => None
          end
      | None => None
      end
  end.

Lemma watch_meanwhile a t l : forall w ns m w', allowed_all l w -> watch a t l w = Some (ns, m, w') -> meanwhile a t w ns m w'.
Proof.
  induction l as [| o l IH]; intros w ns m w' A E; cbn in A, E; [injection E as <- <- <-; constructor |]. destruct A as [A1 A2].
  destruct (perform o w) as [[[] w1] |] eqn:Ep; [| done]. destruct (watch a t l w1) as [[[ns1 m1] w2] |] eqn:Ew; [| done].
  specialize (IH _ _ _ _ A2 Ew). destruct (tw_instances w !! a) as [i |] eqn:Hi; [| by destruct o].
  assert (Other : forall k n, o <> OpInterrupt k t n -> (forall s t' n, o = OpInterrupt s t' n -> t' <> t) ->
    subject o <> Some a -> meanwhile a t w ns1 m1 w2).
  { intros _ _ _ N1 N2. eapply mw_other; [exact A1 | | exact Ep | exact IH]. destruct o; try done. by eapply N1. }
  destruct o as [owner tid | b | b k | b | b | ts t' n]; cbn in E.
  1: injection E as <- <- <-; by apply (Other 0 0).
  1-4: destruct (Z.eqb_spec b a) as [| N]; cbn in E; [done | injection E as <- <- <-; apply (Other 0 0); [done | done | cbn; congruence]].
  destruct (Z.eqb_spec t' t) as [-> | N].
  - destruct (is_running i) eqn:Er; injection E as <- <- <-; [by eapply mw_ticks | by eapply mw_idle].
  - injection E as <- <- <-. apply (Other 0 0); [congruence | congruence | done].
Qed.

(** The second starts while the first runs.  Before the next interrupt the first stops, so the
    three ticks of that one count already; the first starts again, and another is opened. *)
Definition first_started : tworld machine :=
  match perform_all [OpStart 10 3] two_users with Some (_, w) => w | None => two_users end.
Definition bustle : list op :=
  [OpStop 10; OpInterrupt 99 1 3; OpStart 10 4; OpOpen [] (TimerId TIMER_CLASS_GLOBAL TIMER_SCLASS_NONE (-1) 0 0);
   OpInterrupt 99 1 1; OpStop 10; OpInterrupt 99 1 1].

Lemma started_is_called_witness :
  exists w1 w', snd_timer_start 20 5 first_started = Some (1, w1) /\ meanwhile 20 1 w1 [3; 1; 1] 0 w' /\
    callees (m_calls (tw_core w')) = [20] /\
    exists q, m_calls (tw_core w') = m_calls (tw_core first_started) ++ q /\ 20 ∈ callees q.
Proof.
  destruct (told_by [OpStart 10 3]) as (w0 & E0 & O0); [show_allowed |].
  assert (O : orderly first_started) by (unfold first_started; by rewrite E0).
  clear w0 E0 O0.
  destruct (started_is_called first_started 20 5 (user 5 0)) as (r & w1 & E & O1 & _ & C);
    [exact O | vm_compute; reflexivity.. | done | done |].
  assert (Hw : w1 = match snd_timer_start 20 5 first_started with Some (_, w) => w | None => two_users end) by (by rewrite E).
  assert (A : allowed_all bustle w1) by (rewrite Hw; show_allowed).
  destruct (watch 20 1 bustle w1) as [[[ns m] w'] |] eqn:Ew; [| rewrite Hw in Ew; by vm_compute in Ew].
  assert (R : (ns, m, callees (m_calls (tw_core w'))) = ([3; 1; 1], 0%nat, [20]) /\ r = 1).
  { split; [rewrite Hw in Ew; vm_compute in Ew; injection Ew as <- <- <-; vm_compute; reflexivity |].
    vm_compute in E. by injection E as <- _. }
  destruct R as [R ->]. injection R as -> -> R. assert (Mw := watch_meanwhile _ _ _ _ _ _ _ A Ew).
  exists w1, w'. split; [exact E |]. split; [exact Mw |]. split; [exact R |].
  destruct (C _ _ _ Mw) as (q & Eq & Aq & _). exists q. split; [exact Eq |]. apply Aq. done.
Defined.

(** ** What is not kept *)

(** The instances running and the calls made at the end of a run. *)
Definition outcome (l : list op) : option (Z * list Z) :=
  match perform_all l two_users with
  | Some (_, w) => option_map (fun x => (t_running x, callees (m_calls (tw_core w)))) (tw_timers w !! 1)
  | None => None
  end.

(** A stop between a delayed start and the next interrupt is forgotten: the instance is called. *)
Lemma stop_forgets_delayed_start :
  outcome [OpStart 10 3; OpStart 20 5; OpStop 20; OpInterrupt 99 1 3; OpInterrupt 99 1 5] = Some (1, [10; 10; 20]).
Proof. vm_compute. reflexivity. Qed.

(** An instance that is started while it runs is counted twice when its delayed start takes effect. *)
Lemma start_twice_counts_twice :
  outcome [OpStart 10 3; OpStart 10 3; OpInterrupt 99 1 3; OpStop 10] = Some (1, [10]).
Proof. vm_compute. reflexivity. Qed.

(** When the last running instance stops and two delayed starts take over, the need to
    reschedule is forgotten: what is scheduled stays at three ticks, and the one of five is
    called after six. *)
Definition three_users : tworld machine :=
  two_users <| tw_timers := {[1 := system_timer [10; 20; 30]]} |>
            <| tw_instances := <[30 := user 5 (Z.setbit 0 IFLG_AUTO)]> (tw_instances two_users) |>.
Definition scheduled (w : tworld machine) : Z := match tw_timers w !! 1 with Some x => sticks x | None => 0 end.
Fixpoint run_scheduled (n : nat) (w : tworld machine) : list Z :=
  match n with
  | O => []
  | S n => scheduled w :: match snd_timer_interrupt 99 1 (scheduled w) w with Some (_, w') => run_scheduled n w' | None => [] end
  end.
Lemma stop_loses_reschedule :
  option_map (fun r => run_scheduled 2 r.2) (perform_all [OpStart 20 9; OpStart 10 3; OpStart 30 5; OpStop 20] three_users) = Some [3; 3] /\
  option_map (fun r => callees (m_calls (tw_core r.2)))
    (perform_all [OpStart 20 9; OpStart 10 3; OpStart 30 5; OpStop 20; OpInterrupt 99 1 3; OpInterrupt 99 1 3] three_users) = Some [10; 10; 30].
Proof. vm_compute. split; reflexivity. Qed.

(** *** Slaves *)

Section Circle.
Context {C : Type} `{TimerDrivers C}.
Context (s : Z).

(** What leaves the slave of [s] as it is. *)
Definition keeps {A} (m : ST (tworld C) A) : Prop := forall w x w',
  m w = Some (x, w') -> slave <$> tw_instances w' !! s = slave <$> tw_instances w !! s.

Lemma timer_keeps_ret {A} (x : A) : keeps (ret x).
Proof. by intros w y w' [= _ <-]. Qed.

Lemma timer_keeps_bind {A B} (m : ST (tworld C) A) (k : A -> ST (tworld C) B) : keeps m -> (forall x, keeps (k x)) -> keeps (bind m k).
Proof.
  intros Hm Hk w y w' E. unfold bind in E. destruct (m w) as [[x w1] |] eqn:Em; [| done].
  rewrite (Hk x _ _ _ E). by eapply Hm.
Qed.

Lemma keeps_inst_at a : keeps (inst_at a).
Proof. intros w y w' E. unfold inst_at, tw_get, bind, get in E. cbn in E. destruct (tw_instances w !! a); [by injection E as _ <- | done]. Qed.

Lemma keeps_set_inst a f : (forall i, slave (f i) = slave i) -> keeps (set_inst a f).
Proof.
  intros Hf w y w' E. unfold set_inst, inst_at, tw_get, bind, get, update in E. cbn in E.
  destruct (tw_instances w !! a) as [i |] eqn:Hi; [| done]. injection E as _ <-. cbn.
  destruct (decide (s = a)) as [-> | N]; [by rewrite lookup_insert_eq, Hi; cbn; rewrite Hf | by rewrite lookup_insert_ne by done].
Qed.

Lemma keeps_when b (m : ST (tworld C) unit) : keeps m -> keeps (when b m).
Proof. destruct b; [done | intros _; apply timer_keeps_ret]. Qed.

Lemma keeps_insert ts tc ti : keeps (snd_timer_insert ts tc ti).
Proof.
  unfold snd_timer_insert. apply timer_keeps_bind; [apply keeps_inst_at |]. intros i. apply timer_keeps_bind.
  - case_match; [| apply timer_keeps_ret]. apply timer_keeps_bind; [by apply keeps_set_inst | intros []].
    apply timer_keeps_bind; [apply keeps_when, keeps_set_inst; done | intros []].
    apply timer_keeps_bind; [by apply keeps_set_inst | intros []; apply timer_keeps_ret].
  - intros fresh. apply timer_keeps_bind; [apply keeps_inst_at |]. intros j. apply timer_keeps_bind.
    + case_match; (apply timer_keeps_bind; [by apply keeps_set_inst | intros []; by apply keeps_set_inst]).
    + intros []. apply timer_keeps_bind; [by apply keeps_set_inst | intros []; apply timer_keeps_ret].
Qed.

(** An interrupt that comes to a slave whose chain leads back to it never ends. *)
Lemma circle_never_ends fuel ts tc ti (w : tworld C) :
  s <> NULL -> slave <$> tw_instances w !! s = Some s -> insert_slaves fuel ts tc ti s w = None.
Proof.
  intros Ns. revert tc w. induction fuel as [| fuel IH]; intros tc w Hs; [done |]. cbn [insert_slaves].
  rewrite (proj2 (Z.eqb_neq s NULL)) by done. unfold bind at 1. destruct (inst_at ti w) as [[i w1] |] eqn:E1; [| done].
  rewrite <- (keeps_inst_at ti _ _ _ E1) in Hs. unfold bind at 1.
  destruct (set_inst s _ w1) as [[[] w2] |] eqn:E2; [| done]. rewrite <- (keeps_set_inst s (fun s => s <| i_ticks := i_ticks i |>) ltac:(done) _ _ _ E2) in Hs.
  unfold bind at 1. destruct (snd_timer_insert ts tc s w2) as [[r w3] |] eqn:E3; [| done].
  rewrite <- (keeps_insert ts tc s _ _ _ E3) in Hs. unfold bind at 1. destruct (when r.1 _ w3) as [[[] w4] |] eqn:E4; [| done].
  assert (E5 : tw_instances w4 = tw_instances w3) by (unfold when, update, ret in E4; destruct r as [[] ?]; cbn in E4; by simplify_eq). rewrite <- E5 in Hs.
  unfold bind at 1. unfold inst_at, tw_get, bind, get. cbn. destruct (tw_instances w4 !! s) as [j |] eqn:Hj; [| done].
  cbn in Hs. injection Hs as Hs. cbn. rewrite Hs. apply IH. rewrite Hj. cbn. by rewrite Hs.
Qed.
End Circle.

(** A user opens a slave of the first instance, starts both, and stops and starts the slave again. *)
Definition slave_id7 : snd_timer_id := TimerId TIMER_CLASS_SLAVE TIMER_SCLASS_APPLICATION 0 7 0.
Definition with_slave (m : Z -> ST (tworld machine) unit) : option (unit * tworld machine) :=
  bind (set_inst 10 (fun i => i <| slave_class := TIMER_SCLASS_APPLICATION |> <| slave_id := 7 |>)) (fun _ =>
  bind (snd_timer_open_slave [] slave_id7) (fun s =>
  bind (snd_timer_start s 1) (fun _ => bind (snd_timer_start 10 3) (fun _ => m s)))) two_users.

Lemma slave_restart_makes_circle :
  with_slave (fun _ => snd_timer_interrupt 99 1 3) <> None /\
  option_map (fun r => slave <$> tw_instances r.2 !! 21) (with_slave (fun s => snd_timer_stop s;;; snd_timer_start s 1;;; ret tt)) = Some (Some 21) /\
  with_slave (fun s => snd_timer_stop s;;; snd_timer_start s 1;;; snd_timer_interrupt 99 1 3) = None.
Proof. vm_compute. split_and!; done. Qed.

(** A slave whose master was closed cannot be closed: its master is gone. *)
Lemma close_after_master_crashes :
  with_slave (fun s => snd_timer_close 10;;; snd_timer_close s;;; ret tt) = None /\
  with_slave (fun s => snd_timer_close s;;; snd_timer_close 10;;; ret tt) <> None.
Proof. vm_compute. split; done. Qed.
