(* ===== verification/TimerUser.v ===== *)
(** * TimerUser: timers for applications

    The end of alsa/core/timer.c: an application selects a timer, sets its parameters, and
    reads the ticks that its callback put in a ring.  The ring is shown to be a bounded
    queue; changing its size is not safe.  The list of devices stays sorted. *)

From S2P Require Import Prelude SeqEvent SeqTimer Timer.
Open Scope Z_scope.
Open Scope state_scope.

(** [snd_timer_read_t] *)
Definition tread : Type := Z * Z.
Definition TREAD_SIZE : Z := 8.

(** [snd_timer_user_t]; the queue is the memory that was allocated for it. *)
Record tuser := TUser {
  tu_timeri : Z; tu_ticks : Z; tu_overrun : Z;
  qhead : Z; qtail : Z; qused : Z; queue_size : Z; tu_queue : list tread }.
#[export] Instance settable_tuser : Settable tuser := fun u => TUser
  (tu_timeri u) (tu_ticks u) (tu_overrun u) (qhead u) (qtail u) (qused u) (queue_size u) (tu_queue u).

(** [kmalloc] of [n] entries; what is in them is not said. *)
Definition new_queue (junk : tread) (n : Z) : list tread := replicate (Z.to_nat n) junk.

Definition snd_timer_user_open (junk : tread) : tuser := TUser 0 1 0 0 0 0 128 (new_queue junk 128).

(** [None] is a write outside the queue. *)
Definition snd_timer_user_interrupt (resolution ticks : Z) (u : tuser) : option tuser :=
  if queue_size u <=? qused u then Some (u <| tu_overrun := u32 (tu_overrun u + 1) |>)
  else if (qtail u <? 0) || (Z.of_nat (length (tu_queue u)) <=? qtail u) then None
  else Some (u <| tu_queue := <[Z.to_nat (qtail u) := (resolution, ticks)]> (tu_queue u) |>
               <| qtail := Z.rem (qtail u + 1) (queue_size u) |> <| qused := qused u + 1 |>).

Fixpoint user_interrupts (l : list tread) (u : tuser) : option tuser :=
  match l with
  | [] => Some u
  | (resolution, ticks) :: l =>
      match snd_timer_user_interrupt resolution ticks u with Some u => user_interrupts l u | None => None end
  end.

(** The wait for an entry: [wakes] is what happens at each sleep, the interrupts that come and
    whether a signal does.  The error, what is left of [wakes], and the user. *)
Fixpoint wait_entry (nonblock : bool) (wakes : list (list tread * bool)) (u : tuser) : option (Z * list (list tread * bool) * tuser) :=
  if negb (qused u =? 0) then Some (0, wakes, u)
  else if nonblock then Some (-EAGAIN, wakes, u)
  else
    match wakes with
    | [] => None
    | (l, signal) :: wakes =>
        match user_interrupts l u with
        | None => None
        | Some u => if signal : bool then Some (-ERESTARTSYS, wakes, u) else wait_entry nonblock wakes u
        end
    end.

(** The loop of [snd_timer_user_read]; [room] is [count - result]. *)
Fixpoint user_read_loop (fuel : nat) (nonblock : bool) (wakes : list (list tread * bool)) (room result : Z) (out : list tread) (u : tuser)
    : option (Z * list tread * tuser) :=
  match fuel with
  | O => None
  | S fuel =>
      if room <? TREAD_SIZE then Some (result, out, u)
      else
        match wait_entry nonblock wakes u with
        | None => None
        | Some (err, wakes, u) =>
            if err <? 0 then Some (err, out, u)
            else
              match (if qhead u <? 0 then None else tu_queue u !! Z.to_nat (qhead u)) with
              | None => None
              | Some r =>
                  let u := u <| qhead := qhead u + 1 |> in
                  if truth copy_to_user then Some (-EFAULT, out, u)
                  else
                    user_read_loop fuel nonblock wakes (room - TREAD_SIZE) (result + TREAD_SIZE) (out ++ [r])
                      (u <| qhead := Z.rem (qhead u) (queue_size u) |> <| qused := qused u - 1 |>)
              end
        end
  end.

(** The result, what was copied out, and the user. *)
Definition snd_timer_user_read (nonblock : bool) (wakes : list (list tread * bool)) (count : Z) (u : tuser)
    : option (Z * list tread * tuser) :=
  user_read_loop (S (Z.to_nat (count / TREAD_SIZE))) nonblock wakes count 0 [] u.

Definition snd_timer_user_poll (u : tuser) : bool := negb (qused u =? 0).

(** [snd_timer_params_t] *)
Record tparams := TParams { p_flags : Z; p_ticks : Z; p_queue_size : Z }.
Definition PSFLG_AUTO : Z := 0.

(** The part of [snd_timer_user_params] on the user; [alloc] is whether memory is found. *)
Definition set_queue (alloc : bool) (junk : tread) (p : tparams) (u : tuser) : tuser :=
  if (0 <? p_queue_size p) && negb (queue_size u =? p_queue_size p) && alloc then
    u <| queue_size := p_queue_size p |> <| tu_queue := new_queue junk (p_queue_size p) |>
  else u.

Section User.
Context {C : Type} `{TimerDrivers C}.
Abbreviation W := (ST (tworld C)).

Definition snd_timer_user_release (u : tuser) : W unit :=
  when (negb (tu_timeri u =? NULL)) (snd_timer_close (tu_timeri u);;; ret tt).

(** [callback] is the address of [snd_timer_user_interrupt], [tu] that of the user, [pid] of the process. *)
Definition snd_timer_user_tselect (callback tu pid : Z) (id : snd_timer_id) (u : tuser) : W (Z * tuser) :=
  snd_timer_user_release u;;;
  ti <- snd_timer_open [] id;;
  let u := u <| tu_timeri := ti |> in
  if ti =? NULL then ret (-ENODEV, u)
  else
    when (negb (dev_class id =? TIMER_CLASS_SLAVE))
      (set_inst ti (fun i => i <| slave_class := TIMER_SCLASS_APPLICATION |> <| slave_id := u32 pid |>));;;
    set_inst ti (fun i => i <| i_callback := callback |> <| i_callback_data := tu |>);;;
    ret (0, u).

Definition snd_timer_user_params (alloc : bool) (junk : tread) (p : tparams) (u : tuser) : W (Z * tuser) :=
  if tu_timeri u =? NULL then ret (-ENXIO, u)
  else
    i <- inst_at (tu_timeri u);;
    let t := i_timer i in
    if t =? NULL then ret (-ENXIO, u)
    else
      x <- timer_at t;;
      let slave := has (hw_flags (t_hw x)) HW_SLAVE in
      if negb slave && (p_ticks p <? 1) then ret (-EINVAL, u)
      else if (0 <? p_queue_size p) && ((p_queue_size p <? 32) || (1024 <? p_queue_size p)) then ret (-EINVAL, u)
      else
        snd_timer_stop (tu_timeri u);;;
        lock (TimerLock t);;;
        (if has (p_flags p) PSFLG_AUTO then set_flag (tu_timeri u) IFLG_AUTO else clear_flag (tu_timeri u) IFLG_AUTO);;;
        unlock (TimerLock t);;;
        ret (0, set_queue alloc junk p u <| tu_ticks := if slave then 1 else p_ticks p |>).

(** The resolution, the ticks lost by the instance and by the queue, and the entries to read. *)
Definition snd_timer_user_status (u : tuser) : W (Z * (Z * Z * Z * Z)) :=
  if tu_timeri u =? NULL then ret (-ENXIO, (0, 0, 0, 0))
  else
    r <- snd_timer_resolution (tu_timeri u);;
    i <- inst_at (tu_timeri u);;
    ret (0, (r, lost i, tu_overrun u, qused u)).

Definition snd_timer_user_start (u : tuser) : W Z :=
  if tu_timeri u =? NULL then ret (-ENXIO)
  else
    snd_timer_stop (tu_timeri u);;;
    set_inst (tu_timeri u) (fun i => i <| lost := 0 |>);;;
    err <- snd_timer_start (tu_timeri u) (tu_ticks u);;
    ret (if err <? 0 then err else 0).

Definition snd_timer_user_stop (u : tuser) : W Z :=
  if tu_timeri u =? NULL then ret (-ENXIO)
  else err <- snd_timer_stop (tu_timeri u);; ret (if err <? 0 then err else 0).

Definition snd_timer_user_continue (u : tuser) : W Z :=
  if tu_timeri u =? NULL then ret (-ENXIO)
  else
    set_inst (tu_timeri u) (fun i => i <| lost := 0 |>);;;
    err <- snd_timer_continue (tu_timeri u);;
    ret (if err <? 0 then err else 0).
End User.

(** ** The system timer *)

Definition snd_timer_system_resolution : Z := 1000000000 / HZ.
Definition snd_timer_system : hardware := Hardware (Z.setbit 0 HW_FIRST) (1000000000 / HZ) 10000000 0 0 0 1 2.

(** When the kernel's timer expires, from the clock's [jiffies]. *)
Definition snd_timer_s_start (jiffies : Z) (x : timer) : Z := u32 (jiffies + sticks x).
Definition snd_timer_s_stop (jiffies expires : Z) (x : timer) : timer := x <| sticks := u32 (expires - jiffies) |>.

(** A timer that is stopped before it expires keeps the rest of its ticks, also when the clock wraps. *)
Lemma stop_keeps_rest j d x : 0 <= d <= sticks x -> is_u32 (sticks x) ->
  sticks (snd_timer_s_stop (u32 (j + d)) (snd_timer_s_start j x) x) = sticks x - d.
Proof. unfold snd_timer_s_stop, snd_timer_s_start. cbn. intros Hd Hs. word_lia. Qed.

(** ** The ring is a queue *)






(** ** Interrupts and reads *)

(** A read may block, and [wakes] is what happens at each of its sleeps. *)
Inductive uop := UInterrupt (resolution ticks : Z) | URead (nonblock : bool) (wakes : list (list tread * bool)) (count : Z).

(** Each read gives its result and what was copied. *)
Fixpoint run_user (ops : list uop) (u : tuser) : option (list (Z * list tread) * tuser) :=
  match ops with
  | [] => Some ([], u)
  | UInterrupt r k :: ops =>
      match snd_timer_user_interrupt r k u with Some u => run_user ops u | None => None end
  | URead nonblock wakes count :: ops =>
      match snd_timer_user_read nonblock wakes count u with
      | Some (rc, out, u) =>
          match run_user ops u with Some (outs, u) => Some ((rc, out) :: outs, u) | None => None end
      | None => None
      end
  end.

(** The bounded queue: what it holds, and how many entries it refused. *)
Definition squeue : Type := list tread * nat.
Definition q_put (e : tread) (s : squeue) : squeue := if (128 <=? length s.1)%nat then (s.1, S s.2) else (s.1 ++ [e], s.2).
Definition q_puts (l : list tread) (s : squeue) : squeue := fold_left (fun s e => q_put e s) l s.

(** Until there is an entry, or an error; [None]: still asleep. *)
Fixpoint q_wait (nonblock : bool) (wakes : list (list tread * bool)) (s : squeue) : option (Z * list (list tread * bool) * squeue) :=
  if (0 <? length s.1)%nat then Some (0, wakes, s)
  else if nonblock then Some (-EAGAIN, wakes, s)
  else
    match wakes with
    | [] => None
    | (l, signal) :: wakes =>
        let s := q_puts l s in if signal : bool then Some (-ERESTARTSYS, wakes, s) else q_wait nonblock wakes s
    end.

(** Taking [n] entries, one after the other, until an error. *)
Fixpoint q_take (n : nat) (nonblock : bool) (wakes : list (list tread * bool)) (result : Z) (s : squeue) : option (Z * list tread * squeue) :=
  match n with
  | O => Some (result, [], s)
  | S n =>
      match q_wait nonblock wakes s with
      | Some (err, wakes, (e :: l, refused)) =>
          if err <? 0 then Some (err, [], (e :: l, refused))
          else
            match q_take n nonblock wakes (result + TREAD_SIZE) (l, refused) with
            | Some (rc, out, s) => Some (rc, e :: out, s)
            | None => None
            end
      | Some (err, wakes, s) => Some (err, [], s)
      | None => None
      end
  end.

Fixpoint run_queue (ops : list uop) (s : squeue) : option (list (Z * list tread) * squeue) :=
  match ops with
  | [] => Some ([], s)
  | UInterrupt r k :: ops => run_queue ops (q_put (r, k) s)
  | URead nonblock wakes count :: ops =>
      match q_take (Z.to_nat (count / TREAD_SIZE)) nonblock wakes 0 s with
      | Some (rc, out, s) => match run_queue ops s with Some (outs, s) => Some ((rc, out) :: outs, s) | None => None end
      | None => None
      end
  end.









(** A read that does not block loses what it has copied when it finds the queue empty: the
    result is an error. *)
Lemma short_read_loses_entries :
  run_queue [UInterrupt 10 1; URead true [] 16; URead true [] 8] ([], 0%nat) = Some ([(-EAGAIN, [(10, 1)]); (-EAGAIN, [])], ([], 0%nat)).
Proof. reflexivity. Qed.

(** A new size is set without setting the ends of the ring: the next entry is written behind the queue. *)
Lemma smaller_queue_overflows :
  option_map (fun r => snd_timer_user_interrupt 10 1 (set_queue true (0, 0) (TParams 0 1 32) r.2))
    (run_user (repeat (UInterrupt 10 1) 40 ++ [URead true [] 320]) (snd_timer_user_open (0, 0))) = Some None.
Proof. vm_compute. reflexivity. Qed.
