(* ===== verification/ByteRing.v ===== *)
(** * ByteRing: bytes in a circular buffer

    What the buffers of raw MIDI have in common: a piece of memory that is written at one
    position and read at another, both modulo its size.  [content] is what lies between. *)

From S2P Require Import Prelude.
Open Scope Z_scope.

(** [memcpy] of [bs] to [pos] and of [n] bytes from [pos]. *)
Definition store (pos : Z) (bs buf : list Z) : list Z :=
  take (Z.to_nat pos) buf ++ bs ++ drop (Z.to_nat pos + length bs) buf.
Definition slice (pos n : Z) (buf : list Z) : list Z := take (Z.to_nat n) (drop (Z.to_nat pos) buf).

Definition zlen (l : list Z) : Z := Z.of_nat (length l).

(** The [n] bytes from [rd] on. *)
Definition content (buf : list Z) (rd n : Z) : list Z :=
  (fun i : nat => buf !!! Z.to_nat ((rd + Z.of_nat i) mod zlen buf)) <$> seq 0 (Z.to_nat n).

Lemma length_content buf rd n : zlen (content buf rd n) = Z.max 0 n.
Proof. unfold zlen, content. rewrite length_fmap, length_seq. lia. Qed.

Lemma content_0 buf rd : content buf rd 0 = [].
Proof. done. Qed.

Lemma length_store pos bs buf : 0 <= pos -> pos + zlen bs <= zlen buf -> zlen (store pos bs buf) = zlen buf.
Proof. unfold zlen, store. intros H1 H2. rewrite !length_app, length_take, length_drop. lia. Qed.

Lemma length_slice pos n buf : 0 <= pos -> 0 <= n -> pos + n <= zlen buf -> zlen (slice pos n buf) = n.
Proof. unfold zlen, slice. intros. rewrite length_take, length_drop. lia. Qed.

Lemma content_lookup buf rd n i : 0 <= Z.of_nat i < n -> 0 < zlen buf ->
  content buf rd n !! i = buf !! Z.to_nat ((rd + Z.of_nat i) mod zlen buf).
Proof.
  intros Hi Hp. unfold content. rewrite list_lookup_fmap, lookup_seq_lt by lia. cbn.
  assert (H : (Z.to_nat ((rd + Z.of_nat i) mod zlen buf) < length buf)%nat).
  { pose proof (Z.mod_pos_bound (rd + Z.of_nat i) (zlen buf) Hp). unfold zlen in *. lia. }
  symmetry. by apply list_lookup_lookup_total_lt.
Qed.

Lemma content_lookup_ge buf rd n i : n <= Z.of_nat i -> content buf rd n !! i = None.
Proof. intros Hi. apply lookup_ge_None. unfold content. rewrite length_fmap, length_seq. lia. Qed.

Lemma store_lookup_in pos bs buf i : 0 <= pos -> pos + zlen bs <= zlen buf -> pos <= Z.of_nat i < pos + zlen bs ->
  store pos bs buf !! i = bs !! (i - Z.to_nat pos)%nat.
Proof.
  unfold zlen, store. intros. rewrite lookup_app_r; rewrite length_take; [| lia].
  rewrite lookup_app_l by lia. f_equal. lia.
Qed.

Lemma store_lookup_out pos bs buf i : 0 <= pos -> pos + zlen bs <= zlen buf ->
  Z.of_nat i < pos \/ pos + zlen bs <= Z.of_nat i -> store pos bs buf !! i = buf !! i.
Proof.
  unfold zlen, store. intros ? ? [?|?].
  - rewrite lookup_app_l by (rewrite length_take; lia). by rewrite lookup_take_lt by lia.
  - rewrite lookup_app_r; rewrite length_take; [| lia]. rewrite lookup_app_r by lia. rewrite lookup_drop. f_equal. lia.
Qed.

(** [x mod size] for [x] below twice the size. *)
Lemma mod_once x s : 0 <= x < 2 * s -> x mod s = if x <? s then x else x - s.
Proof.
  intros Hx. destruct (Z.ltb_spec x s); [apply Z.mod_small; lia |].
  replace x with ((x - s) + 1 * s) at 1 by lia. rewrite Z.mod_add by lia. apply Z.mod_small. lia.
Qed.

(** Writing where the content ends makes it longer. *)
Lemma content_store buf rd n wr bs :
  0 <= rd < zlen buf -> 0 <= n -> n + zlen bs <= zlen buf -> (zlen bs = 0 \/ wr = (rd + n) mod zlen buf) ->
  0 <= wr -> wr + zlen bs <= zlen buf ->
  content (store wr bs buf) rd (n + zlen bs) = content buf rd n ++ bs.
Proof.
  intros Hrd Hn Hroom Hwr Hw Hfit. apply list_eq. intros i.
  assert (Hbs : 0 <= zlen bs) by (unfold zlen; lia).
  assert (El : length (content buf rd n) = Z.to_nat n) by (unfold content; by rewrite length_fmap, length_seq).
  destruct (decide (n + zlen bs <= Z.of_nat i)).
  { rewrite content_lookup_ge by done. symmetry. apply lookup_ge_None. rewrite length_app, El. unfold zlen in *. lia. }
  rewrite content_lookup; rewrite ?length_store by lia; try lia.
  rewrite mod_once by lia.
  destruct (decide (Z.of_nat i < n)).
  - rewrite lookup_app_l by lia. rewrite content_lookup by lia. rewrite mod_once by lia.
    apply store_lookup_out; [done | done |]. destruct Hwr as [Hz | ->]; [rewrite Hz; destruct (_ <? _); lia |].
    rewrite mod_once by lia. rewrite mod_once in Hfit by lia.
    destruct (Z.ltb_spec (rd + n) (zlen buf)), (Z.ltb_spec (rd + Z.of_nat i) (zlen buf)); lia.
  - rewrite lookup_app_r by lia. rewrite El. destruct Hwr as [Hz | ->]; [lia |].
    rewrite mod_once in Hfit |- * by lia.
    rewrite store_lookup_in; destruct (Z.ltb_spec (rd + n) (zlen buf)), (Z.ltb_spec (rd + Z.of_nat i) (zlen buf)); try lia; f_equal; lia.
Qed.

(** Reading where the content begins takes its first bytes. *)
Lemma content_slice buf rd n k : 0 <= rd -> 0 <= k <= n -> rd + k <= zlen buf -> 
  slice rd k buf = take (Z.to_nat k) (content buf rd n).
Proof.
  intros Hrd Hk Hfit. apply list_eq. intros i. unfold slice. destruct (decide (k <= Z.of_nat i)).
  { rewrite !lookup_take_ge by lia. done. }
  rewrite !lookup_take_lt by lia. rewrite content_lookup by lia. rewrite lookup_drop. f_equal.
  rewrite Z.mod_small; lia.
Qed.

Lemma content_drop buf rd n k : 0 <= k <= n -> 0 < zlen buf ->
  content buf ((rd + k) mod zlen buf) (n - k) = drop (Z.to_nat k) (content buf rd n).
Proof.
  intros Hk Hp. apply list_eq. intros i. rewrite lookup_drop. destruct (decide (n - k <= Z.of_nat i)).
  { rewrite !content_lookup_ge by lia. done. }
  rewrite !content_lookup by lia. do 2 f_equal. rewrite Zplus_mod_idemp_l. f_equal. lia.
Qed.

(** Where the content ends does not move when its beginning is taken. *)
Lemma ring_end rd n k s : 0 < s -> ((rd + k) mod s + (n - k)) mod s = (rd + n) mod s.
Proof. intros Hs. rewrite Zplus_mod_idemp_l. f_equal. lia. Qed.
