(* ===== verification/RawMidi.v ===== *)
(** * RawMidi: streams of MIDI bytes

    The substreams of alsa/core/rawmidi.c: the ring between an application and the driver of
    a port, with what the driver does to it while calls are interrupted.  A driver is what it
    calls: [drv_call] are its calls into this file.  On OS/2 [signal_pending] is 0,
    [schedule] does nothing, and [schedule_timeout] and [interruptible_sleep_on_timeout]
    return 0 and 1 (include/linux/signal.h, lib32/misc.c, lib32/waitqueue.c). *)

From S2P Require Export StateMonad.
From S2P Require Import Prelude ByteRing.
Open Scope Z_scope.
Open Scope state_scope.

(** ** Data *)

Definition PAGE_SIZE : Z := 4096.

(** [snd_rawmidi_runtime_t] without its wait queue; [r_event] is whether there is a handler. *)
Record runtime := Runtime {
  r_trigger : bool; r_drain : bool; r_buffer : option (list Z);
  buffer_size : Z; appl_ptr : Z; hw_ptr : Z; avail_min : Z; avail : Z; xruns : Z;
  r_lock : bool; r_event : bool }.
#[export] Instance settable_runtime : Settable runtime := fun r => Runtime
  (r_trigger r) (r_drain r) (r_buffer r) (buffer_size r) (appl_ptr r) (hw_ptr r) (avail_min r) (avail r) (xruns r)
  (r_lock r) (r_event r).

(** What a driver does: it takes bytes from the wire, looks at the next [count] bytes of the
    stream and sends [k] of those it saw, or asks if there are any. *)
Inductive drv_call :=
| Receive (bytes : list Z)
| Take (count k : Z)
| Transmit (count : Z)
| Empty.

(** [snd_rawmidi_substream_t].  Behind it: the interrupts that are still to come, each at
    the next point where one may; the bytes the device has sent; those that were taken from
    the wire into the ring; and the calls of [wake_up] and of the handler. *)
Record sub := Sub {
  s_input : bool; s_number : Z; s_opened : bool; s_append : bool; s_sensing : bool; s_use : Z; s_bytes : Z;
  s_runtime : option runtime;
  s_irqs : list (list drv_call); s_wire : list Z; s_fed : list Z; s_woken : Z; s_events : Z }.
#[export] Instance settable_sub : Settable sub := fun s => Sub
  (s_input s) (s_number s) (s_opened s) (s_append s) (s_sensing s) (s_use s) (s_bytes s) (s_runtime s)
  (s_irqs s) (s_wire s) (s_fed s) (s_woken s) (s_events s).

(** [snd_rawmidi_ops_t]: the calls of the driver's functions, and the result of [open]. *)
Class RawOps := {
  op_open : sub -> Z;
  op_close : sub -> list drv_call;
  op_trigger : bool -> sub -> list drv_call;
  op_drain : option (sub -> list drv_call) }.

Abbreviation R := (ST sub).

Definition runtime_of : R runtime := fun s =>
  match s_runtime s with Some r => Some (r, s) | None => None end.
Definition set_runtime (f : runtime -> runtime) : R unit :=
  r <- runtime_of;; update (fun s => s <| s_runtime := Some (f r) |>).

Definition spin_lock : R unit :=
  r <- runtime_of;; if r_lock r then crash else set_runtime (fun r => r <| r_lock := true |>).
Definition spin_unlock : R unit := set_runtime (fun r => r <| r_lock := false |>).

(** [memcpy] to and from the buffer; outside of it is a crash. *)
Definition copy_in (pos : Z) (bs : list Z) : R unit :=
  r <- runtime_of;;
  match r_buffer r with
  | None => crash
  | Some buf =>
      if (0 <=? pos) && (pos + zlen bs <=? zlen buf) then set_runtime (fun r => r <| r_buffer := Some (store pos bs buf) |>)
      else crash
  end.
Definition copy_out (pos n : Z) : R (list Z) :=
  r <- runtime_of;;
  match r_buffer r with
  | None => crash
  | Some buf => if (0 <=? pos) && (0 <=? n) && (pos + n <=? zlen buf) then ret (slice pos n buf) else crash
  end.

Definition wake_up : R unit := update (fun s => s <| s_woken := s_woken s + 1 |>).
Definition call_event : R unit := update (fun s => s <| s_events := s_events s + 1 |>).
Definition add_bytes (n : Z) : R unit := update (fun s => s <| s_bytes := u32 (s_bytes s + n) |>).

(** ** Operations of the ring *)

Definition ready (r : runtime) : bool := avail_min r <=? avail r.

(** [snd_kcalloc] of the runtime has succeeded; [junk] is the memory found for the buffer. *)
Definition snd_rawmidi_init (input : bool) (junk : option (list Z)) : Z * runtime :=
  let r := Runtime false false junk PAGE_SIZE 0 0 1 (if input then 0 else PAGE_SIZE) 0 false false in
  (match junk with None => -ENOMEM | Some _ => 0 end, r).

Definition snd_rawmidi_done_buffer : R Z := set_runtime (fun r => r <| r_buffer := None |>);;; ret 0.

(** The room in the ring of an input, and what is queued in that of an output. *)
Definition unused (r : runtime) : Z := u32 (buffer_size r - avail r).
Definition to_end_hw (r : runtime) : Z := s32 (buffer_size r - hw_ptr r).
Definition to_end_appl (r : runtime) : Z := s32 (buffer_size r - appl_ptr r).

Definition clip (a b : Z) : Z := if b <? a then b else a.

(** One byte, the fast case; [result]. *)
Definition receive_one (b : Z) : R Z :=
  add_bytes 1;;;
  r <- runtime_of;;
  if avail r <? buffer_size r then
    copy_in (hw_ptr r) [b];;;
    set_runtime (fun r => r <| hw_ptr := (hw_ptr r + 1) mod buffer_size r |> <| avail := avail r + 1 |>);;;
    ret 1
  else set_runtime (fun r => r <| xruns := u32 (xruns r + 1) |>);;; ret 0.

(** The bytes that are left when the end of the buffer is reached, [count1] having been taken. *)
Definition receive_rest (rest : list Z) (count1 : Z) : R Z :=
  if 0 <? zlen rest then
    r <- runtime_of;;
    let count2 := clip (zlen rest) (unused r) in
    when (unused r <? zlen rest) (set_runtime (fun r => r <| xruns := zlen rest - count2 |>));;;
    if 0 <? count2 then
      copy_in 0 (take (Z.to_nat count2) rest);;;
      set_runtime (fun r => r <| hw_ptr := count2 |> <| avail := avail r + count2 |>);;;
      ret (count1 + count2)
    else ret count1
  else ret count1.

Definition receive_many (bytes : list Z) : R Z :=
  let count := zlen bytes in
  add_bytes count;;;
  r <- runtime_of;;
  let count1 := clip (clip (to_end_hw r) count) (unused r) in
  copy_in (hw_ptr r) (take (Z.to_nat count1) bytes);;;
  set_runtime (fun r => r <| hw_ptr := (hw_ptr r + count1) mod buffer_size r |> <| avail := avail r + count1 |>);;;
  receive_rest (drop (Z.to_nat count1) bytes) count1.

Definition snd_rawmidi_receive (bytes : list Z) : R Z :=
  r <- runtime_of;;
  match r_buffer r with
  | None => ret (-EINVAL)
  | Some _ =>
      spin_lock;;;
      result <- match bytes with [b] => receive_one b | _ => receive_many bytes end;;
      update (fun s => s <| s_fed := s_fed s ++ take (Z.to_nat result) bytes |>);;;
      r <- runtime_of;;
      when ((0 <? result) && negb (r_event r) && ready r) wake_up;;;
      spin_unlock;;;
      when ((0 <? result) && r_event r) call_event;;;
      ret result
  end.

Definition snd_rawmidi_transmit_empty : R bool :=
  r <- runtime_of;;
  match r_buffer r with
  | None => ret true
  | Some _ =>
      spin_lock;;;
      r <- runtime_of;;
      let result := buffer_size r <=? avail r in
      when result (set_runtime (fun r => r <| r_trigger := true |>));;;
      spin_unlock;;;
      ret result
  end.

(** The result, and what is in the driver's buffer. *)
Definition snd_rawmidi_transmit_peek (count : Z) : R (Z * list Z) :=
  r <- runtime_of;;
  match r_buffer r with
  | None => ret (-EINVAL, [])
  | Some _ =>
      spin_lock;;;
      r <- runtime_of;;
      res <- (if buffer_size r <=? avail r then set_runtime (fun r => r <| r_trigger := false |>);;; ret (0, [])
              else if count =? 1 then b <- copy_out (hw_ptr r) 1;; ret (1, b)
              else
                let count1 := clip (clip (to_end_hw r) count) (unused r) in
                bs <- copy_out (hw_ptr r) count1;;
                if 0 <? count - count1 then more <- copy_out 0 (count - count1);; ret (count1, bs ++ more)
                else ret (count1, bs));;
      spin_unlock;;;
      ret res
  end.

Definition snd_rawmidi_transmit_ack (count : Z) : R Z :=
  r <- runtime_of;;
  match r_buffer r with
  | None => ret (-EINVAL)
  | Some _ =>
      spin_lock;;;
      set_runtime (fun r => r <| hw_ptr := (hw_ptr r + count) mod buffer_size r |> <| avail := u32 (avail r + count) |>);;;
      add_bytes count;;;
      r <- runtime_of;;
      when (if r_drain r then true else (0 <? count) && negb (r_event r) && ready r) wake_up;;;
      spin_unlock;;;
      when ((0 <? count) && r_event r) call_event;;;
      ret count
  end.

Definition snd_rawmidi_transmit (count : Z) : R (Z * list Z) :=
  res <- snd_rawmidi_transmit_peek count;;
  if res.1 <? 0 then ret res else n <- snd_rawmidi_transmit_ack res.1;; ret (n, res.2).

(** ** The driver *)

(** The device sends what the driver has acknowledged. *)
Definition send (n : Z) (bs : list Z) : R unit := update (fun s => s <| s_wire := s_wire s ++ take (Z.to_nat n) bs |>).

Definition drv_run (c : drv_call) : R unit :=
  match c with
  | Receive bytes => snd_rawmidi_receive bytes;;; ret tt
  | Take count k =>
      res <- snd_rawmidi_transmit_peek count;;
      when (0 <=? res.1) (let n := clip res.1 k in snd_rawmidi_transmit_ack n;;; send n res.2)
  | Transmit count => res <- snd_rawmidi_transmit count;; when (0 <=? res.1) (send res.1 res.2)
  | Empty => snd_rawmidi_transmit_empty;;; ret tt
  end.

Fixpoint drv_runs (cs : list drv_call) : R unit :=
  match cs with [] => ret tt | c :: cs => drv_run c;;; drv_runs cs end.

(** The next interrupt, if one is still to come. *)
Definition poll_irq : R unit := fun s =>
  match s_irqs s with [] => Some (tt, s) | cs :: irqs => drv_runs cs (s <| s_irqs := irqs |>) end.

Section Ops.
Context `{RawOps}.

Definition trigger (up : bool) : R unit := s <- get;; drv_runs (op_trigger up s).
Definition close : R unit := s <- get;; drv_runs (op_close s).

(** ** Operations of the application *)

Definition snd_rawmidi_drop_output : R Z :=
  trigger false;;;
  set_runtime (fun r => r <| r_trigger := false |> <| r_drain := false |>
                          <| appl_ptr := 0 |> <| hw_ptr := 0 |> <| avail := buffer_size r |>);;;
  ret 0.

Definition snd_rawmidi_drain_input : R Z :=
  trigger false;;;
  set_runtime (fun r => r <| r_trigger := false |> <| r_drain := false |>
                          <| appl_ptr := 0 |> <| hw_ptr := 0 |> <| avail := 0 |>);;;
  ret 0.

(** The call has returned, or it is still in its loop when no interrupt is left. *)
Inductive outcome := Done (result : Z) | Waiting.

(** The timeout is never 0 here, so the loop has one way out. *)
Fixpoint drain_loop (fuel : nat) : R bool :=
  match fuel with
  | O => ret false
  | S fuel =>
      r <- runtime_of;;
      if avail r <? buffer_size r then poll_irq;;; drain_loop fuel else ret true
  end.

Definition snd_rawmidi_drain_output : R outcome :=
  set_runtime (fun r => r <| r_drain := true |>);;;
  s <- get;;
  drained <- drain_loop (S (length (s_irqs s)));;
  if negb drained then ret Waiting
  else
    set_runtime (fun r => r <| r_drain := false |>);;;
    match op_drain with Some f => s <- get;; drv_runs (f s) | None => poll_irq end;;;
    snd_rawmidi_drop_output;;;
    ret (Done 0).

(** [snd_rawmidi_params_t] *)
Record params := Params { p_buffer_size : Z; p_avail_min : Z; p_no_active_sensing : bool }.

Definition params_wrong (p : params) : bool :=
  (p_buffer_size p <? 32) || (1048576 <? p_buffer_size p) ||
  (p_avail_min p <? 1) || (p_buffer_size p <=? p_avail_min p).

(** The end of both; [alloc] is the memory [kmalloc] finds. *)
Definition set_params (alloc : option (list Z)) (p : params) : R Z :=
  r <- runtime_of;;
  err <- (if p_buffer_size p =? buffer_size r then ret 0
          else match alloc with
               | None => ret (-ENOMEM)
               | Some newbuf =>
                   set_runtime (fun r => r <| r_buffer := Some newbuf |> <| buffer_size := p_buffer_size p |>);;; ret 0
               end);;
  if err <? 0 then ret err else set_runtime (fun r => r <| avail_min := p_avail_min p |>);;; ret 0.

Definition snd_rawmidi_output_params (alloc : option (list Z)) (p : params) : R outcome :=
  s <- get;;
  if s_append s && (1 <? s_use s) then ret (Done (-EBUSY))
  else
    drained <- snd_rawmidi_drain_output;;
    match drained with
    | Waiting => ret Waiting
    | Done _ =>
        if params_wrong p then ret (Done (-EINVAL))
        else
          err <- set_params alloc p;;
          when (0 <=? err) (update (fun s => s <| s_sensing := negb (p_no_active_sensing p) |>));;;
          ret (Done err)
    end.

Definition snd_rawmidi_input_params (alloc : option (list Z)) (p : params) : R Z :=
  snd_rawmidi_drain_input;;;
  if params_wrong p then ret (-EINVAL) else set_params alloc p.

Definition snd_rawmidi_output_status : R Z :=
  spin_lock;;; r <- runtime_of;; spin_unlock;;; ret (avail r).

(** The bytes to read and those that were lost since the last time. *)
Definition snd_rawmidi_input_status : R (Z * Z) :=
  spin_lock;;; r <- runtime_of;; set_runtime (fun r => r <| xruns := 0 |>);;; spin_unlock;;; ret (avail r, xruns r).

(** [fault n]: the user's memory at [n] cannot be accessed.  The result and the bytes read. *)
Fixpoint read1_loop (fuel : nat) (kernel : bool) (fault : Z -> bool) (count result : Z) (out : list Z) : R (Z * list Z) :=
  match fuel with
  | O => crash
  | S fuel =>
      r <- runtime_of;;
      if (0 <? count) && negb (avail r =? 0) then
        let count1 := clip (to_end_appl r) count in
        poll_irq;;;
        spin_lock;;;
        r <- runtime_of;;
        let count1 := clip count1 (avail r) in
        bs <- copy_out (appl_ptr r) count1;;
        if negb kernel && fault result then
          spin_unlock;;; ret (if 0 <? result then result else -EFAULT, out)
        else
          set_runtime (fun r => r <| appl_ptr := (appl_ptr r + count1) mod buffer_size r |> <| avail := avail r - count1 |>);;;
          spin_unlock;;;
          read1_loop fuel kernel fault (count - count1) (result + count1) (out ++ bs)
      else ret (result, out)
  end.

Definition snd_rawmidi_kernel_read1 (kernel : bool) (fault : Z -> bool) (count : Z) : R (Z * list Z) :=
  read1_loop (S (Z.to_nat count)) kernel fault count 0 [].

Definition snd_rawmidi_kernel_read (count : Z) : R (Z * list Z) :=
  set_runtime (fun r => r <| r_trigger := true |>);;;
  trigger true;;;
  snd_rawmidi_kernel_read1 true (fun _ => false) count.

(** The bytes that are left to write are [buf]. *)
Fixpoint write1_loop (fuel : nat) (kernel : bool) (fault : Z -> bool) (buf : list Z) (result : Z) : R Z :=
  match fuel with
  | O => crash
  | S fuel =>
      r <- runtime_of;;
      if (0 <? zlen buf) && negb (avail r =? 0) then
        let count1 := clip (clip (to_end_appl r) (zlen buf)) (avail r) in
        if negb kernel && fault result then ret (if 0 <? result then result else -EFAULT)
        else
          copy_in (appl_ptr r) (take (Z.to_nat count1) buf);;;
          set_runtime (fun r => r <| appl_ptr := (appl_ptr r + count1) mod buffer_size r |> <| avail := avail r - count1 |>);;;
          write1_loop fuel kernel fault (drop (Z.to_nat count1) buf) (result + count1)
      else ret result
  end.

Definition snd_rawmidi_kernel_write1 (kernel : bool) (fault : Z -> bool) (buf : list Z) : R Z :=
  r <- runtime_of;;
  match r_buffer r with
  | None => ret (-EINVAL)
  | Some _ =>
      spin_lock;;;
      s <- get;;
      r <- runtime_of;;
      if s_append s && (avail r <? zlen buf) then spin_unlock;;; ret (-EAGAIN)
      else
        result <- write1_loop (S (length buf)) kernel fault buf 0;;
        when (0 <? result) (set_runtime (fun r => r <| r_trigger := true |>));;;
        spin_unlock;;;
        trigger true;;;
        ret result
  end.

Definition snd_rawmidi_kernel_write (buf : list Z) : R Z := snd_rawmidi_kernel_write1 true (fun _ => false) buf.

(** The wait of [snd_rawmidi_read] and [snd_rawmidi_write] with the lock held: the ring
    is ready, the function returns, or it is still asleep.  [schedule_timeout] returns 0, so that the
    two wait alike. *)
Inductive wait := Ready | Leave (err : Z) | Asleep.

Fixpoint wait_ready (fuel : nat) (nonblock : bool) : R wait :=
  match fuel with
  | O => spin_unlock;;; ret Asleep
  | S fuel =>
      r <- runtime_of;;
      if ready r then spin_unlock;;; ret Ready
      else if nonblock then spin_unlock;;; ret (Leave (-EAGAIN))
      else
        spin_unlock;;;
        poll_irq;;;
        r <- runtime_of;;
        if avail r =? 0 then ret (Leave (-EIO)) else spin_lock;;; wait_ready fuel nonblock
  end.

Definition wait_for_ring (nonblock : bool) : R wait :=
  spin_lock;;; s <- get;; wait_ready (S (length (s_irqs s))) nonblock.

(** The loop of [snd_rawmidi_read]; the user's buffer begins at [pos]. *)
Fixpoint read_loop (fuel : nat) (nonblock : bool) (fault : Z -> bool) (count pos result : Z) (out : list Z) : R (outcome * list Z) :=
  match fuel with
  | O => ret (Waiting, out)
  | S fuel =>
      if 0 <? count then
        w <- wait_for_ring nonblock;;
        match w with
        | Asleep => ret (Waiting, out)
        | Leave err => ret (Done (if 0 <? result then result else err), out)
        | Ready =>
            res <- snd_rawmidi_kernel_read1 false (fun n => fault (pos + n)) (s32 count);;
            read_loop fuel nonblock fault (u32 (count - res.1)) (pos + res.1) (result + res.1) (out ++ res.2)
        end
      else ret (Done result, out)
  end.

(** [input] is whether the file has an input. *)
Definition snd_rawmidi_read (fuel : nat) (input nonblock : bool) (fault : Z -> bool) (count : Z) : R (outcome * list Z) :=
  if negb input then ret (Done (-EIO), [])
  else
    set_runtime (fun r => r <| r_trigger := true |>);;;
    trigger true;;;
    read_loop fuel nonblock fault count 0 0 [].

(** The user's memory from [pos] on. *)
Definition user_bytes (mem : Z -> Z) (pos count : Z) : list Z := (fun i : nat => mem (pos + Z.of_nat i)) <$> seq 0 (Z.to_nat count).

(** The first loop of [snd_rawmidi_write]: [count] bytes from [pos] on are to be written.  The flag
    says whether the function returns there. *)
Fixpoint write_loop (fuel : nat) (nonblock : bool) (fault : Z -> bool) (mem : Z -> Z) (count pos result : Z) : R (outcome * bool) :=
  match fuel with
  | O => ret (Waiting, true)
  | S fuel =>
      if 0 <? count then
        w <- wait_for_ring nonblock;;
        match w with
        | Asleep => ret (Waiting, true)
        | Leave err => ret (Done (if 0 <? result then result else err), true)
        | Ready =>
            n <- snd_rawmidi_kernel_write1 false (fun n => fault (pos + n)) (user_bytes mem pos (s32 count));;
            let count := u32 (count - n) in
            if (u32 n <? count) && nonblock then ret (Done (result + n), false)
            else write_loop fuel nonblock fault mem count (pos + n) (result + n)
        end
      else ret (Done result, false)
  end.

(** The wait for the ring to run empty, with the lock held; the timeout is 0. *)
Fixpoint sync_wait (fuel : nat) : R wait :=
  match fuel with
  | O => spin_unlock;;; ret Asleep
  | S fuel =>
      r <- runtime_of;;
      if avail r =? buffer_size r then spin_unlock;;; ret Ready
      else
        spin_unlock;;;
        poll_irq;;;
        r' <- runtime_of;;
        if avail r' =? avail r then ret (Leave (-EIO)) else spin_lock;;; sync_wait fuel
  end.

(** The second loop, whose condition is only the flag [O_SYNC]. *)
Fixpoint sync_loop (fuel : nat) (result : Z) : R outcome :=
  match fuel with
  | O => ret Waiting
  | S fuel =>
      spin_lock;;;
      s <- get;;
      w <- sync_wait (S (length (s_irqs s)));;
      match w with
      | Asleep => ret Waiting
      | Leave err => ret (Done (if 0 <? result then result else err))
      | Ready => sync_loop fuel result
      end
  end.

Definition snd_rawmidi_write (fuel : nat) (nonblock sync : bool) (fault : Z -> bool) (mem : Z -> Z) (count : Z) : R outcome :=
  res <- write_loop fuel nonblock fault mem count 0 0;;
  match res with
  | (Done result, false) => if sync then sync_loop fuel result else ret (Done result)
  | (o, _) => ret o
  end.

(** The parts of [snd_rawmidi_poll] for an input and for an output: whether it is ready. *)
Definition snd_rawmidi_poll_input : R bool :=
  set_runtime (fun r => r <| r_trigger := true |>);;; trigger true;;; r <- runtime_of;; ret (ready r).
Definition snd_rawmidi_poll_output : R bool := r <- runtime_of;; ret (ready r).
End Ops.
