(* ===== verification/RawMidiRing.v ===== *)
(** * RawMidiRing: the ring of a raw MIDI stream

    The invariant of the ring, and what the functions that drivers call do to it: nothing is
    written outside of the buffer, no lock is taken twice, bytes are received as long as
    there is room, and what is sent are the first bytes that are queued. *)

From S2P Require Import Prelude ByteRing RawMidi.
Open Scope Z_scope.
Open Scope state_scope.

(** ** The invariant *)

Definition rd_ptr (input : bool) (r : runtime) : Z := if input then appl_ptr r else hw_ptr r.
Definition wr_ptr (input : bool) (r : runtime) : Z := if input then hw_ptr r else appl_ptr r.
Definition queued (input : bool) (r : runtime) : Z := if input then avail r else buffer_size r - avail r.

(** The ring of a stream whose direction, lock, size and threshold are given holds [q]. *)
Record ring_ok (input lk : bool) (sz am : Z) (r : runtime) (q : list Z) : Prop := {
  ro_buf : exists buf, r_buffer r = Some buf /\ zlen buf = sz /\ q = content buf (rd_ptr input r) (queued input r);
  ro_size : buffer_size r = sz;
  ro_range : 32 <= sz <= 1048576;
  ro_rd : 0 <= rd_ptr input r < sz;
  ro_wr : wr_ptr input r = (rd_ptr input r + queued input r) mod sz;
  ro_avail : 0 <= avail r <= sz;
  ro_min : avail_min r = am;
  ro_min_range : 1 <= am < sz;
  ro_lock : r_lock r = lk }.

(** What a driver may call: as much as it may look at is in every ring. *)
Definition right (input : bool) (c : drv_call) : Prop :=
  match c with
  | Receive _ => input = true
  | Take count k => input = false /\ 0 <= count <= 32 /\ 0 <= k
  | Transmit count => input = false /\ 0 <= count <= 32
  | Empty => True
  end.

Class QuietRaw `{RawOps} := {
  close_right s : Forall (right (s_input s)) (op_close s);
  trigger_right up s : Forall (right (s_input s)) (op_trigger up s);
  drain_right f s : op_drain = Some f -> Forall (right (s_input s)) (f s) }.

(** What no function of a stream changes. *)
Definition ident (s : sub) : bool * Z * bool * bool * Z := (s_input s, s_number s, s_opened s, s_append s, s_use s).

(** Besides the runtime and what is only counted, the state is the same. *)
Definition kept (s s' : sub) : Prop :=
  ident s' = ident s /\ s_sensing s' = s_sensing s /\ s_irqs s' = s_irqs s /\ s_wire s' = s_wire s /\ s_fed s' = s_fed s.

Lemma kept_refl s : kept s s.
Proof. done. Qed.

Lemma kept_trans s1 s2 s3 : kept s1 s2 -> kept s2 s3 -> kept s1 s3.
Proof. unfold kept. intuition congruence. Qed.

#[export] Instance kept_preorder : PreOrder kept.
Proof. split; [exact kept_refl | exact kept_trans]. Qed.

(** ** Rules *)

Lemma wp_runtime_of r s (Q : runtime -> sub -> Prop) : s_runtime s = Some r -> Q r s -> wp runtime_of Q s.
Proof. unfold wp, runtime_of. by intros ->. Qed.

Lemma wp_set_runtime r f s (Q : unit -> sub -> Prop) :
  s_runtime s = Some r -> Q tt (s <| s_runtime := Some (f r) |>) -> wp (set_runtime f) Q s.
Proof. intros Hr HQ. apply wp_bind. by eapply wp_runtime_of. Qed.

Lemma wp_raw_lock r s (Q : unit -> sub -> Prop) :
  s_runtime s = Some r -> r_lock r = false -> Q tt (s <| s_runtime := Some (r <| r_lock := true |>) |>) -> wp spin_lock Q s.
Proof.
  intros Hr Hl HQ. unfold spin_lock. apply wp_bind. eapply wp_runtime_of; [exact Hr |]. rewrite Hl. by eapply wp_set_runtime.
Qed.

Section Ring.
Context {input lk : bool} {sz am : Z}.

Lemma ring_queued r q : ring_ok input lk sz am r q -> zlen q = queued input r /\ 0 <= queued input r <= sz.
Proof.
  intros Ho. destruct (ro_buf _ _ _ _ _ _ Ho) as (buf & _ & _ & ->). rewrite length_content.
  pose proof (ro_avail _ _ _ _ _ _ Ho). pose proof (ro_size _ _ _ _ _ _ Ho). unfold queued. destruct input; lia.
Qed.

Lemma ring_wr r q : ring_ok input lk sz am r q -> 0 <= wr_ptr input r < sz.
Proof. intros Ho. rewrite (ro_wr _ _ _ _ _ _ Ho). apply Z.mod_pos_bound. pose proof (ro_range _ _ _ _ _ _ Ho). lia. Qed.

(** The places where the ring grows and shrinks, for any runtime that differs accordingly. *)
Lemma ring_put r q bs buf r' :
  ring_ok input lk sz am r q -> r_buffer r = Some buf -> zlen bs <= sz - zlen q -> 
  (exists wr, (zlen bs = 0 \/ wr = wr_ptr input r) /\ 0 <= wr /\ wr + zlen bs <= sz /\ r_buffer r' = Some (store wr bs buf)) ->
  buffer_size r' = buffer_size r -> rd_ptr input r' = rd_ptr input r -> wr_ptr input r' = (wr_ptr input r + zlen bs) mod sz ->
  queued input r' = queued input r + zlen bs -> avail_min r' = avail_min r -> r_lock r' = r_lock r ->
  ring_ok input lk sz am r' (q ++ bs).
Proof.
  intros Ho Eb Hroom (wr & Hwr & Hw0 & Hw1 & Eb') E1 E2 E3 E4 E5 E6. destruct (ring_queued _ _ Ho) as [Eq Hq].
  destruct Ho as [(buf' & Eb2 & Hl & ->) R1 R2 R3 R4 R5 R6 R7 R8].
  assert (buf' = buf) as -> by congruence. assert (0 <= zlen bs) by (unfold zlen; lia). rewrite length_content in Hroom.
  split; rewrite ?E1, ?E2, ?E5, ?E6; try done.
  - exists (store wr bs buf). split; [done |]. split; [rewrite length_store; lia |]. rewrite E4.
    symmetry. apply content_store; [lia | lia | lia | | done | lia].
    destruct Hwr as [? | ->]; [by left | right]. by rewrite R4, Hl.
  - rewrite E3, R4, E4, Zplus_mod_idemp_l. f_equal. lia.
  - unfold queued in *. destruct input; lia.
Qed.

Lemma ring_get r q k r' :
  ring_ok input lk sz am r q -> 0 <= k <= zlen q -> r_buffer r' = r_buffer r ->
  buffer_size r' = buffer_size r -> rd_ptr input r' = (rd_ptr input r + k) mod sz -> wr_ptr input r' = wr_ptr input r ->
  queued input r' = queued input r - k -> avail_min r' = avail_min r -> r_lock r' = r_lock r ->
  ring_ok input lk sz am r' (drop (Z.to_nat k) q).
Proof.
  intros Ho Hk Eb' E1 E2 E3 E4 E5 E6. destruct (ring_queued _ _ Ho) as [Eq Hq].
  destruct Ho as [(buf & Eb & Hl & ->) R1 R2 R3 R4 R5 R6 R7 R8]. rewrite length_content in Hk.
  split; rewrite ?E1, ?E3, ?E5, ?E6; try done.
  - exists buf. split; [congruence |]. split; [done |]. rewrite E2, E4, <- Hl. symmetry. apply content_drop; lia.
  - rewrite E2. apply Z.mod_pos_bound. lia.
  - rewrite E2, E4, R4. symmetry. apply ring_end. lia.
  - unfold queued in *. destruct input; lia.
Qed.

(** A change of neither. *)
Lemma ring_same lk' r q r' :
  ring_ok input lk sz am r q -> r_buffer r' = r_buffer r -> buffer_size r' = buffer_size r -> appl_ptr r' = appl_ptr r ->
  hw_ptr r' = hw_ptr r -> avail r' = avail r -> avail_min r' = avail_min r -> r_lock r' = lk' -> ring_ok input lk' sz am r' q.
Proof.
  intros [(buf & Eb & Hl & ->) R1 R2 R3 R4 R5 R6 R7 R8] E1 E2 E3 E4 E5 E6 E7.
  unfold rd_ptr, wr_ptr, queued in *. split; unfold rd_ptr, wr_ptr, queued; rewrite ?E1, ?E2, ?E3, ?E4, ?E5, ?E6; try done. by exists buf.
Qed.

(** [memcpy] into the ring and out of it. *)
Lemma wp_copy_in s r q pos bs (Q : unit -> sub -> Prop) :
  s_runtime s = Some r -> ring_ok input lk sz am r q -> 0 <= pos -> pos + zlen bs <= sz ->
  (forall buf, r_buffer r = Some buf -> Q tt (s <| s_runtime := Some (r <| r_buffer := Some (store pos bs buf) |>) |>)) ->
  wp (copy_in pos bs) Q s.
Proof.
  intros Hr Ho H0 H1 HQ. unfold copy_in. apply wp_bind. eapply wp_runtime_of; [exact Hr |].
  destruct (ro_buf _ _ _ _ _ _ Ho) as (buf & Eb & Hl & _). rewrite Eb, Hl.
  rewrite (proj2 (Z.leb_le 0 pos)), (proj2 (Z.leb_le _ _)) by lia. cbn [andb]. eapply wp_set_runtime; [exact Hr |]. by apply HQ.
Qed.

Lemma wp_copy_out s r q k (Q : list Z -> sub -> Prop) :
  s_runtime s = Some r -> ring_ok input lk sz am r q -> 0 <= k <= zlen q -> rd_ptr input r + k <= sz ->
  Q (take (Z.to_nat k) q) s -> wp (copy_out (rd_ptr input r) k) Q s.
Proof.
  intros Hr Ho Hk H1 HQ. unfold copy_out. apply wp_bind. eapply wp_runtime_of; [exact Hr |].
  destruct (ring_queued _ _ Ho) as [Eq _]. pose proof (ro_rd _ _ _ _ _ _ Ho).
  destruct (ro_buf _ _ _ _ _ _ Ho) as (buf & Eb & Hl & E). rewrite Eb, Hl.
  rewrite (proj2 (Z.leb_le 0 (rd_ptr input r))), (proj2 (Z.leb_le 0 k)), (proj2 (Z.leb_le _ _)) by lia. cbn [andb].
  apply wp_ret. rewrite (content_slice _ _ (queued input r)) by lia. by rewrite <- E.
Qed.

(** Bytes of the buffer that nothing is said about. *)
Lemma wp_copy_out_any s r q pos k (Q : list Z -> sub -> Prop) :
  s_runtime s = Some r -> ring_ok input lk sz am r q -> 0 <= pos -> 0 <= k -> pos + k <= sz ->
  (forall bs, zlen bs = k -> Q bs s) -> wp (copy_out pos k) Q s.
Proof.
  intros Hr Ho H0 Hk H1 HQ. unfold copy_out. apply wp_bind. eapply wp_runtime_of; [exact Hr |].
  destruct (ro_buf _ _ _ _ _ _ Ho) as (buf & Eb & Hl & _). rewrite Eb, Hl.
  rewrite (proj2 (Z.leb_le 0 pos)), (proj2 (Z.leb_le 0 k)), (proj2 (Z.leb_le _ _)) by lia. cbn [andb].
  apply wp_ret, HQ. apply length_slice; lia.
Qed.

Lemma ring_unused r q : ring_ok input lk sz am r q -> unused r = sz - avail r.
Proof.
  intros Ho. pose proof (ro_avail _ _ _ _ _ _ Ho). pose proof (ro_range _ _ _ _ _ _ Ho). unfold unused. rewrite (ro_size _ _ _ _ _ _ Ho).
  apply u32_small. unfold is_u32. lia.
Qed.

Lemma ring_ptrs r q : ring_ok input lk sz am r q -> 0 <= appl_ptr r < sz /\ 0 <= hw_ptr r < sz.
Proof. intros Ho. pose proof (ring_wr _ _ Ho). pose proof (ro_rd _ _ _ _ _ _ Ho). unfold rd_ptr, wr_ptr in *. destruct input; lia. Qed.

Lemma ring_to_end r q : ring_ok input lk sz am r q -> to_end_hw r = sz - hw_ptr r /\ to_end_appl r = sz - appl_ptr r.
Proof.
  intros Ho. destruct (ring_ptrs _ _ Ho). pose proof (ro_range _ _ _ _ _ _ Ho). unfold to_end_hw, to_end_appl.
  rewrite (ro_size _ _ _ _ _ _ Ho), !s32_small by (unfold is_s32; lia). done.
Qed.

Lemma ring_buffer r q : ring_ok input lk sz am r q -> exists buf, r_buffer r = Some buf.
Proof. intros Ho. destruct (ro_buf _ _ _ _ _ _ Ho) as (buf & Eb & _). eauto. Qed.
End Ring.

(** ** Receiving *)

Lemma clip_min a b : clip a b = Z.min a b.
Proof. unfold clip. destruct (Z.ltb_spec b a); lia. Qed.

Lemma zlen_app a b : zlen (a ++ b) = zlen a + zlen b.
Proof. unfold zlen. rewrite length_app. lia. Qed.

Lemma zlen_take k l : 0 <= k <= zlen l -> zlen (take (Z.to_nat k) l) = k.
Proof. unfold zlen. rewrite length_take. lia. Qed.

Lemma zlen_drop k l : 0 <= k <= zlen l -> zlen (drop (Z.to_nat k) l) = zlen l - k.
Proof. unfold zlen. rewrite length_drop. lia. Qed.

Lemma zlen_nonneg l : 0 <= zlen l.
Proof. unfold zlen. lia. Qed.

Lemma take_add_drop k1 k2 (l : list Z) : 0 <= k1 -> 0 <= k2 ->
  take (Z.to_nat k1) l ++ take (Z.to_nat k2) (drop (Z.to_nat k1) l) = take (Z.to_nat (k1 + k2)) l.
Proof. intros. rewrite Z2Nat.inj_add by lia. apply take_take_drop. Qed.

Section Receive.
Context {sz am : Z}.

(** After the ring of an input took the first [k] of [bytes]. *)
Definition took (s : sub) (q bytes : list Z) (k : Z) (s' : sub) : Prop :=
  kept s s' /\ exists r', s_runtime s' = Some r' /\ ring_ok true true sz am r' (q ++ take (Z.to_nat k) bytes).

Lemma wp_receive_one b s r q (Q : Z -> sub -> Prop) :
  s_runtime s = Some r -> ring_ok true true sz am r q ->
  (forall s', took s q [b] (Z.min 1 (sz - zlen q)) s' -> Q (Z.min 1 (sz - zlen q)) s') -> wp (receive_one b) Q s.
Proof.
  intros Hr Ho HQ. destruct (ring_queued _ _ Ho) as [Eq Hq]. pose proof (ro_avail _ _ _ _ _ _ Ho). pose proof (ro_range _ _ _ _ _ _ Ho).
  destruct (ring_ptrs _ _ Ho) as [Ha Hh]. cbn [queued] in *. rewrite Eq in HQ.
  unfold receive_one. apply wp_bind. unfold wp at 1, add_bytes, update. apply wp_bind. eapply wp_runtime_of; [exact Hr |].
  rewrite (ro_size _ _ _ _ _ _ Ho). destruct (Z.ltb_spec (avail r) sz) as [Hlt | Hge].
  - rewrite Z.min_l in HQ by lia. apply wp_bind. eapply wp_copy_in; [exact Hr | exact Ho | lia | unfold zlen; cbn; lia |]. intros buf Eb.
    apply wp_bind. eapply wp_set_runtime; [reflexivity |]. apply wp_ret, HQ. split; [done |].
    eexists. split; [reflexivity |]. eapply (ring_put r q [b] buf); [exact Ho | exact Eb | unfold zlen in *; cbn in *; lia | | | | | |  |]; try done.
    + exists (hw_ptr r). unfold zlen. cbn. split_and!; [by right | lia | lia | done].
    + cbn. by rewrite (ro_size _ _ _ _ _ _ Ho).
  - rewrite Z.min_r in HQ by lia. replace (sz - avail r) with 0 in HQ by lia. apply wp_bind. eapply wp_set_runtime; [exact Hr |].
    apply wp_ret, HQ. split; [done |]. eexists. split; [reflexivity |]. cbn. rewrite app_nil_r. eapply ring_same; [exact Ho | try done..]. apply (ro_lock _ _ _ _ _ _ Ho).
Qed.

(** The rest goes to the beginning of the buffer, where the ring continues if it has room. *)
Lemma wp_receive_rest rest k s r q (Q : Z -> sub -> Prop) :
  s_runtime s = Some r -> ring_ok true true sz am r q -> (0 < zlen rest -> zlen q < sz -> hw_ptr r = 0) ->
  (zlen rest < sz \/ q <> []) ->
  (forall s', took s q rest (Z.min (zlen rest) (sz - zlen q)) s' -> Q (k + Z.min (zlen rest) (sz - zlen q)) s') ->
  wp (receive_rest rest k) Q s.
Proof.
  intros Hr Ho Hh0 Hne HQ. destruct (ring_queued _ _ Ho) as [Eq Hq]. cbn [queued] in *. rewrite Eq in *. pose proof (zlen_nonneg rest).
  unfold receive_rest. destruct (Z.ltb_spec 0 (zlen rest)) as [Hrest | Hdone].
  2: { apply wp_ret. replace (Z.min (zlen rest) (sz - avail r)) with 0 in HQ by lia. rewrite Z.add_0_r in HQ. apply HQ.
       split; [done |]. exists r. cbn. by rewrite app_nil_r. }
  apply wp_bind. eapply wp_runtime_of; [exact Hr |]. rewrite (ring_unused _ _ Ho), clip_min.
  set (k2 := Z.min (zlen rest) (sz - avail r)) in *. apply wp_bind.
  eapply (wp_mono _ (fun _ s2 => kept s s2 /\ exists r2, s_runtime s2 = Some r2 /\ ring_ok true true sz am r2 q
     /\ hw_ptr r2 = hw_ptr r /\ avail r2 = avail r)).
  { unfold when. destruct (_ <? _); [| apply wp_ret; split; [done | eauto]]. eapply wp_set_runtime; [exact Hr |].
    split; [done |]. eexists. split; [reflexivity |]. split; [| done]. eapply ring_same; [exact Ho | try done..]. apply (ro_lock _ _ _ _ _ _ Ho). }
  intros [] s2 (Hk2 & r2 & Hr2 & Ho2 & Eh2 & Ea2). destruct (Z.ltb_spec 0 k2) as [Hpos | Hneg].
  2: { apply wp_ret. replace k2 with 0 in HQ by lia. rewrite Z.add_0_r in HQ. apply HQ. split; [done |]. exists r2. cbn. by rewrite app_nil_r. }
  rewrite Hh0 in Eh2 by lia.
  apply wp_bind. eapply wp_copy_in; [exact Hr2 | exact Ho2 | lia | rewrite zlen_take; lia |]. intros buf2 Eb2.
  apply wp_bind. eapply wp_set_runtime; [reflexivity |]. apply wp_ret, HQ. split; [done |].
  eexists. split; [reflexivity |]. eapply (ring_put r2 _ _ buf2); [exact Ho2 | exact Eb2 | | ..]; try done.
  - rewrite zlen_take by lia. lia.
  - exists 0. rewrite zlen_take by lia. split_and!; [right; cbn; lia | lia | lia | done].
  - rewrite zlen_take by lia. cbn. rewrite Eh2. symmetry. apply Z.mod_small.
    destruct Hne as [? | Hne]; [lia |]. destruct q; [done |]. unfold zlen in Eq. cbn in Eq. lia.
  - rewrite zlen_take by lia. cbn. lia.
Qed.

Lemma wp_receive_many bytes s r q (Q : Z -> sub -> Prop) :
  s_runtime s = Some r -> ring_ok true true sz am r q ->
  (forall s', took s q bytes (Z.min (zlen bytes) (sz - zlen q)) s' -> Q (Z.min (zlen bytes) (sz - zlen q)) s') -> wp (receive_many bytes) Q s.
Proof.
  intros Hr Ho HQ. destruct (ring_queued _ _ Ho) as [Eq Hq]. pose proof (ro_avail _ _ _ _ _ _ Ho). pose proof (ro_range _ _ _ _ _ _ Ho).
  destruct (ring_ptrs _ _ Ho) as [Ha Hh]. cbn [queued] in *. rewrite Eq in HQ. pose proof (zlen_nonneg bytes).
  unfold receive_many. apply wp_bind. unfold wp at 1, add_bytes, update. apply wp_bind. eapply wp_runtime_of; [exact Hr |].
  rewrite !clip_min, (ring_unused _ _ Ho), (proj1 (ring_to_end _ _ Ho)).
  set (k := Z.min (Z.min (sz - hw_ptr r) (zlen bytes)) (sz - avail r)). assert (Hk : 0 <= k <= zlen bytes) by lia.
  apply wp_bind. eapply wp_copy_in; [exact Hr | exact Ho | lia | rewrite zlen_take; lia |]. intros buf Eb.
  apply wp_bind. eapply wp_set_runtime; [reflexivity |].
  assert (Hl : zlen (take (Z.to_nat k) bytes) = k) by (by apply zlen_take).
  eapply (wp_receive_rest _ k _ _ (q ++ take (Z.to_nat k) bytes)); [reflexivity | | | |].
  - eapply (ring_put r q _ buf); [exact Ho | exact Eb | lia | .. ]; rewrite ?Hl; try done.
    + exists (hw_ptr r). split_and!; [by right | lia | lia | done].
    + cbn. by rewrite (ro_size _ _ _ _ _ _ Ho).
  - rewrite zlen_drop, zlen_app, Hl by lia. intros ? ?. cbn. rewrite (ro_size _ _ _ _ _ _ Ho).
    replace (hw_ptr r + k) with (1 * sz) by lia. apply Z.mod_mul. lia.
  - destruct (decide (zlen bytes = 0)); [left; rewrite zlen_drop; lia | right]. intros E.
    pose proof (zlen_app q (take (Z.to_nat k) bytes)) as E2. rewrite E, Hl in E2. change (zlen []) with 0 in E2. lia.
  - intros s' [Hk' (r' & Hr' & Ho')]. rewrite zlen_drop, zlen_app, Hl in * by lia.
    replace (k + Z.min (zlen bytes - k) (sz - (zlen q + k))) with (Z.min (zlen bytes) (sz - avail r)) by lia. apply HQ. split; [done |].
    exists r'. split; [done |]. rewrite <- app_assoc, take_add_drop in Ho' by lia.
    by replace (k + Z.min (zlen bytes - k) (sz - (zlen q + k))) with (Z.min (zlen bytes) (sz - avail r)) in Ho' by lia.
Qed.
End Receive.

(** The stream is open, its lock free, and its ring holds [q]. *)
Definition live (input : bool) (sz am : Z) (q : list Z) (s : sub) : Prop :=
  exists r, s_runtime s = Some r /\ ring_ok input false sz am r q.

(** Like [kept], but for what went over the wire. *)
Definition moved (fed wire : list Z) (s s' : sub) : Prop :=
  ident s' = ident s /\ s_sensing s' = s_sensing s /\ s_irqs s' = s_irqs s /\ s_wire s' = wire /\ s_fed s' = fed.

Ltac solve_kept := unfold moved, kept, ident in *; cbn in *; destruct_and?; split_and?; congruence.

(** The lock is given back at the end; nothing else about the ring changes. *)
Lemma wp_unlock_ring {A} input sz am q s r (m : R A) (Q : A -> sub -> Prop) :
  s_runtime s = Some r -> ring_ok input true sz am r q ->
  (forall s', kept s s' -> live input sz am q s' -> wp m Q s') -> wp (spin_unlock;;; m) Q s.
Proof.
  intros Hr Ho HQ. apply wp_bind. eapply wp_set_runtime; [exact Hr |]. apply HQ; [done |].
  eexists. split; [reflexivity |]. by eapply ring_same.
Qed.

(** What is counted does not touch the stream. *)
Lemma wp_when_wake b input sz am q s (Q : unit -> sub -> Prop) :
  live input sz am q s -> (forall s', kept s s' -> live input sz am q s' -> Q tt s') -> wp (when b call_event) Q s.
Proof. intros Hl HQ. destruct b; [apply HQ; [done | exact Hl] | by apply wp_ret, HQ]. Qed.

(** The pointer of the application. *)
Definition appl_of (s : sub) : option Z := option_map appl_ptr (s_runtime s).

(** Taking the lock of a live stream. *)
Lemma wp_lock_ring {A} input sz am q s (m : R A) (Q : A -> sub -> Prop) :
  live input sz am q s ->
  (forall s' r, kept s s' -> s_runtime s' = Some r -> ring_ok input true sz am r q -> appl_of s' = appl_of s -> wp m Q s') ->
  wp (spin_lock;;; m) Q s.
Proof.
  intros (r & Hr & Ho) HQ. apply wp_bind. eapply wp_raw_lock; [exact Hr | apply (ro_lock _ _ _ _ _ _ Ho) |].
  eapply HQ; [done | reflexivity | by eapply ring_same |]. unfold appl_of. cbn. by rewrite Hr.
Qed.

(** [wake_up] and the release of the lock that follows. *)
Lemma wp_wake_unlock {A} b input sz am q s r (m : R A) (Q : A -> sub -> Prop) :
  s_runtime s = Some r -> ring_ok input true sz am r q ->
  (forall s', kept s s' -> live input sz am q s' -> wp m Q s') -> wp (when b wake_up;;; spin_unlock;;; m) Q s.
Proof.
  intros Hr Ho HQ. apply wp_bind. eapply (wp_mono _ (fun _ s' => kept s s' /\ s_runtime s' = Some r)).
  { destruct b; [| by apply wp_ret]. unfold wp, wake_up, update. done. }
  intros [] s1 [Hk Hr1]. eapply wp_unlock_ring; [exact Hr1 | exact Ho |]. intros s' Hk' Hl. apply HQ; [by etrans | done].
Qed.

Section Driver.
Context {sz am : Z}.

Lemma wp_receive bytes s q (Q : Z -> sub -> Prop) :
  live true sz am q s ->
  (forall s' k, k = Z.min (zlen bytes) (sz - zlen q) -> moved (s_fed s ++ take (Z.to_nat k) bytes) (s_wire s) s s' ->
     live true sz am (q ++ take (Z.to_nat k) bytes) s' -> Q k s') ->
  wp (snd_rawmidi_receive bytes) Q s.
Proof.
  intros Hl HQ. assert (Hl' := Hl). destruct Hl' as (r & Hr & Ho). unfold snd_rawmidi_receive. apply wp_bind. eapply wp_runtime_of; [exact Hr |].
  destruct (ring_buffer _ _ Ho) as [buf ->]. eapply wp_lock_ring; [exact Hl |]. clear r Hr Ho. intros s1 r Hk1 Hr Ho _.
  set (k := Z.min (zlen bytes) (sz - zlen q)) in *. apply wp_bind.
  eapply (wp_mono _ (fun res s2 => res = k /\ took s1 q bytes k s2)).
  { destruct bytes as [| b [| b' bytes]].
    - eapply wp_receive_many; [exact Hr | exact Ho |]. done.
    - eapply wp_receive_one; [exact Hr | exact Ho |]. done.
    - eapply wp_receive_many; [exact Hr | exact Ho |]. done. }
  intros res s2 (-> & Hk2 & r2 & Hr2 & Ho2). apply wp_bind. unfold wp at 1, update.
  apply wp_bind. eapply wp_runtime_of; [exact Hr2 |]. eapply wp_wake_unlock; [exact Hr2 | exact Ho2 |]. intros s3 Hk3 Hl3.
  apply wp_bind. eapply wp_when_wake; [exact Hl3 |]. intros s4 Hk4 Hl4. apply wp_ret. eapply HQ; [done | | exact Hl4].
  by solve_kept.
Qed.

Lemma wp_transmit_empty input s q (Q : bool -> sub -> Prop) :
  live input sz am q s -> (forall s' b, kept s s' -> live input sz am q s' -> Q b s') -> wp snd_rawmidi_transmit_empty Q s.
Proof.
  intros Hl HQ. assert (Hl' := Hl). destruct Hl' as (r & Hr & Ho). unfold snd_rawmidi_transmit_empty. apply wp_bind. eapply wp_runtime_of; [exact Hr |].
  destruct (ring_buffer _ _ Ho) as [buf ->]. eapply wp_lock_ring; [exact Hl |]. clear r Hr Ho. intros s1 r Hk1 Hr Ho _.
  apply wp_bind. eapply wp_runtime_of; [exact Hr |]. apply wp_bind.
  eapply (wp_mono _ (fun _ s2 => kept s1 s2 /\ exists r2, s_runtime s2 = Some r2 /\ ring_ok input true sz am r2 q)).
  { unfold when. destruct (_ <=? _); [| apply wp_ret; split; [done | eauto]]. eapply wp_set_runtime; [exact Hr |]. split; [done |].
    eexists. split; [reflexivity |]. eapply ring_same; [exact Ho | try done..]. apply (ro_lock _ _ _ _ _ _ Ho). }
  intros [] s2 (Hk2 & r2 & Hr2 & Ho2). eapply wp_unlock_ring; [exact Hr2 | exact Ho2 |]. intros s3 Hk3 Hl3. apply wp_ret, HQ; [| done].
  etrans; [exact Hk1 |]. by etrans.
Qed.

(** Peeking shows the first bytes that are queued: at least one if there is any. *)
Lemma wp_transmit_peek count s q (Q : Z * list Z -> sub -> Prop) :
  live false sz am q s -> 0 <= count <= 32 ->
  (forall s' k bs, kept s s' -> live false sz am q s' -> 0 <= k <= zlen q -> k <= count -> (0 < count -> q <> [] -> 0 < k) ->
     take (Z.to_nat k) bs = take (Z.to_nat k) q -> Q (k, bs) s') ->
  wp (snd_rawmidi_transmit_peek count) Q s.
Proof.
  intros Hl Hc HQ. assert (Hl' := Hl). destruct Hl' as (r & Hr & Ho). unfold snd_rawmidi_transmit_peek. apply wp_bind. eapply wp_runtime_of; [exact Hr |].
  destruct (ring_buffer _ _ Ho) as [buf ->]. eapply wp_lock_ring; [exact Hl |]. clear r Hr Ho. intros s1 r Hk1 Hr Ho _.
  destruct (ring_queued _ _ Ho) as [Eq Hq]. pose proof (ro_range _ _ _ _ _ _ Ho). destruct (ring_ptrs _ _ Ho) as [Ha Hh].
  cbn [queued] in *. rewrite (ro_size _ _ _ _ _ _ Ho) in *.
  apply wp_bind. eapply wp_runtime_of; [exact Hr |]. apply wp_bind. rewrite (ro_size _ _ _ _ _ _ Ho).
  eapply (wp_mono _ (fun res s2 => kept s1 s2 /\ (exists r2, s_runtime s2 = Some r2 /\ ring_ok false true sz am r2 q) /\
     0 <= res.1 <= zlen q /\ res.1 <= count /\ (0 < count -> q <> [] -> 0 < res.1) /\ take (Z.to_nat res.1) res.2 = take (Z.to_nat res.1) q)).
  2: { intros [k bs] s2 (Hk2 & (r2 & Hr2 & Ho2) & H1 & H2 & H3 & H4). eapply wp_unlock_ring; [exact Hr2 | exact Ho2 |]. intros s3 Hk3 Hl3.
       apply wp_ret, HQ; try done. etrans; [exact Hk1 |]. by etrans. }
  destruct (Z.leb_spec sz (avail r)) as [Hempty | Hsome].
  { apply wp_bind. eapply wp_set_runtime; [exact Hr |]. apply wp_ret. split; [done |]. split.
    { eexists. split; [reflexivity |]. eapply ring_same; [exact Ho | try done..]. apply (ro_lock _ _ _ _ _ _ Ho). }
    cbn. split_and!; [lia | lia | lia | | done]. intros _ Hne. destruct q; [done |]. unfold zlen in Eq. cbn in Eq. lia. }
  assert (Hsame : exists r2, s_runtime s1 = Some r2 /\ ring_ok false true sz am r2 q) by eauto.
  destruct (Z.eqb_spec count 1) as [-> | Hc1].
  { apply wp_bind. eapply (wp_copy_out (input := false)); [exact Hr | exact Ho | lia | cbn; lia |]. apply wp_ret. cbn [fst snd].
    split_and!; try done; try lia. by rewrite take_idemp. }
  rewrite !clip_min, (ring_unused _ _ Ho), (proj1 (ring_to_end _ _ Ho)). set (k := Z.min _ _).
  assert (Hk : 0 <= k <= zlen q) by lia.
  apply wp_bind. eapply (wp_copy_out (input := false)); [exact Hr | exact Ho | lia | cbn; lia |].
  assert (Hpos : 0 < count -> q <> [] -> 0 < k) by (intros ? _; lia).
  destruct (Z.ltb_spec 0 (count - k)) as [Hmore | Hno].
  - apply wp_bind. eapply wp_copy_out_any; [exact Hr | exact Ho | lia | lia | lia |]. intros more _. apply wp_ret. cbn [fst snd].
    split_and!; try done; try lia. rewrite take_app_length'; [done |]. pose proof (zlen_take k q Hk). unfold zlen in *. lia.
  - apply wp_ret. cbn [fst snd]. split_and!; try done; try lia. by rewrite take_idemp.
Qed.

Lemma wp_transmit_ack k s q (Q : Z -> sub -> Prop) :
  live false sz am q s -> 0 <= k <= zlen q ->
  (forall s', kept s s' -> live false sz am (drop (Z.to_nat k) q) s' -> Q k s') -> wp (snd_rawmidi_transmit_ack k) Q s.
Proof.
  intros Hl Hk HQ. assert (Hl' := Hl). destruct Hl' as (r & Hr & Ho). unfold snd_rawmidi_transmit_ack. apply wp_bind. eapply wp_runtime_of; [exact Hr |].
  destruct (ring_buffer _ _ Ho) as [buf ->]. eapply wp_lock_ring; [exact Hl |]. clear r Hr Ho. intros s1 r Hk1 Hr Ho _.
  destruct (ring_queued _ _ Ho) as [Eq Hq]. pose proof (ro_range _ _ _ _ _ _ Ho). pose proof (ro_avail _ _ _ _ _ _ Ho). cbn [queued] in *.
  rewrite (ro_size _ _ _ _ _ _ Ho) in *. apply wp_bind. eapply wp_set_runtime; [exact Hr |].
  apply wp_bind. unfold wp at 1, add_bytes, update.
  set (r2 := r <| hw_ptr := (hw_ptr r + k) mod buffer_size r |> <| avail := u32 (avail r + k) |>).
  assert (Ho2 : ring_ok false true sz am r2 (drop (Z.to_nat k) q)).
  { eapply (ring_get r); [exact Ho | done | try done..].
    - cbn. by rewrite (ro_size _ _ _ _ _ _ Ho).
    - cbn. rewrite (ro_size _ _ _ _ _ _ Ho), u32_small by (unfold is_u32; lia). lia. }
  apply wp_bind. eapply (wp_runtime_of r2); [done |]. clearbody r2. eapply (wp_wake_unlock _ false sz am (drop (Z.to_nat k) q) _ r2); [done | exact Ho2 |].
  intros s3 Hk3 Hl3. apply wp_bind. eapply wp_when_wake; [exact Hl3 |]. intros s4 Hk4 Hl4. apply wp_ret, HQ; [| exact Hl4].
  etrans; [exact Hk1 |]. etrans; [| exact Hk4]. etrans; [| exact Hk3]. done.
Qed.
End Driver.

(** ** The application's pointer *)

(** Drivers do not move it. *)
Definition keeps_appl {A} (m : R A) : Prop := forall s a s', m s = Some (a, s') -> appl_of s' = appl_of s.

Lemma keeps_appl_ret {A} (a : A) : keeps_appl (ret a).
Proof. by intros s b s' [= _ <-]. Qed.

Lemma keeps_appl_bind {A B} (m : R A) (k : A -> R B) : keeps_appl m -> (forall a, keeps_appl (k a)) -> keeps_appl (bind m k).
Proof.
  intros Hm Hk s b s'. unfold bind. destruct (m s) as [[a s1] |] eqn:E; [| done]. intros E2. rewrite (Hk _ _ _ _ E2). by eapply Hm.
Qed.

Lemma keeps_appl_crash {A} : keeps_appl (crash : R A).
Proof. done. Qed.

Lemma keeps_appl_runtime_of : keeps_appl runtime_of.
Proof. intros s r s'. unfold runtime_of. destruct (s_runtime s); [by intros [= _ <-] | done]. Qed.

Lemma keeps_appl_set f : (forall r, appl_ptr (f r) = appl_ptr r) -> keeps_appl (set_runtime f).
Proof.
  intros Hf s a s'. unfold set_runtime, bind, runtime_of, update. destruct (s_runtime s) eqn:E; [| done].
  intros [= _ <-]. unfold appl_of. cbn. by rewrite E, Hf.
Qed.

Lemma keeps_appl_update f : (forall s, s_runtime (f s) = s_runtime s) -> keeps_appl (update f).
Proof. intros Hf s a s' [= _ <-]. unfold appl_of. by rewrite Hf. Qed.

Ltac keeps_appl_tac :=
  repeat first
    [ apply keeps_appl_ret | apply keeps_appl_crash | apply keeps_appl_runtime_of
    | apply keeps_appl_set; reflexivity | apply keeps_appl_update; reflexivity
    | apply keeps_appl_bind; [| intros ?] | progress unfold when, wake_up, call_event, add_bytes, receive_rest,
        send, spin_lock, spin_unlock, copy_in, copy_out
    | case_match ].

Lemma drv_run_keeps_appl c : keeps_appl (drv_run c).
Proof.
  destruct c; cbn [drv_run]; unfold snd_rawmidi_transmit, snd_rawmidi_transmit_empty; keeps_appl_tac.
Qed.

Lemma drv_runs_keep_appl cs : keeps_appl (drv_runs cs).
Proof. induction cs; cbn [drv_runs]; [apply keeps_appl_ret | apply keeps_appl_bind; [apply drv_run_keeps_appl | done]]. Qed.

Lemma poll_irq_keeps_appl : keeps_appl poll_irq.
Proof.
  intros s a s'. unfold poll_irq. destruct (s_irqs s); [by intros [= _ <-] |]. intros E. by rewrite (drv_runs_keep_appl _ _ _ _ E).
Qed.

Lemma wp_keeps_appl {A} (m : R A) (Q : A -> sub -> Prop) s :
  keeps_appl m -> wp m Q s -> wp m (fun a s' => Q a s' /\ appl_of s' = appl_of s) s.
Proof. intros Hm. unfold wp. destruct (m s) as [[a s'] |] eqn:E; [| done]. split; [done | by eapply Hm]. Qed.
