(* ===== verification/RawMidiSpec.v ===== *)
(** * RawMidiSpec: a raw MIDI stream carries every byte, in order

    What an application has read of an input, followed by what is in the ring, is what was
    received; what it has written to an output is what was sent followed by what is in the
    ring.  This holds between any calls, whatever the driver does in interrupts and when it
    is triggered. *)

From S2P Require Import Prelude ByteRing RawMidi RawMidiRing.
Open Scope Z_scope.
Open Scope state_scope.

(** ** The stream *)

(** [x] is what the application has got of an input or given to an output. *)
Definition flows (x q : list Z) (s : sub) : Prop := if s_input s then s_fed s = x ++ q else x = s_wire s ++ q.

Record stream_ok (sz am : Z) (x : list Z) (s : sub) : Prop := {
  so_irqs : Forall (Forall (right (s_input s))) (s_irqs s);
  so_ring : exists q, live (s_input s) sz am q s /\ flows x q s }.

(** Time passes: bytes come and go. *)
Record later (s s' : sub) : Prop := {
  la_ident : ident s' = ident s;
  la_sensing : s_sensing s' = s_sensing s;
  la_fed : s_fed s `prefix_of` s_fed s';
  la_wire : s_wire s `prefix_of` s_wire s' }.

Lemma later_refl s : later s s.
Proof. by split. Qed.

Lemma later_trans s1 s2 s3 : later s1 s2 -> later s2 s3 -> later s1 s3.
Proof. intros [] []. split; try congruence; by etrans. Qed.

#[export] Instance later_preorder : PreOrder later.
Proof. split; [exact later_refl | exact later_trans]. Qed.

Lemma kept_later s s' : kept s s' -> later s s'.
Proof. intros (E1 & E2 & E3 & E4 & E5). split; [done | done | by rewrite E5 | by rewrite E4]. Qed.

Lemma ident_input s s' : ident s' = ident s -> s_input s' = s_input s.
Proof. unfold ident. congruence. Qed.

Lemma later_input s s' : later s s' -> s_input s' = s_input s.
Proof. intros L. apply ident_input, L. Qed.

Section Stream.
Context {sz am : Z}.

(** A call that keeps the stream as it is, whatever time passes meanwhile. *)
Definition calm (x : list Z) (s s' : sub) : Prop := stream_ok sz am x s' /\ later s s'.

Lemma calm_then x s1 s2 s3 : calm x s1 s2 -> calm x s2 s3 -> calm x s1 s3.
Proof. intros [_ L1] [H L2]. split; [done |]. by etrans. Qed.

(** The stream after the bytes that are queued became [q'] and something was sent or received. *)
Lemma calm_moved x q q' fed wire s s' :
  stream_ok sz am x s -> flows x q s -> moved (s_fed s ++ fed) (s_wire s ++ wire) s s' -> live (s_input s) sz am q' s' ->
  (if s_input s then q' = q ++ fed else q = wire ++ q') -> calm x s s'.
Proof.
  intros Hs Hf (E1 & E2 & E3 & E4 & E5) Hl Hq. pose proof (ident_input _ _ E1) as Ei. split.
  - split; [rewrite Ei, E3; apply Hs |]. exists q'. rewrite Ei. split; [done |]. unfold flows in *. rewrite Ei, E4, E5.
    destruct (s_input s); [rewrite Hf, Hq; by rewrite app_assoc | rewrite Hf, Hq; by rewrite app_assoc].
  - split; [done | done | rewrite E5; by apply prefix_app_r | rewrite E4; by apply prefix_app_r].
Qed.

Lemma calm_kept x q s s' :
  stream_ok sz am x s -> flows x q s -> kept s s' -> live (s_input s) sz am q s' -> calm x s s'.
Proof.
  intros Hs Hf (E1 & E2 & E3 & E4 & E5) Hl. eapply (calm_moved x q q [] []); [done | done | | done |].
  - unfold moved. by rewrite !app_nil_r.
  - destruct (s_input s); [by rewrite app_nil_r | done].
Qed.

(** What the driver does: it sends the bytes that it has acknowledged. *)
Lemma wp_send n bs s (Q : unit -> sub -> Prop) :
  (forall s', moved (s_fed s) (s_wire s ++ take (Z.to_nat n) bs) s s' -> s_runtime s' = s_runtime s -> Q tt s') -> wp (send n bs) Q s.
Proof. intros HQ. by apply HQ. Qed.

Lemma wp_ack_send x k bs s0 s q (Q : unit -> sub -> Prop) :
  stream_ok sz am x s0 -> flows x q s0 -> s_input s0 = false -> kept s0 s -> live false sz am q s -> 0 <= k <= zlen q ->
  take (Z.to_nat k) bs = take (Z.to_nat k) q -> (forall s', calm x s0 s' -> Q tt s') ->
  wp (snd_rawmidi_transmit_ack k;;; send k bs) Q s.
Proof.
  intros Hs Hf Hi Hk Hl Hkq Hbs HQ. apply wp_bind. eapply wp_transmit_ack; [exact Hl | done |]. intros s2 Hk2 Hl2.
  apply wp_send. intros s3 Hm Hr3. apply HQ. eapply (calm_moved x q (drop (Z.to_nat k) q) [] (take (Z.to_nat k) q)); [done | done | | |].
  - rewrite app_nil_r. rewrite Hbs in Hm. by solve_kept.
  - rewrite Hi. destruct Hl2 as (r & Hr & Ho). exists r. by rewrite Hr3.
  - rewrite Hi. by rewrite take_drop.
Qed.

Lemma wp_drv_run x c s : stream_ok sz am x s -> right (s_input s) c -> wp (drv_run c) (fun _ => calm x s) s.
Proof.
  intros Hs Hc. destruct (so_ring _ _ _ _ Hs) as (q & Hl & Hf). destruct c as [bytes | count k | count |]; cbn [drv_run right] in *.
  - rewrite Hc in Hl. apply wp_bind. eapply wp_receive; [exact Hl |]. intros s' k _ Hm Hl'. apply wp_ret.
    eapply (calm_moved x q _ (take (Z.to_nat k) bytes) []); [done | done | rewrite app_nil_r; exact Hm | by rewrite Hc | by rewrite Hc].
  - destruct Hc as (Hi & Hcount & Hk). rewrite Hi in Hl. apply wp_bind. eapply wp_transmit_peek; [exact Hl | done |].
    intros s1 n bs Hk1 Hl1 Hn Hnc _ Hbs. cbn [fst snd]. unfold when. rewrite (proj2 (Z.leb_le 0 n)) by lia. rewrite clip_min.
    eapply wp_ack_send; [exact Hs | exact Hf | done | exact Hk1 | exact Hl1 | lia | | done].
    replace (Z.to_nat (Z.min n k)) with (Z.to_nat (Z.min n k) `min` Z.to_nat n)%nat by lia. by rewrite <- !take_take, Hbs.
  - destruct Hc as (Hi & Hcount). rewrite Hi in Hl. unfold snd_rawmidi_transmit. apply wp_bind, wp_bind.
    eapply wp_transmit_peek; [exact Hl | done |].
    intros s1 n bs Hk1 Hl1 Hn Hnc _ Hbs. cbn [fst snd]. rewrite (proj2 (Z.ltb_ge n 0)) by lia. apply wp_bind.
    eapply wp_transmit_ack; [exact Hl1 | done |]. intros s2 Hk2 Hl2. apply wp_ret. cbn [fst snd]. unfold when.
    rewrite (proj2 (Z.leb_le 0 n)) by lia. apply wp_send. intros s3 Hm Hr3.
    eapply (calm_moved x q (drop (Z.to_nat n) q) [] (take (Z.to_nat n) q)); [done | done | | |].
    + rewrite app_nil_r. rewrite Hbs in Hm. by solve_kept.
    + rewrite Hi. destruct Hl2 as (r & Hr & Ho). exists r. by rewrite Hr3.
    + rewrite Hi. by rewrite take_drop.
  - apply wp_bind. eapply wp_transmit_empty; [exact Hl |]. intros s' b Hk Hl'. apply wp_ret. by eapply calm_kept.
Qed.

Lemma wp_drv_runs x cs : forall s, stream_ok sz am x s -> Forall (right (s_input s)) cs -> wp (drv_runs cs) (fun _ => calm x s) s.
Proof.
  induction cs as [| c cs IH]; intros s Hs Hcs; cbn [drv_runs]; [apply wp_ret; split; [done | reflexivity] |].
  apply Forall_cons in Hcs as [Hc Hcs]. apply wp_bind. eapply wp_mono; [by apply wp_drv_run |]. intros [] s1 C1.
  eapply wp_mono; [apply IH; [apply C1 | rewrite (later_input _ _ (proj2 C1)); exact Hcs] |]. intros [] s2 C2. by eapply calm_then.
Qed.

Lemma wp_poll_irq x s : stream_ok sz am x s -> wp poll_irq (fun _ => calm x s) s.
Proof.
  intros Hs. unfold wp, poll_irq. destruct (s_irqs s) as [| cs irqs] eqn:E; [split; [done | reflexivity] |].
  assert (Hi := so_irqs _ _ _ _ Hs). rewrite E in Hi. apply Forall_cons in Hi as [Hc Hi].
  set (s1 := s <| s_irqs := irqs |>). assert (Hs1 : stream_ok sz am x s1) by (split; [exact Hi | apply Hs]).
  eapply wp_mono; [by apply wp_drv_runs |]. intros [] s2 [C1 C2]. split; [done |]. etrans; [| exact C2]. done.
Qed.

(** What is queued for an application grows, what it has queued shrinks. *)
Lemma calm_queue x q s s' q' :
  s_input s = true -> flows x q s -> calm x s s' -> live true sz am q' s' -> flows x q' s' -> q `prefix_of` q'.
Proof.
  intros Hi Hf [Hs L] Hl Hf'. unfold flows in *. rewrite (later_input _ _ L), Hi in Hf'. rewrite Hi in Hf. pose proof (la_fed _ _ L) as P.
  rewrite Hf, Hf' in P. by apply prefix_app_inv in P.
Qed.

Lemma later_kept s s1 s2 : later s s1 -> kept s1 s2 -> later s s2.
Proof. intros. etrans; [done |]. by apply kept_later. Qed.

(** ** Reading *)

(** The application took the first [k] bytes of the ring of an input. *)
Lemma stream_read x s s' q k :
  stream_ok sz am x s -> s_input s = true -> flows x q s -> kept s s' -> 0 <= k -> live true sz am (drop (Z.to_nat k) q) s' ->
  stream_ok sz am (x ++ take (Z.to_nat k) q) s'.
Proof.
  intros Hs Hi Hf (E1 & E2 & E3 & E4 & E5) Hk Hl. pose proof (ident_input _ _ E1) as Ei. split; [rewrite Ei, E3; apply Hs |].
  exists (drop (Z.to_nat k) q). rewrite Ei, Hi. split; [done |]. unfold flows in *. rewrite Ei, Hi, E5 in *.
  by rewrite <- app_assoc, take_drop.
Qed.

Definition readable (kernel : bool) (fault : Z -> bool) : Prop := kernel = true \/ forall n, fault n = false.

(** What a read may give: [y] of [count] bytes, at least what there was if the user's memory can be written. *)
Definition read_gives (kernel : bool) (fault : Z -> bool) (x q : list Z) (count : Z) (out : list Z) (s : sub) (res : Z * list Z) (s' : sub) : Prop :=
  exists y, stream_ok sz am (x ++ y) s' /\ later s s' /\ res.2 = out ++ y /\ zlen y <= count /\
    (res.1 = zlen res.2 \/ res = (-EFAULT, [])) /\
    (readable kernel fault -> res.1 = zlen res.2 /\ Z.min count (zlen q) <= zlen y).

Lemma wp_read1_loop kernel fault fuel : forall count result out s q x,
  s_input s = true -> stream_ok sz am x s -> live true sz am q s -> flows x q s -> 0 <= count < Z.of_nat fuel -> result = zlen out ->
  wp (read1_loop fuel kernel fault count result out) (read_gives kernel fault x q count out s) s.
Proof.
  induction fuel as [| fuel IH]; intros count result out s q x Hi Hs Hl Hf Hc ->; [lia |]. cbn [read1_loop].
  assert (Hl' := Hl). destruct Hl' as (r & Hr & Ho). apply wp_bind. eapply wp_runtime_of; [exact Hr |].
  destruct (ring_queued _ _ Ho) as [Eq Hq]. cbn [queued] in *.
  assert (Hend : count <= 0 \/ avail r = 0 -> wp (ret (zlen out, out)) (read_gives kernel fault x q count out s) s).
  { intros Hz. apply wp_ret. exists []. rewrite !app_nil_r. pose proof (zlen_nonneg q). change (zlen []) with 0. cbn [fst snd]. split_and!; [done | reflexivity | done | lia | by left |].
    intros _. split; [done | lia]. }
  destruct (Z.ltb_spec 0 count) as [Hpos |]; [| apply Hend; lia]. destruct (Z.eqb_spec (avail r) 0); [apply Hend; lia |]. clear Hend. cbn [andb negb].
  apply wp_bind. eapply wp_mono; [apply wp_keeps_appl; [apply poll_irq_keeps_appl | by apply (wp_poll_irq x)] |]. intros [] s1 [C1 A1].
  destruct (so_ring _ _ _ _ (proj1 C1)) as (q1 & Hl1 & Hf1). assert (Hi1 : s_input s1 = true) by (by rewrite (later_input _ _ (proj2 C1))).
  rewrite Hi1 in Hl1. pose proof (calm_queue _ _ _ _ _ Hi Hf C1 Hl1 Hf1) as Pq.
  eapply wp_lock_ring; [exact Hl1 |]. intros s2 r2 Hk2 Hr2 Ho2 A2. apply wp_bind. eapply wp_runtime_of; [exact Hr2 |].
  destruct (ring_queued _ _ Ho2) as [Eq2 Hq2]. cbn [queued] in *.
  assert (Ea : appl_ptr r2 = appl_ptr r).
  { rewrite A1 in A2. unfold appl_of in A2. rewrite Hr, Hr2 in A2. cbn in A2. congruence. }
  assert (Hn : zlen q <= zlen q1) by (apply prefix_length in Pq; unfold zlen; lia).
  destruct (ring_ptrs _ _ Ho2) as [Ha2 _]. pose proof (ro_range _ _ _ _ _ _ Ho2). rewrite !clip_min, (proj2 (ring_to_end _ _ Ho)), <- Ea.
  set (k := Z.min (Z.min (sz - appl_ptr r2) count) (avail r2)). assert (Hk : 0 < k <= zlen q1) by lia.
  apply wp_bind. eapply (wp_copy_out (input := true)); [exact Hr2 | exact Ho2 | lia | cbn; lia |].
  destruct (negb kernel && fault (zlen out)) eqn:Efault.
  { eapply wp_unlock_ring; [exact Hr2 | exact Ho2 |]. intros s3 Hk3 Hl3. apply wp_ret. exists []. rewrite !app_nil_r.
    assert (C : calm x s s3).
    { eapply calm_then; [exact C1 |]. eapply calm_kept; [apply C1 | exact Hf1 | by etrans | by rewrite Hi1]. }
    change (zlen []) with 0. cbn [fst snd]. split_and!; [apply C | apply C | done | lia | |].
    - destruct (Z.ltb_spec 0 (zlen out)); [by left | right]. destruct out; [done | unfold zlen in *; cbn in *; lia].
    - intros [-> | Hfault]; [done |]. rewrite Hfault, andb_false_r in Efault. done. }
  apply wp_bind. eapply wp_set_runtime; [exact Hr2 |].
  eapply (wp_unlock_ring true sz am (drop (Z.to_nat k) q1)); [reflexivity | |].
  { eapply (ring_get r2 q1 k); [exact Ho2 | lia | try done..]. cbn. by rewrite (ro_size _ _ _ _ _ _ Ho2). }
  intros s3 Hk3 Hl3. assert (Hk13 : kept s1 s3) by (by solve_kept). assert (Hi3 : s_input s3 = true) by (by rewrite (ident_input _ _ (proj1 Hk13))).
  assert (Hs3 : stream_ok sz am (x ++ take (Z.to_nat k) q1) s3).
  { eapply (stream_read x s1); [apply C1 | done | exact Hf1 | done | lia | done]. }
  assert (Hz : zlen (take (Z.to_nat k) q1) = k) by (apply zlen_take; lia).
  eapply wp_mono; [apply (IH _ _ _ _ (drop (Z.to_nat k) q1) (x ++ take (Z.to_nat k) q1)); [done | done | done | | lia | rewrite zlen_app; lia] |].
  - unfold flows in *. rewrite Hi3, Hi1 in *. destruct Hk13 as (_ & _ & _ & _ & ->). by rewrite Hf1, <- app_assoc, take_drop.
  - intros res s4 (y & H1 & H2 & H3 & H4 & H5 & H6). exists (take (Z.to_nat k) q1 ++ y). rewrite !app_assoc. rewrite zlen_app, Hz in *.
    split_and!; [done | | done | lia | done |].
    + etrans; [apply C1 |]. etrans; [by apply kept_later | done].
    + intros Hread. specialize (H6 Hread) as [H6 H7]. rewrite zlen_drop in H7 by lia. split; [done | lia].
Qed.

(** ** Waiting *)

(** The stream with its lock held. *)
Definition locked (x : list Z) (s : sub) : Prop :=
  Forall (Forall (right (s_input s))) (s_irqs s) /\
  exists q r, s_runtime s = Some r /\ ring_ok (s_input s) true sz am r q /\ flows x q s.

Lemma flows_kept x q s s' : kept s s' -> flows x q s -> flows x q s'.
Proof. intros (E1 & _ & _ & E4 & E5). unfold flows. by rewrite (ident_input _ _ E1), E4, E5. Qed.

Lemma wp_lock_stream {A} x s (m : R A) (Q : A -> sub -> Prop) :
  stream_ok sz am x s -> (forall s', kept s s' -> locked x s' -> wp m Q s') -> wp (spin_lock;;; m) Q s.
Proof.
  intros Hs HQ. destruct (so_ring _ _ _ _ Hs) as (q & Hl & Hf). eapply wp_lock_ring; [exact Hl |]. intros s1 r Hk Hr Ho _.
  apply HQ; [done |]. pose proof (ident_input _ _ (proj1 Hk)) as Ei. split; [destruct Hk as (_ & _ & -> & _); rewrite Ei; apply Hs |].
  exists q, r. rewrite Ei. split_and!; [done | done | by eapply flows_kept].
Qed.

Lemma wp_unlock_stream {A} x s (m : R A) (Q : A -> sub -> Prop) :
  locked x s -> (forall s', kept s s' -> stream_ok sz am x s' -> (forall r, s_runtime s = Some r -> exists r', s_runtime s' = Some r' /\ avail r' = avail r) -> wp m Q s') -> 
  wp (spin_unlock;;; m) Q s.
Proof.
  intros (Hi & q & r & Hr & Ho & Hf) HQ. apply wp_bind. eapply wp_set_runtime; [exact Hr |]. apply HQ; [done | split; [done |] |].
  - exists q. split; [| done]. eexists. split; [reflexivity |]. by eapply ring_same.
  - intros r' Hr'. eexists. split; [reflexivity |]. cbn. congruence.
Qed.

(** The ring has reached the threshold. *)
Definition is_ready (s : sub) : Prop := exists r, s_runtime s = Some r /\ am <= avail r.

Lemma wp_wait_ready nonblock x s0 : forall fuel s, locked x s -> later s0 s ->
  wp (wait_ready fuel nonblock) (fun w s' => stream_ok sz am x s' /\ later s0 s' /\ (w = Ready -> is_ready s') /\
    (forall err, w = Leave err -> err < 0) /\ (nonblock = true -> w = Asleep -> fuel = O)) s.
Proof.
  induction fuel as [| fuel IH]; intros s Hs L; cbn [wait_ready].
  { eapply wp_unlock_stream; [exact Hs |]. intros s' Hk Hs' _. apply wp_ret. split_and!; [done | by eapply later_kept | done | done | done]. }
  assert (Hs' := Hs). destruct Hs' as (_ & q & r & Hr & Ho & _). apply wp_bind. eapply wp_runtime_of; [exact Hr |]. unfold ready.
  rewrite (ro_min _ _ _ _ _ _ Ho). destruct (Z.leb_spec am (avail r)) as [Hready | Hnot].
  { eapply wp_unlock_stream; [exact Hs |]. intros s' Hk Hs' Ha. apply wp_ret. split_and!; [done | by eapply later_kept | | done | done].
    intros _. destruct (Ha r Hr) as (r' & Hr' & E). exists r'. split; [done | lia]. }
  destruct nonblock.
  { eapply wp_unlock_stream; [exact Hs |]. intros s' Hk Hs' _. apply wp_ret. split_and!; [done | by eapply later_kept | done | | done]. by intros ? [= <-]. }
  eapply wp_unlock_stream; [exact Hs |]. intros s1 Hk1 Hs1 _. apply wp_bind. eapply wp_mono; [by apply (wp_poll_irq x) |]. intros [] s2 [Hs2 L2].
  assert (L02 : later s0 s2) by (etrans; [by eapply later_kept | done]).
  destruct (so_ring _ _ _ _ Hs2) as (q2 & (r2 & Hr2 & _) & _). apply wp_bind. eapply wp_runtime_of; [exact Hr2 |].
  destruct (_ =? _). { apply wp_ret. split_and!; [done | done | done | by intros ? [= <-] | done]. }
  eapply wp_lock_stream; [exact Hs2 |]. intros s3 Hk3 Hs3. eapply wp_mono; [apply IH; [done | by eapply later_kept] |].
  intros w s4 (H1 & H2 & H3 & H4 & _). done.
Qed.

Lemma wp_wait_for_ring nonblock x s : stream_ok sz am x s ->
  wp (wait_for_ring nonblock) (fun w s' => calm x s s' /\ (w = Ready -> is_ready s') /\ (forall err, w = Leave err -> err < 0) /\
    (nonblock = true -> w <> Asleep)) s.
Proof.
  intros Hs. unfold wait_for_ring. eapply wp_lock_stream; [done |]. intros s1 Hk1 Hs1. apply wp_bind. unfold wp at 1, get.
  eapply wp_mono; [eapply (wp_wait_ready nonblock x s); [done | by apply kept_later] |]. intros w s2 (H1 & H2 & H3 & H4 & H5).
  split_and!; [done | done | done |]. intros Hn Hw. specialize (H5 Hn Hw). done.
Qed.

(** ** Writing *)

Lemma wp_write1_loop kernel fault fuel : forall buf result s r q,
  s_runtime s = Some r -> ring_ok false true sz am r q -> zlen buf < Z.of_nat fuel -> 0 <= result ->
  wp (write1_loop fuel kernel fault buf result) (fun n s' => exists k r', 0 <= k <= zlen buf /\ kept s s' /\ s_runtime s' = Some r' /\
    ring_ok false true sz am r' (q ++ take (Z.to_nat k) buf) /\ (n = result + k \/ n = -EFAULT /\ result = 0 /\ k = 0) /\
    (readable kernel fault -> n = result + k /\ k = Z.min (zlen buf) (sz - zlen q))) s.
Proof.
  induction fuel as [| fuel IH]; intros buf result s r q Hr Ho Hf Hres; [pose proof (zlen_nonneg buf); lia |]. cbn [write1_loop].
  apply wp_bind. eapply wp_runtime_of; [exact Hr |]. destruct (ring_queued _ _ Ho) as [Eq Hq]. pose proof (ro_size _ _ _ _ _ _ Ho) as Esz. cbn [queued] in *.
  pose proof (zlen_nonneg buf).
  assert (Hend : zlen buf <= 0 \/ avail r = 0 -> wp (ret result) (fun n s' => exists k r', 0 <= k <= zlen buf /\ kept s s' /\ s_runtime s' = Some r' /\
    ring_ok false true sz am r' (q ++ take (Z.to_nat k) buf) /\ (n = result + k \/ n = -EFAULT /\ result = 0 /\ k = 0) /\
    (readable kernel fault -> n = result + k /\ k = Z.min (zlen buf) (sz - zlen q))) s).
  { intros Hz. apply wp_ret. exists 0, r. cbn [take Z.to_nat]. rewrite take_0, app_nil_r. split_and!; [lia | lia | done | done | done | left; lia |]. intros _. lia. }
  destruct (Z.ltb_spec 0 (zlen buf)) as [Hpos |]; [| apply Hend; lia]. destruct (Z.eqb_spec (avail r) 0); [apply Hend; lia |]. clear Hend. cbn [andb negb].
  destruct (ring_ptrs _ _ Ho) as [Ha _]. pose proof (ro_avail _ _ _ _ _ _ Ho). rewrite !clip_min, (proj2 (ring_to_end _ _ Ho)).
  set (k := Z.min (Z.min (sz - appl_ptr r) (zlen buf)) (avail r)). assert (Hk : 0 < k <= zlen buf) by lia.
  destruct (negb kernel && fault result) eqn:Efault.
  { apply wp_ret. exists 0, r. rewrite take_0, app_nil_r. split_and!; [lia | lia | done | done | done | |].
    - destruct (Z.ltb_spec 0 result); [left; lia | right; lia].
    - intros [-> | Hnf]; [done |]. rewrite Hnf, andb_false_r in Efault. done. }
  assert (Hz : zlen (take (Z.to_nat k) buf) = k) by (apply zlen_take; lia).
  apply wp_bind. eapply wp_copy_in; [exact Hr | exact Ho | lia | lia |]. intros mem Em. apply wp_bind. eapply wp_set_runtime; [reflexivity |].
  eapply wp_mono; [eapply (IH (drop (Z.to_nat k) buf) (result + k) _ _ (q ++ take (Z.to_nat k) buf)); [reflexivity | | rewrite zlen_drop; lia | lia] |].
  - eapply (ring_put r q _ mem); [exact Ho | exact Em | lia | | | | | | |]; rewrite ?Hz; try done.
    + exists (appl_ptr r). split_and!; [by right | lia | lia | done].
    + cbn. by rewrite Esz.
    + cbn. lia.
  - intros m s' (k' & r' & H1 & H2 & H3 & H4 & H5 & H6). rewrite zlen_drop in * by lia. exists (k + k'), r'.
    rewrite <- app_assoc, take_add_drop in H4 by lia. split_and!; [lia | lia | | done | done | |].
    + etrans; [| exact H2]. done.
    + destruct H5 as [-> | (_ & ? & _)]; [left |]; lia.
    + intros Hread. specialize (H6 Hread) as [-> ->]. rewrite zlen_app, Hz. lia.
Qed.

(** What [snd_rawmidi_kernel_write1] takes of [buf], and its result. *)
Definition write_takes (kernel : bool) (fault : Z -> bool) (x buf : list Z) (s : sub) (n : Z) (s' : sub) : Prop :=
  exists k, 0 <= k <= zlen buf /\ stream_ok sz am (x ++ take (Z.to_nat k) buf) s' /\ later s s' /\
    (n = k \/ n < 0 /\ k = 0) /\
    (readable kernel fault -> n = -EAGAIN /\ s_append s = true \/ n = k /\
       (forall q, live false sz am q s -> k = Z.min (zlen buf) (sz - zlen q))).

Context `{QuietRaw}.

Lemma wp_trigger x up s : stream_ok sz am x s -> wp (trigger up) (fun _ => calm x s) s.
Proof. intros Hs. apply wp_bind. unfold wp at 1, get. apply wp_drv_runs; [done | apply trigger_right]. Qed.

Lemma wp_close x s : stream_ok sz am x s -> wp close (fun _ => calm x s) s.
Proof. intros Hs. apply wp_bind. unfold wp at 1, get. apply wp_drv_runs; [done | apply close_right]. Qed.

(** The flag that the transfer is running. *)
Lemma wp_set_trigger {A} b x s (m : R A) (Q : A -> sub -> Prop) :
  stream_ok sz am x s -> (forall s', kept s s' -> stream_ok sz am x s' -> wp m Q s') -> wp (set_runtime (fun r => r <| r_trigger := b |>);;; m) Q s.
Proof.
  intros Hs HQ. destruct (so_ring _ _ _ _ Hs) as (q & (r & Hr & Ho) & Hf). apply wp_bind. eapply wp_set_runtime; [exact Hr |]. apply HQ; [done |].
  split; [apply Hs |]. exists q. split; [| done]. eexists. split; [reflexivity |]. eapply ring_same; [exact Ho | try done..]. apply (ro_lock _ _ _ _ _ _ Ho).
Qed.

Lemma live_unique q q' s : live false sz am q s -> live false sz am q' s -> zlen q = zlen q'.
Proof.
  intros (r & Hr & Ho) (r' & Hr' & Ho'). assert (r' = r) as -> by congruence. destruct (ring_queued _ _ Ho), (ring_queued _ _ Ho'). lia.
Qed.

Lemma wp_kernel_write1 kernel fault buf s x :
  s_input s = false -> stream_ok sz am x s -> wp (snd_rawmidi_kernel_write1 kernel fault buf) (write_takes kernel fault x buf s) s.
Proof.
  intros Hi Hs. destruct (so_ring _ _ _ _ Hs) as (q & Hl & Hf). rewrite Hi in Hl. assert (Hl' := Hl). destruct Hl' as (r & Hr & Ho).
  unfold snd_rawmidi_kernel_write1. apply wp_bind. eapply wp_runtime_of; [exact Hr |]. destruct (ring_buffer _ _ Ho) as [mem ->]. clear r Hr Ho.
  eapply wp_lock_ring; [exact Hl |]. intros s1 r Hk1 Hr Ho _. apply wp_bind. unfold wp at 1, get. apply wp_bind. eapply wp_runtime_of; [exact Hr |].
  assert (Ea : s_append s1 = s_append s) by (destruct Hk1 as (E & _); unfold ident in E; congruence). pose proof (zlen_nonneg buf).
  destruct (s_append s1 && (avail r <? zlen buf)) eqn:Eapp.
  { eapply wp_unlock_ring; [exact Hr | exact Ho |]. intros s2 Hk2 Hl2. apply wp_ret. exists 0. rewrite take_0, app_nil_r.
    assert (C : calm x s s2) by (eapply calm_kept; [exact Hs | exact Hf | by etrans | by rewrite Hi]).
    split_and!; [lia | lia | apply C | apply C | right; split; [done | done] |]. intros _. left. apply andb_true_iff in Eapp as [? _]. split; [done | congruence]. }
  apply wp_bind. eapply wp_mono; [apply (wp_write1_loop kernel fault (S (length buf)) buf 0 s1 r q); [done | done | unfold zlen; lia | done] |].
  intros n s2 (k & r2 & Hk & Hk2 & Hr2 & Ho2 & Hn & Hfull). apply wp_bind.
  eapply (wp_mono _ (fun _ s3 => kept s2 s3 /\ exists r3, s_runtime s3 = Some r3 /\ ring_ok false true sz am r3 (q ++ take (Z.to_nat k) buf))).
  { unfold when. destruct (0 <? n); [| apply wp_ret; split; [done | eauto]]. eapply wp_set_runtime; [exact Hr2 |]. split; [done |].
    eexists. split; [reflexivity |]. eapply ring_same; [exact Ho2 | try done..]. apply (ro_lock _ _ _ _ _ _ Ho2). }
  intros [] s3 (Hk3 & r3 & Hr3 & Ho3). eapply wp_unlock_ring; [exact Hr3 | exact Ho3 |]. intros s4 Hk4 Hl4.
  assert (Hk04 : kept s s4) by (etrans; [exact Hk1 |]; etrans; [exact Hk2 |]; by etrans).
  assert (Hs4 : stream_ok sz am (x ++ take (Z.to_nat k) buf) s4).
  { pose proof (ident_input _ _ (proj1 Hk04)) as Ei. split; [destruct Hk04 as (_ & _ & -> & _); rewrite Ei; apply Hs |].
    exists (q ++ take (Z.to_nat k) buf). rewrite Ei, Hi. split; [done |]. destruct Hk04 as (_ & _ & _ & Ew & _).
    unfold flows in *. rewrite Ei, Hi, Ew in *. by rewrite Hf, app_assoc. }
  apply wp_bind. eapply wp_mono; [by apply wp_trigger |]. intros [] s5 [Hs5 L5]. apply wp_ret. exists k.
  split_and!; [lia | lia | done | etrans; [by apply kept_later | done] | |].
  - destruct Hn as [-> | (-> & _ & ->)]; [left; lia | right; done].
  - intros Hread. right. specialize (Hfull Hread) as [-> ->]. split; [done |]. intros q' Hl'. by rewrite (live_unique _ _ _ Hl' Hl).
Qed.

(** ** Whole calls *)

Lemma wp_kernel_read1 kernel fault count s q x :
  s_input s = true -> stream_ok sz am x s -> live true sz am q s -> flows x q s -> 0 <= count ->
  wp (snd_rawmidi_kernel_read1 kernel fault count) (read_gives kernel fault x q count [] s) s.
Proof. intros. apply wp_read1_loop; try done. lia. Qed.

(** What [snd_rawmidi_read] gives: [out] and what it had read before. *)
Lemma wp_read_loop nonblock fault fuel : forall count pos result out s x,
  s_input s = true -> stream_ok sz am x s -> 0 <= count <= INT_MAX -> result = zlen out ->
  (forall n, fault n = false) ->
  wp (read_loop fuel nonblock fault count pos result out) (fun res s' => exists y,
    res.2 = out ++ y /\ stream_ok sz am (x ++ y) s' /\ later s s' /\ zlen y <= count /\
    (forall n, res.1 = Done n -> n = zlen res.2 \/ n < 0 /\ res.2 = []) /\
    (nonblock = true -> count < Z.of_nat fuel -> res.1 <> Waiting)) s.
Proof.
  induction fuel as [| fuel IH]; intros count pos result out s x Hi Hs Hc -> Hfault; cbn [read_loop].
  { apply wp_ret. exists []. rewrite !app_nil_r. change (zlen []) with 0. cbn [fst snd]. split_and!; [done | done | reflexivity | lia | done | lia]. }
  destruct (Z.ltb_spec 0 count) as [Hpos | Hz].
  2: { apply wp_ret. exists []. rewrite !app_nil_r. change (zlen []) with 0. cbn [fst snd]. split_and!; [done | done | reflexivity | lia | intros n [= ->]; by left | done]. }
  apply wp_bind. eapply wp_mono; [by apply (wp_wait_for_ring nonblock x) |]. intros w s1 ([Hs1 L1] & W1 & W2 & W3).
  assert (Hi1 : s_input s1 = true) by (by rewrite (later_input _ _ L1)). destruct w as [| err |].
  - destruct (so_ring _ _ _ _ Hs1) as (q & Hl & Hf). rewrite Hi1 in Hl. unfold INT_MAX in *. rewrite (s32_small count) by (unfold is_s32; lia).
    apply wp_bind. eapply wp_mono; [apply (wp_kernel_read1 _ _ count s1 q x); [done | done | done | done | lia] |].
    intros res s2 (y & E1 & E2 & E3 & E4 & _ & E6). destruct (E6 (or_intror (fun n => Hfault (pos + n)))) as [E7 E8]. cbn [app] in *.
    rewrite E3 in *. pose proof (zlen_nonneg y). rewrite E7, (u32_small (count - zlen y)) by (unfold is_u32; lia).
    assert (Hy : 0 < zlen y).
    { destruct (W1 eq_refl) as (r & Hr & Hav). destruct Hl as (r' & Hr' & Ho). assert (r' = r) as -> by congruence.
      pose proof (ro_min_range _ _ _ _ _ _ Ho). destruct (ring_queued _ _ Ho) as [Eq _]. cbn in Eq. lia. }
    eapply wp_mono; [apply (IH _ _ _ _ _ (x ++ y)); [by rewrite (later_input _ _ E2) | done | lia | by rewrite zlen_app | done] |].
    intros res' s3 (y' & F1 & F2 & F3 & F4 & F5 & F6). exists (y ++ y'). rewrite !app_assoc, zlen_app. split_and!; [done | done | | lia | done |].
    + etrans; [exact L1 |]. by etrans.
    + intros Hn Hfu. apply F6; [done | lia].
  - apply wp_ret. exists []. rewrite !app_nil_r. change (zlen []) with 0. cbn [fst snd]. split_and!; [done | done | done | lia | | done].
    intros n [= <-]. destruct (Z.ltb_spec 0 (zlen out)); [by left | right]. split; [by apply W2 |]. destruct out; [done | unfold zlen in *; cbn in *; lia].
  - apply wp_ret. exists []. rewrite !app_nil_r. change (zlen []) with 0. cbn [fst snd]. split_and!; [done | done | done | lia | done |]. intros Hn. by destruct (W3 Hn).
Qed.

Lemma wp_read nonblock fault fuel count s x :
  s_input s = true -> stream_ok sz am x s -> 0 <= count <= INT_MAX -> (forall n, fault n = false) ->
  wp (snd_rawmidi_read fuel true nonblock fault count) (fun res s' =>
    stream_ok sz am (x ++ res.2) s' /\ later s s' /\ zlen res.2 <= count /\
    (forall n, res.1 = Done n -> n = zlen res.2 \/ n < 0 /\ res.2 = []) /\
    (nonblock = true -> count < Z.of_nat fuel -> res.1 <> Waiting)) s.
Proof.
  intros Hi Hs Hc Hfault. unfold snd_rawmidi_read. cbn [negb]. eapply wp_set_trigger; [exact Hs |]. intros s1 Hk1 Hs1.
  apply wp_bind. eapply wp_mono; [by apply wp_trigger |]. intros [] s2 [Hs2 L2].
  assert (L : later s s2) by (etrans; [by apply kept_later | done]).
  eapply wp_mono; [apply (wp_read_loop nonblock fault fuel count 0 0 [] s2 x); [by rewrite (later_input _ _ L) | done | done | done | done] |].
  intros res s3 (y & E1 & E2 & E3 & E4 & E5 & E6). cbn [app] in E1. rewrite E1 in *. split_and!; try done. by etrans.
Qed.

Lemma wp_kernel_read count s x :
  s_input s = true -> stream_ok sz am x s -> 0 <= count ->
  wp (snd_rawmidi_kernel_read count) (fun res s' => stream_ok sz am (x ++ res.2) s' /\ later s s' /\ res.1 = zlen res.2 /\ zlen res.2 <= count) s.
Proof.
  intros Hi Hs Hc. unfold snd_rawmidi_kernel_read. eapply wp_set_trigger; [exact Hs |]. intros s1 Hk1 Hs1.
  apply wp_bind. eapply wp_mono; [by apply wp_trigger |]. intros [] s2 [Hs2 L2].
  assert (L : later s s2) by (etrans; [by apply kept_later | done]). assert (Hi2 : s_input s2 = true) by (by rewrite (later_input _ _ L)).
  destruct (so_ring _ _ _ _ Hs2) as (q & Hl & Hf). rewrite Hi2 in Hl.
  eapply wp_mono; [by apply (wp_kernel_read1 true (fun _ => false) count s2 q x) |].
  intros res s3 (y & E1 & E2 & E3 & E4 & _ & E6). cbn [app] in E3. destruct (E6 (or_introl eq_refl)) as [E7 _]. rewrite E3 in *.
  split_and!; try done. by etrans.
Qed.

Lemma length_user_bytes mem pos count : 0 <= count -> zlen (user_bytes mem pos count) = count.
Proof. intros. unfold zlen, user_bytes. rewrite length_fmap, length_seq. lia. Qed.

Lemma user_bytes_app mem pos a b : 0 <= a -> 0 <= b -> user_bytes mem pos a ++ user_bytes mem (pos + a) b = user_bytes mem pos (a + b).
Proof.
  intros. unfold user_bytes. rewrite Z2Nat.inj_add, seq_app, fmap_app by lia. f_equal. rewrite Nat.add_0_l, <- (Nat.add_0_r (Z.to_nat a)) at 1.
  rewrite <- fmap_add_seq, <- list_fmap_compose. apply list_fmap_ext. intros i j _. cbn. f_equal. lia.
Qed.

Lemma take_user_bytes mem pos k n : 0 <= k <= n -> take (Z.to_nat k) (user_bytes mem pos n) = user_bytes mem pos k.
Proof.
  intros. replace n with (k + (n - k)) by lia. rewrite <- user_bytes_app by lia. rewrite take_app_length'; [done |].
  pose proof (length_user_bytes mem pos k). unfold zlen in *. lia.
Qed.

(** What [snd_rawmidi_write] has given of the user's memory: [k] bytes from [pos] on. *)
Lemma wp_write_loop nonblock fault mem fuel : forall count pos result s x,
  s_input s = false -> s_append s = false -> stream_ok sz am x s -> 0 <= count <= INT_MAX -> 0 <= result ->
  (forall n, fault n = false) ->
  wp (write_loop fuel nonblock fault mem count pos result) (fun res s' => exists k, 0 <= k <= count /\
    stream_ok sz am (x ++ user_bytes mem pos k) s' /\ later s s' /\
    (forall n, res.1 = Done n -> n = result + k \/ n < 0 /\ result = 0 /\ k = 0) /\
    (nonblock = true -> count < Z.of_nat fuel -> res.1 <> Waiting)) s.
Proof.
  induction fuel as [| fuel IH]; intros count pos result s x Hi Happ Hs Hc Hres Hfault; cbn [write_loop].
  { apply wp_ret. exists 0. rewrite app_nil_r. cbn [fst]. split_and!; [lia | lia | done | reflexivity | done | lia]. }
  destruct (Z.ltb_spec 0 count) as [Hpos | Hz].
  2: { apply wp_ret. exists 0. rewrite app_nil_r. cbn [fst]. split_and!; [lia | lia | done | reflexivity | intros n [= ->]; left; lia | done]. }
  apply wp_bind. eapply wp_mono; [by apply (wp_wait_for_ring nonblock x) |]. intros w s1 ([Hs1 L1] & W1 & W2 & W3).
  assert (Hi1 : s_input s1 = false) by (by rewrite (later_input _ _ L1)). destruct w as [| err |].
  - assert (Ha1 : s_append s1 = false) by (pose proof (la_ident _ _ L1) as E; unfold ident in E; congruence).
    unfold INT_MAX in *. rewrite (s32_small count) by (unfold is_s32; lia). apply wp_bind.
    eapply wp_mono; [by apply (wp_kernel_write1 false (fun n => fault (pos + n)) _ s1 x) |].
    intros n s2 (k & E1 & E2 & E3 & _ & E5). rewrite length_user_bytes in E1 by lia.
    destruct (E5 (or_intror (fun n => Hfault (pos + n)))) as [[_ ?] | [-> Ek]]; [congruence |]. clear E5.
    assert (Hk : 0 < k).
    { destruct (so_ring _ _ _ _ Hs1) as (q & Hl & Hf). rewrite Hi1 in Hl. rewrite (Ek q Hl), length_user_bytes by lia.
      destruct (W1 eq_refl) as (r & Hr & Hav). destruct Hl as (r' & Hr' & Ho). assert (r' = r) as -> by congruence.
      pose proof (ro_min_range _ _ _ _ _ _ Ho). pose proof (ro_size _ _ _ _ _ _ Ho). destruct (ring_queued _ _ Ho) as [Eq _]. cbn in Eq. lia. }
    rewrite take_user_bytes in E2 by lia. rewrite (u32_small (count - k)) by (unfold is_u32; lia).
    assert (L : later s s2) by (by etrans). destruct ((u32 k <? count - k) && nonblock) eqn:Estop.
    { apply wp_ret. exists k. cbn [fst]. split_and!; [lia | lia | done | done | intros m [= ->]; by left | done]. }
    eapply wp_mono; [apply (IH _ _ _ _ (x ++ user_bytes mem pos k)); [by rewrite (later_input _ _ L) | | done | lia | lia | done] |].
    { pose proof (la_ident _ _ L) as E; unfold ident in E; congruence. }
    intros res s3 (k' & F1 & F2 & F3 & F4 & F5). exists (k + k'). rewrite <- app_assoc, user_bytes_app in F2 by lia.
    split_and!; [lia | lia | done | by etrans | | ].
    + intros m Hm. destruct (F4 m Hm) as [-> | (_ & ? & _)]; [left |]; lia.
    + intros Hn Hfu. apply F5; [done | lia].
  - apply wp_ret. exists 0. rewrite app_nil_r. cbn [fst]. split_and!; [lia | lia | done | done | | done].
    intros n [= <-]. destruct (Z.ltb_spec 0 result); [left; lia | right]. split_and!; [by apply W2 | lia | done].
  - apply wp_ret. exists 0. rewrite app_nil_r. cbn [fst]. split_and!; [lia | lia | done | done | done |]. intros Hn. by destruct (W3 Hn).
Qed.

Lemma wp_write nonblock fault mem fuel count s x :
  s_input s = false -> s_append s = false -> stream_ok sz am x s -> 0 <= count <= INT_MAX -> (forall n, fault n = false) ->
  wp (snd_rawmidi_write fuel nonblock false fault mem count) (fun o s' => exists k, 0 <= k <= count /\
    stream_ok sz am (x ++ user_bytes mem 0 k) s' /\ later s s' /\
    (forall n, o = Done n -> n = k \/ n < 0 /\ k = 0) /\ (nonblock = true -> count < Z.of_nat fuel -> o <> Waiting)) s.
Proof.
  intros Hi Ha Hs Hc Hf. unfold snd_rawmidi_write. apply wp_bind. eapply wp_mono; [by apply (wp_write_loop nonblock fault mem fuel count 0 0 s x) |].
  intros [o b] s' (k & H1 & H2 & H3 & H4 & H5). cbn [fst] in *.
  assert (G : forall o', o' = o -> exists k, 0 <= k <= count /\ stream_ok sz am (x ++ user_bytes mem 0 k) s' /\ later s s' /\
    (forall n, o' = Done n -> n = k \/ n < 0 /\ k = 0) /\ (nonblock = true -> count < Z.of_nat fuel -> o' <> Waiting)).
  { intros o' ->. exists k. split_and!; [lia | lia | done | done | | done]. intros n Hn. destruct (H4 n Hn) as [-> | (? & _ & ?)]; [left |]; lia. }
  destruct o, b; apply wp_ret; by apply G.
Qed.
End Stream.
