(* ===== verification/RawMidiCalls.v ===== *)
(** * RawMidiCalls: the calls of an application on a raw MIDI stream

    Draining, dropping and changing the size of the ring, and whole histories of calls: the
    ring stays what it has to be, and no byte is lost or sent twice unless the application
    asks for it.  Some calls never return. *)

From S2P Require Import Prelude ByteRing RawMidi RawMidiRing RawMidiSpec.
Open Scope Z_scope.
Open Scope state_scope.

(** ** Emptying the ring *)

(** What is in the ring. *)
Definition ring_of (s : sub) : list Z :=
  match s_runtime s with
  | Some r => match r_buffer r with Some buf => content buf (rd_ptr (s_input s) r) (queued (s_input s) r) | None => [] end
  | None => []
  end.

Lemma live_ring i sz am q s : s_input s = i -> live i sz am q s -> ring_of s = q.
Proof. intros <- (r & Hr & Ho). destruct (ro_buf _ _ _ _ _ _ Ho) as (buf & Eb & _ & ->). unfold ring_of. by rewrite Hr, Eb. Qed.

(** A change of the runtime that leaves its ring alone. *)
Definition same_ring (f : runtime -> runtime) : Prop := forall r,
  r_buffer (f r) = r_buffer r /\ buffer_size (f r) = buffer_size r /\ appl_ptr (f r) = appl_ptr r /\ hw_ptr (f r) = hw_ptr r /\
  avail (f r) = avail r /\ avail_min (f r) = avail_min r /\ r_lock (f r) = r_lock r.

(** An input after it was drained. *)
Definition zeroed (s : sub) : Prop := exists r, s_runtime s = Some r /\ appl_ptr r = 0 /\ hw_ptr r = 0 /\ avail r = 0.

Section Empty.
Context {sz am : Z} `{QuietRaw}.

Lemma wp_set_same {A} f x s (m : R A) (Q : A -> sub -> Prop) :
  same_ring f -> stream_ok sz am x s -> (forall s', kept s s' -> stream_ok sz am x s' -> ring_of s' = ring_of s -> wp m Q s') -> wp (set_runtime f;;; m) Q s.
Proof.
  intros Hsame Hs HQ. destruct (so_ring _ _ _ _ Hs) as (q & Hl & Hf). assert (Hl' := Hl). destruct Hl' as (r & Hr & Ho).
  destruct (Hsame r) as (E1 & E2 & E3 & E4 & E5 & E6 & E7). apply wp_bind. eapply wp_set_runtime; [exact Hr |].
  assert (Hl2 : live (s_input s) sz am q (s <| s_runtime := Some (f r) |>)).
  { eexists. split; [reflexivity |]. eapply ring_same; [exact Ho | try done..]. rewrite E7. apply (ro_lock _ _ _ _ _ _ Ho). }
  apply HQ; [done | split; [apply Hs | by exists q] |]. trans q; [by eapply (live_ring (s_input s)) | symmetry; by eapply (live_ring (s_input s))].
Qed.

(** The runtime with an empty ring. *)
Lemma wp_reset {A} x s (m : R A) (Q : A -> sub -> Prop) f :
  (forall r, r_buffer (f r) = r_buffer r /\ buffer_size (f r) = buffer_size r /\ appl_ptr (f r) = 0 /\ hw_ptr (f r) = 0 /\
     avail (f r) = (if s_input s then 0 else buffer_size r) /\ avail_min (f r) = avail_min r /\ r_lock (f r) = r_lock r) ->
  stream_ok sz am x s ->
  (forall s', kept s s' -> live (s_input s) sz am [] s' -> (exists r, s_runtime s' = Some (f r)) -> stream_ok sz am (if s_input s then s_fed s' else s_wire s') s' -> wp m Q s') -> wp (set_runtime f;;; m) Q s.
Proof.
  intros Hf Hs HQ. destruct (so_ring _ _ _ _ Hs) as (q & (r & Hr & Ho) & _). destruct (Hf r) as (E1 & E2 & E3 & E4 & E5 & E6 & E7).
  apply wp_bind. eapply wp_set_runtime; [exact Hr |].
  assert (Hl : live (s_input s) sz am [] (s <| s_runtime := Some (f r) |>)).
  { eexists. split; [reflexivity |]. destruct Ho as [(buf & Eb & Hlen & ->) R1 R2 R3 R4 R5 R6 R7 R8].
    assert (Eq : queued (s_input s) (f r) = 0) by (unfold queued; destruct (s_input s); rewrite ?E2, ?E5; lia).
    assert (Er : rd_ptr (s_input s) (f r) = 0 /\ wr_ptr (s_input s) (f r) = 0) by (unfold rd_ptr, wr_ptr; destruct (s_input s); done).
    destruct Er as [Er Ew]. split; rewrite ?Eq, ?Er, ?Ew, ?E2, ?E6, ?E7; try done; try lia.
    - exists buf. rewrite E1. done.
    - rewrite E5. destruct (s_input s); lia. }
  apply HQ; [done | exact Hl | by exists r |]. split; [apply Hs |]. exists []. split; [exact Hl |]. unfold flows. cbn. destruct (s_input s); by rewrite app_nil_r.
Qed.

Lemma wp_drop_output x s : s_input s = false -> stream_ok sz am x s ->
  wp snd_rawmidi_drop_output (fun n s' => n = 0 /\ stream_ok sz am (s_wire s') s' /\ later s s' /\ ring_of s' = [] /\ s_wire s' `prefix_of` x) s.
Proof.
  intros Hi Hs. unfold snd_rawmidi_drop_output. apply wp_bind. eapply wp_mono; [by apply (wp_trigger (sz := sz) (am := am) x) |]. intros [] s1 [Hs1 L1].
  assert (Hi1 : s_input s1 = false) by (by rewrite (later_input _ _ L1)).
  eapply wp_reset; [intros r; rewrite Hi1; done | exact Hs1 |]. rewrite Hi1. intros s2 Hk2 Hl2 _ Hs2. apply wp_ret.
  assert (Hi2 : s_input s2 = false) by (by rewrite (ident_input _ _ (proj1 Hk2))).
  split_and!; [done | done | by eapply later_kept | by eapply live_ring |].
  destruct (so_ring _ _ _ _ Hs1) as (q & _ & Hf). unfold flows in Hf. rewrite Hi1 in Hf. rewrite Hf. destruct Hk2 as (_ & _ & _ & -> & _). by apply prefix_app_r.
Qed.

Lemma wp_drain_input x s : s_input s = true -> stream_ok sz am x s ->
  wp snd_rawmidi_drain_input (fun n s' => n = 0 /\ stream_ok sz am (s_fed s') s' /\ later s s' /\ zeroed s') s.
Proof.
  intros Hi Hs. unfold snd_rawmidi_drain_input. apply wp_bind. eapply wp_mono; [by apply (wp_trigger (sz := sz) (am := am) x) |]. intros [] s1 [Hs1 L1].
  assert (Hi1 : s_input s1 = true) by (by rewrite (later_input _ _ L1)).
  eapply wp_reset; [intros r; rewrite Hi1; done | exact Hs1 |]. rewrite Hi1. intros s2 Hk2 Hl2 [r Hr] Hs2. apply wp_ret.
  assert (Hi2 : s_input s2 = true) by (by rewrite (ident_input _ _ (proj1 Hk2))).
  split_and!; [done | done | by eapply later_kept |]. eexists. split; [exact Hr | done].
Qed.

(** The ring runs empty, or the loop is still waiting. *)
Lemma wp_drain_loop x fuel : forall s, s_input s = false -> stream_ok sz am x s ->
  wp (drain_loop fuel) (fun b s' => calm (sz := sz) (am := am) x s s' /\ (b = true -> s_wire s' = x)) s.
Proof.
  induction fuel as [| fuel IH]; intros s Hi Hs; cbn [drain_loop]; [apply wp_ret; split; [split; [done | reflexivity] | done] |].
  destruct (so_ring _ _ _ _ Hs) as (q & (r & Hr & Ho) & Hf). rewrite Hi in Ho. apply wp_bind. eapply wp_runtime_of; [exact Hr |].
  destruct (ring_queued _ _ Ho) as [Eq Hq]. cbn [queued] in *. destruct (Z.ltb_spec (avail r) (buffer_size r)) as [Hmore | Hdone].
  - apply wp_bind. eapply wp_mono; [by apply (wp_poll_irq (sz := sz) (am := am) x) |]. intros [] s1 C1.
    eapply wp_mono; [apply IH; [by rewrite (later_input _ _ (proj2 C1)) | apply C1] |]. intros b s2 [C2 H2]. split; [by eapply calm_then | done].
  - apply wp_ret. split; [split; [done | reflexivity] |]. intros _. unfold flows in Hf. rewrite Hi in Hf. rewrite Hf.
    destruct q; [by rewrite app_nil_r | unfold zlen in Eq; cbn in Eq; lia].
Qed.

(** Nothing is left to send that could be dropped. *)
Lemma wp_drain_output x s : s_input s = false -> stream_ok sz am x s ->
  wp snd_rawmidi_drain_output (fun o s' => stream_ok sz am x s' /\ later s s' /\
    (o = Waiting \/ o = Done 0 /\ s_wire s' = x /\ ring_of s' = [])) s.
Proof.
  intros Hi Hs. unfold snd_rawmidi_drain_output. eapply wp_set_same; [done | exact Hs |]. intros s1 Hk1 Hs1 _.
  assert (Hi1 : s_input s1 = false) by (by rewrite (ident_input _ _ (proj1 Hk1))).
  apply wp_bind. unfold wp at 1, get. apply wp_bind. eapply wp_mono; [by apply (wp_drain_loop x) |]. intros b s2 [C2 Hb].
  assert (L2 : later s s2) by (etrans; [by apply kept_later | apply C2]). destruct b; cbn [negb].
  2: { apply wp_ret. split_and!; [apply C2 | done | by left]. }
  specialize (Hb eq_refl). eapply wp_set_same; [done | apply C2 |]. intros s3 Hk3 Hs3 _. apply wp_bind.
  eapply (wp_mono _ (fun _ => calm (sz := sz) (am := am) x s3)).
  { destruct op_drain as [f |] eqn:Ed; [| by apply wp_poll_irq]. apply wp_bind. unfold wp at 1, get. apply wp_drv_runs; [done | by apply drain_right]. }
  intros [] s4 [Hs4 L4]. assert (L14 : later s s4) by (etrans; [by eapply later_kept | done]).
  apply wp_bind. eapply wp_mono; [apply (wp_drop_output x); [by rewrite (later_input _ _ L14) | done] |].
  intros n s5 (-> & Hs5 & L5 & Er & Hp). apply wp_ret.
  assert (Ew : s_wire s5 = x).
  { pose proof (la_wire _ _ L4) as P4. pose proof (la_wire _ _ L5) as P5. destruct Hk3 as (_ & _ & _ & Ew & _). rewrite Ew, Hb in P4.
    apply (anti_symm prefix); [done | by etrans]. }
  rewrite Ew in Hs5. split_and!; [done | by etrans | right; done].
Qed.
End Empty.

(** ** Parameters *)

(** The memory that [kmalloc] finds is as large as was asked for. *)
Definition found (alloc : option (list Z)) (p : params) : Prop := forall b, alloc = Some b -> zlen b = p_buffer_size p.

Section Params.
Context {sz am : Z} `{QuietRaw}.

Lemma params_range p : params_wrong p = false -> 32 <= p_buffer_size p <= 1048576 /\ 1 <= p_avail_min p < p_buffer_size p.
Proof. unfold params_wrong. intros Hp. apply orb_false_iff in Hp as [[[H1 H2]%orb_false_iff H3]%orb_false_iff H4]. lia. Qed.

(** The threshold alone. *)
Lemma wp_set_params_same alloc p x s : stream_ok sz am x s -> params_wrong p = false -> p_buffer_size p = sz ->
  wp (set_params alloc p) (fun n s' => n = 0 /\ stream_ok sz (p_avail_min p) x s' /\ kept s s') s.
Proof.
  intros Hs Hp Esz. apply params_range in Hp. destruct (so_ring _ _ _ _ Hs) as (q & (r & Hr & Ho) & Hf). unfold set_params.
  apply wp_bind. eapply wp_runtime_of; [exact Hr |]. rewrite (ro_size _ _ _ _ _ _ Ho), Esz, Z.eqb_refl. apply wp_bind, wp_ret. cbn [Z.ltb Z.compare].
  apply wp_bind. eapply wp_set_runtime; [exact Hr |]. apply wp_ret. split_and!; [done | | done]. split; [apply Hs |]. exists q. split; [| done].
  eexists. split; [reflexivity |]. destruct Ho as [R0 R1 R2 R3 R4 R5 R6 R7 R8]. split; try done. lia.
Qed.

(** A new ring for an input that was drained. *)
Lemma wp_set_params_input alloc p s : s_input s = true -> stream_ok sz am (s_fed s) s -> zeroed s -> found alloc p -> params_wrong p = false ->
  wp (set_params alloc p) (fun n s' => kept s s' /\
    (n = 0 /\ stream_ok (p_buffer_size p) (p_avail_min p) (s_fed s') s' \/ n = -ENOMEM /\ stream_ok sz am (s_fed s') s')) s.
Proof.
  intros Hi Hs (r & Hr & Ea & Eh & Eav) Hfound Hp. destruct (decide (p_buffer_size p = sz)) as [E | Nsz].
  { eapply wp_mono; [by apply (wp_set_params_same alloc p (s_fed s))|]. intros n s' (-> & Hs' & Hk). split; [done | left]. split; [done |].
    rewrite E. by destruct Hk as (_ & _ & _ & _ & ->). }
  destruct (so_ring _ _ _ _ Hs) as (q & (r' & Hr' & Ho) & Hf). assert (r' = r) as -> by congruence. rewrite Hi in Ho.
  apply params_range in Hp. unfold set_params. apply wp_bind. eapply wp_runtime_of; [exact Hr |].
  rewrite (ro_size _ _ _ _ _ _ Ho), (proj2 (Z.eqb_neq _ _) Nsz). apply wp_bind. destruct alloc as [newbuf |].
  2: { apply wp_ret. cbn. apply wp_ret. split; [done |]. by right. }
  apply wp_bind. eapply wp_set_runtime; [exact Hr |]. apply wp_ret. cbn [Z.ltb Z.compare]. apply wp_bind. eapply wp_set_runtime; [reflexivity |].
  apply wp_ret. split; [done | left]. split; [done |]. split; [apply Hs |]. exists []. cbn [s_input set_field]. split.
  - eexists. split; [reflexivity |]. change (s_input _) with (s_input s). rewrite Hi. split; cbn; rewrite ?Ea, ?Eh, ?Eav; try done; try lia.
    + exists newbuf. split_and!; [done | by apply Hfound | done].
    + apply (ro_lock _ _ _ _ _ _ Ho).
  - unfold flows. cbn. rewrite Hi. by rewrite app_nil_r.
Qed.

Lemma wp_input_params alloc p x s : s_input s = true -> stream_ok sz am x s -> found alloc p ->
  wp (snd_rawmidi_input_params alloc p) (fun n s' => later s s' /\
    exists sz' am', stream_ok sz' am' (s_fed s') s' /\ (n = 0 -> sz' = p_buffer_size p /\ am' = p_avail_min p) /\ (n <> 0 -> sz' = sz /\ am' = am)) s.
Proof.
  intros Hi Hs Hfound. unfold snd_rawmidi_input_params. apply wp_bind. eapply wp_mono; [by apply (wp_drain_input (sz := sz) (am := am) x) |].
  intros n s1 (-> & Hs1 & L1 & Hz). destruct (params_wrong p) eqn:Hp.
  { apply wp_ret. split; [done |]. exists sz, am. done. }
  eapply wp_mono; [apply wp_set_params_input; [by rewrite (later_input _ _ L1) | done | done | done | done] |].
  intros n s2 (Hk & [(-> & Hs2) | (-> & Hs2)]); (split; [by eapply later_kept |]); [exists (p_buffer_size p), (p_avail_min p) | exists sz, am]; done.
Qed.

(** The size of the ring of an output must stay the same; see [output_params_sends_garbage]. *)
Lemma wp_output_params alloc p x s : s_input s = false -> stream_ok sz am x s -> p_buffer_size p = sz \/ params_wrong p = true ->
  wp (snd_rawmidi_output_params alloc p) (fun o s' => ident s' = ident s /\ s_fed s `prefix_of` s_fed s' /\
    exists am', stream_ok sz am' x s' /\ (o = Done 0 -> am' = p_avail_min p /\ s_wire s' = x) /\ (o <> Done 0 -> am' = am)) s.
Proof.
  intros Hi Hs Hsize. unfold snd_rawmidi_output_params. apply wp_bind. unfold wp at 1, get. destruct (s_append s && (1 <? s_use s)).
  { apply wp_ret. split_and!; [done | done |]. exists am. done. }
  apply wp_bind. eapply wp_mono; [by apply (wp_drain_output (sz := sz) (am := am) x) |]. intros o s1 (Hs1 & L1 & Ho).
  assert (Hi1 : s_input s1 = false) by (by rewrite (later_input _ _ L1)). destruct Ho as [-> | (-> & Ew & _)].
  { apply wp_ret. split_and!; [apply L1 | apply L1 |]. exists am. done. }
  destruct (params_wrong p) eqn:Hp. { apply wp_ret. split_and!; [apply L1 | apply L1 |]. exists am. done. }
  destruct Hsize as [Esz | ?]; [| done]. apply wp_bind. eapply wp_mono; [by apply (wp_set_params_same alloc p x) |].
  intros n s2 (-> & Hs2 & Hk). unfold when. cbn [Z.leb Z.compare]. apply wp_bind. unfold wp at 1, update. apply wp_ret.
  destruct Hk as (E1 & _ & _ & E4 & E5). split_and!; [etrans; [exact E1 | apply L1] | cbn; rewrite E5; apply L1 |].
  exists (p_avail_min p). split_and!; [| by intros _; cbn; rewrite E4 | done]. split; [apply Hs2 |]. exact (so_ring _ _ _ _ Hs2).
Qed.
End Params.

(** ** Histories *)

(** The calls of an application, of the kernel, and an interrupt between them. *)
Inductive app_call :=
| KernelRead (count : Z)
| ReadCall (fuel : nat) (nonblock : bool) (fault : Z -> bool) (count : Z)
| KernelWrite (buf : list Z)
| WriteCall (fuel : nat) (nonblock sync : bool) (fault : Z -> bool) (mem : Z -> Z) (count : Z)
| DropOutput
| DrainOutput
| DrainInput
| OutputParams (alloc : option (list Z)) (p : params)
| InputParams (alloc : option (list Z)) (p : params)
| OutputStatus
| InputStatus
| PollInput
| PollOutput
| Interrupt.

Section Calls.
Context `{QuietRaw}.

(** What the application gets or gives; nothing if it is left waiting in a write. *)
Definition app_run (c : app_call) : R (option (list Z)) :=
  match c with
  | KernelRead count => res <- snd_rawmidi_kernel_read count;; ret (Some res.2)
  | ReadCall fuel nonblock fault count => res <- snd_rawmidi_read fuel true nonblock fault count;; ret (Some res.2)
  | KernelWrite buf => n <- snd_rawmidi_kernel_write buf;; ret (Some (take (Z.to_nat n) buf))
  | WriteCall fuel nonblock sync fault mem count =>
      o <- snd_rawmidi_write fuel nonblock sync fault mem count;;
      ret (match o with Done n => Some (user_bytes mem 0 n) | Waiting => None end)
  | DropOutput => snd_rawmidi_drop_output;;; ret (Some [])
  | DrainOutput => snd_rawmidi_drain_output;;; ret (Some [])
  | DrainInput => snd_rawmidi_drain_input;;; ret (Some [])
  | OutputParams alloc p => snd_rawmidi_output_params alloc p;;; ret (Some [])
  | InputParams alloc p => snd_rawmidi_input_params alloc p;;; ret (Some [])
  | OutputStatus => snd_rawmidi_output_status;;; ret (Some [])
  | InputStatus => snd_rawmidi_input_status;;; ret (Some [])
  | PollInput => snd_rawmidi_poll_input;;; ret (Some [])
  | PollOutput => snd_rawmidi_poll_output;;; ret (Some [])
  | Interrupt => poll_irq;;; ret (Some [])
  end.

(** One call after the other, up to one that waits for ever. *)
Fixpoint app_runs (cs : list app_call) : R (option (list (list Z))) :=
  match cs with
  | [] => ret (Some [])
  | c :: cs =>
      y <- app_run c;;
      match y with
      | None => ret None
      | Some y => ys <- app_runs cs;; ret (cons y <$> ys)
      end
  end.

(** The calls for a direction; an output keeps the size of its ring. *)
Definition allowed (input : bool) (sz : Z) (c : app_call) : Prop :=
  match c with
  | KernelRead _ | ReadCall _ _ _ _ | DrainInput | InputStatus | PollInput => input = true
  | InputParams alloc p => input = true /\ found alloc p
  | KernelWrite _ | WriteCall _ _ _ _ _ _ | DropOutput | DrainOutput | OutputStatus | PollOutput => input = false
  | OutputParams alloc p => input = false /\ (p_buffer_size p = sz \/ params_wrong p = true)
  | Interrupt => True
  end.

(** The stream is in order. *)
Definition raw_ok (input : bool) (sz : Z) (s : sub) : Prop :=
  s_input s = input /\ exists sz' am x, stream_ok sz' am x s /\ (input = false -> sz' = sz).

Lemma raw_ok_calm input sz am x s s' sz' :
  s_input s = input -> (input = false -> sz' = sz) -> stream_ok sz' am x s' -> later s s' -> raw_ok input sz s'.
Proof. intros Hi Hsz Hs L. split; [by rewrite (later_input _ _ L) |]. by exists sz', am, x. Qed.

(** A call that keeps any stream in order. *)
Definition safe (input : bool) (sz : Z) {A} (m : R A) : Prop := forall s, raw_ok input sz s -> wp m (fun _ => raw_ok input sz) s.

Lemma raw_safe_ret input sz {A} (a : A) : safe input sz (ret a).
Proof. intros s Hs. by apply wp_ret. Qed.

Lemma raw_safe_bind input sz {A B} (m : R A) (k : A -> R B) : safe input sz m -> (forall a, safe input sz (k a)) -> safe input sz (bind m k).
Proof. intros Hm Hk s Hs. apply wp_bind. eapply wp_mono; [by apply Hm |]. intros a s' Hs'. by apply Hk. Qed.

Lemma safe_intro input sz {A} (m : R A) :
  (forall sz' am x s, s_input s = input -> stream_ok sz' am x s -> (input = false -> sz' = sz) ->
     wp m (fun _ s' => exists sz'' am' x', stream_ok sz'' am' x' s' /\ later s s' /\ (input = false -> sz'' = sz)) s) -> safe input sz m.
Proof.
  intros Hm s (Hi & sz' & am & x & Hs & Hsz). eapply wp_mono; [by eapply Hm |]. intros _ s' (sz'' & am' & x' & Hs' & L & Hsz').
  by eapply raw_ok_calm.
Qed.

(** A call that leaves the bytes of any stream where they are. *)
Definition calmly {A} (m : R A) : Prop := forall sz am x s, stream_ok sz am x s -> wp m (fun _ => calm (sz := sz) (am := am) x s) s.

Lemma calmly_ret {A} (a : A) : calmly (ret a).
Proof. intros sz am x s Hs. apply wp_ret. split; [done | reflexivity]. Qed.

Lemma calmly_bind {A B} (m : R A) (k : A -> R B) : calmly m -> (forall a, calmly (k a)) -> calmly (bind m k).
Proof.
  intros Hm Hk sz am x s Hs. apply wp_bind. eapply wp_mono; [by apply (Hm sz am x) |]. intros a s1 C1.
  eapply wp_mono; [apply (Hk a sz am x); apply C1 |]. intros b s2 C2. exact (calm_then _ _ _ _ C1 C2).
Qed.

Lemma calmly_safe input sz {A} (m : R A) : calmly m -> safe input sz m.
Proof.
  intros Hm. apply safe_intro. intros sz' am x s Hi Hs Hsz. eapply wp_mono; [by apply Hm |]. intros _ s' [Hs' L]. by exists sz', am, x.
Qed.

Lemma calmly_trigger up : calmly (trigger up).
Proof. intros sz am x s Hs. by apply wp_trigger. Qed.

Lemma calmly_poll_irq : calmly poll_irq.
Proof. intros sz am x s Hs. by apply wp_poll_irq. Qed.

Lemma calmly_wait nonblock : calmly (wait_for_ring nonblock).
Proof. intros sz am x s Hs. eapply wp_mono; [by apply (wp_wait_for_ring (sz := sz) (am := am) nonblock x) |]. by intros w s' (C & _). Qed.

Lemma calmly_set_same f : same_ring f -> calmly (set_runtime f).
Proof.
  intros Hf sz am x s Hs. destruct (so_ring _ _ _ _ Hs) as (q & (r & Hr & Ho) & Hfl).
  destruct (Hf r) as (E1 & E2 & E3 & E4 & E5 & E6 & E7). eapply wp_set_runtime; [exact Hr |].
  eapply calm_kept; [exact Hs | exact Hfl | done |]. eexists. split; [reflexivity |].
  eapply ring_same; [exact Ho | try done..]. rewrite E7. apply (ro_lock _ _ _ _ _ _ Ho).
Qed.

Lemma calmly_runtime_of : calmly runtime_of.
Proof.
  intros sz am x s Hs. destruct (so_ring _ _ _ _ Hs) as (q & (r & Hr & _) & _). eapply wp_runtime_of; [exact Hr |]. split; [done | reflexivity].
Qed.

(** Under the lock the state is only looked at, or what is counted is cleared. *)
Lemma calmly_output_status : calmly snd_rawmidi_output_status.
Proof.
  intros sz am x s Hs. destruct (so_ring _ _ _ _ Hs) as (q & Hl & Hf). unfold snd_rawmidi_output_status.
  eapply wp_lock_ring; [exact Hl |]. intros s1 r Hk1 Hr Ho _. apply wp_bind. eapply wp_runtime_of; [exact Hr |].
  eapply wp_unlock_ring; [exact Hr | exact Ho |]. intros s2 Hk2 Hl2. apply wp_ret. eapply calm_kept; [exact Hs | exact Hf | by etrans | exact Hl2].
Qed.

Lemma calmly_input_status : calmly snd_rawmidi_input_status.
Proof.
  intros sz am x s Hs. destruct (so_ring _ _ _ _ Hs) as (q & Hl & Hf). unfold snd_rawmidi_input_status.
  eapply wp_lock_ring; [exact Hl |]. intros s1 r Hk1 Hr Ho _. apply wp_bind. eapply wp_runtime_of; [exact Hr |]. apply wp_bind.
  eapply wp_set_runtime; [exact Hr |]. eapply (wp_unlock_ring (s_input s) sz am q); [reflexivity | |].
  { eapply ring_same; [exact Ho | try done..]. apply (ro_lock _ _ _ _ _ _ Ho). }
  intros s2 Hk2 Hl2. apply wp_ret. eapply calm_kept; [exact Hs | exact Hf | | exact Hl2]. etrans; [exact Hk1 |]. by etrans; [| exact Hk2].
Qed.

Lemma calmly_poll_input : calmly snd_rawmidi_poll_input.
Proof.
  apply calmly_bind; [by apply calmly_set_same | intros _]. apply calmly_bind; [apply calmly_trigger | intros _].
  apply calmly_bind; [apply calmly_runtime_of | intros; apply calmly_ret].
Qed.

Lemma calmly_poll_output : calmly snd_rawmidi_poll_output.
Proof. apply calmly_bind; [apply calmly_runtime_of | intros; apply calmly_ret]. Qed.

Lemma safe_set_same input sz f : same_ring f -> safe input sz (set_runtime f).
Proof. intros. by apply calmly_safe, calmly_set_same. Qed.

Lemma safe_trigger input sz up : safe input sz (trigger up).
Proof. apply calmly_safe, calmly_trigger. Qed.

Lemma safe_wait input sz nonblock : safe input sz (wait_for_ring nonblock).
Proof. apply calmly_safe, calmly_wait. Qed.

Lemma safe_kernel_read1 sz kernel fault count : safe true sz (snd_rawmidi_kernel_read1 kernel fault count).
Proof.
  apply safe_intro. intros sz' am x s Hi Hs Hsz. destruct (so_ring _ _ _ _ Hs) as (q & Hl & Hf). rewrite Hi in Hl.
  destruct (decide (0 <= count)).
  - eapply wp_mono; [by apply (wp_kernel_read1 (sz := sz') (am := am) kernel fault count s q x) |]. intros res s' (y & Hs' & L & _). by exists sz', am, (x ++ y).
  - unfold snd_rawmidi_kernel_read1. replace (Z.to_nat count) with O by lia. cbn [read1_loop]. destruct Hl as (r & Hr & _).
    apply wp_bind. eapply wp_runtime_of; [exact Hr |]. rewrite (proj2 (Z.ltb_ge 0 count)) by lia. cbn [andb]. apply wp_ret. by exists sz', am, x.
Qed.

Lemma safe_kernel_write1 sz kernel fault buf : safe false sz (snd_rawmidi_kernel_write1 kernel fault buf).
Proof.
  apply safe_intro. intros sz' am x s Hi Hs Hsz. eapply wp_mono; [by apply (wp_kernel_write1 (sz := sz') (am := am) kernel fault buf s x) |].
  intros n s' (k & _ & Hs' & L & _). by exists sz', am, (x ++ take (Z.to_nat k) buf).
Qed.

Lemma safe_read_loop sz nonblock fault fuel : forall count pos result out, safe true sz (read_loop fuel nonblock fault count pos result out).
Proof.
  induction fuel as [| fuel IH]; intros count pos result out; cbn [read_loop]; [apply raw_safe_ret |].
  destruct (0 <? count); [| apply raw_safe_ret]. apply raw_safe_bind; [apply safe_wait |]. intros [| err |]; try apply raw_safe_ret.
  apply raw_safe_bind; [apply safe_kernel_read1 | intros res; apply IH].
Qed.

Lemma safe_write_loop sz nonblock fault mem fuel : forall count pos result, safe false sz (write_loop fuel nonblock fault mem count pos result).
Proof.
  induction fuel as [| fuel IH]; intros count pos result; cbn [write_loop]; [apply raw_safe_ret |].
  destruct (0 <? count); [| apply raw_safe_ret]. apply raw_safe_bind; [apply safe_wait |]. intros [| err |]; try apply raw_safe_ret.
  apply raw_safe_bind; [apply safe_kernel_write1 | intros n]. cbv zeta. destruct (_ && _); [apply raw_safe_ret | apply IH].
Qed.

Lemma wp_sync_wait sz am x fuel : forall s, s_input s = false -> locked (sz := sz) (am := am) x s ->
  wp (sync_wait fuel) (fun w s' => (stream_ok sz am x s' /\ later s s') /\ forall err, w = Leave err -> err < 0) s.
Proof.
  induction fuel as [| fuel IH]; intros s Hi Hs; cbn [sync_wait].
  { eapply wp_unlock_stream; [exact Hs |]. intros s' Hk Hs' _. apply wp_ret. by split; [split; [done | by apply kept_later] |]. }
  assert (Hs' := Hs). destruct Hs' as (_ & q & r & Hr & Ho & _). apply wp_bind. eapply wp_runtime_of; [exact Hr |]. destruct (_ =? _).
  { eapply wp_unlock_stream; [exact Hs |]. intros s' Hk Hs' _. apply wp_ret. by split; [split; [done | by apply kept_later] |]. }
  eapply wp_unlock_stream; [exact Hs |]. intros s1 Hk1 Hs1 _. apply wp_bind. eapply wp_mono; [by apply (wp_poll_irq (sz := sz) (am := am) x) |]. intros [] s2 [Hs2 L2].
  assert (L02 : later s s2) by (etrans; [by apply kept_later | done]).
  destruct (so_ring _ _ _ _ Hs2) as (q2 & (r2 & Hr2 & _) & _). apply wp_bind. eapply wp_runtime_of; [exact Hr2 |].
  destruct (_ =? _); [apply wp_ret; split; [done | by intros ? [= <-]] |].
  eapply wp_lock_stream; [exact Hs2 |]. intros s3 Hk3 Hs3. eapply wp_mono; [apply IH; [by rewrite (ident_input _ _ (proj1 Hk3)), (later_input _ _ L02) | done] |].
  intros w s4 [[Hs4 L4] W4]. split; [| done]. split; [done |]. etrans; [exact L02 |]. etrans; [by apply kept_later | done].
Qed.

(** The second loop moves no bytes of the application, and gives the result of the first or an error. *)
Lemma wp_sync_loop sz am x result fuel : forall s, s_input s = false -> stream_ok sz am x s ->
  wp (sync_loop fuel result) (fun o s' => (stream_ok sz am x s' /\ later s s') /\
    forall n, o = Done n -> if 0 <? result then n = result else n < 0) s.
Proof.
  induction fuel as [| fuel IH]; intros s Hi Hs; cbn [sync_loop]; [apply wp_ret; by split |].
  eapply wp_lock_stream; [exact Hs |]. intros s1 Hk1 Hs1. apply wp_bind. unfold wp at 1, get. apply wp_bind.
  eapply wp_mono; [apply (wp_sync_wait sz am x); [by rewrite (ident_input _ _ (proj1 Hk1)) | done] |]. intros w s2 [[Hs2 L2] W2].
  assert (L : later s s2) by (etrans; [by apply kept_later | done]). destruct w as [| err |].
  - eapply wp_mono; [apply IH; [by rewrite (later_input _ _ L) | done] |]. intros o s3 [[Hs3 L3] Ho]. split; [| done].
    split; [done | by etrans].
  - apply wp_ret. split; [done |]. intros n [= <-]. destruct (0 <? result); [done | by apply W2].
  - apply wp_ret. by split.
Qed.

Lemma wp_write_any sz am nonblock sync fault mem fuel count s x :
  s_input s = false -> s_append s = false -> stream_ok sz am x s -> 0 <= count <= INT_MAX -> (forall n, fault n = false) ->
  wp (snd_rawmidi_write fuel nonblock sync fault mem count) (fun o s' => exists k, 0 <= k <= count /\
    stream_ok sz am (x ++ user_bytes mem 0 k) s' /\ later s s' /\ (forall n, o = Done n -> n = k \/ n < 0 /\ k = 0) /\
    (nonblock = true -> sync = false -> count < Z.of_nat fuel -> o <> Waiting)) s.
Proof.
  intros Hi Ha Hs Hc Hf. destruct sync.
  2:{ eapply wp_mono; [by apply (wp_write (sz := sz) (am := am)) |]. intros o s' (k & H1 & H2 & H3 & H4 & H5).
      exists k. split_and!; try done; [lia | lia | auto]. }
  unfold snd_rawmidi_write. apply wp_bind. eapply wp_mono; [by apply (wp_write_loop (sz := sz) (am := am) nonblock fault mem fuel count 0 0 s x) |].
  intros [o b] s' (k & H1 & H2 & H3 & H4 & _). cbn [fst] in *.
  assert (Early : wp (ret o) (fun o s' => exists k, 0 <= k <= count /\ stream_ok sz am (x ++ user_bytes mem 0 k) s' /\ later s s' /\
    (forall n, o = Done n -> n = k \/ n < 0 /\ k = 0) /\ (nonblock = true -> true = false -> count < Z.of_nat fuel -> o <> Waiting)) s').
  { apply wp_ret. exists k. split_and!; [lia | lia | done | done | | done]. intros n Hn. destruct (H4 n Hn) as [-> | (? & _ & ?)]; [left |]; lia. }
  destruct o as [result |]; [| exact Early]. destruct b; [exact Early |]. clear Early.
  eapply wp_mono; [apply (wp_sync_loop sz am (x ++ user_bytes mem 0 k) result); [by rewrite (later_input _ _ H3) | done] |].
  intros o s2 [[Hs2 L2] Ho]. exists k. split_and!; [lia | lia | done | by etrans | | done]. intros n Hn. specialize (Ho n Hn).
  destruct (H4 result eq_refl) as [-> | (? & _ & ->)].
  - rewrite Z.add_0_l in *. destruct (Z.ltb_spec 0 k); [by left | right; lia].
  - rewrite (proj2 (Z.ltb_ge 0 result)) in Ho by lia. by right.
Qed.

Lemma safe_sync_loop sz fuel : forall result, safe false sz (sync_loop fuel result).
Proof.
  induction fuel as [| fuel IH]; intros result; cbn [sync_loop]; [apply raw_safe_ret |].
  intros s (Hi & sz' & am & x & Hs & Hsz). eapply wp_lock_stream; [exact Hs |]. intros s1 Hk1 Hs1. apply wp_bind. unfold wp at 1, get. apply wp_bind.
  eapply wp_mono; [apply (wp_sync_wait sz' am x); [by rewrite (ident_input _ _ (proj1 Hk1)) | done] |]. intros w s2 [[Hs2 L2] _].
  assert (Hok : raw_ok false sz s2).
  { eapply raw_ok_calm; [exact Hi | exact Hsz | exact Hs2 |]. etrans; [by apply kept_later | done]. }
  destruct w; [by apply IH | by apply wp_ret | by apply wp_ret].
Qed.

Lemma raw_safe_sub input sz {A} (m : R A) (k : A -> option (list Z)) : safe input sz m -> safe input sz (bind m (fun a => ret (k a))).
Proof. intros Hm. apply raw_safe_bind; [done | intros; apply raw_safe_ret]. Qed.

Lemma safe_app_run input sz c : allowed input sz c -> safe input sz (app_run c).
Proof.
  destruct c as [count | fuel nonblock fault count | buf | fuel nonblock sync fault mem count | | | | alloc p | alloc p | | | | |]; cbn [allowed app_run].
  - intros ->. apply (raw_safe_sub _ _ _ (fun res => Some res.2)). apply raw_safe_bind; [by apply safe_set_same | intros _]. apply raw_safe_bind; [apply safe_trigger | intros _; apply safe_kernel_read1].
  - intros ->. apply (raw_safe_sub _ _ _ (fun res => Some res.2)). unfold snd_rawmidi_read. cbn [negb]. apply raw_safe_bind; [by apply safe_set_same | intros _].
    apply raw_safe_bind; [apply safe_trigger | intros _; apply safe_read_loop].
  - intros ->. apply (raw_safe_sub _ _ _ (fun n => Some (take (Z.to_nat n) buf))), safe_kernel_write1.
  - intros ->. apply (raw_safe_sub _ _ _ (fun o => match o with Done n => Some (user_bytes mem 0 n) | Waiting => None end)).
    apply raw_safe_bind; [apply safe_write_loop |]. intros [[result |] []]; try apply raw_safe_ret. destruct sync; [apply safe_sync_loop | apply raw_safe_ret].
  - intros ->. apply (raw_safe_sub _ _ _ (fun _ => Some [])), safe_intro. intros sz' am x s Hi Hs Hsz.
    eapply wp_mono; [by apply (wp_drop_output (sz := sz') (am := am) x) |]. intros n s' (_ & Hs' & L & _). by exists sz', am, (s_wire s').
  - intros ->. apply (raw_safe_sub _ _ _ (fun _ => Some [])), safe_intro. intros sz' am x s Hi Hs Hsz.
    eapply wp_mono; [by apply (wp_drain_output (sz := sz') (am := am) x) |]. intros o s' (Hs' & L & _). by exists sz', am, x.
  - intros ->. apply (raw_safe_sub _ _ _ (fun _ => Some [])), safe_intro. intros sz' am x s Hi Hs Hsz.
    eapply wp_mono; [by apply (wp_drain_input (sz := sz') (am := am) x) |]. intros n s' (_ & Hs' & L & _). by exists sz', am, (s_fed s').
  - intros [-> Hp]. apply (raw_safe_sub _ _ _ (fun _ => Some [])). intros s (Hi & sz' & am & x & Hs & Hsz). rewrite Hsz in Hs by done.
    eapply wp_mono; [by apply (wp_output_params (sz := sz) (am := am) alloc p x) |]. intros o s' (E & _ & am' & Hs' & _).
    split; [by rewrite (ident_input _ _ E) |]. by exists sz, am', x.
  - intros [-> Hp]. apply (raw_safe_sub _ _ _ (fun _ => Some [])), safe_intro. intros sz' am x s Hi Hs Hsz.
    eapply wp_mono; [by apply (wp_input_params (sz := sz') (am := am) alloc p x) |]. intros n s' (L & sz2 & am2 & Hs' & _). by exists sz2, am2, (s_fed s').
  - intros ->. apply (raw_safe_sub _ _ _ (fun _ => Some [])), calmly_safe, calmly_output_status.
  - intros ->. apply (raw_safe_sub _ _ _ (fun _ => Some [])), calmly_safe, calmly_input_status.
  - intros ->. apply (raw_safe_sub _ _ _ (fun _ => Some [])), calmly_safe, calmly_poll_input.
  - intros ->. apply (raw_safe_sub _ _ _ (fun _ => Some [])), calmly_safe, calmly_poll_output.
  - intros _. apply (raw_safe_sub _ _ _ (fun _ => Some [])), calmly_safe, calmly_poll_irq.
Qed.

Lemma safe_app_runs input sz cs : Forall (allowed input sz) cs -> safe input sz (app_runs cs).
Proof.
  induction 1 as [| c cs Hc _ IH]; cbn [app_runs]; [apply raw_safe_ret |].
  apply raw_safe_bind; [by apply safe_app_run | intros [y |]; [| apply raw_safe_ret]].
  apply raw_safe_bind; [done | intros; apply raw_safe_ret].
Qed.
End Calls.
