(* ===== verification/RawMidiRun.v ===== *)
(** * RawMidiRun: histories of a raw MIDI stream

    The theorems about whole histories of calls, a concrete driver to run them on, and the
    calls that go wrong: those that never return and those that corrupt the stream. *)

From S2P Require Import Prelude ByteRing RawMidi RawMidiRing RawMidiSpec RawMidiCalls.
Open Scope Z_scope.
Open Scope state_scope.

(** The calls that carry bytes; those that discard what is in the ring are left out.  The
    application's memory can be accessed, as on OS/2, where [copy_to_user] and [copy_from_user]
    never fail; the fuel of a loop is enough for the bytes that are asked for. *)
Definition carries (input : bool) (sz : Z) (c : app_call) : Prop :=
  match c with
  | KernelRead count => input = true /\ 0 <= count
  | ReadCall _ _ fault count => input = true /\ 0 <= count <= INT_MAX /\ forall n, fault n = false
  | KernelWrite _ => input = false
  | WriteCall fuel nonblock sync fault _ count =>
      input = false /\ 0 <= count <= INT_MAX /\ count < Z.of_nat fuel /\ forall n, fault n = false
  | DrainOutput | OutputStatus | PollOutput => input = false
  | OutputParams _ p => input = false /\ (p_buffer_size p = sz \/ params_wrong p = true)
  | InputStatus | PollInput => input = true
  | Interrupt => True
  | DropOutput | DrainInput | InputParams _ _ => False
  end.

(** The calls that return: only a write that may block, or that is to be synchronous, can wait
    for ever. *)
Definition returns (c : app_call) : Prop :=
  match c with WriteCall _ nonblock sync _ _ _ => nonblock = true /\ sync = false | _ => True end.

(** A driver that is triggered takes what it can get, and it is busy meanwhile. *)
Definition eager : RawOps := {|
  op_open _ := 0;
  op_close _ := [Empty];
  op_trigger up s := if up && negb (s_input s) then [Transmit 1; Take 3 2] else [];
  op_drain := Some (fun s => if s_input s then [] else [Empty]) |}.

(** A stream as [snd_rawmidi_kernel_open] sets it up. *)
Definition opened (input : bool) (irqs : list (list drv_call)) : sub :=
  Sub input 0 true false true 1 0 (Some (snd_rawmidi_init input (Some (replicate (Z.to_nat PAGE_SIZE) 0))).2) irqs [] [] 0 0.

(** The same with a ring of [n] bytes. *)
Definition small (n : Z) (s : sub) : sub :=
  s <| s_runtime := option_map (fun r => r <| r_buffer := Some (replicate (Z.to_nat n) 0) |> <| buffer_size := n |>
                                           <| avail := if s_input s then 0 else n |>) (s_runtime s) |>.

(** ** Histories *)

Lemma replicate_zlen n : 0 <= n -> zlen (replicate (Z.to_nat n) 0) = n.
Proof. intros. unfold zlen. rewrite length_replicate. lia. Qed.

Lemma init_ok input buf irqs : zlen buf = PAGE_SIZE -> Forall (Forall (right input)) irqs ->
  stream_ok PAGE_SIZE 1 [] (Sub input 0 true false true 1 0 (Some (snd_rawmidi_init input (Some buf)).2) irqs [] [] 0 0).
Proof.
  intros Hb Hi. split; [exact Hi |]. exists []. split; [| by destruct input]. eexists. split; [reflexivity |].
  unfold PAGE_SIZE in *. destruct input; (split; cbn; try done; try lia); exists buf; done.
Qed.

Lemma opened_ok input irqs : Forall (Forall (right input)) irqs -> stream_ok PAGE_SIZE 1 [] (opened input irqs).
Proof. intros Hi. apply init_ok; [by apply replicate_zlen | done]. Qed.

Section Run.
Context {sz : Z} `{QuietRaw}.

Lemma later_append s s' : later s s' -> s_append s' = s_append s.
Proof. intros L. pose proof (la_ident _ _ L) as E. unfold ident in E. congruence. Qed.

(** The stream has moved by [y]; nothing else of it has changed. *)
Definition carried (x y : list Z) (s s' : sub) : Prop := (exists am', stream_ok sz am' (x ++ y) s') /\ ident s' = ident s.

Lemma calm_carried am x s s' : stream_ok sz am x s' -> ident s' = ident s -> carried x [] s s'.
Proof. intros Hs E. split; [| done]. exists am. by rewrite app_nil_r. Qed.

Lemma wp_carries am x s c : stream_ok sz am x s -> s_append s = false -> carries (s_input s) sz c ->
  wp (app_run c) (fun oy s' => (exists y, carried x y s s' /\ forall z, oy = Some z -> y = z) /\ (returns c -> oy <> None)) s.
Proof.
  intros Hs Ha Hc.
  assert (Got : forall y s', carried x y s s' ->
    (exists y', carried x y' s s' /\ forall z, Some y = Some z -> y' = z) /\ (returns c -> Some y <> None)).
  { intros y s' C. split; [exists y; split; [done | by intros z [= ->]] | done]. }
  destruct c as [count | fuel nonblock fault count | buf | fuel nonblock sync fault mem count | | | | alloc p | alloc p | | | | |];
    cbn [carries app_run] in *; try done.
  - destruct Hc as [Hi Hcount]. apply wp_bind. eapply wp_mono; [by apply (wp_kernel_read (sz := sz) (am := am) count s x) |].
    intros res s' (Hs' & L & _). apply wp_ret, Got. split; [by exists am | apply L].
  - destruct Hc as (Hi & Hcount & Hf). apply wp_bind. eapply wp_mono; [by apply (wp_read (sz := sz) (am := am) nonblock fault fuel count s x) |].
    intros res s' (Hs' & L & _). apply wp_ret, Got. split; [by exists am | apply L].
  - apply wp_bind. eapply wp_mono; [by apply (wp_kernel_write1 (sz := sz) (am := am) true (fun _ => false) buf s x) |].
    intros n s' (k & Hk & Hs' & L & Hn & _). apply wp_ret, Got. split; [exists am | apply L].
    destruct Hn as [-> | [Hn ->]]; [done |]. by replace (Z.to_nat n) with O by lia.
  - destruct Hc as (Hi & Hcount & Hfuel & Hf). apply wp_bind.
    eapply wp_mono; [by apply (wp_write_any sz am nonblock sync fault mem fuel count s x) |].
    intros o s' (k & Hk & Hs' & L & Hn & Hw). apply wp_ret. split.
    + exists (user_bytes mem 0 k). split; [split; [by exists am | apply L] |]. destruct o as [n |]; [| done]. intros z [= <-].
      destruct (Hn n eq_refl) as [-> | [Hneg ->]]; [done |]. unfold user_bytes. by replace (Z.to_nat n) with O by lia.
    + intros [-> ->]. specialize (Hw eq_refl eq_refl Hfuel). by destruct o.
  - apply wp_bind. eapply wp_mono; [by apply (wp_drain_output (sz := sz) (am := am) x) |]. intros o s' (Hs' & L & _).
    apply wp_ret, Got. eapply calm_carried; [done | apply L].
  - destruct Hc as [Hi Hp]. apply wp_bind. eapply wp_mono; [by apply (wp_output_params (sz := sz) (am := am) alloc p x) |].
    intros o s' (E & _ & am' & Hs' & _). apply wp_ret, Got. by eapply calm_carried.
  - apply wp_bind. eapply wp_mono; [by apply (calmly_output_status sz am x) |]. intros n s' [Hs' L]. apply wp_ret, Got. eapply calm_carried; [done | apply L].
  - apply wp_bind. eapply wp_mono; [by apply (calmly_input_status sz am x) |]. intros n s' [Hs' L]. apply wp_ret, Got. eapply calm_carried; [done | apply L].
  - apply wp_bind. eapply wp_mono; [by apply (calmly_poll_input sz am x) |]. intros n s' [Hs' L]. apply wp_ret, Got. eapply calm_carried; [done | apply L].
  - apply wp_bind. eapply wp_mono; [by apply (calmly_poll_output sz am x) |]. intros n s' [Hs' L]. apply wp_ret, Got. eapply calm_carried; [done | apply L].
  - apply wp_bind. eapply wp_mono; [by apply (calmly_poll_irq sz am x) |]. intros n s' [Hs' L]. apply wp_ret, Got. eapply calm_carried; [done | apply L].
Qed.

(** If a write is left waiting, [y] are the bytes that were carried up to then. *)
Lemma wp_carry_runs cs : forall am x s, stream_ok sz am x s -> s_append s = false -> Forall (carries (s_input s) sz) cs ->
  wp (app_runs cs) (fun oys s' => (exists y, carried x y s s' /\ forall ys, oys = Some ys -> y = concat ys) /\
    (Forall returns cs -> oys <> None)) s.
Proof.
  induction cs as [| c cs IH]; intros am x s Hs Ha Hcs; cbn [app_runs].
  { apply wp_ret. split; [exists []; split; [by eapply calm_carried | by intros ys [= <-]] | done]. }
  apply Forall_cons in Hcs as [Hc Hcs]. apply wp_bind. eapply wp_mono; [by eapply wp_carries |].
  intros oy s1 [(y & [[am1 Hs1] E1] & Ey) Hr1]. destruct oy as [y' |].
  2:{ apply wp_ret. split; [exists y; split; [split; [by exists am1 | done] | done] |]. intros [Hr _]%Forall_cons. by destruct (Hr1 Hr). }
  apply wp_bind. eapply wp_mono; [apply (IH am1 (x ++ y)); [done | unfold ident in E1; congruence | by rewrite (ident_input _ _ E1)] |].
  intros oys s2 [(z & [[am2 Hs2] E2] & Ez) Hr2]. apply wp_ret. split.
  - exists (y ++ z). split; [split; [exists am2; by rewrite app_assoc | congruence] |]. intros ys Hys.
    destruct oys as [zs |]; [| done]. injection Hys as <-. by rewrite (Ey y' eq_refl), (Ez zs eq_refl).
  - intros [_ Hr]%Forall_cons. specialize (Hr2 Hr). by destruct oys.
Qed.

(** C11: Whatever an application reads and writes, blocking or not, and whatever the driver does when it is triggered
    and in interrupts, no byte is lost, added, repeated or reordered: the bytes that were read of an input, followed
    by those in its ring, are the bytes that were received into the ring; those that were written to an output are
    the bytes that were sent, followed by those in its ring.  A history ends with a write that waits for ever, if
    there is one, and then this holds for the bytes [y] that were taken up to then; non-blocking writes all return.
    Left out are the calls that discard what is in the ring (dropping an output, draining an input, new parameters
    of an input), appending to an output, and an application's memory that cannot be accessed, which does not
    happen on OS/2. *)
Theorem raw_stream_carries am s cs :
  stream_ok sz am [] s -> s_append s = false -> Forall (carries (s_input s) sz) cs ->
  wp (app_runs cs) (fun oys s' =>
    (exists y, (if s_input s then s_fed s' = y ++ ring_of s' else y = s_wire s' ++ ring_of s') /\
       forall ys, oys = Some ys -> y = concat ys) /\
    (Forall returns cs -> oys <> None) /\ zlen (ring_of s') <= sz) s.
Proof.
  intros Hs Ha Hcs. eapply wp_mono; [by apply (wp_carry_runs cs am []) |]. intros oys s' [(y & [[am' Hs'] E] & Ey) Hr]. cbn [app] in *.
  destruct (so_ring _ _ _ _ Hs') as (q & Hl & Hf). rewrite (live_ring (s_input s') sz am' q s' eq_refl Hl).
  split; [exists y; split; [unfold flows in Hf; by rewrite (ident_input _ _ E) in Hf | done] | split; [done |]].
  destruct Hl as (r & _ & Ho). destruct (ring_queued _ _ Ho). lia.
Qed.

(** C12: Every call of an application, whatever it asks for and whether or not its memory can be accessed, and every interrupt
    leave the ring well-formed: pointers inside the buffer, the count between them right, the lock free.  No call
    reads or writes outside the buffer or takes a lock twice.  One call is left out, [snd_rawmidi_output_params] with
    another size, after which the pointers are those of the old ring ([output_params_sends_garbage]); and a driver
    that looks at the bytes to send asks for no more than the smallest ring holds, since the code does not check
    this ([peek_overreads]). *)
Theorem calls_keep_ring input s cs :
  raw_ok input sz s -> Forall (allowed input sz) cs -> wp (app_runs cs) (fun _ => raw_ok input sz) s.
Proof. intros Hs Hcs. by apply safe_app_runs. Qed.

(** When draining an output is done, every byte that was written has been sent, and the ring is empty. *)
Theorem drain_sends_all am x s :
  s_input s = false -> stream_ok sz am x s ->
  wp snd_rawmidi_drain_output (fun o s' => o = Waiting \/ o = Done 0 /\ s_wire s' = x /\ ring_of s' = []) s.
Proof. intros Hi Hs. eapply wp_mono; [by apply (wp_drain_output (sz := sz) (am := am) x) |]. by intros o s' (_ & _ & Ho). Qed.
End Run.

(** ** Concrete streams *)

#[local] Existing Instance eager.

Lemma eager_quiet : @QuietRaw eager.
Proof.
  split.
  - repeat constructor.
  - intros up s. cbn. destruct up, (s_input s) eqn:E; cbn; repeat constructor; lia.
  - intros f s [= <-]. destruct (s_input s); repeat constructor.
Qed.

Definition no_fault (n : Z) : bool := false.

(** What an application does with an output, and the wire after it. *)
Definition sample_writes : list app_call :=
  [KernelWrite [1; 2; 3; 4; 5]; Interrupt; WriteCall 10 true false no_fault (fun n => 10 + n) 4; OutputStatus; DrainOutput].

Definition sample_irqs : list (list drv_call) := [[Take 3 1; Empty]; [Transmit 32]].

Lemma sample_carries : Forall (carries false PAGE_SIZE) sample_writes.
Proof. repeat constructor; unfold INT_MAX; cbn; lia. Qed.

Lemma sample_right : Forall (Forall (right false)) sample_irqs.
Proof. repeat constructor; lia. Qed.

Lemma raw_stream_carries_witness :
  wp (app_runs sample_writes) (fun oys s' => oys = Some [[1; 2; 3; 4; 5]; []; [10; 11; 12; 13]; []; []] /\ s_wire s' = [1; 2; 3; 4; 5; 10; 11; 12; 13]) (opened false sample_irqs) /\
  wp (app_runs sample_writes) (fun oys s' =>
    (exists y, y = s_wire s' ++ ring_of s' /\ forall ys, oys = Some ys -> y = concat ys) /\
    (Forall returns sample_writes -> oys <> None) /\ zlen (ring_of s') <= PAGE_SIZE) (opened false sample_irqs).
Proof.
  split; [by vm_compute |].
  apply (@raw_stream_carries PAGE_SIZE eager eager_quiet 1 (opened false sample_irqs) sample_writes).
  - apply opened_ok, sample_right.
  - done.
  - apply sample_carries.
Defined.

Lemma calls_keep_ring_witness :
  wp (app_runs [KernelRead 3; Interrupt; InputParams (Some (replicate 64 0)) (Params 64 8 false); ReadCall 5 false (fun _ => true) 2])
    (fun _ => raw_ok true PAGE_SIZE) (opened true [[Receive [1; 2]]; [Receive [3]]]).
Proof.
  apply (@calls_keep_ring PAGE_SIZE eager eager_quiet true).
  - split; [done |]. exists PAGE_SIZE, 1, []. split; [| done]. apply opened_ok. repeat constructor.
  - repeat constructor. by intros b [= <-].
Defined.

Lemma drain_sends_all_witness :
  wp snd_rawmidi_drain_output (fun o s' => o = Waiting \/ o = Done 0 /\ s_wire s' = [] /\ ring_of s' = []) (opened false sample_irqs).
Proof.
  apply (@drain_sends_all PAGE_SIZE eager eager_quiet 1 []); [done | apply opened_ok, sample_right].
Defined.

(** ** What goes wrong *)

(** With [O_SYNC] a write does not return, even if nothing is left to send. *)
Lemma sync_never_returns fuel nonblock fault mem :
  snd_rawmidi_write fuel nonblock true fault mem 0 (small 32 (opened false [])) = Some (Waiting, small 32 (opened false [])).
Proof.
  assert (Hloop : forall fuel result, sync_loop fuel result (small 32 (opened false [])) = Some (Waiting, small 32 (opened false []))).
  { clear. intros fuel. induction fuel as [| fuel IH]; intros result; [done |]. rewrite <- (IH result). reflexivity. }
  destruct fuel as [| fuel]; [done |]. rewrite <- (Hloop (S fuel) 0). reflexivity.
Qed.

(** One byte is queued, at the end of the buffer. *)
Definition one_queued : sub :=
  match (snd_rawmidi_receive (replicate 31 0);;; snd_rawmidi_kernel_read 31;;; snd_rawmidi_receive [144]) (small 32 (opened true [])) with
  | Some (_, s) => s
  | None => opened true []
  end.

(** If the memory of the reader cannot be written, the error is taken for a count, and the read
    does not return.  (On OS/2 [copy_to_user] reports no faults.) *)
Lemma read_fault_never_returns fuel nonblock : forall count pos result, 0 < count < 2147483648 + 14 ->
  read_loop fuel nonblock (fun _ => true) count pos result [] one_queued = Some ((Waiting, []), one_queued).
Proof.
  set (r := match s_runtime one_queued with Some r => r | None => (snd_rawmidi_init true None).2 end).
  assert (Er : runtime_of one_queued = Some (r, one_queued)) by (by vm_compute).
  assert (Ew : wait_for_ring nonblock one_queued = Some (Ready, one_queued)) by (by destruct nonblock; vm_compute).
  induction fuel as [| fuel IH]; intros count pos result Hc; [done |]. cbn [read_loop]. rewrite (proj2 (Z.ltb_lt 0 count)) by lia.
  unfold bind at 1. rewrite Ew. unfold bind at 1. destruct (decide (count < 2147483648)) as [Hlt | Hge].
  - assert (E1 : snd_rawmidi_kernel_read1 false (fun _ => true) (s32 count) one_queued = Some ((-14, []), one_queued)).
    { rewrite (s32_small count) by (unfold is_s32; lia). unfold snd_rawmidi_kernel_read1. cbn [read1_loop].
      unfold bind at 1. rewrite Er, (proj2 (Z.ltb_lt 0 count)) by lia.
      assert (Ek : clip (to_end_appl r) count = 1) by (rewrite clip_min; change (to_end_appl r) with 1; lia).
      rewrite Ek. clear. by vm_compute. }
    rewrite E1. cbn [fst snd app]. rewrite u32_small by (unfold is_u32; lia). apply IH. lia.
  - assert (E1 : snd_rawmidi_kernel_read1 false (fun _ => true) (s32 count) one_queued = Some ((0, []), one_queued)).
    { assert (Es : s32 count < 0) by (clear -Hge Hc; word_lia). unfold snd_rawmidi_kernel_read1. cbn [read1_loop].
      unfold bind at 1. rewrite Er, (proj2 (Z.ltb_ge 0 (s32 count))) by lia. by vm_compute. }
    rewrite E1. cbn [fst snd app]. rewrite Z.sub_0_r, u32_small by (unfold is_u32; lia). apply IH. lia.
Qed.

(** A ring of another size for an output: what was never written is sent. *)
Lemma output_params_sends_garbage :
  wp (app_runs [OutputParams (Some (replicate 64 7)) (Params 64 1 false); Interrupt]) (fun oys s' => oys = Some [[]; []] /\ s_wire s' = [7; 7; 7])
    (small 32 (opened false []) <| s_irqs := [[Take 3 3]] |>).
Proof. by vm_compute. Qed.

(** Ten bytes are lost; only the last two are counted. *)
Lemma burst_loss_forgotten :
  wp (snd_rawmidi_receive (replicate 40 0);;; snd_rawmidi_receive [1; 2];;; snd_rawmidi_input_status) (fun st _ => st = (32, 2)) (small 32 (opened true [])).
Proof. by vm_compute. Qed.

(** Four bytes are queued, two of them at the end of the buffer. *)
Definition at_end : sub :=
  (opened false []) <| s_runtime := Some (Runtime true false (Some (map Z.of_nat (seq 0 32))) 32 2 30 1 28 0 false false) |>.

(** A peek that crosses the end of the buffer copies all that was asked for, but says only how
    much was before the end. *)
Lemma peek_stops_at_end :
  wp (snd_rawmidi_transmit_peek 4) (fun res _ => res = (2, [30; 31; 0; 1])) at_end /\ ring_of at_end = [30; 31; 0; 1].
Proof. split; by vm_compute. Qed.

(** Asking for more bytes than the ring has reads behind it. *)
Lemma peek_overreads : snd_rawmidi_transmit_peek 80 at_end = None.
Proof. by vm_compute. Qed.
