(* ===== verification/RawMidiOpen.v ===== *)
(** * RawMidiOpen: opening and closing raw MIDI devices

    [snd_rawmidi_kernel_open] and [snd_rawmidi_kernel_release] of alsa/core/rawmidi.c: a
    device has a list of substreams for each direction, an open file one of either or both;
    outputs may be shared by files that append. *)

From S2P Require Import Prelude ByteRing RawMidi RawMidiRing RawMidiSpec RawMidiCalls RawMidiRun.
Open Scope Z_scope.
Open Scope state_scope.

(** ** Data *)

Definition LFLG_OUTPUT : Z := 1.
Definition LFLG_INPUT : Z := 2.
Definition LFLG_APPEND : Z := 4.
Definition INFO_OUTPUT : Z := 1.
Definition INFO_INPUT : Z := 2.

(** [flags & bit] *)
Definition has (flags bit : Z) : bool := negb (Z.land flags bit =? 0).

(** [snd_rawmidi_str_t]; a substream is found by its place in the list, which is its number. *)
Record str := Str { substream_opened : Z; substreams : list sub }.
#[export] Instance settable_str : Settable str := fun x => Str (substream_opened x) (substreams x).
Definition substream_count (x : str) : Z := Z.of_nat (length (substreams x)).

(** [snd_rawmidi_t]: its flags, streams and mutex, and the use count of its module. *)
Record rawdev := Rawdev { info_flags : Z; d_output : str; d_input : str; open_mutex : bool; d_users : Z }.
#[export] Instance settable_rawdev : Settable rawdev := fun d =>
  Rawdev (info_flags d) (d_output d) (d_input d) (open_mutex d) (d_users d).

(** [snd_rawmidi_file_t]: the places of its substreams. *)
Record rfile := Rfile { f_input : option nat; f_output : option nat }.

Abbreviation D := (ST rawdev).

Definition stream_of (input : bool) (d : rawdev) : str := if input then d_input d else d_output d.
Definition set_stream (input : bool) (f : str -> str) (d : rawdev) : rawdev :=
  if input then d <| d_input := f (d_input d) |> else d <| d_output := f (d_output d) |>.

(** A function of a substream. *)
Definition on_sub {A} (input : bool) (n : nat) (m : R A) : D A := fun d =>
  match substreams (stream_of input d) !! n with
  | None => None
  | Some s =>
      match m s with
      | None => None
      | Some (a, s) => Some (a, set_stream input (fun x => x <| substreams := <[n := s]> (substreams x) |>) d)
      end
  end.

Definition count_opened (input : bool) (k : Z) : D unit :=
  update (set_stream input (fun x => x <| substream_opened := u32 (substream_opened x + k) |>)).

Definition down : D unit := d <- get;; if open_mutex d then crash else update (fun d => d <| open_mutex := true |>).
Definition up : D unit := update (fun d => d <| open_mutex := false |>).
Definition try_inc_mod_count : D unit := update (fun d => d <| d_users := d_users d + 1 |>).
Definition dec_mod_count : D unit := update (fun d => d <| d_users := d_users d - 1 |>).

(** [snd_rawmidi_alloc_substreams] and [snd_rawmidi_new]. *)
Definition new_sub (input : bool) (n : nat) : sub := Sub input (Z.of_nat n) false false false 0 0 None [] [] [] 0 0.
Definition snd_rawmidi_alloc_substreams (input : bool) (count : Z) : str := Str 0 (new_sub input <$> seq 0 (Z.to_nat count)).
Definition snd_rawmidi_new (flags output_count input_count : Z) : rawdev :=
  Rawdev flags (snd_rawmidi_alloc_substreams false output_count) (snd_rawmidi_alloc_substreams true input_count) false 0.

(** ** Opening *)

(** The checks for a direction the mode asks for. *)
Definition check_stream (flag subdevice flags : Z) (x : str) : Z :=
  if negb (has flags flag) then -ENXIO
  else if (0 <=? subdevice) && (substream_count x <=? subdevice) then -ENODEV
  else if substream_count x <=? substream_opened x then -EAGAIN
  else 0.

(** The walk over the list: the first that is not [busy] and is the one asked for. *)
Fixpoint find_sub (busy : sub -> bool) (subdevice : Z) (n : nat) (l : list sub) : option nat :=
  match l with
  | [] => None
  | s :: l => if negb (busy s) && ((subdevice <? 0) || (subdevice =? s_number s)) then Some n else find_sub busy subdevice (S n) l
  end.

Definition input_busy (mode : Z) (s : sub) : bool := has mode LFLG_INPUT && s_opened s.
Definition output_busy (mode : Z) (s : sub) : bool :=
  has mode LFLG_OUTPUT && s_opened s && negb (has mode LFLG_APPEND && s_append s).

(** Memory: whether [snd_kcalloc] finds it for the runtime, and what [kmalloc] finds for the buffer. *)
Definition memory : Type := bool * option (list Z).

Section Open.
Context `{RawOps}.

(** [runtime] gone: freed, or a pointer to what was freed. *)
Definition no_runtime : R unit := update (fun s => s <| s_runtime := None |>).

(** The runtime of a substream and the driver's [open]; the error. *)
Definition open_sub (mem : memory) : R Z :=
  if negb mem.1 then ret (-ENOMEM)
  else
    s <- get;;
    let '(err, r) := snd_rawmidi_init (s_input s) mem.2 in
    update (fun s => s <| s_runtime := Some r |>);;;
    if err <? 0 then no_runtime;;; ret (-ENOMEM)
    else
      s <- get;;
      let err := op_open s in
      if err <? 0 then no_runtime;;; ret err else ret err.

Definition open_input (mem : memory) (n : nat) : D Z :=
  err <- on_sub true n (open_sub mem);;
  if err <? 0 then ret err
  else on_sub true n (update (fun s => s <| s_opened := true |>));;; count_opened true 1;;; ret 0.

(** From [__skip_output] on. *)
Definition share_output (mode : Z) (n : nat) : D Z :=
  on_sub false n (update (fun s =>
    s <| s_opened := true |> <| s_append := if has mode LFLG_APPEND then true else s_append s |>
      <| s_sensing := if s_use s =? 0 then true else s_sensing s |> <| s_use := s_use s + 1 |>));;;
  count_opened false 1;;;
  ret 0.

(** [undo]: the input that was opened before, to be closed if the driver refuses. *)
Definition open_output (mode : Z) (mem : memory) (undo : option nat) (n : nat) : D Z :=
  s <- on_sub false n get;;
  if s_opened s then share_output mode n
  else
    err <- on_sub false n (open_sub mem);;
    if err <? 0 then
      match undo with
      | Some i => when mem.1 (on_sub true i close);;; on_sub true i no_runtime;;; ret err
      | None => ret err
      end
    else share_output mode n.

Definition snd_rawmidi_kernel_open (subdevice mode : Z) (mem_in mem_out : memory) : D (Z * rfile) :=
  try_inc_mod_count;;;
  down;;;
  d <- get;;
  let want_in := has mode LFLG_INPUT in let want_out := has mode LFLG_OUTPUT in
  let fail err := dec_mod_count;;; up;;; ret (err, Rfile None None) in
  let err1 := if want_in then check_stream INFO_INPUT subdevice (info_flags d) (d_input d) else 0 in
  let err2 := if want_out then check_stream INFO_OUTPUT subdevice (info_flags d) (d_output d) else 0 in
  if err1 <? 0 then fail err1
  else if err2 <? 0 then fail err2
  else
    let sinput := find_sub (input_busy mode) subdevice 0 (substreams (d_input d)) in
    let soutput := find_sub (output_busy mode) subdevice 0 (substreams (d_output d)) in
    match (if want_in then sinput else Some O), (if want_out then soutput else Some O) with
    | Some i, Some o =>
        err <- (if want_in then open_input mem_in i else ret 0);;
        if err <? 0 then fail err
        else
          err <- (if want_out then open_output mode mem_out (if want_in then Some i else None) o else ret 0);;
          if err <? 0 then fail err
          else up;;; ret (0, Rfile (if want_in then Some i else None) (if want_out then Some o else None))
    | _, _ => fail (-EAGAIN)
    end.

(** ** Closing *)

(** [kfree] of the runtime. *)
Definition release_runtime : R unit := snd_rawmidi_done_buffer;;; no_runtime.

Definition release_input : R unit :=
  set_runtime (fun r => r <| r_trigger := false |>);;;
  trigger false;;;
  close;;;
  release_runtime;;;
  update (fun s => s <| s_opened := false |>).

(** Whether the function goes on: not while the drain waits. *)
Definition release_output : R bool :=
  s <- get;;
  update (fun s => s <| s_use := s_use s - 1 |>);;;
  if negb (s_use s - 1 =? 0) then ret true
  else
    when (s_sensing s) (snd_rawmidi_kernel_write [254];;; ret tt);;;
    o <- snd_rawmidi_drain_output;;
    match o with
    | Waiting => ret false
    | Done _ => close;;; release_runtime;;; update (fun s => s <| s_opened := false |> <| s_append := false |>);;; ret true
    end.

Definition snd_rawmidi_kernel_release (f : rfile) : D outcome :=
  match f_input f, f_output f with
  | None, None => ret (Done (-ENXIO))
  | i, o =>
      down;;;
      match i with Some n => on_sub true n release_input;;; count_opened true (-1) | None => ret tt end;;;
      go <- match o with
            | Some n => go <- on_sub false n release_output;; when go (count_opened false (-1));;; ret go
            | None => ret true
            end;;
      if go : bool then up;;; dec_mod_count;;; ret (Done 0) else ret Waiting
  end.
End Open.

(** ** What is asked of a device *)

(** [SNDRV_CTL_IOCTL_RAWMIDI_NEXT_DEVICE]: [registered] says which devices of the card there are. *)
Definition RAWMIDI_DEVICES : Z := 4.

Fixpoint next_device (fuel : nat) (registered : Z -> bool) (device : Z) : Z :=
  match fuel with
  | O => device
  | S fuel => if device <? RAWMIDI_DEVICES then if registered device then device else next_device fuel registered (device + 1) else device
  end.

Definition rawmidi_next_device (registered : Z -> bool) (device : Z) : Z :=
  let device := next_device (Z.to_nat RAWMIDI_DEVICES) registered (if device <? 0 then 0 else device + 1) in
  if device =? RAWMIDI_DEVICES then -1 else device.

(** [snd_rawmidi_info_select]: the result and the place of the substream; no device is a crash. *)
Definition snd_rawmidi_info_select (registered : Z -> option rawdev) (device stream subdevice : Z) : option (Z * option nat) :=
  if RAWMIDI_DEVICES <=? device then Some (-ENXIO, None)
  else
    match registered device with
    | None => if (stream <? 0) || (1 <? stream) then Some (-EINVAL, None) else None
    | Some d =>
        if (stream <? 0) || (1 <? stream) then Some (-EINVAL, None)
        else
          let x := stream_of (stream =? 1) d in
          if substream_count x =? 0 then Some (-ENOENT, None)
          else if substream_count x <=? subdevice then Some (-ENXIO, None)
          else match find_sub (fun _ => false) subdevice 0 (substreams x) with
               | Some n => Some (0, Some n)
               | None => Some (-ENXIO, None)
               end
    end.

(** ** Devices in order *)

(** How often a substream is open. *)
Definition opens (s : sub) : Z := if s_opened s then (if s_input s then 1 else s_use s) else 0.
Definition total_opens (l : list sub) : Z := foldr (fun s t => opens s + t) 0 l.

(** A substream is open with its ring in order, or closed. *)
Record sub_ok (input : bool) (n : nat) (s : sub) : Prop := {
  su_input : s_input s = input;
  su_number : s_number s = Z.of_nat n;
  su_irqs : Forall (Forall (right input)) (s_irqs s);
  su_state : if s_opened s then (exists sz am x, stream_ok sz am x s) /\ (if input then s_append s = false /\ s_use s = 0 else 1 <= s_use s)
             else s_runtime s = None /\ s_append s = false /\ s_use s = 0 }.

Record str_ok (input : bool) (x : str) : Prop := {
  st_subs n s : substreams x !! n = Some s -> sub_ok input n s;
  st_opened : substream_opened x = u32 (total_opens (substreams x)) }.

Record dev_ok (d : rawdev) : Prop := {
  dv_output : str_ok false (d_output d);
  dv_input : str_ok true (d_input d);
  dv_mutex : open_mutex d = false }.

(** The file has its substreams open. *)
Definition holds_sub (input : bool) (d : rawdev) (n : nat) : Prop :=
  exists s, substreams (stream_of input d) !! n = Some s /\ s_opened s = true.
Definition file_ok (f : rfile) (d : rawdev) : Prop :=
  (forall n, f_input f = Some n -> holds_sub true d n) /\ (forall n, f_output f = Some n -> holds_sub false d n).

Lemma total_insert l n s s' : l !! n = Some s -> total_opens (<[n := s']> l) = total_opens l - opens s + opens s'.
Proof.
  revert n. induction l as [| x l IH]; intros [| n]; cbn; try done.
  - intros [= ->]. lia.
  - intros Hn. change (foldr _ 0 (<[n:=s']> l)) with (total_opens (<[n := s']> l)). rewrite (IH n Hn). unfold total_opens. lia.
Qed.

Lemma new_total input n : forall j, total_opens (new_sub input <$> seq j n) = 0.
Proof. induction n as [| n IH]; intros j; cbn; [done |]. apply (IH (S j)). Qed.

Lemma new_str_ok input count : str_ok input (snd_rawmidi_alloc_substreams input count).
Proof.
  split; cbn [substreams substream_opened snd_rawmidi_alloc_substreams]; [| by rewrite new_total].
  intros n s. rewrite list_lookup_fmap. destruct (seq 0 _ !! n) eqn:E; [| done]. apply lookup_seq in E as [-> _]. intros [= <-].
  by split.
Qed.

Lemma new_dev_ok flags outputs inputs : dev_ok (snd_rawmidi_new flags outputs inputs).
Proof. split; [apply new_str_ok.. | done]. Qed.

(** ** Rules *)

Definition put_sub (input : bool) (n : nat) (s : sub) (d : rawdev) : rawdev :=
  set_stream input (fun x => x <| substreams := <[n := s]> (substreams x) |>) d.

Lemma wp_on_sub {A} input n s (m : R A) d (Q : A -> rawdev -> Prop) :
  substreams (stream_of input d) !! n = Some s -> wp m (fun a s' => Q a (put_sub input n s' d)) s -> wp (on_sub input n m) Q d.
Proof. intros Hs. unfold wp, on_sub. rewrite Hs. by destruct (m s) as [[a s'] |]. Qed.

Lemma stream_put input i n s d : stream_of i (put_sub input n s d) =
  if decide (i = input) then (stream_of i d) <| substreams := <[n := s]> (substreams (stream_of i d)) |> else stream_of i d.
Proof. by destruct input, i, d as [? [] [] ? ?]. Qed.

Lemma stream_count input i k d : stream_of i (set_stream input (fun x => x <| substream_opened := u32 (substream_opened x + k) |>) d) =
  if decide (i = input) then (stream_of i d) <| substream_opened := u32 (substream_opened (stream_of i d) + k) |> else stream_of i d.
Proof. by destruct input, i, d as [? [] [] ? ?]. Qed.

Lemma dev_streams d : dev_ok d <-> (forall i, str_ok i (stream_of i d)) /\ open_mutex d = false.
Proof. split; [intros [H1 H2 H3]; split; [by intros [] | done] | intros [H1 H2]; split; [apply (H1 false) | apply (H1 true) | done]]. Qed.

Section Rules.
Context `{QuietRaw}.

(** A runtime is found and the driver agrees, or the substream stays as it is. *)
Lemma wp_open_sub mem input n s : sub_ok input n s -> s_opened s = false -> (forall b, mem.2 = Some b -> zlen b = PAGE_SIZE) ->
  wp (open_sub mem) (fun err s' => ident s' = ident s /\ s_irqs s' = s_irqs s /\ s_sensing s' = s_sensing s /\
    (err < 0 /\ s_runtime s' = None \/ 0 <= err /\ exists x, stream_ok PAGE_SIZE 1 x s')) s.
Proof.
  intros [Hi Hn Hirq Hst] Hop Hmem. rewrite Hop in Hst. destruct Hst as (Hr & Ha & Hu). unfold open_sub.
  destruct mem.1; cbn [negb]; [| apply wp_ret; split_and!; try done; by left].
  apply wp_bind. unfold wp at 1, get. rewrite Hi. cbn [snd_rawmidi_init]. destruct mem.2 as [buf |] eqn:Eb.
  2: { apply wp_bind. unfold wp at 1, update. cbn. apply wp_bind. unfold wp at 1, no_runtime, update. apply wp_ret. split_and!; try done. by left. }
  apply wp_bind. unfold wp at 1, update. cbn [Z.ltb Z.compare]. apply wp_bind. unfold wp at 1, get.
  set (s1 := s <| s_runtime := _ |>). destruct (Z.ltb_spec (op_open s1) 0) as [Hneg | Hpos].
  - apply wp_bind. unfold wp at 1, no_runtime, update. apply wp_ret. split_and!; try done. by left.
  - apply wp_ret. split_and!; try done. right. split; [done |]. exists (if input then s_fed s else s_wire s).
    split; [cbn; rewrite Hi; exact Hirq |]. exists []. split.
    + eexists. split; [reflexivity |]. specialize (Hmem buf eq_refl). unfold PAGE_SIZE in *. change (s_input s1) with (s_input s). rewrite Hi.
      destruct input; (split; cbn; try done; try lia); by exists buf.
    + unfold flows. change (s_input s1) with (s_input s). rewrite Hi. destruct input; by rewrite app_nil_r.
Qed.

(** ** The streams of a device *)

Definition all_ok (d : rawdev) : Prop := forall i, str_ok i (stream_of i d).

Lemma all_put input n s s' k d : all_ok d -> substreams (stream_of input d) !! n = Some s -> sub_ok input n s' -> opens s' = opens s + k ->
  all_ok (set_stream input (fun x => x <| substream_opened := u32 (substream_opened x + k) |>) (put_sub input n s' d)).
Proof.
  intros Hd Hs Hs' Hk i. rewrite stream_count, stream_put. destruct (decide (i = input)) as [-> | N]; [| apply Hd].
  destruct (Hd input) as [H1 H2]. split; cbn [substreams substream_opened set_field].
  - intros m t Hm. cbn in Hm. destruct (decide (m = n)) as [-> | Nm].
    + rewrite list_lookup_insert_eq in Hm by (by eapply lookup_lt_Some). by injection Hm as [= <-].
    + rewrite list_lookup_insert_ne in Hm by done. by apply H1.
  - cbn. fold (total_opens (<[n := s']> (substreams (stream_of input d)))). rewrite (total_insert _ _ s s' Hs), H2, u32_add_l. f_equal. lia.
Qed.

Lemma all_put_same input n s s' d : all_ok d -> substreams (stream_of input d) !! n = Some s -> sub_ok input n s' -> opens s' = opens s -> all_ok (put_sub input n s' d).
Proof.
  intros Hd Hs Hs' Hk i. rewrite stream_put. destruct (decide (i = input)) as [-> | N]; [| apply Hd].
  destruct (Hd input) as [H1 H2]. split; cbn.
  - intros m t Hm. destruct (decide (m = n)) as [-> | Nm].
    + rewrite list_lookup_insert_eq in Hm by (by eapply lookup_lt_Some). by injection Hm as [= <-].
    + rewrite list_lookup_insert_ne in Hm by done. by apply H1.
  - fold (total_opens (<[n := s']> (substreams (stream_of input d)))). rewrite (total_insert _ _ s s' Hs), H2. f_equal. lia.
Qed.

Lemma put_lookup input n s s' d : substreams (stream_of input d) !! n = Some s -> substreams (stream_of input (put_sub input n s' d)) !! n = Some s'.
Proof. intros Hs. rewrite stream_put, decide_True by done. cbn. apply list_lookup_insert_eq. by eapply lookup_lt_Some. Qed.

Lemma put_put input n s s' d : put_sub input n s' (put_sub input n s d) = put_sub input n s' d.
Proof. destruct input, d as [? [] [] ? ?]; cbn; by rewrite list_insert_insert_eq. Qed.

(** Nothing but the streams differs. *)
Definition same_dev (d d' : rawdev) : Prop := info_flags d' = info_flags d /\ open_mutex d' = open_mutex d /\ d_users d' = d_users d.

Lemma same_put input n s d : same_dev d (put_sub input n s d).
Proof. by destruct input. Qed.

Lemma same_trans d1 d2 d3 : same_dev d1 d2 -> same_dev d2 d3 -> same_dev d1 d3.
Proof. unfold same_dev. intuition congruence. Qed.

(** After a driver has been asked to open, and has refused. *)
Lemma sub_refused input n s s' : sub_ok input n s -> s_opened s = false -> ident s' = ident s -> s_irqs s' = s_irqs s -> s_runtime s' = None ->
  sub_ok input n s' /\ opens s' = opens s.
Proof.
  intros [H1 H2 H3 H4] Ho E1 E2 E3. unfold ident in E1. injection E1 as E4 E5 E6 E7 E8. rewrite Ho in *.
  split; [split |]; rewrite ?E4, ?E5, ?E6, ?E7, ?E8, ?E2; try done; [by destruct H4 as (_ & ? & ?) |]. unfold opens. by rewrite E6, Ho.
Qed.

Lemma wp_open_input mem n s d : all_ok d -> substreams (d_input d) !! n = Some s -> s_opened s = false ->
  (forall b, mem.2 = Some b -> zlen b = PAGE_SIZE) ->
  wp (open_input mem n) (fun err d' => all_ok d' /\ same_dev d d' /\ err <= 0 /\ (err = 0 -> holds_sub true d' n)) d.
Proof.
  intros Hd Hs Hop Hmem. pose proof (st_subs _ _ (Hd true) n s Hs) as Hok. unfold open_input. apply wp_bind. eapply wp_on_sub; [exact Hs |].
  eapply wp_mono; [by apply (wp_open_sub mem true n)|]. intros err s1 (E1 & E2 & E3 & Hres).
  destruct Hres as [[Hneg Hr] | [Hpos [x Hx]]].
  - rewrite (proj2 (Z.ltb_lt err 0)) by lia. apply wp_ret. destruct (sub_refused true n s s1) as [H1 H2]; try done.
    split_and!; [by eapply all_put_same | apply same_put | lia | lia].
  - rewrite (proj2 (Z.ltb_ge err 0)) by lia. apply wp_bind. eapply wp_on_sub; [by apply (put_lookup true n s) |].
    unfold wp at 1, update. apply wp_bind. unfold wp at 1, count_opened, update. apply wp_ret. rewrite put_put.
    set (s2 := s1 <| s_opened := true |>). unfold ident in E1. injection E1 as E4 E5 E6 E7 E8. destruct Hok as [O1 O2 O3 O4].
    assert (Hok2 : sub_ok true n s2).
    { rewrite Hop in O4. split; cbn; rewrite ?E4, ?E5, ?E2, ?E7, ?E8; try done. split; [| apply O4]. exists PAGE_SIZE, 1, x. split; [apply Hx | exact (so_ring _ _ _ _ Hx)]. }
    split_and!; [| | lia |].
    + eapply (all_put true n s s2 1); [done | done | done |]. unfold opens. cbn. by rewrite Hop, E4, O1.
    + done.
    + intros _. exists s2. split; [| done]. cbn. rewrite list_lookup_insert_eq; [done |]. by eapply lookup_lt_Some.
Qed.

(** An output gets one more file; [s1] is what it has become since. *)
Lemma wp_share_output mode n s s1 d : all_ok d -> substreams (d_output d) !! n = Some s ->
  s_input s1 = false -> s_number s1 = s_number s -> s_irqs s1 = s_irqs s -> s_use s1 = s_use s -> (exists sz am x, stream_ok sz am x s1) ->
  wp (share_output mode n) (fun err d' => all_ok d' /\ same_dev d d' /\ err <= 0 /\ (err = 0 -> holds_sub false d' n)) (put_sub false n s1 d).
Proof.
  intros Hd Hs E1 E2 E3 E4 (sz & am & x & Hx). destruct (st_subs _ _ (Hd false) n s Hs) as [O1 O2 O3 O4].
  unfold share_output. apply wp_bind. eapply wp_on_sub; [by apply (put_lookup false n s) |]. unfold wp at 1, update.
  apply wp_bind. unfold wp at 1, count_opened, update. apply wp_ret. rewrite put_put. set (s2 := s1 <| s_opened := true |> <| s_append := _ |> <| s_sensing := _ |> <| s_use := _ |>).
  assert (Hu : 0 <= s_use s) by (destruct (s_opened s); [destruct O4 as [_ O4]; lia | destruct O4 as (_ & _ & ->); lia]).
  assert (Hok2 : sub_ok false n s2).
  { split; cbn; rewrite ?E1, ?E2, ?E3; try done. split; [| lia]. exists sz, am, x. split; [apply Hx | exact (so_ring _ _ _ _ Hx)]. }
  split_and!; [| | lia |].
  - eapply (all_put false n s s2 1); [done | done | done |]. unfold opens. cbn. rewrite E1, E4, O1.
    destruct (s_opened s); [lia |]. destruct O4 as (_ & _ & ->). lia.
  - done.
  - intros _. exists s2. split; [| done]. cbn. rewrite list_lookup_insert_eq; [done |]. by eapply lookup_lt_Some.
Qed.

Lemma put_self input n s d : substreams (stream_of input d) !! n = Some s -> put_sub input n s d = d.
Proof. intros Hs. destruct input, d as [? [] [] ? ?]; cbn in *; by rewrite list_insert_id. Qed.

Lemma wp_open_output mode mem n s d : all_ok d -> substreams (d_output d) !! n = Some s -> (forall b, mem.2 = Some b -> zlen b = PAGE_SIZE) ->
  wp (open_output mode mem None n) (fun err d' => all_ok d' /\ same_dev d d' /\ err <= 0 /\ (err = 0 -> holds_sub false d' n)) d.
Proof.
  intros Hd Hs Hmem. pose proof (st_subs _ _ (Hd false) n s Hs) as Hok. unfold open_output.
  apply wp_bind. eapply wp_on_sub; [exact Hs |]. unfold wp at 1, get. rewrite put_self by done.
  destruct (s_opened s) eqn:Hop.
  { destruct Hok as [O1 O2 O3 O4]. rewrite Hop in O4. rewrite <- (put_self false n s d) at 1 by done.
    apply (wp_share_output mode n s s d); try done. apply O4. }
  apply wp_bind. eapply wp_on_sub; [exact Hs |]. eapply wp_mono; [by apply (wp_open_sub mem false n)|]. intros err s1 (E1 & E2 & E3 & Hres).
  destruct Hres as [[Hneg Hr] | [Hpos [x Hx]]].
  - rewrite (proj2 (Z.ltb_lt err 0)) by lia. apply wp_ret. destruct (sub_refused false n s s1) as [H1 H2]; try done.
    split_and!; [by eapply all_put_same | apply same_put | lia | lia].
  - rewrite (proj2 (Z.ltb_ge err 0)) by lia. unfold ident in E1. injection E1 as E4 E5 E6 E7 E8. destruct Hok as [O1 _ _ _].
    apply (wp_share_output mode n s s1 d); try done; [congruence |]. by exists PAGE_SIZE, 1, x.
Qed.

Lemma find_sub_spec busy subdevice l : forall k n, find_sub busy subdevice k l = Some n ->
  exists s, l !! (n - k)%nat = Some s /\ (k <= n)%nat /\ busy s = false /\ (subdevice < 0 \/ s_number s = subdevice).
Proof.
  induction l as [| s l IH]; intros k n; cbn; [done |]. destruct (busy s) eqn:Eb; cbn [negb andb].
  - intros Hn. destruct (IH _ _ Hn) as (t & H1 & H2 & H3 & H4). exists t. replace (n - k)%nat with (S (n - S k)) by lia. split_and!; [done | lia | done | done].
  - destruct ((subdevice <? 0) || (subdevice =? s_number s)) eqn:E.
    + intros [= <-]. exists s. replace (k - k)%nat with O by lia. split_and!; [done | lia | done |]. apply orb_true_iff in E. lia.
    + intros Hn. destruct (IH _ _ Hn) as (t & H1 & H2 & H3 & H4). exists t. replace (n - k)%nat with (S (n - S k)) by lia. split_and!; [done | lia | done | done].
Qed.

Lemma wp_locked_dev {A} d (m : D A) (Q : A -> rawdev -> Prop) : open_mutex d = false ->
  wp m Q (d <| open_mutex := true |>) -> wp (down;;; m) Q d.
Proof. intros Hm HQ. apply wp_bind. unfold down. apply wp_bind. unfold wp at 1, get. rewrite Hm. exact HQ. Qed.

Definition opens_one (mode : Z) : Prop := has mode LFLG_INPUT && has mode LFLG_OUTPUT = false.

Lemma all_ok_fields d d' : all_ok d -> d_input d' = d_input d -> d_output d' = d_output d -> all_ok d'.
Proof. intros Hd E1 E2 [|]; cbn; [rewrite E1; apply (Hd true) | rewrite E2; apply (Hd false)]. Qed.

(** Both ways out of [snd_rawmidi_kernel_open]. *)
Lemma wp_open_end (err : Z) f d d0 : open_mutex d0 = false -> info_flags d = info_flags d0 -> all_ok d -> d_users d = d_users d0 + 1 -> err <= 0 ->
  (err = 0 -> file_ok f d) ->
  wp (if err <? 0 then dec_mod_count;;; up;;; ret (err, Rfile None None) else up;;; ret (0, f))
    (fun res d' => dev_ok d' /\ (res.1 = 0 /\ file_ok res.2 d' /\ d_users d' = d_users d0 + 1 \/ res.1 < 0 /\ d_users d' = d_users d0)) d.
Proof.
  intros Hm Ef Hd Hu Hle Hf. destruct (Z.ltb_spec err 0).
  - do 2 (apply wp_bind; unfold wp at 1, dec_mod_count, up, update). apply wp_ret. split; [| right; cbn; lia].
    apply dev_streams. split; [| done]. by eapply all_ok_fields.
  - apply wp_bind. unfold wp at 1, up, update. apply wp_ret. split.
    + apply dev_streams. split; [| done]. by eapply all_ok_fields.
    + left. cbn. split_and!; [done | | done]. exact (Hf ltac:(lia)).
Qed.

(** What is shown of [snd_rawmidi_kernel_open], for a result that ends in [fail] or in the file. *)
Definition open_post (d0 : rawdev) (res : Z * rfile) (d' : rawdev) : Prop :=
  dev_ok d' /\ (res.1 = 0 /\ file_ok res.2 d' /\ d_users d' = d_users d0 + 1 \/ res.1 < 0 /\ d_users d' = d_users d0).

Lemma wp_open_fail err d0 d : err < 0 -> info_flags d = info_flags d0 -> all_ok d -> d_users d = d_users d0 + 1 ->
  wp (dec_mod_count;;; up;;; ret (err, Rfile None None)) (open_post d0) d.
Proof.
  intros Hneg Ef Hd Hu. do 2 (apply wp_bind; unfold wp at 1, dec_mod_count, up, update). apply wp_ret. split; [| right; cbn; lia].
  apply dev_streams. split; [| done]. by eapply all_ok_fields.
Qed.

Lemma wp_open_done f d0 d : all_ok d -> d_users d = d_users d0 + 1 -> file_ok f d -> wp (up;;; ret (0, f)) (open_post d0) d.
Proof.
  intros Hd Hu Hf. apply wp_bind. unfold wp at 1, up, update. apply wp_ret. split; [| left; split_and!; [done | exact Hf | done]].
  apply dev_streams. split; [| done]. by eapply all_ok_fields.
Qed.

Lemma file_one input n d : holds_sub input d n -> file_ok (Rfile (if input then Some n else None) (if input then None else Some n)) d.
Proof. intros Hh. split; intros m; destruct input; cbn; try done; by intros [= <-]. Qed.

Lemma kernel_open_spec d subdevice mode mem_in mem_out :
  dev_ok d -> opens_one mode -> (forall b, mem_in.2 = Some b \/ mem_out.2 = Some b -> zlen b = PAGE_SIZE) ->
  wp (snd_rawmidi_kernel_open subdevice mode mem_in mem_out) (open_post d) d.
Proof.
  intros Hok Hone Hmem. apply dev_streams in Hok as [Hd Hm]. unfold snd_rawmidi_kernel_open.
  apply wp_bind. unfold wp at 1, try_inc_mod_count, update. apply wp_locked_dev; [done |].
  set (d1 := d <| d_users := d_users d + 1 |> <| open_mutex := true |>). assert (Hd1 : all_ok d1) by (by apply (all_ok_fields d)).
  apply wp_bind. unfold wp at 1, get. cbv zeta.
  destruct (Z.ltb_spec (if has mode LFLG_INPUT then check_stream INFO_INPUT subdevice (info_flags d1) (d_input d1) else 0) 0); [by apply wp_open_fail |].
  destruct (Z.ltb_spec (if has mode LFLG_OUTPUT then check_stream INFO_OUTPUT subdevice (info_flags d1) (d_output d1) else 0) 0); [by apply wp_open_fail |].
  unfold opens_one in Hone. destruct (has mode LFLG_INPUT) eqn:Ein, (has mode LFLG_OUTPUT) eqn:Eout; try done.
  - destruct (find_sub _ _ 0 (substreams (d_input d1))) as [n |] eqn:Ef; [| by apply wp_open_fail].
    apply find_sub_spec in Ef as (s & Hs & _ & Hb & _). rewrite Nat.sub_0_r in Hs. unfold input_busy in Hb. rewrite Ein in Hb.
    apply wp_bind. eapply wp_mono; [apply (wp_open_input mem_in n s d1); [done | done | done | auto] |].
    intros err d2 (Hd2 & (E1 & E2 & E3) & Hle & Hh). destruct (Z.ltb_spec err 0); [by apply wp_open_fail |].
    apply wp_bind, wp_ret. cbn [Z.ltb Z.compare]. apply wp_open_done; [done | done |]. apply (file_one true), Hh. lia.
  - destruct (find_sub _ _ 0 (substreams (d_output d1))) as [n |] eqn:Ef; [| by apply wp_open_fail].
    apply find_sub_spec in Ef as (s & Hs & _ & _). rewrite Nat.sub_0_r in Hs.
    apply wp_bind, wp_ret. cbn [Z.ltb Z.compare]. apply wp_bind. eapply wp_mono; [apply (wp_open_output mode mem_out n s d1); [done | done | auto] |].
    intros err d2 (Hd2 & (E1 & E2 & E3) & Hle & Hh). destruct (Z.ltb_spec err 0); [by apply wp_open_fail |].
    apply wp_open_done; [done | done |]. apply (file_one false), Hh. lia.
  - apply wp_bind, wp_ret. cbn [Z.ltb Z.compare]. apply wp_bind, wp_ret. cbn [Z.ltb Z.compare]. by apply wp_open_done.
Qed.

(** ** Closing *)

Lemma wp_release_runtime sz am x s (Q : unit -> sub -> Prop) : stream_ok sz am x s ->
  (forall s', ident s' = ident s -> s_irqs s' = s_irqs s -> s_runtime s' = None -> s_wire s' = s_wire s -> Q tt s') -> wp release_runtime Q s.
Proof.
  intros Hs HQ. destruct (so_ring _ _ _ _ Hs) as (q & (r & Hr & _) & _). unfold release_runtime. apply wp_bind. unfold snd_rawmidi_done_buffer.
  apply wp_bind. eapply wp_set_runtime; [exact Hr |]. apply wp_ret. by apply HQ.
Qed.

Lemma later_irqs sz am x s s' : stream_ok sz am x s' -> later s s' -> Forall (Forall (right (s_input s))) (s_irqs s').
Proof. intros Hs L. rewrite <- (later_input _ _ L). apply Hs. Qed.

Lemma wp_release_input n s : sub_ok true n s -> s_opened s = true ->
  wp release_input (fun _ s' => sub_ok true n s' /\ s_opened s' = false) s.
Proof.
  intros [O1 O2 O3 O4] Hop. rewrite Hop in O4. destruct O4 as ((sz & am & x & Hs) & O4). unfold release_input.
  eapply wp_set_trigger; [exact Hs |]. intros s1 Hk1 Hs1. apply wp_bind. eapply wp_mono; [by apply (wp_trigger (sz := sz) (am := am) x) |]. intros [] s2 [Hs2 L2].
  apply wp_bind. eapply wp_mono; [by apply (wp_close (sz := sz) (am := am) x) |]. intros [] s3 [Hs3 L3].
  assert (L : later s s3) by (etrans; [by apply kept_later |]; by etrans).
  apply wp_bind. eapply wp_release_runtime; [exact Hs3 |]. intros s4 E1 E2 E3 _. unfold wp, update. pose proof (later_irqs _ _ _ _ _ Hs3 L) as Hi.
  pose proof (la_ident _ _ L) as E. rewrite <- E1 in E. unfold ident in E. injection E as F1 F2 F3 F4 F5. rewrite O1 in *.
  split; [| done]. split; cbn; rewrite ?F1, ?F2, ?F4, ?F5, ?E2; try done.
Qed.

(** The last file that closes an output waits until everything has been sent. *)
Lemma wp_release_output n s : sub_ok false n s -> s_opened s = true ->
  wp release_output (fun go s' => go = true -> sub_ok false n s' /\ opens s' = opens s - 1) s.
Proof.
  intros [O1 O2 O3 O4] Hop. rewrite Hop in O4. destruct O4 as ((sz & am & x & Hs) & Hu). unfold release_output.
  apply wp_bind. unfold wp at 1, get. apply wp_bind. unfold wp at 1, update. set (s1 := s <| s_use := s_use s - 1 |>).
  assert (Hs1 : stream_ok sz am x s1) by (split; [apply Hs | exact (so_ring _ _ _ _ Hs)]).
  destruct (Z.eqb_spec (s_use s - 1) 0) as [Hlast | Hmore]; cbn [negb].
  2: { apply wp_ret. intros _. split; [split; cbn; rewrite ?Hop; try done; split; [by exists sz, am, x | lia] |]. unfold opens. cbn. rewrite Hop, O1. lia. }
  apply wp_bind. eapply (wp_mono _ (fun _ s2 => exists y, stream_ok sz am y s2 /\ later s1 s2)).
  { unfold when. destruct (s_sensing s); [| apply wp_ret; by exists x].
    apply wp_bind. eapply wp_mono; [by apply (wp_kernel_write1 (sz := sz) (am := am) true (fun _ => false) [254] s1 x) |].
    intros m s2 (k & _ & Hs2 & L2 & _). apply wp_ret. eauto. }
  intros [] s2 (y & Hs2 & L2). assert (Hi2 : s_input s2 = false) by (by rewrite (later_input _ _ L2)).
  apply wp_bind. eapply wp_mono; [by apply (wp_drain_output (sz := sz) (am := am) y) |]. intros o s3 (Hs3 & L3 & Ho).
  destruct Ho as [-> | (-> & _ & _)]; [by apply wp_ret |].
  apply wp_bind. eapply wp_mono; [by apply (wp_close (sz := sz) (am := am) y) |]. intros [] s4 [Hs4 L4].
  assert (L : later s1 s4) by (etrans; [done |]; by etrans).
  apply wp_bind. eapply wp_release_runtime; [exact Hs4 |]. intros s5 E1 E2 E3 _. apply wp_bind. unfold wp at 1, update. apply wp_ret. intros _.
  pose proof (later_irqs _ _ _ _ _ Hs4 L) as Hi. pose proof (la_ident _ _ L) as E. rewrite <- E1 in E. unfold ident in E.
  injection E as F1 F2 F3 F4 F5. change (s_input s1) with (s_input s) in *. rewrite O1 in *. split.
  - split; cbn; rewrite ?F1, ?F2, ?F5, ?E2; try done.
  - unfold opens. cbn. rewrite Hop, O1. lia.
Qed.

(** C39: Opening a device for reading or for writing leaves it in order, with its mutex free: every open substream has a ring
    in order, the counts of open substreams are right, and the file has one of them.  If it fails, whatever the driver
    or the memory is to blame, the device is in order as well, and its module is not in use by one more. *)
Theorem open_keeps_counts d subdevice mode mem_in mem_out :
  dev_ok d -> opens_one mode -> (forall b, mem_in.2 = Some b \/ mem_out.2 = Some b -> zlen b = PAGE_SIZE) ->
  wp (snd_rawmidi_kernel_open subdevice mode mem_in mem_out) (fun res d' => dev_ok d' /\
    (res.1 = 0 /\ file_ok res.2 d' /\ d_users d' = d_users d + 1 \/ res.1 < 0 /\ d_users d' = d_users d)) d.
Proof. apply kernel_open_spec. Qed.

Lemma wp_release_input_dev n d : all_ok d -> holds_sub true d n ->
  wp (on_sub true n release_input;;; count_opened true (-1)) (fun _ d' => all_ok d' /\ same_dev d d' /\ stream_of false d' = stream_of false d) d.
Proof.
  intros Hd (s & Hs & Hop). pose proof (st_subs _ _ (Hd true) n s Hs) as Hok. apply wp_bind. eapply wp_on_sub; [exact Hs |].
  eapply wp_mono; [by apply (wp_release_input n) |]. intros _ s1 [Hok1 Hcl]. unfold wp, count_opened, update. split_and!; [| done | done].
  eapply (all_put true n s s1 (-1)); [done | done | done |]. unfold opens. by rewrite Hcl, Hop, (su_input _ _ _ Hok).
Qed.

Lemma wp_release_output_dev n d : all_ok d -> holds_sub false d n ->
  wp (go <- on_sub false n release_output;; when go (count_opened false (-1));;; ret go) (fun go d' => go = true -> all_ok d' /\ same_dev d d') d.
Proof.
  intros Hd (s & Hs & Hop). pose proof (st_subs _ _ (Hd false) n s Hs) as Hok. apply wp_bind. eapply wp_on_sub; [exact Hs |].
  eapply wp_mono; [by apply (wp_release_output n) |]. intros go s1 Hgo. destruct go; [| by apply wp_bind, wp_ret, wp_ret].
  destruct (Hgo eq_refl) as [Hok1 E]. apply wp_bind. unfold wp at 1, when, count_opened, update. apply wp_ret. intros _. split; [| done].
  by eapply (all_put false n s s1 (-1)).
Qed.

(** A file that is closed gives its substreams back: once the output has been drained, the counts are as they should be. *)
Theorem release_keeps_counts d f :
  dev_ok d -> file_ok f d -> (f_input f <> None \/ f_output f <> None) ->
  wp (snd_rawmidi_kernel_release f) (fun o d' => o = Waiting \/ o = Done 0 /\ dev_ok d' /\ d_users d' = d_users d - 1) d.
Proof.
  intros Hok [Hfi Hfo] Hne. apply dev_streams in Hok as [Hd Hm]. unfold snd_rawmidi_kernel_release. destruct f as [i o]. cbn [f_input f_output] in *.
  set (d1 := d <| open_mutex := true |>). assert (Hd1 : all_ok d1) by (by apply (all_ok_fields d)).
  assert (G : wp (match i with Some n => on_sub true n release_input;;; count_opened true (-1) | None => ret tt end;;;
      go <- match o with
            | Some n => go <- on_sub false n release_output;; when go (count_opened false (-1));;; ret go
            | None => ret true
            end;;
      if go : bool then up;;; dec_mod_count;;; ret (Done 0) else ret Waiting)
      (fun o d' => o = Waiting \/ o = Done 0 /\ dev_ok d' /\ d_users d' = d_users d - 1) d1).
  2: { destruct i, o; try (by apply wp_locked_dev). by destruct Hne. }
  apply wp_bind. eapply (wp_mono _ (fun _ d2 => all_ok d2 /\ same_dev d1 d2 /\ stream_of false d2 = stream_of false d1)).
  { destruct i as [n |]; [| by apply wp_ret]. apply (wp_release_input_dev n d1 Hd1). by apply Hfi. }
  intros [] d2 (Hd2 & (E1 & E2 & E3) & Eo). apply wp_bind.
  eapply (wp_mono _ (fun go d3 => go = true -> all_ok d3 /\ same_dev d2 d3)).
  { destruct o as [n |]; [| by apply wp_ret]. apply wp_release_output_dev; [done |]. destruct (Hfo n eq_refl) as (s & Hs & Hop). exists s. split; [| done]. by rewrite Eo. }
  intros [] d3 Hgo; [| apply wp_ret; by left]. destruct (Hgo eq_refl) as [Hd3 (F1 & F2 & F3)].
  do 2 (apply wp_bind; unfold wp at 1, up, dec_mod_count, update). apply wp_ret. right. split; [done |]. split.
  - apply dev_streams. split; [by apply (all_ok_fields d3) | done].
  - cbn. rewrite F3, E3. done.
Qed.
End Rules.

(** ** Concrete devices *)

(** Two outputs and one input. *)
Definition card : rawdev := snd_rawmidi_new (INFO_OUTPUT + INFO_INPUT) 2 1.
Definition page : memory := (true, Some (replicate (Z.to_nat PAGE_SIZE) 0)).

Lemma open_keeps_counts_witness :
  wp (@snd_rawmidi_kernel_open eager 1 (LFLG_OUTPUT + LFLG_APPEND) page page)
     (fun res d' => res = (0, Rfile None (Some 1%nat)) /\ substream_opened (d_output d') = 1) card /\
  wp (@snd_rawmidi_kernel_open eager 1 (LFLG_OUTPUT + LFLG_APPEND) page page) (fun res d' => dev_ok d' /\
    (res.1 = 0 /\ file_ok res.2 d' /\ d_users d' = 1 \/ res.1 < 0 /\ d_users d' = 0)) card.
Proof.
  split; [by vm_compute |].
  apply (@open_keeps_counts eager card 1 (LFLG_OUTPUT + LFLG_APPEND) page page).
  - apply new_dev_ok.
  - done.
  - by intros b [[= <-] | [= <-]]; vm_compute.
Defined.

(** The input of the card is open. *)
Definition open_stream : sub := (opened true []) <| s_append := false |> <| s_use := 0 |>.
Definition open_card : rawdev := Rawdev (INFO_OUTPUT + INFO_INPUT) (Str 0 [new_sub false 0]) (Str 1 [open_stream]) false 1.

Lemma open_card_ok : dev_ok open_card.
Proof.
  split; [| | done].
  - apply (new_str_ok false 1).
  - split; [| done]. intros [| n] s; [| by destruct n]. intros [= <-]. split; [done | done | constructor |]. cbn. split; [| done].
    exists PAGE_SIZE, 1, []. destruct (opened_ok true [] ltac:(constructor)) as [H1 H2]. split; [exact H1 | exact H2].
Qed.

Lemma release_keeps_counts_witness :
  wp (@snd_rawmidi_kernel_release eager (Rfile (Some O) None)) (fun o d' => o = Waiting \/ o = Done 0 /\ dev_ok d' /\ d_users d' = 0) open_card.
Proof.
  apply (@release_keeps_counts eager eager_quiet open_card (Rfile (Some O) None)).
  - apply open_card_ok.
  - split; [| done]. intros n [= <-]. by exists open_stream.
  - by left.
Defined.

(** A driver whose outputs cannot be opened. *)
Definition no_output : RawOps := {|
  op_open s := if s_input s then 0 else -EIO;
  op_close _ := [];
  op_trigger _ _ := [];
  op_drain := None |}.

(** If the output of a file for both cannot be opened, the input stays marked as open for ever. *)
Lemma open_failure_keeps_input :
  wp (res1 <- @snd_rawmidi_kernel_open no_output (-1) (LFLG_OUTPUT + LFLG_INPUT) page page;;
      res2 <- @snd_rawmidi_kernel_open no_output (-1) LFLG_INPUT page page;; ret (res1.1, res2.1))
     (fun res d' => res = (-EIO, -EAGAIN) /\ d_users d' = 0 /\ substream_opened (d_input d') = 1) card.
Proof. by vm_compute. Qed.

(** Asking about a device that is not there. *)
Lemma info_select_crashes : snd_rawmidi_info_select (fun _ => None) 0 0 0 = None.
Proof. done. Qed.
