(* ===== verification/Control.v ===== *)
(** * Control: the controls of a card

    alsa/core/control.c: the elements a card offers for its volumes and switches, the files
    that are open on them, and the events that tell these files of changes.  What an element
    does is the driver's: [CtlOps].  On OS/2 a spin lock is the interrupt flag saved in the
    lock (lib32/spinlock.c), read and write locks are spin locks (linux/spinlock.h), and no
    signal is ever pending (linux/signal.h).  Names are the bytes before the NUL, of the 44
    that are compared.  Left out: the handles for SIGIO, the card's strings that
    [snd_ctl_card_info] copies, callbacks that notify, and the values that [op_info] reports. *)

From S2P Require Export StateMonad.
From S2P Require Import Prelude.
From Stdlib Require String.
Open Scope Z_scope.
Open Scope state_scope.

(** ** Data *)

Definition ENOIOCTLCMD : Z := 515.
Definition EACCES : Z := 13.
Definition ENOTTY : Z := 25.

Definition ACCESS_READ : Z := 1.
Definition ACCESS_WRITE : Z := 2.
Definition ACCESS_READWRITE : Z := 3.
Definition ACCESS_INACTIVE : Z := 256.
Definition ACCESS_LOCK : Z := 512.
Definition ACCESS_OWNER : Z := 1024.
Definition ACCESS_INDIRECT : Z := 2147483648.
Definition MASK_VALUE : Z := 1.
Definition MASK_ADD : Z := 4.
Definition MASK_REMOVE : Z := 4294967295.
Definition EVENT_SIZE : Z := 72.

(** [flags & bit] *)
Definition has (flags bit : Z) : bool := negb (Z.land flags bit =? 0).

(** [snd_ctl_elem_id_t] *)
Record elem_id := ElemId { numid : Z; iface : Z; device : Z; subdevice : Z; name : String.string; index : Z }.
#[export] Instance settable_elem_id : Settable elem_id := fun i => ElemId (numid i) (iface i) (device i) (subdevice i) (name i) (index i).

(** [snd_kcontrol_t] at an address; [get] and [put] may be missing. *)
Record kctl := Kctl { k_addr : Z; k_id : elem_id; k_owner : Z; k_owner_pid : Z; k_access : Z; k_get : bool; k_put : bool }.
#[export] Instance settable_kctl : Settable kctl := fun k => Kctl (k_addr k) (k_id k) (k_owner k) (k_owner_pid k) (k_access k) (k_get k) (k_put k).

(** [snd_kctl_event_t] *)
Record event := Event { e_id : elem_id; e_mask : Z }.

(** [snd_ctl_file_t] at an address. *)
Record cfile := CFile { f_addr : Z; f_pid : Z; f_subscribed : bool; f_events : list event }.
#[export] Instance settable_cfile : Settable cfile := fun f => CFile (f_addr f) (f_pid f) (f_subscribed f) (f_events f).

Inductive lock := ControlLock | OwnerLock | ReadLock (f : Z).
#[export] Instance lock_eq_dec : EqDecision lock.
Proof. solve_decision. Defined.

(** What a driver does with an element: the result, and the values of [get] and [put];
    [op_free] is [private_free]. *)
Class CtlOps (H : Type) := {
  op_info : Z -> H -> Z * H;
  op_get : Z -> list Z -> H -> Z * list Z * H;
  op_put : Z -> list Z -> H -> Z * list Z * H;
  op_free : Z -> H -> H }.

(** [snd_card_t] as far as controls go; the interrupt flag, what the locks have saved of it,
    the memory that [kmalloc] will find (0 for none), and the calls of [put] by file. *)
Record card {H : Type} := Card {
  controls : list kctl; controls_count : Z; last_numid : Z; ctl_files : list cfile; c_users : Z;
  c_hw : H; c_if : bool; c_saved : list (lock * bool); c_alloc : list Z; c_puts : list (Z * Z) }.
Arguments card : clear implicits.
#[export] Instance settable_card {H} : Settable (card H) := fun c => Card H
  (controls c) (controls_count c) (last_numid c) (ctl_files c) (c_users c) (c_hw c) (c_if c) (c_saved c) (c_alloc c) (c_puts c).

Section Ops.
Context {H : Type} `{CtlOps H}.
Abbreviation K := (ST (card H)).

(** ** Services *)

Definition saved (l : lock) (c : card H) : bool :=
  match find (fun p => bool_decide (p.1 = l)) (c_saved c) with Some p => p.2 | None => true end.
Definition spin_lock (l : lock) : K unit := update (fun c => c <| c_saved := (l, c_if c) :: c_saved c |> <| c_if := false |>).
Definition spin_unlock (l : lock) : K unit := update (fun c => c <| c_if := saved l c |>).

Definition kmalloc : K Z := fun c =>
  match c_alloc c with a :: l => Some (a, c <| c_alloc := l |>) | [] => Some (0, c) end.

Definition kctl_at (a : Z) : K kctl := fun c =>
  match find (fun k => k_addr k =? a) (controls c) with Some k => Some (k, c) | None => None end.
Definition set_kctl (a : Z) (f : kctl -> kctl) : K unit :=
  kctl_at a;;; update (fun c => c <| controls := map (fun k => if k_addr k =? a then f k else k) (controls c) |>).
Definition file_at (a : Z) : K cfile := fun c =>
  match find (fun f => f_addr f =? a) (ctl_files c) with Some f => Some (f, c) | None => None end.
Definition set_file (a : Z) (g : cfile -> cfile) : K unit :=
  file_at a;;; update (fun c => c <| ctl_files := map (fun f => if f_addr f =? a then g f else f) (ctl_files c) |>).

(** ** Files *)

(** The error, or the file of this process; the card and its module are there. *)
Definition snd_ctl_open (pid : Z) : K (Z * Z) :=
  update (fun c => c <| c_users := c_users c + 1 |>);;;
  ctl <- kmalloc;;
  if ctl =? 0 then update (fun c => c <| c_users := c_users c - 1 |>);;; ret (-ENOMEM, 0)
  else
    spin_lock ControlLock;;;
    update (fun c => c <| ctl_files := ctl_files c ++ [CFile ctl pid false []] |>);;;
    spin_unlock ControlLock;;;
    ret (0, ctl).

Definition snd_ctl_empty_read_queue (ctl : Z) : K unit :=
  spin_lock (ReadLock ctl);;; set_file ctl (fun f => f <| f_events := [] |>);;; spin_unlock (ReadLock ctl).

(** The events are dropped after the file was taken out of the list; its memory is gone with it. *)
Definition snd_ctl_release (ctl : Z) : K Z :=
  file_at ctl;;;
  spin_lock ControlLock;;;
  update (fun c => c <| ctl_files := List.filter (fun f => negb (f_addr f =? ctl)) (ctl_files c) |>);;;
  spin_unlock ControlLock;;;
  spin_lock OwnerLock;;;
  update (fun c => c <| controls := map (fun k => if k_owner k =? ctl then k <| k_owner := 0 |> else k) (controls c) |>);;;
  spin_unlock OwnerLock;;;
  spin_lock (ReadLock ctl);;; spin_unlock (ReadLock ctl);;;
  update (fun c => c <| c_users := c_users c - 1 |>);;;
  ret 0.

(** ** Events *)

(** An event of this element that waits takes the mask; [None] if there is none. *)
Fixpoint merge_event (mask : Z) (id : elem_id) (l : list event) : option (list event) :=
  match l with
  | [] => None
  | ev :: l => if numid (e_id ev) =? numid id then Some (Event (e_id ev) (Z.lor (e_mask ev) mask) :: l)
               else option_map (cons ev) (merge_event mask id l)
  end.

Definition notify_file (mask : Z) (id : elem_id) (ctl : Z) : K unit :=
  f <- file_at ctl;;
  if negb (f_subscribed f) then ret tt
  else
    spin_lock (ReadLock ctl);;;
    match merge_event mask id (f_events f) with
    | Some evs => set_file ctl (fun f => f <| f_events := evs |>)
    | None =>
        ev <- kmalloc;;
        when (negb (ev =? 0)) (set_file ctl (fun f => f <| f_events := f_events f ++ [Event id mask] |>))
    end;;;
    spin_unlock (ReadLock ctl).

Fixpoint notify_files (mask : Z) (id : elem_id) (ctls : list Z) : K unit :=
  match ctls with [] => ret tt | ctl :: ctls => notify_file mask id ctl;;; notify_files mask id ctls end.

Definition snd_ctl_notify (mask : Z) (id : elem_id) : K unit :=
  spin_lock ControlLock;;;
  c <- get;;
  notify_files mask id (map f_addr (ctl_files c));;;
  spin_unlock ControlLock.

(** ** Elements *)

(** [snd_kcontrol_new_t] *)
Record kctl_new := KctlNew { n_id : elem_id; n_access : Z; n_get : bool; n_put : bool }.

Definition NAME_MAX : nat := 43.

(** The control is not in the list yet; its address is 0 if there is no memory. *)
Definition snd_ctl_new1 (n : kctl_new) : K kctl :=
  let access := if n_access n =? 0 then ACCESS_READWRITE
                else Z.land (n_access n) (Z.lor ACCESS_READWRITE (Z.lor ACCESS_INACTIVE ACCESS_INDIRECT)) in
  a <- kmalloc;;
  ret (Kctl a ((n_id n) <| numid := 0 |> <| name := String.substring 0 NAME_MAX (name (n_id n)) |>) 0 0 access (n_get n) (n_put n)).

Definition snd_ctl_add (k : kctl) : K Z :=
  if k_addr k =? 0 then ret (-EINVAL)
  else if has (k_access k) ACCESS_READ && negb (k_get k) then ret (-EINVAL)
  else if has (k_access k) ACCESS_WRITE && negb (k_put k) then ret (-EINVAL)
  else
    spin_lock ControlLock;;;
    c <- get;;
    let n := u32 (last_numid c + 1) in
    let k := k <| k_id := (k_id k) <| numid := n |> |> in
    update (fun c => c <| controls := controls c ++ [k] |> <| controls_count := controls_count c + 1 |> <| last_numid := n |>);;;
    spin_unlock ControlLock;;;
    snd_ctl_notify MASK_ADD (k_id k);;;
    ret 0.

Definition snd_ctl_remove (a : Z) : K Z :=
  k <- kctl_at a;;
  spin_lock ControlLock;;;
  update (fun c => c <| controls := List.filter (fun k => negb (k_addr k =? a)) (controls c) |> <| controls_count := controls_count c - 1 |>);;;
  spin_unlock ControlLock;;;
  snd_ctl_notify MASK_REMOVE (k_id k);;;
  update (fun c => c <| c_hw := op_free a (c_hw c) |>);;;
  ret 0.

Definition snd_ctl_find_numid (n : Z) : K Z :=
  if n =? 0 then ret 0
  else
    spin_lock ControlLock;;;
    c <- get;;
    spin_unlock ControlLock;;;
    ret (match find (fun k => numid (k_id k) =? n) (controls c) with Some k => k_addr k | None => 0 end).

(** The comparisons of [snd_ctl_find_id]. *)
Definition same_elem (id : elem_id) (k : kctl) : bool :=
  (iface (k_id k) =? iface id) && (device (k_id k) =? device id) && (subdevice (k_id k) =? subdevice id) &&
  String.eqb (name (k_id k)) (name id) && (index (k_id k) =? index id).

Definition snd_ctl_find_id (id : elem_id) : K Z :=
  if negb (numid id =? 0) then snd_ctl_find_numid (numid id)
  else
    spin_lock ControlLock;;;
    c <- get;;
    spin_unlock ControlLock;;;
    ret (match find (same_elem id) (controls c) with Some k => k_addr k | None => 0 end).

Definition snd_ctl_remove_id (id : elem_id) : K Z :=
  a <- snd_ctl_find_id id;; if a =? 0 then ret (-ENOENT) else snd_ctl_remove a.

Definition snd_ctl_rename_id (src dst : elem_id) : K Z :=
  a <- snd_ctl_find_id src;;
  if a =? 0 then ret (-ENOENT)
  else
    spin_lock ControlLock;;;
    c <- get;;
    let n := u32 (last_numid c + 1) in
    update (fun c => c <| last_numid := n |>);;;
    set_kctl a (fun k => k <| k_id := dst <| numid := n |> |>);;;
    spin_unlock ControlLock;;;
    ret 0.

(** ** Requests of an application *)

(** Whether the application's memory can be read ([ok_in]) and written ([ok_out]). *)

(** The count of controls and the ids given out; [fault n]: the place of the [n]th cannot be written. *)
Definition snd_ctl_elem_list (ok_in ok_out : bool) (fault : nat -> bool) (offset space : Z) : K (Z * Z * list elem_id) :=
  if negb ok_in then ret (-EFAULT, 0, [])
  else
    spin_lock ControlLock;;;
    c <- get;;
    let ids := take (Z.to_nat (s32 space)) (map k_id (drop (Z.to_nat (s32 offset)) (controls c))) in
    spin_unlock ControlLock;;;
    if existsb fault (seq 0 (length ids)) then ret (-EFAULT, 0, [])
    else if negb ok_out then ret (-EFAULT, 0, []) else ret (0, controls_count c, ids).

(** The result, the id, the access rights and the process that has the lock. *)
Definition snd_ctl_elem_info (ok_in ok_out : bool) (ctl : Z) (id : elem_id) : K (Z * elem_id * Z * Z) :=
  let none := fun err : Z => (err, id, 0, 0) in
  if negb ok_in then ret (none (-EFAULT))
  else
    spin_lock ControlLock;;;
    a <- snd_ctl_find_id id;;
    if a =? 0 then spin_unlock ControlLock;;; ret (none (-ENOENT))
    else
      k <- kctl_at a;;
      c <- get;;
      let '(result, h) := op_info a (c_hw c) in
      update (fun c => c <| c_hw := h |>);;;
      let access := if k_owner k =? 0 then k_access k
                    else Z.lor (Z.lor (k_access k) ACCESS_LOCK) (if k_owner k =? ctl then ACCESS_OWNER else 0) in
      spin_unlock ControlLock;;;
      if result <? 0 then ret (none result)
      else if negb ok_out then ret (none (-EFAULT))
      else ret (result, k_id k, access, if k_owner k =? 0 then -1 else k_owner_pid k).

(** What the application gets back: the id and the values, if the call succeeds. *)
Definition hand_back (ok_out : bool) (a result : Z) (value : list Z) : K (Z * option (elem_id * list Z)) :=
  if result <? 0 then ret (result, None)
  else if negb ok_out then ret (-EFAULT, None)
  else k <- kctl_at a;; ret (result, Some (k_id k, value)).

Definition snd_ctl_elem_read (ok_in ok_out : bool) (id : elem_id) (indirect : bool) (value : list Z) : K (Z * option (elem_id * list Z)) :=
  if negb ok_in then ret (-EFAULT, None)
  else
    spin_lock ControlLock;;;
    a <- snd_ctl_find_id id;;
    res <- (if a =? 0 then ret (-ENOENT, value)
            else
              k <- kctl_at a;;
              if negb (Bool.eqb indirect (has (k_access k) ACCESS_INDIRECT)) then ret (-EACCES, value)
              else if has (k_access k) ACCESS_READ && k_get k then
                c <- get;;
                let '(result, value, h) := op_get a value (c_hw c) in
                update (fun c => c <| c_hw := h |>);;;
                ret (result, value)
              else ret (-EPERM, value));;
    spin_unlock ControlLock;;;
    hand_back ok_out a res.1 res.2.

Definition snd_ctl_elem_write (ok_in ok_out : bool) (ctl : Z) (id : elem_id) (indirect : bool) (value : list Z) : K (Z * option (elem_id * list Z)) :=
  if negb ok_in then ret (-EFAULT, None)
  else
    spin_lock ControlLock;;;
    a <- snd_ctl_find_id id;;
    res <- (if a =? 0 then ret (-ENOENT, value)
            else
              k <- kctl_at a;;
              if negb (Bool.eqb indirect (has (k_access k) ACCESS_INDIRECT)) then ret (-EACCES, value)
              else
                spin_lock OwnerLock;;;
                res <- (if negb (has (k_access k) ACCESS_WRITE) || negb (k_put k) || (negb (k_owner k =? 0) && negb (k_owner k =? ctl))
                        then ret (-EPERM, value)
                        else
                          c <- get;;
                          let '(result, value, h) := op_put a value (c_hw c) in
                          update (fun c => c <| c_hw := h |> <| c_puts := c_puts c ++ [(ctl, a)] |>);;;
                          ret (result, value));;
                spin_unlock OwnerLock;;;
                if 0 <? res.1 then snd_ctl_notify MASK_VALUE (k_id k);;; ret (0, res.2) else ret res);;
    spin_unlock ControlLock;;;
    hand_back ok_out a res.1 res.2.

Definition snd_ctl_elem_lock (ok_in : bool) (ctl pid : Z) (id : elem_id) : K Z :=
  if negb ok_in then ret (-EFAULT)
  else
    spin_lock ControlLock;;;
    a <- snd_ctl_find_id id;;
    result <- (if a =? 0 then ret (-ENOENT)
               else
                 spin_lock OwnerLock;;;
                 k <- kctl_at a;;
                 result <- (if negb (k_owner k =? 0) then ret (-EBUSY)
                            else set_kctl a (fun k => k <| k_owner := ctl |> <| k_owner_pid := pid |>);;; ret 0);;
                 spin_unlock OwnerLock;;;
                 ret result);;
    spin_unlock ControlLock;;;
    ret result.

Definition snd_ctl_elem_unlock (ok_in : bool) (ctl : Z) (id : elem_id) : K Z :=
  if negb ok_in then ret (-EFAULT)
  else
    spin_lock ControlLock;;;
    a <- snd_ctl_find_id id;;
    result <- (if a =? 0 then ret (-ENOENT)
               else
                 spin_lock OwnerLock;;;
                 k <- kctl_at a;;
                 result <- (if k_owner k =? 0 then ret (-EINVAL)
                            else if negb (k_owner k =? ctl) then ret (-EPERM)
                            else set_kctl a (fun k => k <| k_owner := 0 |> <| k_owner_pid := 0 |>);;; ret 0);;
                 spin_unlock OwnerLock;;;
                 ret result);;
    spin_unlock ControlLock;;;
    ret result.

(** [subscribe] is what the application passed; the result and what it gets back. *)
Definition snd_ctl_subscribe_events (ok_in ok_out : bool) (ctl subscribe : Z) : K (Z * Z) :=
  if negb ok_in then ret (-EFAULT, subscribe)
  else
    f <- file_at ctl;;
    if subscribe <? 0 then
      if negb ok_out then ret (-EFAULT, subscribe) else ret (0, if f_subscribed f then 1 else 0)
    else if negb (subscribe =? 0) then set_file ctl (fun f => f <| f_subscribed := true |>);;; ret (0, subscribe)
    else
      when (f_subscribed f) (snd_ctl_empty_read_queue ctl;;; set_file ctl (fun f => f <| f_subscribed := false |>));;;
      ret (0, subscribe).

(** ** Reading events *)

(** What happens at each sleep of a reader: changes that are notified. *)
Definition notifies (l : list (Z * elem_id)) : K unit :=
  foldr (fun p m => snd_ctl_notify p.1 p.2;;; m) (ret tt) l.

(** The result, or a sleep that does not end. *)
Inductive outcome := Done (result : Z) | Waiting.

(** The wait for an event, with the lock of the queue held; [wakes] for each sleep. *)
Fixpoint wait_event (nonblock : bool) (ctl : Z) (wakes : list (list (Z * elem_id))) : K (option Z * list (list (Z * elem_id))) :=
  f <- file_at ctl;;
  if negb (bool_decide (f_events f = [])) then ret (Some 0, wakes)
  else if nonblock then ret (Some (-EAGAIN), wakes)
  else
    match wakes with
    | [] => spin_unlock (ReadLock ctl);;; ret (None, [])
    | l :: wakes =>
        spin_unlock (ReadLock ctl);;; notifies l;;; spin_lock (ReadLock ctl);;;
        wait_event nonblock ctl wakes
    end.

Definition read_end (ctl err result : Z) : K outcome :=
  spin_unlock (ReadLock ctl);;; ret (Done (if 0 <? result then result else err)).

(** [fault n]: the application's memory at [n] cannot be written. *)
Fixpoint read_loop (fuel : nat) (nonblock : bool) (fault : Z -> bool) (ctl : Z) (wakes : list (list (Z * elem_id))) (count result : Z) (out : list event) : K (outcome * list event) :=
  match fuel with
  | O => crash
  | S fuel =>
      if count <? EVENT_SIZE then o <- read_end ctl 0 result;; ret (o, out)
      else
        w <- wait_event nonblock ctl wakes;;
        match w with
        | (None, _) => ret (Waiting, out)
        | (Some err, wakes) =>
            if err <? 0 then o <- read_end ctl err result;; ret (o, out)
            else
              f <- file_at ctl;;
              match f_events f with
              | [] => crash
              | ev :: evs =>
                  if fault result then o <- read_end ctl (-EFAULT) result;; ret (o, out)
                  else
                    set_file ctl (fun f => f <| f_events := evs |>);;;
                    read_loop fuel nonblock fault ctl wakes (count - EVENT_SIZE) (result + EVENT_SIZE) (out ++ [ev])
              end
        end
  end.

Definition snd_ctl_read (nonblock : bool) (fault : Z -> bool) (ctl : Z) (wakes : list (list (Z * elem_id))) (count : Z) : K (outcome * list event) :=
  f <- file_at ctl;;
  if negb (f_subscribed f) then ret (Done (-EBADFD), [])
  else if count <? EVENT_SIZE then ret (Done (-EINVAL), [])
  else
    spin_lock (ReadLock ctl);;;
    read_loop (S (Z.to_nat count)) nonblock fault ctl wakes count 0 [].

Definition snd_ctl_poll (ctl : Z) : K bool :=
  f <- file_at ctl;; ret (f_subscribed f && negb (bool_decide (f_events f = []))).

(** ** Leaving *)

Fixpoint remove_all (fuel : nat) : K unit :=
  match fuel with
  | O => crash
  | S fuel => c <- get;; match controls c with [] => ret tt | k :: _ => snd_ctl_remove (k_addr k);;; remove_all fuel end
  end.

(** The device was unregistered. *)
Definition snd_ctl_unregister : K Z := c <- get;; remove_all (S (length (controls c)));;; ret 0.
End Ops.

(** ** Ioctls of other components *)

(** The list of handlers. *)
Definition snd_ctl_register_ioctl (alloc : bool) (fcn : Z) (l : list Z) : Z * list Z :=
  if alloc then (0, l ++ [fcn]) else (-ENOMEM, l).

Fixpoint drop_ioctl (fcn : Z) (l : list Z) : option (list Z) :=
  match l with [] => None | f :: l => if f =? fcn then Some l else option_map (cons f) (drop_ioctl fcn l) end.

Definition snd_ctl_unregister_ioctl (fcn : Z) (l : list Z) : Z * list Z :=
  match drop_ioctl fcn l with Some l => (0, l) | None => (-EINVAL, l) end.

(** The end of [snd_ctl_ioctl]: the first handler that knows the command. *)
Fixpoint other_ioctl (call : Z -> Z) (l : list Z) : Z :=
  match l with
  | [] => -ENOTTY
  | f :: l => let err := call f in if err =? -ENOIOCTLCMD then other_ioctl call l else err
  end.

(** ** The ioctl *)

(** What an application asks of the file it has opened; [Info] is the version and the card's
    description, [Foreign] a request of the PCM, raw MIDI or hwdep layer. *)
Inductive request :=
| Info (ok_out : bool)
| ElemList (ok_in ok_out : bool) (fault : nat -> bool) (offset space : Z)
| ElemInfo (ok_in ok_out : bool) (id : elem_id)
| ElemRead (ok_in ok_out : bool) (id : elem_id) (indirect : bool) (value : list Z)
| ElemWrite (ok_in ok_out : bool) (id : elem_id) (indirect : bool) (value : list Z)
| ElemLock (ok_in : bool) (pid : Z) (id : elem_id)
| ElemUnlock (ok_in : bool) (id : elem_id)
| SubscribeEvents (ok_in ok_out : bool) (subscribe : Z)
| Foreign (call : Z -> Z) (handlers : list Z).

Definition snd_ctl_ioctl {H : Type} `{CtlOps H} (ctl : Z) (req : request) : ST (card H) Z :=
  match req with
  | Info ok_out => ret (if ok_out then 0 else -EFAULT)
  | ElemList ok_in ok_out fault offset space => r <- snd_ctl_elem_list ok_in ok_out fault offset space;; ret r.1.1
  | ElemInfo ok_in ok_out id => r <- snd_ctl_elem_info ok_in ok_out ctl id;; ret r.1.1.1
  | ElemRead ok_in ok_out id indirect value => r <- snd_ctl_elem_read ok_in ok_out id indirect value;; ret r.1
  | ElemWrite ok_in ok_out id indirect value => r <- snd_ctl_elem_write ok_in ok_out ctl id indirect value;; ret r.1
  | ElemLock ok_in pid id => snd_ctl_elem_lock ok_in ctl pid id
  | ElemUnlock ok_in id => snd_ctl_elem_unlock ok_in ctl id
  | SubscribeEvents ok_in ok_out subscribe => r <- snd_ctl_subscribe_events ok_in ok_out ctl subscribe;; ret r.1
  | Foreign call handlers => ret (other_ioctl call handlers)
  end.
