(* ===== verification/ControlRules.v ===== *)
(** * ControlRules: how the steps of the control code change a card

    Rules for the locks, the lists of controls and files, the search for a control, and the
    notification of a change; and when a card is in order. *)

From S2P Require Import Prelude Control.
Open Scope Z_scope.
Open Scope state_scope.

(** ** Lists searched by a key *)

Section Keyed.
Context {A : Type} (key : A -> Z).

Lemma find_key x l : NoDup (map key l) -> x ∈ l -> find (fun y => key y =? key x) l = Some x.
Proof.
  induction l as [| y l IH]; [by intros _ ?%elem_of_nil |]. cbn [map find]. intros [Hy Hl]%NoDup_cons Hx.
  destruct (Z.eqb_spec (key y) (key x)) as [E | NE].
  - apply elem_of_cons in Hx as [-> | Hx]; [done |]. destruct Hy. rewrite E. by apply list_elem_of_fmap_2.
  - apply elem_of_cons in Hx as [-> | Hx]; [done |]. by apply IH.
Qed.

Lemma set_key_mid x g l l' : NoDup (map key (l ++ x :: l')) ->
  map (fun y => if key y =? key x then g y else y) (l ++ x :: l') = l ++ g x :: l'.
Proof.
  intros Hn. rewrite map_app in Hn |- *. cbn [map] in *. rewrite Z.eqb_refl. apply NoDup_app in Hn as (_ & H1 & [H2 _]%NoDup_cons).
  assert (Hid : forall k, (forall y, y ∈ k -> key y <> key x) -> map (fun y => if key y =? key x then g y else y) k = k).
  { clear. induction k as [| y k IH]; intros Hk; [done |]. cbn [map]. rewrite (proj2 (Z.eqb_neq _ _) (Hk y ltac:(left))), IH; [done |]. intros z Hz. apply Hk. by right. }
  f_equal; [| f_equal]; apply Hid; intros y Hy E.
  - apply (H1 (key y)); [by apply list_elem_of_fmap_2 | rewrite E; left].
  - apply H2. rewrite <- E. by apply list_elem_of_fmap_2.
Qed.

Lemma set_key_proj {B} (p : A -> B) a g l : (forall x, p (g x) = p x) -> map p (map (fun x => if key x =? a then g x else x) l) = map p l.
Proof. intros Hp. rewrite map_map. apply map_ext. intros x. by destruct (_ =? _). Qed.

Lemma drop_key_NoDup {B} (p : A -> B) (f : A -> bool) l : NoDup (map p l) -> NoDup (map p (List.filter f l)).
Proof.
  induction l as [| x l IH]; [done |]. cbn. intros [Hx Hl]%NoDup_cons. destruct (f x); [| by apply IH]. cbn. apply NoDup_cons. split; [| by apply IH].
  intros (y & E & Hy%list_elem_of_In)%list_elem_of_fmap. apply filter_In in Hy as [Hy _]. apply Hx. rewrite E. apply list_elem_of_fmap_2. by apply list_elem_of_In.
Qed.
End Keyed.

(** ** A card in order *)

Record file_ok (f : cfile) : Prop := {
  fo_events : NoDup (map (fun ev => numid (e_id ev)) (f_events f));
  fo_quiet : f_subscribed f = false -> f_events f = [] }.

(** The callbacks that the access rights promise are there. *)
Definition callable (k : kctl) : Prop :=
  (has (k_access k) ACCESS_READ = true -> k_get k = true) /\ (has (k_access k) ACCESS_WRITE = true -> k_put k = true).

Definition addresses {H} (c : card H) : list Z := map k_addr (controls c) ++ map f_addr (ctl_files c) ++ List.filter (fun a => negb (a =? 0)) (c_alloc c).

(** No address serves twice, nor does a number; a control is locked by an open file. *)
Record ordered {H} (c : card H) : Prop := {
  od_addr : NoDup (0 :: addresses c);
  od_count : controls_count c = Z.of_nat (length (controls c));
  od_numid : NoDup (map (fun k => numid (k_id k)) (controls c));
  od_last : 0 <= last_numid c <= UINT_MAX;
  od_range : Forall (fun k => 0 < numid (k_id k) <= last_numid c) (controls c);
  od_owner : Forall (fun k => k_owner k = 0 \/ k_owner k ∈ map f_addr (ctl_files c)) (controls c);
  od_callable : Forall callable (controls c);
  od_files : Forall file_ok (ctl_files c) }.

Lemma ordered_same {H} (c c' : card H) : ordered c ->
  controls c' = controls c -> controls_count c' = controls_count c -> last_numid c' = last_numid c -> ctl_files c' = ctl_files c -> c_alloc c' = c_alloc c ->
  ordered c'.
Proof. intros [] E1 E2 E3 E4 E5. split; unfold addresses in *; by rewrite ?E1, ?E2, ?E3, ?E4, ?E5. Qed.

Section Addresses.
Context {H : Type} (c : card H) (Hc : ordered c).

Lemma ordered_kctl_addr : NoDup (map k_addr (controls c)).
Proof using Hc. pose proof (od_addr _ Hc) as [_ (A & _)%NoDup_app]%NoDup_cons. done. Qed.

Lemma ordered_file_addr : NoDup (map f_addr (ctl_files c)).
Proof using Hc. pose proof (od_addr _ Hc) as [_ (_ & _ & (A & _)%NoDup_app)%NoDup_app]%NoDup_cons. done. Qed.

Lemma ordered_kctl_nz k : k ∈ controls c -> k_addr k <> 0.
Proof using Hc. intros Hk E. pose proof (od_addr _ Hc) as [A _]%NoDup_cons. apply A, elem_of_app. left. rewrite <- E. by apply list_elem_of_fmap_2. Qed.

Lemma ordered_file_nz f : f ∈ ctl_files c -> f_addr f <> 0.
Proof using Hc.
  intros Hf E. pose proof (od_addr _ Hc) as [A _]%NoDup_cons. apply A, elem_of_app. right. apply elem_of_app. left. rewrite <- E. by apply list_elem_of_fmap_2.
Qed.
End Addresses.

(** ** Steps *)

Lemma wp_flat {S A B C} (m : ST S A) (k : A -> ST S B) (g : B -> ST S C) Q s : wp (bind m (fun x => bind (k x) g)) Q s -> wp (bind (bind m k) g) Q s.
Proof. unfold wp. by rewrite bind_assoc. Qed.

(** What [snd_ctl_find_id] looks for; 0 if there is no such control. *)
Definition lookup_id (id : elem_id) (cs : list kctl) : option kctl :=
  if numid id =? 0 then find (same_elem id) cs else find (fun k => numid (k_id k) =? numid id) cs.

Section Rules.
Context {H : Type} `{CtlOps H}.
Context (cs : list kctl) (n la : Z) (fs : list cfile) (us : Z) (hw : H) (i : bool) (sv : list (lock * bool)) (al : list Z) (ps : list (Z * Z)).
Abbreviation here := (Card H cs n la fs us hw i sv al ps).
Context {A : Type} (Q : A -> card H -> Prop).

Lemma wp_ctl_spin_lock l (m : ST (card H) A) :
  (forall sv', wp m Q (Card H cs n la fs us hw false sv' al ps)) -> wp (spin_lock l;;; m) Q here.
Proof. intros Hm. apply Hm. Qed.

Lemma wp_ctl_spin_unlock l (m : ST (card H) A) :
  (forall i', wp m Q (Card H cs n la fs us hw i' sv al ps)) -> wp (spin_unlock l;;; m) Q here.
Proof. intros Hm. apply Hm. Qed.

Lemma wp_ctl_kmalloc (m : Z -> ST (card H) A) :
  (al = [] -> wp (m 0) Q here) -> (forall a al', al = a :: al' -> wp (m a) Q (Card H cs n la fs us hw i sv al' ps)) -> wp (bind kmalloc m) Q here.
Proof. intros Hno Hyes. unfold wp, bind, kmalloc. cbn. destruct al as [| a al'] eqn:E; [by apply Hno | by apply Hyes]. Qed.

Lemma wp_kctl_at k (m : kctl -> ST (card H) A) :
  NoDup (map k_addr cs) -> k ∈ cs -> wp (m k) Q here -> wp (bind (kctl_at (k_addr k)) m) Q here.
Proof. intros Hn Hk Hm. unfold wp, bind, kctl_at. cbn. rewrite (find_key _ k); done. Qed.

Lemma wp_set_kctl k g (R : unit -> card H -> Prop) :
  NoDup (map k_addr cs) -> k ∈ cs ->
  R tt (Card H (map (fun x => if k_addr x =? k_addr k then g x else x) cs) n la fs us hw i sv al ps) -> wp (set_kctl (k_addr k) g) R here.
Proof. intros Hn Hk Hm. unfold wp, bind, set_kctl, bind, kctl_at. cbn. rewrite (find_key _ k); done. Qed.

Lemma wp_file_at f (m : cfile -> ST (card H) A) :
  NoDup (map f_addr fs) -> f ∈ fs -> wp (m f) Q here -> wp (bind (file_at (f_addr f)) m) Q here.
Proof. intros Hn Hk Hm. unfold wp, bind, file_at. cbn. rewrite (find_key _ f); done. Qed.

Lemma wp_set_file l f l' g (R : unit -> card H -> Prop) :
  NoDup (map f_addr fs) -> fs = l ++ f :: l' ->
  R tt (Card H cs n la (l ++ g f :: l') us hw i sv al ps) -> wp (set_file (f_addr f) g) R here.
Proof.
  intros Hn E Hm. unfold wp, bind, set_file, bind, file_at. cbn. rewrite (find_key _ f); [| done | rewrite E; apply elem_of_app; right; left].
  cbn. rewrite E in Hn |- *. by rewrite set_key_mid.
Qed.

Lemma wp_find_id id (m : Z -> ST (card H) A) :
  (forall i' sv', wp (m (match lookup_id id cs with Some k => k_addr k | None => 0 end)) Q (Card H cs n la fs us hw i' sv' al ps)) ->
  wp (bind (snd_ctl_find_id id) m) Q here.
Proof.
  intros Hm. unfold snd_ctl_find_id, snd_ctl_find_numid. unfold lookup_id in Hm. destruct (Z.eqb_spec (numid id) 0); cbn [negb]; [apply Hm |].
  replace (numid id =? 0) with false by lia. apply Hm.
Qed.
End Rules.

(** ** Notification *)

(** What a file knows after a change; [ok]: there was memory for a new event. *)
Definition note_event (ok : bool) (mask : Z) (id : elem_id) (f : cfile) : cfile :=
  if f_subscribed f then
    match merge_event mask id (f_events f) with
    | Some evs => f <| f_events := evs |>
    | None => if ok then f <| f_events := f_events f ++ [Event id mask] |> else f
    end
  else f.

Definition noted (mask : Z) (id : elem_id) (f f' : cfile) : Prop := exists ok, f' = note_event ok mask id f.

Lemma note_keeps ok mask id f : f_addr (note_event ok mask id f) = f_addr f /\ f_subscribed (note_event ok mask id f) = f_subscribed f.
Proof. unfold note_event. destruct (f_subscribed f) eqn:E; [| done]. destruct (merge_event _ _ _); [done |]. by destruct ok. Qed.

Definition event_num (ev : event) : Z := numid (e_id ev).

Lemma merge_nums mask id evs evs' : merge_event mask id evs = Some evs' -> map event_num evs' = map event_num evs.
Proof.
  revert evs'. induction evs as [| ev evs IH]; intros evs'; cbn [merge_event]; [done |].
  destruct (_ =? _); [by intros [= <-] |]. destruct (merge_event mask id evs) as [l |]; [| done]. intros [= <-]. cbn. by rewrite (IH l).
Qed.

Lemma merge_none mask id evs : merge_event mask id evs = None <-> numid id ∉ map event_num evs.
Proof.
  induction evs as [| ev evs IH]; cbn; [split; [intros _; apply not_elem_of_nil | done] |]. rewrite not_elem_of_cons. unfold event_num at 1.
  destruct (Z.eqb_spec (numid (e_id ev)) (numid id)) as [E | NE]; [split; [done | intros []; congruence] |].
  rewrite <- IH. destruct (merge_event mask id evs); cbn; naive_solver.
Qed.

Lemma note_ok ok mask id f : file_ok f -> file_ok (note_event ok mask id f).
Proof.
  intros [E Q]. unfold note_event. destruct (f_subscribed f) eqn:Es; [| split; auto]. destruct (merge_event mask id (f_events f)) as [evs |] eqn:Em.
  - split; cbn; [| intros E2; cbn in E2; rewrite Es in E2; discriminate]. change (NoDup (map event_num evs)). by rewrite (merge_nums _ _ _ _ Em).
  - destruct ok; [| split; [done | by rewrite Es]]. split; cbn; [| congruence]. change (NoDup (map event_num (f_events f ++ [Event id mask]))).
    rewrite map_app. apply NoDup_app. split_and!; [done | | apply NoDup_singleton]. intros x Hx Hs. apply list_elem_of_singleton in Hs as ->. exact (proj1 (merge_none _ _ _) Em Hx).
Qed.

Lemma noted_addr mask id fs fs' : Forall2 (noted mask id) fs fs' -> map f_addr fs' = map f_addr fs.
Proof. induction 1 as [| f f' fs fs' (ok & ->) _ IH]; [done |]. cbn. by rewrite IH, (proj1 (note_keeps _ _ _ _)). Qed.

Lemma noted_ok mask id fs fs' : Forall2 (noted mask id) fs fs' -> Forall file_ok fs -> Forall file_ok fs'.
Proof. induction 1 as [| f f' fs fs' (ok & ->) _ IH]; [done |]. intros [Hf Hfs]%Forall_cons. apply Forall_cons. split; [by apply note_ok | by apply IH]. Qed.

(** Memory for [k] events. *)
Definition plenty (k : nat) (al : list Z) : Prop := Forall (fun a => a <> 0) al /\ (k <= length al)%nat.

Section Notify.
Context {H : Type} `{CtlOps H}.
Context {A : Type} (Q : A -> card H -> Prop).

(** The files after a change is told to them, and the memory that is left. *)
Definition told (mask : Z) (id : elem_id) (fs : list cfile) (al : list Z) (fs' : list cfile) (al' : list Z) : Prop :=
  Forall2 (noted mask id) fs fs' /\ al' `suffix_of` al /\
  forall k, plenty (length fs + k) al -> fs' = map (note_event true mask id) fs /\ plenty k al'.

Lemma told_cons mask id f f' fs al al1 al2 fs' :
  (exists ok, f' = note_event ok mask id f) -> al1 `suffix_of` al ->
  (forall k, plenty (S k) al -> f' = note_event true mask id f /\ plenty k al1) ->
  told mask id fs al1 fs' al2 -> told mask id (f :: fs) al (f' :: fs') al2.
Proof.
  intros Hf Ha Hk (T1 & T2 & T3). split_and!; [by constructor | by etrans |]. intros k Hp. cbn in Hp. destruct (Hk _ Hp) as [-> Hp']. destruct (T3 _ Hp') as [-> Hp2]. done.
Qed.

Lemma plenty_fewer k k' al : (k' <= k)%nat -> plenty k al -> plenty k' al.
Proof. intros Hle [P1 P2]. split; [done | lia]. Qed.

Lemma plenty_next k a al : plenty (S k) (a :: al) -> a <> 0 /\ plenty k al.
Proof. intros [[P1 P2]%Forall_cons P3]. cbn in P3. split; [done |]. split; [done | lia]. Qed.

Lemma note_quiet ok mask id f : f_subscribed f = false -> note_event ok mask id f = f.
Proof. intros Es. unfold note_event. by rewrite Es. Qed.

Lemma note_merged ok mask id f evs : f_subscribed f = true -> merge_event mask id (f_events f) = Some evs -> note_event ok mask id f = f <| f_events := evs |>.
Proof. intros Es Em. unfold note_event. by rewrite Es, Em. Qed.

Lemma note_new ok mask id f : f_subscribed f = true -> merge_event mask id (f_events f) = None ->
  note_event ok mask id f = if ok then f <| f_events := f_events f ++ [Event id mask] |> else f.
Proof. intros Es Em. unfold note_event. by rewrite Es, Em. Qed.

Lemma wp_notify_file (m : ST (card H) A) mask id cs n la l f l' us hw i sv al ps :
  NoDup (map f_addr (l ++ f :: l')) ->
  (forall f' al' i' sv', (exists ok, f' = note_event ok mask id f) -> al' `suffix_of` al -> (forall k, plenty (S k) al -> f' = note_event true mask id f /\ plenty k al') ->
     wp m Q (Card H cs n la (l ++ f' :: l') us hw i' sv' al' ps)) ->
  wp (notify_file mask id (f_addr f);;; m) Q (Card H cs n la (l ++ f :: l') us hw i sv al ps).
Proof.
  intros Hn HQ. unfold notify_file. apply wp_bind, wp_file_at; [done | apply elem_of_app; right; left |].
  assert (Fewer : forall k, plenty (S k) al -> plenty k al) by (intros k; apply plenty_fewer; lia).
  destruct (f_subscribed f) eqn:Es; cbn [negb].
  2: { pose proof (note_quiet true mask id f Es) as E. apply wp_ret. apply HQ; [by exists true | reflexivity |]. intros k Hp. auto. }
  apply wp_ctl_spin_lock. intros sv1. destruct (merge_event mask id (f_events f)) as [evs |] eqn:Em.
  - pose proof (note_merged true mask id f evs Es Em) as E. apply wp_bind. eapply (wp_set_file cs n la); [done | done |]. cbv beta.
    rewrite <- E. apply HQ; [by exists true | reflexivity |]. intros k Hp. auto.
  - pose proof (fun ok => note_new ok mask id f Es Em) as E. apply wp_bind, wp_ctl_kmalloc.
    + intros ->. cbn. apply HQ; [exists false; by rewrite (E false) | reflexivity |]. intros k [_ Hp]. cbn in Hp. lia.
    + intros a al' ->. destruct (Z.eqb_spec a 0) as [-> | Ha]; cbn [negb when].
      * apply wp_ret. apply HQ; [exists false; by rewrite (E false) | apply suffix_cons_r; reflexivity |]. intros k [? _]%plenty_next. done.
      * unfold when. eapply (wp_set_file cs n la); [done | done |]. cbv beta. pose proof (E true) as Et. cbv iota in Et. rewrite <- Et.
        apply HQ; [by exists true | apply suffix_cons_r; reflexivity |]. intros k [_ Hp]%plenty_next. done.
Qed.

Lemma wp_notify_files (m : ST (card H) A) mask id cs n la us hw ps fs : forall l i sv al,
  NoDup (map f_addr (l ++ fs)) ->
  (forall fs' al' i' sv', told mask id fs al fs' al' -> wp m Q (Card H cs n la (l ++ fs') us hw i' sv' al' ps)) ->
  wp (notify_files mask id (map f_addr fs);;; m) Q (Card H cs n la (l ++ fs) us hw i sv al ps).
Proof.
  induction fs as [| f fs IH]; intros l i sv al Hn HQ; cbn [map notify_files].
  - apply wp_ret, HQ. split_and!; [constructor | reflexivity | done].
  - unfold wp. rewrite bind_assoc. fold (wp (notify_file mask id (f_addr f);;; notify_files mask id (map f_addr fs);;; m) Q (Card H cs n la (l ++ f :: fs) us hw i sv al ps)).
    apply wp_notify_file; [done |]. intros f' al1 i1 sv1 Hf Ha Hk. assert (E : f_addr f' = f_addr f) by (destruct Hf as [ok ->]; apply note_keeps).
    replace (l ++ f' :: fs) with ((l ++ [f']) ++ fs) by (by rewrite <- app_assoc). apply IH.
    { rewrite <- app_assoc. rewrite map_app in Hn |- *. cbn in *. by rewrite E. }
    intros fs' al2 i2 sv2 T. rewrite <- app_assoc. apply HQ. by eapply told_cons.
Qed.

Lemma wp_ctl_notify (m : ST (card H) A) mask id cs n la fs us hw i sv al ps :
  NoDup (map f_addr fs) ->
  (forall fs' al' i' sv', told mask id fs al fs' al' -> wp m Q (Card H cs n la fs' us hw i' sv' al' ps)) ->
  wp (snd_ctl_notify mask id;;; m) Q (Card H cs n la fs us hw i sv al ps).
Proof.
  intros Hn HQ. unfold snd_ctl_notify, wp. rewrite bind_assoc. apply wp_ctl_spin_lock. intros sv1. unfold wp. rewrite bind_assoc. unfold bind at 1, get at 1. cbn [ctl_files].
  rewrite bind_assoc. apply (wp_notify_files _ mask id cs n la us hw ps fs []); [done |]. intros fs' al' i1 sv2 T. apply wp_ctl_spin_unlock. intros i2. by apply HQ.
Qed.
End Notify.

(** Telling the files leaves a card in order. *)
Lemma ordered_told {H} mask id cs n la fs us hw i sv al ps fs' us' hw' i' sv' al' ps' :
  ordered (Card H cs n la fs us hw i sv al ps) -> told mask id fs al fs' al' -> ordered (Card H cs n la fs' us' hw' i' sv' al' ps').
Proof.
  intros [O1 O2 O3 O4 O5 O6 O7 O8] (T1 & [k ->] & _). cbn in *. pose proof (noted_addr _ _ _ _ T1) as E. split; cbn; rewrite ?E; try done.
  - unfold addresses in *. cbn in *. rewrite ?E. rewrite List.filter_app in O1. apply NoDup_cons in O1 as [N O1]. rewrite !elem_of_app in N.
    apply NoDup_cons. rewrite !elem_of_app. split; [tauto |]. apply NoDup_app in O1 as (A1 & A2 & (A3 & A4 & (_ & _ & A5)%NoDup_app)%NoDup_app).
    apply NoDup_app. split_and!; [done | |].
    + intros x Hx Hin. apply (A2 x Hx). rewrite !elem_of_app in *. tauto.
    + apply NoDup_app. split_and!; [done | | done]. intros x Hx Hin. apply (A4 x Hx). rewrite elem_of_app. tauto.
  - by eapply noted_ok.
Qed.
