(* ===== verification/ControlCalls.v ===== *)
(** * ControlCalls: every call of the control code keeps a card in order

    What applications and drivers call, one after the other; and what a call may change that
    another file has locked. *)

From S2P Require Import Prelude Control ControlRules.
Open Scope Z_scope.
Open Scope state_scope.

(** ** Changes that keep a card in order *)

Lemma filter_sub {A B} (p : A -> B) (f : A -> bool) l : map p (List.filter f l) `sublist_of` map p l.
Proof. induction l as [| x l IH]; cbn; [constructor |]. destruct (f x); by constructor. Qed.

Lemma filter_Forall {A} (P : A -> Prop) (f : A -> bool) l : Forall P l -> Forall P (List.filter f l).
Proof. induction 1 as [| x l Hx Hl IH]; cbn; [constructor |]. destruct (f x); [by constructor | done]. Qed.

Lemma elem_filter {A} (f : A -> bool) l x : x ∈ List.filter f l <-> x ∈ l /\ f x = true.
Proof. rewrite !list_elem_of_In. apply filter_In. Qed.

Section Changes.
Context {H : Type}.
Context (cs : list kctl) (n la : Z) (fs : list cfile) (us us' : Z) (hw hw' : H) (i i' : bool) (sv sv' : list (lock * bool)) (al : list Z) (ps ps' : list (Z * Z)).

Lemma ordered_less al' : al' `suffix_of` al -> ordered (Card H cs n la fs us hw i sv al ps) -> ordered (Card H cs n la fs us' hw' i' sv' al' ps').
Proof.
  intros [k ->] [O1 O2 O3 O4 O5 O6 O7 O8]. split; try done. eapply sublist_NoDup; [exact O1 |]. unfold addresses. cbn. rewrite List.filter_app.
  constructor. apply sublist_app; [done |]. apply sublist_app; [done |]. apply sublist_inserts_l; done.
Qed.

Lemma ordered_open a pid : a <> 0 -> ordered (Card H cs n la fs us hw i sv (a :: al) ps) ->
  ordered (Card H cs n la (fs ++ [CFile a pid false []]) us' hw' i' sv' al ps').
Proof.
  intros Ha [O1 O2 O3 O4 O5 O6 O7 O8]. split; try done; cbn in *.
  - revert O1. unfold addresses. cbn. replace (a =? 0) with false by lia. cbn. rewrite map_app. cbn. intros O1. eapply NoDup_Permutation_proper; [| exact O1]. solve_Permutation.
  - eapply Forall_impl; [exact O6 |]. intros k [? | ?]; [by left | right]. cbn. rewrite map_app. apply elem_of_app. by left.
  - apply Forall_app. split; [done |]. repeat constructor.
Qed.

Definition disown (ctl : Z) (k : kctl) : kctl := if k_owner k =? ctl then k <| k_owner := 0 |> else k.

Lemma disown_keeps ctl k : k_addr (disown ctl k) = k_addr k /\ k_id (disown ctl k) = k_id k /\ (callable k -> callable (disown ctl k)).
Proof. unfold disown. by destruct (_ =? _). Qed.

Lemma ordered_release ctl : ordered (Card H cs n la fs us hw i sv al ps) ->
  ordered (Card H (map (disown ctl) cs) n la (List.filter (fun f => negb (f_addr f =? ctl)) fs) us' hw' i' sv' al ps').
Proof.
  intros [O1 O2 O3 O4 O5 O6 O7 O8]. cbn in *.
  assert (Ea : map k_addr (map (disown ctl) cs) = map k_addr cs) by (rewrite map_map; apply map_ext; intros k; apply disown_keeps).
  split; cbn; try done.
  - eapply sublist_NoDup; [exact O1 |]. unfold addresses. cbn. rewrite Ea. constructor. apply sublist_app; [done |]. apply sublist_app; [| done].
    apply filter_sub.
  - by rewrite length_map.
  - rewrite map_map. erewrite map_ext; [exact O3 |]. intros k. cbn. by rewrite (proj1 (proj2 (disown_keeps ctl k))).
  - apply Forall_fmap. eapply Forall_impl; [exact O5 |]. intros k Hk. cbn. by rewrite (proj1 (proj2 (disown_keeps ctl k))).
  - apply Forall_fmap. eapply Forall_impl; [exact O6 |]. intros k Hk. cbn. unfold disown. destruct (Z.eqb_spec (k_owner k) ctl) as [E | E]; [by left |].
    destruct Hk as [| (f & Ef & Hf)%list_elem_of_fmap]; [by left | right]. rewrite Ef. apply list_elem_of_fmap_2, elem_filter. split; [done | lia].
  - apply Forall_fmap. eapply Forall_impl; [exact O7 |]. intros k Hk. by apply disown_keeps.
  - by apply filter_Forall.
Qed.

Lemma ordered_add k : k_addr k <> 0 -> k_addr k ∉ al -> k_addr k ∉ map k_addr cs -> k_addr k ∉ map f_addr fs -> k_owner k = 0 -> callable k ->
  numid (k_id k) = la + 1 -> la < UINT_MAX -> ordered (Card H cs n la fs us hw i sv al ps) ->
  ordered (Card H (cs ++ [k]) (n + 1) (la + 1) fs us' hw' i' sv' al ps').
Proof.
  intros Hz Hal Hcs Hfs Ho Hk Hn Hla [O1 O2 O3 O4 O5 O6 O7 O8]. cbn in *. split; cbn; try done; try lia.
  - unfold addresses in *. cbn in *. rewrite map_app. cbn. apply (NoDup_Permutation_proper (k_addr k :: 0 :: map k_addr cs ++ map f_addr fs ++ List.filter (fun a => negb (a =? 0)) al));
      [solve_Permutation |]. apply NoDup_cons. split; [| done]. rewrite elem_of_cons, !elem_of_app, elem_filter. naive_solver.
  - rewrite length_app. cbn. lia.
  - rewrite map_app. apply NoDup_app. split_and!; [done | | apply NoDup_singleton]. intros x (k' & -> & Hk')%list_elem_of_fmap Hx%list_elem_of_singleton.
    rewrite Forall_forall in O5. specialize (O5 k' Hk'). lia.
  - apply Forall_app. split; [eapply Forall_impl; [exact O5 |]; cbn; lia |]. repeat constructor; lia.
  - apply Forall_app. split; [done |]. constructor; [by left | constructor].
  - apply Forall_app. split; [done |]. constructor; [done | constructor].
Qed.

Lemma ordered_remove k : k ∈ cs -> ordered (Card H cs n la fs us hw i sv al ps) ->
  ordered (Card H (List.filter (fun x => negb (k_addr x =? k_addr k)) cs) (n - 1) la fs us' hw' i' sv' al ps').
Proof.
  intros Hk O. pose proof (ordered_kctl_addr _ O) as Hn. destruct O as [O1 O2 O3 O4 O5 O6 O7 O8]. cbn in *. split; cbn; try done; try (by apply filter_Forall).
  - eapply sublist_NoDup; [exact O1 |]. unfold addresses. cbn. constructor. apply sublist_app; [apply filter_sub | done].
  - rewrite O2. clear -Hk Hn. induction cs as [| x l IH]; [by apply elem_of_nil in Hk |]. cbn in *. apply NoDup_cons in Hn as [Hx Hn].
    destruct (Z.eqb_spec (k_addr x) (k_addr k)) as [E | NE]; cbn [negb].
    + replace (List.filter _ l) with l; [lia |]. clear -E Hx. induction l as [| y l IH]; [done |]. cbn in *. apply not_elem_of_cons in Hx as [Hy Hl].
      replace (k_addr y =? k_addr k) with false by lia. cbn. f_equal. by apply IH.
    + apply elem_of_cons in Hk as [-> | Hk]; [done |]. cbn. specialize (IH Hk Hn). lia.
  - by apply drop_key_NoDup.
Qed.

(** A control that stays where it is. *)
Lemma ordered_set_kctl k g :
  (forall x, k_addr (g x) = k_addr x /\ numid (k_id (g x)) = numid (k_id x) /\ (callable x -> callable (g x)) /\ (k_owner (g x) = 0 \/ k_owner (g x) ∈ map f_addr fs)) ->
  ordered (Card H cs n la fs us hw i sv al ps) ->
  ordered (Card H (map (fun x => if k_addr x =? k_addr k then g x else x) cs) n la fs us' hw' i' sv' al ps').
Proof.
  intros Hg [O1 O2 O3 O4 O5 O6 O7 O8]. cbn in *. split; cbn; try done.
  - unfold addresses in *. cbn in *. rewrite set_key_proj; [done |]. intros x. apply Hg.
  - by rewrite length_map.
  - rewrite set_key_proj; [done |]. intros x. apply Hg.
  - apply Forall_fmap. eapply Forall_impl; [exact O5 |]. intros x Hx. cbn. destruct (_ =? _); [| done]. by rewrite (proj1 (proj2 (Hg x))).
  - apply Forall_fmap. eapply Forall_impl; [exact O6 |]. intros x Hx. cbn. destruct (_ =? _); [| done]. apply Hg.
  - apply Forall_fmap. eapply Forall_impl; [exact O7 |]. intros x Hx. cbn. destruct (_ =? _); [| done]. by apply Hg.
Qed.

(** It gets another name and the next number. *)
Lemma ordered_rename k dst : k ∈ cs -> la < UINT_MAX -> ordered (Card H cs n la fs us hw i sv al ps) ->
  ordered (Card H (map (fun x => if k_addr x =? k_addr k then x <| k_id := dst <| numid := la + 1 |> |> else x) cs) n (la + 1) fs us' hw' i' sv' al ps').
Proof.
  intros Hk Hla O. pose proof (ordered_kctl_addr _ O) as Hn. destruct O as [O1 O2 O3 O4 O5 O6 O7 O8]. cbn in *. split; cbn; try done; try lia.
  - unfold addresses in *. cbn in *. by rewrite set_key_proj.
  - by rewrite length_map.
  - apply list_elem_of_split in Hk as (l & l' & ->). rewrite set_key_mid by done. rewrite map_app in O3 |- *. cbn in *.
    apply Forall_app in O5 as [F1 [F2 F3]%Forall_cons]. apply NoDup_app in O3 as (A1 & A2 & [A3 A4]%NoDup_cons).
    apply NoDup_app. split_and!; [done | |].
    + intros x Hx [-> | Hx']%elem_of_cons; [| apply (A2 x Hx); by right]. apply list_elem_of_fmap in Hx as (k' & E & Hk'). rewrite Forall_forall in F1. specialize (F1 k' Hk'). lia.
    + apply NoDup_cons. split; [| done]. intros (k' & E & Hk')%list_elem_of_fmap. rewrite Forall_forall in F3. specialize (F3 k' Hk'). lia.
  - apply Forall_fmap. eapply Forall_impl; [exact O5 |]. intros x Hx. cbv beta in Hx. cbn. destruct (_ =? _); cbn; lia.
  - apply Forall_fmap. eapply Forall_impl; [exact O6 |]. intros x Hx. cbn. by destruct (_ =? _).
  - apply Forall_fmap. eapply Forall_impl; [exact O7 |]. intros x Hx. cbn. by destruct (_ =? _).
Qed.
End Changes.

Lemma ordered_set_file {H} cs n la l f l' us us' (hw hw' : H) i i' sv sv' al ps ps' g :
  f_addr (g f) = f_addr f -> file_ok (g f) -> ordered (Card H cs n la (l ++ f :: l') us hw i sv al ps) -> ordered (Card H cs n la (l ++ g f :: l') us' hw' i' sv' al ps').
Proof.
  intros Ea Hg [O1 O2 O3 O4 O5 O6 O7 O8]. cbn in *. assert (E : map f_addr (l ++ g f :: l') = map f_addr (l ++ f :: l')) by (rewrite !map_app; cbn; by rewrite Ea).
  split; cbn; rewrite ?E; try done.
  apply Forall_app in O8 as [F1 [F2 F3]%Forall_cons]. apply Forall_app. split; [done |]. by apply Forall_cons.
Qed.

(** ** What a call may do *)

(** A step of the file [who]; 0 is the driver.  Other files keep their locks, and [put] is
    called for controls that nobody else has locked; controls appear where there was memory. *)
Record step {H} (who : Z) (c c' : card H) : Prop := {
  st_ordered : ordered c';
  st_alloc : c_alloc c' `suffix_of` c_alloc c;
  st_owner k k' : k ∈ controls c -> k_owner k <> 0 -> k_owner k <> who -> k' ∈ controls c' -> k_addr k' = k_addr k -> k_owner k' = k_owner k;
  st_puts : exists l, c_puts c' = c_puts c ++ l /\
    forall p, p ∈ l -> p.1 = who /\ (p.2 ∈ map k_addr (controls c) \/ p.2 ∈ c_alloc c) /\
      forall k, k ∈ controls c -> k_addr k = p.2 -> k_owner k = 0 \/ k_owner k = who;
  st_addr k' : k' ∈ controls c' -> k_addr k' ∈ map k_addr (controls c) \/ k_addr k' ∈ c_alloc c }.

Section Steps.
Context {H : Type}.
Implicit Types (c : card H).

Lemma addr_not_free c k : ordered c -> k ∈ controls c -> k_addr k ∉ c_alloc c.
Proof.
  intros O Hk Ha. pose proof (od_addr _ O) as [_ (_ & A & _)%NoDup_app]%NoDup_cons. apply (A (k_addr k)); [by apply list_elem_of_fmap_2 |].
  apply elem_of_app. right. apply elem_filter. split; [done |]. pose proof (ordered_kctl_nz _ O k Hk). lia.
Qed.

Lemma same_addr c k k' : ordered c -> k ∈ controls c -> k' ∈ controls c -> k_addr k' = k_addr k -> k' = k.
Proof.
  intros O Hk Hk' E. pose proof (find_key _ _ _ (ordered_kctl_addr _ O) Hk) as F. pose proof (find_key _ _ _ (ordered_kctl_addr _ O) Hk') as F'. rewrite E in F'. congruence.
Qed.

Lemma step_trans who c c1 c2 : ordered c -> step who c c1 -> step who c1 c2 -> step who c c2.
Proof.
  intros O [A1 A2 A3 A4 A5] [B1 B2 B3 B4 B5].
  assert (Mid : forall a, a ∈ map k_addr (controls c1) \/ a ∈ c_alloc c1 -> a ∈ map k_addr (controls c) \/ a ∈ c_alloc c).
  { intros a [(k1 & -> & H1)%list_elem_of_fmap | Hin]; [by apply A5 | right]. destruct A2 as [x ->]. apply elem_of_app. by right. }
  assert (Stay : forall k a, k ∈ controls c -> k_addr k = a -> a ∈ map k_addr (controls c1) \/ a ∈ c_alloc c1 -> exists k1, k1 ∈ controls c1 /\ k_addr k1 = k_addr k).
  { intros k a Hk E [(k1 & E1 & H1)%list_elem_of_fmap | Hin]; [exists k1; split; [done | congruence] |].
    destruct (addr_not_free _ _ O Hk). rewrite E. destruct A2 as [x ->]. apply elem_of_app. by right. }
  split; [done | by etrans | | |].
  - intros k k2 Hk H0 Hw Hk2 E. destruct (Stay k (k_addr k2) Hk (eq_sym E) (B5 _ Hk2)) as (k1 & H1 & E1).
    pose proof (A3 k k1 Hk H0 Hw H1 E1) as Eo. rewrite <- Eo. apply B3; congruence.
  - destruct A4 as (l1 & E1 & P1), B4 as (l2 & E2 & P2). exists (l1 ++ l2). split; [rewrite E2, E1; by rewrite app_assoc |].
    intros p [Hp | Hp]%elem_of_app; [by apply P1 |]. destruct (P2 p Hp) as (Ew & Hin & Ho). split_and!; [done | by apply Mid |].
    intros k Hk Ep. destruct (Stay k p.2 Hk Ep Hin) as (k1 & H1 & Ek1). destruct (decide (k_owner k = 0)) as [| N0]; [by left |].
    destruct (decide (k_owner k = who)) as [| Nw]; [by right |]. pose proof (A3 k k1 Hk N0 Nw H1 Ek1) as Eo. destruct (Ho k1 H1 ltac:(congruence)); congruence.
  - intros k2 Hk2. apply Mid, B5, Hk2.
Qed.

(** Nothing that concerns controls. *)
Lemma step_less who cs n la fs us us' (hw hw' : H) i i' sv sv' al al' ps :
  al' `suffix_of` al -> ordered (Card H cs n la fs us hw i sv al ps) -> step who (Card H cs n la fs us hw i sv al ps) (Card H cs n la fs us' hw' i' sv' al' ps).
Proof.
  intros Ha O. split; [by eapply ordered_less | done | | exists []; cbn; rewrite app_nil_r; split; [done | by intros p ?%elem_of_nil] | intros k' Hk'; left; by apply list_elem_of_fmap_2].
  cbn. intros k k' Hk _ _ Hk' E. by rewrite (same_addr _ _ _ O Hk Hk' E).
Qed.

Lemma step_files who cs n la fs fs' us us' (hw hw' : H) i i' sv sv' al al' ps :
  al' `suffix_of` al -> ordered (Card H cs n la fs us hw i sv al ps) -> ordered (Card H cs n la fs' us' hw' i' sv' al' ps) ->
  step who (Card H cs n la fs us hw i sv al ps) (Card H cs n la fs' us' hw' i' sv' al' ps).
Proof. intros Ha O O'. destruct (step_less who cs n la fs us us' hw hw' i i' sv sv' al al' ps Ha O) as [_ B1 B2 B3 B4]. by split. Qed.

Lemma step_told who mask id cs n la fs us us' (hw hw' : H) i i' sv sv' al ps fs' al' :
  ordered (Card H cs n la fs us hw i sv al ps) -> told mask id fs al fs' al' ->
  step who (Card H cs n la fs us hw i sv al ps) (Card H cs n la fs' us' hw' i' sv' al' ps).
Proof. intros O T. apply step_files; [apply T | done | by eapply ordered_told]. Qed.

(** Controls that change or go; a lock changes only if it is nobody else's. *)
Lemma step_controls who cs cs' n n' la la' fs fs' us us' (hw hw' : H) i i' sv sv' al ps :
  (forall k', k' ∈ cs' -> exists k, k ∈ cs /\ k_addr k' = k_addr k /\ (k_owner k' = k_owner k \/ k_owner k = 0 \/ k_owner k = who)) ->
  ordered (Card H cs n la fs us hw i sv al ps) -> ordered (Card H cs' n' la' fs' us' hw' i' sv' al ps) ->
  step who (Card H cs n la fs us hw i sv al ps) (Card H cs' n' la' fs' us' hw' i' sv' al ps).
Proof.
  intros Hcs O O'. split; [done | reflexivity | | exists []; cbn; rewrite app_nil_r; split; [done | by intros p ?%elem_of_nil] |]; cbn.
  - intros k k' Hk H0 Hw Hk' E. destruct (Hcs k' Hk') as (k0 & Hk0 & E0 & Ho). assert (k0 = k) as -> by (eapply same_addr; [exact O | done | done | congruence]).
    destruct Ho as [? | [? | ?]]; congruence.
  - intros k' Hk'. destruct (Hcs k' Hk') as (k0 & Hk0 & -> & _). left. by apply list_elem_of_fmap_2.
Qed.

(** One control changes its lock. *)
Lemma step_set_kctl who k g cs n la fs us us' (hw hw' : H) i i' sv sv' al ps :
  k ∈ cs -> (forall x, k_addr (g x) = k_addr x) -> k_owner k = 0 \/ k_owner k = who \/ k_owner (g k) = k_owner k ->
  ordered (Card H cs n la fs us hw i sv al ps) ->
  ordered (Card H (map (fun x => if k_addr x =? k_addr k then g x else x) cs) n la fs us' hw' i' sv' al ps) ->
  step who (Card H cs n la fs us hw i sv al ps) (Card H (map (fun x => if k_addr x =? k_addr k then g x else x) cs) n la fs us' hw' i' sv' al ps).
Proof.
  intros Hk Ha Ho O O'. apply step_controls; [| done | done]. intros k' (x & -> & Hx)%list_elem_of_fmap. exists x. cbn.
  destruct (Z.eqb_spec (k_addr x) (k_addr k)) as [E | E]; [| split_and!; auto]. assert (x = k) as -> by (eapply same_addr; [exact O | done | done | done]).
  split_and!; [done | apply Ha | tauto].
Qed.

Lemma step_add who k cs n la fs us us' (hw hw' : H) i i' sv sv' al ps :
  k_addr k <> 0 -> k_owner k = 0 -> callable k -> numid (k_id k) = la + 1 -> la < UINT_MAX ->
  ordered (Card H cs n la fs us hw i sv (k_addr k :: al) ps) ->
  ordered (Card H (cs ++ [k]) (n + 1) (la + 1) fs us' hw' i' sv' al ps) /\
  step who (Card H cs n la fs us hw i sv (k_addr k :: al) ps) (Card H (cs ++ [k]) (n + 1) (la + 1) fs us' hw' i' sv' al ps).
Proof.
  intros Ha Ho Hk Hn Hla O. pose proof (addr_not_free _ k O) as Free. cbn in Free.
  assert (O' : ordered (Card H (cs ++ [k]) (n + 1) (la + 1) fs us' hw' i' sv' al ps)).
  { pose proof (od_addr _ O) as A. unfold addresses in A. cbn in A. replace (k_addr k =? 0) with false in A by lia. cbn in A.
    apply NoDup_cons in A as [_ (_ & A1 & (_ & A2 & [A3 _]%NoDup_cons)%NoDup_app)%NoDup_app].
    apply (ordered_add cs n la fs us us' hw hw' i i' sv sv' al ps ps); try done.
    - intros Hin. apply A3, elem_filter. split; [done | lia].
    - intros Hin. apply (A1 _ Hin), elem_of_app. right. left.
    - intros Hin. apply (A2 _ Hin). left.
    - eapply ordered_less; [| exact O]. apply suffix_cons_r. reflexivity. }
  split; [done |]. split; [done | apply suffix_cons_r; reflexivity | | exists []; cbn; rewrite app_nil_r; split; [done | by intros p ?%elem_of_nil] |]; cbn.
  - intros x x' Hx _ _ [Hx' | ->%list_elem_of_singleton]%elem_of_app E; [by rewrite (same_addr _ _ _ O Hx Hx' E) |].
    destruct (addr_not_free _ x O Hx). cbn. rewrite E. left.
  - intros k' [Hk' | ->%list_elem_of_singleton]%elem_of_app; [left; by apply list_elem_of_fmap_2 | right; left].
Qed.

Lemma step_put who k cs n la fs us us' (hw hw' : H) i i' sv sv' al ps :
  k ∈ cs -> k_owner k = 0 \/ k_owner k = who -> ordered (Card H cs n la fs us hw i sv al ps) ->
  step who (Card H cs n la fs us hw i sv al ps) (Card H cs n la fs us' hw' i' sv' al (ps ++ [(who, k_addr k)])).
Proof.
  intros Hk Ho O. destruct (step_less who cs n la fs us us' hw hw' i i' sv sv' al al ps) as [A1 A2 A3 A4 A5]; [reflexivity | done |].
  split; [by eapply ordered_same | done | done | | done]. exists [(who, k_addr k)]. cbn. split; [done |]. intros p ->%list_elem_of_singleton. cbn.
  split_and!; [done | left; by apply list_elem_of_fmap_2 |]. intros x Hx E. by rewrite (same_addr _ _ _ O Hk Hx E).
Qed.
End Steps.

(** ** Each operation *)

(** The state after an assignment, as a record again. *)
Ltac at_state := match goal with |- wp ?m ?Q ?s => let s' := eval cbn in s in change (wp m Q s') end.
Ltac get_state := match goal with |- wp (bind get ?m) ?Q ?s => change (wp (m s) Q s); cbv beta end.
Ltac assign := match goal with |- wp (bind (update ?f) (fun _ => ?m)) ?Q ?s => change (wp m Q (f s)); cbv beta; at_state end.

Section Operations.
Context {H : Type} `{CtlOps H}.
Implicit Types (c : card H).

Lemma suffix_tail {A} (a : A) l : l `suffix_of` a :: l.
Proof. by apply suffix_cons_r. Qed.

Lemma wp_open who pid c : ordered c -> wp (snd_ctl_open pid) (fun _ c' => step who c c') c.
Proof.
  destruct c as [cs n la fs us hw i sv al ps]. intros O. unfold snd_ctl_open. assign. apply wp_ctl_kmalloc.
  - intros ->. cbn [Z.eqb]. assign. apply wp_ret. by apply step_less.
  - intros a al' ->. destruct (Z.eqb_spec a 0) as [-> | Ha]; [assign; apply wp_ret; apply step_less; [apply suffix_tail | done] |].
    apply wp_ctl_spin_lock. intros sv1. assign. apply wp_ctl_spin_unlock. intros i1. apply wp_ret.
    apply step_files; [apply suffix_tail | done |]. by eapply ordered_open.
Qed.

Lemma wp_ctl_release f c : ordered c -> f ∈ ctl_files c -> wp (snd_ctl_release (f_addr f)) (fun _ c' => step (f_addr f) c c') c.
Proof.
  destruct c as [cs n la fs us hw i sv al ps]. intros O Hf. unfold snd_ctl_release. apply wp_file_at; [apply (ordered_file_addr _ O) | done |].
  apply wp_ctl_spin_lock. intros sv1. assign. apply wp_ctl_spin_unlock. intros i1. apply wp_ctl_spin_lock. intros sv2. assign. apply wp_ctl_spin_unlock. intros i2.
  apply wp_ctl_spin_lock. intros sv3. apply wp_ctl_spin_unlock. intros i3. assign. apply wp_ret.
  apply step_controls; [| done | by eapply ordered_release]. intros k' (k & -> & Hk)%list_elem_of_fmap. exists k. cbn.
  destruct (Z.eqb_spec (k_owner k) (f_addr f)); auto.
Qed.

Lemma wp_step_notify {A} who mask id (m : ST (card H) A) Q cs n la fs us hw i sv al ps :
  ordered (Card H cs n la fs us hw i sv al ps) ->
  (forall c', ordered c' -> step who (Card H cs n la fs us hw i sv al ps) c' -> controls c' = cs -> wp m Q c') ->
  wp (snd_ctl_notify mask id;;; m) Q (Card H cs n la fs us hw i sv al ps).
Proof.
  intros O HQ. apply wp_ctl_notify; [apply (ordered_file_addr _ O) |]. intros fs' al' i' sv' T. apply HQ; [by eapply ordered_told | by eapply step_told | done].
Qed.

Lemma wp_add who nw c : ordered c -> last_numid c < UINT_MAX -> wp (k <- snd_ctl_new1 nw;; snd_ctl_add k) (fun _ c' => step who c c') c.
Proof.
  destruct c as [cs n la fs us hw i sv al ps]. cbn. intros O Hla. apply wp_bind. unfold snd_ctl_new1. apply wp_ctl_kmalloc.
  - intros ->. apply wp_ret. unfold snd_ctl_add. cbn [k_addr Z.eqb]. apply wp_ret. by apply step_less.
  - intros a al' ->. apply wp_ret. pose proof (od_last _ O) as Hlast. cbn in Hlast. unfold snd_ctl_add. set (k0 := Kctl _ _ _ _ _ _ _).
    assert (Ek : k_addr k0 = a /\ k_owner k0 = 0) by done. clearbody k0. destruct Ek as [Ek E0]. rewrite Ek.
    destruct (Z.eqb_spec a 0) as [-> | Ha]; [apply wp_ret; apply step_less; [apply suffix_tail | done] |].
    destruct (has (k_access k0) ACCESS_READ && negb (k_get k0)) eqn:Er; [apply wp_ret; apply step_less; [apply suffix_tail | done] |].
    destruct (has (k_access k0) ACCESS_WRITE && negb (k_put k0)) eqn:Ew; [apply wp_ret; apply step_less; [apply suffix_tail | done] |].
    apply wp_ctl_spin_lock. intros sv1. get_state. cbn [last_numid]. replace (u32 (la + 1)) with (la + 1) by word_lia. set (k := k0 <| k_id := _ |>). assign.
    apply wp_ctl_spin_unlock. intros i1.
    assert (Hk : callable k).
    { split; cbn; intros Hh; [rewrite Hh in Er; by destruct (k_get k0) | rewrite Hh in Ew; by destruct (k_put k0)]. }
    assert (E : k_addr k = a) by done. rewrite <- E in O |- *. destruct (step_add who k cs n la fs us us hw hw i i1 sv sv1 al' ps) as [O' S]; try done; [congruence |].
    apply (wp_step_notify who); [done |]. intros c' O2 S2 _. apply wp_ret. by eapply step_trans.
Qed.

Lemma wp_ctl_remove who k c : ordered c -> k ∈ controls c ->
  wp (snd_ctl_remove (k_addr k)) (fun _ c' => step who c c' /\ controls c' = List.filter (fun x => negb (k_addr x =? k_addr k)) (controls c)) c.
Proof.
  destruct c as [cs n la fs us hw i sv al ps]. cbn. intros O Hk. unfold snd_ctl_remove. apply wp_kctl_at; [apply (ordered_kctl_addr _ O) | done |].
  apply wp_ctl_spin_lock. intros sv1. assign. apply wp_ctl_spin_unlock. intros i1.
  assert (S : step who (Card H cs n la fs us hw i sv al ps) (Card H (List.filter (fun x => negb (k_addr x =? k_addr k)) cs) (n - 1) la fs us hw i1 sv1 al ps)).
  { apply step_controls; [| done | by eapply ordered_remove]. intros k' [Hk' _]%elem_filter. exists k'. auto. }
  apply (wp_step_notify who); [apply S |]. intros [cs2 n2 la2 fs2 us2 hw2 i2 sv2 al2 ps2] O2 S2 E. assign. apply wp_ret. split; [| done].
  eapply step_trans; [done | exact S |]. eapply step_trans; [apply S | exact S2 |]. by apply step_less.
Qed.

(** What the search finds is there. *)
Lemma lookup_elem id cs k : lookup_id id cs = Some k -> k ∈ cs.
Proof. unfold lookup_id. destruct (_ =? _); intros [? _]%find_some; by apply list_elem_of_In. Qed.

(** A search that leads to a call on the control. *)
Lemma wp_found {A} id (m : Z -> ST (card H) A) Q cs n la fs us hw i sv al ps :
  ordered (Card H cs n la fs us hw i sv al ps) ->
  (forall i' sv', wp (m 0) Q (Card H cs n la fs us hw i' sv' al ps)) ->
  (forall k i' sv', k ∈ cs -> lookup_id id cs = Some k -> k_addr k <> 0 -> ordered (Card H cs n la fs us hw i' sv' al ps) -> wp (m (k_addr k)) Q (Card H cs n la fs us hw i' sv' al ps)) ->
  wp (bind (snd_ctl_find_id id) m) Q (Card H cs n la fs us hw i sv al ps).
Proof.
  intros O H0' H1. apply wp_find_id. intros i' sv'. destruct (lookup_id id cs) as [k |] eqn:E; [| apply H0']. pose proof (lookup_elem _ _ _ E) as Hk.
  apply H1; [done | done | by apply (ordered_kctl_nz _ O) | by eapply ordered_same].
Qed.

Lemma wp_remove_id who id c : ordered c -> wp (snd_ctl_remove_id id) (fun _ c' => step who c c') c.
Proof.
  destruct c as [cs n la fs us hw i sv al ps]. intros O. unfold snd_ctl_remove_id. apply wp_found; [done | |].
  - intros i1 sv1. apply wp_ret. by apply step_less.
  - intros k i1 sv1 Hk _ Hz O1. replace (k_addr k =? 0) with false by lia. eapply wp_mono; [by apply (wp_ctl_remove who k) |].
    intros r c' [S _]. eapply step_trans; [done | | exact S]. by apply step_less.
Qed.

Lemma wp_rename_id who src dst c : ordered c -> last_numid c < UINT_MAX -> wp (snd_ctl_rename_id src dst) (fun _ c' => step who c c') c.
Proof.
  destruct c as [cs n la fs us hw i sv al ps]. cbn. intros O Hla. pose proof (od_last _ O) as Hlast. cbn in Hlast. unfold snd_ctl_rename_id. apply wp_found; [done | |].
  - intros i1 sv1. apply wp_ret. by apply step_less.
  - intros k i1 sv1 Hk _ Hz O1. replace (k_addr k =? 0) with false by lia. apply wp_ctl_spin_lock. intros sv2. get_state. cbn [last_numid].
    replace (u32 (la + 1)) with (la + 1) by word_lia. assign. apply wp_bind, wp_set_kctl; [apply (ordered_kctl_addr _ O) | done |].
    apply wp_ctl_spin_unlock. intros i2. apply wp_ret. apply step_controls; [| done | by eapply ordered_rename].
    intros k' (x & -> & Hx)%list_elem_of_fmap. exists x. cbn. destruct (_ =? _); auto.
Qed.

Lemma wp_notify_call who mask id c : ordered c -> wp (snd_ctl_notify mask id) (fun _ c' => step who c c') c.
Proof.
  destruct c as [cs n la fs us hw i sv al ps]. intros O.
  assert (W : wp (snd_ctl_notify mask id;;; ret tt) (fun _ c' => step who (Card H cs n la fs us hw i sv al ps) c') (Card H cs n la fs us hw i sv al ps)).
  { apply (wp_step_notify who); [done |]. intros c' _ S _. by apply wp_ret. }
  unfold wp, bind in *. by destruct (snd_ctl_notify mask id _) as [[[] c'] |].
Qed.

Lemma wp_elem_list who ok_in ok_out fault offset space c : ordered c -> wp (snd_ctl_elem_list ok_in ok_out fault offset space) (fun _ c' => step who c c') c.
Proof.
  destruct c as [cs n la fs us hw i sv al ps]. intros O. unfold snd_ctl_elem_list. destruct ok_in; cbn [negb]; [| apply wp_ret; by apply step_less].
  apply wp_ctl_spin_lock. intros sv1. get_state. apply wp_ctl_spin_unlock. intros i1. destruct (existsb _ _); [| destruct ok_out]; apply wp_ret; by apply step_less.
Qed.

Lemma wp_elem_info who ok_in ok_out ctl id c : ordered c -> wp (snd_ctl_elem_info ok_in ok_out ctl id) (fun _ c' => step who c c') c.
Proof.
  destruct c as [cs n la fs us hw i sv al ps]. intros O. unfold snd_ctl_elem_info. destruct ok_in; cbn [negb]; [| apply wp_ret; by apply step_less].
  apply wp_ctl_spin_lock. intros sv1. apply wp_found; [by eapply ordered_same | intros i1 sv2; apply wp_ctl_spin_unlock; intros i2; apply wp_ret; by apply step_less |].
  intros k i1 sv2 Hk _ Hz O1. replace (k_addr k =? 0) with false by lia. apply wp_kctl_at; [apply (ordered_kctl_addr _ O) | done |].
  get_state. destruct (op_info _ _) as [result h]. assign. apply wp_ctl_spin_unlock. intros i2.
  destruct (result <? 0); [| destruct ok_out]; apply wp_ret; by apply step_less.
Qed.

Lemma wp_hand_back ok_out a result value c (Q : Z * option (elem_id * list Z) -> card H -> Prop) :
  ordered c -> (0 <= result -> exists k, k ∈ controls c /\ k_addr k = a) -> (forall r, Q r c) -> wp (hand_back ok_out a result value) Q c.
Proof.
  intros O Ha HQ. unfold hand_back. destruct (Z.ltb_spec result 0); [by apply wp_ret |]. destruct ok_out; cbn [negb]; [| by apply wp_ret].
  destruct (Ha ltac:(done)) as (k & Hk & <-). destruct c as [cs n la fs us hw i sv al ps]. apply wp_kctl_at; [apply (ordered_kctl_addr _ O) | done | by apply wp_ret].
Qed.

Lemma wp_elem_read who ok_in ok_out id indirect value c : ordered c -> wp (snd_ctl_elem_read ok_in ok_out id indirect value) (fun _ c' => step who c c') c.
Proof.
  destruct c as [cs n la fs us hw i sv al ps]. intros O. unfold snd_ctl_elem_read. destruct ok_in; cbn [negb]; [| apply wp_ret; by apply step_less].
  apply wp_ctl_spin_lock. intros sv1. apply wp_found; [by eapply ordered_same | |].
  - intros i1 sv2. apply wp_bind, wp_ret. apply wp_ctl_spin_unlock. intros i2. apply wp_hand_back; [by eapply ordered_same | done | intros r; by apply step_less].
  - intros k i1 sv2 Hk _ Hz O1. replace (k_addr k =? 0) with false by lia. apply wp_bind.
    apply wp_kctl_at; [apply (ordered_kctl_addr _ O) | done |].
    assert (End : forall hw' res, wp (spin_unlock ControlLock;;; hand_back ok_out (k_addr k) res.1 res.2) (fun _ c' => step who (Card H cs n la fs us hw i sv al ps) c')
      (Card H cs n la fs us hw' i1 sv2 al ps)).
    { intros hw' res. apply wp_ctl_spin_unlock. intros i2. apply wp_hand_back; [by eapply ordered_same | by exists k | intros r; by apply step_less]. }
    destruct (negb _); [by apply wp_ret |]. destruct (has _ _ && _); [| by apply wp_ret]. get_state.
    destruct (op_get _ _ _) as [[result value'] h]. assign. by apply wp_ret.
Qed.

Lemma wp_elem_write ctl ok_in ok_out id indirect value c : ordered c -> wp (snd_ctl_elem_write ok_in ok_out ctl id indirect value) (fun _ c' => step ctl c c') c.
Proof.
  destruct c as [cs n la fs us hw i sv al ps]. intros O. unfold snd_ctl_elem_write. destruct ok_in; cbn [negb]; [| apply wp_ret; by apply step_less].
  apply wp_ctl_spin_lock. intros sv1. apply wp_found; [by eapply ordered_same | |].
  - intros i1 sv2. apply wp_bind, wp_ret. apply wp_ctl_spin_unlock. intros i2. apply wp_hand_back; [by eapply ordered_same | done | intros r; by apply step_less].
  - intros k i1 sv2 Hk _ Hz O1. replace (k_addr k =? 0) with false by lia. apply wp_bind.
    apply wp_kctl_at; [apply (ordered_kctl_addr _ O) | done |].
    assert (End : forall c' res, ordered c' -> step ctl (Card H cs n la fs us hw i sv al ps) c' -> controls c' = cs ->
      wp (spin_unlock ControlLock;;; hand_back ok_out (k_addr k) res.1 res.2) (fun _ c2 => step ctl (Card H cs n la fs us hw i sv al ps) c2) c').
    { intros [cs' n' la' fs' us' hw' i' sv' al' ps'] res O' S E. cbn in E. subst cs'. apply wp_ctl_spin_unlock. intros i2.
      apply wp_hand_back; [by eapply ordered_same | by exists k |]. intros r. eapply step_trans; [done | exact S | by apply step_less]. }
    destruct (negb _); [apply wp_ret, End; [by eapply ordered_same | by apply step_less | done] |].
    apply wp_ctl_spin_lock. intros sv3. apply wp_bind. destruct (_ || _ || _) eqn:Eb.
    { apply wp_ret. apply wp_ctl_spin_unlock. intros i2. apply wp_ret, End; [by eapply ordered_same | by apply step_less | done]. }
    apply orb_false_iff in Eb as [_ Eo]. assert (Ho : k_owner k = 0 \/ k_owner k = ctl) by lia. get_state.
    destruct (op_put _ _ _) as [[result value'] h]. assign. apply wp_ret. apply wp_ctl_spin_unlock. intros i2.
    pose proof (step_put ctl k cs n la fs us us hw h i i2 sv sv3 al ps Hk Ho O) as S. cbn [fst snd]. destruct (0 <? result); [| by apply wp_ret, End; [apply S | |]].
    apply (wp_step_notify ctl); [apply S |]. intros c' O2 S2 E2. apply wp_ret, End; [done | by eapply step_trans | done].
Qed.

(** A change of the lock of one control. *)
Lemma wp_lock_change ctl k g (r : Z) cs n la fs us hw i sv al ps i0 sv0 :
  ordered (Card H cs n la fs us hw i0 sv0 al ps) -> k ∈ cs -> k_owner k = 0 \/ k_owner k = ctl ->
  (forall x, k_addr (g x) = k_addr x /\ numid (k_id (g x)) = numid (k_id x) /\ (callable x -> callable (g x)) /\ (k_owner (g x) = 0 \/ k_owner (g x) ∈ map f_addr fs)) ->
  wp (set_kctl (k_addr k) g;;; ret r) (fun r' c' => r' = r /\ step ctl (Card H cs n la fs us hw i0 sv0 al ps) c') (Card H cs n la fs us hw i sv al ps).
Proof.
  intros O Hk Ho Hg. apply wp_bind, wp_set_kctl; [apply (ordered_kctl_addr _ O) | done |]. apply wp_ret. split; [done |].
  apply step_set_kctl; [done | apply Hg | tauto | done | by eapply ordered_set_kctl].
Qed.

(** The end of a call that has changed a lock, or not. *)
Lemma wp_unlock_all who c0 (m : ST (card H) Z) c :
  ordered c0 -> wp m (fun _ c' => step who c0 c') c ->
  wp (result <- (result <- m;; spin_unlock OwnerLock;;; ret result);; spin_unlock ControlLock;;; ret result) (fun _ c' => step who c0 c') c.
Proof.
  intros O Hm. apply wp_bind, wp_bind. eapply wp_mono; [exact Hm |]. intros r [cs n la fs us hw i sv al ps] S. apply wp_ctl_spin_unlock. intros i1. apply wp_ret.
  apply wp_ctl_spin_unlock. intros i2. apply wp_ret. eapply step_trans; [done | exact S |]. apply step_less; [reflexivity | apply S].
Qed.

Lemma wp_elem_lock f ok_in pid id c : ordered c -> f ∈ ctl_files c -> wp (snd_ctl_elem_lock ok_in (f_addr f) pid id) (fun _ c' => step (f_addr f) c c') c.
Proof.
  destruct c as [cs n la fs us hw i sv al ps]. cbn. intros O Hf. unfold snd_ctl_elem_lock. destruct ok_in; cbn [negb]; [| apply wp_ret; by apply step_less].
  apply wp_ctl_spin_lock. intros sv1. apply wp_found; [by eapply ordered_same | |].
  - intros i1 sv2. apply wp_bind, wp_ret. apply wp_ctl_spin_unlock. intros i2. apply wp_ret. by apply step_less.
  - intros k i1 sv2 Hk _ Hz O1. replace (k_addr k =? 0) with false by lia. apply wp_flat, wp_ctl_spin_lock. intros sv3. unfold wp. rewrite bind_assoc.
    apply wp_kctl_at; [apply (ordered_kctl_addr _ O) | done |]. apply wp_unlock_all; [done |].
    destruct (Z.eqb_spec (k_owner k) 0) as [E | NE]; cbn [negb]; [| apply wp_ret; by apply step_less].
    eapply wp_mono; [apply wp_lock_change; [exact O | done | by left |] | by intros r c' [_ S]].
    intros x. split_and!; [done | done | done | right; cbn; by apply list_elem_of_fmap_2].
Qed.

Lemma wp_elem_unlock ctl ok_in id c : ordered c -> wp (snd_ctl_elem_unlock ok_in ctl id) (fun _ c' => step ctl c c') c.
Proof.
  destruct c as [cs n la fs us hw i sv al ps]. intros O. unfold snd_ctl_elem_unlock. destruct ok_in; cbn [negb]; [| apply wp_ret; by apply step_less].
  apply wp_ctl_spin_lock. intros sv1. apply wp_found; [by eapply ordered_same | |].
  - intros i1 sv2. apply wp_bind, wp_ret. apply wp_ctl_spin_unlock. intros i2. apply wp_ret. by apply step_less.
  - intros k i1 sv2 Hk _ Hz O1. replace (k_addr k =? 0) with false by lia. apply wp_flat, wp_ctl_spin_lock. intros sv3. unfold wp. rewrite bind_assoc.
    apply wp_kctl_at; [apply (ordered_kctl_addr _ O) | done |]. apply wp_unlock_all; [done |].
    destruct (Z.eqb_spec (k_owner k) 0) as [E | NE]; [apply wp_ret; by apply step_less |].
    destruct (Z.eqb_spec (k_owner k) ctl) as [E | NE2]; cbn [negb]; [| apply wp_ret; by apply step_less].
    eapply wp_mono; [apply wp_lock_change; [exact O | done | by right |] | by intros r c' [_ S]].
    intros x. split_and!; [done | done | done | by left].
Qed.

(** A change of one file. *)
Lemma wp_file_change {A} who f g (m : ST (card H) A) Q cs n la fs us hw i sv al ps :
  ordered (Card H cs n la fs us hw i sv al ps) -> f ∈ fs -> f_addr (g f) = f_addr f -> (file_ok f -> file_ok (g f)) ->
  (forall l l', fs = l ++ f :: l' -> ordered (Card H cs n la (l ++ g f :: l') us hw i sv al ps) ->
    step who (Card H cs n la fs us hw i sv al ps) (Card H cs n la (l ++ g f :: l') us hw i sv al ps) -> wp m Q (Card H cs n la (l ++ g f :: l') us hw i sv al ps)) ->
  wp (set_file (f_addr f) g;;; m) Q (Card H cs n la fs us hw i sv al ps).
Proof.
  intros O Hf Ha Hok HQ. apply list_elem_of_split in Hf as (l & l' & ->). apply wp_bind. eapply wp_set_file; [apply (ordered_file_addr _ O) | reflexivity |].
  assert (O' : ordered (Card H cs n la (l ++ g f :: l') us hw i sv al ps)).
  { eapply ordered_set_file; [done | | exact O]. apply Hok. pose proof (od_files _ O) as F. cbn in F. by apply Forall_app in F as [_ [? _]%Forall_cons]. }
  apply HQ; [done | done |]. by apply step_files.
Qed.

Lemma wp_subscribe f ok_in ok_out subscribe c : ordered c -> f ∈ ctl_files c ->
  wp (snd_ctl_subscribe_events ok_in ok_out (f_addr f) subscribe) (fun _ c' => step (f_addr f) c c') c.
Proof.
  destruct c as [cs n la fs us hw i sv al ps]. cbn. intros O Hf. unfold snd_ctl_subscribe_events. destruct ok_in; cbn [negb]; [| apply wp_ret; by apply step_less].
  apply wp_file_at; [apply (ordered_file_addr _ O) | done |]. destruct (subscribe <? 0); [destruct ok_out; apply wp_ret; by apply step_less |].
  destruct (subscribe =? 0); cbn [negb].
  2: { apply (wp_file_change (f_addr f)); [done | done | done | by intros [] |]. intros l l' _ _ S. by apply wp_ret. }
  destruct (f_subscribed f) eqn:Es; cbn [when]; [| apply wp_ret; by apply step_less]. unfold snd_ctl_empty_read_queue, when.
  apply wp_flat, wp_flat, wp_ctl_spin_lock. intros sv1. apply wp_flat. set (g := fun x : cfile => x <| f_events := [] |>).
  apply (wp_file_change (f_addr f)); [by eapply ordered_same | done | done | by split; [constructor |] |].
  intros l l' -> O1 S1. apply wp_ctl_spin_unlock. intros i1. apply (wp_file_change (f_addr f) (g f)); [by eapply ordered_same | apply elem_of_app; right; left | done | by split; [constructor |] |].
  intros l2 l2' E2 O2 S2. apply wp_ret. apply step_files; [reflexivity | done | by eapply ordered_same].
Qed.

Lemma wp_poll who f c : ordered c -> f ∈ ctl_files c -> wp (snd_ctl_poll (f_addr f)) (fun _ c' => step who c c') c.
Proof.
  destruct c as [cs n la fs us hw i sv al ps]. cbn. intros O Hf. unfold snd_ctl_poll. apply wp_file_at; [apply (ordered_file_addr _ O) | done |].
  apply wp_ret. by apply step_less.
Qed.

(** ** Reading events *)

(** A step after which the file [a] is still open. *)
Definition still (who a : Z) c c' : Prop := step who c c' /\ map f_addr (ctl_files c') = map f_addr (ctl_files c).

Lemma still_trans who a c c1 c2 : ordered c -> still who a c c1 -> still who a c1 c2 -> still who a c c2.
Proof. intros O [S1 E1] [S2 E2]. split; [by eapply step_trans | congruence]. Qed.

Lemma still_open who a c c' f : still who a c c' -> f ∈ ctl_files c -> exists f', f' ∈ ctl_files c' /\ f_addr f' = f_addr f.
Proof. intros [_ E] Hf. apply (list_elem_of_fmap_2 f_addr) in Hf. change (f_addr <$> ctl_files c) with (map f_addr (ctl_files c)) in Hf. rewrite <- E in Hf. apply list_elem_of_fmap in Hf as (f' & -> & Hf'). by exists f'. Qed.

Lemma wp_notifies who a l c : ordered c -> wp (notifies l) (fun _ c' => still who a c c') c.
Proof.
  revert c. induction l as [| [mask id] l IH]; intros [cs n la fs us hw i sv al ps] O; cbn [notifies foldr fst snd].
  - apply wp_ret. split; [by apply step_less | done].
  - apply wp_ctl_notify; [apply (ordered_file_addr _ O) |]. intros fs' al' i1 sv1 T. eapply wp_mono; [apply IH; by eapply ordered_told |].
    intros [] c' S. eapply still_trans; [done | | exact S]. split; [by eapply step_told | apply (noted_addr mask id), T].
Qed.

Lemma wp_still who a c cs n la fs us hw i sv al ps cs' i' sv' :
  ordered c -> still who a c (Card H cs n la fs us hw i sv al ps) -> cs' = cs -> still who a c (Card H cs' n la fs us hw i' sv' al ps).
Proof. intros O S ->. eapply still_trans; [done | exact S |]. split; [apply step_less; [reflexivity | apply S] | done]. Qed.

Lemma wp_wait_event who nonblock f wakes c0 : ordered c0 -> f ∈ ctl_files c0 -> forall c, still who (f_addr f) c0 c ->
  wp (wait_event nonblock (f_addr f) wakes) (fun w c' => still who (f_addr f) c0 c' /\
    forall e, w.1 = Some e -> e < 0 \/ forall f', f' ∈ ctl_files c' -> f_addr f' = f_addr f -> f_events f' <> []) c.
Proof.
  intros O0 Hf0. induction wakes as [| l wakes IH]; intros c S; destruct (still_open _ _ _ _ _ S Hf0) as (f1 & Hf1 & Ea);
    destruct c as [cs n la fs us hw i sv al ps]; pose proof (st_ordered _ _ _ (proj1 S)) as O; cbn in Hf1; cbn [wait_event]; rewrite <- Ea;
    (apply wp_file_at; [apply (ordered_file_addr _ O) | done |]).
  all: destruct (decide (f_events f1 = [])) as [E | NE]; [rewrite (bool_decide_true _ E) | rewrite (bool_decide_false _ NE)]; cbn [negb];
    [destruct nonblock; [apply wp_ret; split; [done |]; intros e [= <-]; by left |] | apply wp_ret; split; [congruence |]; intros e _; right; intros f' Hf' E'; cbn in Hf';
      pose proof (find_key _ _ _ (ordered_file_addr _ O) Hf1) as F1; pose proof (find_key _ _ _ (ordered_file_addr _ O) Hf') as F2; rewrite E' in F2; cbn in F1, F2; congruence].
  - apply wp_ctl_spin_unlock. intros i1. apply wp_ret. split; [| done]. rewrite Ea. by eapply wp_still.
  - apply wp_ctl_spin_unlock. intros i1. apply wp_bind. eapply wp_mono; [apply (wp_notifies who (f_addr f)); by eapply ordered_same |].
    intros [] c1 S1. cbv beta. assert (S2 : still who (f_addr f) c0 c1) by (eapply still_trans; [done | by eapply wp_still | exact S1]).
    destruct c1 as [cs1 n1 la1 fs1 us1 hw1 i2 sv2 al1 ps1]. apply wp_ctl_spin_lock. intros sv3. rewrite Ea. apply IH. by eapply wp_still.
Qed.

Lemma wp_read_end who f err result c0 c out : ordered c0 -> still who (f_addr f) c0 c ->
  wp (o <- read_end (f_addr f) err result;; ret (o, out : list event)) (fun _ c' => still who (f_addr f) c0 c') c.
Proof. destruct c as [cs n la fs us hw i sv al ps]. intros O S. unfold read_end. apply wp_flat, wp_ctl_spin_unlock. intros i1. apply wp_ret. by eapply wp_still. Qed.

Lemma wp_ctl_read_loop who nonblock fault f c0 fuel : ordered c0 -> f ∈ ctl_files c0 -> forall wakes count result out c,
  (Z.to_nat count < fuel)%nat -> still who (f_addr f) c0 c ->
  wp (read_loop fuel nonblock fault (f_addr f) wakes count result out) (fun _ c' => still who (f_addr f) c0 c') c.
Proof.
  intros O0 Hf0. induction fuel as [| fuel IH]; intros wakes count result out c Hfuel S; [lia |]. cbn [read_loop].
  destruct (Z.ltb_spec count EVENT_SIZE) as [| Hc]; [by apply wp_read_end |]. unfold EVENT_SIZE in Hc. apply wp_bind.
  eapply wp_mono; [by apply wp_wait_event |]. intros [[err |] wakes'] c1 [S1 Hev]; [| by apply wp_ret].
  destruct (Z.ltb_spec err 0) as [| Herr]; [by apply wp_read_end |]. destruct (Hev err eq_refl) as [? | Hne]; [lia |].
  destruct (still_open _ _ _ _ _ S1 Hf0) as (f1 & Hf1 & Ea).
  destruct c1 as [cs n la fs us hw i sv al ps]. pose proof (st_ordered _ _ _ (proj1 S1)) as O1. cbn in Hf1. rewrite <- Ea.
  apply wp_file_at; [apply (ordered_file_addr _ O1) | done |].
  specialize (Hne f1 Hf1 Ea). destruct (f_events f1) as [| ev evs] eqn:Ev; [done |]. destruct (fault result); [rewrite Ea; by apply wp_read_end |].
  apply (wp_file_change who f1); [done | done | done | |].
  { intros [N Q]. rewrite Ev in N, Q. cbn in N. apply NoDup_cons in N as [_ N]. split; [done |]. cbn. intros E. by specialize (Q E). }
  intros l l' -> O2 S2. rewrite Ea. apply IH; [unfold EVENT_SIZE; lia |]. eapply still_trans; [done | exact S1 |]. split; [done |]. cbn. rewrite !map_app. done.
Qed.

Lemma wp_ctl_read who nonblock fault f wakes count c : ordered c -> f ∈ ctl_files c ->
  wp (snd_ctl_read nonblock fault (f_addr f) wakes count) (fun _ c' => step who c c') c.
Proof.
  destruct c as [cs n la fs us hw i sv al ps]. cbn. intros O Hf. unfold snd_ctl_read. apply wp_file_at; [apply (ordered_file_addr _ O) | done |].
  destruct (f_subscribed f); cbn [negb]; [| apply wp_ret; by apply step_less]. destruct (count <? EVENT_SIZE); [apply wp_ret; by apply step_less |].
  apply wp_ctl_spin_lock. intros sv1. eapply wp_mono; [apply (wp_ctl_read_loop who nonblock fault f (Card H cs n la fs us hw i sv al ps)); [done | done | lia |] | by intros r c' [S _]].
  split; [by apply step_less | done].
Qed.

Lemma wp_remove_all who fuel : forall c, ordered c -> (length (controls c) < fuel)%nat -> wp (remove_all fuel) (fun _ c' => step who c c' /\ controls c' = []) c.
Proof.
  induction fuel as [| fuel IH]; intros c O Hf; [lia |]. cbn [remove_all]. get_state. destruct (controls c) as [| k cs] eqn:E.
  - apply wp_ret. destruct c as [cs n la fs us hw i sv al ps]. cbn in E. subst cs. split; [by apply step_less | done].
  - apply wp_bind. eapply wp_mono; [apply (wp_ctl_remove who k); [done | rewrite E; left] |]. intros r c1 [S1 E1]. rewrite E in E1.
    assert (L : (length (controls c1) < length (controls c))%nat).
    { rewrite E, E1. cbn. rewrite Z.eqb_refl. cbn. pose proof (sublist_length _ _ (filter_sub (fun x : kctl => x) (fun x => negb (k_addr x =? k_addr k)) cs)) as L. rewrite !length_map in L. lia. }
    eapply wp_mono; [apply IH; [apply S1 | rewrite E in L; cbn in *; lia] |]. intros [] c2 [S2 E2]. split; [by eapply step_trans | done].
Qed.

Lemma wp_unregister who c : ordered c -> wp snd_ctl_unregister (fun _ c' => step who c c' /\ controls c' = []) c.
Proof.
  intros O. unfold snd_ctl_unregister. get_state. apply wp_bind. eapply wp_mono; [apply (wp_remove_all who); [done | lia] |].
  intros [] c' S. by apply wp_ret.
Qed.
End Operations.
