(* ===== verification/ControlRun.v ===== *)
(** * ControlRun: histories of a card's controls

    Whatever applications and the driver call, a card stays in order and the calls return; a
    locked control is changed by its owner only.  What a subscriber reads is a digest of the
    changes: each element once, with all that happened to it. *)

From S2P Require Import Prelude Control ControlRules ControlCalls.
From Stdlib Require String.
Open Scope Z_scope.
Open Scope state_scope.

(** ** Calls *)

Inductive call :=
| CallOpen (pid : Z) | CallRelease (ctl : Z) | CallIoctl (ctl : Z) (req : request)
| CallRead (ctl : Z) (nonblock : bool) (fault : Z -> bool) (wakes : list (list (Z * elem_id))) (count : Z) | CallPoll (ctl : Z)
| CallNotify (mask : Z) (id : elem_id) | CallAdd (nw : kctl_new) | CallRemove (a : Z) | CallRemoveId (id : elem_id)
| CallRename (src dst : elem_id) | CallUnregister.

(** Who calls: a file, or the driver. *)
Definition caller (x : call) : Z :=
  match x with CallRelease ctl | CallIoctl ctl _ | CallRead ctl _ _ _ _ | CallPoll ctl => ctl | _ => 0 end.

Section Exec.
Context {H : Type} `{CtlOps H}.
Implicit Types (c : card H).

Definition exec (x : call) : ST (card H) unit :=
  match x with
  | CallOpen pid => snd_ctl_open pid;;; ret tt
  | CallRelease ctl => snd_ctl_release ctl;;; ret tt
  | CallIoctl ctl req => snd_ctl_ioctl ctl req;;; ret tt
  | CallRead ctl nonblock fault wakes count => snd_ctl_read nonblock fault ctl wakes count;;; ret tt
  | CallPoll ctl => snd_ctl_poll ctl;;; ret tt
  | CallNotify mask id => snd_ctl_notify mask id;;; ret tt
  | CallAdd nw => (k <- snd_ctl_new1 nw;; snd_ctl_add k);;; ret tt
  | CallRemove a => snd_ctl_remove a;;; ret tt
  | CallRemoveId id => snd_ctl_remove_id id;;; ret tt
  | CallRename src dst => snd_ctl_rename_id src dst;;; ret tt
  | CallUnregister => snd_ctl_unregister;;; ret tt
  end.

(** An open file calls, the driver names a control it has, and there are numbers left. *)
Definition sensible c (x : call) : Prop :=
  match x with
  | CallRelease ctl | CallIoctl ctl _ | CallRead ctl _ _ _ _ | CallPoll ctl => ctl ∈ map f_addr (ctl_files c)
  | CallAdd _ | CallRename _ _ => last_numid c < UINT_MAX
  | CallRemove a => a ∈ map k_addr (controls c)
  | _ => True
  end.

Lemma wp_done {A} (m : ST (card H) A) Q c : wp m (fun _ c' => Q c') c -> wp (m;;; ret tt) (fun _ c' => Q c') c.
Proof. intros Hm. apply wp_bind. eapply wp_mono; [exact Hm |]. intros r c' Hq. by apply wp_ret. Qed.

Lemma wp_ioctl f req c : ordered c -> f ∈ ctl_files c -> wp (snd_ctl_ioctl (f_addr f) req) (fun _ c' => step (f_addr f) c c') c.
Proof.
  intros O Hf. assert (Keep : forall {A} (m : ST (card H) A) (g : A -> Z), wp m (fun _ c' => step (f_addr f) c c') c -> wp (r <- m;; ret (g r)) (fun _ c' => step (f_addr f) c c') c).
  { intros A m g Hm. apply wp_bind. eapply wp_mono; [exact Hm |]. intros r c' S. by apply wp_ret. }
  assert (Nothing : step (f_addr f) c c) by (destruct c; by apply step_less).
  destruct req; cbn [snd_ctl_ioctl]; try (by apply wp_ret).
  - apply Keep. by apply wp_elem_list.
  - apply (Keep _ _ (fun r => r.1.1.1)). by apply wp_elem_info.
  - apply Keep. by apply wp_elem_read.
  - apply Keep. by apply wp_elem_write.
  - by apply wp_elem_lock.
  - by apply wp_elem_unlock.
  - apply Keep. by apply wp_subscribe.
Qed.

Lemma call_steps x c : ordered c -> sensible c x -> wp (exec x) (fun _ c' => step (caller x) c c') c.
Proof.
  intros O Hx. destruct x; cbn [exec caller]; cbn [sensible] in Hx; apply wp_done;
    try (apply list_elem_of_fmap in Hx as (f & -> & Hf)).
  - by apply wp_open.
  - by apply wp_ctl_release.
  - by apply wp_ioctl.
  - by apply wp_ctl_read.
  - by apply wp_poll.
  - by apply wp_notify_call.
  - by apply wp_add.
  - eapply wp_mono; [by apply (wp_ctl_remove 0) |]. by intros r c' [S _].
  - by apply wp_remove_id.
  - by apply wp_rename_id.
  - eapply wp_mono; [by apply (wp_unregister 0) |]. by intros r c' [S _].
Qed.

(** ** Histories *)

Inductive run : card H -> list call -> card H -> Prop :=
| run_nil c : run c [] c
| run_cons c x c1 xs c2 : sensible c x -> exec x c = Some (tt, c1) -> run c1 xs c2 -> run c (x :: xs) c2.

(** A card before its first control; [memory]: what [kmalloc] will find. *)
Definition new_card (hw : H) (memory : list Z) : card H := Card H [] 0 0 [] 0 hw true [] memory [].

Definition good_memory (memory : list Z) : Prop := NoDup (List.filter (fun a => negb (a =? 0)) memory).

Lemma new_card_ordered hw memory : good_memory memory -> ordered (new_card hw memory).
Proof.
  intros Hm. split; cbn; try constructor; try done.
  rewrite elem_filter. intros [_ ?]. done.
Qed.

Lemma run_ordered c xs c' : run c xs c' -> ordered c -> ordered c'.
Proof.
  induction 1 as [| c x c1 xs c2 Hx E _ IH]; [done |]. intros O. apply IH. pose proof (call_steps x c O Hx) as W. unfold wp in W. rewrite E in W. apply W.
Qed.

(** A control that others do not touch. *)
Definition untouched (k : kctl) c c' : Prop :=
  (forall k', k' ∈ controls c' -> k_addr k' = k_addr k -> k_owner k' = k_owner k) /\
  exists l, c_puts c' = c_puts c ++ l /\ Forall (fun p => p.2 <> k_addr k) l.

(** The control is locked by [k_owner k], or gone for good. *)
Definition locked (k : kctl) c : Prop := (forall k', k' ∈ controls c -> k_addr k' = k_addr k -> k_owner k' = k_owner k) /\ k_addr k ∉ c_alloc c.

Lemma step_locked who k c c' : ordered c -> k_owner k <> 0 -> k_owner k <> who -> step who c c' -> locked k c -> locked k c' /\ untouched k c c'.
Proof.
  intros O N0 Nw [S1 S2 S3 (l & El & Pl) S5] [L1 L2].
  assert (Own : forall k', k' ∈ controls c' -> k_addr k' = k_addr k -> k_owner k' = k_owner k).
  { intros k' Hk' E. destruct (S5 k' Hk') as [(k0 & E0 & Hk0)%list_elem_of_fmap | Hin]; [| by rewrite E in Hin].
    assert (E1 : k_owner k0 = k_owner k) by (apply L1; congruence). rewrite <- E1. apply S3; congruence. }
  split; [split; [done |] |].
  - intros Hin. apply L2. destruct S2 as [x ->]. apply elem_of_app. by right.
  - split; [done |]. exists l. split; [done |]. apply Forall_forall. intros p Hp E. destruct (Pl p Hp) as (_ & Hin & Ho). rewrite E in Hin.
    destruct Hin as [(k0 & E0 & Hk0)%list_elem_of_fmap | Hin]; [| done]. assert (E1 : k_owner k0 = k_owner k) by (by apply L1).
    destruct (Ho k0 Hk0); congruence.
Qed.

Lemma run_locked k c xs c' : run c xs c' -> ordered c -> k_owner k <> 0 -> Forall (fun x => caller x <> k_owner k) xs -> locked k c -> untouched k c c'.
Proof.
  intros R. induction R as [c | c x c1 xs c2 Hx E _ IH]; intros O N0 Hxs L.
  - split; [apply L |]. exists []. by rewrite app_nil_r.
  - apply Forall_cons in Hxs as [Hn Hxs]. pose proof (call_steps x c O Hx) as W. unfold wp in W. rewrite E in W.
    destruct (step_locked _ k _ _ O N0 (not_eq_sym Hn) W L) as [L1 [U1 (l1 & E1 & F1)]].
    destruct (IH (st_ordered _ _ _ W) N0 Hxs L1) as [U2 (l2 & E2 & F2)]. split; [done |].
    exists (l1 ++ l2). split; [by rewrite E2, E1, app_assoc |]. by apply Forall_app.
Qed.

(** Another file may not write or lock it. *)
Lemma locked_refuses c k ctl id : ordered c -> lookup_id id (controls c) = Some k -> k_owner k <> 0 -> k_owner k <> ctl ->
  (forall ok_out indirect value, wp (snd_ctl_elem_write true ok_out ctl id indirect value) (fun r _ => r.1 = -EPERM \/ r.1 = -EACCES) c) /\
  (forall pid, wp (snd_ctl_elem_lock true ctl pid id) (fun r _ => r = -EBUSY) c).
Proof.
  destruct c as [cs n la fs us hw i sv al ps]. cbn. intros O El N0 Nc. pose proof (ordered_kctl_addr _ O) as Hn. cbn in Hn.
  pose proof (lookup_elem _ _ _ El) as Hk. assert (Hz : k_addr k =? 0 = false) by (apply Z.eqb_neq, (ordered_kctl_nz _ O k Hk)).
  assert (Ho : negb (k_owner k =? 0) = true) by (apply negb_true_iff; lia). split.
  - intros ok_out indirect value. unfold snd_ctl_elem_write. cbn [negb]. apply wp_ctl_spin_lock. intros sv1. apply wp_find_id. intros i1 sv2. rewrite El, Hz.
    apply wp_bind, wp_kctl_at; [done | done |]. destruct (negb (Bool.eqb _ _)).
    { apply wp_ret, wp_ctl_spin_unlock. intros i2. apply wp_ret. by right. }
    apply wp_ctl_spin_lock. intros sv3. replace (k_owner k =? ctl) with false by lia. rewrite Ho. rewrite orb_true_r. apply wp_bind, wp_ret, wp_ctl_spin_unlock. intros i2. apply wp_ret, wp_ctl_spin_unlock. intros i3. apply wp_ret. by left.
  - intros pid. unfold snd_ctl_elem_lock. cbn [negb]. apply wp_ctl_spin_lock. intros sv1. apply wp_find_id. intros i1 sv2. rewrite El, Hz.
    apply wp_bind, wp_ctl_spin_lock. intros sv3. apply wp_kctl_at; [done | done |]. rewrite Ho. apply wp_bind, wp_ret, wp_ctl_spin_unlock. intros i2. apply wp_ret, wp_ctl_spin_unlock. intros i3. by apply wp_ret.
Qed.
End Exec.

(** ** What a subscriber reads *)

Definition change : Type := Z * elem_id.

(** The numbers of the elements that changed, in the order of their first change. *)
Fixpoint firsts (l : list change) : list Z :=
  match l with [] => [] | p :: l => numid p.2 :: List.filter (fun n => negb (n =? numid p.2)) (firsts l) end.

Definition changes_of (n : Z) (l : list change) : list change := List.filter (fun p => numid p.2 =? n) l.

(** All that happened to it, under the id of the first change. *)
Definition event_of (l : list change) (n : Z) : event :=
  Event (match changes_of n l with p :: _ => p.2 | [] => ElemId n 0 0 0 String.EmptyString 0 end) (foldr (fun p m => Z.lor p.1 m) 0 (changes_of n l)).

Definition digest (l : list change) : list event := map (event_of l) (firsts l).

Lemma firsts_elem n l : n ∈ firsts l <-> n ∈ map (fun p => numid p.2) l.
Proof.
  induction l as [| p l IH]; [done |]. cbn [firsts map]. rewrite !elem_of_cons, elem_filter, IH. destruct (Z.eqb_spec n (numid p.2)); cbn; naive_solver.
Qed.

Lemma firsts_NoDup l : NoDup (firsts l).
Proof.
  induction l as [| p l IH]; [constructor |]. cbn [firsts]. apply NoDup_cons. rewrite elem_filter, Z.eqb_refl. split; [by intros [] |].
  eapply sublist_NoDup; [exact IH |]. pose proof (filter_sub (fun x : Z => x) (fun n => negb (n =? numid p.2)) (firsts l)) as S. by rewrite !map_id in S.
Qed.

Lemma firsts_snoc l p : firsts (l ++ [p]) = if bool_decide (numid p.2 ∈ firsts l) then firsts l else firsts l ++ [numid p.2].
Proof.
  induction l as [| q l IH]; [done |]. cbn [app firsts]. rewrite IH. destruct (decide (numid p.2 = numid q.2)) as [E | NE].
  - rewrite (bool_decide_true (_ ∈ _ :: _)) by (rewrite E; left). destruct (bool_decide _); [done |]. rewrite List.filter_app. cbn. replace (numid p.2 =? numid q.2) with true by lia.
    cbn. by rewrite app_nil_r.
  - assert (Iff : numid p.2 ∈ numid q.2 :: List.filter (fun n => negb (n =? numid q.2)) (firsts l) <-> numid p.2 ∈ firsts l).
    { rewrite elem_of_cons, elem_filter. replace (numid p.2 =? numid q.2) with false by lia. cbn. tauto. }
    rewrite (bool_decide_ext _ _ Iff). destruct (bool_decide _); [done |]. rewrite List.filter_app. cbn. replace (numid p.2 =? numid q.2) with false by lia. done.
Qed.

Lemma event_of_num l n : event_num (event_of l n) = n.
Proof.
  unfold event_num, event_of. cbn. destruct (changes_of n l) as [| p k] eqn:E; [done |]. assert (Hp : p ∈ changes_of n l) by (rewrite E; left).
  apply elem_filter in Hp as [_ Hp]. lia.
Qed.

(** A change of one element in the digest. *)
Lemma event_of_snoc l mask id n : event_of (l ++ [(mask, id)]) n =
  if n =? numid id then Event (match changes_of n l with p :: _ => p.2 | [] => id end) (Z.lor (e_mask (event_of l n)) mask) else event_of l n.
Proof.
  unfold event_of, changes_of. rewrite List.filter_app. cbn. rewrite (Z.eqb_sym n). destruct (Z.eqb_spec (numid id) n) as [<- | NE]; [| by rewrite app_nil_r].
  f_equal; [by destruct (List.filter _ l) |]. rewrite foldr_app. cbn. rewrite Z.lor_0_r. generalize (List.filter (fun p => numid p.2 =? numid id) l).
  induction l0 as [| q k IH]; cbn; [by rewrite Z.lor_0_l |]. by rewrite IH, Z.lor_assoc.
Qed.

Lemma merge_map mask id g ns : (forall n, event_num (g n) = n) -> NoDup ns -> numid id ∈ ns ->
  merge_event mask id (map g ns) = Some (map (fun n => if n =? numid id then Event (e_id (g n)) (Z.lor (e_mask (g n)) mask) else g n) ns).
Proof.
  intros Hg. induction ns as [| n ns IH]; [by intros _ ?%elem_of_nil |]. intros [Hn Hns]%NoDup_cons Hin. cbn [map merge_event].
  pose proof (Hg n) as En. unfold event_num in En. rewrite En. destruct (Z.eqb_spec n (numid id)) as [E | NE].
  - f_equal. f_equal. apply map_ext_in. intros x Hx%list_elem_of_In. destruct (Z.eqb_spec x (numid id)); [congruence | done].
  - apply elem_of_cons in Hin as [? | Hin]; [done |]. rewrite IH by done. done.
Qed.

Lemma changes_none n l : n ∉ firsts l <-> changes_of n l = [].
Proof.
  rewrite firsts_elem. induction l as [| p l IH]; [split; [done | intros _; apply not_elem_of_nil] |]. cbn. rewrite not_elem_of_cons.
  destruct (Z.eqb_spec (numid p.2) n) as [E | NE]; [split; [by intros [? _] | done] |]. rewrite IH. split; [by intros [_ ?] | intros ?; split; [congruence | done]].
Qed.

Lemma digest_snoc l mask id :
  digest (l ++ [(mask, id)]) = match merge_event mask id (digest l) with Some evs => evs | None => digest l ++ [Event id mask] end.
Proof.
  unfold digest. rewrite firsts_snoc. cbn [snd]. destruct (decide (numid id ∈ firsts l)) as [Hin | Hno].
  - rewrite (bool_decide_true _ Hin), (merge_map mask id (event_of l) (firsts l) (event_of_num l) (firsts_NoDup l) Hin). apply map_ext. intros n.
    rewrite event_of_snoc. destruct (Z.eqb_spec n (numid id)) as [-> | NE]; [| done]. f_equal. unfold event_of. cbn.
    destruct (changes_of (numid id) l) eqn:E; [by apply changes_none in E | done].
  - rewrite (bool_decide_false _ Hno). replace (merge_event mask id (map (event_of l) (firsts l))) with (@None (list event)).
    2: { symmetry. apply merge_none. rewrite map_map. erewrite map_ext; [| apply event_of_num]. by rewrite map_id. }
    rewrite map_app. f_equal.
    + apply map_ext_in. intros n Hn%list_elem_of_In. rewrite event_of_snoc. replace (n =? numid id) with false; [done |]. symmetry. apply Z.eqb_neq. congruence.
    + cbn. f_equal. rewrite event_of_snoc, Z.eqb_refl. unfold event_of. cbn. apply changes_none in Hno. by rewrite Hno.
Qed.

(** ** From the changes to the subscriber *)

Section Subscriber.
Context {H : Type} `{CtlOps H}.
Implicit Types (c : card H).

(** The file is open and subscribed, and these events wait. *)
Definition queue_is (a : Z) (evs : list event) c : Prop := exists f, f ∈ ctl_files c /\ f_addr f = a /\ f_subscribed f = true /\ f_events f = evs.

Lemma note_digest mask id f l : f_subscribed f = true -> f_events f = digest l -> f_events (note_event true mask id f) = digest (l ++ [(mask, id)]).
Proof. intros Es Ev. rewrite digest_snoc. unfold note_event. rewrite Es, Ev. by destruct (merge_event _ _ _). Qed.

Lemma wp_notifies_digest a l : forall pre c, ordered c -> plenty (length (ctl_files c) * length l) (c_alloc c) -> queue_is a (digest pre) c ->
  wp (notifies l) (fun _ c' => ordered c' /\ queue_is a (digest (pre ++ l)) c') c.
Proof.
  induction l as [| [mask id] l IH]; intros pre [cs n la fs us hw i sv al ps] O Hp Hq; cbn [notifies foldr fst snd].
  { apply wp_ret. by rewrite app_nil_r. }
  apply wp_ctl_notify; [apply (ordered_file_addr _ O) |]. intros fs' al' i1 sv1 T. pose proof (ordered_told mask id _ _ _ _ _ _ _ _ _ _ fs' us hw i1 sv1 al' ps O T) as O'.
  destruct T as (_ & _ & T). cbn in Hp. destruct (T (length fs * length l)%nat) as [-> Hp']; [eapply plenty_fewer; [| exact Hp]; lia |].
  destruct Hq as (f & Hf & Ea & Es & Ev). cbn in Hf. destruct (note_keeps true mask id f) as [Ka Ks].
  replace (pre ++ (mask, id) :: l) with ((pre ++ [(mask, id)]) ++ l) by (by rewrite <- app_assoc). apply IH; [done | cbn; by rewrite length_map |].
  exists (note_event true mask id f). cbn. rewrite Ka, Ks. split_and!; [| done | done | by apply note_digest]. by apply list_elem_of_fmap_2.
Qed.

(** The reader takes what fits. *)
Lemma wp_read_takes a fuel : forall evs count result out c, ordered c -> queue_is a evs c -> (Z.to_nat count < fuel)%nat -> 0 <= result ->
  wp (read_loop fuel true (fun _ => false) a [] count result out) (fun r c' =>
    let k := Z.to_nat (count `div` EVENT_SIZE) in let got := EVENT_SIZE * Z.of_nat (length (take k evs)) in
    r = (Done (if 0 <? result + got then result + got else if count <? EVENT_SIZE then 0 else -EAGAIN), out ++ take k evs) /\ queue_is a (drop k evs) c') c.
Proof.
  induction fuel as [| fuel IH]; intros evs count result out c O Hq Hfuel Hr; [lia |]. cbn [read_loop].
  destruct (Z.ltb_spec count EVENT_SIZE) as [Hc | Hc].
  { assert (Ek : Z.to_nat (count `div` EVENT_SIZE) = 0%nat).
    { destruct (Z.leb_spec 0 count); [rewrite Z.div_small by done; done |]. pose proof (Z.div_lt_upper_bound count EVENT_SIZE 0 ltac:(done) ltac:(lia)). lia. }
    destruct c as [cs n la fs us hw i sv al ps]. unfold read_end. apply wp_flat, wp_ctl_spin_unlock. intros i1. apply wp_ret. cbv zeta. rewrite Ek. cbn [take drop length].
    rewrite app_nil_r, Z.mul_0_r, Z.add_0_r. done. }
  destruct Hq as (f & Hf & Ea & Es & Ev). destruct c as [cs n la fs us hw i sv al ps]. cbn in Hf. pose proof (ordered_file_addr _ O) as Hn. cbn in Hn. subst a.
  apply wp_bind. cbn [wait_event]. apply wp_file_at; [done | done |]. rewrite Ev. destruct evs as [| ev evs].
  - rewrite bool_decide_true by done. cbn [negb]. apply wp_ret. cbn [Z.ltb Z.opp EAGAIN Z.compare]. unfold read_end. apply wp_flat, wp_ctl_spin_unlock. intros i1. apply wp_ret. cbv zeta.
    rewrite take_nil, drop_nil. cbn [length]. rewrite app_nil_r, Z.mul_0_r, Z.add_0_r. split; [done | by exists f].
  - rewrite bool_decide_false by done. cbn [negb]. apply wp_ret. cbn [Z.ltb Z.compare]. apply wp_file_at; [done | done |]. rewrite Ev.
    apply (wp_file_change 0 f); [done | done | done | |].
    { intros [N Q]. rewrite Ev in N, Q. cbn in N. apply NoDup_cons in N as [_ N]. split; [done |]. cbn. intros E. by specialize (Q E). }
    intros l l' -> O2 _. eapply wp_mono; [apply (IH evs); [done | | unfold EVENT_SIZE in *; lia | unfold EVENT_SIZE in *; lia] |].
    { exists (f <| f_events := evs |>). split_and!; try done. apply elem_of_app. right. left. }
    intros r c' [-> Hq]. cbv zeta.
    assert (Ek : Z.to_nat (count `div` EVENT_SIZE) = S (Z.to_nat ((count - EVENT_SIZE) `div` EVENT_SIZE))).
    { replace count with ((count - EVENT_SIZE) + 1 * EVENT_SIZE) at 1 by lia. rewrite Z.div_add by done. pose proof (Z.div_pos (count - EVENT_SIZE) EVENT_SIZE). unfold EVENT_SIZE in *. lia. }
    rewrite Ek. cbn [take drop length]. split; [| done]. rewrite <- app_assoc. cbn [app]. f_equal. f_equal.
    set (m := Z.of_nat (length (take _ evs))). assert (H1 : 0 <= m) by lia. rewrite Nat2Z.inj_succ. fold m. unfold EVENT_SIZE in *.
    replace (result + 72 + 72 * m) with (result + 72 * Z.succ m) by lia. assert (Ep : 0 <? result + 72 * Z.succ m = true) by (apply Z.ltb_lt; clear -Hr H1; lia). by rewrite Ep.
Qed.

(** Reading without waiting. *)
Definition read_all (a count : Z) : ST (card H) (outcome * list event) := snd_ctl_read true (fun _ => false) a [] count.

Lemma wp_read_all a evs count c : ordered c -> queue_is a evs c -> EVENT_SIZE <= count ->
  wp (read_all a count) (fun r c' =>
    let out := take (Z.to_nat (count `div` EVENT_SIZE)) evs in
    r = (Done (if bool_decide (out = []) then -EAGAIN else EVENT_SIZE * Z.of_nat (length out)), out) /\ queue_is a (drop (length out) evs) c') c.
Proof.
  intros O Hq Hc. assert (Hq' := Hq). destruct Hq' as (f & Hf & Ea & Es & Ev). destruct c as [cs n la fs us hw i sv al ps]. cbn in Hf. unfold read_all, snd_ctl_read. rewrite <- Ea.
  apply wp_file_at; [apply (ordered_file_addr _ O) | done |]. rewrite Es. cbn [negb]. replace (count <? EVENT_SIZE) with false by lia. apply wp_ctl_spin_lock. intros sv1.
  eapply wp_mono; [apply (wp_read_takes (f_addr f) _ evs); [by eapply ordered_same | by exists f | lia | lia] |]. intros r c' [-> Hq']. cbv zeta.
  replace (count <? EVENT_SIZE) with false by lia. set (k := Z.to_nat _) in *. cbn [app]. rewrite Z.add_0_l. split.
  - f_equal. f_equal. destruct (take k evs) as [| ev out]; [done |]. rewrite bool_decide_false by done. cbn [length]. rewrite Nat2Z.inj_succ. unfold EVENT_SIZE. by rewrite (proj2 (Z.ltb_lt 0 _)) by lia.
  - rewrite length_take. replace (drop (k `min` length evs) evs) with (drop k evs); [done |]. destruct (Nat.le_gt_cases k (length evs)) as [L | L].
    + by rewrite Nat.min_l by lia.
    + rewrite Nat.min_r by lia. by rewrite !drop_ge by lia.
Qed.
End Subscriber.

(** ** Handlers of other layers *)

Lemma drop_ioctl_app fcn l : fcn ∉ l -> drop_ioctl fcn (l ++ [fcn]) = Some l.
Proof.
  induction l as [| g l IH]; cbn; intros Hn; [by rewrite Z.eqb_refl |]. apply not_elem_of_cons in Hn as [N1 N2].
  replace (g =? fcn) with false by lia. by rewrite IH.
Qed.

Lemma unregister_registered fcn l : fcn ∉ l -> snd_ctl_unregister_ioctl fcn (snd_ctl_register_ioctl true fcn l).2 = (0, l).
Proof. intros Hn. unfold snd_ctl_unregister_ioctl. cbn. by rewrite drop_ioctl_app. Qed.

(** The first handler that knows a request answers it. *)
Lemma other_ioctl_first call l f l' : Forall (fun g => call g = -ENOIOCTLCMD) l -> call f <> -ENOIOCTLCMD -> other_ioctl call (l ++ f :: l') = call f.
Proof.
  induction 1 as [| g l Hg _ IH]; cbn; intros Hf; [by rewrite (proj2 (Z.eqb_neq _ _) Hf) |]. rewrite Hg, Z.eqb_refl. by apply IH.
Qed.

(** ** The properties *)

Section Properties.
Context {H : Type} `{CtlOps H}.

(** C14: from a new card, whatever open files and the driver call: the controls keep distinct
    numbers and addresses, the count is right, locks are held by open files only, what the
    access rights promise can be called, and a file waits for at most one event of an element;
    and the next call returns. *)
Theorem controls_in_order (hw : H) memory xs c :
  good_memory memory -> run (new_card hw memory) xs c ->
  ordered c /\ forall x, sensible c x -> exists c', exec x c = Some (tt, c') /\ ordered c'.
Proof.
  intros Hm R. assert (O : ordered c) by (eapply run_ordered; [exact R | by apply new_card_ordered]). split; [done |]. intros x Hx.
  destruct (wp_run _ _ _ (call_steps x c O Hx)) as ([] & c' & E & S). exists c'. split; [done | apply S].
Qed.

(** C13: while a file has a control locked and does nothing itself, no call of other files or of
    the driver, short of removing the control, takes the lock away, and the driver's [put] is
    not called for it; another file that writes it gets an error, one that locks it -EBUSY. *)
Theorem lock_protects (c c' : card H) xs k :
  ordered c -> k ∈ controls c -> k_owner k <> 0 -> Forall (fun x => caller x <> k_owner k) xs -> run c xs c' ->
  untouched k c c' /\
  forall k' ctl id, lookup_id id (controls c') = Some k' -> k_addr k' = k_addr k -> ctl <> k_owner k ->
    (forall ok_out indirect value, wp (snd_ctl_elem_write true ok_out ctl id indirect value) (fun r _ => r.1 = -EPERM \/ r.1 = -EACCES) c') /\
    (forall pid, wp (snd_ctl_elem_lock true ctl pid id) (fun r _ => r = -EBUSY) c').
Proof.
  intros O Hk N0 Hxs R. assert (L : locked k c).
  { split; [| by apply addr_not_free]. intros k' Hk' E. by rewrite (same_addr _ _ _ O Hk Hk' E). }
  pose proof (run_locked k c xs c' R O N0 Hxs L) as U. split; [done |]. intros k' ctl id El Ea Nc.
  assert (Eo : k_owner k' = k_owner k) by (apply U; [by eapply lookup_elem | done]).
  apply (locked_refuses c' k'); [by eapply run_ordered | done | congruence | congruence].
Qed.

(** C15: a subscriber reads a digest of the changes since it last had none: one event for each
    element, in the order of their first changes, with the OR of the masks; as many of them as
    fit into its buffer, the others stay. *)
Theorem subscriber_reads_digest (c : card H) a l count :
  ordered c -> queue_is a [] c -> plenty (length (ctl_files c) * length l) (c_alloc c) -> EVENT_SIZE <= count ->
  let out := take (Z.to_nat (count `div` EVENT_SIZE)) (digest l) in
  exists c', (notifies l;;; read_all a count)%state c = Some (Done (if bool_decide (out = []) then -EAGAIN else EVENT_SIZE * Z.of_nat (length out)), out, c') /\
    queue_is a (drop (length out) (digest l)) c'.
Proof.
  intros O Hq Hp Hc out.
  assert (W : wp (notifies l;;; read_all a count) (fun r c' => r = (Done (if bool_decide (out = []) then -EAGAIN else EVENT_SIZE * Z.of_nat (length out)), out) /\
    queue_is a (drop (length out) (digest l)) c') c).
  { apply wp_bind. eapply wp_mono; [by apply (wp_notifies_digest a l []) |]. intros [] c1 [O1 Hq1]. by apply (wp_read_all a (digest l)). }
  destruct (wp_run _ _ _ W) as (r & c' & E & -> & Hq'). by exists c'.
Qed.
End Properties.

(** ** A card with a volume and a switch *)

(** What the driver keeps: the values last put. *)
#[export] Instance values_ops : CtlOps (list (Z * list Z)) := {
  op_info a h := (0, h);
  op_get a v h := (0, match find (fun p => p.1 =? a) h with Some p => p.2 | None => v end, h);
  op_put a v h := (1, v, (a, v) :: h);
  op_free a h := h }.

Import String.StringSyntax.
Open Scope string_scope.
Definition volume : elem_id := ElemId 1 2 0 0 "Master Playback Volume" 0.
Definition switch : elem_id := ElemId 2 2 0 0 "Master Playback Switch" 0.
Close Scope string_scope.

Definition memory : list Z := [101; 102; 103; 104; 201; 202; 203; 204; 205; 206].
Definition start_calls : list call :=
  [CallAdd (KctlNew volume 0 true true); CallAdd (KctlNew switch 0 true true); CallOpen 7; CallOpen 8;
   CallIoctl 103 (ElemLock true 7 volume); CallIoctl 104 (SubscribeEvents true true 1)].

#[export] Instance sensible_dec {H} (c : card H) x : Decision (sensible c x).
Proof. destruct x; cbn; apply _. Defined.

(** The card after these calls. *)
Fixpoint play {H : Type} `{CtlOps H} (xs : list call) (c : card H) : option (card H) :=
  match xs with
  | [] => Some c
  | x :: xs => if decide (sensible c x) then match exec x c with Some (_, c) => play xs c | None => None end else None
  end.

Lemma play_run {H} `{CtlOps H} xs : forall (c c' : card H), play xs c = Some c' -> run c xs c'.
Proof.
  induction xs as [| x xs IH]; intros c c'; cbn [play]; [intros [= ->]; constructor |]. destruct (decide _) as [Hx |]; [| done].
  destruct (exec x c) as [[[] c1] |] eqn:E; [| done]. intros Hp. econstructor; [done | exact E | by apply IH].
Qed.

Definition started : card (list (Z * list Z)) := match play start_calls (new_card [] memory) with Some c => c | None => new_card [] [] end.

Example started_locked : map (fun k => (k_addr k, numid (k_id k), k_owner k)) (controls started) = [(101, 1, 103); (102, 2, 0)] /\ map f_addr (ctl_files started) = [103; 104].
Proof. by vm_compute. Qed.

(** The interrupt flag that [control_rwlock] saves is overwritten by the search, which takes the
    lock again: a request that names a control leaves the interrupts disabled. *)
Example nested_lock_disables_interrupts :
  c_if (new_card (H := list (Z * list Z)) [] memory) = true /\ option_map c_if (play (take 5 start_calls) (new_card [] memory)) = Some false /\
  option_map c_if (play (take 4 start_calls) (new_card [] memory)) = Some true.
Proof. by vm_compute. Qed.

Lemma memory_good : good_memory memory.
Proof. unfold good_memory. by apply (bool_decide_unpack _); vm_compute. Qed.

Lemma started_run : run (new_card [] memory) start_calls started.
Proof. apply play_run. by vm_compute. Qed.

Lemma started_ordered : ordered started.
Proof. eapply run_ordered; [exact started_run | apply new_card_ordered, memory_good]. Qed.

Lemma controls_in_order_witness :
  good_memory memory /\ run (new_card [] memory) start_calls started /\ sensible started (CallRemove 101) /\
  exists c', exec (CallRemove 101) started = Some (tt, c') /\ ordered c'.
Proof.
  assert (S : sensible started (CallRemove 101)) by (vm_compute; left).
  split_and!; [exact memory_good | exact started_run | exact S |].
  exact (proj2 (controls_in_order [] memory start_calls started memory_good started_run) _ S).
Defined.

(** File 104 tries to change and to lock the volume, which 103 has locked. *)
Definition rival_calls : list call :=
  [CallIoctl 104 (ElemWrite true true volume false [5]); CallIoctl 104 (ElemLock true 8 volume); CallIoctl 104 (ElemWrite true true switch false [1])].
Definition after_rival : card (list (Z * list Z)) := match play rival_calls started with Some c => c | None => started end.
Definition volume_ctl : kctl := Kctl 101 (volume <| numid := 1 |>) 103 7 ACCESS_READWRITE true true.

Lemma rival_run : run started rival_calls after_rival.
Proof. apply play_run. by vm_compute. Qed.

Lemma lock_protects_witness :
  volume_ctl ∈ controls started /\ c_puts after_rival = [(104, 102)] /\ untouched volume_ctl started after_rival.
Proof.
  assert (Hin : volume_ctl ∈ controls started) by (vm_compute; left).
  split_and!; [exact Hin | by vm_compute |].
  exact (proj1 (lock_protects started after_rival rival_calls volume_ctl started_ordered Hin ltac:(done) ltac:(repeat constructor; done) rival_run)).
Defined.

(** The volume changes twice, the switch once. *)
Definition three_changes : list change := [(MASK_VALUE, volume <| numid := 1 |>); (MASK_VALUE, switch <| numid := 2 |>); (2, volume <| numid := 1 |>)].

Lemma subscriber_reads_digest_witness :
  queue_is 104 [] started /\ digest three_changes = [Event (volume <| numid := 1 |>) 3; Event (switch <| numid := 2 |>) 1] /\
  exists c', (notifies three_changes;;; read_all 104 1000)%state started = Some (Done 144, digest three_changes, c') /\ queue_is 104 [] c'.
Proof.
  assert (Hq : queue_is 104 [] started) by (exists (CFile 104 8 true []); vm_compute; split_and!; [right; left | done..]).
  split_and!; [exact Hq | by vm_compute |].
  exact (subscriber_reads_digest started 104 three_changes 1000 started_ordered Hq ltac:(vm_compute; split; [repeat constructor; done | lia]) ltac:(done)).
Defined.
