(* ===== verification/ListHead.v ===== *)
(** * ListHead: the kernel's doubly linked lists

    include/linux/list.h.  A list is a ring of links through a head; each link is part of the
    structure that is in the list.  The memory is kept field by field.  [ring h l m] says
    that the links of [l], in this order, are the list with head [h]. *)

From S2P Require Export StateMonad.
From S2P Require Import Prelude.
Open Scope Z_scope.
Open Scope state_scope.

(** [struct list_head], of every link in memory. *)
Record links := Links { next : gmap Z Z; prev : gmap Z Z }.
#[export] Instance settable_links : Settable links := fun m => Links (next m) (prev m).

(** A write through a pointer to a link that is not there is a crash. *)
Definition get_next (a : Z) : ST links Z := fun m => match next m !! a with Some v => Some (v, m) | None => None end.
Definition get_prev (a : Z) : ST links Z := fun m => match prev m !! a with Some v => Some (v, m) | None => None end.
Definition set_next (a v : Z) : ST links unit :=
  get_next a;;; update (fun m => m <| next := <[a := v]> (next m) |>).
Definition set_prev (a v : Z) : ST links unit :=
  get_prev a;;; update (fun m => m <| prev := <[a := v]> (prev m) |>).

(** Memory for a link, whose fields are not set yet, and giving it back. *)
Definition new_link (a junk : Z) (m : links) : links :=
  m <| next := <[a := junk]> (next m) |> <| prev := <[a := junk]> (prev m) |>.
Definition free_link (a : Z) (m : links) : links :=
  m <| next := delete a (next m) |> <| prev := delete a (prev m) |>.

Definition INIT_LIST_HEAD (a : Z) : ST links unit := set_next a a;;; set_prev a a.

Definition __list_add (new prv nxt : Z) : ST links unit :=
  set_prev nxt new;;; set_next new nxt;;; set_prev new prv;;; set_next prv new.

Definition list_add (new head : Z) : ST links unit := n <- get_next head;; __list_add new head n.
Definition list_add_tail (new head : Z) : ST links unit := p <- get_prev head;; __list_add new p head.

Definition __list_del (prv nxt : Z) : ST links unit := set_prev nxt prv;;; set_next prv nxt.

Definition list_del (entry : Z) : ST links unit := p <- get_prev entry;; n <- get_next entry;; __list_del p n.

Definition list_empty (head : Z) : ST links bool := n <- get_next head;; ret (n =? head).

Definition list_splice (lst head : Z) : ST links unit :=
  first <- get_next lst;;
  if first =? lst then ret tt
  else
    last <- get_prev lst;;
    at_ <- get_next head;;
    set_prev first head;;; set_next head first;;;
    set_next last at_;;; set_prev at_ last.

(** The links that [list_for_each] visits from [a]. *)
Fixpoint walk (fuel : nat) (head a : Z) : ST links (list Z) :=
  match fuel with
  | O => crash
  | S fuel => if a =? head then ret [] else n <- get_next a;; l <- walk fuel head n;; ret (a :: l)
  end.

(** ** What is in a list *)

(** From the link [a] one comes to [b] by way of [l]. *)
Fixpoint path (a : Z) (l : list Z) (b : Z) (m : links) : Prop :=
  match l with
  | [] => next m !! a = Some b /\ prev m !! b = Some a
  | x :: l => next m !! a = Some x /\ prev m !! x = Some a /\ path x l b m
  end.

Definition ring (h : Z) (l : list Z) (m : links) : Prop := NoDup (h :: l) /\ path h l h m.

Lemma link_path_app a l1 x l2 b m : path a (l1 ++ x :: l2) b m <-> path a l1 x m /\ path x l2 b m.
Proof. revert a. induction l1 as [| y l1 IH]; intros a; cbn; [tauto |]. rewrite IH. tauto. Qed.

Lemma path_frame a l b m m' :
  (forall x, x ∈ a :: l -> next m' !! x = next m !! x) -> (forall x, x ∈ l ++ [b] -> prev m' !! x = prev m !! x) ->
  path a l b m -> path a l b m'.
Proof.
  revert a. induction l as [| y l IH]; cbn; intros a Hn Hp.
  - rewrite Hn, Hp by set_solver. done.
  - intros (E1 & E2 & P). rewrite Hn, Hp by set_solver. split_and!; [done | done |].
    apply IH; [| | done]; intros; [apply Hn | apply Hp]; set_solver.
Qed.

(** The first and last step of a path. *)
Definition head_of (l : list Z) (b : Z) : Z := match l with [] => b | x :: _ => x end.
Fixpoint last_of (a : Z) (l : list Z) : Z := match l with [] => a | x :: l => last_of x l end.

Lemma path_first a l b m : path a l b m -> next m !! a = Some (head_of l b) /\ prev m !! head_of l b = Some a.
Proof. destruct l; cbn; tauto. Qed.

Lemma path_last a l b m : path a l b m -> next m !! last_of a l = Some b /\ prev m !! b = Some (last_of a l).
Proof. revert a. induction l as [| x l IH]; cbn; [done |]. intros a (_ & _ & P). by apply IH. Qed.

Lemma head_of_in l b : head_of l b ∈ l ++ [b].
Proof. destruct l; cbn; set_solver. Qed.

Lemma last_of_snoc a l x : last_of a (l ++ [x]) = x.
Proof. revert a. by induction l; intros; cbn. Qed.

(** ** The operations *)

Lemma wp_get_next a v m (Q : Z -> links -> Prop) : next m !! a = Some v -> Q v m -> wp (get_next a) Q m.
Proof. unfold wp, get_next. by intros ->. Qed.

Lemma wp_get_prev a v m (Q : Z -> links -> Prop) : prev m !! a = Some v -> Q v m -> wp (get_prev a) Q m.
Proof. unfold wp, get_prev. by intros ->. Qed.

Lemma wp_link_set_next a v m (Q : unit -> links -> Prop) :
  is_Some (next m !! a) -> Q tt (m <| next := <[a := v]> (next m) |>) -> wp (set_next a v) Q m.
Proof. intros [w Hw] HQ. apply wp_bind. by eapply wp_get_next. Qed.

Lemma wp_set_prev a v m (Q : unit -> links -> Prop) :
  is_Some (prev m !! a) -> Q tt (m <| prev := <[a := v]> (prev m) |>) -> wp (set_prev a v) Q m.
Proof. intros [w Hw] HQ. apply wp_bind. by eapply wp_get_prev. Qed.

(** The memory after [new] was put between [p] and [n]. *)
Definition inserted (new p n : Z) (m : links) : links :=
  Links (<[p := new]> (<[new := n]> (next m))) (<[new := p]> (<[n := new]> (prev m))).

Definition is_link (a : Z) (m : links) : Prop := is_Some (next m !! a) /\ is_Some (prev m !! a).

Lemma insert_is_Some {A} (m : gmap Z A) a b v : is_Some (m !! b) -> is_Some (<[a := v]> m !! b).
Proof. destruct (decide (a = b)) as [-> | N]; [rewrite lookup_insert_eq | rewrite lookup_insert_ne by done]; eauto. Qed.

Lemma wp_list_add_between new p n m (Q : unit -> links -> Prop) :
  is_Some (next m !! p) -> is_Some (prev m !! n) -> is_link new m ->
  Q tt (inserted new p n m) -> wp (__list_add new p n) Q m.
Proof.
  intros Hp Hn [H1 H2] HQ. unfold __list_add. apply wp_bind, wp_set_prev; [done |]. apply wp_bind, wp_link_set_next; [done |].
  apply wp_bind, wp_set_prev; [by apply insert_is_Some |]. apply wp_link_set_next; [by apply insert_is_Some |]. done.
Qed.

(** Putting a link into a path. *)
Lemma path_insert l1 : forall a l2 b m new, path a (l1 ++ l2) b m -> NoDup (a :: l1 ++ l2) -> NoDup (l1 ++ l2 ++ [b]) ->
  new ∉ a :: l1 ++ l2 ++ [b] -> path a (l1 ++ new :: l2) b (inserted new (last_of a l1) (head_of l2 b) m).
Proof.
  induction l1 as [| x l1 IH]; intros a l2 b m new P N1 N2 Hnew; cbn [app last_of path] in *.
  - apply NoDup_cons in N1 as [Na N1]. apply not_elem_of_cons in Hnew as [Hna Hnew]. cbn [next prev inserted].
    rewrite !lookup_insert_eq. split_and!; [done | done |].
    destruct l2 as [| x l2]; cbn [path head_of next prev inserted app] in *.
    + assert (new <> b) by set_solver. split; rewrite lookup_insert_ne by congruence; apply lookup_insert_eq.
    + destruct P as (E1 & E2 & P). apply NoDup_cons in N2 as [N2 _]. assert (new <> x) by set_solver.
      split; [| split]; [rewrite lookup_insert_ne by congruence; apply lookup_insert_eq.. |].
      eapply path_frame, P; intros y Hy; cbn [next prev inserted].
      * assert (y <> a /\ y <> new) as [? ?] by (split; intros ->; set_solver). by rewrite !lookup_insert_ne by done.
      * assert (y <> x /\ y <> new) as [? ?] by (split; intros ->; set_solver). by rewrite !lookup_insert_ne by done.
  - destruct P as (E1 & E2 & P). apply NoDup_cons in N1 as [Na N1]. apply NoDup_cons in N2 as [Nx N2].
    apply not_elem_of_cons in Hnew as [Hna [Hnx Hnew]%not_elem_of_cons]. cbn [next prev inserted].
    assert (Hl : last_of x l1 ∈ x :: l1 ++ l2).
    { clear. revert x. induction l1 as [| y l1 IH]; intros x; cbn [last_of app]; [left | right; apply IH]. }
    assert (Hh : head_of l2 b ∈ l1 ++ l2 ++ [b]) by (rewrite elem_of_app; right; apply head_of_in).
    rewrite !lookup_insert_ne by congruence. split_and!; [done | done |]. apply IH; [done | done | done |].
    apply not_elem_of_cons. done.
Qed.

Lemma ring_nodup_end (h : Z) l : NoDup (h :: l) -> NoDup (l ++ [h]).
Proof. intros [Hh Hl]%NoDup_cons. apply NoDup_app. split_and!; [done | set_solver | apply NoDup_singleton]. Qed.

Lemma ring_insert h l1 l2 new m : ring h (l1 ++ l2) m -> new ∉ h :: l1 ++ l2 ->
  ring h (l1 ++ new :: l2) (inserted new (last_of h l1) (head_of l2 h) m).
Proof.
  intros [Hn P] Hnew. split.
  - apply not_elem_of_cons in Hnew as [Nh Hnew]. apply NoDup_cons in Hn as [Ha Hn]. apply NoDup_cons. split; [set_solver |].
    rewrite <- Permutation_middle. by apply NoDup_cons.
  - apply path_insert; [done | done | rewrite app_assoc; by apply ring_nodup_end |]. set_solver.
Qed.

Lemma path_split l1 : forall a l2 b m, path a (l1 ++ l2) b m ->
  next m !! last_of a l1 = Some (head_of l2 b) /\ prev m !! head_of l2 b = Some (last_of a l1).
Proof. induction l1 as [| x l1 IH]; intros a l2 b m; cbn; [apply path_first | intros (_ & _ & P); by apply IH]. Qed.

(** [list_add] behind the last link of [l1]; behind the head if there is none. *)
Lemma wp_list_add h l1 l2 new m (Q : unit -> links -> Prop) :
  ring h (l1 ++ l2) m -> new ∉ h :: l1 ++ l2 -> is_link new m ->
  (forall m', ring h (l1 ++ new :: l2) m' -> (forall x, x ∉ h :: l1 ++ new :: l2 -> next m' !! x = next m !! x /\ prev m' !! x = prev m !! x) ->
     Q tt m') -> wp (list_add new (last_of h l1)) Q m.
Proof.
  intros R Hnew Hl HQ. destruct (path_split _ _ _ _ _ (proj2 R)) as [E1 E2]. unfold list_add. apply wp_bind. eapply wp_get_next; [done |].
  apply wp_list_add_between; [eauto | eauto | done |]. apply HQ; [by apply ring_insert |]. intros x Hx. cbn.
  assert (Hp : last_of h l1 ∈ h :: l1) by (clear; revert h; induction l1 as [| y l1 IH]; intros x; cbn [last_of]; [left | right; apply IH]).
  assert (Hh : head_of l2 h ∈ h :: l2) by (destruct l2; cbn; set_solver).
  assert (x <> last_of h l1 /\ x <> head_of l2 h /\ x <> new) as (? & ? & ?) by (split_and!; intros ->; set_solver).
  by rewrite !lookup_insert_ne by done.
Qed.

(** [list_add_tail]: at the end. *)
Lemma wp_list_add_tail h l new m (Q : unit -> links -> Prop) :
  ring h l m -> new ∉ h :: l -> is_link new m ->
  (forall m', ring h (l ++ [new]) m' -> Q tt m') -> wp (list_add_tail new h) Q m.
Proof.
  intros R Hnew Hl HQ. rewrite <- (app_nil_r l) in R, Hnew. destruct (path_split _ _ _ _ _ (proj2 R)) as [E1 E2].
  unfold list_add_tail. apply wp_bind. eapply wp_get_prev; [exact E2 |]. cbn [head_of] in *.
  apply wp_list_add_between; [eauto | eauto | done |]. apply HQ. by apply (ring_insert h l [] new m).
Qed.

(** [list_del] takes a link out and leaves its own fields. *)
Lemma path_delete l1 : forall a x l2 b m, path a (l1 ++ x :: l2) b m -> NoDup (a :: l1 ++ x :: l2) -> NoDup (l1 ++ x :: l2 ++ [b]) ->
  path a (l1 ++ l2) b (Links (<[last_of a l1 := head_of l2 b]> (next m)) (<[head_of l2 b := last_of a l1]> (prev m))).
Proof.
  induction l1 as [| y l1 IH]; intros a x l2 b m P N1 N2; cbn [app last_of path] in *.
  - destruct P as (E1 & E2 & P). apply NoDup_cons in N1 as [Na N1]. apply NoDup_cons in N2 as [Nx N2].
    destruct l2 as [| y l2]; cbn [path head_of next prev app] in *; [by rewrite !lookup_insert_eq |].
    destruct P as (E3 & E4 & P). apply NoDup_cons in N2 as [Ny N2]. rewrite !lookup_insert_eq. split_and!; [done | done |].
    eapply path_frame, P; intros z Hz; cbn [next prev]; rewrite lookup_insert_ne; set_solver.
  - destruct P as (E1 & E2 & P). apply NoDup_cons in N1 as [Na N1]. apply NoDup_cons in N2 as [Ny N2]. cbn [next prev].
    assert (Hl : last_of y l1 ∈ y :: l1) by (clear; revert y; induction l1 as [| z l1 IH]; intros y; cbn [last_of]; [left | right; apply IH]).
    assert (Hh : head_of l2 b ∈ l2 ++ [b]) by apply head_of_in.
    rewrite !lookup_insert_ne by (intros E; set_solver). split_and!; [done | done |]. by eapply IH.
Qed.

Lemma wp_list_del h l1 x l2 m (Q : unit -> links -> Prop) :
  ring h (l1 ++ x :: l2) m ->
  (forall m', ring h (l1 ++ l2) m' -> (forall y, y ∉ h :: l1 ++ l2 -> next m' !! y = next m !! y /\ prev m' !! y = prev m !! y) -> Q tt m') ->
  wp (list_del x) Q m.
Proof.
  intros [Hn P] HQ. assert (P' := P). apply link_path_app in P' as [P1 P2].
  destruct (path_last _ _ _ _ P1) as [E1 E2], (path_first _ _ _ _ P2) as [E3 E4].
  unfold list_del. apply wp_bind. eapply wp_get_prev; [done |]. apply wp_bind. eapply wp_get_next; [done |].
  unfold __list_del. apply wp_bind, wp_set_prev; [eauto |]. apply wp_link_set_next; [cbn; eauto |]. apply HQ.
  - split; [| apply (path_delete l1 h x l2 h m); [done | done |]].
    + apply NoDup_cons in Hn as [Ha Hn]. apply NoDup_cons. split; [set_solver |]. rewrite <- Permutation_middle in Hn. by apply NoDup_cons in Hn as [_ ?].
    + replace (l1 ++ x :: l2 ++ [h]) with ((l1 ++ x :: l2) ++ [h]) by (by rewrite <- app_assoc). by apply ring_nodup_end.
  - intros y Hy. cbn.
    assert (Hp : last_of h l1 ∈ h :: l1) by (clear; revert h; induction l1 as [| z l1 IH]; intros h; cbn [last_of]; [left | right; apply IH]).
    assert (Hh : head_of l2 h ∈ h :: l2) by (destruct l2; cbn; set_solver).
    assert (y <> last_of h l1 /\ y <> head_of l2 h) as (? & ?) by (split; intros ->; set_solver). by rewrite !lookup_insert_ne by done.
Qed.

(** [list_empty] and [list_for_each]. *)
Lemma wp_list_empty h l m (Q : bool -> links -> Prop) : ring h l m -> Q (bool_decide (l = [])) m -> wp (list_empty h) Q m.
Proof.
  intros [Hn P] HQ. unfold list_empty. destruct (path_first _ _ _ _ P) as [E _]. apply wp_bind. eapply wp_get_next; [done |].
  apply wp_ret. destruct l as [| x l]; cbn [head_of]; [by rewrite Z.eqb_refl |].
  rewrite (proj2 (Z.eqb_neq _ _)); [done |]. apply NoDup_cons in Hn as [Hn _]. set_solver.
Qed.

Lemma wp_walk l : forall fuel a h m (Q : list Z -> links -> Prop), path a l h m -> h ∉ l -> (length l < fuel)%nat ->
  Q l m -> wp (walk fuel h (head_of l h)) Q m.
Proof.
  induction l as [| x l IH]; intros [| fuel] a h m Q P Hh Hf HQ; cbn [length walk head_of] in *; try lia.
  - rewrite Z.eqb_refl. by apply wp_ret.
  - destruct P as (_ & _ & P). rewrite (proj2 (Z.eqb_neq _ _)) by set_solver.
    destruct (path_first _ _ _ _ P) as [E _]. apply wp_bind. eapply wp_get_next; [done |]. apply wp_bind.
    eapply IH; [done | set_solver | lia |]. by apply wp_ret.
Qed.

(** The last step of a path led elsewhere. *)
Lemma path_retarget l : forall a b c m, path a l b m -> NoDup (a :: l) -> c ∉ l ->
  path a l c (Links (<[last_of a l := c]> (next m)) (<[c := last_of a l]> (prev m))).
Proof.
  induction l as [| x l IH]; intros a b c m P N Nc; cbn [path last_of next prev] in *; [by rewrite !lookup_insert_eq |].
  destruct P as (E1 & E2 & P). apply NoDup_cons in N as [Na N]. apply not_elem_of_cons in Nc as [Ncx Nc].
  assert (Hl : last_of x l ∈ x :: l) by (clear; revert x; induction l as [| z l IH]; intros y; cbn [last_of]; [left | right; apply IH]).
  rewrite !lookup_insert_ne by congruence. split_and!; [done | done |]. by eapply IH.
Qed.

Lemma path_snd a x l b m : path a (x :: l) b m -> next m !! a = Some x /\ prev m !! x = Some a /\ path x l b m.
Proof. done. Qed.

(** [list_splice] puts the links of a list in front of those of another; its head is left as it is. *)
Lemma wp_list_splice hl l h l' m (Q : unit -> links -> Prop) :
  ring hl l m -> ring h l' m -> NoDup (hl :: l ++ h :: l') ->
  (forall m', ring h (l ++ l') m' -> Q tt m') -> wp (list_splice hl h) Q m.
Proof.
  intros [N1 P1] [N2 P2] N HQ. unfold list_splice. destruct (path_first _ _ _ _ P1) as [E1 E2].
  apply wp_bind. eapply wp_get_next; [exact E1 |]. destruct l as [| x l]; cbn [head_of] in *.
  { rewrite Z.eqb_refl. apply wp_ret, HQ. done. }
  apply NoDup_cons in N1 as [Nh N1]. rewrite (proj2 (Z.eqb_neq _ _)) by set_solver.
  destruct (path_last _ _ _ _ P1) as [E3 E4], (path_first _ _ _ _ P2) as [E5 E6].
  apply path_snd in P1 as (_ & _ & P1). cbn [last_of] in *.
  assert (Hl : last_of x l ∈ x :: l) by (clear; revert x; induction l as [| z l IH]; intros y; cbn [last_of]; [left | right; apply IH]).
  assert (Hh : head_of l' h ∈ h :: l') by (destruct l'; cbn; set_solver).
  apply NoDup_cons in N as [_ N]. cbn [app] in N. assert (D : forall y, y ∈ x :: l -> y ∉ h :: l').
  { change (x :: l ++ h :: l') with ((x :: l) ++ h :: l') in N. apply NoDup_app in N as (_ & D & _). exact D. }
  apply wp_bind. eapply wp_get_prev; [exact E4 |]. apply wp_bind. eapply wp_get_next; [exact E5 |].
  apply wp_bind, wp_set_prev; [eauto |]. apply wp_bind, wp_link_set_next; [cbn; eauto |].
  apply wp_bind, wp_link_set_next; [cbn; apply insert_is_Some; eauto |]. apply wp_set_prev; [cbn; apply insert_is_Some; eauto |].
  apply HQ. cbn. pose proof (D x ltac:(left)) as Dx. pose proof (D _ Hl) as Dl. split.
  - change (x :: l ++ h :: l') with ((x :: l) ++ h :: l') in N. change (NoDup (h :: (x :: l) ++ l')).
    rewrite <- Permutation_middle in N. done.
  - cbn [app path next prev]. split_and!.
    + rewrite lookup_insert_ne by set_solver. apply lookup_insert_eq.
    + rewrite lookup_insert_ne by set_solver. apply lookup_insert_eq.
    + destruct l' as [| y l']; cbn [head_of] in *.
      * rewrite app_nil_r. eapply path_frame, (path_retarget l x hl h m P1 N1); [| | set_solver]; intros z Hz; cbn [next prev].
        -- destruct (decide (z = last_of x l)) as [-> | Nz]; [by rewrite !lookup_insert_eq |]. rewrite !lookup_insert_ne by set_solver. done.
        -- destruct (decide (z = h)) as [-> | Nz]; [by rewrite !lookup_insert_eq |]. apply NoDup_cons in N1 as [Nx _].
           assert (z <> x) by set_solver. rewrite !lookup_insert_ne by congruence. done.
      * apply link_path_app. apply path_snd in P2 as (_ & _ & P2). apply NoDup_cons in N1 as [Nx N1'']. split.
        -- eapply path_frame, (path_retarget l x hl y m P1); [| | apply NoDup_cons; done | set_solver]; intros z Hz; cbn [next prev].
           ++ destruct (decide (z = last_of x l)) as [-> | Nz]; [by rewrite !lookup_insert_eq |]. rewrite !lookup_insert_ne by set_solver. done.
           ++ destruct (decide (z = y)) as [-> | Nz]; [by rewrite !lookup_insert_eq |].
              assert (z <> x) by set_solver. rewrite !lookup_insert_ne by congruence. done.
        -- apply NoDup_cons in N2 as [N2h N2]. apply NoDup_cons in N2 as [N2y N2].
           eapply path_frame, P2; intros z Hz; cbn [next prev].
           ++ assert (z <> last_of x l /\ z <> h) as [? ?] by (split; intros ->; set_solver). by rewrite !lookup_insert_ne by done.
           ++ assert (z <> x /\ z <> y) as [? ?] by (split; intros ->; set_solver). by rewrite !lookup_insert_ne by done.
Qed.
