(* ===== verification/UtilMem.v ===== *)
(** * UtilMem: memory of synthesizers

    alsa/synth/util_mem.c: the wave memory of a card is given out in blocks, which are kept
    in the order of their offsets in a list of the kernel.  A block goes where the first gap
    is wide enough.  The blocks are shown to be apart and inside the memory, an allocation to
    fail only if no gap is wide enough, and freeing to give back exactly the block. *)

From S2P Require Import Prelude ListHead.
Open Scope Z_scope.
Open Scope state_scope.

(** ** Data *)

(** [snd_util_memblk_t] without its link. *)
Record memblk := Memblk { b_size : Z; b_offset : Z }.

(** [snd_util_memhdr_t]; [block] is the address of the head of its list. *)
Record memhdr := Memhdr { h_size : Z; h_block : Z; h_nblocks : Z; h_used : Z; h_extra : Z; h_mutex : bool }.
#[export] Instance settable_memhdr : Settable memhdr := fun h => Memhdr
  (h_size h) (h_block h) (h_nblocks h) (h_used h) (h_extra h) (h_mutex h).

(** The header, the blocks by the address of their link, and the links.  [um_alloc] is
    what [kmalloc] will return, an address of a block or 0. *)
Record umem := Umem { um_hdr : memhdr; um_blks : gmap Z memblk; um_links : links; um_alloc : list Z }.
#[export] Instance settable_umem : Settable umem := fun u => Umem (um_hdr u) (um_blks u) (um_links u) (um_alloc u).

Abbreviation U := (ST umem).

Definition on_links {A} (m : ST links A) : U A := fun u =>
  match m (um_links u) with Some (x, k) => Some (x, u <| um_links := k |>) | None => None end.
Definition get_memblk (p : Z) : U memblk := fun u =>
  match um_blks u !! p with Some b => Some (b, u) | None => None end.
Definition hdr : U memhdr := fun u => Some (um_hdr u, u).
Definition set_hdr (f : memhdr -> memhdr) : U unit := update (fun u => u <| um_hdr := f (um_hdr u) |>).

Definition kmalloc : U Z := fun u =>
  match um_alloc u with a :: l => Some (a, u <| um_alloc := l |>) | [] => Some (0, u) end.
Definition kfree (p : Z) : U unit :=
  get_memblk p;;;
  update (fun u => u <| um_blks := delete p (um_blks u) |> <| um_links := free_link p (um_links u) |>).

Definition down : U unit := h <- hdr;; if h_mutex h then crash else set_hdr (fun h => h <| h_mutex := true |>).
Definition up : U unit := set_hdr (fun h => h <| h_mutex := false |>).

(** ** Operations *)

(** The header with its list at the address [block]; 0 if [snd_kcalloc] fails. *)
Definition snd_util_memhdr_new (memsize block : Z) (alloc : list Z) : option umem :=
  if block =? 0 then None
  else
    match INIT_LIST_HEAD block (new_link block 0 (Links ∅ ∅)) with
    | Some (_, k) => Some (Umem (Memhdr (u32 memsize) block 0 0 0 false) ∅ k alloc)
    | None => None
    end.

(** The loop that releases all blocks. *)
Fixpoint release (fuel : nat) : U unit :=
  match fuel with
  | O => crash
  | S fuel =>
      h <- hdr;;
      p <- on_links (get_next (h_block h));;
      if p =? h_block h then ret tt
      else on_links (list_del p);;; kfree p;;; release fuel
  end.

Definition snd_util_memhdr_free : U unit := fun u => release (S (size (um_blks u))) u.

(** [next to prev]; a NULL [prev] is the head for this purpose only. *)
Definition __snd_util_memblk_new (units prv : Z) : U Z :=
  blk <- kmalloc;;
  if blk =? 0 then ret 0
  else
    h <- hdr;;
    offset <- (if (prv =? 0) || (prv =? h_block h) then ret 0
               else p <- get_memblk prv;; ret (u32 (b_offset p + b_size p)));;
    update (fun u => u <| um_blks := <[blk := Memblk units offset]> (um_blks u) |>
                       <| um_links := new_link blk 0 (um_links u) |>);;;
    on_links (list_add blk prv);;;
    set_hdr (fun h => h <| h_nblocks := h_nblocks h + 1 |> <| h_used := u32 (h_used h + units) |>);;;
    ret blk.

(** The search from the link [p]; [None] if nothing fits. *)
Fixpoint find_gap (fuel : nat) (units prev_offset p : Z) : U (option Z) :=
  match fuel with
  | O => crash
  | S fuel =>
      h <- hdr;;
      if p =? h_block h then
        ret (if u32 (h_size h - prev_offset) <? units then None else Some p)
      else
        blk <- get_memblk p;;
        if units <=? u32 (b_offset blk - prev_offset) then ret (Some p)
        else
          n <- on_links (get_next p);;
          find_gap fuel units (u32 (b_offset blk + b_size blk)) n
  end.

Definition __snd_util_mem_alloc (size : Z) : U Z :=
  if size <=? 0 then ret 0
  else
    let units := if Z.odd size then u32 (size + 1) else size in
    h <- hdr;;
    if h_size h <? units then ret 0
    else
      p <- on_links (get_next (h_block h));;
      u <- get;;
      r <- find_gap (S (base.size (um_blks u))) units 0 p;;
      match r with
      | None => ret 0
      | Some p => q <- on_links (get_prev p);; __snd_util_memblk_new units q
      end.

Definition snd_util_mem_alloc (size : Z) : U Z := down;;; blk <- __snd_util_mem_alloc size;; up;;; ret blk.

Definition __snd_util_mem_free (blk : Z) : U unit :=
  on_links (list_del blk);;;
  b <- get_memblk blk;;
  set_hdr (fun h => h <| h_nblocks := h_nblocks h - 1 |> <| h_used := u32 (h_used h - b_size b) |>);;;
  kfree blk.

Definition snd_util_mem_free (blk : Z) : U Z :=
  if blk =? 0 then ret (-EINVAL) else down;;; __snd_util_mem_free blk;;; up;;; ret 0.

Definition snd_util_mem_avail : U Z :=
  down;;; h <- hdr;; up;;; ret (s32 (h_size h - h_used h)).

(** ** What the list means *)

(** Blocks in order: [from] is where the free memory before them begins. *)
Fixpoint laid (from size : Z) (bs : list memblk) : Prop :=
  match bs with
  | [] => from <= size
  | b :: bs => from <= b_offset b /\ 0 < b_size b /\ laid (b_offset b + b_size b) size bs
  end.

Definition total (bs : list memblk) : Z := foldr (fun b t => b_size b + t) 0 bs.

(** Where the blocks end. *)
Fixpoint end_of (from : Z) (bs : list memblk) : Z :=
  match bs with [] => from | b :: bs => end_of (b_offset b + b_size b) bs end.

(** The gaps between the blocks: where each begins, and its width. *)
Fixpoint gaps (from size : Z) (bs : list memblk) : list (Z * Z) :=
  match bs with
  | [] => [(from, size - from)]
  | b :: bs => (from, b_offset b - from) :: gaps (b_offset b + b_size b) size bs
  end.

(** The request in words. *)
Definition units_of (size : Z) : Z := if Z.odd size then u32 (size + 1) else size.

(** The memory as a list of blocks with their addresses. *)
Record holds (u : umem) (l : list (Z * memblk)) : Prop := {
  ho_ring : ring (h_block (um_hdr u)) l.*1 (um_links u);
  ho_blks : um_blks u = list_to_map l;
  ho_null : 0 ∉ h_block (um_hdr u) :: l.*1;
  ho_size : is_u32 (h_size (um_hdr u));
  ho_laid : laid 0 (h_size (um_hdr u)) l.*2;
  ho_count : h_nblocks (um_hdr u) = Z.of_nat (length l);
  ho_used : h_used (um_hdr u) = total l.*2;
  ho_free : h_mutex (um_hdr u) = false }.

(** ** Rules *)

Lemma wp_on_links {A} (m : ST links A) u (Q : A -> umem -> Prop) :
  wp m (fun x k => Q x (u <| um_links := k |>)) (um_links u) -> wp (on_links m) Q u.
Proof. unfold wp, on_links. by destruct (m (um_links u)) as [[x k] |]. Qed.

Lemma wp_get_memblk p b u (Q : memblk -> umem -> Prop) : um_blks u !! p = Some b -> Q b u -> wp (get_memblk p) Q u.
Proof. unfold wp, get_memblk. by intros ->. Qed.

Lemma wp_hdr u (Q : memhdr -> umem -> Prop) : Q (um_hdr u) u -> wp hdr Q u.
Proof. done. Qed.

Lemma wp_kmalloc a l u (Q : Z -> umem -> Prop) : um_alloc u = a :: l -> Q a (u <| um_alloc := l |>) -> wp kmalloc Q u.
Proof. unfold wp, kmalloc. by intros ->. Qed.

(** With the mutex taken nothing else changes. *)
Lemma wp_down l u (Q : unit -> umem -> Prop) :
  holds u l -> Q tt (u <| um_hdr := (um_hdr u) <| h_mutex := true |> |>) -> wp down Q u.
Proof. intros Ho HQ. unfold down. apply wp_bind, wp_hdr. by rewrite (ho_free _ _ Ho). Qed.

Definition taken (u : umem) : umem := u <| um_hdr := (um_hdr u) <| h_mutex := true |> |>.

Lemma taken_up u : h_mutex (um_hdr u) = false -> (taken u) <| um_hdr := (um_hdr (taken u)) <| h_mutex := false |> |> = u.
Proof. destruct u as [[] ? ? ?]. cbn. by intros ->. Qed.

(** ** Searching *)

(** The blocks before and after the first gap of [units] behind [from]. *)
Fixpoint fit (units from size : Z) (l : list (Z * memblk)) : option (list (Z * memblk) * list (Z * memblk)) :=
  match l with
  | [] => if size - from <? units then None else Some ([], [])
  | (a, b) :: l' =>
      if units <=? b_offset b - from then Some ([], l)
      else option_map (fun r => ((a, b) :: r.1, r.2)) (fit units (b_offset b + b_size b) size l')
  end.

Lemma end_of_snoc bs b : forall from, end_of from (bs ++ [b]) = b_offset b + b_size b.
Proof. induction bs as [| b' bs IH]; intros from; cbn; [done | apply IH]. Qed.

Lemma laid_app from size bs cs : laid from size (bs ++ cs) <-> laid from (end_of from bs) bs /\ laid (end_of from bs) size cs.
Proof. revert from. induction bs as [| b bs IH]; intros from; cbn; [split; [intros; split; [lia | done] | tauto] |]. rewrite IH. tauto. Qed.

Lemma laid_le from size bs : laid from size bs -> from <= size.
Proof. revert from. induction bs as [| b bs IH]; cbn; [done |]. intros from (? & ? & ?%IH). lia. Qed.

Lemma end_le from size bs : laid from size bs -> from <= end_of from bs <= size.
Proof.
  revert from. induction bs as [| b bs IH]; cbn; [lia |]. intros from (? & ? & L). specialize (IH _ L). lia.
Qed.

Lemma total_le from size bs : laid from size bs -> 0 <= total bs <= size - from.
Proof. revert from. induction bs as [| b bs IH]; cbn; [lia |]. intros from (? & ? & L). specialize (IH _ L). unfold total in *. lia. Qed.

Lemma blks_total_app bs cs : total (bs ++ cs) = total bs + total cs.
Proof. induction bs as [| b bs IH]; cbn; [done |]. unfold total in *. lia. Qed.

Lemma gaps_inside from size bs g : laid from size bs -> g ∈ gaps from size bs -> from <= g.1 /\ g.1 + g.2 <= size.
Proof.
  revert from. induction bs as [| b bs IH]; intros from; cbn [gaps laid].
  - intros L ->%list_elem_of_singleton. cbn. lia.
  - intros (? & ? & L) [-> | Hg]%elem_of_cons; [pose proof (laid_le _ _ _ L); cbn; lia |]. specialize (IH _ L Hg). lia.
Qed.

Lemma fit_some units from size l : 0 < units -> laid from size l.*2 ->
  match fit units from size l with
  | Some (l1, l2) => l = l1 ++ l2 /\ laid (end_of from l1.*2 + units) size l2.*2 /\
      (forall g, g ∈ gaps from size l.*2 -> g.1 < end_of from l1.*2 -> g.2 < units)
  | None => forall g, g ∈ gaps from size l.*2 -> g.2 < units
  end.
Proof.
  intros Hu. revert from. induction l as [| [a b] l IH]; intros from L; cbn [fit fmap list_fmap gaps laid] in *.
  - destruct (Z.ltb_spec (size - from) units).
    + intros g ->%list_elem_of_singleton. done.
    + split_and!; [done | cbn; lia |]. intros g ->%list_elem_of_singleton. cbn. lia.
  - destruct L as (L1 & L2 & L3). cbn [snd] in *. destruct (Z.leb_spec units (b_offset b - from)) as [Hfit | Hno].
    + split_and!; [done | cbn; split_and!; [lia | done | done] |]. cbn. intros g [-> | Hg]%elem_of_cons; [cbn; lia |].
      pose proof (gaps_inside _ _ _ g L3 Hg). lia.
    + specialize (IH _ L3). destruct (fit units (b_offset b + b_size b) size l) as [[l1 l2] |]; cbn.
      * destruct IH as (-> & E2 & E3). split_and!; [done | done |]. intros g [-> | Hg]%elem_of_cons; [cbn; lia | auto].
      * intros g [-> | Hg]%elem_of_cons; [cbn; lia | auto].
Qed.

Section Search.
Context (u : umem) (l : list (Z * memblk)) (Ho : holds u l).
Let h := h_block (um_hdr u).

Lemma holds_lookup a b : (a, b) ∈ l -> um_blks u !! a = Some b.
Proof.
  intros Hab. rewrite (ho_blks _ _ Ho). apply elem_of_list_to_map_1; [| done].
  destruct (ho_ring _ _ Ho) as [[_ Hn]%NoDup_cons _]. done.
Qed.

Lemma wp_find_gap u' units l2 : forall l1 fuel (Q : option Z -> umem -> Prop),
  um_hdr u' = um_hdr (taken u) -> um_blks u' = um_blks u -> um_links u' = um_links u ->
  l = l1 ++ l2 -> (length l2 < fuel)%nat ->
  Q (match fit units (end_of 0 l1.*2) (h_size (um_hdr u)) l2 with
     | Some (_, m2) => Some (head_of m2.*1 h) | None => None end) u' ->
  wp (find_gap fuel units (end_of 0 l1.*2) (head_of l2.*1 h)) Q u'.
Proof.
  induction l2 as [| [a b] l2 IH]; intros l1 [| fuel] Q E1 E2 E3 El Hf HQ; cbn [length] in *; try lia; cbn [find_gap].
  all: apply wp_bind, wp_hdr; rewrite E1; change (h_block (um_hdr (taken u))) with h; change (h_size (um_hdr (taken u))) with (h_size (um_hdr u)).
  all: pose proof (ho_laid _ _ Ho) as L; rewrite El, fmap_app in L; apply laid_app in L as [L1 L2]; pose proof (ho_size _ _ Ho) as Hs;
    pose proof (laid_le _ _ _ L1); pose proof (laid_le _ _ _ L2).
  - cbn [fmap list_fmap head_of] in *. rewrite Z.eqb_refl. apply wp_ret. rewrite u32_small by (unfold is_u32 in *; lia).
    cbn [fit] in HQ. by destruct (Z.ltb_spec (h_size (um_hdr u) - end_of 0 l1.*2) units).
  - cbn [fmap list_fmap head_of fst snd] in *. destruct L2 as (L2 & L3 & L4). pose proof (laid_le _ _ _ L4).
    assert (Hab : (a, b) ∈ l) by (rewrite El; set_solver).
    rewrite (proj2 (Z.eqb_neq _ _)).
    2: { intros ->. destruct (ho_ring _ _ Ho) as [[Hn _]%NoDup_cons _]. apply Hn. apply list_elem_of_fmap. exists (h, b). done. }
    apply wp_bind. eapply wp_get_memblk; [rewrite E2; by apply holds_lookup |].
    rewrite !u32_small by (unfold is_u32 in *; lia). cbn [fit] in HQ.
    destruct (Z.leb_spec units (b_offset b - end_of 0 l1.*2)); [by apply wp_ret |].
    apply wp_bind, wp_on_links. pose proof (ho_ring _ _ Ho) as [_ P]. rewrite El, fmap_app in P. apply link_path_app in P as [_ P].
    eapply wp_get_next; [rewrite E3; apply (path_first _ _ _ _ P) |].
    assert (Ee : end_of 0 (l1 ++ [(a, b)]).*2 = b_offset b + b_size b).
    { rewrite fmap_app. apply end_of_snoc. }
    replace (u' <| um_links := um_links u' |>) with u' by (by destruct u'). rewrite <- Ee.
    eapply (IH (l1 ++ [(a, b)])); [done | done | done | by rewrite <- app_assoc | lia |]. rewrite Ee. cbn [snd] in HQ.
    by destruct (fit units (b_offset b + b_size b) (h_size (um_hdr u)) l2) as [[m1 m2] |].
Qed.
End Search.

(** ** Allocating *)

Lemma last_of_fmap h l1 : l1 = [] /\ last_of h l1.*1 = h \/ exists m a b, l1 = m ++ [(a, b)] /\ last_of h (l1 : list (Z * memblk)).*1 = a.
Proof.
  destruct l1 as [| [a b] m] using rev_ind; [by left |]. right. exists m, a, b. split; [done |].
  rewrite fmap_app. apply last_of_snoc.
Qed.

(** A block put behind those of [l1]. *)
Lemma wp_memblk_new u l1 l2 units a rest u' (Q : Z -> umem -> Prop) :
  holds u (l1 ++ l2) -> 0 < units -> laid (end_of 0 l1.*2 + units) (h_size (um_hdr u)) l2.*2 ->
  u' = taken u -> um_alloc u = a :: rest -> (a <> 0 -> a ∉ h_block (um_hdr u) :: (l1 ++ l2).*1) ->
  (forall u2, (a = 0 -> holds u2 (l1 ++ l2)) -> (a <> 0 -> holds u2 (l1 ++ (a, Memblk units (end_of 0 l1.*2)) :: l2)) ->
     um_alloc u2 = rest -> Q a (taken u2)) ->
  wp (__snd_util_memblk_new units (last_of (h_block (um_hdr u)) l1.*1)) Q u'.
Proof.
  intros Ho Hu L2 -> Ea Hfresh HQ. unfold __snd_util_memblk_new. apply wp_bind. eapply wp_kmalloc; [exact Ea |].
  destruct (Z.eqb_spec a 0) as [-> | Na].
  { apply wp_ret. specialize (HQ (u <| um_alloc := rest |>)). apply HQ; [intros _; split; apply Ho | done | done]. }
  specialize (Hfresh Na). set (h := h_block (um_hdr u)) in *.
  apply wp_bind, wp_hdr. change (h_block (um_hdr (taken u <| um_alloc := rest |>))) with h.
  pose proof (ho_laid _ _ Ho) as L. rewrite fmap_app in L. apply laid_app in L as [L1 L1'].
  pose proof (ho_size _ _ Ho) as Hs. pose proof (laid_le _ _ _ L2) as Hle. pose proof (laid_le _ _ _ L1) as Hle1.
  apply wp_bind. eapply wp_mono with (Q := fun o w => o = end_of 0 l1.*2 /\ w = taken u <| um_alloc := rest |>).
  { destruct (last_of_fmap h l1) as [[-> ->] | (m & p & b & -> & ->)]; [rewrite Z.eqb_refl, orb_true_r; by apply wp_ret |].
    assert (Hin : (p, b) ∈ (m ++ [(p, b)]) ++ l2) by (rewrite !elem_of_app; left; right; left). assert (Hp : p ∈ ((m ++ [(p, b)]) ++ l2).*1) by (apply list_elem_of_fmap; by exists (p, b)).
    pose proof (ho_null _ _ Ho) as H0. destruct (ho_ring _ _ Ho) as [[Hn _]%NoDup_cons _]. fold h in Hn.
    assert (Np : p <> 0) by (intros ->; apply H0; by right). assert (Nh : p <> h) by (by intros ->).
    rewrite !(proj2 (Z.eqb_neq _ _)) by done. cbn [orb].
    apply wp_bind. eapply wp_get_memblk; [by apply (holds_lookup u _ Ho) |]. apply wp_ret. split; [| done].
    rewrite fmap_app in *. cbn in *. rewrite end_of_snoc in *. apply u32_small. unfold is_u32 in *. lia. }
  intros o w [-> ->]. apply wp_bind. unfold wp at 1, update. apply wp_bind, wp_on_links. cbn [um_links set_field taken].
  eapply (wp_list_add h l1.*1 l2.*1).
  - pose proof (ho_ring _ _ Ho) as [Hn P]. rewrite fmap_app in *. split; [done |]. fold h in P. eapply path_frame, P; intros x Hx; cbn.
    + rewrite lookup_insert_ne; [done |]. intros ->. apply Hfresh. set_solver.
    + rewrite lookup_insert_ne; [done |]. intros ->. apply Hfresh. set_solver.
  - by rewrite <- fmap_app.
  - split; cbn; rewrite lookup_insert_eq; eauto.
  - intros k R _. apply wp_bind. unfold wp at 1, set_hdr, update. apply wp_ret.
    pose proof (total_le 0 _ _ (ho_laid _ _ Ho)) as Ht. pose proof (ho_used _ _ Ho) as Hus.
    set (H := (um_hdr u) <| h_nblocks := h_nblocks (um_hdr u) + 1 |> <| h_used := u32 (h_used (um_hdr u) + units) |>).
    specialize (HQ (Umem H (<[a := Memblk units (end_of 0 l1.*2)]> (um_blks u)) k rest)).
    assert (Eout : forall v, v = taken (Umem H (<[a := Memblk units (end_of 0 l1.*2)]> (um_blks u)) k rest) -> Q a v); [| by apply Eout].
    intros v ->. apply HQ; [done | intros _ | done]. clear HQ. split; cbn [um_hdr um_links um_blks set_field H h_block h_size h_nblocks h_used h_mutex]; try apply Ho.
    + by rewrite fmap_app.
    + rewrite (ho_blks _ _ Ho), !list_to_map_app. cbn [list_to_map foldr fst snd].
      rewrite <- insert_union_r; [done |]. apply not_elem_of_list_to_map_1. rewrite fmap_app in Hfresh. set_solver.
    + pose proof (ho_null _ _ Ho) as H0. fold h in H0 |- *. rewrite fmap_app in *. cbn. set_solver.
    + rewrite fmap_app. cbn. apply laid_app. split; [done |]. cbn. split_and!; [lia | done | done].
    + rewrite (ho_count _ _ Ho), !length_app. cbn. lia.
    + rewrite Hus, !fmap_app, !blks_total_app in *.
      change (total ((a, Memblk units (end_of 0 l1.*2)) :: l2).*2) with (units + total l2.*2).
      pose proof (total_le _ _ _ L2). pose proof (total_le _ _ _ L1). rewrite u32_small; unfold is_u32 in *; lia.
Qed.

(** A request for wave memory gets the first gap that is wide enough, at the end of the block before it and
    rounded up to words, and leaves the other blocks alone; it fails only if no gap is wide enough or the kernel has no memory for the block. *)
Theorem alloc_first_fit u l size a rest :
  holds u l -> 0 < size <= INT_MAX -> um_alloc u = a :: rest -> (a <> 0 -> a ∉ h_block (um_hdr u) :: l.*1) ->
  wp (snd_util_mem_alloc size) (fun r u' =>
    (r = 0 /\ holds u' l /\ (a = 0 \/ forall g, g ∈ gaps 0 (h_size (um_hdr u)) l.*2 -> g.2 < units_of size)) \/
    (r = a /\ a <> 0 /\ exists l1 l2, l = l1 ++ l2 /\ holds u' (l1 ++ (a, Memblk (units_of size) (end_of 0 l1.*2)) :: l2) /\
       forall g, g ∈ gaps 0 (h_size (um_hdr u)) l.*2 -> g.1 < end_of 0 l1.*2 -> g.2 < units_of size)) u.
Proof.
  intros Ho Hsz Ea Hfresh. set (units := units_of size). assert (Hu : 0 < units <= 2147483648).
  { unfold units, units_of, INT_MAX in *. destruct (Z.odd size); [rewrite u32_small by (unfold is_u32; lia) |]; lia. }
  unfold snd_util_mem_alloc. apply wp_bind. eapply wp_down; [done |]. fold (taken u).
  assert (Hend : forall r u2, ((r = 0 /\ holds u2 l /\ (a = 0 \/ forall g, g ∈ gaps 0 (h_size (um_hdr u)) l.*2 -> g.2 < units)) \/
    (r = a /\ a <> 0 /\ exists l1 l2, l = l1 ++ l2 /\ holds u2 (l1 ++ (a, Memblk units (end_of 0 l1.*2)) :: l2) /\
       forall g, g ∈ gaps 0 (h_size (um_hdr u)) l.*2 -> g.1 < end_of 0 l1.*2 -> g.2 < units)) -> wp (up;;; ret r) (fun r u' =>
    (r = 0 /\ holds u' l /\ (a = 0 \/ forall g, g ∈ gaps 0 (h_size (um_hdr u)) l.*2 -> g.2 < units)) \/
    (r = a /\ a <> 0 /\ exists l1 l2, l = l1 ++ l2 /\ holds u' (l1 ++ (a, Memblk units (end_of 0 l1.*2)) :: l2) /\
       forall g, g ∈ gaps 0 (h_size (um_hdr u)) l.*2 -> g.1 < end_of 0 l1.*2 -> g.2 < units)) (taken u2)).
  { intros r u2 P. apply wp_bind. unfold wp at 1, up, set_hdr, update. rewrite taken_up; [by apply wp_ret |].
    destruct P as [(_ & P & _) | (_ & _ & l1 & l2 & _ & P & _)]; apply P. }
  pose proof (fit_some units 0 (h_size (um_hdr u)) l ltac:(lia) (ho_laid _ _ Ho)) as Hfit.
  apply wp_bind. unfold __snd_util_mem_alloc. rewrite (proj2 (Z.leb_gt _ _)) by lia. fold (units_of size). fold units.
  apply wp_bind, wp_hdr. change (h_size (um_hdr (taken u))) with (h_size (um_hdr u)).
  destruct (Z.ltb_spec (h_size (um_hdr u)) units) as [Hsmall | Hbig].
  { apply wp_ret, Hend. left. split_and!; [done | done |]. right. clear -Hsmall Ho. intros g Hg.
    pose proof (gaps_inside _ _ _ g (ho_laid _ _ Ho) Hg). lia. }
  apply wp_bind, wp_on_links. destruct (path_first _ _ _ _ (proj2 (ho_ring _ _ Ho))) as [Efirst _].
  eapply wp_get_next; [exact Efirst |]. apply wp_bind. unfold wp at 1, get. apply wp_bind.
  replace (taken u <| um_links := um_links (taken u) |>) with (taken u) by (by destruct u).
  change (head_of l.*1 (h_block (um_hdr (taken u)))) with (head_of l.*1 (h_block (um_hdr u))). change 0 with (end_of 0 ([] : list (Z * memblk)).*2) at 1.
  eapply (wp_find_gap u l Ho (taken u) units l []); [done | done | done | done | |].
  { destruct (ho_ring _ _ Ho) as [[_ Hn]%NoDup_cons _]. pose proof (map_size_list_to_map (M := gmap Z) l Hn) as E.
    rewrite <- (ho_blks _ _ Ho) in E. cbn. lia. }
  cbn [end_of fmap list_fmap]. destruct (fit units 0 (h_size (um_hdr u)) l) as [[l1 l2] |].
  - destruct Hfit as (-> & L2 & Hg). apply wp_bind, wp_on_links. pose proof (proj2 (ho_ring _ _ Ho)) as P. rewrite fmap_app in P.
    eapply wp_get_prev; [apply (path_split _ _ _ _ _ P) |]. replace (taken u <| um_links := um_links (taken u) |>) with (taken u) by (by destruct u).
    eapply wp_memblk_new; [done | lia | done | done | exact Ea | done |]. intros u2 H0 H1 _. apply Hend.
    destruct (Z.eq_dec a 0) as [E0 | N0]; [left; auto |]. right. split_and!; [done | done |]. exists l1, l2. auto.
  - apply wp_ret, Hend. left. auto.
Qed.

Lemma memhdr_new_holds memsize block alloc : block <> 0 ->
  exists u, snd_util_memhdr_new memsize block alloc = Some u /\ holds u [] /\ h_size (um_hdr u) = u32 memsize.
Proof.
  intros Nb. unfold snd_util_memhdr_new. rewrite (proj2 (Z.eqb_neq _ _)) by done.
  destruct (INIT_LIST_HEAD block (new_link block 0 (Links ∅ ∅))) as [[[] k] |] eqn:E.
  - eexists. split; [done |]. split; [| done]. split; cbn; try done.
    + split; [apply NoDup_singleton |]. revert E. unfold INIT_LIST_HEAD, set_next, set_prev, get_next, get_prev, bind, update, new_link.
      cbn. rewrite lookup_insert_eq. cbn. rewrite lookup_insert_eq. cbn. intros [= <-]. cbn. by rewrite !lookup_insert_eq.
    + set_solver.
    + apply u32_range.
    + pose proof (u32_range memsize). unfold is_u32 in *. lia.
  - exfalso. revert E. unfold INIT_LIST_HEAD, set_next, set_prev, get_next, get_prev, bind, update, new_link.
    cbn. rewrite lookup_insert_eq. cbn. rewrite lookup_insert_eq. done.
Qed.

(** ** Freeing *)

Lemma list_to_map_delete (l1 l2 : list (Z * memblk)) a b : a ∉ (l1 ++ l2).*1 ->
  delete a (list_to_map (l1 ++ (a, b) :: l2) : gmap Z memblk) = list_to_map (l1 ++ l2).
Proof.
  intros Ha. rewrite fmap_app in Ha. apply not_elem_of_app in Ha as [H1 H2].
  rewrite !list_to_map_app. cbn [list_to_map foldr fst snd]. rewrite delete_union, delete_insert_eq, !delete_id; [done | |];
    by apply not_elem_of_list_to_map_1.
Qed.

(** A list and the memory after a block of it was freed. *)
Lemma wp_mem_free u l1 a b l2 (Q : unit -> umem -> Prop) :
  holds u (l1 ++ (a, b) :: l2) ->
  (forall u2, holds u2 (l1 ++ l2) -> um_alloc u2 = um_alloc u -> h_size (um_hdr u2) = h_size (um_hdr u) ->
     h_block (um_hdr u2) = h_block (um_hdr u) -> Q tt (taken u2)) ->
  wp (__snd_util_mem_free a) Q (taken u).
Proof.
  intros Ho HQ. unfold __snd_util_mem_free. apply wp_bind, wp_on_links.
  assert (Hin : (a, b) ∈ l1 ++ (a, b) :: l2) by set_solver. pose proof (holds_lookup u _ Ho a b Hin) as Eb.
  pose proof (ho_ring _ _ Ho) as R. rewrite fmap_app in R. cbn [fmap list_fmap fst] in R.
  assert (Na : a ∉ h_block (um_hdr u) :: (l1 ++ l2).*1).
  { destruct R as [Hn _]. apply NoDup_cons in Hn as [Hh Hn]. rewrite <- Permutation_middle in Hn. apply NoDup_cons in Hn as [Hn _].
    rewrite fmap_app. set_solver. }
  eapply (wp_list_del (h_block (um_hdr u)) l1.*1 a l2.*1); [exact R |]. intros k R' _. clear R.
  apply wp_bind. eapply wp_get_memblk; [exact Eb |]. apply wp_bind. unfold wp at 1, set_hdr, update.
  unfold kfree. apply wp_bind. eapply wp_get_memblk; [exact Eb |]. unfold wp, update.
  set (H := (um_hdr u) <| h_nblocks := h_nblocks (um_hdr u) - 1 |> <| h_used := u32 (h_used (um_hdr u) - b_size b) |>).
  specialize (HQ (Umem H (delete a (um_blks u)) (free_link a k) (um_alloc u))).
  assert (Eout : forall v, v = taken (Umem H (delete a (um_blks u)) (free_link a k) (um_alloc u)) -> Q tt v); [| by apply Eout].
  intros v ->. apply HQ; [| done..]. clear HQ.
  pose proof (ho_laid _ _ Ho) as L. rewrite fmap_app in L. cbn [fmap list_fmap snd] in L. apply laid_app in L as [L1 L2].
  pose proof L2 as (L3 & L4 & L5). pose proof (ho_size _ _ Ho) as Hs.
  pose proof (total_le _ _ _ (ho_laid _ _ Ho)) as Ht. pose proof (ho_used _ _ Ho) as Hus.
  split; cbn [um_hdr um_links um_blks set_field H h_block h_size h_nblocks h_used h_mutex]; try apply Ho.
  - rewrite fmap_app. destruct R' as [Hn P]. split; [done |]. rewrite fmap_app in Na. eapply path_frame, P; intros x Hx; cbn.
    + rewrite lookup_delete_ne; [done |]. intros ->. set_solver.
    + rewrite lookup_delete_ne; [done |]. intros ->. set_solver.
  - rewrite (ho_blks _ _ Ho). apply list_to_map_delete. set_solver.
  - pose proof (ho_null _ _ Ho) as H0. rewrite fmap_app in *. cbn in H0. set_solver.
  - rewrite fmap_app. apply laid_app. split; [done |]. destruct (l2.*2) as [| c cs]; cbn in *; [lia |].
    destruct L5 as (? & ? & ?). split_and!; [lia | done | done].
  - rewrite (ho_count _ _ Ho), !length_app. cbn. lia.
  - rewrite Hus in *. rewrite !fmap_app, !blks_total_app in *. cbn [fmap list_fmap snd] in *.
    change (total (b :: l2.*2)) with (b_size b + total l2.*2) in *.
    pose proof (total_le _ _ _ L1). pose proof (total_le _ _ _ L5). pose proof (laid_le _ _ _ L1). rewrite u32_small; unfold is_u32 in *; lia.
Qed.

Lemma wp_taken_end {A} (x : A) u l (Q : A -> umem -> Prop) : holds u l -> Q x u -> wp (up;;; ret x) Q (taken u).
Proof. intros Ho HQ. apply wp_bind. unfold wp at 1, up, set_hdr, update. rewrite taken_up by apply Ho. by apply wp_ret. Qed.

Lemma wp_avail u l : holds u l -> wp snd_util_mem_avail (fun r u' => r = s32 (h_size (um_hdr u) - total l.*2) /\ u' = u) u.
Proof.
  intros Ho. unfold snd_util_mem_avail. apply wp_bind. eapply wp_down; [done |]. fold (taken u). apply wp_bind, wp_hdr.
  apply wp_bind. unfold wp at 1, up, set_hdr, update. rewrite taken_up by apply Ho. apply wp_ret. by rewrite <- (ho_used _ _ Ho).
Qed.

(** C25: Freeing a block takes it, and only it, out of the memory: the others stay where they are, and [snd_util_mem_avail]
    grows by its size. *)
Theorem free_gives_back u l1 a b l2 :
  holds u (l1 ++ (a, b) :: l2) -> h_size (um_hdr u) <= INT_MAX ->
  wp (rc <- snd_util_mem_free a;; free <- snd_util_mem_avail;; ret (rc, free))
     (fun r u' => r = (0, h_size (um_hdr u) - total (l1 ++ (a, b) :: l2).*2 + b_size b) /\ holds u' (l1 ++ l2)) u.
Proof.
  intros Ho Hs. apply wp_bind. unfold snd_util_mem_free. rewrite (proj2 (Z.eqb_neq a 0)).
  2: { intros ->. apply (ho_null _ _ Ho). right. apply list_elem_of_fmap. exists (0, b). set_solver. }
  apply wp_bind. eapply wp_down; [done |]. fold (taken u). apply wp_bind. eapply wp_mem_free; [done |].
  intros u2 Ho2 _ Es _. eapply wp_taken_end; [done |]. apply wp_bind. eapply wp_mono; [by eapply wp_avail |].
  intros r u3 [-> ->]. apply wp_ret. split; [| done]. f_equal. rewrite Es.
  pose proof (total_le _ _ _ (ho_laid _ _ Ho2)). pose proof (ho_size _ _ Ho). rewrite Es in *.
  rewrite s32_small by (unfold is_s32, is_u32, INT_MAX in *; lia). rewrite !fmap_app, !blks_total_app. cbn [fmap list_fmap snd].
  change (total (b :: l2.*2)) with (b_size b + total l2.*2). lia.
Qed.

(** [snd_util_memhdr_free] releases every block. *)
Lemma wp_release l : forall u fuel, ring (h_block (um_hdr u)) l.*1 (um_links u) -> um_blks u = list_to_map l ->
  (length l < fuel)%nat -> wp (release fuel) (fun _ u' => um_blks u' = ∅) u.
Proof.
  induction l as [| [a b] l IH]; intros u [| fuel] R Eb Hf; cbn [length release] in *; try lia.
  all: apply wp_bind, wp_hdr, wp_bind, wp_on_links; destruct (path_first _ _ _ _ (proj2 R)) as [E _];
    eapply wp_get_next; [exact E |]; cbn [fmap list_fmap head_of fst].
  - rewrite Z.eqb_refl. by apply wp_ret.
  - assert (Hn := proj1 R). cbn [fmap list_fmap fst] in Hn. apply NoDup_cons in Hn as [Hh Hn].
    rewrite (proj2 (Z.eqb_neq _ _)) by set_solver. apply NoDup_cons in Hn as [Ha Hn].
    apply wp_bind, wp_on_links. eapply (wp_list_del (h_block (um_hdr u)) [] a l.*1); [apply R |]. intros k [Hk P] _.
    apply wp_bind. unfold kfree. apply wp_bind.
    eapply (wp_get_memblk a b); [cbn [um_blks set_field]; rewrite Eb; apply lookup_insert_eq |].
    unfold wp at 1, update. apply IH; [| | lia].
    + split; [done |]. eapply path_frame, P; intros x Hx; cbn; (rewrite lookup_delete_ne; [done |]); intros ->; set_solver.
    + cbn [um_blks set_field]. rewrite Eb. cbn. rewrite delete_insert_id; [done |]. by apply not_elem_of_list_to_map_1.
Qed.

Lemma memhdr_free_releases u l : holds u l -> wp snd_util_memhdr_free (fun _ u' => um_blks u' = ∅) u.
Proof.
  intros Ho. unfold wp, snd_util_memhdr_free. eapply wp_release; [apply Ho | apply Ho |].
  destruct (ho_ring _ _ Ho) as [[_ Hn]%NoDup_cons _]. pose proof (map_size_list_to_map (M := gmap Z) l Hn) as E.
  rewrite <- (ho_blks _ _ Ho) in E. lia.
Qed.

(** ** A concrete memory *)

(** Room for three blocks of 16 in 64; the middle one was freed. *)
Definition um0 : umem :=
  Umem (Memhdr 64 1000 2 32 0 false) (list_to_map [(1, Memblk 16 0); (3, Memblk 16 32)])
       (Links (list_to_map [(1000, 1); (1, 3); (3, 1000)]) (list_to_map [(1000, 3); (1, 1000); (3, 1)])) [2; 0].

Lemma um0_holds : holds um0 [(1, Memblk 16 0); (3, Memblk 16 32)].
Proof.
  split; try done.
  - split; [apply (bool_decide_unpack _); by vm_compute |]. by vm_compute.
  - apply (bool_decide_unpack _). by vm_compute.
Qed.

(** The middle is taken again by a request for 15 bytes, not the room behind the last block. *)
Lemma alloc_first_fit_witness :
  wp (snd_util_mem_alloc 15) (fun r u' => r = 2 /\ um_blks u' !! 2 = Some (Memblk 16 16)) um0 /\
  wp (snd_util_mem_alloc 15) (fun r u' =>
    (r = 0 /\ holds u' [(1, Memblk 16 0); (3, Memblk 16 32)] /\ (2 = 0 \/ forall g, g ∈ [(0, 0); (16, 16); (48, 16)] -> g.2 < 16)) \/
    (r = 2 /\ 2 <> 0 /\ exists l1 l2, [(1, Memblk 16 0); (3, Memblk 16 32)] = l1 ++ l2 /\ holds u' (l1 ++ (2, Memblk 16 (end_of 0 l1.*2)) :: l2) /\
       forall g, g ∈ [(0, 0); (16, 16); (48, 16)] -> g.1 < end_of 0 l1.*2 -> g.2 < 16)) um0.
Proof.
  split; [by vm_compute |]. apply (alloc_first_fit um0 [(1, Memblk 16 0); (3, Memblk 16 32)] 15 2 [0]).
  - apply um0_holds.
  - unfold INT_MAX. lia.
  - done.
  - intros _. apply (bool_decide_unpack _). by vm_compute.
Defined.

Lemma free_gives_back_witness :
  wp (rc <- snd_util_mem_free 1;; free <- snd_util_mem_avail;; ret (rc, free))
     (fun r u' => r = (0, 48) /\ holds u' [(3, Memblk 16 32)]) um0.
Proof. apply (free_gives_back um0 [] 1 (Memblk 16 0) [(3, Memblk 16 32)]); [apply um0_holds | by vm_compute]. Defined.
