(* ===== verification/Os2Heap.v ===== *)
(** * Os2Heap: the driver's heap

    The allocator of lib32/malloc.cpp and the kernel calls under it ([VMAlloc] and [VMFree]
    of lib32/memory.cpp).  Memory is a map from the addresses that are mapped, multiples of
    four, to 32-bit words; a block is a header of three words, its signature, its size and
    the next block of its list, and the payload.  This is the release build: the checks
    that only stop in a debugger do nothing, and DEBUGHEAP is off. *)

From S2P Require Export StateMonad.
From S2P Require Import Prelude.
Open Scope Z_scope.
Open Scope state_scope.

Definition NULL : Z := 0.
Definition PAGE_SIZE : Z := 4096.
Definition HEAP_SIZE : Z := 128 * 1024.
Definition DEFAULT_HEAP : Z := 128 * 1024.
Definition SIGNATURE : Z := 0xBEEFDEAD.
Definition HDR_SIZE : Z := 12.
Definition MIN_FragSize : Z := 4.
Definition MIN_Leftover : Z := HDR_SIZE + MIN_FragSize.

Definition VMDHA_16M : Z := 0x0001.
Definition VMDHA_FIXED : Z := 0x0002.
Definition VMDHA_CONTIG : Z := 0x0008.
Definition VMDHA_USEHIGHMEM : Z := 0x0800.

(** The OS/2 kernel's memory calls.  An allocation gives an error code, the linear address
    and what the new pages hold; freeing tells how many bytes went away; a linear address is
    translated to a physical one. *)
Class KernelVM (V : Type) := {
  DevVMAlloc : Z -> Z -> V -> Z * (Z * gmap Z Z) * V;   (* flags, size *)
  DevVMFree : Z -> V -> Z * Z * V;
  DevLinToPageList : Z -> V -> Z * Z }.

(** The globals of malloc.cpp and memory.cpp with the memory. *)
Record os2 (V : Type) := Os2 {
  mem : gmap Z Z;
  pmbUsed : Z; pmbFree : Z; uMemFree : Z; acHeap : Z;
  nAllocCalls : Z; nFreeCalls : Z; nCompact : Z;
  fStrategyInit : bool;
  pBaseAddrHead : Z; ulget_free_pagesMemUsed : Z;
  vm : V }.
Arguments Os2 {V}.
Arguments mem {V}. Arguments pmbUsed {V}. Arguments pmbFree {V}. Arguments uMemFree {V}.
Arguments acHeap {V}. Arguments nAllocCalls {V}. Arguments nFreeCalls {V}. Arguments nCompact {V}.
Arguments fStrategyInit {V}. Arguments pBaseAddrHead {V}. Arguments ulget_free_pagesMemUsed {V}.
Arguments vm {V}.
#[export] Instance settable_os2 V : Settable (os2 V) := fun s =>
  Os2 (mem s) (pmbUsed s) (pmbFree s) (uMemFree s) (acHeap s) (nAllocCalls s) (nFreeCalls s)
    (nCompact s) (fStrategyInit s) (pBaseAddrHead s) (ulget_free_pagesMemUsed s) (vm s).

(** How far a list in the heap can reach: a header is twelve bytes. *)
Definition heap_fuel : nat := Z.to_nat HEAP_SIZE.

Section Heap.
Context {V : Type} `{KernelVM V}.
Abbreviation K := (ST (os2 V)).

Definition field {A} (f : os2 V -> A) : K A := s <- get;; ret (f s).

(** ** Words *)

Definition load (a : Z) : K Z := fun s =>
  match mem s !! a with Some w => Some (w, s) | None => None end.
Definition store (a w : Z) : K unit := fun s =>
  match mem s !! a with Some _ => Some (tt, s <| mem := <[a := w]> (mem s) |>) | None => None end.

Definition blk_size (b : Z) : K Z := load (u32 (b + 4)).
Definition blk_next (b : Z) : K Z := load (u32 (b + 8)).
Definition set_size (b n : Z) : K unit := store (u32 (b + 4)) n.
Definition set_next (b n : Z) : K unit := store (u32 (b + 8)) n.

(** ** Pages *)

Definition unmap (a n : Z) (m : gmap Z Z) : gmap Z Z :=
  filter (fun kv => ~ (a <= kv.1 < a + n)) m.

(** The result is zero, and the address, or an error. *)
Definition VMAlloc (size flags : Z) : K (Z * Z) := fun s =>
  let flags := if fStrategyInit s && negb (truth (Z.land flags VMDHA_16M))
               then Z.lor flags VMDHA_USEHIGHMEM else flags in
  let '(rc, (addr, pages), v) := DevVMAlloc flags size (vm s) in
  if rc =? 0 then Some ((rc, addr), s <| mem := pages ∪ mem s |> <| vm := v |>)
  else Some ((rc, addr), s <| vm := v |>).

Definition VMFree (addr : Z) : K Z := fun s =>
  let '(rc, n, v) := DevVMFree addr (vm s) in
  if rc =? 0 then Some (rc, s <| mem := unmap addr n (mem s) |> <| vm := v |>)
  else Some (rc, s <| vm := v |>).

(** ** Checks *)

(** The result is only looked at by a debugger. *)
Definition SignatureCheck (p : Z) : K bool :=
  ac <- field acHeap;;
  if (ac <=? p) && (p <=? u32 (ac + HEAP_SIZE)) then
    sig <- load p;;
    if sig =? SIGNATURE then sz <- blk_size p;; ret (sz <? HEAP_SIZE) else ret false
  else ret false.

(** ** Allocating *)

(** The back of a free block becomes a new block, unless it would be too small. *)
Definition make_new_free (pmbOldFree uRequest : Z) : K Z :=
  sz <- blk_size pmbOldFree;;
  if sz <? u32 (uRequest + MIN_Leftover) then ret NULL
  else
    let pmbNewFree := u32 (pmbOldFree + HDR_SIZE + uRequest) in
    store pmbNewFree SIGNATURE;;;
    set_size pmbNewFree (u32 (sz - u32 (uRequest + HDR_SIZE)));;;
    next <- blk_next pmbOldFree;;
    set_next pmbNewFree next;;;
    old <- blk_size pmbOldFree;;
    new <- blk_size pmbNewFree;;
    set_size pmbOldFree (u32 (old - u32 (new + HDR_SIZE)));;;
    ret pmbNewFree.

Definition _msize (pvBlock : Z) : K Z :=
  if pvBlock =? NULL then ret 0 else blk_size (u32 (pvBlock - HDR_SIZE)).

Definition npvAllocateBlock (pmb uRequest pmbPrev : Z) : K Z :=
  pmbNewFree <- make_new_free pmb uRequest;;
  sz <- blk_size pmb;;
  update (fun s => s <| uMemFree := u32 (uMemFree s - u32 (sz + HDR_SIZE)) |>);;;
  pmbOldNext <- blk_next pmb;;
  used <- field pmbUsed;;
  set_next pmb used;;;
  update (fun s => s <| pmbUsed := pmb |>);;;
  (if truth pmbNewFree then
     set_next pmbNewFree pmbOldNext;;;
     if truth pmbPrev then set_next pmbPrev pmbNewFree
     else update (fun s => s <| pmbFree := pmbNewFree |>)
   else
     if truth pmbPrev then set_next pmbPrev pmbOldNext
     else update (fun s => s <| pmbFree := pmbOldNext |>));;;
  ret (u32 (pmb + HDR_SIZE)).

(** [for (pmb = pmbFree->pmbNext; pmb; pmbPrev = pmb, pmb = pmb->pmbNext)] *)
Fixpoint find_fit (fuel : nat) (uRequest pmbPrev pmb : Z) : K Z :=
  match fuel with
  | O => crash
  | S fuel =>
      if pmb =? NULL then ret NULL
      else
        sz <- blk_size pmb;;
        if uRequest <=? sz then npvAllocateBlock pmb uRequest pmbPrev
        else next <- blk_next pmb;; find_fit fuel uRequest pmb next
  end.

Definition HeapInit (uSize : Z) : K Z :=
  let uSize := if uSize =? 0 then DEFAULT_HEAP else uSize in
  let uSize := if HEAP_SIZE <? uSize then HEAP_SIZE else uSize in
  r <- VMAlloc uSize VMDHA_FIXED;;
  if truth r.1 then ret 0
  else
    let addr := r.2 in
    update (fun s => s <| acHeap := addr |> <| pmbFree := addr |>);;;
    set_size addr (u32 (uSize - HDR_SIZE));;;
    store addr SIGNATURE;;;
    set_next addr 0;;;
    sz <- blk_size addr;;
    update (fun s => s <| uMemFree := sz |>);;;
    ret sz.

Definition malloc (uSize : Z) : K Z :=
  ac <- field acHeap;;
  when (ac =? NULL) (HeapInit HEAP_SIZE;;; ret tt);;;
  if (uSize =? 0) || (HEAP_SIZE <? uSize) then ret NULL
  else
    update (fun s => s <| nAllocCalls := u32 (nAllocCalls s + 1) |>);;;
    let uRequest := Z.land (u32 (uSize + 3)) 0xFFFFFFFC in
    free <- field pmbFree;;
    sz <- blk_size free;;
    npvReturn <-
      (if uRequest <=? sz then npvAllocateBlock free uRequest NULL
       else next <- blk_next free;; find_fit heap_fuel uRequest free next);;
    when (truth npvReturn) (SignatureCheck (u32 (npvReturn - HDR_SIZE));;; ret tt);;;
    ret npvReturn.

(** ** Freeing *)

Definition after (pmb : Z) : K Z := sz <- blk_size pmb;; ret (u32 (u32 (pmb + sz) + HDR_SIZE)).

Fixpoint remove_loop (fuel : nat) (pmb pmbPrev : Z) : K unit :=
  match fuel with
  | O => crash
  | S fuel =>
      if pmbPrev =? NULL then ret tt
      else
        next <- blk_next pmbPrev;;
        if next =? pmb then n <- blk_next pmb;; set_next pmbPrev n
        else remove_loop fuel pmb next
  end.

Definition remove (pmb : Z) : K unit :=
  free <- field pmbFree;;
  if pmb =? free then
    next <- blk_next free;;
    update (fun s => s <| pmbFree := next |>)
  else remove_loop heap_fuel pmb free.

(** The result is [iFreed]. *)
Fixpoint compact_loop (fuel : nat) (iFreed pmb : Z) : K Z :=
  match fuel with
  | O => crash
  | S fuel =>
      if pmb =? NULL then ret iFreed
      else
        free <- field pmbFree;;
        a <- after pmb;;
        if a =? free then
          n <- blk_size free;; sz <- blk_size pmb;;
          set_size pmb (u32 (sz + u32 (HDR_SIZE + n)));;;
          remove free;;;
          if iFreed + 1 =? 2 then ret 2
          else next <- blk_next pmb;; compact_loop fuel (iFreed + 1) next
        else
          af <- after free;;
          if af =? pmb then
            n <- blk_size pmb;; sz <- blk_size free;;
            set_size free (u32 (sz + u32 (HDR_SIZE + n)));;;
            remove pmb;;;
            if iFreed + 1 =? 2 then ret 2
            else next <- blk_next pmb;; compact_loop fuel (iFreed + 1) next
          else next <- blk_next pmb;; compact_loop fuel iFreed next
  end.

Definition compact : K unit :=
  free <- field pmbFree;;
  next <- blk_next free;;
  iFreed <- compact_loop heap_fuel 0 next;;
  update (fun s => s <| nCompact := u32 (nCompact s + iFreed) |>).

(** The walk along the list of used blocks, which goes on after the block is found. *)
Fixpoint free_loop (fuel : nat) (pmbBlock pmbPrev pmb : Z) : K unit :=
  match fuel with
  | O => crash
  | S fuel =>
      if pmb =? NULL then ret tt
      else
        when (pmb =? pmbBlock)
          (next <- blk_next pmb;;
           set_next pmbPrev next;;;
           free <- field pmbFree;;
           set_next pmbBlock free;;;
           update (fun s => s <| pmbFree := pmbBlock |>);;;
           compact);;;
        next <- blk_next pmb;;
        free_loop fuel pmbBlock pmb next
  end.

Definition free (pvBlock : Z) : K unit :=
  ac <- field acHeap;;
  if ac =? NULL then ret tt
  else
    update (fun s => s <| nFreeCalls := u32 (nFreeCalls s + 1) |>);;;
    if pvBlock =? NULL then ret tt
    else
      let pmbBlock := u32 (pvBlock - HDR_SIZE) in
      SignatureCheck pmbBlock;;;
      sz <- blk_size pmbBlock;;
      update (fun s => s <| uMemFree := u32 (uMemFree s + u32 (sz + HDR_SIZE)) |>);;;
      used <- field pmbUsed;;
      if pmbBlock =? used then
        next <- blk_next used;;
        update (fun s => s <| pmbUsed := next |>);;;
        fr <- field pmbFree;;
        set_next pmbBlock fr;;;
        update (fun s => s <| pmbFree := pmbBlock |>);;;
        compact
      else
        next <- blk_next used;;
        free_loop heap_fuel pmbBlock used next.

Definition _memfree : K Z := field uMemFree.

(** ** Reallocating *)

Fixpoint copy_words (n : nat) (dst src : Z) : K unit :=
  match n with
  | O => ret tt
  | S n => w <- load src;; store dst w;;; copy_words n (u32 (dst + 4)) (u32 (src + 4))
  end.

(** The low [k] bytes of a word. *)
Definition low_bytes (k w : Z) : Z := w mod 2 ^ (8 * k).

(** [memcpy] between blocks, which start at multiples of four. *)
Definition memcpy (dst src n : Z) : K unit :=
  copy_words (Z.to_nat (n / 4)) dst src;;;
  let k := n mod 4 in
  if k =? 0 then ret tt
  else
    let dst := u32 (dst + (n - k)) in
    let src := u32 (src + (n - k)) in
    w <- load src;; old <- load dst;;
    store dst (old - low_bytes k old + low_bytes k w).

Definition realloc (pvBlock usLength : Z) : K Z :=
  if pvBlock =? NULL then malloc usLength
  else if usLength =? 0 then free pvBlock;;; ret NULL
  else
    pv <- malloc usLength;;
    if pv =? NULL then ret NULL
    else
      n <- _msize pvBlock;;
      memcpy pv pvBlock (Z.min n usLength);;;
      free pvBlock;;;
      ret pv.

Definition IsHeapAddr (addr : Z) : K bool :=
  ac <- field acHeap;;
  ret ((ac <=? addr) && (addr <=? u32 (ac + HEAP_SIZE))).
End Heap.
