(* ===== verification/Os2HeapSafe.v ===== *)
(** * Os2HeapSafe: the heap hands out disjoint memory

    The blocks of Os2Heap.v tile the heap, and each is in one of the two lists.  Allocating
    and freeing keep that, and leave alone the payload of every block in use. *)

From S2P Require Import Prelude Os2Heap.
Open Scope Z_scope.
Open Scope state_scope.

(** ** Lists *)

Lemma list_snoc_or_nil {A} (l : list A) : l = [] \/ exists k x, l = k ++ [x].
Proof. destruct l as [| x l _] using rev_ind; [by left | right; eauto]. Qed.

(** ** Tilings *)

Definition block : Type := Z * Z.   (* address and size *)
Definition span (x : block) : Z := HDR_SIZE + x.2.
Definition within (a : Z) (x : block) : Prop := x.1 <= a < x.1 + span x.

Definition block_ok (x : block) : Prop := 0 <= x.2 /\ x.2 mod 4 = 0.

Fixpoint tiled (lo : Z) (T : list block) (hi : Z) : Prop :=
  match T with
  | [] => lo = hi
  | x :: T => x.1 = lo /\ block_ok x /\ tiled (lo + span x) T hi
  end.

Ltac tile_lia :=
  unfold MIN_Leftover, MIN_FragSize, within, span, block_ok, HDR_SIZE, HEAP_SIZE, UINT_MAX, is_u32 in *;
  cbn [fst snd] in *; lia.

Lemma tiled_app T1 T2 lo hi :
  tiled lo (T1 ++ T2) hi <-> exists mid, tiled lo T1 mid /\ tiled mid T2 hi.
Proof.
  revert lo. induction T1 as [| x T1 IH]; intros lo; cbn [app tiled].
  - split; [eauto | by intros (? & -> & ?)].
  - split.
    + intros (? & ? & (mid & ? & ?)%IH). eauto 6.
    + intros (mid & (? & ? & ?) & ?). split_and!; [done | done |]. apply IH. eauto.
Qed.

Lemma tiled_le T lo hi : tiled lo T hi -> lo <= hi.
Proof.
  revert lo. induction T as [| x T IH]; intros lo; cbn [tiled]; [lia |].
  intros (? & ? & ?%IH). tile_lia.
Qed.

Lemma tiled_bounds T lo hi x :
  tiled lo T hi -> x ∈ T -> lo <= x.1 /\ x.1 + span x <= hi /\ block_ok x /\ (x.1 - lo) mod 4 = 0.
Proof.
  revert lo. induction T as [| y T IH]; intros lo; cbn [tiled]; [by intros _ ?%not_elem_of_nil |].
  intros (Ey & Oy & Ht) [-> | Hx]%elem_of_cons.
  - apply tiled_le in Ht. replace (y.1 - lo) with 0 by lia. split_and!; [lia | lia | done | done].
  - destruct (IH _ Ht Hx) as (? & ? & ? & Hm). split_and!; [tile_lia | done | done |].
    destruct Oy as [? Hy]. unfold span, HDR_SIZE in Hm.
    replace (x.1 - lo) with ((x.1 - (lo + (12 + y.2))) + (3 * 4 + y.2)) by lia.
    rewrite <- Z.add_mod_idemp_l, Hm, Z.add_0_l, Z.add_comm, Z_mod_plus_full by lia. done.
Qed.

(** Blocks do not overlap. *)
Lemma tiled_sep T lo hi x y :
  tiled lo T hi -> x ∈ T -> y ∈ T -> x = y \/ x.1 + span x <= y.1 \/ y.1 + span y <= x.1.
Proof.
  revert lo. induction T as [| z T IH]; intros lo; cbn [tiled]; [by intros _ ?%not_elem_of_nil |].
  intros (Ez & Oz & Ht) [-> | Hx]%elem_of_cons [-> | Hy]%elem_of_cons.
  - by left.
  - destruct (tiled_bounds _ _ _ _ Ht Hy) as (? & _). tile_lia.
  - destruct (tiled_bounds _ _ _ _ Ht Hx) as (? & _). tile_lia.
  - eauto.
Qed.

Lemma tiled_nodup T lo hi : tiled lo T hi -> NoDup T.*1.
Proof.
  revert lo. induction T as [| x T IH]; intros lo; cbn [tiled fmap list_fmap]; [constructor |].
  intros (Ex & Ox & Ht). constructor; [| eauto].
  intros (y & Ey & Hy)%list_elem_of_fmap. destruct (tiled_bounds _ _ _ _ Ht Hy) as (? & _). tile_lia.
Qed.

Lemma tiled_inj T lo hi x y : tiled lo T hi -> x ∈ T -> y ∈ T -> x.1 = y.1 -> x = y.
Proof.
  intros Ht Hx Hy E. destruct (tiled_bounds _ _ _ _ Ht Hx) as (_ & _ & ? & _).
  destruct (tiled_bounds _ _ _ _ Ht Hy) as (_ & _ & ? & _).
  destruct (tiled_sep _ _ _ _ _ Ht Hx Hy) as [? | [? | ?]]; [done | tile_lia | tile_lia].
Qed.

(** A block in two, two neighbours in one. *)
Lemma tiled_split T1 T2 lo hi b s r :
  tiled lo (T1 ++ (b, s) :: T2) hi -> 0 <= r -> r mod 4 = 0 -> r + HDR_SIZE <= s ->
  tiled lo (T1 ++ (b, r) :: (b + HDR_SIZE + r, s - r - HDR_SIZE) :: T2) hi.
Proof.
  intros (mid & ? & ? & [? Hs] & Ht)%tiled_app Hr Hm ?. apply tiled_app. exists mid.
  cbn [tiled] in *. unfold span, block_ok, HDR_SIZE in *. cbn [fst snd] in *.
  assert ((s - r - 12) mod 4 = 0) by (Z.div_mod_to_equations; lia).
  split_and!; try done; try lia. replace (mid + (12 + s)) with (mid + (12 + r) + (12 + (s - r - 12))) in Ht by lia. done.
Qed.

Lemma tiled_merge T1 T2 lo hi b s b' s' :
  tiled lo (T1 ++ (b, s) :: (b', s') :: T2) hi -> tiled lo (T1 ++ (b, s + (HDR_SIZE + s')) :: T2) hi.
Proof.
  intros (mid & ? & ? & [? Hs] & ? & [? Hs'] & Ht)%tiled_app. apply tiled_app. exists mid.
  cbn [tiled] in *. unfold span, block_ok, HDR_SIZE in *. cbn [fst snd] in *.
  assert ((s + (12 + s')) mod 4 = 0) by (Z.div_mod_to_equations; lia).
  split_and!; try done; try lia. replace (mid + (12 + (s + (12 + s')))) with (mid + (12 + s) + (12 + s')) by lia. done.
Qed.

Lemma tiled_adjacent T lo hi x y :
  tiled lo T hi -> x ∈ T -> y ∈ T -> y.1 = x.1 + span x -> exists T1 T2, T = T1 ++ x :: y :: T2.
Proof.
  intros Ht (T1 & T2 & ->)%list_elem_of_split Hy E. exists T1.
  apply tiled_app in Ht as (mid & Ht1 & Ex & Ox & Ht2).
  rewrite elem_of_app, elem_of_cons in Hy. destruct Hy as [Hy | [-> | Hy]].
  - destruct (tiled_bounds _ _ _ _ Ht1 Hy) as (? & ? & ? & _). tile_lia.
  - tile_lia.
  - destruct T2 as [| z T2]; [by apply not_elem_of_nil in Hy |].
    destruct Ht2 as (Ez & Oz & Ht3). apply elem_of_cons in Hy as [-> | Hy]; [eauto |].
    destruct (tiled_bounds _ _ _ _ Ht3 Hy) as (? & _). tile_lia.
Qed.

(** ** Lists of blocks *)

Record header (m : gmap Z Z) (x : block) (next : Z) : Prop := {
  hd_sig : m !! x.1 = Some SIGNATURE;
  hd_size : m !! (x.1 + 4) = Some x.2;
  hd_next : m !! (x.1 + 8) = Some next }.

Fixpoint blocks (m : gmap Z Z) (a : Z) (l : list block) (b : Z) : Prop :=
  match l with
  | [] => a = b
  | x :: l => a = x.1 /\ exists n, header m x n /\ blocks m n l b
  end.

Lemma blocks_app m a l1 l2 b : blocks m a (l1 ++ l2) b <-> exists c, blocks m a l1 c /\ blocks m c l2 b.
Proof.
  revert a. induction l1 as [| x l1 IH]; intros a; cbn [app blocks].
  - split; [eauto | by intros (? & -> & ?)].
  - split.
    + intros (? & n & ? & (c & ? & ?)%IH). eauto 8.
    + intros (c & (? & n & ? & ?) & ?). split; [done |]. exists n. split; [done |]. apply IH. eauto.
Qed.

Lemma blocks_header m a l b x : blocks m a l b -> x ∈ l -> exists n, header m x n.
Proof.
  intros Hb (l1 & l2 & ->)%list_elem_of_split. apply blocks_app in Hb as (c & _ & _ & n & Hh & _). eauto.
Qed.

(** Memory that agrees on the headers. *)
Lemma header_frame m m' x n :
  (forall a, x.1 <= a < x.1 + HDR_SIZE -> m' !! a = m !! a) -> header m x n -> header m' x n.
Proof. unfold HDR_SIZE. intros E []. split; rewrite E by lia; done. Qed.

Lemma blocks_frame m m' a l b :
  (forall x c, x ∈ l -> x.1 <= c < x.1 + HDR_SIZE -> m' !! c = m !! c) -> blocks m a l b -> blocks m' a l b.
Proof.
  revert a. induction l as [| x l IH]; intros a E; cbn [blocks]; [done |].
  intros (Ha & n & Hh & Hb). split; [done |]. exists n. split.
  - eapply header_frame; [| exact Hh]. intros c. apply E. left.
  - apply IH; [| done]. intros y c Hy. apply E. by right.
Qed.

(** Two blocks of a tiling and an address inside one of them. *)
Lemma within_other T lo hi x y a :
  tiled lo T hi -> x ∈ T -> y ∈ T -> x.1 <> y.1 -> within a x -> ~ (y.1 <= a < y.1 + HDR_SIZE).
Proof.
  intros Ht Hx Hy N Ha. destruct (tiled_bounds _ _ _ _ Ht Hy) as (_ & _ & ? & _).
  destruct (tiled_sep _ _ _ _ _ Ht Hx Hy) as [-> | [? | ?]]; [done | tile_lia | tile_lia].
Qed.

(** Memory that changed inside one block only. *)
Definition changed_in x (m m' : gmap Z Z) : Prop := forall a, ~ within a x -> m' !! a = m !! a.

Lemma blocks_changed T lo hi m m' a l b x :
  tiled lo T hi -> l ⊆ T -> x ∈ T -> x.1 ∉ l.*1 -> changed_in x m m' -> blocks m a l b -> blocks m' a l b.
Proof.
  intros Ht Hl Hx Hn Hc. apply blocks_frame. intros y d Hy Hd. apply Hc. intros Hw.
  eapply within_other; [done | exact Hx | apply Hl, Hy | | done | done].
  intros E. apply Hn. rewrite E. by apply list_elem_of_fmap_2.
Qed.

(** The link of the last block. *)
Lemma blocks_relink m a l x b c :
  (forall y, y ∈ l -> ~ (y.1 <= x.1 + 8 < y.1 + HDR_SIZE)) ->
  blocks m a (l ++ [x]) b -> blocks (<[x.1 + 8 := c]> m) a (l ++ [x]) c.
Proof.
  intros D (d & Hb & -> & n & [] & ->)%blocks_app. apply blocks_app. exists x.1. split.
  - eapply blocks_frame; [| exact Hb]. intros y e Hy He. rewrite lookup_insert_ne; [done |]. intros <-. by eapply D.
  - cbn [blocks]. split; [done |]. exists c. split; [| done].
    split; rewrite ?lookup_insert_eq, ?lookup_insert_ne by lia; done.
Qed.

(** ** The heap *)

Definition total (l : list block) : Z := foldr (fun x n => span x + n) 0 l.

Lemma total_app l1 l2 : total (l1 ++ l2) = total l1 + total l2.
Proof. induction l1 as [| x l1 IH]; cbn [app total foldr]; [done |]. fold (total (l1 ++ l2)) (total l1). lia. Qed.

#[export] Instance total_perm : Proper ((≡ₚ) ==> eq) total.
Proof. induction 1; cbn [total foldr] in *; unfold total in *; lia. Qed.

Lemma total_tiled T lo hi : tiled lo T hi -> total T = hi - lo.
Proof.
  revert lo. induction T as [| x T IH]; intros lo; cbn [tiled total foldr]; [lia |].
  intros (_ & _ & Ht%IH). fold (total T). lia.
Qed.

Section Safe.
Context {V : Type} `{KernelVM V}.
Implicit Types (s : os2 V) (T U F : list block) (x y : block).

Record heap_ok s T U F : Prop := {
  ho_low : 0 < acHeap s;
  ho_align : acHeap s mod 4 = 0;
  ho_high : acHeap s + HEAP_SIZE <= UINT_MAX;
  ho_tiled : tiled (acHeap s) T (acHeap s + HEAP_SIZE);
  ho_perm : T ≡ₚ U ++ F;
  ho_used : blocks (mem s) (pmbUsed s) U NULL;
  ho_free : blocks (mem s) (pmbFree s) F NULL;
  ho_mapped : forall a, acHeap s <= a < acHeap s + HEAP_SIZE -> a mod 4 = 0 -> is_Some (mem s !! a);
  ho_count : uMemFree s = u32 (total F - HDR_SIZE) }.

(** What an operation on the heap leaves alone: everything but the heap, and in the heap
    the payload of the blocks [U]. *)
Record heap_step U s s' : Prop := {
  hs_heap : acHeap s' = acHeap s;
  hs_init : fStrategyInit s' = fStrategyInit s;
  hs_base : pBaseAddrHead s' = pBaseAddrHead s;
  hs_pages : ulget_free_pagesMemUsed s' = ulget_free_pagesMemUsed s;
  hs_vm : vm s' = vm s;
  hs_dom : dom (mem s') = dom (mem s);
  hs_outside : forall a, ~ (acHeap s <= a < acHeap s + HEAP_SIZE) -> mem s' !! a = mem s !! a;
  hs_data : forall x a, x ∈ U -> x.1 + HDR_SIZE <= a < x.1 + span x -> mem s' !! a = mem s !! a }.

Lemma heap_step_refl U s : heap_step U s s.
Proof. by split. Qed.

Lemma heap_step_trans U s1 s2 s3 : heap_step U s1 s2 -> heap_step U s2 s3 -> heap_step U s1 s3.
Proof.
  intros [] []. split; try congruence.
  - intros a Ha. rewrite hs_outside1, hs_outside0; congruence.
  - intros x a Hx Ha. by erewrite hs_data1, hs_data0 by eauto.
Qed.

Lemma heap_step_mono U U' s s' : U' ⊆ U -> heap_step U s s' -> heap_step U' s s'.
Proof. intros E []. split; eauto. Qed.

Definition same_registers s s' : Prop :=
  acHeap s' = acHeap s /\ fStrategyInit s' = fStrategyInit s /\ pBaseAddrHead s' = pBaseAddrHead s /\
  ulget_free_pagesMemUsed s' = ulget_free_pagesMemUsed s /\ vm s' = vm s.

(** Only the registers of the heap change. *)
Lemma heap_step_same U s s' :
  same_registers s s' -> mem s' = mem s -> heap_step U s s'.
Proof. intros (? & ? & ? & ? & ?) E. by split; rewrite ?E. Qed.

(** ** Running *)

Lemma wp_field {A} (f : os2 V -> A) Q s : Q (f s) s -> wp (field f) Q s.
Proof. done. Qed.

Lemma wp_update f Q s : Q tt (f s) -> wp (update f) Q s.
Proof. done. Qed.

Lemma wp_load a w Q s : mem s !! a = Some w -> Q w s -> wp (load a) Q s.
Proof. unfold wp, load. by intros ->. Qed.

Lemma wp_store a w Q s :
  is_Some (mem s !! a) -> Q tt (s <| mem := <[a := w]> (mem s) |>) -> wp (store a w) Q s.
Proof. unfold wp, store. by intros [? ->]. Qed.

Lemma wp_blk_size b n Q s :
  0 <= b -> b + HDR_SIZE <= UINT_MAX -> mem s !! (b + 4) = Some n -> Q n s -> wp (blk_size b) Q s.
Proof. unfold HDR_SIZE. intros. unfold blk_size. rewrite u32_small by range_lia. by eapply wp_load. Qed.

Lemma wp_blk_next b n Q s :
  0 <= b -> b + HDR_SIZE <= UINT_MAX -> mem s !! (b + 8) = Some n -> Q n s -> wp (blk_next b) Q s.
Proof. unfold HDR_SIZE. intros. unfold blk_next. rewrite u32_small by range_lia. by eapply wp_load. Qed.

Lemma wp_set_size b n Q s :
  0 <= b -> b + HDR_SIZE <= UINT_MAX -> is_Some (mem s !! (b + 4)) ->
  Q tt (s <| mem := <[b + 4 := n]> (mem s) |>) -> wp (set_size b n) Q s.
Proof. unfold HDR_SIZE. intros. unfold set_size. rewrite u32_small by range_lia. by apply wp_store. Qed.

Lemma wp_set_next b n Q s :
  0 <= b -> b + HDR_SIZE <= UINT_MAX -> is_Some (mem s !! (b + 8)) ->
  Q tt (s <| mem := <[b + 8 := n]> (mem s) |>) -> wp (set_next b n) Q s.
Proof. unfold HDR_SIZE. intros. unfold set_next. rewrite u32_small by range_lia. by apply wp_store. Qed.

Lemma wp_SignatureCheck b x n Q s :
  0 <= b -> b + HDR_SIZE <= UINT_MAX -> x.1 = b -> header (mem s) x n -> (forall r, Q r s) ->
  wp (SignatureCheck b) Q s.
Proof.
  intros ?? <- [] HQ. apply wp_bind, wp_field. destruct (_ && _); [| apply HQ].
  eapply wp_bind, wp_load; [done |]. destruct (_ =? _); [| apply HQ].
  eapply wp_bind, wp_blk_size; [done | done | done |]. apply HQ.
Qed.

(** ** Facts about a heap in order *)

Section Facts.
Context {s T U F} (ok : heap_ok s T U F).

Lemma used_in : U ⊆ T.
Proof. intros x Hx. rewrite (ho_perm _ _ _ _ ok). apply elem_of_app. by left. Qed.

Lemma free_in : F ⊆ T.
Proof. intros x Hx. rewrite (ho_perm _ _ _ _ ok). apply elem_of_app. by right. Qed.

Lemma starts_nodup : NoDup (U ++ F).*1.
Proof. rewrite <- (ho_perm _ _ _ _ ok). eapply tiled_nodup, ho_tiled, ok. Qed.

Lemma block_range x : x ∈ T ->
  acHeap s <= x.1 /\ 0 < x.1 /\ x.1 + span x <= acHeap s + HEAP_SIZE /\ x.1 + span x <= UINT_MAX /\ 0 <= x.2 /\ x.2 mod 4 = 0 /\ x.1 mod 4 = 0.
Proof.
  intros Hx. destruct ok. destruct (tiled_bounds _ _ _ _ ho_tiled0 Hx) as (? & ? & [? ?] & Hm).
  split_and!; try lia; try done.
  replace x.1 with ((x.1 - acHeap s) + acHeap s) by lia. by rewrite <- Z.add_mod_idemp_l, Hm.
Qed.

Lemma word_mapped x a : x ∈ T -> within a x -> a mod 4 = 0 -> is_Some (mem s !! a).
Proof.
  intros Hx Ha. apply block_range in Hx. apply (ho_mapped _ _ _ _ ok). tile_lia.
Qed.
End Facts.

(** ** Allocating *)

(** A block and an address elsewhere. *)
Lemma not_within s T U F x y a :
  heap_ok s T U F -> x ∈ T -> y ∈ T -> x.1 <> y.1 -> within a x -> ~ within a y.
Proof.
  intros ok Hx Hy N ? ?. destruct (tiled_sep _ _ _ _ _ (ho_tiled _ _ _ _ ok) Hx Hy) as [-> | ?]; [done | tile_lia].
Qed.

Lemma used_free_differ s T U F x y : heap_ok s T U F -> x ∈ U -> y ∈ F -> x.1 <> y.1.
Proof.
  intros ok Hx Hy E. pose proof (starts_nodup ok) as N. rewrite fmap_app, NoDup_app in N.
  destruct N as (_ & D & _). apply (D x.1); [by apply list_elem_of_fmap_2 |]. rewrite E. by apply list_elem_of_fmap_2.
Qed.

(** Changing words inside the headers of blocks, and inside free blocks. *)
Lemma heap_step_store s T U F s' U' :
  heap_ok s T U F -> U' ⊆ U -> same_registers s s' -> dom (mem s') = dom (mem s) ->
  (forall a, (forall x, x ∈ F -> ~ within a x) -> (forall x, x ∈ U -> ~ (x.1 <= a < x.1 + HDR_SIZE)) ->
     mem s' !! a = mem s !! a) ->
  heap_step U' s s'.
Proof.
  intros ok HU (? & ? & ? & ? & ?) Hd Hm. split; try done.
  - intros a Ha. apply Hm; intros x Hx Hw.
    + apply (free_in ok), (block_range ok) in Hx. tile_lia.
    + apply (used_in ok), (block_range ok) in Hx. tile_lia.
  - intros y a Hy Ha. apply HU in Hy. apply Hm; intros x Hx Hw.
    + eapply (not_within _ _ _ _ y x a ok); [by apply (used_in ok) | by apply (free_in ok) | | | done].
      * by eapply used_free_differ.
      * tile_lia.
    + destruct (tiled_sep _ _ _ _ _ (ho_tiled _ _ _ _ ok) (used_in ok y Hy) (used_in ok x Hx)) as [-> | ?];
        [tile_lia |]. pose proof (block_range ok _ (used_in ok x Hx)). tile_lia.
Qed.

Lemma wp_make_new_free s T U F x nx r Q :
  heap_ok s T U F -> x ∈ F -> header (mem s) x nx -> 0 <= r -> r mod 4 = 0 -> r <= x.2 ->
  (x.2 < r + MIN_Leftover -> Q NULL s) ->
  (let n := x.1 + HDR_SIZE + r in
   r + MIN_Leftover <= x.2 -> forall m, changed_in x (mem s) m ->
     header m (x.1, r) nx -> header m (n, x.2 - r - HDR_SIZE) nx ->
     dom m = dom (mem s) ->
     Q n (s <| mem := m |>)) ->
  wp (make_new_free x.1 r) Q s.
Proof.
  intros ok Hx Hh Hr Hm Hle HQ0 HQ. pose proof (block_range ok _ (free_in ok _ Hx)) as (? & ? & ? & ? & ? & ? & ?).
  assert (W : forall a, within a x -> a mod 4 = 0 -> is_Some (mem s !! a)) by (intros a; by apply (word_mapped ok), (free_in ok)).
  destruct Hh as [Hs Hz Hn].
  apply wp_bind. eapply wp_blk_size; [lia | tile_lia | done |]. rewrite u32_small by tile_lia.
  destruct (Z.ltb_spec x.2 (r + MIN_Leftover)); [apply HQ0; lia |].
  specialize (HQ ltac:(lia)). rewrite (u32_small (x.1 + HDR_SIZE + r)) by tile_lia.
  set (n := x.1 + HDR_SIZE + r) in *.
  assert (Hn4 : n mod 4 = 0) by (subst n; unfold HDR_SIZE; Z.div_mod_to_equations; lia).
  assert (Hin : x.1 + HDR_SIZE <= n /\ n + HDR_SIZE + 4 <= x.1 + span x) by (subst n; tile_lia).
  assert (Ws : is_Some (mem s !! n)) by (apply W; [tile_lia | done]).
  assert (W4 : is_Some (mem s !! (n + 4))) by (apply W; [tile_lia | Z.div_mod_to_equations; lia]).
  assert (W8 : is_Some (mem s !! (n + 8))) by (apply W; [tile_lia | Z.div_mod_to_equations; lia]).
  clearbody n.
  apply wp_bind, wp_store; [done |].
  apply wp_bind, wp_set_size; [tile_lia | tile_lia | cbn; by rewrite lookup_insert_ne by tile_lia |].
  eapply wp_bind, wp_blk_next; [lia | tile_lia | |].
  { cbn. rewrite !lookup_insert_ne by tile_lia. done. }
  apply wp_bind, wp_set_next; [tile_lia | tile_lia | cbn; by rewrite !lookup_insert_ne by tile_lia |].
  eapply wp_bind, wp_blk_size; [lia | tile_lia | |].
  { cbn. rewrite !lookup_insert_ne by tile_lia. done. }
  eapply wp_bind, wp_blk_size; [tile_lia | tile_lia | |].
  { cbn. rewrite lookup_insert_ne by tile_lia. apply lookup_insert_eq. }
  apply wp_bind, wp_set_size; [lia | tile_lia | cbn; rewrite !lookup_insert_ne by tile_lia; eauto |].
  apply wp_ret.
  rewrite (u32_small (r + _)), (u32_small (x.2 - (_ + _))), (u32_small (_ + HDR_SIZE)), u32_small by tile_lia.
  match goal with |- Q n ?st => change st with (s <| mem := mem st |>) end.
  apply HQ.
  - intros a Ha. cbn. by rewrite !lookup_insert_ne by tile_lia.
  - split; cbn; repeat first [rewrite lookup_insert_eq | rewrite lookup_insert_ne by tile_lia]; try done.
    f_equal. lia.
  - split; cbn; repeat first [rewrite lookup_insert_eq | rewrite lookup_insert_ne by tile_lia]; f_equal; lia.
  - cbn. rewrite !dom_insert_lookup_L; [done | | | |]; rewrite ?lookup_insert_is_Some'; eauto.
Qed.

(** The block before the rest of a list, as a pointer. *)
Definition prev_of F : Z := match last F with Some p => p.1 | None => NULL end.

Lemma prev_of_snoc l p : prev_of (l ++ [p]) = p.1.
Proof. unfold prev_of. by rewrite last_snoc. Qed.

(** Making the list of free blocks lead from [F1] to [h]. *)
Lemma wp_relink s T F1 rest lo hi h c Q :
  tiled lo T hi -> 0 < lo -> hi <= UINT_MAX -> F1 ++ rest ⊆ T -> NoDup (F1 ++ rest).*1 ->
  blocks (mem s) (pmbFree s) F1 c -> blocks (mem s) h rest NULL ->
  (forall m a, blocks m a (F1 ++ rest) NULL ->
     (m = mem s \/ exists p, p ∈ F1 /\ m = <[p.1 + 8 := h]> (mem s)) ->
     Q tt (s <| mem := m |> <| pmbFree := a |>)) ->
  wp (if truth (prev_of F1) then set_next (prev_of F1) h else update (fun s => s <| pmbFree := h |>)) Q s.
Proof.
  intros Ht Hlo Hhi Hin N Hb Hr HQ. destruct (list_snoc_or_nil F1) as [-> | (l & p & ->)].
  { apply wp_update. replace (s <| pmbFree := h |>) with (s <| mem := mem s |> <| pmbFree := h |>) by by destruct s.
    apply HQ; [done | by left]. }
  assert (Hp : p ∈ T) by (apply Hin; set_solver-).
  destruct (tiled_bounds _ _ _ _ Ht Hp) as (? & ? & ? & _).
  rewrite prev_of_snoc. unfold truth. destruct (Z.eqb_spec p.1 0); [lia |]. cbn [negb].
  apply blocks_app in Hb as Hb'. destruct Hb' as (d & _ & -> & nx & [_ _ Hn] & _).
  apply wp_set_next; [lia | tile_lia | eauto |].
  match goal with |- Q tt ?st => replace st with (st <| pmbFree := pmbFree s |>) by by destruct s end.
  apply HQ; [| right; exists p; split; [set_solver- | done]].
  rewrite fmap_app, fmap_app in N. apply NoDup_app in N as (N1 & D & N2). apply NoDup_app in N1 as (_ & D1 & _).
  apply blocks_app. exists h. split.
  - eapply blocks_relink; [| exact Hb].
    intros y Hy. eapply within_other; [exact Ht | exact Hp | apply Hin; set_solver+ Hy | | tile_lia].
    intros E. eapply (D1 y.1); [by apply list_elem_of_fmap_2 | rewrite <- E; set_solver-].
  - eapply (blocks_changed T _ _ (mem s)); [exact Ht | set_solver+ Hin | exact Hp | | | exact Hr].
    + intros Hy. eapply (D p.1); [set_solver- | done].
    + intros a Ha. rewrite lookup_insert_ne by tile_lia. done.
Qed.

(** A free block in two, or taken whole. *)
Lemma wp_split s T U F1 x F2 nx r Q :
  heap_ok s T U (F1 ++ x :: F2) -> header (mem s) x nx -> 0 <= r -> r mod 4 = 0 -> r <= x.2 ->
  (forall n m y R T',
     changed_in x (mem s) m -> dom m = dom (mem s) -> y.1 = x.1 -> y.2 <= x.2 -> r <= y.2 < r + MIN_Leftover ->
     header m y nx -> (n = NULL /\ R = [] \/ n <> NULL /\ exists z, z.1 = n /\ R = [z] /\ header m z nx) ->
     tiled (acHeap s) T' (acHeap s + HEAP_SIZE) -> T' ≡ₚ U ++ y :: F1 ++ R ++ F2 ->
     (forall z a, z ∈ R -> within a z -> within a x) ->
     Q n (s <| mem := m |>)) ->
  wp (make_new_free x.1 r) Q s.
Proof.
  intros ok Hh Hr Hm Hle HQ. assert (Hx : x ∈ F1 ++ x :: F2) by set_solver-.
  assert (Hp : T ≡ₚ U ++ x :: F1 ++ F2) by (rewrite (ho_perm _ _ _ _ ok); by rewrite (Permutation_middle F1)).
  destruct (block_range ok _ (free_in ok _ Hx)) as (? & ? & ? & ? & ? & ? & ?).
  eapply wp_make_new_free; try done.
  - intros Hlt. replace s with (s <| mem := mem s |>) by by destruct s.
    eapply (HQ NULL (mem s) x [] T); try done; [by left | apply ok | by intros ? ? ?%not_elem_of_nil].
  - intros n Hge m Hc Hy Hz Hd. apply (free_in ok), list_elem_of_split in Hx as Hs. destruct Hs as (T1 & T2 & E).
    pose proof (ho_tiled _ _ _ _ ok) as Ht. rewrite E in Ht.
    replace x with (x.1, x.2) in Ht by by destruct x.
    apply (tiled_split _ _ _ _ _ _ r) in Ht; [| done | done | tile_lia].
    eapply (HQ n m (x.1, r) [(n, x.2 - r - HDR_SIZE)] _ Hc Hd); cbn [fst snd];
      [done | lia | tile_lia | done | | exact Ht | |].
    + right. split; [subst n; unfold NULL; tile_lia | by exists (n, x.2 - r - HDR_SIZE)].
    + assert (E2 : T1 ++ T2 ≡ₚ U ++ F1 ++ F2).
      { apply (Permutation_cons_inv (a := x)). transitivity T; [rewrite E; apply Permutation_middle |].
        rewrite Hp. symmetry. apply Permutation_middle. }
      rewrite <- !Permutation_middle, E2. cbn [app]. rewrite <- !Permutation_middle. done.
    + intros z a ->%list_elem_of_singleton ?. subst n. tile_lia.
Qed.

Definition taken s x (m : gmap Z Z) : gmap Z Z := <[x.1 + 8 := pmbUsed s]> m.

(** The memory [m] after a split, and the block [y] taken into the list of used blocks. *)
Section Taken.
Context {s T U F1 x F2} (ok : heap_ok s T U (F1 ++ x :: F2)).
Context {m y R T' nx} (Hm : changed_in x (mem s) m) (Hd : dom m = dom (mem s))
  (Ey : y.1 = x.1) (Hy : header m y nx)
  (Ht : tiled (acHeap s) T' (acHeap s + HEAP_SIZE)) (Hp : T' ≡ₚ U ++ y :: F1 ++ R ++ F2).

Lemma taken_start : x ∈ F1 ++ x :: F2.
Proof. set_solver-. Qed.

Lemma taken_rest : x.1 ∉ (U ++ F1 ++ F2).*1.
Proof.
  pose proof (starts_nodup ok) as N.
  rewrite app_assoc, <- Permutation_middle, <- app_assoc in N. by apply NoDup_cons in N as [? _].
Qed.

Lemma taken_nodup : NoDup (y :: U ++ F1 ++ R ++ F2).*1.
Proof. rewrite Permutation_middle, <- Hp. eapply tiled_nodup, Ht. Qed.

Lemma taken_tile : y ∈ T'.
Proof. rewrite Hp. set_solver-. Qed.

Lemma taken_changed : changed_in y m (taken s x m).
Proof. intros a Ha. apply lookup_insert_ne. rewrite <- Ey. pose proof (tiled_bounds _ _ _ _ Ht taken_tile). tile_lia. Qed.

Lemma taken_dom : dom (taken s x m) = dom (mem s).
Proof. rewrite <- Hd. apply dom_insert_lookup_L. rewrite <- Ey. eexists. apply Hy. Qed.

Lemma taken_header : header (taken s x m) y (pmbUsed s).
Proof. destruct Hy. split; unfold taken; rewrite <- Ey; rewrite ?lookup_insert_eq, ?lookup_insert_ne by lia; done. Qed.

(** The lists as they were before. *)
Lemma taken_blocks l b c : l ⊆ U ++ F1 ++ F2 -> blocks (mem s) b l c -> blocks (taken s x m) b l c.
Proof.
  intros Hl Hb.
  assert (Hn : x.1 ∉ l.*1)
    by (intros (z & Ez & Hz)%list_elem_of_fmap; apply taken_rest; rewrite Ez; apply list_elem_of_fmap_2, Hl, Hz).
  eapply (blocks_changed T'); [exact Ht | | apply taken_tile | by rewrite Ey | apply taken_changed |].
  { intros z Hz%Hl. rewrite Hp. set_solver+ Hz. }
  eapply (blocks_changed T); [apply ok | | apply (free_in ok), taken_start | exact Hn | exact Hm | done].
  intros z Hz%Hl. rewrite (ho_perm _ _ _ _ ok). set_solver+ Hz.
Qed.

(** The header of a block that stays free takes a new link. *)
Context {h m3 : _} (Hm3 : m3 = (taken s x m) \/ exists p, p ∈ F1 /\ m3 = <[p.1 + 8 := h]> (taken s x m)).

Lemma removed_dom : dom m3 = dom (mem s).
Proof.
  rewrite <- taken_dom. destruct Hm3 as [-> | (p & Hin & ->)]; [done |].
  apply dom_insert_lookup_L. pose proof (ho_free _ _ _ _ ok) as Hf. apply blocks_app in Hf as (c & Hf & _).
  destruct (blocks_header (taken s x m) (pmbFree s) F1 c p) as (? & []); [by apply taken_blocks; [set_solver- |] | done | eauto].
Qed.

Lemma relinked_used l b c : l ⊆ y :: U -> blocks (taken s x m) b l c -> blocks m3 b l c.
Proof.
  intros Hl Hb. destruct Hm3 as [-> | (p & Hin & ->)]; [done |].
  assert (HpT : p ∈ T') by (rewrite Hp; set_solver+ Hin).
  eapply (blocks_changed T' _ _ (taken s x m) _ _ _ _ p); [exact Ht | | exact HpT | | | exact Hb].
  - intros z Hz%Hl. rewrite Hp. set_solver+ Hz.
  - intros (z & Ez & Hz)%list_elem_of_fmap. apply Hl in Hz.
    pose proof taken_nodup as N. rewrite app_comm_cons, fmap_app in N. apply NoDup_app in N as (_ & D & _).
    apply (D p.1); [rewrite Ez; by apply list_elem_of_fmap_2 |].
    rewrite fmap_app. apply elem_of_app. left. by apply list_elem_of_fmap_2.
  - intros b' Hb2. apply lookup_insert_ne.
    destruct (tiled_bounds _ _ _ _ Ht HpT) as (_ & _ & ? & _). tile_lia.
Qed.

Lemma relinked_step s' : same_registers s s' -> mem s' = m3 -> heap_step U s s'.
Proof.
  intros Hs Es. apply (heap_step_store _ T U (F1 ++ x :: F2)); [done | done | done | rewrite Es; apply removed_dom |].
  intros b Hb Hu. rewrite Es.
  assert (Hm2 : (taken s x m) !! b = mem s !! b).
  { unfold taken. rewrite lookup_insert_ne; [by apply Hm, Hb, taken_start |]. intros <-.
    apply (Hb x taken_start). pose proof (block_range ok x (free_in ok _ taken_start)). tile_lia. }
  destruct Hm3 as [-> | (p & Hin & ->)]; [done |]. rewrite lookup_insert_ne; [done |]. intros <-.
  assert (HpF : p ∈ F1 ++ x :: F2) by set_solver+ Hin. apply (Hb p HpF).
  apply (free_in ok), (block_range ok) in HpF. tile_lia.
Qed.

Lemma relinked_ok s' a :
  same_registers s s' -> mem s' = m3 -> pmbUsed s' = x.1 -> pmbFree s' = a ->
  uMemFree s' = u32 (uMemFree s - u32 (y.2 + HDR_SIZE)) ->
  blocks m3 a (F1 ++ R ++ F2) NULL -> heap_ok s' T' (y :: U) (F1 ++ R ++ F2).
Proof.
  intros (Ea & _) Em Eu Ef Ec Hb. split; rewrite ?Ea, ?Em, ?Eu, ?Ef, ?Ec; try apply ok; try done.
  - rewrite Hp. by rewrite <- Permutation_middle.
  - apply relinked_used; [done |]. rewrite <- Ey. split; [done |]. exists (pmbUsed s).
    split; [apply taken_header | apply taken_blocks; [set_solver- | apply ok]].
  - intros b Hb1 H4b. rewrite <- elem_of_dom, removed_dom, elem_of_dom. by apply ok.
  - rewrite (ho_count _ _ _ _ ok). pose proof (total_tiled _ _ _ Ht) as E1.
    pose proof (total_tiled _ _ _ (ho_tiled _ _ _ _ ok)) as E2.
    rewrite (ho_perm _ _ _ _ ok) in E2. rewrite Hp, <- Permutation_middle in E1.
    cbn [total foldr] in E1. fold (total (U ++ F1 ++ R ++ F2)) in E1. rewrite total_app in E1, E2.
    replace (total (F1 ++ R ++ F2) - HDR_SIZE) with (total (F1 ++ x :: F2) - HDR_SIZE - (y.2 + HDR_SIZE)) by tile_lia.
    unfold u32. rewrite Zminus_mod_idemp_l, Zminus_mod_idemp_r. done.
Qed.
End Taken.

Lemma wp_allocate s T U F1 x F2 r Q :
  heap_ok s T U (F1 ++ x :: F2) -> 0 <= r -> r mod 4 = 0 -> r <= x.2 ->
  (forall s' T' y F', y.1 = x.1 -> r <= y.2 < r + MIN_Leftover -> heap_ok s' T' (y :: U) F' ->
     heap_step U s s' -> Q (x.1 + HDR_SIZE) s') ->
  wp (npvAllocateBlock x.1 r (prev_of F1)) Q s.
Proof.
  intros ok Hr Hm Hle HQ. pose proof (taken_start (F1 := F1) (x := x) (F2 := F2)) as Hx.
  destruct (block_range ok _ (free_in ok _ Hx)) as (? & ? & ? & ? & ? & ? & ?).
  pose proof (ho_free _ _ _ _ ok) as Hf. apply blocks_app in Hf as (x1 & Hf1 & -> & nx & Hh & Hf2).
  apply wp_bind. eapply wp_split; try done.
  intros n m y R T' Hc Hd Ey Hyx Hry Hy HR Ht Hp Hzx.
  eapply wp_bind, (wp_blk_size _ y.2); [lia | tile_lia | cbn; rewrite <- Ey; apply Hy |].
  apply wp_bind, wp_update.
  eapply wp_bind, (wp_blk_next _ nx); [lia | tile_lia | cbn; rewrite <- Ey; apply Hy |].
  apply wp_bind, wp_field.
  apply wp_bind, wp_set_next; [lia | tile_lia | cbn; rewrite <- Ey; eexists; apply Hy |].
  apply wp_bind, wp_update. apply wp_bind. cbn. fold (taken s x m).
  match goal with |- wp _ _ ?st => set (st2 := st) end.
  pose proof (taken_nodup Ht Hp) as N. rewrite fmap_cons, fmap_app in N.
  apply NoDup_cons in N as [Ny N]. apply NoDup_app in N as (_ & _ & N).
  assert (Hlink : forall h, blocks (taken s x m) h (R ++ F2) NULL ->
    wp (if truth (prev_of F1) then set_next (prev_of F1) h else update (fun s0 => s0 <| pmbFree := h |>))
      (fun _ => wp (ret (u32 (x.1 + HDR_SIZE))) Q) st2).
  { intros h Hb. eapply (wp_relink st2 T' F1 (R ++ F2)); [exact Ht | apply ok | apply ok | | exact N | | exact Hb |].
    { rewrite Hp. set_solver-. }
    { eapply taken_blocks; try done. set_solver-. }
    intros m3 a Hb3 Hm3. apply wp_ret. rewrite u32_small by tile_lia.
    eapply (HQ _ T' y (F1 ++ R ++ F2)); [done | done | |].
    - by eapply (relinked_ok ok Hc Hd Ey Hy Ht Hp Hm3).
    - by eapply (relinked_step ok Hc Hd Ey Hy Ht Hp Hm3). }
  destruct HR as [[-> ->] | (Hn & z & <- & -> & Hz)].
  { apply Hlink. eapply taken_blocks; try done. set_solver-. }
  unfold truth at 1. destruct (Z.eqb_spec z.1 0); [done |]. cbn [negb].
  assert (HzT : z ∈ T') by (rewrite Hp; set_solver-).
  destruct (tiled_bounds _ _ _ _ Ht HzT) as (? & ? & ? & _).
  pose proof (ho_low _ _ _ _ ok). pose proof (ho_high _ _ _ _ ok).
  assert (Hz2 : header (taken s x m) z nx).
  { eapply header_frame; [| exact Hz]. intros a Ha. eapply (taken_changed Ey Ht Hp). intros Hw.
    eapply (within_other T' _ _ y z a); [exact Ht | apply (taken_tile Hp) | done | | done | done].
    intros Eyz. apply Ny. rewrite Eyz, <- fmap_app. apply list_elem_of_fmap_2. set_solver-. }
  apply wp_bind, wp_set_next; [lia | tile_lia | eexists; apply Hz2 |].
  match goal with |- wp _ _ ?st => replace st with st2 end.
  2: { change (mem st2) with (taken s x m). rewrite insert_id by apply Hz2. reflexivity. }
  apply Hlink. split; [done |]. exists nx. split; [done |]. eapply taken_blocks; try done. set_solver-.
Qed.

(** ** Finding a block *)

Lemma tiled_length T lo hi : tiled lo T hi -> HDR_SIZE * Z.of_nat (length T) <= hi - lo.
Proof.
  revert lo. induction T as [| x T IH]; intros lo; cbn [tiled length]; [lia |].
  intros (_ & ? & Ht%IH). tile_lia.
Qed.

Lemma heap_fuel_enough s T U F : heap_ok s T U F -> (length U + length F < heap_fuel)%nat.
Proof.
  intros ok. pose proof (tiled_length _ _ _ (ho_tiled _ _ _ _ ok)) as L.
  rewrite (ho_perm _ _ _ _ ok), length_app in L. unfold heap_fuel. tile_lia.
Qed.

Definition allocated s (r : Z) U (p : Z) s' : Prop :=
  exists T' y F', p = y.1 + HDR_SIZE /\ r <= y.2 < r + MIN_Leftover /\ heap_ok s' T' (y :: U) F' /\ heap_step U s s'.

Lemma wp_find_fit r T U : forall fuel F1 F2 c s Q,
  heap_ok s T U (F1 ++ F2) -> blocks (mem s) c F2 NULL -> 0 <= r -> r mod 4 = 0 -> (length F2 < fuel)%nat ->
  ((forall x, x ∈ F2 -> x.2 < r) -> Q NULL s) -> (forall p s', allocated s r U p s' -> Q p s') ->
  wp (find_fit fuel r (prev_of F1) c) Q s.
Proof.
  induction fuel as [| fuel IH]; intros F1 F2 c s Q ok Hb Hr Hm Hl HQ0 HQ; [lia |]. cbn [find_fit].
  destruct F2 as [| x F2]; cbn [blocks length] in Hb, Hl.
  { subst c. cbn. apply HQ0. by intros ? ?%not_elem_of_nil. }
  destruct Hb as (-> & n & Hh & Hb). assert (Hx : x ∈ F1 ++ x :: F2) by set_solver-.
  destruct (block_range ok _ (free_in ok _ Hx)) as (? & ? & ? & ? & ? & _).
  destruct (Z.eqb_spec x.1 NULL) as [E | _]; [unfold NULL in E; lia |].
  eapply wp_bind, wp_blk_size; [lia | tile_lia | apply Hh |].
  destruct (Z.leb_spec r x.2).
  - eapply wp_allocate; [done.. |]. intros s' T' y F' Ey Hy ok' St. apply HQ. exists T', y, F'. by rewrite Ey.
  - eapply wp_bind, wp_blk_next; [lia | tile_lia | apply Hh |].
    rewrite <- (prev_of_snoc F1 x). eapply (IH (F1 ++ [x]) F2); try done; [by rewrite <- app_assoc | lia |].
    intros Hall. apply HQ0. intros z [-> | Hz]%elem_of_cons; [done | by apply Hall].
Qed.

Definition round4 (n : Z) : Z := Z.land (u32 (n + 3)) 0xFFFFFFFC.

Lemma round4_spec n : 0 < n <= HEAP_SIZE -> round4 n mod 4 = 0 /\ n <= round4 n < n + 4.
Proof.
  intros Hn. unfold round4. rewrite u32_small by tile_lia.
  replace 0xFFFFFFFC with (Z.ldiff (Z.ones 32) (Z.ones 2)) by done.
  assert (E : Z.land (n + 3) (Z.ldiff (Z.ones 32) (Z.ones 2)) = Z.shiftl (Z.shiftr (n + 3) 2) 2).
  { rewrite <- Z.ldiff_ones_r by lia. apply Z.bits_inj'. intros k Hk.
    rewrite Z.land_spec, !Z.ldiff_spec. destruct (Z.ltb_spec k 32).
    - by rewrite (Z.ones_spec_low 32 k) by lia.
    - rewrite (Z.ones_spec_high 32 k), (Z.bits_above_log2 (n + 3) k); [done | tile_lia | | lia].
      apply Z.log2_lt_pow2; [lia |]. eapply Z.lt_le_trans; [| apply (Z.pow_le_mono_r 2 32 k); lia]. tile_lia. }
  rewrite E, Z.shiftl_mul_pow2, Z.shiftr_div_pow2 by lia. change (2 ^ 2) with 4.
  split; [apply Z_mod_mult |]. Z.div_mod_to_equations. lia.
Qed.

(** What [malloc] does on a heap in order that is not used up. *)
Lemma wp_malloc s T U F n Q :
  heap_ok s T U F -> F <> [] -> 0 <= n ->
  (forall s', heap_ok s' T U F -> heap_step U s s' -> (n = 0 \/ HEAP_SIZE < n \/ forall x, x ∈ F -> x.2 < round4 n) -> Q NULL s') ->
  (forall s0 p s', 0 < n <= HEAP_SIZE -> heap_step U s s0 -> allocated s0 (round4 n) U p s' -> Q p s') ->
  wp (malloc n) Q s.
Proof.
  intros ok HF Hn HQ0 HQ. pose proof (ho_low _ _ _ _ ok).
  apply wp_bind, wp_field, wp_bind. destruct (Z.eqb_spec (acHeap s) NULL) as [E | _]; [unfold NULL in E; lia |].
  apply wp_ret. destruct (Z.eqb_spec n 0); [apply HQ0; [done | apply heap_step_refl | auto] |].
  destruct (Z.ltb_spec HEAP_SIZE n); [apply HQ0; [done | apply heap_step_refl | auto] |]. cbn [orb].
  apply wp_bind, wp_update. fold (round4 n). destruct (round4_spec n ltac:(lia)) as [Hm Hr].
  set (s0 := s <| nAllocCalls := _ |>). assert (St : heap_step U s s0) by by apply heap_step_same.
  assert (ok0 : heap_ok s0 T U F) by by split; apply ok. clearbody s0.
  destruct F as [| x F]; [done |]. pose proof (ho_free _ _ _ _ ok0) as Hf. cbn [blocks] in Hf.
  destruct Hf as (Ef & nx & Hh & Hb).
  assert (HxF : x ∈ x :: F) by left. destruct (block_range ok0 _ (free_in ok0 _ HxF)) as (? & ? & ? & ? & ? & _).
  apply wp_bind, wp_field. rewrite Ef. eapply wp_bind, wp_blk_size; [lia | tile_lia | apply Hh |].
  assert (Hdone : forall p s', allocated s0 (round4 n) U p s' ->
    wp (when (truth p) (SignatureCheck (u32 (p - HDR_SIZE));;; ret tt);;; ret p) Q s').
  { intros p s' Ha. pose proof Ha as (T' & y & F' & -> & Hy & ok' & St').
    pose proof (ho_used _ _ _ _ ok') as (_ & n' & Hy' & _).
    destruct (block_range ok' y (used_in ok' y ltac:(left))) as (? & ? & ? & ? & ? & _).
    unfold truth. destruct (Z.eqb_spec (y.1 + HDR_SIZE) 0); [tile_lia |]. cbn [negb when].
    rewrite u32_small by tile_lia. replace (y.1 + HDR_SIZE - HDR_SIZE) with y.1 by lia.
    apply wp_bind, wp_bind. eapply wp_SignatureCheck; [lia | tile_lia | done | exact Hy' |].
    intros _. apply wp_ret, wp_ret. eapply HQ; [lia | done | done]. }
  apply wp_bind. destruct (Z.leb_spec (round4 n) x.2).
  - eapply (wp_allocate _ _ _ []); [exact ok0 | lia | done | lia |].
    intros s' T' y F' Ey Hy ok' St'. apply Hdone. exists T', y, F'. by rewrite Ey.
  - eapply wp_bind, wp_blk_next; [lia | tile_lia | apply Hh |].
    rewrite <- (prev_of_snoc [] x). eapply wp_find_fit; [exact ok0 | done | lia | done | | | exact Hdone].
    + pose proof (heap_fuel_enough _ _ _ _ ok0). cbn [length] in *. lia.
    + intros Hall. apply HQ0; [done | done |]. right. right. intros z [-> | Hz]%elem_of_cons; [lia | auto].
Qed.
End Safe.
