(* ===== verification/Os2HeapFree.v ===== *)
(** * Os2HeapFree: giving blocks back

    Freeing a block and joining it with its neighbours, for Os2Heap.v.  The tiling stays a
    tiling; whether all neighbours are joined is another matter, see
    [compact_misses_neighbour]. *)

From S2P Require Import Prelude Os2Heap Os2HeapSafe.
Open Scope Z_scope.
Open Scope state_scope.

(** ** Following links

    The walks of [free] go on along blocks that have been joined to others, whose links are
    still there. *)

Fixpoint links (m : gmap Z Z) (a : Z) (l : list Z) : Prop :=
  match l with
  | [] => a = NULL
  | c :: l => a = c /\ c <> NULL /\ exists n, m !! (c + 8) = Some n /\ links m n l
  end.

Lemma links_inj m a l l' : links m a l -> links m a l' -> l = l'.
Proof.
  revert a l'. induction l as [| c l IH]; intros a [| c' l']; cbn [links]; try naive_solver.
Qed.

Lemma links_suffix m a l1 c l2 : links m a (l1 ++ c :: l2) -> links m c (c :: l2).
Proof.
  revert a. induction l1 as [| d l1 IH]; intros a; cbn [app].
  - cbn [links]. by intros (-> & ?).
  - intros (_ & _ & n & _ & Hl). eauto.
Qed.

(** A list that ends does not come back. *)
Lemma links_nodup m a l : links m a l -> NoDup l.
Proof.
  revert a. induction l as [| c l IH]; intros a Hl; [constructor |].
  assert (Hl' := Hl). destruct Hl' as (-> & Hc & n & Hn & Ht). constructor; [| eauto].
  intros (l1 & l2 & ->)%list_elem_of_split. apply links_suffix in Ht.
  pose proof (links_inj _ _ _ _ Hl Ht) as E. apply (f_equal length) in E. cbn in E. rewrite length_app in E. cbn in E. lia.
Qed.

Lemma links_frame m m' a l : (forall c, c ∈ l -> m' !! (c + 8) = m !! (c + 8)) -> links m a l -> links m' a l.
Proof.
  revert a. induction l as [| c l IH]; intros a E; cbn [links]; [done |].
  intros (-> & ? & n & Hn & Hl). split_and!; try done. exists n. rewrite E by left.
  split; [done |]. apply IH; [| done]. intros d Hd. apply E. by right.
Qed.

Lemma blocks_links m a l : (forall x, x ∈ l -> x.1 <> NULL) -> blocks m a l NULL -> links m a l.*1.
Proof.
  revert a. induction l as [| x l IH]; intros a N; cbn [blocks fmap list_fmap links]; [done |].
  intros (-> & n & [] & Hb). split_and!; [done | apply N; left | exists n; split; [done |]].
  apply IH; [| done]. intros y Hy. apply N. by right.
Qed.

(** Taking the second of two linked blocks out of the list. *)
Lemma links_skip m a l q p n :
  links m a l -> m !! (q + 8) = Some p -> m !! (p + 8) = Some n -> p <> NULL ->
  exists l', links (<[q + 8 := n]> m) a l' /\ sublist l' l /\ (forall c, c ∈ l -> c <> p -> c ∈ l').
Proof.
  intros Hl Hq Hp Np. destruct (decide (q ∈ l)) as [(l1 & l2 & ->)%list_elem_of_split | Hn].
  2: { exists l. split; [| by split]. eapply links_frame; [| exact Hl]. intros c Hc.
       apply lookup_insert_ne. intros E. apply Hn. by replace q with c by lia. }
  pose proof (links_nodup _ _ _ Hl) as N.
  pose proof (links_suffix _ _ _ _ _ Hl) as (_ & Nq & n1 & Hn1 & Hs). simplify_eq.
  destruct l2 as [| d l2]; [done |]. destruct Hs as (-> & _ & n2 & Hn2 & Hs). simplify_eq.
  exists (l1 ++ q :: l2). split_and!.
  - revert a Hl. induction l1 as [| e l1 IH]; intros a Hl.
    + destruct Hl as (-> & ? & _). split_and!; [done | done |]. exists n. rewrite lookup_insert_eq. split; [done |].
      eapply links_frame; [| exact Hs]. intros c Hc. apply lookup_insert_ne. intros E.
      cbn in N. apply NoDup_cons in N as [N _]. apply N. right. by replace q with c by lia.
    + destruct Hl as (-> & ? & n3 & Hn3 & Hl). split_and!; [done | done |]. exists n3. split.
      * rewrite lookup_insert_ne; [done |]. intros E. cbn in N. apply NoDup_cons in N as [N _]. apply N.
        replace e with q by lia. set_solver-.
      * apply IH; [| done]. by apply NoDup_cons in N as [_ N].
  - apply sublist_app; [done |]. apply sublist_skip. by apply sublist_cons.
  - set_solver.
Qed.

Section Free.
Context {V : Type} `{KernelVM V}.
Implicit Types (s : os2 V) (T U F : list block) (x y : block).

(** A header that is, or was, inside a block. *)
Definition sited T (c : Z) : Prop := exists x, x ∈ T /\ x.1 <= c /\ c + HDR_SIZE <= x.1 + span x.

(** The links from [N] come to an end within [k] steps. *)
Definition trail s T (N : Z) (k : nat) : Prop :=
  exists l, links (mem s) N (N :: l) /\ (forall c, c ∈ N :: l -> sited T c) /\ (length l <= k)%nat.

Lemma sited_start T x : x ∈ T -> block_ok x -> sited T x.1.
Proof. intros Hx ?. exists x. split_and!; [done | lia | tile_lia]. Qed.

(** The size of a block is no link. *)
Lemma sited_size T lo hi x c : tiled lo T hi -> x ∈ T -> sited T c -> x.1 + 4 <> c + 8.
Proof.
  intros Ht Hx (y & Hy & ? & ?) ?. destruct (tiled_bounds _ _ _ _ Ht Hx) as (_ & _ & ? & _).
  destruct (tiled_sep _ _ _ _ _ Ht Hx Hy) as [-> | [? | ?]]; tile_lia.
Qed.

Definition joined x y : block := (x.1, x.2 + (HDR_SIZE + y.2)).

(** Two free neighbours become one. *)
Lemma merge_tiles s T U F x y F0 :
  heap_ok s T U F -> F ≡ₚ x :: y :: F0 -> y.1 = x.1 + span x ->
  exists T', tiled (acHeap s) T' (acHeap s + HEAP_SIZE) /\
    T' ≡ₚ U ++ joined x y :: F0 /\ (forall c, sited T c -> sited T' c).
Proof.
  intros ok E Ey. pose proof (ho_tiled _ _ _ _ ok) as Ht.
  assert (Hx : x ∈ T) by (apply (free_in ok); rewrite E; set_solver-).
  assert (Hy : y ∈ T) by (apply (free_in ok); rewrite E; set_solver-).
  destruct (tiled_bounds _ _ _ _ Ht Hx) as (_ & _ & ? & _). destruct (tiled_bounds _ _ _ _ Ht Hy) as (_ & _ & ? & _).
  destruct (tiled_adjacent _ _ _ _ _ Ht Hx Hy Ey) as (T1 & T2 & ET).
  exists (T1 ++ (x.1, x.2 + (HDR_SIZE + y.2)) :: T2). split_and!.
  - rewrite ET in Ht. replace x with (x.1, x.2) in Ht by by destruct x.
    replace y with (y.1, y.2) in Ht by by destruct y. by eapply tiled_merge.
  - rewrite <- !Permutation_middle. constructor. apply (Permutation_cons_inv (a := y)), (Permutation_cons_inv (a := x)).
    transitivity T; [rewrite ET, <- !Permutation_middle; apply perm_swap || done |].
    rewrite (ho_perm _ _ _ _ ok), E. by rewrite <- !Permutation_middle.
  - intros c (z & Hz & ? & ?). rewrite ET in Hz.
    assert (z = x \/ z = y \/ z ∈ T1 ++ T2) as [-> | [-> | Hz']] by set_solver+ Hz.
    1,2: exists (joined x y); split; [apply elem_of_app; right; left |]; unfold joined; tile_lia.
    + exists z. split; [set_solver+ Hz' | done].
Qed.

(** The free blocks are rearranged. *)
Lemma heap_ok_free s T U F s' T' F' :
  heap_ok s T U F -> same_registers s s' -> pmbUsed s' = pmbUsed s -> uMemFree s' = uMemFree s ->
  dom (mem s') = dom (mem s) -> tiled (acHeap s) T' (acHeap s + HEAP_SIZE) -> T' ≡ₚ U ++ F' ->
  blocks (mem s') (pmbUsed s) U NULL -> blocks (mem s') (pmbFree s') F' NULL -> heap_ok s' T' U F'.
Proof.
  intros ok (Ea & _) Eu Ec Ed Ht Hp Hu Hf. split; rewrite ?Ea, ?Eu, ?Ec; try apply ok; try done.
  - intros a Ha H4. rewrite <- elem_of_dom, Ed, elem_of_dom. by apply ok.
  - rewrite (ho_count _ _ _ _ ok). pose proof (total_tiled _ _ _ Ht) as E1.
    pose proof (total_tiled _ _ _ (ho_tiled _ _ _ _ ok)) as E2.
    rewrite (ho_perm _ _ _ _ ok), total_app in E2. rewrite Hp, total_app in E1. do 2 f_equal. lia.
Qed.

(** ** Removing from the list of free blocks *)

Lemma wp_after x n Q s :
  0 < x.1 -> 0 <= x.2 -> x.1 + span x <= UINT_MAX -> header (mem s) x n -> Q (x.1 + span x) s ->
  wp (after x.1) Q s.
Proof.
  intros ? ? ? Hh HQ. eapply wp_bind, wp_blk_size; [lia | tile_lia | apply Hh |].
  apply wp_ret. rewrite (u32_small (x.1 + x.2)), u32_small by tile_lia.
  by replace (x.1 + x.2 + HDR_SIZE) with (x.1 + span x) by tile_lia.
Qed.

Lemma wp_remove_loop p n Q s : forall fuel L q a,
  blocks (mem s) a (L ++ [q]) p.1 -> header (mem s) p n -> 0 < p.1 -> p.1 + HDR_SIZE <= UINT_MAX ->
  (forall x, x ∈ L ++ [q] -> 0 < x.1 /\ x.1 + HDR_SIZE <= UINT_MAX) -> p.1 ∉ (L ++ [q]).*1 ->
  (length L < fuel)%nat ->
  Q tt (s <| mem := <[q.1 + 8 := n]> (mem s) |>) ->
  wp (remove_loop fuel p.1 a) Q s.
Proof.
  induction fuel as [| fuel IH]; intros L q a Hb Hp Hp0 Hp1 Hr Hn Hl HQ; [lia |]. cbn [remove_loop].
  destruct L as [| x L]; cbn [app blocks] in Hb.
  - destruct Hb as (-> & m & Hq & ->). destruct (Hr q ltac:(left)) as [? ?].
    destruct (Z.eqb_spec q.1 NULL) as [E | _]; [unfold NULL in E; lia |].
    eapply wp_bind, wp_blk_next; [lia | done | apply Hq |]. rewrite Z.eqb_refl.
    eapply wp_bind, wp_blk_next; [lia | done | apply Hp |].
    apply wp_set_next; [lia | done | eexists; apply Hq | done].
  - destruct Hb as (-> & m & Hx & Hb). destruct (Hr x ltac:(left)) as [? ?].
    destruct (Z.eqb_spec x.1 NULL) as [E | _]; [unfold NULL in E; lia |].
    eapply wp_bind, wp_blk_next; [lia | done | apply Hx |].
    destruct (Z.eqb_spec m p.1) as [-> | _].
    + exfalso. apply Hn. destruct (L ++ [q]) as [| y l] eqn:E; [by destruct L |].
      cbn [blocks] in Hb. destruct Hb as (Ep & _). rewrite Ep. rewrite <- app_comm_cons, E. set_solver-.
    + apply (IH L q m); try done.
      * intros y Hy. apply Hr. by right.
      * intros Hy. apply Hn. cbn. by right.
      * cbn in Hl. lia.
Qed.

(** ** Joining neighbours *)

Definition compacted s U (N : Z) (k : nat) s' : Prop :=
  exists T' F', heap_ok s' T' U F' /\ heap_step U s s' /\ trail s' T' N k.

Lemma compacted_trans s s1 s2 U N k : heap_step U s s1 -> compacted s1 U N k s2 -> compacted s U N k s2.
Proof. intros St (T & F & ok & St' & Tr). exists T, F. split_and!; try done. by eapply heap_step_trans. Qed.

(** A block in the list takes in the head of the list, which lies right after it. *)
Section TakeHead.
Context {s T U f G1 p G2} (ok : heap_ok s T U (f :: G1 ++ p :: G2)) (Ef : f.1 = p.1 + span p).
Context {n : Z} (Hf : header (mem s) f n).

Let p' : block := joined p f.
Let m := <[p.1 + 4 := p'.2]> (mem s).
Let s' := s <| mem := m |> <| pmbFree := n |>.

Lemma take_head :
  exists T', heap_ok s' T' U (G1 ++ p' :: G2) /\ heap_step U s s' /\
    forall N k, trail s T N k -> trail s' T' N k.
Proof.
  pose proof (ho_tiled _ _ _ _ ok) as Ht.
  assert (HpF : p ∈ f :: G1 ++ p :: G2) by set_solver-. pose proof (free_in ok _ HpF) as HpT.
  destruct (block_range ok _ HpT) as (? & ? & ? & ? & ? & ? & ?).
  destruct (merge_tiles s T U _ p f (G1 ++ G2) ok) as (T' & Ht' & Hp' & Hs).
  { rewrite <- Permutation_middle. apply perm_swap. }
  { done. }
  assert (N : p.1 ∉ (f :: G1 ++ G2).*1 /\ p.1 ∉ U.*1).
  { pose proof (starts_nodup ok) as N. rewrite fmap_app in N. apply NoDup_app in N as (_ & D & N). split.
    - rewrite app_comm_cons, <- Permutation_middle in N. by apply NoDup_cons in N as [? _].
    - intros Hu. apply (D _ Hu). by apply list_elem_of_fmap_2. }
  destruct N as [N1 N2].
  assert (Hc : changed_in p (mem s) m) by (intros a Ha; apply lookup_insert_ne; tile_lia).
  pose proof (ho_free _ _ _ _ ok) as Hb. destruct Hb as (Eh & n0 & Hf0 & Hb).
  assert (n0 = n) as -> by (destruct Hf, Hf0; congruence).
  apply blocks_app in Hb as (c & Hb1 & -> & np & Hhp & Hb2).
  assert (Hd : dom m = dom (mem s)) by (apply dom_insert_lookup_L; eexists; apply Hhp).
  assert (Hin : forall l b c, l ⊆ f :: G1 ++ G2 -> blocks (mem s) b l c -> blocks m b l c).
  { intros l b c Hl Hbl. eapply (blocks_changed T); [exact Ht | | exact HpT | | exact Hc | exact Hbl].
    - intros z Hz%Hl. apply (free_in ok). set_solver+ Hz.
    - intros (z & Ez & Hz)%list_elem_of_fmap. apply N1. rewrite Ez. apply list_elem_of_fmap_2, Hl, Hz. }
  assert (ok' : heap_ok s' T' U (G1 ++ p' :: G2)).
  { apply (heap_ok_free s T U _ s' _ _ ok); try done; cbn.
    - rewrite Hp'. by rewrite <- (Permutation_middle G1 G2 p').
    - eapply (blocks_changed T); [exact Ht | apply (used_in ok) | exact HpT | exact N2 | exact Hc | apply ok].
    - apply blocks_app. exists p.1. split; [apply Hin; [set_solver- | done] |].
      split; [done |]. exists np. split; [| apply Hin; [set_solver- | done]].
      destruct Hhp. split; unfold m; rewrite ?lookup_insert_eq, ?lookup_insert_ne by (cbn; lia); done. }
  exists T'. split_and!; [exact ok' | |].
  - apply (heap_step_store _ T U (f :: G1 ++ p :: G2)); try done.
    intros a Ha _. apply Hc, Ha, HpF.
  - intros N k (l & Hl & Hsl & Hk). exists l. split_and!; [| by intros c ?%Hsl%Hs | done].
    eapply links_frame; [| exact Hl]. intros c Hcl. apply lookup_insert_ne.
    eapply sited_size; [exact Ht | exact HpT | auto].
Qed.
End TakeHead.

(** The head of the list takes in a block of the list that lies right after it. *)
Section TakeNext.
Context {s T U f G1 p G2} (ok : heap_ok s T U (f :: G1 ++ p :: G2)) (Ep : p.1 = f.1 + span f).
Context {n : Z} (Hp : header (mem s) p n).

Let m1 := <[f.1 + 4 := (joined f p).2]> (mem s).

Lemma take_next_start : f ∈ f :: G1 ++ p :: G2 /\ p ∈ f :: G1 ++ p :: G2.
Proof. set_solver-. Qed.

Lemma take_next_changed : changed_in f (mem s) m1.
Proof.
  intros a Ha. apply lookup_insert_ne. pose proof (block_range ok _ (free_in ok _ (proj1 take_next_start))). tile_lia.
Qed.

Lemma take_next_fresh : f.1 ∉ U.*1 /\ NoDup (p :: f :: G1 ++ G2).*1.
Proof.
  pose proof (starts_nodup ok) as N. rewrite fmap_app in N. apply NoDup_app in N as (_ & D & N). split.
  - intros Hu. apply (D _ Hu). by left.
  - by rewrite app_comm_cons, <- Permutation_middle in N.
Qed.

Lemma take_next_blocks l b c : l ⊆ U ++ G1 ++ p :: G2 -> blocks (mem s) b l c -> blocks m1 b l c.
Proof.
  intros Hl. eapply (blocks_changed T); [apply ok | | apply (free_in ok), (proj1 take_next_start) | | apply take_next_changed].
  - intros z Hz%Hl. rewrite (ho_perm _ _ _ _ ok). set_solver+ Hz.
  - intros (z & Ez & Hz)%list_elem_of_fmap. apply Hl in Hz. destruct take_next_fresh as [N1 N2].
    apply elem_of_app in Hz as [Hz | Hz].
    + apply N1. rewrite Ez. by apply list_elem_of_fmap_2.
    + rewrite fmap_cons in N2. apply NoDup_cons in N2 as [N3 N2]. cbn in N2. apply NoDup_cons in N2 as [N2 _].
      apply elem_of_app in Hz as [Hz | [-> | Hz]%elem_of_cons].
      * apply N2. rewrite Ez. apply list_elem_of_fmap_2. set_solver+ Hz.
      * apply N3. rewrite <- Ez. by left.
      * apply N2. rewrite Ez. apply list_elem_of_fmap_2. set_solver+ Hz.
Qed.

Lemma take_next_list : blocks m1 (pmbFree s) (joined f p :: G1) p.1 /\ blocks m1 n G2 NULL /\ header m1 p n.
Proof.
  pose proof (ho_free _ _ _ _ ok) as (Eh & n0 & Hf0 & Hb).
  apply blocks_app in Hb as (c & Hb1 & -> & np & Hhp & Hb2).
  assert (np = n) as -> by (destruct Hp, Hhp; congruence). split_and!.
  - split; [done |]. exists n0. split; [| apply take_next_blocks; [set_solver- | done]].
    destruct Hf0. split; unfold m1; rewrite ?lookup_insert_eq, ?lookup_insert_ne by (cbn; lia); done.
  - apply take_next_blocks; [set_solver- | done].
  - assert (Hs : blocks m1 p.1 [p] n) by (apply take_next_blocks; [set_solver- | split; [done |]; by exists n]).
    destruct Hs as (_ & n1 & Hh & ->). done.
Qed.

(** [q] is the last block before [p]. *)
Context {L q} (Eq : joined f p :: G1 = L ++ [q]).
Let m2 := <[q.1 + 8 := n]> m1.
Let s' := s <| mem := m2 |>.

Lemma take_next_last : q.1 ∈ (f :: G1).*1 /\ m1 !! (q.1 + 8) = Some p.1.
Proof.
  split.
  - assert (Hq : q.1 ∈ (joined f p :: G1).*1) by (rewrite Eq; apply list_elem_of_fmap_2; set_solver-). done.
  - destruct take_next_list as (Hb & _). rewrite Eq in Hb. apply blocks_app in Hb as (c & _ & -> & nq & [] & ->). done.
Qed.

Lemma take_next_dom : dom m2 = dom (mem s).
Proof.
  unfold m2. rewrite dom_insert_lookup_L by (eexists; apply take_next_last).
  apply dom_insert_lookup_L. pose proof (ho_free _ _ _ _ ok) as (_ & n0 & [] & _). eauto.
Qed.

(** The link of [q] is inside a free block. *)
Lemma take_next_link : exists x, x ∈ f :: G1 /\ within (q.1 + 8) x.
Proof.
  destruct take_next_last as [(x & -> & Hx)%list_elem_of_fmap _]. exists x. split; [done |].
  assert (Hx' : x ∈ f :: G1 ++ p :: G2) by set_solver+ Hx.
  pose proof (block_range ok _ (free_in ok _ Hx')). tile_lia.
Qed.

Lemma take_next_rest b l c : l ⊆ U ++ G2 -> blocks m1 b l c -> blocks m2 b l c.
Proof.
  intros Hl. destruct take_next_last as [(x & Ex & Hx)%list_elem_of_fmap _].
  assert (HxF : x ∈ f :: G1 ++ p :: G2) by set_solver+ Hx.
  eapply (blocks_changed T _ _ _ _ _ _ _ x); [apply ok | | apply (free_in ok), HxF | |].
  - intros z Hz%Hl. rewrite (ho_perm _ _ _ _ ok). set_solver+ Hz.
  - intros (z & Ez & Hz)%list_elem_of_fmap. apply Hl in Hz. apply elem_of_app in Hz as [Hz | Hz].
    + by eapply (used_free_differ s T U _ z x ok).
    + destruct take_next_fresh as [_ N]. rewrite fmap_cons, app_comm_cons, fmap_app in N.
      apply NoDup_cons in N as [_ N]. apply NoDup_app in N as (_ & D & _).
      apply (D x.1); [by apply list_elem_of_fmap_2 | rewrite Ez; by apply list_elem_of_fmap_2].
  - intros a Ha. apply lookup_insert_ne. pose proof (block_range ok _ (free_in ok _ HxF)). rewrite Ex. tile_lia.
Qed.

Lemma take_next_trail T' N k :
  (forall c, sited T c -> sited T' c) -> N <> p.1 -> trail s T N k -> trail s' T' N k.
Proof.
  intros Hs HN (l & Hl & Hsl & Hk). pose proof (ho_tiled _ _ _ _ ok) as Ht.
  assert (Hl1 : links m1 N (N :: l)).
  { eapply links_frame; [| exact Hl]. intros c Hc. apply lookup_insert_ne.
    eapply sited_size; [exact Ht | apply (free_in ok), (proj1 take_next_start) | auto]. }
  pose proof (block_range ok _ (free_in ok _ (proj2 take_next_start))) as (_ & ? & _).
  destruct (links_skip m1 N (N :: l) q.1 p.1 n) as (l' & Hl' & Hsub & Hin); [done | apply take_next_last | apply take_next_list | unfold NULL; lia |].
  assert (HNl : N ∈ l') by (apply Hin; [left | done]).
  destruct l' as [| N' l']; [by apply not_elem_of_nil in HNl |].
  assert (N' = N) as -> by by destruct Hl'. exists l'. split_and!; [done | |].
  - intros c Hc. apply Hs, Hsl. by eapply elem_of_sublist.
  - apply sublist_length in Hsub. cbn in Hsub. lia.
Qed.

Lemma take_next :
  exists T', heap_ok s' T' U (joined f p :: G1 ++ G2) /\ heap_step U s s' /\
    forall N k, N <> p.1 -> trail s T N k -> trail s' T' N k.
Proof.
  destruct (merge_tiles s T U _ f p (G1 ++ G2) ok) as (T' & Ht' & Hp' & Hs).
  { by rewrite <- Permutation_middle. }
  { done. }
  destruct take_next_list as (Hb1 & Hb2 & _). exists T'. split_and!.
  - apply (heap_ok_free s T U _ s' _ _ ok); try done; cbn [mem pmbFree s' set_field].
    + apply take_next_dom.
    + apply take_next_rest, take_next_blocks; [set_solver- | set_solver- | apply ok].
    + rewrite app_comm_cons, Eq. apply blocks_app. exists n. split; [| apply take_next_rest; [set_solver- | done]].
      rewrite Eq in Hb1. eapply blocks_relink; [| exact Hb1]. intros y Hy.
      assert (Hin : L ++ [q] ⊆ T') by (rewrite <- Eq, Hp'; set_solver-).
      assert (HqT : q ∈ T') by (apply Hin; set_solver-).
      destruct (tiled_bounds _ _ _ _ Ht' HqT) as (_ & _ & ? & _).
      eapply (within_other T'); [exact Ht' | exact HqT | apply Hin; set_solver+ Hy | | tile_lia].
      intros E. pose proof (tiled_nodup _ _ _ Ht') as N. rewrite Hp', app_comm_cons, Eq, !fmap_app in N.
      apply NoDup_app in N as (_ & _ & N). apply NoDup_app in N as (N & _ & _). apply NoDup_app in N as (_ & D & _).
      apply (D y.1); [by apply list_elem_of_fmap_2 | rewrite <- E; by left].
  - apply (heap_step_store _ T U (f :: G1 ++ p :: G2)); try done; [apply take_next_dom |].
    intros a Ha _. destruct take_next_link as (x & Hx & Hw). cbn. unfold m2.
    rewrite lookup_insert_ne; [apply take_next_changed, Ha, take_next_start |].
    intros <-. apply (Ha x); [set_solver+ Hx | done].
  - intros N k. by apply take_next_trail.
Qed.
End TakeNext.

(** The list of free blocks after its first block took part. *)
Lemma next_head (G1 : list block) p G2 : exists g G, G1 ++ p :: G2 = g :: G ++ G2.
Proof. destruct G1 as [| g G1]; [by exists p, [] |]. exists g, (G1 ++ [p]). by rewrite <- app_assoc. Qed.

Lemma wp_take_head {A} (K : ST (os2 V) A) s T U f G1 p G2 n Q :
  heap_ok s T U (f :: G1 ++ p :: G2) -> f.1 = p.1 + span p -> header (mem s) f n ->
  wp K Q (s <| mem := <[p.1 + 4 := (joined p f).2]> (mem s) |> <| pmbFree := n |>) ->
  wp (n <- blk_size f.1;; sz <- blk_size p.1;; set_size p.1 (u32 (sz + u32 (HDR_SIZE + n)));;; remove f.1;;; K) Q s.
Proof.
  intros ok Ef Hf HQ. assert (HpF : p ∈ f :: G1 ++ p :: G2) by set_solver-. assert (HfF : f ∈ f :: G1 ++ p :: G2) by left.
  destruct (block_range ok _ (free_in ok _ HpF)) as (? & ? & ? & ? & ? & ? & ?).
  destruct (block_range ok _ (free_in ok _ HfF)) as (? & ? & ? & ? & ? & ? & ?).
  destruct (blocks_header _ _ _ _ _ (ho_free _ _ _ _ ok) HpF) as (np & Hp).
  eapply wp_bind, wp_blk_size; [lia | tile_lia | apply Hf |].
  eapply wp_bind, wp_blk_size; [lia | tile_lia | apply Hp |].
  rewrite (u32_small (HDR_SIZE + f.2)), (u32_small (p.2 + _)) by tile_lia.
  apply wp_bind, wp_set_size; [lia | tile_lia | eexists; apply Hp |].
  apply wp_bind, wp_bind, wp_field. cbn [pmbFree set_field].
  pose proof (ho_free _ _ _ _ ok) as (-> & _). rewrite Z.eqb_refl.
  eapply wp_bind, wp_blk_next; [lia | tile_lia | |].
  { cbn. rewrite lookup_insert_ne by tile_lia. apply Hf. }
  apply wp_update. exact HQ.
Qed.

Lemma wp_take_next {A} (K : ST (os2 V) A) s T U f G1 p G2 n Q :
  heap_ok s T U (f :: G1 ++ p :: G2) -> p.1 = f.1 + span f -> header (mem s) p n ->
  (forall s', (exists T', heap_ok s' T' U (joined f p :: G1 ++ G2) /\ heap_step U s s' /\
     forall N k, N <> p.1 -> trail s T N k -> trail s' T' N k) -> mem s' !! (p.1 + 8) = Some n -> blocks (mem s') n G2 NULL -> wp K Q s') ->
  wp (n <- blk_size p.1;; sz <- blk_size f.1;; set_size f.1 (u32 (sz + u32 (HDR_SIZE + n)));;; remove p.1;;; K) Q s.
Proof.
  intros ok Ep Hp HQ. destruct (take_next_start (f := f) (G1 := G1) (p := p) (G2 := G2)) as [HfF HpF].
  destruct (block_range ok _ (free_in ok _ HpF)) as (? & ? & ? & ? & ? & ? & ?).
  destruct (block_range ok _ (free_in ok _ HfF)) as (? & ? & ? & ? & ? & ? & ?).
  destruct (blocks_header _ _ _ _ _ (ho_free _ _ _ _ ok) HfF) as (nf & Hf).
  eapply wp_bind, wp_blk_size; [lia | tile_lia | apply Hp |].
  eapply wp_bind, wp_blk_size; [lia | tile_lia | apply Hf |].
  rewrite (u32_small (HDR_SIZE + p.2)), (u32_small (f.2 + _)) by tile_lia.
  apply wp_bind, wp_set_size; [lia | tile_lia | eexists; apply Hf |].
  apply wp_bind, wp_bind, wp_field. cbn [pmbFree set_field].
  pose proof (ho_free _ _ _ _ ok) as (Eh & _).
  destruct (Z.eqb_spec p.1 (pmbFree s)) as [E | _]; [rewrite Eh in E; tile_lia |].
  destruct (list_snoc_or_nil (joined f p :: G1)) as [| (L & q & Eq)]; [done |].
  destruct (take_next_list ok Hp) as (Hb1 & Hb2 & Hp').
  pose proof (take_next_fresh ok) as [_ N]. rewrite fmap_cons in N. apply NoDup_cons in N as [N _].
  rewrite app_comm_cons, fmap_app in N.
  rewrite Eq in Hb1. eapply (wp_remove_loop p n _ _ _ L q); [exact Hb1 | exact Hp' | lia | tile_lia | | | |].
  - intros x Hx. rewrite <- Eq in Hx. apply elem_of_cons in Hx as [-> | Hx]; [unfold joined; tile_lia |].
    assert (HxF : x ∈ f :: G1 ++ p :: G2) by set_solver+ Hx.
    pose proof (block_range ok _ (free_in ok _ HxF)). tile_lia.
  - rewrite <- Eq. intros Hin. apply N. apply elem_of_app. by left.
  - pose proof (heap_fuel_enough _ _ _ _ ok) as Hfu. apply (f_equal length) in Eq.
    rewrite length_app in Eq. cbn [length] in *. rewrite length_app in Hfu. lia.
  - match goal with |- wp K Q ?st =>
      change st with (s <| mem := <[q.1 + 8 := n]> (<[f.1 + 4 := (joined f p).2]> (mem s)) |>) end.
    apply HQ; [exact (take_next ok Ep Hp Eq) | | apply (take_next_rest ok Hp Eq); [set_solver- | done]].
    cbn. rewrite lookup_insert_ne; [apply Hp' |]. intros E. apply N, elem_of_app. left.
    replace p.1 with q.1 by lia. apply (take_next_last ok Hp Eq).
Qed.

Lemma wp_compact_loop N k U : forall fuel i s T f G1 G2 c Q,
  heap_ok s T U (f :: G1 ++ G2) -> blocks (mem s) c G2 NULL -> N ∉ G2.*1 -> trail s T N k ->
  (length G2 < fuel)%nat -> (forall i' s', compacted s U N k s' -> Q i' s') -> wp (compact_loop fuel i c) Q s.
Proof.
  induction fuel as [| fuel IH]; intros i s T f G1 G2 c Q ok Hb HN Htr Hl HQ; [lia |]. cbn [compact_loop].
  destruct G2 as [| p G2]; cbn [blocks length] in Hb, Hl.
  { subst c. cbn. apply HQ. exists T, (f :: G1 ++ []). split_and!; [done | apply heap_step_refl | done]. }
  destruct Hb as (-> & np & Hp & Hb). rewrite fmap_cons in HN. apply not_elem_of_cons in HN as [HNp HN].
  destruct (take_next_start (f := f) (G1 := G1) (p := p) (G2 := G2)) as [HfF HpF].
  destruct (block_range ok _ (free_in ok _ HpF)) as (? & ? & ? & ? & ? & ? & ?).
  destruct (block_range ok _ (free_in ok _ HfF)) as (? & ? & ? & ? & ? & ? & ?).
  pose proof (ho_free _ _ _ _ ok) as (Eh & nf & Hf & _).
  destruct (Z.eqb_spec p.1 NULL) as [E | _]; [unfold NULL in E; lia |].
  apply wp_bind, wp_field. rewrite Eh. eapply wp_bind, wp_after; [lia | lia | lia | exact Hp |].
  destruct (Z.eqb_spec (p.1 + span p) f.1) as [Ef | _].
  - eapply wp_take_head; [exact ok | done | exact Hf |].
    destruct (take_head ok (eq_sym Ef) Hf) as (T' & ok' & St & Htr'). apply Htr' in Htr.
    set (s1 := _ <| pmbFree := nf |>) in *. clearbody s1.
    assert (Hnext : exists n', header (mem s1) (joined p f) n' /\ blocks (mem s1) n' G2 NULL).
    { pose proof (ho_free _ _ _ _ ok') as Hf'. apply blocks_app in Hf' as (? & _ & _ & n' & ?). eauto. }
    destruct Hnext as (n' & Hh & Hb').
    destruct (i + 1 =? 2).
    + apply wp_ret, HQ. exists T', (G1 ++ joined p f :: G2). done.
    + eapply wp_bind, (wp_blk_next p.1 n'); [lia | tile_lia | apply Hh |].
      destruct (next_head G1 (joined p f) G2) as (g & G & EG). rewrite EG in ok'.
      eapply (IH _ _ _ g G G2); try done; [lia |].
      intros i' s' Hc. apply HQ. by eapply compacted_trans.
  - eapply wp_bind, wp_after; [lia | lia | lia | exact Hf |].
    destruct (Z.eqb_spec (f.1 + span f) p.1) as [Ep | _].
    + eapply wp_take_next; [exact ok | done | exact Hp |].
      intros s1 (T' & ok' & St & Htr') Hn Hb1. apply (Htr' _ _ HNp) in Htr.
      destruct (i + 1 =? 2); [apply wp_ret, HQ; by exists T', (joined f p :: G1 ++ G2) |].
      eapply wp_bind, (wp_blk_next p.1 np); [lia | tile_lia | done |].
      eapply (IH _ _ _ (joined f p) G1 G2); try done; [lia |].
      intros i' s' Hc. apply HQ. by eapply compacted_trans.
    + eapply wp_bind, wp_blk_next; [lia | tile_lia | apply Hp |].
      eapply (IH _ _ _ f (G1 ++ [p]) G2); try done; [by rewrite <- app_assoc | lia].
Qed.

Lemma wp_compact s T U f G Q :
  heap_ok s T U (f :: G) -> (forall s', compacted s U f.1 (length G) s' -> Q tt s') -> wp compact Q s.
Proof.
  intros ok HQ. assert (HfF : f ∈ f :: G) by left.
  destruct (block_range ok _ (free_in ok _ HfF)) as (? & ? & ? & ? & ? & ? & ?).
  pose proof (ho_free _ _ _ _ ok) as (Eh & n & Hf & Hb).
  apply wp_bind, wp_field. rewrite Eh. eapply wp_bind, wp_blk_next; [lia | tile_lia | apply Hf |].
  apply wp_bind. eapply (wp_compact_loop f.1 (length G) U _ _ _ T f [] G); [exact ok | exact Hb | | | |].
  - pose proof (starts_nodup ok) as N. rewrite fmap_app in N. apply NoDup_app in N as (_ & _ & N).
    by apply NoDup_cons in N as [? _].
  - exists (G.*1). split_and!; [| | by rewrite length_fmap].
    + pose proof (blocks_links (mem s) (pmbFree s) (f :: G)) as Hl. rewrite Eh in Hl. apply Hl.
      * intros x Hx. apply (free_in ok), (block_range ok) in Hx. unfold NULL. lia.
      * rewrite <- Eh. apply ok.
    + intros c (x & -> & Hx)%(list_elem_of_fmap fst (f :: G)). apply sited_start; [by apply (free_in ok) |].
      apply (free_in ok), (block_range ok) in Hx. split; apply Hx.
  - pose proof (heap_fuel_enough _ _ _ _ ok). cbn in *. lia.
  - intros i s' (T' & F' & ok' & St & Htr). apply wp_update, HQ. exists T', F'. split_and!.
    + split; apply ok'.
    + eapply heap_step_trans; [exact St |]. by apply heap_step_same.
    + exact Htr.
Qed.

(** A block leaves the list of used blocks: its predecessor takes its link. *)
Section Release.
Context {s T U1 x U2 F} (ok : heap_ok s T (U1 ++ x :: U2) F).
Context {n : Z} (Hx : header (mem s) x n).

Definition bypassed (m : gmap Z Z) (a : Z) : Prop :=
  U1 = [] /\ m = mem s /\ a = n \/
  exists L q, U1 = L ++ [q] /\ m = <[q.1 + 8 := n]> (mem s) /\ a = pmbUsed s.

Lemma release_start : x ∈ U1 ++ x :: U2.
Proof. set_solver-. Qed.

Lemma release_fresh : NoDup (x :: U1 ++ U2 ++ F).*1.
Proof.
  pose proof (starts_nodup ok) as N. by rewrite <- app_assoc, <- app_comm_cons, <- Permutation_middle in N.
Qed.

Lemma blocks_link l b c m y w :
  l ⊆ T -> y ∈ T -> y.1 ∉ l.*1 -> blocks m b l c -> blocks (<[y.1 + 8 := w]> m) b l c.
Proof.
  intros Hl Hy Hn. eapply blocks_changed; [apply ok | done | exact Hy | exact Hn |].
  intros d Hd. apply lookup_insert_ne. pose proof (block_range ok _ Hy). tile_lia.
Qed.

Lemma release_in : U1 ⊆ T /\ U2 ⊆ T /\ F ⊆ T /\ x ∈ T.
Proof.
  split_and!; [intros y Hy | intros y Hy | apply (free_in ok) | apply (used_in ok), release_start];
    apply (used_in ok); set_solver+ Hy.
Qed.

Lemma release_lists m a : bypassed m a ->
  blocks m a (U1 ++ U2) NULL /\ blocks m (pmbFree s) F NULL /\ header m x n /\ dom m = dom (mem s) /\
  (forall b, (forall y, y ∈ U1 ++ x :: U2 -> ~ (y.1 <= b < y.1 + HDR_SIZE)) -> m !! b = mem s !! b).
Proof.
  destruct release_in as (I1 & I2 & I3 & I4). pose proof release_fresh as N.
  pose proof (ho_used _ _ _ _ ok) as Hb. apply blocks_app in Hb as (c & Hb1 & -> & n' & Hx' & Hb2).
  assert (n' = n) as -> by (destruct Hx, Hx'; congruence).
  intros [(E & -> & ->) | (L & q & E & -> & ->)]; [subst U1; split_and!; try done; apply ok |].
  assert (HqU : q ∈ U1) by (rewrite E; set_solver-). assert (HqT : q ∈ T) by auto.
  assert (Hq : q.1 ∉ (x :: U2 ++ F).*1 /\ q.1 ∉ L.*1).
  { assert (Hp : (x :: U1 ++ U2 ++ F) ≡ₚ q :: (L ++ x :: U2 ++ F)).
    { rewrite E, <- app_assoc. cbn [app].
      rewrite <- (Permutation_middle L (U2 ++ F) q), <- (Permutation_middle L (U2 ++ F) x). apply perm_swap. }
    rewrite Hp in N. rewrite fmap_cons in N. apply NoDup_cons in N as [N _]. rewrite fmap_app in N.
    apply not_elem_of_app in N. tauto. }
  destruct Hq as [Hq1 Hq2]. rewrite fmap_cons, fmap_app in Hq1.
  apply not_elem_of_cons in Hq1 as [Hqx Hq1]. apply not_elem_of_app in Hq1 as [Hqu Hqf].
  rewrite E in Hb1. split_and!.
  - rewrite E. apply blocks_app. exists n. split; [| by apply blocks_link].
    eapply blocks_relink; [| exact Hb1]. intros y Hy. pose proof (block_range ok _ HqT).
    assert (HyT : y ∈ T) by (apply I1; rewrite E; set_solver+ Hy).
    eapply (within_other T); [apply ok | exact HqT | exact HyT | | tile_lia].
    intros Ey. apply Hq2. rewrite Ey. by apply list_elem_of_fmap_2.
  - apply blocks_link; try done. apply ok.
  - assert (Hs : blocks (<[q.1 + 8 := n]> (mem s)) x.1 [x] n).
    { apply blocks_link; [set_solver+ I4 | done | set_solver+ Hqx |]. split; [done |]. by exists n. }
    destruct Hs as (_ & n1 & Hh & ->). done.
  - apply dom_insert_lookup_L. apply blocks_app in Hb1 as (c & _ & _ & nq & [] & _). eauto.
  - intros b Hb. apply lookup_insert_ne. intros <-. apply (Hb q); [set_solver+ HqU | unfold HDR_SIZE; lia].
Qed.

Lemma release_ok m a s' :
  bypassed m a -> same_registers s s' -> pmbUsed s' = a -> pmbFree s' = x.1 ->
  uMemFree s' = u32 (uMemFree s + u32 (x.2 + HDR_SIZE)) -> mem s' = <[x.1 + 8 := pmbFree s]> m ->
  heap_ok s' T (U1 ++ U2) (x :: F) /\ heap_step (U1 ++ U2) s s'.
Proof.
  intros Hm Hs Eu Ef Ec Em. destruct (release_lists m a Hm) as (Hu & Hf & Hh & Hd & Hsame).
  destruct release_in as (I1 & I2 & I3 & I4). pose proof release_fresh as N.
  rewrite fmap_cons, app_assoc, fmap_app in N. apply NoDup_cons in N as [N _]. apply not_elem_of_app in N as [Nu Nf].
  assert (Hd' : dom (mem s') = dom (mem s)) by (rewrite Em, <- Hd; apply dom_insert_lookup_L; eexists; apply Hh).
  destruct Hs as (Ea & ?). split.
  - split; rewrite ?Ea, ?Eu, ?Ef, ?Ec; try apply ok.
    + rewrite (ho_perm _ _ _ _ ok). rewrite <- !app_assoc, <- !app_comm_cons. by rewrite <- !Permutation_middle.
    + rewrite Em. apply blocks_link; [set_solver+ I1 I2 | done | done | done].
    + rewrite Em. split; [done |]. exists (pmbFree s). split; [| by apply blocks_link].
      destruct Hh. split; rewrite ?lookup_insert_eq, ?lookup_insert_ne by lia; done.
    + intros b Hb H4. rewrite <- elem_of_dom, Hd', elem_of_dom. by apply ok.
    + rewrite (ho_count _ _ _ _ ok). unfold u32. rewrite Z.add_mod_idemp_l, Z.add_mod_idemp_r by lia.
      f_equal. cbn [total foldr]. fold (total F). tile_lia.
  - apply (heap_step_store _ T (U1 ++ x :: U2) F); [done | set_solver- | by split | done |].
    intros b _ Hb. rewrite Em, lookup_insert_ne; [by apply Hsame |]. intros <-.
    apply (Hb x release_start). unfold HDR_SIZE. lia.
Qed.
End Release.

(** ** Freeing *)

Definition released s U s' : Prop := exists T' F', heap_ok s' T' U F' /\ heap_step U s s'.

(** The rest of the walk, among blocks that are free already. *)
Lemma wp_free_walk b : forall fuel l q a s (Q : unit -> os2 V -> Prop),
  links (mem s) a l -> b ∉ l -> (forall c, c ∈ l -> 0 <= c /\ c + HDR_SIZE <= UINT_MAX) -> (length l < fuel)%nat ->
  Q tt s -> wp (free_loop fuel b q a) Q s.
Proof.
  induction fuel as [| fuel IH]; intros l q a s Q Hl Hb Hr Hk HQ; [lia |]. cbn [free_loop].
  destruct l as [| c l]; cbn [links length] in Hl, Hk; [by subst a |].
  destruct Hl as (-> & Hc & n & Hn & Hl). destruct (Hr c ltac:(left)) as [? ?].
  destruct (Z.eqb_spec c NULL); [done |]. apply not_elem_of_cons in Hb as [Hbc Hb].
  destruct (Z.eqb_spec c b); [congruence |]. apply wp_bind, wp_ret.
  eapply wp_bind, wp_blk_next; [lia | done | exact Hn |].
  eapply IH; [exact Hl | done | | lia | done]. intros d Hd. apply Hr. by right.
Qed.

Section FreeBlock.
Context {s T U1 x U2 F} (ok : heap_ok s T (U1 ++ x :: U2) F).
(** The state when the block is looked for. *)
Let s1 := s <| uMemFree := u32 (uMemFree s + u32 (x.2 + HDR_SIZE)) |>.

Lemma compact_released n m a s2 :
  header (mem s) x n -> bypassed (s := s) (U1 := U1) (n := n) m a ->
  s2 = s1 <| mem := <[x.1 + 8 := pmbFree s]> m |> <| pmbUsed := a |> <| pmbFree := x.1 |> ->
  wp compact (fun _ s' => released s (U1 ++ U2) s' /\ exists T', tiled (acHeap s) T' (acHeap s + HEAP_SIZE) /\
    trail s' T' x.1 (length F)) s2.
Proof.
  intros Hx Hm ->. set (s2 := _ <| pmbFree := x.1 |>).
  destruct (release_ok ok Hx m a s2 Hm) as [ok2 St2]; try done.
  eapply wp_compact; [exact ok2 |]. intros s' (T' & F' & ok' & St & Htr). split.
  - exists T', F'. split; [done |]. by eapply heap_step_trans.
  - exists T'. split; [| done]. pose proof (ho_tiled _ _ _ _ ok') as Ht. by rewrite (hs_heap _ _ _ St) in Ht.
Qed.

Lemma wp_free_loop : forall fuel L q rest c (Q : unit -> os2 V -> Prop),
  U1 = L ++ q :: rest -> blocks (mem s) c (rest ++ x :: U2) NULL ->
  (length rest + length F + 2 < fuel)%nat -> (forall s', released s (U1 ++ U2) s' -> Q tt s') ->
  wp (free_loop fuel x.1 q.1 c) Q s1.
Proof.
  pose proof (starts_nodup ok) as N. pose proof (block_range ok x) as Rx.
  pose proof (release_start (U1 := U1) (x := x) (U2 := U2)) as HxU. apply (used_in ok) in HxU as HxT.
  destruct (Rx HxT) as (? & ? & ? & ? & ? & ? & ?).
  induction fuel as [| fuel IH]; intros L q rest c Q E Hb Hk HQ; [lia |]. cbn [free_loop].
  assert (HqT : q ∈ T) by (apply (used_in ok); rewrite E; set_solver-).
  destruct (block_range ok _ HqT) as (? & ? & ? & ? & ? & ? & ?).
  destruct rest as [| y rest]; cbn [app blocks length] in Hb, Hk.
  - destruct Hb as (-> & n & Hx & Hb). destruct (Z.eqb_spec x.1 NULL) as [En | _]; [unfold NULL in En; lia |].
    rewrite Z.eqb_refl. cbn [when]. apply wp_bind.
    assert (Hbp : bypassed (s := s) (U1 := U1) (n := n) (<[q.1 + 8 := n]> (mem s)) (pmbUsed s)) by (right; by exists L, q).
    destruct (release_lists ok Hx _ _ Hbp) as (_ & _ & Hh & Hd & _).
    assert (Hq8 : is_Some (mem s !! (q.1 + 8))).
    { apply (word_mapped ok q); [done | tile_lia | Z.div_mod_to_equations; lia]. }
    eapply wp_bind, wp_blk_next; [lia | tile_lia | apply Hx |].
    apply wp_bind, wp_set_next; [lia | tile_lia | done |].
    apply wp_bind, wp_field. apply wp_bind, wp_set_next; [lia | tile_lia | eexists; apply Hh |].
    apply wp_bind, wp_update.
    eapply wp_mono; [eapply (compact_released n _ (pmbUsed s)); [exact Hx | exact Hbp | reflexivity] |].
    intros _ s' [Hr (T' & Ht' & l & Hl & Hs & Hlen)]. pose proof Hl as (_ & _ & n' & Hn' & Hl').
    eapply wp_bind, wp_blk_next; [lia | tile_lia | exact Hn' |].
    eapply wp_free_walk; [exact Hl' | | | lia | by apply HQ].
    + apply links_nodup in Hl. by apply NoDup_cons in Hl as [? _].
    + intros c Hc. destruct (Hs c ltac:(by right)) as (z & Hz & ? & ?).
      destruct (tiled_bounds _ _ _ _ Ht' Hz) as (? & ? & _).
      pose proof (ho_low _ _ _ _ ok). pose proof (ho_high _ _ _ _ ok). lia.
  - destruct Hb as (-> & n & Hy & Hb).
    assert (HyU : y ∈ U1) by (rewrite E; set_solver-).
    destruct (block_range ok y) as (? & ? & ? & ? & ? & _); [apply (used_in ok); set_solver+ HyU |].
    destruct (Z.eqb_spec y.1 NULL) as [En | _]; [unfold NULL in En; lia |].
    destruct (Z.eqb_spec y.1 x.1) as [Exy | _].
    { exfalso. pose proof (release_fresh ok) as N'. rewrite fmap_cons in N'. apply NoDup_cons in N' as [N' _].
      apply N'. rewrite <- Exy. apply list_elem_of_fmap_2. set_solver+ HyU. }
    apply wp_bind, wp_ret. eapply wp_bind, wp_blk_next; [lia | tile_lia | apply Hy |].
    eapply (IH (L ++ [q]) y rest); [by rewrite <- app_assoc | exact Hb | lia | done].
Qed.

End FreeBlock.

Lemma released_trans s s1 s2 U : heap_step U s s1 -> released s1 U s2 -> released s U s2.
Proof. intros St (T & F & ok & St'). exists T, F. split; [done |]. by eapply heap_step_trans. Qed.

Lemma wp_free s T U1 x U2 F Q :
  heap_ok s T (U1 ++ x :: U2) F -> (forall s', released s (U1 ++ U2) s' -> Q tt s') ->
  wp (free (x.1 + HDR_SIZE)) Q s.
Proof.
  intros ok HQ. pose proof (ho_low _ _ _ _ ok).
  assert (HxU : x ∈ U1 ++ x :: U2) by apply release_start.
  destruct (block_range ok x (used_in ok _ HxU)) as (? & ? & ? & ? & ? & ? & ?).
  apply wp_bind, wp_field. destruct (Z.eqb_spec (acHeap s) NULL) as [E | _]; [unfold NULL in E; lia |].
  apply wp_bind, wp_update. set (s0 := s <| nFreeCalls := _ |>).
  assert (St : heap_step (U1 ++ U2) s s0) by by apply heap_step_same.
  assert (ok0 : heap_ok s0 T (U1 ++ x :: U2) F) by by split; apply ok.
  assert (HQ0 : forall s', released s0 (U1 ++ U2) s' -> Q tt s') by (intros s' Hr; by eapply HQ, released_trans).
  clearbody s0. clear ok HQ. pose proof (ho_used _ _ _ _ ok0) as Hu.
  destruct (blocks_header _ _ _ _ _ Hu HxU) as (n & Hx).
  destruct (Z.eqb_spec (x.1 + HDR_SIZE) NULL) as [E | _]; [unfold NULL in E; tile_lia |].
  rewrite u32_small by tile_lia. replace (x.1 + HDR_SIZE - HDR_SIZE) with x.1 by lia.
  eapply wp_bind, wp_SignatureCheck; [lia | tile_lia | done | exact Hx | intros _].
  eapply wp_bind, wp_blk_size; [lia | tile_lia | apply Hx |].
  apply wp_bind, wp_update, wp_bind, wp_field.
  change (pmbUsed (s0 <| uMemFree := u32 (uMemFree s0 + u32 (x.2 + HDR_SIZE)) |>)) with (pmbUsed s0).
  destruct U1 as [| q U1]; cbn [app blocks] in Hu.
  - destruct Hu as (Eu & n' & Hx' & Hb). assert (n' = n) as -> by (destruct Hx, Hx'; congruence).
    destruct (Z.eqb_spec x.1 (pmbUsed s0)) as [_ | E]; [| by rewrite Eu in E].
    rewrite Eu. eapply wp_bind, wp_blk_next; [lia | tile_lia | apply Hx |].
    apply wp_bind, wp_update, wp_bind, wp_field.
    apply wp_bind, wp_set_next; [lia | tile_lia | eexists; apply Hx |]. apply wp_bind, wp_update.
    eapply wp_mono; [eapply (compact_released (U1 := []) (s := s0) ok0 n (mem s0) n); [done | by left | reflexivity] |].
    intros [] s' [Hr _]. by apply HQ0.
  - destruct Hu as (Eu & n' & Hq & Hb).
    assert (HqT : q ∈ T) by (apply (used_in ok0); set_solver-).
    destruct (block_range ok0 _ HqT) as (? & ? & ? & ? & ? & _).
    destruct (Z.eqb_spec x.1 (pmbUsed s0)) as [E | _].
    { exfalso. pose proof (release_fresh ok0) as N. rewrite fmap_cons in N. apply NoDup_cons in N as [N _].
      apply N. rewrite E, Eu. by left. }
    rewrite Eu. eapply wp_bind, wp_blk_next; [lia | tile_lia | apply Hq |].
    eapply (wp_free_loop ok0 _ [] q U1); [done | exact Hb | | done].
    pose proof (heap_fuel_enough _ _ _ _ ok0) as Hf. cbn [app length] in Hf. rewrite length_app in Hf. cbn [length] in Hf. lia.
Qed.
End Free.
