(* ===== verification/Os2HeapSpec.v ===== *)
(** * Os2HeapSpec: what the heap promises its clients

    A client sees a map from the addresses it was given to the words it has there.  The
    operations of Os2Heap.v refine operations on that map. *)

From S2P Require Import Prelude Os2Heap Os2HeapSafe Os2HeapFree.
Open Scope Z_scope.
Open Scope state_scope.

(** ** The client's view *)

Abbreviation view := (gmap Z (list Z)).

Definition payload (m : gmap Z Z) (x : block) : list Z :=
  (fun i => default 0 (m !! (x.1 + HDR_SIZE + 4 * i))) <$> seqZ 0 (x.2 / 4).

Definition entry (m : gmap Z Z) (x : block) : Z * list Z := (x.1 + HDR_SIZE, payload m x).
Definition view_of (m : gmap Z Z) (U : list block) : view := list_to_map (entry m <$> U).

(** What the blocks of a view take up, with their headers. *)
Definition footprint (A : view) : Z := map_fold (fun _ l n => HDR_SIZE + 4 * Z.of_nat (length l) + n) 0 A.

(** Byte [i] of a block. *)
Definition byte_at (l : list Z) (i : Z) : Z := (l !!! Z.to_nat (i / 4)) / 2 ^ (8 * (i mod 4)) mod 256.

Lemma length_payload m x : 0 <= x.2 -> Z.of_nat (length (payload m x)) = x.2 / 4.
Proof.
  intros. unfold payload. rewrite length_fmap, length_seqZ. pose proof (Z.div_pos x.2 4). lia.
Qed.

Lemma payload_lookup m x i : 0 <= i < x.2 / 4 ->
  payload m x !! Z.to_nat i = Some (default 0 (m !! (x.1 + HDR_SIZE + 4 * i))).
Proof.
  intros Hi. unfold payload. rewrite list_lookup_fmap, lookup_seqZ_lt by lia. cbn. do 4 f_equal. lia.
Qed.

Lemma payload_same m m' x :
  (forall a, x.1 + HDR_SIZE <= a < x.1 + span x -> m' !! a = m !! a) -> block_ok x -> payload m' x = payload m x.
Proof.
  intros E [? ?]. unfold payload. apply list_fmap_ext. intros i j Hj. apply lookup_seqZ in Hj as [-> Hi].
  rewrite E; [done |]. unfold span, HDR_SIZE. Z.div_mod_to_equations. lia.
Qed.

Section Spec.
Context {V : Type} `{KernelVM V}.
Implicit Types (s : os2 V) (A : view) (T U F : list block) (x y : block).

Definition heap_rep s A : Prop := exists T U F, heap_ok s T U F /\ A = view_of (mem s) U.

Lemma view_keys m U : NoDup U.*1 -> NoDup (entry m <$> U).*1.
Proof.
  intros N. rewrite <- list_fmap_compose.
  replace ((fst ∘ entry m) <$> U) with ((fun a => a + HDR_SIZE) <$> U.*1) by (by rewrite <- list_fmap_compose).
  apply NoDup_fmap_2; [intros ? ? ?; lia | done].
Qed.

Lemma used_nodup s T U F : heap_ok s T U F -> NoDup U.*1.
Proof. intros ok. pose proof (starts_nodup ok) as N. rewrite fmap_app in N. by apply NoDup_app in N as [? _]. Qed.

Lemma view_lookup s T U F p l :
  heap_ok s T U F -> view_of (mem s) U !! p = Some l <-> exists x, x ∈ U /\ p = x.1 + HDR_SIZE /\ l = payload (mem s) x.
Proof.
  intros ok. unfold view_of. rewrite <- elem_of_list_to_map by by eapply view_keys, used_nodup.
  rewrite list_elem_of_fmap. unfold entry. split; [intros (x & E & ?) | intros (x & ? & -> & ->)]; [| eauto].
  injection E as -> ->. eauto.
Qed.

Lemma view_step s s' T U U' F :
  heap_ok s T U F -> U' ⊆ U -> heap_step U' s s' -> view_of (mem s') U' = view_of (mem s) U'.
Proof.
  intros ok HU St. unfold view_of. f_equal. apply list_fmap_ext. intros i x Hx.
  apply list_elem_of_lookup_2 in Hx. unfold entry. f_equal. apply payload_same.
  - intros a Ha. eapply hs_data; eauto.
  - apply HU, (used_in ok), (block_range ok) in Hx. split; apply Hx.
Qed.

Lemma footprint_insert A p l : A !! p = None ->
  footprint (<[p := l]> A) = HDR_SIZE + 4 * Z.of_nat (length l) + footprint A.
Proof. intros Hp. unfold footprint. rewrite map_fold_insert_L; [done | | done]. intros; lia. Qed.

Lemma footprint_view m U : NoDup U.*1 -> Forall block_ok U -> footprint (view_of m U) = total U.
Proof.
  induction U as [| x U IH]; [done |]. rewrite fmap_cons. intros [N1 N2]%NoDup_cons [[? ?] Hf]%Forall_cons.
  unfold view_of. rewrite fmap_cons. cbn [list_to_map foldr entry curry fst snd]. rewrite footprint_insert.
  - rewrite length_payload by lia. change (list_to_map _) with (view_of m U). rewrite IH by done.
    cbn [total foldr]. fold (total U). unfold span. Z.div_mod_to_equations. lia.
  - apply not_elem_of_list_to_map_1. rewrite <- list_fmap_compose. intros (y & Ey & Hy)%list_elem_of_fmap.
    cbn in Ey. apply N1. replace x.1 with y.1 by lia. by apply list_elem_of_fmap_2.
Qed.

Lemma blocks_all_ok s T U F : heap_ok s T U F -> Forall block_ok U.
Proof. intros ok. apply Forall_forall. intros x Hx%(used_in ok)%(block_range ok). split; apply Hx. Qed.

(** A heap whose blocks do not fill it has a free block. *)
Lemma free_left s T U F : heap_ok s T U F -> footprint (view_of (mem s) U) < HEAP_SIZE -> F <> [].
Proof.
  intros ok Hf ->. rewrite footprint_view in Hf by (by eapply used_nodup || by eapply blocks_all_ok).
  pose proof (total_tiled _ _ _ (ho_tiled _ _ _ _ ok)) as E. rewrite (ho_perm _ _ _ _ ok), app_nil_r in E. lia.
Qed.

(** ** Writing in a block *)

Lemma blocks_payload s T U F y m :
  heap_ok s T U F -> y ∈ U -> (forall a, ~ (y.1 + HDR_SIZE <= a < y.1 + span y) -> m !! a = mem s !! a) ->
  forall l b c, l ⊆ T -> blocks (mem s) b l c -> blocks m b l c.
Proof.
  intros ok Hy Hm l b c Hl. apply blocks_frame. intros x d Hx Hd. apply Hm. intros Hd'.
  apply Hl in Hx. destruct (tiled_sep _ _ _ _ _ (ho_tiled _ _ _ _ ok) Hx (used_in ok _ Hy)) as [-> | Hs]; [lia |].
  pose proof (block_range ok _ Hx). pose proof (block_range ok _ (used_in ok _ Hy)). tile_lia.
Qed.

Lemma payload_ok s T U F y m :
  heap_ok s T U F -> y ∈ U -> (forall a, ~ (y.1 + HDR_SIZE <= a < y.1 + span y) -> m !! a = mem s !! a) ->
  dom m = dom (mem s) -> heap_ok (s <| mem := m |>) T U F.
Proof.
  intros ok Hy Hm Hd. pose proof (blocks_payload _ _ _ _ _ _ ok Hy Hm) as Hb. split; try apply ok; cbn.
  - apply Hb; [apply (used_in ok) | apply ok].
  - apply Hb; [apply (free_in ok) | apply ok].
  - intros a Ha H4. rewrite <- elem_of_dom, Hd, elem_of_dom. by apply ok.
Qed.

(** The other blocks keep what they hold. *)
Lemma payload_other s T U F y m x :
  heap_ok s T U F -> y ∈ U -> (forall a, ~ (y.1 + HDR_SIZE <= a < y.1 + span y) -> m !! a = mem s !! a) ->
  x ∈ U -> x <> y -> payload m x = payload (mem s) x.
Proof.
  intros ok Hy Hm Hx N. pose proof (block_range ok _ (used_in ok _ Hx)). apply payload_same; [| split; lia].
  intros a Ha. apply Hm. intros Hd.
  destruct (tiled_sep _ _ _ _ _ (ho_tiled _ _ _ _ ok) (used_in ok _ Hx) (used_in ok _ Hy)) as [E | Hs]; [done |].
  tile_lia.
Qed.

Lemma view_cons m y U : view_of m (y :: U) = <[y.1 + HDR_SIZE := payload m y]> (view_of m U).
Proof. done. Qed.

Lemma view_perm m U U' : NoDup U.*1 -> U ≡ₚ U' -> view_of m U = view_of m U'.
Proof.
  intros N E. unfold view_of. apply list_to_map_proper; [by apply view_keys |]. by rewrite E.
Qed.

Lemma view_ext m m' U : (forall x, x ∈ U -> payload m' x = payload m x) -> view_of m' U = view_of m U.
Proof.
  intros E. unfold view_of. f_equal. apply list_fmap_ext. intros i x Hx%list_elem_of_lookup_2.
  unfold entry. by rewrite E.
Qed.

Lemma view_delete s T U1 x U2 F :
  heap_ok s T (U1 ++ x :: U2) F -> view_of (mem s) (U1 ++ U2) = delete (x.1 + HDR_SIZE) (view_of (mem s) (U1 ++ x :: U2)).
Proof.
  intros ok. pose proof (used_nodup _ _ _ _ ok) as N. rewrite (view_perm _ _ (x :: U1 ++ U2) N) by by rewrite Permutation_middle.
  rewrite view_cons, delete_insert_id; [done |].
  rewrite <- Permutation_middle, fmap_cons in N. apply NoDup_cons in N as [N _].
  unfold view_of. apply not_elem_of_list_to_map_1. rewrite <- list_fmap_compose. intros (y & Ey & Hy)%list_elem_of_fmap.
  cbn in Ey. apply N. replace x.1 with y.1 by lia. by apply list_elem_of_fmap_2.
Qed.

(** Writing in the block [y] changes its entry only. *)
Lemma view_write s T U F y m :
  heap_ok s T U F -> y ∈ U -> (forall a, ~ (y.1 + HDR_SIZE <= a < y.1 + span y) -> m !! a = mem s !! a) ->
  view_of m U = <[y.1 + HDR_SIZE := payload m y]> (view_of (mem s) U).
Proof.
  intros ok Hy Hm. pose proof (used_nodup _ _ _ _ ok) as N.
  apply list_elem_of_split in Hy as HU. destruct HU as (U1 & U2 & E).
  assert (P : U ≡ₚ y :: U1 ++ U2) by (rewrite E; by rewrite Permutation_middle).
  rewrite (view_perm m _ _ N P), (view_perm (mem s) _ _ N P), !view_cons, insert_insert_eq. f_equal.
  apply view_ext. intros x Hx. eapply payload_other; try done; [rewrite P; by right |].
  intros ->. rewrite P, fmap_cons in N. apply NoDup_cons in N as [N _]. apply N. by apply list_elem_of_fmap_2.
Qed.

(** ** Copying *)

Lemma wp_copy_words : forall n dst src s (Q : unit -> os2 V -> Prop),
  0 <= dst -> dst + 4 * Z.of_nat n <= UINT_MAX -> 0 <= src -> src + 4 * Z.of_nat n <= UINT_MAX ->
  (forall i, 0 <= i < Z.of_nat n -> is_Some (mem s !! (dst + 4 * i)) /\ is_Some (mem s !! (src + 4 * i))) ->
  (src + 4 * Z.of_nat n <= dst \/ dst + 4 * Z.of_nat n <= src) ->
  (forall m, dom m = dom (mem s) -> (forall a, ~ (dst <= a < dst + 4 * Z.of_nat n) -> m !! a = mem s !! a) ->
     (forall i, 0 <= i < Z.of_nat n -> m !! (dst + 4 * i) = mem s !! (src + 4 * i)) ->
     Q tt (s <| mem := m |>)) ->
  wp (copy_words n dst src) Q s.
Proof.
  induction n as [| n IH]; intros dst src s Q Hd0 Hd1 Hs0 Hs1 Hm Hsep HQ; cbn [copy_words].
  { apply wp_ret. replace s with (s <| mem := mem s |>) by by destruct s. apply HQ; [done | done | lia]. }
  destruct (Hm 0 ltac:(lia)) as [Hd [w Hw]]. rewrite !Z.add_0_r in Hd, Hw.
  eapply wp_bind, wp_load; [exact Hw |]. apply wp_bind, wp_store; [done |].
  rewrite !u32_small by range_lia. apply IH; try lia.
  - intros i Hi. destruct (Hm (i + 1) ltac:(lia)) as [? ?]. cbn.
    replace (dst + 4 + 4 * i) with (dst + 4 * (i + 1)) by lia. replace (src + 4 + 4 * i) with (src + 4 * (i + 1)) by lia.
    rewrite !lookup_insert_ne by lia. done.
  - intros m Hdm Hsame Hcopy. cbn in Hdm, Hsame, Hcopy. apply (HQ m).
    + by rewrite Hdm, dom_insert_lookup_L.
    + intros a Ha. rewrite Hsame by lia. apply lookup_insert_ne. lia.
    + intros i Hi. destruct (Z.eq_dec i 0) as [-> | N].
      * rewrite !Z.add_0_r, Hsame, lookup_insert_eq by lia. done.
      * replace (dst + 4 * i) with (dst + 4 + 4 * (i - 1)) by lia. rewrite Hcopy by lia.
        rewrite lookup_insert_ne by lia. f_equal. lia.
Qed.

Lemma low_bytes_splice k w old j :
  0 <= j < k -> k < 4 ->
  (old - low_bytes k old + low_bytes k w) / 2 ^ (8 * j) mod 256 = w / 2 ^ (8 * j) mod 256.
Proof.
  intros Hj Hk. unfold low_bytes.
  assert (E : 2 ^ (8 * k) = 2 ^ (8 * j) * (256 * 2 ^ (8 * (k - j - 1)))).
  { change 256 with (2 ^ 8). rewrite <- !Z.pow_add_r by lia. f_equal. lia. }
  assert (0 < 2 ^ (8 * j)) by (apply Z.pow_pos_nonneg; lia).
  assert (0 < 2 ^ (8 * (k - j - 1))) by (apply Z.pow_pos_nonneg; lia).
  set (a := 2 ^ (8 * j)) in *. set (b := 2 ^ (8 * (k - j - 1))) in *.
  assert (G : forall z u, z = w + (a * (256 * b)) * u -> z / a mod 256 = w / a mod 256).
  { intros z u ->. replace (w + a * (256 * b) * u) with (w + (256 * b * u) * a) by lia.
    rewrite Z_div_plus_full by lia. replace (256 * b * u) with (b * u * 256) by lia. apply Z_mod_plus_full. }
  eapply (G _ (old / (a * (256 * b)) - w / (a * (256 * b)))). rewrite E.
  pose proof (Z_div_mod_eq_full old (a * (256 * b))). pose proof (Z_div_mod_eq_full w (a * (256 * b))). nia.
Qed.

(** Byte [i] of memory from [a]. *)
Definition mem_byte (m : gmap Z Z) (a i : Z) : Z := default 0 (m !! (a + 4 * (i / 4))) / 2 ^ (8 * (i mod 4)) mod 256.

Lemma wp_memcpy dst src n s (Q : unit -> os2 V -> Prop) :
  0 <= n -> 0 <= dst -> dst + n <= UINT_MAX -> 0 <= src -> src + n <= UINT_MAX ->
  (forall i, 0 <= i -> 4 * i < n -> is_Some (mem s !! (dst + 4 * i)) /\ is_Some (mem s !! (src + 4 * i))) ->
  (src + n + 3 < dst \/ dst + n + 3 < src) ->
  (forall m, dom m = dom (mem s) -> (forall a, ~ (dst <= a < dst + n) -> m !! a = mem s !! a) ->
     (forall i, 0 <= i < n -> mem_byte m dst i = mem_byte (mem s) src i) -> Q tt (s <| mem := m |>)) ->
  wp (memcpy dst src n) Q s.
Proof.
  intros Hn Hd0 Hd1 Hs0 Hs1 Hm Hsep HQ.
  assert (D : n = 4 * (n / 4) + n mod 4 /\ 0 <= n mod 4 < 4) by (Z.div_mod_to_equations; lia). destruct D as [D1 D2].
  assert (0 <= n / 4) by (apply Z.div_pos; lia).
  apply wp_bind, wp_copy_words; try lia; [intros i Hi; apply Hm; lia |].
  rewrite Z2Nat.id by lia. intros m Hdm Hsame Hcopy.
  assert (Hbytes : forall m', (forall a, dst <= a < dst + 4 * (n / 4) -> m' !! a = m !! a) ->
    forall i, 0 <= i < 4 * (n / 4) -> mem_byte m' dst i = mem_byte (mem s) src i).
  { intros m' Hm' i Hi. unfold mem_byte. rewrite Hm', Hcopy by (Z.div_mod_to_equations; lia). done. }
  cbv zeta. destruct (Z.eqb_spec (n mod 4) 0) as [E | E].
  { apply wp_ret, HQ; [done | intros a Ha; apply Hsame; lia |]. intros i Hi. apply Hbytes; [done | lia]. }
  rewrite (u32_small (dst + _)), (u32_small (src + _)) by range_lia.
  replace (n - n mod 4) with (4 * (n / 4)) by lia.
  destruct (Hm (n / 4) ltac:(lia) ltac:(lia)) as [[old Hold] [w Hw]].
  eapply wp_bind, (wp_load _ w); [cbn; by rewrite Hsame by lia |].
  eapply wp_bind, (wp_load _ old); [cbn; by rewrite Hsame by lia |].
  apply wp_store; [cbn; rewrite Hsame by lia; eauto |].
  apply (HQ (<[dst + 4 * (n / 4) := old - low_bytes (n mod 4) old + low_bytes (n mod 4) w]> m)).
  - rewrite dom_insert_lookup_L; [done |]. rewrite Hsame by lia. eauto.
  - intros a Ha. rewrite lookup_insert_ne by lia. apply Hsame. lia.
  - intros i Hi. destruct (Z.lt_ge_cases i (4 * (n / 4))).
    + apply Hbytes; [| lia]. intros a Ha. apply lookup_insert_ne. lia.
    + assert (Ei : i / 4 = n / 4) by (Z.div_mod_to_equations; lia).
      unfold mem_byte. rewrite Ei, lookup_insert_eq, Hw. cbn [default id].
      apply low_bytes_splice; Z.div_mod_to_equations; lia.
Qed.

Lemma mem_byte_payload m x i : 0 <= i < 4 * (x.2 / 4) ->
  byte_at (payload m x) i = mem_byte m (x.1 + HDR_SIZE) i.
Proof.
  intros Hi. unfold byte_at, mem_byte. f_equal. f_equal.
  apply list_lookup_total_correct. rewrite payload_lookup by (Z.div_mod_to_equations; lia). done.
Qed.

(** ** The refinement *)

(** What a client does: the calls, and reading and writing its words. *)
Inductive heap_call :=
| Malloc (n : Z) | Realloc (p n : Z) | Free (p : Z) | Peek (p i : Z) | Poke (p i w : Z).

Definition run_call (c : heap_call) : ST (os2 V) Z :=
  match c with
  | Malloc n => malloc n
  | Realloc p n => realloc p n
  | Free p => free p;;; ret 0
  | Peek p i => load (p + 4 * i)
  | Poke p i w => store (p + 4 * i) w;;; ret 0
  end.

(** A client names only blocks it owns, and words inside them.  To allocate, something of
    the heap must be left. *)
Definition may_call A (c : heap_call) : Prop :=
  match c with
  | Malloc n => 0 <= n /\ footprint A < HEAP_SIZE
  | Realloc p n => 0 <= n /\ (p = NULL \/ is_Some (A !! p)) /\ footprint A < HEAP_SIZE
  | Free p => p = NULL \/ is_Some (A !! p)
  | Peek p i | Poke p i _ => exists l, A !! p = Some l /\ 0 <= i < Z.of_nat (length l)
  end.

(** A new block of at least [n] bytes, and at most 15 more, or nothing. *)
Definition gives A (n r : Z) (A' : view) : Prop :=
  r = NULL /\ A' = A \/
  r <> NULL /\ r mod 4 = 0 /\ A !! r = None /\ exists l, (0 < n /\ n <= 4 * Z.of_nat (length l) <= n + 15) /\ A' = <[r := l]> A.

Definition call_spec A (c : heap_call) (r : Z) (A' : view) : Prop :=
  match c with
  | Malloc n => gives A n r A'
  | Realloc p n =>
      if decide (p = NULL) then gives A n r A'
      else if decide (n = 0) then r = NULL /\ A' = delete p A
      else r = NULL /\ A' = A \/
        exists l l', A !! p = Some l /\ r <> NULL /\ r mod 4 = 0 /\ A !! r = None /\ n <= 4 * Z.of_nat (length l') <= n + 15 /\
          (forall i, 0 <= i < Z.min (4 * Z.of_nat (length l)) n -> byte_at l' i = byte_at l i) /\
          A' = delete p (<[r := l']> A)
  | Free p => r = 0 /\ A' = delete p A
  | Peek p i => (exists l, A !! p = Some l /\ l !! Z.to_nat i = Some r) /\ A' = A
  | Poke p i w => r = 0 /\ exists l, A !! p = Some l /\ A' = <[p := <[Z.to_nat i := w]> l]> A
  end.

(** A step of the heap that leaves the rest of the world alone and shows the view [A']. *)
Definition heap_shows s s' A' : Prop := heap_step [] s s' /\ heap_rep s' A'.

Lemma shows_step s s' T U F :
  heap_ok s' T U F -> heap_step [] s s' -> heap_shows s s' (view_of (mem s') U).
Proof. intros ok St. split; [done |]. by exists T, U, F. Qed.

(** A fresh block [y] at [p] of at least [n] bytes. *)
Record fresh s U (n p : Z) y s' : Prop := {
  fr_ok : exists T F, heap_ok s' T (y :: U) F;
  fr_step : heap_step U s s';
  fr_ptr : p = y.1 + HDR_SIZE;
  fr_size : n <= 4 * (y.2 / 4) <= n + 15;
  fr_null : p <> NULL;
  fr_align : p mod 4 = 0;
  fr_new : view_of (mem s) U !! p = None }.

Lemma fresh_view s T U F n p y s' : heap_ok s T U F -> fresh s U n p y s' ->
  view_of (mem s') (y :: U) = <[p := payload (mem s') y]> (view_of (mem s) U).
Proof.
  intros ok [_ St -> _ _ _ _]. rewrite view_cons. f_equal. eapply view_step; [exact ok | done | done].
Qed.

Lemma wp_malloc_fresh s T U F n Q :
  heap_ok s T U F -> footprint (view_of (mem s) U) < HEAP_SIZE -> 0 <= n ->
  (forall s', released s U s' -> Q NULL s') -> (forall p y s', 0 < n <= HEAP_SIZE -> fresh s U n p y s' -> Q p s') ->
  wp (malloc n) Q s.
Proof.
  intros ok Hf Hn HQ0 HQ. eapply wp_malloc; [exact ok | by eapply free_left | done | |].
  { intros s' ok' St _. apply HQ0. by exists T, F. }
  intros s0 p s' Hn' St0 (T' & y & F' & -> & Hy & ok' & St). eapply (HQ _ y); [done |].
  destruct (round4_spec n Hn') as [Hm4 Hr4].
  assert (Hst : heap_step U s s') by by eapply heap_step_trans.
  destruct (block_range ok' y (used_in ok' y ltac:(left))) as (? & ? & ? & ? & ? & ? & ?).
  split; try done.
  - eauto.
  - unfold MIN_Leftover, HDR_SIZE, MIN_FragSize in Hy. Z.div_mod_to_equations. lia.
  - unfold NULL. tile_lia.
  - unfold HDR_SIZE. Z.div_mod_to_equations. lia.
  - erewrite <- (view_step s s' T U U F); [| exact ok | done | done].
    apply eq_None_not_Some. intros [l Hl].
    pose proof (used_nodup _ _ _ _ ok') as N'. rewrite fmap_cons in N'. apply NoDup_cons in N' as [N' _].
    unfold view_of in Hl. apply elem_of_list_to_map_2 in Hl. apply list_elem_of_fmap in Hl as (z & Ez & Hz).
    injection Ez as Ez _. apply N'. replace y.1 with z.1 by lia. by apply list_elem_of_fmap_2.
Qed.

Lemma released_shows s T U F U' s' :
  heap_ok s T U F -> U' ⊆ U -> released s U' s' -> heap_shows s s' (view_of (mem s) U').
Proof.
  intros ok HU (T' & F' & ok' & St). split; [by eapply heap_step_mono; [| exact St]; set_solver |].
  exists T', U', F'. split; [done |]. symmetry. eapply view_step; [exact ok | done | done].
Qed.

Lemma fresh_shows s T U F n p y s' :
  heap_ok s T U F -> 0 < n -> fresh s U n p y s' ->
  gives (view_of (mem s) U) n p (view_of (mem s') (y :: U)) /\ heap_shows s s' (view_of (mem s') (y :: U)).
Proof.
  intros ok Hn Hf. pose proof Hf as [(T' & F' & ok') St -> ? ? ? ?]. split.
  - right. split_and!; try done. exists (payload (mem s') y). split.
    + pose proof (block_range ok' y (used_in ok' y ltac:(left))). rewrite length_payload by lia. lia.
    + eapply fresh_view; done.
  - split; [by eapply heap_step_mono; [| exact St]; set_solver |]. by exists T', (y :: U), F'.
Qed.

Lemma owned s T U F p l : heap_ok s T U F -> view_of (mem s) U !! p = Some l ->
  exists U1 x U2, U = U1 ++ x :: U2 /\ p = x.1 + HDR_SIZE /\ l = payload (mem s) x /\ x ∈ T /\
    Z.of_nat (length l) = x.2 / 4.
Proof.
  intros ok Hp. apply (view_lookup _ _ _ _ _ _ ok) in Hp as (x & Hx & -> & ->).
  pose proof (used_in ok _ Hx) as HxT. pose proof (block_range ok _ HxT).
  apply list_elem_of_split in Hx as (U1 & U2 & ->). exists U1, x, U2. split_and!; try done.
  apply length_payload. lia.
Qed.

Lemma wp_free_view s T U F p l Q :
  heap_ok s T U F -> view_of (mem s) U !! p = Some l ->
  (forall s', heap_shows s s' (delete p (view_of (mem s) U)) -> Q tt s') -> wp (free p) Q s.
Proof.
  intros ok Hp HQ. destruct (owned _ _ _ _ _ _ ok Hp) as (U1 & x & U2 & -> & -> & -> & _).
  eapply wp_free; [exact ok |]. intros s' Hr. apply HQ. rewrite <- (view_delete _ _ _ _ _ _ ok).
  eapply released_shows; [exact ok | set_solver- | done].
Qed.

Lemma payload_step s T U F y m :
  heap_ok s T U F -> y ∈ U -> (forall a, ~ (y.1 + HDR_SIZE <= a < y.1 + span y) -> m !! a = mem s !! a) ->
  dom m = dom (mem s) -> heap_step [] s (s <| mem := m |>).
Proof.
  intros ok Hy Hm Hd. split; try done; cbn.
  - intros a Ha. apply Hm. intros Ha'. pose proof (block_range ok _ (used_in ok _ Hy)). tile_lia.
  - by intros x a ?%not_elem_of_nil.
Qed.

(** The copy and the release that end [realloc]. *)
Lemma wp_realloc_copy s T U1 x U2 F y n Q :
  heap_ok s T (y :: U1 ++ x :: U2) F -> 0 < n <= y.2 ->
  (forall s' l', heap_shows s s' (delete (x.1 + HDR_SIZE) (<[y.1 + HDR_SIZE := l']> (view_of (mem s) (U1 ++ x :: U2)))) ->
     Z.of_nat (length l') = y.2 / 4 ->
     (forall i, 0 <= i < Z.min x.2 n -> byte_at l' i = byte_at (payload (mem s) x) i) ->
     Q (y.1 + HDR_SIZE) s') ->
  wp (n' <- _msize (x.1 + HDR_SIZE);; memcpy (y.1 + HDR_SIZE) (x.1 + HDR_SIZE) (Z.min n' n);;;
      free (x.1 + HDR_SIZE);;; ret (y.1 + HDR_SIZE)) Q s.
Proof.
  intros ok Hn HQ. set (U := y :: U1 ++ x :: U2) in *.
  assert (Hx : x ∈ U) by set_solver-. assert (Hy : y ∈ U) by set_solver-.
  destruct (block_range ok _ (used_in ok _ Hx)) as (? & ? & ? & ? & ? & ? & ?).
  destruct (block_range ok _ (used_in ok _ Hy)) as (? & ? & ? & ? & ? & ? & ?).
  assert (Hne : x.1 <> y.1).
  { pose proof (used_nodup _ _ _ _ ok) as N. subst U. rewrite fmap_cons in N. apply NoDup_cons in N as [N _].
    intros E. apply N. rewrite <- E. apply list_elem_of_fmap_2. set_solver-. }
  destruct (blocks_header _ _ _ _ _ (ho_used _ _ _ _ ok) Hx) as (nx & Hhx).
  assert (Hsep : x.1 + span x <= y.1 \/ y.1 + span y <= x.1).
  { destruct (tiled_sep _ _ _ _ _ (ho_tiled _ _ _ _ ok) (used_in ok _ Hx) (used_in ok _ Hy)) as [-> | ?]; done. }
  apply wp_bind. unfold _msize. destruct (Z.eqb_spec (x.1 + HDR_SIZE) NULL) as [E | _]; [unfold NULL in E; tile_lia |].
  rewrite u32_small by tile_lia. replace (x.1 + HDR_SIZE - HDR_SIZE) with x.1 by lia.
  eapply wp_blk_size; [lia | tile_lia | apply Hhx |].
  apply wp_bind, wp_memcpy; try tile_lia.
  { intros i Hi0 Hi. split; [apply (word_mapped ok y) | apply (word_mapped ok x)];
      try (by apply (used_in ok)); try tile_lia; unfold HDR_SIZE; Z.div_mod_to_equations; lia. }
  intros m Hdm Hsame Hbytes.
  assert (Hm : forall a, ~ (y.1 + HDR_SIZE <= a < y.1 + span y) -> m !! a = mem s !! a) by (intros a Ha; apply Hsame; tile_lia).
  pose proof (payload_ok _ _ _ _ _ _ ok Hy Hm Hdm) as ok2.
  pose proof (view_write _ _ _ _ _ _ ok Hy Hm) as Hv. unfold U in Hv at 2. rewrite view_cons, insert_insert_eq in Hv.
  apply wp_bind. eapply (wp_free_view _ _ _ _ _ (payload m x) _ ok2).
  { apply (view_lookup _ _ _ _ _ _ ok2). exists x. done. }
  intros s' [St Hrep]. apply wp_ret. cbn [mem set_field] in Hrep. rewrite Hv in Hrep.
  eapply (HQ _ (payload m y)); [split; [| exact Hrep] | apply length_payload; lia |].
  - eapply heap_step_trans; [by eapply payload_step | exact St].
  - intros i Hi. rewrite !mem_byte_payload by (Z.div_mod_to_equations; lia). apply Hbytes. lia.
Qed.

Lemma call_spec_realloc A p n r (A' : view) :
  p <> NULL -> 0 < n ->
  (r = NULL /\ A' = A \/
   exists l l', A !! p = Some l /\ r <> NULL /\ r mod 4 = 0 /\ A !! r = None /\ n <= 4 * Z.of_nat (length l') <= n + 15 /\
     (forall i, 0 <= i < Z.min (4 * Z.of_nat (length l)) n -> byte_at l' i = byte_at l i) /\
     A' = delete p (<[r := l']> A)) ->
  call_spec A (Realloc p n) r A'.
Proof. intros Hp Hn C. unfold call_spec. rewrite decide_False by done. by rewrite decide_False by lia. Qed.

Lemma wp_realloc s T U F p n Q :
  heap_ok s T U F -> footprint (view_of (mem s) U) < HEAP_SIZE -> p <> NULL -> 0 < n ->
  is_Some (view_of (mem s) U !! p) ->
  (forall r s' A', call_spec (view_of (mem s) U) (Realloc p n) r A' -> heap_shows s s' A' -> Q r s') ->
  wp (realloc p n) Q s.
Proof.
  intros ok Hf Hp Hn [l Hl] HQ. unfold realloc.
  assert (HQ' := fun r s' A' C => HQ r s' A' (call_spec_realloc _ _ _ _ _ Hp Hn C)). clear HQ. rename HQ' into HQ.
  destruct (Z.eqb_spec p NULL); [done |]. destruct (Z.eqb_spec n 0); [lia |].
  apply wp_bind. eapply wp_malloc_fresh; [exact ok | done | lia | |].
  { intros s' Hr. apply wp_ret. eapply HQ; [by left |]. eapply released_shows; [exact ok | done | done]. }
  intros r y s1 Hn1 Hfr. pose proof Hfr as [(T1 & F1 & ok1) St -> Hsz Hr Hal Hnew].
  destruct (Z.eqb_spec (y.1 + HDR_SIZE) NULL); [done |].
  destruct (owned _ _ _ _ _ _ ok Hl) as (U1 & x & U2 & -> & -> & -> & HxT & Hlen).
  assert (Hx : payload (mem s1) x = payload (mem s) x).
  { apply payload_same; [| split; apply (block_range ok _ HxT)]. intros a Ha. eapply hs_data; [exact St | | exact Ha]. set_solver-. }
  pose proof (view_step s s1 T _ _ F ok ltac:(done) St) as Hv.
  eapply wp_realloc_copy; [exact ok1 | Z.div_mod_to_equations; lia |].
  intros s' l' [St' Hrep] Hl' Hb. rewrite Hv in Hrep. eapply HQ.
  - right. exists (payload (mem s) x), l'. split_and!; try done; [lia | lia |].
    intros i Hi. rewrite <- Hx. apply Hb. pose proof (block_range ok _ HxT). Z.div_mod_to_equations. lia.
  - split; [| exact Hrep]. eapply heap_step_trans; [| exact St']. eapply heap_step_mono; [| exact St]. set_solver-.
Qed.

Lemma wp_free_null s T U F Q :
  heap_ok s T U F -> (forall s', heap_shows s s' (view_of (mem s) U) -> Q tt s') -> wp (free NULL) Q s.
Proof.
  intros ok HQ. pose proof (ho_low _ _ _ _ ok). apply wp_bind, wp_field.
  destruct (Z.eqb_spec (acHeap s) NULL) as [E | _]; [unfold NULL in E; lia |].
  apply wp_bind, wp_update, wp_ret. apply HQ. split; [by apply heap_step_same |].
  exists T, U, F. split; [split; apply ok | done].
Qed.

Lemma word_in_block s T U F x i :
  heap_ok s T U F -> x ∈ T -> 0 <= i < x.2 / 4 ->
  x.1 + HDR_SIZE <= x.1 + HDR_SIZE + 4 * i < x.1 + span x /\ is_Some (mem s !! (x.1 + HDR_SIZE + 4 * i)).
Proof.
  intros ok Hx Hi. pose proof (block_range ok _ Hx).
  assert (x.1 + HDR_SIZE <= x.1 + HDR_SIZE + 4 * i < x.1 + span x)
    by (unfold span, HDR_SIZE; Z.div_mod_to_equations; lia).
  split; [done |]. apply (word_mapped ok x); [done | tile_lia | unfold HDR_SIZE; Z.div_mod_to_equations; lia].
Qed.

Lemma payload_insert m x i w : 0 <= i < x.2 / 4 ->
  payload (<[x.1 + HDR_SIZE + 4 * i := w]> m) x = <[Z.to_nat i := w]> (payload m x).
Proof.
  intros Hi. apply list_eq. intros j. destruct (Z.lt_ge_cases (Z.of_nat j) (x.2 / 4)).
  - replace j with (Z.to_nat (Z.of_nat j)) by lia. rewrite payload_lookup by lia.
    destruct (Z.eq_dec i (Z.of_nat j)) as [-> | N].
    + rewrite lookup_insert_eq. cbn. rewrite list_lookup_insert_eq; [done |].
      unfold payload. rewrite length_fmap, length_seqZ. lia.
    + rewrite lookup_insert_ne, list_lookup_insert_ne, payload_lookup by lia. done.
  - rewrite !lookup_ge_None_2; [done | |]; rewrite ?length_insert; unfold payload; rewrite length_fmap, length_seqZ; lia.
Qed.

Lemma wp_poke s T U F p l i w Q :
  heap_ok s T U F -> view_of (mem s) U !! p = Some l -> 0 <= i < Z.of_nat (length l) ->
  (forall s', heap_shows s s' (<[p := <[Z.to_nat i := w]> l]> (view_of (mem s) U)) -> Q tt s') ->
  wp (store (p + 4 * i) w) Q s.
Proof.
  intros ok Hl Hi HQ. destruct (owned _ _ _ _ _ _ ok Hl) as (U1 & x & U2 & EU & -> & -> & HxT & Hlen).
  rewrite Hlen in Hi. assert (HxU : x ∈ U) by (rewrite EU; set_solver-).
  destruct (word_in_block _ _ _ _ _ _ ok HxT Hi) as [Hin Hmap].
  apply wp_store; [done |]. set (m := <[x.1 + HDR_SIZE + 4 * i := w]> (mem s)).
  assert (Hm : forall a, ~ (x.1 + HDR_SIZE <= a < x.1 + span x) -> m !! a = mem s !! a)
    by (intros a Ha; apply lookup_insert_ne; lia).
  assert (Hd : dom m = dom (mem s)) by by apply dom_insert_lookup_L.
  apply HQ. split; [by eapply payload_step |]. exists T, U, F. split; [by eapply payload_ok |].
  cbn [mem set_field]. rewrite (view_write _ _ _ _ _ _ ok HxU Hm). f_equal. symmetry. by apply payload_insert.
Qed.

Lemma wp_peek s T U F p l i Q :
  heap_ok s T U F -> view_of (mem s) U !! p = Some l -> 0 <= i < Z.of_nat (length l) ->
  (forall w, l !! Z.to_nat i = Some w -> Q w s) -> wp (load (p + 4 * i)) Q s.
Proof.
  intros ok Hl Hi HQ. destruct (owned _ _ _ _ _ _ ok Hl) as (U1 & x & U2 & EU & -> & -> & HxT & Hlen).
  rewrite Hlen in Hi. destruct (word_in_block _ _ _ _ _ _ ok HxT Hi) as [Hin [w Hw]].
  eapply wp_load; [exact Hw |]. apply HQ. rewrite payload_lookup by lia. by rewrite Hw.
Qed.

Definition refined s A c r s' : Prop := exists A', call_spec A c r A' /\ heap_step [] s s' /\ heap_rep s' A'.

Lemma refined_intro s A c r s' A' : call_spec A c r A' -> heap_shows s s' A' -> refined s A c r s'.
Proof. intros ? []. by exists A'. Qed.

Lemma malloc_refined s T U F n :
  heap_ok s T U F -> 0 <= n -> footprint (view_of (mem s) U) < HEAP_SIZE ->
  wp (malloc n) (refined s (view_of (mem s) U) (Malloc n)) s.
Proof.
  intros ok Hn Hf. eapply wp_malloc_fresh; [exact ok | done | done | |].
  - intros s' Hr. eapply refined_intro; [by left |]. eapply released_shows; [exact ok | done | done].
  - intros p y s' Hn1 Hfr. destruct (fresh_shows _ _ _ _ _ _ _ _ ok (proj1 Hn1) Hfr).
    by eapply refined_intro.
Qed.

Lemma free_refined s T U F p :
  heap_ok s T U F -> p = NULL \/ is_Some (view_of (mem s) U !! p) ->
  wp (free p;;; ret 0) (refined s (view_of (mem s) U) (Free p)) s.
Proof.
  intros ok Hp. apply wp_bind. destruct (decide (p = NULL)) as [-> | Np].
  - eapply wp_free_null; [exact ok |]. intros s' Hs. apply wp_ret. eapply refined_intro; [| exact Hs].
    split; [done |]. rewrite delete_id; [done |]. apply eq_None_not_Some. intros [l Hl].
    destruct (owned _ _ _ _ _ _ ok Hl) as (U1 & x & U2 & _ & E & _ & Hx & _).
    pose proof (block_range ok _ Hx). unfold NULL in E. tile_lia.
  - destruct Hp as [? | [l Hp]]; [done |]. eapply wp_free_view; [exact ok | exact Hp |].
    intros s' Hs. apply wp_ret. by eapply refined_intro.
Qed.

Lemma realloc_refined s T U F p n :
  heap_ok s T U F -> 0 <= n -> p = NULL \/ is_Some (view_of (mem s) U !! p) ->
  footprint (view_of (mem s) U) < HEAP_SIZE ->
  wp (realloc p n) (refined s (view_of (mem s) U) (Realloc p n)) s.
Proof.
  intros ok Hn Hp Hf. destruct (decide (p = NULL)) as [-> | Np].
  { unfold refined. cbn [call_spec]. by eapply malloc_refined. }
  destruct Hp as [? | Hp]; [done |]. destruct (decide (n = 0)) as [-> | Nn].
  - unfold realloc. destruct (Z.eqb_spec p NULL); [done |]. cbn [Z.eqb]. destruct Hp as [l Hp].
    eapply wp_bind, wp_free_view; [exact ok | exact Hp |]. intros s' Hs. apply wp_ret.
    eapply refined_intro; [| exact Hs]. cbn [call_spec]. by rewrite decide_False by done.
  - eapply wp_realloc; [exact ok | done | done | lia | done |]. intros r s' A'. apply refined_intro.
Qed.

(** One call. *)
Lemma wp_run_call c s A :
  heap_rep s A -> may_call A c ->
  wp (run_call c) (fun r s' => exists A', call_spec A c r A' /\ heap_step [] s s' /\ heap_rep s' A') s.
Proof.
  intros (T & U & F & ok & ->) Hc. destruct c as [n | p n | p | p i | p i w]; cbn [run_call may_call] in *.
  - destruct Hc. by eapply malloc_refined.
  - destruct Hc as (Hn & Hp & Hf). by eapply realloc_refined.
  - by eapply free_refined.
  - destruct Hc as (l & Hl & Hi). eapply wp_peek; [exact ok | exact Hl | done |]. intros w Hw.
    exists (view_of (mem s) U). split_and!; [by split; [exists l |] | apply heap_step_refl | by exists T, U, F].
  - destruct Hc as (l & Hl & Hi). eapply wp_bind, wp_poke; [exact ok | exact Hl | done |]. intros s' Hs.
    apply wp_ret. eapply refined_intro; [| exact Hs]. split; [done |]. by exists l.
Qed.

(** A client goes on with what a call returned. *)
Inductive client :=
| Stop
| Do (c : heap_call) (k : Z -> client).

Fixpoint run_client (p : client) : ST (os2 V) (list Z) :=
  match p with
  | Stop => ret []
  | Do c k => r <- run_call c;; rs <- run_client (k r);; ret (r :: rs)
  end.

(** It keeps the rules whatever the calls return. *)
Fixpoint may_run A (p : client) : Prop :=
  match p with
  | Stop => True
  | Do c k => may_call A c /\ forall r A', call_spec A c r A' -> may_run A' (k r)
  end.

(** What calls on the view may return. *)
Inductive view_run : view -> client -> list Z -> view -> Prop :=
| run_stop A : view_run A Stop [] A
| run_do A c k r A1 rs A2 : call_spec A c r A1 -> view_run A1 (k r) rs A2 -> view_run A (Do c k) (r :: rs) A2.

(** C19: a client that keeps the rules never goes wrong, and sees the same as one that calls
    on the view.  The rules ([may_call]) are that it uses only what it was given, and that it
    allocates only while some of the heap of 128 kilobytes is left: when every byte is in use,
    [malloc] follows a null pointer ([malloc_exhausted_runs] in Os2Kernel.v). *)
Theorem heap_refines p s A :
  heap_rep s A -> may_run A p ->
  wp (run_client p) (fun rs s' => exists A', view_run A p rs A' /\ heap_step [] s s' /\ heap_rep s' A') s.
Proof.
  revert s A. induction p as [| c k IH]; intros s A Hr Hm; cbn [run_client].
  - apply wp_ret. exists A. split_and!; [constructor | apply heap_step_refl | done].
  - destruct Hm as [Hc Hk]. eapply wp_bind, wp_mono; [by apply wp_run_call |].
    intros r s1 (A1 & Hs & St & Hr1). eapply wp_bind, wp_mono; [apply (IH r s1 A1); eauto |].
    intros rs s2 (A2 & Hv & St2 & Hr2). apply wp_ret. exists A2.
    split_and!; [by econstructor | by eapply heap_step_trans | done].
Qed.
End Spec.
