(* ===== verification/Os2Pages.v ===== *)
(** * Os2Pages: page and kernel memory

    lib32/memory.cpp: the Linux calls for pages and kernel memory over the OS/2 kernel's
    virtual memory and the driver's heap.  An address that differs from what the kernel
    returned, or whose size will be asked for, is kept in a list whose nodes are in the heap. *)

From S2P Require Import Prelude Os2Heap.
Open Scope Z_scope.
Open Scope state_scope.

Definition GFP_DMA : Z := 0x80.
Definition GFP_DMAHIGHMEM : Z := 0x100.

(** [sizeof(BaseAddr)], and its fields [base], [retaddr], [size] and [next]. *)
Definition BASEADDR_SIZE : Z := 16.

Section Pages.
Context {V : Type} `{KernelVM V}.
Abbreviation K := (ST (os2 V)).

Definition base_of (p : Z) : K Z := load p.
Definition retaddr_of (p : Z) : K Z := load (u32 (p + 4)).
Definition size_of (p : Z) : K Z := load (u32 (p + 8)).
Definition next_of (p : Z) : K Z := load (u32 (p + 12)).

(** The calls of memory.cpp call each other in a circle: kernel memory of a page or more is
    pages, and pages are kept in a list of kernel memory.  The argument [kmalloc] or
    [kfree] closes the circle, below. *)
Definition AddBaseAddress_ (kmalloc : Z -> Z -> K Z) (baseaddr retaddr size : Z) : K unit :=
  pBase <- kmalloc BASEADDR_SIZE 0;;
  if pBase =? NULL then ret tt
  else
    store pBase baseaddr;;;
    store (u32 (pBase + 4)) retaddr;;;
    store (u32 (pBase + 8)) size;;;
    head <- field pBaseAddrHead;;
    store (u32 (pBase + 12)) head;;;
    update (fun s => s <| pBaseAddrHead := pBase |>).

Fixpoint base_loop (kfree : Z -> K unit) (fuel : nat) (pCur addr size : Z) : K (Z * Z) :=
  match fuel with
  | O => crash
  | S fuel =>
      next <- next_of pCur;;
      if next =? NULL then ret (addr, size)
      else
        r <- retaddr_of next;;
        if r =? addr then
          base <- base_of next;; n <- size_of next;;
          n' <- next_of next;; store (u32 (pCur + 12)) n';;;
          kfree next;;;
          ret (base, n)
        else base_loop kfree fuel next addr size
  end.

(** The base of an address, and [*pSize], which keeps its value when nothing is found. *)
Definition GetBaseAddress_ (kfree : Z -> K unit) (addr size : Z) : K (Z * Z) :=
  head <- field pBaseAddrHead;;
  if head =? NULL then ret (addr, size)
  else
    r <- retaddr_of head;;
    if r =? addr then
      base <- base_of head;; n <- size_of head;;
      next <- next_of head;; update (fun s => s <| pBaseAddrHead := next |>);;;
      kfree head;;;
      ret (base, n)
    else base_loop kfree heap_fuel head addr size.

(** The physical address of the first page, or zero. *)
Definition virt_to_phys (address : Z) : K Z := fun s =>
  let '(rc, phys) := DevLinToPageList address (vm s) in
  Some (if rc =? 0 then phys else 0, s).

Definition vmalloc_ (kmalloc : Z -> Z -> K Z) (size : Z) : K Z :=
  let size := Z.land (u32 (size + PAGE_SIZE - 1)) 0xFFFFF000 in
  r <- VMAlloc size (Z.lor VMDHA_FIXED VMDHA_CONTIG);;
  if truth r.1 then ret 0
  else
    let addr := r.2 in
    when (truth addr)
      (AddBaseAddress_ kmalloc addr addr size;;;
       update (fun s => s <| ulget_free_pagesMemUsed := u32 (ulget_free_pagesMemUsed s + size) |>));;;
    ret addr.

Definition vfree_ (kfree : Z -> K unit) (ptr : Z) : K unit :=
  b <- GetBaseAddress_ kfree ptr 0;;
  rc <- VMFree ptr;;
  if truth rc then ret tt
  else update (fun s => s <| ulget_free_pagesMemUsed := u32 (ulget_free_pagesMemUsed s - b.2) |>).

(** A node is less than a page, so the circle is gone round once at most. *)
Fixpoint kmalloc_depth (depth : nat) (size flags : Z) : K Z :=
  if size =? 0 then ret NULL
  else if 4096 <=? size then
    match depth with
    | O => crash
    | S depth => vmalloc_ (kmalloc_depth depth) (u32 size)
    end
  else malloc (u32 size).

Fixpoint kfree_depth (depth : nat) (ptr : Z) : K unit :=
  if ptr =? NULL then ret tt
  else
    heap <- IsHeapAddr ptr;;
    if heap : bool then free ptr
    else
      match depth with
      | O => crash
      | S depth => vfree_ (kfree_depth depth) ptr
      end.

Definition __kmalloc : Z -> Z -> K Z := kmalloc_depth 1.
Definition __kfree : Z -> K unit := kfree_depth heap_fuel.

Definition AddBaseAddress : Z -> Z -> Z -> K unit := AddBaseAddress_ __kmalloc.
Definition GetBaseAddress : Z -> Z -> K (Z * Z) := GetBaseAddress_ __kfree.
Definition vmalloc : Z -> K Z := vmalloc_ __kmalloc.
Definition vfree : Z -> K unit := vfree_ __kfree.

(** ** Pages *)

(** Whether a buffer crosses a boundary of 64 kilobytes; of a larger one, its first 63. *)
Definition crosses (physaddr size : Z) : bool :=
  let startpage := Z.shiftr physaddr 16 in
  let endpage := Z.shiftr (u32 (physaddr + (if size <? 0x10000 then size else 63 * 1024))) 16 in
  negb (startpage =? endpage).

Definition keep_pages (addr base size : Z) : K Z :=
  AddBaseAddress base addr size;;;
  update (fun s => s <| ulget_free_pagesMemUsed := u32 (ulget_free_pagesMemUsed s + size) |>);;;
  ret addr.

(** Two attempts at pages that happen to be aligned well. *)
Definition __get_free_dma_pages (size flags : Z) : K Z :=
  r <- VMAlloc size flags;;
  if truth r.1 then ret 0
  else
    let addr := r.2 in
    phys <- virt_to_phys addr;;
    if truth phys then
      if crosses phys size then
        r' <- VMAlloc size flags;;
        VMFree addr;;;
        if truth r'.1 then ret 0
        else
          let addr := r'.2 in
          phys <- virt_to_phys addr;;
          if truth phys && crosses phys size then VMFree addr;;; ret 0
          else if truth addr then keep_pages addr addr size else ret addr
      else if truth addr then keep_pages addr addr size else ret addr
    else VMFree addr;;; ret 0.

Definition free_pages (addr order : Z) : K Z :=
  b <- GetBaseAddress addr 0;;
  rc <- VMFree b.1;;
  when (negb (truth rc))
    (update (fun s => s <| ulget_free_pagesMemUsed := u32 (ulget_free_pagesMemUsed s - b.2) |>));;;
  ret 0.

Definition __get_free_pages (gfp_mask order : Z) : K Z :=
  let order := shl32 1 order in
  let size := u32 (order * PAGE_SIZE) in
  let dma := truth (Z.land gfp_mask (Z.lor GFP_DMA GFP_DMAHIGHMEM)) in
  let flags := Z.lor VMDHA_FIXED VMDHA_CONTIG in
  let flags := if dma && truth (Z.land gfp_mask GFP_DMA) then Z.lor flags VMDHA_16M else flags in
  pBlock <- (if dma then __get_free_dma_pages size flags else ret NULL);;
  if truth pBlock then ret pBlock
  else
    let allocsize :=
      if dma then (if size <? 0x10000 then u32 (size * 2) else u32 (size + 0x10000)) else size in
    r <- VMAlloc allocsize flags;;
    if truth r.1 then ret 0
    else
      let addr := r.2 in
      addr <-
        (if dma then
           physaddr <- virt_to_phys addr;;
           if truth physaddr then
             if crosses physaddr size then
               let physaddr2 := shl32 (u32 (Z.shiftr physaddr 16 + 1)) 16 in
               let diff := u32 (physaddr2 - physaddr) in
               AddBaseAddress addr (u32 (addr + diff)) allocsize;;;
               ret (u32 (addr + diff))
             else ret addr
           else free_pages addr order;;; ret 0
         else AddBaseAddress addr addr allocsize;;; ret addr);;
      when (truth addr)
        (update (fun s => s <| ulget_free_pagesMemUsed := u32 (ulget_free_pagesMemUsed s + allocsize) |>));;;
      ret addr.
End Pages.
