(* ===== verification/Os2PagesSafe.v ===== *)
(** * Os2PagesSafe: the list of addresses, and buffers for DMA

    What the list kept in the heap by Os2Pages.v means, and where the buffers for DMA lie. *)

From S2P Require Import Prelude Os2Heap Os2HeapSafe Os2HeapFree Os2HeapSpec Os2Pages.
Open Scope Z_scope.
Open Scope state_scope.

(** ** Heap calls on a view *)

Section Views.
Context {V : Type} `{KernelVM V}.
Implicit Types (s : os2 V) (A : view).

Lemma heap_rep_same s s' A :
  mem s' = mem s -> pmbUsed s' = pmbUsed s -> pmbFree s' = pmbFree s -> uMemFree s' = uMemFree s ->
  acHeap s' = acHeap s -> heap_rep s A -> heap_rep s' A.
Proof.
  intros Em Eu Ef Ec Ea (T & U & F & ok & ->). exists T, U, F. rewrite Em. split; [| done].
  split; rewrite ?Em, ?Eu, ?Ef, ?Ec, ?Ea; apply ok.
Qed.

Lemma view_range s A p l : heap_rep s A -> A !! p = Some l ->
  acHeap s < p /\ p + 4 * Z.of_nat (length l) <= acHeap s + HEAP_SIZE /\ acHeap s + HEAP_SIZE <= UINT_MAX /\ 0 < acHeap s.
Proof.
  intros (T & U & F & ok & ->) Hp. destruct (owned _ _ _ _ _ _ ok Hp) as (U1 & x & U2 & _ & -> & _ & Hx & ->).
  pose proof (block_range ok _ Hx). pose proof (ho_low _ _ _ _ ok). pose proof (ho_high _ _ _ _ ok).
  split_and!; try lia; unfold span, HDR_SIZE in *; Z.div_mod_to_equations; lia.
Qed.

Lemma wp_poke_view s A p l i w a Q :
  heap_rep s A -> A !! p = Some l -> 0 <= i < Z.of_nat (length l) -> a = p + 4 * i ->
  (forall s', heap_step [] s s' -> heap_rep s' (<[p := <[Z.to_nat i := w]> l]> A) -> Q tt s') -> wp (store a w) Q s.
Proof.
  intros (T & U & F & ok & ->) Hl Hi -> HQ. eapply wp_poke; [exact ok | exact Hl | done |].
  intros s' []. by apply HQ.
Qed.

Lemma wp_peek_view s A p l i a w Q :
  heap_rep s A -> A !! p = Some l -> l !! Z.to_nat i = Some w -> 0 <= i -> a = p + 4 * i -> Q w s -> wp (load a) Q s.
Proof.
  intros (T & U & F & ok & ->) Hl Hw Hi -> HQ. pose proof (lookup_lt_Some _ _ _ Hw).
  eapply wp_peek; [exact ok | exact Hl | lia |]. intros w' Hw'. by simplify_eq.
Qed.

Lemma wp_malloc_view s A n Q :
  heap_rep s A -> 0 <= n -> footprint A < HEAP_SIZE ->
  (forall r s' A', gives A n r A' -> heap_step [] s s' -> heap_rep s' A' -> Q r s') -> wp (malloc n) Q s.
Proof.
  intros Hr Hn Hf HQ. eapply wp_mono; [apply (wp_run_call (Malloc n) s A Hr); by split |].
  intros r s' (A' & ? & ? & ?). by eapply HQ.
Qed.

Lemma wp_free_rep s A p l Q :
  heap_rep s A -> A !! p = Some l -> (forall s', heap_step [] s s' -> heap_rep s' (delete p A) -> Q tt s') ->
  wp (free p) Q s.
Proof.
  intros (T & U & F & ok & ->) Hl HQ. eapply wp_free_view; [exact ok | exact Hl |]. intros s' []. by apply HQ.
Qed.
End Views.

(** ** The list of addresses *)

(** A node and what it says: base, address and size. *)
Definition base_node : Type := Z * (Z * Z * Z).

Fixpoint bases (A : view) (head : Z) (l : list base_node) (last : Z) : Prop :=
  match l with
  | [] => head = last
  | (p, (b, r, n)) :: l =>
      head = p /\ p <> NULL /\ exists next ws, A !! p = Some (b :: r :: n :: next :: ws) /\ bases A next l last
  end.

Lemma bases_app A head l1 l2 last :
  bases A head (l1 ++ l2) last <-> exists mid, bases A head l1 mid /\ bases A mid l2 last.
Proof.
  revert head. induction l1 as [| [p [[b r] n]] l1 IH]; intros head; cbn [app bases].
  - split; [eauto | by intros (? & -> & ?)].
  - split.
    + intros (-> & ? & next & ws & ? & (mid & ? & ?)%IH). eauto 10.
    + intros (mid & (-> & ? & next & ws & ? & ?) & ?). split_and!; try done. exists next, ws. split; [done |].
      apply IH. eauto.
Qed.

(** The entry of an address. *)
Definition base_find (addr : Z) (l : list base_node) : option base_node := head (filter (fun e => e.2.1.2 = addr) l).

(** The list without the first entry of an address. *)
Fixpoint base_drop (addr : Z) (l : list base_node) : list base_node :=
  match l with
  | [] => []
  | e :: l => if decide (e.2.1.2 = addr) then l else e :: base_drop addr l
  end.

Lemma bases_frame A A' head l last :
  (forall p, p ∈ l.*1 -> A' !! p = A !! p) -> bases A head l last -> bases A' head l last.
Proof.
  revert head. induction l as [| [p [[b r] n]] l IH]; intros head E; cbn [bases]; [done |].
  intros (-> & Hp & next & ws & Ha & Hb). split_and!; try done. exists next, ws. rewrite E by by left.
  split; [done |]. apply IH; [| done]. intros q Hq. apply E. by right.
Qed.

Lemma bases_owned A head l last p : bases A head l last -> p ∈ l.*1 -> is_Some (A !! p).
Proof.
  revert head. induction l as [| [q [[b r] n]] l IH]; intros head; cbn [bases]; [by intros _ ?%not_elem_of_nil |].
  intros (-> & _ & next & ws & Ha & Hb) [-> | Hp]%elem_of_cons; eauto.
Qed.

Section Bases.
Context {V : Type} `{KernelVM V}.
Implicit Types (s : os2 V) (A : view) (l : list base_node).

(** The world: the client's view of the heap and the list in it. *)
Definition bases_ok s A l : Prop := heap_rep s A /\ bases A (pBaseAddrHead s) l NULL /\ NoDup l.*1.

(** The rest of the world. *)
Definition same_rest s s' : Prop :=
  acHeap s' = acHeap s /\ vm s' = vm s /\ ulget_free_pagesMemUsed s' = ulget_free_pagesMemUsed s /\
  fStrategyInit s' = fStrategyInit s.

Lemma same_rest_trans s1 s2 s3 : same_rest s1 s2 -> same_rest s2 s3 -> same_rest s1 s3.
Proof. intros (? & ? & ? & ?) (? & ? & ? & ?). repeat split; congruence. Qed.

Lemma step_rest s s' U : heap_step U s s' -> same_rest s s'.
Proof. by intros []. Qed.

Lemma kmalloc_node k s A Q :
  heap_rep s A -> footprint A < HEAP_SIZE ->
  (forall r s' A', gives A BASEADDR_SIZE r A' -> heap_step [] s s' -> heap_rep s' A' -> Q r s') ->
  wp (kmalloc_depth k BASEADDR_SIZE 0) Q s.
Proof. intros. destruct k; cbn; eapply wp_malloc_view; done. Qed.

Lemma wp_AddBaseAddress s A l baseaddr retaddr size :
  bases_ok s A l -> footprint A < HEAP_SIZE ->
  wp (AddBaseAddress baseaddr retaddr size) (fun _ s' => same_rest s s' /\ exists A',
    (bases_ok s' A' l /\ A' = A \/
     exists p ws, A !! p = None /\ bases_ok s' A' ((p, (baseaddr, retaddr, size)) :: l) /\ A' = <[p := ws]> A)) s.
Proof.
  intros (Hr & Hb & N) Hf. unfold AddBaseAddress, AddBaseAddress_.
  apply wp_bind, kmalloc_node with A; [done | done |]. intros p s1 A1 G St Hr1.
  destruct G as [[-> ->] | (Hp & _ & Hnone & ws & [_ Hlen] & ->)].
  { apply wp_ret. split; [by eapply step_rest |]. exists A. left. split; [| done].
    split_and!; [done | | done]. by rewrite (hs_base _ _ _ St). }
  destruct (Z.eqb_spec p NULL); [done |].
  assert (Hw : exists w0 w1 w2 w3 ws', ws = w0 :: w1 :: w2 :: w3 :: ws').
  { unfold BASEADDR_SIZE in Hlen. destruct ws as [| w0 [| w1 [| w2 [| w3 ws']]]]; cbn [length] in Hlen; try lia. eauto 6. }
  destruct Hw as (w0 & w1 & w2 & w3 & ws' & ->).
  destruct (view_range s1 _ p _ Hr1 (lookup_insert_eq _ _ _)) as (? & Hrng & ? & ?). cbn [length] in Hrng.
  rewrite !u32_small by (unfold is_u32; unfold UINT_MAX in *; lia).
  apply wp_bind. eapply (wp_poke_view _ _ p _ 0); [exact Hr1 | apply lookup_insert_eq | rewrite ?length_insert; cbn [length]; lia | lia |].
  intros s2 St2 Hr2. cbn in Hr2. rewrite insert_insert_eq in Hr2.
  apply wp_bind. eapply (wp_poke_view _ _ p _ 1); [exact Hr2 | apply lookup_insert_eq | rewrite ?length_insert; cbn [length]; lia | lia |].
  intros s3 St3 Hr3. cbn in Hr3. rewrite insert_insert_eq in Hr3.
  apply wp_bind. eapply (wp_poke_view _ _ p _ 2); [exact Hr3 | apply lookup_insert_eq | rewrite ?length_insert; cbn [length]; lia | lia |].
  intros s4 St4 Hr4. cbn in Hr4. rewrite insert_insert_eq in Hr4.
  apply wp_bind, wp_field.
  apply wp_bind. eapply (wp_poke_view _ _ p _ 3); [exact Hr4 | apply lookup_insert_eq | rewrite ?length_insert; cbn [length]; lia | lia |].
  intros s5 St5 Hr5. cbn in Hr5. rewrite insert_insert_eq in Hr5.
  apply wp_update. split.
  - do 4 (eapply same_rest_trans; [by eapply step_rest |]).
    eapply same_rest_trans; [by eapply step_rest |]. done.
  - eexists. right. exists p. eexists. split; [done |]. split; [| reflexivity].
    assert (Hpl : p ∉ l.*1) by (intros Hin; eapply bases_owned in Hin; [| exact Hb]; rewrite Hnone in Hin; by destruct Hin).
    split_and!.
    + eapply heap_rep_same; [.. | exact Hr5]; done.
    + cbn [bases pBaseAddrHead set_field]. split_and!; try done. eexists _, ws'. split; [apply lookup_insert_eq |].
      rewrite (hs_base _ _ _ St4), (hs_base _ _ _ St3), (hs_base _ _ _ St2), (hs_base _ _ _ St).
      eapply bases_frame; [| exact Hb]. intros q Hq. apply lookup_insert_ne. by intros ->.
    + rewrite fmap_cons. by constructor.
Qed.

Lemma wp_kfree k s A p ws Q :
  heap_rep s A -> A !! p = Some ws -> (forall s', heap_step [] s s' -> heap_rep s' (delete p A) -> Q tt s') ->
  wp (kfree_depth k p) Q s.
Proof.
  intros Hr Hp HQ. destruct (view_range _ _ _ _ Hr Hp) as (? & ? & ? & ?).
  assert (E : kfree_depth k p = if p =? NULL then ret tt else
    (heap <- IsHeapAddr p;; if heap : bool then free p else
       match k with O => crash | S k => vfree_ (kfree_depth k) p end)) by by destruct k.
  rewrite E. destruct (Z.eqb_spec p NULL) as [En | _]; [unfold NULL in En; lia |].
  apply wp_bind, wp_bind, wp_field, wp_ret. unfold HEAP_SIZE, UINT_MAX in *. rewrite u32_small by (unfold is_u32; lia).
  destruct (Z.leb_spec (acHeap s) p); [| lia]. destruct (Z.leb_spec p (acHeap s + 128 * 1024)); [| lia].
  by eapply wp_free_rep.
Qed.

(** The fields of a node. *)
Lemma wp_node s A p b r n next ws :
  heap_rep s A -> A !! p = Some (b :: r :: n :: next :: ws) ->
  (forall Q : Z -> os2 V -> Prop, Q b s -> wp (base_of p) Q s) /\ (forall Q : Z -> os2 V -> Prop, Q r s -> wp (retaddr_of p) Q s) /\
  (forall Q : Z -> os2 V -> Prop, Q n s -> wp (size_of p) Q s) /\ (forall Q : Z -> os2 V -> Prop, Q next s -> wp (next_of p) Q s) /\
  u32 (p + 12) = p + 12.
Proof.
  intros Hr Hp. destruct (view_range _ _ _ _ Hr Hp) as (? & Hrng & ? & ?). cbn [length] in Hrng.
  assert (E : forall k, 0 <= k <= 12 -> u32 (p + k) = p + k) by (intros k Hk; apply u32_small; unfold is_u32, UINT_MAX in *; lia).
  unfold base_of, retaddr_of, size_of, next_of. rewrite !E by lia. split_and!; [| | | | done]; intros Q HQ.
  - eapply (wp_peek_view _ _ p _ 0); [exact Hr | exact Hp | done | lia | lia | done].
  - eapply (wp_peek_view _ _ p _ 1); [exact Hr | exact Hp | done | lia | lia | done].
  - eapply (wp_peek_view _ _ p _ 2); [exact Hr | exact Hp | done | lia | lia | done].
  - eapply (wp_peek_view _ _ p _ 3); [exact Hr | exact Hp | done | lia | lia | done].
Qed.

(** What finding an address in the list [l] means. *)
Definition base_result s A l (addr n0 : Z) (r : Z * Z) s' : Prop :=
  same_rest s s' /\
  match base_find addr l with
  | None => r = (addr, n0) /\ bases_ok s' A l
  | Some (p, (b, _, n)) => r = (b, n) /\ exists A', bases_ok s' A' (base_drop addr l) /\ (forall q, q ∉ l.*1 -> A' !! q = A !! q)
  end.


Lemma base_find_cons addr e l :
  base_find addr (e :: l) = if decide (e.2.1.2 = addr) then Some e else base_find addr l.
Proof. unfold base_find. rewrite filter_cons. by destruct (decide _). Qed.

Lemma base_drop_app addr l1 l2 :
  (forall e, e ∈ l1 -> e.2.1.2 <> addr) -> base_drop addr (l1 ++ l2) = l1 ++ base_drop addr l2.
Proof.
  induction l1 as [| e l1 IH]; intros Hn; [done |]. cbn [app base_drop].
  rewrite decide_False by (apply Hn; left). f_equal. apply IH. intros e' He. apply Hn. by right.
Qed.

Lemma base_find_app addr l1 l2 :
  (forall e, e ∈ l1 -> e.2.1.2 <> addr) -> base_find addr (l1 ++ l2) = base_find addr l2.
Proof.
  induction l1 as [| e l1 IH]; intros Hn; [done |]. cbn [app]. rewrite base_find_cons.
  rewrite decide_False by (apply Hn; left). apply IH. intros e' He. apply Hn. by right.
Qed.

(** The walk has come to the node [q], the last of those seen. *)
Lemma wp_base_loop k addr n0 A l s : forall fuel l1 q b0 r0 n1 rest,
  bases_ok s A l -> l = l1 ++ (q, (b0, r0, n1)) :: rest ->
  (forall e, e ∈ l1 ++ [(q, (b0, r0, n1))] -> e.2.1.2 <> addr) -> (length rest < fuel)%nat ->
  wp (base_loop (kfree_depth k) fuel q addr n0) (base_result s A l addr n0) s.
Proof.
  induction fuel as [| fuel IH]; intros l1 q b0 r0 n1 rest (Hr & Hb & N) E Hn Hk; [lia |]. cbn [base_loop].
  assert (Hb' := Hb). rewrite E in Hb'. apply bases_app in Hb' as (mid & Hb1 & -> & Hq & next & ws & Hqa & Hb2).
  destruct (wp_node _ _ _ _ _ _ _ _ Hr Hqa) as (_ & _ & _ & Wnext & U12). apply wp_bind, Wnext.
  assert (El : l = (l1 ++ [(q, (b0, r0, n1))]) ++ rest) by by rewrite <- app_assoc.
  destruct rest as [| [p [[b r] n]] rest]; cbn [bases length] in Hb2, Hk.
  { subst next. apply wp_ret. split; [done |].
    rewrite El, base_find_app by done. cbn. by rewrite <- El. }
  destruct Hb2 as (-> & Hp & next2 & ws' & Hpa & Hb2).
  destruct (Z.eqb_spec p NULL); [done |].
  destruct (wp_node _ _ _ _ _ _ _ _ Hr Hpa) as (Wb & Wr & Wn & Wnext' & _).
  apply wp_bind, Wr. destruct (Z.eqb_spec r addr) as [-> | Nr].
  - apply wp_bind, Wb, wp_bind, Wn, wp_bind, Wnext'. apply wp_bind. rewrite U12.
    eapply (wp_poke_view _ _ q _ 3); [exact Hr | exact Hqa | cbn [length]; lia | lia |].
    intros s1 St1 Hr1. cbn in Hr1.
    assert (Nqp : q <> p).
    { rewrite E, fmap_app in N. apply NoDup_app in N as (_ & _ & N). cbn in N. intros ->.
      apply NoDup_cons in N as [N _]. apply N. left. }
    apply wp_bind. eapply wp_kfree; [exact Hr1 | by rewrite lookup_insert_ne |].
    intros s2 St2 Hr2. apply wp_ret. split.
    { eapply same_rest_trans; [by eapply step_rest | by eapply step_rest]. }
    rewrite El, base_find_app, base_find_cons by done. cbn [fst snd]. rewrite decide_True by done. split; [done |].
    rewrite base_drop_app by done. cbn [base_drop fst snd]. rewrite decide_True by done.
    eexists. split; [split_and!; [exact Hr2 | |] |].
    + rewrite (hs_base _ _ _ St2), (hs_base _ _ _ St1).
      rewrite E, fmap_app in N. apply NoDup_app in N as (N1 & D & N2). cbn in N2. apply NoDup_cons in N2 as [N2 N3].
      apply NoDup_cons in N3 as [N3 N4].
      rewrite <- app_assoc. apply bases_app. exists q. split.
      * eapply bases_frame; [| exact Hb1]. intros q' Hq'.
        rewrite lookup_delete_ne by (intros <-; apply (D _ Hq'); cbn; set_solver-).
        apply lookup_insert_ne. intros <-. apply (D _ Hq'). cbn. set_solver-.
      * cbn [bases app]. split_and!; try done. eexists _, ws. split.
        { rewrite lookup_delete_ne by done. apply lookup_insert_eq. }
        eapply bases_frame; [| exact Hb2]. intros q' Hq'.
        rewrite lookup_delete_ne by (intros <-; done). apply lookup_insert_ne. intros <-. apply N2. by right.
    + rewrite El, fmap_app, fmap_cons in N. rewrite fmap_app. apply NoDup_app in N as (N1 & D & N2).
      apply NoDup_cons in N2 as [N2 N3]. apply NoDup_app. split_and!; [done | | done].
      intros z Hz1 Hz2. apply (D _ Hz1). by right.
    + intros q' Hq'. rewrite !fmap_app, !fmap_cons in Hq'. cbn in Hq'.
      rewrite lookup_delete_ne, lookup_insert_ne; [done | |]; intros <-; apply Hq'; set_solver-.
  - eapply (IH (l1 ++ [(q, (b0, r0, n1))]) p b r n rest); [by split | by rewrite El | | lia].
    intros e [He | ->%list_elem_of_singleton]%elem_of_app; [by apply Hn | done].
Qed.

Lemma bases_length s A l : bases_ok s A l -> (length l < heap_fuel)%nat.
Proof.
  intros ((T & U & F & ok & EA) & Hb & N). pose proof (heap_fuel_enough _ _ _ _ ok) as Hf.
  enough (length l.*1 <= length U)%nat as Hle.
  { rewrite length_fmap in Hle. eapply Nat.le_lt_trans; [exact Hle |]. eapply Nat.le_lt_trans; [apply Nat.le_add_r | exact Hf]. }
  replace (length U) with (length ((fun x => x.1 + HDR_SIZE) <$> U)) by apply length_fmap.
  apply submseteq_length, NoDup_submseteq; [done |]. intros p Hp.
  destruct (bases_owned _ _ _ _ _ Hb Hp) as [ws Hw]. rewrite EA in Hw.
  apply (view_lookup _ _ _ _ _ _ ok) in Hw as (x & Hx & -> & _).
  apply (list_elem_of_fmap_2 (fun x : block => x.1 + HDR_SIZE)). done.
Qed.

(** Finding the base of an address. *)
Lemma wp_GetBaseAddress s A l addr n0 :
  bases_ok s A l -> wp (GetBaseAddress addr n0) (base_result s A l addr n0) s.
Proof.
  intros ok. pose proof (bases_length _ _ _ ok) as Hlen. pose proof ok as (Hr & Hb & N).
  apply wp_bind, wp_field. destruct l as [| [p [[b r] n]] l]; cbn [bases] in Hb.
  { rewrite Hb. cbn. split; [done |]. split; [done |]. by split. }
  destruct Hb as (Eh & Hp & next & ws & Hpa & Hb). rewrite Eh.
  destruct (Z.eqb_spec p NULL); [done |].
  destruct (wp_node _ _ _ _ _ _ _ _ Hr Hpa) as (Wb & Wr & Wn & Wnext & _).
  apply wp_bind, Wr. destruct (Z.eqb_spec r addr) as [-> | Nr].
  - apply wp_bind, Wb, wp_bind, Wn, wp_bind, Wnext, wp_bind, wp_update, wp_bind.
    eapply wp_kfree; [eapply heap_rep_same; [.. | exact Hr]; done | exact Hpa |].
    intros s1 St Hr1. apply wp_ret. split; [eapply same_rest_trans; [| by eapply step_rest]; done |].
    rewrite base_find_cons, decide_True by done. split; [done |]. cbn [base_drop fst snd]. rewrite decide_True by done.
    eexists. rewrite fmap_cons in N. apply NoDup_cons in N as [N1 N2]. split; [split_and!; [exact Hr1 | | done] |].
    + rewrite (hs_base _ _ _ St). eapply bases_frame; [| exact Hb]. intros q Hq. apply lookup_delete_ne. intros <-. done.
    + intros q Hq. rewrite fmap_cons in Hq. apply not_elem_of_cons in Hq as [Hq _]. by apply lookup_delete_ne.
  - eapply (wp_base_loop _ _ _ _ _ _ _ [] p b r n l); [exact ok | done | | exact (Nat.lt_succ_l _ _ Hlen)].
    by intros e ->%list_elem_of_singleton.
Qed.
End Bases.
