(* ===== verification/Os2Dma.v ===== *)
(** * Os2Dma: buffers for DMA lie where DMA can reach them

    [__get_free_pages] of Os2Pages.v over a kernel that keeps its promises: either nothing
    is allocated, or one block of memory that holds the buffer, which does not cross a boundary
    of 64 kilobytes. *)

From S2P Require Import Prelude Os2Heap Os2HeapSafe Os2HeapFree Os2HeapSpec Os2Pages Os2PagesSafe.
Open Scope Z_scope.
Open Scope state_scope.

(** ** The kernel *)

(** A piece of memory the kernel gave: its size, and where it is if it is contiguous. *)
Record vm_object := VmObject { o_size : Z; o_phys : option Z }.

(** What the OS/2 kernel documents about its memory calls. *)
Class KernelVMOk (V : Type) `{KernelVM V} := {
  objects : V -> gmap Z vm_object;
  objects_disjoint v a o b o' : objects v !! a = Some o -> objects v !! b = Some o' -> a <> b ->
    a + o_size o <= b \/ b + o_size o' <= a;
  alloc_ok v fl n a pg v' : DevVMAlloc fl n v = (0, (a, pg), v') -> 0 < n ->
    exists o, objects v !! a = None /\ objects v' = <[a := o]> (objects v) /\ n <= o_size o /\
      0 < a /\ a mod PAGE_SIZE = 0 /\ a + o_size o <= UINT_MAX /\
      (forall c, is_Some (pg !! c) <-> a <= c < a + o_size o /\ c mod 4 = 0) /\
      (truth (Z.land fl VMDHA_CONTIG) = true -> exists f, o_phys o = Some f /\ 0 < f /\ f mod PAGE_SIZE = 0 /\
         f + o_size o <= UINT_MAX /\ (truth (Z.land fl VMDHA_16M) = true -> f + o_size o <= 0x1000000));
  alloc_fails v fl n rc a pg v' : DevVMAlloc fl n v = (rc, (a, pg), v') -> rc <> 0 -> objects v' = objects v;
  free_ok v a o : objects v !! a = Some o ->
    exists v', DevVMFree a v = (0, o_size o, v') /\ objects v' = delete a (objects v);
  lin_ok v a o f c : objects v !! a = Some o -> o_phys o = Some f -> a <= c < a + o_size o ->
    DevLinToPageList c v = (0, f + (c - a)) }.

Section Kernel.
Context {V : Type} `{KernelVMOk V}.
Implicit Types (s : os2 V) (A : view) (l : list base_node).

(** Only memory outside the heap changes. *)
Lemma heap_rep_outside s s' A :
  pmbUsed s' = pmbUsed s -> pmbFree s' = pmbFree s -> uMemFree s' = uMemFree s -> acHeap s' = acHeap s ->
  (forall a, acHeap s <= a < acHeap s + HEAP_SIZE -> mem s' !! a = mem s !! a) ->
  heap_rep s A -> heap_rep s' A.
Proof.
  intros Eu Ef Ec Ea Em (T & U & F & ok & ->). exists T, U, F.
  assert (Hb : forall (k : list block) a b, k ⊆ T -> blocks (mem s) a k b -> blocks (mem s') a k b).
  { intros k a b Hl. apply blocks_frame. intros x c Hx%Hl Hc. apply Em. pose proof (block_range ok _ Hx). tile_lia. }
  split.
  - split; rewrite ?Eu, ?Ef, ?Ec, ?Ea; try apply ok.
    + apply Hb; [apply (used_in ok) | apply ok].
    + apply Hb; [apply (free_in ok) | apply ok].
    + intros a Ha. rewrite Em by done. by apply ok.
  - symmetry. apply view_ext. intros x Hx%(used_in ok). pose proof (block_range ok _ Hx).
    apply payload_same; [| split; lia]. intros a Ha. apply Em. tile_lia.
Qed.

(** The heap is in an object of its own, and so is every block of the list of addresses. *)
Record world_ok s A l : Prop := {
  wo_bases : bases_ok s A l;
  wo_heap : exists o, objects (vm s) !! acHeap s = Some o /\ HEAP_SIZE <= o_size o;
  wo_list : forall q b r n, (q, (b, r, n)) ∈ l ->
    b <> acHeap s /\ exists o, objects (vm s) !! b = Some o /\ b <= r < b + o_size o;
  wo_nodup : NoDup ((fun e : base_node => e.2.1.1) <$> l) }.

(** What stays when the kernel is called. *)
Definition kernel_same s s' : Prop :=
  pmbUsed s' = pmbUsed s /\ pmbFree s' = pmbFree s /\ uMemFree s' = uMemFree s /\ acHeap s' = acHeap s /\
  pBaseAddrHead s' = pBaseAddrHead s /\ ulget_free_pagesMemUsed s' = ulget_free_pagesMemUsed s.

Lemma world_kernel s s' A l :
  world_ok s A l -> kernel_same s s' ->
  (forall a, acHeap s <= a < acHeap s + HEAP_SIZE -> mem s' !! a = mem s !! a) ->
  (forall b o, b = acHeap s \/ b ∈ ((fun e : base_node => e.2.1.1) <$> l) ->
     objects (vm s) !! b = Some o -> objects (vm s') !! b = Some o) ->
  world_ok s' A l.
Proof.
  intros [(Hr & Hb & N) (ho & Hh & Hhs) Hl Nl] (E1 & E2 & E3 & E4 & E5 & E6) Hm Ho. split.
  - split_and!; [by eapply heap_rep_outside | by rewrite E5 | done].
  - exists ho. rewrite E4. split; [| done]. apply Ho; [by left | done].
  - intros q b r n Hq. rewrite E4. destruct (Hl _ _ _ _ Hq) as (Nb & o & Hob & Hrg). split; [done |].
    exists o. split; [| done]. apply Ho; [right | done].
    by apply (list_elem_of_fmap_2 (fun e : base_node => e.2.1.1) l (q, (b, r, n))).
  - done.
Qed.

(** An object that is not the heap lies apart from it. *)
Lemma apart_heap s A l a o c :
  world_ok s A l -> objects (vm s) !! a = Some o -> a <> acHeap s -> a <= c < a + o_size o ->
  ~ (acHeap s <= c < acHeap s + HEAP_SIZE).
Proof.
  intros [_ (ho & Hh & Hhs) _ _] Ho N Hc Hc'.
  destruct (objects_disjoint (vm s) a o (acHeap s) ho Ho Hh N); lia.
Qed.

Lemma wp_VMAlloc s A l n flags Q :
  world_ok s A l -> 0 < n -> truth (Z.land flags VMDHA_CONTIG) = true ->
  (forall rc a s', rc <> 0 -> world_ok s' A l -> kernel_same s s' -> objects (vm s') = objects (vm s) -> Q (rc, a) s') ->
  (forall a o f s', world_ok s' A l -> kernel_same s s' ->
     objects (vm s) !! a = None -> objects (vm s') = <[a := o]> (objects (vm s)) ->
     n <= o_size o -> 0 < a -> a + o_size o <= UINT_MAX -> o_phys o = Some f -> 0 < f -> f mod PAGE_SIZE = 0 ->
     f + o_size o <= UINT_MAX -> (truth (Z.land flags VMDHA_16M) = true -> f + o_size o <= 0x1000000) ->
     Q (0, a) s') ->
  wp (VMAlloc n flags) Q s.
Proof.
  intros ok Hn Hc HQ0 HQ. unfold wp, VMAlloc. cbv zeta.
  set (fl := if _ : bool then Z.lor flags VMDHA_USEHIGHMEM else flags).
  assert (Hfl : truth (Z.land fl VMDHA_CONTIG) = true /\ truth (Z.land fl VMDHA_16M) = truth (Z.land flags VMDHA_16M)).
  { subst fl. destruct (_ && _); [| done]. rewrite !Z.land_lor_distr_l.
    change (Z.land VMDHA_USEHIGHMEM VMDHA_CONTIG) with 0. change (Z.land VMDHA_USEHIGHMEM VMDHA_16M) with 0.
    by rewrite !Z.lor_0_r. }
  destruct Hfl as [Hfc Hf16]. clearbody fl. destruct (DevVMAlloc fl n (vm s)) as [[rc [a pg]] v'] eqn:E.
  destruct (Z.eqb_spec rc 0) as [-> | Nz].
  - destruct (alloc_ok _ _ _ _ _ _ E Hn) as (o & Hnone & Ho & Hsz & Ha & _ & Hmax & Hpg & Hcont).
    destruct (Hcont Hfc) as (f & Hf & Hf0 & Hfm & Hfu & Hf16'). rewrite Hf16 in Hf16'.
    assert (Hkeep : forall b o', objects (vm s) !! b = Some o' -> objects v' !! b = Some o').
    { intros b o' Hb. rewrite Ho, lookup_insert_ne; [done |]. intros ->. by rewrite Hnone in Hb. }
    eapply (HQ a o f); try done. eapply world_kernel; [exact ok | done | | by intros b o' _ Hb; apply Hkeep].
    cbn. intros c Hcc. apply lookup_union_r, eq_None_not_Some. intros [Hc1 _]%Hpg.
    destruct ok as [_ (ho & Hh & Hhs) _ _].
    destruct (objects_disjoint v' a o (acHeap s) ho); [rewrite Ho; apply lookup_insert_eq | by apply Hkeep | | lia | lia].
    intros ->. by rewrite Hnone in Hh.
  - pose proof (alloc_fails _ _ _ _ _ _ _ E Nz) as Eo. apply HQ0; [done | | done | done].
    eapply world_kernel; [exact ok | done | done |]. cbn. by rewrite Eo.
Qed.

Lemma wp_VMFree s A l a o Q :
  world_ok s A l -> objects (vm s) !! a = Some o -> a <> acHeap s -> a ∉ ((fun e : base_node => e.2.1.1) <$> l) ->
  (forall s', world_ok s' A l -> kernel_same s s' -> objects (vm s') = delete a (objects (vm s)) -> Q 0 s') ->
  wp (VMFree a) Q s.
Proof.
  intros ok Ho Na Nl HQ. unfold wp, VMFree. destruct (free_ok _ _ _ Ho) as (v' & -> & Eo). cbn.
  apply HQ; [| done | done]. eapply world_kernel; [exact ok | done | |].
  - cbn. intros c Hc. unfold unmap.
    destruct (mem s !! c) as [w |] eqn:Ec.
    + rewrite map_lookup_filter_Some. split; [done |]. cbn. intros Hca. by eapply apart_heap.
    + rewrite map_lookup_filter_None. by left.
  - cbn. intros b o' Hb Hob. rewrite Eo, lookup_delete_ne; [done |]. intros <-. by destruct Hb.
Qed.

Lemma wp_virt_to_phys s a o f (Q : Z -> os2 V -> Prop) :
  objects (vm s) !! a = Some o -> o_phys o = Some f -> 0 < o_size o -> Q f s -> wp (virt_to_phys a) Q s.
Proof.
  intros Ho Hf Hs HQ. unfold wp, virt_to_phys. rewrite (lin_ok _ _ _ _ a Ho Hf) by lia. cbn.
  by replace (f + (a - a)) with f by lia.
Qed.
(** ** Where DMA can reach *)

(** A small buffer lies in 64 kilobytes that start at a multiple of 64 kilobytes, a large one
    starts at such a multiple. *)
Definition dma_aligned (f size : Z) : Prop :=
  if size <? 0x10000 then f / 0x10000 = (f + size - 1) / 0x10000 else f mod 0x10000 = 0.

Lemma crosses_false f size :
  0 < f -> f mod PAGE_SIZE = 0 -> 0 < size -> f + size <= UINT_MAX -> crosses f size = false -> dma_aligned f size.
Proof.
  unfold crosses, dma_aligned, PAGE_SIZE, UINT_MAX. intros Hf Hm Hs Hu. rewrite negb_false_iff.
  rewrite !Z.shiftr_div_pow2 by lia. change (2 ^ 16) with 0x10000.
  destruct (Z.ltb_spec size 0x10000); rewrite u32_small by (unfold is_u32, UINT_MAX; lia);
    intros E%Z.eqb_eq; Z.div_mod_to_equations; lia.
Qed.

(** The next multiple of 64 kilobytes. *)
Lemma next_boundary f : 0 < f -> f + (0x10000 - f mod 0x10000) <= UINT_MAX ->
  u32 (shl32 (u32 (Z.shiftr f 16 + 1)) 16 - f) = 0x10000 - f mod 0x10000 /\ (f + (0x10000 - f mod 0x10000)) mod 0x10000 = 0.
Proof.
  unfold UINT_MAX, shl32. change (16 mod 32) with 16. intros Hf Hu. rewrite Z.shiftr_div_pow2 by lia. change (2 ^ 16) with 0x10000.
  assert (0 <= f / 0x10000) by (apply Z.div_pos; lia).
  assert (E : f = 0x10000 * (f / 0x10000) + f mod 0x10000 /\ 0 <= f mod 0x10000 < 0x10000) by (Z.div_mod_to_equations; lia).
  rewrite (u32_small (_ + 1)) by (unfold is_u32, UINT_MAX; lia).
  rewrite Z.shiftl_mul_pow2 by lia. change (2 ^ 16) with 0x10000.
  rewrite (u32_small (_ * _)) by (unfold is_u32, UINT_MAX; lia).
  rewrite u32_small by (unfold is_u32, UINT_MAX; lia). split; [lia |].
  replace (f + _) with ((f / 0x10000 + 1) * 0x10000) by lia. apply Z_mod_mult.
Qed.

(** ** Buffers *)

(** Memory for a buffer of [size] bytes at [p]: one object is new, the buffer is inside it,
    and it lies where DMA reaches it. *)
Definition buffer s s' (dma low : bool) (size p : Z) : Prop :=
  exists a o f, objects (vm s) !! a = None /\ objects (vm s') = <[a := o]> (objects (vm s)) /\
    0 < p /\ a <= p /\ p + size <= a + o_size o /\ o_phys o = Some f /\
    (low = true -> f + o_size o <= 0x1000000) /\ (dma = true -> dma_aligned (f + (p - a)) size).

(** The list got an entry for the buffer at [p] in the object at [a], or nothing. *)
Definition noted l l' (a p n : Z) : Prop := l' = l \/ exists q, l' = (q, (a, p, n)) :: l.

Lemma wp_note s A l a o p n Q :
  world_ok s A l -> footprint A < HEAP_SIZE -> objects (vm s) !! a = Some o -> a <= p < a + o_size o ->
  a <> acHeap s -> a ∉ ((fun e : base_node => e.2.1.1) <$> l) ->
  (forall s' A' l', world_ok s' A' l' -> vm s' = vm s ->
     acHeap s' = acHeap s -> noted l l' a p n -> Q tt s') ->
  wp (AddBaseAddress a p n) Q s.
Proof.
  intros [Hb (ho & Hh & Hhs) Hl Nl] Hf Ho Hp Na Nla HQ. eapply wp_mono; [by apply wp_AddBaseAddress |].
  intros [] s' ((E1 & E2 & E3 & _) & A' & [[Hb' _] | (q & ws & _ & Hb' & _)]).
  - apply (HQ s' A' l); [| done | done | by left]. split; [done | | | done]; rewrite E1, E2; eauto.
  - apply (HQ s' A' ((q, (a, p, n)) :: l)); [| done | done | right; eauto].
    split; rewrite ?E1, ?E2; [done | by exists ho | |].
    + intros q' b r n' [[= -> -> -> ->] | Hq]%elem_of_cons; [by eauto | by eapply Hl].
    + rewrite fmap_cons. by constructor.
Qed.

Lemma new_object s A l a : world_ok s A l -> objects (vm s) !! a = None ->
  a <> acHeap s /\ a ∉ ((fun e : base_node => e.2.1.1) <$> l).
Proof.
  intros [_ (ho & Hh & _) Hl _] Hn. split.
  - intros ->. by rewrite Hn in Hh.
  - intros ([q [[b r] n]] & E & Hq)%list_elem_of_fmap. cbn in E. subst b.
    destruct (Hl _ _ _ _ Hq) as (_ & o & Ho & _). by rewrite Hn in Ho.
Qed.

Lemma world_register s A l n : world_ok s A l -> world_ok (s <| ulget_free_pagesMemUsed := n |>) A l.
Proof.
  intros [(Hr & Hb & N) Hh Hl Nl]. split; [split_and! | | |]; try done.
  eapply heap_rep_same; [.. | exact Hr]; done.
Qed.

(** Either nothing was allocated, or a buffer. *)
Definition pages_result s l (dma low : bool) (size p : Z) s' : Prop :=
  exists A' l', world_ok s' A' l' /\ acHeap s' = acHeap s /\
    (p = 0 /\ objects (vm s') = objects (vm s) /\ l' = l \/ buffer s s' dma low size p /\ exists a n, noted l l' a p n).

Lemma wp_keep_pages s s0 A l a o f size low :
  world_ok s A l -> footprint A < HEAP_SIZE -> acHeap s = acHeap s0 ->
  objects (vm s0) !! a = None -> objects (vm s) = <[a := o]> (objects (vm s0)) -> a <> acHeap s ->
  a ∉ ((fun e : base_node => e.2.1.1) <$> l) -> 0 < a -> 0 < size <= o_size o -> o_phys o = Some f ->
  (low = true -> f + o_size o <= 0x1000000) -> dma_aligned f size ->
  wp (keep_pages a a size) (fun p s' => p <> 0 /\ pages_result s0 l true low size p s') s.
Proof.
  intros ok Hf Ea Hn Ho Na Nl Ha Hs Hp Hlow Hal. unfold keep_pages.
  eapply wp_bind, wp_note; [exact ok | done | rewrite Ho; apply lookup_insert_eq | lia | done | done |].
  intros s1 A1 l1 ok1 Ev Eh Hl. apply wp_bind, wp_update, wp_ret. split; [lia |]. exists A1, l1.
  split_and!; [by apply world_register | cbn; congruence |]. right. split; [| eauto].
  exists a, o, f. cbn. rewrite Ev. split_and!; try done; try lia. intros _. by replace (f + (a - a)) with f by lia.
Qed.

Lemma kernel_same_trans s1 s2 s3 : kernel_same s1 s2 -> kernel_same s2 s3 -> kernel_same s1 s3.
Proof. intros (? & ? & ? & ? & ? & ?) (? & ? & ? & ? & ? & ?). repeat split; congruence. Qed.

Lemma truth_nz z : z <> 0 -> truth z = true.
Proof. unfold truth. by intros ->%Z.eqb_neq. Qed.

Lemma wp_get_free_dma_pages s A l size flags low :
  world_ok s A l -> footprint A < HEAP_SIZE -> 0 < size -> truth (Z.land flags VMDHA_CONTIG) = true ->
  (low = true -> truth (Z.land flags VMDHA_16M) = true) ->
  wp (__get_free_dma_pages size flags) (fun p s' =>
    (p = 0 /\ objects (vm s') = objects (vm s) /\ kernel_same s s' /\ world_ok s' A l) \/
    p <> 0 /\ pages_result s l true low size p s') s.
Proof.
  intros ok Hf Hs Hc Hlow. unfold __get_free_dma_pages.
  eapply wp_bind, wp_VMAlloc; [exact ok | done | done | |].
  { intros rc a s1 Hrc ok1 K1 Eo. cbn [fst snd]. rewrite truth_nz by done. apply wp_ret. by left. }
  intros a o f s1 ok1 K1 Hn Eo Hsz Ha Hau Hp Hf0 Hfm Hfu H16. cbn [fst snd]. change (truth 0) with false.
  destruct (new_object _ _ _ _ ok Hn) as [Na Nl]. assert (Eh : acHeap s1 = acHeap s) by apply K1.
  cbv iota zeta. eapply wp_bind, wp_virt_to_phys; [rewrite Eo; apply lookup_insert_eq | done | lia |].
  rewrite (truth_nz f), (truth_nz a) by lia. destruct (crosses f size) eqn:Ec.
  2: { eapply wp_mono; [eapply (wp_keep_pages s1 s A l a o f size low); try done; try congruence; [auto |]|].
       - apply crosses_false; try done; lia.
       - intros p s' R. by right. }
  eapply wp_bind, wp_VMAlloc; [exact ok1 | done | done | |].
  { intros rc b s2 Hrc ok2 K2 Eo2. cbn [fst snd].
    eapply wp_bind, wp_VMFree; [exact ok2 | rewrite Eo2, Eo; apply lookup_insert_eq | | done |].
    { destruct K2 as (_ & _ & _ & -> & _). congruence. }
    intros s3 ok3 K3 Eo3. rewrite truth_nz by done. apply wp_ret. left. split_and!; [done | | | done].
    - rewrite Eo3, Eo2, Eo. by apply delete_insert_id.
    - by eapply kernel_same_trans, kernel_same_trans. }
  intros b o2 f2 s2 ok2 K2 Hn2 Eo2 Hsz2 Hb Hbu Hp2 Hf20 Hfm2 Hfu2 H162. cbn [fst snd]. change (truth 0) with false.
  destruct (new_object _ _ _ _ ok1 Hn2) as [Nb Nlb].
  assert (Nab : a <> b) by (intros ->; by rewrite Eo, lookup_insert_eq in Hn2).
  assert (Eh2 : acHeap s2 = acHeap s1) by apply K2.
  eapply wp_bind, wp_VMFree; [exact ok2 | rewrite Eo2, Eo, lookup_insert_ne by done; apply lookup_insert_eq | congruence | done |].
  intros s3 ok3 K3 Eo3. assert (Eh3 : acHeap s3 = acHeap s2) by apply K3.
  assert (Hnb : objects (vm s) !! b = None) by (rewrite Eo, lookup_insert_ne in Hn2; done).
  assert (Eo3' : objects (vm s3) = <[b := o2]> (objects (vm s))).
  { rewrite Eo3, Eo2, Eo, delete_insert_ne, delete_insert_id; done. }
  eapply wp_bind, wp_virt_to_phys; [rewrite Eo3'; apply lookup_insert_eq | done | lia |].
  rewrite (truth_nz f2), (truth_nz b) by lia. cbn [andb]. destruct (crosses f2 size) eqn:Ec2.
  - eapply wp_bind, wp_VMFree; [exact ok3 | rewrite Eo3'; apply lookup_insert_eq | congruence | done |].
    intros s4 ok4 K4 Eo4. apply wp_ret. left. split_and!; [done | | | done].
    + rewrite Eo4, Eo3'. by apply delete_insert_id.
    + by do 3 (eapply kernel_same_trans; [done |]).
  - eapply wp_mono; [eapply (wp_keep_pages s3 s A l b o2 f2 size low); try done; try congruence; [auto |]|].
    + apply crosses_false; try done; lia.
    + intros p s' R. by right.
Qed.

Lemma pages_size order : 0 <= order < 16 ->
  let size := u32 (shl32 1 order * PAGE_SIZE) in size = 2 ^ order * 4096 /\ 4096 <= size <= 0x8000000.
Proof.
  intros Ho. unfold shl32, PAGE_SIZE. rewrite Z.mod_small, Z.shiftl_1_l by lia.
  assert (1 <= 2 ^ order <= 2 ^ 15) by (split; [apply (Z.pow_le_mono_r 2 0) | apply Z.pow_le_mono_r]; lia).
  change (2 ^ 15) with 32768 in *. rewrite (u32_small (2 ^ order)), u32_small by (unfold is_u32, UINT_MAX; lia). lia.
Qed.

Lemma low_is_dma mask : truth (Z.land mask GFP_DMA) = true -> truth (Z.land mask (Z.lor GFP_DMA GFP_DMAHIGHMEM)) = true.
Proof.
  unfold truth. rewrite !negb_true_iff, !Z.eqb_neq, Z.land_lor_distr_r, Z.lor_eq_0_iff. intros N [? _]. done.
Qed.

(** Memory that is twice as large, or 64 kilobytes larger, than the buffer. *)
Definition roomy (size : Z) : Z := if size <? 0x10000 then u32 (size * 2) else u32 (size + 0x10000).

Lemma roomy_le size (dma : bool) : 4096 <= size <= 0x8000000 -> size <= if dma then roomy size else size.
Proof.
  unfold roomy. intros Hs. destruct dma; [| lia].
  destruct (size <? 0x10000); rewrite u32_small by (unfold is_u32, UINT_MAX; lia); lia.
Qed.

Lemma roomy_fits size f :
  4096 <= size <= 0x8000000 -> 0 < f -> f mod PAGE_SIZE = 0 -> f + roomy size <= UINT_MAX ->
  crosses f size = true -> 0 < 0x10000 - f mod 0x10000 /\ 0x10000 - f mod 0x10000 + size <= roomy size.
Proof.
  unfold roomy, crosses, PAGE_SIZE, UINT_MAX. intros Hs Hf Hm Hu. rewrite negb_true_iff, Z.eqb_neq.
  rewrite !Z.shiftr_div_pow2 by lia. change (2 ^ 16) with 0x10000. cbv zeta.
  destruct (Z.ltb_spec size 0x10000).
  - rewrite (u32_small (size * 2)) in * by (unfold is_u32, UINT_MAX; lia).
    rewrite u32_small by (unfold is_u32, UINT_MAX; lia). intros E. Z.div_mod_to_equations. lia.
  - rewrite (u32_small (size + _)) in * by (unfold is_u32, UINT_MAX; lia).
    rewrite u32_small by (unfold is_u32, UINT_MAX; lia). intros E. Z.div_mod_to_equations. lia.
Qed.

(** C23: pages for a buffer, of an order below 16 and while the heap has room, lie inside one new
    object of the kernel.  Those for DMA do not cross 64 kilobytes, or start at a multiple of it,
    and lie below 16 megabytes where that is asked for.  A call that fails allocates nothing. *)
Theorem get_free_pages_safe s A l mask order :
  world_ok s A l -> footprint A < HEAP_SIZE -> 0 <= order < 16 ->
  let dma := truth (Z.land mask (Z.lor GFP_DMA GFP_DMAHIGHMEM)) in
  let low := truth (Z.land mask GFP_DMA) in
  wp (__get_free_pages mask order) (pages_result s l dma low (2 ^ order * 4096)) s.
Proof.
  intros ok Hf Ho dma low. unfold __get_free_pages. cbv zeta. fold dma low.
  destruct (pages_size order Ho) as [Es Hs]. rewrite <- Es. set (size := u32 _) in *. clearbody size. clear Es Ho.
  assert (Hld : low = true -> dma = true) by apply low_is_dma. clearbody low dma.
  set (flags := if dma && low then _ else _).
  assert (Hc : truth (Z.land flags VMDHA_CONTIG) = true) by (subst flags; by destruct (_ && _)).
  assert (H16 : low = true -> truth (Z.land flags VMDHA_16M) = true).
  { intros El. subst flags. by rewrite (Hld El), El. }
  clearbody flags.
  change (if size <? 0x10000 then u32 (size * 2) else u32 (size + 0x10000)) with (roomy size).
  assert (Hfirst : wp (if dma then __get_free_dma_pages size flags else ret NULL) (fun p s' =>
    (p = 0 /\ objects (vm s') = objects (vm s) /\ kernel_same s s' /\ world_ok s' A l) \/
    p <> 0 /\ pages_result s l dma low size p s') s).
  { destruct dma; [apply (wp_get_free_dma_pages _ A); by (lia || auto) | apply wp_ret; by left]. }
  eapply wp_bind, wp_mono; [exact Hfirst |]. clear Hfirst.
  intros p s1 [(-> & Eo1 & K1 & ok1) | [Hp R]]; [| rewrite (truth_nz p) by done; by apply wp_ret].
  change (truth 0) with false. cbv iota. assert (Eh1 : acHeap s1 = acHeap s) by apply K1.
  set (n := if dma then roomy size else size).
  assert (Hn : size <= n) by (subst n; by apply roomy_le).
  eapply wp_bind, wp_VMAlloc; [exact ok1 | lia | done | |].
  { intros rc a s2 Hrc ok2 K2 Eo2. cbn [fst snd]. rewrite truth_nz by done. apply wp_ret. exists A, l.
    assert (Eh2 : acHeap s2 = acHeap s1) by apply K2. split_and!; [done | congruence |]. left.
    split_and!; [done | congruence | done]. }
  intros a o f s2 ok2 K2 Hna Eo2 Hsz Ha Hau Hph Hf0 Hfm Hfu Hl16. cbn [fst snd]. change (truth 0) with false.
  destruct (new_object _ _ _ _ ok1 Hna) as [Na Nl]. assert (Eh2 : acHeap s2 = acHeap s1) by apply K2.
  rewrite Eo1 in Hna, Eo2. cbv iota zeta.
  assert (Hend : forall s3 A3 l3 p, world_ok s3 A3 l3 -> vm s3 = vm s2 -> acHeap s3 = acHeap s2 -> noted l l3 a p n ->
    0 < p -> a <= p -> p + size <= a + o_size o -> (dma = true -> dma_aligned (f + (p - a)) size) ->
    wp (when (truth p) (update (fun s => s <| ulget_free_pagesMemUsed := u32 (ulget_free_pagesMemUsed s + n) |>));;; ret p)
      (pages_result s l dma low size) s3).
  { intros s3 A3 l3 p ok3 Ev Eh3 Hno Hp1 Hp2 Hp3 Hal. rewrite truth_nz by lia. apply wp_bind, wp_update, wp_ret.
    exists A3, l3. split_and!; [by apply world_register | cbn; congruence |]. right. split; [| eauto].
    exists a, o, f. cbn. rewrite Ev. split_and!; auto. }
  assert (Hao : objects (vm s2) !! a = Some o) by (rewrite Eo2; apply lookup_insert_eq).
  apply wp_bind. destruct dma.
  2: { apply wp_bind. eapply wp_note; [exact ok2 | done | done | lia | congruence | done |].
       intros s3 A3 l3 ok3 Ev Eh3 Hno. apply wp_ret. eapply Hend; (done || lia). }
  eapply wp_bind, wp_virt_to_phys; [done | done | lia |]. rewrite truth_nz by lia. cbv zeta.
  destruct (crosses f size) eqn:Ec.
  - destruct (roomy_fits size f Hs Hf0 Hfm ltac:(lia) Ec) as [Hd1 Hd2].
    destruct (next_boundary f Hf0 ltac:(lia)) as [Ed Em]. unfold UINT_MAX in *.
    rewrite Ed. set (d := 0x10000 - _) in *. clearbody d.
    rewrite (u32_small (a + d)) by (unfold is_u32, UINT_MAX; lia).
    apply wp_bind. eapply wp_note; [exact ok2 | done | done | lia | congruence | done |].
    intros s3 A3 l3 ok3 Ev Eh3 Hno. apply wp_ret. eapply Hend; try done; try lia.
    intros _. replace (f + (a + d - a)) with (f + d) by lia. unfold dma_aligned.
    destruct (Z.ltb_spec size 0x10000); [Z.div_mod_to_equations; lia | done].
  - apply wp_ret. eapply (Hend s2 A l); try done; try lia; [by left |].
    intros _. replace (f + (a - a)) with f by lia. apply crosses_false; try done; unfold UINT_MAX in *; lia.
Qed.

(** ** Giving pages back *)

Lemma base_find_perm p l e : base_find p l = Some e -> l ≡ₚ e :: base_drop p l /\ e.2.1.2 = p.
Proof.
  induction l as [| e' l IH]; [done |]. rewrite base_find_cons. cbn [base_drop].
  destruct (decide (e'.2.1.2 = p)); [by intros [= ->] |]. intros [Hl Hp]%IH. split; [| done].
  rewrite Hl at 1. apply Permutation_swap.
Qed.

Lemma base_find_none p l : base_find p l = None -> base_drop p l = l.
Proof.
  induction l as [| e' l IH]; [done |]. rewrite base_find_cons. cbn [base_drop].
  destruct (decide (e'.2.1.2 = p)); [done |]. intros Hl. by rewrite IH.
Qed.

(** What the list says of an address: its base and its size. *)
Definition base_said p l (a n : Z) : Prop :=
  match base_find p l with
  | Some (_, (b, _, k)) => a = b /\ n = k
  | None => a = p /\ n = 0 /\ a ∉ ((fun e : base_node => e.2.1.1) <$> l)
  end.

Lemma wp_base s A l p a n Q :
  world_ok s A l -> base_said p l a n ->
  (forall s' A', world_ok s' A' (base_drop p l) -> vm s' = vm s -> acHeap s' = acHeap s ->
     ulget_free_pagesMemUsed s' = ulget_free_pagesMemUsed s ->
     a ∉ ((fun e : base_node => e.2.1.1) <$> base_drop p l) -> Q (a, n) s') ->
  wp (GetBaseAddress p 0) Q s.
Proof.
  intros [Hb (ho & Hh & Hhs) Hl Nl] Hsaid HQ. eapply wp_mono; [by apply wp_GetBaseAddress |].
  intros r s' ((E1 & E2 & E3 & _) & Hr). unfold base_said in Hsaid.
  destruct (base_find p l) as [[q [[b r'] k]] |] eqn:Ef.
  - destruct Hsaid as [-> ->], Hr as [-> (A' & Hb' & _)]. destruct (base_find_perm _ _ _ Ef) as [Hp _].
    rewrite Hp, fmap_cons in Nl. cbn in Nl. apply NoDup_cons in Nl as [Nb Nl].
    apply (HQ s' A'); try done. split; rewrite ?E1, ?E2; [done | by exists ho | | done].
    intros q' b' r2 n' Hq. apply (Hl q' b' r2 n'). rewrite Hp. by right.
  - destruct Hsaid as (-> & -> & Nb), Hr as [-> Hb']. rewrite (base_find_none _ _ Ef) in *.
    apply (HQ s' A); try done. split; rewrite ?E1, ?E2; [done | by exists ho | done | done].
Qed.

(** C33: pages that are given back go back to the kernel: the object of the kernel in which they
    are is freed, the other objects stay, and the rest of the memory stays in order.  If the list
    of moved pages has an entry for them, the object is the one it says, the entry leaves the
    list and its size is taken off the count of memory in use; if it has none, the pages are
    themselves the object, and the count stays as it is, even if the pages were counted
    ([base_said] with [n] = 0).  Pages that were moved and whose entry was not made, because no
    memory was left for it, cannot be given back and are left out. *)
Theorem free_pages_returns s A l p order a n o :
  world_ok s A l -> base_said p l a n -> objects (vm s) !! a = Some o -> a <> acHeap s ->
  wp (free_pages p order) (fun r s' => r = 0 /\ acHeap s' = acHeap s /\ objects (vm s') = delete a (objects (vm s)) /\
    ulget_free_pagesMemUsed s' = u32 (ulget_free_pagesMemUsed s - n) /\
    exists A', world_ok s' A' (base_drop p l)) s.
Proof.
  intros ok Hsaid Ho Na. eapply wp_bind, wp_base; [done | done |]. intros s1 A1 ok1 Ev Eh Eu Nl. cbn [fst snd].
  eapply wp_bind, wp_VMFree; [exact ok1 | by rewrite Ev | congruence | done |].
  intros s2 ok2 (_ & _ & _ & Eh2 & _ & Eu2) Eo. change (truth 0) with false. cbn [negb].
  apply wp_bind, wp_update, wp_ret. split_and!; [done | cbn; congruence | cbn; congruence | cbn; congruence |].
  exists A1. by apply world_register.
Qed.
End Kernel.
