(* ===== verification/Os2Kernel.v ===== *)
(** * Os2Kernel: starting the heap, and a kernel that keeps its promises

    [HeapInit] over any kernel that keeps the promises of [KernelVMOk]; a small kernel that
    does, whose memory starts at 64 kilobytes, ends at 16 megabytes and is where it is
    mapped; and the places where the code is not what its comments say. *)

From S2P Require Import Prelude Os2Heap Os2HeapSafe Os2HeapFree Os2HeapSpec Os2Pages Os2PagesSafe Os2Dma.
Open Scope Z_scope.
Open Scope state_scope.

(** ** Starting *)

Section Init.
Context {V : Type} `{KernelVMOk V}.
Implicit Types (s : os2 V).

(** One free block. *)
Lemma init_heap_ok s a :
  0 < a -> a mod 4 = 0 -> a + HEAP_SIZE <= UINT_MAX -> acHeap s = a -> pmbFree s = a -> pmbUsed s = NULL ->
  uMemFree s = HEAP_SIZE - HDR_SIZE ->
  (forall c, a <= c < a + HEAP_SIZE -> c mod 4 = 0 -> is_Some (mem s !! c)) ->
  header (mem s) (a, HEAP_SIZE - HDR_SIZE) NULL -> heap_rep s ∅.
Proof.
  intros Ha Hm Hu Eh Ef Eu Ec Hmap Hhd. exists [(a, HEAP_SIZE - HDR_SIZE)], [], [(a, HEAP_SIZE - HDR_SIZE)].
  split; [| done]. split; rewrite ?Eh, ?Ef, ?Eu; try done.
  cbn. split; [done |]. by exists NULL.
Qed.

Lemma mapped_union (pg m : gmap Z Z) c : is_Some (pg !! c) -> is_Some ((pg ∪ m) !! c).
Proof. intros [w Hw]. exists w. by apply lookup_union_Some_l. Qed.

(** The heap after it was started, or the kernel's refusal. *)
Lemma wp_HeapInit s uSize :
  pmbUsed s = NULL -> pBaseAddrHead s = NULL -> uSize = 0 \/ HEAP_SIZE <= uSize ->
  wp (HeapInit uSize) (fun r s' =>
    (r = 0 /\ acHeap s' = acHeap s /\ mem s' = mem s /\ objects (vm s') = objects (vm s)) \/
    (r = HEAP_SIZE - HDR_SIZE /\ world_ok s' ∅ [] /\ objects (vm s) !! acHeap s' = None /\
     objects (vm s) = delete (acHeap s') (objects (vm s')))) s.
Proof.
  intros Eu Eb Hn. unfold HeapInit. cbv zeta.
  replace (if HEAP_SIZE <? _ then _ else _) with HEAP_SIZE.
  2: { destruct Hn as [-> | Hn]; [done |]. destruct (Z.eqb_spec uSize 0) as [-> | _]; [done |].
       destruct (Z.ltb_spec HEAP_SIZE uSize); lia. }
  apply wp_bind. unfold wp, VMAlloc. cbv zeta. set (fl := if _ : bool then _ else _). clearbody fl.
  destruct (DevVMAlloc fl HEAP_SIZE (vm s)) as [[rc [a pg]] v'] eqn:E.
  destruct (Z.eqb_spec rc 0) as [-> | Nz]; cbn [fst snd].
  2: { rewrite truth_nz by done. apply wp_ret. left. split_and!; try done. cbn. by eapply alloc_fails. }
  change (truth 0) with false. cbv iota.
  destruct (alloc_ok _ _ _ _ _ _ E) as (o & Hnone & Ho & Hsz & Ha & Hmod & Hmax & Hpg & _); [done |].
  assert (Hm4 : a mod 4 = 0) by (unfold PAGE_SIZE in Hmod; Z.div_mod_to_equations; lia).
  assert (Hmap : forall c, a <= c < a + HEAP_SIZE -> c mod 4 = 0 -> is_Some ((pg ∪ mem s) !! c)).
  { intros c Hc Hc4. apply mapped_union, Hpg. split; [lia | done]. }
  set (m := pg ∪ mem s) in *. clearbody m. clear E Hpg. assert (HEAP_SIZE = 131072) by done.
  assert (Hm : forall k, 0 <= k < HEAP_SIZE -> k mod 4 = 0 -> is_Some (m !! (a + k))).
  { intros k Hk Hk4. apply Hmap; [lia |]. rewrite <- Z.add_mod_idemp_l, Hm4 by lia. done. }
  apply wp_bind, wp_update, wp_bind, wp_set_size; [lia | unfold HDR_SIZE; lia | by apply Hm |]. cbn.
  apply wp_bind, wp_store. { cbn. rewrite lookup_insert_ne by lia. replace a with (a + 0) by lia. by apply Hm. }
  cbn. apply wp_bind, wp_set_next; [lia | unfold HDR_SIZE; lia | |].
  { cbn. rewrite !lookup_insert_ne by lia. by apply Hm. }
  eapply wp_bind, wp_blk_size; [lia | unfold HDR_SIZE; lia | |].
  { cbn. by rewrite !lookup_insert_ne, lookup_insert_eq by lia. }
  apply wp_bind, wp_update, wp_ret. right. split; [done |]. cbn [acHeap set_field vm]. split_and!; [| done |].
  - split; [split_and!; [| done | constructor] | | by intros ???? ?%not_elem_of_nil | constructor].
    + apply (init_heap_ok _ a); try done; [lia | |]; cbn.
      * intros c Hc Hc4. rewrite !lookup_insert_is_Some'. right. right. right. by apply Hmap.
      * split; cbn; [by rewrite lookup_insert_ne, lookup_insert_eq by lia | | by rewrite lookup_insert_eq].
        by rewrite !lookup_insert_ne, lookup_insert_eq by lia.
    + exists o. cbn. split; [| done]. rewrite Ho. apply lookup_insert_eq.
  - rewrite Ho. by rewrite delete_insert_id.
Qed.
End Init.

(** ** A small kernel *)

(** The objects one after the other: how many pages each has after its first, and whether it
    is still there. *)
Definition shelf : Type := list (positive * bool).

Definition pages_bytes (n : positive) : Z := PAGE_SIZE * Z.pos n.

Fixpoint shelf_end (lo : Z) (v : shelf) : Z :=
  match v with
  | [] => lo
  | (n, _) :: v => shelf_end (lo + pages_bytes n) v
  end.

Fixpoint shelf_objects (lo : Z) (v : shelf) : gmap Z vm_object :=
  match v with
  | [] => ∅
  | (n, live) :: v =>
      let o := shelf_objects (lo + pages_bytes n) v in
      if live : bool then <[lo := VmObject (pages_bytes n) (Some lo)]> o else o
  end.

Fixpoint shelf_free (lo a : Z) (v : shelf) : option (Z * shelf) :=
  match v with
  | [] => None
  | (n, live) :: v =>
      if lo =? a then if live : bool then Some (pages_bytes n, (n, false) :: v) else None
      else match shelf_free (lo + pages_bytes n) a v with
           | Some (k, v') => Some (k, (n, live) :: v')
           | None => None
           end
  end.

Definition SHELF_START : Z := 0x10000.
Definition SHELF_END : Z := 0x1000000.

Fixpoint zeros (n : nat) (a : Z) : gmap Z Z :=
  match n with
  | O => ∅
  | S n => <[a := 0]> (zeros n (a + 4))
  end.

Definition zero_words (a n : Z) : gmap Z Z := zeros (Z.to_nat (n / 4)) a.

#[export] Instance shelf_kernel : KernelVM shelf := {
  DevVMAlloc flags size v :=
    let n := Z.to_pos ((size + (PAGE_SIZE - 1)) / PAGE_SIZE) in
    let a := shelf_end SHELF_START v in
    if a + pages_bytes n <=? SHELF_END then (0, (a, zero_words a (pages_bytes n)), v ++ [(n, true)])
    else (8, (0, ∅), v);
  DevVMFree a v := match shelf_free SHELF_START a v with Some (n, v') => (0, n, v') | None => (87, 0, v) end;
  DevLinToPageList c v := (0, c) }.

Lemma pages_bytes_pos n : 4096 <= pages_bytes n /\ pages_bytes n mod PAGE_SIZE = 0 /\ pages_bytes n mod 4 = 0.
Proof.
  unfold pages_bytes, PAGE_SIZE. split_and!; [lia | by rewrite Z.mul_comm, Z_mod_mult |].
  replace (4096 * Z.pos n) with (1024 * Z.pos n * 4) by lia. apply Z_mod_mult.
Qed.

Lemma shelf_end_le lo v : lo <= shelf_end lo v.
Proof.
  revert lo. induction v as [| [n b] v IH]; intros lo; cbn [shelf_end]; [lia |].
  pose proof (IH (lo + pages_bytes n)). pose proof (pages_bytes_pos n). lia.
Qed.

Lemma shelf_end_mod lo v : lo mod PAGE_SIZE = 0 -> shelf_end lo v mod PAGE_SIZE = 0.
Proof.
  revert lo. induction v as [| [n b] v IH]; intros lo Hm; cbn [shelf_end]; [done |]. apply IH.
  destruct (pages_bytes_pos n) as (_ & Hn & _). by rewrite <- Z.add_mod_idemp_l, Hm.
Qed.

Lemma shelf_objects_range lo v a o : shelf_objects lo v !! a = Some o ->
  lo <= a /\ 0 < o_size o /\ a + o_size o <= shelf_end lo v /\ o_phys o = Some a.
Proof.
  revert lo. induction v as [| [n live] v IH]; intros lo; cbn [shelf_objects shelf_end]; [by rewrite lookup_empty |].
  pose proof (pages_bytes_pos n). pose proof (shelf_end_le (lo + pages_bytes n) v). destruct live.
  - intros [[<- <-] | [_ ?%IH]]%lookup_insert_Some; [cbn; split_and!; try done; lia | split_and!; try lia; tauto].
  - intros ?%IH. split_and!; try lia; tauto.
Qed.

Lemma shelf_disjoint lo v a o b o' : shelf_objects lo v !! a = Some o -> shelf_objects lo v !! b = Some o' -> a <> b ->
  a + o_size o <= b \/ b + o_size o' <= a.
Proof.
  revert lo. induction v as [| [n live] v IH]; intros lo; cbn [shelf_objects]; [by rewrite lookup_empty |].
  destruct live; [| apply IH].
  intros [[<- <-] | [Na Ha]]%lookup_insert_Some [[<- <-] | [Nb Hb]]%lookup_insert_Some N; cbn.
  - done.
  - apply shelf_objects_range in Hb. lia.
  - apply shelf_objects_range in Ha. lia.
  - by eapply IH.
Qed.

Lemma shelf_snoc lo v n : shelf_objects lo (v ++ [(n, true)]) =
  <[shelf_end lo v := VmObject (pages_bytes n) (Some (shelf_end lo v))]> (shelf_objects lo v).
Proof.
  revert lo. induction v as [| [k live] v IH]; intros lo; cbn [app shelf_objects shelf_end]; [done |].
  rewrite IH. destruct live; [| done]. apply insert_insert_ne.
  pose proof (shelf_end_le (lo + pages_bytes k) v). pose proof (pages_bytes_pos k). lia.
Qed.

Lemma shelf_end_free lo v : shelf_objects lo v !! shelf_end lo v = None.
Proof.
  apply eq_None_not_Some. intros [o Ho]. apply shelf_objects_range in Ho. lia.
Qed.

Lemma shelf_free_spec lo v a o : shelf_objects lo v !! a = Some o ->
  exists v', shelf_free lo a v = Some (o_size o, v') /\ shelf_objects lo v' = delete a (shelf_objects lo v).
Proof.
  revert lo. induction v as [| [n live] v IH]; intros lo; cbn [shelf_objects shelf_free]; [by rewrite lookup_empty |].
  assert (Hnone : shelf_objects (lo + pages_bytes n) v !! lo = None).
  { apply eq_None_not_Some. intros [o' Ho]. apply shelf_objects_range in Ho. pose proof (pages_bytes_pos n). lia. }
  intros Ho. destruct (Z.eqb_spec lo a) as [<- | N].
  - destruct live; [| by rewrite Hnone in Ho]. rewrite lookup_insert_eq in Ho. injection Ho as <-.
    eexists. split; [done |]. cbn [shelf_objects]. by rewrite delete_insert_id.
  - destruct live.
    + rewrite lookup_insert_ne in Ho by done. destruct (IH _ Ho) as (v' & -> & E). eexists. split; [done |].
      cbn [shelf_objects]. by rewrite E, delete_insert_ne.
    + destruct (IH _ Ho) as (v' & -> & E). eexists. split; [done |]. cbn [shelf_objects]. done.
Qed.

Lemma zeros_dom n a c : is_Some (zeros n a !! c) <-> exists i, 0 <= i < Z.of_nat n /\ c = a + 4 * i.
Proof.
  revert a. induction n as [| n IH]; intros a; cbn [zeros].
  - rewrite lookup_empty. split; [by intros [? ?] | intros (i & ? & _); lia].
  - rewrite lookup_insert_is_Some', IH. split.
    + intros [-> | (i & Hi & ->)]; [exists 0 | exists (i + 1)]; lia.
    + intros (i & Hi & ->). destruct (Z.eq_dec i 0) as [-> | N]; [left; lia | right; exists (i - 1); lia].
Qed.

Lemma zero_words_dom a n c : 0 <= n -> n mod 4 = 0 -> a mod 4 = 0 ->
  is_Some (zero_words a n !! c) <-> a <= c < a + n /\ c mod 4 = 0.
Proof.
  intros Hn Hm Ha. unfold zero_words. rewrite zeros_dom, Z2Nat.id by (apply Z.div_pos; lia). split.
  - intros (i & Hi & ->). Z.div_mod_to_equations. lia.
  - intros [Hc Hc4]. exists ((c - a) / 4). Z.div_mod_to_equations. lia.
Qed.

#[export] Program Instance shelf_ok : KernelVMOk shelf := {| objects := shelf_objects SHELF_START |}.
Next Obligation. intros. by eapply shelf_disjoint. Qed.
Next Obligation.
  intros v fl n a pg v' E Hn. cbn in E. destruct (Z.leb_spec (shelf_end SHELF_START v + pages_bytes (Z.to_pos ((n + (PAGE_SIZE - 1)) / PAGE_SIZE))) SHELF_END) as [Hl | Hl]; [| done].
  set (k := Z.to_pos _) in *. injection E as <- <- <-. set (a := shelf_end SHELF_START v) in *.
  assert (Hk : n <= pages_bytes k).
  { subst k. unfold pages_bytes, PAGE_SIZE. rewrite Z2Pos.id; Z.div_mod_to_equations; lia. }
  assert (Ha : SHELF_START <= a) by apply shelf_end_le. assert (Hm : a mod PAGE_SIZE = 0) by by apply shelf_end_mod.
  destruct (pages_bytes_pos k) as (Hp & _ & Hp4). exists (VmObject (pages_bytes k) (Some a)).
  unfold SHELF_START, SHELF_END, UINT_MAX in *. cbn [o_size o_phys].
  split_and!; [apply shelf_end_free | apply shelf_snoc | done | lia | done | lia | |].
  - intros c. apply zero_words_dom; [lia | done |]. unfold PAGE_SIZE in Hm. Z.div_mod_to_equations. lia.
  - intros _. exists a. split_and!; try done; lia.
Qed.
Next Obligation.
  intros v fl n rc a pg v' E Hrc. cbn in E. destruct (_ <=? _); by simplify_eq.
Qed.
Next Obligation.
  intros v a o Ho. destruct (shelf_free_spec _ _ _ _ Ho) as (v' & E & Ev). exists v'. cbn. by rewrite E.
Qed.
Next Obligation.
  intros v a o f c Ho Hf Hc. apply shelf_objects_range in Ho as (_ & _ & _ & Ho). cbn. rewrite Hf in Ho. injection Ho as ->.
  f_equal. lia.
Qed.

(** ** The driver after the heap was started *)

Definition boot : os2 shelf := Os2 ∅ 0 0 0 0 0 0 0 false 0 0 [].
Definition booted : os2 shelf := match HeapInit HEAP_SIZE boot with Some (_, s) => s | None => boot end.

Lemma boot_starts : fst <$> HeapInit HEAP_SIZE boot = Some (HEAP_SIZE - HDR_SIZE).
Proof. by vm_compute. Qed.

Lemma booted_ok : world_ok booted ∅ [].
Proof.
  destruct (wp_run _ _ _ (wp_HeapInit boot HEAP_SIZE eq_refl eq_refl ltac:(by right))) as (r & s' & E & [[-> _] | (_ & ok & _)]).
  - pose proof boot_starts as B. by rewrite E in B.
  - unfold booted. by rewrite E.
Qed.

(** ** Witnesses *)

Definition sample_client : client :=
  Do (Malloc 10) (fun p =>
    if decide (p = NULL) then Stop
    else Do (Poke p 2 77) (fun _ => Do (Peek p 2) (fun w =>
      Do (Realloc p w) (fun q => if decide (q = NULL) then Stop else Do (Free q) (fun _ => Stop))))).

Lemma footprint_empty : footprint ∅ = 0.
Proof. done. Qed.

Lemma sample_may_run : may_run ∅ sample_client.
Proof.
  split; [by split |]. intros p A [[-> ->] | (Hp & _ & _ & ws & [_ Hlen] & ->)]; [done |].
  rewrite decide_False by done. split; [exists ws; split; [apply lookup_insert_eq | lia] |].
  intros r1 A1 (-> & l1 & Hl1 & ->). rewrite lookup_insert_eq in Hl1. injection Hl1 as <-.
  split; [eexists; split; [apply lookup_insert_eq |]; rewrite length_insert; lia |].
  intros w A2 ((l2 & Hl2 & Hw) & ->). rewrite lookup_insert_eq in Hl2. injection Hl2 as <-.
  rewrite list_lookup_insert_eq in Hw by lia. injection Hw as <-. split.
  - split; [done |]. split; [right; rewrite lookup_insert_eq; eauto |].
    rewrite insert_insert_eq, footprint_insert, footprint_empty, length_insert by done. unfold HDR_SIZE, HEAP_SIZE. lia.
  - intros q A3. unfold call_spec. rewrite decide_False, decide_False by done.
    intros [[-> ->] | (l3 & l' & _ & Hq & _ & Hqn & _ & _ & ->)]; [done |]. rewrite decide_False by done.
    split; [| done]. right. rewrite lookup_delete_ne, lookup_insert_eq; [eauto |].
    intros <-. by rewrite lookup_insert_eq in Hqn.
Qed.

Lemma heap_refines_witness :
  heap_rep booted ∅ /\ may_run ∅ sample_client /\
  wp (run_client sample_client)
    (fun rs s' => exists A', view_run ∅ sample_client rs A' /\ heap_step [] booted s' /\ heap_rep s' A') booted.
Proof.
  assert (Hr : heap_rep booted ∅) by apply booted_ok.
  split; [done | split; [exact sample_may_run |]]. apply heap_refines; [done | exact sample_may_run].
Defined.

Lemma get_free_pages_safe_witness :
  world_ok booted ∅ [] /\
  wp (__get_free_pages GFP_DMA 1) (pages_result booted [] true true (2 ^ 1 * 4096)) booted.
Proof.
  split; [exact booted_ok |]. apply (get_free_pages_safe booted ∅ [] GFP_DMA 1); [exact booted_ok | done | lia].
Defined.

(** An object of three pages, and a buffer on its second page. *)
Definition with_object (s : os2 shelf) : os2 shelf := s <| vm := vm s ++ [(3%positive, true)] |>.

Lemma booted_shelf : vm booted = [(32%positive, true)] /\ acHeap booted = 65536.
Proof. by vm_compute. Qed.

Lemma with_object_ok (s : os2 shelf) : world_ok s ∅ [] -> vm s = [(32%positive, true)] ->
  world_ok (with_object s) ∅ [] /\ objects (vm (with_object s)) !! 196608 = Some (VmObject 12288 (Some 196608)).
Proof.
  intros ok Ev. split; [| change (vm (with_object s)) with (vm s ++ [(3%positive, true)]); by rewrite Ev].
  eapply world_kernel; [exact ok | done | done |].
  intros b o _. change (vm (with_object s)) with (vm s ++ [(3%positive, true)]). rewrite Ev. intros Hb.
  change (<[SHELF_START := VmObject (pages_bytes 32) (Some SHELF_START)]> (∅ : gmap Z vm_object) !! b = Some o) in Hb.
  apply lookup_insert_Some in Hb as [[<- <-] | [_ Hb]]; [done |].
  by rewrite lookup_empty in Hb.
Qed.

Definition noted_world : os2 shelf := default boot (snd <$> AddBaseAddress 196608 200704 12288 (with_object booted)).

Lemma noted_head : (fun r : unit * os2 shelf => pBaseAddrHead r.2 =? 0) <$> AddBaseAddress 196608 200704 12288 (with_object booted) = Some false.
Proof. by vm_compute. Qed.


Lemma wp_noted (s : os2 shelf) : world_ok s ∅ [] -> vm s = [(32%positive, true)] -> acHeap s = 65536 ->
  wp (AddBaseAddress 196608 200704 12288) (fun _ s' => pBaseAddrHead s' <> NULL -> exists A q,
    world_ok s' A [(q, (196608, 200704, 12288))] /\ acHeap s' = 65536 /\
    objects (vm s') !! 196608 = Some (VmObject 12288 (Some 196608))) (with_object s).
Proof.
  intros ok Ev Ea. destruct (with_object_ok _ ok Ev) as [ok2 Ho]. clear ok Ev.
  assert (Ea2 : acHeap (with_object s) = 65536) by done. set (s2 := with_object s) in *. clearbody s2. clear Ea s.
  eapply wp_note; [exact ok2 | done | exact Ho | cbn; lia | by rewrite Ea2 | by intros ?%not_elem_of_nil |].
  intros s' A' l' ok' Evm Eh [-> | [q ->]] Hh.
  - destruct ok' as [(_ & Hb & _) _ _ _]. done.
  - exists A', q. rewrite Evm, Eh. done.
Qed.

Lemma noted_world_ok : exists A q, world_ok noted_world A [(q, (196608, 200704, 12288))] /\
  acHeap noted_world = 65536 /\ objects (vm noted_world) !! 196608 = Some (VmObject 12288 (Some 196608)).
Proof.
  destruct booted_shelf as [Ev Ea]. pose proof (wp_noted _ booted_ok Ev Ea) as W.
  pose proof noted_head as Hh. unfold noted_world. apply wp_run in W as ([] & s' & E & W).
  rewrite E in Hh |- *. apply W. clear -Hh. injection Hh as Hh. by apply Z.eqb_neq.
Qed.

#[local] Opaque booted noted_world.

Lemma noted_said q : base_said 200704 [(q, (196608, 200704, 12288))] 196608 12288.
Proof. done. Qed.

Lemma free_pages_returns_witness : exists A l,
  world_ok noted_world A l /\ base_said 200704 l 196608 12288 /\
  wp (free_pages 200704 0) (fun r s' => r = 0 /\ acHeap s' = acHeap noted_world /\
    objects (vm s') = delete 196608 (objects (vm noted_world)) /\
    ulget_free_pagesMemUsed s' = u32 (ulget_free_pagesMemUsed noted_world - 12288) /\
    exists A', world_ok s' A' (base_drop 200704 l)) noted_world.
Proof.
  destruct noted_world_ok as (A & q & ok & Ea & Ho). exists A, [(q, (196608, 200704, 12288))].
  split; [exact ok |]. split; [exact (noted_said q) |].
  eapply (free_pages_returns noted_world A _ 200704 0 196608 12288 _ ok); [exact (noted_said q) | exact Ho |].
  clear -Ea. lia.
Defined.

(** ** Where the code is not what it says *)

(** Allocating from a heap that has no free block reads the header at address zero. *)
Lemma malloc_exhausted {V} `{KernelVM V} (s : os2 V) T U n :
  heap_ok s T U [] -> mem s !! 4 = None -> 0 < n <= HEAP_SIZE -> malloc n s = None.
Proof.
  intros ok H4 Hn. pose proof (ho_low _ _ _ _ ok). pose proof (ho_free _ _ _ _ ok) as Hf. cbn in Hf.
  unfold malloc, bind, field, get. cbn. destruct (Z.eqb_spec (acHeap s) NULL) as [E | _]; [unfold NULL in E; lia |].
  cbn. destruct (Z.eqb_spec n 0); [lia |]. destruct (Z.ltb_spec HEAP_SIZE n); [lia |]. cbn.
  rewrite Hf. assert (E : forall s' : os2 V, mem s' = mem s -> blk_size NULL s' = None).
  { intros s' Em. unfold blk_size, load. rewrite Em. change (u32 (NULL + 4)) with 4. by rewrite H4. }
  by rewrite E.
Qed.

Lemma malloc_exhausted_runs : fst <$> malloc 131060 booted = Some 65548 /\ (malloc 131060;;; malloc 4) booted = None.
Proof. split; by vm_compute. Qed.

(** The addresses and sizes of the blocks in a list. *)
Fixpoint list_of (fuel : nat) (m : gmap Z Z) (p : Z) : list block :=
  match fuel with
  | O => []
  | S fuel => if p =? NULL then [] else (p, m !!! (p + 4)) :: list_of fuel m (m !!! (p + 8))
  end.

(** Freeing the block between two free ones: it becomes part of the first, which ends where
    the second, at 65984, starts, and they stay two. *)
Lemma compact_misses_neighbour :
  fst <$> (x <- malloc 100;; malloc 100;;; a <- malloc 100;; n <- malloc 100;; b <- malloc 100;; malloc 100;;;
           free b;;; free a;;; free x;;; free n;;; s <- get;; ret (list_of 8 (mem s) (pmbFree s))) booted
  = Some [(65536, 100); (65760, 212); (65984, 100); (66208, 130388)] /\ 65760 + span (65760, 212) = 65984.
Proof. split; by vm_compute. Qed.

(** The address just after the heap counts as one of the heap. *)
Lemma IsHeapAddr_end : fst <$> IsHeapAddr (acHeap booted + HEAP_SIZE) booted = Some true.
Proof. by vm_compute. Qed.

(** A buffer that ends where 64 kilobytes end counts as one that crosses. *)
Lemma crosses_exact : crosses 0x18000 0x8000 = true /\ dma_aligned 0x18000 0x8000.
Proof. by vm_compute. Qed.
